(* ===== verification/_CoqProject ===== *)
-Q . S2P
Prelude.v
RustStr.v
Text.v
RustFloat.v
IpAddr.v
Network.v
Store.v
Pty.v
Scale.v
Options.v
Config.v
Compose.v
BoxState.v
Lifecycle.v
Reference.v
Security.v
Attestation.v
Ratls.v
Sealed.v
Reattest.v
Pool.v
Cri.v
Glob.v
Layers.v
Dockerfile.v
BuildCache.v
Build.v
Image.v
ImageStore.v
CopyStep.v
TreeCopy.v
Streaming.v
DirCache.v
Logs.v
Confine.v
VmSpec.v
GuestBoot.v
ExecServer.v
ExecCommand.v
CriContainer.v
Rootfs.v
Layout.v
VmManager.v
NetProxy.v
Snapshot.v
Sdk.v
ComposeCmd.v
RunCmd.v
CriPod.v
CriQuery.v
Signing.v
Pull.v
AttestChannel.v
NetworkCmd.v
Prune.v
