(* ===== verification/Prelude.v ===== *)
(** * a3s-box: verification development

    a3s-box runs OCI images in micro virtual machines.  A command-line program
    ([src/src/cli]) keeps one record per box in [~/.a3s/boxes.json], starts and
    signals the host processes of the boxes and runs a monitor that restarts
    them; [src/src/core] holds the data types and option parsers; [src/src/runtime]
    holds the stores of networks and volumes, compose projects, the scale manager,
    the pool of warm machines and the trusted-execution services; [src/src/cri] is a
    Kubernetes runtime server; a guest init, a shim around libkrun, a network
    proxy and an SDK complete the system.  This library models the parts that carry its own
    state and decisions, as Rocq definitions that follow the Rust functions, and
    proves what makes them correct.

    ** How the code is modelled

    - [Result<A, E>] is [result E A] below with the [?] operator as monadic bind;
      an error type has one constructor per [Err] of the source.  A panic is
      [None] where one can happen.
    - [u8], [u32], [u64] are [Z] with explicit [wrap], saturating and checked
      operations (a release build does not check overflow); [f32]/[f64] are
      [spec_float].
    - [HashMap<String, _>] is [gmap string].  Code that iterates over one takes
      the iteration order as an instance of [HashOrder] ([Compose]) or is stated
      up to membership ([Network], [Scale]).
    - Text is [string] (its UTF-8 bytes); [RustStr] has the [str] methods.
    - Code outside the repository is an argument: serde's JSON as printing and
      parsing functions with a round-trip law, Unicode case mapping, the clock,
      the liveness of processes, the answers of signals, guests and boots, and
      which system calls fail.  Theorems about them have witnesses with concrete
      functions.

    ** Files

    - [Prelude] (this file): results, machine integers, lists, stable sorting,
      [HashOrder], tactics and the hint database [a3s].
    - [RustStr], [Text], [RustFloat], [IpAddr]: what the code uses of the standard
      library: strings, decimal numbers, whitespace, lines; floats; IP address texts.
    - [Network]: [core/src/network.rs].  Modules [Ipam], [Ipam6] (address
      allocation), policies, [NetworkConfig] and its operations.
    - [Store]: [runtime/src/network/store.rs], [runtime/src/volume/store.rs],
      [core/src/volume.rs], [core/src/traits/store.rs].  A JSON file with
      temporary file and rename; modules [NetworkStore] and [VolumeStore] implement
      the class [KeyedStore], whose laws the volume attachment client uses.
    - [Pty]: [core/src/pty.rs].  Frames over a byte stream, typed messages over the
      class [PtyCodec].
    - [Scale]: [core/src/scale.rs], [runtime/src/scale/].  The scale manager and
      (module [InstanceRegistry]) the registry of instances.
    - [Options]: [core/src/port.rs], [core/src/env.rs], [core/src/dns.rs].
    - [Config]: [core/src/config.rs], the configuration records and defaults.
    - [Compose]: [core/src/compose.rs], [runtime/src/compose.rs].  The compose file,
      the dependency order, projects.
    - [BoxState]: [cli/src/state/], [cli/src/resolve.rs].  Box records, the state
      file, reconciliation, the lock protocol as a step relation, restart policies.
    - [Lifecycle]: the start, stop, pause, unpause, kill, restart, rm and rename
      commands, [cli/src/status.rs], [cli/src/lifecycle.rs], [cli/src/health.rs],
      [cli/src/commands/monitor.rs].  Commands are written in a monad of state
      handle, effects and errors.
    - [Reference]: [runtime/src/oci/reference.rs], image references.
    - [Security]: [core/src/security.rs] and [runtime/src/resize.rs], the hardening
      profile handed to the guest and the control-group commands of a resize.
    - [Attestation]: [runtime/src/tee/attestation.rs], [policy.rs], [verifier.rs],
      [simulate.rs].  Report layout, policy, verification, over the class [X509P384]
      of certificate and signature operations.
    - [Ratls]: [runtime/src/tee/ratls.rs].  Object identifiers, the report inside a
      TLS certificate, the client's verifier.
    - [Sealed]: [runtime/src/tee/sealed.rs], [rollback.rs].  Sealing over the class
      [SealCrypto], the version store and its histories.
    - [Reattest]: [runtime/src/tee/reattest.rs], the schedule of checks and the
      action on persistent failure.
    - [Pool]: [runtime/src/pool/].  The autoscaler, the pool's operations, and the
      interleaving of clients with the maintenance task as a step relation.
    - [Cri]: [cri/src/container.rs], [sandbox.rs], [state.rs], [persistent_store.rs]
      and the lifecycle handlers of [cri/src/runtime_service/].  Two stores
      (modules [ContainerStore], [SandboxStore]), their snapshot on disk, the
      handlers and the exit supervisor over the service's state.
    - [Glob], [Dockerfile]: [runtime/src/oci/build/dockerignore.rs], the wildcard
      matcher, and [dockerfile/], the parser of build files.
    - [Layers], [BuildCache], [Build], [CopyStep]: [runtime/src/oci/build/] and
      [oci/layers.rs].  Layer creation, deletion markers and extraction over a model
      of the file tree; the cache keys and their chain; the build engine's steps with
      the cache in front; the copy instructions.
    - [Image], [ImageStore]: [runtime/src/oci/image.rs], [store.rs].  Image layouts
      and configuration, the store's index with references, eviction and removal.
    - [DirCache]: [runtime/src/cache/], the rootfs and layer caches over one
      directory and its index.
    - [Logs]: [core/src/log.rs], [cli/src/commands/logs.rs],
      [cri/src/runtime_service/log_writer.rs].  Writers, rotation, the readers of [logs].
    - [Streaming]: [cri/src/streaming.rs] and [cri/src/spdy.rs].  Sessions and
      tokens, the WebSocket and SPDY channels of exec, attach and port forwarding.
    - [Confine]: [guest/init/src/namespace.rs] and the security half of [user.rs]:
      users, capabilities, no-new-privileges and the system call filter as a program
      of the kernel's filter machine.
    - [VmSpec], [GuestBoot]: the host's half of a boot ([runtime/src/vm/spec.rs],
      [shim/src/main.rs], [shim/src/krun/context.rs]) and the guest's half
      ([guest/init/src/main.rs], [network.rs], [host_config.rs]).
    - [ExecServer], [ExecCommand]: [guest/init/src/exec_server.rs] and
      [runtime/src/grpc/exec.rs].  Frames, the connection handler, the streaming
      session as a system of interleaved readers, the host client; the command that
      is built, its root, its mounts, its control group and its bounded output.
    - [CriContainer]: [cri/src/runtime_service/] and [convert.rs], the creation of a
      container from the kubelet's request down to the process that is confined.
    - [TreeCopy]: the recursive copies of directory trees ([copy_dir_recursive] of the
      image store, the snapshots and the rootfs providers) over the trees of [Layers].
    - [Rootfs]: [runtime/src/oci/rootfs.rs], [runtime/src/rootfs/].  The root built from
      an image, and the two providers, copying and overlay, behind the class of what a
      box may rely on.
    - [Layout]: [runtime/src/vm/layout.rs], [reap.rs].  The directories, sockets and root
      of a boot, with the root cache of [DirCache] in front.
    - [VmManager]: [runtime/src/vm/mod.rs], [ready.rs], [network.rs], [vmm/handler.rs].
      Boot, destruction and the handle of the shim process as operations on one state,
      every answer of the host an argument.
    - [NetProxy]: [netproxy/src/lib.rs].  The rounds of the port proxy between host
      sockets and the guest's network stack, which is the class of its operations.
    - [Snapshot]: [core/src/snapshot.rs], [runtime/src/snapshot.rs] and the snapshot
      command.
    - [Sdk]: [sdk/src/], [core/src/workload.rs].  Workload envelopes, the adapters'
      registry and capabilities, the HTTP adapter.
    - [ComposeCmd], [RunCmd]: [cli/src/commands/compose.rs], [cleanup.rs] and
      [cli/src/commands/run.rs], [create.rs], [common.rs], [container_update.rs],
      [cli/src/boot.rs].  The commands over a host of records, networks, volumes,
      directories and processes, with what they roll back.
    - [CriPod]: [cri/src/config_mapper.rs], [runtime_service/network.rs] and the pod
      handlers: the pod's configuration, its address, RunPodSandbox and what ends a pod.
    - [CriQuery]: the queries, statistics and metrics of [cri/src/runtime_service/], the
      calls that open sessions, and [cri/src/image_service.rs].
    - [Signing]: [runtime/src/oci/signing/].  Signature policies, their verification and
      the signing of an image, over the classes [OciClient] (the registry client) and
      [SigLibs] (curves, certificates, base64, JSON).
    - [Pull]: [runtime/src/oci/registry.rs], [pull.rs], [credentials.rs].  Pulling with
      the check of every blob, the cache in front of it, pushing, credentials.
    - [AttestChannel]: [guest/init/src/attest_server/] and
      [runtime/src/grpc/attestation.rs].  Secrets, sealing and messages over the attested
      channel, the guest's certificate and its table of hardware certificates.
    - [NetworkCmd]: [cli/src/commands/network.rs], over the files of [Store] and [BoxState].
    - [Prune]: [cli/src/image_usage.rs], [cli/src/commands/rmi.rs], [image_prune.rs],
      [system_prune.rs].  The images boxes use, and removing the others.

    Interaction: [Lifecycle] runs on [BoxState]; [BoxState] uses [Network]'s modes
    and [Config]'s limits; [Compose] produces [Config]'s box configuration with the
    parsers of [Options] and the network names [Network] knows; [Store] persists
    [Network]'s configurations and the volumes boxes attach; [Pool] and [Security]
    read [Config]'s records; [Ratls] verifies with [Attestation], and [Sealed]
    derives its keys from the fields of [Attestation]'s reports.  [Build] parses with
    [Dockerfile], looks up [BuildCache]'s keys, writes [Layers] and ends in an [Image]
    of [ImageStore].  [VmSpec] encodes the environment, mounts and network that
    [GuestBoot] decodes.  [CriContainer] sends requests that [ExecCommand] executes and
    [Confine] confines, over the channel of [ExecServer], whose events [Streaming]
    forwards to the kubelet and [Logs] writes to the container's log.  [VmManager] boots
    in the directories of [Layout], on a root of [Rootfs]; [RunCmd] and [ComposeCmd] record
    boxes with [BoxState] and connect them with [Network] and [Store]; [Snapshot] saves
    [BoxState]'s records with a copy of [TreeCopy].  [CriPod] and [CriQuery] work on the
    service of [Cri] and [CriContainer].  [Pull] asks [Signing] before it writes, names
    images with [Reference] and keeps them in [ImageStore], where [Image] reads them.
    [AttestChannel] is accepted by [Ratls] and seals as [Sealed] does.  [Prune] removes
    from [ImageStore], [BoxState] and, with [NetworkCmd], from [Store].

    ** What the theorems show

    - State file and lifecycle: after any history of commands, creations, health
      checks and monitor rounds, also of commands on stale copies, the file is well formed
      ([Lifecycle.lifecycle_reachable]), though a new box may take a name in use
      ([Lifecycle.add_keeps_no_names]); updates under the lock are serialised, while no
      load has something to reconcile ([BoxState.modify_serialises]); reconciliation, resolution and [stop] do
      exactly what they promise on every branch; restarts, backoff and health
      thresholds have their documented bounds.
    - Networks and stores: allocated addresses are fresh, inside the subnet and
      exhausted exactly at capacity; reachable networks keep their invariant; a
      crash or failed system call never damages a store; both stores refine a
      finite map; attached volumes cannot be removed or pruned.  Network commands keep
      endpoints and records in agreement ([NetworkCmd.networks_stay_consistent]) and
      running boxes in their networks ([NetworkCmd.running_box_keeps_endpoint]).
    - Compose: the dependency search terminates for every iteration order, its
      result is a topological order, and it fails exactly on a cycle or an
      undefined dependency; shutdown reverses it; networks, environment and project
      state are exact.
    - Scale: invariant of every reachable manager, exact and preferential
      scale-down, convergence of one reconciliation round, the drain protocol, exact
      eviction of stale instances.
    - Trusted execution: a report that passes is bound to the nonce, is allowed by the policy
      and has a signature and chain that check out ([Attestation.verified_sound]; what
      passes exactly is [Attestation.verified_iff]); the
      TLS client accepts exactly the certificates bound to such a report; sealed
      data opens where its policy says, also when it is sealed in a guest over the
      attested channel ([AttestChannel.sealed_over_channel]), and secrets arrive there
      ([AttestChannel.secrets_delivered]); no history of seals, unseals, failures and
      restarts lets a version through that is older than one that was stored
      ([Sealed.rollback_rejected]); the
      failure action fires exactly at its threshold and checks keep their interval.
    - Warm pool: in every interleaving each machine is in one place and counted
      once ([Pool.machines_in_one_place]), the pool and the autoscaler's target are
      bounded, and the first fill is all or nothing.
    - CRI server: the snapshot restores the state after a restart and nothing stays
      alive without its machine ([Cri.restart_restores], [Cri.restart_reconciles]);
      starts and exits are recorded once whatever the interleaving; stopping a pod
      stops all of its containers and nothing else.
    - Images: the parser reads back the plain files it prints ([Dockerfile.dockerfile_roundtrip]);
      equal cache keys mean equal histories ([Build.same_key_same_steps]), and a rebuild
      with a warm cache gives the image of a cold one, for steps that are functions and
      layers that restore ([Build.warm_rebuild]); a layer restores the tree it was
      made from ([Layers.layer_restores]); the ignore file decides as its reference
      semantics; the image store's index, digests and size bound are invariant and
      eviction removes the least recently used.  Caches serve only what was stored
      under the key ([DirCache.cache_serves]).
    - Logs: [logs] shows the bytes the box wrote ([Logs.logs_show_output]); CRI log
      lines carry the stream's lines in order with the partial tag where they were cut.
    - Boot: arguments, user, directory, environment, volumes and network settings
      that the host encodes are what the guest runs with ([GuestBoot.process_handoff],
      [GuestBoot.volumes_delivered], [GuestBoot.bridge_handoff]).
    - Confinement: a confined process has at most the capabilities kept, cannot
      regain privileges, and each filtered system call fails
      ([Confine.confined], [Confine.filter_decides]); the same holds for the process of
      a pod's container whatever environment its image or manifest sets
      ([CriContainer.pod_confined]).
    - Exec: in every interleaving the client gets each stream exactly, in order and
      before the exit code ([ExecServer.stream_exact]), flushes divide the stream
      ([ExecServer.flush_boundary]), and mounts stay inside the container's root
      ([ExecCommand.mounts_inside]).
    - CRI containers: a failed creation leaves nothing behind, and cleaning up a
      container never deletes the sources of its mounts.
    - Machines: a boot that fails takes back what it did ([VmManager.boot_failure_clean]), but
      for a network backend whose socket never comes ([VmManager.late_backend_runs_on]), and after any history the manager's state tells the truth about its process
      ([VmManager.vm_reachable]); a root from the cache is the root a cold boot builds
      ([Layout.warm_root_equals_cold]), both providers implement one contract
      ([Rootfs.sessions_refine]), and a copied tree is the tree ([TreeCopy.copy_exact]).
    - Commands: [run] and [compose up] are all or nothing while what they undo can be undone
      ([RunCmd.run_leaves_no_trace], [ComposeCmd.compose_up_atomic]; otherwise they go on,
      [ComposeCmd.failed_undo_leaves_box]); a restarted box has the configuration it was run
      with ([RunCmd.restart_keeps_config]), and a restored one that of its snapshot
      ([Snapshot.snapshot_restores]).
    - Pods: RunPodSandbox is all or nothing, and a pod holds its address exactly while it
      is ready ([CriPod.run_pod_all_or_nothing], [CriPod.pods_hold_addresses]); statistics
      never exceed the machine, sessions open only on running containers, and listed
      images are one per digest ([CriQuery.stats_add_up], [CriQuery.sessions_guarded],
      [CriQuery.images_by_digest]).
    - Registries: an image that is accepted was signed by a trusted key under the tag of its
      digest, or the policy skips verification ([Signing.accepted_is_signed]), and what is signed is
      accepted ([Signing.sign_then_verify]); a pull writes nothing before that and only
      blobs that hash to their digests ([Pull.pull_writes_verified]), a failed one leaves
      nothing ([Pull.failed_pull_leaves_nothing]), and what is pushed is pulled
      ([Pull.push_then_pull_exact]); no command removes the image of a box
      ([Prune.images_in_use_survive]), and a prune of the system leaves exactly what it
      should ([Prune.system_prune_exact]).
    - Proxy and SDK: each round carries bytes in order between the two ends of its
      connections ([NetProxy.proxy_rounds]); the SDK dispatches a workload to the adapter
      its kind and capabilities select ([Sdk.adapter_dispatch]).
    - Protocol and parsers: any sequence of PTY frames is read back from its bytes,
      oversized frames are refused; ports, CIDR blocks, env files, image references,
      object identifiers and the security environment round-trip; host entries
      cannot inject lines into [/etc/hosts].
    - Defects: lost updates of unlocked loads, silent loss of a corrupt state
      file, records updated through a shadowing name, overcommitted capacity,
      overflow at the top of the address space, unchecked memory limits, versions
      that are not authenticated ([Sealed.version_unauthenticated]), counters lost
      with a failed write, an age limit that is never applied, handshakes that can
      be replayed, a pool that overfills, exit codes that are overwritten,
      snapshots written in the wrong order, pods that share an address, connections that are
      half made or outlive their box, images pruned under a box, certificates nobody
      vouched for, a secret that ends the server and blobs stored outside of their directory are theorems too.

    ** Fuel

    [Compose.topo_visit] has one unit of fuel per service plus one, and
    [Compose.service_order_correct] proves that it returns; [Network.scan] has two
    units more than there are used addresses, which [Network.allocate_correct]
    shows to be enough; [RustStr.show_uint] has one per binary digit;
    [Pty.read_frames] one per frame, shown sufficient by the round trip;
    [Ratls.base128_high] has ten, one per base-128 digit of a [u64], shown
    sufficient by [Ratls.oid_roundtrip].  The tails of [Logs] have one unit per byte and
    chunk still to come, and two more, and end ([Logs.logs_show_output]).  The loops of [Glob.wildcard_loop], of the flag
    and duration parsers and of [Dockerfile] have fuel linear in the text they
    consume; tree copies and layer creation the depth of the tree; symbolic links the
    forty the kernel follows; [ImageStore]'s eviction the size of the index, shown
    enough by [ImageStore.evict_lru]; [Streaming]'s and [ExecServer]'s readers one unit
    per byte and one more, shown enough by [Streaming.exec_delivers] and
    [ExecServer.stream_exact]; [Confine.bpf_run] the length of the filter, whose jumps
    go forward; [GuestBoot.read_numbered] one more than the entries of the environment;
    [VmManager]'s wait for a stop one per 50 ms of its timeout and two more
    ([VmManager.shim_stop_correct]), its wait for the guest 52 rounds
    ([VmManager.exec_ready_ends]); [TreeCopy] one per level of the deepest path
    ([TreeCopy.copy_exact]); [AttestChannel.cert_entries] one per byte of a table whose
    entries take 24.

    ** Not modelled

    The kernel, libkrun and its bindings, containerd's protocol library and the vendored
    HTTP/2 library (system calls and foreign code: what is used of them is an argument or
    a class with its laws); gzip, tar, YAML and JSON text; cryptography; the HTTP of
    registries, key brokers and certificate services (library calls); the tables, filters
    and formats that commands print, and [cp], [commit], [export] and [exec] of the command
    line, which stream archives and terminals; the terminal server of the guest
    and its client, the accept loops and the calls of the SEV device (sockets, TLS and device
    files); the shim's calls into libkrun
    and its Windows port forwarding; audit logs, Prometheus counters and operator messages
    (data without decisions). *)

From Stdlib Require Import ZArith Lia Sorting.Sorted.
From stdpp Require Import base gmap strings list numbers.


(** ** Fallible computations

    Rust's [Result<A, E>].  The success type comes last so that [result E] is
    the functor of the [?] operator, which is stdpp's [x ← m; k]. *)
Inductive result (E A : Type) : Type :=
  | Ok (a : A)
  | Err (e : E).
Arguments Ok {E A} a.
Arguments Err {E A} e.

#[export] Instance result_ret E : MRet (result E) := λ A a, Ok a.
#[export] Instance result_bind E : MBind (result E) := λ A B f m,
  match m with Ok a => f a | Err e => Err e end.
#[export] Instance result_fmap E : FMap (result E) := λ A B f m,
  match m with Ok a => Ok (f a) | Err e => Err e end.

#[export] Instance result_eq_dec E A `{EqDecision E, EqDecision A} :
  EqDecision (result E A).
Proof. solve_decision. Defined.

(** [Option::ok_or] *)
Definition ok_or {E A} (e : E) (o : option A) : result E A :=
  match o with Some a => Ok a | None => Err e end.

(** [Result::map_err] *)
Definition map_err {E F A} (f : E → F) (r : result E A) : result F A :=
  match r with Ok a => Ok a | Err e => Err (f e) end.

(** [Result::ok] *)
Definition res_ok {E A} (r : result E A) : option A :=
  match r with Ok a => Some a | Err _ => None end.

Definition is_ok {E A} (r : result E A) : bool :=
  match r with Ok _ => true | Err _ => false end.

Section result_laws.
Context {E A B : Type}.

Lemma bind_Ok (m : result E A) (f : A → result E B) b :
  m ≫= f = Ok b ↔ ∃ a, m = Ok a ∧ f a = Ok b.
Proof.
  destruct m; simpl; split; [eauto | by intros (? & [= <-] & ?) | done | by intros (? & ? & _)].
Qed.

Lemma bind_Err (m : result E A) (f : A → result E B) e :
  m ≫= f = Err e ↔ m = Err e ∨ ∃ a, m = Ok a ∧ f a = Err e.
Proof.
  destruct m; simpl; split; [eauto | | by intros [= <-]; left |];
    intros [?|(? & ? & ?)]; congruence.
Qed.

Lemma ok_or_Ok (e : E) (o : option A) a : ok_or e o = Ok a ↔ o = Some a.
Proof. destruct o; simpl; intuition congruence. Qed.

Lemma ok_or_Err (e e' : E) (o : option A) :
  ok_or e o = Err e' ↔ o = None ∧ e = e'.
Proof. destruct o; simpl; intuition congruence. Qed.

Lemma map_err_Ok {F} (f : E → F) (r : result E A) a :
  map_err f r = Ok a ↔ r = Ok a.
Proof. destruct r; simpl; intuition congruence. Qed.

Lemma is_ok_spec (r : result E A) : is_ok r = true ↔ ∃ a, r = Ok a.
Proof. destruct r; simpl; split; [eauto | done | done | by intros [? ?]]. Qed.

End result_laws.

Section result_mapM.
Context {E A B : Type}.

Lemma mapM_Ok_Forall2 (f : A → result E B) l k :
  mapM f l = Ok k ↔ Forall2 (λ x y, f x = Ok y) l k.
Proof.
  revert k; induction l as [|x l IH]; intros k.
  - split; [intros [= <-]; constructor | by inversion 1].
  - change (mapM f (x :: l)) with (y ← f x; k ← mapM f l; mret (y :: k)).
    rewrite bind_Ok. setoid_rewrite bind_Ok. setoid_rewrite IH. split.
    + intros (y & Hy & ys & Hys & [= <-]). by constructor.
    + inversion 1; subst; eauto 6.
Qed.
End result_mapM.

(** A [for] loop whose body returns early with [?]. *)
Fixpoint for_each {E A} (f : A → result E ()) (l : list A) : result E () :=
  match l with [] => Ok () | x :: l => _ ← f x; for_each f l end.

Lemma for_each_Ok {E A} (f : A → result E ()) l :
  for_each f l = Ok () ↔ ∀ x, x ∈ l → f x = Ok ().
Proof.
  induction l as [|x l IH]; cbn [for_each].
  - split; [by intros _ ? ?%not_elem_of_nil | done].
  - rewrite bind_Ok. setoid_rewrite elem_of_cons. split.
    + intros ([] & Hx & Hl) y [->|Hy]; [done | by apply IH].
    + intros Hall. exists (). split; [auto | apply IH; auto].
Qed.

Lemma mapM_Ok_length {E A B} (f : A → result E B) l k : mapM f l = Ok k → length k = length l.
Proof. rewrite mapM_Ok_Forall2. intros Hf. symmetry. by eapply Forall2_length. Qed.

Lemma mapM_Ok_elem {E A B} (f : A → result E B) l k y :
  mapM f l = Ok k → y ∈ k → ∃ x, x ∈ l ∧ f x = Ok y.
Proof.
  rewrite mapM_Ok_Forall2. induction 1 as [|x z l k Hxz H IH]; [by intros ?%not_elem_of_nil|].
  rewrite elem_of_cons. intros [->|(x' & Hx' & E')%IH]; [exists x | exists x'];
    rewrite elem_of_cons; auto.
Qed.

(** ** Machine integers

    An unsigned [w]-bit integer is a [Z] in [[0, 2^w)].  [wrap] is the
    arithmetic of a release build (no overflow checks), [sat_sub], [sat_add]
    and [sat_mul] are the [saturating_*] methods, [checked_add] the method of
    that name. *)
Local Open Scope Z_scope.

Definition u_max (w : Z) : Z := 2 ^ w - 1.
Definition in_range (w z : Z) : Prop := 0 ≤ z < 2 ^ w.
Definition in_rangeb (w z : Z) : bool := (0 <=? z) && (z <? 2 ^ w).
Definition wrap (w z : Z) : Z := z mod 2 ^ w.
Definition sat_sub (a b : Z) : Z := Z.max 0 (a - b).
Definition sat_add (w a b : Z) : Z := Z.min (u_max w) (a + b).
Definition sat_mul (w a b : Z) : Z := Z.min (u_max w) (a * b).
Definition checked_add (w a b : Z) : option Z :=
  if a + b <? 2 ^ w then Some (a + b) else None.

(** [u64::div_ceil] *)
Definition div_ceil (a b : Z) : Z :=
  let q := a / b in if 0 <? a mod b then q + 1 else q.

(** An [Instant] or a [Duration] is a number of nanoseconds.
    [Duration::from_secs], [Duration::as_secs], and [Instant::elapsed], which
    never goes below zero. *)
Definition from_secs (s : Z) : Z := s * 10 ^ 9.
Definition as_secs (d : Z) : Z := d / 10 ^ 9.
Definition elapsed (now t : Z) : Z := sat_sub now t.

Lemma in_rangeb_spec w z : in_rangeb w z = true ↔ in_range w z.
Proof. unfold in_rangeb, in_range. rewrite andb_true_iff, Z.leb_le, Z.ltb_lt. done. Qed.

#[export] Instance in_range_dec w z : Decision (in_range w z).
Proof. unfold in_range. apply _. Defined.

Lemma wrap_small w z : in_range w z → wrap w z = z.
Proof. apply Z.mod_small. Qed.

Lemma wrap_range w z : 0 ≤ w → in_range w (wrap w z).
Proof. intros. apply Z.mod_pos_bound. by apply Z.pow_pos_nonneg. Qed.

Lemma div_ceil_spec a b :
  0 ≤ a → 0 < b → b * (div_ceil a b - 1) < a ≤ b * div_ceil a b ∨ (a = 0 ∧ div_ceil a b = 0).
Proof.
  intros Ha Hb. unfold div_ceil.
  pose proof (Z.div_mod a b ltac:(lia)). pose proof (Z.mod_pos_bound a b Hb).
  destruct (Z.ltb_spec 0 (a mod b)); [left; nia|].
  destruct (decide (a = 0)) as [->|]; [right; by rewrite Z.div_0_l by lia | left; nia].
Qed.

Local Close Scope Z_scope.

(** ** Generic list and option lemmas *)

Lemma elem_of_snoc {A} (x y : A) l : x ∈ l ++ [y] ↔ x ∈ l ∨ x = y.
Proof. rewrite elem_of_app, list_elem_of_singleton. done. Qed.

Lemma NoDup_snoc {A} (l : list A) x : NoDup (l ++ [x]) ↔ NoDup l ∧ x ∉ l.
Proof.
  rewrite list.NoDup_app. setoid_rewrite list_elem_of_singleton. split.
  - intros (? & Hd & _). split; [done|]. intros Hx. by apply (Hd x).
  - intros (? & Hx). repeat split; [done | by intros ? ? -> | apply NoDup_singleton].
Qed.

Lemma foldl_reverse {A B} (f : A → B → A) a (l : list B) :
  foldl f a (reverse l) = foldr (λ b a, f a b) a l.
Proof.
  induction l as [|x l IH]; [done|]. by rewrite reverse_cons, foldl_app, IH.
Qed.

Lemma existsb_elem_of {A} `{EqDecision A} (x : A) l :
  existsb (λ y, bool_decide (y = x)) l = true ↔ x ∈ l.
Proof.
  rewrite existsb_exists. split.
  - intros (y & Hy & ->%bool_decide_eq_true). by apply list_elem_of_In.
  - intros. exists x. rewrite bool_decide_eq_true. by rewrite <-list_elem_of_In.
Qed.

Lemma filter_all {A} (l : list A) : List.filter (λ _, true) l = l.
Proof. induction l; simpl; congruence. Qed.

Lemma elem_of_filter_b {A} (p : A → bool) (l : list A) x :
  x ∈ List.filter p l ↔ x ∈ l ∧ p x = true.
Proof. rewrite !list_elem_of_In. apply filter_In. Qed.

Lemma filter_length_le {A} (p : A → bool) l : (length (List.filter p l) ≤ length l).
Proof. induction l as [|x l IH]; simpl; [lia|]. destruct (p x); simpl; lia. Qed.

Lemma filter_map {A B} (f : A → B) (p : B → bool) l :
  List.filter p (map f l) = map f (List.filter (λ x, p (f x)) l).
Proof. induction l as [|x l IH]; simpl; [done|]. destruct (p (f x)); simpl; by rewrite IH. Qed.

Lemma filter_filter_b {A} (p q : A → bool) l :
  List.filter p (List.filter q l) = List.filter (λ x, q x && p x) l.
Proof.
  induction l as [|x l IH]; simpl; [done|].
  destruct (q x); simpl; [|done]. destruct (p x); by rewrite IH.
Qed.

Lemma filter_none {A} (p : A → bool) l : (∀ x, x ∈ l → p x = false) → List.filter p l = [].
Proof.
  induction l as [|x l IH]; simpl; [done|]. intros Hl. rewrite Hl by (by left).
  apply IH. intros. apply Hl. by right.
Qed.

Lemma NoDup_map_filter {A B} (f : A → B) (p : A → bool) l :
  NoDup (map f l) → NoDup (map f (List.filter p l)).
Proof.
  induction l as [|x l IH]; simpl; [done|]. intros [Hx Hl]%list.NoDup_cons.
  destruct (p x); simpl; [|auto]. constructor; [|auto].
  intros (y & E & [Hy _]%elem_of_filter_b)%list_elem_of_fmap. apply Hx. rewrite E.
  by apply (list_elem_of_fmap_2 f).
Qed.

(** ** Sorting

    [slice::sort_by_key], [sort_by] and [sort] are stable: insertion from the
    right keeps the order of equal elements.  [dedup] is [Vec::dedup]. *)
Section sort_by.
Context {A : Type} (le : A → A → bool).

Fixpoint insert_by (x : A) (l : list A) : list A :=
  match l with
  | [] => [x]
  | y :: l' => if le x y then x :: l else y :: insert_by x l'
  end.
Definition sort_by (l : list A) : list A := foldr insert_by [] l.

Fixpoint dedup `{EqDecision A} (l : list A) : list A :=
  match l with
  | [] => []
  | x :: l' =>
      match l' with
      | [] => [x]
      | y :: _ => if decide (x = y) then dedup l' else x :: dedup l'
      end
  end.

Lemma insert_by_perm x l : insert_by x l ≡ₚ x :: l.
Proof.
  induction l as [|y l IH]; simpl; [done|]. destruct (le x y); [done|].
  rewrite IH. constructor.
Qed.

Lemma sort_by_perm l : sort_by l ≡ₚ l.
Proof. induction l as [|x l IH]; simpl; [done|]. by rewrite insert_by_perm, IH. Qed.

Context (le_total : ∀ x y, le x y = true ∨ le y x = true).
Context (le_trans : ∀ x y z, le x y = true → le y z = true → le x z = true).

Lemma insert_by_sorted x l :
  StronglySorted (λ a b, le a b = true) l →
  StronglySorted (λ a b, le a b = true) (insert_by x l).
Proof using le_total le_trans.
  induction 1 as [|y l Hl IH Hy]; simpl; [by repeat constructor|].
  destruct (le x y) eqn:E.
  - constructor; [by constructor|]. constructor; [done|].
    eapply Forall_impl; [|exact Hy]. eauto.
  - constructor; [done|]. rewrite insert_by_perm. constructor; [|done].
    destruct (le_total x y); congruence.
Qed.

Lemma sort_by_sorted l : StronglySorted (λ a b, le a b = true) (sort_by l).
Proof using le_total le_trans. induction l; simpl; [constructor|]. by apply insert_by_sorted. Qed.

(** In a sorted list, what [take] keeps is below what it drops. *)
Lemma sorted_take_drop (l : list A) n x y :
  StronglySorted (λ a b, le a b = true) l → x ∈ take n l → y ∈ drop n l → le x y = true.
Proof using Type.
  intros Hs. revert n. induction Hs as [|z l Hs IH Hz]; intros [|n]; simpl;
    try (intros Hx; by apply not_elem_of_nil in Hx).
  intros [->|Hx]%elem_of_cons Hy; [|by eapply IH].
  rewrite list.Forall_forall in Hz. apply Hz. rewrite <-(take_drop n l). apply elem_of_app. by right.
Qed.

Lemma elem_of_dedup `{EqDecision A} (x : A) l : x ∈ dedup l ↔ x ∈ l.
Proof using Type.
  induction l as [|y [|z l] IH]; [done|done|].
  change (dedup (y :: z :: l)) with (if decide (y = z) then dedup (z :: l) else y :: dedup (z :: l)).
  destruct (decide (y = z)) as [->|]; rewrite ?elem_of_cons, IH, ?elem_of_cons; tauto.
Qed.
End sort_by.

(** ** Iteration over a [HashMap]

    The order in which a [HashMap] is iterated is unspecified and differs from
    run to run: code that iterates takes it as an instance of this class. *)
Class HashOrder := {
  hash_iter : ∀ {A}, gmap string A → list (string * A);
  hash_iter_perm : ∀ A (m : gmap string A), hash_iter m ≡ₚ map_to_list m }.

Definition hash_keys `{HashOrder} {A} (m : gmap string A) : list string := (hash_iter m).*1.

(** One possible order, for concrete runs. *)
Definition list_order : HashOrder :=
  {| hash_iter := λ A m, map_to_list m; hash_iter_perm := λ A m, reflexivity _ |}.

Section hash_order.
Context `{HashOrder} {A : Type}.
Implicit Types m : gmap string A.

Lemma elem_of_hash_iter m k a : (k, a) ∈ hash_iter m ↔ m !! k = Some a.
Proof. rewrite hash_iter_perm. apply elem_of_map_to_list. Qed.

Lemma elem_of_hash_keys m k : k ∈ hash_keys m ↔ is_Some (m !! k).
Proof.
  unfold hash_keys. rewrite list_elem_of_fmap. split.
  - intros ([k' a] & -> & Hin%elem_of_hash_iter). eauto.
  - intros [a Ha]. exists (k, a). by rewrite elem_of_hash_iter.
Qed.

Lemma NoDup_hash_keys m : NoDup (hash_keys m).
Proof. unfold hash_keys. rewrite hash_iter_perm. apply NoDup_fst_map_to_list. Qed.

Lemma length_hash_keys m : length (hash_keys m) = size m.
Proof. unfold hash_keys. by rewrite length_fmap, hash_iter_perm, length_map_to_list. Qed.
End hash_order.

(** ** Tactics of the development *)

(** Destruct the scrutinee of some [match] or [if] in the goal or a hypothesis. *)
Ltac split_match :=
  match goal with
  | |- context [match ?x with _ => _ end] => destruct x eqn:?
  | H : context [match ?x with _ => _ end] |- _ => destruct x eqn:?
  end.

(** Decompose hypotheses [_ ≫= _ = Ok _], [ok_or _ _ = Ok _], ... *)
Ltac inv_result :=
  repeat match goal with
  | H : Ok _ = Ok _ |- _ => injection H as H; subst
  | H : Err _ = Err _ |- _ => injection H as H; subst
  | H : Ok _ = Err _ |- _ => discriminate H
  | H : Err _ = Ok _ |- _ => discriminate H
  | H : mret _ = Ok _ |- _ => injection H as H; subst
  | H : mret _ = Err _ |- _ => discriminate H
  | H : mbind _ _ = Ok _ |- _ =>
      apply bind_Ok in H; destruct H as (? & ? & H)
  | H : ok_or _ _ = Ok _ |- _ => apply ok_or_Ok in H
  | H : map_err _ _ = Ok _ |- _ => apply map_err_Ok in H
  end.

Create HintDb a3s.
#[export] Hint Resolve wrap_range : a3s.

