(* ===== verification/RustStr.v ===== *)
(** * The part of Rust's [str] API the modelled code uses

    A [&str] is the sequence of its UTF-8 bytes, a [string].  Every separator
    the code splits on is ASCII, so splitting at a byte is splitting at a
    [char].  Whitespace is Unicode [White_Space], recognised on its UTF-8
    encoding (one, two or three bytes); case conversion is the ASCII one.  The
    file also holds integer parsing and printing and the IPv4 address syntax
    ([std::net::Ipv4Addr]), each with its round trip. *)

From Stdlib Require Import ZArith Lia Ascii.
From stdpp Require Import base gmap strings list numbers.
From S2P Require Import Prelude.

#[global] Arguments String.append !_ _ : simpl nomatch.

(** ** Characters *)

Definition code (c : ascii) : Z := Z.of_N (N_of_ascii c).

(** [str::as_bytes] *)
Fixpoint as_bytes (s : string) : list Z :=
  match s with EmptyString => [] | String a r => code a :: as_bytes r end.

Definition is_digit (c : ascii) : bool := ((48 <=? code c) && (code c <=? 57))%Z.
Definition digit_val (c : ascii) : Z := (code c - 48)%Z.
Definition digit_char (d : Z) : ascii := ascii_of_N (Z.to_N (48 + d)).

Definition is_lower (c : ascii) : bool := ((97 <=? code c) && (code c <=? 122))%Z.
Definition is_upper (c : ascii) : bool := ((65 <=? code c) && (code c <=? 90))%Z.

(** [char::is_ascii_alphanumeric] *)
Definition is_ascii_alphanumeric (c : ascii) : bool :=
  is_digit c || is_lower c || is_upper c.

Definition to_ascii_lower (c : ascii) : ascii :=
  if is_upper c then ascii_of_N (Z.to_N (code c + 32)) else c.

Definition to_ascii_upper (c : ascii) : ascii :=
  if is_lower c then ascii_of_N (Z.to_N (code c - 32)) else c.

Fixpoint str_map (f : ascii → ascii) (s : string) : string :=
  match s with "" => "" | String a r => String (f a) (str_map f r) end.

(** [str::to_ascii_lowercase], [str::to_ascii_uppercase] *)
Definition lowercase : string → string := str_map to_ascii_lower.
Definition uppercase : string → string := str_map to_ascii_upper.

(** [str::eq_ignore_ascii_case] *)
Definition eq_ignore_ascii_case (s t : string) : bool :=
  bool_decide (lowercase s = lowercase t).

(** ** Searching and splitting *)

Fixpoint str_forallb (p : ascii → bool) (s : string) : bool :=
  match s with "" => true | String a r => p a && str_forallb p r end.

(** [str::contains(char)] *)
Fixpoint has_char (c : ascii) (s : string) : bool :=
  match s with "" => false | String a r => Ascii.eqb a c || has_char c r end.

Definition is_empty (s : string) : bool :=
  match s with "" => true | _ => false end.

(** [str::strip_prefix] *)
Fixpoint strip_prefix (p s : string) : option string :=
  match p, s with
  | "", _ => Some s
  | String a p', String b s' => if Ascii.eqb a b then strip_prefix p' s' else None
  | String _ _, "" => None
  end.

Definition starts_with (p s : string) : bool :=
  match strip_prefix p s with Some _ => true | None => false end.

(** [str::strip_suffix] *)
Fixpoint strip_suffix (p s : string) : option string :=
  if bool_decide (s = p) then Some ""
  else match s with
       | "" => None
       | String a r => String a <$> strip_suffix p r
       end.

Definition ends_with (p s : string) : bool :=
  match strip_suffix p s with Some _ => true | None => false end.

(** [str::split(char)] *)
Fixpoint split (c : ascii) (s : string) : list string :=
  match s with
  | "" => [""]
  | String a r =>
      if Ascii.eqb a c then "" :: split c r
      else match split c r with
           | [] => [String a ""]
           | x :: xs => String a x :: xs
           end
  end.

(** [[_]::join] *)
Definition join (sep : string) (l : list string) : string := String.concat sep l.

(** [str::split_once(char)], and [str::rfind(char)] with the two slices around it *)
Fixpoint split_once (c : ascii) (s : string) : option (string * string) :=
  match s with
  | "" => None
  | String a r =>
      if Ascii.eqb a c then Some ("", r)
      else match split_once c r with
           | Some (x, y) => Some (String a x, y)
           | None => None
           end
  end.

Fixpoint rsplit_once (c : ascii) (s : string) : option (string * string) :=
  match s with
  | "" => None
  | String a r =>
      match rsplit_once c r with
      | Some (x, y) => Some (String a x, y)
      | None => if Ascii.eqb a c then Some ("", r) else None
      end
  end.

Fixpoint str_rev_app (s acc : string) : string :=
  match s with "" => acc | String a r => str_rev_app r (String a acc) end.
Definition str_rev (s : string) : string := str_rev_app s "".

(** ** Whitespace *)

(** The UTF-8 encodings of the code points with the [White_Space] property. *)
Definition ws1 (a : ascii) : bool := ((9 <=? code a) && (code a <=? 13) || (code a =? 32))%Z.
Definition ws2 (a b : ascii) : bool :=
  ((code a =? 0xC2) && ((code b =? 0x85) || (code b =? 0xA0)))%Z.
Definition ws3 (a b c : ascii) : bool :=
  ((code a =? 0xE1) && (code b =? 0x9A) && (code c =? 0x80)
   || (code a =? 0xE2) && (code b =? 0x80) &&
      ((0x80 <=? code c) && (code c <=? 0x8A) || (code c =? 0xA8) || (code c =? 0xA9)
       || (code c =? 0xAF))
   || (code a =? 0xE2) && (code b =? 0x81) && (code c =? 0x9F)
   || (code a =? 0xE3) && (code b =? 0x80) && (code c =? 0x80))%Z.

(** Drop white space at the front; [w2] and [w3] say how a multi-byte
    encoding reads in the direction of travel. *)
Fixpoint drop_ws (w2 : ascii → ascii → bool) (w3 : ascii → ascii → ascii → bool)
    (s : string) : string :=
  match s with
  | "" => ""
  | String a r1 =>
      if ws1 a then drop_ws w2 w3 r1
      else match r1 with
           | "" => s
           | String b r2 =>
               if w2 a b then drop_ws w2 w3 r2
               else match r2 with
                    | "" => s
                    | String c r3 => if w3 a b c then drop_ws w2 w3 r3 else s
                    end
           end
  end.

(** [str::trim_start], [str::trim_end], [str::trim] *)
Definition trim_start (s : string) : string := drop_ws ws2 ws3 s.
Definition trim_end (s : string) : string :=
  str_rev (drop_ws (λ a b, ws2 b a) (λ a b c, ws3 c b a) (str_rev s)).
Definition trim (s : string) : string := trim_end (trim_start s).

(** [s.chars().any(char::is_whitespace)] *)
Fixpoint has_ws (s : string) : bool :=
  match s with
  | "" => false
  | String a r1 =>
      ws1 a
      || match r1 with
         | "" => false
         | String b r2 =>
             ws2 a b || match r2 with "" => false | String c _ => ws3 a b c end
         end
      || has_ws r1
  end.

(** [str::split_whitespace]: maximal runs of non-white-space. *)
Fixpoint split_ws_go (s : string) (cur : string) : list string :=
  let flush k := if is_empty cur then k else str_rev cur :: k in
  match s with
  | "" => flush []
  | String a r1 =>
      if ws1 a then flush (split_ws_go r1 "")
      else match r1 with
           | "" => split_ws_go r1 (String a cur)
           | String b r2 =>
               if ws2 a b then flush (split_ws_go r2 "")
               else match r2 with
                    | "" => split_ws_go r1 (String a cur)
                    | String c r3 =>
                        if ws3 a b c then flush (split_ws_go r3 "")
                        else split_ws_go r1 (String a cur)
                    end
           end
  end.
Definition split_whitespace (s : string) : list string := split_ws_go s "".

(** The text before the first white space, and the text from it on. *)
Fixpoint break_ws (s : string) : string * string :=
  match s with
  | "" => ("", "")
  | String a r1 =>
      let go := let '(w, r) := break_ws r1 in (String a w, r) in
      if ws1 a then ("", s)
      else match r1 with
           | "" => go
           | String b r2 =>
               if ws2 a b then ("", s)
               else match r2 with
                    | "" => go
                    | String c _ => if ws3 a b c then ("", s) else go
                    end
           end
  end.

(** One white-space character at the front. *)
Definition strip_ws (s : string) : option string :=
  match s with
  | "" => None
  | String a r1 =>
      if ws1 a then Some r1
      else match r1 with
           | "" => None
           | String b r2 =>
               if ws2 a b then Some r2
               else match r2 with
                    | "" => None
                    | String c r3 => if ws3 a b c then Some r3 else None
                    end
           end
  end.

(** [str::find] of a character, of white space: byte positions. *)
Fixpoint find_char (c : ascii) (s : string) : option nat :=
  match s with
  | "" => None
  | String a r => if Ascii.eqb a c then Some O else S <$> find_char c r
  end.
Definition find_ws (s : string) : option nat :=
  match (break_ws s).2 with "" => None | _ => Some (String.length (break_ws s).1) end.

(** [str::trim_end_matches], for a non-empty pattern: strip it while it is a
    suffix.  Each round removes at least one byte, so the length is enough fuel. *)
Fixpoint trim_end_matches_go (fuel : nat) (p s : string) : string :=
  match fuel with
  | O => s
  | S fuel =>
      match strip_suffix p s with
      | Some s' => trim_end_matches_go fuel p s'
      | None => s
      end
  end.
Definition trim_end_matches (p s : string) : string :=
  trim_end_matches_go (String.length s) p s.

(** [str::chars]: each character as the bytes of its encoding; the bytes
    [0x80..0xBF] continue a character. *)
Definition continues (c : string) : bool :=
  match c with String a _ => ((0x80 <=? code a) && (code a <=? 0xBF))%Z | "" => false end.
Fixpoint chars (s : string) : list string :=
  match s with
  | "" => []
  | String a r =>
      match chars r with
      | c :: cs => if continues c then String a c :: cs else String a "" :: c :: cs
      | [] => [String a ""]
      end
  end.

(** [str::trim_start_matches], [str::trim_matches] with a [char]. *)
Fixpoint trim_start_char (c : ascii) (s : string) : string :=
  match s with
  | String a r => if Ascii.eqb a c then trim_start_char c r else s
  | "" => ""
  end.
Definition trim_end_char (c : ascii) (s : string) : string := str_rev (trim_start_char c (str_rev s)).
Definition trim_matches_char (c : ascii) (s : string) : string := trim_end_char c (trim_start_char c s).

(** [str::replace] of a non-empty pattern: leftmost matches that do not overlap;
    [skip] counts the bytes of a match that are still to be passed over. *)
Fixpoint replace_go (from to s : string) (skip : nat) : string :=
  match s with
  | "" => ""
  | String c r =>
      match skip with
      | S n => replace_go from to r n
      | O => if starts_with from s then to +:+ replace_go from to r (pred (String.length from))
             else String c (replace_go from to r O)
      end
  end.
Definition replace (from to s : string) : string := replace_go from to s O.

(** [str::lines]: the pieces between [\n], without a last empty one; a [\r]
    that stands before a [\n] belongs to the line ending. *)
Definition nl : ascii := "010"%char.
Definition cr : string := String "013"%char "".
Fixpoint lines_go (l : list string) : list string :=
  match l with
  | [] => []
  | [x] => if is_empty x then [] else [x]
  | x :: l => default x (strip_suffix cr x) :: lines_go l
  end.
Definition lines (s : string) : list string := lines_go (split nl s).

(** ** Integers *)

Fixpoint parse_digits (acc : Z) (s : string) : option Z :=
  match s with
  | "" => Some acc
  | String a r => if is_digit a then parse_digits (acc * 10 + digit_val a) r else None
  end.

(** [str::parse::<uN>]: an optional [+], then at least one digit, no overflow. *)
Definition parse_uint (w : Z) (s : string) : option Z :=
  let ds := match s with String "+" r => r | _ => s end in
  if is_empty ds then None
  else n ← parse_digits 0 ds; if (n <? 2 ^ w)%Z then Some n else None.

(** [str::parse::<iN>] *)
Definition parse_int (w : Z) (s : string) : option Z :=
  match s with
  | String "-" r =>
      if is_empty r then None
      else n ← parse_digits 0 r; if (n <=? 2 ^ (w - 1))%Z then Some (- n)%Z else None
  | _ => n ← parse_uint w s; if (n <? 2 ^ (w - 1))%Z then Some n else None
  end.

Fixpoint show_go (fuel : nat) (n : Z) (acc : string) : string :=
  match fuel with
  | O => acc
  | S fuel =>
      let acc' := String (digit_char (n mod 10)) acc in
      if (n <? 10)%Z then acc' else show_go fuel (n / 10) acc'
  end.

(** [uN::to_string]; a number below [2^(k+1)] has at most [k+1] decimal digits. *)
Definition show_uint (n : Z) : string := show_go (S (Z.to_nat (Z.log2 n))) n "".

(** [char::to_digit(radix)] for radix 10 and 16 *)
Definition to_digit (radix : Z) (c : ascii) : option Z :=
  let v :=
    (if is_digit c then digit_val c
     else if is_lower c then code c - 87
     else if is_upper c then code c - 55
     else 255)%Z in
  if (v <? radix)%Z then Some v else None.

(** The digits at the front of the text: their value, their number, the rest. *)
Fixpoint read_digits (radix : Z) (s : string) : Z * nat * string :=
  match s with
  | "" => (0%Z, O, s)
  | String c r =>
      match to_digit radix c with
      | Some d =>
          let '(v, n, rest) := read_digits radix r in
          ((d * radix ^ Z.of_nat n + v)%Z, S n, rest)
      | None => (0%Z, O, s)
      end
  end.

(** ** IPv4 addresses

    An [Ipv4Addr] is its 32-bit value. *)

(** One octet as [std] reads it: one to three digits, no leading zero, at most 255. *)
Definition parse_octet (s : string) : option Z :=
  if is_empty s || (3 <? String.length s)%nat then None
  else if starts_with "0" s && (1 <? String.length s)%nat then None
  else n ← parse_digits 0 s; if (n <? 256)%Z then Some n else None.

Definition of_octets (a b c d : Z) : Z := (a * 2 ^ 24 + b * 2 ^ 16 + c * 2 ^ 8 + d)%Z.

(** [Ipv4Addr::octets] *)
Definition octets (ip : Z) : Z * Z * Z * Z :=
  (Z.shiftr ip 24 mod 256, Z.shiftr ip 16 mod 256, Z.shiftr ip 8 mod 256, ip mod 256)%Z.

(** [str::parse::<Ipv4Addr>] *)
Definition parse_ipv4 (s : string) : option Z :=
  match split "." s with
  | [a; b; c; d] =>
      a ← parse_octet a; b ← parse_octet b; c ← parse_octet c; d ← parse_octet d;
      Some (of_octets a b c d)
  | _ => None
  end.

(** [Ipv4Addr::to_string] *)
Definition show_ipv4 (ip : Z) : string :=
  let '(a, b, c, d) := octets ip in
  join "." [show_uint a; show_uint b; show_uint c; show_uint d].

(** [format!("{:02x}", byte)] *)
Definition hex_digit (d : Z) : ascii :=
  if (d <? 10)%Z then digit_char d else ascii_of_N (Z.to_N (87 + d)).
Definition hex2 (b : Z) : string := String (hex_digit (b / 16)) (String (hex_digit (b mod 16)) "").

(** ** Lemmas on strings *)

Lemma str_app_nil_r s : s +:+ "" = s.
Proof. induction s; simpl; congruence. Qed.

Lemma str_app_assoc s t u : (s +:+ t) +:+ u = s +:+ (t +:+ u).
Proof. induction s; simpl; congruence. Qed.

Lemma str_length_app s t : String.length (s +:+ t) = String.length s + String.length t.
Proof. induction s; simpl; lia. Qed.

Lemma str_app_inj_l s t u : s +:+ t = s +:+ u → t = u.
Proof. induction s; simpl; [done|]. intros [= ?]; auto. Qed.

Lemma ascii_eqb_ne a c : Ascii.eqb a c = false ↔ a ≠ c.
Proof. destruct (Ascii.eqb_spec a c); intuition congruence. Qed.

Lemma has_char_app c s t : has_char c (s +:+ t) = has_char c s || has_char c t.
Proof. induction s; simpl; [done|]. rewrite IHs. by rewrite orb_assoc. Qed.

Lemma has_char_forallb c p s :
  p c = false → str_forallb p s = true → has_char c s = false.
Proof.
  intros Hc. induction s as [|a s IH]; simpl; [done|].
  rewrite andb_true_iff. intros [Ha ?]. rewrite IH by done.
  destruct (Ascii.eqb_spec a c); [congruence|done].
Qed.

Lemma str_forallb_impl (p q : ascii → bool) s :
  (∀ a, p a = true → q a = true) → str_forallb p s = true → str_forallb q s = true.
Proof.
  intros Hpq. induction s as [|a s IH]; simpl; [done|].
  rewrite !andb_true_iff. intros [? ?]; split; auto.
Qed.

(** *** Splitting *)

Lemma split_nonempty c s : split c s ≠ [].
Proof. destruct s; simpl; [done|]. case_match; [done|]. by case_match. Qed.

Lemma split_no c s : has_char c s = false → split c s = [s].
Proof.
  induction s as [|a s IH]; simpl; [done|].
  intros [-> ?]%orb_false_iff. by rewrite IH.
Qed.

Lemma split_cons c x s :
  has_char c x = false → split c (x +:+ String c s) = x :: split c s.
Proof.
  induction x as [|a x IH]; simpl; [by rewrite Ascii.eqb_refl|].
  intros [-> ?]%orb_false_iff. by rewrite IH.
Qed.

Lemma split_join c l :
  l ≠ [] → Forall (λ x, has_char c x = false) l → split c (join (String c "") l) = l.
Proof.
  intros Hne Hl. induction Hl as [|x l Hx Hl IH]; [done|].
  destruct l as [|y l]; [by apply split_no|].
  change (join (String c "") (x :: y :: l)) with (x +:+ String c (join (String c "") (y :: l))).
  rewrite split_cons by done. f_equal. by apply IH.
Qed.

Lemma join_split c s : join (String c "") (split c s) = s.
Proof.
  unfold join. induction s as [|a s IH]; [done|]. cbn [split].
  pose proof (split_nonempty c s). destruct (split c s) as [|x xs]; [done|].
  destruct (Ascii.eqb_spec a c) as [->|].
  - cbn [String.concat] in *. by rewrite <-IH.
  - rewrite <-IH. by destruct xs.
Qed.

Lemma split_pieces c s : Forall (λ x, has_char c x = false) (split c s).
Proof.
  induction s as [|a s IH]; simpl; [by repeat constructor|].
  destruct (Ascii.eqb_spec a c) as [->|]; [by constructor|].
  destruct IH; [by repeat constructor; simpl; rewrite (proj2 (ascii_eqb_ne _ _))|].
  constructor; [simpl; by rewrite (proj2 (ascii_eqb_ne _ _)) | done].
Qed.

Lemma split_once_Some c s x y :
  split_once c s = Some (x, y) ↔ s = x +:+ String c y ∧ has_char c x = false.
Proof.
  revert x y; induction s as [|a s IH]; intros x y; simpl.
  { split; [done|]. by intros [? _]; destruct x. }
  destruct (Ascii.eqb_spec a c) as [->|Hne].
  - split; [by intros [= <- <-]|]. destruct x as [|b x]; simpl.
    + by intros [[= <-] _].
    + intros [[= <- _] Hx]. by rewrite Ascii.eqb_refl in Hx.
  - split.
    + case_match; [|done]. case_match; subst. intros [= <- <-].
      destruct (proj1 (IH _ _) eq_refl) as [-> Hx]. simpl.
      by rewrite (proj2 (ascii_eqb_ne _ _)).
    + destruct x as [|b x]; simpl; [by intros [[= ? _] _]|].
      intros [[= <- ->] [_ Hx]%orb_false_iff].
      by rewrite (proj2 (IH x y)).
Qed.

Lemma split_once_None c s : split_once c s = None ↔ has_char c s = false.
Proof.
  induction s as [|a s IH]; simpl; [done|].
  destruct (Ascii.eqb_spec a c) as [->|]; [done|]. simpl. rewrite <-IH.
  destruct (split_once c s) as [[??]|]; done.
Qed.

Lemma rsplit_once_None c s : rsplit_once c s = None ↔ has_char c s = false.
Proof.
  induction s as [|a s IH]; simpl; [done|].
  destruct (rsplit_once c s) as [[??]|] eqn:E.
  - split; [done|]. intros [_ H]%orb_false_iff. by apply IH in H.
  - rewrite (proj1 IH) by done. by destruct (Ascii.eqb a c).
Qed.

Lemma rsplit_once_Some c s x y :
  rsplit_once c s = Some (x, y) ↔ s = x +:+ String c y ∧ has_char c y = false.
Proof.
  revert x y; induction s as [|a s IH]; intros x y; simpl.
  { split; [done|]. by intros [? _]; destruct x. }
  split.
  - destruct (rsplit_once c s) as [[x' y']|] eqn:E.
    + intros [= <- <-]. destruct (proj1 (IH x' y') eq_refl) as [-> ?]. done.
    + destruct (Ascii.eqb_spec a c) as [->|]; [|done]. intros [= <- <-].
      split; [done|]. by apply rsplit_once_None.
  - destruct x as [|b x]; simpl.
    + intros [[= -> ->] Hy]. by rewrite (proj2 (rsplit_once_None c y) Hy), Ascii.eqb_refl.
    + intros [[= -> ->] Hy]. by rewrite (proj2 (IH x y)).
Qed.

Lemma strip_prefix_Some p s t : strip_prefix p s = Some t ↔ s = p +:+ t.
Proof.
  revert s; induction p as [|a p IH]; intros s; simpl.
  - split; [by intros [= ->] | by intros ->].
  - destruct s as [|b s]; [done|].
    destruct (Ascii.eqb_spec a b) as [->|].
    + rewrite IH. split; [by intros -> | by intros [= ->]].
    + split; [done | by intros [= ? _]].
Qed.

Lemma strip_prefix_app p s : strip_prefix p (p +:+ s) = Some s.
Proof. by apply strip_prefix_Some. Qed.

Lemma starts_with_spec p s : starts_with p s = true ↔ ∃ t, s = p +:+ t.
Proof.
  unfold starts_with. setoid_rewrite <-strip_prefix_Some.
  destruct (strip_prefix p s) eqn:E; split; eauto; [done | by intros [? ?]].
Qed.

(** *** White space *)

(** A string of printable ASCII characters has no white space to trim. *)
Definition visible (c : ascii) : bool := ((33 <=? code c) && (code c <=? 126))%Z.

Lemma code_range c : (0 ≤ code c < 256)%Z.
Proof. unfold code. pose proof (N_ascii_bounded c). lia. Qed.

Lemma visible_not_ws a : visible a = true →
  ws1 a = false ∧ (∀ b, ws2 a b = false ∧ ws2 b a = false) ∧
  (∀ b c, ws3 a b c = false ∧ ws3 c b a = false).
Proof.
  unfold visible, ws1, ws2, ws3. rewrite andb_true_iff, !Z.leb_le. intros [? ?].
  assert (∀ k, (127 ≤ k)%Z → (code a =? k)%Z = false) as E by (intros; lia).
  repeat split; intros; rewrite ?(E 0xC2), ?(E 0xE1), ?(E 0xE2), ?(E 0xE3), ?(E 0x85),
    ?(E 0xA0), ?(E 0x80), ?(E 0xA8), ?(E 0xA9), ?(E 0xAF), ?(E 0x9F) by lia;
    rewrite ?andb_false_r; try done; lia.
Qed.

Lemma drop_ws_head w2 w3 a s :
  (∀ b, w2 a b = false) → (∀ b c, w3 a b c = false) →
  visible a = true → drop_ws w2 w3 (String a s) = String a s.
Proof.
  intros H2 H3 Ha. simpl. rewrite (proj1 (visible_not_ws a Ha)).
  destruct s as [|b s]; [done|]. rewrite H2 by done.
  destruct s as [|c s]; [done|]. by rewrite H3.
Qed.

Lemma drop_ws_visible w2 w3 s :
  (∀ a b, visible a = true → w2 a b = false) →
  (∀ a b c, visible a = true → w3 a b c = false) →
  str_forallb visible s = true → drop_ws w2 w3 s = s.
Proof.
  intros H2 H3. destruct s as [|a s]; [done|].
  intros [Ha _]%andb_true_iff. apply drop_ws_head; auto.
Qed.

Lemma str_rev_app_spec s acc : str_rev_app s acc = str_rev s +:+ acc.
Proof.
  unfold str_rev. revert acc. induction s as [|a s IH]; intros acc; simpl; [done|].
  rewrite IH, (IH (String a "")), str_app_assoc. done.
Qed.

Lemma str_rev_cons a s : str_rev (String a s) = str_rev s +:+ String a "".
Proof. unfold str_rev at 1. simpl. apply str_rev_app_spec. Qed.

Lemma str_rev_app_distr s t : str_rev (s +:+ t) = str_rev t +:+ str_rev s.
Proof.
  induction s as [|a s IH]; simpl; [by rewrite str_app_nil_r|].
  by rewrite !str_rev_cons, IH, str_app_assoc.
Qed.

Lemma str_rev_involutive s : str_rev (str_rev s) = s.
Proof.
  induction s as [|a s IH]; [done|]. rewrite str_rev_cons, str_rev_app_distr, IH. done.
Qed.

Lemma str_forallb_app p s t : str_forallb p (s +:+ t) = str_forallb p s && str_forallb p t.
Proof. induction s; simpl; [done|]. by rewrite IHs, andb_assoc. Qed.

Lemma str_forallb_rev p s : str_forallb p (str_rev s) = str_forallb p s.
Proof.
  induction s as [|a s IH]; [done|].
  rewrite str_rev_cons, str_forallb_app, IH. simpl. rewrite andb_true_r. apply andb_comm.
Qed.

Lemma trim_visible s : str_forallb visible s = true → trim s = s.
Proof.
  intros Hs. unfold trim, trim_end, trim_start.
  rewrite (drop_ws_visible ws2 ws3 s); try done.
  2: intros a b Ha; by apply (visible_not_ws a).
  2: intros a b c Ha; by apply (visible_not_ws a).
  rewrite drop_ws_visible; [apply str_rev_involutive | | | by rewrite str_forallb_rev].
  - intros a b Ha; by apply (visible_not_ws a).
  - intros a b c Ha. by apply (visible_not_ws a).
Qed.

Lemma strip_suffix_Some p s t : strip_suffix p s = Some t → s = t +:+ p.
Proof.
  revert t. induction s as [|a s IH]; simpl; intros t; case_bool_decide as E.
  - intros [= <-]. by rewrite <-E.
  - done.
  - intros [= <-]. by rewrite <-E.
  - destruct (strip_suffix p s) as [u|]; simpl; [|done]. intros [= <-]. simpl.
    by rewrite <-(IH u).
Qed.

Lemma strip_suffix_app p s : strip_suffix p (s +:+ p) = Some s.
Proof.
  induction s as [|a s IH]; cbn [String.append].
  - destruct p; cbn [strip_suffix]; by rewrite bool_decide_true.
  - cbn [strip_suffix]. rewrite bool_decide_false; [by rewrite IH|].
    intros E. apply (f_equal String.length) in E. simpl in E. rewrite str_length_app in E. lia.
Qed.

(** A suffix with a character the text does not have. *)
Lemma strip_suffix_no c p s :
  has_char c p = true → has_char c s = false → strip_suffix p s = None.
Proof.
  intros Hp Hs. destruct (strip_suffix p s) as [t|] eqn:E; [|done].
  apply strip_suffix_Some in E as ->. rewrite has_char_app, Hp, orb_true_r in Hs. done.
Qed.

Lemma ends_with_app p s : ends_with p (s +:+ p) = true.
Proof. unfold ends_with. by rewrite strip_suffix_app. Qed.

Lemma ends_with_no c p s : has_char c p = true → has_char c s = false → ends_with p s = false.
Proof. intros. unfold ends_with. by erewrite strip_suffix_no. Qed.

Lemma trim_end_matches_once c p s :
  has_char c p = true → has_char c s = false → trim_end_matches p (s +:+ p) = s.
Proof.
  intros Hp Hs. unfold trim_end_matches.
  destruct (String.length (s +:+ p)) as [|k] eqn:E.
  - rewrite str_length_app in E. destruct p; [done|simpl in E; lia].
  - cbn [trim_end_matches_go]. rewrite strip_suffix_app.
    destruct k; cbn [trim_end_matches_go]; [done|]. by erewrite strip_suffix_no.
Qed.

Definition is_ascii (s : string) : bool := str_forallb (λ c, code c <? 128)%Z s.

Lemma str_map_id f s p :
  (∀ c, p c = true → f c = c) → str_forallb p s = true → str_map f s = s.
Proof.
  intros Hf. induction s as [|a s IH]; simpl; [done|].
  intros [Ha Hs]%andb_true_iff. by rewrite Hf, IH.
Qed.

Lemma str_map_app f s t : str_map f (s +:+ t) = str_map f s +:+ str_map f t.
Proof. induction s as [|a s IH]; simpl; [done|]. by rewrite IH. Qed.

Lemma lowercase_digits s : str_forallb is_digit s = true → lowercase s = s.
Proof.
  apply str_map_id. intros c. unfold is_digit, to_ascii_lower, is_upper.
  intros [H1%Z.leb_le H2%Z.leb_le]%andb_true_iff.
  rewrite (proj2 (Z.leb_gt 65 (code c))) by lia. done.
Qed.

(** *** Integers *)

Lemma digit_char_spec d : (0 ≤ d < 10)%Z →
  is_digit (digit_char d) = true ∧ digit_val (digit_char d) = d.
Proof.
  intros Hd. assert (d = 0 ∨ d = 1 ∨ d = 2 ∨ d = 3 ∨ d = 4 ∨ d = 5 ∨ d = 6 ∨ d = 7 ∨ d = 8
    ∨ d = 9)%Z as H by lia.
  by destruct H as [->|[->|[->|[->|[->|[->|[->|[->|[->| ->]]]]]]]]].
Qed.

Lemma parse_show_go fuel n s :
  (0 ≤ n < 10 ^ Z.of_nat fuel)%Z → parse_digits 0 (show_go fuel n s) = parse_digits n s.
Proof.
  revert n s. induction fuel as [|fuel IH]; intros n s Hn.
  { simpl in *. by replace n with 0%Z by lia. }
  pose proof (Z.mod_pos_bound n 10 ltac:(lia)) as Hm.
  destruct (digit_char_spec _ Hm) as [Hd Hv]. cbn [show_go].
  destruct (Z.ltb_spec n 10).
  - cbn [parse_digits]. rewrite Hd, Hv, Z.mod_small by lia. done.
  - rewrite IH.
    + cbn [parse_digits]. rewrite Hd, Hv. f_equal. pose proof (Z.div_mod n 10). lia.
    + rewrite Nat2Z.inj_succ, Z.pow_succ_r in Hn by lia.
      split; [apply Z.div_pos; lia | apply Z.div_lt_upper_bound; lia].
Qed.

Lemma show_fuel_enough n : (0 ≤ n → n < 10 ^ Z.of_nat (S (Z.to_nat (Z.log2 n))))%Z.
Proof.
  intros Hn. rewrite Nat2Z.inj_succ, Z2Nat.id by apply Z.log2_nonneg.
  destruct (decide (n = 0%Z)) as [->|]; [done|].
  eapply Z.lt_le_trans; [apply Z.log2_spec; lia|].
  apply Z.pow_le_mono_l. lia.
Qed.

Lemma parse_digits_show n : (0 ≤ n)%Z → parse_digits 0 (show_uint n) = Some n.
Proof.
  intros. unfold show_uint. rewrite parse_show_go; [done|].
  split; [done | by apply show_fuel_enough].
Qed.

Lemma show_go_digits fuel n s :
  (0 ≤ n)%Z → str_forallb is_digit s = true → str_forallb is_digit (show_go fuel n s) = true.
Proof.
  revert n s. induction fuel as [|fuel IH]; intros n s Hn Hs; [done|].
  cbn [show_go].
  assert (is_digit (digit_char (n mod 10)) = true) as Hd
    by (apply digit_char_spec, Z.mod_pos_bound; lia).
  destruct (Z.ltb_spec n 10); [by simpl; rewrite Hd|].
  apply IH; [apply Z.div_pos; lia | by simpl; rewrite Hd].
Qed.

Lemma show_go_nonempty fuel n s : is_empty s = false → is_empty (show_go fuel n s) = false.
Proof.
  revert n s. induction fuel; intros n s Hs; [done|]. cbn [show_go].
  case_match; [done | by apply IHfuel].
Qed.

Lemma show_uint_digits n : (0 ≤ n)%Z → str_forallb is_digit (show_uint n) = true.
Proof. intros. by apply show_go_digits. Qed.

Lemma show_uint_nonempty n : is_empty (show_uint n) = false.
Proof. unfold show_uint. cbn [show_go]. case_match; [done | by apply show_go_nonempty]. Qed.

Lemma is_digit_visible c : is_digit c = true → visible c = true.
Proof. unfold is_digit, visible. lia. Qed.

Lemma show_uint_visible n : (0 ≤ n)%Z → str_forallb visible (show_uint n) = true.
Proof. intros. eapply str_forallb_impl; [apply is_digit_visible | by apply show_uint_digits]. Qed.

Lemma show_uint_no_char c n :
  is_digit c = false → (0 ≤ n)%Z → has_char c (show_uint n) = false.
Proof. intros. eapply has_char_forallb; [done | by apply show_uint_digits]. Qed.

(** Parsing what was printed gives the number back. *)
Lemma parse_show_uint w n : in_range w n → parse_uint w (show_uint n) = Some n.
Proof.
  intros [H0 Hw]. unfold parse_uint.
  pose proof (show_uint_digits n H0) as Hd. pose proof (show_uint_nonempty n) as Hne.
  pose proof (parse_digits_show n H0) as Hp.
  destruct (show_uint n) as [|a r] eqn:E; [done|].
  simpl in Hd. apply andb_true_iff in Hd as [Hd _].
  replace (match String a r with String "+" r => r | _ => String a r end)
    with (String a r) by (by destruct a as [[] [] [] [] [] [] [] []]).
  rewrite Hne, Hp. simpl. by rewrite (proj2 (Z.ltb_lt _ _)).
Qed.

Lemma parse_digits_nonneg acc s n :
  (0 ≤ acc)%Z → parse_digits acc s = Some n → (0 ≤ n)%Z.
Proof.
  revert acc. induction s as [|a s IH]; simpl; intros acc Hacc; [by intros [= <-]|].
  case_match eqn:E; [|done]. apply IH. unfold is_digit, digit_val in *. lia.
Qed.

Lemma parse_uint_range w s n : parse_uint w s = Some n → in_range w n.
Proof.
  unfold parse_uint. case_match; [done|].
  intros (m & Hm & Hn)%bind_Some. case_match eqn:E; [|done]. injection Hn as ->.
  apply Z.ltb_lt in E. split; [by eapply parse_digits_nonneg in Hm|done].
Qed.

(** *** IPv4 *)

Definition octet_ok (n : Z) : bool := bool_decide (parse_octet (show_uint n) = Some n).

Lemma octet_ok_all : forallb octet_ok (seqZ 0 256) = true.
Proof. vm_compute. reflexivity. Qed.

Lemma parse_show_octet n : (0 ≤ n < 256)%Z → parse_octet (show_uint n) = Some n.
Proof.
  intros Hn. apply (bool_decide_eq_true_1 (parse_octet (show_uint n) = Some n)).
  apply (proj1 (forallb_forall octet_ok (seqZ 0 256)) octet_ok_all n).
  apply list_elem_of_In, elem_of_seqZ. lia.
Qed.

Lemma parse_octet_range s n : parse_octet s = Some n → (0 ≤ n < 256)%Z.
Proof.
  unfold parse_octet. do 2 (case_match; [done|]).
  intros (m & Hm & Hn)%bind_Some. case_match eqn:E; [|done]. injection Hn as ->.
  apply Z.ltb_lt in E. split; [by eapply parse_digits_nonneg in Hm|done].
Qed.

Lemma octets_range ip a b c d : octets ip = (a, b, c, d) →
  (0 ≤ a < 256 ∧ 0 ≤ b < 256 ∧ 0 ≤ c < 256 ∧ 0 ≤ d < 256)%Z.
Proof.
  intros [= <- <- <- <-]. repeat split; apply Z.mod_pos_bound; lia.
Qed.

Lemma of_octets_octets ip a b c d :
  in_range 32 ip → octets ip = (a, b, c, d) → of_octets a b c d = ip.
Proof.
  unfold octets, of_octets, in_range. rewrite !Z.shiftr_div_pow2 by lia.
  intros Hip [= <- <- <- <-].
  change (2 ^ 32)%Z with 4294967296%Z in Hip. change (2 ^ 24)%Z with 16777216%Z.
  change (2 ^ 16)%Z with 65536%Z. change (2 ^ 8)%Z with 256%Z.
  Z.to_euclidean_division_equations. lia.
Qed.

Lemma octets_of_octets a b c d :
  (0 ≤ a < 256 → 0 ≤ b < 256 → 0 ≤ c < 256 → 0 ≤ d < 256 →
   octets (of_octets a b c d) = (a, b, c, d))%Z.
Proof.
  intros. unfold octets, of_octets. rewrite !Z.shiftr_div_pow2 by lia.
  change (2 ^ 24)%Z with 16777216%Z. change (2 ^ 16)%Z with 65536%Z.
  change (2 ^ 8)%Z with 256%Z.
  repeat f_equal; Z.to_euclidean_division_equations; lia.
Qed.

Lemma of_octets_range a b c d :
  (0 ≤ a < 256 → 0 ≤ b < 256 → 0 ≤ c < 256 → 0 ≤ d < 256 → in_range 32 (of_octets a b c d))%Z.
Proof.
  intros. unfold of_octets, in_range. change (2 ^ 32)%Z with 4294967296%Z.
  change (2 ^ 24)%Z with 16777216%Z. change (2 ^ 16)%Z with 65536%Z.
  change (2 ^ 8)%Z with 256%Z. lia.
Qed.

Lemma parse_show_ipv4 ip : in_range 32 ip → parse_ipv4 (show_ipv4 ip) = Some ip.
Proof.
  intros Hip. unfold show_ipv4. destruct (octets ip) as [[[a b] c] d] eqn:E.
  destruct (octets_range _ _ _ _ _ E) as (? & ? & ? & ?).
  unfold parse_ipv4. rewrite split_join.
  - rewrite !parse_show_octet by done. simpl. f_equal. by apply of_octets_octets.
  - done.
  - repeat constructor; apply show_uint_no_char; (done || lia).
Qed.

Lemma parse_ipv4_range s ip : parse_ipv4 s = Some ip → in_range 32 ip.
Proof.
  unfold parse_ipv4.
  destruct (split "." s) as [|a [|b [|c [|d [|]]]]]; try done.
  intros (a' & Ha & (b' & Hb & (c' & Hc & (d' & Hd & [= <-])%bind_Some)%bind_Some)%bind_Some)%bind_Some.
  apply of_octets_range; by eapply parse_octet_range.
Qed.

Lemma show_ipv4_no_slash ip : has_char "/" (show_ipv4 ip) = false.
Proof.
  unfold show_ipv4. destruct (octets ip) as [[[a b] c] d] eqn:E.
  destruct (octets_range _ _ _ _ _ E) as (? & ? & ? & ?). unfold join; simpl.
  rewrite !has_char_app. simpl. rewrite !has_char_app. simpl.
  rewrite !has_char_app. simpl.
  by rewrite !show_uint_no_char by (done || lia).
Qed.

Lemma show_ipv4_inj ip ip' :
  in_range 32 ip → in_range 32 ip' → show_ipv4 ip = show_ipv4 ip' → ip = ip'.
Proof.
  intros H H' E. apply (f_equal parse_ipv4) in E.
  rewrite !parse_show_ipv4 in E by done. congruence.
Qed.

#[export] Hint Resolve parse_show_uint parse_uint_range parse_show_ipv4 parse_ipv4_range : a3s.
