(* ===== verification/Text.v ===== *)
(** * Text: words and lines

    Lemmas on the string functions of [RustStr] that several parsers share: what
    [lines], [split_whitespace], [trim] and the word splitters read back from text
    that was put together from visible words. *)

From Stdlib Require Import ZArith Lia Ascii.
From stdpp Require Import base gmap strings list numbers.
From S2P Require Import Prelude RustStr.

(** ** Lines of a generated file *)

Definition newline : string := String nl "".
Definition carriage : ascii := "013"%char.
Definition one_line (s : string) : Prop := has_char nl s = false ∧ has_char carriage s = false.

Lemma strip_suffix_cr s : has_char carriage s = false → strip_suffix cr s = None.
Proof.
  intros Hs. destruct (strip_suffix cr s) as [t|] eqn:E; [|done].
  apply strip_suffix_Some in E as ->. rewrite has_char_app in Hs.
  by rewrite orb_true_r in Hs.
Qed.

Lemma join_snoc_newline ls : ls ≠ [] → (join newline ls +:+ newline = join newline (ls ++ [""]))%string.
Proof.
  intros Hne. induction ls as [|x [|y ls] IH]; [done | done |].
  change (join newline (x :: y :: ls)) with (x +:+ newline +:+ join newline (y :: ls)).
  rewrite !str_app_assoc, IH by done. done.
Qed.

(** What [lines] reads back from a file written with [join] and a final newline. *)
Lemma lines_join ls :
  ls ≠ [] → Forall (λ s, has_char nl s = false) ls →
  lines (join newline ls +:+ newline) = map (λ x, default x (strip_suffix cr x)) ls.
Proof.
  intros Hne Hls. rewrite join_snoc_newline by done. unfold lines, newline.
  rewrite split_join; [|by destruct ls | rewrite Forall_app; split; [done | by repeat constructor]].
  clear. induction ls as [|x ls IH]; [done|].
  cbn [app]. destruct (ls ++ [""%string]) eqn:E; [by destruct ls|].
  cbn [lines_go]. cbn [map]. f_equal. apply IH.
Qed.

Lemma lines_join_clean ls :
  ls ≠ [] → Forall one_line ls → lines (join newline ls +:+ newline) = ls.
Proof.
  intros Hne Hls. rewrite lines_join; [|done|].
  - rewrite <-(map_id ls) at 2. apply map_ext_in. intros x Hx.
    rewrite strip_suffix_cr; [done|]. apply list_elem_of_In in Hx.
    rewrite list.Forall_forall in Hls. by apply Hls.
  - eapply Forall_impl; [|exact Hls]. by intros ? [].
Qed.

Lemma visible_one_line s : str_forallb visible s = true → one_line s.
Proof. intros. split; by apply (has_char_forallb _ visible). Qed.

Lemma one_line_app s t : one_line s → one_line t → one_line (s +:+ t).
Proof. intros [H1 H2] [H3 H4]. split; by rewrite has_char_app, ?H1, ?H2, ?H3, ?H4. Qed.

Lemma one_line_join sep l : one_line sep → Forall one_line l → one_line (join sep l).
Proof.
  intros Hsep. induction 1 as [|x l Hx Hl IH]; [done|].
  destruct l as [|y l]; [done|].
  change (join sep (x :: y :: l)) with (x +:+ sep +:+ join sep (y :: l)).
  auto using one_line_app.
Qed.

#[export] Hint Resolve visible_one_line one_line_app one_line_join : a3s.

(** ** Words *)

(** Text that begins, and ends, with a visible character. *)
Definition first_visible (s : string) : bool :=
  match s with String a _ => visible a | "" => false end.
Definition tidy (s : string) : bool := first_visible s && first_visible (str_rev s).
Definition word (s : string) : bool := negb (is_empty s) && str_forallb visible s.

Lemma first_visible_app s t : first_visible s = true → first_visible (s +:+ t) = true.
Proof. by destruct s. Qed.

Lemma tidy_app s t : first_visible s = true → tidy t = true → tidy (s +:+ t) = true.
Proof.
  unfold tidy. rewrite !andb_true_iff. intros Hs [_ Ht]. split; [by apply first_visible_app|].
  rewrite str_rev_app_distr. by apply first_visible_app.
Qed.

(** The end decides whether text is tidy at its end. *)
Lemma tidy_app_r s u t : first_visible s = true → first_visible (str_rev t) = true →
  tidy (s +:+ u +:+ t) = true.
Proof.
  intros Hs Ht. unfold tidy. rewrite first_visible_app by done. rewrite !str_rev_app_distr, str_app_assoc.
  by apply first_visible_app.
Qed.

Lemma word_tidy s : word s = true → tidy s = true.
Proof.
  unfold word, tidy. rewrite andb_true_iff, negb_true_iff. intros [Hne Hs].
  assert (∀ t, is_empty t = false → str_forallb visible t = true → first_visible t = true) as Hf.
  { intros [|a t]; [done|]. cbn. by intros _ [? _]%andb_true_iff. }
  rewrite Hf by done. cbn. apply Hf; [|by rewrite str_forallb_rev].
  destruct s as [|a s]; [done|]. rewrite str_rev_cons. by destruct (str_rev s).
Qed.

Lemma word_visible s : word s = true → str_forallb visible s = true.
Proof. unfold word. by intros [_ ?]%andb_true_iff. Qed.

Lemma word_ne s : word s = true → is_empty s = false.
Proof. unfold word. by intros [?%negb_true_iff _]%andb_true_iff. Qed.

Lemma trim_start_first s : first_visible s = true → trim_start s = s.
Proof.
  destruct s as [|a s]; [done|]. cbn [first_visible]. intros Ha. unfold trim_start.
  apply drop_ws_head; [| |done]; intros; by apply (visible_not_ws a).
Qed.

Lemma trim_end_last s : first_visible (str_rev s) = true → trim_end s = s.
Proof.
  intros Hs. unfold trim_end. destruct (str_rev s) as [|a r] eqn:E; [done|]. cbn [first_visible] in Hs.
  rewrite drop_ws_head; [by rewrite <-E, str_rev_involutive | | |done]; intros; by apply (visible_not_ws a).
Qed.

Lemma trim_tidy s : tidy s = true → trim s = s.
Proof.
  intros [H1 H2]%andb_true_iff. unfold trim. rewrite trim_start_first by done. by apply trim_end_last.
Qed.

Lemma trim_start_space s : trim_start (String " " s) = trim_start s.
Proof. done. Qed.

Lemma tidy_first s : tidy s = true → first_visible s = true.
Proof. by intros [? _]%andb_true_iff. Qed.

Lemma tidy_ne s : tidy s = true → is_empty s = false.
Proof. by destruct s. Qed.

#[export] Hint Resolve word_tidy word_visible tidy_first first_visible_app : a3s.

Lemma break_ws_cons a s : visible a = true →
  break_ws (String a s) = let '(w, r) := break_ws s in (String a w, r).
Proof.
  intros Ha. destruct (visible_not_ws a Ha) as (H1 & H2 & H3). cbn [break_ws]. rewrite H1.
  destruct s as [|b s]; [done|]. rewrite (proj1 (H2 b)). destruct s as [|c s]; [done|].
  by rewrite (proj1 (H3 b c)).
Qed.

(** A visible word ends at the next space, or at the end. *)
Lemma break_ws_space w r : str_forallb visible w = true →
  break_ws (w +:+ String " " r) = (w, String " " r).
Proof.
  induction w as [|a w IH]; cbn [String.append str_forallb]; [done|].
  intros [Ha Hw]%andb_true_iff. by rewrite break_ws_cons, IH.
Qed.

Lemma break_ws_word w : str_forallb visible w = true → break_ws w = (w, "").
Proof.
  induction w as [|a w IH]; cbn [str_forallb]; [done|].
  intros [Ha Hw]%andb_true_iff. by rewrite break_ws_cons, IH.
Qed.

Lemma strip_ws_space r : strip_ws (String " " r) = Some r.
Proof. done. Qed.

(** *** White-space separated words *)

Lemma split_ws_go_cons a s cur : visible a = true →
  split_ws_go (String a s) cur = split_ws_go s (String a cur).
Proof.
  intros Ha. destruct (visible_not_ws a Ha) as (H1 & H2 & H3). cbn [split_ws_go]. rewrite H1.
  destruct s as [|b s]; [done|]. rewrite (proj1 (H2 b)). destruct s as [|c s]; [done|].
  by rewrite (proj1 (H3 b c)).
Qed.

Lemma split_ws_go_word w s cur : str_forallb visible w = true →
  split_ws_go (w +:+ s) cur = split_ws_go s (str_rev w +:+ cur).
Proof.
  revert cur. induction w as [|a w IH]; intros cur; cbn [str_forallb String.append]; [done|].
  intros [Ha Hw]%andb_true_iff. rewrite split_ws_go_cons, IH by done.
  by rewrite str_rev_cons, str_app_assoc.
Qed.

Lemma str_rev_ne s : is_empty s = false → is_empty (str_rev s) = false.
Proof. destruct s as [|a s]; [done|]. rewrite str_rev_cons. by destruct (str_rev s). Qed.

Lemma split_whitespace_words ws : Forall (λ w, word w = true) ws →
  split_whitespace (join " " ws) = ws.
Proof.
  unfold split_whitespace. intros Hws. induction Hws as [|w ws Hw Hws IH]; [done|].
  assert (Hv := word_visible _ Hw). assert (He := str_rev_ne _ (word_ne _ Hw)).
  destruct ws as [|w' ws].
  - change (join " " [w]) with w. rewrite <-(str_app_nil_r w) at 1.
    rewrite split_ws_go_word by done. rewrite str_app_nil_r. cbn [split_ws_go].
    by rewrite He, str_rev_involutive.
  - change (join " " (w :: w' :: ws)) with (w +:+ String " " (join " " (w' :: ws))).
    rewrite split_ws_go_word by done. rewrite str_app_nil_r.
    change (split_ws_go (String " " ?r) ?c) with
      (if is_empty c then split_ws_go r "" else str_rev c :: split_ws_go r "").
    by rewrite He, str_rev_involutive, IH.
Qed.

(** Text joined from words is tidy. *)
Lemma join_words_tidy ws : ws ≠ [] → Forall (λ w, word w = true) ws → tidy (join " " ws) = true.
Proof.
  intros Hne Hws. destruct Hws as [|w ws Hw Hws]; [done|]. clear Hne. revert w Hw.
  induction Hws as [|w' ws Hw' Hws IH]; intros w Hw; [by apply word_tidy|].
  change (join " " (w :: w' :: ws)) with (w +:+ " " +:+ join " " (w' :: ws)).
  rewrite <-str_app_assoc. apply tidy_app; [by auto with a3s | by apply IH].
Qed.

(** ** Lengths: word splitters make progress *)

Lemma str_rev_length s : String.length (str_rev s) = String.length s.
Proof.
  induction s as [|a s IH]; [done|]. rewrite str_rev_cons, str_length_app, IH. cbn. lia.
Qed.

Lemma drop_ws_length w2 w3 s : String.length (drop_ws w2 w3 s) ≤ String.length s.
Proof.
  induction s as [s IH] using (induction_ltof1 _ String.length). unfold ltof in IH.
  destruct s as [|a [|b [|c s]]]; cbn [drop_ws]; repeat case_match; cbn [String.length]; try lia;
    match goal with |- context [drop_ws w2 w3 ?t] => pose proof (IH t); cbn [String.length] in *; lia
    | _ => idtac end.
Qed.

Lemma trim_start_length s : String.length (trim_start s) ≤ String.length s.
Proof. apply drop_ws_length. Qed.

Lemma trim_length s : String.length (trim s) ≤ String.length s.
Proof.
  unfold trim, trim_end. rewrite str_rev_length.
  pose proof (drop_ws_length (λ a b, ws2 b a) (λ a b c, ws3 c b a) (str_rev (trim_start s))).
  rewrite str_rev_length in *. pose proof (trim_start_length s). lia.
Qed.

Lemma break_ws_app s : s = (break_ws s).1 +:+ (break_ws s).2.
Proof.
  induction s as [|a s IH]; [done|]. cbn [break_ws].
  assert (E : String a s = (let '(w, r) := break_ws s in (String a w, r)).1 +:+
                           (let '(w, r) := break_ws s in (String a w, r)).2).
  { destruct (break_ws s) as [w r]. cbn in *. by rewrite <-IH. }
  repeat case_match; done.
Qed.

(** What follows the first word starts with white space. *)
Lemma break_ws_rest s : (break_ws s).2 = "" ∨ is_Some (strip_ws (break_ws s).2).
Proof.
  induction s as [|a s IH]; [by left|]. cbn [break_ws].
  assert (E : (let '(w, r) := break_ws s in (String a w, r)).2 = (break_ws s).2) by (by destruct (break_ws s)).
  destruct (ws1 a) eqn:H1; [right; cbn; rewrite H1; eauto|].
  destruct s as [|b s]; [by left|]. destruct (ws2 a b) eqn:H2; [right; cbn; rewrite H1, H2; eauto|].
  destruct s as [|c s]; [rewrite E; exact IH|]. destruct (ws3 a b c) eqn:H3; [right; cbn; rewrite H1, H2, H3; eauto|].
  rewrite E. exact IH.
Qed.

Lemma trim_start_strip s t : strip_ws s = Some t → trim_start s = trim_start t.
Proof.
  unfold trim_start. destruct s as [|a r1]; cbn [strip_ws drop_ws]; [done|].
  destruct (ws1 a); [by intros [= <-]|]. destruct r1 as [|b r2]; [done|].
  destruct (ws2 a b); [by intros [= <-]|]. destruct r2 as [|c r3]; [done|].
  destruct (ws3 a b c); [by intros [= <-] | done].
Qed.

Lemma strip_ws_length s t : strip_ws s = Some t → String.length t < String.length s.
Proof.
  destruct s as [|a [|b [|c s]]]; cbn [strip_ws String.length]; [done|..];
    repeat case_match; intros; simplify_eq; cbn [String.length]; lia.
Qed.

(** ** Prefixes of words *)

Lemma starts_with_word p w r : str_forallb visible p = true →
  starts_with p (w +:+ String " " r) = starts_with p w.
Proof.
  revert w. induction p as [|a p IH]; intros w; [by destruct w|].
  cbn [str_forallb]. intros [Ha Hp]%andb_true_iff. unfold starts_with in *.
  destruct w as [|b w]; cbn [String.append strip_prefix].
  - destruct (Ascii.eqb a " ") eqn:E; [|done]. apply Ascii.eqb_eq in E as ->. done.
  - destruct (Ascii.eqb a b); [by apply IH | done].
Qed.

Lemma starts_with_char a s : starts_with (String a "") s = match s with String b _ => Ascii.eqb a b | "" => false end.
Proof.
  unfold starts_with. destruct s as [|b s]; [done|]. cbn [strip_prefix]. by destruct (Ascii.eqb a b).
Qed.

Lemma join_cons2 sep w w' ws : join sep (w :: w' :: ws) = w +:+ sep +:+ join sep (w' :: ws).
Proof. done. Qed.

Lemma find_char_app c s t : has_char c s = false → find_char c (s +:+ String c t) = Some (String.length s).
Proof.
  induction s as [|a s IH]; cbn [has_char String.append find_char String.length].
  - intros _. by rewrite Ascii.eqb_refl.
  - intros [Ha Hs]%orb_false_iff. rewrite Ha, IH by done. done.
Qed.

Lemma split_once_app c s t : has_char c s = false → split_once c (s +:+ String c t) = Some (s, t).
Proof. intros Hs. by apply split_once_Some. Qed.

Lemma join_words_length ws : Forall (λ w, word w = true) ws → length ws ≤ String.length (join " " ws).
Proof.
  induction 1 as [|w ws Hw Hws IH]; [done|].
  assert (1 ≤ String.length w) by (destruct w; [done | cbn; lia]).
  destruct ws as [|w' ws]; [done|]. rewrite join_cons2, !str_length_app. cbn [length] in *.
  change (String.length " ") with 1. lia.
Qed.
