(* ===== verification/RustFloat.v ===== *)
(** * RustFloat: the floating-point operations the code uses

    An [f64] is a [spec_float] at precision 53 and maximal exponent 1024, an
    [f32] one at 24 and 128; every operation rounds to nearest, ties to even. *)

From Stdlib Require Import ZArith Lia Ascii Floats.SpecFloat.
From stdpp Require Import base strings list numbers.
From S2P Require Import Prelude RustStr.

Local Open Scope Z_scope.

(** [x as f64] and [x as f32] *)
Definition as_float (prec emax : Z) (f : spec_float) : spec_float :=
  match f with
  | S754_finite s m e => binary_normalize prec emax (cond_Zopp s (Zpos m)) e s
  | _ => f
  end.

(** [n as f64] *)
Definition int_as_f64 (n : Z) : spec_float := binary_normalize 53 1024 n 0 false.

(** [x as uN]: truncation towards zero, saturating; NaN is 0. *)
Definition f64_as_uint (w : Z) (f : spec_float) : Z :=
  match f with
  | S754_infinity false => u_max w
  | S754_finite false m e =>
      Z.min (u_max w) (if 0 <=? e then Zpos m * 2 ^ e else Zpos m / 2 ^ (- e))
  | _ => 0
  end.

(** [x.round() as uN]: to the nearest integer, halves away from zero. *)
Definition f64_round_as_uint (w : Z) (f : spec_float) : Z :=
  match f with
  | S754_infinity false => u_max w
  | S754_finite false m e =>
      Z.min (u_max w) (if 0 <=? e then Zpos m * 2 ^ e else (2 * Zpos m + 2 ^ (- e)) / 2 ^ (1 - e))
  | _ => 0
  end.

Definition f64_mul : spec_float → spec_float → spec_float := SFmul 53 1024.
Definition f64_add : spec_float → spec_float → spec_float := SFadd 53 1024.
Definition f64_div : spec_float → spec_float → spec_float := SFdiv 53 1024.

(** The [f64] nearest to [m * 10^e], [m] non-negative. *)
Definition f64_of_decimal (neg : bool) (m e : Z) : spec_float :=
  if m =? 0 then S754_zero neg
  else if 0 <=? e then binary_normalize 53 1024 (cond_Zopp neg (m * 10 ^ e)) 0 neg
  else
    let '(mz, ez, lz) := SFdiv_core_binary 53 1024 m 0 (10 ^ (- e)) 0 in
    binary_round_aux 53 1024 neg mz ez lz.

Definition read_sign (s : string) : bool * string :=
  match s with
  | String a r =>
      if Ascii.eqb a "-" then (true, r) else if Ascii.eqb a "+" then (false, r) else (false, s)
  | "" => (false, s)
  end.

(** An optional exponent up to the end of the text. *)
Definition parse_exponent (s : string) : option Z :=
  match s with
  | "" => Some 0
  | String a r =>
      if Ascii.eqb a "e" || Ascii.eqb a "E" then
        let '(neg, r) := read_sign r in
        let '(v, n, rest) := read_digits 10 r in
        if (n =? 0)%nat || negb (is_empty rest) then None
        else Some (if neg : bool then - v else v)
      else None
  end.

(** [str::parse::<f64>] *)
Definition parse_f64 (s : string) : option spec_float :=
  let '(neg, r) := read_sign s in
  if eq_ignore_ascii_case r "inf" || eq_ignore_ascii_case r "infinity"
  then Some (S754_infinity neg)
  else if eq_ignore_ascii_case r "nan" then Some S754_nan
  else
    let '(i, n, r1) := read_digits 10 r in
    let '(f, k, r2) :=
      match r1 with
      | String a r' => if Ascii.eqb a "." then read_digits 10 r' else (0, O, r1)
      | "" => (0, O, r1)
      end in
    if (n + k =? 0)%nat then None
    else e ← parse_exponent r2;
         Some (f64_of_decimal neg (i * 10 ^ Z.of_nat k + f) (e - Z.of_nat k)).

Example parse_f64_ex :
  (λ s, f64_as_uint 32 <$> (f64_mul (int_as_f64 1024) <$> parse_f64 s)) <$>
    ["1"; "1.5"; ".25"; "2e1"; "0.3"; "1e30"; "-1"; ""; "."; "1e"; "nan"; "x"]%string
  = [Some 1024; Some 1536; Some 256; Some 20480; Some 307; Some (u_max 32); Some 0;
     None; None; None; Some 0; None].
Proof. vm_compute. reflexivity. Qed.

Example f64_of_decimal_ex :
  f64_of_decimal false 3 (-1) = S754_finite false 5404319552844595 (-54).
Proof. vm_compute. reflexivity. Qed.
