(* ===== verification/IpAddr.v ===== *)
(** * IpAddr: the standard library's parser of IP addresses

    [str::parse::<IpAddr>] as [core::net::parser] reads it: an IPv4 address, or
    else an IPv6 address of up to eight hexadecimal groups with at most one [::]
    and possibly an embedded IPv4 address at the end.  A reader returns what it
    read and the rest of the text, or [None] with nothing consumed. *)

From Stdlib Require Import ZArith Lia Ascii.
From stdpp Require Import base strings list numbers.
From S2P Require Import Prelude RustStr.

Local Open Scope Z_scope.

Definition read_number (radix : Z) (w : Z) (max_digits : nat) (allow_zero_prefix : bool)
    (s : string) : option (Z * string) :=
  let '(v, n, rest) := read_digits radix s in
  if (max_digits <? n)%nat || negb (v <? 2 ^ w) || (n =? 0)%nat then None
  else if negb allow_zero_prefix && starts_with "0" s && (1 <? n)%nat then None
  else Some (v, rest).

Definition read_given_char (c : ascii) (s : string) : option string :=
  match s with String a r => if Ascii.eqb a c then Some r else None | "" => None end.

(** [read_separator]: the separator comes before every item but the first. *)
Definition read_separator {A} (sep : ascii) (index : nat) (inner : string → option (A * string))
    (s : string) : option (A * string) :=
  if (0 <? index)%nat then s' ← read_given_char sep s; inner s' else inner s.

Definition read_ipv4_addr (s : string) : option (Z * string) :=
  '(a, s) ← read_separator "." 0 (read_number 10 8 3 false) s;
  '(b, s) ← read_separator "." 1 (read_number 10 8 3 false) s;
  '(c, s) ← read_separator "." 2 (read_number 10 8 3 false) s;
  '(d, s) ← read_separator "." 3 (read_number 10 8 3 false) s;
  Some (of_octets a b c d, s).

(** [read_groups]: up to [left] more groups after the [i] already read; the
    flag says that the last two came from an embedded IPv4 address. *)
Fixpoint read_groups (left i : nat) (s : string) : list Z * bool * string :=
  match left with
  | O => ([], false, s)
  | S left' =>
      match (if (1 <? left)%nat then read_separator ":" i read_ipv4_addr s else None) with
      | Some (v4, s') => ([Z.shiftr v4 16; v4 mod 2 ^ 16], true, s')
      | None =>
          match read_separator ":" i (read_number 16 16 4 true) s with
          | Some (g, s') =>
              let '(gs, v4, rest) := read_groups left' (S i) s' in (g :: gs, v4, rest)
          | None => ([], false, s)
          end
      end
  end.

Definition read_ipv6_addr (s : string) : option (list Z * string) :=
  let '(head, head_v4, s1) := read_groups 8 0 s in
  if (length head =? 8)%nat then Some (head, s1)
  else if head_v4 then None
  else
    s2 ← read_given_char ":" s1;
    s3 ← read_given_char ":" s2;
    let limit := (8 - (length head + 1))%nat in
    let '(tail, _, s4) := read_groups limit 0 s3 in
    Some (head ++ replicate (8 - length head - length tail) 0 ++ tail, s4).

Inductive ip_addr := V4 (ip : Z) | V6 (groups : list Z).

(** [str::parse::<IpAddr>] *)
Definition parse_ip (s : string) : option ip_addr :=
  match read_ipv4_addr s with
  | Some (ip, rest) => if is_empty rest then Some (V4 ip) else None
  | None =>
      match read_ipv6_addr s with
      | Some (gs, rest) => if is_empty rest then Some (V6 gs) else None
      | None => None
      end
  end.

(** ** What a parsed address is made of *)

Definition ip_char (c : ascii) : bool :=
  is_digit c || is_lower c || is_upper c || Ascii.eqb c "." || Ascii.eqb c ":".

(** A reader consumes a prefix of address characters. *)
Definition consumes {A} (r : string → option (A * string)) : Prop :=
  ∀ s a rest, r s = Some (a, rest) → ∃ p, s = p +:+ rest ∧ str_forallb ip_char p = true.

Lemma to_digit_ip_char radix c d : radix ≤ 16 → to_digit radix c = Some d → ip_char c = true.
Proof.
  unfold to_digit, ip_char. intros Hr.
  destruct (is_digit c); [done|]. destruct (is_lower c); [done|]. destruct (is_upper c); [done|].
  destruct (Z.ltb_spec 255 radix); [lia|done].
Qed.

Lemma read_digits_consumes radix s : radix ≤ 16 →
  ∃ p, s = p +:+ (read_digits radix s).2 ∧ str_forallb ip_char p = true.
Proof.
  intros Hr. induction s as [|c s IH]; simpl; [by exists ""|].
  destruct (to_digit radix c) as [d|] eqn:E; [|by exists ""].
  destruct (read_digits radix s) as [[v n] rest]. simpl in *.
  destruct IH as (p & -> & Hp). exists (String c p). simpl.
  by rewrite (to_digit_ip_char radix c d Hr E), Hp.
Qed.

Lemma read_number_consumes radix w k z : radix ≤ 16 → consumes (read_number radix w k z).
Proof.
  intros Hr s a rest. unfold read_number.
  pose proof (read_digits_consumes radix s Hr) as Hc.
  destruct (read_digits radix s) as [[v n] r]. simpl in Hc.
  repeat case_match; [done | done |]. intros [= _ <-]. done.
Qed.

Lemma consumes_char c s s' : ip_char c = true → read_given_char c s = Some s' →
  s = String c s'.
Proof.
  unfold read_given_char. destruct s as [|a r]; [done|].
  destruct (Ascii.eqb_spec a c) as [->|]; [|done]. by intros _ [= ->].
Qed.

Lemma read_separator_consumes {A} c i (inner : string → option (A * string)) :
  ip_char c = true → consumes inner → consumes (read_separator c i inner).
Proof.
  intros Hc Hi s a rest. unfold read_separator. destruct (0 <? i)%nat; [|apply Hi].
  intros (s' & E & H)%bind_Some. apply consumes_char in E as ->; [|done].
  destruct (Hi _ _ _ H) as (p & -> & Hp). exists (String c p). simpl. by rewrite Hc, Hp.
Qed.

(** Sequencing of two consumers. *)
Lemma consumes_app s p1 r1 p2 r2 :
  s = p1 +:+ r1 → r1 = p2 +:+ r2 →
  str_forallb ip_char p1 = true → str_forallb ip_char p2 = true →
  ∃ p, s = p +:+ r2 ∧ str_forallb ip_char p = true.
Proof.
  intros -> -> H1 H2. exists (p1 +:+ p2). by rewrite str_app_assoc, str_forallb_app, H1, H2.
Qed.

Lemma read_ipv4_addr_consumes : consumes read_ipv4_addr.
Proof.
  intros s a rest. unfold read_ipv4_addr.
  intros ([a1 s1] & H1 & ([a2 s2] & H2 & ([a3 s3] & H3 & ([a4 s4] & H4 & [= _ <-])%bind_Some)
    %bind_Some)%bind_Some)%bind_Some.
  assert (∀ i, consumes (read_separator "." i (read_number 10 8 3 false))) as Hs
    by (intros; apply read_separator_consumes, read_number_consumes; done).
  apply Hs in H1 as (p1 & E1 & ?), H2 as (p2 & E2 & ?), H3 as (p3 & E3 & ?), H4 as (p4 & E4 & ?).
  destruct (consumes_app _ _ _ _ _ E1 E2) as (q & E & ?); [done..|].
  destruct (consumes_app _ _ _ _ _ E E3) as (q' & E' & ?); [done..|].
  by apply (consumes_app _ _ _ _ _ E' E4).
Qed.

Lemma read_groups_consumes left i s :
  ∃ p, s = p +:+ (read_groups left i s).2 ∧ str_forallb ip_char p = true.
Proof.
  revert i s. induction left as [|left IH]; intros i s; cbn [read_groups]; [by exists ""|].
  destruct (if (1 <? S left)%nat then read_separator ":" i read_ipv4_addr s else None)
    as [[v4 s']|] eqn:E4.
  - destruct (1 <? S left)%nat; [|done].
    by apply (read_separator_consumes ":" i read_ipv4_addr eq_refl read_ipv4_addr_consumes) in E4.
  - destruct (read_separator ":" i (read_number 16 16 4 true) s) as [[g s']|] eqn:E;
      [|by exists ""].
    apply (read_separator_consumes ":" i (read_number 16 16 4 true) eq_refl
             (read_number_consumes 16 16 4 true ltac:(lia))) in E as (p & E & Hp).
    specialize (IH (S i) s'). destruct (read_groups left (S i) s') as [[gs v4] rest].
    simpl in *. destruct IH as (q & Eq & Hq). by apply (consumes_app _ _ _ _ _ E Eq).
Qed.

Lemma read_ipv6_addr_consumes : consumes read_ipv6_addr.
Proof.
  intros s a rest. unfold read_ipv6_addr.
  pose proof (read_groups_consumes 8 0 s) as (p & E & Hp).
  destruct (read_groups 8 0 s) as [[head v4] s1]. simpl in E.
  case_match; [intros [= _ <-]; eauto|]. case_match; [done|].
  intros (s2 & E2 & (s3 & E3 & Hr)%bind_Some)%bind_Some.
  apply consumes_char in E2 as ->, E3 as ->; [|done..].
  pose proof (read_groups_consumes (8 - (length head + 1)) 0 s3) as (q & Eq & Hq).
  destruct (read_groups (8 - (length head + 1)) 0 s3) as [[tail v4'] s4].
  injection Hr as _ <-. simpl in Eq.
  apply (consumes_app s p (String ":" (String ":" s3)) (String ":" (String ":" q)) s4);
    [done | by rewrite Eq | done | done].
Qed.

(** The text of an address consists of digits, letters, dots and colons: no
    white space, no line break. *)
Lemma parse_ip_chars s ip : parse_ip s = Some ip → str_forallb ip_char s = true.
Proof.
  unfold parse_ip. destruct (read_ipv4_addr s) as [[v rest]|] eqn:E4.
  - case_match eqn:Er; [|done]. intros _.
    apply read_ipv4_addr_consumes in E4 as (p & -> & Hp).
    destruct rest; [|done]. by rewrite str_app_nil_r.
  - destruct (read_ipv6_addr s) as [[gs rest]|] eqn:E6; [|done]. case_match eqn:Er; [|done].
    intros _. apply read_ipv6_addr_consumes in E6 as (p & -> & Hp).
    destruct rest; [|done]. by rewrite str_app_nil_r.
Qed.

Example parse_ip_v4 : parse_ip "10.0.0.255" = Some (V4 (of_octets 10 0 0 255)).
Proof. reflexivity. Qed.
Example parse_ip_v6 :
  parse_ip "2001:db8::10.0.0.1" = Some (V6 [0x2001; 0xdb8; 0; 0; 0; 0; 0x0a00; 1]).
Proof. reflexivity. Qed.
Example parse_ip_bad : map parse_ip ["1.2.3"; "01.2.3.4"; "1::2::3"; "10.0.0.1 "; "12345::"]%string
  = [None; None; None; None; None].
Proof. reflexivity. Qed.
