(* ===== verification/Network.v ===== *)
(** * Networks and address management ([core/src/network.rs])

    [Ipam] and [Ipam6] allocate addresses of a subnet, [NetworkPolicy] decides
    which peers a box may see, and [NetworkConfig] is the network a box is
    connected to and disconnected from.  A [HashMap] is a [gmap]; where the code
    iterates over one, the order is that of [map_to_list], and the theorems only
    speak of membership.  Wall-clock time is an argument. *)

From Stdlib Require Import ZArith Lia Ascii.
From stdpp Require Import base gmap strings list numbers.
From S2P Require Import Prelude RustStr.

Local Open Scope Z_scope.

(** ** Errors

    One constructor per [Err] of the source, with the values its message
    interpolates. *)
Inductive net_err :=
  | InvalidCidr (cidr : string)
  | InvalidNetworkAddress (s : string)
  | InvalidPrefixLength (s : string)
  | PrefixOutOfRange (prefix_len : Z)
  | NoRoomForGateway (network : Z)
  | NoAvailableIp
  | AlreadyConnected (box_id name : string)
  | NotConnected (box_id name : string)
  | StrictNotEnforced
  | CustomNotEnforced.

(** ** Sequential search for a free address

    The loop shared by both allocators: [cur] runs up to [stop]; [ip_of cur] is
    returned when it is neither the gateway nor in use.  [fuel] counts
    iterations; [scan_complete] shows that [S (length used)] plus one for the
    gateway is enough, because the candidates are pairwise distinct. *)
Fixpoint scan (fuel : nat) (ip_of : Z → Z) (stop gw : Z) (used : list Z) (cur : Z) : option Z :=
  match fuel with
  | O => None
  | S fuel =>
      if cur <? stop then
        if negb (ip_of cur =? gw) && negb (bool_decide (ip_of cur ∈ used)) then Some (ip_of cur)
        else scan fuel ip_of stop gw used (cur + 1)
      else None
  end.

Definition scan_fuel (used : list Z) : nat := S (S (length used)).

Section scan.
Context (ip_of : Z → Z) (stop gw : Z) (used : list Z).

Lemma scan_sound fuel cur ip :
  scan fuel ip_of stop gw used cur = Some ip →
  ∃ k, cur ≤ k < stop ∧ ip = ip_of k ∧ ip ≠ gw ∧ (ip ∉ used) ∧
       (∀ j, cur ≤ j < k → ip_of j = gw ∨ ip_of j ∈ used).
Proof.
  revert cur. induction fuel as [|fuel IH]; intros cur; simpl; [done|].
  destruct (Z.ltb_spec cur stop) as [Hlt|]; [|done].
  destruct (Z.eqb_spec (ip_of cur) gw) as [Hgw|Hgw]; simpl;
    [|case_bool_decide as Hin; simpl].
  3: { intros [= <-]. exists cur. repeat split; [lia..|done|done|lia]. }
  all: intros (k & Hk & -> & Hne & Hnu & Hj)%IH; exists k;
    (repeat split; [lia..|done|done|]); intros j Hjk;
    (destruct (decide (j = cur)) as [->|]; [auto|apply Hj; lia]).
Qed.

Lemma scan_none_upto fuel cur :
  scan fuel ip_of stop gw used cur = None →
  ∀ j, cur ≤ j < stop → j < cur + Z.of_nat fuel → ip_of j ∈ gw :: used.
Proof.
  revert cur. induction fuel as [|fuel IH]; intros cur; simpl; [lia|].
  destruct (Z.ltb_spec cur stop) as [Hlt|]; [|lia].
  destruct (negb (ip_of cur =? gw) && negb (bool_decide (ip_of cur ∈ used))) eqn:E; [done|].
  intros Hn j Hj Hf. destruct (decide (j = cur)) as [->|]; [|apply (IH _ Hn); lia].
  apply andb_false_iff in E as [E|E]; apply negb_false_iff in E.
  - apply Z.eqb_eq in E. rewrite E. apply elem_of_cons. by left.
  - apply bool_decide_eq_true in E. apply elem_of_cons. by right.
Qed.

(** With [scan_fuel] the loop ends by itself: either a free address was found
    or every candidate is taken. *)
Lemma scan_complete cur :
  (∀ i j, cur ≤ i < stop → cur ≤ j < stop → ip_of i = ip_of j → i = j) →
  scan (scan_fuel used) ip_of stop gw used cur = None →
  ∀ j, cur ≤ j < stop → ip_of j ∈ gw :: used.
Proof.
  intros Hinj Hnone j Hj.
  destruct (decide (cur + Z.of_nat (scan_fuel used) ≤ stop)) as [Hlt|];
    [|eapply scan_none_upto; [done..|lia]].
  exfalso. set (l := ip_of <$> seqZ cur (Z.of_nat (scan_fuel used))).
  assert (l ⊆+ gw :: used) as Hsub.
  { apply NoDup_submseteq.
    - apply NoDup_fmap_2_strong, NoDup_seqZ.
      intros x y Hx%elem_of_seqZ Hy%elem_of_seqZ. apply Hinj; lia.
    - intros x (k & -> & Hk%elem_of_seqZ)%list_elem_of_fmap.
      eapply scan_none_upto; [done|lia..]. }
  apply submseteq_length in Hsub.
  unfold l in Hsub. rewrite length_fmap, length_seqZ in Hsub.
  unfold scan_fuel in Hsub. simpl in Hsub. lia.
Qed.

(** When fewer addresses are in use than there are candidates, one is found. *)
Lemma scan_found cur :
  (∀ i j, cur ≤ i < stop → cur ≤ j < stop → ip_of i = ip_of j → i = j) →
  (∀ j, cur ≤ j < stop → ip_of j ≠ gw) →
  Z.of_nat (length used) < stop - cur →
  ∃ ip, scan (scan_fuel used) ip_of stop gw used cur = Some ip.
Proof.
  intros Hinj Hgw Hlen.
  destruct (scan (scan_fuel used) ip_of stop gw used cur) as [ip|] eqn:E; [by exists ip|].
  exfalso. assert ((ip_of <$> seqZ cur (stop - cur)) ⊆+ used) as Hsub.
  { apply NoDup_submseteq.
    - apply NoDup_fmap_2_strong, NoDup_seqZ.
      intros x y Hx%elem_of_seqZ Hy%elem_of_seqZ. apply Hinj; lia.
    - intros x (k & -> & Hk%elem_of_seqZ)%list_elem_of_fmap.
      pose proof (scan_complete cur Hinj E k ltac:(lia)) as Hin.
      apply elem_of_cons in Hin as [Hin|]; [|done]. by apply Hgw in Hin; [|lia]. }
  apply submseteq_length in Hsub. rewrite length_fmap, length_seqZ in Hsub. lia.
Qed.
End scan.

(** ** IPv4 address management *)
Module Ipam.

Record t := mk { network : Z; prefix_len : Z; gateway : Z }.

(** [Ipam::new] *)
Definition new (cidr : string) : result net_err t :=
  match split "/" cidr with
  | [addr; plen] =>
      network ← ok_or (InvalidNetworkAddress addr) (parse_ipv4 addr);
      prefix_len ← ok_or (InvalidPrefixLength plen) (parse_uint 8 plen);
      if (prefix_len =? 0) || (30 <? prefix_len) then Err (PrefixOutOfRange prefix_len)
      else
        gateway ← ok_or (NoRoomForGateway network) (checked_add 32 network 1);
        Ok (mk network prefix_len gateway)
  | _ => Err (InvalidCidr cidr)
  end.

(** [Ipam::cidr] *)
Definition cidr (ipam : t) : string :=
  show_ipv4 (network ipam) +:+ "/" +:+ show_uint (prefix_len ipam).

Definition host_bits (ipam : t) : Z := 32 - prefix_len ipam.

(** [Ipam::broadcast] *)
Definition broadcast (ipam : t) : Z :=
  Z.lor (network ipam) (Z.shiftl 1 (host_bits ipam) - 1).

(** [Ipam::capacity] *)
Definition capacity (ipam : t) : Z :=
  sat_sub (Z.shiftl 1 (host_bits ipam) - 1) 2.

(** [Ipam::allocate]; the first candidate is computed modulo [2^32], as in a
    build without overflow checks. *)
Definition allocate (ipam : t) (used : list Z) : result net_err Z :=
  ok_or NoAvailableIp
    (scan (scan_fuel used) (λ c, c) (broadcast ipam) (gateway ipam) used
       (wrap 32 (network ipam + 2))).

(** [Ipam::mac_from_ip] *)
Definition mac_from_ip (ip : Z) : string :=
  let '(a, b, c, d) := octets ip in
  "02:42:" +:+ hex2 a +:+ ":" +:+ hex2 b +:+ ":" +:+ hex2 c +:+ ":" +:+ hex2 d.

(** What [new] establishes. *)
Record wf (ipam : t) : Prop := {
  wf_network : in_range 32 (network ipam);
  wf_prefix : 1 ≤ prefix_len ipam ≤ 30;
  wf_gateway : gateway ipam = network ipam + 1;
  wf_gateway_range : in_range 32 (gateway ipam);
}.

(** The low bits of the network address are clear, as in a CIDR block. *)
Definition aligned (ipam : t) : Prop := network ipam mod 2 ^ host_bits ipam = 0.

Lemma new_wf cidr ipam : new cidr = Ok ipam → wf ipam.
Proof.
  unfold new. destruct (split "/" cidr) as [|a [|p [|]]]; try done.
  intros H. inv_result. case_match eqn:Hp; [done|]. inv_result.
  apply orb_false_iff in Hp as [?%Z.eqb_neq ?%Z.ltb_ge].
  pose proof (parse_ipv4_range _ _ H0). pose proof (parse_uint_range _ _ _ H1) as [? _].
  unfold checked_add in H2. case_match eqn:Hlt; [|done]. injection H2 as <-.
  apply Z.ltb_lt in Hlt. unfold in_range in *. by constructor; simpl; (lia || unfold in_range; lia).
Qed.

Lemma wf_new_cidr ipam : wf ipam → new (cidr ipam) = Ok ipam.
Proof.
  intros [Hn Hp Hg Hgr]. unfold new, cidr.
  change ("/" +:+ show_uint (prefix_len ipam)) with (String "/" (show_uint (prefix_len ipam))).
  rewrite split_cons by apply show_ipv4_no_slash.
  rewrite split_no by (apply show_uint_no_char; [done|lia]).
  rewrite parse_show_ipv4 by done. simpl.
  rewrite parse_show_uint by (unfold in_range; simpl; lia). simpl.
  rewrite (proj2 (Z.eqb_neq _ _)), (proj2 (Z.ltb_ge _ _)) by lia. simpl.
  unfold checked_add, in_range in *.
  rewrite (proj2 (Z.ltb_lt _ _)) by lia. simpl.
  destruct ipam; simpl in *. by rewrite Hg.
Qed.

Lemma host_size ipam : wf ipam → Z.shiftl 1 (host_bits ipam) = 2 ^ host_bits ipam.
Proof. intros [_ ? _ _]. apply Z.shiftl_1_l. Qed.

Lemma host_size_ge ipam : wf ipam → 4 ≤ 2 ^ host_bits ipam.
Proof.
  intros [_ ? _ _]. change 4 with (2 ^ 2). apply Z.pow_le_mono_r; unfold host_bits; lia.
Qed.

(** The broadcast address ends the block that holds the network address. *)
Lemma broadcast_block ipam : wf ipam →
  broadcast ipam =
    2 ^ host_bits ipam * (network ipam / 2 ^ host_bits ipam) + (2 ^ host_bits ipam - 1).
Proof.
  intros Hwf. pose proof (host_size_ge ipam Hwf) as Hs.
  assert (0 ≤ host_bits ipam) as Hb by (destruct Hwf; unfold host_bits; lia).
  unfold broadcast. rewrite (host_size ipam Hwf).
  set (h := host_bits ipam) in *. set (n := network ipam).
  pose proof (Z.add_lor_land n (Z.ones h)) as E.
  rewrite Z.land_ones in E by done. rewrite Z.ones_equiv, <-Z.sub_1_r in E.
  pose proof (Z.div_mod n (2 ^ h) ltac:(lia)). lia.
Qed.

Lemma broadcast_range ipam : wf ipam → network ipam ≤ broadcast ipam < 2 ^ 32.
Proof.
  intros Hwf. rewrite (broadcast_block ipam Hwf).
  pose proof (host_size_ge ipam Hwf) as Hs. destruct Hwf as [[Hn0 Hn] Hp _ _].
  assert (2 ^ 32 = 2 ^ host_bits ipam * 2 ^ prefix_len ipam) as E
    by (rewrite <-Z.pow_add_r; unfold host_bits; [f_equal|..]; lia).
  set (s := 2 ^ host_bits ipam) in *. set (n := network ipam) in *.
  pose proof (Z.div_mod n s ltac:(lia)). pose proof (Z.mod_pos_bound n s ltac:(lia)).
  split; [lia|].
  assert (n / s < 2 ^ prefix_len ipam) by (apply Z.div_lt_upper_bound; lia). nia.
Qed.

(** Addresses between the network address and the broadcast address share
    the network's prefix. *)
Definition in_subnet (ipam : t) (ip : Z) : Prop :=
  ip / 2 ^ host_bits ipam = network ipam / 2 ^ host_bits ipam.

Lemma between_in_subnet ipam ip :
  wf ipam → network ipam ≤ ip ≤ broadcast ipam → in_subnet ipam ip.
Proof.
  intros Hwf Hip. unfold in_subnet. rewrite (broadcast_block ipam Hwf) in Hip.
  pose proof (host_size_ge ipam Hwf) as Hs.
  set (s := 2 ^ host_bits ipam) in *. set (n := network ipam) in *.
  pose proof (Z.div_mod n s ltac:(lia)). pose proof (Z.mod_pos_bound n s ltac:(lia)).
  symmetry. apply (Z.div_unique_pos ip s (n / s) (ip - s * (n / s))); lia.
Qed.

(** No wrap-around: there is room for the first candidate. *)
Definition roomy (ipam : t) : Prop := network ipam + 2 < 2 ^ 32.

Lemma aligned_roomy ipam : wf ipam → aligned ipam → roomy ipam.
Proof.
  intros Hwf Ha. unfold roomy, aligned in *.
  pose proof (broadcast_range ipam Hwf). pose proof (host_size_ge ipam Hwf).
  rewrite (broadcast_block ipam Hwf) in *.
  pose proof (Z.div_mod (network ipam) (2 ^ host_bits ipam) ltac:(lia)). lia.
Qed.

Lemma allocate_spec ipam used ip :
  wf ipam → roomy ipam → allocate ipam used = Ok ip →
  network ipam + 2 ≤ ip < broadcast ipam ∧ (ip ∉ used) ∧
  (∀ j, network ipam + 2 ≤ j < ip → j ∈ used).
Proof.
  intros Hwf Hr. unfold allocate. rewrite ok_or_Ok, wrap_small
    by (destruct Hwf as [[] _ _ _]; split; unfold roomy in *; lia).
  intros (k & Hk & -> & Hne & Hnu & Hj)%scan_sound.
  split_and!; [lia..|done|]. intros j Hjk. destruct (Hj j Hjk) as [Hg|]; [|done].
  rewrite (wf_gateway _ Hwf) in Hg. lia.
Qed.

Lemma allocate_full ipam used e :
  wf ipam → roomy ipam → allocate ipam used = Err e →
  e = NoAvailableIp ∧ ∀ j, network ipam + 2 ≤ j < broadcast ipam → j ∈ used.
Proof.
  intros Hwf Hr. unfold allocate. rewrite ok_or_Err, wrap_small
    by (destruct Hwf as [[] _ _ _]; split; unfold roomy in *; lia).
  intros [Hnone <-]. split; [done|]. intros j Hj.
  pose proof (scan_complete (λ c, c) _ _ _ _ (λ _ _ _ _ E, E) Hnone j Hj) as Hin.
  apply elem_of_cons in Hin as [Hg|]; [|done]. rewrite (wf_gateway _ Hwf) in Hg. lia.
Qed.

Lemma allocate_found ipam used :
  wf ipam → aligned ipam → Z.of_nat (length used) < capacity ipam →
  ∃ ip, allocate ipam used = Ok ip.
Proof.
  intros Hwf Ha Hlen. pose proof (aligned_roomy ipam Hwf Ha) as Hr.
  destruct (allocate ipam used) as [ip|e] eqn:E; [by exists ip|]. exfalso.
  revert E. unfold allocate. rewrite ok_or_Err, wrap_small
    by (destruct Hwf as [[] _ _ _]; split; unfold roomy in *; lia).
  intros [Hnone _].
  destruct (scan_found (λ c, c) (broadcast ipam) (gateway ipam) used (network ipam + 2))
    as [ip Hip]; [done| | |congruence].
  - intros j Hj. rewrite (wf_gateway _ Hwf). lia.
  - rewrite (broadcast_block ipam Hwf).
    unfold capacity, sat_sub in Hlen. rewrite (host_size ipam Hwf) in Hlen.
    pose proof (host_size_ge ipam Hwf). unfold aligned in Ha.
    pose proof (Z.div_mod (network ipam) (2 ^ host_bits ipam) ltac:(lia)). lia.
Qed.

(** The answer does not depend on the order in which the used addresses are
    listed, hence not on the iteration order of the endpoint map. *)
Lemma scan_same_members fuel ip_of stop gw used used' cur :
  (∀ x, x ∈ used ↔ x ∈ used') →
  scan fuel ip_of stop gw used cur = scan fuel ip_of stop gw used' cur.
Proof.
  intros Heq. revert cur. induction fuel as [|fuel IH]; intros cur; simpl; [done|].
  by rewrite (bool_decide_ext _ _ (Heq (ip_of cur))), IH.
Qed.

#[export] Instance allocate_perm ipam : Proper ((≡ₚ) ==> (=)) (allocate ipam).
Proof.
  intros used used' Hp. unfold allocate, scan_fuel. rewrite (Permutation_length Hp).
  f_equal. apply scan_same_members. intros x. by rewrite Hp.
Qed.

(** Two hexadecimal digits determine the byte. *)
Definition unhex (c : ascii) : Z := if is_digit c then code c - 48 else code c - 87.

Lemma hex_digit_unhex d : 0 ≤ d < 16 → unhex (hex_digit d) = d.
Proof.
  intros Hd. assert (d = 0 ∨ d = 1 ∨ d = 2 ∨ d = 3 ∨ d = 4 ∨ d = 5 ∨ d = 6 ∨ d = 7 ∨ d = 8
    ∨ d = 9 ∨ d = 10 ∨ d = 11 ∨ d = 12 ∨ d = 13 ∨ d = 14 ∨ d = 15) as H by lia.
  by repeat destruct H as [->|H]; [..|rewrite H].
Qed.

Lemma hex2_inj a b s t :
  0 ≤ a < 256 → 0 ≤ b < 256 → hex2 a +:+ s = hex2 b +:+ t → a = b ∧ s = t.
Proof.
  intros Ha Hb. unfold hex2. simpl. intros [= E1 E2 ->].
  apply (f_equal unhex) in E1, E2. rewrite !hex_digit_unhex in E1, E2
    by (Z.to_euclidean_division_equations; lia).
  split; [|done]. Z.to_euclidean_division_equations; lia.
Qed.

Lemma mac_from_ip_inj ip ip' :
  in_range 32 ip → in_range 32 ip' → mac_from_ip ip = mac_from_ip ip' → ip = ip'.
Proof.
  intros Hip Hip'. unfold mac_from_ip.
  destruct (octets ip) as [[[a b] c] d] eqn:E.
  destruct (octets ip') as [[[a' b'] c'] d'] eqn:E'.
  destruct (octets_range _ _ _ _ _ E) as (? & ? & ? & ?).
  destruct (octets_range _ _ _ _ _ E') as (? & ? & ? & ?).
  intros Hm%(str_app_inj_l "02:42:").
  apply hex2_inj in Hm as [-> Hm%(str_app_inj_l ":")]; [|done..].
  apply hex2_inj in Hm as [-> Hm%(str_app_inj_l ":")]; [|done..].
  apply hex2_inj in Hm as [-> Hm%(str_app_inj_l ":")]; [|done..].
  rewrite <-(str_app_nil_r (hex2 d)), <-(str_app_nil_r (hex2 d')) in Hm.
  apply hex2_inj in Hm as [-> _]; [|done..].
  rewrite <-(of_octets_octets _ _ _ _ _ Hip E), <-(of_octets_octets _ _ _ _ _ Hip' E'). done.
Qed.
End Ipam.

(** ** IPv6 address management

    The address is its 128-bit value.  Parsing the textual form
    ([Ipam6::new]) is not modelled; [wf] is what it establishes when
    [network + 1] does not overflow. *)
Module Ipam6.

Record t := mk { network : Z; prefix_len : Z; gateway : Z }.

(** [Ipam6::allocate] *)
Definition allocate (ipam : t) (used : list Z) : result net_err Z :=
  let host_bits := 128 - prefix_len ipam in
  let max_host := Z.shiftl 1 host_bits - 1 in
  ok_or NoAvailableIp
    (scan (scan_fuel used) (λ offset, wrap 128 (network ipam + offset)) max_host
       (gateway ipam) used 2).

Record wf (ipam : t) : Prop := {
  wf_network : 0 ≤ network ipam;
  wf_prefix : 64 ≤ prefix_len ipam ≤ 120;
  wf_block : network ipam + 2 ^ (128 - prefix_len ipam) ≤ 2 ^ 128;
  wf_gateway : gateway ipam = network ipam + 1;
}.

Lemma size6_pos ipam : wf ipam → 256 ≤ 2 ^ (128 - prefix_len ipam).
Proof. intros [_ ? _ _]. change 256 with (2 ^ 8). apply Z.pow_le_mono_r; lia. Qed.

Lemma candidate6_no_wrap ipam off :
  wf ipam → 0 ≤ off < 2 ^ (128 - prefix_len ipam) →
  wrap 128 (network ipam + off) = network ipam + off.
Proof. intros [? ? ? ?] ?. apply wrap_small. split; lia. Qed.

Lemma allocate6_spec ipam used ip :
  wf ipam → allocate ipam used = Ok ip →
  network ipam + 2 ≤ ip < network ipam + 2 ^ (128 - prefix_len ipam) - 1 ∧ ip ∉ used.
Proof.
  intros Hwf. unfold allocate. rewrite ok_or_Ok, Z.shiftl_1_l.
  intros (k & Hk & -> & _ & Hnu & _)%scan_sound.
  rewrite candidate6_no_wrap in * by (done || lia). split; [lia|done].
Qed.

Lemma allocate6_found ipam used :
  wf ipam → Z.of_nat (length used) < 2 ^ (128 - prefix_len ipam) - 3 →
  ∃ ip, allocate ipam used = Ok ip.
Proof.
  intros Hwf Hlen. unfold allocate. rewrite Z.shiftl_1_l.
  edestruct (scan_found (λ offset, wrap 128 (network ipam + offset))
    (2 ^ (128 - prefix_len ipam) - 1) (gateway ipam) used 2) as [ip ->]; [| | |by exists ip].
  - intros i j Hi Hj. rewrite !candidate6_no_wrap by (done || lia). lia.
  - intros j Hj. rewrite candidate6_no_wrap, (wf_gateway _ Hwf) by (done || lia). lia.
  - lia.
Qed.
End Ipam6.

(** ** Isolation policies *)

Inductive IsolationMode := IsolationNone | IsolationStrict | IsolationCustom.
Inductive PolicyAction := Allow | Deny.

#[export] Instance PolicyAction_eq_dec : EqDecision PolicyAction.
Proof. solve_decision. Defined.
#[export] Instance IsolationMode_eq_dec : EqDecision IsolationMode.
Proof. solve_decision. Defined.

Record PolicyRule := {
  rule_from : string; rule_to : string;
  rule_ports : list Z; rule_protocol : string; rule_action : PolicyAction;
}.

Record NetworkPolicy := {
  isolation : IsolationMode; ingress : list PolicyRule; egress : list PolicyRule;
}.

(** [NetworkPolicy::default] (derived) *)
Definition default_policy : NetworkPolicy :=
  {| isolation := IsolationNone; ingress := []; egress := [] |}.

(** [matches_pattern] *)
Definition matches_pattern (pattern name : string) : bool :=
  bool_decide (pattern = "*") || bool_decide (pattern = name).

Definition rule_matches (from to : string) (r : PolicyRule) : bool :=
  matches_pattern (rule_from r) from && matches_pattern (rule_to r) to.

(** [NetworkPolicy::validate] *)
Definition policy_validate (p : NetworkPolicy) : result net_err unit :=
  match isolation p with
  | IsolationNone => Ok tt
  | IsolationStrict => Err StrictNotEnforced
  | IsolationCustom => Err CustomNotEnforced
  end.

(** [NetworkPolicy::evaluate_rules] *)
Fixpoint evaluate_rules (rules : list PolicyRule) (from to : string) : bool :=
  match rules with
  | [] => false
  | r :: rules =>
      if rule_matches from to r then bool_decide (rule_action r = Allow)
      else evaluate_rules rules from to
  end.

(** [NetworkPolicy::is_peer_allowed] *)
Definition is_peer_allowed (p : NetworkPolicy) (box_name peer_name : string) : bool :=
  match isolation p with
  | IsolationNone => true
  | IsolationStrict => false
  | IsolationCustom => evaluate_rules (egress p) box_name peer_name
  end.

(** [NetworkPolicy::allowed_peers] *)
Definition allowed_peers (p : NetworkPolicy) (box_name : string)
    (peers : list (string * string)) : list (string * string) :=
  List.filter (λ peer, is_peer_allowed p box_name (snd peer)) peers.

(** The first rule that matches decides; no match denies. *)
Lemma evaluate_rules_first rules from to :
  evaluate_rules rules from to = true ↔
  ∃ pre r post, rules = pre ++ r :: post ∧ rule_action r = Allow ∧
    rule_matches from to r = true ∧ Forall (λ q, rule_matches from to q = false) pre.
Proof.
  split.
  - induction rules as [|r rules IH]; simpl; [done|]. destruct (rule_matches from to r) eqn:E.
    + intros ?%bool_decide_eq_true. by exists [], r, rules.
    + intros (pre & r' & post & -> & ? & ? & ?)%IH.
      exists (r :: pre), r', post. repeat split; auto.
  - intros (pre & r & post & -> & Ha & Hm & Hpre). induction Hpre as [|q pre Hq _ IH]; simpl.
    + rewrite Hm. by apply bool_decide_eq_true.
    + by rewrite Hq.
Qed.

(** ** Networks *)

Inductive NetworkMode := Tsi | Bridge (network : string) | NoNetwork.

(** [impl Display for NetworkMode] *)
Definition show_network_mode (m : NetworkMode) : string :=
  match m with
  | Tsi => "tsi"
  | Bridge network => "bridge:" +:+ network
  | NoNetwork => "none"
  end.

Record NetworkEndpoint := {
  ep_box_id : string; ep_box_name : string; ep_aliases : list string;
  ep_ip_address : Z; ep_mac_address : string;
}.

Record NetworkConfig := {
  net_name : string; net_subnet : string; net_gateway : Z; net_driver : string;
  net_labels : gmap string string; net_endpoints : gmap string NetworkEndpoint;
  net_created_at : string; net_policy : NetworkPolicy;
}.

Definition with_endpoints (c : NetworkConfig) (m : gmap string NetworkEndpoint) : NetworkConfig :=
  {| net_name := net_name c; net_subnet := net_subnet c; net_gateway := net_gateway c;
     net_driver := net_driver c; net_labels := net_labels c; net_endpoints := m;
     net_created_at := net_created_at c; net_policy := net_policy c |}.

Definition with_policy (c : NetworkConfig) (p : NetworkPolicy) : NetworkConfig :=
  {| net_name := net_name c; net_subnet := net_subnet c; net_gateway := net_gateway c;
     net_driver := net_driver c; net_labels := net_labels c; net_endpoints := net_endpoints c;
     net_created_at := net_created_at c; net_policy := p |}.

(** [HashMap::values] *)
Definition values {A} (m : gmap string A) : list A := (map_to_list m).*2.

(** [NetworkConfig::new] *)
Definition network_new (name subnet now : string) : result net_err NetworkConfig :=
  ipam ← Ipam.new subnet;
  Ok {| net_name := name; net_subnet := Ipam.cidr ipam; net_gateway := Ipam.gateway ipam;
        net_driver := "bridge"; net_labels := ∅; net_endpoints := ∅;
        net_created_at := now; net_policy := default_policy |}.

(** [NetworkConfig::connect_with_aliases] *)
Definition connect_with_aliases (c : NetworkConfig) (box_id box_name : string)
    (aliases : list string) : result net_err (NetworkConfig * NetworkEndpoint) :=
  if bool_decide (is_Some (net_endpoints c !! box_id)) then
    Err (AlreadyConnected box_id (net_name c))
  else
    ipam ← Ipam.new (net_subnet c);
    let used := ep_ip_address <$> values (net_endpoints c) in
    ip ← Ipam.allocate ipam used;
    let endpoint :=
      {| ep_box_id := box_id; ep_box_name := box_name;
         ep_aliases :=
           List.filter (λ a, negb (is_empty a) && negb (bool_decide (a = box_name))) aliases;
         ep_ip_address := ip; ep_mac_address := Ipam.mac_from_ip ip |} in
    Ok (with_endpoints c (<[box_id := endpoint]> (net_endpoints c)), endpoint).

(** [NetworkConfig::connect] *)
Definition connect (c : NetworkConfig) (box_id box_name : string) :=
  connect_with_aliases c box_id box_name [].

(** [NetworkConfig::disconnect] *)
Definition disconnect (c : NetworkConfig) (box_id : string) :
    result net_err (NetworkConfig * NetworkEndpoint) :=
  ep ← ok_or (NotConnected box_id (net_name c)) (net_endpoints c !! box_id);
  Ok (with_endpoints c (delete box_id (net_endpoints c)), ep).

(** [NetworkConfig::set_policy] *)
Definition set_policy (c : NetworkConfig) (p : NetworkPolicy) : result net_err NetworkConfig :=
  _ ← policy_validate p; Ok (with_policy c p).

(** [NetworkConfig::connected_boxes] *)
Definition connected_boxes (c : NetworkConfig) : list NetworkEndpoint := values (net_endpoints c).

(** [NetworkConfig::peer_endpoints] *)
Definition peer_endpoints (c : NetworkConfig) (exclude_box_id : string) : list (string * string) :=
  ep ← List.filter (λ ep, negb (bool_decide (ep_box_id ep = exclude_box_id)))
         (values (net_endpoints c));
  let ip := show_ipv4 (ep_ip_address ep) in
  (ip, ep_box_name ep) :: ((λ a, (ip, a)) <$> ep_aliases ep).

(** [NetworkConfig::allowed_peer_endpoints] *)
Definition allowed_peer_endpoints (c : NetworkConfig) (exclude_box_id : string) :
    list (string * string) :=
  let box_name := default "" (ep_box_name <$> net_endpoints c !! exclude_box_id) in
  allowed_peers (net_policy c) box_name (peer_endpoints c exclude_box_id).

(** ** Well-formed networks *)

(** Every endpoint is filed under its box, has an address strictly between the
    gateway and the broadcast address of the network's subnet, no two boxes
    share an address, and the policy is one that is enforced. *)
Record endpoint_ok (ipam : Ipam.t) (id : string) (ep : NetworkEndpoint) : Prop := {
  epok_id : ep_box_id ep = id;
  epok_ip : Ipam.network ipam + 2 ≤ ep_ip_address ep < Ipam.broadcast ipam;
  epok_mac : ep_mac_address ep = Ipam.mac_from_ip (ep_ip_address ep);
}.

Record network_inv (ipam : Ipam.t) (c : NetworkConfig) : Prop := {
  inv_subnet : net_subnet c = Ipam.cidr ipam;
  inv_gateway : net_gateway c = Ipam.gateway ipam;
  inv_policy : isolation (net_policy c) = IsolationNone;
  inv_endpoints : ∀ id ep, net_endpoints c !! id = Some ep → endpoint_ok ipam id ep;
  inv_inj : ∀ id id' ep ep',
    net_endpoints c !! id = Some ep → net_endpoints c !! id' = Some ep' →
    ep_ip_address ep = ep_ip_address ep' → id = id';
}.

Lemma elem_of_values {A} (m : gmap string A) x : x ∈ values m ↔ ∃ k, m !! k = Some x.
Proof.
  unfold values. rewrite list_elem_of_fmap. split.
  - intros ([k y] & -> & H%elem_of_map_to_list). eauto.
  - intros [k Hk]. exists (k, x). by rewrite elem_of_map_to_list.
Qed.

Section operations.
Context (ipam : Ipam.t) (Hwf : Ipam.wf ipam) (Hroom : Ipam.roomy ipam).

(** What a successful [connect_with_aliases] does. *)
Lemma connect_inv c id name aliases c' ep :
  network_inv ipam c → connect_with_aliases c id name aliases = Ok (c', ep) →
  net_endpoints c !! id = None ∧ endpoint_ok ipam id ep ∧
  (∀ id' ep', net_endpoints c !! id' = Some ep' → ep_ip_address ep' ≠ ep_ip_address ep) ∧
  c' = with_endpoints c (<[id := ep]> (net_endpoints c)) ∧ ep_box_name ep = name ∧
  (∀ a, a ∈ ep_aliases ep ↔ a ∈ aliases ∧ a ≠ "" ∧ a ≠ name).
Proof using Hwf Hroom.
  intros Hinv. unfold connect_with_aliases. case_bool_decide as Hnone; [done|].
  rewrite (inv_subnet _ _ Hinv), Ipam.wf_new_cidr by done. simpl. intros Hc.
  apply bind_Ok in Hc as (ip & Hip & [= <- <-]).
  apply Ipam.allocate_spec in Hip as (Hr & Hnu & _); [|done..]. simpl.
  split_and!; try done.
  - by apply eq_None_not_Some.
  - intros id' ep' Hep' E. apply Hnu. rewrite <-E.
    apply list_elem_of_fmap_2, elem_of_values. eauto.
  - intros a. rewrite list_elem_of_In, filter_In, <-list_elem_of_In, andb_true_iff.
    rewrite !negb_true_iff, bool_decide_eq_false. destruct a; simpl; intuition congruence.
Qed.

Lemma connect_preserves c id name aliases c' ep :
  network_inv ipam c → connect_with_aliases c id name aliases = Ok (c', ep) →
  network_inv ipam c'.
Proof using Hwf Hroom.
  intros Hinv Hc. pose proof Hinv as [Hs Hg Hp He Hi].
  apply connect_inv in Hc as (Hnone & Hep & Hfresh & -> & _ & _); [|done].
  constructor; simpl; try done.
  - intros id' ep' [[<- <-]|[? ?]]%lookup_insert_Some; [done|auto].
  - intros i j e e' [[<- <-]|[? ?]]%lookup_insert_Some [[<- <-]|[? ?]]%lookup_insert_Some E;
      [done|symmetry in E| |by eauto]; edestruct Hfresh; eauto.
Qed.

Lemma disconnect_preserves c id c' ep :
  network_inv ipam c → disconnect c id = Ok (c', ep) → network_inv ipam c'.
Proof using.
  intros [Hs Hg Hp He Hi] Hd. unfold disconnect in Hd. inv_result.
  constructor; simpl; try done.
  - intros id' ep' [? ?]%lookup_delete_Some. auto.
  - intros i j e e' [? ?]%lookup_delete_Some [? ?]%lookup_delete_Some. eauto.
Qed.

Lemma set_policy_preserves c p c' :
  network_inv ipam c → set_policy c p = Ok c' → network_inv ipam c'.
Proof using.
  intros [Hs Hg Hp He Hi]. unfold set_policy, policy_validate.
  destruct (isolation p) eqn:E; try done. intros [= <-]. by constructor.
Qed.
End operations.

Lemma network_new_inv name subnet now c :
  network_new name subnet now = Ok c →
  ∃ ipam, Ipam.new subnet = Ok ipam ∧ Ipam.wf ipam ∧ network_inv ipam c.
Proof.
  unfold network_new. intros H. apply bind_Ok in H as (ipam & Hn & [= <-]).
  exists ipam. split_and!; [done|by eapply Ipam.new_wf|].
  by constructor; simpl; try done; intros *; rewrite lookup_empty.
Qed.

(** The mutating methods of a network as a transition relation. *)
Inductive net_step (c : NetworkConfig) : NetworkConfig → Prop :=
  | step_connect id name aliases c' ep :
      connect_with_aliases c id name aliases = Ok (c', ep) → net_step c c'
  | step_disconnect id c' ep : disconnect c id = Ok (c', ep) → net_step c c'
  | step_set_policy p c' : set_policy c p = Ok c' → net_step c c'.

Lemma net_steps_inv ipam c c' :
  Ipam.wf ipam → Ipam.roomy ipam → network_inv ipam c → rtc net_step c c' →
  network_inv ipam c'.
Proof.
  intros Hwf Hr Hinv Hs. induction Hs as [|c c1 c2 Hstep _ IH]; [done|]. apply IH.
  destruct Hstep; [by eapply connect_preserves | by eapply disconnect_preserves
                  | by eapply set_policy_preserves].
Qed.

Lemma with_endpoints_id c : with_endpoints c (net_endpoints c) = c.
Proof. by destruct c. Qed.

#[export] Hint Resolve Ipam.new_wf Ipam.wf_new_cidr Ipam.aligned_roomy : a3s.

(** ** Properties *)

(** Address allocation.  For a manager built from a CIDR string whose first
    host address does not overflow 32 bits, [allocate] returns the smallest free
    address strictly between gateway and broadcast, which lies in the subnet; it
    fails exactly when every such address is in use, so its loop ends without
    running out of fuel. *)
Theorem allocate_correct cidr ipam used :
  Ipam.new cidr = Ok ipam → Ipam.roomy ipam →
  match Ipam.allocate ipam used with
  | Ok ip => Ipam.gateway ipam < ip < Ipam.broadcast ipam ∧ Ipam.in_subnet ipam ip ∧
             (ip ∉ used) ∧ (∀ j, Ipam.gateway ipam < j < ip → j ∈ used)
  | Err e => e = NoAvailableIp ∧
             ∀ j, Ipam.gateway ipam < j < Ipam.broadcast ipam → j ∈ used
  end.
Proof.
  intros Hwf%Ipam.new_wf Hr. pose proof (Ipam.wf_gateway _ Hwf) as Hg.
  destruct (Ipam.allocate ipam used) as [ip|e] eqn:E.
  - apply Ipam.allocate_spec in E as (Hip & Hnu & Hmin); [|done..].
    split_and!; [lia..|apply Ipam.between_in_subnet; [done|lia]|done|].
    intros j Hj. apply Hmin. lia.
  - apply Ipam.allocate_full in E as [-> Hall]; [|done..].
    split; [done|]. intros j Hj. apply Hall. lia.
Qed.

Lemma allocate_correct_witness :
  ∃ ipam, Ipam.new "10.88.0.0/29" = Ok ipam ∧ Ipam.allocate ipam [173539330; 173539332] = Ok 173539331 ∧
    Ipam.in_subnet ipam 173539331.
Proof.
  eexists (Ipam.mk _ _ _). split; [vm_compute; reflexivity|]. split; [vm_compute; reflexivity|].
  refine (proj1 (proj2 (allocate_correct "10.88.0.0/29" (Ipam.mk 173539328 29 173539329)
    [173539330; 173539332] _ _))); vm_compute; reflexivity.
Defined.

(** Capacity is exact.  With a CIDR block whose host bits are clear, allocation
    succeeds whenever fewer than [capacity] addresses are in use, whatever they
    are, and some list of exactly [capacity] addresses exhausts the subnet. *)
Theorem capacity_exact cidr ipam :
  Ipam.new cidr = Ok ipam → Ipam.aligned ipam →
  (∀ used, Z.of_nat (length used) < Ipam.capacity ipam → is_ok (Ipam.allocate ipam used) = true) ∧
  (∃ used, Z.of_nat (length used) = Ipam.capacity ipam ∧
           Ipam.allocate ipam used = Err NoAvailableIp).
Proof.
  intros Hwf%Ipam.new_wf Ha. split.
  - intros used Hlen. by apply is_ok_spec, Ipam.allocate_found.
  - exists (seqZ (Ipam.network ipam + 2) (Ipam.broadcast ipam - Ipam.network ipam - 2)).
    rewrite length_seqZ. pose proof (Ipam.broadcast_block ipam Hwf) as Hb.
    pose proof (Ipam.host_size_ge ipam Hwf) as Hs.
    pose proof (Ipam.aligned_roomy ipam Hwf Ha) as Hr. unfold Ipam.aligned in Ha.
    pose proof (Z.div_mod (Ipam.network ipam) (2 ^ Ipam.host_bits ipam) ltac:(lia)). split.
    + unfold Ipam.capacity, sat_sub. rewrite (Ipam.host_size ipam Hwf). lia.
    + destruct (Ipam.allocate _ _) as [ip|e] eqn:E.
      * apply Ipam.allocate_spec in E as (Hip & Hnu & _); [|done..].
        destruct Hnu. apply elem_of_seqZ. lia.
      * by apply Ipam.allocate_full in E as [-> _].
Qed.

Lemma capacity_exact_witness :
  ∃ ipam, Ipam.new "10.88.0.0/24" = Ok ipam ∧ Ipam.capacity ipam = 253 ∧
    is_ok (Ipam.allocate ipam (seqZ 173539330 252)) = true.
Proof.
  eexists (Ipam.mk _ _ _). split; [vm_compute; reflexivity|]. split; [vm_compute; reflexivity|].
  refine (proj1 (capacity_exact "10.88.0.0/24" (Ipam.mk 173539328 24 173539329) _ _) _ _);
    vm_compute; reflexivity.
Defined.

(** The textual form of a subnet is stable: the CIDR string a manager prints
    parses back to the same manager.  [NetworkConfig] relies on it, since it
    stores the printed subnet and parses it again on every connect. *)
Theorem cidr_roundtrip cidr ipam :
  Ipam.new cidr = Ok ipam → Ipam.new (Ipam.cidr ipam) = Ok ipam.
Proof. eauto with a3s. Qed.

Lemma cidr_roundtrip_witness : Ipam.new (Ipam.cidr (Ipam.mk 173539328 24 173539329)) =
  Ok (Ipam.mk 173539328 24 173539329).
Proof. apply (cidr_roundtrip "10.88.0.0/+24"). vm_compute. reflexivity. Defined.

(** C38: Every network reachable from [NetworkConfig::new] by connecting, disconnecting and setting
    policies is well formed, when the first candidate address of its subnet, the given network
    address plus 2, fits 32 bits (it does for every subnet written with its own network address): it
    keeps its subnet and gateway, endpoints are filed under their box, have pairwise distinct
    addresses (and hence pairwise distinct MAC addresses, which are those of the addresses) strictly
    between the gateway, which is the network address plus 1, and the broadcast address, and the
    policy in force is one the runtime enforces. *)
Theorem network_reachable name subnet now ipam c0 c :
  Ipam.new subnet = Ok ipam → Ipam.roomy ipam →
  network_new name subnet now = Ok c0 → rtc net_step c0 c →
  network_inv ipam c ∧
  ∀ id id' ep ep', net_endpoints c !! id = Some ep → net_endpoints c !! id' = Some ep' →
    ep_mac_address ep = ep_mac_address ep' → id = id'.
Proof.
  intros Hn Hr (ipam' & Hn' & Hwf & Hinv)%network_new_inv Hs.
  rewrite Hn in Hn'. injection Hn' as <-.
  assert (network_inv ipam c) as Hc by (by eapply net_steps_inv). split; [done|].
  intros id id' ep ep' H H' E. apply (inv_inj _ _ Hc id id' ep ep'); [done..|].
  destruct (inv_endpoints _ _ Hc _ _ H) as [_ Hi Hm].
  destruct (inv_endpoints _ _ Hc _ _ H') as [_ Hi' Hm'].
  pose proof (Ipam.broadcast_range ipam Hwf). destruct Hwf as [[? _] _ _ _].
  apply Ipam.mac_from_ip_inj; [split; lia..|congruence].
Qed.

Definition demo_net : NetworkConfig :=
  match network_new "n" "10.0.0.0/30" "" with Ok c => c | Err _ => Build_NetworkConfig "" "" 0 "" ∅ ∅ "" default_policy end.

Lemma network_reachable_witness :
  ∃ c ep, connect demo_net "b1" "web" = Ok (c, ep) ∧
    network_inv (Ipam.mk 167772160 30 167772161) c.
Proof.
  destruct (connect demo_net "b1" "web") as [[c ep]|e] eqn:E; [|by vm_compute in E].
  exists c, ep. split; [reflexivity|].
  refine (proj1 (network_reachable "n" "10.0.0.0/30" "" (Ipam.mk 167772160 30 167772161)
            demo_net c _ _ _ _)).
  - vm_compute. reflexivity.
  - vm_compute. reflexivity.
  - vm_compute. reflexivity.
  - apply rtc_once. by eapply step_connect.
Defined.

(** Connecting and then disconnecting a box restores the network, and a box
    that is already connected is refused. *)
Theorem connect_disconnect c id name aliases c' ep :
  connect_with_aliases c id name aliases = Ok (c', ep) →
  disconnect c' id = Ok (c, ep) ∧
  connect_with_aliases c' id name aliases = Err (AlreadyConnected id (net_name c)).
Proof.
  unfold connect_with_aliases. case_bool_decide as Hnone; [done|]. intros H. inv_result.
  apply eq_None_not_Some in Hnone. unfold disconnect. simpl. split.
  - rewrite lookup_insert_eq. simpl. rewrite delete_insert_id by done.
    by destruct c.
  - rewrite bool_decide_eq_true_2; [done|]. rewrite lookup_insert_eq. eauto.
Qed.

Lemma connect_disconnect_witness :
  ∃ c ep, connect_with_aliases demo_net "b1" "web" ["w"; ""] = Ok (c, ep) ∧
    disconnect c "b1" = Ok (demo_net, ep).
Proof.
  destruct (connect_with_aliases demo_net "b1" "web" ["w"; ""]) as [[c ep]|e] eqn:E;
    [|by vm_compute in E].
  exists c, ep. split; [reflexivity|]. exact (proj1 (connect_disconnect _ _ _ _ _ _ E)).
Defined.

(** Peer discovery.  On a well-formed network, the names a box is given are
    exactly the box name and the aliases of every other endpoint, each with that
    endpoint's address; the policy in force removes none of them. *)
Theorem peers_exact ipam c id ip name :
  network_inv ipam c →
  (ip, name) ∈ allowed_peer_endpoints c id ↔
  ∃ id' ep, id' ≠ id ∧ net_endpoints c !! id' = Some ep ∧ ip = show_ipv4 (ep_ip_address ep) ∧
    (name = ep_box_name ep ∨ name ∈ ep_aliases ep).
Proof.
  intros [_ _ Hp He _]. unfold allowed_peer_endpoints, allowed_peers, is_peer_allowed.
  rewrite Hp, filter_all. unfold peer_endpoints. rewrite list_elem_of_bind.
  setoid_rewrite list_elem_of_In at 2. setoid_rewrite filter_In.
  setoid_rewrite <-list_elem_of_In. setoid_rewrite elem_of_values.
  setoid_rewrite negb_true_iff. setoid_rewrite bool_decide_eq_false.
  setoid_rewrite elem_of_cons. setoid_rewrite list_elem_of_fmap. split.
  - intros (ep & Hin & [id' Hep] & Hne). exists id', ep.
    rewrite (epok_id _ _ _ (He _ _ Hep)) in Hne.
    destruct Hin as [[= -> ->]|(a & [= -> ->] & ?)]; auto.
  - intros (id' & ep & Hne & Hep & -> & Hn). exists ep.
    rewrite (epok_id _ _ _ (He _ _ Hep)). split; [|by eauto].
    destruct Hn as [->|?]; eauto.
Qed.

Lemma peers_exact_witness :
  ∃ c ep, connect demo_net "b1" "web" = Ok (c, ep) ∧
    ("10.0.0.2", "web") ∈ allowed_peer_endpoints c "b2".
Proof.
  destruct (connect demo_net "b1" "web") as [[c ep]|e] eqn:E; [|by vm_compute in E].
  exists c, ep. split; [reflexivity|].
  apply (peers_exact (Ipam.mk 167772160 30 167772161)).
  - eapply connect_preserves; [by constructor|reflexivity| |exact E].
    constructor; try reflexivity; intros *; unfold demo_net; simpl; by rewrite lookup_empty.
  - exists "b1", ep. vm_compute in E. injection E as <- <-. split_and!; [done|reflexivity..|by left].
Defined.

(** Finding.  The network address [255.255.255.254] passes [Ipam::new] (its
    gateway does not overflow), but the first candidate of [allocate] does: in a
    build without overflow checks the address [0.0.0.0], outside the subnet, is
    handed out. *)
Theorem allocate_overflow :
  ∃ ipam, Ipam.new "255.255.255.254/30" = Ok ipam ∧
    Ipam.allocate ipam [] = Ok 0 ∧ ~ Ipam.in_subnet ipam 0.
Proof.
  exists (Ipam.mk 4294967294 30 4294967295).
  split; [vm_compute; reflexivity|]. split; [vm_compute; reflexivity|]. vm_compute. congruence.
Qed.
