(* ===== verification/Store.v ===== *)
(** * JSON-file stores of networks and volumes

    [runtime/src/network/store.rs], [runtime/src/volume/store.rs] and the volume
    records of [core/src/volume.rs].  A store is a file on disk next to the
    temporary file that [save] writes and renames.  What serde does is a
    parameter: the file contents ([content]), printing and parsing.  Every system
    call may fail; which ones do is the [io_env] of the call. *)

From Stdlib Require Import ZArith Lia Ascii.
From stdpp Require Import base gmap strings list numbers relations.
From S2P Require Import Prelude RustStr Network.

(** ** The file *)

Inductive store_err :=
  | ReadFailed | ParseFailed | MkdirFailed | SerializeFailed | WriteFailed | RenameFailed
  | AlreadyExists (name : string)
  | NotFound (name : string)
  | HasEndpoints (name : string) (n : nat)
  | InUse (name : string) (n : nat)
  | VolumeDirFailed (dir : string).

Section file.
Context {content data : Type}.

Record file := { main_file : option content; tmp_file : option content }.

(** Which system calls of one operation succeed; a failed write leaves the
    temporary file in the state [write_fails] gives. *)
Record io_env := {
  read_ok : bool; mkdir_ok : bool; serialize_ok : bool;
  write_fails : option (option content); rename_ok : bool;
}.

Definition good_env : io_env :=
  {| read_ok := true; mkdir_ok := true; serialize_ok := true;
     write_fails := None; rename_ok := true |}.

Context (to_json : data → content) (from_json : content → option data) (empty_data : data).

(** [NetworkStore::load], [VolumeStore::load] *)
Definition load (io : io_env) (f : file) : result store_err data :=
  match main_file f with
  | None => Ok empty_data
  | Some c =>
      if read_ok io then ok_or ParseFailed (from_json c) else Err ReadFailed
  end.

(** [NetworkStore::save], [VolumeStore::save] *)
Definition save (io : io_env) (d : data) (f : file) : file * result store_err unit :=
  if negb (mkdir_ok io) then (f, Err MkdirFailed)
  else if negb (serialize_ok io) then (f, Err SerializeFailed)
  else
    match write_fails io with
    | Some t => ({| main_file := main_file f; tmp_file := t |}, Err WriteFailed)
    | None =>
        let f1 := {| main_file := main_file f; tmp_file := Some (to_json d) |} in
        if negb (rename_ok io) then (f1, Err RenameFailed)
        else ({| main_file := tmp_file f1; tmp_file := None |}, Ok tt)
    end.

(** The states a crash during [save] can leave: before the write, anything in
    the temporary file while it is written, after it, and after the rename. *)
Inductive save_crash (d : data) (f : file) : file → Prop :=
  | crash_before : save_crash d f f
  | crash_writing t :
      save_crash d f {| main_file := main_file f; tmp_file := t |}
  | crash_after_rename :
      save_crash d f {| main_file := Some (to_json d); tmp_file := None |}.

Lemma save_Ok io d f f' :
  save io d f = (f', Ok tt) → main_file f' = Some (to_json d) ∧ tmp_file f' = None.
Proof.
  unfold save. repeat case_match; try done. by intros [= <-].
Qed.

Lemma save_Err io d f f' e : save io d f = (f', Err e) → main_file f' = main_file f.
Proof. unfold save. repeat case_match; try done; by intros [= <- _]. Qed.

Lemma save_good d f :
  save good_env d f = ({| main_file := Some (to_json d); tmp_file := None |}, Ok tt).
Proof. done. Qed.

(** What a file stores, read without failures. *)
Definition stored (f : file) : option data := res_ok (load good_env f).

Context (json_roundtrip : ∀ d, from_json (to_json d) = Some d).

Lemma stored_save_Ok io d f f' : save io d f = (f', Ok tt) → stored f' = Some d.
Proof using json_roundtrip.
  intros [H _]%save_Ok. unfold stored, load. rewrite H. simpl. by rewrite json_roundtrip.
Qed.

Lemma stored_save_Err io d f f' e : save io d f = (f', Err e) → stored f' = stored f.
Proof using. intros H%save_Err. unfold stored, load. by rewrite H. Qed.

(** A crash in the middle of a save leaves the old contents or the new ones. *)
Lemma stored_crash d f f' :
  save_crash d f f' → stored f' = stored f ∨ stored f' = Some d.
Proof using json_roundtrip.
  intros []; [by left|by left|right]. unfold stored, load. simpl. by rewrite json_roundtrip.
Qed.

Lemma load_stored io f d : load io f = Ok d → stored f = Some d.
Proof using.
  unfold stored, load. destruct (main_file f); [|by intros [= ->]].
  case_match; [|done]. intros Hc. inv_result. simpl. by rewrite Hc.
Qed.

(** Load, change the contents, save: the shape of every mutating method. *)
Definition modify {R} (io : io_env) (f : file)
    (step : data → result store_err (data * R)) : file * result store_err R :=
  match load io f with
  | Err e => (f, Err e)
  | Ok d =>
      match step d with
      | Err e => (f, Err e)
      | Ok (d', r) =>
          match save io d' f with
          | (f', Ok _) => (f', Ok r)
          | (f', Err e) => (f', Err e)
          end
      end
  end.

Lemma modify_Ok {R} io f (step : data → result store_err (data * R)) f' r :
  modify io f step = (f', Ok r) →
  ∃ d d', stored f = Some d ∧ step d = Ok (d', r) ∧ stored f' = Some d'.
Proof using json_roundtrip.
  unfold modify. destruct (load io f) as [d|] eqn:Hl; [|done].
  destruct (step d) as [[d' r']|] eqn:Hs; [|done].
  destruct (save io d' f) as [f1 [[]|]] eqn:Hsv; [|done]. intros [= <- <-].
  exists d, d'. split_and!; [by eapply load_stored|done|by eapply stored_save_Ok].
Qed.

Lemma modify_Err {R} io f (step : data → result store_err (data * R)) f' e :
  modify io f step = (f', Err e) → stored f' = stored f.
Proof using.
  unfold modify. destruct (load io f) as [d|] eqn:Hl; [|by intros [= <- _]].
  destruct (step d) as [[d' r']|] eqn:Hs; [|by intros [= <- _]].
  destruct (save io d' f) as [f1 [[]|]] eqn:Hsv; [done|]. intros [= <- _].
  by eapply stored_save_Err.
Qed.

Lemma modify_good {R} f d d' (r : R) step :
  stored f = Some d → step d = Ok (d', r) →
  modify good_env f step = ({| main_file := Some (to_json d'); tmp_file := None |}, Ok r).
Proof using.
  unfold stored, modify. destruct (load good_env f) eqn:E; [|done].
  intros [= <-] ->. done.
Qed.

Lemma modify_step_Err {R} f d e (step : data → result store_err (data * R)) :
  stored f = Some d → step d = Err e → modify good_env f step = (f, Err e).
Proof using.
  unfold stored, modify. destruct (load good_env f) eqn:E; [|done]. by intros [= <-] ->.
Qed.
End file.
Arguments file : clear implicits.
Arguments io_env : clear implicits.
Arguments good_env {content}.

(** ** Interface of a keyed store

    What [core/src/traits/store.rs] promises to the runtime and the CLI: the
    operations act on a finite map from names to configurations, and an operation
    that fails leaves that map alone. *)
Class KeyedStore (S cfg : Type) := {
  ks_state : S → option (gmap string cfg);
  ks_get : S → string → result store_err (option cfg);
  ks_create : S → cfg → S * result store_err cfg;
  ks_remove : S → string → bool → S * result store_err cfg;
  ks_update : S → cfg → S * result store_err unit;
}.

Class KeyedStoreLaws (S cfg : Type) `{KeyedStore S cfg} (name_of : cfg → string)
    (busy : cfg → bool) := {
  ks_get_spec s m name : ks_state s = Some m → ks_get s name = Ok (m !! name);
  ks_create_fresh s m c :
    ks_state s = Some m → m !! name_of c = None →
    ∃ s' c', ks_create s c = (s', Ok c') ∧ name_of c' = name_of c ∧
      ks_state s' = Some (<[name_of c := c']> m);
  ks_create_taken s m c :
    ks_state s = Some m → is_Some (m !! name_of c) →
    ks_create s c = (s, Err (AlreadyExists (name_of c)));
  ks_remove_idle s m name c force :
    ks_state s = Some m → m !! name = Some c → busy c = false →
    ∃ s', ks_remove s name force = (s', Ok c) ∧ ks_state s' = Some (delete name m);
  ks_remove_busy s m name c :
    ks_state s = Some m → m !! name = Some c → busy c = true →
    ∃ e, ks_remove s name false = (s, Err e);
  ks_remove_missing s m name force :
    ks_state s = Some m → m !! name = None →
    ks_remove s name force = (s, Err (NotFound name));
  ks_update_present s m c :
    ks_state s = Some m → is_Some (m !! name_of c) →
    ∃ s', ks_update s c = (s', Ok tt) ∧ ks_state s' = Some (<[name_of c := c]> m);
  ks_update_missing s m c :
    ks_state s = Some m → m !! name_of c = None →
    ks_update s c = (s, Err (NotFound (name_of c)));
}.

(** ** Networks *)
Module NetworkStore.
Section store.
Context {content : Type} (to_json : gmap string NetworkConfig → content)
  (from_json : content → option (gmap string NetworkConfig)).

Abbreviation store := (file content).
Abbreviation networks := (gmap string NetworkConfig).

(** [NetworkStore::get] *)
Definition get (io : io_env content) (f : store) (name : string) :
    result store_err (option NetworkConfig) :=
  m ← load from_json ∅ io f; Ok (m !! name).

Definition create_step (config : NetworkConfig) (m : networks) :
    result store_err (networks * unit) :=
  if bool_decide (is_Some (m !! net_name config)) then Err (AlreadyExists (net_name config))
  else Ok (<[net_name config := config]> m, tt).

(** [NetworkStore::create] *)
Definition create (io : io_env content) (f : store) (config : NetworkConfig) :=
  modify to_json from_json ∅ io f (create_step config).

Definition remove_step (name : string) (m : networks) :
    result store_err (networks * NetworkConfig) :=
  config ← ok_or (NotFound name) (m !! name);
  if negb (bool_decide (net_endpoints config = ∅)) then
    Err (HasEndpoints name (size (net_endpoints config)))
  else Ok (delete name m, config).

(** [NetworkStore::remove] *)
Definition remove (io : io_env content) (f : store) (name : string) :=
  modify to_json from_json ∅ io f (remove_step name).

(** [NetworkStore::list] *)
Definition list (io : io_env content) (f : store) : result store_err (list NetworkConfig) :=
  m ← load from_json ∅ io f; Ok (values m).

Definition update_step (config : NetworkConfig) (m : networks) :
    result store_err (networks * unit) :=
  if bool_decide (is_Some (m !! net_name config)) then
    Ok (<[net_name config := config]> m, tt)
  else Err (NotFound (net_name config)).

(** [NetworkStore::update] *)
Definition update (io : io_env content) (f : store) (config : NetworkConfig) :=
  modify to_json from_json ∅ io f (update_step config).

(** A network is stored under its own name. *)
Definition keyed (m : networks) : Prop := ∀ name c, m !! name = Some c → net_name c = name.

Lemma create_step_keyed c m m' r : keyed m → create_step c m = Ok (m', r) → keyed m'.
Proof.
  intros Hk. unfold create_step. case_match; [done|]. intros [= <- _] n c'.
  intros [[<- <-]|[_ ?]]%lookup_insert_Some; auto.
Qed.
Lemma remove_step_keyed n m m' r : keyed m → remove_step n m = Ok (m', r) → keyed m'.
Proof.
  intros Hk. unfold remove_step. intros H. inv_result. case_match; [done|].
  inv_result. intros n' c' [_ ?]%lookup_delete_Some; auto.
Qed.
Lemma update_step_keyed c m m' r : keyed m → update_step c m = Ok (m', r) → keyed m'.
Proof.
  intros Hk. unfold update_step. case_match; [|done]. intros [= <- _] n c'.
  intros [[<- <-]|[_ ?]]%lookup_insert_Some; auto.
Qed.
End store.
End NetworkStore.

(** ** Volumes *)

Record VolumeConfig := {
  vol_name : string; vol_driver : string; vol_mount_point : string;
  vol_labels : gmap string string; vol_in_use_by : list string;
  vol_size_limit : Z; vol_created_at : string;
}.

(** [VolumeConfig::new] *)
Definition volume_new (name mount_point now : string) : VolumeConfig :=
  {| vol_name := name; vol_driver := "local"; vol_mount_point := mount_point;
     vol_labels := ∅; vol_in_use_by := []; vol_size_limit := 0; vol_created_at := now |}.

Definition with_users (v : VolumeConfig) (users : list string) : VolumeConfig :=
  {| vol_name := vol_name v; vol_driver := vol_driver v; vol_mount_point := vol_mount_point v;
     vol_labels := vol_labels v; vol_in_use_by := users; vol_size_limit := vol_size_limit v;
     vol_created_at := vol_created_at v |}.

Definition with_mount_point (v : VolumeConfig) (dir : string) : VolumeConfig :=
  {| vol_name := vol_name v; vol_driver := vol_driver v; vol_mount_point := dir;
     vol_labels := vol_labels v; vol_in_use_by := vol_in_use_by v;
     vol_size_limit := vol_size_limit v; vol_created_at := vol_created_at v |}.

(** [VolumeConfig::with_size_limit] *)
Definition volume_with_size_limit (name mount_point now : string) (size_limit : Z) : VolumeConfig :=
  let vol := volume_new name mount_point now in
  {| vol_name := vol_name vol; vol_driver := vol_driver vol;
     vol_mount_point := vol_mount_point vol; vol_labels := vol_labels vol;
     vol_in_use_by := vol_in_use_by vol; vol_size_limit := size_limit;
     vol_created_at := vol_created_at vol |}.

(** [VolumeConfig::attach], [detach] and [is_in_use] *)
Definition attach (v : VolumeConfig) (box_id : string) : VolumeConfig :=
  if bool_decide (box_id ∈ vol_in_use_by v) then v
  else with_users v (vol_in_use_by v ++ [box_id]).
Definition detach (v : VolumeConfig) (box_id : string) : VolumeConfig :=
  with_users v (List.filter (λ id, negb (bool_decide (id = box_id))) (vol_in_use_by v)).
Definition is_in_use (v : VolumeConfig) : bool :=
  match vol_in_use_by v with [] => false | _ => true end.

(** A directory as [read_dir] lists it; [None] is an entry whose metadata cannot
    be read, [Dir None] a directory that cannot be listed. *)
Inductive entry :=
  | File (len : option Z)
  | Dir (entries : option (list entry)).

(** [dir_size], modulo [2^64]; a path that is not a directory lists nothing. *)
Fixpoint dir_size (path : entry) : Z :=
  match path with
  | Dir (Some es) =>
      (fix go (es : list entry) : Z :=
         match es with
         | [] => 0%Z
         | p :: es =>
             let total := go es in
             match p with
             | Dir _ => wrap 64 (total + dir_size p)
             | File (Some len) => wrap 64 (total + len)
             | File None => total
             end
         end) es
  | _ => 0%Z
  end.

(** [VolumeConfig::check_quota]; [path] is what is found at the mount point. *)
Definition check_quota (v : VolumeConfig) (path : option entry) : result (string * Z * Z) Z :=
  if (vol_size_limit v =? 0)%Z then Ok 0%Z
  else
    match path with
    | None => Ok 0%Z
    | Some d =>
        let size := dir_size d in
        if (vol_size_limit v <? size)%Z then Err (vol_name v, size, vol_size_limit v) else Ok size
    end.

(** [PathBuf::join] on Unix *)
Definition path_join (base p : string) : string :=
  if starts_with "/" p then p
  else if is_empty base || ends_with "/" base then base +:+ p
  else base +:+ "/" +:+ p.

Module VolumeStore.
Section store.
Context {content : Type} (to_json : gmap string VolumeConfig → content)
  (from_json : content → option (gmap string VolumeConfig)) (volumes_dir : string).

Abbreviation volumes := (gmap string VolumeConfig).

(** The volume file and the data directories that exist. *)
Record store := { vfile : file content; vdirs : gset string }.

Record vol_io := { vio : io_env content; mkvol_ok : bool; rmvol_ok : bool }.
Definition good_io : vol_io := {| vio := good_env; mkvol_ok := true; rmvol_ok := true |}.

(** [VolumeStore::volume_dir] *)
Definition volume_dir (name : string) : string := path_join volumes_dir name.

(** [VolumeStore::get] *)
Definition get (io : vol_io) (s : store) (name : string) :
    result store_err (option VolumeConfig) :=
  m ← load from_json ∅ (vio io) (vfile s); Ok (m !! name).

(** [VolumeStore::create] *)
Definition create (io : vol_io) (s : store) (config : VolumeConfig) :
    store * result store_err VolumeConfig :=
  match load from_json ∅ (vio io) (vfile s) with
  | Err e => (s, Err e)
  | Ok m =>
      if bool_decide (is_Some (m !! vol_name config)) then
        (s, Err (AlreadyExists (vol_name config)))
      else
        let vol_dir := volume_dir (vol_name config) in
        if negb (mkvol_ok io) then (s, Err (VolumeDirFailed vol_dir))
        else
          let dirs := {[ vol_dir ]} ∪ vdirs s in
          let config := with_mount_point config vol_dir in
          match save to_json (vio io) (<[vol_name config := config]> m) (vfile s) with
          | (f, Ok _) => ({| vfile := f; vdirs := dirs |}, Ok config)
          | (f, Err e) => ({| vfile := f; vdirs := dirs |}, Err e)
          end
  end.

(** [VolumeStore::remove] *)
Definition remove (io : vol_io) (s : store) (name : string) (force : bool) :
    store * result store_err VolumeConfig :=
  match load from_json ∅ (vio io) (vfile s) with
  | Err e => (s, Err e)
  | Ok m =>
      match m !! name with
      | None => (s, Err (NotFound name))
      | Some config =>
          if is_in_use config && negb force then
            (s, Err (InUse name (length (vol_in_use_by config))))
          else
            match save to_json (vio io) (delete name m) (vfile s) with
            | (f, Err e) => ({| vfile := f; vdirs := vdirs s |}, Err e)
            | (f, Ok _) =>
                let dirs :=
                  if bool_decide (volume_dir name ∈ vdirs s) && rmvol_ok io
                  then vdirs s ∖ {[ volume_dir name ]} else vdirs s in
                ({| vfile := f; vdirs := dirs |}, Ok config)
            end
      end
  end.

(** [VolumeStore::list] *)
Definition list (io : vol_io) (s : store) : result store_err (list VolumeConfig) :=
  m ← load from_json ∅ (vio io) (vfile s); Ok (values m).

(** [VolumeStore::update] *)
Definition update (io : vol_io) (s : store) (config : VolumeConfig) :
    store * result store_err unit :=
  match load from_json ∅ (vio io) (vfile s) with
  | Err e => (s, Err e)
  | Ok m =>
      if negb (bool_decide (is_Some (m !! vol_name config))) then
        (s, Err (NotFound (vol_name config)))
      else
        match save to_json (vio io) (<[vol_name config := config]> m) (vfile s) with
        | (f, r) => ({| vfile := f; vdirs := vdirs s |}, r)
        end
  end.

Definition unused (m : volumes) : Datatypes.list string :=
  (List.filter (λ kv, negb (is_in_use (snd kv))) (map_to_list m)).*1.

(** [VolumeStore::prune]; [io name] are the system calls of the removal of [name]. *)
Definition prune (io0 : vol_io) (io : string → vol_io) (s : store) :
    store * result store_err (Datatypes.list string) :=
  match load from_json ∅ (vio io0) (vfile s) with
  | Err e => (s, Err e)
  | Ok m =>
      let pruned := unused m in
      (foldl (λ s name, fst (remove (io name) s name false)) s pruned, Ok pruned)
  end.

Definition vstored (s : store) : option volumes := stored from_json ∅ (vfile s).
End store.
Arguments store : clear implicits.
Arguments vol_io : clear implicits.
End VolumeStore.

(** ** The stores implement the interface *)

Section network_instance.
Context {content : Type} (to_json : gmap string NetworkConfig → content)
  (from_json : content → option (gmap string NetworkConfig))
  (json_roundtrip : ∀ d, from_json (to_json d) = Some d).

(** The trait implementation for [NetworkStore], system calls succeeding. *)
#[local] Instance network_store : KeyedStore (file content) NetworkConfig := {
  ks_state := stored from_json ∅;
  ks_get := NetworkStore.get from_json good_env;
  ks_create s c :=
    let '(s', r) := NetworkStore.create to_json from_json good_env s c in
    (s', _ ← r; Ok c);
  ks_remove s name _ := NetworkStore.remove to_json from_json good_env s name;
  ks_update := NetworkStore.update to_json from_json good_env;
}.

Definition net_busy (c : NetworkConfig) : bool := negb (bool_decide (net_endpoints c = ∅)).

Lemma network_stored_after (m : gmap string NetworkConfig) :
  stored from_json ∅ {| main_file := Some (to_json m); tmp_file := None |} = Some m.
Proof using json_roundtrip. unfold stored, load. simpl. by rewrite json_roundtrip. Qed.

#[local] Instance network_store_laws :
  KeyedStoreLaws (file content) NetworkConfig net_name net_busy.
Proof using json_roundtrip.
  split; simpl.
  - intros s m name Hs. unfold NetworkStore.get. unfold stored in Hs.
    destruct (load from_json ∅ good_env s); [|done]. by injection Hs as ->.
  - intros s m c Hs Hn. unfold NetworkStore.create. erewrite modify_good; [|done|].
    2: { unfold NetworkStore.create_step. rewrite bool_decide_eq_false_2; [done|].
         by apply eq_None_not_Some. }
    eexists _, c. split; [reflexivity|]. by rewrite network_stored_after.
  - intros s m c Hs Hn. unfold NetworkStore.create. erewrite modify_step_Err; [done..|].
    unfold NetworkStore.create_step. by rewrite bool_decide_eq_true_2.
  - intros s m name c force Hs Hn Hb. unfold NetworkStore.remove.
    erewrite modify_good; [|done|].
    2: { unfold NetworkStore.remove_step. rewrite Hn. simpl. unfold net_busy in Hb.
         by rewrite Hb. }
    eexists. split; [reflexivity|]. by rewrite network_stored_after.
  - intros s m name c Hs Hn Hb. unfold NetworkStore.remove. eexists.
    eapply modify_step_Err; [done|].
    unfold NetworkStore.remove_step. rewrite Hn. simpl. unfold net_busy in Hb. by rewrite Hb.
  - intros s m name force Hs Hn. unfold NetworkStore.remove.
    eapply modify_step_Err; [done|]. unfold NetworkStore.remove_step. by rewrite Hn.
  - intros s m c Hs Hn. unfold NetworkStore.update. erewrite modify_good; [|done|].
    2: { unfold NetworkStore.update_step. by rewrite bool_decide_eq_true_2. }
    eexists. split; [reflexivity|]. by rewrite network_stored_after.
  - intros s m c Hs Hn. unfold NetworkStore.update. eapply modify_step_Err; [done|].
    unfold NetworkStore.update_step. rewrite bool_decide_eq_false_2; [done|].
    by apply eq_None_not_Some.
Qed.
End network_instance.

Section volume_instance.
Context {content : Type} (to_json : gmap string VolumeConfig → content)
  (from_json : content → option (gmap string VolumeConfig))
  (json_roundtrip : ∀ d, from_json (to_json d) = Some d) (volumes_dir : string).
Import VolumeStore.

#[local] Instance volume_store : KeyedStore (store content) VolumeConfig := {
  ks_state := vstored from_json;
  ks_get := get from_json good_io;
  ks_create := create to_json from_json volumes_dir good_io;
  ks_remove := remove to_json from_json volumes_dir good_io;
  ks_update := update to_json from_json good_io;
}.

Lemma vstored_load s m :
  vstored from_json s = Some m → load from_json ∅ good_env (vfile s) = Ok m.
Proof using. unfold vstored, stored. by destruct (load _ _ _ _); [intros [= ->]|]. Qed.

Lemma vstored_after m dirs :
  vstored from_json {| vfile := {| main_file := Some (to_json m); tmp_file := None |};
                       vdirs := dirs |} = Some m.
Proof using json_roundtrip. unfold vstored, stored, load. simpl. by rewrite json_roundtrip. Qed.

#[local] Instance volume_store_laws :
  KeyedStoreLaws (store content) VolumeConfig vol_name is_in_use.
Proof using json_roundtrip.
  split; simpl.
  - intros s m name Hs%vstored_load. unfold get. simpl. by rewrite Hs.
  - intros s m c Hs%vstored_load Hn. unfold create. simpl. rewrite Hs, Hn.
    eexists _, _. split; [reflexivity|]. split; [done|]. apply vstored_after.
  - intros s m c Hs%vstored_load [c' Hn]. unfold create. simpl. by rewrite Hs, Hn.
  - intros s m name c force Hs%vstored_load Hn Hb. unfold remove. simpl. rewrite Hs, Hn, Hb.
    eexists. split; [reflexivity|]. apply vstored_after.
  - intros s m name c Hs%vstored_load Hn Hb. unfold remove. simpl. rewrite Hs, Hn, Hb. eauto.
  - intros s m name force Hs%vstored_load Hn. unfold remove. simpl. by rewrite Hs, Hn.
  - intros s m c Hs%vstored_load [c' Hn]. unfold update. simpl. rewrite Hs, Hn.
    eexists. split; [reflexivity|]. apply vstored_after.
  - intros s m c Hs%vstored_load Hn. unfold update. simpl. by rewrite Hs, Hn.
Qed.
End volume_instance.

(** ** Clients of the volume interface ([cli/src/commands/volume.rs]) *)

(** The effect of changing the named entries of a map, one after the other. *)
Definition alter_all {A} (f : A → A) (names : list string) (m : gmap string A) : gmap string A :=
  foldl (λ m name, alter f name m) m names.

Lemma lookup_alter_all {A} (f : A → A) names m k :
  (∀ x, f (f x) = f x) →
  alter_all f names m !! k = if bool_decide (k ∈ names) then f <$> m !! k else m !! k.
Proof.
  intros Hf. unfold alter_all. revert m. induction names as [|n names IH]; intros m; simpl; [done|].
  rewrite IH. destruct (decide (n = k)) as [->|Hne].
  - rewrite lookup_alter_eq, (bool_decide_eq_true_2 (k ∈ k :: names)) by set_solver.
    case_bool_decide; [|done]. destruct (m !! k); simpl; by rewrite ?Hf.
  - rewrite lookup_alter_ne by done.
    by rewrite (bool_decide_ext (k ∈ n :: names) (k ∈ names)) by set_solver.
Qed.

Lemma detach_attach v box : box ∉ vol_in_use_by v → detach (attach v box) box = v.
Proof.
  intros Hn. unfold attach, detach. rewrite bool_decide_eq_false_2 by done. simpl.
  rewrite List.filter_app. simpl. rewrite bool_decide_eq_true_2 by done. simpl.
  rewrite app_nil_r. destruct v as [? ? ? ? users ? ?]. unfold with_users; simpl in *. f_equal.
  induction users as [|u users IH]; simpl; [done|].
  rewrite bool_decide_eq_false_2 by set_solver. simpl. f_equal. apply IH. set_solver.
Qed.

Lemma attach_idem v box : attach (attach v box) box = attach v box.
Proof.
  unfold attach at 2 3. case_bool_decide as E.
  - unfold attach. by rewrite bool_decide_eq_true_2.
  - unfold attach. rewrite bool_decide_eq_true_2; [done|]. simpl. set_solver.
Qed.

Lemma detach_not_in v box : box ∉ vol_in_use_by (detach v box).
Proof.
  unfold detach. simpl. rewrite elem_of_filter_b. intros [_ H].
  by rewrite bool_decide_eq_true_2 in H.
Qed.

Lemma detach_id v box : box ∉ vol_in_use_by v → detach v box = v.
Proof.
  intros Hn. unfold detach. destruct v as [? ? ? ? users ? ?]. unfold with_users; simpl in *. f_equal.
  induction users as [|u users IH]; simpl; [done|].
  rewrite bool_decide_eq_false_2 by set_solver. simpl. f_equal. apply IH. set_solver.
Qed.

Lemma detach_idem v box : detach (detach v box) box = detach v box.
Proof. apply detach_id, detach_not_in. Qed.

Section client.
Context {S : Type} `{KeyedStoreLaws S VolumeConfig vol_name is_in_use}.

(** [attach_volumes_with_store] *)
Fixpoint attach_volumes (s : S) (volume_names : list string) (box_id : string) :
    S * result store_err unit :=
  match volume_names with
  | [] => (s, Ok tt)
  | name :: names =>
      match ks_get s name with
      | Err e => (s, Err e)
      | Ok None => attach_volumes s names box_id
      | Ok (Some config) =>
          match ks_update s (attach config box_id) with
          | (s', Err e) => (s', Err e)
          | (s', Ok _) => attach_volumes s' names box_id
          end
      end
  end.

(** [detach_volumes], on a store that opens *)
Fixpoint detach_volumes (s : S) (volume_names : list string) (box_id : string) : S :=
  match volume_names with
  | [] => s
  | name :: names =>
      match ks_get s name with
      | Ok (Some config) =>
          detach_volumes (fst (ks_update s (detach config box_id))) names box_id
      | _ => detach_volumes s names box_id
      end
  end.

Definition vol_keyed (m : gmap string VolumeConfig) : Prop :=
  ∀ name v, m !! name = Some v → vol_name v = name.

Lemma vol_keyed_alter f name m :
  (∀ v, vol_name (f v) = vol_name v) → vol_keyed m → vol_keyed (alter f name m).
Proof using.
  intros Hf Hk n v. rewrite lookup_alter_Some.
  intros [(-> & v' & Hv & ->)|[_ ?]]; [rewrite Hf|]; auto.
Qed.

Lemma attach_name v box : vol_name (attach v box) = vol_name v.
Proof using. unfold attach. by case_match. Qed.

Lemma attach_volumes_spec s m names box :
  ks_state s = Some m → vol_keyed m →
  ∃ s', attach_volumes s names box = (s', Ok tt) ∧
    ks_state s' = Some (alter_all (λ v, attach v box) names m) ∧
    vol_keyed (alter_all (λ v, attach v box) names m).
Proof using All.
  revert s m. induction names as [|n names IH]; intros s m Hs Hk; simpl; [by eauto|].
  rewrite (ks_get_spec s m n Hs). destruct (m !! n) as [v|] eqn:Hv.
  - destruct (ks_update_present s m (attach v box)) as (s1 & Hu & Hs1);
      [done|rewrite attach_name, (Hk _ _ Hv); eauto|].
    rewrite Hu. apply (IH s1 (alter (λ v, attach v box) n m)).
    + rewrite Hs1. f_equal. rewrite attach_name, (Hk _ _ Hv).
      symmetry. exact (alter_alt_Some (λ v, attach v box) m n v Hv).
    + apply vol_keyed_alter; [by intros; apply attach_name|done].
  - apply (IH s (alter (λ v, attach v box) n m));
      [|apply vol_keyed_alter; [by intros; apply attach_name|done]].
    rewrite Hs. f_equal. symmetry. by apply alter_id'.
Qed.

Lemma detach_volumes_spec s m names box :
  ks_state s = Some m → vol_keyed m →
  ks_state (detach_volumes s names box) = Some (alter_all (λ v, detach v box) names m).
Proof using All.
  revert s m. induction names as [|n names IH]; intros s m Hs Hk; simpl; [done|].
  rewrite (ks_get_spec s m n Hs). destruct (m !! n) as [v|] eqn:Hv.
  - destruct (ks_update_present s m (detach v box)) as (s1 & Hu & Hs1);
      [done|simpl; rewrite (Hk _ _ Hv); eauto|].
    rewrite Hu. apply (IH s1 (alter (λ v, detach v box) n m)).
    + rewrite Hs1. f_equal. simpl. rewrite (Hk _ _ Hv).
      symmetry. exact (alter_alt_Some (λ v, detach v box) m n v Hv).
    + by apply vol_keyed_alter.
  - apply (IH s (alter (λ v, detach v box) n m)); [|by apply vol_keyed_alter].
    rewrite Hs. f_equal. symmetry. by apply alter_id'.
Qed.
End client.

(** ** Properties *)

(** Saving is atomic.  Whatever system calls fail during an update of a
    JSON store, the update either reports success and the file holds the new
    contents, or reports an error and the file still holds the old ones; and a
    crash at any point of a save leaves the old or the new contents, never a torn
    file. *)
Theorem store_atomic {content data R} (to_json : data → content) (from_json : content → option data)
    (empty_data : data) (io : io_env content) (f : file content)
    (step : data → result store_err (data * R)) :
  (∀ d, from_json (to_json d) = Some d) →
  (let '(f', r) := modify to_json from_json empty_data io f step in
   match r with
   | Ok x => ∃ d d', stored from_json empty_data f = Some d ∧ step d = Ok (d', x) ∧
                     stored from_json empty_data f' = Some d'
   | Err _ => stored from_json empty_data f' = stored from_json empty_data f
   end) ∧
  (∀ d f', save_crash to_json d f f' →
     stored from_json empty_data f' = stored from_json empty_data f ∨
     stored from_json empty_data f' = Some d).
Proof.
  intros Hj. split.
  - destruct (modify _ _ _ _ _ _) as [f' [x|e]] eqn:E;
      [by eapply modify_Ok|by eapply modify_Err].
  - intros d f'. by eapply stored_crash.
Qed.

Lemma store_atomic_witness :
  stored Some 0%Z (fst (modify (λ x : Z, x) Some 0%Z
    {| read_ok := true; mkdir_ok := true; serialize_ok := true; write_fails := Some (Some 9%Z);
       rename_ok := true |} {| main_file := Some 4%Z; tmp_file := None |}
    (λ d, Ok (d + 1, tt)%Z))) = Some 4%Z.
Proof.
  refine (proj1 (store_atomic (λ x : Z, x) Some 0%Z
    {| read_ok := true; mkdir_ok := true; serialize_ok := true; write_fails := Some (Some 9%Z);
       rename_ok := true |} {| main_file := Some 4%Z; tmp_file := None |}
    (λ d, Ok (d + 1, tt)%Z) _)). reflexivity.
Defined.

(** C39: Both stores implement the store interface of [core/src/traits/store.rs].
    With working system calls, the JSON-file stores of networks and volumes behave
    as finite maps from names to configurations: [get] looks up, [create] and
    [update] write under the configuration's own name and refuse a taken or
    missing one, and [remove] refuses a network with endpoints or a volume in use
    without touching the file. *)
Theorem stores_refine_map {nc vc} (net_to : gmap string NetworkConfig → nc)
    (net_from : nc → option (gmap string NetworkConfig))
    (vol_to : gmap string VolumeConfig → vc)
    (vol_from : vc → option (gmap string VolumeConfig)) (volumes_dir : string) :
  (∀ d, net_from (net_to d) = Some d) → (∀ d, vol_from (vol_to d) = Some d) →
  @KeyedStoreLaws _ _ (network_store net_to net_from) net_name net_busy ∧
  @KeyedStoreLaws _ _ (volume_store vol_to vol_from volumes_dir) vol_name is_in_use.
Proof. intros Hn Hv. split; [by apply network_store_laws | by apply volume_store_laws]. Qed.

Definition demo_volumes : gmap string VolumeConfig :=
  {[ "data" := volume_new "data" "/v/data" "t0" ]}.
Definition demo_store : VolumeStore.store (gmap string VolumeConfig) :=
  {| VolumeStore.vfile := {| main_file := Some demo_volumes; tmp_file := None |};
     VolumeStore.vdirs := {[ "/v/data" ]} |}.

Lemma stores_refine_map_witness :
  @ks_get _ _ (volume_store (λ m, m) Some "/v") demo_store "data" =
    Ok (Some (volume_new "data" "/v/data" "t0")).
Proof.
  rewrite (@ks_get_spec _ _ (volume_store (λ m, m) Some "/v") vol_name is_in_use
    (proj2 (stores_refine_map (λ m, m) Some (λ m, m) Some "/v" (λ _, eq_refl) (λ _, eq_refl)))
    demo_store demo_volumes); reflexivity.
Defined.

(** Attaching protects.  Through any store that implements the interface,
    attaching the named volumes of a box succeeds and marks exactly the existing
    ones as used by it; such a volume cannot be removed without [force]; and
    detaching afterwards gives back the volumes as they were, when the box did not
    use them before. *)
Theorem attach_protects {S} `{KeyedStoreLaws S VolumeConfig vol_name is_in_use}
    (s : S) m names box :
  ks_state s = Some m → vol_keyed m →
  (∀ name v, name ∈ names → m !! name = Some v → box ∉ vol_in_use_by v) →
  ∃ s', attach_volumes s names box = (s', Ok tt) ∧
    (∀ name v, name ∈ names → m !! name = Some v →
       ks_get s' name = Ok (Some (attach v box)) ∧ box ∈ vol_in_use_by (attach v box) ∧
       ∃ e, ks_remove s' name false = (s', Err e)) ∧
    (∀ name, name ∉ names → ks_get s' name = Ok (m !! name)) ∧
    ks_state (detach_volumes s' names box) = Some m.
Proof.
  intros Hs Hk Hfree. destruct (attach_volumes_spec s m names box Hs Hk) as (s' & Ha & Hs' & Hk').
  exists s'. split; [done|]. split_and!.
  - intros name v Hin Hv.
    assert (alter_all (λ v, attach v box) names m !! name = Some (attach v box)) as E.
    { rewrite lookup_alter_all, bool_decide_eq_true_2, Hv by (try done; intros; apply attach_idem). done. }
    split; [by rewrite (ks_get_spec s' _ name Hs'), E|].
    assert (box ∈ vol_in_use_by (attach v box)) as Hb.
    { unfold attach. case_bool_decide; [done|]. simpl. set_solver. }
    split; [done|]. eapply ks_remove_busy; [done..|].
    unfold is_in_use. destruct (vol_in_use_by (attach v box)); [set_solver|done].
  - intros name Hn. rewrite (ks_get_spec s' _ name Hs'), lookup_alter_all by (intros; apply attach_idem).
    by rewrite bool_decide_eq_false_2.
  - rewrite (detach_volumes_spec s' _ names box Hs' Hk'). f_equal. apply map_eq. intros name.
    rewrite lookup_alter_all by (intros; apply detach_idem).
    rewrite lookup_alter_all by (intros; apply attach_idem).
    case_bool_decide as Hin; [|done]. destruct (m !! name) as [v|] eqn:Hv; simpl; [|done].
    f_equal. apply detach_attach. eauto.
Qed.

Lemma attach_protects_witness :
  ∃ s', @attach_volumes _ (volume_store (λ m, m) Some "/v") demo_store ["data"; "none"] "b1"
    = (s', Ok tt).
Proof.
  destruct (@attach_protects _ (volume_store (λ m, m) Some "/v")
    (volume_store_laws (λ m, m) Some (λ _, eq_refl) "/v") demo_store demo_volumes
    ["data"; "none"] "b1") as (s' & Hs' & _).
  - reflexivity.
  - intros name v. unfold demo_volumes. rewrite lookup_singleton_Some. by intros [<- <-].
  - intros name v _. unfold demo_volumes. rewrite lookup_singleton_Some. intros [_ <-].
    apply not_elem_of_nil.
  - by exists s'.
Defined.

Section prune.
Context {content : Type} (to_json : gmap string VolumeConfig → content)
  (from_json : content → option (gmap string VolumeConfig))
  (json_roundtrip : ∀ d, from_json (to_json d) = Some d) (volumes_dir : string).
Import VolumeStore.

(** One removal, whatever its system calls do. *)
Lemma remove_cases io s m name force :
  vstored from_json s = Some m →
  let s' := fst (remove to_json from_json volumes_dir io s name force) in
  (vstored from_json s' = Some m ∨
   ∃ c, m !! name = Some c ∧ (is_in_use c && negb force = false) ∧
        vstored from_json s' = Some (delete name m)).
Proof using json_roundtrip.
  intros Hs. unfold remove. destruct (load from_json ∅ (vio io) (vfile s)) as [m'|e] eqn:Hl;
    [|by left].
  apply load_stored in Hl. unfold vstored in Hs. rewrite Hs in Hl. injection Hl as <-.
  destruct (m !! name) as [c|] eqn:Hc; [|by left].
  destruct (is_in_use c && negb force) eqn:Hb; [by left|].
  destruct (save to_json (vio io) (delete name m) (vfile s)) as [f [[]|]] eqn:Hsv; simpl.
  - right. exists c. split_and!; try done. by eapply stored_save_Ok.
  - left. unfold vstored. simpl. by erewrite stored_save_Err.
Qed.

Lemma prune_fold (io : string → vol_io content) names s m :
  vstored from_json s = Some m →
  let s' := foldl (λ s name, fst (remove to_json from_json volumes_dir (io name) s name false))
              s names in
  ∃ m', vstored from_json s' = Some m' ∧ m' ⊆ m ∧
    ∀ name c, m !! name = Some c → m' !! name = None → is_in_use c = false ∧ name ∈ names.
Proof using json_roundtrip.
  revert s m. induction names as [|n names IH]; intros s m Hs.
  { exists m. split_and!; [done..|]. intros. congruence. }
  cbn [foldl]. destruct (remove_cases (io n) s m n false Hs) as [H1|(c & Hc & Hb & H1)];
    destruct (IH _ _ H1) as (m' & Hm' & Hsub & Hgone); exists m'.
  - split_and!; [done..|]. intros name c' Hc' Hn. destruct (Hgone _ _ Hc' Hn). set_solver.
  - split_and!; [done|etrans; [done|apply delete_subseteq]|].
    intros name c' Hc' Hn. destruct (decide (name = n)) as [->|Hne].
    + rewrite Hc in Hc'. injection Hc' as <-. rewrite andb_true_r in Hb. set_solver.
    + destruct (Hgone name c'); [by rewrite lookup_delete_ne|done|set_solver].
Qed.
End prune.

(** Pruning never removes a volume that is in use, whichever system calls
    fail: every volume of the file either survives unchanged or was unused and is
    among the reported names. *)
Theorem prune_safe {content} (to_json : gmap string VolumeConfig → content) from_json volumes_dir
    io0 io (s s' : VolumeStore.store content) m names :
  (∀ d, from_json (to_json d) = Some d) →
  VolumeStore.vstored from_json s = Some m →
  VolumeStore.prune to_json from_json volumes_dir io0 io s = (s', Ok names) →
  ∃ m', VolumeStore.vstored from_json s' = Some m' ∧
    ∀ name c, m !! name = Some c →
      m' !! name = Some c ∨ (m' !! name = None ∧ is_in_use c = false ∧ name ∈ names).
Proof.
  intros Hj Hs. unfold VolumeStore.prune.
  destruct (load from_json ∅ (VolumeStore.vio io0) (VolumeStore.vfile s)) as [d|] eqn:Hl; [|done].
  apply load_stored in Hl. unfold VolumeStore.vstored in Hs. rewrite Hs in Hl. injection Hl as <-.
  intros [= <- <-].
  destruct (prune_fold to_json from_json Hj volumes_dir io (VolumeStore.unused m) s m Hs)
    as (m' & Hm' & Hsub & Hgone).
  exists m'. split; [done|]. intros name c Hc. destruct (m' !! name) as [c'|] eqn:Hc'.
  - left. f_equal. eapply lookup_weaken in Hc'; [|done]. congruence.
  - right. destruct (Hgone name c Hc Hc'). done.
Qed.

Lemma prune_safe_witness :
  ∃ s', VolumeStore.prune (λ m, m) Some "/v" VolumeStore.good_io (λ _, VolumeStore.good_io)
    demo_store = (s', Ok ["data"]) ∧ VolumeStore.vstored Some s' = Some ∅.
Proof.
  destruct (VolumeStore.prune (λ m, m) Some "/v" VolumeStore.good_io (λ _, VolumeStore.good_io)
    demo_store) as [s' [names|e]] eqn:E; [|by vm_compute in E].
  destruct (prune_safe (λ m, m) Some "/v" _ _ demo_store s' demo_volumes names (λ _, eq_refl) eq_refl E)
    as (m' & Hm' & _).
  exists s'. vm_compute in E. injection E as <- <-. split; reflexivity.
Defined.
