(* ===== verification/Pty.v ===== *)
(** * PTY framing ([core/src/pty.rs])

    Frames are [type: u8] [length: u32 big endian] [payload].  Bytes are
    integers in [[0, 256)].  A reader holds the bytes that will arrive and what
    happens after them: end of file or an I/O error.  A writer is the buffer
    written so far.  serde's encodings of the structured payloads and the lossy
    UTF-8 decoding of an error message are parameters. *)

From Stdlib Require Import ZArith Lia Ascii.
From stdpp Require Import base strings list numbers countable.
From S2P Require Import Prelude RustStr.

Local Open Scope Z_scope.

Definition is_byte (b : Z) : Prop := 0 ≤ b < 256.

(** ** Readers *)

Inductive io_error :=
  | UnexpectedEof
  | InvalidData
  | FrameTooLarge (len : Z)
  | UnknownFrameType (ty : Z)
  | OtherIo (code : Z).

Record reader := { incoming : list Z; ending : option Z }.

(** [Read::read_exact]: all [n] bytes, or the stream is drained and the error
    is [UnexpectedEof] at end of file, the stream's own error otherwise. *)
Definition read_exact (r : reader) (n : nat) : reader * result io_error (list Z) :=
  if (n <=? length (incoming r))%nat then
    ({| incoming := drop n (incoming r); ending := ending r |}, Ok (take n (incoming r)))
  else
    ({| incoming := []; ending := ending r |},
     Err (match ending r with None => UnexpectedEof | Some e => OtherIo e end)).

(** ** Frames *)

Definition MAX_FRAME_PAYLOAD : Z := 64 * 1024.
Definition FRAME_PTY_REQUEST : Z := 1.
Definition FRAME_PTY_DATA : Z := 2.
Definition FRAME_PTY_RESIZE : Z := 3.
Definition FRAME_PTY_EXIT : Z := 4.
Definition FRAME_PTY_ERROR : Z := 5.

(** [u32::to_be_bytes], [u32::from_be_bytes] *)
Definition to_be_bytes (n : Z) : list Z :=
  [Z.shiftr n 24 mod 256; Z.shiftr n 16 mod 256; Z.shiftr n 8 mod 256; n mod 256].
Definition from_be_bytes (a b c d : Z) : Z := a * 2 ^ 24 + b * 2 ^ 16 + c * 2 ^ 8 + d.

(** [write_frame]; [payload.len() as u32] truncates. *)
Definition write_frame (w : list Z) (frame_type : Z) (payload : list Z) : list Z :=
  let len := wrap 32 (Z.of_nat (length payload)) in
  w ++ [frame_type] ++ to_be_bytes len ++ payload.

(** [read_frame] *)
Definition read_frame (r : reader) : reader * result io_error (option (Z * list Z)) :=
  match read_exact r 5 with
  | (r, Err UnexpectedEof) => (r, Ok None)
  | (r, Err e) => (r, Err e)
  | (r, Ok [ty; b1; b2; b3; b4]) =>
      let len := from_be_bytes b1 b2 b3 b4 in
      if MAX_FRAME_PAYLOAD <? len then (r, Err (FrameTooLarge len))
      else if 0 <? len then
        match read_exact r (Z.to_nat len) with
        | (r, Ok payload) => (r, Ok (Some (ty, payload)))
        | (r, Err e) => (r, Err e)
        end
      else (r, Ok (Some (ty, [])))
  | (r, Ok _) => (r, Ok None)
  end.

(** Read frames until end of file or an error, as the session loops do. *)
Fixpoint read_frames (fuel : nat) (r : reader) : list (Z * list Z) * option io_error :=
  match fuel with
  | O => ([], None)
  | S fuel =>
      match read_frame r with
      | (_, Ok None) => ([], None)
      | (_, Err e) => ([], Some e)
      | (r, Ok (Some f)) => let '(fs, e) := read_frames fuel r in (f :: fs, e)
      end
  end.

(** ** Typed frames *)

Record PtyRequest := {
  pty_cmd : list string; pty_env : list string; pty_working_dir : option string;
  pty_rootfs : option string; pty_user : option string; pty_cols : Z; pty_rows : Z;
}.
Record PtyResize := { resize_cols : Z; resize_rows : Z }.
Record PtyExit := { pty_exit_code : Z }.

Inductive PtyFrame :=
  | Request (req : PtyRequest)
  | Data (data : list Z)
  | Resize (size : PtyResize)
  | Exit (exit : PtyExit)
  | Error (msg : string).

(** What the code takes from serde_json and from [String::from_utf8_lossy]. *)
Class PtyCodec := {
  req_to_vec : PtyRequest → list Z;
  req_from_slice : list Z → option PtyRequest;
  resize_to_vec : PtyResize → list Z;
  resize_from_slice : list Z → option PtyResize;
  exit_to_vec : PtyExit → list Z;
  exit_from_slice : list Z → option PtyExit;
  valid_utf8 : string → bool;
  from_utf8_lossy : list Z → string;
}.

Class PtyCodecLaws `{PtyCodec} := {
  req_roundtrip x : req_from_slice (req_to_vec x) = Some x;
  resize_roundtrip x : resize_from_slice (resize_to_vec x) = Some x;
  exit_roundtrip x : exit_from_slice (exit_to_vec x) = Some x;
  utf8_roundtrip s : valid_utf8 s = true → from_utf8_lossy (as_bytes s) = s;
}.

Section typed.
Context `{PtyCodec}.

(** [write_request], [write_data], [write_resize], [write_exit], [write_error] *)
Definition write_request (w : list Z) (req : PtyRequest) : list Z :=
  write_frame w FRAME_PTY_REQUEST (req_to_vec req).
Definition write_data (w : list Z) (data : list Z) : list Z :=
  write_frame w FRAME_PTY_DATA data.
Definition write_resize (w : list Z) (cols rows : Z) : list Z :=
  write_frame w FRAME_PTY_RESIZE (resize_to_vec {| resize_cols := cols; resize_rows := rows |}).
Definition write_exit (w : list Z) (exit_code : Z) : list Z :=
  write_frame w FRAME_PTY_EXIT (exit_to_vec {| pty_exit_code := exit_code |}).
Definition write_error (w : list Z) (message : string) : list Z :=
  write_frame w FRAME_PTY_ERROR (as_bytes message).

(** [parse_frame] *)
Definition parse_frame (frame_type : Z) (payload : list Z) : result io_error PtyFrame :=
  if frame_type =? FRAME_PTY_REQUEST then Request <$> ok_or InvalidData (req_from_slice payload)
  else if frame_type =? FRAME_PTY_DATA then Ok (Data payload)
  else if frame_type =? FRAME_PTY_RESIZE then
    Resize <$> ok_or InvalidData (resize_from_slice payload)
  else if frame_type =? FRAME_PTY_EXIT then Exit <$> ok_or InvalidData (exit_from_slice payload)
  else if frame_type =? FRAME_PTY_ERROR then Ok (Error (from_utf8_lossy payload))
  else Err (UnknownFrameType frame_type).

(** Writing a frame value with the matching function, and its payload. *)
Definition write_pty (w : list Z) (f : PtyFrame) : list Z :=
  match f with
  | Request req => write_request w req
  | Data d => write_data w d
  | Resize s => write_resize w (resize_cols s) (resize_rows s)
  | Exit e => write_exit w (pty_exit_code e)
  | Error m => write_error w m
  end.

Definition pty_type (f : PtyFrame) : Z :=
  match f with
  | Request _ => FRAME_PTY_REQUEST | Data _ => FRAME_PTY_DATA | Resize _ => FRAME_PTY_RESIZE
  | Exit _ => FRAME_PTY_EXIT | Error _ => FRAME_PTY_ERROR
  end.

Definition pty_payload (f : PtyFrame) : list Z :=
  match f with
  | Request req => req_to_vec req
  | Data d => d
  | Resize s => resize_to_vec s
  | Exit e => exit_to_vec e
  | Error m => as_bytes m
  end.

Lemma write_pty_frame w f : write_pty w f = write_frame w (pty_type f) (pty_payload f).
Proof. destruct f as [| |[]|[]|]; done. Qed.

(** A Rust [String] is valid UTF-8. *)
Definition pty_valid (f : PtyFrame) : Prop :=
  match f with Error m => valid_utf8 m = true | _ => True end.

Lemma parse_frame_pty `{!PtyCodecLaws} f :
  pty_valid f → parse_frame (pty_type f) (pty_payload f) = Ok f.
Proof.
  intros Hv. destruct f; unfold parse_frame; simpl;
    rewrite ?req_roundtrip, ?resize_roundtrip, ?exit_roundtrip, ?utf8_roundtrip; done.
Qed.
End typed.

(** ** Lemmas *)

Lemma be_bytes_roundtrip n : in_range 32 n →
  match to_be_bytes n with
  | [a; b; c; d] => from_be_bytes a b c d = n
  | _ => False
  end.
Proof.
  intros Hn. unfold to_be_bytes. by eapply of_octets_octets.
Qed.

Lemma read_exact_app bs rest e n :
  length bs = n →
  read_exact {| incoming := bs ++ rest; ending := e |} n =
    ({| incoming := rest; ending := e |}, Ok bs).
Proof.
  intros <-. unfold read_exact. simpl. rewrite length_app.
  rewrite (proj2 (Nat.leb_le _ _)) by lia.
  by rewrite drop_app_length, take_app_length.
Qed.

(** The header of a frame whose length fits, then its payload. *)
Lemma read_frame_cons ty payload rest e :
  Z.of_nat (length payload) ≤ MAX_FRAME_PAYLOAD →
  read_frame {| incoming := write_frame [] ty payload ++ rest; ending := e |} =
    ({| incoming := rest; ending := e |}, Ok (Some (ty, payload))).
Proof.
  intros Hlen. unfold write_frame. set (n := Z.of_nat (length payload)) in *.
  assert (in_range 32 n) as Hr by (unfold in_range, n, MAX_FRAME_PAYLOAD in *; lia).
  rewrite (wrap_small 32 n Hr). pose proof (be_bytes_roundtrip n Hr) as Hb.
  unfold to_be_bytes in *. unfold read_frame.
  match type of Hb with from_be_bytes ?a ?b ?c ?d = _ =>
    change (([] ++ [ty] ++ [a; b; c; d] ++ payload) ++ rest)
      with ([ty; a; b; c; d] ++ (payload ++ rest)) end.
  rewrite read_exact_app by done. rewrite Hb.
  rewrite (proj2 (Z.ltb_ge _ _)) by done.
  destruct (Z.ltb_spec 0 n) as [Hpos|Hz].
  - rewrite read_exact_app; [done|]. unfold n. lia.
  - unfold n in Hz. by destruct payload.
Qed.

Lemma write_frame_app w ty payload : write_frame w ty payload = w ++ write_frame [] ty payload.
Proof. done. Qed.

Lemma read_frames_written frames rest e fuel :
  Forall (λ f, Z.of_nat (length (snd f)) ≤ MAX_FRAME_PAYLOAD) frames →
  read_frames (length frames + fuel)
    {| incoming := foldr (λ f bs, write_frame [] (fst f) (snd f) ++ bs) rest frames; ending := e |} =
  (let '(fs, err) := read_frames fuel {| incoming := rest; ending := e |} in (frames ++ fs, err)).
Proof.
  induction 1 as [|[ty p] frames Hp _ IH]; cbn [length Nat.add foldr fst snd].
  { by destruct (read_frames _ _). }
  cbn [read_frames]. rewrite read_frame_cons by done. rewrite IH.
  by destruct (read_frames fuel _).
Qed.

Lemma foldl_write_frame {A} (enc : A → Z * list Z) (xs : list A) w :
  foldl (λ w x, write_frame w (fst (enc x)) (snd (enc x))) w xs =
  w ++ foldr (λ f bs, write_frame [] (fst f) (snd f) ++ bs) [] (enc <$> xs).
Proof.
  revert w. induction xs as [|x xs IH]; intros w; cbn [foldl fmap list_fmap foldr];
    [by rewrite app_nil_r|].
  rewrite IH, write_frame_app, <-app_assoc. done.
Qed.

(** ** Properties *)

(** A session's frames survive the wire.  Any sequence of frames whose
    payloads are at most 64 KiB, written one after the other and then read until
    end of file, comes back unchanged, in order, with no error and with nothing
    left over; with serde's round trip each one parses to the typed frame it was
    written from. *)
Theorem pty_stream_roundtrip `{PtyCodecLaws} (frames : list PtyFrame) :
  Forall (λ f, Z.of_nat (length (pty_payload f)) ≤ MAX_FRAME_PAYLOAD ∧ pty_valid f) frames →
  ∃ raw, read_frames (S (length frames))
           {| incoming := foldl write_pty [] frames; ending := None |} = (raw, None) ∧
    mapM (λ f, parse_frame (fst f) (snd f)) raw = Ok frames.
Proof.
  intros Hlen. set (enc f := (pty_type f, pty_payload f)).
  exists (enc <$> frames). split.
  - replace (foldl write_pty [] frames)
      with (foldl (λ w x, write_frame w (fst (enc x)) (snd (enc x))) [] frames)
      by (clear; generalize (@nil Z); induction frames; intros; simpl; [done|];
          by rewrite IHframes, write_pty_frame).
    rewrite foldl_write_frame. simpl ([] ++ _).
    replace (S (length frames)) with (length (enc <$> frames) + 1)%nat
      by (rewrite length_fmap; lia).
    rewrite read_frames_written
      by (apply Forall_fmap; eapply Forall_impl; [|exact Hlen]; by intros f [? _]).
    simpl. by rewrite app_nil_r.
  - apply mapM_Ok_Forall2. induction Hlen as [|f frames [_ Hv] _ IH]; constructor; [|done].
    by apply parse_frame_pty.
Qed.

(** The reader bounds what it accepts: a frame announcing more than 64 KiB is
    refused with an error before any payload byte is consumed, and a frame that
    is accepted has at most 64 KiB of payload. *)
Theorem read_frame_bounded r r' res :
  Forall is_byte (incoming r) → read_frame r = (r', res) →
  match res with
  | Ok (Some (ty, payload)) =>
      Z.of_nat (length payload) ≤ MAX_FRAME_PAYLOAD ∧
      incoming r = write_frame [] ty payload ++ incoming r'
  | Err (FrameTooLarge len) =>
      MAX_FRAME_PAYLOAD < len ∧ incoming r' = drop 5 (incoming r)
  | _ => True
  end.
Proof.
  intros Hb Hr. unfold read_frame in Hr.
  destruct r as [inc e]. unfold read_exact in Hr at 1. simpl in *.
  destruct inc as [|ty [|b1 [|b2 [|b3 [|b4 inc]]]]]; simpl in Hr;
    try (destruct e; injection Hr as <- <-; exact I).
  assert (octets (from_be_bytes b1 b2 b3 b4) = (b1, b2, b3, b4)) as Ho.
  { decompose_Forall_hyps. by apply octets_of_octets. }
  assert (in_range 32 (from_be_bytes b1 b2 b3 b4)) as Hrange.
  { decompose_Forall_hyps. by apply of_octets_range. }
  set (len := from_be_bytes b1 b2 b3 b4) in *.
  assert (to_be_bytes len = [b1; b2; b3; b4]) as Hbe
    by (injection Ho as E1 E2 E3 E4; unfold to_be_bytes; by rewrite E1, E2, E3, E4).
  destruct (Z.ltb_spec MAX_FRAME_PAYLOAD len); [by injection Hr as <- <-|].
  destruct (Z.ltb_spec 0 len) as [Hpos|Hz].
  - unfold read_exact in Hr. simpl in Hr. rewrite drop_0 in Hr.
    destruct (Nat.leb_spec (Z.to_nat len) (length inc)) as [Hle|];
      [|simpl in Hr; by destruct e; simplify_eq].
    injection Hr as <- <-. assert (Z.of_nat (length (take (Z.to_nat len) inc)) = len) as El
      by (rewrite length_take_le by done; lia).
    split; [lia|]. unfold write_frame. rewrite El, wrap_small by done. injection Hbe as -> -> -> ->.
    simpl. by rewrite take_drop.
  - injection Hr as <- <-. simpl. rewrite drop_0. split; [done|].
    assert (len = 0) as E by (unfold in_range in Hrange; lia). rewrite E in Hbe.
    by injection Hbe as <- <- <- <-.
Qed.

(** ** A concrete codec, to show that the laws can hold *)

Definition enc_one {A} `{Countable A} (x : A) : list Z := [Zpos (encode x)].
Definition dec_one {A} `{Countable A} (bs : list Z) : option A :=
  match bs with [Zpos p] => decode p | _ => None end.

#[local] Arguments enc_one : simpl never.
#[local] Arguments dec_one : simpl never.

Lemma dec_enc_one {A} `{Countable A} (x : A) : dec_one (enc_one x) = Some x.
Proof. apply decode_encode. Qed.

Fixpoint of_bytes (bs : list Z) : string :=
  match bs with [] => "" | b :: bs => String (ascii_of_N (Z.to_N b)) (of_bytes bs) end.

Definition demo_codec : PtyCodec := {|
  req_to_vec q := enc_one (pty_cmd q, pty_env q, pty_working_dir q, pty_rootfs q, pty_user q,
                           pty_cols q, pty_rows q);
  req_from_slice bs :=
    '(a, b, c, d, e, f, g) ← dec_one bs;
    Some (Build_PtyRequest a b c d e f g);
  resize_to_vec s := enc_one (resize_cols s, resize_rows s);
  resize_from_slice bs := '(a, b) ← dec_one bs; Some (Build_PtyResize a b);
  exit_to_vec e := enc_one (pty_exit_code e);
  exit_from_slice bs := c ← dec_one (A := Z) bs; Some (Build_PtyExit c);
  valid_utf8 _ := true;
  from_utf8_lossy := of_bytes;
|}.

Lemma demo_codec_laws : @PtyCodecLaws demo_codec.
Proof.
  split.
  - intros []. cbv [req_from_slice req_to_vec demo_codec]. by rewrite dec_enc_one.
  - intros []. cbv [resize_from_slice resize_to_vec demo_codec]. by rewrite dec_enc_one.
  - intros []. cbv [exit_from_slice exit_to_vec demo_codec]. by rewrite dec_enc_one.
  - intros s _. cbv [from_utf8_lossy demo_codec]. induction s as [|a s IH]; simpl; [done|]. rewrite IH. f_equal.
    unfold code. by rewrite N2Z.id, ascii_N_embedding.
Qed.

Definition demo_frames : list PtyFrame :=
  [Data [104; 105]; Resize {| resize_cols := 80; resize_rows := 24 |}; Data [];
   Error "gone"; Exit {| pty_exit_code := 3 |}].

Lemma pty_stream_roundtrip_witness :
  ∃ raw, read_frames 6 {| incoming := foldl (@write_pty demo_codec) [] demo_frames;
                          ending := None |} = (raw, None) ∧ length raw = 5%nat.
Proof.
  destruct (@pty_stream_roundtrip demo_codec demo_codec_laws demo_frames) as (raw & Hr & _).
  - repeat constructor; vm_compute; congruence.
  - exists raw. split; [exact Hr|]. vm_compute in Hr. injection Hr as <-. reflexivity.
Defined.

Lemma read_frame_bounded_witness :
  Z.of_nat (length [7; 8]) ≤ MAX_FRAME_PAYLOAD ∧
  [2; 0; 0; 0; 2; 7; 8; 9] = write_frame [] 2 [7; 8] ++ [9].
Proof.
  apply (read_frame_bounded {| incoming := [2; 0; 0; 0; 2; 7; 8; 9]; ending := None |}
    {| incoming := [9]; ending := None |} (Ok (Some (2, [7; 8])))).
  - repeat constructor; vm_compute; congruence.
  - reflexivity.
Defined.
