(* ===== verification/Scale.v ===== *)
(** * Scale: the scale manager and the instance registry

    [core/src/scale.rs] (the messages between gateway and host),
    [runtime/src/scale/manager.rs] ([ScaleManager]) and
    [runtime/src/scale/registry.rs] ([InstanceRegistry]).  [Utc::now()] is an
    argument [now] of the operations that read the clock; [f32]/[f64] values
    are those of [RustFloat]. *)

From Stdlib Require Import ZArith Lia Sorting.Sorted Floats.SpecFloat.
From stdpp Require Import base gmap strings list numbers.
From S2P Require Import Prelude RustStr RustFloat Network.

Local Open Scope Z_scope.

(** ** Messages *)

Inductive InstanceState :=
  | Creating | Booting | Ready | Busy | Draining | Stopping | Stopped | Failed.

#[export] Instance InstanceState_eq_dec : EqDecision InstanceState.
Proof. solve_decision. Defined.

Definition show_instance_state (s : InstanceState) : string :=
  match s with
  | Creating => "creating" | Booting => "booting" | Ready => "ready" | Busy => "busy"
  | Draining => "draining" | Stopping => "stopping" | Stopped => "stopped"
  | Failed => "failed"
  end.

Record ScaleConfig := {
  sc_image : option string; sc_vcpus : option Z; sc_memory_mib : option Z;
  sc_env : gmap string string; sc_port_map : list string }.

Record ScaleRequest := {
  sr_service : string; sr_replicas : Z; sr_config : ScaleConfig; sr_request_id : string }.

Record InstanceHealth := {
  cpu_percent : option spec_float; memory_bytes : option Z;
  inflight_requests : Z; healthy : bool }.

Definition health_default : InstanceHealth :=
  {| cpu_percent := None; memory_bytes := None; inflight_requests := 0; healthy := true |}.

Record InstanceInfo := {
  ii_id : string; ii_state : InstanceState; ii_service : string; ii_created_at : Z;
  ii_ready_at : option Z; ii_endpoint : option string; ii_health : InstanceHealth }.

Record ScaleResponse := {
  rs_request_id : string; rs_accepted : bool; rs_current_replicas : Z;
  rs_target_replicas : Z; rs_instances : list InstanceInfo; rs_error : option string }.

Record InstanceEvent := {
  ev_instance_id : string; ev_service : string; ev_from : InstanceState;
  ev_to : InstanceState; ev_timestamp : Z; ev_message : string }.

Definition transition (now : Z) (instance_id service : string) (from to : InstanceState)
    : InstanceEvent :=
  {| ev_instance_id := instance_id; ev_service := service; ev_from := from; ev_to := to;
     ev_timestamp := now; ev_message := "" |}.

Definition with_message (e : InstanceEvent) (msg : string) : InstanceEvent :=
  {| ev_instance_id := ev_instance_id e; ev_service := ev_service e; ev_from := ev_from e;
     ev_to := ev_to e; ev_timestamp := ev_timestamp e; ev_message := msg |}.

(** ** The manager's state *)

Record TrackedInstance := {
  ti_id : string; ti_state : InstanceState; ti_created_at : Z; ti_ready_at : option Z;
  ti_endpoint : option string; ti_health : InstanceHealth }.

Record ServiceInstances := { target_replicas : Z; instances : list TrackedInstance }.

Record ScaleManager := {
  max_instances : Z; services : gmap string ServiceInstances;
  events : list InstanceEvent; max_events : nat }.

Definition manager_new (max : Z) : ScaleManager :=
  {| max_instances := max; services := ∅; events := []; max_events := 1000 |}.

Definition set_services (m : ScaleManager) (s : gmap string ServiceInstances) : ScaleManager :=
  {| max_instances := max_instances m; services := s; events := events m;
     max_events := max_events m |}.

(** [v.len() as u32], and the [u32] sum of an iterator. *)
Definition len32 {A} (l : list A) : Z := wrap 32 (Z.of_nat (length l)).
Definition sum32 (l : list Z) : Z := foldl (λ a b, wrap 32 (a + b)) 0 l.

(** [entry(service).or_insert_with(...)] *)
Definition service_entry (m : ScaleManager) (service : string) : ServiceInstances :=
  default {| target_replicas := 0; instances := [] |} (services m !! service).

Definition info_of (service : string) (i : TrackedInstance) : InstanceInfo :=
  {| ii_id := ti_id i; ii_state := ti_state i; ii_service := service;
     ii_created_at := ti_created_at i; ii_ready_at := ti_ready_at i;
     ii_endpoint := ti_endpoint i; ii_health := ti_health i |}.

Definition total_other (m : ScaleManager) (service : string) : Z :=
  sum32 (map (λ kv, len32 (instances kv.2))
    (List.filter (λ kv, negb (bool_decide (kv.1 = service))) (map_to_list (services m)))).

Definition capped_message (target max other : Z) : string :=
  ("Capped to " ++ show_uint target ++ " instances (max " ++ show_uint max ++
   " total, " ++ show_uint other ++ " used by other services)")%string.

Definition process_request (m : ScaleManager) (req : ScaleRequest)
    : ScaleManager * ScaleResponse :=
  let service := sr_service req in
  let desired := sr_replicas req in
  let other := total_other m service in
  let svc := service_entry m service in
  let current := len32 (instances svc) in
  let available := sat_sub (max_instances m) other in
  let target := Z.min desired available in
  let svc' := {| target_replicas := target; instances := instances svc |} in
  let accepted := target =? desired in
  let error :=
    if negb accepted then Some (capped_message target (max_instances m) other) else None in
  (set_services m (<[service := svc']> (services m)),
   {| rs_request_id := sr_request_id req; rs_accepted := accepted;
      rs_current_replicas := current; rs_target_replicas := target;
      rs_instances := map (info_of service) (instances svc); rs_error := error |}).

Definition register_instance (now : Z) (m : ScaleManager) (service instance_id : string)
    (endpoint : option string) : ScaleManager :=
  let svc := service_entry m service in
  if existsb (λ i, bool_decide (ti_id i = instance_id)) (instances svc) then
    set_services m (<[service := svc]> (services m))
  else
    let inst := {| ti_id := instance_id; ti_state := Creating; ti_created_at := now;
                   ti_ready_at := None; ti_endpoint := endpoint;
                   ti_health := health_default |} in
    set_services m (<[service := {| target_replicas := target_replicas svc;
                                    instances := instances svc ++ [inst] |}]> (services m)).

(** [iter_mut().find(|i| i.id == id)] followed by an update of what it found:
    the first match changes in place. *)
Definition find_instance (id : string) (l : list TrackedInstance) : option TrackedInstance :=
  List.find (λ i, bool_decide (ti_id i = id)) l.

Fixpoint update_first (id : string) (f : TrackedInstance → TrackedInstance)
    (l : list TrackedInstance) : list TrackedInstance :=
  match l with
  | [] => []
  | i :: l' => if bool_decide (ti_id i = id) then f i :: l' else i :: update_first id f l'
  end.

Definition update_instance (m : ScaleManager) (service id : string)
    (f : TrackedInstance → TrackedInstance) : ScaleManager :=
  match services m !! service with
  | Some svc =>
      set_services m (<[service := {| target_replicas := target_replicas svc;
                                      instances := update_first id f (instances svc) |}]>
                        (services m))
  | None => m
  end.

Definition lookup_instance (m : ScaleManager) (service id : string) : option TrackedInstance :=
  svc ← services m !! service; find_instance id (instances svc).

(** [drain(..len - max_events)] keeps the newest [max_events] events. *)
Definition push_event (m : ScaleManager) (e : InstanceEvent) : ScaleManager :=
  let evs := events m ++ [e] in
  {| max_instances := max_instances m; services := services m;
     events := if (max_events m <? length evs)%nat
               then drop (length evs - max_events m) evs else evs;
     max_events := max_events m |}.

Definition set_state (s : InstanceState) (i : TrackedInstance) : TrackedInstance :=
  {| ti_id := ti_id i; ti_state := s; ti_created_at := ti_created_at i;
     ti_ready_at := ti_ready_at i; ti_endpoint := ti_endpoint i; ti_health := ti_health i |}.

(** [inst.state = new_state], and the first time it is [Ready], [ready_at]. *)
Definition enter_state (now : Z) (s : InstanceState) (i : TrackedInstance) : TrackedInstance :=
  {| ti_id := ti_id i; ti_state := s; ti_created_at := ti_created_at i;
     ti_ready_at := if bool_decide (s = Ready) && bool_decide (ti_ready_at i = None)
                    then Some now else ti_ready_at i;
     ti_endpoint := ti_endpoint i; ti_health := ti_health i |}.

Definition update_state (now : Z) (m : ScaleManager) (service instance_id : string)
    (new_state : InstanceState) : ScaleManager * option InstanceEvent :=
  match lookup_instance m service instance_id with
  | None => (m, None)
  | Some inst =>
      let old_state := ti_state inst in
      if bool_decide (old_state = new_state) then (m, None)
      else
        let m1 := update_instance m service instance_id (enter_state now new_state) in
        let event := transition now instance_id service old_state new_state in
        (push_event m1 event, Some event)
  end.

Definition update_health (m : ScaleManager) (service instance_id : string)
    (health : InstanceHealth) : ScaleManager :=
  update_instance m service instance_id (λ i,
    {| ti_id := ti_id i; ti_state := ti_state i; ti_created_at := ti_created_at i;
       ti_ready_at := ti_ready_at i; ti_endpoint := ti_endpoint i; ti_health := health |}).

Definition update_endpoint (m : ScaleManager) (service instance_id endpoint : string)
    : ScaleManager :=
  update_instance m service instance_id (λ i,
    {| ti_id := ti_id i; ti_state := ti_state i; ti_created_at := ti_created_at i;
       ti_ready_at := ti_ready_at i; ti_endpoint := Some endpoint; ti_health := ti_health i |}).

Definition deregister_instance (m : ScaleManager) (service instance_id : string)
    : ScaleManager * bool :=
  match services m !! service with
  | Some svc =>
      let kept := List.filter (λ i, negb (bool_decide (ti_id i = instance_id)))
                    (instances svc) in
      (set_services m (<[service := {| target_replicas := target_replicas svc;
                                       instances := kept |}]> (services m)),
       (length kept <? length (instances svc))%nat)
  | None => (m, false)
  end.

(** Filters of [instances_to_create] and [instances_to_stop]. *)
Definition live (i : TrackedInstance) : bool :=
  match ti_state i with Stopped | Failed => false | _ => true end.
Definition stoppable (i : TrackedInstance) : bool :=
  match ti_state i with Stopped | Failed | Stopping | Draining => false | _ => true end.

Definition instances_to_create (m : ScaleManager) (service : string) : Z :=
  match services m !! service with
  | Some svc =>
      sat_sub (target_replicas svc) (len32 (List.filter live (instances svc)))
  | None => 0
  end.

Definition stop_key (i : TrackedInstance) : Z :=
  match ti_state i with Ready => 0 | Creating => 1 | Booting => 2 | Busy => 3 | _ => 4 end.
Definition stop_le (i j : TrackedInstance) : bool := stop_key i <=? stop_key j.

Definition instances_to_stop (m : ScaleManager) (service : string) : list string :=
  match services m !! service with
  | Some svc =>
      let active := List.filter stoppable (instances svc) in
      let excess := sat_sub (len32 active) (target_replicas svc) in
      if excess =? 0 then []
      else map ti_id (take (Z.to_nat excess) (sort_by stop_le active))
  | None => []
  end.

Definition in_state (s : InstanceState) (i : TrackedInstance) : bool :=
  bool_decide (ti_state i = s).

Definition ready_instances (m : ScaleManager) (service : string) : list InstanceInfo :=
  match services m !! service with
  | Some svc => map (info_of service) (List.filter (in_state Ready) (instances svc))
  | None => []
  end.

Definition total_instances (m : ScaleManager) : Z :=
  sum32 (map (λ s, len32 (instances s)) (values (services m))).

Definition service_instance_count (m : ScaleManager) (service : string) : Z :=
  match services m !! service with Some s => len32 (instances s) | None => 0 end.

Definition recent_events (m : ScaleManager) (limit : nat) : list InstanceEvent :=
  drop (length (events m) - limit) (events m).

Definition start_drain (now : Z) (m : ScaleManager) (service instance_id : string)
    : ScaleManager * option InstanceEvent :=
  match lookup_instance m service instance_id with
  | None => (m, None)
  | Some inst =>
      match ti_state inst with
      | (Ready | Busy) as old_state =>
          let m1 := update_instance m service instance_id (set_state Draining) in
          let event := with_message (transition now instance_id service old_state Draining)
                         "Graceful drain initiated" in
          (push_event m1 event, Some event)
      | _ => (m, None)
      end
  end.

Definition complete_drain (now : Z) (m : ScaleManager) (service instance_id : string)
    : ScaleManager * option InstanceEvent :=
  match lookup_instance m service instance_id with
  | None => (m, None)
  | Some inst =>
      if negb (bool_decide (ti_state inst = Draining)) then (m, None)
      else
        let m1 := update_instance m service instance_id (set_state Stopping) in
        let event := with_message (transition now instance_id service Draining Stopping)
                       "Drain complete, stopping instance" in
        (push_event m1 event, Some event)
  end.

Definition is_drain_complete (m : ScaleManager) (service instance_id : string) : bool :=
  match lookup_instance m service instance_id with
  | Some inst => in_state Draining inst && (inflight_requests (ti_health inst) =? 0)
  | None => false
  end.

Definition draining_instances (m : ScaleManager) (service : string) : list string :=
  match services m !! service with
  | Some svc => map ti_id (List.filter (in_state Draining) (instances svc))
  | None => []
  end.

(** ** Aggregated health *)

Record ServiceHealth := {
  sh_active : Z; sh_ready : Z; sh_busy : Z; sh_avg_cpu : option spec_float;
  sh_memory : Z; sh_inflight : Z; sh_unhealthy : Z }.

Definition service_health_default : ServiceHealth :=
  {| sh_active := 0; sh_ready := 0; sh_busy := 0; sh_avg_cpu := None; sh_memory := 0;
     sh_inflight := 0; sh_unhealthy := 0 |}.

(** Accumulators of the loop: total_cpu, total_mem, total_inflight, cpu_count,
    unhealthy. *)
Definition health_step (acc : spec_float * Z * Z * Z * Z) (i : TrackedInstance)
    : spec_float * Z * Z * Z * Z :=
  let '(cpu, mem, infl, n, bad) := acc in
  let h := ti_health i in
  let '(cpu, n) :=
    match cpu_percent h with
    | Some c => (SFadd 53 1024 cpu (as_float 53 1024 c), wrap 32 (n + 1))
    | None => (cpu, n)
    end in
  let mem := match memory_bytes h with Some x => wrap 64 (mem + x) | None => mem end in
  let infl := wrap 32 (infl + inflight_requests h) in
  let bad := if negb (healthy h) then wrap 32 (bad + 1) else bad in
  (cpu, mem, infl, n, bad).

Definition routable (i : TrackedInstance) : bool :=
  match ti_state i with Ready | Busy => true | _ => false end.

Definition service_health (m : ScaleManager) (service : string) : ServiceHealth :=
  match services m !! service with
  | None => service_health_default
  | Some svc =>
      let active := List.filter routable (instances svc) in
      match active with
      | [] => service_health_default
      | _ =>
          let '(cpu, mem, infl, n, bad) :=
            foldl health_step (S754_zero false, 0, 0, 0, 0) active in
          {| sh_active := len32 active;
             sh_ready := len32 (List.filter (in_state Ready) active);
             sh_busy := len32 (List.filter (in_state Busy) active);
             sh_avg_cpu := if 0 <? n
                           then Some (as_float 24 128 (SFdiv 53 1024 cpu (int_as_f64 n)))
                           else None;
             sh_memory := mem; sh_inflight := infl; sh_unhealthy := bad |}
      end
  end.

(** ** The registry *)
Module InstanceRegistry.

Record entry := {
  instance_id : string; service : string; endpoint : string; host_id : string;
  metadata : gmap string string; registered_at : Z; last_heartbeat : Z }.

Abbreviation t := (gmap string entry).

Definition new : t := ∅.

Definition register (now : Z) (r : t) (id svc ep host : string) (meta : gmap string string)
    : t :=
  <[id := {| instance_id := id; service := svc; endpoint := ep; host_id := host;
             metadata := meta; registered_at := now; last_heartbeat := now |}]> r.

Definition deregister (r : t) (id : string) : t * bool :=
  (delete id r, match r !! id with Some _ => true | None => false end).

Definition beat (now : Z) (e : entry) : entry :=
  {| instance_id := instance_id e; service := service e; endpoint := endpoint e;
     host_id := host_id e; metadata := metadata e; registered_at := registered_at e;
     last_heartbeat := now |}.

Definition heartbeat (now : Z) (r : t) (id : string) : t * bool :=
  match r !! id with Some e => (<[id := beat now e]> r, true) | None => (r, false) end.

Definition endpoints (r : t) (svc : string) : list string :=
  map endpoint (List.filter (λ e, bool_decide (service e = svc)) (values r)).

Definition instances_for_service (r : t) (svc : string) : list string :=
  map instance_id (List.filter (λ e, bool_decide (service e = svc)) (values r)).

Definition instances_on_host (r : t) (host : string) : list string :=
  map instance_id (List.filter (λ e, bool_decide (host_id e = host)) (values r)).

Definition evict_stale (now : Z) (r : t) (max_age : Z) : t * list string :=
  let cutoff := now - max_age in
  let stale := map fst (List.filter (λ kv, last_heartbeat kv.2 <? cutoff) (map_to_list r)) in
  (foldl (λ r id, delete id r) r stale, stale).

Definition len (r : t) : nat := size r.

Definition all_services (r : t) : list string :=
  dedup (sort_by String.leb (map service (values r))).

End InstanceRegistry.

(** ** Lemmas: counters *)

Lemma len32_small {A} (l : list A) :
  Z.of_nat (length l) < 2 ^ 32 → len32 l = Z.of_nat (length l).
Proof. intros. apply wrap_small. unfold in_range. lia. Qed.

Lemma sum32_app_mod l a :
  foldl (λ x y, wrap 32 (x + y)) (wrap 32 a) l = wrap 32 (a + foldr Z.add 0 l).
Proof.
  revert a. induction l as [|x l IH]; intros a; simpl; [by rewrite Z.add_0_r|].
  replace (wrap 32 (wrap 32 a + x)) with (wrap 32 (a + x)).
  - rewrite IH. f_equal. lia.
  - unfold wrap. by rewrite Zplus_mod_idemp_l.
Qed.

Lemma sum32_mod l : sum32 l = wrap 32 (foldr Z.add 0 l).
Proof. apply (sum32_app_mod l 0). Qed.

Lemma foldr_add_perm (l k : list Z) : l ≡ₚ k → foldr Z.add 0 l = foldr Z.add 0 k.
Proof. induction 1; simpl; lia. Qed.

(** ** Lemmas: the instance list *)

Lemma update_first_ids id f l :
  (∀ i, ti_id (f i) = ti_id i) → map ti_id (update_first id f l) = map ti_id l.
Proof.
  intros Hf. induction l as [|i l IH]; simpl; [done|].
  case_bool_decide; simpl; rewrite ?Hf, ?IH; done.
Qed.

Lemma elem_of_update_first id f l i :
  i ∈ update_first id f l → i ∈ l ∨ ∃ j, j ∈ l ∧ i = f j.
Proof.
  induction l as [|j l IH]; simpl; [by intros ?%not_elem_of_nil|].
  case_bool_decide; rewrite !elem_of_cons.
  - intros [->|?]; [right; exists j; rewrite elem_of_cons; auto | auto].
  - intros [->|[?|(k & ? & ->)]%IH]; [auto | auto |].
    right. exists k. rewrite elem_of_cons. auto.
Qed.

Lemma find_instance_Some id l i :
  find_instance id l = Some i → i ∈ l ∧ ti_id i = id.
Proof.
  intros [Hin Hb]%find_some. apply list_elem_of_In in Hin.
  by apply bool_decide_eq_true in Hb.
Qed.

Lemma find_update_first id f l i :
  (∀ i, ti_id (f i) = ti_id i) →
  find_instance id l = Some i → find_instance id (update_first id f l) = Some (f i).
Proof.
  intros Hf. unfold find_instance. induction l as [|j l IH]; simpl; [done|].
  case_bool_decide as E; simpl.
  - intros [= ->]. by rewrite Hf, bool_decide_true.
  - rewrite bool_decide_false by done. done.
Qed.

Lemma find_update_first_ne id id' f l :
  (∀ i, ti_id (f i) = ti_id i) → id' ≠ id →
  find_instance id' (update_first id f l) = find_instance id' l.
Proof.
  intros Hf Hne. unfold find_instance. induction l as [|j l IH]; simpl; [done|].
  case_bool_decide as E; simpl.
  - rewrite Hf. rewrite !bool_decide_false by congruence. done.
  - by rewrite IH.
Qed.

(** With distinct ids, the instance of an id is unique. *)
Lemma nodup_id_unique (l : list TrackedInstance) i j :
  NoDup (map ti_id l) → i ∈ l → j ∈ l → ti_id i = ti_id j → i = j.
Proof.
  induction l as [|k l IH]; simpl; [by intros _ ?%not_elem_of_nil|].
  intros [Hk Hl]%list.NoDup_cons. rewrite !elem_of_cons.
  assert (∀ x, x ∈ l → ti_id x ≠ ti_id k) as Hx.
  { intros x Hx E. apply Hk. rewrite <-E. by apply (list_elem_of_fmap_2 ti_id). }
  intros [->|Hi] [->|Hj] E; [done | | |by apply IH].
  - by destruct (Hx j).
  - by destruct (Hx i).
Qed.

Lemma find_instance_unique id l i :
  NoDup (map ti_id l) → i ∈ l → ti_id i = id → find_instance id l = Some i.
Proof.
  intros Hnd Hin Hid. destruct (find_instance id l) as [j|] eqn:E.
  - apply find_instance_Some in E as [Hj Hjd]. f_equal.
    apply (nodup_id_unique l); congruence.
  - unfold find_instance in E. apply list_elem_of_In in Hin.
    apply (find_none _ _ E) in Hin. apply bool_decide_eq_false in Hin. done.
Qed.

(** ** Invariant *)

Definition ready_ok (i : TrackedInstance) : Prop := ti_state i = Ready → ti_ready_at i ≠ None.

Record svc_wf (max : Z) (s : ServiceInstances) : Prop := {
  wf_ids : NoDup (map ti_id (instances s));
  wf_target : 0 ≤ target_replicas s ≤ max;
  wf_ready : ∀ i, i ∈ instances s → ready_ok i }.

Record manager_inv (m : ScaleManager) : Prop := {
  inv_max : 0 ≤ max_instances m;
  inv_services : ∀ k s, services m !! k = Some s → svc_wf (max_instances m) s;
  inv_events : (length (events m) ≤ max_events m)%nat;
  inv_changes : ∀ e, e ∈ events m → ev_from e ≠ ev_to e;
  inv_ring : (0 < max_events m)%nat }.

Lemma manager_new_inv max : 0 ≤ max → manager_inv (manager_new max).
Proof.
  intros. constructor; simpl; [done | intros ? ?; by rewrite lookup_empty | lia
    | by intros ? ?%not_elem_of_nil | lia].
Qed.

Lemma service_entry_wf m k : manager_inv m → svc_wf (max_instances m) (service_entry m k).
Proof.
  intros Hm. unfold service_entry. destruct (services m !! k) eqn:E; simpl.
  - by eapply inv_services.
  - pose proof (inv_max _ Hm). constructor; simpl; [constructor | lia | by intros ? ?%not_elem_of_nil].
Qed.

Lemma insert_service_inv m k s :
  manager_inv m → svc_wf (max_instances m) s →
  manager_inv (set_services m (<[k := s]> (services m))).
Proof.
  intros [] Hs. constructor; simpl; [done | | done | done | done].
  intros k' s'. destruct (decide (k' = k)) as [->|].
  - rewrite lookup_insert_eq. by intros [= <-].
  - rewrite lookup_insert_ne by done. eauto.
Qed.

Lemma update_instance_inv m s id f :
  (∀ i, ti_id (f i) = ti_id i) → (∀ i, ready_ok i → ready_ok (f i)) →
  manager_inv m → manager_inv (update_instance m s id f).
Proof.
  intros Hid Hr Hm. unfold update_instance. destruct (services m !! s) as [svc|] eqn:E; [|done].
  pose proof (inv_services _ Hm _ _ E) as [].
  apply insert_service_inv; [done|]. constructor; simpl; [|done|].
  - by rewrite update_first_ids.
  - intros i [?|(j & ? & ->)]%elem_of_update_first; auto.
Qed.

Lemma push_event_inv m e : ev_from e ≠ ev_to e → manager_inv m → manager_inv (push_event m e).
Proof.
  intros He []. constructor; simpl; [done | done | | | done].
  - destruct (Nat.ltb_spec (max_events m) (length (events m ++ [e]))); rewrite ?length_drop; lia.
  - intros e' Hin.
    assert (e' ∈ events m ++ [e]) as [?| ->]%elem_of_snoc.
    { destruct (_ <? _)%nat; [|done].
      rewrite <-(take_drop (length (events m ++ [e]) - max_events m) (events m ++ [e])).
      apply elem_of_app. by right. }
    + auto.
    + done.
Qed.

(** ** Histories of the manager *)

Inductive scale_op :=
  | ORequest (req : ScaleRequest)
  | ORegister (now : Z) (service id : string) (endpoint : option string)
  | OState (now : Z) (service id : string) (s : InstanceState)
  | OHealth (service id : string) (h : InstanceHealth)
  | OEndpoint (service id endpoint : string)
  | ODeregister (service id : string)
  | OStartDrain (now : Z) (service id : string)
  | OCompleteDrain (now : Z) (service id : string).

Definition scale_apply (m : ScaleManager) (o : scale_op) : ScaleManager :=
  match o with
  | ORequest req => (process_request m req).1
  | ORegister now s id ep => register_instance now m s id ep
  | OState now s id st => (update_state now m s id st).1
  | OHealth s id h => update_health m s id h
  | OEndpoint s id ep => update_endpoint m s id ep
  | ODeregister s id => (deregister_instance m s id).1
  | OStartDrain now s id => (start_drain now m s id).1
  | OCompleteDrain now s id => (complete_drain now m s id).1
  end.

(** [replicas] is a [u32]. *)
Definition op_valid (o : scale_op) : Prop :=
  match o with ORequest req => in_range 32 (sr_replicas req) | _ => True end.

Lemma process_request_inv m req :
  in_range 32 (sr_replicas req) → manager_inv m → manager_inv (process_request m req).1.
Proof.
  intros Hr Hm. apply insert_service_inv; [done|].
  pose proof (service_entry_wf m (sr_service req) Hm) as []. pose proof (inv_max _ Hm).
  assert (0 ≤ total_other m (sr_service req)) as Ho.
  { unfold total_other. rewrite sum32_mod. unfold wrap. apply Z.mod_pos_bound. lia. }
  unfold in_range in Hr. constructor; simpl; [done | unfold sat_sub; lia | done].
Qed.

Lemma register_instance_inv now m s id ep :
  manager_inv m → manager_inv (register_instance now m s id ep).
Proof.
  intros Hm. pose proof (service_entry_wf m s Hm) as Hs. unfold register_instance.
  destruct (existsb _ _) eqn:E; [by apply insert_service_inv|].
  apply insert_service_inv; [done|]. destruct Hs as [Hids Ht Hready].
  constructor; simpl; [|done|].
  - rewrite map_app. simpl. apply NoDup_snoc. split; [done|].
    intros (i & -> & Hi)%list_elem_of_fmap.
    assert (existsb (λ j, bool_decide (ti_id j = ti_id i)) (instances (service_entry m s)) = true)
      by (apply existsb_exists; exists i; rewrite <-list_elem_of_In, bool_decide_true; done).
    congruence.
  - intros i [?| ->]%elem_of_snoc; [auto | done].
Qed.

Lemma deregister_instance_inv m s id :
  manager_inv m → manager_inv (deregister_instance m s id).1.
Proof.
  intros Hm. unfold deregister_instance. destruct (services m !! s) as [svc|] eqn:E; [|done].
  apply insert_service_inv; [done|]. pose proof (inv_services _ Hm _ _ E) as [Hids Ht Hr].
  constructor; simpl; [|done|].
  - by apply NoDup_map_filter.
  - intros i [? _]%elem_of_filter_b. auto.
Qed.

Lemma scale_apply_inv m o : op_valid o → manager_inv m → manager_inv (scale_apply m o).
Proof.
  intros Ho Hm. destruct o; simpl in *.
  - by apply process_request_inv.
  - by apply register_instance_inv.
  - unfold update_state. destruct (lookup_instance _ _ _); [|done].
    case_bool_decide; [done|]. apply push_event_inv; [done|].
    apply update_instance_inv; [done | | done].
    intros i Hi. unfold ready_ok, enter_state in *; simpl. intros ->.
    rewrite bool_decide_true by done. simpl. case_bool_decide; done.
  - by apply update_instance_inv.
  - by apply update_instance_inv.
  - by apply deregister_instance_inv.
  - unfold start_drain. destruct (lookup_instance _ _ _) as [i|]; [|done].
    destruct (ti_state i) eqn:E; try done;
      (apply push_event_inv; [done|]; by apply update_instance_inv).
  - unfold complete_drain. destruct (lookup_instance _ _ _) as [i|]; [|done].
    destruct (negb _); [done|]. apply push_event_inv; [done|]. by apply update_instance_inv.
Qed.

Lemma scale_run_inv ops m :
  Forall op_valid ops → manager_inv m →
  manager_inv (foldl scale_apply m ops) ∧
  max_instances (foldl scale_apply m ops) = max_instances m ∧
  max_events (foldl scale_apply m ops) = max_events m.
Proof.
  revert m. induction ops as [|o ops IH]; intros m Hops Hm; simpl; [done|].
  apply list.Forall_cons in Hops as [Ho Hops].
  destruct (IH (scale_apply m o) Hops (scale_apply_inv m o Ho Hm)) as (? & -> & ->).
  split; [done|]. clear.
  assert (∀ s id f, max_instances (update_instance m s id f) = max_instances m ∧
                    max_events (update_instance m s id f) = max_events m) as Hu.
  { intros. unfold update_instance. by destruct (_ !! _). }
  destruct o; simpl; try apply Hu; try done;
    unfold register_instance, update_state, deregister_instance, start_drain, complete_drain;
    repeat (split_match; simpl); done.
Qed.

(** From an empty manager, after any sequence of requests, registrations,
    state, health and endpoint updates, deregistrations and drains, every service
    has pairwise distinct instance ids and a target within the host's capacity, a
    [Ready] instance has its [ready_at] time, the event log never exceeds its 1000
    entries and records only real state changes. *)
Theorem scale_reachable max ops :
  in_range 32 max → Forall op_valid ops →
  let m := foldl scale_apply (manager_new max) ops in
  (∀ service svc, services m !! service = Some svc →
     NoDup (map ti_id (instances svc)) ∧ 0 ≤ target_replicas svc ≤ max ∧
     ∀ i, i ∈ instances svc → ti_state i = Ready → ti_ready_at i ≠ None) ∧
  (length (events m) ≤ 1000)%nat ∧ ∀ e, e ∈ events m → ev_from e ≠ ev_to e.
Proof.
  intros Hmax Hops m.
  destruct (scale_run_inv ops (manager_new max) Hops) as ([_ Hs Hl Hc _] & Em & Ee).
  { apply manager_new_inv. by destruct Hmax. }
  fold m in Hs, Hl, Hc, Em, Ee. rewrite Em in Hs. rewrite Ee in Hl. simpl in *.
  split; [|done]. intros service svc E. destruct (Hs _ _ E) as [Hn Ht Hr]. done.
Qed.

Definition demo_config : ScaleConfig :=
  {| sc_image := None; sc_vcpus := None; sc_memory_mib := None; sc_env := ∅;
     sc_port_map := [] |}.
Definition demo_request (service : string) (n : Z) : ScaleRequest :=
  {| sr_service := service; sr_replicas := n; sr_config := demo_config; sr_request_id := "r" |}.
Definition demo_ops : list scale_op :=
  [ORequest (demo_request "web" 3); ORegister 1 "web" "a" None; ORegister 2 "web" "b" None;
   ORegister 3 "web" "a" None; OState 4 "web" "a" Ready; OState 5 "web" "b" Busy;
   OStartDrain 6 "web" "b"].

Lemma scale_reachable_witness :
  let m := foldl scale_apply (manager_new 2) demo_ops in
  length (events m) = 3%nat ∧
  (∀ service svc, services m !! service = Some svc →
     NoDup (map ti_id (instances svc)) ∧ 0 ≤ target_replicas svc ≤ 2 ∧
     ∀ i, i ∈ instances svc → ti_state i = Ready → ti_ready_at i ≠ None).
Proof.
  split; [by vm_compute|].
  apply (scale_reachable 2 demo_ops); [by vm_compute|].
  repeat constructor; by vm_compute.
Defined.

(** ** Scaling down and up *)

Lemma stop_le_total i j : stop_le i j = true ∨ stop_le j i = true.
Proof. unfold stop_le. rewrite !Z.leb_le. lia. Qed.
Lemma stop_le_trans i j k : stop_le i j = true → stop_le j k = true → stop_le i k = true.
Proof. unfold stop_le. rewrite !Z.leb_le. lia. Qed.
#[export] Hint Resolve stop_le_total stop_le_trans : a3s.

Section stop.
Context (m : ScaleManager) (service : string) (svc : ServiceInstances).
Context (Hm : manager_inv m) (Hsvc : services m !! service = Some svc).
Context (Hsmall : Z.of_nat (length (instances svc)) < 2 ^ 32).

Let active := List.filter stoppable (instances svc).
Let sorted := sort_by stop_le active.
Let excess := Z.to_nat (Z.of_nat (length active) - target_replicas svc).

Lemma active_ids : NoDup (map ti_id active).
Proof.
  apply NoDup_map_filter, (wf_ids _ _ (inv_services _ Hm _ _ Hsvc)).
Qed.

Lemma sorted_perm : sorted ≡ₚ active.
Proof. apply sort_by_perm. Qed.

Lemma sorted_ids : NoDup (map ti_id sorted).
Proof. rewrite sorted_perm. apply active_ids. Qed.

(** What [instances_to_stop] computes, without its case split. *)
Lemma instances_to_stop_take :
  instances_to_stop m service = map ti_id (take excess sorted).
Proof.
  unfold instances_to_stop. rewrite Hsvc. fold active sorted.
  pose proof (filter_length_le stoppable (instances svc)) as Hle. fold active in Hle.
  rewrite len32_small by lia. unfold excess, sat_sub.
  destruct (Z.eqb_spec (Z.max 0 (Z.of_nat (length active) - target_replicas svc)) 0) as [E|E].
  - replace (Z.to_nat _) with O by lia. done.
  - by replace (Z.to_nat (Z.max 0 (Z.of_nat (length active) - target_replicas svc)))
      with (Z.to_nat (Z.of_nat (length active) - target_replicas svc)) by lia.
Qed.

Lemma excess_le : (excess ≤ length sorted)%nat.
Proof.
  rewrite sorted_perm. unfold excess. pose proof (wf_target _ _ (inv_services _ Hm _ _ Hsvc)). lia.
Qed.

(** The ids to stop name exactly the first [excess] of the sorted instances. *)
Lemma stop_ids_split i :
  i ∈ active → ti_id i ∈ map ti_id (take excess sorted) → i ∈ take excess sorted.
Proof.
  intros Hi (j & E & Hj)%list_elem_of_fmap.
  replace i with j; [done|]. symmetry. apply (nodup_id_unique sorted); [apply sorted_ids | | |done].
  - by rewrite sorted_perm.
  - rewrite <-(take_drop excess sorted). apply elem_of_app. by left.
Qed.

(** The instances that stay are those the sort put last. *)
Lemma stop_rest :
  List.filter (λ i, negb (bool_decide (ti_id i ∈ instances_to_stop m service))) active
    ≡ₚ drop excess sorted.
Proof.
  rewrite instances_to_stop_take.
  set (p := λ i, negb (bool_decide (ti_id i ∈ map ti_id (take excess sorted)))).
  assert (List.filter p active ≡ₚ List.filter p sorted) as ->.
  { symmetry. generalize sorted_perm. generalize sorted active. clear.
    induction 1; simpl; repeat destruct (p _); eauto using Permutation. }
  assert (List.filter p (take excess sorted ++ drop excess sorted) = drop excess sorted) as E.
  { rewrite List.filter_app.
    assert (List.filter p (take excess sorted) = []) as ->.
    { destruct (List.filter p (take excess sorted)) as [|i l] eqn:E; [done|].
      assert (i ∈ List.filter p (take excess sorted)) as [Hi Hp]%elem_of_filter_b
        by (rewrite E; by left).
      unfold p in Hp. rewrite bool_decide_true in Hp; [done|]. by apply (list_elem_of_fmap_2 ti_id). }
    simpl. pose proof sorted_ids as Hnd. rewrite <-(take_drop excess sorted), map_app in Hnd.
    apply list.NoDup_app in Hnd as (_ & Hd & _).
    assert (∀ l, (∀ i, i ∈ l → p i = true) → List.filter p l = l) as Hall.
    { clear. induction l as [|i l IH]; intros Hl; simpl; [done|].
      rewrite Hl by (by left). f_equal. apply IH. intros. apply Hl. by right. }
    apply Hall. intros i Hi. unfold p. rewrite bool_decide_false; [done|].
    intros Hc. apply (Hd _ Hc). by apply (list_elem_of_fmap_2 ti_id). }
  rewrite take_drop in E. by rewrite E.
Qed.

End stop.

(** Scaling a service down selects exactly the excess over its target:
    that many distinct instances, all of them active (not stopped, failed,
    stopping or draining), chosen so that no instance of a later class of the
    order Ready, Creating, Booting, Busy is stopped while one of an earlier
    class is kept; and no scale-up is asked for at the same time. *)
Theorem stop_exact m service svc :
  manager_inv m → services m !! service = Some svc →
  Z.of_nat (length (instances svc)) < 2 ^ 32 →
  let active := List.filter stoppable (instances svc) in
  let ids := instances_to_stop m service in
  Z.of_nat (length ids) = Z.max 0 (Z.of_nat (length active) - target_replicas svc) ∧
  NoDup ids ∧
  (∀ id, id ∈ ids → ∃ i, i ∈ active ∧ ti_id i = id) ∧
  (∀ i j, i ∈ active → j ∈ active → ti_id i ∈ ids → (ti_id j ∉ ids) →
     stop_key i ≤ stop_key j) ∧
  (ids ≠ [] → instances_to_create m service = 0).
Proof.
  intros Hm Hs Hl active ids.
  unfold ids. rewrite (instances_to_stop_take m service svc Hs Hl).
  fold active. set (n := Z.to_nat (Z.of_nat (length active) - target_replicas svc)).
  pose proof (sorted_perm svc) as Hp. fold active in Hp.
  pose proof (sorted_ids m service svc Hm Hs) as Hnd.
  pose proof (excess_le m service svc Hm Hs) as Hle. fold active n in Hnd, Hle.
  rewrite <-(take_drop n (sort_by stop_le active)), map_app in Hnd.
  split_and!.
  - rewrite length_map, length_take. unfold n in *. lia.
  - by apply list.NoDup_app in Hnd as (? & _).
  - intros id (i & -> & Hi)%list_elem_of_fmap. exists i. split; [|done].
    rewrite <-Hp, <-(take_drop n (sort_by stop_le active)). apply elem_of_app. by left.
  - intros i j Hi Hj Hin Hout.
    apply (stop_ids_split m service svc Hm Hs) in Hin; [|done].
    assert (j ∈ take n (sort_by stop_le active) ++ drop n (sort_by stop_le active)) as Hj2
      by (by rewrite take_drop, Hp).
    apply elem_of_app in Hj2 as [Hj2|Hj2].
    { destruct Hout. by apply (list_elem_of_fmap_2 ti_id). }
    apply Z.leb_le. apply (sorted_take_drop stop_le (sort_by stop_le active) n i j); [|done|done].
    apply sort_by_sorted; eauto with a3s.
  - intros Hne. unfold instances_to_create. rewrite Hs.
    pose proof (filter_length_le live (instances svc)).
    assert (length active ≤ length (List.filter live (instances svc)))%nat.
    { unfold active. clear. induction (instances svc) as [|i l IH]; simpl; [done|].
      unfold stoppable, live in *. destruct (ti_state i); simpl; lia. }
    rewrite len32_small by lia. unfold sat_sub.
    assert (n ≠ 0%nat) by (intros ->; done). unfold n in *. lia.
Qed.

Lemma stop_exact_witness :
  let m := foldl scale_apply (manager_new 5)
    [ORequest (demo_request "web" 1); ORegister 1 "web" "a" None; ORegister 2 "web" "b" None;
     ORegister 3 "web" "c" None; OState 4 "web" "a" Busy; OState 4 "web" "c" Ready] in
  instances_to_stop m "web" = ["c"; "b"]%string ∧ NoDup (instances_to_stop m "web").
Proof.
  set (ops := [ORequest _; _; _; _; _; _]). intros m.
  split; [by vm_compute|].
  assert (manager_inv (manager_new 5)) as H0 by (by apply manager_new_inv).
  assert (Forall op_valid ops) as Hops by (repeat constructor; by vm_compute).
  destruct (scale_run_inv ops _ Hops H0) as [Hm _].
  set (svc := default {| target_replicas := 0; instances := [] |} (services m !! "web"%string)).
  apply (stop_exact m "web" svc Hm); by vm_compute.
Defined.

(** ** One reconciliation round *)

Lemma deregister_all m service svc ids :
  services m !! service = Some svc →
  let m' := foldl (λ m id, (deregister_instance m service id).1) m ids in
  services m' !! service =
    Some {| target_replicas := target_replicas svc;
            instances := List.filter (λ i, negb (bool_decide (ti_id i ∈ ids)))
                           (instances svc) |}.
Proof.
  revert m svc. induction ids as [|id ids IH]; intros m svc Hs; cbn [foldl].
  - rewrite Hs. f_equal. destruct svc as [t l]. f_equal.
    etrans; [symmetry; apply filter_all|]. apply filter_ext. intros i.
    rewrite bool_decide_false; [done | apply not_elem_of_nil].
  - erewrite IH; [|unfold deregister_instance; rewrite Hs; apply lookup_insert_eq].
    simpl. do 2 f_equal. clear. induction (instances svc) as [|i l IHl]; simpl; [done|].
    case_bool_decide as E; simpl.
    + rewrite bool_decide_true by (rewrite elem_of_cons; auto). apply IHl.
    + rewrite IHl. erewrite (bool_decide_ext (ti_id i ∈ id :: ids)); [done|].
      rewrite elem_of_cons. tauto.
Qed.

Lemma register_all now m service svc ids :
  services m !! service = Some svc → NoDup ids →
  (∀ i, i ∈ instances svc → ti_id i ∉ ids) →
  let m' := foldl (λ m id, register_instance now m service id None) m ids in
  ∃ svc', services m' !! service = Some svc' ∧ target_replicas svc' = target_replicas svc ∧
    length (instances svc') = (length (instances svc) + length ids)%nat ∧
    length (List.filter live (instances svc')) =
      (length (List.filter live (instances svc)) + length ids)%nat.
Proof.
  revert m svc. induction ids as [|id ids IH]; intros m svc Hs Hnd Hfresh; simpl.
  - exists svc. split_and!; auto; lia.
  - apply list.NoDup_cons in Hnd as [Hid Hnd].
    assert (existsb (λ i, bool_decide (ti_id i = id)) (instances svc) = false) as Hex.
    { apply not_true_iff_false. intros (i & Hi & E%bool_decide_eq_true)%existsb_exists.
      apply list_elem_of_In in Hi. apply (Hfresh i Hi). rewrite E. by left. }
    edestruct (IH (register_instance now m service id None)) as (svc' & ? & ? & Hl & Hf).
    { unfold register_instance, service_entry. rewrite Hs. simpl. rewrite Hex.
      apply lookup_insert_eq. }
    { done. }
    { simpl. intros i [Hi| ->]%elem_of_snoc; [|done]. intros Hc. apply (Hfresh i Hi). by right. }
    exists svc'. simpl in Hl, Hf. rewrite List.filter_app, !length_app in *. simpl in *.
    split_and!; [done | done | lia | lia].
Qed.

(** C40: One round of the caller's loop reaches the target.  Registering as many
    fresh instances as [instances_to_create] asks for leaves nothing to create;
    deregistering what [instances_to_stop] names leaves nothing to stop, and
    exactly the smaller of the target and the active count is still active. *)
Theorem reconcile_converges now m service svc fresh :
  manager_inv m → services m !! service = Some svc →
  Z.of_nat (length (instances svc)) + max_instances m < 2 ^ 32 →
  NoDup fresh → (∀ i, i ∈ instances svc → ti_id i ∉ fresh) →
  Z.of_nat (length fresh) = instances_to_create m service →
  let up := foldl (λ m id, register_instance now m service id None) m fresh in
  let down := foldl (λ m id, (deregister_instance m service id).1) m
                (instances_to_stop m service) in
  instances_to_create up service = 0 ∧
  instances_to_stop down service = [] ∧
  ∃ svc', services down !! service = Some svc' ∧
    Z.of_nat (length (List.filter stoppable (instances svc'))) =
      Z.min (target_replicas svc) (Z.of_nat (length (List.filter stoppable (instances svc)))).
Proof.
  intros Hm Hs Hl Hnd Hfr Hn up down.
  pose proof (inv_services _ Hm _ _ Hs) as [_ Ht _].
  pose proof (filter_length_le live (instances svc)).
  split.
  - unfold instances_to_create in Hn. rewrite Hs, len32_small in Hn by lia.
    destruct (register_all now m service svc fresh Hs Hnd Hfr) as (s' & E & Et & El & Ef).
    fold up in E. unfold instances_to_create. rewrite E, Et.
    unfold sat_sub in *.
    rewrite len32_small, Ef by (rewrite Ef; lia). lia.
  - pose proof (deregister_all m service svc (instances_to_stop m service) Hs) as E.
    fold down in E. set (p := λ i, negb _) in E.
    assert (List.filter stoppable (List.filter p (instances svc)) =
            List.filter p (List.filter stoppable (instances svc))) as Ecomm.
    { clear. induction (instances svc) as [|i l IH]; simpl; [done|].
      destruct (p i) eqn:Ep, (stoppable i) eqn:Es; simpl; rewrite ?Ep, ?Es, ?IH; done. }
    assert (length (List.filter stoppable (List.filter p (instances svc))) =
      Z.to_nat (Z.min (target_replicas svc)
        (Z.of_nat (length (List.filter stoppable (instances svc)))))) as Hlen.
    { rewrite Ecomm. unfold p. rewrite (stop_rest m service svc Hm Hs) by lia.
      rewrite length_drop, (sorted_perm svc). lia. }
    pose proof (filter_length_le stoppable (List.filter p (instances svc))).
    pose proof (filter_length_le p (instances svc)).
    split; [|eexists; split; [exact E|]; simpl; lia].
    unfold instances_to_stop. rewrite E. simpl. rewrite len32_small by lia.
    unfold sat_sub. by destruct (Z.eqb_spec (Z.max 0
      (Z.of_nat (length (List.filter stoppable (List.filter p (instances svc)))) -
       target_replicas svc)) 0); [|lia].
Qed.

Lemma reconcile_converges_witness :
  let m := foldl scale_apply (manager_new 5)
    [ORequest (demo_request "web" 3); ORegister 1 "web" "a" None] in
  instances_to_create m "web" = 2 ∧
  instances_to_create (foldl (λ m id, register_instance 7 m "web" id None) m ["b"; "c"]%string)
    "web" = 0.
Proof.
  set (ops := [ORequest _; _]). intros m.
  split; [by vm_compute|].
  assert (manager_inv (manager_new 5)) as H0 by (by apply manager_new_inv).
  assert (Forall op_valid ops) as Hops by (repeat constructor; by vm_compute).
  destruct (scale_run_inv ops _ Hops H0) as [Hm _].
  set (svc := default {| target_replicas := 0; instances := [] |} (services m !! "web"%string)).
  apply (reconcile_converges 7 m "web" svc ["b"; "c"]%string Hm);
    [by vm_compute | by vm_compute | by repeat constructor; set_solver | | by vm_compute].
  intros i Hi. assert (svc = {| target_replicas := 3; instances := [
    {| ti_id := "a"; ti_state := Creating; ti_created_at := 1; ti_ready_at := None;
       ti_endpoint := None; ti_health := health_default |}] |}) as -> by (by vm_compute).
  apply list_elem_of_singleton in Hi as ->. simpl. set_solver.
Defined.

(** ** Admission of scale requests *)

(** Instances registered with the services other than [service]. *)
Definition registered_elsewhere (m : ScaleManager) (service : string) : Z :=
  foldr Z.add 0 (map (λ s, Z.of_nat (length (instances s))) (values (delete service (services m)))).

Lemma filter_delete_perm {A} (m : gmap string A) k :
  List.filter (λ kv, negb (bool_decide (kv.1 = k))) (map_to_list m) ≡ₚ map_to_list (delete k m).
Proof.
  apply NoDup_Permutation; [|apply NoDup_map_to_list|].
  - apply NoDup_ListNoDup, List.NoDup_filter, NoDup_ListNoDup, NoDup_map_to_list.
  - intros [k' a]. rewrite elem_of_filter_b, !elem_of_map_to_list, lookup_delete_Some.
    rewrite negb_true_iff, bool_decide_eq_false. simpl. naive_solver.
Qed.

Lemma foldr_add_len32 (l : list ServiceInstances) :
  foldr Z.add 0 (map (λ s, Z.of_nat (length (instances s))) l) < 2 ^ 32 →
  foldr Z.add 0 (map (λ s, len32 (instances s)) l) =
  foldr Z.add 0 (map (λ s, Z.of_nat (length (instances s))) l).
Proof.
  assert (∀ l : list ServiceInstances,
    0 ≤ foldr Z.add 0 (map (λ s, Z.of_nat (length (instances s))) l)) as Hpos
    by (intros k; induction k; simpl; lia).
  induction l as [|s l IH]; simpl; [done|]. intros.
  pose proof (Hpos l). rewrite IH by lia. rewrite len32_small by lia. done.
Qed.

Lemma total_other_exact m service :
  registered_elsewhere m service < 2 ^ 32 →
  total_other m service = registered_elsewhere m service.
Proof.
  intros Hs. unfold total_other. rewrite sum32_mod.
  set (f := λ s, len32 (instances s)).
  assert (∀ l : list (string * ServiceInstances), map (λ kv, f kv.2) l = map f l.*2) as E
    by (intros l; rewrite map_map; done).
  erewrite foldr_add_perm; [|apply fmap_Permutation, filter_delete_perm].
  change (fmap (λ kv, f kv.2)) with (map (λ kv : string * ServiceInstances, f kv.2)).
  unfold registered_elsewhere, values in *. rewrite E.
  unfold f. rewrite foldr_add_len32 by done. apply wrap_small. split; [|done].
  clear. induction (map_to_list _).*2; simpl; lia.
Qed.

(** A scale request is capped to what the instances of the other services
    leave of the host's capacity: the target is the smaller of the two, it is
    accepted exactly when nothing was cut off, an error is reported exactly when
    it was, the instances of the service are reported and left alone, and no
    other service changes. *)
Theorem request_capped m req :
  manager_inv m → in_range 32 (sr_replicas req) →
  registered_elsewhere m (sr_service req) < 2 ^ 32 →
  let '(m', r) := process_request m req in
  let other := registered_elsewhere m (sr_service req) in
  rs_target_replicas r = Z.min (sr_replicas req) (Z.max 0 (max_instances m - other)) ∧
  (other ≤ max_instances m → rs_target_replicas r + other ≤ max_instances m) ∧
  (rs_accepted r = true ↔ sr_replicas req ≤ Z.max 0 (max_instances m - other)) ∧
  (rs_error r = None ↔ rs_accepted r = true) ∧
  (∃ svc, services m' !! sr_service req = Some svc ∧
     target_replicas svc = rs_target_replicas r ∧
     instances svc = instances (service_entry m (sr_service req)) ∧
     map ii_id (rs_instances r) = map ti_id (instances svc)) ∧
  (∀ k, k ≠ sr_service req → services m' !! k = services m !! k) ∧
  events m' = events m.
Proof.
  intros Hm Hr Ho. unfold process_request. rewrite (total_other_exact m _ Ho).
  set (other := registered_elsewhere m (sr_service req)). simpl. unfold sat_sub.
  split_and!; [done | lia | rewrite Z.eqb_eq; lia | | | | done].
  - by destruct (_ =? _).
  - eexists. split; [apply lookup_insert_eq|]. simpl. rewrite map_map. done.
  - intros. by rewrite lookup_insert_ne.
Qed.

Lemma request_capped_witness :
  let m := foldl scale_apply (manager_new 3) [ORegister 1 "db" "a" None; ORegister 1 "db" "b" None] in
  let '(_, r) := process_request m (demo_request "web" 4) in
  rs_target_replicas r = 1 ∧ rs_accepted r = false ∧ (rs_error r = None ↔ rs_accepted r = true).
Proof.
  set (ops := [_; _]). intros m.
  assert (manager_inv (manager_new 3)) as H0 by (by apply manager_new_inv).
  assert (Forall op_valid ops) as Hops by (repeat constructor; by vm_compute).
  destruct (scale_run_inv ops _ Hops H0) as [Hm _].
  pose proof (request_capped m (demo_request "web" 4) Hm
                ltac:(by vm_compute) ltac:(by vm_compute)) as Hc.
  destruct (process_request m (demo_request "web" 4)) as [m' r] eqn:E.
  assert (rs_target_replicas r = 1 ∧ rs_accepted r = false) as [??]
    by (vm_compute in E; injection E as <- <-; done).
  by destruct Hc as (_ & _ & _ & ? & _).
Defined.

Lemma request_granted m k n :
  registered_elsewhere m k = 0 → 0 ≤ n ≤ max_instances m →
  process_request m (demo_request k n) =
  (set_services m (<[k := {| target_replicas := n;
                             instances := instances (service_entry m k) |}]> (services m)),
   {| rs_request_id := "r"; rs_accepted := true;
      rs_current_replicas := len32 (instances (service_entry m k)); rs_target_replicas := n;
      rs_instances := map (info_of k) (instances (service_entry m k)); rs_error := None |}).
Proof.
  intros E Hn. unfold process_request; simpl.
  rewrite total_other_exact, E by (rewrite E; done).
  unfold sat_sub. rewrite Z.sub_0_r, Z.max_r, Z.min_l, Z.eqb_refl by lia. done.
Qed.

(** The capacity check counts the instances already registered, not the
    targets already granted: on an idle host of any positive capacity, two
    services that each ask for the whole host are both accepted without error,
    and the host then asks for twice [max_instances] new instances. *)
Theorem capacity_overcommitted max a b :
  in_range 32 max → 0 < max → a ≠ b →
  let '(m1, r1) := process_request (manager_new max) (demo_request a max) in
  let '(m2, r2) := process_request m1 (demo_request b max) in
  rs_accepted r1 = true ∧ rs_accepted r2 = true ∧ rs_error r1 = None ∧ rs_error r2 = None ∧
  instances_to_create m2 a + instances_to_create m2 b = 2 * max ∧
  max_instances m2 < instances_to_create m2 a + instances_to_create m2 b.
Proof.
  intros Hr Hpos Hab. unfold in_range in Hr.
  rewrite request_granted by (simpl; done || lia).
  rewrite request_granted.
  - cbn -[Z.mul instances_to_create]. unfold instances_to_create; simpl.
    rewrite lookup_insert_ne, !lookup_insert_eq by done. simpl.
    unfold service_entry; simpl. rewrite lookup_insert_ne, !lookup_empty by done. simpl.
    unfold sat_sub, len32, wrap; simpl. rewrite Z.sub_0_r, Z.max_r by lia.
    split_and!; try done; lia.
  - unfold registered_elsewhere; simpl. rewrite delete_insert_ne, delete_empty, insert_empty by done.
    unfold values. by rewrite map_to_list_singleton.
  - simpl; lia.
Qed.

Lemma capacity_overcommitted_witness :
  let '(m1, r1) := process_request (manager_new 4) (demo_request "a" 4) in
  let '(m2, r2) := process_request m1 (demo_request "b" 4) in
  rs_accepted r1 = true ∧ rs_accepted r2 = true ∧ rs_error r1 = None ∧ rs_error r2 = None ∧
  instances_to_create m2 "a" + instances_to_create m2 "b" = 2 * 4 ∧
  max_instances m2 < instances_to_create m2 "a" + instances_to_create m2 "b".
Proof. apply (capacity_overcommitted 4 "a" "b"); [by vm_compute | lia | done]. Defined.

(** ** Draining *)

Lemma lookup_update_instance m s id f i :
  (∀ i, ti_id (f i) = ti_id i) →
  lookup_instance m s id = Some i →
  lookup_instance (update_instance m s id f) s id = Some (f i).
Proof.
  intros Hf. unfold lookup_instance, update_instance.
  destruct (services m !! s) as [svc|] eqn:E; [|done]. simpl. intros Hi.
  rewrite lookup_insert_eq. simpl. by apply find_update_first.
Qed.

Lemma lookup_update_instance_ne m s id f s' id' :
  (∀ i, ti_id (f i) = ti_id i) → (s', id') ≠ (s, id) →
  lookup_instance (update_instance m s id f) s' id' = lookup_instance m s' id'.
Proof.
  intros Hf Hne. unfold lookup_instance, update_instance.
  destruct (services m !! s) as [svc|] eqn:E; [|done]. simpl.
  destruct (decide (s' = s)) as [->|].
  - rewrite lookup_insert_eq, E. simpl. apply find_update_first_ne; congruence.
  - by rewrite lookup_insert_ne.
Qed.

Lemma push_event_lookup m e s id :
  lookup_instance (push_event m e) s id = lookup_instance m s id.
Proof. done. Qed.

Lemma push_event_last m e :
  (0 < max_events m)%nat → list.last (events (push_event m e)) = Some e.
Proof.
  intros. simpl. destruct (Nat.ltb_spec (max_events m) (length (events m ++ [e]))) as [Hlt|].
  - rewrite length_app in *. simpl in *. rewrite drop_app_le by lia. apply last_snoc.
  - apply last_snoc.
Qed.

(** An instance in a state a listing filters out is not in that listing. *)
Lemma listed_state m s id i (p : TrackedInstance → bool) svc :
  manager_inv m → services m !! s = Some svc → lookup_instance m s id = Some i →
  id ∈ map ti_id (List.filter p (instances svc)) → p i = true.
Proof.
  intros Hm Hs Hi (j & -> & [Hj Hp]%elem_of_filter_b)%list_elem_of_fmap.
  unfold lookup_instance in Hi. rewrite Hs in Hi. simpl in Hi.
  apply find_instance_Some in Hi as [Hi E].
  by rewrite (nodup_id_unique _ i j (wf_ids _ _ (inv_services _ Hm _ _ Hs)) Hi Hj E).
Qed.

Lemma stop_stoppable m s svc id :
  services m !! s = Some svc → id ∈ instances_to_stop m s →
  id ∈ map ti_id (List.filter stoppable (instances svc)).
Proof.
  intros Hs. unfold instances_to_stop. rewrite Hs. destruct (_ =? 0); [by intros ?%not_elem_of_nil|].
  intros (i & -> & Hi)%list_elem_of_fmap. apply (list_elem_of_fmap_2 ti_id).
  set (n := Z.to_nat _) in Hi. rewrite <-(sorted_perm svc), <-(take_drop n (sort_by _ _)).
  apply elem_of_app. by left.
Qed.

(** The drain protocol.  Draining starts exactly from [Ready] or [Busy];
    while it drains, the instance is listed as draining, no longer routed to and
    never picked by a scale-down; the drain is complete once its in-flight
    requests are reported as zero, and completing it moves the instance to
    [Stopping].  From any other state the call changes nothing, and no step of
    the protocol touches another instance. *)
Theorem drain_protocol now m s id i h :
  manager_inv m → lookup_instance m s id = Some i →
  (ti_state i ≠ Ready → ti_state i ≠ Busy → start_drain now m s id = (m, None)) ∧
  (ti_state i ≠ Draining → complete_drain now m s id = (m, None)) ∧
  (ti_state i = Ready ∨ ti_state i = Busy →
   let '(m1, e1) := start_drain now m s id in
   let m2 := update_health m1 s id h in
   let '(m3, e3) := complete_drain now m2 s id in
   (∃ e, e1 = Some e ∧ ev_from e = ti_state i ∧ ev_to e = Draining ∧
      list.last (events m1) = Some e) ∧
   lookup_instance m1 s id = Some (set_state Draining i) ∧
   id ∈ draining_instances m1 s ∧
   (id ∉ map ii_id (ready_instances m1 s)) ∧ (id ∉ instances_to_stop m1 s) ∧
   is_drain_complete m2 s id = (inflight_requests h =? 0) ∧
   (∃ e, e3 = Some e ∧ ev_from e = Draining ∧ ev_to e = Stopping) ∧
   (∃ j, lookup_instance m3 s id = Some j ∧ ti_state j = Stopping) ∧
   ∀ s' id', (s', id') ≠ (s, id) → lookup_instance m3 s' id' = lookup_instance m s' id').
Proof.
  intros Hm Hi. split_and!.
  - intros Hr Hb. unfold start_drain. rewrite Hi. by destruct (ti_state i).
  - intros Hd. unfold complete_drain. rewrite Hi, bool_decide_false by done. done.
  - intros Hst. unfold start_drain. rewrite Hi.
    set (m1 := push_event (update_instance m s id (set_state Draining))
                 (with_message (transition now id s (ti_state i) Draining)
                    "Graceful drain initiated")).
    replace (match ti_state i with Ready | Busy => _ | _ => _ end) with
      (m1, Some (with_message (transition now id s (ti_state i) Draining)
                   "Graceful drain initiated"))
      by (unfold m1; destruct Hst as [->| ->]; done).
    assert (lookup_instance m1 s id = Some (set_state Draining i)) as H1
      by (by apply lookup_update_instance).
    assert (manager_inv m1) as Hm1.
    { apply push_event_inv; [by destruct Hst as [E|E]; simpl; rewrite E|].
      by apply update_instance_inv. }
    set (m2 := update_health m1 s id h).
    assert (∃ j, lookup_instance m2 s id = Some j ∧ ti_state j = Draining ∧ ti_health j = h)
      as (j & H2 & Ej & Eh)
      by (eexists; split; [by apply lookup_update_instance | done]).
    unfold complete_drain. rewrite H2, Ej, bool_decide_true by done. simpl.
    destruct (services m1 !! s) as [svc|] eqn:Es;
      [|unfold lookup_instance in H1; rewrite Es in H1; done].
    split_and!.
    + eexists. split_and!; [done | done | done |]. apply push_event_last.
      unfold update_instance. destruct (services m !! s); apply (inv_ring _ Hm).
    + done.
    + unfold lookup_instance in H1. rewrite Es in H1. simpl in H1.
      apply find_instance_Some in H1 as [Hin E]. unfold draining_instances. rewrite Es, <-E.
      apply (list_elem_of_fmap_2 ti_id), elem_of_filter_b. done.
    + unfold ready_instances. rewrite Es, map_map. intros Hc.
      apply (listed_state m1 s id _ (in_state Ready) svc Hm1 Es H1) in Hc. done.
    + intros Hc%(stop_stoppable _ _ svc); [|done].
      apply (listed_state m1 s id _ stoppable svc Hm1 Es H1) in Hc. done.
    + unfold is_drain_complete, in_state. by rewrite H2, Ej, Eh, bool_decide_true.
    + eexists. done.
    + eexists. split; [apply lookup_update_instance; [done | exact H2]|done].
    + intros s' id' Hne. rewrite push_event_lookup.
      unfold m2, update_health. rewrite !lookup_update_instance_ne by done.
      unfold m1. by rewrite push_event_lookup, lookup_update_instance_ne.
Qed.

Lemma drain_protocol_witness :
  let m := foldl scale_apply (manager_new 5)
             [ORegister 1 "web" "a" None; ORegister 1 "web" "b" None; OState 4 "web" "a" Busy] in
  let '(m1, _) := start_drain 6 m "web" "a" in
  let m2 := update_health m1 "web" "a" health_default in
  let '(m3, _) := complete_drain 6 m2 "web" "a" in
  is_drain_complete m2 "web" "a" = true ∧
  lookup_instance m3 "web" "b" = lookup_instance m "web" "b".
Proof.
  set (ops := [_; _; _]). intros m.
  assert (manager_inv (manager_new 5)) as H0 by (by apply manager_new_inv).
  assert (Forall op_valid ops) as Hops by (repeat constructor; by vm_compute).
  destruct (scale_run_inv ops _ Hops H0) as [Hm _].
  destruct (lookup_instance m "web" "a") as [i|] eqn:E; [|by vm_compute in E].
  destruct (drain_protocol 6 m "web" "a" i health_default Hm E) as (_ & _ & Hd).
  specialize (Hd ltac:(right; vm_compute in E; by injection E as <-)).
  destruct (start_drain 6 m "web" "a") as [m1 e1]. cbv zeta in Hd |- *.
  destruct (complete_drain 6 (update_health m1 "web" "a" health_default) "web" "a") as [m3 e3].
  destruct Hd as (_ & _ & _ & _ & _ & Hc & _ & _ & Hf).
  split; [by rewrite Hc | by apply Hf].
Defined.

(** ** Registry *)

Section registry.
Import InstanceRegistry.

(** Every entry is stored under its own instance id, and its last heartbeat is
    not older than its registration when the clock does not run backwards. *)
Definition registry_wf (clock : Z) (r : InstanceRegistry.t) : Prop :=
  ∀ id e, r !! id = Some e →
    instance_id e = id ∧ registered_at e ≤ last_heartbeat e ≤ clock.

Inductive registry_op :=
  | RRegister (id svc ep host : string) (meta : gmap string string)
  | RDeregister (id : string)
  | RHeartbeat (id : string)
  | REvict (max_age : Z).

Definition registry_apply (now : Z) (r : InstanceRegistry.t) (o : registry_op)
    : InstanceRegistry.t :=
  match o with
  | RRegister id svc ep host meta => register now r id svc ep host meta
  | RDeregister id => (deregister r id).1
  | RHeartbeat id => (heartbeat now r id).1
  | REvict max_age => (evict_stale now r max_age).1
  end.

Lemma fold_delete_lookup {A} (ids : list string) (r : gmap string A) k :
  foldl (λ r id, delete id r) r ids !! k = if bool_decide (k ∈ ids) then None else r !! k.
Proof.
  revert r. induction ids as [|id ids IH]; intros r; cbn [foldl].
  - by rewrite bool_decide_false by apply not_elem_of_nil.
  - rewrite IH. repeat case_bool_decide; try set_solver.
    + destruct (decide (k = id)) as [->|]; [by rewrite lookup_delete_eq | set_solver].
    + rewrite lookup_delete_ne; [done | set_solver].
Qed.

Lemma evict_stale_elem now r age id :
  id ∈ (evict_stale now r age).2 ↔
  ∃ e, r !! id = Some e ∧ last_heartbeat e < now - age.
Proof.
  simpl. rewrite list_elem_of_fmap. split.
  - intros ([k e] & -> & [Hin Hb]%elem_of_filter_b). simpl in *.
    apply elem_of_map_to_list in Hin. exists e. split; [done|]. by apply Z.ltb_lt.
  - intros (e & He & Hb). exists (id, e). split; [done|]. rewrite elem_of_filter_b.
    split; [by apply elem_of_map_to_list | by apply Z.ltb_lt].
Qed.

Lemma registry_apply_wf clock now r o :
  registry_wf clock r → clock ≤ now → registry_wf now (registry_apply now r o).
Proof.
  intros Hr Hle id e. assert (registry_wf now r) as Hr'
    by (intros k x Hx; destruct (Hr k x Hx); lia || (split; [done | lia])).
  destruct o as [id' svc ep host meta|id'|id'|age]; simpl.
  - unfold register. destruct (decide (id = id')) as [->|].
    + rewrite lookup_insert_eq. intros [= <-]. simpl. lia || (split; [done | lia]).
    + rewrite lookup_insert_ne by done. apply Hr'.
  - rewrite lookup_delete_Some. intros [_ He]. by apply Hr'.
  - unfold heartbeat. destruct (r !! id') as [x|] eqn:E; [|apply Hr'].
    simpl. destruct (decide (id = id')) as [->|].
    + rewrite lookup_insert_eq. intros [= <-]. destruct (Hr _ _ E). simpl. split; [done | lia].
    + rewrite lookup_insert_ne by done. apply Hr'.
  - rewrite fold_delete_lookup. case_bool_decide; [done | apply Hr'].
Qed.

(** Eviction is exact.  For every history of registrations, heartbeats,
    deregistrations and evictions under a clock that never runs backwards,
    evicting at [now] removes precisely the instances whose last heartbeat is
    older than [max_age], returns each of them once, keeps every other entry
    unchanged, and whatever heartbeats within [max_age] survives; the listing of
    a service then names exactly the surviving instances of that service. *)
Theorem evict_exact hist now age clock r :
  (r, clock) = foldl (λ '(r, c) '(dt, o), (registry_apply (c + Z.of_nat dt) r o, c + Z.of_nat dt))
                 (InstanceRegistry.new, 0) hist →
  clock ≤ now →
  let '(r', stale) := evict_stale now r age in
  NoDup stale ∧
  (∀ id, id ∈ stale ↔ ∃ e, r !! id = Some e ∧ last_heartbeat e < now - age) ∧
  (∀ id, r' !! id = if bool_decide (id ∈ stale) then None else r !! id) ∧
  (∀ id t, (heartbeat t r id).2 = true → now - age ≤ t →
     id ∉ (evict_stale now (heartbeat t r id).1 age).2) ∧
  (∀ id svc, id ∈ instances_for_service r' svc ↔
     ∃ e, r !! id = Some e ∧ now - age ≤ last_heartbeat e ∧ service e = svc).
Proof.
  intros Hrun Hclock.
  assert (registry_wf clock r) as Hwf.
  { assert (∀ h r0 c0, registry_wf c0 r0 →
      (r, clock) = foldl (λ '(r, c) '(dt, o),
        (registry_apply (c + Z.of_nat dt) r o, c + Z.of_nat dt)) (r0, c0) h →
      registry_wf clock r) as Hgen.
    { induction h as [|[dt o] h IH]; intros r0 c0 H0; simpl; [by intros [= -> ->]|].
      apply IH. apply (registry_apply_wf c0); [done | lia]. }
    apply (Hgen hist InstanceRegistry.new 0); [|done].
    intros id e. unfold InstanceRegistry.new. by rewrite lookup_empty. }
  pose proof (evict_stale_elem now r age) as Hel.
  destruct (evict_stale now r age) as [r' stale] eqn:E. simpl in Hel.
  assert (∀ id, r' !! id = if bool_decide (id ∈ stale) then None else r !! id) as Hr'.
  { intros id. injection E as <- <-. apply fold_delete_lookup. }
  split_and!; [| done | done | |].
  - injection E as _ <-. apply NoDup_map_filter, NoDup_fst_map_to_list.
  - intros id t. unfold heartbeat. destruct (r !! id) as [x|] eqn:Ex; [|done].
    intros _ Ht (e & He & Hlt)%evict_stale_elem. simpl in He.
    rewrite lookup_insert_eq in He. injection He as <-. simpl in Hlt. lia.
  - intros id svc. unfold instances_for_service. rewrite list_elem_of_fmap.
    setoid_rewrite elem_of_filter_b. setoid_rewrite elem_of_values.
    setoid_rewrite bool_decide_eq_true. setoid_rewrite Hr'. split.
    + intros (e & -> & (k & He) & Es). case_bool_decide as Hk; [done|].
      destruct (Hwf k e He) as [-> _]. exists e. split_and!; [done | | done].
      destruct (decide (now - age ≤ last_heartbeat e)); [done|].
      destruct Hk. apply Hel. exists e. split; [done | lia].
    + intros (e & He & Hle & Es). exists e. destruct (Hwf id e He) as [Eid _].
      split_and!; [done | | done]. exists id. rewrite bool_decide_false; [done|].
      intros (e' & He' & Hlt)%Hel. rewrite He in He'. injection He' as <-. lia.
Qed.

Definition demo_history : list (nat * registry_op) :=
  [(1%nat, RRegister "a" "web" "h1:80" "h1" ∅); (2%nat, RRegister "b" "web" "h2:80" "h2" ∅);
   (5%nat, RHeartbeat "a")].

Lemma evict_exact_witness :
  let '(r, clock) := foldl (λ '(r, c) '(dt, o),
      (registry_apply (c + Z.of_nat dt) r o, c + Z.of_nat dt)) (InstanceRegistry.new, 0) demo_history in
  (evict_stale 12 r 5).2 = ["b"%string] ∧ NoDup (evict_stale 12 r 5).2.
Proof.
  destruct (foldl _ _ demo_history) as [r clock] eqn:E.
  assert (clock = 8 ∧ (evict_stale 12 r 5).2 = ["b"%string]) as [Hc Hs]
    by (vm_compute in E; injection E as <- <-; by vm_compute).
  split; [done|].
  pose proof (evict_exact demo_history 12 5 clock r (eq_sym E) ltac:(lia)) as H.
  destruct (evict_stale 12 r 5). by destruct H.
Defined.

End registry.
