(* ===== verification/Options.v ===== *)
(** * Options: published ports, environment, names and hosts

    The option parsers shared by the command line and the compose front end:
    [core/src/port.rs], [core/src/env.rs] and [core/src/dns.rs].  A value of
    [opt_err] stands for one error message of the source. *)

From Stdlib Require Import ZArith Lia Ascii.
From stdpp Require Import base gmap strings list numbers.
From S2P Require Import Prelude RustStr Text IpAddr.

Local Open Scope Z_scope.

(** ** Published ports ([core/src/port.rs]) *)

Inductive PortProtocol := Tcp.

Definition protocol_as_str (p : PortProtocol) : string := match p with Tcp => "tcp" end.

Record PortMapping := { host_port : Z; guest_port : Z; protocol : PortProtocol }.

Definition runtime_entry (p : PortMapping) : string :=
  (show_uint (host_port p) ++ ":" ++ show_uint (guest_port p))%string.

Inductive port_err :=
  | PortEmpty
  | ProtocolEmpty (input : string)
  | ProtocolUnsupported (value input : string)
  | PortTrailing (input : string)
  | PortShape (input : string)
  | PortMissing (input label : string)
  | PortRange (input label : string)
  | PortInvalid (input label value : string)
  | GuestPortZero (input : string).

Definition parse_port (input value label : string) (allow_zero : bool) : result port_err Z :=
  if is_empty value then Err (PortMissing input label)
  else if has_char "-" value then Err (PortRange input label)
  else
    port ← ok_or (PortInvalid input label value) (parse_uint 16 value);
    if (port =? 0) && negb allow_zero then Err (GuestPortZero input) else Ok port.

(** [protocol_split]: what follows the first [/], if anything. *)
Definition parse_protocol (input : string) (rest : list string) : result port_err PortProtocol :=
  match rest with
  | [] => Ok Tcp
  | value :: _ =>
      if eq_ignore_ascii_case value "tcp" then Ok Tcp
      else if is_empty value then Err (ProtocolEmpty input)
      else Err (ProtocolUnsupported value input)
  end.

Definition parse_port_mapping (text : string) : result port_err PortMapping :=
  let input := trim text in
  if is_empty input then Err PortEmpty
  else
    let pieces := split "/" input in
    let port_part := default "" (head pieces) in
    proto ← parse_protocol input (tail pieces);
    if (2 <? length pieces)%nat then Err (PortTrailing input)
    else
      match split ":" port_part with
      | [h; g] =>
          hp ← parse_port input h "host" true;
          gp ← parse_port input g "guest" false;
          Ok {| host_port := hp; guest_port := gp; protocol := proto |}
      | _ => Err (PortShape input)
      end.

Definition normalize_port_maps (entries : list string) : result port_err (list string) :=
  mapM (λ entry, runtime_entry <$> parse_port_mapping entry) entries.

(** ** Environment ([core/src/env.rs]) *)

Inductive env_err := EnvShape (var : string) | EnvFileUnreadable (path : string).

Definition parse_env_var (var : string) : result env_err (string * string) :=
  ok_or (EnvShape var) (split_once "=" var).

Definition parse_env_vars (vars : list string) : result env_err (list (string * string)) :=
  mapM parse_env_var vars.

(** [host_env] is the process environment ([std::env::var]). *)
Definition parse_runtime_env_var (host_env : string → option string) (var : string)
    : string * string :=
  match split_once "=" var with
  | Some kv => kv
  | None => (var, default "" (host_env var))
  end.

Definition parse_runtime_env_vars (host_env : string → option string) (vars : list string)
    : list (string * string) :=
  map (parse_runtime_env_var host_env) vars.

Definition parse_env_line (line : string) : option (string * string) :=
  if is_empty (trim_start line) || starts_with "#" (trim_start line) then None
  else
    let line := default line (strip_suffix cr line) in
    match split_once "=" line with
    | Some (key, value) => Some (trim key, value)
    | None => Some (trim line, "")
    end.

Definition parse_env_file_content (content : string) : list (string * string) :=
  omap parse_env_line (lines content).

(** [read] is [std::fs::read_to_string]. *)
Definition parse_env_file (read : string → option string) (path : string)
    : result env_err (list (string * string)) :=
  content ← ok_or (EnvFileUnreadable path) (read path);
  Ok (parse_env_file_content content).

(** [base.iter_mut().find(...)]: the first pair with the key changes in place,
    otherwise the pair goes to the end. *)
Fixpoint set_env (base : list (string * string)) (key value : string)
    : list (string * string) :=
  match base with
  | [] => [(key, value)]
  | (k, v) :: base' =>
      if bool_decide (k = key) then (k, value) :: base' else (k, v) :: set_env base' key value
  end.

Definition merge_env_pairs (base overrides : list (string * string)) : list (string * string) :=
  foldl (λ b kv, set_env b kv.1 kv.2) base overrides.

(** ** Names and hosts ([core/src/dns.rs]) *)

Definition DEFAULT_DNS : list string := ["8.8.8.8"; "8.8.4.4"]%string.

Record HostEntry := { he_host : string; he_ip : string }.

Definition nameserver_lines (servers : list string) : string :=
  (join newline (map (λ s, "nameserver " ++ s) servers) ++ newline)%string.

(** [resolv] is the content of the host's [/etc/resolv.conf], if readable. *)
Definition read_host_resolv_conf (resolv : option string) : option string :=
  content ← resolv;
  let nameservers := List.filter (λ line, starts_with "nameserver" (trim_start line))
                       (lines content) in
  match nameservers with
  | [] => None
  | _ => Some (join newline nameservers ++ newline)%string
  end.

Definition generate_resolv_conf (resolv : option string) (custom_dns : list string) : string :=
  match custom_dns with
  | _ :: _ => nameserver_lines custom_dns
  | [] =>
      match read_host_resolv_conf resolv with
      | Some host_resolv => host_resolv
      | None => nameserver_lines DEFAULT_DNS
      end
  end.

Definition render_resolv_conf (servers searches options : list string) : string :=
  let out := foldl (λ out server, out ++ "nameserver " ++ server ++ newline)%string
               ""%string servers in
  let out := match searches with
             | [] => out
             | _ => (out ++ "search " ++ join " " searches ++ newline)%string
             end in
  match options with
  | [] => out
  | _ => (out ++ "options " ++ join " " options ++ newline)%string
  end.

Definition generate_hosts_file_with_entries (own_ip : option string) (own_names : list string)
    (peers : list (string * string)) (extra_hosts : list HostEntry) : string :=
  let own :=
    match own_names with
    | [] => []
    | _ => [default "127.0.1.1" own_ip ++ " " ++ join " " own_names]%string
    end in
  let ls := ["127.0.0.1 localhost"%string] ++ own
              ++ map (λ p, p.1 ++ " " ++ p.2)%string peers
              ++ map (λ e, he_ip e ++ " " ++ he_host e)%string extra_hosts in
  (join newline ls ++ newline)%string.

Definition generate_hosts_file (own_ip own_name : string) (peers : list (string * string))
    : string :=
  generate_hosts_file_with_entries (Some own_ip) [own_name] peers [].

Inductive dns_err :=
  | HostnameEmpty
  | HostnameTooLong
  | HostnameSpace
  | LabelEmpty (hostname : string)
  | LabelTooLong (label : string)
  | LabelHyphen (label : string)
  | LabelChars (label : string)
  | HostShape (entry : string)
  | HostInvalid (host : string) (e : dns_err)
  | HostNoIp (entry : string)
  | HostBadIp (ip entry : string).

Definition validate_label (hostname label : string) : result dns_err () :=
  if is_empty label then Err (LabelEmpty hostname)
  else if (63 <? String.length label)%nat then Err (LabelTooLong label)
  else if starts_with "-" label || ends_with "-" label then Err (LabelHyphen label)
  else if negb (str_forallb (λ ch, is_ascii_alphanumeric ch || Ascii.eqb ch "-") label)
  then Err (LabelChars label)
  else Ok ().

Definition nul : ascii := "000"%char.

Definition validate_hostname (hostname : string) : result dns_err () :=
  if is_empty hostname then Err HostnameEmpty
  else if (253 <? String.length hostname)%nat then Err HostnameTooLong
  else if has_char nul hostname || has_ws hostname then Err HostnameSpace
  else for_each (validate_label hostname) (split "." (trim_end_matches "." hostname)).

Definition parse_add_host_entry (entry : string) : result dns_err HostEntry :=
  '(host, ip) ← ok_or (HostShape entry) (split_once ":" entry);
  _ ← map_err (HostInvalid host) (validate_hostname host);
  let ip := trim ip in
  if is_empty ip then Err (HostNoIp entry)
  else
    _ ← ok_or (HostBadIp ip entry) (parse_ip ip);
    Ok {| he_host := host; he_ip := ip |}.

Definition parse_add_host_entries (entries : list string) : result dns_err (list HostEntry) :=
  mapM parse_add_host_entry entries.

(** ** Lemmas: ports *)

Lemma parse_port_range input v l z n :
  parse_port input v l z = Ok n → in_range 16 n ∧ (z = false → n ≠ 0).
Proof.
  unfold parse_port. do 2 (case_match; [done|]). intros Hp. inv_result.
  case_match eqn:E; [done|]. inv_result. split; [by eapply parse_uint_range|].
  intros ->. rewrite andb_true_r in E. by apply Z.eqb_neq.
Qed.

Lemma parse_port_show input l z n :
  in_range 16 n → (z = false → n ≠ 0) → parse_port input (show_uint n) l z = Ok n.
Proof.
  intros Hr Hz. unfold parse_port. rewrite show_uint_nonempty.
  rewrite show_uint_no_char by (done || apply Hr). rewrite parse_show_uint by done.
  simpl. destruct z; [by rewrite andb_false_r|]. rewrite andb_true_r.
  rewrite (proj2 (Z.eqb_neq _ _)) by auto. done.
Qed.

Lemma runtime_entry_chars p c :
  0 ≤ host_port p → 0 ≤ guest_port p → is_digit c = false → c ≠ ":"%char →
  has_char c (runtime_entry p) = false.
Proof.
  intros Hh Hg Hd Hc. unfold runtime_entry. rewrite !has_char_app.
  rewrite !show_uint_no_char by done. cbn [has_char].
  by rewrite (proj2 (ascii_eqb_ne _ _)) by congruence.
Qed.

(** The canonical text of a mapping, alone or with its protocol, parses to it. *)
Lemma parse_runtime_entry p suffix :
  in_range 16 (host_port p) → in_range 16 (guest_port p) → guest_port p ≠ 0 →
  suffix ∈ [""; "/tcp"; "/TCP"]%string →
  parse_port_mapping (runtime_entry p +:+ suffix) = Ok p.
Proof.
  intros Hh Hg Hz Hs. unfold parse_port_mapping.
  assert (str_forallb visible suffix = true) as Hv
    by (by repeat (apply elem_of_cons in Hs as [->|Hs]; [done|]); apply not_elem_of_nil in Hs).
  rewrite trim_visible by (unfold runtime_entry;
    rewrite !str_forallb_app, !show_uint_visible, Hv by (apply Hh || apply Hg); done).
  destruct (is_empty (runtime_entry p +:+ suffix)) eqn:Ee.
  { unfold runtime_entry in Ee. pose proof (show_uint_nonempty (host_port p)).
    by destruct (show_uint (host_port p)). }
  set (input := runtime_entry p +:+ suffix).
  assert (split "/" input = runtime_entry p :: match suffix with "" => [] | String _ r => [r] end)
    as ->.
  { assert (has_char "/" (runtime_entry p) = false) as Hn
      by (apply runtime_entry_chars; [apply Hh | apply Hg | done | done]).
    unfold input. repeat (apply elem_of_cons in Hs as [->|Hs]).
    - rewrite str_app_nil_r. by apply split_no.
    - by rewrite split_cons.
    - by rewrite split_cons.
    - by apply not_elem_of_nil in Hs. }
  assert (parse_protocol input (tail (runtime_entry p ::
     match suffix with "" => [] | String _ r => [r] end)) = Ok Tcp) as ->
    by (by repeat (apply elem_of_cons in Hs as [->|Hs]; [reflexivity|]);
        apply not_elem_of_nil in Hs).
  assert ((2 <? length (runtime_entry p :: match suffix with "" => [] | String _ r => [r] end))%nat
          = false) as E2 by (by destruct suffix).
  cbn [mbind result_bind]. rewrite E2. cbn [default head].
  assert (split ":" (runtime_entry p) = [show_uint (host_port p); show_uint (guest_port p)]) as Es.
  { unfold runtime_entry. change (":" ++ show_uint (guest_port p))%string
      with (String ":" (show_uint (guest_port p))).
    rewrite split_cons by (apply show_uint_no_char; [done | apply Hh]).
    by rewrite split_no by (apply show_uint_no_char; [done | apply Hg]). }
  simpl. rewrite Es, !parse_port_show by done. simpl. by destruct p as [? ? []].
Qed.

Lemma parse_port_mapping_range text p :
  parse_port_mapping text = Ok p →
  in_range 16 (host_port p) ∧ in_range 16 (guest_port p) ∧ guest_port p ≠ 0.
Proof.
  unfold parse_port_mapping. case_match; [done|]. intros Hp. inv_result.
  case_match; [done|]. repeat (case_match; try done). inv_result. simpl.
  repeat match goal with H : parse_port _ _ _ _ = Ok _ |- _ => apply parse_port_range in H end.
  naive_solver.
Qed.

(** Port publishing.  An accepted mapping has a 16-bit host port and a
    guest port between 1 and 65535; its normalized text, alone or with [/tcp] in
    either case, parses to the same mapping, so normalizing is idempotent; and
    every such pair of ports is accepted. *)
Theorem port_roundtrip :
  (∀ text p, parse_port_mapping text = Ok p →
     in_range 16 (host_port p) ∧ in_range 16 (guest_port p) ∧ guest_port p ≠ 0 ∧
     ∀ suffix, suffix ∈ [""; "/tcp"; "/TCP"]%string →
       parse_port_mapping (runtime_entry p +:+ suffix) = Ok p) ∧
  (∀ entries l, normalize_port_maps entries = Ok l →
     length l = length entries ∧ normalize_port_maps l = Ok l) ∧
  (∀ h g, in_range 16 h → in_range 16 g → g ≠ 0 →
     parse_port_mapping (show_uint h +:+ ":" +:+ show_uint g) =
       Ok {| host_port := h; guest_port := g; protocol := Tcp |}).
Proof.
  split_and!.
  - intros text p (Hh & Hg & Hz)%parse_port_mapping_range. split_and!; [done..|].
    intros. by apply parse_runtime_entry.
  - intros entries l Hl. split; [by eapply mapM_Ok_length|].
    unfold normalize_port_maps in *. rewrite mapM_Ok_Forall2 in *.
    induction Hl as [|x y entries l Hxy Hl IH]; constructor; [|done].
    destruct (parse_port_mapping x) as [p|] eqn:E; [|done]. injection Hxy as <-.
    apply parse_port_mapping_range in E as (? & ? & ?).
    rewrite <-(str_app_nil_r (runtime_entry p)).
    rewrite parse_runtime_entry; [by rewrite str_app_nil_r | done..|set_solver].
  - intros h g Hh Hg Hz.
    set (p := {| host_port := h; guest_port := g; protocol := Tcp |}).
    change (parse_port_mapping (runtime_entry p) = Ok p).
    rewrite <-(str_app_nil_r (runtime_entry p)). apply parse_runtime_entry; [done..|set_solver].
Qed.

(** ** Lemmas: environment *)

Lemma set_env_map b k v :
  list_to_map (set_env b k v) = <[k := v]> (list_to_map b : gmap string string).
Proof.
  induction b as [|[k' v'] b IH]; simpl; [done|].
  case_bool_decide as E; simpl.
  - subst. by rewrite insert_insert_eq.
  - rewrite IH. by rewrite insert_insert_ne.
Qed.

Lemma set_env_keys b k v :
  map fst (set_env b k v) =
    map fst b ++ (if bool_decide (k ∈ map fst b) then [] else [k]).
Proof.
  induction b as [|[k' v'] b IH]; cbn [set_env map fst].
  - by rewrite bool_decide_false by apply not_elem_of_nil.
  - destruct (decide (k' = k)) as [->|E]; cbn [map fst app].
    + rewrite !bool_decide_true by (rewrite ?elem_of_cons; auto). by rewrite app_nil_r.
    + rewrite (bool_decide_false (k' = k)) by done. cbn [map fst]. rewrite IH. f_equal. f_equal. erewrite bool_decide_ext; [done|].
      rewrite elem_of_cons. naive_solver.
Qed.

Lemma merge_env_map base overrides :
  list_to_map (merge_env_pairs base overrides) =
    (list_to_map (rev overrides) ∪ list_to_map base : gmap string string).
Proof.
  unfold merge_env_pairs. induction overrides as [|[k v] overrides IH] using rev_ind; simpl.
  - by rewrite (left_id_L ∅ (∪)).
  - rewrite foldl_snoc, rev_app_distr. simpl. by rewrite set_env_map, IH, insert_union_l.
Qed.

Lemma merge_env_keys base overrides :
  ∃ new, map fst (merge_env_pairs base overrides) = map fst base ++ new ∧
    (∀ k, k ∈ new → k ∈ map fst overrides) ∧
    (NoDup (map fst base) → NoDup (map fst base ++ new)).
Proof.
  unfold merge_env_pairs. induction overrides as [|[k v] overrides IH] using rev_ind; simpl.
  - exists []. rewrite app_nil_r. split_and!; [done | by intros ? ?%not_elem_of_nil | done].
  - rewrite foldl_snoc. simpl. destruct IH as (new & IHk & IHn & IHd).
    rewrite set_env_keys, IHk, <-app_assoc. eexists. split_and!; [done | |].
    + intros k'. rewrite map_app, !elem_of_app. case_bool_decide; set_solver.
    + intros Hb. rewrite app_assoc. case_bool_decide; [rewrite app_nil_r; auto|].
      apply NoDup_snoc. auto.
Qed.

(** Merging environments.  As a map from keys to values the result is the
    base overridden by the overrides, the last override of a key winning; the
    keys of the base keep their order in front, new keys follow, and a base
    without duplicate keys gives a result without duplicate keys. *)
Theorem merge_env_correct base overrides :
  list_to_map (merge_env_pairs base overrides) =
    (list_to_map (rev overrides) ∪ list_to_map base : gmap string string) ∧
  (∃ new, map fst (merge_env_pairs base overrides) = map fst base ++ new ∧
     ∀ k, k ∈ new → k ∈ map fst overrides) ∧
  (NoDup (map fst base) → NoDup (map fst (merge_env_pairs base overrides))).
Proof.
  destruct (merge_env_keys base overrides) as (new & E & Hn & Hd). rewrite E.
  split_and!; [apply merge_env_map | eauto | done].
Qed.

Lemma merge_env_correct_witness :
  map fst (merge_env_pairs [("A", "1"); ("B", "2")] [("B", "3"); ("C", "4"); ("C", "5")]%string)
    = ["A"; "B"; "C"]%string ∧
  NoDup (map fst (merge_env_pairs [("A", "1"); ("B", "2")] [("B", "3"); ("C", "4"); ("C", "5")]%string)).
Proof.
  split; [reflexivity|].
  apply (merge_env_correct [("A", "1"); ("B", "2")]%string [("B", "3"); ("C", "4"); ("C", "5")]%string).
  simpl. repeat constructor; set_solver.
Defined.

(** A key an env file can carry: visible characters, not a comment, no [=]. *)
Definition env_key (k : string) : Prop :=
  str_forallb visible k = true ∧ is_empty k = false ∧
  has_char "=" k = false ∧ starts_with "#" k = false.

Lemma env_line_parse k v :
  env_key k → has_char carriage v = false → parse_env_line (k +:+ "=" +:+ v) = Some (k, v).
Proof.
  intros (Hv & Hne & Heq & Hh) Hcr. unfold parse_env_line.
  destruct k as [|a k]; [done|]. simpl in Hv. apply andb_true_iff in Hv as [Ha Hk].
  assert (trim_start (String a k +:+ "=" +:+ v) = String a k +:+ "=" +:+ v) as ->.
  { destruct (visible_not_ws a Ha) as (_ & H2 & H3).
    apply (drop_ws_head ws2 ws3); [apply H2 | apply H3 | done]. }
  replace (is_empty _ || starts_with "#" _) with false.
  2:{ symmetry. apply orb_false_iff. split; [done|].
      unfold starts_with in *. cbn [strip_prefix String.append] in *.
      by destruct (Ascii.eqb "#" a). }
  assert (str_forallb visible (String a k) = true) as Hvis by (simpl; by rewrite Ha, Hk).
  rewrite strip_suffix_cr.
  - simpl default. rewrite (proj2 (split_once_Some "=" _ (String a k) v)) by done.
    by rewrite trim_visible.
  - by rewrite !has_char_app, Hcr, (has_char_forallb carriage visible).
Qed.

(** An environment written one [KEY=VALUE] per line is read back pair by
    pair, in order: the value is everything after the first [=], blanks
    included. *)
Theorem env_file_roundtrip (env : list (string * string)) :
  env ≠ [] →
  Forall (λ kv, env_key kv.1 ∧ one_line kv.2) env →
  parse_env_file_content (join newline (map (λ kv, kv.1 +:+ "=" +:+ kv.2) env) +:+ newline) = env.
Proof.
  intros Hne Henv. unfold parse_env_file_content.
  assert (∀ kv, kv ∈ env → env_key kv.1 ∧ one_line kv.2) as Hall
    by (by apply list.Forall_forall).
  rewrite lines_join_clean; [| by destruct env |].
  - clear Hne Henv. induction env as [|[k v] env IH]; [done|].
    destruct (Hall (k, v)) as [Hk [_ Hv]]; [by left|].
    pose proof (env_line_parse k v Hk Hv) as E. simpl in *. rewrite E. f_equal. apply IH.
    intros kv Hkv. apply Hall. by right.
  - apply list.Forall_forall. intros s ([k v] & -> & Hin)%list_elem_of_fmap.
    destruct (Hall _ Hin) as [(Hk & _) [Hn Hc]]. simpl in *.
    split; rewrite !has_char_app, ?Hn, ?Hc; by rewrite (has_char_forallb _ visible).
Qed.

Lemma env_file_roundtrip_witness :
  parse_env_file_content
    (join newline (map (λ kv, kv.1 +:+ "=" +:+ kv.2) [("A", " 1=2 "); ("B", "")]%string) +:+ newline)
  = [("A", " 1=2 "); ("B", "")]%string.
Proof.
  apply (env_file_roundtrip [("A", " 1=2 "); ("B", "")]%string); [done|].
  repeat constructor; by vm_compute.
Defined.

(** ** Host entries *)

Definition host_char (c : ascii) : bool :=
  is_ascii_alphanumeric c || Ascii.eqb c "-" || Ascii.eqb c ".".

Lemma host_char_visible c : host_char c = true → visible c = true ∧ c ≠ ":"%char.
Proof.
  unfold host_char, is_ascii_alphanumeric, visible, is_digit, is_lower, is_upper.
  destruct (Ascii.eqb_spec c "-") as [->|]; [done|].
  destruct (Ascii.eqb_spec c ".") as [->|]; [done|].
  intros H. split; [lia|]. intros ->. by vm_compute in H.
Qed.

Lemma trim_end_matches_dots s :
  ∃ t, s = trim_end_matches "." s +:+ t ∧ str_forallb host_char t = true.
Proof.
  unfold trim_end_matches. generalize (String.length s) as fuel.
  intros fuel. revert s. induction fuel as [|fuel IH]; intros s; simpl.
  - exists ""%string. by rewrite str_app_nil_r.
  - destruct (strip_suffix "." s) as [s'|] eqn:E; [|exists ""%string; by rewrite str_app_nil_r].
    apply strip_suffix_Some in E as ->. destruct (IH s') as (t & E & Ht).
    exists (t +:+ "."). rewrite <-str_app_assoc, <-E. split; [done|].
    by rewrite str_forallb_app, Ht.
Qed.

Lemma str_forallb_join p sep l :
  str_forallb p sep = true → Forall (λ x, str_forallb p x = true) l →
  str_forallb p (join sep l) = true.
Proof.
  intros Hsep. induction 1 as [|x l Hx Hl IH]; [done|].
  destruct l as [|y l]; [done|].
  change (join sep (x :: y :: l)) with (x +:+ sep +:+ join sep (y :: l)).
  by rewrite !str_forallb_app, Hx, Hsep, IH.
Qed.

(** A validated hostname consists of letters, digits, hyphens and dots. *)
Lemma validate_hostname_chars h :
  validate_hostname h = Ok () → str_forallb host_char h = true ∧ is_empty h = false.
Proof.
  unfold validate_hostname. destruct (is_empty h) eqn:Ee; [done|].
  do 2 (case_match; [done|]). intros Hl. split; [|done].
  destruct (trim_end_matches_dots h) as (t & E & Ht).
  set (s := trim_end_matches "." h) in *. rewrite E, str_forallb_app, Ht, andb_true_r.
  rewrite <-(join_split "." s). apply str_forallb_join; [done|].
  apply list.Forall_forall. intros l Hin. rewrite for_each_Ok in Hl. specialize (Hl l Hin).
  unfold validate_label in Hl. repeat (case_match; [done|]).
  match goal with H : negb (str_forallb _ l) = false |- _ => rename H into Hf end.
  apply negb_false_iff in Hf.
  eapply str_forallb_impl; [|exact Hf]. intros c. unfold host_char.
  intros [->| ->]%orb_true_iff; [done|]. by rewrite orb_true_r.
Qed.

Lemma ip_char_visible c : ip_char c = true → visible c = true.
Proof.
  unfold ip_char, visible, is_digit, is_lower, is_upper.
  destruct (Ascii.eqb_spec c ".") as [->|]; [done|].
  destruct (Ascii.eqb_spec c ":") as [->|]; [done|]. lia.
Qed.

Lemma add_host_entry_visible entry e :
  parse_add_host_entry entry = Ok e →
  str_forallb visible (he_host e) = true ∧ str_forallb visible (he_ip e) = true.
Proof.
  unfold parse_add_host_entry. intros Hp. inv_result. destruct x as [host ip]. inv_result.
  case_match; [done|]. inv_result. simpl.
  match goal with H : validate_hostname host = Ok ?u |- _ =>
    destruct u; apply validate_hostname_chars in H as [Hh _] end.
  match goal with H : parse_ip _ = Some _ |- _ => apply parse_ip_chars in H as Hi end.
  split; eapply str_forallb_impl; try eassumption.
  - intros c Hc. by apply host_char_visible.
  - apply ip_char_visible.
Qed.

(** No entry of [--add-host] can smuggle lines or fields into
    [/etc/hosts].  The generated file has exactly one line for localhost, one
    for the box, one per peer and one per accepted entry, in this order, and the
    line of an entry splits into exactly its address and its host name. *)
Theorem hosts_file_exact own_ip own_names peers args entries :
  parse_add_host_entries args = Ok entries →
  one_line (default "127.0.1.1"%string own_ip) → Forall one_line own_names →
  Forall (λ p, one_line p.1 ∧ one_line p.2) peers →
  lines (generate_hosts_file_with_entries own_ip own_names peers entries) =
    ["127.0.0.1 localhost"%string] ++
    (if decide (own_names = []) then []
     else [default "127.0.1.1" own_ip +:+ " " +:+ join " " own_names]%string) ++
    map (λ p, p.1 +:+ " " +:+ p.2) peers ++
    map (λ e, he_ip e +:+ " " +:+ he_host e) entries ∧
  length entries = length args ∧
  ∀ e, e ∈ entries → split " " (he_ip e +:+ " " +:+ he_host e) = [he_ip e; he_host e].
Proof.
  intros Hargs Hip Hnames Hpeers.
  assert (∀ e, e ∈ entries →
    str_forallb visible (he_host e) = true ∧ str_forallb visible (he_ip e) = true) as Hv.
  { intros e He. destruct (mapM_Ok_elem _ _ _ _ Hargs He) as (x & _ & Hx).
    by apply (add_host_entry_visible x). }
  split_and!; [| by eapply mapM_Ok_length |].
  - unfold generate_hosts_file_with_entries.
    replace (match own_names with [] => [] | _ => _ end) with
      (if decide (own_names = []) then []
       else [default "127.0.1.1" own_ip +:+ " " +:+ join " " own_names]%string)
      by (by destruct own_names).
    apply lines_join_clean; [done|].
    repeat rewrite Forall_app. split_and!.
    + by repeat constructor.
    + destruct (decide _); constructor; [|done]. apply one_line_app; [done|].
      apply one_line_app; [done|]. by apply one_line_join.
    + apply List.Forall_map. eapply Forall_impl; [|exact Hpeers]. simpl.
      intros p [? ?].
      apply one_line_app; [done|]. by apply (one_line_app " ").
    + apply List.Forall_map, list.Forall_forall. intros e [Hh Hi]%Hv. simpl.
      apply one_line_app; [by apply visible_one_line|].
      apply (one_line_app " "); [done | by apply visible_one_line].
  - intros e [Hh Hi]%Hv. change (" " +:+ he_host e) with (String " " (he_host e)).
    rewrite (split_cons " "%char) by (by apply (has_char_forallb _ visible)).
    by rewrite (split_no " "%char) by (by apply (has_char_forallb _ visible)).
Qed.

Lemma hosts_file_exact_witness :
  ∃ entries, parse_add_host_entries ["db:10.0.0.7"; "v6.example:fe80::1"]%string = Ok entries ∧
  lines (generate_hosts_file_with_entries (Some "10.0.0.2"%string) ["web"%string]
           [("10.0.0.3", "cache")]%string entries) =
  ["127.0.0.1 localhost"; "10.0.0.2 web"; "10.0.0.3 cache"; "10.0.0.7 db"; "fe80::1 v6.example"]%string.
Proof.
  eexists. split; [reflexivity|].
  refine (proj1 (hosts_file_exact (Some "10.0.0.2"%string) ["web"%string]
    [("10.0.0.3", "cache")]%string ["db:10.0.0.7"; "v6.example:fe80::1"]%string _ eq_refl _ _ _));
    repeat constructor.
Defined.
