(* ===== verification/Config.v ===== *)
(** * Config: the configuration of a box ([core/src/config.rs])

    The configuration the front ends hand to the virtual-machine manager, with
    the defaults of every part.  Paths are strings. *)

From Stdlib Require Import ZArith Lia Floats.SpecFloat.
From stdpp Require Import base gmap strings list numbers.
From S2P Require Import Prelude RustStr RustFloat Network.

Local Open Scope Z_scope.

Inductive SevSnpGeneration := Milan | Genoa.

Definition generation_as_str (g : SevSnpGeneration) : string :=
  match g with Milan => "milan" | Genoa => "genoa" end.

Inductive TeeConfig :=
  | TeeNone
  | SevSnp (workload_id : string) (generation : SevSnpGeneration) (simulate : bool)
  | Tdx (workload_id : string) (simulate : bool).

Record CacheConfig := {
  cache_enabled : bool; cache_dir : option string; max_rootfs_entries : Z;
  max_cache_bytes : Z }.

Definition cache_default : CacheConfig :=
  {| cache_enabled := true; cache_dir := None; max_rootfs_entries := 10;
     max_cache_bytes := 10 * 1024 * 1024 * 1024 |}.

Record ScalingPolicy := {
  scaling_enabled : bool; scale_up_threshold : spec_float;
  scale_down_threshold : spec_float; max_min_idle : Z; cooldown_secs : Z;
  window_secs : Z }.

Definition scaling_default : ScalingPolicy :=
  {| scaling_enabled := false; scale_up_threshold := f64_of_decimal false 3 (-1);
     scale_down_threshold := f64_of_decimal false 5 (-2); max_min_idle := 0;
     cooldown_secs := 60; window_secs := 120 |}.

Record PoolConfig := {
  pool_enabled : bool; min_idle : Z; max_size : Z; idle_ttl_secs : Z;
  scaling : ScalingPolicy }.

Definition pool_default : PoolConfig :=
  {| pool_enabled := false; min_idle := 1; max_size := 5; idle_ttl_secs := 300;
     scaling := scaling_default |}.

Record ResourceLimits := {
  pids_limit : option Z; cpuset_cpus : option string; ulimits : list string;
  cpu_shares : option Z; cpu_quota : option Z; cpu_period : option Z;
  memory_reservation : option Z; memory_swap : option Z }.

Definition limits_default : ResourceLimits :=
  {| pids_limit := None; cpuset_cpus := None; ulimits := []; cpu_shares := None;
     cpu_quota := None; cpu_period := None; memory_reservation := None;
     memory_swap := None |}.

Record SidecarConfig := { sidecar_image : string; vsock_port : Z; sidecar_env : list (string * string) }.

Definition sidecar_default : SidecarConfig :=
  {| sidecar_image := ""; vsock_port := 4092; sidecar_env := [] |}.

Record ResourceConfig := { vcpus : Z; memory_mb : Z; disk_mb : Z; timeout : Z }.

Definition resource_default : ResourceConfig :=
  {| vcpus := 2; memory_mb := 1024; disk_mb := 4096; timeout := 3600 |}.

Inductive LogLevel := LogDebug | LogInfo | LogWarn | LogError.

Record BoxConfig := {
  image : string; workspace : string; resources : ResourceConfig; log_level : LogLevel;
  debug_grpc : bool; tee : TeeConfig; cmd : list string;
  entrypoint_override : option (list string); user : option string;
  workdir : option string; hostname : option string; volumes : list string;
  extra_env : list (string * string); cache : CacheConfig; pool : PoolConfig;
  port_map : list string; dns : list string; add_hosts : list string;
  network : NetworkMode; tmpfs : list string; resource_limits : ResourceLimits;
  cap_add : list string; cap_drop : list string; security_opt : list string;
  sysctls : list (string * string); privileged : bool; read_only : bool;
  sidecar : option SidecarConfig; persistent : bool }.

Definition box_default : BoxConfig :=
  {| image := ""; workspace := ""; resources := resource_default; log_level := LogInfo;
     debug_grpc := false; tee := TeeNone; cmd := []; entrypoint_override := None;
     user := None; workdir := None; hostname := None; volumes := []; extra_env := [];
     cache := cache_default; pool := pool_default; port_map := []; dns := [];
     add_hosts := []; network := Tsi; tmpfs := []; resource_limits := limits_default;
     cap_add := []; cap_drop := []; security_opt := []; sysctls := [];
     privileged := false; read_only := false; sidecar := None; persistent := false |}.
