(* ===== verification/Compose.v ===== *)
(** * Compose: multi-service projects

    [core/src/compose.rs] (the compose file and the dependency order of its
    services) and [runtime/src/compose.rs] (the project: validation, per-service
    box configuration, networks, health checks, start and stop order).  The
    iteration order of a [HashMap] is an instance of [HashOrder]; Unicode
    lower-casing and the file system are arguments. *)

From Stdlib Require Import ZArith Lia Ascii Floats.SpecFloat.
From stdpp Require Import base gmap strings list numbers.
From S2P Require Import Prelude RustStr RustFloat IpAddr Network Store Options Config.

Local Open Scope Z_scope.

(** ** The compose file ([core/src/compose.rs]) *)

Inductive StringOrList := SEmpty | SSingle (s : string) | SList (l : list string).

Definition string_or_list_to_vec (v : StringOrList) : list string :=
  match v with SEmpty => [] | SSingle s => split_whitespace s | SList l => l end.

Definition string_or_list_is_empty (v : StringOrList) : bool :=
  match v with
  | SEmpty => true
  | SSingle s => is_empty s
  | SList l => match l with [] => true | _ => false end
  end.

Inductive EnvVars := EnvEmpty | EnvMap (m : gmap string string) | EnvList (l : list string).
Record DependsOnCondition := { condition : string }.
Inductive DependsOn :=
  | DepEmpty | DepList (l : list string) | DepMap (m : gmap string DependsOnCondition).
Record ServiceNetworkConfig := { sn_aliases : list string }.
Inductive ServiceNetworks :=
  | NetEmpty | NetList (l : list string)
  | NetMap (m : gmap string (option ServiceNetworkConfig)).
Inductive Labels := LabEmpty | LabMap (m : gmap string string) | LabList (l : list string).
Inductive DnsConfig := DnsEmpty | DnsSingle (s : string) | DnsList (l : list string).

Definition default_condition : string := "service_started".

Section iteration.
Context `{HashOrder}.

Definition to_pairs (e : EnvVars) : list (string * string) :=
  match e with
  | EnvEmpty => []
  | EnvMap m => hash_iter m
  | EnvList l => omap (split_once "=") l
  end.

Definition depends_on_services (d : DependsOn) : list string :=
  match d with DepEmpty => [] | DepList l => l | DepMap m => hash_keys m end.

Definition network_names (n : ServiceNetworks) : list string :=
  match n with NetEmpty => [] | NetList l => l | NetMap m => hash_keys m end.

End iteration.

Definition labels_to_map (l : Labels) : gmap string string :=
  match l with
  | LabEmpty => ∅
  | LabMap m => m
  | LabList l =>
      foldl (λ m entry, let '(k, v) := default (entry, ""%string) (split_once "=" entry) in
                        <[k := v]> m) ∅ l
  end.

Definition dns_to_vec (d : DnsConfig) : list string :=
  match d with DnsEmpty => [] | DnsSingle s => [s] | DnsList l => l end.

Record HealthcheckConfig := {
  hc_test : StringOrList; hc_disable : bool; hc_interval : option string;
  hc_timeout : option string; hc_retries : option Z; hc_start_period : option string }.

Record ServiceConfig := {
  s_image : option string; s_entrypoint : option StringOrList;
  s_command : option StringOrList; s_environment : EnvVars; s_env_file : StringOrList;
  s_ports : list string; s_volumes : list string; s_depends_on : DependsOn;
  s_networks : ServiceNetworks; s_cpus : option Z; s_mem_limit : option string;
  s_restart : option string; s_dns : DnsConfig; s_tmpfs : StringOrList;
  s_cap_add : list string; s_cap_drop : list string; s_privileged : bool;
  s_labels : Labels; s_healthcheck : option HealthcheckConfig;
  s_working_dir : option string; s_hostname : option string; s_extra_hosts : StringOrList }.

Definition service_default : ServiceConfig :=
  {| s_image := None; s_entrypoint := None; s_command := None; s_environment := EnvEmpty;
     s_env_file := SEmpty; s_ports := []; s_volumes := []; s_depends_on := DepEmpty;
     s_networks := NetEmpty; s_cpus := None; s_mem_limit := None; s_restart := None;
     s_dns := DnsEmpty; s_tmpfs := SEmpty; s_cap_add := []; s_cap_drop := [];
     s_privileged := false; s_labels := LabEmpty; s_healthcheck := None;
     s_working_dir := None; s_hostname := None; s_extra_hosts := SEmpty |}.

Record ComposeConfig := {
  c_version : option string; c_services : gmap string ServiceConfig;
  c_volumes : gmap string (option (option string));
  c_networks : gmap string (option (option string)) }.

(** ** Dependency order *)

Inductive order_err :=
  | DependencyCycle (name : string)
  | UndefinedDependency (name dep : string).

(** 1 = in progress, 2 = done *)
Abbreviation visit_state := (gmap string Z).

Section order.
Context `{HashOrder} (c : ComposeConfig).

(** The dependencies of a service, in iteration order. *)
Definition deps_of (name : string) : list string :=
  match c_services c !! name with
  | Some svc => depends_on_services (s_depends_on svc)
  | None => []
  end.

(** The loop over the dependencies in [topo_visit], [visit] being the recursive call. *)
Fixpoint visit_deps
    (visit : string → visit_state → list string → option (result order_err (visit_state * list string)))
    (name : string) (deps : list string) (state : visit_state) (order : list string)
    : option (result order_err (visit_state * list string)) :=
  match deps with
  | [] => Some (Ok (state, order))
  | dep :: deps =>
      match c_services c !! dep with
      | None => Some (Err (UndefinedDependency name dep))
      | Some _ =>
          match visit dep state order with
          | Some (Ok (state, order)) => visit_deps visit name deps state order
          | r => r
          end
      end
  end.

(** [topo_visit]; [None] is a call that ran out of fuel.  A call goes deeper only
    after marking a service that was unmarked, so that one more than the number
    of services is enough: [topo_visit_spec]. *)
Fixpoint topo_visit (fuel : nat) (name : string) (state : visit_state) (order : list string)
    : option (result order_err (visit_state * list string)) :=
  match fuel with
  | O => None
  | S fuel =>
      match state !! name with
      | Some 1 => Some (Err (DependencyCycle name))
      | Some 2 => Some (Ok (state, order))
      | _ =>
          match visit_deps (topo_visit fuel) name (deps_of name) (<[name := 1]> state) order with
          | Some (Ok (state, order)) => Some (Ok (<[name := 2]> state, order ++ [name]))
          | r => r
          end
      end
  end.

Definition topo_fuel : nat := S (size (c_services c)).

Fixpoint order_loop (names : list string) (state : visit_state) (order : list string)
    : option (result order_err (list string)) :=
  match names with
  | [] => Some (Ok order)
  | name :: names =>
      match state !! name with
      | Some _ => order_loop names state order
      | None =>
          match topo_visit topo_fuel name state order with
          | Some (Ok (state, order)) => order_loop names state order
          | Some (Err e) => Some (Err e)
          | None => None
          end
      end
  end.

Definition service_order : option (result order_err (list string)) :=
  order_loop (hash_keys (c_services c)) ∅ [].

End order.

(** ** Correctness of the order *)
Section order_correct.
Context `{HashOrder} (c : ComposeConfig).

Definition depends (x y : string) : Prop := y ∈ deps_of c x.
Definition defined (x : string) : Prop := is_Some (c_services c !! x).

(** Every service stands after its dependencies. *)
Definition ordered (order : list string) : Prop :=
  ∀ l1 x l2, order = l1 ++ x :: l2 → ∀ d, depends x d → d ∈ l1.

(** What an error of the search means. *)
Definition genuine (e : order_err) : Prop :=
  match e with
  | DependencyCycle x => defined x ∧ tc depends x x
  | UndefinedDependency x d => defined x ∧ depends x d ∧ ¬ defined d
  end.

(** The marks: [path] is the stack of services in progress. *)
Record topo_inv (path : list string) (state : visit_state) (order : list string) : Prop := {
  ti_grey : ∀ x, state !! x = Some 1 ↔ x ∈ path;
  ti_black : ∀ x, state !! x = Some 2 ↔ x ∈ order;
  ti_marks : ∀ x v, state !! x = Some v → v = 1 ∨ v = 2;
  ti_path : NoDup path;
  ti_order : NoDup order;
  ti_defined : ∀ x, x ∈ path ∨ x ∈ order → defined x;
  ti_sorted : ordered order }.

Lemma topo_inv_start : topo_inv [] ∅ [].
Proof.
  constructor; [| | | constructor | constructor | |].
  - intros x. rewrite lookup_empty. split; [done | by intros ?%not_elem_of_nil].
  - intros x. rewrite lookup_empty. split; [done | by intros ?%not_elem_of_nil].
  - intros x v. by rewrite lookup_empty.
  - by intros x [?%not_elem_of_nil|?%not_elem_of_nil].
  - by intros [] x l2.
Qed.

Lemma topo_inv_enter path state order x :
  topo_inv path state order → state !! x = None → defined x →
  topo_inv (x :: path) (<[x := 1]> state) order.
Proof.
  intros [Hg Hb Hm Hp Ho Hd Hs] Hx Hdx.
  assert (x ∉ path) as Hxp by (intros Hin%Hg; congruence).
  assert (x ∉ order) as Hxo by (intros Hin%Hb; congruence).
  constructor; [| | | by constructor | done | | done].
  - intros y. rewrite elem_of_cons. destruct (decide (y = x)) as [->|].
    + rewrite lookup_insert_eq. naive_solver.
    + rewrite lookup_insert_ne by done. rewrite Hg. naive_solver.
  - intros y. destruct (decide (y = x)) as [->|].
    + rewrite lookup_insert_eq. naive_solver.
    + by rewrite lookup_insert_ne.
  - intros y v. destruct (decide (y = x)) as [->|].
    + rewrite lookup_insert_eq. naive_solver.
    + rewrite lookup_insert_ne by done. apply Hm.
  - intros y [[->|?]%elem_of_cons|?]; auto.
Qed.

Lemma topo_inv_leave path state order x :
  topo_inv (x :: path) state order → (∀ d, depends x d → d ∈ order) →
  topo_inv path (<[x := 2]> state) (order ++ [x]).
Proof.
  intros [Hg Hb Hm Hp Ho Hd Hs] Hdeps.
  apply list.NoDup_cons in Hp as [Hxp Hp].
  assert (x ∉ order) as Hxo.
  { intros Hin%Hb. assert (state !! x = Some 1) by (apply Hg; by left). congruence. }
  constructor; [| | | done | by apply NoDup_snoc | |].
  - intros y. destruct (decide (y = x)) as [->|].
    + rewrite lookup_insert_eq. naive_solver.
    + rewrite lookup_insert_ne by done. rewrite Hg, elem_of_cons. naive_solver.
  - intros y. rewrite elem_of_snoc. destruct (decide (y = x)) as [->|].
    + rewrite lookup_insert_eq. naive_solver.
    + rewrite lookup_insert_ne by done. rewrite Hb. naive_solver.
  - intros y v. destruct (decide (y = x)) as [->|].
    + rewrite lookup_insert_eq. naive_solver.
    + rewrite lookup_insert_ne by done. apply Hm.
  - intros y [Hy|[Hy| ->]%elem_of_snoc]; apply Hd; rewrite elem_of_cons; auto.
  - intros l1 y l2 E d Hyd.
    destruct l2 as [|z l2 _] using rev_ind.
    + apply app_inj_tail in E as [<- <-]. by apply Hdeps.
    + rewrite app_comm_cons, app_assoc in E. apply app_inj_tail in E as [-> _].
      by eapply Hs.
Qed.

(** What one visit promises. *)
Definition visit_post (path : list string) (name : string) (order : list string)
    (r : option (result order_err (visit_state * list string))) : Prop :=
  match r with
  | None => False
  | Some (Err e) => genuine e
  | Some (Ok (state', order')) =>
      topo_inv path state' order' ∧ name ∈ order' ∧ ∃ new, order' = order ++ new
  end.

Lemma visit_deps_spec visit path name deps state order :
  (∀ dep state order, defined dep → depends name dep → topo_inv path state order →
     visit_post path dep order (visit dep state order)) →
  defined name → (∀ d, d ∈ deps → depends name d) → topo_inv path state order →
  match visit_deps c visit name deps state order with
  | None => False
  | Some (Err e) => genuine e
  | Some (Ok (state', order')) =>
      topo_inv path state' order' ∧ (∀ d, d ∈ deps → d ∈ order') ∧ ∃ new, order' = order ++ new
  end.
Proof.
  intros Hv Hn. revert state order. induction deps as [|dep deps IH]; intros state order Hd Hi; simpl.
  - split_and!; [done | by intros ? ?%not_elem_of_nil | exists []; by rewrite app_nil_r].
  - assert (depends name dep) as Hdep by (apply Hd; by left).
    destruct (c_services c !! dep) as [svc|] eqn:E.
    2:{ split_and!; [done | done |]. unfold defined. rewrite E. by intros [? ?]. }
    specialize (Hv dep state order). specialize (Hv ltac:(by exists svc) Hdep Hi).
    destruct (visit dep state order) as [[[st' ord']|e]|]; [|done|done].
    destruct Hv as (Hi' & Hin & new & ->).
    specialize (IH st' (order ++ new) ltac:(intros; apply Hd; by right) Hi').
    destruct (visit_deps c visit name deps st' (order ++ new)) as [[[st'' ord'']|e]|]; [|done|done].
    destruct IH as (Hi'' & Hall & new' & ->). split_and!; [done | |].
    + intros d [->|?]%elem_of_cons; [|auto]. apply elem_of_app. by left.
    + exists (new ++ new'). by rewrite app_assoc.
Qed.

Lemma path_bound path : NoDup path → (∀ x, x ∈ path → defined x) →
  (length path ≤ size (c_services c))%nat.
Proof.
  intros Hnd Hd. rewrite <-length_hash_keys. apply submseteq_length, NoDup_submseteq; [done|].
  intros x Hx. apply elem_of_hash_keys. by apply Hd.
Qed.

(** A visit with enough fuel returns, keeps the invariant and finishes [name],
    and reports only genuine errors. *)
Lemma topo_visit_spec fuel path name state order :
  (size (c_services c) < length path + fuel)%nat → defined name →
  (∀ p, p ∈ path → tc depends p name) → topo_inv path state order →
  visit_post path name order (topo_visit c fuel name state order).
Proof.
  revert path name state order. induction fuel as [|fuel IH]; intros path name state order Hf Hn Hp Hi.
  { pose proof (path_bound path (ti_path _ _ _ Hi)) as Hb.
    specialize (Hb (λ x Hx, ti_defined _ _ _ Hi x (or_introl Hx))). lia. }
  cbn [topo_visit].
  destruct (state !! name) as [v|] eqn:Ev.
  - destruct (ti_marks _ _ _ Hi _ _ Ev) as [->| ->]; simpl.
    + split; [done|]. apply Hp. by apply (ti_grey _ _ _ Hi).
    + split_and!; [done | by apply (ti_black _ _ _ Hi) | exists []; by rewrite app_nil_r].
  - pose proof (topo_inv_enter _ _ _ _ Hi Ev Hn) as Hi1.
    pose proof (visit_deps_spec (topo_visit c fuel) (name :: path) name (deps_of c name)
      (<[name := 1]> state) order) as Hd.
    specialize (Hd ltac:(intros dep st ord Hdd Hdep Hinv; apply IH;
      [simpl; lia | done
       | intros p [->|Hpp]%elem_of_cons; [by apply tc_once | eapply tc_r; [by apply Hp | done]]
       | done]) Hn (λ d Hdd, Hdd) Hi1).
    destruct (visit_deps c _ name _ _ _) as [[[st' ord']|e]|]; [|done|done].
    destruct Hd as (Hi' & Hall & new & ->). simpl. split_and!.
    + by apply topo_inv_leave.
    + apply elem_of_app. right. by left.
    + exists (new ++ [name]). by rewrite app_assoc.
Qed.

Lemma order_loop_spec names state order :
  (∀ x, x ∈ names → defined x) → topo_inv [] state order →
  match order_loop c names state order with
  | None => False
  | Some (Err e) => genuine e
  | Some (Ok order') =>
      (∃ state', topo_inv [] state' order') ∧ (∀ x, x ∈ order ∨ x ∈ names → x ∈ order')
  end.
Proof.
  revert state order. induction names as [|x names IH]; intros state order Hd Hi; cbn [order_loop].
  - split; [eauto|]. intros x [?|?%not_elem_of_nil]; done.
  - assert (∀ y, y ∈ names → defined y) as Hd' by (intros; apply Hd; by right).
    destruct (state !! x) as [v|] eqn:E.
    + assert (x ∈ order) as Hx.
      { destruct (ti_marks _ _ _ Hi _ _ E) as [->| ->].
        - apply (ti_grey _ _ _ Hi) in E. by apply not_elem_of_nil in E.
        - by apply (ti_black _ _ _ Hi). }
      specialize (IH state order Hd' Hi). repeat (case_match; try done).
      destruct IH as [? Hin]. split; [done|]. intros y [?|[->|?]%elem_of_cons]; auto.
    + pose proof (topo_visit_spec (topo_fuel c) [] x state order) as Hv.
      specialize (Hv ltac:(unfold topo_fuel; simpl; lia) ltac:(apply Hd; by left)
        ltac:(by intros ? ?%not_elem_of_nil) Hi).
      destruct (topo_visit c (topo_fuel c) x state order) as [[[st' ord']|e]|]; [|done|done].
      destruct Hv as (Hi' & Hx & new & ->). specialize (IH st' (order ++ new) Hd' Hi').
      repeat (case_match; try done). destruct IH as [? Hin]. split; [done|].
      intros y [?|[->|?]%elem_of_cons]; apply Hin; rewrite elem_of_app in *; auto.
Qed.

(** In a sorted order every dependency chain goes backwards, so there is no cycle. *)
Lemma ordered_acyclic order x :
  ordered order → NoDup order → x ∈ order → ¬ tc depends x x.
Proof.
  intros Ho Hnd Hx Hc.
  assert (∀ a b, tc depends a b → ∀ l1 l2, order = l1 ++ a :: l2 → b ∈ l1) as Hback.
  { intros a b Hab. induction Hab as [a b Hab|a b d Hab _ IH]; intros l1 l2 E; [by eapply Ho|].
    pose proof (Ho _ _ _ E _ Hab) as (k1 & k2 & ->)%list_elem_of_split.
    specialize (IH k1 (k2 ++ a :: l2)). rewrite <-app_assoc in E. simpl in E.
    rewrite elem_of_app. left. by apply IH. }
  apply list_elem_of_split in Hx as (l1 & l2 & E).
  pose proof (Hback _ _ Hc _ _ E) as Hin. rewrite E in Hnd.
  apply list.NoDup_app in Hnd as (_ & Hd & _). apply (Hd x Hin). by left.
Qed.

End order_correct.

(** C37: the boot order of a compose project.  For every iteration order of the
    hash maps the search terminates; when it succeeds it lists every service
    exactly once, each after all the services it depends on; it fails exactly
    when some dependency is undefined or the dependencies have a cycle, and the
    error names an undefined dependency of a service or a service on a cycle. *)
Theorem service_order_correct `{HashOrder} (c : ComposeConfig) :
  ∃ r, service_order c = Some r ∧
  match r with
  | Ok order => order ≡ₚ hash_keys (c_services c) ∧ ordered c order
  | Err e => genuine c e
  end ∧
  ((∃ order, r = Ok order) ↔
     (∀ x d, defined c x → depends c x d → defined c d) ∧
     (∀ x, defined c x → ¬ tc (depends c) x x)).
Proof.
  pose proof (order_loop_spec c (hash_keys (c_services c)) ∅ []) as Hs.
  specialize (Hs (λ x, proj1 (elem_of_hash_keys _ x)) (topo_inv_start c)).
  unfold service_order.
  destruct (order_loop c (hash_keys (c_services c)) ∅ []) as [[order|e]|]; [| |done].
  - destruct Hs as [[st Hi] Hin]. eexists; split; [done|].
    assert (∀ x, defined c x ↔ x ∈ order) as Hdef.
    { intros x. split; [intros; apply Hin; right; by apply elem_of_hash_keys|].
      intros. apply (ti_defined _ _ _ _ Hi). by right. }
    split; [split|].
    + apply NoDup_Permutation; [apply (ti_order _ _ _ _ Hi) | apply NoDup_hash_keys |].
      intros x. rewrite elem_of_hash_keys. symmetry. apply Hdef.
    + apply (ti_sorted _ _ _ _ Hi).
    + split; [|eauto]. intros _. split.
      * intros x d (l1 & l2 & E)%Hdef%list_elem_of_split Hd. apply Hdef. rewrite E.
        apply elem_of_app. left. by apply (ti_sorted _ _ _ _ Hi _ _ _ E).
      * intros x Hx%Hdef. apply (ordered_acyclic c order); [apply (ti_sorted _ _ _ _ Hi) |
          apply (ti_order _ _ _ _ Hi) | done].
  - eexists; split; [done|]. split; [done|]. split; [by intros [? ?]|].
    intros [Hu Hc]. destruct e as [x|x d]; simpl in Hs.
    + destruct Hs as [Hx Hcyc]. by destruct (Hc x).
    + destruct Hs as (Hx & Hd & Hn). destruct Hn. by apply (Hu x).
Qed.

(** ** Projects ([runtime/src/compose.rs]) *)

Inductive ProjectState := Running | Partial | ProjStopped.

Record ComposeProject := {
  p_name : string; p_config : ComposeConfig; p_service_order : list string;
  p_service_boxes : gmap string string; p_networks : list string; p_base_dir : string }.

Inductive compose_err :=
  | NoImageSpecified (svc : string)
  | InvalidPorts (svc : string) (e : port_err)
  | UnsupportedCondition (svc dep condition : string)
  | InvalidConfig (e : order_err)
  | ServiceNotFound (svc : string)
  | NoImage (svc : string)
  | InvalidMemory (text : string)
  | InvalidEnvFile (path : string) (e : env_err)
  | InvalidHostname (e : dns_err)
  | InvalidExtraHost (e : dns_err).

Record HealthCheckSpec := {
  hs_cmd : list string; hs_interval_secs : Z; hs_timeout_secs : Z; hs_retries : Z;
  hs_start_period_secs : Z }.

Definition resolve_compose_path (base_dir path : string) : string :=
  if starts_with "/" path then path else path_join base_dir path.

(** [std::env] and the file system: [read] is [fs::read_to_string];
    [to_lowercase] is Unicode lower-casing. *)
Section project.
Context `{HashOrder} (to_lowercase : string → string) (read : string → option string).

Definition supported_condition (s : string) : bool :=
  bool_decide (s ∈ ["service_started"; "service_healthy"; "service_completed_successfully"]%string).

Definition validate_depends_on_conditions (svc : string) (d : DependsOn) : result compose_err () :=
  match d with
  | DepMap m =>
      for_each (λ kv, if supported_condition (condition kv.2) then Ok ()
                      else Err (UnsupportedCondition svc kv.1 (condition kv.2))) (hash_iter m)
  | _ => Ok ()
  end.

(** The body of the validation loop of [with_base_dir]. *)
Definition validate_service (kv : string * ServiceConfig) : result compose_err () :=
  let '(svc_name, svc) := kv in
  match s_image svc with
  | None => Err (NoImageSpecified svc_name)
  | Some _ =>
      _ ← map_err (InvalidPorts svc_name) (normalize_port_maps (s_ports svc));
      validate_depends_on_conditions svc_name (s_depends_on svc)
  end.

Definition with_base_dir (name : string) (config : ComposeConfig) (base_dir : string)
    : option (result compose_err ComposeProject) :=
  match for_each validate_service (hash_iter (c_services config)) with
  | Err e => Some (Err e)
  | Ok _ =>
      order ← service_order config;
      Some (order ← map_err InvalidConfig order;
            Ok {| p_name := name; p_config := config; p_service_order := order;
                  p_service_boxes := ∅; p_networks := []; p_base_dir := base_dir |})
  end.

Definition project_state (p : ComposeProject) : ProjectState :=
  if (size (p_service_boxes p) =? 0)%nat then ProjStopped
  else if (size (p_service_boxes p) =? size (c_services (p_config p)))%nat then Running
  else Partial.

(** [parse_compose_memory], in MB *)
Definition parse_compose_memory (text : string) : result compose_err Z :=
  let s := to_lowercase (trim text) in
  let float (num_str : string) (multiplier : Z) :=
    num ← ok_or (InvalidMemory s) (parse_f64 num_str);
    Ok (f64_as_uint 32 (f64_mul num (int_as_f64 multiplier))) in
  if ends_with "gb" s || ends_with "g" s then
    float (trim_end_matches "g" (trim_end_matches "gb" s)) 1024
  else if ends_with "mb" s || ends_with "m" s then
    float (trim_end_matches "m" (trim_end_matches "mb" s)) 1
  else if ends_with "kb" s || ends_with "k" s then
    v ← ok_or (InvalidMemory s)
          (parse_uint 64 (trim_end_matches "k" (trim_end_matches "kb" s)));
    Ok (wrap 32 (div_ceil v 1024))
  else
    v ← ok_or (InvalidMemory s) (parse_uint 64 s);
    Ok (wrap 32 (div_ceil v (1024 * 1024))).

Definition service_env (p : ComposeProject) (svc : ServiceConfig)
    : result compose_err (list (string * string)) :=
  env ← foldl (λ acc env_file,
          env ← acc;
          let path := resolve_compose_path (p_base_dir p) env_file in
          entries ← map_err (InvalidEnvFile path) (parse_env_file read path);
          Ok (merge_env_pairs env entries))
        (Ok []) (string_or_list_to_vec (s_env_file svc));
  Ok (merge_env_pairs env (to_pairs (s_environment svc))).

Definition prefixed (p : ComposeProject) (net : string) : string :=
  (p_name p ++ "_" ++ net)%string.

Definition network_mode (p : ComposeProject) (svc : ServiceConfig)
    (default_network : option string) : NetworkMode :=
  match network_names (s_networks svc) with
  | net :: _ => Bridge (prefixed p net)
  | [] => match default_network with Some n => Bridge n | None => Tsi end
  end.

Definition build_box_config (p : ComposeProject) (service_name : string)
    (default_network : option string) : result compose_err BoxConfig :=
  svc ← ok_or (ServiceNotFound service_name) (c_services (p_config p) !! service_name);
  img ← ok_or (NoImage service_name) (s_image svc);
  mem ← match s_mem_limit svc with
        | Some mem_str => parse_compose_memory mem_str
        | None => Ok 512
        end;
  env ← service_env p svc;
  let mode := network_mode p svc default_network in
  let command := default [] (string_or_list_to_vec <$> s_command svc) in
  let entry := match string_or_list_to_vec <$> s_entrypoint svc with
               | Some [] | None => None
               | Some v => Some v
               end in
  _ ← match s_hostname svc with
      | Some h => map_err InvalidHostname (validate_hostname h)
      | None => Ok ()
      end;
  let hosts := string_or_list_to_vec (s_extra_hosts svc) in
  _ ← map_err InvalidExtraHost (parse_add_host_entries hosts);
  ports ← map_err (InvalidPorts service_name) (normalize_port_maps (s_ports svc));
  Ok {| image := img; workspace := workspace box_default;
        resources := {| vcpus := default 2 (s_cpus svc); memory_mb := mem;
                        disk_mb := disk_mb resource_default;
                        timeout := timeout resource_default |};
        log_level := log_level box_default; debug_grpc := debug_grpc box_default;
        tee := tee box_default; cmd := command; entrypoint_override := entry;
        user := user box_default; workdir := s_working_dir svc; hostname := s_hostname svc;
        volumes := s_volumes svc; extra_env := env; cache := cache box_default;
        pool := pool box_default; port_map := ports; dns := dns_to_vec (s_dns svc);
        add_hosts := hosts; network := mode; tmpfs := string_or_list_to_vec (s_tmpfs svc);
        resource_limits := resource_limits box_default; cap_add := s_cap_add svc;
        cap_drop := s_cap_drop svc; security_opt := security_opt box_default;
        sysctls := sysctls box_default; privileged := s_privileged svc;
        read_only := read_only box_default; sidecar := sidecar box_default;
        persistent := persistent box_default |}.

Definition default_network_name (p : ComposeProject) : string :=
  (p_name p ++ "_default")%string.

(** [if !nets.contains(&x) { nets.push(x) }] *)
Definition push_new (nets : list string) (x : string) : list string :=
  if bool_decide (x ∈ nets) then nets else nets ++ [x].

Definition required_networks (p : ComposeProject) : list string :=
  let nets := [default_network_name p] in
  let nets := foldl (λ nets n, push_new nets (prefixed p n)) nets
                (hash_keys (c_networks (p_config p))) in
  foldl (λ nets kv,
    foldl (λ nets n, push_new nets (prefixed p n)) nets (network_names (s_networks kv.2)))
    nets (hash_iter (c_services (p_config p))).

Definition set_boxes (p : ComposeProject) (b : gmap string string) : ComposeProject :=
  {| p_name := p_name p; p_config := p_config p; p_service_order := p_service_order p;
     p_service_boxes := b; p_networks := p_networks p; p_base_dir := p_base_dir p |}.

Definition register_service (p : ComposeProject) (name box_id : string) : ComposeProject :=
  set_boxes p (<[name := box_id]> (p_service_boxes p)).

Definition unregister_service (p : ComposeProject) (name : string) : ComposeProject :=
  set_boxes p (delete name (p_service_boxes p)).

Definition box_id (p : ComposeProject) (name : string) : option string :=
  p_service_boxes p !! name.

Definition shutdown_order (p : ComposeProject) : list string := rev (p_service_order p).

Definition deps_with (cond : string) (p : ComposeProject) (name : string) : list string :=
  match c_services (p_config p) !! name with
  | None => []
  | Some svc =>
      match s_depends_on svc with
      | DepMap m =>
          map fst (List.filter (λ kv, bool_decide (condition kv.2 = cond)) (hash_iter m))
      | _ => []
      end
  end.

Definition health_wait_deps : ComposeProject → string → list string :=
  deps_with "service_healthy".
Definition completed_wait_deps : ComposeProject → string → list string :=
  deps_with "service_completed_successfully".

Definition parse_duration_secs (text : string) : option Z :=
  let s := to_lowercase (trim text) in
  if ends_with "ms" s then
    n ← parse_uint 64 (trim_end_matches "ms" s); Some (div_ceil n 1000)
  else if ends_with "s" s then parse_uint 64 (trim_end_matches "s" s)
  else if ends_with "m" s then
    n ← parse_uint 64 (trim_end_matches "m" s); Some (wrap 64 (n * 60))
  else if ends_with "h" s then
    n ← parse_uint 64 (trim_end_matches "h" s); Some (wrap 64 (n * 3600))
  else parse_uint 64 s.

Definition healthcheck_command (test : StringOrList) : option (list string) :=
  match test with
  | SEmpty => None
  | SSingle command =>
      let command := trim command in
      if is_empty command || eq_ignore_ascii_case command "NONE" then None
      else Some ["sh"; "-c"; command]%string
  | SList items =>
      match items with
      | [] => None
      | marker :: rest =>
          if eq_ignore_ascii_case marker "NONE" then None
          else if eq_ignore_ascii_case marker "CMD" then
            match rest with [] => None | _ => Some rest end
          else if eq_ignore_ascii_case marker "CMD-SHELL" then
            let shell_cmd := join " " rest in
            if is_empty shell_cmd then None else Some ["sh"; "-c"; shell_cmd]%string
          else Some items
      end
  end.

Definition duration_or (d : Z) (o : option string) : Z :=
  default d (o ≫= parse_duration_secs).

Definition healthcheck (p : ComposeProject) (name : string) : option HealthCheckSpec :=
  svc ← c_services (p_config p) !! name;
  hc ← s_healthcheck svc;
  if hc_disable hc then None
  else
    cmd ← healthcheck_command (hc_test hc);
    Some {| hs_cmd := cmd; hs_interval_secs := duration_or 30 (hc_interval hc);
            hs_timeout_secs := duration_or 30 (hc_timeout hc);
            hs_retries := default 3 (hc_retries hc);
            hs_start_period_secs := duration_or 0 (hc_start_period hc) |}.

Definition healthcheck_disabled (p : ComposeProject) (name : string) : bool :=
  match svc ← c_services (p_config p) !! name; s_healthcheck svc with
  | None => false
  | Some hc =>
      hc_disable hc
      || match hc_test hc with
         | SList (value :: _) => eq_ignore_ascii_case value "NONE"
         | SSingle value => eq_ignore_ascii_case (trim value) "NONE"
         | _ => false
         end
  end.

End project.

(** ** Projects: theorems *)
Section project_correct.
Context `{HashOrder}.

Lemma with_base_dir_Ok name config base_dir p :
  with_base_dir name config base_dir = Some (Ok p) →
  p_name p = name ∧ p_config p = config ∧ p_service_boxes p = ∅ ∧ p_base_dir p = base_dir ∧
  service_order config = Some (Ok (p_service_order p)) ∧
  for_each validate_service (hash_iter (c_services config)) = Ok ().
Proof.
  unfold with_base_dir. destruct (for_each _ _) as [[]|e] eqn:E; [|done].
  destruct (service_order config) as [[order|e]|]; simpl; [|done|done].
  intros [= <-]. done.
Qed.

Lemma service_order_Ok config order :
  service_order config = Some (Ok order) →
  order ≡ₚ hash_keys (c_services config) ∧ ordered config order.
Proof.
  intros E. pose proof (order_loop_spec config (hash_keys (c_services config)) ∅ []) as Hs.
  specialize (Hs (λ x, proj1 (elem_of_hash_keys _ x)) (topo_inv_start config)).
  unfold service_order in E. rewrite E in Hs. destruct Hs as [[st Hi] Hin].
  split; [|apply (ti_sorted _ _ _ _ Hi)].
  apply NoDup_Permutation; [apply (ti_order _ _ _ _ Hi) | apply NoDup_hash_keys |].
  intros x. rewrite elem_of_hash_keys. split.
  - intros. apply (ti_defined _ _ _ _ Hi). by right.
  - intros. apply Hin. right. by apply elem_of_hash_keys.
Qed.

Lemma deps_with_depends cond p name d :
  d ∈ deps_with cond p name → depends (p_config p) name d.
Proof.
  unfold deps_with, depends, deps_of. destruct (c_services (p_config p) !! name) as [svc|];
    [|by intros ?%not_elem_of_nil].
  destruct (s_depends_on svc) as [| |m]; [by intros ?%not_elem_of_nil..|].
  intros ([k v] & -> & [Hin _]%elem_of_filter_b)%list_elem_of_fmap. simpl.
  apply elem_of_hash_keys. exists v. by apply elem_of_hash_iter.
Qed.

(** Starting and stopping a project.  Creating a project always returns;
    when it succeeds, every service has an image, valid ports and supported
    dependency conditions, the boot order lists every service once, all that a
    service waits for (to be healthy or to complete) boots before it, and the
    shutdown order stops every service before anything it depends on. *)
Theorem project_orders name config base_dir :
  ∃ r, with_base_dir name config base_dir = Some r ∧
  ∀ p, r = Ok p →
  p_service_order p ≡ₚ hash_keys (c_services config) ∧
  shutdown_order p ≡ₚ hash_keys (c_services config) ∧
  (∀ x svc, c_services config !! x = Some svc →
     s_image svc ≠ None ∧ (∃ ports, normalize_port_maps (s_ports svc) = Ok ports) ∧
     match s_depends_on svc with
     | DepMap m => ∀ d v, m !! d = Some v → supported_condition (condition v) = true
     | _ => True
     end) ∧
  (∀ l1 x l2, p_service_order p = l1 ++ x :: l2 →
     ∀ d, d ∈ health_wait_deps p x ∨ d ∈ completed_wait_deps p x → d ∈ l1) ∧
  (∀ l1 x l2, shutdown_order p = l1 ++ x :: l2 →
     ∀ d, depends config x d → d ∈ l2).
Proof.
  assert (∃ r, with_base_dir name config base_dir = Some r) as [r Hr].
  { unfold with_base_dir. destruct (for_each _ _); [|eauto].
    pose proof (order_loop_spec config (hash_keys (c_services config)) ∅ []) as Hs.
    specialize (Hs (λ x, proj1 (elem_of_hash_keys _ x)) (topo_inv_start config)).
    unfold service_order. destruct (order_loop _ _ _ _); [simpl; eauto | done]. }
  exists r. split; [done|]. intros p ->.
  destruct (with_base_dir_Ok _ _ _ _ Hr) as (_ & Ec & _ & _ & Ho & Hv).
  destruct (service_order_Ok _ _ Ho) as [Hperm Hord].
  split_and!; [done | | | |].
  - unfold shutdown_order. rewrite <-Hperm. symmetry. apply Permutation_rev.
  - intros x svc Hx%elem_of_hash_iter. rewrite for_each_Ok in Hv. specialize (Hv _ Hx).
    simpl in Hv. destruct (s_image svc); [|done]. inv_result. split; [done|]. split; [eauto|].
    destruct (s_depends_on svc) as [| |m]; [done..|]. intros d v Hd%elem_of_hash_iter.
    unfold validate_depends_on_conditions in Hv. rewrite for_each_Ok in Hv.
    specialize (Hv _ Hd). simpl in Hv. by destruct (supported_condition (condition v)).
  - intros l1 x l2 E d Hd. rewrite <-Ec in Hord. eapply Hord; [done|].
    destruct Hd; by eapply deps_with_depends.
  - intros l1 x l2 E d Hd. unfold shutdown_order in E.
    apply (f_equal (@rev string)) in E. rewrite rev_involutive, rev_app_distr in E. simpl in E.
    rewrite <-app_assoc in E. simpl in E. pose proof (Hord _ _ _ E _ Hd) as Hin.
    apply list_elem_of_In. rewrite in_rev. by apply list_elem_of_In.
Qed.

(** ** Networks *)

Lemma push_new_elem nets x y : y ∈ push_new nets x ↔ y ∈ nets ∨ y = x.
Proof.
  unfold push_new. case_bool_decide; [naive_solver|]. by rewrite elem_of_snoc.
Qed.

Lemma push_new_NoDup nets x : NoDup nets → NoDup (push_new nets x).
Proof. unfold push_new. case_bool_decide; [done|]. intros. by apply NoDup_snoc. Qed.

Lemma push_all_spec (p : ComposeProject) names nets :
  (∀ y, y ∈ foldl (λ nets n, push_new nets (prefixed p n)) nets names ↔
     y ∈ nets ∨ ∃ n, n ∈ names ∧ y = prefixed p n) ∧
  (NoDup nets → NoDup (foldl (λ nets n, push_new nets (prefixed p n)) nets names)).
Proof.
  revert nets. induction names as [|n names IH]; intros nets; simpl.
  - split; [|done]. intros y. split; [auto|]. by intros [?|(? & ?%not_elem_of_nil & _)].
  - destruct (IH (push_new nets (prefixed p n))) as [IHe IHd]. split.
    + intros y. rewrite IHe, push_new_elem. setoid_rewrite elem_of_cons. naive_solver.
    + intros. by apply IHd, push_new_NoDup.
Qed.

(** Networks.  The networks a project creates are pairwise distinct and are
    exactly its default network, the declared ones and those its services name,
    under the project's prefix; so a service configured with the project's
    default network always joins a network that the project creates. *)
Theorem required_networks_exact (to_lowercase : string → string)
    (read : string → option string) p :
  NoDup (required_networks p) ∧
  (∀ y, y ∈ required_networks p ↔
     y = default_network_name p ∨
     (∃ n, is_Some (c_networks (p_config p) !! n) ∧ y = prefixed p n) ∨
     (∃ x svc n, c_services (p_config p) !! x = Some svc ∧
        n ∈ network_names (s_networks svc) ∧ y = prefixed p n)) ∧
  (∀ x cfg, build_box_config to_lowercase read p x (Some (default_network_name p)) = Ok cfg →
     ∃ n, network cfg = Bridge n ∧ n ∈ required_networks p).
Proof.
  assert (∀ (svcs : list (string * ServiceConfig)) nets,
    (∀ y, y ∈ foldl (λ nets kv, foldl (λ nets n, push_new nets (prefixed p n)) nets
            (network_names (s_networks kv.2))) nets svcs ↔
       y ∈ nets ∨ ∃ x svc n, (x, svc) ∈ svcs ∧ n ∈ network_names (s_networks svc) ∧
         y = prefixed p n) ∧
    (NoDup nets → NoDup (foldl (λ nets kv, foldl (λ nets n, push_new nets (prefixed p n)) nets
            (network_names (s_networks kv.2))) nets svcs))) as Hsvcs.
  { induction svcs as [|[x svc] svcs IH]; intros nets; simpl.
    - split; [|done]. intros y. split; [auto|]. by intros [?|(? & ? & ? & ?%not_elem_of_nil & _)].
    - destruct (push_all_spec p (network_names (s_networks svc)) nets) as [He Hd].
      edestruct IH as [IHe IHd]. split; [|by intros; apply IHd, Hd].
      intros y. rewrite IHe, He. setoid_rewrite elem_of_cons. naive_solver. }
  destruct (push_all_spec p (hash_keys (c_networks (p_config p))) [default_network_name p])
    as [He Hd].
  destruct (Hsvcs (hash_iter (c_services (p_config p)))
    (foldl (λ nets n, push_new nets (prefixed p n)) [default_network_name p]
       (hash_keys (c_networks (p_config p))))) as [Hse Hsd].
  fold (required_networks p) in Hse, Hsd. setoid_rewrite He in Hse.
  setoid_rewrite elem_of_hash_iter in Hse. setoid_rewrite elem_of_hash_keys in Hse.
  setoid_rewrite list_elem_of_singleton in Hse.
  split_and!; [apply Hsd, Hd, NoDup_singleton | intros y; rewrite Hse; tauto |].
  intros x cfg Hb. unfold build_box_config in Hb. inv_result. simpl. unfold network_mode.
  match goal with Hx : c_services _ !! x = Some ?svc |- _ => rename svc into s; rename Hx into Hs end.
  destruct (network_names (s_networks s)) as [|n ns] eqn:En.
  - eexists. split; [done|]. apply Hse. auto.
  - eexists. split; [done|]. apply Hse. right. exists x, s, n. rewrite En.
    split_and!; [done | by left | done].
Qed.

(** ** Project state *)

Inductive project_op := PRegister (svc box_id : string) | PUnregister (svc : string).

Definition project_apply (p : ComposeProject) (o : project_op) : ComposeProject :=
  match o with
  | PRegister svc id => register_service p svc id
  | PUnregister svc => unregister_service p svc
  end.

Definition boxes_defined (p : ComposeProject) : Prop :=
  ∀ x id, p_service_boxes p !! x = Some id → defined (p_config p) x.

Lemma project_run ops p :
  boxes_defined p →
  Forall (λ o, match o with PRegister x _ => defined (p_config p) x | _ => True end) ops →
  boxes_defined (foldl project_apply p ops) ∧ p_config (foldl project_apply p ops) = p_config p.
Proof.
  revert p. induction ops as [|o ops IH]; intros p Hp Hops; [done|].
  apply list.Forall_cons in Hops as [Ho Hops]. simpl.
  assert (p_config (project_apply p o) = p_config p) as Ec by (by destruct o).
  destruct (IH (project_apply p o)) as [IHb IHc]; [| by rewrite Ec |].
  - intros x id. rewrite Ec. destruct o as [y i|y]; simpl.
    + destruct (decide (x = y)) as [->|]; [done|]. rewrite lookup_insert_ne by done. apply Hp.
    + rewrite lookup_delete_Some. intros [_ ?]. by eapply Hp.
  - by rewrite IHc, Ec.
Qed.

(** The state of a project after any history of starts and stops of its
    services: stopped exactly when no service has a box, running exactly when
    there is one and every service has one, partial otherwise. *)
Theorem project_state_exact name config base_dir p0 ops :
  with_base_dir name config base_dir = Some (Ok p0) →
  Forall (λ o, match o with PRegister x _ => defined config x | _ => True end) ops →
  let p := foldl project_apply p0 ops in
  (project_state p = ProjStopped ↔ ∀ x, box_id p x = None) ∧
  (project_state p = Running ↔
     (∃ x, is_Some (box_id p x)) ∧ ∀ x, defined config x → is_Some (box_id p x)).
Proof.
  intros Hp Hops p. destruct (with_base_dir_Ok _ _ _ _ Hp) as (_ & Ec & Eb & _).
  destruct (project_run ops p0) as [Hb Hc].
  { intros x id. by rewrite Eb, lookup_empty. }
  { by rewrite Ec. }
  fold p in Hb, Hc. rewrite Ec in Hc. unfold boxes_defined in Hb. rewrite Hc in Hb.
  unfold project_state, box_id. rewrite Hc.
  set (b := p_service_boxes p) in *. set (s := c_services config) in *.
  assert (dom b ⊆ dom s) as Hsub.
  { intros x [id Hx]%elem_of_dom. apply elem_of_dom. by eapply Hb. }
  assert (size b = 0%nat ↔ ∀ x, b !! x = None) as H0.
  { rewrite map_size_empty_iff. split; [intros -> x; apply lookup_empty | apply map_empty]. }
  assert (size b = size s ↔ ∀ x, defined config x → is_Some (b !! x)) as Hall.
  { rewrite <-!size_dom. split.
    - intros E x Hx. apply elem_of_dom.
      rewrite (set_subseteq_size_eq (dom b) (dom s)); [by apply elem_of_dom | done | lia].
    - intros Ha. f_equal. apply set_eq. intros x. split; [apply Hsub|].
      intros Hx%elem_of_dom. apply elem_of_dom. by apply Ha. }
  destruct (Nat.eqb_spec (size b) 0) as [E|E].
  - split; [naive_solver|]. split; [done|]. intros [[x [? Hx]] _]. rewrite (proj1 H0 E) in Hx. done.
  - assert (∃ x, is_Some (b !! x)) as Hex.
    { destruct (map_choose b) as (x & id & Hx); [|eauto]. intros ->. by rewrite map_size_empty in E. }
    destruct (Nat.eqb_spec (size b) (size s)) as [E'|E'].
    + split; [split; [done | naive_solver]|]. tauto.
    + split; split; try done; [naive_solver|]. intros [_ Ha]. by destruct E', Hall; auto.
Qed.

End project_correct.

(** ** A concrete project *)

Definition demo_service (img : string) (d : DependsOn) : ServiceConfig :=
  {| s_image := Some img; s_entrypoint := None; s_command := None; s_environment := EnvEmpty;
     s_env_file := SEmpty; s_ports := ["8080:80"%string]; s_volumes := []; s_depends_on := d;
     s_networks := NetEmpty; s_cpus := None; s_mem_limit := Some "1.5g"%string; s_restart := None;
     s_dns := DnsEmpty; s_tmpfs := SEmpty; s_cap_add := []; s_cap_drop := [];
     s_privileged := false; s_labels := LabEmpty; s_healthcheck := None;
     s_working_dir := None; s_hostname := None; s_extra_hosts := SEmpty |}.

Definition demo_compose : ComposeConfig :=
  {| c_version := None;
     c_services := <["web"%string := demo_service "nginx"
                       (DepMap {["db"%string := {| condition := "service_healthy" |}]})]>
                   {["db"%string := demo_service "postgres" DepEmpty]};
     c_volumes := ∅; c_networks := ∅ |}.

Example demo_order :
  @service_order list_order demo_compose = Some (Ok ["db"; "web"]%string).
Proof. vm_compute. reflexivity. Qed.

Example demo_memory :
  memory_mb ∘ resources <$>
    (match @with_base_dir list_order "app" demo_compose "/srv" with
     | Some (Ok p) => @build_box_config list_order lowercase (λ _, None) p "web" None
     | _ => Err (ServiceNotFound "")
     end) = Ok 1536.
Proof. vm_compute. reflexivity. Qed.

Lemma project_state_exact_witness :
  ∃ p0, @with_base_dir list_order "app" demo_compose "/srv" = Some (Ok p0) ∧
  let p := foldl project_apply p0 [PRegister "db" "b1"; PRegister "web" "b2"; PUnregister "db"] in
  project_state p = Partial ∧ ¬ (∀ x, box_id p x = None).
Proof.
  destruct (@with_base_dir list_order "app" demo_compose "/srv") as [[p0|]|] eqn:E;
    [|by vm_compute in E..].
  exists p0. split; [done|]. intros p.
  assert (project_state p = Partial) as Hp
    by (vm_compute in E; injection E as <-; vm_compute; reflexivity).
  split; [done|].
  destruct (@project_state_exact list_order "app" demo_compose "/srv" p0
    [PRegister "db" "b1"; PRegister "web" "b2"; PUnregister "db"]%string E) as [Hs _].
  { repeat constructor; by eexists. }
  intros Hn%Hs. fold p in Hn. congruence.
Defined.

(** ** Environment of a service *)

Section service_env.
Context `{HashOrder} (read : string → option string).

Lemma env_files_nodup base_dir files env0 env :
  NoDup (map fst env0) →
  foldl (λ acc env_file,
    env ← acc;
    entries ← map_err (InvalidEnvFile (resolve_compose_path base_dir env_file))
                (parse_env_file read (resolve_compose_path base_dir env_file));
    Ok (merge_env_pairs env entries)) (Ok env0) files = Ok env →
  NoDup (map fst env).
Proof.
  revert env0. induction files as [|f files IH]; intros env0 H0; simpl; [by intros [= <-]|].
  destruct (map_err _ (parse_env_file read (resolve_compose_path base_dir f))) as [entries|e]; simpl.
  - apply IH. destruct (merge_env_keys env0 entries) as (new & -> & _ & Hd). auto.
  - intros Hf. exfalso. revert Hf. clear. induction files as [|g files IHf]; simpl; done.
Qed.

(** The environment of a service has no key twice, an inline value wins
    over every env file, and a key that is not set inline has the value the env
    files give it, in which a later file wins over an earlier one. *)
Theorem service_env_precedence p svc env :
  service_env read p svc = Ok env →
  NoDup (map fst env) ∧
  (∀ k v, (list_to_map (rev (to_pairs (s_environment svc))) : gmap string string) !! k = Some v →
     (list_to_map env : gmap string string) !! k = Some v) ∧
  (∀ k files file content,
     string_or_list_to_vec (s_env_file svc) = files ++ [file] →
     read (resolve_compose_path (p_base_dir p) file) = Some content →
     (list_to_map (rev (to_pairs (s_environment svc))) : gmap string string) !! k = None →
     ∀ v, (list_to_map (rev (parse_env_file_content content)) : gmap string string) !! k = Some v →
     (list_to_map env : gmap string string) !! k = Some v).
Proof.
  unfold service_env. intros He. inv_result.
  match goal with Hf : foldl _ (Ok []) _ = Ok ?x |- _ => rename x into fenv; rename Hf into Hfold end.
  rewrite merge_env_map. split_and!.
  - destruct (merge_env_keys fenv (to_pairs (s_environment svc))) as (new & -> & _ & Hd).
    apply Hd. eapply env_files_nodup; [|exact Hfold]. constructor.
  - intros k v Hv. rewrite lookup_union_Some_raw. auto.
  - intros k files file content Ef Hread Hinl v Hv. rewrite lookup_union_r by done.
    rewrite Ef, foldl_snoc in Hfold. inv_result.
    match goal with Hf : parse_env_file _ _ = Ok ?entries |- _ =>
      unfold parse_env_file in Hf; rewrite Hread in Hf; simpl in Hf; injection Hf as <- end.
    rewrite merge_env_map, lookup_union_Some_raw. auto.
Qed.

End service_env.

Definition demo_env_service : ServiceConfig :=
  {| s_image := Some "app"%string; s_entrypoint := None; s_command := None;
     s_environment := EnvList ["A=inline"%string]; s_env_file := SSingle "a.env b.env";
     s_ports := []; s_volumes := []; s_depends_on := DepEmpty; s_networks := NetEmpty;
     s_cpus := None; s_mem_limit := None; s_restart := None; s_dns := DnsEmpty;
     s_tmpfs := SEmpty; s_cap_add := []; s_cap_drop := []; s_privileged := false;
     s_labels := LabEmpty; s_healthcheck := None; s_working_dir := None;
     s_hostname := None; s_extra_hosts := SEmpty |}.
Definition demo_env_project : ComposeProject :=
  {| p_name := "app"; p_config := demo_compose; p_service_order := []; p_service_boxes := ∅;
     p_networks := []; p_base_dir := "/srv" |}.
Definition demo_read (path : string) : option string :=
  if bool_decide (path = "/srv/a.env"%string) then Some "A=1
B=2
C=3"%string
  else if bool_decide (path = "/srv/b.env"%string) then Some "A=4
B=5"%string
  else None.

Lemma service_env_precedence_witness :
  ∃ env, @service_env list_order demo_read demo_env_project demo_env_service = Ok env ∧
  env = [("A", "inline"); ("B", "5"); ("C", "3")]%string ∧ NoDup (map fst env).
Proof.
  eexists. split; [vm_compute; reflexivity|]. split; [reflexivity|].
  refine (proj1 (@service_env_precedence list_order demo_read demo_env_project demo_env_service _ _)).
  vm_compute. reflexivity.
Defined.

(** ** Durations and sizes *)

Section units.
Context (to_lowercase : string → string).
Context (lower_ascii : ∀ s, is_ascii s = true → to_lowercase s = lowercase s).

Lemma digits_ascii s : str_forallb is_digit s = true → is_ascii s = true.
Proof. apply str_forallb_impl. intros c. unfold is_digit. lia. Qed.

(** A printed number with a unit survives trimming and lower-casing. *)
Lemma lower_unit n u :
  0 ≤ n → str_forallb visible u = true → is_ascii u = true → lowercase u = u →
  to_lowercase (trim (show_uint n +:+ u)) = show_uint n +:+ u.
Proof using lower_ascii.
  intros Hn Hv Ha Hl. pose proof (show_uint_digits n Hn) as Hd.
  rewrite trim_visible by (by rewrite str_forallb_app, show_uint_visible, Hv).
  rewrite lower_ascii.
  - unfold lowercase in *. rewrite str_map_app, Hl. f_equal. by apply lowercase_digits.
  - unfold is_ascii. rewrite str_forallb_app. apply andb_true_iff.
    split; [by apply digits_ascii | done].
Qed.

Lemma show_no_char c n : 0 ≤ n → is_digit c = false → has_char c (show_uint n) = false.
Proof. intros. by apply show_uint_no_char. Qed.

(** A text ending in [q] does not end in [p] when [p] has another last character. *)
Lemma ends_with_other p a b s pa :
  a ≠ b → pa = p +:+ String a "" → ends_with pa (s +:+ String b "") = false.
Proof.
  intros Hne ->. destruct (ends_with _ _) eqn:E; [|done]. unfold ends_with in E.
  destruct (strip_suffix _ _) as [t|] eqn:Et; [|done]. apply strip_suffix_Some in Et.
  apply (f_equal str_rev) in Et. rewrite !str_rev_app_distr in Et. simpl in Et. congruence.
Qed.

(** Durations.  A number of seconds, milliseconds, minutes or hours in its
    usual notation is read as that many seconds: milliseconds are rounded up, and
    minutes and hours are multiplied in 64-bit arithmetic. *)
Theorem duration_units n :
  in_range 64 n →
  parse_duration_secs to_lowercase (show_uint n) = Some n ∧
  parse_duration_secs to_lowercase (show_uint n +:+ "s") = Some n ∧
  parse_duration_secs to_lowercase (show_uint n +:+ "ms") = Some (div_ceil n 1000) ∧
  parse_duration_secs to_lowercase (show_uint n +:+ "m") = Some (wrap 64 (n * 60)) ∧
  parse_duration_secs to_lowercase (show_uint n +:+ "h") = Some (wrap 64 (n * 3600)).
Proof using lower_ascii.
  intros Hn. assert (0 ≤ n) as H0 by apply Hn. unfold parse_duration_secs.
  assert (to_lowercase (trim (show_uint n)) = show_uint n) as ->.
  { rewrite <-(str_app_nil_r (show_uint n)) at 1. rewrite lower_unit by done. apply str_app_nil_r. }
  rewrite !lower_unit by done. cbv zeta.
  assert (∀ c p, has_char c p = true → is_digit c = false →
            ends_with p (show_uint n) = false) as Hno
    by (intros c p Hp Hd; eapply ends_with_no; [exact Hp | by apply show_no_char]).
  assert (∀ c p, has_char c p = true → is_digit c = false →
            trim_end_matches p (show_uint n +:+ p) = show_uint n) as Htrim
    by (intros c p Hp Hd; eapply trim_end_matches_once; [exact Hp | by apply show_no_char]).
  split_and!.
  - rewrite (Hno "s"%char "ms"%string), (Hno "s"%char "s"%string), (Hno "m"%char "m"%string),
      (Hno "h"%char "h"%string) by done.
    by apply parse_show_uint.
  - rewrite (ends_with_no "m"%char "ms" (show_uint n +:+ "s"))
      by (rewrite ?has_char_app, ?show_no_char; done).
    rewrite ends_with_app, (Htrim "s"%char) by done. by apply parse_show_uint.
  - rewrite ends_with_app, (Htrim "s"%char) by done. by rewrite parse_show_uint.
  - rewrite (ends_with_other "m" "s" "m" (show_uint n)), (ends_with_other "" "s" "m" (show_uint n))
      by done.
    rewrite ends_with_app, (Htrim "m"%char) by done. by rewrite parse_show_uint.
  - rewrite (ends_with_other "m" "s" "h" (show_uint n)), (ends_with_other "" "s" "h" (show_uint n)),
      (ends_with_other "" "m" "h" (show_uint n)) by done.
    rewrite ends_with_app, (Htrim "h"%char) by done. by rewrite parse_show_uint.
Qed.

(** Memory limits are not checked for sense.  A negative or not-a-number
    amount is accepted as 0 MB, an infinite one as [u32::MAX] MB, the unit may be
    repeated, and a byte count beyond 4 PiB is truncated to 32 bits of MB. *)
Theorem memory_unchecked :
  parse_compose_memory to_lowercase "-1g" = Ok 0 ∧
  parse_compose_memory to_lowercase "nanm" = Ok 0 ∧
  parse_compose_memory to_lowercase "infg" = Ok (u_max 32) ∧
  parse_compose_memory to_lowercase "1ggg" = Ok 1024 ∧
  parse_compose_memory to_lowercase "4503599627370496" = Ok 0.
Proof using lower_ascii.
  unfold parse_compose_memory.
  rewrite !lower_ascii by (vm_compute; reflexivity).
  vm_compute. done.
Qed.

End units.

Lemma duration_units_witness :
  parse_duration_secs lowercase (show_uint 1500 +:+ "ms") = Some 2 ∧
  parse_duration_secs lowercase (show_uint 3 +:+ "m") = Some 180.
Proof.
  split.
  - apply (duration_units lowercase (λ _ _, eq_refl) 1500). by vm_compute.
  - apply (duration_units lowercase (λ _ _, eq_refl) 3). by vm_compute.
Defined.

Lemma memory_unchecked_witness : parse_compose_memory lowercase "-1g" = Ok 0.
Proof. apply (memory_unchecked lowercase (λ _ _, eq_refl)). Defined.
