(* ===== verification/BoxState.v ===== *)
(** * BoxState: the state file of the boxes

    [cli/src/state/mod.rs] ([BoxRecord]), [cli/src/state/file.rs] ([StateFile]),
    [cli/src/state/lock.rs], [cli/src/state/policy.rs] (restart policies) and
    [cli/src/resolve.rs].  The JSON text is a parameter (serde); the liveness of
    a PID, the exit-code files and which system calls succeed are the [world] of
    the operation that looks at them.  A time is a number of nanoseconds. *)

From Stdlib Require Import ZArith Lia Ascii.
From stdpp Require Import base gmap strings list numbers relations.
From S2P Require Import Prelude RustStr Network Store Config.

Local Open Scope Z_scope.

(** ** Records *)

Inductive LogDriver := JsonFile | Syslog | NoLog.
Record LogConfig := { driver : LogDriver; log_options : gmap string string }.

Record HealthCheck := {
  hk_cmd : list string; hk_interval_secs : Z; hk_timeout_secs : Z; hk_retries : Z;
  hk_start_period_secs : Z }.

Record BoxRecord := {
  b_id : string; b_short_id : string; b_name : string; b_image : string; b_status : string;
  b_pid : option Z; b_cpus : Z; b_memory_mb : Z; b_volumes : list string;
  b_env : gmap string string; b_cmd : list string; b_entrypoint : option (list string);
  b_box_dir : string; b_exec_socket_path : string; b_console_log : string;
  b_created_at : Z; b_started_at : option Z; b_auto_remove : bool;
  b_hostname : option string; b_user : option string; b_workdir : option string;
  b_restart_policy : string; b_port_map : list string; b_labels : gmap string string;
  b_stopped_by_user : bool; b_restart_count : Z; b_max_restart_count : Z;
  b_exit_code : option Z; b_health_check : option HealthCheck;
  b_healthcheck_disabled : bool; b_health_status : string; b_health_retries : Z;
  b_health_last_check : option Z; b_network_mode : NetworkMode;
  b_network_name : option string; b_volume_names : list string; b_tmpfs : list string;
  b_anonymous_volumes : list string; b_resource_limits : ResourceLimits;
  b_log_config : LogConfig; b_add_host : list string; b_platform : option string;
  b_init : bool; b_read_only : bool; b_cap_add : list string; b_cap_drop : list string;
  b_security_opt : list string; b_privileged : bool; b_devices : list string;
  b_gpus : option string; b_shm_size : option Z; b_stop_signal : option string;
  b_stop_timeout : option Z; b_oom_kill_disable : bool; b_oom_score_adj : option Z }.

(** The fields the lifecycle code assigns after creation, and a record with
    these fields replaced. *)
Record live_part := {
  v_status : string; v_pid : option Z; v_exec_socket_path : string; v_started_at : option Z;
  v_stopped_by_user : bool; v_restart_count : Z; v_exit_code : option Z;
  v_health_check : option HealthCheck; v_health_status : string; v_health_retries : Z;
  v_health_last_check : option Z; v_anonymous_volumes : list string;
  v_stop_signal : option string }.

Definition live_of (r : BoxRecord) : live_part :=
  {| v_status := b_status r; v_pid := b_pid r; v_exec_socket_path := b_exec_socket_path r;
     v_started_at := b_started_at r; v_stopped_by_user := b_stopped_by_user r;
     v_restart_count := b_restart_count r; v_exit_code := b_exit_code r;
     v_health_check := b_health_check r; v_health_status := b_health_status r;
     v_health_retries := b_health_retries r; v_health_last_check := b_health_last_check r;
     v_anonymous_volumes := b_anonymous_volumes r; v_stop_signal := b_stop_signal r |}.

Definition with_live (r : BoxRecord) (v : live_part) : BoxRecord :=
  {| b_id := b_id r; b_short_id := b_short_id r; b_name := b_name r; b_image := b_image r;
     b_status := v_status v; b_pid := v_pid v; b_cpus := b_cpus r;
     b_memory_mb := b_memory_mb r; b_volumes := b_volumes r; b_env := b_env r;
     b_cmd := b_cmd r; b_entrypoint := b_entrypoint r; b_box_dir := b_box_dir r;
     b_exec_socket_path := v_exec_socket_path v; b_console_log := b_console_log r;
     b_created_at := b_created_at r; b_started_at := v_started_at v;
     b_auto_remove := b_auto_remove r; b_hostname := b_hostname r; b_user := b_user r;
     b_workdir := b_workdir r; b_restart_policy := b_restart_policy r;
     b_port_map := b_port_map r; b_labels := b_labels r;
     b_stopped_by_user := v_stopped_by_user v; b_restart_count := v_restart_count v;
     b_max_restart_count := b_max_restart_count r; b_exit_code := v_exit_code v;
     b_health_check := v_health_check v; b_healthcheck_disabled := b_healthcheck_disabled r;
     b_health_status := v_health_status v; b_health_retries := v_health_retries v;
     b_health_last_check := v_health_last_check v; b_network_mode := b_network_mode r;
     b_network_name := b_network_name r; b_volume_names := b_volume_names r;
     b_tmpfs := b_tmpfs r; b_anonymous_volumes := v_anonymous_volumes v;
     b_resource_limits := b_resource_limits r; b_log_config := b_log_config r;
     b_add_host := b_add_host r; b_platform := b_platform r; b_init := b_init r;
     b_read_only := b_read_only r; b_cap_add := b_cap_add r; b_cap_drop := b_cap_drop r;
     b_security_opt := b_security_opt r; b_privileged := b_privileged r;
     b_devices := b_devices r; b_gpus := b_gpus r; b_shm_size := b_shm_size r;
     b_stop_signal := v_stop_signal v; b_stop_timeout := b_stop_timeout r;
     b_oom_kill_disable := b_oom_kill_disable r; b_oom_score_adj := b_oom_score_adj r |}.

(** [BoxRecord::make_short_id]: dashes removed, the first twelve characters of
    what is left (a UUID is ASCII). *)
Fixpoint without_char (c : ascii) (s : string) : string :=
  match s with
  | ""%string => ""%string
  | String a r => if Ascii.eqb a c then without_char c r else String a (without_char c r)
  end.
Definition make_short_id (id : string) : string := String.substring 0%nat 12%nat (without_char "-" id).

(** ** Restart policies ([cli/src/state/policy.rs]) *)

Definition below_max (r : BoxRecord) : bool :=
  if 0 <? b_max_restart_count r then b_restart_count r <? b_max_restart_count r else true.

Definition should_restart (r : BoxRecord) : bool :=
  let policy := b_restart_policy r in
  match strip_prefix "on-failure:" policy with
  | Some max_str =>
      match parse_uint 32 max_str with
      | Some max => negb (b_stopped_by_user r) && (b_restart_count r <? max)
      | None => false
      end
  | None =>
      if bool_decide (policy = "always"%string) then below_max r
      else if bool_decide (policy = "on-failure"%string) then
        if b_stopped_by_user r then false else below_max r
      else if bool_decide (policy = "unless-stopped"%string) then
        if b_stopped_by_user r then false else below_max r
      else false
  end.

Inductive policy_err := BadCount (policy : string) | BadPolicy (policy : string)
  | BadRestartCount (text : string).

Definition plain_policy (policy : string) : bool :=
  bool_decide (policy ∈ ["no"; "always"; "on-failure"; "unless-stopped"]%string).

Definition validate_restart_policy (policy : string) : result policy_err () :=
  if plain_policy policy then Ok ()
  else
    match strip_prefix "on-failure:" policy with
    | Some max_str => _ ← ok_or (BadCount policy) (parse_uint 32 max_str); Ok ()
    | None => Err (BadPolicy policy)
    end.

Definition parse_restart_policy (policy : string) : result policy_err (string * Z) :=
  _ ← validate_restart_policy policy;
  match strip_prefix "on-failure:" policy with
  | Some max_str =>
      max ← ok_or (BadRestartCount max_str) (parse_uint 32 max_str);
      Ok ("on-failure"%string, max)
  | None => Ok (policy, 0)
  end.

(** ** Lookup ([StateFile::find_*], [cli/src/resolve.rs]) *)

Abbreviation records := (list BoxRecord).

Definition find_by_id (rs : records) (id : string) : option BoxRecord :=
  List.find (λ r, bool_decide (b_id r = id)) rs.
Definition find_by_name (rs : records) (name : string) : option BoxRecord :=
  List.find (λ r, bool_decide (b_name r = name)) rs.
Definition find_by_id_prefix (rs : records) (prefix : string) : records :=
  List.filter (λ r, starts_with prefix (b_id r) || starts_with prefix (b_short_id r)) rs.

(** [if let Some(r) = find_by_id_mut(id) { *r = f(r) }] *)
Fixpoint update_by_id (id : string) (f : BoxRecord → BoxRecord) (rs : records) : records :=
  match rs with
  | [] => []
  | r :: rs => if bool_decide (b_id r = id) then f r :: rs else r :: update_by_id id f rs
  end.

Definition is_active_status (status : string) : bool :=
  bool_decide (status = "running"%string) || bool_decide (status = "paused"%string).
Definition is_active (r : BoxRecord) : bool := is_active_status (b_status r).

Definition list_records (all : bool) (rs : records) : records :=
  if all then rs else List.filter (λ r, bool_decide (b_status r = "running"%string)) rs.

Definition pending_restarts (rs : records) : list string :=
  map b_id (List.filter (λ r, bool_decide (b_status r = "dead"%string) && should_restart r) rs).

Definition find_by_label (rs : records) (key value : string) : records :=
  List.filter (λ r, bool_decide (b_labels r !! key = Some value)) rs.

Inductive resolve_err := NoSuchBox (query : string) | Ambiguous (query : string) (count : nat).

Definition resolve (rs : records) (query : string) : result resolve_err BoxRecord :=
  match find_by_name rs query with
  | Some r => Ok r
  | None =>
      match find_by_id rs query with
      | Some r => Ok r
      | None =>
          match find_by_id_prefix rs query with
          | [] => Err (NoSuchBox query)
          | [r] => Ok r
          | l => Err (Ambiguous query (length l))
          end
      end
  end.

(** [resolve_mut] followed by an update of the record it returns. *)
Definition resolve_update (rs : records) (query : string) (f : BoxRecord → BoxRecord)
    : result resolve_err records :=
  r ← resolve rs query;
  match find_by_id rs (b_id r) with
  | Some _ => Ok (update_by_id (b_id r) f rs)
  | None => Err (NoSuchBox query)
  end.

(** ** The state file *)

(** What an operation sees of the machine. *)
Record world := {
  alive : Z → bool;                     (* [process::is_process_alive] *)
  exit_file : string → option string;   (* [<box_dir>/upper/.a3s_exit_code] *)
  lock_works : bool; read_works : bool; write_works : bool }.

Section state_file.
Context {content : Type} (to_json : records → content) (from_json : content → option records).

Inductive state_err := LockFailed | ReadError | WriteError.

Definition has_live_pid (w : world) (r : BoxRecord) : bool :=
  match b_pid r with Some pid => alive w pid | None => false end.

Definition captured_exit_code (w : world) (r : BoxRecord) : option Z :=
  match b_exit_code r with
  | Some c => Some c
  | None => contents ← exit_file w (path_join (path_join (b_box_dir r) "upper") ".a3s_exit_code");
            parse_int 32 (trim contents)
  end.

(** An active record without a live process becomes dead. *)
Definition mark_dead (w : world) (r : BoxRecord) : BoxRecord :=
  with_live r
    {| v_status := "dead"; v_pid := None; v_exec_socket_path := b_exec_socket_path r;
       v_started_at := b_started_at r; v_stopped_by_user := b_stopped_by_user r;
       v_restart_count := b_restart_count r; v_exit_code := captured_exit_code w r;
       v_health_check := b_health_check r; v_health_status := "none"; v_health_retries := 0;
       v_health_last_check := b_health_last_check r;
       v_anonymous_volumes := b_anonymous_volumes r; v_stop_signal := b_stop_signal r |}.

Definition gone (w : world) (r : BoxRecord) : bool := is_active r && negb (has_live_pid w r).

Definition reconcile_one (w : world) (r : BoxRecord) : BoxRecord :=
  if gone w r then mark_dead w r else r.

Record reconcile_out := {
  rec_changed : bool; rec_restart : list string;
  rec_stopped : records;    (* given to [cleanup_stopped_box] *)
  rec_removed : records     (* given to [cleanup_removed_box] *) }.

Definition reconcile (w : world) (rs : records) : records * reconcile_out :=
  let dead := map (mark_dead w) (List.filter (gone w) rs) in
  let removed := List.filter b_auto_remove dead in
  let stopped := List.filter (λ r, negb (b_auto_remove r)) dead in
  (List.filter (λ r, negb (existsb (λ x, bool_decide (b_id x = b_id r)) removed))
     (map (reconcile_one w) rs),
   {| rec_changed := negb (bool_decide (length dead = 0%nat));
      rec_restart := map b_id (List.filter should_restart stopped);
      rec_stopped := stopped; rec_removed := removed |}).

(** [write_to_disk]; it goes through a temporary file and a rename ([Store.save]
    has the crash analysis), so that it either replaces the file or not. *)
Definition write_to_disk (w : world) (rs : records) (disk : option content)
    : option content * result state_err () :=
  if write_works w then (Some (to_json rs), Ok ()) else (disk, Err WriteError).

(** [StateFile::load]: the records, and the disk after the write-back of
    [reconcile], whose failure is ignored. *)
Definition load_state (w : world) (disk : option content)
    : option content * result state_err records :=
  match disk with
  | None => (None, Ok [])
  | Some c =>
      if read_works w then
        let rs := default [] (from_json c) in
        let '(rs', out) := reconcile w rs in
        (if rec_changed out then (write_to_disk w rs' disk).1 else disk, Ok rs')
      else (disk, Err ReadError)
  end.

Definition save_state (w : world) (rs : records) (disk : option content)
    : option content * result state_err () :=
  if lock_works w then write_to_disk w rs disk else (disk, Err LockFailed).

(** [StateFile::modify]: under the lock, load, apply [f], write. *)
Definition modify {R E} (inj : state_err → E) (w : world)
    (f : records → result E (records * R)) (disk : option content)
    : option content * result E R :=
  if lock_works w then
    let '(disk1, loaded) := load_state w disk in
    match loaded with
    | Err e => (disk1, Err (inj e))
    | Ok rs =>
        match f rs with
        | Err e => (disk1, Err e)
        | Ok (rs', out) =>
            let '(disk2, written) := write_to_disk w rs' disk1 in
            (disk2, match written with Ok _ => Ok out | Err e => Err (inj e) end)
        end
    end
  else (disk, Err (inj LockFailed)).

Definition drop_id (id : string) (rs : records) : records :=
  List.filter (λ r, negb (bool_decide (b_id r = id))) rs.

Definition add_record (w : world) (r : BoxRecord) : option content → option content * result state_err () :=
  modify id w (λ rs, Ok (rs ++ [r], ())).

Definition remove_record (w : world) (id : string)
    : option content → option content * result state_err bool :=
  modify Datatypes.id w (λ rs, let rs' := drop_id id rs in
                               Ok (rs', (length rs' <? length rs)%nat)).

(** [StateFile::add], [remove], [forget] on a loaded handle. *)
Definition add (w : world) (r : BoxRecord) (rs : records) (disk : option content)
    : records * option content * result state_err () :=
  let rs' := rs ++ [r] in
  let '(disk', res) := save_state w rs' disk in (rs', disk', res).

Definition forget (id : string) (rs : records) : records := drop_id id rs.

Definition remove (w : world) (id : string) (rs : records) (disk : option content)
    : records * option content * result state_err bool :=
  let rs' := drop_id id rs in
  if (length rs' <? length rs)%nat then
    let '(disk', res) := save_state w rs' disk in
    (rs', disk', match res with Ok _ => Ok true | Err e => Err e end)
  else (rs', disk, Ok false).

End state_file.

(** ** Reconciliation *)

Lemma should_restart_mark_dead w r : should_restart (mark_dead w r) = should_restart r.
Proof. done. Qed.

Lemma mark_dead_not_active w r : is_active (mark_dead w r) = false.
Proof. done. Qed.

Lemma gone_mark_dead w w' r : gone w (mark_dead w' r) = false.
Proof. done. Qed.

Lemma reconcile_one_id w r : b_id (reconcile_one w r) = b_id r.
Proof. unfold reconcile_one. by destruct (gone w r). Qed.

Lemma reconcile_one_gone w r : gone w (reconcile_one w r) = false.
Proof. unfold reconcile_one. by destruct (gone w r) eqn:E. Qed.

(** The records [reconcile] removes, by id. *)
Lemma removed_by_id w rs r :
  NoDup (map b_id rs) → r ∈ rs →
  existsb (λ x, bool_decide (b_id x = b_id (reconcile_one w r)))
    (List.filter b_auto_remove (map (mark_dead w) (List.filter (gone w) rs)))
  = gone w r && b_auto_remove r.
Proof.
  intros Hnd Hr. rewrite reconcile_one_id. apply eq_true_iff_eq.
  rewrite existsb_exists, andb_true_iff. split.
  - intros (x & Hx & E%bool_decide_eq_true). apply list_elem_of_In in Hx.
    apply elem_of_filter_b in Hx as [(y & -> & [Hy Hg]%elem_of_filter_b)%list_elem_of_fmap Ha].
    simpl in *. replace r with y; [done|].
    clear Hg Ha. induction rs as [|z rs IH]; [by apply not_elem_of_nil in Hr|].
    simpl in Hnd. apply list.NoDup_cons in Hnd as [Hz Hnd].
    apply elem_of_cons in Hr as [->|Hr], Hy as [->|Hy]; [done | | | by apply IH].
    + destruct Hz. rewrite <-E. by apply (list_elem_of_fmap_2 b_id).
    + destruct Hz. rewrite E. by apply (list_elem_of_fmap_2 b_id).
  - intros [Hg Ha]. exists (mark_dead w r). rewrite bool_decide_true by done. split; [|done].
    apply list_elem_of_In, elem_of_filter_b. split; [|done].
    apply (list_elem_of_fmap_2 (mark_dead w)), elem_of_filter_b. done.
Qed.

Lemma reconcile_records w rs :
  NoDup (map b_id rs) →
  (reconcile w rs).1 =
    map (reconcile_one w) (List.filter (λ r, negb (gone w r && b_auto_remove r)) rs).
Proof.
  intros Hnd. simpl. rewrite filter_map. f_equal. apply filter_ext_in. intros r Hr.
  f_equal. apply removed_by_id; [done|]. by apply list_elem_of_In.
Qed.

Lemma reconcile_nothing w rs :
  (∀ r, r ∈ rs → gone w r = false) →
  reconcile w rs = (rs, {| rec_changed := false; rec_restart := []; rec_stopped := [];
                           rec_removed := [] |}).
Proof.
  intros Hg. unfold reconcile. rewrite (filter_none (gone w) rs Hg). simpl. f_equal.
  rewrite filter_all. rewrite <-(map_id rs) at 2. apply map_ext_in. intros r Hr.
  unfold reconcile_one. by rewrite Hg by (by apply list_elem_of_In).
Qed.

(** Reconciliation.  When it is done every active box has a live process.
    Boxes that lost theirs are removed if they were to be auto-removed and
    otherwise marked dead, without PID and with the exit code their guest left;
    every other record is untouched and the order is kept.  The boxes to restart
    are exactly the dead ones whose policy asks for it, all of them pending
    restarts, and a second reconciliation changes nothing. *)
Theorem reconcile_correct w rs :
  NoDup (map b_id rs) →
  let '(rs', out) := reconcile w rs in
  (∀ r, r ∈ rs' → is_active r = true → has_live_pid w r = true) ∧
  rs' = map (λ r, if gone w r then mark_dead w r else r)
          (List.filter (λ r, negb (gone w r && b_auto_remove r)) rs) ∧
  (∀ id, id ∈ rec_restart out ↔
     ∃ r, r ∈ rs ∧ b_id r = id ∧ gone w r = true ∧ b_auto_remove r = false ∧
       should_restart r = true) ∧
  (∀ id, id ∈ rec_restart out → id ∈ pending_restarts rs') ∧
  (reconcile w rs').1 = rs' ∧ rec_changed (reconcile w rs').2 = false.
Proof.
  intros Hnd. pose proof (reconcile_records w rs Hnd) as E.
  destruct (reconcile w rs) as [rs' out] eqn:Er. simpl in E.
  assert (∀ r, r ∈ rs' → gone w r = false) as Hgone.
  { intros r. rewrite E. intros (x & -> & _)%list_elem_of_fmap. apply reconcile_one_gone. }
  assert (∀ id, id ∈ rec_restart out ↔
     ∃ r, r ∈ rs ∧ b_id r = id ∧ gone w r = true ∧ b_auto_remove r = false ∧
       should_restart r = true) as Hrestart.
  { intros id. injection Er as _ <-. simpl. rewrite list_elem_of_fmap. split.
    - intros (x & -> & Hx). apply elem_of_filter_b in Hx as [Hx Hs].
      apply elem_of_filter_b in Hx as [Hx Ha]. apply list_elem_of_fmap in Hx as (r & -> & Hr).
      apply elem_of_filter_b in Hr as [Hr Hg]. exists r.
      apply negb_true_iff in Ha. done.
    - intros (r & Hr & <- & Hg & Ha & Hs). exists (mark_dead w r). split; [done|].
      rewrite !elem_of_filter_b. split; [split|done].
      + apply (list_elem_of_fmap_2 (mark_dead w)), elem_of_filter_b. done.
      + by apply negb_true_iff. }
  split_and!; [| done | done | | | ].
  - intros r Hr Ha. specialize (Hgone r Hr). unfold gone in Hgone. rewrite Ha in Hgone.
    by apply negb_false_iff.
  - intros id (r & Hr & <- & Hg & Ha & Hs)%Hrestart. unfold pending_restarts.
    apply list_elem_of_fmap. exists (mark_dead w r). split; [done|].
    rewrite elem_of_filter_b, E, list_elem_of_fmap. split; [|by rewrite should_restart_mark_dead, Hs].
    exists r. split; [unfold reconcile_one; by rewrite Hg|].
    rewrite elem_of_filter_b, Ha, andb_false_r. done.
  - by rewrite reconcile_nothing.
  - by rewrite reconcile_nothing.
Qed.

(** A record for concrete runs. *)
Definition demo_record (id name status : string) (pid : option Z) (policy : string) : BoxRecord :=
  {| b_id := id; b_short_id := make_short_id id; b_name := name; b_image := "alpine";
     b_status := status; b_pid := pid; b_cpus := 2; b_memory_mb := 512; b_volumes := [];
     b_env := ∅; b_cmd := []; b_entrypoint := None; b_box_dir := "/b"; b_exec_socket_path := "/b/s";
     b_console_log := "/b/log"; b_created_at := 0; b_started_at := None; b_auto_remove := false;
     b_hostname := None; b_user := None; b_workdir := None; b_restart_policy := policy;
     b_port_map := []; b_labels := ∅; b_stopped_by_user := false; b_restart_count := 0;
     b_max_restart_count := 0; b_exit_code := None; b_health_check := None;
     b_healthcheck_disabled := false; b_health_status := "none"; b_health_retries := 0;
     b_health_last_check := None; b_network_mode := Tsi; b_network_name := None;
     b_volume_names := []; b_tmpfs := []; b_anonymous_volumes := [];
     b_resource_limits := limits_default;
     b_log_config := {| driver := JsonFile; log_options := ∅ |}; b_add_host := [];
     b_platform := None; b_init := false; b_read_only := false; b_cap_add := [];
     b_cap_drop := []; b_security_opt := []; b_privileged := false; b_devices := [];
     b_gpus := None; b_shm_size := None; b_stop_signal := None; b_stop_timeout := None;
     b_oom_kill_disable := false; b_oom_score_adj := None |}.

Definition demo_world : world :=
  {| alive := λ pid, pid =? 1; exit_file := λ _, Some "3
"%string; lock_works := true; read_works := true; write_works := true |}.

Lemma reconcile_correct_witness :
  let rs := [demo_record "a" "web" "running" (Some 1) "always";
             demo_record "b" "db" "running" (Some 2) "always"] in
  let '(rs', out) := reconcile demo_world rs in
  rec_restart out = ["b"%string] ∧ map b_status rs' = ["running"; "dead"]%string ∧
  map b_exit_code rs' = [None; Some 3] ∧ (reconcile demo_world rs').1 = rs'.
Proof.
  set (rs := [_; _]). simpl.
  pose proof (reconcile_correct demo_world rs
    ltac:(simpl; repeat constructor; set_solver)) as Hr.
  destruct (reconcile demo_world rs) as [rs' out] eqn:E.
  vm_compute in E. injection E as <- <-.
  split_and!; [reflexivity | reflexivity | reflexivity |].
  by destruct Hr as (_ & _ & _ & _ & ? & _).
Defined.

(** ** Concurrent writers

    The processes that use one state file.  A writer takes the lock, loads
    (which reconciles and may write back), applies its function and writes; a
    reader calls [load_default], whose reconciliation writes back without the
    lock when it finds a box whose process has ended.  [log] records the committed
    updates.  A process whose read or write fails takes no step here. *)
Section concurrency.
Context {content : Type} (to_json : records → content) (from_json : content → option records).
Context (json_roundtrip : ∀ rs, from_json (to_json rs) = Some rs).

Inductive proc :=
  | PModify (f : records → records)
  | PHolding (w : world) (f : records → records) (rs : records)
  | PCommitted (f : records → records)
  | PLoad
  | PWriteBack (rs : records)
  | PLoaded (rs : records).

Record system := {
  sys_disk : option content; sys_holder : option nat; sys_procs : list proc;
  sys_log : list (world * (records → records)) }.

Definition io_good (w : world) : Prop := read_works w = true ∧ write_works w = true.

Inductive sys_step : system → system → Prop :=
  | step_acquire s i w f disk' rs :
      sys_holder s = None → sys_procs s !! i = Some (PModify f) → io_good w →
      load_state to_json from_json w (sys_disk s) = (disk', Ok rs) →
      sys_step s {| sys_disk := disk'; sys_holder := Some i;
                    sys_procs := <[i := PHolding w f rs]> (sys_procs s); sys_log := sys_log s |}
  | step_commit s i w f rs disk' :
      sys_procs s !! i = Some (PHolding w f rs) →
      write_to_disk to_json w (f rs) (sys_disk s) = (disk', Ok ()) →
      sys_step s {| sys_disk := disk'; sys_holder := None;
                    sys_procs := <[i := PCommitted f]> (sys_procs s);
                    sys_log := sys_log s ++ [(w, f)] |}
  | step_load s i w c rs out :
      sys_procs s !! i = Some PLoad → sys_disk s = Some c → io_good w →
      reconcile w (default [] (from_json c)) = (rs, out) →
      sys_step s {| sys_disk := sys_disk s; sys_holder := sys_holder s;
                    sys_procs := <[i := if rec_changed out then PWriteBack rs else PLoaded rs]>
                                   (sys_procs s);
                    sys_log := sys_log s |}
  | step_write_back s i w rs disk' :
      sys_procs s !! i = Some (PWriteBack rs) →
      write_to_disk to_json w rs (sys_disk s) = (disk', Ok ()) →
      sys_step s {| sys_disk := disk'; sys_holder := sys_holder s;
                    sys_procs := <[i := PLoaded rs]> (sys_procs s); sys_log := sys_log s |}.

Definition start (rs : records) (ps : list proc) : system :=
  {| sys_disk := Some (to_json rs); sys_holder := None; sys_procs := ps; sys_log := [] |}.

(** The committed updates one after the other, each on the reconciled state. *)
Definition replay (rs : records) (log : list (world * (records → records))) : records :=
  foldl (λ rs '(w, f), f (reconcile w rs).1) rs log.

(** No reader is about to write back, and none becomes so in a [calm_step]. *)
Definition calm (s : system) : Prop := ∀ i rs, sys_procs s !! i ≠ Some (PWriteBack rs).
Definition calm_step (s s' : system) : Prop := sys_step s s' ∧ calm s'.

Definition fresh (p : proc) : Prop :=
  match p with PModify _ | PLoad => True | _ => False end.
(** The update a process makes, has made or is to make. *)
Definition update_of (p : proc) : option (records → records) :=
  match p with PModify f | PHolding _ f _ | PCommitted f => Some f | _ => None end.
Definition done_proc (p : proc) : Prop :=
  match p with PCommitted _ | PLoaded _ => True | _ => False end.
Definition holding (p : proc) : Prop :=
  match p with PHolding _ _ _ => True | _ => False end.
Definition committed (p : proc) : option (records → records) :=
  match p with PCommitted f => Some f | _ => None end.

Record sys_inv (rs0 : records) (ps : list proc) (s : system) : Prop := {
  inv_calm : calm s;
  inv_updates : omap update_of (sys_procs s) = omap update_of ps;
  inv_holder : ∀ i p, sys_procs s !! i = Some p → holding p → sys_holder s = Some i;
  inv_free : sys_holder s = None → sys_disk s = Some (to_json (replay rs0 (sys_log s)));
  inv_held : ∀ i, sys_holder s = Some i →
    ∃ w f, sys_procs s !! i = Some (PHolding w f (reconcile w (replay rs0 (sys_log s))).1);
  inv_log : omap committed (sys_procs s) ≡ₚ map snd (sys_log s) }.

Lemma load_state_disk w rs disk' rs' :
  io_good w →
  load_state to_json from_json w (Some (to_json rs)) = (disk', Ok rs') →
  rs' = (reconcile w rs).1.
Proof using json_roundtrip.
  intros [Hr Hw]. unfold load_state. rewrite Hr, json_roundtrip. simpl default.
  destruct (reconcile w rs) as [rs1 out]. by intros [= _ <-].
Qed.

Lemma omap_insert_same {A} (g : proc → option A) (ps : list proc) i p q :
  ps !! i = Some p → g p = g q → omap g (<[i := q]> ps) = omap g ps.
Proof.
  revert i. induction ps as [|x ps IH]; intros [|i]; simpl; [done | done | |].
  - intros [= ->] E. by rewrite E.
  - intros Hi E. specialize (IH i Hi E). destruct (g x); [f_equal|]; exact IH.
Qed.

Lemma omap_insert_commit (ps : list proc) i p f :
  ps !! i = Some p → committed p = None →
  omap committed (<[i := PCommitted f]> ps) ≡ₚ omap committed ps ++ [f].
Proof.
  revert i. induction ps as [|x ps IH]; intros [|i]; simpl; [done | done | |].
  - intros [= ->] ->. by rewrite Permutation_app_comm.
  - intros Hi Hp. specialize (IH i Hi Hp). destruct (committed x); [apply perm_skip|]; exact IH.
Qed.

Lemma fresh_committed (ps : list proc) : Forall fresh ps → omap committed ps = [].
Proof. induction 1 as [|p ps Hp _ IH]; [done|]. simpl. by destruct p. Qed.

Lemma done_committed (ps : list proc) :
  (∀ i p, ps !! i = Some p → done_proc p) → omap committed ps = omap update_of ps.
Proof.
  induction ps as [|p ps IH]; [done|]. intros Hd. pose proof (Hd 0%nat p eq_refl) as Hp.
  specialize (IH (λ i, Hd (S i))). destruct p; try done.
  simpl. f_equal. exact IH.
Qed.

Lemma sys_inv_start rs0 ps : Forall fresh ps → sys_inv rs0 ps (start rs0 ps).
Proof.
  intros Hf. rewrite list.Forall_lookup in Hf.
  constructor; simpl; [| done | | done | done |].
  - intros i rs Hi. by apply Hf in Hi.
  - intros i p Hi Hh. apply Hf in Hi. by destruct p.
  - by rewrite fresh_committed by (by apply list.Forall_lookup).
Qed.

(** A step of a process that does not hold the lock before or after. *)
Lemma inv_holder_insert s i q h :
  (∀ j p, sys_procs s !! j = Some p → holding p → sys_holder s = Some j) →
  ¬ holding q → (∀ j, j ≠ i → sys_holder s = Some j → h = Some j) →
  ∀ j p, <[i := q]> (sys_procs s) !! j = Some p → holding p → h = Some j.
Proof.
  intros Hh Hq Hs j p [(-> & <- & _)|(Hne & Hj)]%list_lookup_insert_Some Hold; [done|].
  apply Hs; [done|]. by eapply Hh.
Qed.

Lemma sys_inv_step rs0 ps s s' : sys_inv rs0 ps s → calm_step s s' → sys_inv rs0 ps s'.
Proof using json_roundtrip.
  intros [Hw Hu Hh Hf Hd Hl] [Hs Hc].
  destruct Hs as [s i w f disk' rs Hn Hp Hg Hload|s i w f rs disk' Hp Hwr
                 |s i w c rs out Hp _ _ _|s i w rs disk' Hp _].
  - rewrite (Hf Hn) in Hload. apply load_state_disk in Hload as ->; [|done].
    assert (i < length (sys_procs s))%nat as Hlt by (by eapply lookup_lt_Some).
    constructor; simpl; [done | | | done | |].
    + by rewrite (omap_insert_same _ _ _ _ _ Hp).
    + intros j p [(-> & <- & _)|(_ & Hj)]%list_lookup_insert_Some Hold; [done|].
      rewrite (Hh _ _ Hj Hold) in Hn. done.
    + intros j [= <-]. exists w, f. by rewrite list_lookup_insert_eq.
    + by rewrite (omap_insert_same _ _ _ _ _ Hp).
  - pose proof (Hh _ _ Hp I) as Hhold. destruct (Hd _ Hhold) as (w' & f' & Hp').
    rewrite Hp in Hp'. injection Hp' as <- <- ->.
    unfold write_to_disk in Hwr. destruct (write_works w); [|done]. injection Hwr as <-.
    constructor; simpl; [done | | | | done |].
    + by rewrite (omap_insert_same _ _ _ _ _ Hp).
    + apply inv_holder_insert; [done | by intros [] |]. congruence.
    + intros _. unfold replay. by rewrite foldl_snoc.
    + rewrite (omap_insert_commit _ _ _ _ Hp) by done. rewrite map_app. simpl. by rewrite Hl.
  - set (q := if rec_changed out then PWriteBack rs else PLoaded rs) in *.
    assert (¬ holding q ∧ update_of q = None ∧ committed q = None) as (Hq & Hqu & Hqc).
    { subst q. destruct (rec_changed out); simpl; tauto. }
    constructor; simpl; [done | | | done | |].
    + by rewrite (omap_insert_same _ _ _ _ _ Hp).
    + apply inv_holder_insert; [done | done |]. auto.
    + intros j Hj. destruct (Hd j Hj) as (w' & f' & Hp'). exists w', f'.
      rewrite list_lookup_insert_ne; [done|]. intros ->. congruence.
    + by rewrite (omap_insert_same _ _ _ _ _ Hp).
  - by apply Hw in Hp.
Qed.

(** C2: updates through [modify] are not lost.  Processes that update through
    [modify] and processes that only load share the file, their acquisitions,
    reads and writes interleaved in any order; their reads and writes succeed, and
    no plain load comes upon a box whose process has ended (such a load writes back
    without the lock, and can drop an update: the next theorem).  Then at most one
    process holds the lock, and while none does the file contains exactly
    the result of the committed updates, each applied once, one after the other, to
    a reconciled state; when all processes are done these are the updates of all
    that update. *)
Theorem modify_serialises rs0 ps s :
  Forall fresh ps → rtc calm_step (start rs0 ps) s →
  (sys_holder s = None → sys_disk s = Some (to_json (replay rs0 (sys_log s)))) ∧
  omap committed (sys_procs s) ≡ₚ map snd (sys_log s) ∧
  (∀ i j p q, sys_procs s !! i = Some p → sys_procs s !! j = Some q →
     holding p → holding q → i = j) ∧
  ((∀ i p, sys_procs s !! i = Some p → done_proc p) →
     from_json <$> sys_disk s = Some (Some (replay rs0 (sys_log s))) ∧
     map snd (sys_log s) ≡ₚ omap update_of ps).
Proof using json_roundtrip.
  intros Hfresh Hr. assert (sys_inv rs0 ps s) as [Hw Hu Hh Hf Hd Hl].
  { pose proof (sys_inv_start rs0 ps Hfresh) as Hi. revert Hi.
    induction Hr as [|s1 s2 s3 Hst _ IH]; [done|]. eauto using sys_inv_step. }
  split_and!; [done | done | |].
  - intros i j p q Hp Hq Hhp Hhq. pose proof (Hh _ _ Hp Hhp) as E1.
    pose proof (Hh _ _ Hq Hhq) as E2. congruence.
  - intros Hall. destruct (sys_holder s) as [i|] eqn:E.
    { destruct (Hd i eq_refl) as (w & f & Hp). by apply Hall in Hp. }
    split; [rewrite (Hf eq_refl); simpl; by rewrite json_roundtrip|].
    by rewrite <-Hl, <-Hu, (done_committed _ Hall).
Qed.

(** A plain load is not safe beside a writer.  Whenever some recorded box
    has lost its process, a reader that loads, and a writer whose [modify] runs
    between the reader's read and its write-back, can end with the writer's
    committed update gone: the file holds just the reader's reconciled records. *)
Theorem unlocked_load_loses_update w rs0 f :
  io_good w → (∃ r, r ∈ rs0 ∧ gone w r = true) →
  ∃ s, rtc sys_step (start rs0 [PLoad; PModify f]) s ∧
    sys_procs s = [PLoaded (reconcile w rs0).1; PCommitted f] ∧ sys_holder s = None ∧
    sys_disk s = Some (to_json (reconcile w rs0).1).
Proof using json_roundtrip.
  intros [Hr Hw] (r & Hin & Hg).
  destruct (reconcile w rs0) as [rs1 out] eqn:E.
  assert (rec_changed out = true) as Hch.
  { unfold reconcile in E. injection E as _ <-. simpl. apply negb_true_iff, bool_decide_eq_false.
    rewrite length_map. intros Hz. apply length_zero_iff_nil in Hz.
    assert (r ∈ List.filter (gone w) rs0) as Hf by (by apply elem_of_filter_b).
    rewrite Hz in Hf. by apply not_elem_of_nil in Hf. }
  eexists. split_and!.
  - eapply rtc_l. { apply (step_load _ 0%nat w (to_json rs0) rs1 out); [done | done | done |].
                    by rewrite json_roundtrip. }
    rewrite Hch. simpl.
    eapply rtc_l. { apply (step_acquire _ 1%nat w f (Some (to_json rs1)) rs1);
                      [done | done | done |].
                    unfold load_state. cbn [sys_disk start].
                    rewrite Hr, json_roundtrip. simpl default.
                    rewrite E, Hch. unfold write_to_disk. by rewrite Hw. }
    simpl.
    eapply rtc_l. { apply (step_commit _ 1%nat w f rs1 (Some (to_json (f rs1)))); [done|].
                    unfold write_to_disk. by rewrite Hw. }
    simpl.
    eapply rtc_l. { apply (step_write_back _ 0%nat w rs1 (Some (to_json rs1))); [done|].
                    unfold write_to_disk. by rewrite Hw. }
    apply rtc_refl.
  - done.
  - done.
  - done.
Qed.

(** A state file that does not parse is silently replaced.  [load] takes it
    for an empty one, so the next recorded box overwrites every previous record. *)
Theorem corrupt_state_erased w c r :
  lock_works w = true → io_good w → from_json c = None →
  add_record to_json from_json w r (Some c) = (Some (to_json [r]), Ok ()).
Proof.
  intros Hl [Hr Hw] Hc. unfold add_record, modify. rewrite Hl. unfold load_state.
  rewrite Hr, Hc. simpl. unfold write_to_disk. by rewrite Hw.
Qed.

End concurrency.

(** ** Concrete runs *)

Definition demo_a : BoxRecord := demo_record "a" "web" "created" None "no".
Definition demo_b : BoxRecord := demo_record "b" "db" "created" None "no".
Definition demo_updates : list (records → records) := [λ rs, rs ++ [demo_a]; λ rs, rs ++ [demo_b]].

(** The second process commits first; a reader loads while the lock is held. *)
Definition demo_procs : list proc := map PModify demo_updates ++ [PLoad].
Definition demo_final : system :=
  {| sys_disk := Some [demo_b; demo_a]; sys_holder := None;
     sys_procs := map PCommitted demo_updates ++ [PLoaded [demo_b]];
     sys_log := [(demo_world, λ rs, rs ++ [demo_b]); (demo_world, λ rs, rs ++ [demo_a])] |}.

Ltac calm_step_tac step :=
  eapply rtc_l;
  [split; [by apply step | intros [|[|[|i]]] rs; by intros [=]]|].

Lemma demo_run : rtc (calm_step id Some) (start id [] demo_procs) demo_final.
Proof.
  calm_step_tac (step_acquire id Some (start id [] demo_procs) 1%nat demo_world
    (λ rs, rs ++ [demo_b]) (Some []) []).
  calm_step_tac (λ s, step_commit id Some s 1%nat demo_world (λ rs, rs ++ [demo_b]) []
    (Some [demo_b])).
  calm_step_tac (λ s, step_acquire id Some s 0%nat demo_world (λ rs, rs ++ [demo_a])
                (Some [demo_b]) [demo_b]).
  calm_step_tac (λ s, step_load id Some s 2%nat demo_world [demo_b] [demo_b]
    (reconcile demo_world [demo_b]).2).
  calm_step_tac (λ s, step_commit id Some s 0%nat demo_world (λ rs, rs ++ [demo_a]) [demo_b]
                (Some [demo_b; demo_a])).
  apply rtc_refl.
Qed.

Lemma modify_serialises_witness :
  Forall fresh demo_procs ∧ rtc (calm_step id Some) (start id [] demo_procs) demo_final ∧
  Some <$> sys_disk demo_final = Some (Some [demo_b; demo_a]) ∧
  map snd (sys_log demo_final) ≡ₚ demo_updates.
Proof.
  assert (Forall fresh demo_procs) as Hf by (repeat constructor).
  split; [done|]. split; [apply demo_run|].
  apply (modify_serialises id Some (λ _, eq_refl) [] demo_procs demo_final Hf demo_run).
  intros [|[|[|i]]] p; by intros [= <-].
Defined.

Lemma unlocked_load_loses_update_witness :
  ∃ s, rtc (sys_step id Some)
         (start id [demo_record "d" "old" "running" (Some 2) "no"]
            [PLoad; PModify (λ rs, rs ++ [demo_a])]) s ∧
    find_by_id (default [] (sys_disk s)) "a" = None.
Proof.
  destruct (unlocked_load_loses_update id Some (λ _, eq_refl) demo_world
    [demo_record "d" "old" "running" (Some 2) "no"] (λ rs, rs ++ [demo_a])
    ltac:(by split)) as (s & Hs & _ & _ & Hd).
  { eexists. split; [by left | reflexivity]. }
  exists s. split; [done|]. rewrite Hd. reflexivity.
Defined.

Lemma corrupt_state_erased_witness :
  add_record (content := option records) Some id demo_world demo_a (Some None) =
    (Some (Some [demo_a]), Ok ()).
Proof. apply (corrupt_state_erased (content := option records)); by repeat split. Defined.

(** ** Resolution *)

Lemma find_by_id_spec rs id r :
  NoDup (map b_id rs) → find_by_id rs id = Some r ↔ r ∈ rs ∧ b_id r = id.
Proof.
  intros Hnd. unfold find_by_id. split.
  - intros [Hin E%bool_decide_eq_true]%find_some. by rewrite list_elem_of_In.
  - intros [Hin <-]. induction rs as [|x rs IH]; [by apply not_elem_of_nil in Hin|].
    simpl in *. apply list.NoDup_cons in Hnd as [Hx Hnd].
    apply elem_of_cons in Hin as [->|Hin]; [by rewrite bool_decide_true|].
    rewrite bool_decide_false; [by apply IH|].
    intros E. apply Hx. rewrite E. by apply (list_elem_of_fmap_2 b_id).
Qed.

Lemma find_by_name_spec rs name r :
  NoDup (map b_name rs) → find_by_name rs name = Some r ↔ r ∈ rs ∧ b_name r = name.
Proof.
  intros Hnd. unfold find_by_name. split.
  - intros [Hin E%bool_decide_eq_true]%find_some. by rewrite list_elem_of_In.
  - intros [Hin <-]. induction rs as [|x rs IH]; [by apply not_elem_of_nil in Hin|].
    simpl in *. apply list.NoDup_cons in Hnd as [Hx Hnd].
    apply elem_of_cons in Hin as [->|Hin]; [by rewrite bool_decide_true|].
    rewrite bool_decide_false; [by apply IH|].
    intros E. apply Hx. rewrite E. by apply (list_elem_of_fmap_2 b_name).
Qed.

Lemma find_by_name_None rs name r : find_by_name rs name = None → r ∈ rs → b_name r ≠ name.
Proof.
  intros E Hin. apply list_elem_of_In in Hin. apply (find_none _ _ E) in Hin.
  by apply bool_decide_eq_false in Hin.
Qed.

Lemma find_by_id_None rs id r : find_by_id rs id = None → r ∈ rs → b_id r ≠ id.
Proof.
  intros E Hin. apply list_elem_of_In in Hin. apply (find_none _ _ E) in Hin.
  by apply bool_decide_eq_false in Hin.
Qed.

Definition id_matches (query : string) (r : BoxRecord) : bool :=
  starts_with query (b_id r) || starts_with query (b_short_id r).

Lemma starts_with_refl s : starts_with s s = true.
Proof. apply starts_with_spec. exists ""%string. by rewrite str_app_nil_r. Qed.

(** Resolution of a box reference.  With distinct ids and names: a name
    resolves to its box; failing that a full id to its box; failing that a prefix
    of the id or short id of exactly one box to that box; a reference that
    matches nothing is reported as unknown and one that matches several boxes as
    ambiguous, with their number. *)
Theorem resolve_exact rs query :
  NoDup (map b_id rs) → NoDup (map b_name rs) →
  (∀ r, r ∈ rs → b_name r = query → resolve rs query = Ok r) ∧
  ((∀ r, r ∈ rs → b_name r ≠ query) →
     (∀ r, r ∈ rs → b_id r = query → resolve rs query = Ok r) ∧
     ((∀ r, r ∈ rs → b_id r ≠ query) →
        (∀ r, resolve rs query = Ok r ↔
           r ∈ rs ∧ id_matches query r = true ∧
           length (List.filter (id_matches query) rs) = 1%nat) ∧
        (resolve rs query = Err (NoSuchBox query) ↔
           ∀ r, r ∈ rs → id_matches query r = false) ∧
        (∀ n, resolve rs query = Err (Ambiguous query n) ↔
           length (List.filter (id_matches query) rs) = n ∧ (2 ≤ n)%nat))).
Proof.
  intros Hid Hname. unfold resolve. split.
  { intros r Hr E. by rewrite (proj2 (find_by_name_spec rs query r Hname)). }
  intros Hnn. destruct (find_by_name rs query) as [r|] eqn:En.
  { apply find_by_name_spec in En as [Hin E]; [|done]. by apply Hnn in Hin. }
  split.
  { intros r Hr E. by rewrite (proj2 (find_by_id_spec rs query r Hid)). }
  intros Hni. destruct (find_by_id rs query) as [r|] eqn:Ei.
  { apply find_by_id_spec in Ei as [Hin E]; [|done]. by apply Hni in Hin. }
  change (find_by_id_prefix rs query) with (List.filter (id_matches query) rs).
  pose proof (λ r, elem_of_filter_b (id_matches query) rs r) as Hel.
  destruct (List.filter (id_matches query) rs) as [|x [|y l]] eqn:Ef.
  - split_and!.
    + intros r. split; [done|]. by intros (_ & _ & ?).
    + split; [|done]. intros _ r Hr. destruct (id_matches query r) eqn:Em; [|done].
      exfalso. apply (not_elem_of_nil r). by apply Hel.
    + intros n. split; [done|]. simpl. lia.
  - assert (x ∈ rs ∧ id_matches query x = true) as [Hx Hmx] by (apply Hel; by left).
    split_and!.
    + intros r. split; [by intros [= <-]|]. intros (Hr & Hm & _). f_equal.
      assert (r ∈ [x]) as ->%list_elem_of_singleton by (by apply Hel). done.
    + split; [done|]. intros Hno. rewrite Hno in Hmx; done.
    + intros n. split; [done|]. simpl. lia.
  - assert (x ∈ rs ∧ id_matches query x = true) as [Hx Hmx] by (apply Hel; by left).
    split_and!.
    + intros r. split; [done|]. by intros (_ & _ & ?).
    + split; [done|]. intros Hno. rewrite Hno in Hmx; done.
    + intros n. simpl. split; [intros [= <-]; lia | intros [<- _]; done].
Qed.

Lemma resolve_exact_witness :
  resolve [demo_a; demo_b] "db" = Ok demo_b ∧ resolve [demo_a; demo_b] "a" = Ok demo_a.
Proof.
  assert (NoDup (map b_id [demo_a; demo_b]) ∧ NoDup (map b_name [demo_a; demo_b])) as [Hi Hn]
    by (split; simpl; repeat constructor; set_solver).
  split.
  - apply (proj1 (resolve_exact [demo_a; demo_b] "db" Hi Hn)); [|done].
    apply elem_of_cons. right. by left.
  - refine (proj1 (proj2 (resolve_exact [demo_a; demo_b] "a" Hi Hn) _) demo_a _ _); [|by left | done].
    intros r [->|[->|?%not_elem_of_nil]%elem_of_cons]%elem_of_cons; done.
Defined.
