(* ===== verification/Lifecycle.v ===== *)
(** * Lifecycle: commands, health checks and the monitor

    The commands that move a box through its states (start, stop, kill, pause,
    unpause, restart, rm, rename in [cli/src/commands/]), with the checks of
    [cli/src/status.rs] and [cli/src/lifecycle.rs], [boot::apply_boot_result],
    the health checks of [cli/src/health.rs] and the restart monitor of
    [cli/src/commands/monitor.rs].  What the machine answers during a command
    (signals, guest, boot, clock) is its [machine]; what the command asks of it is
    a list of effects.  The model is of the Unix build. *)

From Stdlib Require Import ZArith Lia Ascii.
From stdpp Require Import base gmap strings list numbers relations.
From S2P Require Import Prelude RustStr Network Store Config BoxState.

Local Open Scope Z_scope.

(** ** Status ([cli/src/status.rs]) *)

Definition is_status (s : string) (r : BoxRecord) : bool := bool_decide (b_status r = s).

Definition status_hint (r : BoxRecord) : option string :=
  let n := b_name r in
  (if is_status "created" r then
    Some ("Use `a3s-box start " ++ n ++ "` to start it or `a3s-box rm " ++ n ++ "` to remove it.")
  else if is_status "paused" r then
    Some ("Use `a3s-box unpause " ++ n ++ "` to resume it or `a3s-box stop " ++ n ++ "` to stop it.")
  else if is_status "stopped" r then
    Some ("Use `a3s-box start " ++ n ++ "` to start it again or `a3s-box rm " ++ n ++ "` to remove it.")
  else if is_status "dead" r then
    Some ("Run `a3s-box logs " ++ n ++ "` to inspect failure output, then `a3s-box restart " ++ n
          ++ "` or `a3s-box rm " ++ n ++ "`.")
  else None)%string.

Definition show_int (n : Z) : string :=
  if n <? 0 then ("-" ++ show_uint (- n))%string else show_uint n.

Definition shown_health (r : BoxRecord) : option string :=
  if is_active r && bool_decide (is_Some (b_health_check r))
     && negb (bool_decide (b_health_status r = "none"%string))
  then Some (b_health_status r) else None.

Definition annotations (r : BoxRecord) : list string :=
  match shown_health r with Some h => [h] | None => [] end
  ++ (if is_status "stopped" r || is_status "dead" r then
        match b_exit_code r with Some c => ["Exit "%string +:+ show_int c] | None => [] end
      else [])
  ++ (if 0 <? b_restart_count r
      then ["Restarts: "%string +:+ show_uint (b_restart_count r)] else []).

Definition format_status (r : BoxRecord) : string :=
  match annotations r with
  | [] => b_status r
  | l => (b_status r ++ " (" ++ join ", " l ++ ")")%string
  end.

Record StatusDetails := {
  sd_state : string; sd_summary : string; sd_active : bool; sd_pid : option Z;
  sd_exit_code : option Z; sd_health : option string; sd_restart_count : Z;
  sd_hint : option string }.

Definition status_details (r : BoxRecord) : StatusDetails :=
  {| sd_state := b_status r; sd_summary := format_status r; sd_active := is_active r;
     sd_pid := b_pid r; sd_exit_code := b_exit_code r; sd_health := shown_health r;
     sd_restart_count := b_restart_count r; sd_hint := status_hint r |}.

(** ** The commands' monad: state handle, effects, errors *)

Inductive cmd_err :=
  | CmdResolve (e : resolve_err)
  | CmdState (e : state_err)
  | NotActive (action name status : string)
  | StalePid (action name : string) (pid : option Z)
  | WrongState (name status : string)
  | SignalFailed (pid signal : Z)
  | BootFailed
  | NameTaken (name : string)
  | NeedsForce (name status : string)
  | UnknownSignal (name : string).

Inductive effect :=
  | ESignal (pid signal : Z)
  | EGuestSignal (pid signal : Z)
  | EGracefulStop (pid signal timeout : Z)
  | ETerminate (pid : Z)
  | ECleanupStopped (r : BoxRecord)
  | ECleanupRemoved (r : BoxRecord)
  | ECleanupSocket (r : BoxRecord)
  | EBoot (r : BoxRecord).

Inductive StopOutcome := AlreadyExited | GracefulExit | ForceKilled.

Record BootResult := {
  br_pid : option Z; br_exec_socket_path : option string; br_health_check : option HealthCheck;
  br_stop_signal : option string; br_anonymous_volumes : list string }.

(** What the machine answers during one command. *)
Record machine := {
  mw : world; now : Z; signal_ok : bool; guest_delivers : bool; outcome : StopOutcome;
  boot : option BootResult }.

Section commands.
Context {content : Type} (to_json : records → content) (from_json : content → option records).
Context (to_uppercase : string → string).

(** A [StateFile] value in memory and the file on disk. *)
Record handle := { h_records : records; h_disk : option content }.

Definition M (A : Type) : Type := handle → handle * list effect * result cmd_err A.

#[global] Instance M_ret : MRet M := λ A a h, (h, [], Ok a).
#[global] Instance M_bind : MBind M := λ A B k m h,
  let '(h1, e1, r) := m h in
  match r with
  | Ok a => let '(h2, e2, r2) := k a h1 in (h2, e1 ++ e2, r2)
  | Err e => (h1, e1, Err e)
  end.

Definition fail {A} (e : cmd_err) : M A := λ h, (h, [], Err e).
Definition emit (e : effect) : M () := λ h, (h, [e], Ok ()).
Definition lift {A} (r : result cmd_err A) : M A := λ h, (h, [], r).
Definition lookup_box (query : string) : M BoxRecord :=
  λ h, (h, [], map_err CmdResolve (resolve (h_records h) query)).

(** [resolve_mut(state, q)?] with the assignments that follow. *)
Definition assign (query : string) (f : BoxRecord → BoxRecord) : M () := λ h,
  match resolve_update (h_records h) query f with
  | Ok rs => ({| h_records := rs; h_disk := h_disk h |}, [], Ok ())
  | Err e => (h, [], Err (CmdResolve e))
  end.

Definition save_handle (w : world) : M () := λ h,
  let '(d, r) := save_state to_json w (h_records h) (h_disk h) in
  ({| h_records := h_records h; h_disk := d |}, [], map_err CmdState r).

Definition remove_handle (w : world) (id : string) : M bool := λ h,
  let '(rs, d, r) := remove to_json w id (h_records h) (h_disk h) in
  ({| h_records := rs; h_disk := d |}, [], map_err CmdState r).

(** [StateFile::remove_record(id)?] and [state.forget(id)] *)
Definition remove_and_forget (w : world) (id : string) : M () := λ h,
  let '(d, res) := remove_record to_json from_json w id (h_disk h) in
  match res with
  | Err e => ({| h_records := h_records h; h_disk := d |}, [], Err (CmdState e))
  | Ok _ => ({| h_records := forget id (h_records h); h_disk := d |}, [], Ok ())
  end.

Definition name_free (n : string) : M () := λ h,
  match find_by_name (h_records h) n with
  | Some _ => (h, [], Err (NameTaken n))
  | None => (h, [], Ok ())
  end.

(** ** Checks ([cli/src/status.rs], [cli/src/lifecycle.rs]) *)

Definition require_active (r : BoxRecord) (action : string) : result cmd_err () :=
  if is_active r then Ok () else Err (NotActive action (b_name r) (b_status r)).

Definition require_live_pid (w : world) (r : BoxRecord) (action : string) : result cmd_err Z :=
  match b_pid r with
  | Some pid => if alive w pid then Ok pid else Err (StalePid action (b_name r) (Some pid))
  | None => Err (StalePid action (b_name r) None)
  end.

Definition SIGHUP : Z := 1.
Definition SIGINT : Z := 2.
Definition SIGQUIT : Z := 3.
Definition SIGKILL : Z := 9.
Definition SIGTERM : Z := 15.
Definition SIGCONT : Z := 18.
Definition SIGSTOP : Z := 19.

Definition send_signal (m : machine) (pid signal : Z) : M () :=
  _ ← emit (ESignal pid signal);
  if signal_ok m then mret () else fail (SignalFailed pid signal).

Definition resume_paused_for_termination (m : machine) (r : BoxRecord) (pid : Z) : M () :=
  if negb (is_status "paused" r) then mret () else send_signal m pid SIGCONT.

(** ** Signals *)

Definition signal_names : list (string * Z) :=
  [("HUP", 1); ("INT", 2); ("QUIT", 3); ("ILL", 4); ("ABRT", 6); ("FPE", 8); ("KILL", 9);
   ("USR1", 10); ("SEGV", 11); ("USR2", 12); ("PIPE", 13); ("ALRM", 14); ("ALARM", 14);
   ("TERM", 15); ("CHLD", 17); ("CLD", 17); ("CONT", 18); ("STOP", 19); ("TSTP", 20);
   ("WINCH", 28)]%string.

Definition assoc {A} (l : list (string * A)) (k : string) : option A :=
  snd <$> List.find (λ kv, bool_decide (kv.1 = k)) l.

(** [vmm::parse_signal_name] *)
Definition parse_signal_name (name : string) : Z :=
  let upper := to_uppercase (trim name) in
  let short := default upper (strip_prefix "SIG" upper) in
  match assoc signal_names short with
  | Some n => n
  | None => default 15 (parse_int 32 (trim name))
  end.

(** [kill::parse_signal] *)
Definition parse_signal (name : string) : result cmd_err Z :=
  let upper := to_uppercase name in
  let normalized := default upper (strip_prefix "SIG" upper) in
  match assoc [("KILL", 9); ("TERM", 15); ("INT", 2); ("HUP", 1); ("QUIT", 3); ("USR1", 10);
               ("USR2", 12); ("STOP", 19); ("CONT", 18)]%string normalized with
  | Some n => Ok n
  | None => ok_or (UnknownSignal name) (parse_int 32 normalized)
  end.

Definition is_stopping_signal (s : Z) : bool :=
  bool_decide (s ∈ [SIGKILL; SIGTERM; SIGINT; SIGHUP; SIGQUIT]).
Definition signaled_exit_code (s : Z) : Z := 128 + s.
Definition signal_status_transition (s : Z) : option string :=
  if s =? SIGSTOP then Some "paused"%string
  else if s =? SIGCONT then Some "running"%string else None.

Definition inferred_exit_code (o : StopOutcome) (stop_signal : Z) : option Z :=
  match o with
  | AlreadyExited => None
  | GracefulExit => Some (128 + Z.max stop_signal 0)
  | ForceKilled => Some 137
  end.

Definition stopped_exit_code (previous : option Z) (o : option StopOutcome) (sig : Z) : option Z :=
  match o ≫= (λ o, inferred_exit_code o sig) with Some c => Some c | None => previous end.

(** ** Field assignments *)

Definition set_status (s : string) (r : BoxRecord) : BoxRecord :=
  with_live r
    {| v_status := s; v_pid := b_pid r; v_exec_socket_path := b_exec_socket_path r;
       v_started_at := b_started_at r; v_stopped_by_user := b_stopped_by_user r;
       v_restart_count := b_restart_count r; v_exit_code := b_exit_code r;
       v_health_check := b_health_check r; v_health_status := b_health_status r;
       v_health_retries := b_health_retries r; v_health_last_check := b_health_last_check r;
       v_anonymous_volumes := b_anonymous_volumes r; v_stop_signal := b_stop_signal r |}.

(** [stop] and [kill]: stopped by the user, with an exit code. *)
Definition set_stopped (exit_code : option Z) (r : BoxRecord) : BoxRecord :=
  with_live r
    {| v_status := "stopped"; v_pid := None; v_exec_socket_path := b_exec_socket_path r;
       v_started_at := b_started_at r; v_stopped_by_user := true;
       v_restart_count := b_restart_count r; v_exit_code := exit_code;
       v_health_check := b_health_check r; v_health_status := "none"; v_health_retries := 0;
       v_health_last_check := b_health_last_check r;
       v_anonymous_volumes := b_anonymous_volumes r; v_stop_signal := b_stop_signal r |}.

(** Phase 1 of [restart]: only the status and the PID. *)
Definition set_restarting (r : BoxRecord) : BoxRecord :=
  with_live r
    {| v_status := "stopped"; v_pid := None; v_exec_socket_path := b_exec_socket_path r;
       v_started_at := b_started_at r; v_stopped_by_user := b_stopped_by_user r;
       v_restart_count := b_restart_count r; v_exit_code := b_exit_code r;
       v_health_check := b_health_check r; v_health_status := b_health_status r;
       v_health_retries := b_health_retries r; v_health_last_check := b_health_last_check r;
       v_anonymous_volumes := b_anonymous_volumes r; v_stop_signal := b_stop_signal r |}.

Inductive RestartCountUpdate := Reset | Preserve | Increment.

(** [boot::apply_boot_result] *)
Definition apply_boot_result (m : machine) (result : BootResult) (u : RestartCountUpdate)
    (r : BoxRecord) : BoxRecord :=
  with_live r
    {| v_status := "running"; v_pid := br_pid result;
       v_exec_socket_path := default (b_exec_socket_path r) (br_exec_socket_path result);
       v_started_at := Some (now m); v_stopped_by_user := false;
       v_restart_count := match u with
                          | Reset => 0
                          | Preserve => b_restart_count r
                          | Increment => wrap 32 (b_restart_count r + 1)
                          end;
       v_exit_code := None; v_health_check := br_health_check result;
       v_health_status := match br_health_check result with
                          | Some _ => "starting"%string | None => "none"%string end;
       v_health_retries := 0; v_health_last_check := None;
       v_anonymous_volumes :=
         foldl (λ vs v, if bool_decide (v ∈ vs) then vs else vs ++ [v])
           (b_anonymous_volumes r) (br_anonymous_volumes result);
       v_stop_signal := br_stop_signal result |}.

Definition boot_from_record (m : machine) (r : BoxRecord) : M BootResult :=
  _ ← emit (EBoot r);
  match boot m with Some b => mret b | None => fail BootFailed end.

(** ** Commands *)

Definition start_one (m : machine) (query : string) : M () :=
  r ← lookup_box query;
  if is_status "created" r || is_status "stopped" r || is_status "dead" r then
    result ← boot_from_record m r;
    _ ← assign (b_id r) (apply_boot_result m result Reset);
    save_handle (mw m)
  else fail (WrongState (b_name r) (b_status r)).

Definition stop_one (m : machine) (query : string) (timeout : option Z) : M () :=
  r ← lookup_box query;
  _ ← lift (require_active r "stop");
  pid ← lift (require_live_pid (mw m) r "stop");
  let stop_signal := default 15 (parse_signal_name <$> b_stop_signal r) in
  let effective := default 10 (match timeout with Some t => Some t | None => b_stop_timeout r end) in
  _ ← resume_paused_for_termination m r pid;
  _ ← emit (EGracefulStop pid stop_signal effective);
  if b_auto_remove r then
    _ ← emit (ECleanupRemoved r);
    _ ← remove_handle (mw m) (b_id r); mret ()
  else
    _ ← emit (ECleanupStopped r);
    _ ← assign (b_id r)
          (set_stopped (stopped_exit_code (b_exit_code r) (Some (outcome m)) stop_signal));
    save_handle (mw m).

Definition pause_one (m : machine) (query : string) : M () :=
  r ← lookup_box query;
  if negb (is_status "running" r) then fail (WrongState (b_name r) (b_status r))
  else
    pid ← lift (require_live_pid (mw m) r "pause");
    _ ← send_signal m pid SIGSTOP;
    _ ← assign (b_id r) (set_status "paused");
    save_handle (mw m).

Definition unpause_one (m : machine) (query : string) : M () :=
  r ← lookup_box query;
  if negb (is_status "paused" r) then fail (WrongState (b_name r) (b_status r))
  else
    pid ← lift (require_live_pid (mw m) r "unpause");
    _ ← send_signal m pid SIGCONT;
    _ ← assign (b_id r) (set_status "running");
    save_handle (mw m).

Definition kill_one (m : machine) (query : string) (signal : Z) : M () :=
  r ← lookup_box query;
  _ ← lift (require_active r "send a signal to");
  pid ← lift (require_live_pid (mw m) r "send a signal to");
  _ ← (if is_status "paused" r && is_stopping_signal signal && negb (signal =? SIGKILL)
       then resume_paused_for_termination m r pid else mret ());
  _ ← (if guest_delivers m then emit (EGuestSignal pid signal) else send_signal m pid signal);
  if is_stopping_signal signal then
    if b_auto_remove r then
      _ ← emit (ECleanupRemoved r);
      _ ← remove_handle (mw m) (b_id r); mret ()
    else
      _ ← emit (ECleanupStopped r);
      _ ← assign (b_id r) (set_stopped (Some (signaled_exit_code signal)));
      save_handle (mw m)
  else
    match signal_status_transition signal with
    | Some s => _ ← assign (b_id r) (set_status s); save_handle (mw m)
    | None => mret ()
    end.

Definition restart_one (m : machine) (query : string) (timeout : Z) : M () :=
  r ← lookup_box query;
  if negb (is_active r || is_status "created" r || is_status "stopped" r || is_status "dead" r)
  then fail (WrongState (b_name r) (b_status r))
  else
    _ ← (if is_active r then
           pid ← lift (require_live_pid (mw m) r "restart");
           let stop_signal := default SIGTERM (parse_signal_name <$> b_stop_signal r) in
           let effective := default timeout (b_stop_timeout r) in
           _ ← resume_paused_for_termination m r pid;
           _ ← emit (EGracefulStop pid stop_signal effective);
           _ ← assign (b_id r) set_restarting;
           _ ← emit (ECleanupSocket r);
           save_handle (mw m)
         else mret ());
    r2 ← lookup_box (b_id r);
    result ← boot_from_record m r2;
    _ ← assign (b_id r) (apply_boot_result m result Preserve);
    save_handle (mw m).

Definition rm_one (m : machine) (query : string) (force : bool) : M () :=
  r ← lookup_box query;
  _ ← (if is_active r then
         if negb force then fail (NeedsForce (b_name r) (b_status r))
         else match b_pid r with Some pid => emit (ETerminate pid) | None => mret () end
       else mret ());
  _ ← emit (ECleanupRemoved r);
  remove_and_forget (mw m) (b_id r).

Definition set_name (n : string) (r : BoxRecord) : BoxRecord :=
  {| b_id := b_id r; b_short_id := b_short_id r; b_name := n; b_image := b_image r;
     b_status := b_status r; b_pid := b_pid r; b_cpus := b_cpus r;
     b_memory_mb := b_memory_mb r; b_volumes := b_volumes r; b_env := b_env r;
     b_cmd := b_cmd r; b_entrypoint := b_entrypoint r; b_box_dir := b_box_dir r;
     b_exec_socket_path := b_exec_socket_path r; b_console_log := b_console_log r;
     b_created_at := b_created_at r; b_started_at := b_started_at r;
     b_auto_remove := b_auto_remove r; b_hostname := b_hostname r; b_user := b_user r;
     b_workdir := b_workdir r; b_restart_policy := b_restart_policy r;
     b_port_map := b_port_map r; b_labels := b_labels r;
     b_stopped_by_user := b_stopped_by_user r; b_restart_count := b_restart_count r;
     b_max_restart_count := b_max_restart_count r; b_exit_code := b_exit_code r;
     b_health_check := b_health_check r; b_healthcheck_disabled := b_healthcheck_disabled r;
     b_health_status := b_health_status r; b_health_retries := b_health_retries r;
     b_health_last_check := b_health_last_check r; b_network_mode := b_network_mode r;
     b_network_name := b_network_name r; b_volume_names := b_volume_names r;
     b_tmpfs := b_tmpfs r; b_anonymous_volumes := b_anonymous_volumes r;
     b_resource_limits := b_resource_limits r; b_log_config := b_log_config r;
     b_add_host := b_add_host r; b_platform := b_platform r; b_init := b_init r;
     b_read_only := b_read_only r; b_cap_add := b_cap_add r; b_cap_drop := b_cap_drop r;
     b_security_opt := b_security_opt r; b_privileged := b_privileged r;
     b_devices := b_devices r; b_gpus := b_gpus r; b_shm_size := b_shm_size r;
     b_stop_signal := b_stop_signal r; b_stop_timeout := b_stop_timeout r;
     b_oom_kill_disable := b_oom_kill_disable r; b_oom_score_adj := b_oom_score_adj r |}.

Definition rename_box (m : machine) (query new_name : string) : M () :=
  _ ← name_free new_name;
  _ ← assign query (set_name new_name);
  save_handle (mw m).

End commands.

(** ** Health checks ([cli/src/health.rs]) *)

Definition probe_timeout_ns (hc : HealthCheck) : Z := sat_mul 64 (hk_timeout_secs hc) 1000000000.

(** [chrono::Duration::seconds], which panics beyond [i64::MAX] milliseconds:
    [None]; otherwise nanoseconds. *)
Definition chrono_seconds (s : Z) : option Z :=
  if s <=? (2 ^ 63 - 1) / 1000 then Some (s * 1000000000) else None.

Definition bounded_chrono_seconds (s : Z) : option Z := chrono_seconds (Z.min s (2 ^ 63 - 1)).

(** [DateTime + Duration] panics past the last representable time. *)
Definition add_time (datetime_max t d : Z) : option Z :=
  if t + d <=? datetime_max then Some (t + d) else None.

(** [should_probe]; [None] is a panic. *)
Definition should_probe (datetime_max : Z) (r : BoxRecord) (now : Z) : option bool :=
  match b_health_check r with
  | None => Some false
  | Some hc =>
      if negb (is_status "running" r) then Some false
      else
        waiting ← match b_started_at r with
                  | None => Some false
                  | Some started =>
                      d ← bounded_chrono_seconds (hk_start_period_secs hc);
                      t ← add_time datetime_max started d;
                      Some (now <? t)
                  end;
        if waiting : bool then Some false
        else
          match b_health_last_check r with
          | None => Some true
          | Some last =>
              d ← bounded_chrono_seconds (Z.max (hk_interval_secs hc) 1);
              t ← add_time datetime_max last d;
              Some (t <=? now)
          end
  end.

Definition set_health (status : string) (retries checked_at : Z) (r : BoxRecord) : BoxRecord :=
  with_live r
    {| v_status := b_status r; v_pid := b_pid r; v_exec_socket_path := b_exec_socket_path r;
       v_started_at := b_started_at r; v_stopped_by_user := b_stopped_by_user r;
       v_restart_count := b_restart_count r; v_exit_code := b_exit_code r;
       v_health_check := b_health_check r; v_health_status := status;
       v_health_retries := retries; v_health_last_check := Some checked_at;
       v_anonymous_volumes := b_anonymous_volumes r; v_stop_signal := b_stop_signal r |}.

Definition apply_probe_result (healthy : bool) (checked_at : Z) (r : BoxRecord) : BoxRecord :=
  if negb (is_status "running" r) then r
  else if healthy then set_health "healthy" 0 checked_at r
  else
    let retries := sat_add 32 (b_health_retries r) 1 in
    let status :=
      match b_health_check r with
      | Some hc => if hk_retries hc <=? retries then "unhealthy"%string else b_health_status r
      | None => b_health_status r
      end in
    set_health status retries checked_at r.

(** The update of one round of [run_health_loop], and whether the loop goes on. *)
Definition health_round (id : string) (healthy : bool) (now : Z) (rs : records) : records * bool :=
  match find_by_id rs id with
  | None => (rs, false)
  | Some r =>
      if negb (is_status "running" r) then (rs, false)
      else (update_by_id id (apply_probe_result healthy now) rs, true)
  end.

(** ** The monitor ([cli/src/commands/monitor.rs])

    Times and delays in seconds of a monotonic clock. *)

Definition MIN_BACKOFF : Z := 1.
Definition MAX_BACKOFF : Z := 60.
Definition STABLE_THRESHOLD : Z := 30.

Record BackoffEntry := { delay : Z; last_attempt : Z; last_seen_running : option Z }.

Definition entry_new (now : Z) : BackoffEntry :=
  {| delay := MIN_BACKOFF; last_attempt := now - MAX_BACKOFF; last_seen_running := None |}.

Definition entry_ready (now : Z) (e : BackoffEntry) : bool := delay e <=? now - last_attempt e.

Definition entry_record_attempt (now : Z) (e : BackoffEntry) : BackoffEntry :=
  {| delay := Z.min (delay e * 2) MAX_BACKOFF; last_attempt := now;
     last_seen_running := last_seen_running e |}.

Definition entry_mark_running (now : Z) (e : BackoffEntry) : BackoffEntry :=
  match last_seen_running e with
  | Some since =>
      if STABLE_THRESHOLD <=? now - since then
        {| delay := MIN_BACKOFF; last_attempt := last_attempt e;
           last_seen_running := last_seen_running e |}
      else e
  | None => {| delay := delay e; last_attempt := last_attempt e; last_seen_running := Some now |}
  end.

Definition entry_mark_dead (e : BackoffEntry) : BackoffEntry :=
  {| delay := delay e; last_attempt := last_attempt e; last_seen_running := None |}.

Module BackoffTracker.

Abbreviation t := (gmap string BackoffEntry).

Definition new : t := ∅.
Definition entry (now : Z) (k : t) (id : string) : BackoffEntry := default (entry_new now) (k !! id).

Definition ready (now : Z) (k : t) (id : string) : bool :=
  match k !! id with None => true | Some e => entry_ready now e end.
Definition record_attempt (now : Z) (k : t) (id : string) : t :=
  <[id := entry_record_attempt now (entry now k id)]> k.
Definition mark_running (now : Z) (k : t) (id : string) : t :=
  <[id := entry_mark_running now (entry now k id)]> k.
Definition mark_dead (k : t) (id : string) : t :=
  match k !! id with Some e => <[id := entry_mark_dead e]> k | None => k end.
Definition current_delay (k : t) (id : string) : Z :=
  match k !! id with Some e => delay e | None => MIN_BACKOFF end.

End BackoffTracker.

Definition is_unhealthy_restart_candidate (r : BoxRecord) : bool :=
  is_status "running" r && bool_decide (b_health_status r = "unhealthy"%string)
  && bool_decide (is_Some (b_health_check r)) && should_restart r.

(** The boxes [poll_once] considers: dead ones first, then unhealthy ones. *)
Definition poll_candidates (rs : records) : list string :=
  pending_restarts rs ++ map b_id (List.filter is_unhealthy_restart_candidate rs).

(** [rec.status = "dead"; rec.pid = None; ...] of an unhealthy box *)
Definition set_dead (r : BoxRecord) : BoxRecord :=
  with_live r
    {| v_status := "dead"; v_pid := None; v_exec_socket_path := b_exec_socket_path r;
       v_started_at := b_started_at r; v_stopped_by_user := b_stopped_by_user r;
       v_restart_count := b_restart_count r; v_exit_code := b_exit_code r;
       v_health_check := b_health_check r; v_health_status := "none"; v_health_retries := 0;
       v_health_last_check := b_health_last_check r;
       v_anonymous_volumes := b_anonymous_volumes r; v_stop_signal := b_stop_signal r |}.

(** One round of the monitor.  [probe] answers a health probe of a box, [boots]
    is the machine during the restart of a box; each [StateFile::modify] reloads
    the file. *)
Section monitor.
Context {content : Type} (to_json : records → content) (from_json : content → option records).
Context (datetime_max : Z) (probe : string → bool) (boots : string → machine).

Abbreviation disk := (option content).

(** [StateFile::modify] with an update of one record *)
Definition modify_box (w : world) (id : string) (f : BoxRecord → BoxRecord) (d : disk)
    : disk * result state_err () :=
  modify to_json from_json Datatypes.id w (λ rs, Ok (update_by_id id f rs, ())) d.

(** The records a probe is due for, with [None] for a panic. *)
Fixpoint due_probes (now : Z) (rs : records) : option (list string) :=
  match rs with
  | [] => Some []
  | r :: rs =>
      due ← should_probe datetime_max r now;
      ids ← due_probes now rs;
      Some (if due : bool then b_id r :: ids else ids)
  end.

Fixpoint apply_probes (w : world) (now : Z) (ids : list string) (d : disk)
    : disk * result state_err () :=
  match ids with
  | [] => (d, Ok ())
  | id :: ids =>
      let '(d1, res) := modify_box w id (apply_probe_result (probe id) now) d in
      match res with Ok _ => apply_probes w now ids d1 | Err e => (d1, Err e) end
  end.

Definition run_due_health_checks (w : world) (now : Z) (rs : records) (d : disk)
    : option (disk * result state_err ()) :=
  ids ← due_probes now rs; Some (apply_probes w now ids d).

(** The body of the restart loop of [poll_once] for one candidate. *)
Definition poll_box (tnow : Z) (snapshot : records) (id : string)
    (k : BackoffTracker.t) (d : disk)
    : BackoffTracker.t * disk * list effect * result state_err () :=
  match find_by_id snapshot id with
  | None => (k, d, [], Ok ())
  | Some r =>
      if negb (BackoffTracker.ready tnow k id) then (k, d, [], Ok ())
      else
        let m := boots id in
        let k1 := BackoffTracker.mark_dead k id in
        let '(d1, effs, res1) :=
          if is_unhealthy_restart_candidate r then
            let '(d1, res) := modify_box (mw m) id set_dead d in
            (d1, match b_pid r with Some pid => [EGracefulStop pid SIGTERM 10] | None => [] end, res)
          else (d, [], Ok ()) in
        match res1 with
        | Err e => (k1, d1, effs, Err e)
        | Ok _ =>
            match boot m with
            | Some b =>
                let '(d2, res2) := modify_box (mw m) id (apply_boot_result m b Increment) d1 in
                match res2 with
                | Err e => (k1, d2, effs ++ [EBoot r], Err e)
                | Ok _ => (BackoffTracker.record_attempt tnow k1 id, d2, effs ++ [EBoot r], Ok ())
                end
            | None => (BackoffTracker.record_attempt tnow k1 id, d1, effs ++ [EBoot r], Ok ())
            end
        end
  end.

Fixpoint poll_loop (tnow : Z) (snapshot : records) (ids : list string)
    (k : BackoffTracker.t) (d : disk)
    : BackoffTracker.t * disk * list effect * result state_err () :=
  match ids with
  | [] => (k, d, [], Ok ())
  | id :: ids =>
      let '(k1, d1, e1, res) := poll_box tnow snapshot id k d in
      match res with
      | Err e => (k1, d1, e1, Err e)
      | Ok _ => let '(k2, d2, e2, res2) := poll_loop tnow snapshot ids k1 d1 in
                (k2, d2, e1 ++ e2, res2)
      end
  end.

Definition poll_once (w : world) (now tnow : Z) (k : BackoffTracker.t) (d : disk)
    : option (BackoffTracker.t * disk * list effect * result state_err ()) :=
  let '(d0, loaded) := load_state to_json from_json w d in
  match loaded with
  | Err e => Some (k, d0, [], Err e)
  | Ok rs =>
      let k1 := foldl (λ k r, if is_active r then BackoffTracker.mark_running tnow k (b_id r) else k)
                  k rs in
      checked ← run_due_health_checks w now rs d0;
      let '(d1, res) := checked in
      match res with
      | Err e => Some (k1, d1, [], Err e)
      | Ok _ => Some (poll_loop tnow rs (poll_candidates rs) k1 d1)
      end
  end.

End monitor.

(** ** Invariant of the recorded boxes *)

Definition statuses : list string := ["created"; "running"; "paused"; "stopped"; "dead"]%string.

(** A known status, and a PID only while active. *)
Record record_wf (r : BoxRecord) : Prop := {
  wf_status : b_status r ∈ statuses;
  wf_pid : is_active r = false → b_pid r = None }.

(** What the history so far says of ids and names: which ids were drawn for a
    box, and whether every new box got a name that was free. *)
Class Naming := { drawn : string → Prop; free_names : Prop }.

Record records_inv `{Naming} (rs : records) : Prop := {
  inv_wf : ∀ r, r ∈ rs → record_wf r;
  inv_ids : NoDup (map b_id rs);
  inv_drawn : ∀ r, r ∈ rs → drawn (b_id r);
  inv_names : free_names → NoDup (map b_name rs) }.

(** An assignment that yields a well-formed record and keeps its identity. *)
Record tame (f : BoxRecord → BoxRecord) : Prop := {
  tame_wf : ∀ r, record_wf r → record_wf (f r);
  tame_id : ∀ r, b_id (f r) = b_id r;
  tame_name : ∀ r, b_name (f r) = b_name r }.

Lemma update_by_id_map {A} (g : BoxRecord → A) id f rs :
  (∀ r, g (f r) = g r) → map g (update_by_id id f rs) = map g rs.
Proof.
  intros Hg. induction rs as [|r rs IH]; simpl; [done|].
  case_bool_decide; simpl; rewrite ?Hg, ?IH; done.
Qed.

Lemma elem_of_update_by_id id f rs r :
  r ∈ update_by_id id f rs → r ∈ rs ∨ ∃ x, x ∈ rs ∧ b_id x = id ∧ r = f x.
Proof.
  induction rs as [|x rs IH]; simpl; [by intros ?%not_elem_of_nil|].
  setoid_rewrite elem_of_cons. case_bool_decide; rewrite elem_of_cons; [naive_solver|].
  intros [->|[?|(y & ? & ?)]%IH]; [auto | auto | right; exists y; naive_solver].
Qed.

Section records_inv.
Context {N : Naming}.

Lemma update_by_id_inv id f rs : tame f → records_inv rs → records_inv (update_by_id id f rs).
Proof.
  intros [Hw Hi Hn] [Hwf Hids Hdr Hnames]. constructor.
  - intros r [?|(x & ? & _ & ->)]%elem_of_update_by_id; auto.
  - by rewrite update_by_id_map.
  - intros r [?|(x & ? & _ & ->)]%elem_of_update_by_id; rewrite ?Hi; auto.
  - by rewrite update_by_id_map.
Qed.

Lemma filter_inv p rs : records_inv rs → records_inv (List.filter p rs).
Proof.
  intros [Hwf Hids Hdr Hnames].
  constructor; [|by apply NoDup_map_filter | |intros ?; apply NoDup_map_filter; auto];
    intros r [? _]%elem_of_filter_b; auto.
Qed.

Lemma map_inv f rs : tame f → records_inv rs → records_inv (map f rs).
Proof.
  intros [Hw Hi Hn] [Hwf Hids Hdr Hnames]. constructor.
  - intros r (x & -> & ?)%list_elem_of_fmap. auto.
  - by rewrite map_map, (map_ext _ b_id Hi).
  - intros r (x & -> & ?)%list_elem_of_fmap. rewrite Hi. auto.
  - by rewrite map_map, (map_ext _ b_name Hn).
Qed.

Lemma snoc_inv r rs :
  records_inv rs → record_wf r → drawn (b_id r) → b_id r ∉ map b_id rs →
  (free_names → b_name r ∉ map b_name rs) → records_inv (rs ++ [r]).
Proof.
  intros [Hwf Hids Hdr Hnames] Hr Hd Hi Hn. constructor.
  - intros x [?| ->]%elem_of_snoc; auto.
  - rewrite map_app. by apply NoDup_snoc.
  - intros x [?| ->]%elem_of_snoc; auto.
  - intros Hf. rewrite map_app. apply NoDup_snoc; auto.
Qed.

End records_inv.

(** A longer history draws more ids and can only lose free names. *)
Lemma records_inv_mono (N1 N2 : Naming) rs :
  (∀ id, drawn (Naming := N1) id → drawn (Naming := N2) id) →
  (free_names (Naming := N2) → free_names (Naming := N1)) →
  records_inv (H := N1) rs → records_inv (H := N2) rs.
Proof. intros Hd Hf [Hwf Hids Hdr Hnames]. constructor; auto. Qed.

Lemma tame_status (f : BoxRecord → BoxRecord) :
  (∀ r, b_status (f r) ∈ statuses) →
  (∀ r, record_wf r → is_active (f r) = false → b_pid (f r) = None) →
  (∀ r, b_id (f r) = b_id r) → (∀ r, b_name (f r) = b_name r) → tame f.
Proof. intros Hs Hp Hi Hn. constructor; [|done|done]. intros r Hr. constructor; auto. Qed.

Ltac in_statuses := unfold statuses; rewrite !elem_of_cons; tauto.

Lemma tame_mark_dead w : tame (reconcile_one w).
Proof.
  constructor; [|apply reconcile_one_id|].
  - intros r Hr. unfold reconcile_one. destruct (gone w r); [|done].
    constructor; [simpl; in_statuses | done].
  - intros r. unfold reconcile_one. by destruct (gone w r).
Qed.

Lemma tame_set_stopped c : tame (set_stopped c).
Proof. apply tame_status; try done. intros r. simpl. in_statuses. Qed.
Lemma tame_set_restarting : tame set_restarting.
Proof. apply tame_status; try done. intros r. simpl. in_statuses. Qed.
Lemma tame_set_dead : tame set_dead.
Proof. apply tame_status; try done. intros r. simpl. in_statuses. Qed.
Lemma tame_paused : tame (set_status "paused").
Proof. apply tame_status; try done. intros r. simpl. in_statuses. Qed.
Lemma tame_running : tame (set_status "running").
Proof. apply tame_status; try done. intros r. simpl. in_statuses. Qed.
Lemma tame_boot m b u : tame (apply_boot_result m b u).
Proof. apply tame_status; try done. intros r. simpl. in_statuses. Qed.
Lemma tame_probe healthy t : tame (apply_probe_result healthy t).
Proof.
  constructor.
  - intros r [Hs Hp]. unfold apply_probe_result.
    destruct (negb (is_status "running" r)); [done|]. destruct healthy; done.
  - intros r. unfold apply_probe_result. by repeat case_match.
  - intros r. unfold apply_probe_result. by repeat case_match.
Qed.
Lemma tame_signal s st : signal_status_transition s = Some st → tame (set_status st).
Proof.
  unfold signal_status_transition.
  repeat case_match; [intros [= <-]; apply tame_paused | intros [= <-]; apply tame_running | done].
Qed.
#[export] Hint Resolve tame_signal tame_mark_dead tame_set_stopped tame_set_restarting tame_set_dead
  tame_paused tame_running tame_boot tame_probe : a3s.

Section invariant.
Context {content : Type} (to_json : records → content) (from_json : content → option records).
Context (json_roundtrip : ∀ rs, from_json (to_json rs) = Some rs).
Context (to_uppercase : string → string) {N : Naming}.

Definition disk_inv (d : option content) : Prop :=
  ∀ c, d = Some c → ∃ rs, c = to_json rs ∧ records_inv rs.

Lemma write_inv w rs d d' res :
  write_to_disk to_json w rs d = (d', res) → records_inv rs → disk_inv d → disk_inv d'.
Proof.
  unfold write_to_disk. destruct (write_works w); intros [= <- _] Hrs Hd; [|done].
  intros c [= <-]. eauto.
Qed.

Lemma load_inv w d d' res :
  load_state to_json from_json w d = (d', res) → disk_inv d →
  disk_inv d' ∧ ∀ rs, res = Ok rs → records_inv rs.
Proof using json_roundtrip.
  unfold load_state. destruct d as [c|]; [|].
  - intros E Hd. destruct (Hd c eq_refl) as (rs & -> & Hrs). rewrite json_roundtrip in E.
    destruct (read_works w); [|injection E as <- <-; done]. simpl default in E.
    assert (records_inv (reconcile w rs).1) as Hr.
    { rewrite reconcile_records by apply Hrs. apply map_inv; [auto with a3s | by apply filter_inv]. }
    destruct (reconcile w rs) as [rs' out]. injection E as <- <-. split; [|by intros ? [= <-]].
    destruct (rec_changed out); [|done].
    destruct (write_to_disk to_json w rs' (Some (to_json rs))) as [d'' res] eqn:Ew.
    by eapply write_inv.
  - intros [= <- <-] Hd. split; [done|]. intros rs [= <-].
    constructor; [|constructor | |constructor]; by intros ? ?%not_elem_of_nil.
Qed.

Lemma modify_inv {R E} (inj : state_err → E) w (f : records → result E (records * R)) d :
  (∀ rs rs' out, f rs = Ok (rs', out) → records_inv rs → records_inv rs') →
  disk_inv d → disk_inv (modify to_json from_json inj w f d).1.
Proof using json_roundtrip.
  intros Hf Hd. unfold modify. destruct (lock_works w); [|done].
  destruct (load_state to_json from_json w d) as [d1 res] eqn:El.
  destruct (load_inv _ _ _ _ El Hd) as [Hd1 Hrs].
  destruct res as [rs|e]; [|done]. destruct (f rs) as [[rs' out]|e] eqn:Ef; [|done].
  destruct (write_to_disk to_json w rs' d1) as [d2 res] eqn:Ew. simpl.
  eapply write_inv; [done | | done]. eapply Hf; [done|]. by apply Hrs.
Qed.

Definition handle_inv (h : handle) : Prop := records_inv (h_records h) ∧ disk_inv (h_disk h).

(** A computation that keeps the invariant, whether it succeeds or fails. *)
Definition preserves {A} (m : M (content := content) A) : Prop :=
  ∀ h, handle_inv h → handle_inv (m h).1.1.

Lemma preserves_ret {A} (a : A) : preserves (mret a).
Proof. by intros h. Qed.
Lemma preserves_fail {A} e : preserves (A := A) (fail e).
Proof. by intros h. Qed.
Lemma preserves_emit e : preserves (emit e).
Proof. by intros h. Qed.
Lemma preserves_lift {A} (r : result cmd_err A) : preserves (lift r).
Proof. by intros h. Qed.
Lemma preserves_lookup q : preserves (lookup_box q).
Proof. by intros h. Qed.
Lemma preserves_name_free n : preserves (name_free n).
Proof. intros h Hh. unfold name_free. by destruct (find_by_name _ _). Qed.

Lemma preserves_bind {A B} (m : M A) (k : A → M B) :
  preserves m → (∀ a, preserves (k a)) → preserves (m ≫= k).
Proof.
  intros Hm Hk h Hh. unfold mbind, M_bind. specialize (Hm h Hh).
  destruct (m h) as [[h1 e1] [a|e]]; simpl in *; [|done].
  specialize (Hk a h1 Hm). by destruct (k a h1) as [[h2 e2] r2].
Qed.

Lemma preserves_assign q f : tame f → preserves (assign q f).
Proof.
  intros Hf h [Hr Hd]. unfold assign, resolve_update.
  destruct (resolve (h_records h) q) as [r|e]; simpl; [|done].
  destruct (find_by_id (h_records h) (b_id r)); simpl; [|done].
  split; [by apply update_by_id_inv | done].
Qed.

Lemma preserves_save w : preserves (save_handle to_json w).
Proof.
  intros h [Hr Hd]. unfold save_handle, save_state. destruct (lock_works w); simpl.
  - destruct (write_to_disk to_json w (h_records h) (h_disk h)) as [d res] eqn:E. simpl.
    split; [done|]. by eapply write_inv.
  - done.
Qed.

Lemma preserves_remove w id : preserves (remove_handle to_json w id).
Proof.
  intros h [Hr Hd]. unfold remove_handle, remove.
  assert (records_inv (drop_id id (h_records h))) as Hdrop by (by apply filter_inv).
  destruct (_ <? _)%nat; [|done]. unfold save_state. destruct (lock_works w); [|done].
  destruct (write_to_disk to_json w (drop_id id (h_records h)) (h_disk h)) as [d res] eqn:E.
  split; [done|]. by eapply write_inv.
Qed.

Lemma preserves_remove_and_forget w id : preserves (remove_and_forget to_json from_json w id).
Proof using json_roundtrip.
  intros h [Hr Hd]. unfold remove_and_forget.
  pose proof (modify_inv Datatypes.id w (λ rs, let rs' := drop_id id rs in
    Ok (rs', (length rs' <? length rs)%nat)) (h_disk h)) as Hm.
  specialize (Hm ltac:(intros rs rs' out [= <- _] ?; by apply filter_inv) Hd).
  unfold remove_record. destruct (modify _ _ _ _ _ _) as [d [b|e]]; simpl in *; [|done].
  split; [by apply filter_inv | done].
Qed.

End invariant.

#[export] Hint Resolve preserves_ret preserves_fail preserves_emit preserves_lift
  preserves_lookup preserves_name_free preserves_assign preserves_save preserves_remove
  preserves_remove_and_forget : a3s.

(** Walk through a command: binds, branches, then the lemma of each step. *)
Ltac preserves_tac :=
  repeat first
    [ progress cbv zeta
    | apply preserves_bind; [|intros ?]
    | match goal with |- preserves _ (if ?b then _ else _) => destruct b end
    | match goal with |- preserves _ (match ?x with _ => _ end) => destruct x eqn:? end
    | solve [eauto with a3s] ].

(** ** Histories of commands *)

Inductive command :=
  | CStart (q : string) | CStop (q : string) (timeout : option Z) | CPause (q : string)
  | CUnpause (q : string) | CKill (q : string) (signal : Z)
  | CRestart (q : string) (timeout : Z) | CRm (q : string) (force : bool)
  | CRename (q new_name : string).

Section histories.
Context {content : Type} (to_json : records → content) (from_json : content → option records).
Context (json_roundtrip : ∀ rs, from_json (to_json rs) = Some rs).
Context (to_uppercase : string → string) (datetime_max : Z) {N : Naming}.

Definition run (m : machine) (c : command) : M (content := content) () :=
  match c with
  | CStart q => start_one to_json m q
  | CStop q t => stop_one to_json to_uppercase m q t
  | CPause q => pause_one to_json m q
  | CUnpause q => unpause_one to_json m q
  | CKill q s => kill_one to_json m q s
  | CRestart q t => restart_one to_json to_uppercase m q t
  | CRm q force => rm_one to_json from_json m q force
  | CRename q n => rename_box to_json m q n
  end.

Lemma rename_inv id n rs :
  records_inv rs → n ∉ map b_name rs → records_inv (update_by_id id (set_name n) rs).
Proof.
  intros [Hwf Hids Hdr Hnames] Hn. constructor.
  - intros r [?|(x & Hx & _ & ->)]%elem_of_update_by_id; [auto|]. by destruct (Hwf x Hx).
  - by rewrite update_by_id_map.
  - intros r [?|(x & Hx & _ & ->)]%elem_of_update_by_id; [auto|]. by apply (Hdr x).
  - intros Hf. specialize (Hnames Hf). clear Hwf Hids Hdr.
    induction rs as [|r rs IH]; simpl in *; [done|].
    apply list.NoDup_cons in Hnames as [Hr Hnames].
    apply not_elem_of_cons in Hn as [Hne Hn].
    case_bool_decide; simpl; constructor; auto.
    intros (x & E & Hx)%list_elem_of_fmap.
    apply elem_of_update_by_id in Hx as [Hx|(y & Hy & _ & ->)]; simpl in E; [|done].
    apply Hr. rewrite E. by apply (list_elem_of_fmap_2 b_name).
Qed.

Lemma preserves_rename m q n : preserves to_json (rename_box to_json m q n).
Proof.
  intros h Hh. unfold rename_box, mbind, M_bind, name_free.
  destruct (find_by_name (h_records h) n) as [r|] eqn:En; [done|].
  assert (n ∉ map b_name (h_records h)) as Hn.
  { intros (x & -> & Hx)%list_elem_of_fmap. by apply (find_by_name_None _ _ _ En Hx). }
  assert (handle_inv to_json (assign q (set_name n) h).1.1) as Ha.
  { destruct Hh as [Hr Hd]. unfold assign, resolve_update.
    destruct (resolve (h_records h) q) as [r|e]; simpl; [|done].
    destruct (find_by_id (h_records h) (b_id r)); simpl; [|done].
    split; [by apply rename_inv | done]. }
  destruct (assign q (set_name n) h) as [[h1 e1] [[]|e]]; simpl in *; [|done].
  pose proof (preserves_save to_json (mw m) h1 Ha) as Hs.
  by destruct (save_handle to_json (mw m) h1) as [[h2 e2] r2].
Qed.

Lemma run_preserves m c : preserves to_json (run m c).
Proof using json_roundtrip.
  destruct c as [q|q t|q|q|q s|q t|q f|q n]; simpl; [..|apply preserves_rename].
  - unfold start_one, boot_from_record. preserves_tac.
  - unfold stop_one, resume_paused_for_termination, send_signal. preserves_tac.
  - unfold pause_one, send_signal. preserves_tac.
  - unfold unpause_one, send_signal. preserves_tac.
  - unfold kill_one, resume_paused_for_termination, send_signal. preserves_tac.
  - unfold restart_one, boot_from_record, resume_paused_for_termination, send_signal.
    preserves_tac.
  - unfold rm_one. preserves_tac.
Qed.

Lemma modify_box_inv w id f d :
  tame f → disk_inv to_json d → disk_inv to_json (modify_box to_json from_json w id f d).1.
Proof using json_roundtrip.
  intros Hf Hd. apply modify_inv; [done| |done].
  intros rs rs' out [= <- _] Hrs. by apply update_by_id_inv.
Qed.

Lemma apply_probes_inv probe w now ids d :
  disk_inv to_json d → disk_inv to_json (apply_probes to_json from_json probe w now ids d).1.
Proof using json_roundtrip.
  revert d. induction ids as [|id ids IH]; intros d Hd; simpl; [done|].
  pose proof (modify_box_inv w id (apply_probe_result (probe id) now) d
    (tame_probe (probe id) now) Hd) as Hm.
  destruct (modify_box to_json from_json w id _ d) as [d1 [[]|e]]; [by apply IH | done].
Qed.

Lemma poll_box_inv boots tnow snapshot id k d :
  disk_inv to_json d →
  disk_inv to_json (poll_box to_json from_json boots tnow snapshot id k d).1.1.2.
Proof using json_roundtrip.
  intros Hd. unfold poll_box. destruct (find_by_id snapshot id) as [r|]; [|done].
  destruct (negb _); [done|]. set (m := boots id).
  pose proof (modify_box_inv (mw m) id set_dead d tame_set_dead Hd) as Hd1.
  destruct (is_unhealthy_restart_candidate r).
  - destruct (modify_box to_json from_json (mw m) id set_dead d) as [d1 [[]|e]]; simpl in *; [|done].
    destruct (boot m) as [b|]; [|done].
    pose proof (modify_box_inv (mw m) id (apply_boot_result m b Increment) d1
      (tame_boot m b Increment) Hd1) as Hd2.
    by destruct (modify_box to_json from_json (mw m) id (apply_boot_result m b Increment) d1)
      as [d2 [[]|e]].
  - destruct (boot m) as [b|]; [|done].
    pose proof (modify_box_inv (mw m) id (apply_boot_result m b Increment) d
      (tame_boot m b Increment) Hd) as Hd2.
    by destruct (modify_box to_json from_json (mw m) id (apply_boot_result m b Increment) d)
      as [d2 [[]|e]].
Qed.

Lemma poll_loop_inv boots tnow snapshot ids k d :
  disk_inv to_json d →
  disk_inv to_json (poll_loop to_json from_json boots tnow snapshot ids k d).1.1.2.
Proof using json_roundtrip.
  revert k d. induction ids as [|id ids IH]; intros k d Hd; simpl; [done|].
  pose proof (poll_box_inv boots tnow snapshot id k d Hd) as Hb.
  destruct (poll_box to_json from_json boots tnow snapshot id k d) as [[[k1 d1] e1] [[]|e]]; [|done].
  simpl in Hb. specialize (IH k1 d1 Hb).
  by destruct (poll_loop to_json from_json boots tnow snapshot ids k1 d1) as [[[k2 d2] e2] r2].
Qed.

End histories.

(** ** The processes that share one state file

    [c_loaded] are the records that some process has loaded, however long ago:
    a command works on those, and writes all of them back, whatever others have
    done to the file meanwhile.  [c_log] has, for every new box, its id and
    whether its name was free among the records it was added to. *)
Record cli (content : Type) := Cli {
  c_log : list (string * bool); c_loaded : list records; c_disk : option content }.
Arguments Cli {content} _ _ _.
Arguments c_log {content} _.
Arguments c_loaded {content} _.
Arguments c_disk {content} _.

Section system.
Context {content : Type} (to_json : records → content) (from_json : content → option records).
Context (json_roundtrip : ∀ rs, from_json (to_json rs) = Some rs).
Context (to_uppercase : string → string) (datetime_max : Z).

Definition name_was_free (r : BoxRecord) (rs : records) : bool :=
  bool_decide (b_name r ∉ map b_name rs).

(** [create] adds under the lock; [run], [compose up] and [snapshot restore] add
    to what they have loaded.  None of them looks at the names already there. *)
Inductive cli_step : cli content → cli content → Prop :=
  | cli_load w log hs d d1 rs :
      load_state to_json from_json w d = (d1, Ok rs) →
      cli_step (Cli log hs d) (Cli log (rs :: hs) d1)
  | cli_command m c log hs d rs h' :
      rs ∈ hs →
      h' = (run to_json from_json to_uppercase m c {| h_records := rs; h_disk := d |}).1.1 →
      cli_step (Cli log hs d) (Cli log (h_records h' :: hs) (h_disk h'))
  | cli_create w r log hs d :
      record_wf r →
      cli_step (Cli log hs d)
        (Cli (log ++ [(b_id r, match (load_state to_json from_json w d).2 with
                               | Ok rs => name_was_free r rs | Err _ => true end)])
             hs (add_record to_json from_json w r d).1)
  | cli_add w r log hs d rs rs' d' res :
      rs ∈ hs → record_wf r → add to_json w r rs d = (rs', d', res) →
      cli_step (Cli log hs d) (Cli (log ++ [(b_id r, name_was_free r rs)]) (rs' :: hs) d')
  | cli_health w id healthy now log hs d :
      cli_step (Cli log hs d)
        (Cli log hs (modify to_json from_json Datatypes.id w
                       (λ rs, Ok (health_round id healthy now rs)) d).1)
  | cli_monitor probe boots w now tnow k log hs d out :
      poll_once to_json from_json datetime_max probe boots w now tnow k d = Some out →
      cli_step (Cli log hs d) (Cli log hs out.1.1.2).

(** What a log says: its ids were drawn, and its flags tell of the names. *)
Definition naming_of (log : list (string * bool)) : Naming :=
  {| drawn := λ id, id ∈ map fst log; free_names := ∀ p, p ∈ log → p.2 = true |}.

Definition cli_inv (s : cli content) : Prop :=
  NoDup (map fst (c_log s)) →
  (∀ rs, rs ∈ c_loaded s → records_inv (H := naming_of (c_log s)) rs) ∧
  disk_inv (N := naming_of (c_log s)) to_json (c_disk s).

Lemma naming_snoc log p rs :
  records_inv (H := naming_of log) rs → records_inv (H := naming_of (log ++ [p])) rs.
Proof.
  apply records_inv_mono; simpl.
  - intros id Hid. rewrite map_app. apply elem_of_app. by left.
  - intros Hf q Hq. apply Hf, elem_of_app. by left.
Qed.

Lemma disk_inv_snoc log p d :
  disk_inv (N := naming_of log) to_json d → disk_inv (N := naming_of (log ++ [p])) to_json d.
Proof. intros Hd c Hc. destruct (Hd c Hc) as (rs & -> & Hrs). eauto using naming_snoc. Qed.

(** Adding a box whose id is new to the log and whose flag is right. *)
Lemma added_inv log r rs :
  NoDup (map fst (log ++ [(b_id r, name_was_free r rs)])) →
  record_wf r → records_inv (H := naming_of log) rs →
  records_inv (H := naming_of (log ++ [(b_id r, name_was_free r rs)])) (rs ++ [r]).
Proof.
  intros Hnd Hr Hrs. apply snoc_inv; [by apply naming_snoc | done | | |].
  - simpl. rewrite map_app. apply elem_of_app. right. simpl. set_solver.
  - intros (x & E & Hx)%list_elem_of_fmap.
    rewrite map_app in Hnd. apply list.NoDup_app in Hnd as (_ & Hd & _).
    apply (Hd (b_id r)); [|simpl; set_solver].
    rewrite E. by apply (inv_drawn (H := naming_of log) rs Hrs).
  - simpl. intros Hf. specialize (Hf (b_id r, name_was_free r rs)).
    apply (bool_decide_eq_true_1 _), Hf, elem_of_app. right. set_solver.
Qed.

Lemma add_record_inv w r log d :
  let flag := match (load_state to_json from_json w d).2 with
              | Ok rs => name_was_free r rs | Err _ => true end in
  NoDup (map fst (log ++ [(b_id r, flag)])) → record_wf r →
  disk_inv (N := naming_of log) to_json d →
  disk_inv (N := naming_of (log ++ [(b_id r, flag)])) to_json
    (add_record to_json from_json w r d).1.
Proof using json_roundtrip.
  intros flag Hnd Hr Hd. subst flag. unfold add_record, modify.
  destruct (lock_works w); [|by apply disk_inv_snoc].
  destruct (load_state to_json from_json w d) as [d1 [rs|e]] eqn:El;
    destruct (load_inv to_json from_json json_roundtrip (N := naming_of log) _ _ _ _ El Hd)
      as [Hd1 Hrs]; [|by apply disk_inv_snoc].
  simpl in Hnd |- *.
  destruct (write_to_disk to_json w (rs ++ [r]) d1) as [d2 res] eqn:Ew. simpl.
  eapply write_inv; [done | | by apply disk_inv_snoc]. apply added_inv; auto.
Qed.

Lemma add_inv w r log rs d rs' d' res :
  add to_json w r rs d = (rs', d', res) →
  NoDup (map fst (log ++ [(b_id r, name_was_free r rs)])) → record_wf r →
  records_inv (H := naming_of log) rs → disk_inv (N := naming_of log) to_json d →
  records_inv (H := naming_of (log ++ [(b_id r, name_was_free r rs)])) rs' ∧
  disk_inv (N := naming_of (log ++ [(b_id r, name_was_free r rs)])) to_json d'.
Proof.
  intros E Hnd Hr Hrs Hd. unfold add, save_state in E.
  pose proof (added_inv log r rs Hnd Hr Hrs) as Ha.
  destruct (lock_works w); [|injection E as <- <- _; by eauto using disk_inv_snoc].
  destruct (write_to_disk to_json w (rs ++ [r]) d) as [d2 res2] eqn:Ew.
  injection E as <- <- _. split; [done|].
  eapply write_inv; [done | done | by apply disk_inv_snoc].
Qed.

Lemma health_inv {N : Naming} w id healthy now d :
  disk_inv to_json d →
  disk_inv to_json (modify to_json from_json Datatypes.id w
                      (λ rs, Ok (health_round id healthy now rs)) d).1.
Proof using json_roundtrip.
  intros Hd. apply modify_inv; [done| |done]. intros rs rs' out [= E] Hrs. unfold health_round in E.
  destruct (find_by_id rs id); [|by injection E as <- _].
  destruct (negb _); injection E as <- _; [done|].
  apply update_by_id_inv; [apply tame_probe | done].
Qed.

Lemma monitor_inv {N : Naming} probe boots w now tnow k d out :
  poll_once to_json from_json datetime_max probe boots w now tnow k d = Some out →
  disk_inv to_json d → disk_inv to_json out.1.1.2.
Proof using json_roundtrip.
  unfold poll_once. intros Hp Hd.
  destruct (load_state to_json from_json w d) as [d0 [rs|e]] eqn:El;
    destruct (load_inv to_json from_json json_roundtrip _ _ _ _ El Hd) as [Hd0 _];
    [|by injection Hp as <-].
  apply bind_Some in Hp as ([d1 res] & Hc & Hp). unfold run_due_health_checks in Hc.
  apply bind_Some in Hc as (ids & _ & [= Hc]).
  pose proof (apply_probes_inv to_json from_json json_roundtrip probe w now ids d0 Hd0) as Hd1.
  rewrite Hc in Hd1. simpl in Hd1.
  destruct res as [[]|e]; injection Hp as <-; [|done].
  by apply (poll_loop_inv to_json from_json json_roundtrip).
Qed.

Lemma cli_step_inv s s' : cli_step s s' → cli_inv s → cli_inv s'.
Proof using json_roundtrip.
  unfold cli_inv.
  destruct 1 as [w log hs d d1 rs El|m c log hs d rs h' Hin ->|w r log hs d Hr
                |w r log hs d rs rs' d' res Hin Hr E|w id healthy now log hs d
                |probe boots w now tnow k log hs d out Hp]; simpl; intros IH Hnd.
  - destruct (IH Hnd) as [Hh Hd].
    destruct (load_inv to_json from_json json_roundtrip _ _ _ _ El Hd) as [Hd1 Hrs].
    split; [|done]. intros x [->|?]%elem_of_cons; auto.
  - destruct (IH Hnd) as [Hh Hd].
    assert (handle_inv (N := naming_of log) to_json
      (run to_json from_json to_uppercase m c {| h_records := rs; h_disk := d |}).1.1) as [Hr1 Hd1].
    { apply run_preserves; [done|]. split; [by apply Hh | done]. }
    split; [|done]. intros x [->|?]%elem_of_cons; auto.
  - rewrite map_app in Hnd. destruct (IH (proj1 (proj1 (list.NoDup_app _ _) Hnd))) as [Hh Hd].
    rewrite <-map_app in Hnd.
    split; [by intros x ?; apply naming_snoc, Hh | by apply add_record_inv].
  - rewrite map_app in Hnd. destruct (IH (proj1 (proj1 (list.NoDup_app _ _) Hnd))) as [Hh Hd].
    rewrite <-map_app in Hnd. destruct (add_inv w r log rs d rs' d' res E Hnd Hr (Hh _ Hin) Hd).
    split; [|done]. intros x [->|?]%elem_of_cons; [done|]. by apply naming_snoc, Hh.
  - destruct (IH Hnd) as [Hh Hd]. split; [done|]. by apply health_inv.
  - destruct (IH Hnd) as [Hh Hd]. split; [done|]. by eapply monitor_inv.
Qed.

(** C1: processes share one state file: they load it, run commands (start, stop,
    pause, unpause, kill, restart, rm, rename) on what they loaded, fresh or long
    stale, add boxes (under the lock as create does, or to loaded records as run,
    compose and restore do), check health and monitor.  Whatever system calls,
    signals and boots failed, as long as no two new boxes drew the same id (they
    are random UUIDs; the code never compares them), the file parses, its boxes have
    distinct ids out of those drawn and a known status, and a box that is neither
    running nor paused has no PID.  Their names are distinct when every new box
    found its name free, which no command that adds a box verifies; rename does
    verify it and never breaks it.  Commands interleave as wholes, on stale loads;
    the system calls inside two commands do not. *)
Theorem lifecycle_reachable log hs c :
  rtc cli_step (Cli [] [] None) (Cli log hs (Some c)) → NoDup (map fst log) →
  ∃ rs, from_json c = Some rs ∧ NoDup (map b_id rs) ∧
    (∀ r, r ∈ rs → b_id r ∈ map fst log) ∧
    ((∀ p, p ∈ log → p.2 = true) → NoDup (map b_name rs)) ∧
    ∀ r, r ∈ rs → b_status r ∈ statuses ∧
      ((b_status r ∉ ["running"; "paused"]%string) → b_pid r = None).
Proof using json_roundtrip.
  intros Hr Hnd. assert (cli_inv (Cli log hs (Some c))) as Hi.
  { remember (Cli log hs (Some c)) as s2 eqn:E2. clear E2.
    assert (cli_inv (Cli [] [] None)) as Hi0.
    { intros _. split; [by intros ? ?%not_elem_of_nil | by intros ? ?]. }
    revert Hi0. induction Hr as [|s1 s2 s3 Hst _ IH]; [done|]. eauto using cli_step_inv. }
  destruct (Hi Hnd) as [_ Hd]. destruct (Hd c eq_refl) as (rs & -> & [Hwf Hids Hdr Hnames]).
  exists rs. split_and!; [done..|]. intros r Hrin. destruct (Hwf r Hrin) as [Hs Hp].
  split; [done|]. intros Hna. apply Hp. unfold is_active, is_active_status.
  rewrite !bool_decide_false; [done | set_solver | set_solver].
Qed.

(** Two boxes can get one name: nothing that adds a box looks at the names. *)
Theorem add_keeps_no_names w r r' rs d :
  lock_works w = true → write_works w = true → r ∈ rs → b_name r' = b_name r →
  ∃ rs', add to_json w r' rs d = (rs', Some (to_json rs'), Ok ()) ∧ ¬ NoDup (map b_name rs').
Proof.
  intros Hl Hw Hr Hn. exists (rs ++ [r']). unfold add, save_state, write_to_disk. rewrite Hl, Hw.
  split; [done|]. rewrite map_app. intros (_ & Hd & _)%list.NoDup_app.
  apply (Hd (b_name r)); [by apply (list_elem_of_fmap_2 b_name)|]. simpl. rewrite Hn. set_solver.
Qed.

End system.

Definition demo_machine : machine :=
  {| mw := demo_world; now := 5; signal_ok := true; guest_delivers := false;
     outcome := GracefulExit;
     boot := Some {| br_pid := Some 1; br_exec_socket_path := None; br_health_check := None;
                     br_stop_signal := None; br_anonymous_volumes := [] |} |}.

(** One process has loaded before the other creates a box; it then adds a box of
    its own, which drops the first one, and starts it. *)
Definition demo_state1 : cli records := Cli [("a"%string, true)] [[]] (Some [demo_a]).
Definition demo_state2 : cli records :=
  Cli [("a"%string, true); ("b"%string, true)] [[demo_b]; []] (Some [demo_b]).
Definition demo_handle : handle (content := records) :=
  (run id Some id demo_machine (CStart "db") {| h_records := [demo_b]; h_disk := Some [demo_b] |}).1.1.

Lemma demo_history :
  rtc (cli_step id Some id 0) (Cli [] [] None)
    (Cli (c_log demo_state2) (h_records demo_handle :: c_loaded demo_state2) (h_disk demo_handle)).
Proof.
  eapply rtc_l; [by apply (cli_load id Some id 0 demo_world [] [] None None [])|].
  eapply rtc_l.
  { apply (cli_create id Some id 0 demo_world demo_a [] [[]] None).
    constructor; [simpl; in_statuses | done]. }
  eapply rtc_l.
  { apply (cli_add id Some id 0 demo_world demo_b [("a"%string, true)] [[]] (Some [demo_a]) []
             [demo_b] (Some [demo_b]) (Ok ())); [by left | | done].
    constructor; [simpl; in_statuses | done]. }
  eapply rtc_l; [|apply rtc_refl].
  apply (cli_command id Some id 0 demo_machine (CStart "db") _ _ _ [demo_b]); [by left | done].
Qed.

Lemma lifecycle_reachable_witness :
  ∃ c rs, h_disk demo_handle = Some c ∧ Some c = Some rs ∧ NoDup (map b_id rs) ∧
    NoDup (map b_name rs) ∧ map b_status rs = ["running"%string].
Proof.
  destruct (h_disk demo_handle) as [c|] eqn:E; [|by vm_compute in E].
  destruct (lifecycle_reachable (content := records) id Some (λ _, eq_refl) id 0
    (c_log demo_state2) (h_records demo_handle :: c_loaded demo_state2) c)
    as (rs & Hrs & Hi & _ & Hn & _); [rewrite <-E; apply demo_history | |].
  { simpl. repeat constructor; set_solver. }
  exists c, rs. split_and!; [done | done | done | | ].
  - apply Hn. simpl. set_solver.
  - injection Hrs as <-. vm_compute in E. by injection E as <-.
Defined.

(** ** Stopping a box *)

(** No box carries another box's id as its name. *)
Definition no_shadow (rs : records) : Prop :=
  ∀ r x, r ∈ rs → x ∈ rs → b_name x = b_id r → b_id x = b_id r.

Lemma resolve_own_id rs r :
  NoDup (map b_id rs) → no_shadow rs → r ∈ rs → resolve rs (b_id r) = Ok r.
Proof.
  intros Hnd Hns Hr. unfold resolve. destruct (find_by_name rs (b_id r)) as [x|] eqn:En.
  - apply find_some in En as [Hx E%bool_decide_eq_true]. apply list_elem_of_In in Hx.
    pose proof (Hns r x Hr Hx E) as Ei.
    pose proof (proj2 (find_by_id_spec rs (b_id r) x Hnd) (conj Hx Ei)) as H1.
    pose proof (proj2 (find_by_id_spec rs (b_id r) r Hnd) (conj Hr eq_refl)) as H2. congruence.
  - by rewrite (proj2 (find_by_id_spec rs (b_id r) r Hnd) (conj Hr eq_refl)).
Qed.

Lemma resolve_elem rs q r : resolve rs q = Ok r → r ∈ rs.
Proof.
  unfold resolve. destruct (find_by_name rs q) as [x|] eqn:En.
  { intros [= <-]. apply find_some in En as [? _]. by apply list_elem_of_In. }
  destruct (find_by_id rs q) as [x|] eqn:Ei.
  { intros [= <-]. apply find_some in Ei as [? _]. by apply list_elem_of_In. }
  destruct (find_by_id_prefix rs q) as [|x [|y l]] eqn:Ep; [done | | done].
  intros [= <-]. assert (x ∈ find_by_id_prefix rs q) as Hx by (rewrite Ep; by left).
  by apply elem_of_filter_b in Hx as [? _].
Qed.

Lemma resolve_update_own rs r f :
  NoDup (map b_id rs) → no_shadow rs → r ∈ rs →
  resolve_update rs (b_id r) f = Ok (update_by_id (b_id r) f rs).
Proof.
  intros Hnd Hns Hr. unfold resolve_update. rewrite resolve_own_id by done. simpl.
  by rewrite (proj2 (find_by_id_spec rs (b_id r) r Hnd) (conj Hr eq_refl)).
Qed.

Section stop.
Context {content : Type} (to_json : records → content).
Context (to_uppercase : string → string).

(** Stopping a box.  An unknown or ambiguous reference, a box that is not
    active and one whose process is gone are refused without touching anything.
    Otherwise a paused box is resumed first, its stop signal (SIGTERM by default)
    and timeout (the argument, else the box's, else 10 s) are used, and the box
    is then either dropped from the file (auto-remove) or marked stopped by the
    user with the exit code of the outcome, every other record unchanged. *)
Theorem stop_correct m h query timeout :
  NoDup (map b_id (h_records h)) → no_shadow (h_records h) →
  lock_works (mw m) = true → write_works (mw m) = true → signal_ok m = true →
  stop_one (content := content) to_json to_uppercase m query timeout h =
  match resolve (h_records h) query with
  | Err e => (h, [], Err (CmdResolve e))
  | Ok r =>
      if negb (is_active r) then (h, [], Err (NotActive "stop" (b_name r) (b_status r)))
      else if negb (has_live_pid (mw m) r) then (h, [], Err (StalePid "stop" (b_name r) (b_pid r)))
      else
        let pid := default 0 (b_pid r) in
        let sig := default SIGTERM (parse_signal_name to_uppercase <$> b_stop_signal r) in
        let secs := default 10 (match timeout with Some t => Some t | None => b_stop_timeout r end) in
        let rs' :=
          if b_auto_remove r then drop_id (b_id r) (h_records h)
          else update_by_id (b_id r)
                 (set_stopped (match inferred_exit_code (outcome m) sig with
                               | Some c => Some c | None => b_exit_code r end)) (h_records h) in
        ({| h_records := rs'; h_disk := Some (to_json rs') |},
         (if is_status "paused" r then [ESignal pid SIGCONT] else [])
           ++ [EGracefulStop pid sig secs]
           ++ [if b_auto_remove r then ECleanupRemoved r else ECleanupStopped r],
         Ok ())
  end.
Proof.
  intros Hnd Hns Hlock Hwrite Hsig.
  unfold stop_one, mbind, M_bind, lookup_box.
  destruct (resolve (h_records h) query) as [r|e] eqn:Er; simpl; [|done].
  apply resolve_elem in Er as Hr.
  unfold lift, require_active. destruct (is_active r) eqn:Ea; simpl; [|done].
  unfold require_live_pid, has_live_pid.
  destruct (b_pid r) as [pid|] eqn:Ep; simpl; [|done].
  destruct (alive (mw m) pid) eqn:Eal; simpl; [|done].
  unfold resume_paused_for_termination, send_signal, mbind, M_bind, emit.
  rewrite Hsig. change 15 with SIGTERM.
  assert ((length (drop_id (b_id r) (h_records h)) <? length (h_records h))%nat = true) as Hlt.
  { apply Nat.ltb_lt. unfold drop_id. clear -Hr.
    induction (h_records h) as [|x l IH]; [by apply not_elem_of_nil in Hr|]. simpl.
    pose proof (filter_length_le (λ r0, negb (bool_decide (b_id r0 = b_id r))) l).
    case_bool_decide; simpl; [lia|]. apply elem_of_cons in Hr as [->|Hr]; [done|].
    specialize (IH Hr). lia. }
  destruct (is_status "paused" r); destruct (b_auto_remove r) eqn:Eau; simpl.
  all: unfold remove_handle, remove, assign, save_handle, save_state, write_to_disk, stopped_exit_code;
    rewrite ?Hlt, ?Hlock, ?Hwrite, ?resolve_update_own by done; simpl;
    rewrite ?Hlock, ?Hwrite; try done.
Qed.
End stop.

Lemma stop_correct_witness :
  let r := demo_record "a" "web" "paused" (Some 1) "no" in
  let '(h', effs, res) :=
    stop_one id id demo_machine "web" None {| h_records := [r]; h_disk := Some [r] |} in
  effs = [ESignal 1 SIGCONT; EGracefulStop 1 SIGTERM 10; ECleanupStopped r] ∧ res = Ok () ∧
  map b_status (h_records h') = ["stopped"%string] ∧ map b_exit_code (h_records h') = [Some 143].
Proof.
  intros r.
  rewrite (stop_correct (content := records) id id demo_machine
             {| h_records := [r]; h_disk := Some [r] |} "web" None).
  - vm_compute. done.
  - simpl. repeat constructor. apply not_elem_of_nil.
  - intros x y ->%list_elem_of_singleton ->%list_elem_of_singleton _. done.
  - reflexivity.
  - reflexivity.
  - reflexivity.
Defined.

(** Names shadow ids.  A command remembers the id of the box it resolved
    and resolves it again to update the record, and names are looked up before
    ids: when another box is named like that id, [stop] stops the first box's
    process and cleans up its resources but marks the other box as stopped,
    leaving the stopped one recorded as running. *)
Theorem stop_updates_shadowing_box {content} (to_json : records → content) to_uppercase :
  let a := demo_record "a" "web" "running" (Some 1) "always" in
  let b := demo_record "b" "a" "running" (Some 1) "always" in
  let '(h', effs, res) :=
    stop_one to_json to_uppercase demo_machine "web" None
      {| h_records := [a; b]; h_disk := None |} in
  res = Ok () ∧ effs = [EGracefulStop 1 SIGTERM 10; ECleanupStopped a] ∧
  h_records h' = [a; set_stopped (Some 143) b] ∧ h_disk h' = Some (to_json (h_records h')).
Proof. vm_compute. done. Qed.

(** ** Restart limits *)

(** One automatic cycle: the monitor restarts the box, and it dies again. *)
Definition restart_cycle (m : machine) (b : BootResult) (w : world) (r : BoxRecord) : BoxRecord :=
  mark_dead w (apply_boot_result m b Increment r).

Lemma restart_cycle_fields m b w r k :
  let r' := Nat.iter k (restart_cycle m b w) r in
  0 ≤ b_restart_count r → b_restart_count r + Z.of_nat k < 2 ^ 32 →
  b_restart_policy r' = b_restart_policy r ∧ b_max_restart_count r' = b_max_restart_count r ∧
  b_restart_count r' = b_restart_count r + Z.of_nat k ∧
  (b_stopped_by_user r = false → b_stopped_by_user r' = false).
Proof.
  intros r' H0 Hk. subst r'. induction k as [|k IH]; simpl; [split_and!; [done..| lia | done]|].
  destruct IH as (IH1 & IH2 & IH3 & IH4); [lia|]. split_and!; [done | done | | done].
  rewrite IH3. rewrite wrap_small by (unfold in_range; lia). lia.
Qed.

(** Restart limits.  For a box created with a restart policy accepted by the
    command line and not stopped by the user, the monitor's automatic restarts
    stop exactly after [N] of them for [on-failure:N] with [N > 0]; policies
    [always], [on-failure] and [unless-stopped] never stop, [no] never starts;
    and [on-failure:0], which the parser accepts, never stops either. *)
Theorem restart_limit text policy max m b w r k :
  parse_restart_policy text = Ok (policy, max) →
  b_restart_policy r = policy → b_max_restart_count r = max →
  b_restart_count r = 0 → b_stopped_by_user r = false → Z.of_nat k < 2 ^ 32 →
  should_restart (Nat.iter k (restart_cycle m b w) r) =
    if bool_decide (policy = "no"%string) then false
    else if 0 <? max then Z.of_nat k <? max else true.
Proof.
  intros Hp Epol Emax Ecount Estop Hk.
  destruct (restart_cycle_fields m b w r k) as (E1 & E2 & E3 & E4); [lia..|].
  set (r' := Nat.iter k (restart_cycle m b w) r) in *.
  assert (policy ∈ ["no"; "always"; "on-failure"; "unless-stopped"]%string) as Hpol.
  { unfold parse_restart_policy in Hp. inv_result.
    destruct (strip_prefix "on-failure:" text) as [n|] eqn:En.
    - inv_result. set_solver.
    - inv_result.
      match goal with H : validate_restart_policy ?t = Ok _ |- _ =>
        unfold validate_restart_policy in H;
        destruct (plain_policy t) eqn:Epl; [by apply bool_decide_eq_true in Epl|];
        by rewrite En in H end. }
  unfold should_restart, below_max. rewrite E1, E2, E3, (E4 Estop), Epol, Emax, Ecount.
  rewrite Z.add_0_l.
  repeat (apply elem_of_cons in Hpol as [->|Hpol]; [done|]). by apply not_elem_of_nil in Hpol.
Qed.

Lemma restart_limit_witness :
  parse_restart_policy "on-failure:2" = Ok ("on-failure"%string, 2) ∧
  parse_restart_policy "on-failure:0" = Ok ("on-failure"%string, 0) ∧
  should_restart (Nat.iter 7 (restart_cycle demo_machine
    {| br_pid := Some 1; br_exec_socket_path := None; br_health_check := None;
       br_stop_signal := None; br_anonymous_volumes := [] |} demo_world)
    (demo_record "a" "web" "dead" None "on-failure")) = true.
Proof.
  split; [by vm_compute|]. split; [by vm_compute|].
  rewrite (restart_limit "on-failure:0" "on-failure" 0); by vm_compute.
Defined.

(** ** Backoff of the monitor *)

(** The tracker's entries: a delay between one second and a minute. *)
Definition tracker_wf (k : BackoffTracker.t) : Prop :=
  ∀ id e, k !! id = Some e → MIN_BACKOFF ≤ delay e ≤ MAX_BACKOFF.

Inductive tracker_op :=
  | TAttempt (now : Z) (id : string) | TRunning (now : Z) (id : string) | TDead (id : string).

Definition tracker_apply (k : BackoffTracker.t) (o : tracker_op) : BackoffTracker.t :=
  match o with
  | TAttempt now id => BackoffTracker.record_attempt now k id
  | TRunning now id => BackoffTracker.mark_running now k id
  | TDead id => BackoffTracker.mark_dead k id
  end.

Lemma tracker_insert_wf k id e :
  tracker_wf k → MIN_BACKOFF ≤ delay e ≤ MAX_BACKOFF → tracker_wf (<[id := e]> k).
Proof.
  intros Hk He id' e'. destruct (decide (id' = id)) as [->|].
  - rewrite lookup_insert_eq. by intros [= <-].
  - rewrite lookup_insert_ne by done. apply Hk.
Qed.

Lemma tracker_entry_wf now k id :
  tracker_wf k → MIN_BACKOFF ≤ delay (BackoffTracker.entry now k id) ≤ MAX_BACKOFF.
Proof.
  intros Hk. unfold BackoffTracker.entry. destruct (k !! id) eqn:E; simpl; [by eapply Hk|].
  unfold MIN_BACKOFF, MAX_BACKOFF. lia.
Qed.

Lemma tracker_apply_wf k o : tracker_wf k → tracker_wf (tracker_apply k o).
Proof.
  intros Hk. destruct o as [now id|now id|id]; simpl.
  - apply tracker_insert_wf; [done|]. pose proof (tracker_entry_wf now k id Hk).
    unfold entry_record_attempt, MIN_BACKOFF, MAX_BACKOFF in *. simpl. lia.
  - apply tracker_insert_wf; [done|]. pose proof (tracker_entry_wf now k id Hk).
    unfold entry_mark_running. repeat case_match; simpl; unfold MIN_BACKOFF, MAX_BACKOFF in *; lia.
  - unfold BackoffTracker.mark_dead. destruct (k !! id) as [e|] eqn:E; [|done].
    apply tracker_insert_wf; [done|]. by apply (Hk id e).
Qed.

Lemma tracker_attempts_delay id times k :
  tracker_wf k → k !! id = None → times ≠ [] →
  delay <$> foldl (λ k t, BackoffTracker.record_attempt t k id) k times !! id =
    Some (Z.min MAX_BACKOFF (2 ^ Z.of_nat (length times))).
Proof.
  intros Hk Hid. induction times as [|t times IH] using rev_ind; [done|]. intros _.
  rewrite foldl_snoc. unfold BackoffTracker.record_attempt at 1. rewrite lookup_insert_eq. simpl.
  rewrite length_app, Nat.add_1_r. simpl length. f_equal.
  destruct times as [|t0 times']; simpl.
  { unfold BackoffTracker.entry. rewrite Hid. done. }
  specialize (IH ltac:(done)). unfold BackoffTracker.entry.
  set (k' := foldl _ _ _) in *. destruct (k' !! id) as [e|] eqn:E; [|done]. simpl in *.
  injection IH as ->. unfold MAX_BACKOFF in *.
  replace (Z.of_nat (S (S (length times')))) with (Z.succ (Z.of_nat (S (length times')))) by lia.
  rewrite Z.pow_succ_r by lia. lia.
Qed.

(** Restart backoff.  In every history the delay of a box stays between one
    second and one minute; a box never tried is ready at once; after the [n]-th
    consecutive attempt the delay is [2^n] seconds, capped at a minute, and the
    box is not ready again before it has passed. *)
Theorem backoff_bounded :
  (∀ ops id, MIN_BACKOFF ≤
     BackoffTracker.current_delay (foldl tracker_apply BackoffTracker.new ops) id ≤ MAX_BACKOFF) ∧
  (∀ now id, BackoffTracker.ready now BackoffTracker.new id = true) ∧
  (∀ ops id t now, let k := BackoffTracker.record_attempt t (foldl tracker_apply BackoffTracker.new ops) id in
     BackoffTracker.ready now k id = (t + BackoffTracker.current_delay k id <=? now)) ∧
  (∀ id times, times ≠ [] →
     BackoffTracker.current_delay
       (foldl (λ k t, BackoffTracker.record_attempt t k id) BackoffTracker.new times) id =
       Z.min MAX_BACKOFF (2 ^ Z.of_nat (length times))).
Proof.
  assert (tracker_wf BackoffTracker.new) as H0 by (intros id e; unfold BackoffTracker.new; by rewrite lookup_empty).
  assert (∀ ops k, tracker_wf k → tracker_wf (foldl tracker_apply k ops)) as Hrun.
  { induction ops as [|o ops IH]; intros k Hk; simpl; [done|]. by apply IH, tracker_apply_wf. }
  split_and!.
  - intros ops id. unfold BackoffTracker.current_delay.
    destruct (foldl tracker_apply _ ops !! id) as [e|] eqn:E.
    + by apply (Hrun ops _ H0 id).
    + unfold MIN_BACKOFF, MAX_BACKOFF. lia.
  - done.
  - intros ops id t now k. unfold k, BackoffTracker.ready, BackoffTracker.current_delay,
      BackoffTracker.record_attempt. rewrite !lookup_insert_eq. unfold entry_ready.
    simpl. apply eq_true_iff_eq. rewrite !Z.leb_le. lia.
  - intros id times Hne. unfold BackoffTracker.current_delay.
    pose proof (tracker_attempts_delay id times BackoffTracker.new H0 eq_refl Hne) as Hd.
    destruct (foldl _ _ _ !! id) as [e|]; [|done]. by injection Hd as ->.
Qed.

(** ** Health *)

Definition failures (n : nat) (times : nat → Z) (r : BoxRecord) : BoxRecord :=
  foldl (λ r i, apply_probe_result false (times i) r) r (seq 0 n).

Lemma failures_fields n times r :
  b_status r = "running"%string → b_health_retries r = 0 → Z.of_nat n < 2 ^ 32 →
  b_status (failures n times r) = "running"%string ∧
  b_health_retries (failures n times r) = Z.of_nat n ∧
  b_health_check (failures n times r) = b_health_check r ∧
  b_health_status (failures n times r) =
    match b_health_check r with
    | Some hc => if bool_decide (0 < n)%nat && (hk_retries hc <=? Z.of_nat n)
                 then "unhealthy"%string else b_health_status r
    | None => b_health_status r
    end.
Proof.
  intros Hs Hr. unfold failures. induction n as [|n IH]; intros Hn.
  { simpl. split_and!; [done..|]. by destruct (b_health_check r). }
  rewrite seq_S, foldl_snoc. destruct IH as (IHs & IHr & IHc & IHh); [lia|].
  set (r' := foldl _ r (seq 0 n)) in *.
  unfold apply_probe_result, is_status. rewrite IHs, (bool_decide_true ("running"%string = _)) by done.
  cbn [negb]. rewrite IHr, IHc, IHh. unfold sat_add, u_max. rewrite Z.min_r by lia.
  replace (Z.of_nat n + 1) with (Z.of_nat (S n)) by lia.
  split_and!; [done | done | done |].
  rewrite (bool_decide_true (0 < S n)%nat) by lia. cbn [andb].
  unfold set_health, with_live; cbn [b_health_status v_health_status].
  destruct (b_health_check r) as [hc|]; [|done].
  destruct (Z.leb_spec (hk_retries hc) (Z.of_nat (S n))); [done|].
  rewrite (proj2 (Z.leb_gt (hk_retries hc) (Z.of_nat n))) by lia. by rewrite andb_false_r.
Qed.

(** Health checks.  A running box that was not yet failing becomes unhealthy
    at exactly the [retries]-th consecutive failed probe (at the first one when
    [retries] is 0) and not before; one successful probe makes it healthy and
    clears the count; the monitor restarts it exactly when it is unhealthy and
    its policy allows; and a box that is not running is never changed. *)
Theorem health_threshold n times r hc :
  b_status r = "running"%string → b_health_retries r = 0 → b_health_check r = Some hc →
  b_health_status r ≠ "unhealthy"%string → (0 < n)%nat → Z.of_nat n < 2 ^ 32 →
  let r' := failures n times r in
  (b_health_status r' = "unhealthy"%string ↔ hk_retries hc ≤ Z.of_nat n) ∧
  is_unhealthy_restart_candidate r' = (hk_retries hc <=? Z.of_nat n) && should_restart r ∧
  (∀ t, let r2 := apply_probe_result true t r' in
     b_health_status r2 = "healthy"%string ∧ b_health_retries r2 = 0 ∧
     is_unhealthy_restart_candidate r2 = false) ∧
  (∀ x healthy t, b_status x ≠ "running"%string → apply_probe_result healthy t x = x).
Proof.
  intros Hs Hr Hc Hu Hn Hlt r'.
  destruct (failures_fields n times r Hs Hr Hlt) as (Es & Er & Ec & Eh). fold r' in Es, Er, Ec, Eh.
  rewrite Hc in Eh, Ec. rewrite bool_decide_true in Eh by done. simpl in Eh.
  assert (should_restart r' = should_restart r) as Esr.
  { unfold r', failures. generalize (seq 0 n). clear. intros l. revert r.
    induction l as [|i l IH]; intros r; simpl; [done|]. rewrite IH.
    unfold apply_probe_result. by repeat case_match. }
  split_and!.
  - rewrite Eh. destruct (Z.leb_spec (hk_retries hc) (Z.of_nat n)); split; try done; lia.
  - unfold is_unhealthy_restart_candidate, is_status. rewrite Es, Ec, Esr, Eh.
    rewrite (bool_decide_true (is_Some (Some hc))) by eauto. rewrite bool_decide_true by done.
    destruct (Z.leb_spec (hk_retries hc) (Z.of_nat n)); simpl; [done|].
    by rewrite bool_decide_false.
  - intros t. unfold apply_probe_result, is_status. rewrite Es, bool_decide_true by done. simpl.
    split_and!; [done | done |]. unfold is_unhealthy_restart_candidate, is_status. simpl.
    by rewrite !andb_false_r.
  - intros x healthy t Hx. unfold apply_probe_result, is_status. by rewrite bool_decide_false.
Qed.

Definition demo_checked : BoxRecord :=
  with_live (demo_record "a" "web" "running" (Some 1) "always")
    {| v_status := "running"; v_pid := Some 1; v_exec_socket_path := "/b/s";
       v_started_at := Some 0; v_stopped_by_user := false; v_restart_count := 0;
       v_exit_code := None;
       v_health_check := Some {| hk_cmd := ["true"%string]; hk_interval_secs := 30;
                                 hk_timeout_secs := 5; hk_retries := 3; hk_start_period_secs := 0 |};
       v_health_status := "starting"; v_health_retries := 0; v_health_last_check := None;
       v_anonymous_volumes := []; v_stop_signal := None |}.

Lemma health_threshold_witness :
  b_health_status (failures 2 Z.of_nat demo_checked) ≠ "unhealthy"%string ∧
  b_health_status (failures 3 Z.of_nat demo_checked) = "unhealthy"%string.
Proof.
  split.
  - intros E. eapply (proj1 (health_threshold 2 Z.of_nat demo_checked _
      eq_refl eq_refl eq_refl ltac:(done) ltac:(lia) ltac:(lia))) in E. by vm_compute in E.
  - eapply (health_threshold 3 Z.of_nat demo_checked _
      eq_refl eq_refl eq_refl ltac:(done) ltac:(lia) ltac:(lia)). simpl. lia.
Defined.
