(* ===== verification/Reference.v ===== *)
(** * Reference: OCI image references

    [runtime/src/oci/reference.rs]: the parser that turns what the user types
    ([nginx], [ghcr.io/org/image:tag], [host:5000/app@sha256:...]) into a
    registry, a repository, a tag and a digest, and the printer whose output is
    the key of the image store and of the registry client.  [rfind] followed by
    two slices is [rsplit_once], [find] followed by two slices is
    [split_once]. *)

From Stdlib Require Import ZArith Lia Ascii.
From stdpp Require Import base gmap strings list numbers.
From S2P Require Import Prelude RustStr.

(** ** Data *)

Definition DEFAULT_REGISTRY : string := "docker.io".
Definition DEFAULT_TAG : string := "latest".

Record ImageReference := {
  ir_registry : string;
  ir_repository : string;
  ir_tag : option string;
  ir_digest : option string }.

Inductive ref_err :=
  | EmptyReference
  | InvalidDigest (reference : string)
  | EmptyRepository (name : string).

(** ** Operations *)

(** The tag, looked for after the last slash only.  The source repeats this
    code for references with and without a digest. *)
Definition split_tag (name_tag : string) : string * option string :=
  match rsplit_once "/" name_tag with
  | Some (dir, after_slash) =>
      match rsplit_once ":" after_slash with
      | Some (base, tag) => (dir +:+ String "/" base, Some tag)
      | None => (name_tag, None)
      end
  | None =>
      match rsplit_once ":" name_tag with
      | Some (name, tag) => (name, Some tag)
      | None => (name_tag, None)
      end
  end.

Definition looks_like_registry (first : string) : bool :=
  has_char "." first || has_char ":" first || bool_decide (first = "localhost").

Definition default_repository (name : string) : string :=
  if has_char "/" name then name else "library/" +:+ name.

Definition split_registry_repository (name : string) : result ref_err (string * string) :=
  match split_once "/" name with
  | Some (first, repo) =>
      if looks_like_registry first
      then if is_empty repo then Err (EmptyRepository name) else Ok (first, repo)
      else Ok (DEFAULT_REGISTRY, default_repository name)
  | None => Ok (DEFAULT_REGISTRY, default_repository name)
  end.

Definition split_digest (reference : string) : result ref_err (string * option string) :=
  match rsplit_once "@" reference with
  | Some (name_tag, digest_part) =>
      if negb (has_char ":" digest_part) then Err (InvalidDigest reference)
      else Ok (name_tag, Some digest_part)
  | None => Ok (reference, None)
  end.

Definition parse_reference (input : string) : result ref_err ImageReference :=
  let reference := trim input in
  if is_empty reference then Err EmptyReference
  else
    '(name_tag, digest) ← split_digest reference;
    let '(name, tag) := split_tag name_tag in
    '(registry, repository) ← split_registry_repository name;
    Ok {| ir_registry := registry;
          ir_repository := repository;
          ir_tag := match tag, digest with
                    | None, None => Some DEFAULT_TAG
                    | _, _ => tag
                    end;
          ir_digest := digest |}.

Definition push_opt (sep : ascii) (o : option string) : string :=
  match o with Some t => String sep t | None => "" end.

Definition full_reference (r : ImageReference) : string :=
  ir_registry r +:+ String "/" (ir_repository r)
    +:+ push_opt ":" (ir_tag r) +:+ push_opt "@" (ir_digest r).

(** ** The three splits, as laws *)

(** What follows the last slash. *)
Definition last_segment (s : string) : string :=
  match rsplit_once "/" s with Some (_, y) => y | None => s end.

Lemma rsplit_once_app c x y : has_char c y = false → rsplit_once c (x +:+ String c y) = Some (x, y).
Proof. intros. by apply rsplit_once_Some. Qed.

Lemma last_segment_dir dir s : last_segment (dir +:+ String "/" s) = last_segment s.
Proof.
  unfold last_segment. destruct (rsplit_once "/" s) as [[x y]|] eqn:E.
  - apply rsplit_once_Some in E as [-> Hy].
    change (String "/" (x +:+ String "/" y)) with (String "/" x +:+ String "/" y).
    by rewrite <-str_app_assoc, rsplit_once_app.
  - apply rsplit_once_None in E. by rewrite rsplit_once_app.
Qed.

Lemma split_tag_None name : has_char ":" (last_segment name) = false → split_tag name = (name, None).
Proof.
  unfold last_segment, split_tag. destruct (rsplit_once "/" name) as [[x y]|];
    by intros ->%rsplit_once_None.
Qed.

Lemma split_tag_Some name tag :
  has_char ":" tag = false → has_char "/" tag = false →
  split_tag (name +:+ String ":" tag) = (name, Some tag).
Proof.
  intros Hc Hs. unfold split_tag. destruct (rsplit_once "/" name) as [[x y]|] eqn:E.
  - apply rsplit_once_Some in E as [-> Hy]. rewrite str_app_assoc. cbn [String.append].
    rewrite rsplit_once_app; [by rewrite rsplit_once_app|]. rewrite has_char_app. cbn. by rewrite Hy.
  - apply rsplit_once_None in E. rewrite (proj2 (rsplit_once_None "/" _)); [by rewrite rsplit_once_app|].
    rewrite has_char_app. cbn. by rewrite E.
Qed.

Lemma split_tag_inv nt name tag : split_tag nt = (name, tag) →
  nt = name +:+ push_opt ":" tag ∧
  match tag with
  | Some t => has_char ":" t = false ∧ has_char "/" t = false
  | None => has_char ":" (last_segment name) = false
  end.
Proof.
  unfold split_tag, last_segment. destruct (rsplit_once "/" nt) as [[x y]|] eqn:E.
  - destruct (proj1 (rsplit_once_Some _ _ _ _) E) as [-> Hy].
    destruct (rsplit_once ":" y) as [[b t]|] eqn:E2; intros [= <- <-]; cbn [push_opt].
    + apply rsplit_once_Some in E2 as [-> Ht]. rewrite str_app_assoc. split; [done|].
      rewrite has_char_app in Hy. cbn in Hy. apply orb_false_iff in Hy as [_ Hy]. done.
    + rewrite str_app_nil_r, E. by rewrite (proj1 (rsplit_once_None _ _) E2).
  - destruct (rsplit_once ":" nt) as [[b t]|] eqn:E2; intros [= <- <-]; cbn [push_opt].
    + apply rsplit_once_Some in E2 as [-> Ht]. split; [done|].
      apply rsplit_once_None in E. rewrite has_char_app in E. cbn in E.
      by apply orb_false_iff in E as [_ E].
    + rewrite str_app_nil_r, E. by rewrite (proj1 (rsplit_once_None _ _) E2).
Qed.

Lemma split_digest_inv s nt digest : split_digest s = Ok (nt, digest) →
  s = nt +:+ push_opt "@" digest ∧
  match digest with
  | Some d => has_char "@" d = false ∧ has_char ":" d = true
  | None => has_char "@" nt = false
  end.
Proof.
  unfold split_digest. destruct (rsplit_once "@" s) as [[x y]|] eqn:E.
  - apply rsplit_once_Some in E as [-> Hy]. destruct (has_char ":" y) eqn:Hc; cbn; [|done].
    by intros [= <- <-].
  - intros [= <- <-]. cbn. rewrite str_app_nil_r. by apply rsplit_once_None in E.
Qed.

Lemma split_digest_app nt digest :
  match digest with
  | Some d => has_char "@" d = false ∧ has_char ":" d = true
  | None => has_char "@" nt = false
  end → split_digest (nt +:+ push_opt "@" digest) = Ok (nt, digest).
Proof.
  unfold split_digest. destruct digest as [d|]; cbn [push_opt].
  - intros [Hd Hc]. by rewrite rsplit_once_app, Hc.
  - intros Hn. by rewrite str_app_nil_r, (proj2 (rsplit_once_None _ _) Hn).
Qed.

(** A registry and a repository that [split_registry_repository] keeps apart. *)
Definition separated (registry repository : string) : Prop :=
  has_char "/" registry = false ∧ looks_like_registry registry = true ∧ is_empty repository = false.

Lemma split_registry_app registry repository :
  separated registry repository →
  split_registry_repository (registry +:+ String "/" repository) = Ok (registry, repository).
Proof.
  intros (Hs & Hr & He). unfold split_registry_repository.
  by rewrite (proj2 (split_once_Some "/" _ registry repository)), Hr, He.
Qed.

(** How the normalised name [registry/repository] relates to the name given. *)
Inductive expands (name : string) : string → string → Prop :=
  | expands_full registry repository :
      name = registry +:+ String "/" repository → expands name registry repository
  | expands_hub : has_char "/" name = true → expands name DEFAULT_REGISTRY name
  | expands_library : has_char "/" name = false → expands name DEFAULT_REGISTRY ("library/" +:+ name).

Lemma split_registry_inv name registry repository :
  split_registry_repository name = Ok (registry, repository) →
  separated registry repository ∧ expands name registry repository.
Proof.
  assert (Hdef : separated DEFAULT_REGISTRY (default_repository name)
                 ∧ expands name DEFAULT_REGISTRY (default_repository name)).
  { unfold default_repository. destruct (has_char "/" name) eqn:E; split; try by constructor.
    repeat split. destruct name; [discriminate E | done]. }
  unfold split_registry_repository. destruct (split_once "/" name) as [[f repo]|] eqn:E.
  2: { by intros [= <- <-]. }
  destruct (looks_like_registry f) eqn:Hf; [|by intros [= <- <-]].
  apply split_once_Some in E as [-> Hsl].
  destruct (is_empty repo) eqn:He; [done|]. intros [= <- <-]. split; [done|]. by constructor.
Qed.

Lemma expands_last_segment name registry repository :
  expands name registry repository →
  last_segment (registry +:+ String "/" repository) = last_segment name.
Proof.
  intros Hx. rewrite last_segment_dir. destruct Hx as [registry repository ->| |]; [|done|].
  - by rewrite last_segment_dir.
  - change ("library/" +:+ name) with ("library" +:+ String "/" name). by rewrite last_segment_dir.
Qed.

(** A predicate on characters that holds of the given name and of the default
    components holds of the expanded one. *)
Lemma expands_forallb p name registry repository :
  str_forallb p (DEFAULT_REGISTRY +:+ "/library/") = true →
  expands name registry repository → str_forallb p name = true →
  str_forallb p (registry +:+ String "/" repository) = true.
Proof.
  rewrite str_forallb_app. intros [Hd Hl]%andb_true_iff [reg repo ->| |] Hn; [done| |];
    rewrite str_forallb_app, Hd; cbn in Hl |- *; rewrite !andb_true_iff in Hl |- *;
    decompose [and] Hl; repeat split; done.
Qed.

(** ** Printing and parsing back *)

(** What every parsed reference satisfies, and all that parsing back needs. *)
Definition canonical (r : ImageReference) : Prop :=
  let name := ir_registry r +:+ String "/" (ir_repository r) in
  separated (ir_registry r) (ir_repository r) ∧
  match ir_tag r with
  | Some t => has_char ":" t = false ∧ has_char "/" t = false
  | None => has_char ":" (last_segment name) = false ∧ is_Some (ir_digest r)
  end ∧
  match ir_digest r with
  | Some d => has_char "@" d = false ∧ has_char ":" d = true
  | None => has_char "@" (name +:+ push_opt ":" (ir_tag r)) = false
  end.

Lemma full_reference_eq r :
  full_reference r =
    ((ir_registry r +:+ String "/" (ir_repository r)) +:+ push_opt ":" (ir_tag r))
      +:+ push_opt "@" (ir_digest r).
Proof. unfold full_reference. by rewrite !str_app_assoc. Qed.

Lemma parse_canonical r :
  canonical r → str_forallb visible (full_reference r) = true →
  parse_reference (full_reference r) = Ok r.
Proof.
  destruct r as [reg repo tag digest]. intros (Hsep & Htag & Hdig) Hv.
  unfold parse_reference. rewrite trim_visible by done. rewrite full_reference_eq in *.
  cbn [ir_registry ir_repository ir_tag ir_digest] in *.
  destruct (is_empty _) eqn:E.
  { by destruct Hsep as (_ & Hr & _), reg. }
  rewrite split_digest_app by done. cbn [mbind result_bind].
  destruct tag as [t|]; cbn [push_opt] in *.
  - destruct Htag. rewrite split_tag_Some by done. by rewrite split_registry_app.
  - destruct Htag as [Hl [d ->]]. rewrite str_app_nil_r, split_tag_None by done.
    by rewrite split_registry_app.
Qed.

Lemma has_char_false c s : has_char c s = false ↔ str_forallb (λ a, negb (Ascii.eqb a c)) s = true.
Proof.
  induction s as [|a s IH]; cbn; [done|].
  rewrite orb_false_iff, andb_true_iff, negb_true_iff, IH. done.
Qed.

Lemma parse_reference_canonical s r :
  parse_reference s = Ok r →
  canonical r ∧ (str_forallb visible s = true → str_forallb visible (full_reference r) = true).
Proof.
  unfold parse_reference. destruct (is_empty (trim s)); [done|].
  intros ([nt digest] & Hd & Hp)%bind_Ok.
  destruct (split_tag nt) as [name tag] eqn:Ht.
  apply bind_Ok in Hp as ([reg repo] & Hreg & [= <-]).
  apply split_digest_inv in Hd as [Hs Hd]. apply split_registry_inv in Hreg as [Hsep Hx].
  apply split_tag_inv in Ht as [-> Ht]. unfold canonical. rewrite full_reference_eq.
  cbn [ir_registry ir_repository ir_tag ir_digest]. split.
  - split; [done|]. split.
    + destruct tag as [t|]; [done|]. destruct digest; [|done].
      by rewrite (expands_last_segment name).
    + destruct digest as [d|]; [done|].
      rewrite has_char_false, str_forallb_app in *. apply andb_true_iff in Hd as [Hn Htg].
      by rewrite (expands_forallb _ name), ?andb_true_l by done; destruct tag.
  - intros Hv. rewrite trim_visible in Hs by done. rewrite Hs, !str_forallb_app, !andb_true_iff in Hv.
    destruct Hv as [[Hn Htg] Hdg]. rewrite !str_forallb_app, !andb_true_iff, <-andb_true_iff,
      <-str_forallb_app, (expands_forallb _ name) by done.
    by destruct tag, digest.
Qed.

(** Parsing normalises: whatever reference made of visible characters the
    user gives, the printed form of the parsed reference parses back to the same
    registry, repository, tag and digest, so the printed form identifies the
    image. *)
Theorem reference_roundtrip s r :
  str_forallb visible s = true → parse_reference s = Ok r →
  parse_reference (full_reference r) = Ok r.
Proof.
  intros Hv [Hc Hf]%parse_reference_canonical. apply parse_canonical; auto.
Qed.

Lemma reference_roundtrip_witness :
  parse_reference "localhost:5000/team/app@sha256:ab" =
    Ok {| ir_registry := "localhost:5000"; ir_repository := "team/app"; ir_tag := None;
          ir_digest := Some "sha256:ab" |} ∧
  parse_reference (full_reference
    {| ir_registry := "localhost:5000"; ir_repository := "team/app"; ir_tag := None;
       ir_digest := Some "sha256:ab" |}) =
    Ok {| ir_registry := "localhost:5000"; ir_repository := "team/app"; ir_tag := None;
          ir_digest := Some "sha256:ab" |}.
Proof.
  split; [reflexivity|].
  apply (reference_roundtrip "localhost:5000/team/app@sha256:ab"); reflexivity.
Defined.

(** A name without a registry, tag or digest is an image of the default
    registry's library, at the default tag; a numeric tag is not a port. *)
Lemma parse_simple_name name tag :
  str_forallb (λ c, visible c && negb (Ascii.eqb c "/") && negb (Ascii.eqb c ":")
                    && negb (Ascii.eqb c "@")) (name +:+ default "" tag) = true →
  is_empty name = false →
  parse_reference (name +:+ push_opt ":" tag) =
    Ok {| ir_registry := DEFAULT_REGISTRY; ir_repository := "library/" +:+ name;
          ir_tag := Some (default DEFAULT_TAG tag); ir_digest := None |}.
Proof.
  intros Hp Hne.
  assert (Hno : ∀ c, In c ["/"%char; ":"%char; "@"%char] →
    has_char c name = false ∧ has_char c (default "" tag) = false).
  { intros c Hc. rewrite !has_char_false, <-andb_true_iff, <-str_forallb_app.
    eapply str_forallb_impl; [|exact Hp]. cbn. intros a. rewrite !andb_true_iff.
    intros Ha. destruct Hc as [<-|[<-|[<-|[]]]]; tauto. }
  destruct (Hno "/"%char) as [Hs1 Hs2]; [by left|].
  destruct (Hno ":"%char) as [Hc1 Hc2]; [by right; left|].
  destruct (Hno "@"%char) as [Ha1 Ha2]; [by right; right; left|].
  assert (Hv : str_forallb visible (name +:+ push_opt ":" tag) = true).
  { eapply (str_forallb_impl _ visible) in Hp; [|cbn; intros a; rewrite !andb_true_iff; tauto].
    rewrite str_forallb_app, andb_true_iff in Hp |- *. by destruct tag. }
  unfold parse_reference. rewrite trim_visible by done. destruct name as [|a name]; [done|].
  change (is_empty (String a name +:+ push_opt ":" tag)) with false. cbv iota.
  rewrite <-(str_app_nil_r (String a name +:+ _)), (split_digest_app _ None).
  2: { rewrite has_char_app, Ha1. by destruct tag. }
  cbn [mbind result_bind].
  assert (Hst : split_tag (String a name +:+ push_opt ":" tag) = (String a name, tag)).
  { destruct tag; cbn [push_opt]; [by apply split_tag_Some|]. rewrite str_app_nil_r.
    apply split_tag_None. unfold last_segment. by rewrite (proj2 (rsplit_once_None _ _) Hs1). }
  rewrite Hst. unfold split_registry_repository, default_repository.
  rewrite (proj2 (split_once_None _ _) Hs1), Hs1. by destruct tag.
Qed.

(** Examples of the source's documentation and tests. *)
Example parse_registry_port :
  parse_reference "myregistry.io:5000/myimage:v1" =
    Ok {| ir_registry := "myregistry.io:5000"; ir_repository := "myimage"; ir_tag := Some "v1";
          ir_digest := None |}.
Proof. reflexivity. Qed.

Example parse_bad_digest :
  parse_reference "nginx@invaliddigest" = Err (InvalidDigest "nginx@invaliddigest").
Proof. reflexivity. Qed.

(** The empty repository is refused after a registry but accepted without one. *)
Example parse_empty_name :
  parse_reference "ghcr.io/" = Err (EmptyRepository "ghcr.io/") ∧
  parse_reference ":v1" =
    Ok {| ir_registry := DEFAULT_REGISTRY; ir_repository := "library/"; ir_tag := Some "v1";
          ir_digest := None |}.
Proof. done. Qed.
