(* ===== verification/Security.v ===== *)
(** * Security: hardening options and live limits

    [core/src/security.rs], the profile handed to the guest's init process in
    its environment, and [runtime/src/resize.rs], the control-group commands of
    a resource update.  The environment is a map; integers keep their width. *)

From Stdlib Require Import ZArith Lia Ascii Floats.SpecFloat.
From stdpp Require Import base gmap strings list numbers.
From S2P Require Import Prelude RustStr RustFloat Network Config.

Local Open Scope Z_scope.

(** ** Security profile ([core/src/security.rs]) *)

Inductive SeccompMode := SeccompDefault | Unconfined | Custom (path : string).

Record SecurityConfig := {
  sec_seccomp : SeccompMode;
  sec_no_new_privileges : bool;
  sec_cap_add : list string;
  sec_cap_drop : list string;
  sec_privileged : bool }.

Definition security_default : SecurityConfig :=
  {| sec_seccomp := SeccompDefault; sec_no_new_privileges := true; sec_cap_add := [];
     sec_cap_drop := []; sec_privileged := false |}.

(** The error carries the path of the refused profile. *)
Definition validate_security (c : SecurityConfig) : result string () :=
  match sec_seccomp c with Custom path => Err path | _ => Ok () end.

Definition privileged_config : SecurityConfig :=
  {| sec_seccomp := Unconfined; sec_no_new_privileges := false; sec_cap_add := ["ALL"];
     sec_cap_drop := []; sec_privileged := true |}.

Definition set_seccomp (c : SecurityConfig) (m : SeccompMode) : SecurityConfig :=
  {| sec_seccomp := m; sec_no_new_privileges := sec_no_new_privileges c;
     sec_cap_add := sec_cap_add c; sec_cap_drop := sec_cap_drop c;
     sec_privileged := sec_privileged c |}.
Definition set_no_new_privs (c : SecurityConfig) (b : bool) : SecurityConfig :=
  {| sec_seccomp := sec_seccomp c; sec_no_new_privileges := b;
     sec_cap_add := sec_cap_add c; sec_cap_drop := sec_cap_drop c;
     sec_privileged := sec_privileged c |}.

(** The body of the loop over the options; unknown, [apparmor=] and [label=]
    options change nothing. *)
Definition apply_option (c : SecurityConfig) (opt : string) : SecurityConfig :=
  let opt := trim opt in
  match strip_prefix "seccomp=" opt with
  | Some value =>
      set_seccomp c (if bool_decide (value = "unconfined") then Unconfined else Custom value)
  | None =>
      if bool_decide (opt = "no-new-privileges") || bool_decide (opt = "no-new-privileges=true")
      then set_no_new_privs c true
      else if bool_decide (opt = "no-new-privileges=false") then set_no_new_privs c false
      else c
  end.

Definition from_options (security_opt cap_add cap_drop : list string) (privileged : bool)
    : SecurityConfig :=
  if privileged then privileged_config
  else
    foldl apply_option
      {| sec_seccomp := SeccompDefault; sec_no_new_privileges := true; sec_cap_add := cap_add;
         sec_cap_drop := cap_drop; sec_privileged := false |} security_opt.

Definition seccomp_value (m : SeccompMode) : string :=
  match m with
  | SeccompDefault => "default"
  | Unconfined => "unconfined"
  | Custom path => "custom:" +:+ path
  end.

Definition to_env_vars (c : SecurityConfig) : list (string * string) :=
  [("A3S_SEC_SECCOMP", seccomp_value (sec_seccomp c));
   ("A3S_SEC_NO_NEW_PRIVS", if sec_no_new_privileges c then "1" else "0")]
  ++ (if sec_privileged c then [("A3S_SEC_PRIVILEGED", "1")] else [])
  ++ (match sec_cap_add c with [] => [] | l => [("A3S_SEC_CAP_ADD", join "," l)] end)
  ++ (match sec_cap_drop c with [] => [] | l => [("A3S_SEC_CAP_DROP", join "," l)] end).

Definition parse_seccomp (val : string) : SeccompMode :=
  if bool_decide (val = "unconfined") then Unconfined
  else if bool_decide (val = "default") then SeccompDefault
  else match strip_prefix "custom:" val with Some path => Custom path | None => SeccompDefault end.

Definition parse_caps (val : string) : list string := map trim (split "," val).

Definition from_env_vars (env : gmap string string) : SecurityConfig :=
  if bool_decide (env !! "A3S_SEC_PRIVILEGED" = Some "1") then privileged_config
  else
    {| sec_seccomp := from_option parse_seccomp SeccompDefault (env !! "A3S_SEC_SECCOMP");
       sec_no_new_privileges :=
         from_option (λ v, bool_decide (v = "1")) true (env !! "A3S_SEC_NO_NEW_PRIVS");
       sec_cap_add := from_option parse_caps [] (env !! "A3S_SEC_CAP_ADD");
       sec_cap_drop := from_option parse_caps [] (env !! "A3S_SEC_CAP_DROP");
       sec_privileged := false |}.

(** ** Live resize ([runtime/src/resize.rs]) *)

Record ResourceUpdate := {
  ru_vcpus : option Z; ru_memory_mb : option Z; ru_limits : ResourceLimits }.

Definition is_some {A} (o : option A) : bool := match o with Some _ => true | None => false end.

Definition has_tier1_changes (u : ResourceUpdate) : bool :=
  is_some (ru_vcpus u) || is_some (ru_memory_mb u).

Definition has_tier2_changes (u : ResourceUpdate) : bool :=
  let l := ru_limits u in
  is_some (cpu_shares l) || is_some (cpu_quota l) || is_some (cpu_period l)
  || is_some (memory_reservation l) || is_some (memory_swap l) || is_some (pids_limit l)
  || is_some (cpuset_cpus l).

Definition dq : string := String "034"%char "".

Definition cgroup_write_cmd (file value : string) : string :=
  "d=" +:+ dq +:+ dq +:+ "; n=0; for x in /sys/fs/cgroup/box-*/; do [ -d " +:+ dq +:+ "$x" +:+ dq
  +:+ " ] && { d=" +:+ dq +:+ "$x" +:+ dq +:+ "; n=$((n+1)); }; done; [ " +:+ dq +:+ "$n" +:+ dq
  +:+ " = 1 ] || d=" +:+ dq +:+ "/sys/fs/cgroup/" +:+ dq +:+ "; echo '" +:+ value +:+ "' > "
  +:+ dq +:+ "${d}" +:+ file +:+ dq.

(** [q < 0] means unlimited; a non-negative [i64] prints as a [u64]. *)
Definition limit_or_max (q : Z) : string := if q <? 0 then "max" else show_uint q.

(** [u64] arithmetic of a release build. *)
Definition cpu_weight (shares : Z) : Z :=
  if shares <=? 2 then 1
  else 1 + Z.min (wrap 64 (sat_sub shares 2 * 9999) / 262142) 10000.

Definition build_cgroup_commands (u : ResourceUpdate) : list string :=
  let l := ru_limits u in
  (if is_some (cpu_quota l) || is_some (cpu_period l)
   then [cgroup_write_cmd "cpu.max"
           (from_option limit_or_max "max" (cpu_quota l) +:+ " "
            +:+ show_uint (default 100000 (cpu_period l)))]
   else [])
  ++ (match cpu_shares l with
      | Some shares => [cgroup_write_cmd "cpu.weight" (show_uint (cpu_weight shares))]
      | None => []
      end)
  ++ (match memory_reservation l with
      | Some r => [cgroup_write_cmd "memory.low" (show_uint r)]
      | None => []
      end)
  ++ (match memory_swap l with
      | Some s => [cgroup_write_cmd "memory.swap.max" (limit_or_max s)]
      | None => []
      end)
  ++ (match pids_limit l with
      | Some p => [cgroup_write_cmd "pids.max" (show_uint p)]
      | None => []
      end)
  ++ (match cpuset_cpus l with
      | Some c => [cgroup_write_cmd "cpuset.cpus" c]
      | None => []
      end).

Inductive resize_err := CannotChangeVcpus (vcpus : Z) | CannotChangeMemory (memory_mb : Z).

Definition validate_update (u : ResourceUpdate) : result resize_err () :=
  match ru_vcpus u, ru_memory_mb u with
  | Some v, _ => Err (CannotChangeVcpus v)
  | None, Some m => Err (CannotChangeMemory m)
  | None, None => Ok ()
  end.

(** ** The profile reaches the guest *)

(** A capability name that survives the comma-separated list. *)
Definition plain_cap (c : string) : Prop := has_char "," c = false ∧ trim c = c.

(** Profiles the environment can carry: the privileged one, or any other whose
    capabilities are plain. *)
Definition portable (c : SecurityConfig) : Prop :=
  if sec_privileged c then c = privileged_config
  else Forall plain_cap (sec_cap_add c) ∧ Forall plain_cap (sec_cap_drop c).

Lemma parse_caps_join l : l ≠ [] → Forall plain_cap l → parse_caps (join "," l) = l.
Proof.
  intros Hne Hl. unfold parse_caps. rewrite split_join.
  - clear Hne. induction Hl as [|x l [_ Hx] Hl IH]; [done|]. cbn [map]. by rewrite Hx, IH.
  - done.
  - eapply Forall_impl; [|exact Hl]. by intros x [? _].
Qed.

Lemma parse_seccomp_value m : parse_seccomp (seccomp_value m) = m.
Proof. by destruct m. Qed.

Definition caps_var (l : list string) : option string :=
  match l with [] => None | _ => Some (join "," l) end.

Lemma caps_var_parse l : Forall plain_cap l → from_option parse_caps [] (caps_var l) = l.
Proof. destruct l; [done|]. intros Hl. by apply parse_caps_join. Qed.

Lemma env_lookups c : let env : gmap string string := list_to_map (to_env_vars c) in
  env !! "A3S_SEC_SECCOMP" = Some (seccomp_value (sec_seccomp c)) ∧
  env !! "A3S_SEC_NO_NEW_PRIVS" = Some (if sec_no_new_privileges c then "1" else "0") ∧
  env !! "A3S_SEC_PRIVILEGED" = (if sec_privileged c then Some "1" else None) ∧
  env !! "A3S_SEC_CAP_ADD" = caps_var (sec_cap_add c) ∧
  env !! "A3S_SEC_CAP_DROP" = caps_var (sec_cap_drop c).
Proof. destruct c as [m [] [|a add] [|d drop] []]; done. Qed.

(** The guest sees the profile the host built: reading the security
    variables back from the environment gives the same profile, for the
    privileged profile and for every other one whose capability names contain
    no comma and no surrounding blanks. *)
Theorem security_env_roundtrip c :
  portable c → from_env_vars (list_to_map (to_env_vars c)) = c.
Proof.
  unfold portable, from_env_vars. destruct (env_lookups c) as (-> & -> & -> & -> & ->).
  destruct c as [m nnp add drop []]; cbn [sec_privileged sec_seccomp sec_no_new_privileges
    sec_cap_add sec_cap_drop from_option]; [by intros -> | intros [Ha Hd]].
  rewrite bool_decide_false by done. rewrite parse_seccomp_value, !caps_var_parse by done.
  by destruct nnp.
Qed.

Lemma security_env_roundtrip_witness :
  let c := from_options ["no-new-privileges=false"; " seccomp=unconfined "]
             ["NET_ADMIN"; "SYS_PTRACE"] ["MKNOD"] false in
  from_env_vars (list_to_map (to_env_vars c)) = c.
Proof.
  cbv zeta. apply security_env_roundtrip.
  change (Forall plain_cap ["NET_ADMIN"; "SYS_PTRACE"] ∧ Forall plain_cap ["MKNOD"]).
  repeat constructor.
Defined.

(** ** What the options can ask for *)

Definition seccomp_opts (opts : list string) : list string :=
  omap (λ o, strip_prefix "seccomp=" (trim o)) opts.

Definition mode_of (value : string) : SeccompMode :=
  if bool_decide (value = "unconfined") then Unconfined else Custom value.

Lemma apply_options_seccomp opts c :
  sec_seccomp (foldl apply_option c opts) =
    foldl (λ _ v, mode_of v) (sec_seccomp c) (seccomp_opts opts).
Proof.
  revert c. induction opts as [|o opts IH]; intros c; [done|]. cbn [foldl]. rewrite IH.
  unfold seccomp_opts. cbn [omap list_omap]. unfold apply_option at 1. cbv zeta.
  destruct (strip_prefix "seccomp=" (trim o)); [done|].
  by repeat case_match.
Qed.

Lemma apply_options_rest opts c :
  sec_cap_add (foldl apply_option c opts) = sec_cap_add c ∧
  sec_cap_drop (foldl apply_option c opts) = sec_cap_drop c ∧
  sec_privileged (foldl apply_option c opts) = sec_privileged c.
Proof.
  revert c. induction opts as [|o opts IH]; intros c; [done|]. cbn [foldl].
  destruct (IH (apply_option c o)) as (-> & -> & ->). unfold apply_option. cbv zeta.
  destruct (strip_prefix "seccomp=" (trim o)); [done|]. by repeat case_match.
Qed.

(** Which options pass validation: the last [seccomp=] option decides, and
    it passes only if it is [unconfined]; without one the default filter is
    kept.  The capabilities are those given and the box is not privileged. *)
Theorem validated_options opts add drop :
  let c := from_options opts add drop false in
  sec_cap_add c = add ∧ sec_cap_drop c = drop ∧ sec_privileged c = false ∧
  sec_seccomp c = match reverse (seccomp_opts opts) with [] => SeccompDefault | v :: _ => mode_of v end ∧
  (validate_security c = Ok () ↔
    match reverse (seccomp_opts opts) with [] => True | v :: _ => v = "unconfined" end).
Proof.
  cbv zeta. unfold from_options. set (c0 := {| sec_seccomp := _ |}).
  destruct (apply_options_rest opts c0) as (-> & -> & ->). do 3 (split; [done|]).
  unfold validate_security. rewrite apply_options_seccomp.
  generalize (seccomp_opts opts). intros l. cbn [sec_seccomp c0].
  induction l as [|v l _] using rev_ind; [done|].
  rewrite foldl_app, reverse_app. cbn. split; [done|]. unfold mode_of.
  case_bool_decide; naive_solver.
Qed.

(** Asking for the default profile by name is refused, with a message that
    tells the user to ask for it by name. *)
Example default_seccomp_refused :
  validate_security (from_options ["seccomp=default"] [] [] false) = Err "default".
Proof. reflexivity. Qed.

(** ** The weight of a box *)

Lemma cpu_weight_small shares : 2 ≤ shares ≤ 262144 →
  cpu_weight shares = 1 + (shares - 2) * 9999 / 262142.
Proof.
  intros Hs. unfold cpu_weight. destruct (Z.leb_spec shares 2).
  { by replace shares with 2 by lia. }
  unfold sat_sub. rewrite Z.max_r, wrap_small by (unfold in_range; lia).
  assert ((shares - 2) * 9999 / 262142 < 10000) by (apply Z.div_lt_upper_bound; lia). lia.
Qed.

(** On the documented range of shares the weight is in the range of the
    kernel, grows with the shares, and reaches both ends. *)
Theorem cpu_weight_scale :
  cpu_weight 2 = 1 ∧ cpu_weight 262144 = 10000 ∧
  ∀ s t, 2 ≤ s → s ≤ t → t ≤ 262144 → 1 ≤ cpu_weight s ≤ cpu_weight t ∧ cpu_weight t ≤ 10000.
Proof.
  split; [reflexivity|]. split; [reflexivity|]. intros s t Hs Hst Ht.
  rewrite !cpu_weight_small by lia.
  assert (0 ≤ (s - 2) * 9999 / 262142) by (apply Z.div_pos; lia).
  assert ((s - 2) * 9999 / 262142 ≤ (t - 2) * 9999 / 262142) by (apply Z.div_le_mono; lia).
  assert ((t - 2) * 9999 / 262142 < 10000) by (apply Z.div_lt_upper_bound; lia). lia.
Qed.

(** Beyond it the cap lets a weight through that the kernel refuses, and the
    product wraps around. *)
Example cpu_weight_too_large : cpu_weight 262171 = 10001 ∧ cpu_weight (2 ^ 64 - 1) = 10001.
Proof. split; vm_compute; reflexivity. Qed.

(** An update passes validation exactly when it leaves the machine's shape alone. *)
Lemma validate_update_spec u : validate_update u = Ok () ↔ has_tier1_changes u = false.
Proof.
  unfold validate_update, has_tier1_changes. by destruct (ru_vcpus u), (ru_memory_mb u).
Qed.

(** Every control-group change asked for produces a command, and only those. *)
Lemma commands_iff_tier2 u : build_cgroup_commands u = [] ↔ has_tier2_changes u = false.
Proof.
  unfold build_cgroup_commands, has_tier2_changes.
  destruct (ru_limits u) as [[] [] ? [] [] [] [] []]; cbn [is_some orb app cpu_quota cpu_period
    cpu_shares memory_reservation memory_swap pids_limit cpuset_cpus]; done.
Qed.
