(* ===== verification/Attestation.v ===== *)
(** * Attestation: SEV-SNP reports, their verification, and the policy

    [runtime/src/tee/attestation.rs] (report layout), [policy.rs],
    [verifier.rs] and [simulate.rs].  A report is a list of bytes.  X.509
    decoding and ECDSA-P384 come from the crates [x509_cert] and [p384]; they
    are the operations of the class [X509P384], of which no law is needed. *)

From Stdlib Require Import ZArith Lia Ascii.
From stdpp Require Import base gmap strings list numbers.
From S2P Require Import Prelude RustStr.

Local Open Scope Z_scope.

(** ** Bytes *)

(** [&bytes[a..b]] *)
Definition slice (a b : nat) (l : list Z) : list Z := take (b - a) (drop a l).

(** [u32::from_le_bytes], [u64::from_le_bytes] *)
Definition from_le_bytes (l : list Z) : Z := foldr (λ b acc, b + 256 * acc) 0 l.

(** [u32::to_le_bytes] and [u64::to_le_bytes], at [n] bytes *)
Fixpoint to_le_bytes (n : nat) (z : Z) : list Z :=
  match n with O => [] | S n => z mod 256 :: to_le_bytes n (z / 256) end.

(** [hex::encode] *)
Definition hex_encode (l : list Z) : string := foldr (λ b s, hex2 b +:+ s) "" l.

(** [dst[at..at + src.len()].copy_from_slice(src)] *)
Definition copy_at (at_ : nat) (src dst : list Z) : list Z :=
  take at_ dst ++ src ++ drop (at_ + length src) dst.

(** [format!("{:#x}", n)] *)
Fixpoint show_hex_go (fuel : nat) (n : Z) (acc : string) : string :=
  match fuel with
  | O => acc
  | S fuel =>
      let acc := String (hex_digit (n mod 16)) acc in
      if n <? 16 then acc else show_hex_go fuel (n / 16) acc
  end.
Definition show_hex (n : Z) : string := "0x" +:+ show_hex_go 16 n "".

(** [str::is_char_boundary], and the slice [&s[..n]], which panics elsewhere. *)
Definition is_char_boundary (n : nat) (s : string) : bool :=
  (n =? 0)%nat || (n =? String.length s)%nat ||
  match String.get n s with Some c => (code c <? 128) || (192 <=? code c) | None => false end.

(** ** Reports ([attestation.rs]) *)

Definition SNP_REPORT_SIZE : nat := 1184.

Record CertificateChain := { c_vcek : list Z; c_ask : list Z; c_ark : list Z }.

Record TcbVersion := { boot_loader : Z; tcb_tee : Z; tcb_snp : Z; microcode : Z }.

Record PlatformInfo := {
  pi_version : Z;
  pi_guest_svn : Z;
  pi_policy : Z;
  pi_measurement : string;
  pi_tcb : TcbVersion;
  pi_chip_id : string }.

Definition default_platform : PlatformInfo :=
  {| pi_version := 0; pi_guest_svn := 0; pi_policy := 0; pi_measurement := "";
     pi_tcb := {| boot_loader := 0; tcb_tee := 0; tcb_snp := 0; microcode := 0 |};
     pi_chip_id := "" |}.

Record AttestationReport := {
  ar_report : list Z;
  ar_cert_chain : CertificateChain;
  ar_platform : PlatformInfo }.

Definition parse_platform_info (report : list Z) : option PlatformInfo :=
  if (length report <? SNP_REPORT_SIZE)%nat then None
  else Some
    {| pi_version := from_le_bytes (slice 0x00 0x04 report);
       pi_guest_svn := from_le_bytes (slice 0x04 0x08 report);
       pi_policy := from_le_bytes (slice 0x08 0x10 report);
       pi_measurement := hex_encode (slice 0x90 0xC0 report);
       pi_tcb := {| boot_loader := report !!! 0x38%nat; tcb_tee := report !!! 0x39%nat;
                    tcb_snp := report !!! 0x3E%nat; microcode := report !!! 0x3F%nat |};
       pi_chip_id := hex_encode (slice 0x1A0 0x1E0 report) |}.

(** ** Simulated reports ([simulate.rs]) *)

Definition SIMULATED_REPORT_VERSION : Z := 0xA3.
Definition SIMULATED_CHIP_ID : list Z := replicate 64 0xA3.

Definition simulated_measurement : list Z :=
  map (λ i, wrap 8 (Z.of_nat i * 0xA3)) (seq 0 48).

Definition build_simulated_report (report_data : list Z) : list Z :=
  let report := replicate SNP_REPORT_SIZE 0 in
  let report := copy_at 0x00 (to_le_bytes 4 SIMULATED_REPORT_VERSION) report in
  let report := copy_at 0x04 (to_le_bytes 4 1) report in
  let report := copy_at 0x08 (to_le_bytes 8 0) report in
  let report := <[0x38%nat := 3]> report in
  let report := <[0x39%nat := 0]> report in
  let report := <[0x3E%nat := 8]> report in
  let report := <[0x3F%nat := 115]> report in
  let report := copy_at 0x50 report_data report in
  let report := copy_at 0x90 simulated_measurement report in
  copy_at 0x1A0 SIMULATED_CHIP_ID report.

Definition is_simulated_report (report : list Z) : bool :=
  if (length report <? 4)%nat then false
  else from_le_bytes (slice 0x00 0x04 report) =? SIMULATED_REPORT_VERSION.

(** ** Policies ([policy.rs]) *)

Record MinTcbPolicy := {
  min_boot_loader : option Z;
  min_tee : option Z;
  min_snp : option Z;
  min_microcode : option Z }.

Record AttestationPolicy := {
  expected_measurement : option string;
  min_tcb : option MinTcbPolicy;
  require_no_debug : bool;
  require_no_smt : bool;
  allowed_policy_mask : option Z;
  max_report_age_secs : option Z }.

Definition default_policy : AttestationPolicy :=
  {| expected_measurement := None; min_tcb := None; require_no_debug := true;
     require_no_smt := false; allowed_policy_mask := None; max_report_age_secs := None |}.

Record PolicyViolation := { v_check : string; v_reason : string }.

(** [Display] *)
Definition show_violation (v : PolicyViolation) : string :=
  v_check v +:+ ": " +:+ v_reason v.

Record PolicyResult := { passed : bool; violations : list PolicyViolation }.

Definition from_violations (vs : list PolicyViolation) : PolicyResult :=
  {| passed := match vs with [] => true | _ => false end; violations := vs |}.

(** ** The verifier ([verifier.rs]) *)

(** [SlicePanic]: the thread panics on a slice of a string inside a character. *)
Inductive attest_err :=
  | InvalidReport (len : nat)
  | SimulatedRejected
  | SlicePanic.

(** [&s[..s.len().min(16)]] *)
Definition prefix16 (s : string) : result attest_err string :=
  let n := (String.length s `min` 16)%nat in
  if is_char_boundary n s then Ok (String.substring 0 n s) else Err SlicePanic.

Definition measurement_violations (platform : PlatformInfo) (policy : AttestationPolicy)
    : result attest_err (list PolicyViolation) :=
  match expected_measurement policy with
  | Some expected =>
      if bool_decide (pi_measurement platform = expected) then Ok []
      else
        e ← prefix16 expected;
        m ← prefix16 (pi_measurement platform);
        Ok [{| v_check := "measurement"; v_reason := "Expected " +:+ e +:+ ", got " +:+ m |}]
  | None => Ok []
  end.

(** [(policy >> i) & 1 == 1] *)
Definition policy_bit (policy i : Z) : bool := Z.land (Z.shiftr policy i) 1 =? 1.

Definition below_minimum (check label : string) (actual : Z) (minimum : option Z)
    : list PolicyViolation :=
  match minimum with
  | Some m =>
      if actual <? m
      then [{| v_check := check;
               v_reason := label +:+ " SVN " +:+ show_uint actual +:+ " < minimum " +:+ show_uint m |}]
      else []
  | None => []
  end.

Definition tcb_violations (tcb : TcbVersion) (min : option MinTcbPolicy) : list PolicyViolation :=
  match min with
  | Some m =>
      below_minimum "tcb.boot_loader" "Boot loader" (boot_loader tcb) (min_boot_loader m)
      ++ below_minimum "tcb.tee" "TEE" (tcb_tee tcb) (min_tee m)
      ++ below_minimum "tcb.snp" "SNP" (tcb_snp tcb) (min_snp m)
      ++ below_minimum "tcb.microcode" "Microcode" (microcode tcb) (min_microcode m)
  | None => []
  end.

Definition check_policy (platform : PlatformInfo) (policy : AttestationPolicy)
    : result attest_err PolicyResult :=
  measurement ← measurement_violations platform policy;
  let debug :=
    if require_no_debug policy && policy_bit (pi_policy platform) 19
    then [{| v_check := "debug"; v_reason := "Debug mode is enabled (policy bit 19 set)" |}] else [] in
  let smt :=
    if require_no_smt policy && policy_bit (pi_policy platform) 16
    then [{| v_check := "smt"; v_reason := "SMT is enabled (policy bit 16 set)" |}] else [] in
  let mask :=
    match allowed_policy_mask policy with
    | Some m =>
        if Z.land (pi_policy platform) m =? m then []
        else [{| v_check := "policy_mask";
                 v_reason := "Guest policy " +:+ show_hex (pi_policy platform)
                             +:+ " does not satisfy mask " +:+ show_hex m |}]
    | None => []
    end in
  Ok (from_violations
        (measurement ++ debug ++ smt ++ tcb_violations (pi_tcb platform) (min_tcb policy) ++ mask)).

(** The verdict, and the failures pushed. *)
Definition check_report_age (now : Z) (policy : AttestationPolicy) (nonce_issued_at : option Z)
    : bool * list string :=
  match max_report_age_secs policy, nonce_issued_at with
  | None, _ => (true, [])
  | Some _, None => (true, [])
  | Some max_age, Some issued_at =>
      if now <? issued_at
      then (false, ["Report age check failed: nonce_issued_at (" +:+ show_uint issued_at
                    +:+ ") is in the future (now=" +:+ show_uint now +:+ ")"])
      else
        let age := now - issued_at in
        if max_age <? age
        then (false, ["Report too old: age " +:+ show_uint age +:+ "s exceeds maximum "
                      +:+ show_uint max_age +:+ "s (replay protection)"])
        else (true, [])
  end.

Definition verify_nonce (report expected_nonce : list Z) : bool :=
  if (length report <? 0x50 + 64)%nat then false
  else
    let report_data := slice 0x50 0x90 report in
    let compare_len := (length expected_nonce `min` 64)%nat in
    bool_decide (take compare_len report_data = take compare_len expected_nonce).

(** [iter().position(|&b| b != 0)] *)
Fixpoint first_nonzero (l : list Z) : option nat :=
  match l with
  | [] => None
  | b :: l => if b =? 0 then S <$> first_nonzero l else Some O
  end.

Definition trim_leading_zeros (bytes : list Z) (min_len : nat) : list Z :=
  let room := (length bytes - min_len)%nat in
  let start := default room (first_nonzero bytes) in
  drop (start `min` room) bytes.

(** The 96 bytes built from [r] and [s], each aligned to the right of its half. *)
Definition signature_bytes (r s : list Z) : list Z :=
  let half x :=
    replicate (48 - length x) 0 ++ drop (length x - 48) x in
  half r ++ half s.

(** What the verifier uses of [x509_cert], [der] and [p384]. *)
Class X509P384 := {
  Certificate : Type;
  cert_from_der : list Z → option Certificate;
  cert_issuer : Certificate → list Z;
  cert_subject : Certificate → list Z;
  cert_public_key : Certificate → option (list Z);
  cert_spki_der : Certificate → option (list Z);
  cert_tbs_der : Certificate → option (list Z);
  cert_signature : Certificate → option (list Z);
  VerifyingKey : Type;
  key_from_sec1_bytes : list Z → option VerifyingKey;
  Signature : Type;
  signature_from_slice : list Z → option Signature;
  key_verify : VerifyingKey → list Z → Signature → bool;
  DerSignature : Type;
  der_signature_from_bytes : list Z → option DerSignature;
  key_verify_der : VerifyingKey → list Z → DerSignature → bool }.

Section verifier.
Context `{X509P384}.

(** [None] is an [Err], which the caller turns into [false]. *)
Definition verify_p384_signature (message r s cert_der : list Z) : option bool :=
  cert ← cert_from_der cert_der;
  pub_key_bytes ← cert_public_key cert;
  verifying_key ← key_from_sec1_bytes pub_key_bytes;
  signature ← signature_from_slice (signature_bytes r s);
  Some (key_verify verifying_key message signature).

Definition verify_report_signature (report vcek_der : list Z) : bool :=
  if (length report <? SNP_REPORT_SIZE)%nat || (length vcek_der =? 0)%nat then false
  else
    let signed_data := take 0x2A0 report in
    let r_bytes := slice 0x2A0 0x2E8 report in
    let s_bytes := slice 0x2E8 0x330 report in
    default false
      (verify_p384_signature signed_data (trim_leading_zeros r_bytes 48)
         (trim_leading_zeros s_bytes 48) vcek_der).

Definition verify_cert_signature (cert issuer : Certificate) : bool :=
  default false (
    tbs_der ← cert_tbs_der cert;
    sig_bytes ← cert_signature cert;
    signature ← der_signature_from_bytes sig_bytes;
    pub_key_bytes ← cert_public_key issuer;
    verifying_key ← key_from_sec1_bytes pub_key_bytes;
    Some (key_verify_der verifying_key tbs_der signature)).

Definition verify_cert_chain (vcek_der ask_der ark_der : list Z) : bool :=
  let empty l := (length (l : list Z) =? 0)%nat in
  if empty vcek_der || empty ask_der || empty ark_der
  then empty vcek_der && empty ask_der && empty ark_der
  else
    match cert_from_der vcek_der, cert_from_der ask_der, cert_from_der ark_der with
    | Some vcek, Some ask, Some ark =>
        bool_decide (cert_issuer vcek = cert_subject ask)
        && bool_decide (cert_issuer ask = cert_subject ark)
        && bool_decide (cert_issuer ark = cert_subject ark)
        && verify_cert_signature ark ark
        && verify_cert_signature ask ark
        && verify_cert_signature vcek ask
    | _, _, _ => false
    end.

Record VerificationResult := {
  vr_verified : bool;
  vr_platform : PlatformInfo;
  vr_policy_result : PolicyResult;
  vr_signature_valid : bool;
  vr_cert_chain_valid : bool;
  vr_nonce_valid : bool;
  vr_report_age_valid : bool;
  vr_failures : list string }.

(** [now]: the wall clock in seconds since the epoch. *)
Definition verify_attestation_with_time (now : Z) (report : AttestationReport)
    (expected_nonce : list Z) (policy : AttestationPolicy) (allow_simulated : bool)
    (nonce_issued_at : option Z) : result attest_err VerificationResult :=
  platform ← ok_or (InvalidReport (length (ar_report report)))
               (parse_platform_info (ar_report report));
  let simulated := is_simulated_report (ar_report report) in
  if simulated && negb allow_simulated then Err SimulatedRejected
  else
    let chain := ar_cert_chain report in
    let nonce_valid := verify_nonce (ar_report report) expected_nonce in
    let signature_valid :=
      if simulated then true else verify_report_signature (ar_report report) (c_vcek chain) in
    let cert_chain_valid :=
      if simulated then true else verify_cert_chain (c_vcek chain) (c_ask chain) (c_ark chain) in
    policy_result ← check_policy platform policy;
    let '(report_age_valid, age_failures) := check_report_age now policy nonce_issued_at in
    Ok {| vr_verified := nonce_valid && signature_valid && cert_chain_valid
                         && passed policy_result && report_age_valid;
          vr_platform := platform;
          vr_policy_result := policy_result;
          vr_signature_valid := signature_valid;
          vr_cert_chain_valid := cert_chain_valid;
          vr_nonce_valid := nonce_valid;
          vr_report_age_valid := report_age_valid;
          vr_failures :=
            (if nonce_valid then []
             else ["Nonce mismatch: report_data does not contain expected nonce"])
            ++ (if signature_valid then [] else ["Signature verification failed"])
            ++ (if cert_chain_valid then [] else ["Certificate chain verification failed"])
            ++ (if passed policy_result then [] else map show_violation (violations policy_result))
            ++ age_failures |}.

Definition verify_attestation (now : Z) (report : AttestationReport) (expected_nonce : list Z)
    (policy : AttestationPolicy) (allow_simulated : bool) : result attest_err VerificationResult :=
  verify_attestation_with_time now report expected_nonce policy allow_simulated None.
End verifier.

(** ** What a policy demands *)

Definition at_least (actual : Z) (minimum : option Z) : Prop := ∀ m, minimum = Some m → m ≤ actual.

(** The policy, as the conditions on the platform it stands for. *)
Record policy_holds (pi : PlatformInfo) (p : AttestationPolicy) : Prop := {
  ph_measurement : ∀ m, expected_measurement p = Some m → pi_measurement pi = m;
  ph_debug : require_no_debug p = true → Z.testbit (pi_policy pi) 19 = false;
  ph_smt : require_no_smt p = true → Z.testbit (pi_policy pi) 16 = false;
  ph_tcb : ∀ t, min_tcb p = Some t →
    at_least (boot_loader (pi_tcb pi)) (min_boot_loader t) ∧
    at_least (tcb_tee (pi_tcb pi)) (min_tee t) ∧
    at_least (tcb_snp (pi_tcb pi)) (min_snp t) ∧
    at_least (microcode (pi_tcb pi)) (min_microcode t);
  ph_mask : ∀ m i, allowed_policy_mask p = Some m → 0 ≤ i →
    Z.testbit m i = true → Z.testbit (pi_policy pi) i = true }.

Lemma policy_bit_testbit p i : 0 ≤ i → policy_bit p i = Z.testbit p i.
Proof.
  intros Hi. unfold policy_bit. change 1 with (Z.ones 1) at 1.
  rewrite Z.land_ones, Z.shiftr_div_pow2 by lia.
  change (2 ^ 1) with 2.
  destruct (Z.testbit p i) eqn:E; [apply Z.testbit_true in E | apply Z.testbit_false in E];
    [by rewrite E | lia | by rewrite E | lia].
Qed.

Lemma land_mask p m : Z.land p m = m ↔ ∀ i, 0 ≤ i → Z.testbit m i = true → Z.testbit p i = true.
Proof.
  split.
  - intros E i Hi Hm. rewrite <-E, Z.land_spec in Hm. by apply andb_true_iff in Hm as [? _].
  - intros Hsub. apply Z.bits_inj'. intros i Hi. rewrite Z.land_spec.
    destruct (Z.testbit m i) eqn:E; [by rewrite Hsub | by rewrite andb_false_r].
Qed.

Lemma below_minimum_nil c l a o : below_minimum c l a o = [] ↔ at_least a o.
Proof.
  unfold below_minimum, at_least. destruct o as [m|]; [|naive_solver].
  destruct (Z.ltb_spec a m); split; try done.
  - intros Hm. specialize (Hm _ eq_refl). lia.
  - by intros _ ? [= <-].
Qed.

Lemma tcb_violations_nil tcb o : tcb_violations tcb o = [] ↔ ∀ t, o = Some t →
  at_least (boot_loader tcb) (min_boot_loader t) ∧ at_least (tcb_tee tcb) (min_tee t) ∧
  at_least (tcb_snp tcb) (min_snp t) ∧ at_least (microcode tcb) (min_microcode t).
Proof.
  unfold tcb_violations. destruct o as [t|]; [|naive_solver].
  rewrite !app_nil, !below_minimum_nil. naive_solver.
Qed.

Lemma measurement_violations_nil pi p vs : measurement_violations pi p = Ok vs →
  vs = [] ↔ ∀ m, expected_measurement p = Some m → pi_measurement pi = m.
Proof.
  unfold measurement_violations. destruct (expected_measurement p) as [e|].
  2: { intros [= <-]. naive_solver. }
  case_bool_decide as E; [intros [= <-]; naive_solver|].
  intros (? & _ & (? & _ & [= <-])%bind_Ok)%bind_Ok. naive_solver.
Qed.

Lemma if_nil {A} (b : bool) (x : A) : (if b then [x] else []) = [] ↔ b = false.
Proof. by destruct b. Qed.

Lemma passed_nil vs : passed (from_violations vs) = true ↔ vs = [].
Proof. by destruct vs. Qed.

Lemma check_policy_holds pi p r : check_policy pi p = Ok r →
  passed r = true ↔ policy_holds pi p.
Proof.
  unfold check_policy. intros (vs & Hvs%measurement_violations_nil & [= <-])%bind_Ok.
  rewrite passed_nil, !app_nil, Hvs, !if_nil, !policy_bit_testbit, tcb_violations_nil by lia.
  rewrite !andb_false_iff. split.
  - intros (Hm & Hd & Hs & Ht & Hk). constructor; [done| | |done|].
    + intros E. destruct Hd; congruence.
    + intros E. destruct Hs; congruence.
    + intros m i E. rewrite E in Hk. revert i. apply land_mask.
      destruct (Z.eqb_spec (Z.land (pi_policy pi) m) m); [done | discriminate Hk].
  - intros [Hm Hd Hs Ht Hk]. split; [done|]. split; [|split; [|split; [done|]]].
    + destruct (require_no_debug p); auto.
    + destruct (require_no_smt p); auto.
    + destruct (allowed_policy_mask p) as [m|]; [|done].
      rewrite (proj2 (land_mask (pi_policy pi) m)); [by rewrite Z.eqb_refl | eauto].
Qed.

Lemma check_policy_passed pi p r : check_policy pi p = Ok r →
  violations r = [] ↔ passed r = true.
Proof. unfold check_policy. intros (vs & _ & [= <-])%bind_Ok. by rewrite passed_nil. Qed.

(** The only way [check_policy] fails is the panic, and only on a measurement
    that is not ASCII. *)
Lemma prefix16_ascii s : is_ascii s = true → ∃ t, prefix16 s = Ok t.
Proof.
  intros Ha. unfold prefix16. replace (is_char_boundary _ s) with true; [eauto|]. symmetry.
  unfold is_char_boundary. destruct (Nat.eqb_spec (String.length s `min` 16) (String.length s));
    [by rewrite orb_true_r|].
  destruct (String.get _ s) as [c|] eqn:E.
  - assert ((code c <? 128) = true) as ->; [|by rewrite !orb_true_r].
    clear n. revert Ha E. generalize (String.length s `min` 16)%nat.
    unfold is_ascii. induction s as [|a s IH]; intros n; [by destruct n|].
    cbn. intros [Hc Hs]%andb_true_iff. destruct n; [by intros [= <-] | by apply IH].
  - exfalso. revert E. assert (String.length s `min` 16 < String.length s)%nat as Hlt by lia.
    revert Hlt. clear. generalize (String.length s `min` 16)%nat.
    induction s as [|a s IH]; intros n; cbn; [lia|]. destruct n; [done|]. intros. apply (IH n); [lia | done].
Qed.

(** ** What a verified report attests *)

Lemma first_nonzero_bound l i : first_nonzero l = Some i → (i < length l)%nat.
Proof.
  revert i. induction l as [|b l IH]; intros i; cbn; [done|].
  destruct (b =? 0); [|intros [= <-]; lia].
  destruct (first_nonzero l) as [j|]; cbn; [|done]. intros [= <-]. specialize (IH _ eq_refl). lia.
Qed.

(** However many zeros are trimmed, the signature is made of the last 48 bytes
    of each 72-byte field. *)
Lemma signature_bytes_trim r s : length r = 72%nat → length s = 72%nat →
  signature_bytes (trim_leading_zeros r 48) (trim_leading_zeros s 48) = drop 24 r ++ drop 24 s.
Proof.
  assert (Hhalf : ∀ x : list Z, length x = 72%nat →
    let y := trim_leading_zeros x 48 in
    replicate (48 - length y) 0 ++ drop (length y - 48) y = drop 24 x).
  { intros x Hx. unfold trim_leading_zeros. cbv zeta. rewrite length_drop, drop_drop, Hx.
    set (k := (_ `min` (72 - 48))%nat). assert (k ≤ 24)%nat by lia.
    replace (48 - (72 - k))%nat with O by lia. replace (k + (72 - k - 48))%nat with 24%nat by lia. done. }
  intros. unfold signature_bytes. cbv zeta in Hhalf |- *. by rewrite !Hhalf.
Qed.

Section attested.
Context `{X509P384}.

(** [issuer]'s key verifies the signature on [cert]. *)
Definition certified (cert issuer : Certificate) : Prop :=
  ∃ tbs sb sig pk key, cert_tbs_der cert = Some tbs ∧ cert_signature cert = Some sb ∧
    der_signature_from_bytes sb = Some sig ∧ cert_public_key issuer = Some pk ∧
    key_from_sec1_bytes pk = Some key ∧ key_verify_der key tbs sig = true.

(** The key of [cert] verifies the signature field of the report over its body. *)
Definition report_signed (report : list Z) (cert : Certificate) : Prop :=
  ∃ pk key sig, cert_public_key cert = Some pk ∧ key_from_sec1_bytes pk = Some key ∧
    signature_from_slice (slice 0x2B8 0x2E8 report ++ slice 0x300 0x330 report) = Some sig ∧
    key_verify key (take 0x2A0 report) sig = true.

(** A report signed by the leaf of a chain of three certificates, each signed
    by the next, the last by itself. *)
Definition hardware_attested (report : list Z) (chain : CertificateChain) : Prop :=
  ∃ vcek ask ark,
    cert_from_der (c_vcek chain) = Some vcek ∧ cert_from_der (c_ask chain) = Some ask ∧
    cert_from_der (c_ark chain) = Some ark ∧
    c_vcek chain ≠ [] ∧ c_ask chain ≠ [] ∧ c_ark chain ≠ [] ∧
    cert_issuer vcek = cert_subject ask ∧ cert_issuer ask = cert_subject ark ∧
    cert_issuer ark = cert_subject ark ∧
    certified ark ark ∧ certified ask ark ∧ certified vcek ask ∧ report_signed report vcek.

Lemma verify_cert_signature_certified cert issuer :
  verify_cert_signature cert issuer = true ↔ certified cert issuer.
Proof.
  unfold verify_cert_signature, certified. split.
  - intros E.
    destruct (cert_tbs_der cert) as [tbs|] eqn:?; [|done]. cbn in E.
    destruct (cert_signature cert) as [sb|] eqn:?; [|done]. cbn in E.
    destruct (der_signature_from_bytes sb) as [sg|] eqn:?; [|done]. cbn in E.
    destruct (cert_public_key issuer) as [pk|] eqn:?; [|done]. cbn in E.
    destruct (key_from_sec1_bytes pk) as [key|] eqn:?; [|done]. cbn in E.
    by exists tbs, sb, sg, pk, key.
  - intros (tbs & sb & sg & pk & key & -> & -> & E1 & -> & E2 & E3). cbn.
    rewrite E1. cbn. rewrite E2. cbn. done.
Qed.

Lemma verify_report_signature_signed report vcek_der :
  (SNP_REPORT_SIZE ≤ length report)%nat →
  verify_report_signature report vcek_der = true ↔
    vcek_der ≠ [] ∧ ∃ cert, cert_from_der vcek_der = Some cert ∧ report_signed report cert.
Proof.
  intros Hlen. unfold verify_report_signature. rewrite (proj2 (Nat.ltb_ge _ _) Hlen).
  assert (Hsl : ∀ a, (a + 72 ≤ 1184)%nat → length (slice a (a + 72) report) = 72%nat).
  { intros a Ha. unfold slice. rewrite length_take, length_drop. unfold SNP_REPORT_SIZE in Hlen. lia. }
  unfold verify_p384_signature.
  rewrite signature_bytes_trim by (apply (Hsl 0x2A0%nat) || apply (Hsl 0x2E8%nat); lia).
  assert (Hdr : ∀ a, drop 24 (slice a (a + 72) report) = slice (a + 24) (a + 72) report).
  { intros a. unfold slice. rewrite skipn_firstn_comm, drop_drop. f_equal; lia. }
  assert (drop 24 (slice 0x2A0 0x2E8 report) = slice 0x2B8 0x2E8 report) as -> by apply (Hdr 0x2A0%nat).
  assert (drop 24 (slice 0x2E8 0x330 report) = slice 0x300 0x330 report) as -> by apply (Hdr 0x2E8%nat).
  unfold report_signed. destruct vcek_der as [|b l]; [naive_solver|]. cbn [length Nat.eqb orb].
  split; [|].
  - intros E. split; [done|].
    destruct (cert_from_der (b :: l)) as [cert|]; [|done]. cbn in E.
    destruct (cert_public_key cert) as [pk|] eqn:?; [|done]. cbn in E.
    destruct (key_from_sec1_bytes pk) as [key|] eqn:?; [|done].
    cbn [mbind option_bind] in E.
    destruct (signature_from_slice _) as [sg|] eqn:?; [|done]. cbn in E.
    exists cert. split; [done|]. by exists pk, key, sg.
  - intros (_ & cert & -> & pk & key & sg & Hpk & Hkey & Hsg & Hv).
    cbn [mbind option_bind]. rewrite Hpk. cbn [mbind option_bind]. rewrite Hkey.
    cbn [mbind option_bind]. rewrite Hsg. done.
Qed.

Lemma eqb_0_nil (l : list Z) : (length l =? 0)%nat = true ↔ l = [].
Proof. by destruct l. Qed.

Lemma verify_cert_chain_spec chain :
  verify_cert_chain (c_vcek chain) (c_ask chain) (c_ark chain) = true → c_vcek chain ≠ [] →
  ∃ vcek ask ark,
    cert_from_der (c_vcek chain) = Some vcek ∧ cert_from_der (c_ask chain) = Some ask ∧
    cert_from_der (c_ark chain) = Some ark ∧ c_ask chain ≠ [] ∧ c_ark chain ≠ [] ∧
    cert_issuer vcek = cert_subject ask ∧ cert_issuer ask = cert_subject ark ∧
    cert_issuer ark = cert_subject ark ∧
    certified ark ark ∧ certified ask ark ∧ certified vcek ask.
Proof.
  destruct chain as [[|v vs] [|a ks] [|r rs]]; cbn [c_vcek c_ask c_ark]; try done.
  unfold verify_cert_chain. cbn [length Nat.eqb orb]. intros E _.
  destruct (cert_from_der (v :: vs)) as [vcek|]; [|done].
  destruct (cert_from_der (a :: ks)) as [ask|]; [|done].
  destruct (cert_from_der (r :: rs)) as [ark|]; [|done].
  rewrite !andb_true_iff, !bool_decide_eq_true, !verify_cert_signature_certified in E.
  destruct E as [[[[[? ?] ?] ?] ?] ?]. by exists vcek, ask, ark.
Qed.

Lemma hardware_attested_spec report chain :
  (SNP_REPORT_SIZE ≤ length report)%nat →
  hardware_attested report chain ↔
    verify_report_signature report (c_vcek chain) = true ∧
    verify_cert_chain (c_vcek chain) (c_ask chain) (c_ark chain) = true.
Proof.
  intros Hlen. rewrite verify_report_signature_signed by done. split.
  - intros (vcek & ask & ark & Hv & Ha & Hr & Nv & Na & Nr & I1 & I2 & I3 & C1 & C2 & C3 & Hs).
    split; [eauto|]. unfold verify_cert_chain. rewrite Hv, Ha, Hr.
    rewrite <-eqb_0_nil, not_true_iff_false in Nv, Na, Nr. rewrite Nv, Na, Nr.
    rewrite !bool_decide_true by done. cbn [orb andb].
    by rewrite !andb_true_iff, !verify_cert_signature_certified.
  - intros [(Hne & cert & Hc & Hs) Hch].
    apply verify_cert_chain_spec in Hch as (vcek & ask & ark & Hv & ?); [|done].
    rewrite Hv in Hc. injection Hc as ->. exists cert, ask, ark. tauto.
Qed.

(** The nonce of the challenge, up to 64 bytes, opens the report data. *)
Definition nonce_bound (report nonce : list Z) : Prop :=
  take (length nonce `min` 64) (slice 0x50 0x90 report) = take 64 nonce.

Definition age_ok (now : Z) (policy : AttestationPolicy) (issued : option Z) : Prop :=
  ∀ max_age t, max_report_age_secs policy = Some max_age → issued = Some t →
    t ≤ now ≤ t + max_age.

Lemma verify_nonce_bound report nonce : (SNP_REPORT_SIZE ≤ length report)%nat →
  verify_nonce report nonce = true ↔ nonce_bound report nonce.
Proof.
  unfold SNP_REPORT_SIZE. intros Hlen. unfold verify_nonce, nonce_bound.
  rewrite (proj2 (Nat.ltb_ge _ _)) by (etransitivity; [|exact Hlen]; by apply Nat.leb_le).
  rewrite bool_decide_eq_true. replace (take (length nonce `min` 64) nonce) with (take 64 nonce); [done|].
  destruct (Nat.min_spec (length nonce) 64) as [[? ->]|[? ->]]; [|done].
  rewrite !take_ge by lia. done.
Qed.

Lemma check_report_age_ok now policy issued :
  ((check_report_age now policy issued).1 = true ↔ age_ok now policy issued) ∧
  ((check_report_age now policy issued).2 = [] ↔ (check_report_age now policy issued).1 = true).
Proof.
  unfold check_report_age, age_ok.
  destruct (max_report_age_secs policy) as [m|], issued as [t|]; try (split; naive_solver).
  destruct (Z.ltb_spec now t); cbn.
  { split; [|done]. split; [done|]. intros Ha. specialize (Ha _ _ eq_refl eq_refl). lia. }
  destruct (Z.ltb_spec m (now - t)); cbn; (split; [|done]).
  - split; [done|]. intros Ha. specialize (Ha _ _ eq_refl eq_refl). lia.
  - split; [|done]. intros _ ? ? [= <-] [= <-]. lia.
Qed.

(** Simulated with the caller's consent, or signed by a certified key. *)
Definition genuine_origin (rep : AttestationReport) (allow : bool) : Prop :=
  is_simulated_report (ar_report rep) = true ∧ allow = true ∨
  is_simulated_report (ar_report rep) = false ∧
    hardware_attested (ar_report rep) (ar_cert_chain rep).

Lemma parse_platform_length report pi :
  parse_platform_info report = Some pi → (SNP_REPORT_SIZE ≤ length report)%nat.
Proof. unfold parse_platform_info. destruct (Nat.ltb_spec (length report) SNP_REPORT_SIZE); done. Qed.

Lemma verify_spec now rep nonce policy allow issued res :
  verify_attestation_with_time now rep nonce policy allow issued = Ok res →
  parse_platform_info (ar_report rep) = Some (vr_platform res) ∧
  (vr_verified res = true ↔
    nonce_bound (ar_report rep) nonce ∧ genuine_origin rep allow ∧
    policy_holds (vr_platform res) policy ∧ age_ok now policy issued).
Proof.
  unfold verify_attestation_with_time, genuine_origin. intros (pi & Hpi%ok_or_Ok & E)%bind_Ok.
  pose proof (parse_platform_length _ _ Hpi) as Hlen.
  destruct (is_simulated_report (ar_report rep) && negb allow) eqn:Hsim; [done|].
  apply bind_Ok in E as (pr & Hpr & E).
  pose proof (proj1 (check_report_age_ok now policy issued)) as Hage.
  destruct (check_report_age now policy issued) as [av af]. injection E as <-.
  cbn [vr_platform vr_verified]. cbn [fst] in Hage. split; [done|].
  rewrite !andb_true_iff, Hage, (check_policy_holds _ _ _ Hpr), verify_nonce_bound by done.
  destruct (is_simulated_report (ar_report rep)), allow; try done;
    rewrite ?hardware_attested_spec by done; naive_solver.
Qed.

(** A platform that satisfies the policy is not refused with a panic. *)
Lemma verify_total now rep nonce policy allow issued pi :
  parse_platform_info (ar_report rep) = Some pi → genuine_origin rep allow →
  policy_holds pi policy →
  ∃ res, verify_attestation_with_time now rep nonce policy allow issued = Ok res.
Proof.
  intros Hpi Ho Hp. unfold verify_attestation_with_time. rewrite Hpi. cbn [ok_or mbind result_bind].
  assert (is_simulated_report (ar_report rep) && negb allow = false) as ->.
  { destruct Ho as [[_ ->]|[-> _]]; [apply andb_false_r | done]. }
  assert (measurement_violations pi policy = Ok []) as Hm.
  { unfold measurement_violations. destruct (expected_measurement policy) as [m|] eqn:E; [|done].
    by rewrite bool_decide_true by (by eapply ph_measurement). }
  unfold check_policy. rewrite Hm. cbn [mbind result_bind].
  destruct (check_report_age now policy issued). eauto.
Qed.

(** Verification succeeds exactly on the reports with all of these properties:
    also with a root certificate that anyone can make. *)
Theorem verified_iff now rep nonce policy allow issued :
  (∃ res, verify_attestation_with_time now rep nonce policy allow issued = Ok res
          ∧ vr_verified res = true) ↔
  ∃ pi, parse_platform_info (ar_report rep) = Some pi ∧
    nonce_bound (ar_report rep) nonce ∧ genuine_origin rep allow ∧
    policy_holds pi policy ∧ age_ok now policy issued.
Proof.
  split.
  - intros (res & E & Hv). apply verify_spec in E as [Hpi Hiff].
    exists (vr_platform res). split; [done|]. by apply Hiff.
  - intros (pi & Hpi & Hn & Ho & Hp & Ha).
    destruct (verify_total now rep nonce policy allow issued pi) as [res E]; [done..|].
    exists res. split; [done|]. apply verify_spec in E as [Hpi' Hiff].
    rewrite Hpi in Hpi'. injection Hpi' as ->. by apply Hiff.
Qed.

(** The conditions of a policy except the one on the debug bit, whose number in
    the code (19) and in the documentation of the field (0) differ. *)
Definition any_debug (p : AttestationPolicy) : AttestationPolicy :=
  {| expected_measurement := expected_measurement p; min_tcb := min_tcb p;
     require_no_debug := false; require_no_smt := require_no_smt p;
     allowed_policy_mask := allowed_policy_mask p; max_report_age_secs := max_report_age_secs p |}.

Lemma policy_holds_any_debug pi p : policy_holds pi p → policy_holds pi (any_debug p).
Proof. by intros [Hm _ Hs Ht Hk]. Qed.

Lemma any_debug_policy_holds pi p :
  require_no_debug p = false → policy_holds pi (any_debug p) → policy_holds pi p.
Proof. intros Hd [Hm _ Hs Ht Hk]. constructor; [done | congruence | done..]. Qed.

(** C3: a verified report is long enough for the platform reported back, its
    report data opens with the nonce of the challenge, it is a simulation that the
    caller allows or is signed by the leaf of the chain of three certificates that
    comes with it, each signed by the next, its platform satisfies every condition
    of the policy on measurement, TCB versions, SMT and the mask, and its nonce is
    not too old when both an age limit and the time of the nonce are given.  A
    simulation that the caller allows is verified when these conditions hold and the
    policy leaves debugging open, so that the checks are not skipped for it but those
    of signature and chain.  The theorem says nothing of the debug bit, and not that
    the root of a verified report is AMD's. *)
Theorem verified_sound now rep nonce policy allow issued :
  (∀ res, verify_attestation_with_time now rep nonce policy allow issued = Ok res →
     vr_verified res = true →
     parse_platform_info (ar_report rep) = Some (vr_platform res) ∧
     nonce_bound (ar_report rep) nonce ∧ genuine_origin rep allow ∧
     policy_holds (vr_platform res) (any_debug policy) ∧ age_ok now policy issued) ∧
  (∀ pi, parse_platform_info (ar_report rep) = Some pi →
     nonce_bound (ar_report rep) nonce →
     is_simulated_report (ar_report rep) = true → allow = true →
     require_no_debug policy = false → policy_holds pi (any_debug policy) →
     age_ok now policy issued →
     ∃ res, verify_attestation_with_time now rep nonce policy allow issued = Ok res
            ∧ vr_verified res = true).
Proof.
  split.
  - intros res E Hv. apply verify_spec in E as [Hpi Hiff].
    apply Hiff in Hv as (? & ? & ? & ?). split_and!; auto using policy_holds_any_debug.
  - intros pi Hpi Hn Hs Hal Hd Hp%any_debug_policy_holds Ha; [|done].
    assert (genuine_origin rep allow) as Ho by (by left).
    destruct (verify_total now rep nonce policy allow issued pi) as [res E]; [done..|].
    exists res. split; [done|]. apply verify_spec in E as [Hpi' Hiff].
    rewrite Hpi in Hpi'. injection Hpi' as ->. by apply Hiff.
Qed.

Lemma verify_failures now rep nonce policy allow issued res :
  verify_attestation_with_time now rep nonce policy allow issued = Ok res →
  vr_failures res = [] ↔ vr_verified res = true.
Proof.
  unfold verify_attestation_with_time. intros (pi & _ & E)%bind_Ok.
  destruct (is_simulated_report (ar_report rep) && negb allow) eqn:Hsim; [done|].
  apply bind_Ok in E as (pr & Hpr & E).
  pose proof (proj2 (check_report_age_ok now policy issued)) as Hage.
  destruct (check_report_age now policy issued) as [av af]. injection E as <-.
  cbn [vr_failures vr_verified]. cbn [fst snd] in Hage.
  rewrite !app_nil, !andb_true_iff, Hage.
  assert (Hp : (if passed pr then [] else map show_violation (violations pr)) = []
               ↔ passed pr = true).
  { destruct (passed pr) eqn:Ep; [done|]. split; [|done].
    intros Hn%map_eq_nil. apply (check_policy_passed _ _ _ Hpr) in Hn. congruence. }
  rewrite Hp. repeat match goal with |- context [if ?b then [] else [_]] =>
    assert ((if b then [] else _ :: []) = [] ↔ b = true) as -> by (by destruct b) end.
  tauto.
Qed.
End attested.

(** ** A small instance of the cryptography, for concrete runs

    A certificate is the bytes [issuer; subject; key; signature]; the key [k]
    verifies exactly the signatures that end with [k]. *)
Definition toy_x509 : X509P384 :=
  {| Certificate := Z * Z * Z * Z;
     cert_from_der := λ d, match d with [i; s; k; g] => Some (i, s, k, g) | _ => None end;
     cert_issuer := λ c, [c.1.1.1];
     cert_subject := λ c, [c.1.1.2];
     cert_public_key := λ c, Some [c.1.2];
     cert_spki_der := λ c, Some [c.1.2];
     cert_tbs_der := λ c, Some [c.1.1.1; c.1.1.2; c.1.2];
     cert_signature := λ c, Some [c.2];
     VerifyingKey := Z;
     key_from_sec1_bytes := λ b, match b with [k] => Some k | _ => None end;
     Signature := Z;
     signature_from_slice := λ b, head (reverse b);
     key_verify := λ k _ s, k =? s;
     DerSignature := Z;
     der_signature_from_bytes := λ b, head (reverse b);
     key_verify_der := λ k _ s, k =? s |}.

(** Key 7 signs the report, key 8 the leaf, key 9 the rest. *)
Definition toy_chain : CertificateChain :=
  {| c_vcek := [2; 1; 7; 8]; c_ask := [3; 2; 8; 9]; c_ark := [3; 3; 9; 9] |}.
Definition toy_report : AttestationReport :=
  {| ar_report := <[0x2E7%nat := 5]> (<[0x32F%nat := 7]> (copy_at 0x50 (replicate 64 42)
                    (<[0%nat := 2]> (replicate SNP_REPORT_SIZE 0))));
     ar_cert_chain := toy_chain; ar_platform := default_platform |}.
Definition toy_policy : AttestationPolicy :=
  {| expected_measurement := Some (hex_encode (replicate 48 0)); min_tcb := None;
     require_no_debug := true; require_no_smt := true; allowed_policy_mask := Some 0;
     max_report_age_secs := Some 60 |}.

Example toy_report_verified :
  vr_verified <$> @verify_attestation_with_time toy_x509 130 toy_report (replicate 32 42) toy_policy
                    false (Some 100) = Ok true.
Proof. vm_compute. reflexivity. Qed.

Lemma verified_sound_witness :
  ∃ res, @verify_attestation_with_time toy_x509 130 toy_report (replicate 32 42) toy_policy
           false (Some 100) = Ok res ∧
    @genuine_origin toy_x509 toy_report false ∧ age_ok 130 toy_policy (Some 100).
Proof.
  destruct (@verify_attestation_with_time toy_x509 130 toy_report (replicate 32 42) toy_policy
    false (Some 100)) as [res|e] eqn:E; [|vm_compute in E; discriminate E].
  exists res. split; [done|].
  destruct (@verified_sound toy_x509 130 toy_report (replicate 32 42) toy_policy
    false (Some 100)) as [Hs _].
  destruct (Hs res E) as (_ & _ & Ho & _ & Ha); [|done].
  vm_compute in E. injection E as <-. reflexivity.
Defined.

(** ** Consequences *)

Section consequences.
Context `{X509P384}.

Lemma uncertified_not_verified now rep nonce policy allow issued res :
  verify_attestation_with_time now rep nonce policy allow issued = Ok res →
  is_simulated_report (ar_report rep) = false → c_vcek (ar_cert_chain rep) = [] →
  vr_verified res = false.
Proof.
  unfold verify_attestation_with_time. intros (pi & _ & E)%bind_Ok Hs Hv. rewrite Hs, Hv in E.
  apply bind_Ok in E as (pr & _ & E). destruct (check_report_age _ _ _). injection E as <-.
  cbn [vr_verified]. unfold verify_report_signature. cbn [length Nat.eqb].
  by rewrite orb_true_r, andb_false_r.
Qed.

Definition set_max_age (p : AttestationPolicy) (age : option Z) : AttestationPolicy :=
  {| expected_measurement := expected_measurement p; min_tcb := min_tcb p;
     require_no_debug := require_no_debug p; require_no_smt := require_no_smt p;
     allowed_policy_mask := allowed_policy_mask p; max_report_age_secs := age |}.

(** The entry point every caller uses never looks at the age limit: with any
    [max_report_age_secs] and at any time it returns what it returns without
    one. *)
Theorem age_limit_ignored now now' rep nonce policy allow age :
  verify_attestation now rep nonce (set_max_age policy age) allow =
  verify_attestation now' rep nonce (set_max_age policy None) allow.
Proof. unfold verify_attestation, verify_attestation_with_time. by destruct age. Qed.

(** The layout of a simulated report around its report data. *)
Definition simulated_head : list Z := take 0x50 (build_simulated_report (replicate 64 0)).
Definition simulated_tail : list Z := drop 0x90 (build_simulated_report (replicate 64 0)).

Lemma build_simulated_split data : length data = 64%nat →
  build_simulated_report data = simulated_head ++ data ++ simulated_tail.
Proof. do 64 (destruct data as [|? data]; [discriminate|]). by destruct data. Qed.

Definition simulated_platform : PlatformInfo :=
  {| pi_version := SIMULATED_REPORT_VERSION; pi_guest_svn := 1; pi_policy := 0;
     pi_measurement := hex_encode simulated_measurement;
     pi_tcb := {| boot_loader := 3; tcb_tee := 0; tcb_snp := 8; microcode := 115 |};
     pi_chip_id := hex_encode SIMULATED_CHIP_ID |}.

Lemma parse_simulated data : length data = 64%nat →
  parse_platform_info (build_simulated_report data) = Some simulated_platform.
Proof.
  intros Hd. rewrite build_simulated_split by done.
  do 64 (destruct data as [|? data]; [discriminate|]). destruct data; [|done].
  vm_compute. reflexivity.
Qed.

Lemma simulated_marked data : length data = 64%nat →
  is_simulated_report (build_simulated_report data) = true.
Proof. intros. by rewrite build_simulated_split. Qed.

Lemma simulated_length data : length data = 64%nat →
  length (build_simulated_report data) = SNP_REPORT_SIZE.
Proof. intros Hd. rewrite build_simulated_split, !length_app, Hd by done. reflexivity. Qed.

Lemma simulated_data data : length data = 64%nat →
  slice 0x50 0x90 (build_simulated_report data) = data.
Proof.
  intros Hd. rewrite build_simulated_split by done. unfold slice.
  rewrite drop_app_length' by reflexivity. by rewrite take_app_length' by done.
Qed.
End consequences.

Section simulation.
Context `{X509P384}.

(** Simulation is all or nothing on the caller's flag: a report built by the
    simulator for a nonce is verified under the default policy when simulation
    is allowed, whatever its certificates, and is refused when it is not. *)
Theorem simulated_report_verified now data chain platform :
  length data = 64%nat →
  let rep := {| ar_report := build_simulated_report data; ar_cert_chain := chain;
                ar_platform := platform |} in
  (∃ res, verify_attestation now rep data default_policy true = Ok res ∧
     vr_verified res = true ∧ vr_platform res = simulated_platform ∧ vr_failures res = []) ∧
  verify_attestation now rep data default_policy false = Err SimulatedRejected.
Proof.
  intros Hd rep. unfold verify_attestation, verify_attestation_with_time. cbn [ar_report rep].
  rewrite parse_simulated, simulated_marked by done. cbn [ok_or mbind result_bind negb andb].
  assert (verify_nonce (build_simulated_report data) data = true) as ->.
  { apply verify_nonce_bound; [by rewrite simulated_length|].
    unfold nonce_bound. rewrite simulated_data, Hd by done. done. }
  split; [|done]. eexists. split; [vm_compute; reflexivity|]. done.
Qed.
End simulation.

Lemma simulated_report_verified_witness :
  ∃ res, @verify_attestation toy_x509 0
    {| ar_report := build_simulated_report (replicate 64 1); ar_cert_chain := toy_chain;
       ar_platform := default_platform |} (replicate 64 1) default_policy true = Ok res ∧
    vr_verified res = true.
Proof.
  destruct (@simulated_report_verified toy_x509 0 (replicate 64 1) toy_chain default_platform
              eq_refl) as [(res & E & Hv & _) _].
  exists res. split; [exact E | exact Hv].
Defined.
