(* ===== verification/Ratls.v ===== *)
(** * Ratls: attestation carried by the TLS certificate

    [runtime/src/tee/ratls.rs]: the object-identifier codec, the extraction of
    the report from the extensions of a certificate, the binding of the
    certificate's key to the report, and the verifier the TLS client installs.
    The extensions of a decoded certificate, SHA-256 and the JSON decoder of the
    certificate chain come from crates: they are the operations of [RaTlsDeps]. *)

From Stdlib Require Import ZArith Lia Ascii.
From stdpp Require Import base gmap strings list numbers.
From S2P Require Import Prelude RustStr Attestation.

Local Open Scope Z_scope.

(** ** Object identifiers *)

Definition OID_SNP_REPORT : string := "1.3.6.1.4.1.58270.1.1".
Definition OID_CERT_CHAIN : string := "1.3.6.1.4.1.58270.1.2".

Definition oid_to_asn1 (oid : string) : list Z := omap (parse_uint 64) (split "." oid).

(** The [while v > 0] loop, in the order the bytes are pushed: a [u64] has at
    most ten digits in base 128. *)
Fixpoint base128_high (fuel : nat) (v : Z) : list Z :=
  match fuel with
  | O => []
  | S fuel =>
      if 0 <? v then Z.lor (Z.land v 0x7F) 0x80 :: base128_high fuel (Z.shiftr v 7) else []
  end.

Definition encode_base128 (value : Z) : list Z :=
  if value <? 128 then [value]
  else reverse (Z.land value 0x7F :: base128_high 10 (Z.shiftr value 7)).

Definition oid_string_to_der (oid : string) : list Z :=
  match oid_to_asn1 oid with
  | c0 :: c1 :: rest =>
      wrap 8 (wrap 64 (wrap 64 (c0 * 40) + c1)) :: concat (map encode_base128 rest)
  | _ => []
  end.

(** The body of the decoding loop on [value] and the components pushed. *)
Definition decode_step (st : Z * list Z) (byte : Z) : Z * list Z :=
  let '(value, components) := st in
  let value := Z.lor (wrap 64 (Z.shiftl value 7)) (Z.land byte 0x7F) in
  if Z.land byte 0x80 =? 0 then (0, components ++ [value]) else (value, components).

Definition oid_der_to_dotted (der : list Z) : string :=
  match der with
  | [] => ""
  | b :: rest =>
      let '(_, components) := foldl decode_step (0, [b / 40; b mod 40]) rest in
      join "." (map show_uint components)
  end.

(** ** Reports in certificates *)

Definition PUBKEY_HASH_SIZE : nat := 32.

(** What the code uses of [x509_cert], [sha2] and [serde_json] here. *)
Class RaTlsDeps `{X509P384} := {
  Extension : Type;
  cert_extensions : Certificate → option (list Extension);
  extn_id_bytes : Extension → list Z;
  extn_id_string : Extension → string;
  extn_value : Extension → list Z;
  chain_from_json : list Z → option CertificateChain;
  sha256 : list Z → list Z }.

Inductive ratls_err :=
  | CertUnparsable
  | NoReportExtension
  | SpkiUnencodable
  | ReportTooShort
  | KeyNotBound
  | VerificationFailed (e : attest_err)
  | AttestationFailed (failures : string).

Definition empty_chain : CertificateChain := {| c_vcek := []; c_ask := []; c_ark := [] |}.

Section ratls.
Context `{RaTlsDeps}.

Definition has_oid (oid : string) (ext : Extension) : bool :=
  let der := oid_string_to_der oid in
  bool_decide (extn_id_string ext = oid_der_to_dotted der)
  || bool_decide (extn_id_bytes ext = der).

(** The body of the loop over the extensions. *)
Definition scan_extension (st : option (list Z) * CertificateChain) (ext : Extension)
    : option (list Z) * CertificateChain :=
  let '(report, chain) := st in
  if has_oid OID_SNP_REPORT ext then (Some (extn_value ext), chain)
  else if has_oid OID_CERT_CHAIN ext then (report, default chain (chain_from_json (extn_value ext)))
  else st.

Definition extract_report_from_cert (cert_der : list Z) : result ratls_err AttestationReport :=
  cert ← ok_or CertUnparsable (cert_from_der cert_der);
  let '(report_bytes, chain) :=
    foldl scan_extension (None, empty_chain) (default [] (cert_extensions cert)) in
  report ← ok_or NoReportExtension report_bytes;
  Ok {| ar_report := report; ar_cert_chain := chain;
        ar_platform := default default_platform (parse_platform_info report) |}.

Definition compute_cert_pubkey_hash (cert_der : list Z) : result ratls_err (list Z) :=
  cert ← ok_or CertUnparsable (cert_from_der cert_der);
  spki ← ok_or SpkiUnencodable (cert_spki_der cert);
  Ok (sha256 spki).

Definition verify_pubkey_binding (cert_der report : list Z) : result ratls_err bool :=
  if (length report <? 0x50 + 64)%nat then Err ReportTooShort
  else
    let expected_hash := slice 0x50 (0x50 + PUBKEY_HASH_SIZE) report in
    actual_hash ← compute_cert_pubkey_hash cert_der;
    Ok (bool_decide (expected_hash = actual_hash)).

Definition verify_ratls_certificate (now : Z) (cert_der expected_nonce : list Z)
    (policy : AttestationPolicy) (allow_simulated : bool) : result ratls_err VerificationResult :=
  report ← extract_report_from_cert cert_der;
  map_err VerificationFailed (verify_attestation now report expected_nonce policy allow_simulated).

(** [RaTlsVerifier] *)
Definition verify_server_cert (now : Z) (policy : AttestationPolicy) (allow_simulated : bool)
    (end_entity : list Z) : result ratls_err () :=
  report ← extract_report_from_cert end_entity;
  key_bound ← verify_pubkey_binding end_entity (ar_report report);
  if negb key_bound then Err KeyNotBound
  else if (length (ar_report report) <? 0x90)%nat then Err ReportTooShort
  else
    let nonce_to_check := slice 0x50 0x90 (ar_report report) in
    res ← map_err VerificationFailed
            (verify_attestation now report nonce_to_check policy allow_simulated);
    if vr_verified res then Ok () else Err (AttestationFailed (join "; " (vr_failures res))).

Definition verify_tls12_signature (message cert dss : list Z) : bool := true.
Definition verify_tls13_signature (message cert dss : list Z) : bool := true.
End ratls.

(** ** The identifier codec *)

Lemma lor_128 v : 0 ≤ v → Z.lor (Z.land v 0x7F) 0x80 = v mod 128 + 128.
Proof.
  intros Hv. change 0x7F with (Z.ones 7). rewrite Z.land_ones by lia. change (2 ^ 7) with 128.
  rewrite <-Z.lxor_lor, <-Z.add_nocarry_lxor; [done|..];
    apply Z.bits_inj'; intros i Hi; rewrite Z.land_spec, Z.bits_0;
    change 0x80 with (2 ^ 7); change 128 with (2 ^ 7); rewrite Z.pow2_bits_eqb by lia;
    destruct (Z.eqb_spec 7 i) as [<-|]; rewrite ?andb_false_r, ?andb_true_r; try done;
    apply Z.mod_pow2_bits_high; lia.
Qed.

Lemma land_127 b : Z.land b 0x7F = b mod 128.
Proof. change 0x7F with (Z.ones 7). by rewrite Z.land_ones by lia. Qed.

Lemma lor_shift a b : 0 ≤ b < 128 → Z.lor (Z.shiftl a 7) b = a * 128 + b.
Proof.
  intros Hb. rewrite Z.shiftl_mul_pow2 by lia. change (2 ^ 7) with 128.
  rewrite <-Z.lxor_lor, <-Z.add_nocarry_lxor; [done|..];
    apply Z.bits_inj'; intros i Hi; rewrite Z.land_spec, Z.bits_0;
    change 128 with (2 ^ 7) in *; apply andb_false_iff;
    (destruct (Z.ltb_spec i 7); [left; by apply Z.mul_pow2_bits_low|]);
    right; rewrite <-(Z.mod_small b (2 ^ 7)) by done; apply Z.mod_pow2_bits_high; lia.
Qed.

Lemma land_128_low b : 0 ≤ b < 128 → Z.land b 0x80 = 0.
Proof.
  intros Hb. apply Z.bits_inj'. intros i Hi. rewrite Z.land_spec, Z.bits_0.
  change 0x80 with (2 ^ 7). rewrite Z.pow2_bits_eqb by lia.
  destruct (Z.eqb_spec 7 i) as [<-|]; [|by rewrite andb_false_r].
  rewrite andb_true_r, <-(Z.mod_small b (2 ^ 7)) by done. apply Z.mod_pow2_bits_high. lia.
Qed.

Lemma land_128_high b : 0 ≤ b < 128 → Z.land (b + 128) 0x80 = 128.
Proof.
  intros Hb. rewrite <-(Z.mod_small b 128) at 1 by done. rewrite <-lor_128 by lia.
  rewrite Z.land_lor_distr_l, Z.land_diag, <-Z.land_assoc.
  change (Z.land 0x7F 0x80) with 0. by rewrite Z.land_0_r.
Qed.

Lemma decode_high v comps c : 0 ≤ c < 128 → in_range 64 (v * 128 + c) → 0 ≤ v →
  decode_step (v, comps) (c + 128) = (v * 128 + c, comps).
Proof.
  intros Hc Hr Hv. unfold decode_step. rewrite land_128_high by done. unfold in_range in *.
  rewrite wrap_small by (unfold in_range; rewrite Z.shiftl_mul_pow2 by lia; lia).
  rewrite land_127, Z.add_mod, Z.mod_same, Z.add_0_r, Z.mod_mod by lia.
  rewrite Z.mod_small by done. rewrite lor_shift by done. done.
Qed.

Lemma decode_last v comps c : 0 ≤ c < 128 → in_range 64 (v * 128 + c) → 0 ≤ v →
  decode_step (v, comps) c = (0, comps ++ [v * 128 + c]).
Proof.
  intros Hc Hr Hv. unfold decode_step. rewrite land_128_low by done. unfold in_range in *.
  rewrite wrap_small by (unfold in_range; rewrite Z.shiftl_mul_pow2 by lia; lia).
  by rewrite land_127, Z.mod_small, lor_shift by done.
Qed.

Lemma decode_base128_high fuel v comps : 0 ≤ v < 2 ^ (7 * Z.of_nat fuel) → in_range 64 v →
  foldl decode_step (0, comps) (reverse (base128_high fuel v)) = (v, comps).
Proof.
  revert v. induction fuel as [|fuel IH]; intros v Hv Hr.
  { cbn in Hv. by replace v with 0 by lia. }
  cbn [base128_high]. destruct (Z.ltb_spec 0 v); [|by replace v with 0 by lia].
  rewrite reverse_cons, foldl_app, Z.shiftr_div_pow2, lor_128 by lia. change (2 ^ 7) with 128.
  assert (2 ^ (7 * Z.of_nat (S fuel)) = 128 * 2 ^ (7 * Z.of_nat fuel)) as Ep.
  { rewrite <-(Z.pow_add_r 2 7) by lia. f_equal. lia. }
  assert (v = v / 128 * 128 + v mod 128) as Ev by (rewrite Z.mul_comm; apply Z.div_mod; lia).
  pose proof (Z.mod_pos_bound v 128 ltac:(lia)). unfold in_range in *.
  rewrite IH by (unfold in_range; lia || (split; [lia|]; apply Z.div_lt_upper_bound; lia)).
  cbn [foldl]. rewrite decode_high by (unfold in_range; lia). by rewrite <-Ev.
Qed.

Lemma decode_base128 c comps : in_range 64 c →
  foldl decode_step (0, comps) (encode_base128 c) = (0, comps ++ [c]).
Proof.
  intros Hc. unfold encode_base128. pose proof Hc as Hc'. unfold in_range in Hc'.
  destruct (Z.ltb_spec c 128).
  { cbn [foldl]. by rewrite decode_last by (unfold in_range; lia). }
  rewrite reverse_cons, foldl_app, Z.shiftr_div_pow2 by lia. change (2 ^ 7) with 128.
  assert (c = c / 128 * 128 + c mod 128) as Ev by (rewrite Z.mul_comm; apply Z.div_mod; lia).
  pose proof (Z.mod_pos_bound c 128 ltac:(lia)).
  rewrite decode_base128_high by (unfold in_range; cbn; lia). cbn [foldl].
  rewrite land_127, decode_last by (unfold in_range; lia). by rewrite <-Ev.
Qed.

Lemma decode_concat rest comps : Forall (in_range 64) rest →
  foldl decode_step (0, comps) (concat (map encode_base128 rest)) = (0, comps ++ rest).
Proof.
  intros Hr. revert comps. induction Hr as [|c rest Hc Hr IH]; intros comps; cbn [map concat].
  { by rewrite app_nil_r. }
  by rewrite foldl_app, decode_base128, IH, <-app_assoc by done.
Qed.

Definition dotted (l : list Z) : string := join "." (map show_uint l).

Lemma oid_to_asn1_dotted l : l ≠ [] → Forall (in_range 64) l → oid_to_asn1 (dotted l) = l.
Proof.
  intros Hne Hl. unfold oid_to_asn1, dotted. rewrite split_join.
  - clear Hne. induction Hl as [|c l Hc Hl IH]; [done|]. cbn [map omap list_omap].
    rewrite parse_show_uint by done. by rewrite IH.
  - by destruct l.
  - apply List.Forall_map. eapply Forall_impl; [|exact Hl]. intros c [Hc _]. by apply show_uint_no_char.
Qed.

(** Object identifiers survive the round trip through DER: decoding the
    bytes the encoder produces gives the dotted identifier back, for every
    identifier whose first two arcs fit their byte. *)
Theorem oid_roundtrip c0 c1 rest :
  Forall (in_range 64) (c0 :: c1 :: rest) → c1 < 40 → c0 * 40 + c1 < 256 →
  oid_der_to_dotted (oid_string_to_der (dotted (c0 :: c1 :: rest))) = dotted (c0 :: c1 :: rest).
Proof.
  intros Hall Hc1 Hb. unfold oid_string_to_der. rewrite oid_to_asn1_dotted by done.
  apply list.Forall_cons in Hall as [[H0 _] [[H1 _] Hrest]%list.Forall_cons].
  unfold wrap. rewrite (Z.mod_small (c0 * 40)), (Z.mod_small (_ + c1)), Z.mod_small by lia.
  unfold oid_der_to_dotted. rewrite decode_concat by done.
  replace ((c0 * 40 + c1) / 40) with c0 by (apply (Z.div_unique _ _ _ c1); lia).
  by replace ((c0 * 40 + c1) mod 40) with c1 by (apply (Z.mod_unique _ _ c0); lia).
Qed.

Lemma oid_roundtrip_witness :
  dotted [1; 3; 6; 1; 4; 1; 58270; 1; 1] = OID_SNP_REPORT ∧
  oid_string_to_der OID_SNP_REPORT = [43; 6; 1; 4; 1; 131; 199; 30; 1; 1] ∧
  oid_der_to_dotted (oid_string_to_der (dotted [1; 3; 6; 1; 4; 1; 58270; 1; 1]))
    = dotted [1; 3; 6; 1; 4; 1; 58270; 1; 1].
Proof.
  split; [reflexivity|]. split; [reflexivity|].
  apply (oid_roundtrip 1 3 [6; 1; 4; 1; 58270; 1; 1]); [|lia..].
  repeat constructor; unfold in_range; lia.
Defined.

(** ** What the TLS client accepts *)

Section accept.
Context `{RaTlsDeps}.

(** The report data opens with the hash of the certificate's key. *)
Definition key_bound (cert_der report : list Z) : Prop :=
  ∃ cert spki, cert_from_der cert_der = Some cert ∧ cert_spki_der cert = Some spki ∧
    slice 0x50 0x70 report = sha256 spki.

Lemma verify_pubkey_binding_true cert_der report :
  (0x90 ≤ length report)%nat →
  verify_pubkey_binding cert_der report = Ok true ↔ key_bound cert_der report.
Proof.
  intros Hlen. unfold verify_pubkey_binding, compute_cert_pubkey_hash, key_bound.
  change (0x50 + 64)%nat with 0x90%nat. rewrite (proj2 (Nat.ltb_ge _ _) Hlen). cbv zeta.
  change (slice 0x50 (0x50 + PUBKEY_HASH_SIZE) report) with (slice 0x50 0x70 report). split.
  - intros (h & (cert & Hc%ok_or_Ok & (spki & Hs%ok_or_Ok & [= <-])%bind_Ok)%bind_Ok
             & [= Hb%bool_decide_eq_true])%bind_Ok. eauto.
  - intros (cert & spki & -> & Hs & Hb). cbn [ok_or mbind result_bind]. rewrite Hs.
    cbn [ok_or mbind result_bind]. by rewrite bool_decide_true.
Qed.

Lemma nonce_bound_self report : nonce_bound report (slice 0x50 0x90 report).
Proof.
  unfold nonce_bound. rewrite !take_ge; [done|..]; unfold slice; rewrite length_take; lia.
Qed.

(** The TLS client accepts exactly the certificates that carry a report which
    is genuine (or an allowed simulation), satisfies the policy, and opens its
    report data with the hash of the certificate's own key.  No nonce of the
    client and no age limit enters the condition. *)
Theorem server_cert_accepted_iff now policy allow cert_der :
  verify_server_cert now policy allow cert_der = Ok () ↔
  ∃ rep pi, extract_report_from_cert cert_der = Ok rep ∧
    parse_platform_info (ar_report rep) = Some pi ∧
    key_bound cert_der (ar_report rep) ∧ genuine_origin rep allow ∧ policy_holds pi policy.
Proof.
  unfold verify_server_cert. split.
  - intros (rep & Hrep & (b & Hb & E)%bind_Ok)%bind_Ok. destruct b; [cbn [negb] in E | done].
    destruct (Nat.ltb_spec (length (ar_report rep)) 0x90) as [|Hlen]; [done|].
    apply bind_Ok in E as (res & Hres%map_err_Ok & E). destruct (vr_verified res) eqn:Hv; [|done].
    apply verify_spec in Hres as [Hpi Hiff]. apply Hiff in Hv as (_ & Ho & Hp & _).
    exists rep, (vr_platform res). by rewrite <-verify_pubkey_binding_true.
  - intros (rep & pi & -> & Hpi & Hk & Ho & Hp). cbn [mbind result_bind].
    pose proof (parse_platform_length _ _ Hpi) as Hlen.
    assert (0x90 ≤ length (ar_report rep))%nat as Hlen'
      by (etransitivity; [|exact Hlen]; by apply Nat.leb_le).
    apply verify_pubkey_binding_true in Hk; [|done]. rewrite Hk. cbn [mbind result_bind negb].
    rewrite (proj2 (Nat.ltb_ge _ _) Hlen'). cbv zeta. unfold verify_attestation.
    destruct (verify_total now rep (slice 0x50 0x90 (ar_report rep)) policy allow None pi)
      as [res E]; [done..|].
    rewrite E. cbn [map_err mbind result_bind]. apply verify_spec in E as [Hpi' Hiff].
    rewrite Hpi in Hpi'. injection Hpi' as ->.
    rewrite (proj2 Hiff); [done|]. split; [apply nonce_bound_self|]. split; [done|]. by split.
Qed.

(** What a TLS 1.3 client checks of the server: its certificate, then its
    signature on the transcript of the handshake. *)
Definition handshake_accepts (now : Z) (policy : AttestationPolicy) (allow : bool)
    (cert_der message dss : list Z) : bool :=
  is_ok (verify_server_cert now policy allow cert_der)
  && verify_tls13_signature message cert_der dss.

(** Possession of the key is not part of the handshake: whoever presents an
    accepted certificate is accepted, with any signature on any transcript. *)
Lemma handshake_replayable now policy allow cert_der message dss message' dss' :
  handshake_accepts now policy allow cert_der message dss = true →
  handshake_accepts now policy allow cert_der message' dss' = true.
Proof. done. Qed.
End accept.

(** Certificates that all carry the report and the chain of [toy_report]. *)
Definition toy_deps : @RaTlsDeps toy_x509 :=
  @Build_RaTlsDeps toy_x509 (string * list Z)
    (λ _, Some [("2.5.29.19", [0]); (OID_SNP_REPORT, ar_report toy_report); (OID_CERT_CHAIN, [1])])
    (λ e, oid_string_to_der e.1) fst snd (λ _, Some toy_chain) (λ _, replicate 32 42).

Example toy_server_accepted :
  @verify_server_cert toy_x509 toy_deps 0 toy_policy false [1; 1; 1; 1] = Ok ().
Proof. vm_compute. reflexivity. Qed.
