(* ===== verification/Sealed.v ===== *)
(** * Sealed: storage bound to the platform, and its rollback protection

    [runtime/src/tee/sealed.rs] and [runtime/src/tee/rollback.rs].  HKDF-SHA256,
    AES-256-GCM and the random number generator come from the crate [ring]:
    they are the operations of [SealCrypto], with the laws of an authenticated
    cipher in [SealCryptoLaws].  The version store is its map in memory and the
    file it is saved to; the outcome of each system call is an argument. *)

From Stdlib Require Import ZArith Lia Ascii.
From stdpp Require Import base gmap strings list numbers.
From S2P Require Import Prelude RustStr Attestation.

Local Open Scope Z_scope.

(** ** Sealed data ([sealed.rs]) *)

Definition HKDF_SALT : list Z := as_bytes "a3s-sealed-storage-v1".
Definition NONCE_LEN : nat := 12.
Definition TAG_LEN : nat := 16.

Inductive SealingPolicy := MeasurementAndChip | MeasurementOnly | ChipOnly.

#[export] Instance SealingPolicy_eq_dec : EqDecision SealingPolicy.
Proof. solve_decision. Defined.

Record SealedData := { sd_policy : SealingPolicy; sd_context : string; sd_blob : list Z }.

Inductive seal_err :=
  | IdentityTooShort
  | HkdfFailed
  | NonceFailed
  | BadKey
  | SealFailed
  | BlobTooShort
  | UnsealFailed
  | StoreDirFailed
  | StoreReadFailed
  | StoreWriteFailed
  | Rollback (context : string) (blob_version stored : Z).

Class SealCrypto := {
  hkdf_sha256 : list Z → list Z → list Z → option (list Z);  (* salt, key material, info *)
  AesKey : Type;
  aes_key : list Z → option AesKey;
  gcm_seal : AesKey → list Z → list Z → list Z → option (list Z);  (* nonce, data, plaintext *)
  gcm_open : AesKey → list Z → list Z → list Z → option (list Z) }.

Class SealCryptoLaws `{SealCrypto} := {
  gcm_open_seal k n a p c : gcm_seal k n a p = Some c → gcm_open k n a c = Some p;
  gcm_seal_length k n a p c : gcm_seal k n a p = Some c → length c = (length p + TAG_LEN)%nat }.

Definition measurement_of (report : list Z) : list Z := slice 0x90 0xC0 report.
Definition chip_id_of (report : list Z) : list Z := slice 0x1A0 0x1E0 report.

Definition key_material (report : list Z) (policy : SealingPolicy) : list Z :=
  match policy with
  | MeasurementAndChip => measurement_of report ++ chip_id_of report
  | MeasurementOnly => measurement_of report
  | ChipOnly => chip_id_of report
  end.

Section sealed.
Context `{SealCrypto}.

Definition derive_sealing_key (report : list Z) (context : string) (policy : SealingPolicy)
    : result seal_err (list Z) :=
  if (length report <? 0x1E0)%nat then Err IdentityTooShort
  else ok_or HkdfFailed (hkdf_sha256 HKDF_SALT (key_material report policy) (as_bytes context)).

(** [rng]: the twelve bytes drawn, unless the generator fails. *)
Definition seal (rng : option (list Z)) (report plaintext : list Z) (context : string)
    (policy : SealingPolicy) : result seal_err SealedData :=
  key ← derive_sealing_key report context policy;
  nonce_bytes ← ok_or NonceFailed rng;
  unbound_key ← ok_or BadKey (aes_key key);
  in_out ← ok_or SealFailed (gcm_seal unbound_key nonce_bytes (as_bytes context) plaintext);
  Ok {| sd_policy := policy; sd_context := context; sd_blob := nonce_bytes ++ in_out |}.

Definition unseal (report : list Z) (sealed : SealedData) : result seal_err (list Z) :=
  if (length (sd_blob sealed) <? NONCE_LEN + TAG_LEN)%nat then Err BlobTooShort
  else
    key ← derive_sealing_key report (sd_context sealed) (sd_policy sealed);
    unbound_key ← ok_or BadKey (aes_key key);
    ok_or UnsealFailed
      (gcm_open unbound_key (take NONCE_LEN (sd_blob sealed)) (as_bytes (sd_context sealed))
         (drop NONCE_LEN (sd_blob sealed))).
End sealed.

(** ** The version store ([rollback.rs]) *)

Record VersionedSealedData := {
  vd_version : Z;
  vd_context : string;
  vd_policy : SealingPolicy;
  vd_blob : list Z }.

(** The file: a map serialised by [serde_json], or bytes it cannot decode. *)
Inductive vfile := VJson (versions : gmap string Z) | VGarbage.

(** The process's map and the file on disk. *)
Record VersionStore := { versions : gmap string Z; disk : option vfile }.

(** Which system calls succeed. *)
Record io := { io_mkdir : bool; io_read : bool; io_write : bool; io_rename : bool }.
Definition io_ok : io := {| io_mkdir := true; io_read := true; io_write := true; io_rename := true |}.

Definition load_store (o : io) (file : option vfile) : result seal_err VersionStore :=
  if negb (io_mkdir o) then Err StoreDirFailed
  else
    match file with
    | Some f =>
        if negb (io_read o) then Err StoreReadFailed
        else Ok {| versions := match f with VJson m => m | VGarbage => ∅ end; disk := file |}
    | None => Ok {| versions := ∅; disk := None |}
    end.

Definition current_version (st : VersionStore) (context : string) : Z :=
  default 0 (versions st !! context).

(** A temporary file, then a rename: the store's file changes only at the end. *)
Definition save_store (o : io) (st : VersionStore) : VersionStore * result seal_err () :=
  if io_write o && io_rename o
  then ({| versions := versions st; disk := Some (VJson (versions st)) |}, Ok ())
  else (st, Err StoreWriteFailed).

Definition set_current (st : VersionStore) (context : string) (v : Z) : VersionStore :=
  {| versions := <[context := v]> (versions st); disk := disk st |}.

Definition advance (o : io) (context : string) (st : VersionStore)
    : VersionStore * result seal_err Z :=
  let next := wrap 64 (current_version st context + 1) in
  let '(st, r) := save_store o (set_current st context next) in
  (st, _ ← r; Ok next).

Definition check_version (st : VersionStore) (context : string) (blob_version : Z)
    : result seal_err () :=
  let stored := current_version st context in
  if blob_version <? stored then Err (Rollback context blob_version stored) else Ok ().

Definition update_version (o : io) (context : string) (blob_version : Z) (st : VersionStore)
    : VersionStore * result seal_err () :=
  if current_version st context <? blob_version
  then save_store o (set_current st context blob_version)
  else (st, Ok ()).

Definition remove_version (o : io) (context : string) (st : VersionStore)
    : VersionStore * result seal_err bool :=
  match versions st !! context with
  | Some _ =>
      let '(st, r) :=
        save_store o {| versions := delete context (versions st); disk := disk st |} in
      (st, _ ← r; Ok true)
  | None => (st, Ok false)
  end.

Section versioned.
Context `{SealCrypto}.

Definition seal_versioned (rng : option (list Z)) (o : io) (report plaintext : list Z)
    (context : string) (policy : SealingPolicy) (st : VersionStore)
    : VersionStore * result seal_err VersionedSealedData :=
  let '(st, r) := advance o context st in
  (st, version ← r;
       sealed ← seal rng report plaintext context policy;
       Ok {| vd_version := version; vd_context := sd_context sealed;
             vd_policy := sd_policy sealed; vd_blob := sd_blob sealed |}).

Definition unversioned (v : VersionedSealedData) : SealedData :=
  {| sd_policy := vd_policy v; sd_context := vd_context v; sd_blob := vd_blob v |}.

Definition unseal_versioned (o : io) (report : list Z) (v : VersionedSealedData) (st : VersionStore)
    : VersionStore * result seal_err (list Z) :=
  match check_version st (vd_context v) (vd_version v) with
  | Err e => (st, Err e)
  | Ok _ =>
      match unseal report (unversioned v) with
      | Err e => (st, Err e)
      | Ok plaintext =>
          let '(st, r) := update_version o (vd_context v) (vd_version v) st in
          (st, _ ← r; Ok plaintext)
      end
  end.
End versioned.

(** ** Who can unseal *)

(** The part of the platform a policy binds to. *)
Definition same_identity (policy : SealingPolicy) (r r' : list Z) : Prop :=
  (policy ≠ ChipOnly → measurement_of r = measurement_of r') ∧
  (policy ≠ MeasurementOnly → chip_id_of r = chip_id_of r').

Lemma key_material_identity policy r r' :
  (0x1E0 ≤ length r)%nat → (0x1E0 ≤ length r')%nat →
  key_material r policy = key_material r' policy ↔ same_identity policy r r'.
Proof.
  intros Hr Hr'. unfold same_identity. destruct policy; cbn; [|naive_solver..].
  split; [|by intros [-> ->]]. intros E.
  apply app_inj_1 in E as [? ?]; [done|].
  unfold measurement_of, slice. rewrite !length_take, !length_drop. lia.
Qed.

Section unsealing.
Context `{SealCryptoLaws}.

Lemma seal_inv rng r pt ctx policy sd :
  seal rng r pt ctx policy = Ok sd →
  ∃ nonce key k c, rng = Some nonce ∧ derive_sealing_key r ctx policy = Ok key ∧
    aes_key key = Some k ∧ gcm_seal k nonce (as_bytes ctx) pt = Some c ∧
    sd = {| sd_policy := policy; sd_context := ctx; sd_blob := nonce ++ c |}.
Proof.
  unfold seal. intros E. inv_result. naive_solver.
Qed.

Lemma derive_same_identity r r' ctx policy key :
  (0x1E0 ≤ length r')%nat → same_identity policy r r' →
  derive_sealing_key r ctx policy = Ok key → derive_sealing_key r' ctx policy = Ok key.
Proof.
  intros Hr' Hid. unfold derive_sealing_key. rewrite (proj2 (Nat.ltb_ge (length r') _) Hr').
  destruct (Nat.ltb_spec (length r) 0x1E0); [done|].
  apply (key_material_identity policy r r') in Hid as ->; done.
Qed.

Lemma unseal_of_seal nonce r r' pt ctx policy sd :
  length nonce = NONCE_LEN → (0x1E0 ≤ length r')%nat → same_identity policy r r' →
  seal (Some nonce) r pt ctx policy = Ok sd → unseal r' sd = Ok pt.
Proof.
  intros Hn Hr' Hid (n' & key & k & c & [= <-] & Hkey & Hk & Hc & ->)%seal_inv.
  apply (derive_same_identity r r') in Hkey; [|done..].
  unfold unseal. cbn [sd_blob sd_context sd_policy].
  rewrite length_app, (gcm_seal_length _ _ _ _ _ Hc), Hn.
  destruct (Nat.ltb_spec (NONCE_LEN + (length pt + TAG_LEN)) (NONCE_LEN + TAG_LEN)); [lia|].
  rewrite Hkey. cbn [mbind result_bind]. rewrite Hk. cbn [ok_or mbind result_bind].
  rewrite take_app_length', drop_app_length' by done. by rewrite (gcm_open_seal _ _ _ _ _ Hc).
Qed.
End unsealing.

(** ** The counters *)

Definition store_ok (st : VersionStore) : Prop :=
  map_Forall (λ _ v, in_range 64 v) (versions st).

Lemma current_range st ctx : store_ok st → in_range 64 (current_version st ctx).
Proof.
  intros Hst. unfold current_version. destruct (versions st !! ctx) eqn:E; [by eapply Hst | done].
Qed.

Lemma current_set st ctx v c :
  current_version (set_current st ctx v) c = if decide (c = ctx) then v else current_version st c.
Proof.
  unfold current_version, set_current. cbn [versions]. destruct (decide (c = ctx)) as [->|].
  - by rewrite lookup_insert_eq.
  - by rewrite lookup_insert_ne.
Qed.

Lemma save_store_versions o st : versions (save_store o st).1 = versions st.
Proof. unfold save_store. by destruct (io_write o && io_rename o). Qed.

Lemma save_store_current o st c : current_version (save_store o st).1 c = current_version st c.
Proof. unfold current_version. by rewrite save_store_versions. Qed.

Lemma set_current_ok st ctx v : store_ok st → in_range 64 v → store_ok (set_current st ctx v).
Proof. intros. by apply map_Forall_insert_2. Qed.

(** An operation moves the counters of a store forward only. *)
Definition moves_forward (st st' : VersionStore) : Prop :=
  store_ok st' ∧ ∀ c, current_version st c ≤ current_version st' c.

Lemma raise_forward o st ctx v :
  store_ok st → in_range 64 v → current_version st ctx ≤ v →
  moves_forward st (save_store o (set_current st ctx v)).1.
Proof.
  intros Hst Hv Hle. split.
  - unfold store_ok. rewrite save_store_versions. by apply set_current_ok.
  - intros c. rewrite save_store_current, current_set. destruct (decide (c = ctx)) as [->|]; lia.
Qed.

Lemma advance_forward o ctx st st' r :
  store_ok st → current_version st ctx < u_max 64 → advance o ctx st = (st', r) →
  moves_forward st st' ∧ ∀ v, r = Ok v → current_version st' ctx = v ∧ v = current_version st ctx + 1.
Proof.
  intros Hst Hmax. unfold advance, u_max in *. pose proof (current_range st ctx Hst) as [Hlo _].
  rewrite wrap_small by (unfold in_range; lia).
  pose proof (raise_forward o st ctx (current_version st ctx + 1) Hst) as Hf.
  pose proof (save_store_current o (set_current st ctx (current_version st ctx + 1)) ctx) as Hc.
  destruct (save_store _ _) as [st1 r1]. intros [= <- <-]. cbn [fst] in *. split.
  - apply Hf; [unfold in_range|]; lia.
  - intros v (? & _ & [= <-])%bind_Ok. by rewrite Hc, current_set, decide_True.
Qed.

Lemma update_forward o ctx v st st' r :
  store_ok st → in_range 64 v → current_version st ctx ≤ v →
  update_version o ctx v st = (st', r) →
  moves_forward st st' ∧ current_version st' ctx = v.
Proof.
  intros Hst Hv Hle. unfold update_version.
  destruct (Z.ltb_spec (current_version st ctx) v).
  - intros E. pose proof (raise_forward o st ctx v Hst Hv Hle) as Hf.
    pose proof (save_store_current o (set_current st ctx v) ctx) as Hc. rewrite E in Hf, Hc.
    cbn [fst] in *. by rewrite current_set, decide_True in Hc.
  - intros [= <- <-]. split; [by split|lia].
Qed.

(** ** Histories of a store *)

Section history.
Context `{SealCrypto}.

Lemma seal_versioned_inv rng o r pt ctx policy st st' vd :
  seal_versioned rng o r pt ctx policy st = (st', Ok vd) →
  advance o ctx st = (st', Ok (vd_version vd)) ∧ vd_context vd = ctx ∧
  seal rng r pt ctx policy = Ok (unversioned vd).
Proof.
  unfold seal_versioned. destruct (advance o ctx st) as [st1 ra]. intros [= <- E].
  apply bind_Ok in E as (v & -> & (sd & Hsd & [= <-])%bind_Ok). unfold unversioned.
  cbn [vd_version vd_context vd_policy vd_blob].
  split; [done|]. split; [|by destruct sd]. by apply seal_inv in Hsd as (? & ? & ? & ? & _ & _ & _ & _ & ->).
Qed.

Lemma unseal_versioned_inv o r vd st st' pt :
  unseal_versioned o r vd st = (st', Ok pt) →
  current_version st (vd_context vd) ≤ vd_version vd ∧ unseal r (unversioned vd) = Ok pt ∧
  update_version o (vd_context vd) (vd_version vd) st = (st', Ok ()).
Proof.
  unfold unseal_versioned, check_version.
  destruct (Z.ltb_spec (vd_version vd) (current_version st (vd_context vd))); [done|].
  destruct (unseal r (unversioned vd)); [|done].
  destruct (update_version _ _ _ _) as [st1 [[]|]]; [|done]. by intros [= <- <-].
Qed.

(** What memory holds is what a restart reads back. *)
Definition synced (st : VersionStore) : Prop :=
  match disk st with Some f => f = VJson (versions st) | None => versions st = ∅ end.

(** The version of [context] that a restart would find in the file. *)
Definition saved_version (st : VersionStore) (context : string) : option Z :=
  match disk st with Some (VJson m) => Some (default 0 (m !! context)) | _ => None end.
Definition durable (st : VersionStore) (context : string) (v : Z) : bool :=
  match saved_version st context with Some n => v <=? n | None => false end.

(** The version handed out or accepted with a blob, when the file has it too. *)
Definition seen (st : VersionStore) (r : result seal_err VersionedSealedData)
    : list (string * Z) :=
  match r with
  | Ok vd => if durable st (vd_context vd) (vd_version vd)
             then [(vd_context vd, vd_version vd)] else []
  | Err _ => []
  end.

(** The life of a store: seals and unseals, which may fail at any system call,
    and restarts at any time, which read whatever the file holds.  A seal under
    the counter's last value is no step: it panics, or wraps ([advance_wraps]). *)
Inductive store_step : VersionStore → list (string * Z) → VersionStore → Prop :=
  | step_seal rng o r pt ctx policy st st' res :
      seal_versioned rng o r pt ctx policy st = (st', res) →
      current_version st ctx < u_max 64 →
      store_step st (seen st' res) st'
  | step_unseal o r vd st st' res :
      unseal_versioned o r vd st = (st', res) → in_range 64 (vd_version vd) →
      store_step st (seen st' (_ ← res; Ok vd)) st'
  | step_restart o st st' :
      load_store o (disk st) = Ok st' → store_step st [] st'.

Inductive history (st0 : VersionStore) : VersionStore → list (string * Z) → Prop :=
  | history_start : history st0 st0 []
  | history_step st log obs st' :
      history st0 st log → store_step st obs st' → history st0 st' (obs ++ log).

(** Memory is at least the file, and the file at least all that was seen. *)
Record history_inv (st : VersionStore) (log : list (string * Z)) : Prop := {
  hi_ok : store_ok st;
  hi_file : ∀ m, disk st = Some (VJson m) → map_Forall (λ _ v, in_range 64 v) m;
  hi_behind : ∀ c n, saved_version st c = Some n → n ≤ current_version st c;
  hi_log : ∀ c v, (c, v) ∈ log → ∃ n, saved_version st c = Some n ∧ v ≤ n }.

Lemma saved_after o st c :
  saved_version (save_store o st).1 c = saved_version st c ∨
  saved_version (save_store o st).1 c = Some (current_version st c).
Proof. unfold save_store. destruct (io_write o && io_rename o); [by right | by left]. Qed.

Lemma seen_durable st res c v : (c, v) ∈ seen st res → ∃ n, saved_version st c = Some n ∧ v ≤ n.
Proof.
  unfold seen, durable. destruct res as [vd|]; [|by intros ?%not_elem_of_nil].
  destruct (saved_version st (vd_context vd)) as [n|] eqn:E; [|by intros ?%not_elem_of_nil].
  destruct (Z.leb_spec (vd_version vd) n); [|by intros ?%not_elem_of_nil].
  intros [= -> ->]%list_elem_of_singleton. eauto.
Qed.

Lemma inv_seen st log res : history_inv st log → history_inv st (seen st res ++ log).
Proof.
  intros [Ho Hf Hb Hl]. constructor; [done..|].
  intros c v [?%seen_durable|?]%elem_of_app; auto.
Qed.

(** Raising one counter in memory and trying to save. *)
Lemma raise_inv o st log ctx v :
  history_inv st log → in_range 64 v → current_version st ctx ≤ v →
  history_inv (save_store o (set_current st ctx v)).1 log.
Proof.
  intros [Ho Hf Hb Hl] Hv Hle.
  destruct (raise_forward o st ctx v Ho Hv Hle) as [Hok Hfwd].
  assert (∀ c n, saved_version st c = Some n →
    ∃ n', saved_version (save_store o (set_current st ctx v)).1 c = Some n' ∧ n ≤ n') as Hsv.
  { intros c n E. destruct (saved_after o (set_current st ctx v) c) as [-> | ->]; [exists n; split; [exact E | lia]|].
    eexists. split; [done|]. pose proof (Hb c n E). rewrite current_set.
    destruct (decide (c = ctx)) as [->|]; lia. }
  constructor.
  - done.
  - intros m. unfold save_store. destruct (io_write o && io_rename o); [|by apply Hf].
    intros [= <-]. by apply set_current_ok.
  - intros c n. destruct (saved_after o (set_current st ctx v) c) as [-> | ->].
    + intros E. specialize (Hfwd c). specialize (Hb c n E). lia.
    + intros [= <-]. by rewrite save_store_current.
  - intros c w Hw. destruct (Hl c w Hw) as (n & E & ?).
    destruct (Hsv c n E) as (n' & ? & ?). exists n'. split; [done | lia].
Qed.

(** Loading forgets what only memory had. *)
Lemma history_load o file st log :
  load_store o file = Ok st →
  (∀ m, file = Some (VJson m) → map_Forall (λ _ v, in_range 64 v) m) →
  (∀ c v, (c, v) ∈ log → ∃ m, file = Some (VJson m) ∧ v ≤ default 0 (m !! c)) →
  history_inv st log.
Proof.
  intros E Hf Hl. assert (disk st = file ∧
    versions st = match file with Some (VJson m) => m | _ => ∅ end) as [Hd Hv].
  { revert E. unfold load_store. destruct (io_mkdir o); [|done]. cbn [negb].
    destruct file as [f|]; [|by intros [= <-]]. destruct (io_read o); [|done].
    by intros [= <-]. }
  constructor; rewrite ?Hd; [|done| |].
  - unfold store_ok. rewrite Hv. destruct file as [[m|]|]; [by apply Hf | done..].
  - intros c n. unfold saved_version, current_version. rewrite Hd, Hv.
    destruct file as [[m|]|]; [by intros [= <-] | done..].
  - intros c v (m & -> & ?)%Hl. unfold saved_version. rewrite Hd. eauto.
Qed.

Lemma restart_inv o st st' log :
  history_inv st log → load_store o (disk st) = Ok st' → history_inv st' log.
Proof.
  intros [Ho Hf Hb Hl] E. eapply history_load; [done..|].
  intros c v (n & En & ?)%Hl. unfold saved_version in En.
  destruct (disk st) as [[m|]|]; [|done..]. injection En as <-. eauto.
Qed.

Lemma step_inv st log obs st' :
  history_inv st log → store_step st obs st' → history_inv st' (obs ++ log).
Proof.
  intros Hi Hs. destruct Hs as [rng o r pt ctx policy st st' res E Hmax|
    o r vd st st' res E Hr|o st st' E]; [apply inv_seen..|by eapply restart_inv].
  - unfold seal_versioned in E. pose proof (current_range st ctx (hi_ok _ _ Hi)) as [Hlo _].
    unfold advance, u_max in *. rewrite wrap_small in E by (unfold in_range; lia).
    pose proof (raise_inv o st log ctx (current_version st ctx + 1) Hi
      ltac:(unfold in_range; lia) ltac:(lia)) as Hr.
    destruct (save_store _ _) as [st1 r1]. by injection E as <- _.
  - revert E. unfold unseal_versioned, check_version.
    destruct (Z.ltb_spec (vd_version vd) (current_version st (vd_context vd)));
      [by intros [= <- _]|].
    destruct (unseal r (unversioned vd)); [|by intros [= <- _]]. unfold update_version.
    destruct (_ <? _); [|by intros [= <- _]].
    pose proof (raise_inv o st log (vd_context vd) (vd_version vd) Hi Hr ltac:(lia)) as Hu.
    destruct (save_store _ _) as [st1 ru]. by intros [= <- _].
Qed.

(** A blob sealed with success has its version in the file. *)
Lemma sealed_is_durable rng o r pt ctx policy st st' vd :
  seal_versioned rng o r pt ctx policy st = (st', Ok vd) →
  seen st' (Ok vd) = [(ctx, vd_version vd)].
Proof.
  intros (Ha & <- & _)%seal_versioned_inv. unfold seen.
  enough (durable st' (vd_context vd) (vd_version vd) = true) as -> by done.
  revert Ha. unfold advance, save_store. destruct (io_write o && io_rename o); [|done].
  cbn [mbind result_bind]. intros [= <- <-]. unfold durable, saved_version. cbn [disk versions set_current].
  rewrite lookup_insert_eq. by apply Z.leb_refl.
Qed.

(** C5: rollback protection. From a store just loaded, through any history of seals, unseals, failed
    system calls and restarts (at any point, from whatever the file then holds), as long as no
    counter to advance stands at its last value 2^64 - 1 and nothing but these operations touches
    the file, a blob is unsealed only if its version is at least every version that reached the
    file: those of all blobs sealed with success, and those of accepted blobs once the file has
    them. A version that only memory had (its write failed) is not among them. The number compared
    is the one the blob states; it is not authenticated. *)
Theorem rollback_rejected o0 file st0 st log o r vd st' pt v :
  load_store o0 file = Ok st0 →
  (∀ m, file = Some (VJson m) → map_Forall (λ _ v, in_range 64 v) m) →
  history st0 st log → unseal_versioned o r vd st = (st', Ok pt) →
  (vd_context vd, v) ∈ log → v ≤ vd_version vd.
Proof.
  intros H0 Hfile Hh (Hle & _ & _)%unseal_versioned_inv Hin.
  assert (history_inv st log) as [_ _ Hb Hl].
  { clear Hin Hle. induction Hh as [|st log obs st1 Hh IH Hs]; [|by eapply step_inv].
    eapply history_load; [done..|]. by intros ? ? ?%not_elem_of_nil. }
  destruct (Hl _ _ Hin) as (n & E & ?). specialize (Hb _ _ E). lia.
Qed.
End history.

(** ** Round trip, and the limits of the protection *)

Section limits.
Context `{SealCryptoLaws}.

(** What was sealed is unsealed: a blob sealed under a version opens in the
    resulting store, on any platform that agrees with the sealing one on what
    the policy binds to, and opening it leaves the store as it is. *)
Theorem versioned_roundtrip nonce o o' r r' pt ctx policy st st' vd :
  length nonce = NONCE_LEN → (0x1E0 ≤ length r')%nat → same_identity policy r r' →
  seal_versioned (Some nonce) o r pt ctx policy st = (st', Ok vd) →
  unseal_versioned o' r' vd st' = (st', Ok pt).
Proof.
  intros Hn Hr' Hid (Ha & Hctx & Hs)%seal_versioned_inv.
  pose proof (unseal_of_seal _ _ _ _ _ _ _ Hn Hr' Hid Hs) as Hu.
  assert (current_version st' (vd_context vd) = vd_version vd) as Hcur.
  { revert Ha. unfold advance. set (n := wrap 64 _).
    pose proof (save_store_current o (set_current st ctx n) ctx) as Hc.
    destruct (save_store _ _) as [st1 r1]. intros [= <- E].
    apply bind_Ok in E as (_ & _ & [= <-]). cbn [fst] in Hc.
    by rewrite Hctx, Hc, current_set, decide_True. }
  unfold unseal_versioned, check_version, update_version.
  by rewrite Hcur, Z.ltb_irrefl, Hu.
Qed.

Definition set_version (vd : VersionedSealedData) (v : Z) : VersionedSealedData :=
  {| vd_version := v; vd_context := vd_context vd; vd_policy := vd_policy vd;
     vd_blob := vd_blob vd |}.

Definition saves (o : io) : Prop := io_write o = true ∧ io_rename o = true.

Lemma update_saved o ctx v st : saves o → ∃ st', update_version o ctx v st = (st', Ok ()).
Proof.
  intros [Hw Hr]. unfold update_version, save_store. rewrite Hw, Hr. cbn [andb].
  destruct (_ <? _); eauto.
Qed.

(** The version is not part of what is authenticated: a blob that opens on
    this platform opens under any version number from the stored one on, so an
    old blob passes the rollback check once its version field is raised. *)
Theorem version_unauthenticated o r vd v pt st :
  saves o → unseal r (unversioned vd) = Ok pt → current_version st (vd_context vd) ≤ v →
  (unseal_versioned o r (set_version vd v) st).2 = Ok pt.
Proof.
  intros Ho Hu Hle. unfold unseal_versioned, check_version. cbn [vd_context vd_version set_version].
  destruct (Z.ltb_spec v (current_version st (vd_context vd))); [lia|].
  change (unversioned (set_version vd v)) with (unversioned vd). rewrite Hu.
  by destruct (update_saved o (vd_context vd) v st Ho) as [st' ->].
Qed.

(** Memory is raised before the file is written and stays raised when the write
    fails: a second attempt succeeds without writing, and after a restart the
    older blob opens again. *)
Lemma failed_save_forgets o r new old pt pt' st :
  io_write o = false → synced st → vd_context old = vd_context new →
  unseal r (unversioned new) = Ok pt → unseal r (unversioned old) = Ok pt' →
  current_version st (vd_context new) ≤ vd_version old < vd_version new →
  ∃ st1 st2 st3,
    unseal_versioned o r new st = (st1, Err StoreWriteFailed) ∧
    unseal_versioned o r new st1 = (st2, Ok pt) ∧
    load_store io_ok (disk st2) = Ok st3 ∧
    (unseal_versioned io_ok r old st3).2 = Ok pt'.
Proof.
  intros Hw Hsync Hctx Hn Ho Hv.
  set (st1 := set_current st (vd_context new) (vd_version new)).
  assert (Hc1 : current_version st1 (vd_context new) = vd_version new)
    by (unfold st1; by rewrite current_set, decide_True).
  exists st1, st1, {| versions := versions st; disk := disk st |}. repeat split.
  - unfold unseal_versioned, check_version, update_version, save_store.
    destruct (Z.ltb_spec (vd_version new) (current_version st (vd_context new))); [lia|].
    rewrite Hn. destruct (Z.ltb_spec (current_version st (vd_context new)) (vd_version new)); [|lia].
    by rewrite Hw.
  - unfold unseal_versioned, check_version, update_version.
    by rewrite Hc1, Z.ltb_irrefl, Hn.
  - unfold synced in Hsync. change (disk st1) with (disk st). unfold load_store.
    destruct (disk st) as [f|]; [by rewrite Hsync | by rewrite Hsync].
  - unfold unseal_versioned, check_version.
    change (current_version {| versions := versions st; disk := disk st |} (vd_context old))
      with (current_version st (vd_context old)). rewrite Hctx.
    destruct (Z.ltb_spec (vd_version old) (current_version st (vd_context new))); [lia|].
    rewrite Ho. by destruct (update_saved io_ok (vd_context new) (vd_version old)
      {| versions := versions st; disk := disk st |}) as [st' ->].
Qed.

(** The counter is a [u64]: past its maximum the next version is zero. *)
Lemma advance_wraps o ctx st :
  current_version st ctx = u_max 64 → saves o → (advance o ctx st).2 = Ok 0.
Proof.
  intros Hc [Hw Hr]. unfold advance, save_store. rewrite Hc, Hw, Hr. reflexivity.
Qed.

(** While the disk works, memory and file stay in step. *)
Lemma save_synced o st : saves o → synced (save_store o st).1.
Proof. intros [Hw Hr]. unfold save_store. by rewrite Hw, Hr. Qed.
End limits.

(** A corrupt file is read as an empty store: every counter is forgotten. *)
Lemma corrupt_store_reset o : io_mkdir o = true → io_read o = true →
  ∃ st, load_store o (Some VGarbage) = Ok st ∧ ∀ c, current_version st c = 0.
Proof.
  intros Hm Hr. unfold load_store. rewrite Hm, Hr. eexists. split; [done|].
  intros c. unfold current_version. cbn [versions]. by rewrite lookup_empty.
Qed.

(** ** A small instance of the cryptography, for concrete runs *)

Definition toy_crypto : SealCrypto :=
  {| hkdf_sha256 := λ _ ikm _, Some ikm; AesKey := list Z; aes_key := Some;
     gcm_seal := λ k n a p, Some (p ++ replicate 16 0);
     gcm_open := λ k n a c, Some (take (length c - 16) c) |}.

#[export] Instance toy_crypto_laws : @SealCryptoLaws toy_crypto.
Proof.
  split; cbn [gcm_seal gcm_open toy_crypto]; intros k n a p c [= <-]; rewrite length_app;
    [|done]. change (length (replicate 16 0)) with 16%nat. by rewrite Nat.add_sub, take_app_length.
Qed.

Definition toy_platform (chip : Z) : list Z := replicate 0x1A0 1 ++ replicate 64 chip.
Definition toy_store : VersionStore := {| versions := ∅; disk := None |}.
Definition toy_blob : VersionedSealedData :=
  {| vd_version := 1; vd_context := "keys"; vd_policy := MeasurementOnly;
     vd_blob := replicate 12 5 ++ [7; 8] ++ replicate 16 0 |}.
Definition toy_store1 : VersionStore :=
  {| versions := {["keys" := 1]}; disk := Some (VJson {["keys" := 1]}) |}.

Lemma versioned_roundtrip_witness :
  @seal_versioned toy_crypto (Some (replicate 12 5)) io_ok (toy_platform 3) [7; 8] "keys"
    MeasurementOnly toy_store = (toy_store1, Ok toy_blob) ∧
  @unseal_versioned toy_crypto io_ok (toy_platform 4) toy_blob toy_store1
    = (toy_store1, Ok [7; 8]).
Proof.
  split; [vm_compute; reflexivity|].
  apply (@versioned_roundtrip toy_crypto _ (replicate 12 5) io_ok io_ok (toy_platform 3)
    (toy_platform 4) [7; 8] "keys" MeasurementOnly toy_store);
    [reflexivity | apply Nat.leb_le; reflexivity | split; [reflexivity | by intros []]
    | vm_compute; reflexivity].
Defined.

Lemma version_unauthenticated_witness :
  (@unseal_versioned toy_crypto io_ok (toy_platform 3) (set_version toy_blob 9) toy_store1).2
    = Ok [7; 8].
Proof.
  apply (@version_unauthenticated toy_crypto); [done | vm_compute; reflexivity | by vm_compute].
Defined.

Lemma rollback_rejected_witness :
  ∃ st', @unseal_versioned toy_crypto io_ok (toy_platform 3) toy_blob toy_store1
           = (st', Ok [7; 8]) ∧ 1 ≤ vd_version toy_blob.
Proof.
  exists toy_store1. split; [vm_compute; reflexivity|].
  apply (@rollback_rejected toy_crypto io_ok None toy_store toy_store1 [("keys", 1)] io_ok
           (toy_platform 3) toy_blob toy_store1 [7; 8] 1);
    [done | done | | vm_compute; reflexivity | by left].
  apply (history_step _ toy_store1 [("keys", 1)] []); [|by apply (step_restart io_ok)].
  apply (history_step _ toy_store [] [("keys", 1)]); [constructor|].
  apply (step_seal (Some (replicate 12 5)) io_ok (toy_platform 3) [7; 8] "keys" MeasurementOnly
           toy_store toy_store1 (Ok toy_blob)); [vm_compute; reflexivity | by vm_compute].
Defined.
