(* ===== verification/Reattest.v ===== *)
(** * Reattest: periodic re-attestation of a running box

    [runtime/src/tee/reattest.rs].  An [Instant] is a number of nanoseconds; the
    time a method reads is its argument [now].  The counters are a [u32] and two
    [u64]. *)

From Stdlib Require Import ZArith Lia.
From stdpp Require Import base list numbers.
From S2P Require Import Prelude.

Local Open Scope Z_scope.

(** ** Data *)

Inductive FailureAction := Warn | Event | Stop.

#[export] Instance FailureAction_eq_dec : EqDecision FailureAction.
Proof. solve_decision. Defined.

Record ReattestConfig := {
  rc_enabled : bool;
  rc_interval_secs : Z;
  rc_max_failures : Z;
  rc_failure_action : FailureAction;
  rc_grace_period_secs : Z }.

Definition default_config : ReattestConfig :=
  {| rc_enabled := false; rc_interval_secs := 300; rc_max_failures := 3;
     rc_failure_action := Warn; rc_grace_period_secs := 60 |}.

Record ReattestState := {
  rs_config : ReattestConfig;
  rs_boot_time : Z;
  rs_last_success : option Z;
  rs_last_check : option Z;
  rs_consecutive_failures : Z;
  rs_total_successes : Z;
  rs_total_failures : Z }.

(** ** Operations *)

Definition new_reattest (config : ReattestConfig) (now : Z) : ReattestState :=
  {| rs_config := config; rs_boot_time := now; rs_last_success := None; rs_last_check := None;
     rs_consecutive_failures := 0; rs_total_successes := 0; rs_total_failures := 0 |}.

Definition is_check_due (now : Z) (s : ReattestState) : bool :=
  if negb (rc_enabled (rs_config s)) then false
  else if elapsed now (rs_boot_time s) <? from_secs (rc_grace_period_secs (rs_config s)) then false
  else
    match rs_last_check s with
    | None => true
    | Some last => from_secs (rc_interval_secs (rs_config s)) <=? elapsed now last
    end.

Definition record_success (now : Z) (s : ReattestState) : ReattestState :=
  {| rs_config := rs_config s; rs_boot_time := rs_boot_time s;
     rs_last_success := Some now; rs_last_check := Some now;
     rs_consecutive_failures := 0;
     rs_total_successes := wrap 64 (rs_total_successes s + 1);
     rs_total_failures := rs_total_failures s |}.

Definition is_failed (s : ReattestState) : bool :=
  rc_max_failures (rs_config s) <=? rs_consecutive_failures s.

Definition record_failure (now : Z) (s : ReattestState) : ReattestState * FailureAction :=
  let s :=
    {| rs_config := rs_config s; rs_boot_time := rs_boot_time s;
       rs_last_success := rs_last_success s; rs_last_check := Some now;
       rs_consecutive_failures := wrap 32 (rs_consecutive_failures s + 1);
       rs_total_successes := rs_total_successes s;
       rs_total_failures := wrap 64 (rs_total_failures s + 1) |} in
  (s, if rc_max_failures (rs_config s) <=? rs_consecutive_failures s
      then rc_failure_action (rs_config s) else Warn).

Definition has_attested (s : ReattestState) : bool :=
  match rs_last_success s with Some _ => true | None => false end.

Definition time_since_last_success (now : Z) (s : ReattestState) : option Z :=
  elapsed now <$> rs_last_success s.

Definition time_since_last_check (now : Z) (s : ReattestState) : option Z :=
  elapsed now <$> rs_last_check s.

Record ReattestSummary := {
  rm_enabled : bool;
  rm_interval_secs : Z;
  rm_consecutive_failures : Z;
  rm_max_failures : Z;
  rm_total_successes : Z;
  rm_total_failures : Z;
  rm_is_failed : bool;
  rm_failure_action : FailureAction }.

Definition summary (s : ReattestState) : ReattestSummary :=
  {| rm_enabled := rc_enabled (rs_config s);
     rm_interval_secs := rc_interval_secs (rs_config s);
     rm_consecutive_failures := rs_consecutive_failures s;
     rm_max_failures := rc_max_failures (rs_config s);
     rm_total_successes := rs_total_successes s;
     rm_total_failures := rs_total_failures s;
     rm_is_failed := is_failed s;
     rm_failure_action := rc_failure_action (rs_config s) |}.

Inductive config_err := ZeroInterval | ZeroMaxFailures.

Definition validate_config (c : ReattestConfig) : result config_err () :=
  if rc_enabled c && (rc_interval_secs c =? 0) then Err ZeroInterval
  else if rc_enabled c && (rc_max_failures c =? 0) then Err ZeroMaxFailures
  else Ok ().

(** ** Histories of checks *)

(** The outcome of one check: when it was recorded, and whether it passed. *)
Definition record_outcome (s : ReattestState) (e : Z * bool) : ReattestState :=
  if e.2 then record_success e.1 s else (record_failure e.1 s).1.

Definition run_checks (c : ReattestConfig) (boot : Z) (es : list (Z * bool)) : ReattestState :=
  foldl record_outcome (new_reattest c boot) es.

(** How many of the latest outcomes are failures with no success since. *)
Definition trailing_failures (es : list (Z * bool)) : nat :=
  foldl (λ (n : nat) (e : Z * bool), if e.2 then 0 else S n)%nat 0%nat es.
Definition count (b : bool) (es : list (Z * bool)) : nat :=
  length (List.filter (λ e : Z * bool, Bool.eqb e.2 b) es).

Lemma run_checks_snoc c boot es e :
  run_checks c boot (es ++ [e]) = record_outcome (run_checks c boot es) e.
Proof. unfold run_checks, trailing_failures. by rewrite foldl_app. Qed.

Lemma trailing_snoc es e :
  trailing_failures (es ++ [e]) = if e.2 then 0%nat else S (trailing_failures es).
Proof. unfold run_checks, trailing_failures. by rewrite foldl_app. Qed.

Lemma trailing_le es : (trailing_failures es ≤ length es)%nat.
Proof.
  induction es as [|e es IH] using rev_ind; [done|].
  rewrite trailing_snoc, length_app. cbn. destruct e.2; lia.
Qed.

Lemma count_snoc b es e :
  count b (es ++ [e]) = if Bool.eqb e.2 b then S (count b es) else count b es.
Proof.
  unfold count. rewrite List.filter_app, length_app. cbn. destruct (Bool.eqb e.2 b); cbn; lia.
Qed.

Lemma run_checks_counters c boot es : Z.of_nat (length es) < 2 ^ 32 →
  let s := run_checks c boot es in
  rs_config s = c ∧ rs_boot_time s = boot ∧
  rs_consecutive_failures s = Z.of_nat (trailing_failures es) ∧
  rs_total_successes s = Z.of_nat (count true es) ∧
  rs_total_failures s = Z.of_nat (count false es).
Proof.
  induction es as [|e es IH] using rev_ind; intros Hlen; [done|].
  rewrite length_app in Hlen. cbn [length] in Hlen. destruct IH as (Hc & Hb & Hf & Ht & Htf); [lia|].
  pose proof (trailing_le es).
  assert (∀ b, count b es ≤ length es)%nat as Hcnt by (intros b; apply filter_length_le).
  pose proof (Hcnt true). pose proof (Hcnt false).
  cbv zeta. rewrite run_checks_snoc, trailing_snoc, !count_snoc. unfold record_outcome.
  destruct e as [t []]; cbn [fst snd Bool.eqb].
  - unfold record_success. cbn [rs_config rs_boot_time rs_consecutive_failures
      rs_total_successes rs_total_failures]. rewrite Ht, wrap_small by (unfold in_range; lia).
    repeat split; try done. lia.
  - unfold record_failure. cbn [fst rs_config rs_boot_time rs_consecutive_failures
      rs_total_successes rs_total_failures]. rewrite Hf, Htf, !wrap_small by (unfold in_range; lia).
    repeat split; try done; lia.
Qed.

(** The configured action is taken exactly when the failures since the last
    success reach the limit: after any history of fewer than 2^32 checks, the
    failure just recorded triggers the action if it is at least the
    [max_failures]-th in a row, and only a warning otherwise. *)
Theorem action_on_persistent_failure c boot es now :
  Z.of_nat (length es) + 1 < 2 ^ 32 →
  (record_failure now (run_checks c boot es)).2 =
    if rc_max_failures c <=? Z.of_nat (S (trailing_failures es))
    then rc_failure_action c else Warn.
Proof.
  intros Hlen. destruct (run_checks_counters c boot es) as (Hc & _ & Hf & _); [lia|].
  pose proof (trailing_le es). unfold record_failure. cbn [snd rs_config rs_consecutive_failures].
  rewrite Hc, Hf, wrap_small by (unfold in_range; lia).
  by replace (Z.of_nat (trailing_failures es) + 1) with (Z.of_nat (S (trailing_failures es))) by lia.
Qed.

Lemma action_on_persistent_failure_witness :
  let c := {| rc_enabled := true; rc_interval_secs := 300; rc_max_failures := 2;
              rc_failure_action := Stop; rc_grace_period_secs := 60 |} in
  (record_failure 9 (run_checks c 0 [(1, false); (2, true); (3, false)])).2 = Stop ∧
  (record_failure 9 (run_checks c 0 [(1, false); (2, true)])).2 = Warn.
Proof. cbv zeta. split; rewrite action_on_persistent_failure; reflexivity. Defined.

(** ** Spacing of the checks *)

(** A driver that checks only when a check is due; the outcome of a check that
    became due at [t] is recorded at some later [t']. *)
Inductive driven (c : ReattestConfig) (boot : Z) : list (Z * bool) → Prop :=
  | driven_nil : driven c boot []
  | driven_check es t t' ok :
      driven c boot es → is_check_due t (run_checks c boot es) = true → t ≤ t' →
      driven c boot (es ++ [(t', ok)]).

Lemma last_check_snoc c boot es t ok :
  rs_last_check (run_checks c boot (es ++ [(t, ok)])) = Some t.
Proof. rewrite run_checks_snoc. by destruct ok. Qed.

Lemma run_checks_config c boot es :
  rs_config (run_checks c boot es) = c ∧ rs_boot_time (run_checks c boot es) = boot.
Proof.
  induction es as [|[t ok] es IH] using rev_ind; [done|].
  rewrite run_checks_snoc. by destruct ok.
Qed.

Lemma due_inv t c boot es : is_check_due t (run_checks c boot es) = true →
  rc_enabled c = true ∧ from_secs (rc_grace_period_secs c) ≤ Z.max 0 (t - boot) ∧
  ∀ last, rs_last_check (run_checks c boot es) = Some last →
    from_secs (rc_interval_secs c) ≤ Z.max 0 (t - last).
Proof.
  unfold is_check_due, elapsed, sat_sub. destruct (run_checks_config c boot es) as [-> ->].
  destruct (rc_enabled c); [|done]. cbn [negb].
  destruct (Z.ltb_spec (Z.max 0 (t - boot)) (from_secs (rc_grace_period_secs c))); [done|].
  intros E. split; [done|]. split; [done|]. intros last Hl. rewrite Hl in E. by apply Z.leb_le in E.
Qed.

Lemma driven_snoc c boot es t ok : driven c boot (es ++ [(t, ok)]) →
  ∃ t0, driven c boot es ∧ is_check_due t0 (run_checks c boot es) = true ∧ t0 ≤ t.
Proof.
  intros Hd. remember (es ++ [(t, ok)]) as l eqn:E. destruct Hd as [|es' t0 t' ok' Hd Hdue Hle].
  - by destruct es.
  - apply app_inj_2 in E as [-> [= -> ->]]; [|done]. eauto.
Qed.

(** Checks are spaced: a driver that checks only when due performs its first
    check after the grace period and leaves at least the interval between any
    two, so [n] checks take at least the grace period and [n - 1] intervals. *)
Theorem checks_spaced c boot es t ok :
  0 < rc_grace_period_secs c → 0 < rc_interval_secs c →
  driven c boot (es ++ [(t, ok)]) →
  boot + from_secs (rc_grace_period_secs c)
    + Z.of_nat (length es) * from_secs (rc_interval_secs c) ≤ t.
Proof.
  intros Hg Hi. revert t ok.
  induction es as [|[t1 ok1] es IH] using rev_ind; intros t ok (t0 & Hd & Hdue & Hle)%driven_snoc;
    apply due_inv in Hdue as (_ & Hb & Hl).
  - unfold from_secs in *. cbn [length]. lia.
  - specialize (IH _ _ Hd). specialize (Hl _ (last_check_snoc c boot es t1 ok1)).
    rewrite length_app. cbn [length]. unfold from_secs in *. lia.
Qed.

Lemma checks_spaced_witness :
  let c := {| rc_enabled := true; rc_interval_secs := 5; rc_max_failures := 2;
              rc_failure_action := Stop; rc_grace_period_secs := 60 |} in
  0 + from_secs 60 + Z.of_nat 1 * from_secs 5 ≤ 66 * 10 ^ 9.
Proof.
  intros c. apply (checks_spaced c 0 [(60 * 10 ^ 9, true)] (66 * 10 ^ 9) false);
    [reflexivity | reflexivity|].
  apply (driven_check c 0 [(60 * 10 ^ 9, true)] (65 * 10 ^ 9)); [|reflexivity | by vm_compute].
  apply (driven_check c 0 [] (60 * 10 ^ 9)); [constructor | reflexivity | by vm_compute].
Defined.
