(* ===== verification/Pool.v ===== *)
(** * Pool: the warm pool of virtual machines and its autoscaler

    [runtime/src/pool/scaler.rs] and [runtime/src/pool/warm_pool.rs].  A machine
    is its identifier.  The pool is shared by clients, which acquire and release
    machines, and by one maintenance task, which evicts expired machines,
    consults the autoscaler and replenishes: the sections of code that run under
    a lock are the atomic steps of a transition system, and everything between
    them (booting and destroying a machine) can interleave. *)

From Stdlib Require Import ZArith Lia Floats.SpecFloat.
From stdpp Require Import base gmap strings list numbers.
From S2P Require Import Prelude RustStr RustFloat Network Config.

Local Open Scope Z_scope.

(** ** The autoscaler ([scaler.rs]) *)

Inductive ScaleDecision := ScaleUp (n : Z) | ScaleDown (n : Z) | Hold.

Record PressureWindow := { pw_events : list (Z * bool); pw_window : Z }.

Definition new_window (window_secs : Z) : PressureWindow :=
  {| pw_events := []; pw_window := from_secs window_secs |}.

(** [Instant::checked_sub]: seconds are an [i64]. *)
Definition checked_sub_instant (now d : Z) : option Z :=
  if now - d <? from_secs (- 2 ^ 63) then None else Some (now - d).

Fixpoint prune_events (cutoff : Z) (events : list (Z * bool)) : list (Z * bool) :=
  match events with
  | (ts, hit) :: rest => if ts <? cutoff then prune_events cutoff rest else events
  | [] => []
  end.

Definition prune (now : Z) (w : PressureWindow) : PressureWindow :=
  let cutoff := default now (checked_sub_instant now (pw_window w)) in
  {| pw_events := prune_events cutoff (pw_events w); pw_window := pw_window w |}.

Definition record (now : Z) (hit : bool) (w : PressureWindow) : PressureWindow :=
  prune now {| pw_events := pw_events w ++ [(now, hit)]; pw_window := pw_window w |}.

Definition miss_rate (now : Z) (w : PressureWindow) : PressureWindow * option spec_float :=
  let w := prune now w in
  (w, match pw_events w with
      | [] => None
      | es =>
          let total := int_as_f64 (Z.of_nat (length es)) in
          let misses := int_as_f64 (Z.of_nat (length (List.filter (λ e, negb e.2) es))) in
          Some (f64_div misses total)
      end).

Record PoolScaler := {
  ps_policy : ScalingPolicy;
  ps_window : PressureWindow;
  ps_last_scale_at : option Z;
  ps_current_min_idle : Z;
  ps_max_min_idle : Z;
  ps_gateway_pressure : spec_float;
  ps_gateway_pressure_at : option Z }.

Definition new_scaler (policy : ScalingPolicy) (initial_min_idle max_size : Z) : PoolScaler :=
  {| ps_policy := policy;
     ps_window := new_window (window_secs policy);
     ps_last_scale_at := None;
     ps_current_min_idle := initial_min_idle;
     ps_max_min_idle :=
       if 0 <? max_min_idle policy then Z.min (max_min_idle policy) max_size else max_size;
     ps_gateway_pressure := S754_zero false;
     ps_gateway_pressure_at := None |}.

Definition with_window (s : PoolScaler) (w : PressureWindow) : PoolScaler :=
  {| ps_policy := ps_policy s; ps_window := w; ps_last_scale_at := ps_last_scale_at s;
     ps_current_min_idle := ps_current_min_idle s; ps_max_min_idle := ps_max_min_idle s;
     ps_gateway_pressure := ps_gateway_pressure s;
     ps_gateway_pressure_at := ps_gateway_pressure_at s |}.

Definition record_acquire (now : Z) (hit : bool) (s : PoolScaler) : PoolScaler :=
  with_window s (record now hit (ps_window s)).

(** [f64::clamp]; NaN stays NaN. *)
Definition f64_clamp (x lo hi : spec_float) : spec_float :=
  let x := if SFltb x lo then lo else x in
  if SFltb hi x then hi else x.

Definition f64_one : spec_float := int_as_f64 1.

Definition update_gateway_pressure (now : Z) (pressure : spec_float) (s : PoolScaler) : PoolScaler :=
  {| ps_policy := ps_policy s; ps_window := ps_window s; ps_last_scale_at := ps_last_scale_at s;
     ps_current_min_idle := ps_current_min_idle s; ps_max_min_idle := ps_max_min_idle s;
     ps_gateway_pressure := f64_clamp pressure (S754_zero false) f64_one;
     ps_gateway_pressure_at := Some now |}.

Definition is_gateway_pressure_fresh (now : Z) (s : PoolScaler) : bool :=
  match ps_gateway_pressure_at s with
  | Some t => as_secs (elapsed now t) <? wrap 64 (window_secs (ps_policy s) * 2)
  | None => false
  end.

Definition effective_miss_rate (now : Z) (s : PoolScaler) : PoolScaler * option spec_float :=
  let '(w, rate) := miss_rate now (ps_window s) in
  let s := with_window s w in
  (s, local ← rate;
      Some (if is_gateway_pressure_fresh now s && SFltb (S754_zero false) (ps_gateway_pressure s)
            then f64_add (f64_mul local (f64_of_decimal false 6 (-1)))
                   (f64_mul (ps_gateway_pressure s) (f64_of_decimal false 4 (-1)))
            else local)).

Definition scale_to (now new_min : Z) (s : PoolScaler) : PoolScaler :=
  {| ps_policy := ps_policy s; ps_window := ps_window s; ps_last_scale_at := Some now;
     ps_current_min_idle := new_min; ps_max_min_idle := ps_max_min_idle s;
     ps_gateway_pressure := ps_gateway_pressure s;
     ps_gateway_pressure_at := ps_gateway_pressure_at s |}.

Definition in_cooldown (now : Z) (s : PoolScaler) : bool :=
  match ps_last_scale_at s with
  | Some last => as_secs (elapsed now last) <? cooldown_secs (ps_policy s)
  | None => false
  end.

Definition evaluate (now : Z) (s : PoolScaler) : PoolScaler * ScaleDecision :=
  if in_cooldown now s then (s, Hold)
  else if (length (pw_events (ps_window s)) <? 3)%nat then (s, Hold)
  else
    let '(s, rate) := effective_miss_rate now s in
    match rate with
    | None => (s, Hold)
    | Some miss_rate =>
        if SFltb (scale_up_threshold (ps_policy s)) miss_rate
        then
          let new_min := Z.min (wrap 64 (ps_current_min_idle s + 1)) (ps_max_min_idle s) in
          if ps_current_min_idle s <? new_min then (scale_to now new_min s, ScaleUp 1) else (s, Hold)
        else if SFltb miss_rate (scale_down_threshold (ps_policy s))
        then
          let new_min := Z.max (sat_sub (ps_current_min_idle s) 1) 1 in
          if new_min <? ps_current_min_idle s then (scale_to now new_min s, ScaleDown 1)
          else (s, Hold)
        else (s, Hold)
    end.

(** ** The pool ([warm_pool.rs]) *)

Record WarmVm := { vm_id : string; vm_created_at : Z }.

Record PoolStats := {
  idle_count : Z;
  total_created : Z;
  total_acquired : Z;
  total_released : Z;
  total_evicted : Z }.

(** What the locks guard: the idle machines (a stack, last pushed at the end),
    the statistics, and the autoscaler. *)
Record WarmPool := {
  wp_idle : list WarmVm;
  wp_stats : PoolStats;
  wp_scaler : option PoolScaler }.

Definition idle_len (p : WarmPool) : Z := Z.of_nat (length (wp_idle p)).

Inductive pool_err := ZeroMaxSize | MinAboveMax (min_idle max_size : Z).

Definition empty_pool (now : Z) (config : PoolConfig) : WarmPool :=
  {| wp_idle := [];
     wp_stats := {| idle_count := 0; total_created := 0; total_acquired := 0; total_released := 0;
                    total_evicted := 0 |};
     wp_scaler := if scaling_enabled (scaling config)
                  then Some (new_scaler (scaling config) (min_idle config) (max_size config))
                  else None |}.

(** A machine that booted: one more created. *)
Definition count_created (p : WarmPool) : WarmPool :=
  let s := wp_stats p in
  {| wp_idle := wp_idle p;
     wp_stats := {| idle_count := idle_count s; total_created := wrap 64 (total_created s + 1);
                    total_acquired := total_acquired s; total_released := total_released s;
                    total_evicted := total_evicted s |};
     wp_scaler := wp_scaler p |}.

(** [idle.push(WarmVm { .. })], then [stats.idle_count = idle.len()]. *)
Definition set_idle (p : WarmPool) (idle : list WarmVm) : WarmPool :=
  let s := wp_stats p in
  {| wp_idle := idle;
     wp_stats := {| idle_count := Z.of_nat (length idle); total_created := total_created s;
                    total_acquired := total_acquired s; total_released := total_released s;
                    total_evicted := total_evicted s |};
     wp_scaler := wp_scaler p |}.

Definition push_idle (now : Z) (id : string) (p : WarmPool) : WarmPool :=
  set_idle p (wp_idle p ++ [{| vm_id := id; vm_created_at := now |}]).

(** [idle.remove(idx)] for each index, the indices given from last to first. *)
Definition remove_indices (indices : list nat) (idle : list WarmVm) : list WarmVm :=
  foldl (λ l i, if (i <? length l)%nat then take i l ++ drop (S i) l else l) idle indices.

(** [iter().enumerate().filter(..).map(..)] *)
Fixpoint indices_from (i : nat) (p : WarmVm → bool) (l : list WarmVm) : list nat :=
  match l with
  | [] => []
  | x :: l => if p x then i :: indices_from (S i) p l else indices_from (S i) p l
  end.

Definition remove_idle_vms (box_ids : list string) (p : WarmPool) : WarmPool :=
  let indices := indices_from 0 (λ w, bool_decide (vm_id w ∈ box_ids)) (wp_idle p) in
  match indices with
  | [] => p
  | _ => set_idle p (remove_indices (reverse indices) (wp_idle p))
  end.

(** The loop of [fill_to_min]; [boots] are the outcomes of the boots to come,
    [Some id] for a machine that booted. *)
Fixpoint fill_loop (now : Z) (boots : list (option string)) (added : list string) (p : WarmPool)
    : WarmPool :=
  match boots with
  | [] => p
  | Some id :: boots => fill_loop now boots (added ++ [id]) (push_idle now id (count_created p))
  | None :: _ =>
      match added with [] => p | _ => remove_idle_vms added p end
  end.

Definition fill_to_min (now : Z) (config : PoolConfig) (boots : list (option string)) (p : WarmPool)
    : WarmPool :=
  let needed := sat_sub (min_idle config) (idle_len p) in
  fill_loop now (take (Z.to_nat needed) boots) [] p.

Definition start (now : Z) (config : PoolConfig) (boots : list (option string))
    : result pool_err WarmPool :=
  if max_size config =? 0 then Err ZeroMaxSize
  else if max_size config <? min_idle config then Err (MinAboveMax (min_idle config) (max_size config))
  else Ok (fill_to_min now config boots (empty_pool now config)).

Definition record_in_scaler (now : Z) (hit : bool) (p : WarmPool) : WarmPool :=
  {| wp_idle := wp_idle p; wp_stats := wp_stats p;
     wp_scaler := record_acquire now hit <$> wp_scaler p |}.

Definition count_acquired (p : WarmPool) : WarmPool :=
  let s := wp_stats p in
  {| wp_idle := wp_idle p;
     wp_stats := {| idle_count := idle_count s; total_created := total_created s;
                    total_acquired := wrap 64 (total_acquired s + 1);
                    total_released := total_released s; total_evicted := total_evicted s |};
     wp_scaler := wp_scaler p |}.

(** The locked part of [acquire]: [None] sends the caller to an on-demand boot. *)
Definition acquire (now : Z) (p : WarmPool) : WarmPool * option string :=
  match reverse (wp_idle p) with
  | w :: rest =>
      (record_in_scaler now true (set_idle (count_acquired p) (reverse rest)), Some (vm_id w))
  | [] => (record_in_scaler now false p, None)
  end.

(** The end of an on-demand [acquire], once the machine booted. *)
Definition acquire_booted (p : WarmPool) : WarmPool := count_acquired (count_created p).

Definition count_released (p : WarmPool) : WarmPool :=
  let s := wp_stats p in
  {| wp_idle := wp_idle p;
     wp_stats := {| idle_count := idle_count s; total_created := total_created s;
                    total_acquired := total_acquired s;
                    total_released := wrap 64 (total_released s + 1);
                    total_evicted := total_evicted s |};
     wp_scaler := wp_scaler p |}.

(** [true]: the machine went back to the pool; [false]: it is destroyed. *)
Definition release (now : Z) (config : PoolConfig) (id : string) (p : WarmPool) : WarmPool * bool :=
  if max_size config <=? idle_len p then (p, false)
  else (push_idle now id (count_released p), true).

(** [evict_expired_static], first section: the machines kept and the others. *)
Definition evict_take (now ttl_secs : Z) (p : WarmPool) : WarmPool * list WarmVm :=
  let expired w := from_secs ttl_secs <? elapsed now (vm_created_at w) in
  ({| wp_idle := List.filter (λ w, negb (expired w)) (wp_idle p);
      wp_stats := wp_stats p; wp_scaler := wp_scaler p |},
   List.filter expired (wp_idle p)).

(** Second section, after the machines were destroyed. *)
Definition evict_stats (evicted_count after_count : Z) (p : WarmPool) : WarmPool :=
  let s := wp_stats p in
  if 0 <? evicted_count
  then {| wp_idle := wp_idle p;
          wp_stats := {| idle_count := after_count; total_created := total_created s;
                         total_acquired := total_acquired s; total_released := total_released s;
                         total_evicted := wrap 64 (total_evicted s + evicted_count) |};
          wp_scaler := wp_scaler p |}
  else p.

(** The autoscaler's turn: its new target, when there is one. *)
Definition autoscale (now : Z) (effective_min_idle : Z) (p : WarmPool) : WarmPool * Z :=
  match wp_scaler p with
  | Some s =>
      let '(s, _) := evaluate now s in
      ({| wp_idle := wp_idle p; wp_stats := wp_stats p; wp_scaler := Some s |},
       ps_current_min_idle s)
  | None => (p, effective_min_idle)
  end.

Definition drain (p : WarmPool) : WarmPool := set_idle p [].

(** ** The autoscaler stays in its range and respects its cooldown *)

Lemma effective_miss_rate_frame now s :
  let s' := (effective_miss_rate now s).1 in
  ps_policy s' = ps_policy s ∧ ps_current_min_idle s' = ps_current_min_idle s ∧
  ps_max_min_idle s' = ps_max_min_idle s ∧ ps_last_scale_at s' = ps_last_scale_at s.
Proof. unfold effective_miss_rate. by destruct (miss_rate now (ps_window s)). Qed.

(** One evaluation: a step of one, at the time of the evaluation, out of
    cooldown and inside the range; or nothing. *)
Lemma evaluate_spec now s s' d :
  in_range 64 (ps_current_min_idle s) → evaluate now s = (s', d) →
  ps_policy s' = ps_policy s ∧ ps_max_min_idle s' = ps_max_min_idle s ∧
  match d with
  | Hold => ps_current_min_idle s' = ps_current_min_idle s ∧
            ps_last_scale_at s' = ps_last_scale_at s
  | ScaleUp n => n = 1 ∧ ps_current_min_idle s' = ps_current_min_idle s + 1 ∧
            ps_current_min_idle s' ≤ ps_max_min_idle s ∧
            in_cooldown now s = false ∧ ps_last_scale_at s' = Some now
  | ScaleDown n => n = 1 ∧ ps_current_min_idle s' = ps_current_min_idle s - 1 ∧
            1 ≤ ps_current_min_idle s' ∧
            in_cooldown now s = false ∧ ps_last_scale_at s' = Some now
  end.
Proof.
  intros Hr. unfold evaluate. destruct (in_cooldown now s); [by intros [= <- <-]|].
  destruct (length _ <? 3)%nat; [by intros [= <- <-]|].
  pose proof (effective_miss_rate_frame now s) as (Hp & Hc & Hm & Hl).
  destruct (effective_miss_rate now s) as [s1 rate]. cbn [fst] in *.
  assert (Hhold : ps_policy s1 = ps_policy s ∧ ps_max_min_idle s1 = ps_max_min_idle s ∧
    ps_current_min_idle s1 = ps_current_min_idle s ∧ ps_last_scale_at s1 = ps_last_scale_at s) by done.
  destruct rate as [r|]; [|by intros [= <- <-]].
  destruct (SFltb (scale_up_threshold (ps_policy s1)) r).
  { destruct (Z.ltb_spec (ps_current_min_idle s1)
      (Z.min (wrap 64 (ps_current_min_idle s1 + 1)) (ps_max_min_idle s1))); [|by intros [= <- <-]].
    intros [= <- <-]. rewrite Hc, Hm in *. unfold in_range in Hr.
    destruct (decide (ps_current_min_idle s + 1 < 2 ^ 64)).
    - rewrite wrap_small in * by (unfold in_range; lia). cbn [scale_to ps_policy ps_max_min_idle ps_current_min_idle ps_last_scale_at].
      repeat split; try done; lia.
    - replace (ps_current_min_idle s + 1) with (2 ^ 64) in * by lia.
      change (wrap 64 (2 ^ 64)) with 0 in *. lia. }
  destruct (SFltb r _); [|by intros [= <- <-]].
  destruct (Z.ltb_spec (Z.max (sat_sub (ps_current_min_idle s1) 1) 1) (ps_current_min_idle s1));
    [|by intros [= <- <-]].
  intros [= <- <-]. cbn. rewrite Hc in *. unfold sat_sub in *. repeat split; try done; lia.
Qed.

(** What can happen to an autoscaler. *)
Inductive scaler_op := OpAcquire (hit : bool) | OpPressure (p : spec_float) | OpEvaluate.

Definition run_op (s : PoolScaler) (e : Z * scaler_op) : PoolScaler :=
  match e.2 with
  | OpAcquire hit => record_acquire e.1 hit s
  | OpPressure p => update_gateway_pressure e.1 p s
  | OpEvaluate => (evaluate e.1 s).1
  end.

Definition scaler_range (initial : Z) (s : PoolScaler) : Prop :=
  Z.min 1 initial ≤ ps_current_min_idle s ≤ Z.max initial (ps_max_min_idle s).

Lemma run_op_range initial s e :
  in_range 64 initial → in_range 64 (ps_max_min_idle s) → scaler_range initial s →
  scaler_range initial (run_op s e) ∧ ps_max_min_idle (run_op s e) = ps_max_min_idle s.
Proof.
  intros Hi Hm Hs. destruct e as [now []]; cbn [run_op fst snd]; [done..|].
  destruct (evaluate now s) as [s' d] eqn:E. apply evaluate_spec in E as (_ & Em & Ed).
  2: { unfold scaler_range, in_range in *. lia. }
  cbn [fst]. split; [|done]. unfold scaler_range in *. rewrite Em. destruct d; lia.
Qed.

(** The autoscaler never leaves its range: after any sequence of acquires,
    pressure updates and evaluations at any times, the target is at least one
    (unless it started at zero) and at most the larger of its starting value and
    the configured ceiling. *)
Theorem scaler_in_range policy initial max_size es :
  in_range 64 initial → in_range 64 max_size → initial ≤ max_size →
  let s := foldl run_op (new_scaler policy initial max_size) es in
  Z.min 1 initial ≤ ps_current_min_idle s ≤ max_size ∧
  (initial ≤ ps_max_min_idle (new_scaler policy initial max_size) →
   ps_current_min_idle s ≤ ps_max_min_idle (new_scaler policy initial max_size)).
Proof.
  intros Hi Hm Hle. set (s0 := new_scaler policy initial max_size).
  assert (Hm0 : 0 ≤ ps_max_min_idle s0 ≤ max_size).
  { unfold s0, new_scaler, in_range in *. cbn. destruct (Z.ltb_spec 0 (max_min_idle policy)); lia. }
  assert (H0 : scaler_range initial s0) by (unfold scaler_range, in_range in *; cbn; lia).
  assert (Hall : scaler_range initial (foldl run_op s0 es) ∧
                 ps_max_min_idle (foldl run_op s0 es) = ps_max_min_idle s0).
  { induction es as [|e es IH] using rev_ind; [done|]. rewrite foldl_app. cbn [foldl].
    destruct IH as [IH IHm]. rewrite <-IHm. apply run_op_range; [done| |done].
    rewrite IHm. unfold in_range in *. lia. }
  destruct Hall as [Hall HE]. unfold scaler_range in Hall. rewrite HE in Hall. cbv zeta. lia.
Qed.

Lemma scaler_in_range_witness :
  let s := foldl run_op (new_scaler scaling_default 1 5)
             [(1, OpAcquire false); (2, OpAcquire false); (3, OpAcquire false);
              (4, OpEvaluate); (5, OpEvaluate); (from_secs 61, OpEvaluate)] in
  ps_current_min_idle s = 3 ∧ Z.min 1 1 ≤ ps_current_min_idle s ≤ 5.
Proof.
  cbv zeta. split; [vm_compute; reflexivity|].
  apply (scaler_in_range scaling_default 1 5); unfold in_range; lia.
Defined.

(** ** Filling the pool *)

Definition ids (p : WarmPool) : list string := map vm_id (wp_idle p).

(** The machines booted before the first failure. *)
Fixpoint booted (boots : list (option string)) : list string :=
  match boots with Some id :: boots => id :: booted boots | _ => [] end.
Definition all_booted (boots : list (option string)) : bool :=
  forallb (λ b, match b with Some _ => true | None => false end) boots.

(** Removing by index from the back is filtering. *)
Lemma remove_indices_filter f (l : list WarmVm) :
  remove_indices (reverse (indices_from 0 f l)) l = List.filter (λ w, negb (f w)) l.
Proof.
  unfold remove_indices. rewrite foldl_reverse.
  enough (Hgen : ∀ pre, foldr (λ i l, if (i <? length l)%nat then take i l ++ drop (S i) l else l)
      (pre ++ l) (indices_from (length pre) f l) = pre ++ List.filter (λ w, negb (f w)) l)
    by apply (Hgen []).
  induction l as [|x l IH]; intros pre; cbn [indices_from List.filter foldr]; [done|].
  specialize (IH (pre ++ [x])). rewrite length_app in IH. cbn [length] in IH.
  rewrite Nat.add_1_r, <-!app_assoc in IH. cbn [app] in IH.
  destruct (f x); cbn [foldr negb]; rewrite IH; [|done].
  rewrite (proj2 (Nat.ltb_lt _ _)) by (rewrite length_app; cbn [length]; lia).
  rewrite take_app_length. change (x :: List.filter (λ w, negb (f w)) l)
    with ([x] ++ List.filter (λ w, negb (f w)) l). rewrite app_assoc, drop_app_length'; [done|].
  rewrite length_app. cbn [length]. lia.
Qed.

Lemma remove_idle_vms_idle box_ids p :
  wp_idle (remove_idle_vms box_ids p) =
    List.filter (λ w, negb (bool_decide (vm_id w ∈ box_ids))) (wp_idle p).
Proof.
  unfold remove_idle_vms. destruct (indices_from _ _ _) as [|i l] eqn:E.
  - rewrite <-remove_indices_filter, E. done.
  - rewrite <-E. cbn [wp_idle set_idle]. apply remove_indices_filter.
Qed.

Lemma remove_idle_vms_stats box_ids p :
  total_created (wp_stats (remove_idle_vms box_ids p)) = total_created (wp_stats p).
Proof. unfold remove_idle_vms. by destruct (indices_from _ _ _). Qed.

Lemma filter_not_added (old new : list WarmVm) added :
  map vm_id new = added → (∀ w, w ∈ old → vm_id w ∉ added) →
  List.filter (λ w, negb (bool_decide (vm_id w ∈ added))) (old ++ new) = old.
Proof.
  intros Hnew Hold. rewrite List.filter_app, (filter_none _ new), app_nil_r.
  - induction old as [|w old IH]; [done|]. cbn [List.filter].
    rewrite bool_decide_false by (apply Hold; by left). cbn [negb]. f_equal. apply IH.
    intros v Hv. apply Hold. by right.
  - intros w Hw. rewrite bool_decide_true; [done|]. rewrite <-Hnew. by apply (list_elem_of_fmap_2 vm_id).
Qed.

Lemma wrap_add_l w x y : wrap w (wrap w x + y) = wrap w (x + y).
Proof. unfold wrap. apply Zplus_mod_idemp_l. Qed.

Lemma fill_loop_spec now boots added old new p :
  wp_idle p = old ++ new → map vm_id new = added →
  (∀ w, w ∈ old → vm_id w ∉ added ++ booted boots) →
  in_range 64 (total_created (wp_stats p)) →
  let p' := fill_loop now boots added p in
  wp_idle p' = (if all_booted boots
                then old ++ new ++ map (λ id, {| vm_id := id; vm_created_at := now |}) (booted boots)
                else old) ∧
  total_created (wp_stats p') = wrap 64 (total_created (wp_stats p) + Z.of_nat (length (booted boots))) ∧
  wp_scaler p' = wp_scaler p.
Proof.
  revert added new p. induction boots as [|[id|] boots IH]; intros added new p Hidle Hnew Hold Hr;
    cbn [fill_loop booted all_booted forallb map andb].
  - rewrite app_nil_r. cbn [length]. by rewrite Z.add_0_r, wrap_small.
  - destruct (IH (added ++ [id]) (new ++ [{| vm_id := id; vm_created_at := now |}])
      (push_idle now id (count_created p))) as (H1 & H2 & H3).
    + cbn. by rewrite Hidle, app_assoc.
    + by rewrite map_app, Hnew.
    + intros w Hw. rewrite <-app_assoc. by apply Hold.
    + apply wrap_range. lia.
    + fold (all_booted boots). cbv zeta. rewrite H1, H2, H3. rewrite <-app_assoc. split; [done|].
      split; [|done]. cbn [wp_stats push_idle set_idle count_created total_created length].
      rewrite wrap_add_l. f_equal. lia.
  - cbn [length]. rewrite Z.add_0_r, wrap_small by done. rewrite app_nil_r in Hold.
    destruct added as [|a added].
    + apply map_eq_nil in Hnew as ->. by rewrite Hidle, app_nil_r.
    + rewrite remove_idle_vms_idle, remove_idle_vms_stats, Hidle, (filter_not_added old new) by done.
      split; [done|]. split; [done|]. unfold remove_idle_vms. by destruct (indices_from _ _ _).
Qed.

(** Filling is all or nothing: starting a valid pool either boots every one
    of the [min_idle] machines, in order, or leaves the pool empty, having
    destroyed those already booted, as soon as one boot fails. *)
Theorem start_fills_or_empties now config boots p :
  0 ≤ min_idle config →
  start now config boots = Ok p →
  let needed := take (Z.to_nat (min_idle config)) boots in
  min_idle config ≤ max_size config ∧
  ids p = (if all_booted needed then booted needed else []) ∧
  total_created (wp_stats p) = wrap 64 (Z.of_nat (length (booted needed))).
Proof.
  intros Hmin. unfold start. destruct (Z.eqb_spec (max_size config) 0); [done|].
  destruct (Z.ltb_spec (max_size config) (min_idle config)); [done|]. intros [= <-]. cbv zeta.
  split; [done|].
  unfold fill_to_min, sat_sub. change (idle_len (empty_pool now config)) with 0.
  replace (Z.max 0 (min_idle config - 0)) with (min_idle config) by lia.
  set (needed := take _ boots).
  destruct (fill_loop_spec now needed [] [] [] (empty_pool now config)) as (H1 & H2 & _);
    [done | done | by intros w Hw%not_elem_of_nil | by unfold in_range; cbn; lia |].
  cbv zeta in H1, H2. unfold ids. rewrite H1, H2.
  cbn [app empty_pool wp_stats total_created]. rewrite Z.add_0_l. split; [|done].
  destruct (all_booted needed); [|done]. rewrite map_map. apply map_id.
Qed.

Lemma start_fills_or_empties_witness :
  ∃ p, start 0 pool_default [Some "a"] = Ok p ∧ ids p = ["a"].
Proof.
  destruct (start 0 pool_default [Some "a"]) as [p|] eqn:E; [|by vm_compute in E].
  exists p. split; [done|].
  destruct (start_fills_or_empties 0 pool_default [Some "a"] p) as (_ & H & _);
    [cbn; lia | exact E | exact H].
Defined.

(** ** Clients and the maintenance task, interleaved *)

(** Where the maintenance task is: asleep, between the two sections of an
    eviction, before the autoscaler, before reading the number of idle machines,
    or with some machines still to boot. *)
Inductive loop_pc :=
  | LSleep
  | LEvicted (evicted_count after_count : Z)
  | LScale
  | LCheck
  | LReplenish (needed : nat)
  | LDone.

(** The shared pool, the task with its local target, and who has which machine:
    those handed to clients and those destroyed. *)
Record sys := {
  sys_pool : WarmPool;
  sys_pc : loop_pc;
  sys_min : Z;
  sys_held : list string;
  sys_gone : list string }.

Definition machines (s : sys) : list string := ids (sys_pool s) ++ sys_held s ++ sys_gone s.

Section system.
Context (config : PoolConfig).

(** The identifiers of new machines are fresh (random UUIDs). *)
Inductive pool_step : sys → sys → Prop :=
  | ps_acquire now p pc m held gone p' id :
      acquire now p = (p', Some id) →
      pool_step {| sys_pool := p; sys_pc := pc; sys_min := m; sys_held := held; sys_gone := gone |}
                {| sys_pool := p'; sys_pc := pc; sys_min := m; sys_held := id :: held; sys_gone := gone |}
  | ps_miss now p pc m held gone p' :
      acquire now p = (p', None) →
      pool_step {| sys_pool := p; sys_pc := pc; sys_min := m; sys_held := held; sys_gone := gone |}
                {| sys_pool := p'; sys_pc := pc; sys_min := m; sys_held := held; sys_gone := gone |}
  | ps_booted p pc m held gone id :
      id ∉ ids p ++ held ++ gone →
      pool_step {| sys_pool := p; sys_pc := pc; sys_min := m; sys_held := held; sys_gone := gone |}
                {| sys_pool := acquire_booted p; sys_pc := pc; sys_min := m;
                   sys_held := id :: held; sys_gone := gone |}
  | ps_release_kept now p pc m h1 h2 gone p' id :
      release now config id p = (p', true) →
      pool_step {| sys_pool := p; sys_pc := pc; sys_min := m; sys_held := h1 ++ id :: h2; sys_gone := gone |}
                {| sys_pool := p'; sys_pc := pc; sys_min := m; sys_held := h1 ++ h2; sys_gone := gone |}
  | ps_release_destroyed now p pc m h1 h2 gone p' id :
      release now config id p = (p', false) →
      pool_step {| sys_pool := p; sys_pc := pc; sys_min := m; sys_held := h1 ++ id :: h2; sys_gone := gone |}
                {| sys_pool := p'; sys_pc := pc; sys_min := m; sys_held := h1 ++ h2;
                   sys_gone := id :: gone |}
  | ps_evict now p m held gone p' expired :
      0 < idle_ttl_secs config → evict_take now (idle_ttl_secs config) p = (p', expired) →
      pool_step {| sys_pool := p; sys_pc := LSleep; sys_min := m; sys_held := held; sys_gone := gone |}
                {| sys_pool := p';
                   sys_pc := LEvicted (Z.of_nat (length expired)) (idle_len p');
                   sys_min := m; sys_held := held; sys_gone := map vm_id expired ++ gone |}
  | ps_no_evict p m held gone :
      idle_ttl_secs config = 0 →
      pool_step {| sys_pool := p; sys_pc := LSleep; sys_min := m; sys_held := held; sys_gone := gone |}
                {| sys_pool := p; sys_pc := LScale; sys_min := m; sys_held := held; sys_gone := gone |}
  | ps_evict_stats p n a m held gone :
      pool_step {| sys_pool := p; sys_pc := LEvicted n a; sys_min := m; sys_held := held; sys_gone := gone |}
                {| sys_pool := evict_stats n a p; sys_pc := LScale; sys_min := m;
                   sys_held := held; sys_gone := gone |}
  | ps_scale now p m held gone p' m' :
      autoscale now m p = (p', m') →
      pool_step {| sys_pool := p; sys_pc := LScale; sys_min := m; sys_held := held; sys_gone := gone |}
                {| sys_pool := p'; sys_pc := LCheck; sys_min := m'; sys_held := held; sys_gone := gone |}
  | ps_check p m held gone :
      pool_step {| sys_pool := p; sys_pc := LCheck; sys_min := m; sys_held := held; sys_gone := gone |}
                {| sys_pool := p;
                   sys_pc := if idle_len p <? m then LReplenish (Z.to_nat (m - idle_len p)) else LSleep;
                   sys_min := m; sys_held := held; sys_gone := gone |}
  | ps_replenished now p n m held gone id :
      id ∉ ids p ++ held ++ gone →
      pool_step {| sys_pool := p; sys_pc := LReplenish (S n); sys_min := m; sys_held := held; sys_gone := gone |}
                {| sys_pool := push_idle now id (count_created p); sys_pc := LReplenish n;
                   sys_min := m; sys_held := held; sys_gone := gone |}
  | ps_boot_failed p n m held gone :
      pool_step {| sys_pool := p; sys_pc := LReplenish (S n); sys_min := m; sys_held := held; sys_gone := gone |}
                {| sys_pool := p; sys_pc := LSleep; sys_min := m; sys_held := held; sys_gone := gone |}
  | ps_replenish_done p m held gone :
      pool_step {| sys_pool := p; sys_pc := LReplenish 0; sys_min := m; sys_held := held; sys_gone := gone |}
                {| sys_pool := p; sys_pc := LSleep; sys_min := m; sys_held := held; sys_gone := gone |}
  | ps_shutdown p m held gone :
      pool_step {| sys_pool := p; sys_pc := LSleep; sys_min := m; sys_held := held; sys_gone := gone |}
                {| sys_pool := p; sys_pc := LDone; sys_min := m; sys_held := held; sys_gone := gone |}
  | ps_drain p m held gone :
      pool_step {| sys_pool := p; sys_pc := LDone; sys_min := m; sys_held := held; sys_gone := gone |}
                {| sys_pool := drain p; sys_pc := LDone; sys_min := m; sys_held := held;
                   sys_gone := ids p ++ gone |}.

(** A started pool; what a failed fill booted is already destroyed. *)
Definition started (now : Z) (boots : list (option string)) (s : sys) : Prop :=
  ∃ p, start now config boots = Ok p ∧
    let needed := take (Z.to_nat (min_idle config)) boots in
    NoDup (booted needed) ∧
    s = {| sys_pool := p; sys_pc := LSleep; sys_min := min_idle config; sys_held := [];
           sys_gone := if all_booted needed then [] else booted needed |}.

Inductive reachable : sys → Prop :=
  | reach_start now boots s : started now boots s → reachable s
  | reach_step s s' : reachable s → pool_step s s' → reachable s'.
End system.

(** ** Every machine is in one place *)

Lemma acquire_Some now p p' id : acquire now p = (p', Some id) →
  ids p = ids p' ++ [id] ∧ total_created (wp_stats p') = total_created (wp_stats p) ∧
  wp_scaler p' = record_acquire now true <$> wp_scaler p.
Proof.
  unfold acquire, ids. destruct (reverse (wp_idle p)) as [|w rest] eqn:E; [done|].
  intros [= <- <-]. cbn. split; [|done].
  rewrite <-(reverse_involutive (wp_idle p)), E, reverse_cons, map_app. done.
Qed.

Lemma acquire_None now p p' : acquire now p = (p', None) →
  ids p = [] ∧ ids p' = ids p ∧ total_created (wp_stats p') = total_created (wp_stats p) ∧
  wp_scaler p' = record_acquire now false <$> wp_scaler p.
Proof.
  unfold acquire, ids. destruct (reverse (wp_idle p)) as [|w rest] eqn:E; [|done].
  intros [= <-]. cbn. split; [|done]. rewrite <-(reverse_involutive (wp_idle p)), E. done.
Qed.

Lemma release_spec now config id p p' b : release now config id p = (p', b) →
  wp_scaler p' = wp_scaler p ∧ total_created (wp_stats p') = total_created (wp_stats p) ∧
  if b then ids p' = ids p ++ [id] ∧ idle_len p < max_size config else p' = p.
Proof.
  unfold release. destruct (Z.leb_spec (max_size config) (idle_len p)); intros [= <- <-]; [done|].
  unfold ids. cbn. by rewrite map_app.
Qed.

Lemma filter_split {A} (f : A → bool) l :
  l ≡ₚ List.filter (λ x, negb (f x)) l ++ List.filter f l.
Proof.
  induction l as [|x l IH]; cbn [List.filter]; [done|].
  destruct (f x); cbn [negb app]; [|by constructor].
  rewrite <-Permutation_middle. by constructor.
Qed.

Lemma evict_take_spec now ttl p p' expired : evict_take now ttl p = (p', expired) →
  ids p ≡ₚ ids p' ++ map vm_id expired ∧ wp_stats p' = wp_stats p ∧ wp_scaler p' = wp_scaler p.
Proof.
  unfold evict_take. intros [= <- <-]. cbn [wp_stats wp_scaler]. split; [|done].
  unfold ids. cbn [wp_idle]. rewrite <-map_app. apply Permutation_map, filter_split.
Qed.

Lemma evict_stats_frame n a p : wp_idle (evict_stats n a p) = wp_idle p ∧
  total_created (wp_stats (evict_stats n a p)) = total_created (wp_stats p) ∧
  wp_scaler (evict_stats n a p) = wp_scaler p.
Proof. unfold evict_stats. by destruct (0 <? n). Qed.

Lemma autoscale_frame now m p p' m' : autoscale now m p = (p', m') →
  wp_idle p' = wp_idle p ∧ wp_stats p' = wp_stats p.
Proof.
  unfold autoscale. destruct (wp_scaler p) as [s|]; [|by intros [= <- <-]].
  destruct (evaluate now s). by intros [= <- <-].
Qed.

Lemma push_idle_ids now id p : ids (push_idle now id p) = ids p ++ [id].
Proof. unfold ids. cbn. by rewrite map_app. Qed.

(** A step moves machines between places, or adds one new machine. *)
Lemma step_machines config s s' : pool_step config s s' →
  (machines s' ≡ₚ machines s ∧
   total_created (wp_stats (sys_pool s')) = total_created (wp_stats (sys_pool s))) ∨
  (∃ id, (id ∉ machines s) ∧ (machines s' ≡ₚ id :: machines s) ∧
   total_created (wp_stats (sys_pool s')) = wrap 64 (total_created (wp_stats (sys_pool s)) + 1)).
Proof.
  intros Hs. destruct Hs as [now p pc m held gone p' id E|now p pc m held gone p' E|
    p pc m held gone id Hid|now p pc m h1 h2 gone p' id E|now p pc m h1 h2 gone p' id E|
    now p m held gone p' expired _ E|p m held gone _|p n a m held gone|now p m held gone p' m' E|
    p m held gone|now p n m held gone id Hid|p n m held gone|p m held gone|p m held gone|p m held gone];
    unfold machines; cbn [sys_pool sys_held sys_gone].
  - left. apply acquire_Some in E as (-> & -> & _). split; [solve_Permutation | done].
  - left. apply acquire_None in E as (_ & -> & -> & _). done.
  - right. exists id. split; [done|]. split; [|done].
    change (ids (acquire_booted p)) with (ids p). solve_Permutation.
  - left. apply release_spec in E as (_ & -> & -> & _). split; [solve_Permutation | done].
  - left. apply release_spec in E as (_ & _ & ->). split; [solve_Permutation | done].
  - left. apply evict_take_spec in E as (Hp & -> & _). split; [|done]. rewrite Hp. solve_Permutation.
  - by left.
  - left. destruct (evict_stats_frame n a p) as (Hi & -> & _). unfold ids. by rewrite Hi.
  - left. apply autoscale_frame in E as [Hi ->]. unfold ids. by rewrite Hi.
  - by left.
  - right. exists id. split; [done|]. rewrite push_idle_ids. split; [|done].
    change (ids (count_created p)) with (ids p). solve_Permutation.
  - by left.
  - by left.
  - by left.
  - left. split; [|done]. change (ids (drain p)) with (@nil string). solve_Permutation.
Qed.

Section invariants.
Context (config : PoolConfig).

Lemma started_pool now boots s : 0 ≤ min_idle config → started config now boots s →
  machines s ≡ₚ booted (take (Z.to_nat (min_idle config)) boots) ∧
  NoDup (booted (take (Z.to_nat (min_idle config)) boots)) ∧
  total_created (wp_stats (sys_pool s)) =
    wrap 64 (Z.of_nat (length (booted (take (Z.to_nat (min_idle config)) boots)))).
Proof.
  intros Hmin (p & E & Hnd & ->). unfold start in E.
  destruct (max_size config =? 0); [done|].
  destruct (max_size config <? min_idle config); [done|]. injection E as <-.
  unfold machines, ids. cbn [sys_pool sys_held sys_gone]. unfold fill_to_min, sat_sub.
  change (idle_len (empty_pool now config)) with 0.
  replace (Z.max 0 (min_idle config - 0)) with (min_idle config) by lia.
  set (needed := take _ boots) in *.
  destruct (fill_loop_spec now needed [] [] [] (empty_pool now config)) as (H1 & H2 & _);
    [done | done | by intros w Hw%not_elem_of_nil | by unfold in_range; cbn; lia |].
  cbv zeta in H1, H2. rewrite H1, H2. split; [|done].
  destruct (all_booted needed); cbn [app map]; [|done]. by rewrite map_map, map_id, app_nil_r.
Qed.

(** C4: however clients and the maintenance task interleave, every machine is in
    one place: no machine is handed to two clients, none is both idle and in use,
    none comes back after it was destroyed; and the number of machines created is
    the number of machines idle, in use or destroyed. *)
Theorem machines_in_one_place s :
  0 ≤ min_idle config → reachable config s →
  NoDup (machines s) ∧
  total_created (wp_stats (sys_pool s)) = wrap 64 (Z.of_nat (length (machines s))).
Proof.
  intros Hmin. induction 1 as [now boots s Hst|s s' Hr [IHn IHc] Hs].
  - apply started_pool in Hst as (Hp & Hn & Hc); [|done]. by rewrite Hp.
  - apply step_machines in Hs as [[Hp Hc]|(id & Hid & Hp & Hc)]; rewrite Hp, Hc, IHc.
    + done.
    + split; [by constructor|]. cbn [length]. rewrite wrap_add_l. f_equal. lia.
Qed.
End invariants.

(** ** The size of the pool *)

Definition pending (pc : loop_pc) : Z :=
  match pc with LReplenish n => Z.of_nat n | _ => 0 end.

Definition scaler_ok (limit : Z) (o : option PoolScaler) : Prop :=
  ∀ s, o = Some s → 0 ≤ ps_current_min_idle s ≤ limit ∧ ps_max_min_idle s ≤ limit.

(** The target never exceeds the size of the pool, and what is idle or on its
    way never exceeds it twice over. *)
Record size_inv (limit : Z) (s : sys) : Prop := {
  si_min : 0 ≤ sys_min s ≤ limit;
  si_scaler : scaler_ok limit (wp_scaler (sys_pool s));
  si_pending : pending (sys_pc s) ≤ limit;
  si_bound : idle_len (sys_pool s) + pending (sys_pc s) ≤ 2 * limit }.

Lemma idle_len_ids p : idle_len p = Z.of_nat (length (ids p)).
Proof. unfold idle_len, ids. by rewrite length_map. Qed.

Lemma scaler_ok_record limit now hit o :
  scaler_ok limit o → scaler_ok limit (record_acquire now hit <$> o).
Proof. intros Ho s'. destruct o as [s|]; cbn; [|done]. intros [= <-]. by apply (Ho s). Qed.

Lemma scaler_ok_evaluate limit now s s' d :
  in_range 64 limit → scaler_ok limit (Some s) → evaluate now s = (s', d) →
  scaler_ok limit (Some s').
Proof.
  intros Hl Hs E. destruct (Hs s eq_refl) as [Hc Hm].
  apply evaluate_spec in E as (_ & Em & Ed); [|unfold in_range in *; lia].
  intros ? [= <-]. rewrite Em. destruct d; lia.
Qed.

Section size.
Context (config : PoolConfig) (Hmin : 0 ≤ min_idle config) (Hmax : in_range 64 (max_size config)).

Lemma size_inv_start now boots s : started config now boots s → size_inv (max_size config) s.
Proof using Hmin Hmax.
  intros (p & E & _ & ->). unfold start in E. destruct (max_size config =? 0); [done|].
  destruct (Z.ltb_spec (max_size config) (min_idle config)); [done|]. injection E as <-.
  unfold fill_to_min, sat_sub. change (idle_len (empty_pool now config)) with 0.
  replace (Z.max 0 (min_idle config - 0)) with (min_idle config) by lia.
  set (needed := take _ boots).
  destruct (fill_loop_spec now needed [] [] [] (empty_pool now config)) as (H1 & _ & H3);
    [done | done | by intros w Hw%not_elem_of_nil | by unfold in_range; cbn; lia |].
  cbv zeta in H1, H3. unfold in_range in Hmax.
  assert (length (booted needed) ≤ Z.to_nat (min_idle config))%nat as Hb.
  { transitivity (length needed); [|unfold needed; rewrite length_take; lia].
    generalize needed. intros l. induction l as [|[id|] l IH]; cbn; lia. }
  split; cbn [sys_min sys_pool sys_pc pending]; [lia| |lia|].
  - rewrite H3. unfold empty_pool. cbn [wp_scaler]. intros s'.
    destruct (scaling_enabled (scaling config)); [|done]. intros [= <-]. cbn.
    destruct (Z.ltb_spec 0 (max_min_idle (scaling config))); lia.
  - unfold idle_len. rewrite H1. destruct (all_booted needed); cbn [app length]; [|lia].
    rewrite length_map. lia.
Qed.

Lemma size_inv_step s s' :
  size_inv (max_size config) s → pool_step config s s' → size_inv (max_size config) s'.
Proof using Hmax.
  intros [Hm Hsc Hp Hb] Hs. rewrite idle_len_ids in Hb. pose proof Hmax as [Hmax0 _].
  destruct Hs as [now p pc m held gone p' id E|now p pc m held gone p' E|
    p pc m held gone id Hid|now p pc m h1 h2 gone p' id E|now p pc m h1 h2 gone p' id E|
    now p m held gone p' expired _ E|p m held gone _|p n a m held gone|now p m held gone p' m' E|
    p m held gone|now p n m held gone id Hid|p n m held gone|p m held gone|p m held gone|p m held gone];
    cbn [sys_pool sys_min sys_pc pending] in *;
    (split; cbn [sys_pool sys_min sys_pc pending]; rewrite ?idle_len_ids; try done; try lia).
  - apply acquire_Some in E as (_ & _ & ->). by apply scaler_ok_record.
  - apply acquire_Some in E as (E & _ & _). rewrite E, length_app in Hb. cbn in Hb. lia.
  - apply acquire_None in E as (_ & _ & _ & ->). by apply scaler_ok_record.
  - apply acquire_None in E as (_ & -> & _). lia.
  - by apply release_spec in E as (-> & _).
  - apply release_spec in E as (_ & _ & -> & Hl). rewrite idle_len_ids in Hl.
    rewrite length_app. cbn [length]. lia.
  - by apply release_spec in E as (-> & _).
  - apply release_spec in E as (_ & _ & ->). lia.
  - by apply evict_take_spec in E as (_ & _ & ->).
  - apply evict_take_spec in E as (E & _ & _). rewrite E, length_app in Hb. lia.
  - by destruct (evict_stats_frame n a p) as (_ & _ & ->).
  - unfold ids. destruct (evict_stats_frame n a p) as (-> & _ & _). unfold ids in Hb. lia.
  - unfold autoscale in E. destruct (wp_scaler p) as [s|]; [|by injection E as <- <-].
    destruct (evaluate now s) as [s' d] eqn:Ee. injection E as <- <-.
    apply (scaler_ok_evaluate _ _ _ _ _ Hmax Hsc) in Ee. by destruct (Ee s' eq_refl).
  - unfold autoscale in E. destruct (wp_scaler p) as [s|] eqn:Es; [|injection E as <- <-; by rewrite Es].
    destruct (evaluate now s) as [s' d] eqn:Ee. injection E as <- <-.
    cbn [wp_scaler]. by apply (scaler_ok_evaluate _ _ _ _ _ Hmax Hsc) in Ee.
  - apply autoscale_frame in E as [Hi _]. unfold ids. rewrite Hi. unfold ids in Hb. lia.
  - destruct (Z.ltb_spec (Z.of_nat (length (ids p))) m); cbn [pending]; lia.
  - destruct (Z.ltb_spec (Z.of_nat (length (ids p))) m); cbn [pending]; lia.
  - rewrite push_idle_ids, length_app. cbn [length].
    change (ids (count_created p)) with (ids p). lia.
  - change (ids (drain p)) with (@nil string). cbn [length]. lia.
Qed.

(** The pool is bounded: the autoscaler's target never exceeds [max_size],
    and the idle machines, with those being booted to replenish them, never
    exceed twice [max_size]. *)
Theorem pool_bounded s : reachable config s →
  sys_min s ≤ max_size config ∧
  idle_len (sys_pool s) + pending (sys_pc s) ≤ 2 * max_size config.
Proof using Hmin Hmax.
  intros Hr. enough (size_inv (max_size config) s) as [? _ _ ?] by lia.
  induction Hr as [now boots s Hst|s s' Hr IH Hs]; [by eapply size_inv_start | by eapply size_inv_step].
Qed.
End size.

(** ** Two runs *)

Definition at_one (p : WarmPool) (pc : loop_pc) (held gone : list string) : sys :=
  {| sys_pool := p; sys_pc := pc; sys_min := 1; sys_held := held; sys_gone := gone |}.

Definition single : PoolConfig :=
  {| pool_enabled := true; min_idle := 1; max_size := 1; idle_ttl_secs := 0;
     scaling := scaling_default |}.

Definition taken_pool : WarmPool :=
  (acquire 0 (push_idle 0 "a" (count_created (empty_pool 0 single)))).1.
Definition overfull : sys :=
  at_one (push_idle 2 "b" (count_created (push_idle 1 "a" (count_released taken_pool))))
    (LReplenish 0) [] [].

Lemma reach_one_booted config : min_idle config = 1 → max_size config ≠ 0 → 1 ≤ max_size config →
  reachable config (at_one (push_idle 0 "a" (count_created (empty_pool 0 config))) LSleep [] []).
Proof.
  intros Hmin Hmax Hle. apply (reach_start _ 0 [Some "a"]). eexists.
  unfold start, fill_to_min. rewrite Hmin. rewrite (proj2 (Z.eqb_neq _ _) Hmax).
  destruct (Z.ltb_spec (max_size config) 1); [lia|].
  split; [reflexivity|]. split; [apply NoDup_singleton | reflexivity].
Qed.

(** A machine is released while the maintenance task boots its replacement: the
    task pushes without looking at the size again. *)
Lemma overfull_reachable : reachable single overfull.
Proof.
  apply (reach_step _ (at_one (push_idle 1 "a" (count_released taken_pool)) (LReplenish 1) [] [])).
  2: { apply (ps_replenished single 2). cbn. set_solver. }
  apply (reach_step _ (at_one taken_pool (LReplenish 1) ["a"] [])).
  2: { by apply (ps_release_kept single 1 taken_pool _ _ [] [] [] _ "a"). }
  apply (reach_step _ (at_one taken_pool LCheck ["a"] [])).
  2: { exact (ps_check single taken_pool 1 ["a"] []). }
  apply (reach_step _ (at_one taken_pool LScale ["a"] [])); [|by apply (ps_scale single 0)].
  apply (reach_step _ (at_one taken_pool LSleep ["a"] [])); [|by apply ps_no_evict].
  apply (reach_step _ (at_one (push_idle 0 "a" (count_created (empty_pool 0 single))) LSleep [] []));
    [by apply reach_one_booted | by apply (ps_acquire single 0)].
Qed.

(** The bound of twice [max_size] is attained: a pool of size one can hold
    two idle machines. *)
Theorem pool_overfills :
  ∃ s, reachable single s ∧ idle_len (sys_pool s) = 2 * max_size single.
Proof. exists overfull. split; [apply overfull_reachable | reflexivity]. Qed.

Lemma pool_bounded_witness :
  idle_len (sys_pool overfull) + pending (sys_pc overfull) ≤ 2 * max_size single.
Proof.
  apply (pool_bounded single); [cbn; lia | unfold in_range; cbn; lia | apply overfull_reachable].
Defined.

Lemma machines_in_one_place_witness : NoDup (machines overfull) ∧ machines overfull = ["a"; "b"].
Proof.
  split; [|reflexivity]. apply (machines_in_one_place single); [cbn; lia | apply overfull_reachable].
Defined.

Definition old_pool : WarmPool := push_idle 0 "a" (count_created (empty_pool 0 pool_default)).
Definition full_pool : WarmPool :=
  push_idle (from_secs 400) "b" (count_released (acquire_booted old_pool)).
Definition evicted_pool : WarmPool := (evict_take (from_secs 400) 300 full_pool).1.
Definition stale : sys :=
  at_one (evict_stats 1 1 (acquire (from_secs 401) evicted_pool).1) LScale ["b"] ["a"].

(** The count taken before the evicted machines are destroyed is written after:
    a machine acquired in between stays counted as idle. *)
Lemma stale_idle_count :
  reachable pool_default stale ∧ wp_idle (sys_pool stale) = [] ∧
  idle_count (wp_stats (sys_pool stale)) = 1.
Proof.
  split; [|split; reflexivity].
  apply (reach_step _ (at_one (acquire (from_secs 401) evicted_pool).1 (LEvicted 1 1) ["b"] ["a"]));
    [|by apply ps_evict_stats].
  apply (reach_step _ (at_one evicted_pool (LEvicted 1 1) [] ["a"]));
    [|by apply (ps_acquire pool_default (from_secs 401))].
  apply (reach_step _ (at_one full_pool LSleep [] [])).
  2: { apply (ps_evict pool_default (from_secs 400) full_pool 1 [] [] evicted_pool
                [{| vm_id := "a"; vm_created_at := 0 |}]); [cbn; lia | reflexivity]. }
  apply (reach_step _ (at_one (acquire_booted old_pool) LSleep ["b"] [])).
  2: { by apply (ps_release_kept pool_default (from_secs 400) (acquire_booted old_pool) LSleep 1
                   [] [] [] full_pool "b"). }
  apply (reach_step _ (at_one old_pool LSleep [] [])); [by apply reach_one_booted|].
  apply (ps_booted pool_default old_pool LSleep 1 [] [] "b"). cbn. set_solver.
Qed.
