(* ===== verification/Cri.v ===== *)
(** * Cri: pod sandboxes and containers of the CRI server

    [cri/src/container.rs], [cri/src/sandbox.rs] (the two stores in memory),
    [cri/src/state.rs] and [cri/src/persistent_store.rs] (the snapshot on disk),
    and from [cri/src/runtime_service/] the handlers that start, stop and remove
    containers and sandboxes, the exit supervisor and the reload after a
    restart.  The answers of virtual machines and workloads are the fields of
    [env]; events and the keys of the service's tables are part of the state. *)

From Stdlib Require Import ZArith Lia Ascii.
From stdpp Require Import base gmap strings list numbers sorting.
From S2P Require Import Prelude RustStr.

Local Open Scope Z_scope.

(** ** Data *)

Inductive ContainerState := Created | Running | Exited.

#[export] Instance ContainerState_eq_dec : EqDecision ContainerState.
Proof. solve_decision. Defined.

Record ContainerMount := {
  cm_container_path : string; cm_host_path : string; cm_readonly : bool;
  cm_selinux_relabel : bool; cm_propagation : Z }.

Record Container := {
  ct_id : string; ct_sandbox_id : string; ct_name : string; ct_attempt : Z;
  ct_image_ref : string; ct_resolved_image_digest : string; ct_resolved_image_path : string;
  ct_command : list string; ct_args : list string; ct_env : list (string * string);
  ct_working_dir : string; ct_user : option string; ct_stdin : bool; ct_stdin_once : bool;
  ct_tty : bool; ct_mounts : list ContainerMount; ct_state : ContainerState;
  ct_created_at : Z; ct_started_at : Z; ct_finished_at : Z; ct_exit_code : Z;
  ct_oom_killed : bool; ct_labels : gmap string string; ct_annotations : gmap string string;
  ct_log_path : string; ct_rootfs_path : string; ct_rootfs_guest_path : string }.

Inductive SandboxState := Ready | NotReady | Removed.

#[export] Instance SandboxState_eq_dec : EqDecision SandboxState.
Proof. solve_decision. Defined.

Record SandboxDns := {
  sd_servers : list string; sd_searches : list string; sd_options : list string }.

Record PodSandbox := {
  sb_id : string; sb_name : string; sb_namespace : string; sb_uid : string; sb_attempt : Z;
  sb_state : SandboxState; sb_created_at : Z; sb_labels : gmap string string;
  sb_annotations : gmap string string; sb_log_directory : string; sb_runtime_handler : string;
  sb_network_ip : string; sb_additional_ips : list string; sb_dns : SandboxDns;
  sb_container_ports : list Z }.

(** The fields the stores change. *)
Definition with_life (c : Container) (st : ContainerState) (started finished code : Z) (oom : bool)
    : Container :=
  {| ct_id := ct_id c; ct_sandbox_id := ct_sandbox_id c; ct_name := ct_name c;
     ct_attempt := ct_attempt c; ct_image_ref := ct_image_ref c;
     ct_resolved_image_digest := ct_resolved_image_digest c;
     ct_resolved_image_path := ct_resolved_image_path c; ct_command := ct_command c;
     ct_args := ct_args c; ct_env := ct_env c; ct_working_dir := ct_working_dir c;
     ct_user := ct_user c; ct_stdin := ct_stdin c; ct_stdin_once := ct_stdin_once c;
     ct_tty := ct_tty c; ct_mounts := ct_mounts c; ct_state := st;
     ct_created_at := ct_created_at c; ct_started_at := started; ct_finished_at := finished;
     ct_exit_code := code; ct_oom_killed := oom; ct_labels := ct_labels c;
     ct_annotations := ct_annotations c; ct_log_path := ct_log_path c;
     ct_rootfs_path := ct_rootfs_path c; ct_rootfs_guest_path := ct_rootfs_guest_path c |}.

Definition with_sb_state (sb : PodSandbox) (st : SandboxState) : PodSandbox :=
  {| sb_id := sb_id sb; sb_name := sb_name sb; sb_namespace := sb_namespace sb; sb_uid := sb_uid sb;
     sb_attempt := sb_attempt sb; sb_state := st; sb_created_at := sb_created_at sb;
     sb_labels := sb_labels sb; sb_annotations := sb_annotations sb;
     sb_log_directory := sb_log_directory sb; sb_runtime_handler := sb_runtime_handler sb;
     sb_network_ip := sb_network_ip sb; sb_additional_ips := sb_additional_ips sb;
     sb_dns := sb_dns sb; sb_container_ports := sb_container_ports sb |}.

(** ** Executing a container *)

Record ExecRequest := {
  er_cmd : list string; er_timeout_ns : Z; er_env : list string; er_working_dir : option string;
  er_rootfs : option string; er_stdin : option (list Z); er_stdin_streaming : bool;
  er_user : option string; er_streaming : bool }.

Definition non_empty (s : string) : option string := if is_empty s then None else Some s.

Definition status_image_ref (c : Container) : string :=
  if is_empty (ct_resolved_image_digest c) then ct_image_ref c else ct_resolved_image_digest c.

(** [None]: the resolved command is empty. *)
Definition to_exec_request (c : Container) (timeout_ns : Z) : option ExecRequest :=
  match ct_command c ++ ct_args c with
  | [] => None
  | cmd =>
      Some {| er_cmd := cmd; er_timeout_ns := timeout_ns;
              er_env := map (λ kv, kv.1 +:+ "=" +:+ kv.2) (ct_env c);
              er_working_dir := non_empty (ct_working_dir c);
              er_rootfs := non_empty (ct_rootfs_guest_path c);
              er_stdin := None; er_stdin_streaming := ct_stdin c; er_user := ct_user c;
              er_streaming := false |}
  end.

(** ** The container store *)
Module ContainerStore.

Abbreviation t := (gmap string Container).

Definition add (c : Container) (m : t) : t := <[ct_id c := c]> m.

(** [store.get_mut(id)], an update if the guard allows it, and whether it did. *)
Definition update_if (id : string) (guard : Container → bool) (f : Container → Container) (m : t)
    : t * bool :=
  match m !! id with
  | Some c => if guard c then (<[id := f c]> m, true) else (m, false)
  | None => (m, false)
  end.

Definition update_state (id : string) (st : ContainerState) : t → t * bool :=
  update_if id (λ _, true) (λ c,
    with_life c st (ct_started_at c) (ct_finished_at c) (ct_exit_code c) (ct_oom_killed c)).

Definition started (now : Z) (c : Container) : Container :=
  with_life c Running now (ct_finished_at c) (ct_exit_code c) (ct_oom_killed c).

Definition mark_started (id : string) (now : Z) : t → t * bool :=
  update_if id (λ _, true) (started now).

Definition mark_started_if_created (id : string) (now : Z) : t → t * bool :=
  update_if id (λ c, bool_decide (ct_state c = Created)) (started now).

Definition mark_exited (id : string) (now code : Z) : t → t * bool :=
  update_if id (λ _, true) (λ c, with_life c Exited (ct_started_at c) now code (ct_oom_killed c)).

Definition mark_exited_if_running (id : string) (now code : Z) (oom : bool) : t → t * bool :=
  update_if id (λ c, bool_decide (ct_state c = Running))
    (λ c, with_life c Exited (ct_started_at c) now code oom).

Definition remove (id : string) (m : t) : t * option Container := (delete id m, m !! id).

Definition matches (sandbox_id : option string) (filter : option (gmap string string))
    (c : Container) : bool :=
  match sandbox_id with Some sid => bool_decide (ct_sandbox_id c = sid) | None => true end
  && match filter with
     | Some f => bool_decide (map_Forall (λ k v, ct_labels c !! k = Some v) f)
     | None => true
     end.

Section iteration.
Context `{HashOrder}.

Definition list_containers (sandbox_id : option string) (filter : option (gmap string string)) (m : t)
    : list Container :=
  List.filter (matches sandbox_id filter) (hash_iter m).*2.

Definition remove_by_sandbox (sandbox_id : string) (m : t) : t * list Container :=
  let ids := map ct_id (list_containers (Some sandbox_id) None m) in
  (foldl (λ m id, delete id m) m ids,
   snd (foldl (λ acc id, let '(m, out) := acc in (delete id m, out ++ option_list (m !! id)))
          (m, []) ids)).
End iteration.
End ContainerStore.

(** ** The sandbox store *)
Module SandboxStore.

Abbreviation t := (gmap string PodSandbox).

Definition add (sb : PodSandbox) (m : t) : t := <[sb_id sb := sb]> m.
Definition remove (id : string) (m : t) : t * option PodSandbox := (delete id m, m !! id).

Definition update_state (id : string) (st : SandboxState) (m : t) : t * bool :=
  match m !! id with
  | Some sb => (<[id := with_sb_state sb st]> m, true)
  | None => (m, false)
  end.

Definition list_sandboxes `{HashOrder} (filter : option (gmap string string)) (m : t)
    : list PodSandbox :=
  List.filter (λ sb, match filter with
                     | Some f => bool_decide (map_Forall (λ k v, sb_labels sb !! k = Some v) f)
                     | None => true
                     end) (hash_iter m).*2.
End SandboxStore.

(** ** The snapshot on disk ([state.rs], [persistent_store.rs]) *)

Record PersistedState := { pd_sandboxes : list PodSandbox; pd_containers : list Container }.

(** The file: a snapshot, or bytes [serde_json] cannot decode. *)
Inductive cri_file := Snapshot (s : PersistedState) | Corrupt.

(** Whether the directory, the temporary file and the rename can be written,
    and whether the file can be read. *)
Record cri_io := { cio_write : bool; cio_read : bool }.
Definition cri_io_ok : cri_io := {| cio_write := true; cio_read := true |}.

Record CriStore := {
  cs_sandboxes : SandboxStore.t; cs_containers : ContainerStore.t; cs_disk : option cri_file }.

Definition new_cri : CriStore := {| cs_sandboxes := ∅; cs_containers := ∅; cs_disk := None |}.

Section store.
Context `{HashOrder} (o : cri_io).

(** [JsonStateStore::load], then the loops of [PersistentCriStore::load];
    [None] is an error. *)
Definition load_persisted (s : CriStore) : option CriStore :=
  match cs_disk s with
  | None => Some s
  | Some f =>
      if negb (cio_read o) then None
      else
        match f with
        | Corrupt => None
        | Snapshot p =>
            Some {| cs_sandboxes := foldl (λ m sb, SandboxStore.add sb m) (cs_sandboxes s) (pd_sandboxes p);
                    cs_containers := foldl (λ m c, ContainerStore.add c m) (cs_containers s) (pd_containers p);
                    cs_disk := cs_disk s |}
        end
  end.

(** [persist]; a failure is only logged. *)
Definition persist (s : CriStore) : CriStore :=
  if cio_write o
  then {| cs_sandboxes := cs_sandboxes s; cs_containers := cs_containers s;
          cs_disk := Some (Snapshot
            {| pd_sandboxes := SandboxStore.list_sandboxes None (cs_sandboxes s);
               pd_containers := ContainerStore.list_containers None None (cs_containers s) |}) |}
  else s.

Definition set_sandboxes (s : CriStore) (m : SandboxStore.t) : CriStore :=
  {| cs_sandboxes := m; cs_containers := cs_containers s; cs_disk := cs_disk s |}.
Definition set_containers (s : CriStore) (m : ContainerStore.t) : CriStore :=
  {| cs_sandboxes := cs_sandboxes s; cs_containers := m; cs_disk := cs_disk s |}.

Definition persist_if (b : bool) (s : CriStore) : CriStore := if b then persist s else s.

Definition add_sandbox (sb : PodSandbox) (s : CriStore) : CriStore :=
  persist (set_sandboxes s (SandboxStore.add sb (cs_sandboxes s))).

Definition update_sandbox_state (id : string) (st : SandboxState) (s : CriStore) : CriStore * bool :=
  let '(m, updated) := SandboxStore.update_state id st (cs_sandboxes s) in
  (persist_if updated (set_sandboxes s m), updated).

Definition remove_sandbox (id : string) (s : CriStore) : CriStore * option PodSandbox :=
  let '(m, removed) := SandboxStore.remove id (cs_sandboxes s) in
  (persist_if (bool_decide (is_Some removed)) (set_sandboxes s m), removed).

Definition add_container (c : Container) (s : CriStore) : CriStore :=
  persist (set_containers s (ContainerStore.add c (cs_containers s))).

(** The shape of the five [mark_container_*] methods. *)
Definition update_containers (f : ContainerStore.t → ContainerStore.t * bool) (s : CriStore)
    : CriStore * bool :=
  let '(m, updated) := f (cs_containers s) in (persist_if updated (set_containers s m), updated).

Definition mark_container_started (id : string) (now : Z) :=
  update_containers (ContainerStore.mark_started id now).
Definition mark_container_started_if_created (id : string) (now : Z) :=
  update_containers (ContainerStore.mark_started_if_created id now).
Definition mark_container_exited (id : string) (now code : Z) :=
  update_containers (ContainerStore.mark_exited id now code).
Definition mark_container_exited_if_running (id : string) (now code : Z) (oom : bool) :=
  update_containers (ContainerStore.mark_exited_if_running id now code oom).

Definition remove_container (id : string) (s : CriStore) : CriStore * option Container :=
  let '(m, removed) := ContainerStore.remove id (cs_containers s) in
  (persist_if (bool_decide (is_Some removed)) (set_containers s m), removed).

Definition remove_containers_by_sandbox (sandbox_id : string) (s : CriStore)
    : CriStore * list Container :=
  let '(m, removed) := ContainerStore.remove_by_sandbox sandbox_id (cs_containers s) in
  (persist_if (negb (match removed with [] => true | _ => false end)) (set_containers s m), removed).
End store.

(** ** The stores keep their keys *)

(** A record is stored under its own identifier. *)
Definition keyed (s : CriStore) : Prop :=
  map_Forall (λ k sb, sb_id sb = k) (cs_sandboxes s) ∧
  map_Forall (λ k c, ct_id c = k) (cs_containers s).

Lemma map_fst_values {A} (f : A → string) (l : list (string * A)) :
  (∀ k a, (k, a) ∈ l → f a = k) → map (λ a, (f a, a)) l.*2 = l.
Proof.
  induction l as [|[k a] l IH]; intros Hl; [done|]. cbn. rewrite (Hl k a) by (by left). f_equal.
  apply IH. intros k' a' Hin. apply Hl. by right.
Qed.

Lemma insert_all {A} (f : A → string) (l : list A) :
  foldl (λ (m : gmap string A) a, <[f a := a]> m) ∅ l
    = list_to_map (map (λ a, (f a, a)) (reverse l)).
Proof.
  rewrite <-(reverse_involutive l) at 1. rewrite foldl_reverse.
  induction (reverse l) as [|a k IH]; [done|]. cbn [foldr map list_to_map]. by rewrite IH.
Qed.

(** Inserting every value of a map under its key rebuilds the map. *)
Lemma rebuild_map `{HashOrder} {A} (f : A → string) (m : gmap string A) :
  map_Forall (λ k a, f a = k) m →
  foldl (λ m a, <[f a := a]> m) ∅ (hash_iter m).*2 = m.
Proof.
  intros Hm. rewrite insert_all, <-fmap_reverse, map_fst_values.
  - transitivity (list_to_map (map_to_list m) : gmap string A); [|apply list_to_map_to_list].
    apply list_to_map_proper.
    + rewrite reverse_Permutation, hash_iter_perm. apply NoDup_fst_map_to_list.
    + by rewrite reverse_Permutation, hash_iter_perm.
  - intros k a. rewrite elem_of_reverse, elem_of_hash_iter. by apply Hm.
Qed.

Lemma list_all_containers `{HashOrder} m :
  ContainerStore.list_containers None None m = (hash_iter m).*2.
Proof. apply filter_all. Qed.

Lemma list_all_sandboxes `{HashOrder} m :
  SandboxStore.list_sandboxes None m = (hash_iter m).*2.
Proof. apply filter_all. Qed.

Lemma elem_of_map_values `{HashOrder} {A} (m : gmap string A) a :
  a ∈ (hash_iter m).*2 ↔ ∃ k, m !! k = Some a.
Proof.
  rewrite list_elem_of_fmap. split.
  - intros ([k a'] & -> & Hin%elem_of_hash_iter). eauto.
  - intros [k Hk]. exists (k, a). by rewrite elem_of_hash_iter.
Qed.

Lemma elem_of_list_containers `{HashOrder} sid filter m c :
  c ∈ ContainerStore.list_containers sid filter m ↔
    ContainerStore.matches sid filter c = true ∧ ∃ k, m !! k = Some c.
Proof. unfold ContainerStore.list_containers. rewrite elem_of_filter_b, elem_of_map_values. tauto. Qed.

Lemma NoDup_listed_ids `{HashOrder} sid filter m :
  map_Forall (λ k c, ct_id c = k) m →
  NoDup (map ct_id (ContainerStore.list_containers sid filter m)).
Proof.
  intros Hm. apply NoDup_map_filter.
  assert (map ct_id (hash_iter m).*2 = hash_keys m) as ->; [|apply NoDup_hash_keys].
  unfold hash_keys. rewrite <-(map_fst_values ct_id (hash_iter m)) at 2.
  - induction (hash_iter m).*2 as [|c l IH]; [done|]. cbn. by rewrite IH.
  - intros k c Hin%elem_of_hash_iter. by apply Hm.
Qed.

Lemma delete_all_lookup {A} (l : list string) (m : gmap string A) k :
  foldl (λ m id, delete id m) m l !! k = if decide (k ∈ l) then None else m !! k.
Proof.
  revert m. induction l as [|x l IH]; intros m; cbn [foldl].
  { by rewrite decide_False by apply not_elem_of_nil. }
  rewrite IH. destruct (decide (k ∈ l)); [by rewrite decide_True by (by right)|].
  destruct (decide (k = x)) as [->|].
  - rewrite decide_True by (by left). apply lookup_delete_eq.
  - rewrite decide_False by (rewrite elem_of_cons; tauto). by apply lookup_delete_ne.
Qed.

Lemma collect_removed (l : list Container) (m : ContainerStore.t) out :
  NoDup (map ct_id l) → (∀ c, c ∈ l → m !! ct_id c = Some c) →
  snd (foldl (λ acc id, let '(m, out) := acc in (delete id m, out ++ option_list (m !! id)))
         (m, out) (map ct_id l)) = out ++ l.
Proof.
  revert m out. induction l as [|c l IH]; intros m out; cbn [map foldl]; [by rewrite app_nil_r|].
  intros [Hc Hnd]%list.NoDup_cons Hl. rewrite (Hl c) by (by left). rewrite IH; [|done|].
  - by rewrite <-app_assoc.
  - intros c' Hc'. rewrite lookup_delete_ne; [apply Hl; by right|].
    intros E. apply Hc. rewrite E. by apply (list_elem_of_fmap_2 ct_id).
Qed.

Section removal.
Context `{HashOrder}.

(** Removing a sandbox's containers removes exactly those. *)
Lemma remove_by_sandbox_spec sid m :
  map_Forall (λ k c, ct_id c = k) m →
  let '(m', removed) := ContainerStore.remove_by_sandbox sid m in
  removed = ContainerStore.list_containers (Some sid) None m ∧
  ∀ k, m' !! k = match m !! k with
                 | Some c => if decide (ct_sandbox_id c = sid) then None else Some c
                 | None => None
                 end.
Proof.
  intros Hm. unfold ContainerStore.remove_by_sandbox. split.
  - apply (collect_removed _ _ []); [by apply NoDup_listed_ids|].
    intros c (_ & k & Hk)%elem_of_list_containers. by rewrite (Hm _ _ Hk).
  - intros k. rewrite delete_all_lookup.
    assert (k ∈ map ct_id (ContainerStore.list_containers (Some sid) None m) ↔
            ∃ c, m !! k = Some c ∧ ct_sandbox_id c = sid) as Hiff.
    { rewrite list_elem_of_fmap. setoid_rewrite elem_of_list_containers.
      unfold ContainerStore.matches. setoid_rewrite andb_true_r. setoid_rewrite bool_decide_eq_true.
      split.
      - intros (c & -> & Hs & k' & Hk). exists c. by rewrite (Hm _ _ Hk).
      - intros (c & Hk & Hs). exists c. rewrite (Hm _ _ Hk). eauto. }
    destruct (decide (k ∈ _)) as [Hin|Hin]; [apply Hiff in Hin as (c & -> & Hs)|].
    + by rewrite decide_True.
    + destruct (m !! k) as [c|] eqn:Hk; [|done]. rewrite decide_False; [done|].
      intros Hs. apply Hin, Hiff. eauto.
Qed.
End removal.

(** ** Snapshots survive a restart *)

Inductive cri_op :=
  | OpAddSandbox (sb : PodSandbox)
  | OpSandboxState (id : string) (st : SandboxState)
  | OpRemoveSandbox (id : string)
  | OpAddContainer (c : Container)
  | OpStarted (id : string) (now : Z)
  | OpStartedIfCreated (id : string) (now : Z)
  | OpExited (id : string) (now code : Z)
  | OpExitedIfRunning (id : string) (now code : Z) (oom : bool)
  | OpRemoveContainer (id : string)
  | OpRemoveBySandbox (sid : string).

Section persistence.
Context `{HashOrder}.

Definition run_cri_op (s : CriStore) (e : cri_io * cri_op) : CriStore :=
  let o := e.1 in
  match e.2 with
  | OpAddSandbox sb => add_sandbox o sb s
  | OpSandboxState id st => (update_sandbox_state o id st s).1
  | OpRemoveSandbox id => (remove_sandbox o id s).1
  | OpAddContainer c => add_container o c s
  | OpStarted id now => (mark_container_started o id now s).1
  | OpStartedIfCreated id now => (mark_container_started_if_created o id now s).1
  | OpExited id now code => (mark_container_exited o id now code s).1
  | OpExitedIfRunning id now code oom => (mark_container_exited_if_running o id now code oom s).1
  | OpRemoveContainer id => (remove_container o id s).1
  | OpRemoveBySandbox sid => (remove_containers_by_sandbox o sid s).1
  end.

(** The file holds what memory holds. *)
Definition on_disk (s : CriStore) : Prop :=
  match cs_disk s with
  | None => cs_sandboxes s = ∅ ∧ cs_containers s = ∅
  | Some f => f = Snapshot
      {| pd_sandboxes := SandboxStore.list_sandboxes None (cs_sandboxes s);
         pd_containers := ContainerStore.list_containers None None (cs_containers s) |}
  end.

Lemma persist_on_disk o s : cio_write o = true → on_disk (persist o s).
Proof. intros Hw. unfold on_disk, persist. by rewrite Hw. Qed.

Lemma persist_maps o b s : cs_sandboxes (persist_if o b s) = cs_sandboxes s ∧
  cs_containers (persist_if o b s) = cs_containers s.
Proof. unfold persist_if, persist. by destruct b, (cio_write o). Qed.

(** A mutation that is persisted when it changes something keeps the file in
    step with memory. *)
Lemma persist_if_on_disk o b s s' :
  cio_write o = true → on_disk s → cs_disk s' = cs_disk s →
  (b = false → cs_sandboxes s' = cs_sandboxes s ∧ cs_containers s' = cs_containers s) →
  on_disk (persist_if o b s').
Proof.
  intros Hw Hs Hd Hb. destruct b; [by apply persist_on_disk|].
  destruct Hb as [E1 E2]; [done|]. unfold persist_if, on_disk in *. by rewrite Hd, E1, E2.
Qed.

Lemma update_if_false id g f m m' b :
  ContainerStore.update_if id g f m = (m', b) → b = false → m' = m.
Proof.
  unfold ContainerStore.update_if. destruct (m !! id) as [c|]; [destruct (g c)|]; by intros [= <- <-].
Qed.

Lemma update_if_keyed id g f m m' b :
  map_Forall (λ k c, ct_id c = k) m → (∀ c, ct_id (f c) = ct_id c) →
  ContainerStore.update_if id g f m = (m', b) → map_Forall (λ k c, ct_id c = k) m'.
Proof.
  intros Hm Hf. unfold ContainerStore.update_if. destruct (m !! id) as [c|] eqn:E.
  - destruct (g c); intros [= <- <-]; [|done]. apply map_Forall_insert_2; [|done].
    rewrite Hf. by apply Hm.
  - by intros [= <- <-].
Qed.

Lemma update_containers_ok o g f id s :
  (∀ c, ct_id (f c) = ct_id c) → keyed s →
  let s' := (update_containers o (ContainerStore.update_if id g f) s).1 in
  keyed s' ∧ (cio_write o = true → on_disk s → on_disk s').
Proof.
  intros Hf [Hsb Hct]. unfold update_containers.
  destruct (ContainerStore.update_if id g f (cs_containers s)) as [m b] eqn:E. cbn [fst]. split.
  - destruct (persist_maps o b (set_containers s m)) as [E1 E2]. unfold keyed. rewrite E1, E2.
    split; [done|]. by eapply update_if_keyed.
  - intros Hw Hd. eapply persist_if_on_disk; [done | exact Hd | done |].
    intros ->. by rewrite (update_if_false _ _ _ _ _ _ E eq_refl).
Qed.

Lemma run_cri_op_ok s e :
  keyed s → keyed (run_cri_op s e) ∧
  (cio_write e.1 = true → on_disk s → on_disk (run_cri_op s e)).
Proof.
  intros Hk. destruct e as [o op]. destruct op; cbn [run_cri_op fst snd];
    try (apply update_containers_ok; [done | exact Hk]); destruct Hk as [Hsb Hct].
  - unfold add_sandbox. fold (persist_if o true (set_sandboxes s (SandboxStore.add sb (cs_sandboxes s)))).
    split; [|intros; by apply persist_on_disk].
    unfold keyed. destruct (persist_maps o true (set_sandboxes s (SandboxStore.add sb (cs_sandboxes s)))) as [-> ->].
    split; [|done]. by apply map_Forall_insert_2.
  - unfold update_sandbox_state, SandboxStore.update_state.
    destruct (cs_sandboxes s !! id) as [sb|] eqn:E; cbn [fst].
    + unfold keyed. destruct (persist_maps o true (set_sandboxes s (<[id := with_sb_state sb st]> (cs_sandboxes s))))
        as [-> ->]. split; [|intros; by apply persist_on_disk].
      split; [|done]. apply map_Forall_insert_2; [by apply (Hsb _ _ E) | done].
    + by destruct s.
  - unfold remove_sandbox, SandboxStore.remove. cbn [fst]. unfold keyed.
    destruct (persist_maps o (bool_decide (is_Some (cs_sandboxes s !! id)))
      (set_sandboxes s (delete id (cs_sandboxes s)))) as [-> ->]. split.
    + split; [|done]. by apply map_Forall_delete.
    + intros Hw Hd. eapply persist_if_on_disk; [done | exact Hd | done |].
      intros Hn%bool_decide_eq_false%eq_None_not_Some. cbn. by rewrite delete_id.
  - unfold add_container. fold (persist_if o true (set_containers s (ContainerStore.add c (cs_containers s)))).
    split; [|intros; by apply persist_on_disk].
    unfold keyed. destruct (persist_maps o true (set_containers s (ContainerStore.add c (cs_containers s)))) as [-> ->].
    split; [done|]. by apply map_Forall_insert_2.
  - unfold remove_container, ContainerStore.remove. cbn [fst]. unfold keyed.
    destruct (persist_maps o (bool_decide (is_Some (cs_containers s !! id)))
      (set_containers s (delete id (cs_containers s)))) as [-> ->]. split.
    + split; [done|]. by apply map_Forall_delete.
    + intros Hw Hd. eapply persist_if_on_disk; [done | exact Hd | done |].
      intros Hn%bool_decide_eq_false%eq_None_not_Some. cbn. by rewrite delete_id.
  - unfold remove_containers_by_sandbox. pose proof (remove_by_sandbox_spec sid _ Hct) as Hspec.
    destruct (ContainerStore.remove_by_sandbox sid (cs_containers s)) as [m removed].
    destruct Hspec as [Hrem Hm]. cbn [fst]. unfold keyed.
    destruct (persist_maps o (negb match removed with [] => true | _ => false end)
      (set_containers s m)) as [-> ->]. split.
    + split; [done|]. intros k c Hc. cbn in Hc. rewrite Hm in Hc.
      destruct (cs_containers s !! k) as [c'|] eqn:E; [|done].
      destruct (decide _); [done|]. injection Hc as <-. by apply (Hct _ _ E).
    + intros Hw Hd. eapply persist_if_on_disk; [done | exact Hd | done |].
      destruct removed as [|c removed]; [intros _ | done]. cbn. split; [done|].
      apply map_eq. intros k. rewrite Hm. destruct (cs_containers s !! k) as [c|] eqn:E; [|done].
      rewrite decide_False; [done|]. intros Hs.
      assert (c ∈ ContainerStore.list_containers (Some sid) None (cs_containers s)) as Hin.
      { apply elem_of_list_containers. split; [|eauto]. unfold ContainerStore.matches.
        by rewrite andb_true_r, bool_decide_eq_true. }
      rewrite <-Hrem in Hin. by apply not_elem_of_nil in Hin.
Qed.

(** A restart restores the state: after any sequence of mutations whose
    snapshots could be written, a fresh server that loads the file has exactly
    the sandboxes and containers the old one had. *)
Theorem restart_restores es :
  Forall (λ e, cio_write e.1 = true) es →
  let s := foldl run_cri_op new_cri es in
  load_persisted cri_io_ok {| cs_sandboxes := ∅; cs_containers := ∅; cs_disk := cs_disk s |} = Some s.
Proof.
  intros Hes. set (s := foldl run_cri_op new_cri es).
  assert (keyed s ∧ on_disk s) as [Hk Hd].
  { unfold s. clear s. induction es as [|e es IH] using rev_ind; [done|].
    rewrite foldl_app. cbn [foldl]. apply Forall_app in Hes as [Hes [He _]%list.Forall_cons].
    destruct (IH Hes) as [Hk Hd]. destruct (run_cri_op_ok (foldl run_cri_op new_cri es) e Hk). auto. }
  cbv zeta. destruct s as [sbs cts disk]. unfold on_disk in Hd. destruct Hk as [Hsb Hct].
  unfold load_persisted. cbn [cs_disk cs_sandboxes cs_containers cio_read cri_io_ok negb] in *.
  destruct disk as [f|]; [|by destruct Hd as [-> ->]]. subst f. cbn [pd_sandboxes pd_containers].
  rewrite list_all_sandboxes, list_all_containers. unfold SandboxStore.add, ContainerStore.add.
  by rewrite (rebuild_map sb_id), (rebuild_map ct_id).
Qed.
End persistence.

(** ** Containers only move forward *)

Definition rank (st : ContainerState) : nat :=
  match st with Created => 0 | Running => 1 | Exited => 2 end.

(** An operation the service issues that does not create container [id]:
    [mark_container_started] is not used, and identifiers are not reused. *)
Definition leaves (id : string) (op : cri_op) : Prop :=
  match op with
  | OpStarted _ _ => False
  | OpAddContainer c => ct_id c ≠ id
  | _ => True
  end.

(** What one container becomes. *)
Definition advances (m m' : ContainerStore.t) (id : string) : Prop :=
  ∀ c', m' !! id = Some c' →
    ∃ c, m !! id = Some c ∧ (rank (ct_state c) ≤ rank (ct_state c'))%nat ∧
         ct_sandbox_id c' = ct_sandbox_id c.

Lemma advances_refl m id : advances m m id.
Proof. intros c' Hc'. eauto. Qed.

Lemma advances_trans m1 m2 m3 id : advances m1 m2 id → advances m2 m3 id → advances m1 m3 id.
Proof.
  intros H12 H23 c3 (c2 & (c1 & Hc1 & ? & ?)%H12 & ? & ?)%H23. exists c1.
  split; [done|]. split; [lia | congruence].
Qed.

Lemma update_if_advances id g f m id' :
  (∀ c, g c = true → (rank (ct_state c) ≤ rank (ct_state (f c)))%nat ∧
                     ct_sandbox_id (f c) = ct_sandbox_id c) →
  advances m (ContainerStore.update_if id g f m).1 id'.
Proof.
  intros Hf. unfold ContainerStore.update_if. destruct (m !! id) as [c|] eqn:E; [|apply advances_refl].
  destruct (g c) eqn:Hg; [|apply advances_refl]. intros c'. cbn [fst].
  destruct (decide (id = id')) as [<-|]; [|rewrite lookup_insert_ne by done; by apply advances_refl].
  rewrite lookup_insert_eq. intros [= <-]. exists c. split; [done|]. by apply Hf.
Qed.

Section forward.
Context `{HashOrder}.

Lemma update_containers_map o f s :
  cs_containers (update_containers o f s).1 = (f (cs_containers s)).1.
Proof.
  unfold update_containers. destruct (f (cs_containers s)) as [m b]. cbn [fst].
  by destruct (persist_maps o b (set_containers s m)) as [_ ->].
Qed.

Lemma run_cri_op_advances s e id :
  keyed s → leaves id e.2 → advances (cs_containers s) (cs_containers (run_cri_op s e)) id.
Proof.
  intros [_ Hct]. destruct e as [o op]; destruct op; cbn [run_cri_op fst snd leaves]; intros Hl.
  - unfold add_sandbox, persist. destruct (cio_write o); apply advances_refl.
  - unfold update_sandbox_state. destruct (SandboxStore.update_state _ _ _) as [m b]. cbn [fst].
    destruct (persist_maps o b (set_sandboxes s m)) as [_ ->]. apply advances_refl.
  - unfold remove_sandbox, SandboxStore.remove. cbn [fst].
    destruct (persist_maps o (bool_decide (is_Some (cs_sandboxes s !! id0)))
      (set_sandboxes s (delete id0 (cs_sandboxes s)))) as [_ ->]. apply advances_refl.
  - unfold add_container.
    change (advances (cs_containers s) (cs_containers (persist_if o true
      (set_containers s (ContainerStore.add c (cs_containers s))))) id).
    destruct (persist_maps o true (set_containers s (ContainerStore.add c (cs_containers s)))) as [_ ->].
    intros c'. cbn. unfold ContainerStore.add. rewrite lookup_insert_ne by done. by apply advances_refl.
  - done.
  - unfold mark_container_started_if_created. rewrite update_containers_map.
    apply update_if_advances. intros c Hc%bool_decide_eq_true. cbn. rewrite Hc. cbn. split; [lia|done].
  - unfold mark_container_exited. rewrite update_containers_map.
    apply update_if_advances. intros c _. cbn. split; [destruct (ct_state c); cbn; lia | done].
  - unfold mark_container_exited_if_running. rewrite update_containers_map.
    apply update_if_advances. intros c _. cbn. split; [destruct (ct_state c); cbn; lia | done].
  - unfold remove_container, ContainerStore.remove. cbn [fst].
    destruct (persist_maps o (bool_decide (is_Some (cs_containers s !! id0)))
      (set_containers s (delete id0 (cs_containers s)))) as [_ ->]. cbn.
    intros c' [_ Hc']%lookup_delete_Some. eauto.
  - unfold remove_containers_by_sandbox. pose proof (remove_by_sandbox_spec sid _ Hct) as Hspec.
    destruct (ContainerStore.remove_by_sandbox sid (cs_containers s)) as [m removed].
    destruct Hspec as [_ Hm]. cbn [fst].
    destruct (persist_maps o (negb match removed with [] => true | _ => false end)
      (set_containers s m)) as [_ ->]. cbn. intros c'. rewrite Hm.
    destruct (cs_containers s !! id) as [c|]; [|done]. destruct (decide _); [done|].
    intros [= <-]. eauto.
Qed.

Lemma run_cri_advances es s id :
  keyed s → Forall (λ e, leaves id e.2) es →
  keyed (foldl run_cri_op s es) ∧
  advances (cs_containers s) (cs_containers (foldl run_cri_op s es)) id.
Proof.
  intros Hk. induction es as [|e es IH] using rev_ind; intros Hes; [by split; [|apply advances_refl]|].
  apply Forall_app in Hes as [Hes [He _]%list.Forall_cons]. rewrite foldl_app. cbn [foldl].
  destruct (IH Hes) as [Hk' Ha]. split; [by apply run_cri_op_ok|].
  eapply advances_trans; [exact Ha|]. by apply run_cri_op_advances.
Qed.

Lemma update_if_result id g f m :
  (ContainerStore.update_if id g f m).2 = true →
  ∃ c, m !! id = Some c ∧ g c = true ∧ (ContainerStore.update_if id g f m).1 !! id = Some (f c).
Proof.
  unfold ContainerStore.update_if. destruct (m !! id) as [c|]; [|done].
  destruct (g c) eqn:Hg; [|done]. intros _. exists c. cbn [fst]. by rewrite lookup_insert_eq.
Qed.

(** A container starts and exits once: however the handlers and the
    supervisor interleave their store operations, once a start (or an exit of a
    running container) was recorded for a container, no later one is, so
    the corresponding events are published at most once. *)
Theorem lifecycle_published_once o o' id now now' code code' oom oom' s s' es :
  keyed s → Forall (λ e, leaves id e.2) es →
  (mark_container_started_if_created o id now s = (s', true) →
   (mark_container_started_if_created o' id now' (foldl run_cri_op s' es)).2 = false) ∧
  (mark_container_exited_if_running o id now code oom s = (s', true) →
   (mark_container_exited_if_running o' id now' code' oom' (foldl run_cri_op s' es)).2 = false ∧
   (mark_container_started_if_created o' id now' (foldl run_cri_op s' es)).2 = false).
Proof.
  intros Hk Hes.
  assert (Hres : ∀ o f s, (update_containers o f s).2 = (f (cs_containers s)).2).
  { intros ? f s1. unfold update_containers. by destruct (f (cs_containers s1)). }
  assert (Hk' : ∀ g f, (∀ c, ct_id (f c) = ct_id c) →
    update_containers o (ContainerStore.update_if id g f) s = (s', true) →
    keyed s' ∧ (ContainerStore.update_if id g f (cs_containers s)).2 = true ∧
    cs_containers s' = (ContainerStore.update_if id g f (cs_containers s)).1).
  { intros g f Hf E. pose proof (Hres o (ContainerStore.update_if id g f) s) as H2.
    pose proof (update_containers_map o (ContainerStore.update_if id g f) s) as H1.
    pose proof (update_containers_ok o g f id s Hf Hk) as [H3 _]. rewrite E in H1, H2, H3. done. }
  split; intros E; unfold mark_container_started_if_created, mark_container_exited_if_running in *.
  - rewrite Hres. apply Hk' in E as (Hks & Hr & Hm); [|done].
    destruct (run_cri_advances es s' id Hks Hes) as [_ Ha]. apply not_true_iff_false.
    intros (c' & Hc' & Hg'%bool_decide_eq_true & _)%update_if_result.
    apply update_if_result in Hr as (c & _ & _ & Hc).
    destruct (Ha c' Hc') as (c0 & Hc0 & Hle & _). rewrite Hm, Hc in Hc0. injection Hc0 as <-.
    rewrite Hg' in Hle. cbn in Hle. lia.
  - rewrite !Hres. apply Hk' in E as (Hks & Hr & Hm); [|done].
    destruct (run_cri_advances es s' id Hks Hes) as [_ Ha].
    apply update_if_result in Hr as (c & _ & _ & Hc).
    split; apply not_true_iff_false; intros (c' & Hc' & Hg'%bool_decide_eq_true & _)%update_if_result;
      destruct (Ha c' Hc') as (c0 & Hc0 & Hle & _); rewrite Hm, Hc in Hc0; injection Hc0 as <-;
      rewrite Hg' in Hle; cbn in Hle; lia.
Qed.
End forward.

(** ** The service ([runtime_service/]) *)

Inductive cri_event :=
  | CreatedEvent (id : string) (reason : string)
  | StartedEvent (id : string) (reason : string)
  | StoppedEvent (id : string) (reason : string)
  | DeletedEvent (id : string) (reason : string).

(** The stores, the keys of [vm_managers] and of [workload_stops], and the
    events published.  The other per-container tables (attach streams, standard
    inputs, log handles) follow [workload_stops]. *)
Record Svc := {
  sv_store : CriStore; sv_vms : gset string; sv_stops : gset string; sv_events : list cri_event }.

Inductive status :=
  | NotFound (id : string)
  | AlreadyRunning (id : string)
  | AlreadyExited (id : string)
  | ImageUnavailable (id : string)
  | EmptyCommand (id : string)
  | SandboxNotRunning (id : string)
  | WorkloadFailed (id : string)
  | NoLongerCreated (id : string)
  | OthersRunning (id : string)
  | SandboxReady (id : string)
  | DestroyFailed (id : string).

(** What the outside answers during one call. *)
Record env := {
  env_now : Z;
  env_io : cri_io;
  env_image_ok : string → bool;      (* the resolved image is present *)
  env_vm_ready : string → bool;      (* the machine and its sockets are ready *)
  env_starts : string → bool;        (* the guest starts the workload *)
  env_exit : string → option (Z * Z * bool);  (* exit within the wait: time, code, oom *)
  env_destroy_ok : string → bool }.  (* destroying the sandbox's machine succeeds *)

Definition with_store (s : Svc) (st : CriStore) : Svc :=
  {| sv_store := st; sv_vms := sv_vms s; sv_stops := sv_stops s; sv_events := sv_events s |}.
Definition emit (s : Svc) (e : cri_event) : Svc :=
  {| sv_store := sv_store s; sv_vms := sv_vms s; sv_stops := sv_stops s;
     sv_events := sv_events s ++ [e] |}.
Definition forget_workload (s : Svc) (id : string) : Svc :=
  {| sv_store := sv_store s; sv_vms := sv_vms s; sv_stops := sv_stops s ∖ {[id]};
     sv_events := sv_events s |}.

Definition container_of (s : Svc) (id : string) : option Container :=
  cs_containers (sv_store s) !! id.
Definition sandbox_of (s : Svc) (id : string) : option PodSandbox :=
  cs_sandboxes (sv_store s) !! id.

Section service.
Context `{HashOrder} (e : env).

Definition mark_exited_event (id : string) (code : Z) (reason : string) (s : Svc) : Svc :=
  let '(st, updated) := mark_container_exited (env_io e) id (env_now e) code (sv_store s) in
  let s := with_store s st in
  if updated then emit s (StoppedEvent id reason) else s.

Definition mark_exited_if_running_event (id : string) (now code : Z) (oom : bool) (reason : string)
    (s : Svc) : Svc :=
  let '(st, updated) := mark_container_exited_if_running (env_io e) id now code oom (sv_store s) in
  let s := with_store s st in
  if updated then emit s (StoppedEvent id reason) else s.

(** The end of the exit supervisor; a negative code becomes 255. *)
Definition supervisor_exit (id : string) (now code : Z) (oom : bool) (s : Svc) : Svc :=
  forget_workload
    (mark_exited_if_running_event id now (if code <? 0 then 255 else code) oom "ContainerStopped" s) id.

(** The stop signal, then the wait for the supervisor to record the exit. *)
Definition stop_container_workload (c : Container) (s : Svc) : Svc * bool :=
  if decide (ct_id c ∈ sv_stops s) then
    let s := forget_workload s (ct_id c) in
    let s := match env_exit e (ct_id c) with
             | Some (now, code, oom) => supervisor_exit (ct_id c) now code oom s
             | None => s
             end in
    (s, match container_of s (ct_id c) with
        | Some c => bool_decide (ct_state c = Exited)
        | None => true
        end)
  else (s, false).

Definition has_other_running_containers (c : Container) (s : Svc) : bool :=
  existsb (λ other, bool_decide (ct_id other ≠ ct_id c) && bool_decide (ct_state other = Running))
    (ContainerStore.list_containers (Some (ct_sandbox_id c)) None (cs_containers (sv_store s))).

(** The machine leaves the table even when destroying it fails. *)
Definition destroy_sandbox_vm (sid : string) (s : Svc) : Svc * result status bool :=
  if decide (sid ∈ sv_vms s) then
    ({| sv_store := sv_store s; sv_vms := sv_vms s ∖ {[sid]}; sv_stops := sv_stops s;
        sv_events := sv_events s |},
     if env_destroy_ok e sid then Ok true else Err (DestroyFailed sid))
  else (s, Ok false).

Definition set_sandbox_state (sid : string) (st : SandboxState) (s : Svc) : Svc :=
  with_store s (update_sandbox_state (env_io e) sid st (sv_store s)).1.

Definition stop_container_vm (c : Container) (s : Svc) : Svc * result status () :=
  let '(s, r) := destroy_sandbox_vm (ct_sandbox_id c) s in
  match r with
  | Err x => (s, Err x)
  | Ok _ => (set_sandbox_state (ct_sandbox_id c) NotReady s, Ok ())
  end.

Definition start_container (id : string) (s : Svc) : Svc * result status () :=
  match container_of s id with
  | None => (s, Err (NotFound id))
  | Some c =>
      match ct_state c with
      | Running => (s, Err (AlreadyRunning id))
      | Exited => (s, Err (AlreadyExited id))
      | Created =>
          if negb (env_image_ok e id) then (s, Err (ImageUnavailable id))
          else
            match to_exec_request c (2 ^ 64 - 1) with
            | None => (s, Err (EmptyCommand id))
            | Some _ =>
                if negb (bool_decide (ct_sandbox_id c ∈ sv_vms s) && env_vm_ready e (ct_sandbox_id c))
                then (s, Err (SandboxNotRunning (ct_sandbox_id c)))
                else if negb (env_starts e id) then (s, Err (WorkloadFailed id))
                else
                  let '(st, started) :=
                    mark_container_started_if_created (env_io e) id (env_now e) (sv_store s) in
                  let s := with_store s st in
                  if started
                  then (emit {| sv_store := sv_store s; sv_vms := sv_vms s;
                                sv_stops := {[id]} ∪ sv_stops s; sv_events := sv_events s |}
                          (StartedEvent id "ContainerStarted"), Ok ())
                  else (s, Err (NoLongerCreated id))
            end
      end
  end.

Definition stop_container (id : string) (s : Svc) : Svc * result status () :=
  match container_of s id with
  | None => (s, Err (NotFound id))
  | Some c =>
      match ct_state c with
      | Exited => (s, Ok ())
      | Created => (forget_workload (mark_exited_event id 0 "StopContainer" s) id, Ok ())
      | Running =>
          let '(s, stopped) := stop_container_workload c s in
          if stopped then (forget_workload s id, Ok ())
          else if has_other_running_containers c s then (s, Err (OthersRunning id))
          else
            let '(s, r) := stop_container_vm c s in
            match r with
            | Err x => (s, Err x)
            | Ok _ =>
                (forget_workload
                   (mark_exited_if_running_event id (env_now e) 137 false "StopContainer" s) id, Ok ())
            end
      end
  end.

Definition remove_container_request (id : string) (s : Svc) : Svc * result status () :=
  match container_of s id with
  | None => (s, Ok ())
  | Some c =>
      let '(s, r) := if bool_decide (ct_state c = Running) then stop_container id s else (s, Ok ()) in
      match r with
      | Err x => (s, Err x)
      | Ok _ =>
          let '(st, removed) := remove_container (env_io e) id (sv_store s) in
          let s := with_store s st in
          match removed with
          | Some _ => (emit (forget_workload s id) (DeletedEvent id "ContainerDeleted"), Ok ())
          | None => (s, Ok ())
          end
      end
  end.

(** The two loops of [StopPodSandbox]; the workloads are stopped concurrently,
    each touching its own container. *)
Definition stop_workloads (cs : list Container) (s : Svc) : Svc :=
  foldl (λ s c, (stop_container_workload c s).1) s cs.
Definition mark_all_exited (code : Z) (reason : string) (cs : list Container) (s : Svc) : Svc :=
  foldl (λ s c, if bool_decide (ct_state c = Exited) then s
                else mark_exited_event (ct_id c) code reason s) s cs.

Definition containers_in (sid : string) (s : Svc) : list Container :=
  ContainerStore.list_containers (Some sid) None (cs_containers (sv_store s)).

Definition stop_all_containers (sid : string) (s : Svc) : Svc :=
  let running := List.filter (λ c, bool_decide (ct_state c = Running)) (containers_in sid s) in
  let s := stop_workloads running s in
  let cs := containers_in sid s in
  let s := mark_all_exited 137 "StopPodSandbox" cs s in
  foldl (λ s c, forget_workload s (ct_id c)) s cs.

Definition stop_pod_sandbox (sid : string) (s : Svc) : Svc * result status () :=
  match sandbox_of s sid with
  | None => (s, Err (NotFound sid))
  | Some sb =>
      if bool_decide (sb_state sb ≠ Ready) then (s, Ok ())
      else
        let '(s, r) := destroy_sandbox_vm sid (stop_all_containers sid s) in
        match r with
        | Err x => (s, Err x)
        | Ok _ => (set_sandbox_state sid NotReady s, Ok ())
        end
  end.

Definition remove_pod_sandbox (sid : string) (s : Svc) : Svc * result status () :=
  match sandbox_of s sid with
  | None => (s, Ok ())
  | Some sb =>
      if bool_decide (sb_state sb = Ready) then (s, Err (SandboxReady sid))
      else
        let '(s, r) := destroy_sandbox_vm sid s in
        match r with
        | Err x => (s, Err x)
        | Ok _ =>
            let '(st, removed) := remove_containers_by_sandbox (env_io e) sid (sv_store s) in
            let s := foldl (λ s c, emit (forget_workload s (ct_id c)) (DeletedEvent (ct_id c) "ContainerDeleted"))
                       (with_store s st) removed in
            (with_store s (remove_sandbox (env_io e) sid (sv_store s)).1, Ok ())
        end
  end.

(** The reload after a restart: what is loaded without a live machine is reconciled. *)
Definition reconcile_sandboxes (sbs : list PodSandbox) (s : Svc) : Svc :=
  foldl (λ s sb, if decide (sb_id sb ∈ sv_vms s) then s
                 else set_sandbox_state (sb_id sb) NotReady s) s sbs.
Definition reconcile_containers (cs : list Container) (s : Svc) : Svc :=
  foldl (λ s c,
    if bool_decide (ct_sandbox_id c ∉ sv_vms s) && bool_decide (ct_state c ≠ Exited)
    then with_store s (mark_container_exited (env_io e) (ct_id c) (env_now e) 255 (sv_store s)).1
    else s) s cs.

Definition load_cri_state (s : Svc) : Svc :=
  match load_persisted (env_io e) (sv_store s) with
  | None => s
  | Some st =>
      let s := with_store s st in
      let s := reconcile_sandboxes (SandboxStore.list_sandboxes None (cs_sandboxes (sv_store s))) s in
      reconcile_containers (ContainerStore.list_containers None None (cs_containers (sv_store s))) s
  end.
End service.

(** ** What the handlers change *)

(** Only containers of sandbox [sid] change, they stay in their sandbox, and
    those that exited stay exited. *)
Record touches (sid : string) (s s' : Svc) : Prop := {
  to_sandboxes : cs_sandboxes (sv_store s') = cs_sandboxes (sv_store s);
  to_vms : sv_vms s' = sv_vms s;
  to_keyed : keyed (sv_store s) → keyed (sv_store s');
  to_none : ∀ k, container_of s k = None → container_of s' k = None;
  to_some : ∀ k c, container_of s k = Some c → ∃ c', container_of s' k = Some c' ∧
    ct_sandbox_id c' = ct_sandbox_id c ∧ (ct_sandbox_id c ≠ sid → c' = c) ∧
    (ct_state c = Exited → ct_state c' = Exited) }.

Lemma touches_refl sid s : touches sid s s.
Proof. split; try done. intros k c Hc. eauto 10. Qed.

Lemma touches_trans sid s1 s2 s3 : touches sid s1 s2 → touches sid s2 s3 → touches sid s1 s3.
Proof.
  intros [A1 A2 A3 A4 A5] [B1 B2 B3 B4 B5]. split; [congruence | congruence | auto | auto |].
  intros k c (c2 & Hc2 & E2 & N2 & X2)%A5. destruct (B5 _ _ Hc2) as (c3 & Hc3 & E3 & N3 & X3).
  exists c3. split; [done|]. split; [congruence|]. split; [|auto].
  intros Hn. rewrite N3 by congruence. auto.
Qed.

Lemma touches_foldl {A} sid (f : Svc → A → Svc) (l : list A) s :
  (∀ s x, x ∈ l → touches sid s (f s x)) → touches sid s (foldl f s l).
Proof.
  revert s. induction l as [|x l IH]; intros s Hf; cbn [foldl]; [apply touches_refl|].
  eapply touches_trans; [apply Hf; by left|]. apply IH. intros s' y Hy. apply Hf. by right.
Qed.

Section handlers.
Context `{HashOrder} (e : env).

(** The shape of every container update the handlers make. *)
Lemma update_touches sid o id g f s :
  (∀ c, container_of s id = Some c → ct_sandbox_id c = sid) →
  (∀ c, ct_id (f c) = ct_id c ∧ ct_sandbox_id (f c) = ct_sandbox_id c ∧ ct_state (f c) = Exited) →
  touches sid s (with_store s (update_containers o (ContainerStore.update_if id g f) (sv_store s)).1).
Proof.
  intros Hid Hf.
  pose proof (update_containers_map o (ContainerStore.update_if id g f) (sv_store s)) as Hmap.
  split.
  - cbn. unfold update_containers. destruct (ContainerStore.update_if _ _ _ _) as [m b]. cbn [fst].
    by destruct (persist_maps o b (set_containers (sv_store s) m)) as [-> _].
  - done.
  - intros Hk. apply (update_containers_ok o g f id (sv_store s)); [apply Hf | done].
  - intros k. unfold container_of. cbn [sv_store with_store]. rewrite Hmap.
    unfold ContainerStore.update_if. destruct (cs_containers (sv_store s) !! id) as [c|] eqn:E; [|done].
    destruct (g c); [|done]. cbn [fst]. intros Hk.
    rewrite lookup_insert_ne; [done | intros ->; congruence].
  - intros k c. unfold container_of in *. cbn [sv_store with_store]. rewrite Hmap.
    unfold ContainerStore.update_if.
    destruct (cs_containers (sv_store s) !! id) as [c0|] eqn:E; [destruct (g c0)|]; cbn [fst];
      intros Hk; [|eauto 10..].
    destruct (decide (id = k)) as [<-|]; [|rewrite lookup_insert_ne by done; eauto 10].
    rewrite lookup_insert_eq. rewrite E in Hk. injection Hk as ->. exists (f c). split; [done|].
    destruct (Hf c) as (_ & -> & ->). split; [done|]. split; [|done].
    intros Hn. by rewrite (Hid c) in Hn.
Qed.

Lemma mark_exited_event_touches sid id code reason s :
  (∀ c, container_of s id = Some c → ct_sandbox_id c = sid) →
  touches sid s (mark_exited_event e id code reason s).
Proof.
  intros Hid. unfold mark_exited_event, mark_container_exited.
  pose proof (update_touches sid (env_io e) id (λ _, true)
    (λ c, with_life c Exited (ct_started_at c) (env_now e) code (ct_oom_killed c)) s Hid) as Ht.
  fold (ContainerStore.mark_exited id (env_now e) code) in Ht.
  destruct (update_containers _ _ _) as [st []]; cbn [fst] in Ht; [|by apply Ht].
  destruct Ht as [A1 A2 A3 A4 A5]; [done|]. by split.
Qed.

Lemma mark_exited_if_running_event_touches sid id now code oom reason s :
  (∀ c, container_of s id = Some c → ct_sandbox_id c = sid) →
  touches sid s (mark_exited_if_running_event e id now code oom reason s).
Proof.
  intros Hid. unfold mark_exited_if_running_event, mark_container_exited_if_running.
  pose proof (update_touches sid (env_io e) id (λ c, bool_decide (ct_state c = Running))
    (λ c, with_life c Exited (ct_started_at c) now code oom) s Hid) as Ht.
  fold (ContainerStore.mark_exited_if_running id now code oom) in Ht.
  destruct (update_containers _ _ _) as [st []]; cbn [fst] in Ht; [|by apply Ht].
  destruct Ht as [A1 A2 A3 A4 A5]; [done|]. by split.
Qed.

Lemma forget_touches sid s s' id : touches sid s s' → touches sid s (forget_workload s' id).
Proof. intros [A1 A2 A3 A4 A5]. by split. Qed.

Lemma stop_workload_touches sid c s :
  (∀ c', container_of s (ct_id c) = Some c' → ct_sandbox_id c' = sid) →
  touches sid s (stop_container_workload e c s).1.
Proof.
  intros Hid. unfold stop_container_workload.
  destruct (decide (ct_id c ∈ sv_stops s)); [|apply touches_refl]. cbn [fst].
  destruct (env_exit e (ct_id c)) as [[[now code] oom]|]; [|apply forget_touches, touches_refl].
  unfold supervisor_exit. apply forget_touches.
  eapply touches_trans; [apply forget_touches, touches_refl|].
  by apply mark_exited_if_running_event_touches.
Qed.

(** The container recorded under an identifier of the list is in the sandbox. *)
Definition listed_in (sid : string) (cs : list Container) (s : Svc) : Prop :=
  ∀ c c', c ∈ cs → container_of s (ct_id c) = Some c' → ct_sandbox_id c' = sid.

Lemma listed_in_touches sid cs s s' :
  listed_in sid cs s → touches sid s s' → listed_in sid cs s'.
Proof.
  intros Hl [_ _ _ Hn Hs] c c' Hc Hc'. destruct (container_of s (ct_id c)) as [c0|] eqn:E.
  - destruct (Hs _ _ E) as (c1 & Hc1 & E1 & _). rewrite Hc' in Hc1. injection Hc1 as <-.
    rewrite E1. by apply (Hl c).
  - rewrite (Hn _ E) in Hc'. done.
Qed.

Lemma containers_in_listed sid s : keyed (sv_store s) → listed_in sid (containers_in sid s) s.
Proof.
  intros [_ Hct] c c' (Hm & k & Hk)%elem_of_list_containers Hc'.
  unfold container_of in Hc'. rewrite (Hct _ _ Hk), Hk in Hc'. injection Hc' as <-.
  unfold ContainerStore.matches in Hm. rewrite andb_true_r in Hm. by apply bool_decide_eq_true in Hm.
Qed.

Lemma stop_workloads_touches sid cs s :
  listed_in sid cs s → touches sid s (stop_workloads e cs s).
Proof.
  unfold stop_workloads. revert s. induction cs as [|c cs IH]; intros s Hl; cbn [foldl];
    [apply touches_refl|].
  assert (Ht : touches sid s (stop_container_workload e c s).1).
  { apply stop_workload_touches. intros c' Hc'. apply (Hl c); [by left | done]. }
  eapply touches_trans; [exact Ht|]. apply IH. eapply listed_in_touches; [|exact Ht].
  intros c1 c2 Hc1. apply Hl. by right.
Qed.

Lemma mark_exited_event_exits id code reason s c' :
  container_of (mark_exited_event e id code reason s) id = Some c' → ct_state c' = Exited.
Proof.
  unfold mark_exited_event, mark_container_exited.
  pose proof (update_containers_map (env_io e) (ContainerStore.mark_exited id (env_now e) code) (sv_store s)) as Hmap.
  destruct (update_containers _ _ _) as [st b]. cbn [fst] in Hmap.
  assert (Hc : cs_containers st !! id = Some c' → ct_state c' = Exited).
  { rewrite Hmap. unfold ContainerStore.mark_exited, ContainerStore.update_if.
    destruct (cs_containers (sv_store s) !! id) as [c|] eqn:E; cbn [fst]; [|congruence].
    rewrite lookup_insert_eq. by intros [= <-]. }
  by destruct b.
Qed.

Lemma mark_all_exited_spec sid code reason cs s :
  listed_in sid cs s → (∀ c, c ∈ cs → ct_state c = Exited → ∀ c', container_of s (ct_id c) = Some c' →
    ct_state c' = Exited) →
  let s' := mark_all_exited e code reason cs s in
  touches sid s s' ∧ ∀ c c', c ∈ cs → container_of s' (ct_id c) = Some c' → ct_state c' = Exited.
Proof.
  unfold mark_all_exited. revert s. induction cs as [|c cs IH]; intros s Hl Hx; cbn [foldl].
  { split; [apply touches_refl|]. by intros c c' Hc%not_elem_of_nil. }
  set (s1 := if bool_decide (ct_state c = Exited) then s
             else mark_exited_event e (ct_id c) code reason s).
  assert (Ht : touches sid s s1).
  { unfold s1. destruct (bool_decide _); [apply touches_refl|].
    apply mark_exited_event_touches. intros c' Hc'. apply (Hl c); [by left | done]. }
  assert (H1 : ∀ c', container_of s1 (ct_id c) = Some c' → ct_state c' = Exited).
  { unfold s1. case_bool_decide as E; [by apply (Hx c); [left|]|]. apply mark_exited_event_exits. }
  destruct (IH s1) as [Ht' Hall].
  - eapply listed_in_touches; [|exact Ht]. intros c1 c2 Hc1. apply Hl. by right.
  - intros c1 Hc1 E1 c' Hc'. destruct (container_of s (ct_id c1)) as [c0|] eqn:E0.
    + destruct (to_some _ _ _ Ht _ _ E0) as (c2 & Hc2 & _ & _ & Hx2).
      rewrite Hc' in Hc2. injection Hc2 as <-. apply Hx2. apply (Hx c1); [by right | done | done].
    + rewrite (to_none _ _ _ Ht _ E0) in Hc'. done.
  - split; [by eapply touches_trans|]. intros c1 c' [->|Hc1]%elem_of_cons Hc'; [|by eapply Hall].
    destruct (container_of s1 (ct_id c)) as [c0|] eqn:E0.
    + destruct (to_some _ _ _ Ht' _ _ E0) as (c2 & Hc2 & _ & _ & Hx2).
      rewrite Hc' in Hc2. injection Hc2 as <-. apply Hx2, H1. done.
    + rewrite (to_none _ _ _ Ht' _ E0) in Hc'. done.
Qed.
End handlers.

Section handler_theorems.
Context `{HashOrder} (e : env).

Lemma set_sandbox_state_spec sid st s :
  let s' := set_sandbox_state e sid st s in
  cs_containers (sv_store s') = cs_containers (sv_store s) ∧ sv_vms s' = sv_vms s ∧
  ∀ k, sandbox_of s' k =
    if decide (k = sid) then (λ sb, with_sb_state sb st) <$> sandbox_of s k else sandbox_of s k.
Proof.
  unfold set_sandbox_state, sandbox_of. cbn [sv_store with_store sv_vms].
  unfold update_sandbox_state, SandboxStore.update_state.
  destruct (cs_sandboxes (sv_store s) !! sid) as [sb|] eqn:E; cbn [fst].
  - destruct (persist_maps (env_io e) true (set_sandboxes (sv_store s)
      (<[sid := with_sb_state sb st]> (cs_sandboxes (sv_store s))))) as [-> ->].
    split; [done|]. split; [done|]. intros k. cbn. destruct (decide (k = sid)) as [->|].
    + by rewrite lookup_insert_eq, E.
    + by rewrite lookup_insert_ne.
  - split; [done|]. split; [done|]. intros k. cbn. destruct (decide (k = sid)) as [->|]; [|done].
    by rewrite E.
Qed.

Lemma forget_all_containers cs s k :
  container_of (foldl (λ s c, forget_workload s (ct_id c)) s cs) k = container_of s k.
Proof. revert s. induction cs as [|c cs IH]; intros s; [done|]. cbn [foldl]. by rewrite IH. Qed.

Lemma stop_all_containers_spec sid s : keyed (sv_store s) →
  let s' := stop_all_containers e sid s in
  touches sid s s' ∧
  ∀ k c, container_of s' k = Some c → ct_sandbox_id c = sid → ct_state c = Exited.
Proof.
  intros Hk. unfold stop_all_containers. set (running := List.filter _ _).
  set (s1 := stop_workloads e running s).
  assert (T1 : touches sid s s1).
  { apply stop_workloads_touches. intros c c' [Hc _]%elem_of_filter_b. by apply containers_in_listed. }
  set (cs := containers_in sid s1). destruct (to_keyed _ _ _ T1 Hk) as [Hsb1 Hct1].
  assert (Hlist : ∀ c c', c ∈ cs → container_of s1 (ct_id c) = Some c' → c' = c).
  { intros c c' (_ & k & Hkc)%elem_of_list_containers Hc'. unfold container_of in Hc'.
    rewrite (Hct1 _ _ Hkc), Hkc in Hc'. by injection Hc'. }
  destruct (mark_all_exited_spec e sid 137 "StopPodSandbox" cs s1) as [T2 Hall];
    [by apply containers_in_listed | intros c Hc Ex c' Hc'; by rewrite (Hlist c c') |].
  cbv zeta. split.
  - eapply touches_trans; [exact T1|]. eapply touches_trans; [exact T2|].
    apply touches_foldl. intros. apply forget_touches, touches_refl.
  - intros k c Hc Hs. rewrite forget_all_containers in Hc.
    destruct (container_of s1 k) as [c1|] eqn:E1; [|by rewrite (to_none _ _ _ T2 _ E1) in Hc].
    destruct (to_some _ _ _ T2 _ _ E1) as (c2 & Hc2 & E2 & _). rewrite Hc in Hc2. injection Hc2 as <-.
    apply (Hall c1 c); [|by rewrite (Hct1 _ _ E1)].
    apply elem_of_list_containers. split; [|by exists k].
    unfold ContainerStore.matches. rewrite andb_true_r, bool_decide_eq_true. congruence.
Qed.

(** Stopping a pod stops all of it and nothing else: every container of the
    sandbox ends up exited, containers of other sandboxes and other sandboxes are
    untouched, the sandbox's machine is gone, and on success the sandbox is no
    longer ready; the only failure is that of destroying the machine. *)
Theorem stop_pod_sandbox_correct sid sb s s' r :
  keyed (sv_store s) → sandbox_of s sid = Some sb → sb_state sb = Ready →
  stop_pod_sandbox e sid s = (s', r) →
  (∀ k c, container_of s' k = Some c → ct_sandbox_id c = sid → ct_state c = Exited) ∧
  (∀ k c, container_of s k = Some c → ct_sandbox_id c ≠ sid → container_of s' k = Some c) ∧
  (∀ k, k ≠ sid → sandbox_of s' k = sandbox_of s k) ∧
  (sid ∉ sv_vms s') ∧
  match r with
  | Ok _ => sandbox_of s' sid = Some (with_sb_state sb NotReady)
  | Err x => x = DestroyFailed sid ∧ sandbox_of s' sid = Some sb
  end.
Proof.
  intros Hk Hsb Hready. unfold stop_pod_sandbox. rewrite Hsb, Hready, bool_decide_false by naive_solver.
  destruct (stop_all_containers_spec sid s Hk) as [T Hex].
  set (s3 := stop_all_containers e sid s) in *.
  assert (Hother : ∀ k c, container_of s k = Some c → ct_sandbox_id c ≠ sid → container_of s3 k = Some c).
  { intros k c Hc Hn. destruct (to_some _ _ _ T _ _ Hc) as (c' & Hc' & _ & Hsame & _).
    by rewrite <-(Hsame Hn). }
  assert (Hsb3 : ∀ k, sandbox_of s3 k = sandbox_of s k)
    by (intros k; unfold sandbox_of; by rewrite (to_sandboxes _ _ _ T)).
  clearbody s3. clear T Hk Hready.
  assert (∃ t ok, destroy_sandbox_vm e sid s3 = (t, ok) ∧ sv_store t = sv_store s3 ∧ (sid ∉ sv_vms t) ∧
    ∀ x, ok = Err x → x = DestroyFailed sid) as (t & ok & -> & Ht & Hv & Hx).
  { unfold destroy_sandbox_vm. destruct (decide (sid ∈ sv_vms s3)); [|naive_solver].
    eexists _, _. split; [done|]. cbn. split; [done|]. split; [set_solver|].
    destruct (env_destroy_ok e sid); naive_solver. }
  assert (Ht' : ∀ k, sandbox_of t k = sandbox_of s k)
    by (intros k; rewrite <-Hsb3; unfold sandbox_of; by rewrite Ht).
  destruct ok as [b|x]; intros [= <- <-].
  - destruct (set_sandbox_state_spec sid NotReady t) as (Ec & Ev & Es).
    unfold container_of in *. rewrite Ec, Ht, Ev. split; [exact Hex|]. split; [exact Hother|].
    split; [intros k Hn; by rewrite Es, decide_False, Ht'|]. split; [done|].
    by rewrite Es, decide_True, Ht', Hsb.
  - unfold container_of in *. rewrite Ht. split; [exact Hex|]. split; [exact Hother|].
    split; [intros k _; apply Ht'|]. split; [done|]. split; [by apply Hx|]. by rewrite Ht'.
Qed.

(** ** After a restart *)

Lemma fold_sandboxes_lookup sbs s k :
  sv_vms (reconcile_sandboxes e sbs s) = sv_vms s ∧
  cs_containers (sv_store (reconcile_sandboxes e sbs s)) = cs_containers (sv_store s) ∧
  sandbox_of (reconcile_sandboxes e sbs s) k =
    if decide (k ∈ map sb_id sbs ∧ k ∉ sv_vms s)
    then (λ sb, with_sb_state sb NotReady) <$> sandbox_of s k else sandbox_of s k.
Proof.
  unfold reconcile_sandboxes. revert s. induction sbs as [|sb sbs IH]; intros s; cbn [foldl map].
  { rewrite decide_False; [done|]. intros [Hin _]. by apply not_elem_of_nil in Hin. }
  destruct (decide (sb_id sb ∈ sv_vms s)) as [Hv|Hv].
  - destruct (IH s) as (-> & -> & ->). split; [done|]. split; [done|].
    destruct (decide (k ∈ map sb_id sbs ∧ k ∉ sv_vms s)) as [[? ?]|Hn].
    + by rewrite decide_True by (by split; [right|]).
    + rewrite decide_False; [done|]. intros [[->|?]%elem_of_cons ?]; [done|]. by apply Hn.
  - destruct (IH (set_sandbox_state e (sb_id sb) NotReady s)) as (-> & -> & ->).
    destruct (set_sandbox_state_spec (sb_id sb) NotReady s) as (-> & Hvms & Hs). rewrite Hvms, Hs.
    split; [done|]. split; [done|].
    destruct (decide (k = sb_id sb)) as [->|Hne].
    + rewrite (decide_True (P := (_ ∈ _ :: _) ∧ _)) by (by split; [left|]).
      destruct (decide _); [|done]. by destruct (sandbox_of s (sb_id sb)).
    + destruct (decide (k ∈ map sb_id sbs ∧ k ∉ sv_vms s)) as [[? ?]|Hn].
      * by rewrite decide_True by (by split; [right|]).
      * rewrite decide_False; [done|]. intros [[?|?]%elem_of_cons ?]; [done|]. by apply Hn.
Qed.
End handler_theorems.

Section restart.
Context `{HashOrder} (e : env).

(** A container that lost its machine. *)
Definition lost (c : Container) : Container :=
  with_life c Exited (ct_started_at c) (env_now e) 255 (ct_oom_killed c).

Definition orphaned (vms : gset string) (c : Container) : bool :=
  bool_decide (ct_sandbox_id c ∉ vms) && bool_decide (ct_state c ≠ Exited).

Lemma fold_containers_lookup cs s k :
  sv_vms (reconcile_containers e cs s) = sv_vms s ∧
  cs_sandboxes (sv_store (reconcile_containers e cs s)) = cs_sandboxes (sv_store s) ∧
  container_of (reconcile_containers e cs s) k =
    if decide (k ∈ map ct_id (List.filter (orphaned (sv_vms s)) cs))
    then lost <$> container_of s k else container_of s k.
Proof.
  unfold reconcile_containers. revert s. induction cs as [|c cs IH]; intros s; cbn [foldl List.filter].
  { by rewrite decide_False by apply not_elem_of_nil. }
  fold (orphaned (sv_vms s) c). destruct (orphaned (sv_vms s) c); [|apply IH].
  set (s1 := with_store s _).
  assert (E1 : cs_containers (sv_store s1) =
    (ContainerStore.mark_exited (ct_id c) (env_now e) 255 (cs_containers (sv_store s))).1)
    by apply update_containers_map.
  assert (E2 : cs_sandboxes (sv_store s1) = cs_sandboxes (sv_store s)).
  { unfold s1, mark_container_exited, update_containers. cbn [sv_store with_store].
    destruct (ContainerStore.mark_exited _ _ _ _) as [m b]. cbn [fst].
    by destruct (persist_maps (env_io e) b (set_containers (sv_store s) m)) as [-> _]. }
  destruct (IH s1) as (-> & -> & ->). split; [done|]. split; [done|].
  change (sv_vms s1) with (sv_vms s). cbn [map].
  assert (E3 : container_of s1 k = if decide (k = ct_id c) then lost <$> container_of s k else container_of s k).
  { unfold container_of. rewrite E1. unfold ContainerStore.mark_exited, ContainerStore.update_if.
    destruct (cs_containers (sv_store s) !! ct_id c) as [c0|] eqn:E; cbn [fst];
      destruct (decide (k = ct_id c)) as [->|]; rewrite ?lookup_insert_eq, ?lookup_insert_ne, ?E by done; done. }
  rewrite E3. destruct (decide (k = ct_id c)) as [->|Hne].
  - rewrite (decide_True (P := _ ∈ _ :: _)) by (by left). destruct (decide _); [|done].
    by destruct (container_of s (ct_id c)).
  - destruct (decide (k ∈ map ct_id (List.filter (orphaned (sv_vms s)) cs))).
    + by rewrite decide_True by (by right).
    + rewrite decide_False; [done|]. by intros [?|?]%elem_of_cons.
Qed.

(** After a restart nothing is reported as alive without its machine: every
    loaded sandbox without one is not ready, every container of such a sandbox is
    exited, with code 255 unless it had already exited, and everything else is as
    it was saved. *)
Theorem restart_reconciles s st :
  load_persisted (env_io e) (sv_store s) = Some st → keyed st →
  let s' := load_cri_state e s in
  (∀ k, sandbox_of s' k =
     if decide (k ∈ sv_vms s) then cs_sandboxes st !! k
     else (λ sb, with_sb_state sb NotReady) <$> (cs_sandboxes st !! k)) ∧
  (∀ k, container_of s' k =
     (λ c, if orphaned (sv_vms s) c then lost c else c) <$> (cs_containers st !! k)).
Proof.
  intros Hload [Hsb Hct]. unfold load_cri_state. rewrite Hload. cbv zeta.
  set (s0 := with_store s st). set (s1 := reconcile_sandboxes e _ s0). split; intros k.
  - destruct (fold_containers_lookup (ContainerStore.list_containers None None (cs_containers (sv_store s1))) s1 k)
      as (_ & E & _). unfold sandbox_of at 1. rewrite E. fold (sandbox_of s1 k).
    destruct (fold_sandboxes_lookup e (SandboxStore.list_sandboxes None (cs_sandboxes (sv_store s0))) s0 k)
      as (_ & _ & E1). fold s1 in E1. rewrite E1.
    change (sv_vms s0) with (sv_vms s). change (sandbox_of s0 k) with (cs_sandboxes st !! k).
    destruct (decide (k ∈ sv_vms s)); [by rewrite decide_False by tauto|].
    destruct (cs_sandboxes st !! k) as [sb|] eqn:Ek; [|by destruct (decide _)].
    rewrite decide_True; [done|]. split; [|done]. rewrite list_all_sandboxes.
    rewrite <-(Hsb _ _ Ek). apply (list_elem_of_fmap_2 sb_id), elem_of_map_values. eauto.
  - destruct (fold_sandboxes_lookup e (SandboxStore.list_sandboxes None (cs_sandboxes (sv_store s0))) s0 k)
      as (Ev & Ec & _). fold s1 in Ev, Ec.
    destruct (fold_containers_lookup (ContainerStore.list_containers None None (cs_containers (sv_store s1))) s1 k)
      as (_ & _ & ->). rewrite Ev. unfold container_of. rewrite Ec.
    change (cs_containers (sv_store s0)) with (cs_containers st). change (sv_vms s0) with (sv_vms s).
    rewrite list_all_containers. destruct (cs_containers st !! k) as [c|] eqn:Ek; [|by destruct (decide _)].
    cbn [fmap option_fmap option_map]. destruct (decide (k ∈ _)) as [Hin|Hin].
    + apply list_elem_of_fmap in Hin as (c' & -> & [[k' Hk']%elem_of_map_values Ho]%elem_of_filter_b).
      rewrite (Hct _ _ Hk'), Hk' in Ek. injection Ek as <-. by rewrite Ho.
    + destruct (orphaned (sv_vms s) c) eqn:Ho; [|done]. destruct Hin.
      rewrite <-(Hct _ _ Ek). apply (list_elem_of_fmap_2 ct_id), elem_of_filter_b.
      split; [|done]. apply elem_of_map_values. eauto.
Qed.
End restart.

(** ** Races *)

Section races.
Context `{HashOrder}.

(** [mark_container_exited] does not look at the state: a caller that saw the
    container running records its own exit over the one the supervisor recorded
    in the meantime, and publishes a second event. *)
Lemma exit_overwritten e id code reason s c :
  container_of s id = Some c → ct_state c = Exited →
  let s' := mark_exited_event e id code reason s in
  (∃ c', container_of s' id = Some c' ∧ ct_exit_code c' = code) ∧
  sv_events s' = sv_events s ++ [StoppedEvent id reason].
Proof.
  intros Hc _. unfold mark_exited_event, mark_container_exited.
  pose proof (update_containers_map (env_io e) (ContainerStore.mark_exited id (env_now e) code) (sv_store s)) as Hm.
  unfold update_containers in *. unfold ContainerStore.mark_exited, ContainerStore.update_if in *.
  unfold container_of in *. rewrite Hc in *. cbn [fst] in Hm. cbn [fst snd].
  split; [|done]. cbn [sv_store emit with_store]. rewrite Hm, lookup_insert_eq. eauto.
Qed.

(** Snapshots are taken and written without a common lock: mutations in memory,
    a snapshot taken for each, and the writes, in any order. *)
Record csys := { cy_store : CriStore; cy_pending : nat; cy_writes : list PersistedState }.

Definition snapshot_of (s : CriStore) : PersistedState :=
  {| pd_sandboxes := SandboxStore.list_sandboxes None (cs_sandboxes s);
     pd_containers := ContainerStore.list_containers None None (cs_containers s) |}.

Definition no_write : cri_io := {| cio_write := false; cio_read := true |}.

Inductive csys_step : csys → csys → Prop :=
  | cy_mutate s n ws op :
      csys_step {| cy_store := s; cy_pending := n; cy_writes := ws |}
                {| cy_store := run_cri_op s (no_write, op); cy_pending := S n; cy_writes := ws |}
  | cy_read s n ws :
      csys_step {| cy_store := s; cy_pending := S n; cy_writes := ws |}
                {| cy_store := s; cy_pending := n; cy_writes := ws ++ [snapshot_of s] |}
  | cy_write s n ws1 p ws2 :
      csys_step {| cy_store := s; cy_pending := n; cy_writes := ws1 ++ p :: ws2 |}
                {| cy_store := {| cs_sandboxes := cs_sandboxes s; cs_containers := cs_containers s;
                                  cs_disk := Some (Snapshot p) |};
                   cy_pending := n; cy_writes := ws1 ++ ws2 |}.

(** A container that was removed comes back: its removal is written before the
    snapshot that still holds it. *)
Lemma stale_snapshot c :
  ∃ s, rtc csys_step {| cy_store := new_cri; cy_pending := 0; cy_writes := [] |}
                     {| cy_store := s; cy_pending := 0; cy_writes := [] |} ∧
       cs_containers s !! ct_id c = None ∧
       ∃ p, cs_disk s = Some (Snapshot p) ∧ c ∈ pd_containers p.
Proof.
  set (s1 := run_cri_op new_cri (no_write, OpAddContainer c)).
  set (s2 := run_cri_op s1 (no_write, OpRemoveContainer (ct_id c))).
  assert (E1 : cs_containers s1 = {[ct_id c := c]}) by done.
  assert (E2 : cs_containers s2 = ∅).
  { transitivity (delete (ct_id c) (cs_containers s1)); [|by rewrite E1, delete_singleton_eq].
    exact (proj2 (persist_maps no_write (bool_decide (is_Some (cs_containers s1 !! ct_id c)))
      (set_containers s1 (delete (ct_id c) (cs_containers s1))))). }
  exists {| cs_sandboxes := cs_sandboxes s2; cs_containers := cs_containers s2;
            cs_disk := Some (Snapshot (snapshot_of s1)) |}. split; [|split].
  - eapply rtc_l; [apply (cy_mutate new_cri 0 [] (OpAddContainer c))|]. fold s1.
    eapply rtc_l; [apply (cy_read s1 0 [])|].
    eapply rtc_l; [apply (cy_mutate s1 0 _ (OpRemoveContainer (ct_id c)))|]. fold s2.
    eapply rtc_l; [apply (cy_read s2 0)|].
    eapply rtc_l; [apply (cy_write s2 0 [snapshot_of s1] (snapshot_of s2) [])|].
    eapply rtc_l; [apply (cy_write _ 0 [] (snapshot_of s1) [])|]. apply rtc_refl.
  - cbn [cs_containers]. rewrite E2. apply lookup_empty.
  - eexists. split; [done|]. unfold snapshot_of. cbn [pd_containers].
    rewrite list_all_containers, elem_of_map_values. exists (ct_id c). rewrite E1. apply lookup_singleton_eq.
Qed.
End races.

(** ** Concrete runs *)

Definition toy_container (id sid : string) (st : ContainerState) : Container :=
  {| ct_id := id; ct_sandbox_id := sid; ct_name := id; ct_attempt := 0; ct_image_ref := "";
     ct_resolved_image_digest := ""; ct_resolved_image_path := ""; ct_command := ["sh"];
     ct_args := []; ct_env := []; ct_working_dir := ""; ct_user := None; ct_stdin := false;
     ct_stdin_once := false; ct_tty := false; ct_mounts := []; ct_state := st; ct_created_at := 0;
     ct_started_at := 0; ct_finished_at := 0; ct_exit_code := 0; ct_oom_killed := false;
     ct_labels := ∅; ct_annotations := ∅; ct_log_path := ""; ct_rootfs_path := "";
     ct_rootfs_guest_path := "" |}.
Definition toy_sandbox (id : string) : PodSandbox :=
  {| sb_id := id; sb_name := id; sb_namespace := ""; sb_uid := ""; sb_attempt := 0;
     sb_state := Ready; sb_created_at := 0; sb_labels := ∅; sb_annotations := ∅;
     sb_log_directory := ""; sb_runtime_handler := ""; sb_network_ip := ""; sb_additional_ips := [];
     sb_dns := {| sd_servers := []; sd_searches := []; sd_options := [] |}; sb_container_ports := [] |}.
Definition toy_env : env :=
  {| env_now := 9; env_io := cri_io_ok; env_image_ok := λ _, true; env_vm_ready := λ _, true;
     env_starts := λ _, true; env_exit := λ id, if decide (id = "a") then Some (7, 3, false) else None;
     env_destroy_ok := λ _, true |}.

Definition toy_ops : list (cri_io * cri_op) :=
  [(cri_io_ok, OpAddSandbox (toy_sandbox "p")); (cri_io_ok, OpAddContainer (toy_container "a" "p" Created));
   (cri_io_ok, OpAddContainer (toy_container "b" "p" Created));
   (cri_io_ok, OpAddContainer (toy_container "z" "q" Created)); (cri_io_ok, OpStartedIfCreated "a" 5)].
Definition toy_cri : CriStore := foldl (@run_cri_op list_order) new_cri toy_ops.
Definition toy_svc : Svc :=
  {| sv_store := toy_cri; sv_vms := {["p"]}; sv_stops := {["a"]}; sv_events := [] |}.

Lemma toy_keyed : keyed toy_cri.
Proof.
  unfold toy_cri. generalize toy_ops. intros es. induction es as [|x es IH] using rev_ind; [done|].
  rewrite foldl_app. by apply (@run_cri_op_ok list_order).
Qed.

Lemma restart_restores_witness :
  @load_persisted cri_io_ok {| cs_sandboxes := ∅; cs_containers := ∅; cs_disk := cs_disk toy_cri |}
    = Some toy_cri.
Proof. apply (@restart_restores list_order toy_ops). repeat constructor. Defined.

Lemma lifecycle_published_once_witness :
  let m := (@mark_container_exited_if_running list_order cri_io_ok "a" 6 0 false toy_cri) in
  m.2 = true ∧
  (@mark_container_exited_if_running list_order cri_io_ok "a" 7 1 false
     (foldl (@run_cri_op list_order) m.1 [(cri_io_ok, OpRemoveContainer "b")])).2 = false.
Proof.
  cbv zeta. split; [vm_compute; reflexivity|].
  refine (proj1 (proj2 (@lifecycle_published_once list_order cri_io_ok cri_io_ok "a" 6 7 0 1 false false
    toy_cri _ [(cri_io_ok, OpRemoveContainer "b")] toy_keyed _) _)).
  - by repeat constructor.
  - vm_compute. reflexivity.
Defined.

Lemma stop_pod_sandbox_correct_witness :
  let s' := (@stop_pod_sandbox list_order toy_env "p" toy_svc).1 in
  ct_exit_code <$> container_of s' "a" = Some 3 ∧ ct_exit_code <$> container_of s' "b" = Some 137 ∧
  (∀ k c, container_of s' k = Some c → ct_sandbox_id c = "p" → ct_state c = Exited).
Proof.
  cbv zeta. split; [vm_compute; reflexivity|]. split; [vm_compute; reflexivity|].
  destruct (@stop_pod_sandbox list_order toy_env "p" toy_svc) as [s' r] eqn:E. cbn [fst].
  refine (proj1 (@stop_pod_sandbox_correct list_order toy_env "p" (toy_sandbox "p") toy_svc s' r
    toy_keyed _ _ E)); vm_compute; reflexivity.
Defined.

Lemma restart_reconciles_witness :
  let s := {| sv_store := {| cs_sandboxes := ∅; cs_containers := ∅; cs_disk := cs_disk toy_cri |};
              sv_vms := ∅; sv_stops := ∅; sv_events := [] |} in
  sb_state <$> sandbox_of (@load_cri_state list_order toy_env s) "p" = Some NotReady ∧
  ct_exit_code <$> container_of (@load_cri_state list_order toy_env s) "b" = Some 255.
Proof.
  cbv zeta.
  destruct (@restart_reconciles list_order toy_env
    {| sv_store := {| cs_sandboxes := ∅; cs_containers := ∅; cs_disk := cs_disk toy_cri |};
       sv_vms := ∅; sv_stops := ∅; sv_events := [] |} toy_cri) as [Hs Hc].
  - vm_compute. reflexivity.
  - exact toy_keyed.
  - rewrite Hs, Hc. vm_compute. done.
Defined.
