(* ===== verification/Glob.v ===== *)
(** * Glob: ignore files and wildcard sources of image builds

    [runtime/src/oci/build/dockerignore.rs] (the rules of a [.dockerignore] file
    and the paths they exclude) and the wildcard sources of
    [runtime/src/oci/build/engine/handlers.rs].  Both files match one path segment
    with the same loop over two indices and the position of the last star; the
    loop is proved to terminate and to decide the declarative relation [glob]. *)

From Stdlib Require Import ZArith Lia Ascii.
From stdpp Require Import base gmap strings list numbers.
From S2P Require Import Prelude RustStr.

Local Open Scope string_scope.
Local Open Scope list_scope.
Local Open Scope nat_scope.

(** ** Matching one segment *)

(** The state of the loop: positions in the pattern and in the text, the last
    star seen and where its run starts in the text.  [None] is out of fuel;
    [Some None] is [return false]; [Some (Some p)] is the end of the loop. *)
Section loop.
Context (pat txt : list string).

Definition fits (p t : nat) : bool :=
  match pat !! p, txt !! t with
  | Some a, Some c => bool_decide (a = "?") || bool_decide (a = c)
  | _, _ => false
  end.

Fixpoint wildcard_loop (fuel p t : nat) (star : option nat) (mark : nat) : option (option nat) :=
  match fuel with
  | O => None
  | S fuel =>
      if bool_decide (t < length txt) then
        if fits p t then wildcard_loop fuel (S p) (S t) star mark
        else if bool_decide (pat !! p = Some "*") then wildcard_loop fuel (S p) t (Some p) t
        else match star with
             | Some sp => wildcard_loop fuel (S sp) (S mark) star (S mark)
             | None => Some None
             end
      else Some (Some p)
  end.

(** The loop after it, which skips the stars at the end of the pattern. *)
Definition rest_stars (p : nat) : bool := forallb (λ a, bool_decide (a = "*")) (drop p pat).

(** Each backtracking step moves the mark, which happens at most once per
    character; between two of them both positions only grow. *)
Definition wildcard_fuel : nat :=
  S (length txt * (length txt + length pat + 1) + length txt + length pat).

Definition wildcard_result : option bool :=
  match wildcard_loop wildcard_fuel 0 0 None 0 with
  | Some (Some p) => Some (rest_stars p)
  | Some None => Some false
  | None => None
  end.
End loop.

(** [wildcard_match] of [dockerignore.rs] and [glob_segment_match] of [handlers.rs]. *)
Definition wildcard_match (pattern text : string) : bool :=
  default false (wildcard_result (chars pattern) (chars text)).
Definition glob_segment_match (pattern name : string) : bool :=
  default false (wildcard_result (chars pattern) (chars name)).

(** ** Rules and paths *)

Record Rule := { segments : list string; negated : bool }.

(** [DockerIgnore::parse]; one line is a rule or nothing. *)
Definition parse_rule (raw : string) : option Rule :=
  let line := trim raw in
  if is_empty line || starts_with "#" line then None
  else
    let '(neg, body) := match strip_prefix "!" line with
                        | Some rest => (true, trim rest)
                        | None => (false, line)
                        end in
    let cleaned := trim_matches_char "/" (default body (strip_prefix "./" body)) in
    if is_empty cleaned then None
    else Some {| segments := split "/" cleaned; negated := neg |}.
Definition parse_ignore (contents : string) : list Rule := omap parse_rule (lines contents).

(** A [.dockerignore] that is missing or cannot be read is an empty one. *)
Definition load_ignore (file : option string) : list Rule := parse_ignore (default "" file).

Fixpoint segments_match (pattern : list string) (path : list string) : bool :=
  match pattern with
  | [] => match path with [] => true | _ => false end
  | head :: rest =>
      if bool_decide (head = "**")
      then existsb (λ i, segments_match rest (drop i path)) (seq 0 (S (length path)))
      else match path with
           | ph :: ptail => if wildcard_match head ph then segments_match rest ptail else false
           | [] => false
           end
  end.

Definition path_segments (rel : string) : list string :=
  List.filter (λ s, negb (is_empty s)) (split "/" rel).

Definition is_excluded (rules : list Rule) (rel : string) : bool :=
  foldl (λ excluded rule,
    if segments_match (segments rule) (path_segments rel) then negb (negated rule) else excluded)
    false rules.

(** ** Wildcard sources of [COPY] and [ADD] *)

Definition has_glob_meta (s : string) : bool := has_char "*" s || has_char "?" s || has_char "[" s.

Inductive source_error := NoMatches (pattern : string).

Section sources.
(** The entries of a directory, [None] when it cannot be read. *)
Context (read_dir : string → option (list string)).

Definition expand_glob_sources (pattern : string) : list string :=
  let p := trim_start_char "/" pattern in
  let '(dir_part, name_pat) := default ("", p) (rsplit_once "/" p) in
  sort_by String.leb (map (λ fname, if is_empty dir_part then fname else dir_part +:+ "/" +:+ fname)
          (List.filter (glob_segment_match name_pat) (default [] (read_dir dir_part)))).

Definition is_url (src : string) : bool := starts_with "http://" src || starts_with "https://" src.

Fixpoint resolve_source_patterns (srcs : list string) : result source_error (list string) :=
  match srcs with
  | [] => Ok []
  | src :: srcs =>
      here ← (if is_url src then Ok [src]
              else if has_glob_meta src then
                match expand_glob_sources src with
                | [] => Err (NoMatches src)
                | ms => Ok ms
                end
              else Ok [src]);
      rest ← resolve_source_patterns srcs;
      Ok (here ++ rest)
  end.
End sources.

(** ** What a pattern means *)

Inductive glob : list string → list string → Prop :=
  | glob_nil : glob [] []
  | glob_char a p c t : a ≠ "*" → a = "?" ∨ a = c → glob p t → glob (a :: p) (c :: t)
  | glob_star_stop p t : glob p t → glob ("*" :: p) t
  | glob_star_more p c t : glob ("*" :: p) t → glob ("*" :: p) (c :: t).

Definition lit_fits (a c : string) : Prop := a ≠ "*" ∧ (a = "?" ∨ a = c).

Lemma glob_char_inv a p t : a ≠ "*" → glob (a :: p) t →
  ∃ c t', t = c :: t' ∧ (a = "?" ∨ a = c) ∧ glob p t'.
Proof. intros Ha. inversion 1; naive_solver. Qed.

Lemma glob_nil_inv t : glob [] t → t = [].
Proof. by inversion 1. Qed.

(** A star absorbs any prefix. *)
Lemma glob_star_iff p t : glob ("*" :: p) t ↔ ∃ k, k ≤ length t ∧ glob p (drop k t).
Proof.
  split.
  - induction t as [|c t IH]; inversion 1; subst; try done.
    + by exists 0.
    + exists 0. split; [lia | done].
    + destruct IH as (k & ? & ?); [done|]. exists (S k). split; [cbn; lia | done].
  - intros (k & Hk & Hp). revert t Hk Hp. induction k as [|k IH]; intros t Hk Hp.
    + by apply glob_star_stop.
    + destruct t as [|c t]; [cbn in Hk; lia|]. apply glob_star_more, IH; [cbn in Hk; lia | done].
Qed.

(** Characters other than stars match position by position. *)
Lemma glob_lits lits r t : Forall (λ a, a ≠ "*") lits →
  glob (lits ++ r) t ↔ length lits ≤ length t ∧
    Forall2 lit_fits lits (take (length lits) t) ∧ glob r (drop (length lits) t).
Proof.
  intros Hl. revert t. induction Hl as [|a lits Ha Hl IH]; intros t.
  { cbn. rewrite take_0, drop_0. split; [|tauto]. intros ?. split; [lia|]. by split. }
  cbn [app length]. split.
  - intros (c & t' & -> & Hc & (? & ? & ?)%IH)%glob_char_inv; [|done]. cbn [take drop length].
    split; [lia|]. split; [by constructor | done].
  - destruct t as [|c t]; cbn [take drop length]; [lia|].
    intros (? & [[_ Hc] Hf]%list.Forall2_cons & Hr). apply glob_char; [done..|]. apply IH.
    split; [lia | done].
Qed.

Lemma glob_nil_stars p : glob p [] ↔ forallb (λ a, bool_decide (a = "*")) p = true.
Proof.
  induction p as [|a p IH]; cbn [forallb]; [split; [done | constructor]|].
  rewrite andb_true_iff, bool_decide_eq_true. split.
  - inversion 1; subst. split; [done | by apply IH].
  - intros [-> ?]. by apply glob_star_stop, IH.
Qed.

Section loop_correct.
Context (pat txt : list string).

Definition potential (p t mark : nat) : nat :=
  (length txt - mark) * (length txt + length pat + 1) + (length txt - t) + (length pat - p).

Lemma fits_lookup p t : fits pat txt p t = true → ∃ a c, pat !! p = Some a ∧ txt !! t = Some c ∧
  (a = "?" ∨ a = c).
Proof.
  unfold fits. destruct (pat !! p) as [a|]; [|done]. destruct (txt !! t) as [c|]; [|done].
  rewrite orb_true_iff, !bool_decide_eq_true. eauto 6.
Qed.

Lemma wildcard_terminates fuel p t star mark :
  mark ≤ t → (∀ sp, star = Some sp → sp < length pat) → potential p t mark < fuel →
  is_Some (wildcard_loop pat txt fuel p t star mark).
Proof.
  revert p t star mark. induction fuel as [|fuel IH]; intros p t star mark Hm Hs Hf; [lia|].
  cbn [wildcard_loop]. case_bool_decide as Ht; [|eauto]. unfold potential in *.
  destruct (fits pat txt p t) eqn:Hfit.
  - apply fits_lookup in Hfit as (a & c & Ha%lookup_lt_Some & Hc%lookup_lt_Some & _).
    apply IH; [lia | done | lia].
  - case_bool_decide as Hp.
    + apply lookup_lt_Some in Hp. apply IH; [lia | by intros ? [= <-] |].
      enough ((length txt - t) * (length txt + length pat + 1)
        ≤ (length txt - mark) * (length txt + length pat + 1)) by lia.
      apply Nat.mul_le_mono_r. lia.
    + destruct star as [sp|]; [|eauto]. specialize (Hs _ eq_refl).
      apply IH; [lia | by intros ? [= <-] |].
      replace (length txt - mark) with (S (length txt - S mark)) in Hf by lia. lia.
Qed.

(** What the loop keeps: before the first star the rest must match the rest;
    after a star the part between it and the current position has matched
    character by character, and the whole pattern matches iff what follows the
    star matches from the mark on. *)
Definition loop_inv (p t : nat) (star : option nat) (mark : nat) : Prop :=
  mark ≤ t ≤ length txt ∧
  match star with
  | None => glob pat txt ↔ glob (drop p pat) (drop t txt)
  | Some sp => ∃ lits, drop (S sp) pat = lits ++ drop p pat ∧ length lits = t - mark ∧
      Forall2 lit_fits lits (take (t - mark) (drop mark txt)) ∧
      (glob pat txt ↔ glob ("*" :: drop (S sp) pat) (drop mark txt))
  end.

Lemma lits_no_star lits l : Forall2 lit_fits lits l → Forall (λ a, a ≠ "*") lits.
Proof. induction 1 as [|a c ? ? [? _]]; by constructor. Qed.

(** What follows the star, matched from the mark. *)
Lemma glob_at_mark lits r t mark :
  mark ≤ t ≤ length txt → length lits = t - mark →
  Forall2 lit_fits lits (take (t - mark) (drop mark txt)) →
  glob (lits ++ r) (drop mark txt) ↔ glob r (drop t txt).
Proof.
  intros Hm Hlen Hf. rewrite glob_lits by (by eapply lits_no_star). rewrite length_drop, Hlen, drop_drop.
  replace (mark + (t - mark)) with t by lia. split; [tauto|]. intros ?. split; [lia | done].
Qed.

Lemma inv_fits p t star mark : Forall (λ c, c ≠ "*") txt →
  t < length txt → fits pat txt p t = true → loop_inv p t star mark → loop_inv (S p) (S t) star mark.
Proof.
  intros Hns Ht (a & c & Ha & Hc & Hac)%fits_lookup [Hm Hi].
  assert (Hlit : lit_fits a c).
  { split; [|done]. intros ->. destruct Hac as [|<-]; [done|]. by apply (Forall_lookup_1 _ _ _ _ Hns Hc). }
  split; [lia|]. pose proof (drop_S pat _ _ Ha) as Ep. pose proof (drop_S txt _ _ Hc) as Et.
  destruct star as [sp|].
  - destruct Hi as (lits & E & Hlen & Hf & Hg). exists (lits ++ [a]). split_and!; [| | |done].
    + by rewrite E, Ep, <-app_assoc.
    + rewrite length_app. cbn. lia.
    + replace (S t - mark) with (S (t - mark)) by lia.
      rewrite (take_S_r _ _ c) by (rewrite lookup_drop; by replace (mark + (t - mark)) with t by lia).
      apply Forall2_app; [done|]. by constructor.
  - rewrite Hi, Ep, Et. split.
    + intros (? & ? & [= <- <-] & _ & ?)%glob_char_inv; [done | apply Hlit].
    + intros ?. apply glob_char; [apply Hlit | apply Hlit | done].
Qed.

Lemma inv_star p t star mark :
  pat !! p = Some "*" → loop_inv p t star mark → loop_inv (S p) t (Some p) t.
Proof.
  intros Hp [Hm Hi]. pose proof (drop_S pat _ _ Hp) as Ep. split; [lia|].
  exists []. rewrite Nat.sub_diag. split_and!; [done..| |].
  { rewrite take_0. constructor. }
  destruct star as [sp|]; [|by rewrite Hi, Ep].
  destruct Hi as (lits & E & Hlen & Hf & Hg). rewrite Hg, E, Ep. split.
  - intros (k & Hk & Hmatch)%glob_star_iff. rewrite length_drop in Hk.
    rewrite drop_drop in Hmatch.
    apply glob_lits in Hmatch as (Hle & _ & Hrest); [|by eapply lits_no_star].
    rewrite length_drop, Hlen in Hle. rewrite drop_drop, Hlen in Hrest.
    apply glob_star_iff in Hrest as (k' & Hk' & Hrest). rewrite drop_drop in Hrest.
    rewrite length_drop in Hk'. apply glob_star_iff. exists (k + k'). rewrite length_drop, drop_drop.
    split; [lia|]. by replace (t + (k + k')) with (mark + k + (t - mark) + k') by lia.
  - intros Hrest. apply glob_star_stop. by apply (glob_at_mark lits _ t mark).
Qed.

Lemma inv_backtrack p t sp mark :
  t < length txt → fits pat txt p t = false → pat !! p ≠ Some "*" →
  loop_inv p t (Some sp) mark → loop_inv (S sp) (S mark) (Some sp) (S mark).
Proof.
  intros Ht Hfit Hp [Hm (lits & E & Hlen & Hf & Hg)]. split; [lia|].
  exists []. rewrite Nat.sub_diag. split_and!; [done..| |]. { rewrite take_0. constructor. }
  assert (Hno : ¬ glob (drop (S sp) pat) (drop mark txt)).
  { rewrite E, (glob_at_mark lits _ t mark) by done. unfold fits in Hfit.
    destruct (lookup_lt_is_Some_2 txt t Ht) as [c Hc]. rewrite Hc in Hfit.
    rewrite (drop_S txt _ _ Hc). destruct (pat !! p) as [a|] eqn:Ha.
    - rewrite (drop_S pat _ _ Ha). apply orb_false_iff in Hfit as [H1%bool_decide_eq_false H2%bool_decide_eq_false].
      intros (? & ? & [= <- <-] & [?|?] & _)%glob_char_inv; congruence.
    - rewrite drop_ge by (by apply lookup_ge_None_1). by intros ?%glob_nil_inv. }
  rewrite Hg. destruct (lookup_lt_is_Some_2 txt mark ltac:(lia)) as [c Hc].
  rewrite (drop_S txt c mark Hc). rewrite (drop_S txt c mark Hc) in Hno.
  split; [by inversion 1 | by apply glob_star_more].
Qed.

Lemma inv_end p t star mark : ¬ t < length txt → loop_inv p t star mark →
  glob pat txt ↔ rest_stars pat p = true.
Proof.
  intros Ht [Hm Hi]. unfold rest_stars. rewrite <-glob_nil_stars.
  assert (t = length txt) as -> by lia. destruct star as [sp|]; [|by rewrite Hi, drop_all].
  destruct Hi as (lits & E & Hlen & Hf & Hg). rewrite Hg, E, glob_star_iff. split.
  - intros (k & Hk & Hmatch). rewrite length_drop in Hk. rewrite drop_drop in Hmatch.
    pose proof Hmatch as Hm'.
    apply glob_lits in Hm' as (Hle & _ & _); [|by eapply lits_no_star].
    rewrite length_drop, Hlen in Hle. assert (k = 0) as -> by lia. rewrite Nat.add_0_r in Hmatch.
    apply (glob_at_mark lits _ (length txt) mark) in Hmatch; [|done..]. by rewrite drop_all in Hmatch.
  - intros Hrest. exists 0. split; [lia|]. rewrite drop_0.
    apply (glob_at_mark lits _ (length txt) mark); [done..|]. by rewrite drop_all.
Qed.

Lemma wildcard_loop_sound fuel p t star mark r :
  Forall (λ c, c ≠ "*") txt → loop_inv p t star mark →
  wildcard_loop pat txt fuel p t star mark = Some r →
  glob pat txt ↔ match r with Some p => rest_stars pat p = true | None => False end.
Proof.
  intros Hns. revert p t star mark. induction fuel as [|fuel IH]; intros p t star mark Hi; [done|].
  cbn [wildcard_loop]. case_bool_decide as Ht; [|intros [= <-]; by eapply inv_end].
  destruct (fits pat txt p t) eqn:Hfit; [by apply IH, inv_fits|].
  case_bool_decide as Hp; [eapply IH, inv_star; eauto|].
  destruct star as [sp|]; [eapply IH, inv_backtrack; eauto|].
  intros [= <-]. destruct Hi as [Hm ->]. split; [|done].
  unfold fits in Hfit. destruct (lookup_lt_is_Some_2 txt t Ht) as [c Hc]. rewrite Hc in Hfit.
  rewrite (drop_S txt _ _ Hc). destruct (pat !! p) as [a|] eqn:Ha.
  - rewrite (drop_S pat _ _ Ha). apply orb_false_iff in Hfit as [H1%bool_decide_eq_false H2%bool_decide_eq_false].
    intros (? & ? & [= <- <-] & [?|?] & _)%glob_char_inv; congruence.
  - rewrite drop_ge by (by apply lookup_ge_None_1). by intros ?%glob_nil_inv.
Qed.

Lemma wildcard_result_total : is_Some (wildcard_result pat txt).
Proof.
  unfold wildcard_result. destruct (wildcard_terminates (wildcard_fuel pat txt) 0 0 None 0) as [[p|] ->];
    [lia | done | unfold wildcard_fuel, potential; lia | eauto | eauto].
Qed.

Lemma wildcard_result_glob b : Forall (λ c, c ≠ "*") txt →
  wildcard_result pat txt = Some b → b = true ↔ glob pat txt.
Proof.
  intros Hns. unfold wildcard_result. destruct (wildcard_loop _ _ _ _ _ _ _) as [r|] eqn:E; [|done].
  apply wildcard_loop_sound in E as ->; [| done |].
  - destruct r as [p|]; intros [= <-]; [done|]. split; [done|]. by intros [].
  - split; [lia | by rewrite !drop_0].
Qed.
End loop_correct.

(** ** Path patterns *)

(** [**] stands for any number of whole segments. *)
Inductive path_glob : list string → list string → Prop :=
  | path_nil : path_glob [] []
  | path_any p pre t : path_glob p t → path_glob ("**" :: p) (pre ++ t)
  | path_seg a p c t : a ≠ "**" → glob (chars a) (chars c) → path_glob p t →
      path_glob (a :: p) (c :: t).

(** A segment without the character [*]. *)
Definition plain_segment (s : string) : Prop := Forall (λ c, c ≠ "*") (chars s).

Lemma wildcard_match_glob pattern text : plain_segment text →
  wildcard_match pattern text = true ↔ glob (chars pattern) (chars text).
Proof.
  intros Ht. unfold wildcard_match.
  destruct (wildcard_result_total (chars pattern) (chars text)) as [b Hb]. rewrite Hb. cbn [default].
  by eapply wildcard_result_glob.
Qed.

Lemma segments_match_glob pattern path : Forall plain_segment path →
  segments_match pattern path = true ↔ path_glob pattern path.
Proof.
  revert path. induction pattern as [|head rest IH]; intros path Hp; cbn [segments_match].
  { destruct path; split; [constructor | done | done | by inversion 1]. }
  case_bool_decide as Hh.
  - subst head. rewrite existsb_exists. split.
    + intros (i & _ & Hi). apply IH in Hi; [|by apply Forall_drop].
      rewrite <-(take_drop i path). by apply path_any.
    + inversion 1 as [|p pre t Ht E1 E2|]; subst; [|done].
      exists (length pre). split; [apply in_seq; rewrite length_app; lia|].
      rewrite drop_app_length. apply IH; [by apply Forall_app in Hp as [_ ?] | done].
  - destruct path as [|c t]; [split; [done | by inversion 1]|].
    apply list.Forall_cons in Hp as [Hc Ht]. split.
    + destruct (wildcard_match head c) eqn:E; [|done]. intros ?%IH; [|done].
      apply wildcard_match_glob in E; [|done]. by apply path_seg.
    + inversion 1; subst; [done|]. rewrite (proj2 (wildcard_match_glob head c Hc)) by done.
      by apply IH.
Qed.

Lemma excluded_last_rule rules rel :
  is_excluded rules rel = true ↔ ∃ before r after, rules = before ++ r :: after ∧
    segments_match (segments r) (path_segments rel) = true ∧ negated r = false ∧
    Forall (λ r', segments_match (segments r') (path_segments rel) = false) after.
Proof.
  unfold is_excluded. induction rules as [|r rules IH] using rev_ind; cbn.
  { split; [done|]. intros ([] & ? & ? & ? & _); done. }
  rewrite foldl_app. cbn [foldl]. destruct (segments_match (segments r) _) eqn:Hr.
  - rewrite negb_true_iff. split.
    + intros Hn. exists rules, r, []. split_and!; [done..|constructor].
    + intros (b & r0 & a & E & Hm & Hn & Ha).
      destruct (decide (a = [])) as [->|Ha'].
      * by apply app_inj_2 in E as [_ [= <-]].
      * apply exists_last in Ha' as (a' & x & ->). rewrite app_comm_cons, app_assoc in E.
        apply app_inj_2 in E as [_ [= <-]]; [|done]. apply Forall_app in Ha as [_ [Hx _]%list.Forall_cons].
        congruence.
  - rewrite IH. split.
    + intros (b & r0 & a & -> & Hm & Hn & Ha). exists b, r0, (a ++ [r]).
      split_and!; [by rewrite <-app_assoc | done | done |]. apply Forall_app. by repeat constructor.
    + intros (b & r0 & a & E & Hm & Hn & Ha).
      destruct (decide (a = [])) as [->|Ha'].
      { apply app_inj_2 in E as [_ [= <-]]; [|done]. congruence. }
      apply exists_last in Ha' as (a' & x & ->). rewrite app_comm_cons, app_assoc in E.
      apply app_inj_2 in E as [-> [= <-]]; [|done]. apply Forall_app in Ha as [? _]. eauto 10.
Qed.

(** C35: an ignore file means what it says: the backtracking matcher terminates
    on every input, and a path whose segments contain no star is excluded exactly
    when the last rule whose pattern matches it (with [?], [*] inside a segment
    and [**] across segments) is not negated. *)
Theorem ignore_decides contents rel :
  (∀ pattern text, is_Some (wildcard_result (chars pattern) (chars text))) ∧
  (Forall plain_segment (path_segments rel) →
   is_excluded (parse_ignore contents) rel = true ↔
     ∃ before r after, parse_ignore contents = before ++ r :: after ∧
       path_glob (segments r) (path_segments rel) ∧ negated r = false ∧
       Forall (λ r', ¬ path_glob (segments r') (path_segments rel)) after).
Proof.
  split; [intros; apply wildcard_result_total|]. intros Hp. rewrite excluded_last_rule.
  setoid_rewrite <-(segments_match_glob _ (path_segments rel) Hp).
  setoid_rewrite not_true_iff_false. done.
Qed.

(** The literal comparison comes before the test for a star: a pattern star
    meets a star of the text as an ordinary character and no longer matches a run. *)
Lemma star_in_name : wildcard_match "*" "*a" = false ∧ glob (chars "*") (chars "*a").
Proof. split; [vm_compute; reflexivity|]. apply glob_star_more, glob_star_more, glob_star_stop, glob_nil. Qed.

Lemma ignore_decides_witness :
  is_excluded (parse_ignore ("target/**" +:+ String nl "" +:+ "*.log" +:+ String nl "" +:+ "!keep.log"))
    "target/x/y.o" = true ∧
  is_excluded (parse_ignore ("target/**" +:+ String nl "" +:+ "*.log" +:+ String nl "" +:+ "!keep.log"))
    "keep.log" = false.
Proof.
  split; [|vm_compute; reflexivity].
  apply (proj2 (ignore_decides _ "target/x/y.o")).
  - vm_compute. repeat constructor; discriminate.
  - exists [], {| segments := ["target"; "**"]; negated := false |}.
    exists [{| segments := ["*.log"]; negated := false |}; {| segments := ["keep.log"]; negated := true |}].
    split_and!; [vm_compute; reflexivity | | done |].
    + apply path_seg; [done | repeat first [apply glob_char; [done | by right |] | constructor] |].
      apply (path_any [] ["x"; "y.o"] []). constructor.
    + repeat constructor; inversion 1; match goal with H : path_glob _ (_ :: _) |- _ => inversion H end.
Defined.
