(* ===== verification/Layers.v ===== *)
(** * Layers: image layers, from a build step to a root file system

    [runtime/src/oci/build/layer.rs] (snapshots of a root file system, what a [RUN]
    changed and deleted, the layer made of it) and [runtime/src/oci/layers.rs]
    (extraction of a layer with whiteouts).  The host's file system is a map from
    absolute paths to inodes with symbolic links; compressed tar archives are
    lists of entries.  Unpacking one ordinary entry is code of the [tar] crate
    and the operation of a class, with its documented behaviour as the laws. *)

From Stdlib Require Import ZArith Lia Ascii Sorting.Sorted.
From stdpp Require Import base gmap strings list numbers sorting fin_maps.
From S2P Require Import Prelude RustStr.

Local Open Scope string_scope.
Local Open Scope list_scope.

(** ** File systems *)

Abbreviation path := (list string).

Inductive kind := KDir | KFile (content : string) | KLink (target : string).

#[export] Instance kind_eq_dec : EqDecision kind.
Proof. solve_decision. Defined.

Record inode := { i_kind : kind; i_mode : Z; i_uid : Z; i_gid : Z }.

Definition is_dir (i : inode) : bool := match i_kind i with KDir => true | _ => false end.

Abbreviation fs := (gmap path inode).

Definition remove_tree (t : path) (f : fs) : fs := filter (λ kv, ¬ t `prefix_of` kv.1) f.
Definition remove_children (t : path) (f : fs) : fs :=
  filter (λ kv, ¬ (t `prefix_of` kv.1 ∧ kv.1 ≠ t)) f.

(** Path resolution: [.], [..] and symbolic links, at most [links] of them.
    [None]: a component is missing or not a directory, or too many links. *)
Fixpoint walk (links : nat) (f : fs) : path → list string → option path :=
  fix go (cur : path) (comps : list string) : option path :=
    match comps with
    | [] => Some cur
    | c :: rest =>
        if bool_decide (c = "" ∨ c = ".") then go cur rest
        else if bool_decide (c = "..") then go (removelast cur) rest
        else match f !! (cur ++ [c]) with
             | None => None
             | Some i =>
                 match i_kind i with
                 | KDir => go (cur ++ [c]) rest
                 | KFile _ => if bool_decide (rest = []) then Some (cur ++ [c]) else None
                 | KLink t =>
                     match links with
                     | O => None
                     | S links => walk links f (if starts_with "/" t then [] else cur) (split "/" t ++ rest)
                     end
                 end
             end
    end.
Definition max_links : nat := 40.
Definition resolve_dir (f : fs) (comps : list string) : option path := walk max_links f [] comps.

(** [remove_path]: [symlink_metadata] follows the links of the parent; a
    directory that is named [.] or [..] loses its contents, not itself. *)
Definition remove_path (f : fs) (parent : list string) (name : string) : fs :=
  match resolve_dir f parent with
  | None => f
  | Some d =>
      if bool_decide (name = ".") then remove_children d f
      else if bool_decide (name = "..") then remove_children (removelast d) f
      else if bool_decide (name = "") then remove_tree d f
      else match f !! (d ++ [name]) with
           | None => f
           | Some i => if is_dir i then remove_tree (d ++ [name]) f else delete (d ++ [name]) f
           end
  end.

(** ** Entries of an archive *)

(** The components of the entry's path, and whether it is absolute. *)
Record tar_entry := { e_absolute : bool; e_path : list string; e_inode : inode }.

(** [Entry::unpack_in] of the archive library, with permissions and times preserved.  Owners and
    extended attributes are preserved too only when the process is root, so the law is of an
    extraction by root; and it is of an entry that replaces one of its own type (a directory is not
    written over a file, nor a file over a directory). *)
Class Unpack := {
  unpack_in : path → tar_entry → fs → option fs;
  (** An entry whose parents exist as directories of the target is written
      there, over what is not a directory where it is none. *)
  unpack_plain target p i f :
    p ≠ [] → Forall (λ c, c ≠ "" ∧ c ≠ "." ∧ c ≠ "..") p →
    (∀ q, q `prefix_of` target ++ removelast p → ∃ j, f !! q = Some j ∧ is_dir j = true) →
    (∀ j, f !! (target ++ p) = Some j → is_dir j = is_dir i) →
    unpack_in target {| e_absolute := false; e_path := p; e_inode := i |} f
      = Some (<[target ++ p := i]> f) }.

Inductive layer_error := ExtractFailed.

Section extract.
Context `{Unpack}.

(** The path the code joins an entry's parent to: an absolute one replaces the
    target directory. *)
Definition join_target (target : path) (e : tar_entry) (p : list string) : list string :=
  if e_absolute e then p else target ++ p.

Definition extract_entry (target : path) (f : fs) (e : tar_entry) : result layer_error fs :=
  if existsb (λ c, bool_decide (c = "..")) (e_path e) then Ok f
  else
    let file_name := List.last (e_path e) "" in
    let parent := join_target target e (removelast (e_path e)) in
    if bool_decide (file_name = ".wh..wh..opq") then
      Ok match resolve_dir f parent with
         | Some d => remove_children d f
         | None => f
         end
    else match strip_prefix ".wh." file_name with
         | Some victim => Ok (remove_path f parent victim)
         | None => ok_or ExtractFailed (unpack_in target e f)
         end.

Fixpoint extract_layer (target : path) (es : list tar_entry) (f : fs) : result layer_error fs :=
  match es with
  | [] => Ok f
  | e :: es => f ← extract_entry target f e; extract_layer target es f
  end.
End extract.

(** ** Snapshots *)

Record FileEntry := { fe_size : Z; fe_mtime : Z; fe_mode : Z; fe_is_dir : bool }.

(** What [walk_dir] records of a root file system: sizes and modification times
    come from the system. *)
Definition capture (stat : path → Z * Z) (r : fs) : gmap path FileEntry :=
  map_imap (λ p i, if bool_decide (p = []) then None
                   else Some {| fe_size := (stat p).1; fe_mtime := (stat p).2;
                                fe_mode := i_mode i; fe_is_dir := is_dir i |}) r.

(** The order of paths: component by component, bytes within a component. *)
Fixpoint path_leb (p q : path) : bool :=
  match p, q with
  | [], _ => true
  | _ :: _, [] => false
  | a :: p, b :: q =>
      match String.compare a b with Lt => true | Gt => false | Eq => path_leb p q end
  end.

Definition modified (b a : FileEntry) : bool :=
  negb (fe_size b =? fe_size a)%Z || negb (fe_mtime b =? fe_mtime a)%Z || negb (fe_mode b =? fe_mode a)%Z.

Definition diff (before after : gmap path FileEntry) : list path :=
  sort_by path_leb (List.filter (λ p,
    match after !! p, before !! p with
    | Some a, Some b => modified b a
    | Some _, None => true
    | None, _ => false
    end) (map_to_list after).*1).

Definition deletions (before after : gmap path FileEntry) : list path :=
  sort_by path_leb (List.filter (λ p,
    match after !! p with
    | Some _ => false
    | None => match removelast p with
              | [] => true
              | parent => bool_decide (is_Some (after !! parent))
              end
    end) (map_to_list before).*1).

(** ** Making a layer *)

(** With an owner, the header is filled from the metadata, which do not have the
    target of a link ([append_file_with_chown]). *)
Definition with_owner (chown : option (Z * Z)) (i : inode) : inode :=
  match chown with
  | Some (uid, gid) =>
      {| i_kind := match i_kind i with KLink _ => KLink "" | k => k end;
         i_mode := i_mode i; i_uid := uid; i_gid := gid |}
  | None => i
  end.

Definition whiteout (chown : option (Z * Z)) (p : path) : option tar_entry :=
  match p with
  | [] => None
  | _ =>
      Some {| e_absolute := false; e_path := removelast p ++ [".wh." +:+ List.last p ""];
              e_inode := with_owner chown {| i_kind := KFile ""; i_mode := 420; i_uid := 0; i_gid := 0 |} |}
  end.

Definition create_layer_with_chown (rootfs : fs) (changed deleted : list path)
    (chown : option (Z * Z)) : list tar_entry :=
  omap (λ p, i ← rootfs !! p;
             Some {| e_absolute := false; e_path := p; e_inode := with_owner chown i |}) changed
  ++ omap (whiteout chown) deleted.

Definition create_layer_with_deletions (rootfs : fs) (changed deleted : list path) : list tar_entry :=
  create_layer_with_chown rootfs changed deleted None.

(** The layer of a [RUN] step ([handle_run], after the command): none when
    nothing changed. *)
Definition run_layer (stat stat' : path → Z * Z) (before after : fs) : option (list tar_entry) :=
  let b := capture stat before in
  let a := capture stat' after in
  match diff b a, deletions b a with
  | [], [] => None
  | changed, deleted => Some (create_layer_with_deletions after changed deleted)
  end.

(** ** Sorted paths *)

Lemma ascii_compare_lt_trans a b c : Ascii.compare a b = Lt → Ascii.compare b c = Lt → Ascii.compare a c = Lt.
Proof. unfold Ascii.compare. rewrite !N.compare_lt_iff. lia. Qed.

Lemma ascii_compare_eq a b : Ascii.compare a b = Eq ↔ a = b.
Proof.
  unfold Ascii.compare. rewrite N.compare_eq_iff. split; [|by intros ->].
  intros E. by rewrite <-(ascii_N_embedding a), E, ascii_N_embedding.
Qed.

Lemma string_compare_refl s : String.compare s s = Eq.
Proof. induction s as [|a s IH]; [done|]. cbn. by rewrite (proj2 (ascii_compare_eq a a)). Qed.

Lemma string_compare_lt_trans s t u :
  String.compare s t = Lt → String.compare t u = Lt → String.compare s u = Lt.
Proof.
  revert t u. induction s as [|a s IH]; intros [|b t] [|c u]; cbn; try done.
  destruct (Ascii.compare a b) eqn:E1; [| |done]; destruct (Ascii.compare b c) eqn:E2; try done.
  - apply ascii_compare_eq in E1 as ->, E2 as ->. rewrite (proj2 (ascii_compare_eq c c)) by done. apply IH.
  - apply ascii_compare_eq in E1 as ->. by rewrite E2.
  - apply ascii_compare_eq in E2 as ->. by rewrite E1.
  - by rewrite (ascii_compare_lt_trans _ _ _ E1 E2).
Qed.

Lemma path_leb_total p q : path_leb p q = true ∨ path_leb q p = true.
Proof.
  revert q. induction p as [|a p IH]; intros [|b q]; cbn; auto.
  rewrite (String.compare_antisym b a). destruct (String.compare a b); cbn; auto.
Qed.

Lemma path_leb_trans p q r : path_leb p q = true → path_leb q r = true → path_leb p r = true.
Proof.
  revert q r. induction p as [|a p IH]; intros [|b q] [|c r]; cbn; try done.
  destruct (String.compare a b) eqn:E1; [| |done]; destruct (String.compare b c) eqn:E2; try done.
  - apply String.compare_eq_iff in E1 as ->, E2 as ->. rewrite string_compare_refl. apply IH.
  - apply String.compare_eq_iff in E1 as ->. by rewrite E2.
  - apply String.compare_eq_iff in E2 as ->. by rewrite E1.
  - by rewrite (string_compare_lt_trans _ _ _ E1 E2).
Qed.

(** A path comes before what lies below it. *)
Lemma path_leb_below p c q : path_leb (p ++ c :: q) p = false.
Proof. induction p as [|a p IH]; [done|]. cbn. by rewrite string_compare_refl. Qed.

Lemma sort_paths_sorted l : StronglySorted (λ a b, path_leb a b = true) (sort_by path_leb l).
Proof. apply sort_by_sorted; [apply path_leb_total | apply path_leb_trans]. Qed.

(** ** What a layer restores *)

Definition ordinary (c : string) : Prop :=
  c ≠ "" ∧ c ≠ "." ∧ c ≠ ".." ∧ starts_with ".wh." c = false.

(** A root file system: below a directory, with ordinary names. *)
Record rootfs_ok (r : fs) : Prop := {
  ro_root : ∃ i, r !! [] = Some i ∧ is_dir i = true;
  ro_parent : ∀ p c i, r !! (p ++ [c]) = Some i → ∃ j, r !! p = Some j ∧ is_dir j = true;
  ro_names : ∀ p i, r !! p = Some i → Forall ordinary p }.

(** The root file system [r] is the directory [target] of [f]. *)
Record mounted (target : path) (r f : fs) : Prop := {
  mo_lookup : ∀ p, f !! (target ++ p) = r !! p;
  mo_dirs : ∀ q, q `prefix_of` target → ∃ j, f !! q = Some j ∧ is_dir j = true }.

Lemma ro_prefix r p q i : rootfs_ok r → r !! (p ++ q) = Some i → q ≠ [] →
  ∃ j, r !! p = Some j ∧ is_dir j = true.
Proof.
  intros Hr. revert i. induction q as [|c q IH] using rev_ind; intros i Hi Hne; [done|].
  rewrite app_assoc in Hi. destruct (ro_parent r Hr _ _ _ Hi) as (j & Hj & Hd).
  destruct (decide (q = [])) as [->|]; [rewrite app_nil_r in Hj; eauto|]. by eapply IH.
Qed.

Section snapshots.
Context (stat stat' : path → Z * Z) (before after : fs).

Definition changed : list path := diff (capture stat before) (capture stat' after).
Definition deleted : list path := deletions (capture stat before) (capture stat' after).

Lemma capture_lookup st r p : capture st r !! p =
  if decide (p = []) then None
  else (λ i, {| fe_size := (st p).1; fe_mtime := (st p).2; fe_mode := i_mode i; fe_is_dir := is_dir i |}) <$> r !! p.
Proof.
  unfold capture. rewrite map_lookup_imap. destruct (r !! p) as [i|]; cbn; [|by destruct (decide _)].
  by case_bool_decide; destruct (decide _).
Qed.

Lemma elem_of_keys {A} (m : gmap path A) p : p ∈ (map_to_list m).*1 ↔ is_Some (m !! p).
Proof.
  rewrite list_elem_of_fmap. split.
  - intros ([k a] & -> & Hin%elem_of_map_to_list). by exists a.
  - intros [a Ha]. exists (p, a). by rewrite elem_of_map_to_list.
Qed.

Lemma elem_of_changed p : p ∈ changed ↔ p ≠ [] ∧ ∃ a, after !! p = Some a ∧
  (∀ b, before !! p = Some b → stat p ≠ stat' p ∨ i_mode b ≠ i_mode a).
Proof.
  unfold changed, diff. rewrite sort_by_perm, elem_of_filter_b, elem_of_keys, !capture_lookup.
  destruct (decide (p = [])) as [->|Hp]; [split; [by intros [[? ?] _] | by intros [? _]]|].
  destruct (after !! p) as [a|]; cbn; [|split; [by intros [[? ?] _] | by intros (_ & ? & ? & _)]].
  destruct (before !! p) as [b|]; cbn.
  - unfold modified. cbn. rewrite !orb_true_iff, !negb_true_iff, !Z.eqb_neq. split.
    + intros [_ Hm]. split; [done|]. exists a. split; [done|]. intros ? [= <-].
      destruct (stat p), (stat' p). cbn in *. destruct Hm as [[?|?]|?]; [left; congruence..|by right].
    + intros [_ (? & [= <-] & Hm)]. split; [eauto|]. destruct (stat p) as [s1 t1], (stat' p) as [s2 t2]. cbn.
      destruct (Hm b eq_refl) as [Hne|?]; [|by right].
      destruct (decide (s1 = s2)) as [->|]; [|by left; left]. left. right. congruence.
  - split; [intros _; split; [done|]; eauto | by eauto].
Qed.

Lemma elem_of_deleted p : p ∈ deleted ↔ p ≠ [] ∧ is_Some (before !! p) ∧ after !! p = None ∧
  (removelast p = [] ∨ is_Some (after !! removelast p)).
Proof.
  unfold deleted, deletions. rewrite sort_by_perm, elem_of_filter_b, elem_of_keys, !capture_lookup.
  destruct (decide (p = [])) as [->|Hp]; [split; [by intros [[? ?] _] | by intros [? _]]|].
  rewrite fmap_is_Some. destruct (after !! p) as [a|]; cbn; [split; [by intros [_ ?] | by intros (_ & _ & ? & _)]|].
  destruct (removelast p) as [|c q] eqn:E; [tauto|].
  rewrite bool_decide_eq_true, capture_lookup, decide_False by done. rewrite fmap_is_Some.
  split; [tauto|]. by intros (_ & ? & _ & [?|?]).
Qed.

Context (Hb : rootfs_ok before) (Ha : rootfs_ok after).
Context (Hsame : ∀ p b a, before !! p = Some b → after !! p = Some a →
  stat p = stat' p → i_mode b = i_mode a → b = a).
Context (Hroot : before !! [] = after !! []).
Context (Hshape : ∀ p b a, before !! p = Some b → after !! p = Some a → is_dir b = is_dir a).

(** What is neither changed nor deleted is the same. *)
Lemma unchanged p : p ∉ changed → is_Some (after !! p) → before !! p = after !! p.
Proof.
  intros Hn [a E]. destruct (decide (p = [])) as [->|Hp]; [done|]. rewrite E.
  destruct (before !! p) as [b|] eqn:Eb.
  - f_equal. apply (Hsame p); [done..| |]; apply dec_stable; intros Hne; apply Hn, elem_of_changed;
      (split; [done|]); exists a; (split; [done|]); intros b' Eb'; rewrite Eb in Eb'; injection Eb' as <-; tauto.
  - destruct Hn. apply elem_of_changed. split; [done|]. exists a. split; [done|]. by rewrite Eb.
Qed.

Lemma gone_deleted p : is_Some (before !! p) → after !! p = None → ∃ d, d ∈ deleted ∧ d `prefix_of` p.
Proof.
  induction p as [|c p IH] using rev_ind; intros [b Eb] En.
  { rewrite Hroot in Eb. congruence. }
  destruct (after !! p) as [a|] eqn:Ea.
  - exists (p ++ [c]). split; [|done]. apply elem_of_deleted. rewrite removelast_last.
    split_and!; [by destruct p | by eexists | done | right; by eexists].
  - destruct (ro_parent _ Hb _ _ _ Eb) as (j & Ej & _). destruct IH as (d & Hd & Hpre); [by eexists | done|].
    exists d. split; [done|]. by apply prefix_app_r.
Qed.

Lemma below_deleted d p : d ∈ deleted → d `prefix_of` p → after !! p = None.
Proof.
  intros (_ & _ & En & _)%elem_of_deleted [q ->].
  destruct (decide (q = [])) as [->|Hq]; [by rewrite app_nil_r|].
  destruct (after !! (d ++ q)) as [a|] eqn:E; [|done].
  destruct (ro_prefix _ _ _ _ Ha E Hq) as (j & Ej & _). congruence.
Qed.

(** Before the whiteouts: the changed paths on top of the old ones. *)
Definition overlay (done : list path) (p : path) : option inode :=
  if decide (p ∈ done) then after !! p else before !! p.

Lemma overlay_dir done p : p ∉ changed ∨ p ∈ done → (∃ a, after !! p = Some a ∧ is_dir a = true) →
  ∃ j, overlay done p = Some j ∧ is_dir j = true.
Proof.
  intros Hp (a & Ea & Hd). unfold overlay. destruct (decide (p ∈ done)); [eauto|].
  destruct Hp as [Hp|]; [|done]. rewrite unchanged by (done || by eexists). eauto.
Qed.

(** *** Extraction *)

Context `{Unpack} (target : path) (Htarget : Forall ordinary target).

(** What lies outside the target. *)
Definition outside (f f' : fs) : Prop := ∀ q, ¬ target `prefix_of` q → f' !! q = f !! q.

Definition holds (l : path → option inode) (f : fs) : Prop :=
  (∀ p, f !! (target ++ p) = l p) ∧ (∀ q, q `prefix_of` target → ∃ j, f !! q = Some j ∧ is_dir j = true).

Lemma ordinary_last p : Forall ordinary p → p ≠ [] → ordinary (List.last p "").
Proof. intros Hp Hne. apply exists_last in Hne as (q & c & ->). rewrite last_last. by apply Forall_app in Hp as [_ [? _]%list.Forall_cons]. Qed.

Lemma ordinary_no_dots p : Forall ordinary p → existsb (λ c, bool_decide (c = "..")) p = false.
Proof.
  intros Hp. apply not_true_iff_false. rewrite existsb_exists. intros (c & Hin & Hc%bool_decide_eq_true).
  rewrite List.Forall_forall in Hp. by destruct (Hp _ Hin) as (_ & _ & ? & _).
Qed.

Lemma ordinary_not_wh c : ordinary c → strip_prefix ".wh." c = None ∧ c ≠ ".wh..wh..opq".
Proof.
  intros (_ & _ & _ & Hc). unfold starts_with in Hc. split; [by destruct (strip_prefix ".wh." c)|].
  by intros ->.
Qed.

Lemma walk_dir_step n f cur c p j : ordinary c → f !! (cur ++ [c]) = Some j → is_dir j = true →
  walk n f cur (c :: p) = walk n f (cur ++ [c]) p.
Proof.
  intros (H1 & H2 & H3 & _) Ej Hj. unfold is_dir in Hj.
  destruct n; cbn [walk]; rewrite bool_decide_false by tauto; rewrite bool_decide_false by done;
    rewrite Ej; by destruct (i_kind j).
Qed.

(** Directories with ordinary names resolve to themselves. *)
Lemma resolve_dirs f cur p : Forall ordinary p →
  (∀ q, q `prefix_of` p → ∃ j, f !! (cur ++ q) = Some j ∧ is_dir j = true) →
  walk max_links f cur p = Some (cur ++ p).
Proof.
  revert cur. induction p as [|c p IH]; intros cur Hp Hd; [by rewrite app_nil_r|].
  apply list.Forall_cons in Hp as [Hc Hp]. destruct (Hd [c]) as (j & Ej & Hj); [by exists p|].
  rewrite (walk_dir_step _ _ _ _ _ j) by done.
  rewrite IH; [by rewrite <-app_assoc | done |]. intros q Hq. rewrite <-app_assoc. apply Hd. by apply prefix_cons.
Qed.

Lemma holds_insert done p i f : holds (overlay done) f → p ∉ done → after !! p = Some i → p ≠ [] →
  holds (overlay (done ++ [p])) (<[target ++ p := i]> f) ∧ outside f (<[target ++ p := i]> f).
Proof.
  intros [Hl Hd] Hn Ei Hp. split; [split|].
  - intros q. unfold overlay. destruct (decide (q = p)) as [->|Hq].
    + rewrite lookup_insert_eq, decide_True; [done|]. apply elem_of_app. right. by left.
    + rewrite lookup_insert_ne by (intros E%app_inv_head; congruence). rewrite Hl. unfold overlay.
      destruct (decide (q ∈ done)); [rewrite decide_True; [done | apply elem_of_app; by left]|].
      rewrite decide_False; [done|]. by intros [?|?%list_elem_of_singleton]%elem_of_app.
  - intros q Hq. rewrite lookup_insert_ne; [by apply Hd|]. intros <-. destruct Hq as [k Hk].
    rewrite <-app_assoc in Hk. apply (f_equal length) in Hk. rewrite !length_app in Hk.
    destruct p; [done|]. cbn in Hk. lia.
  - intros q Hq. rewrite lookup_insert_ne; [done|]. intros <-. destruct Hq. by exists p.
Qed.

Lemma extract_changed l1 l2 f : changed = l1 ++ l2 → holds (overlay l1) f →
  ∃ f', extract_layer target (omap (λ p, i ← after !! p;
    Some {| e_absolute := false; e_path := p; e_inode := with_owner None i |}) l2) f = Ok f' ∧
  holds (overlay changed) f' ∧ outside f f'.
Proof.
  revert l1 f. induction l2 as [|p l2 IH]; intros l1 f E Hf.
  { rewrite app_nil_r in E. rewrite E. exists f. by repeat split; try apply Hf. }
  assert (Hin : p ∈ changed) by (rewrite E; apply elem_of_app; right; by left).
  pose proof Hin as (Hp & a & Ea & _)%elem_of_changed. cbn [omap list_omap]. rewrite Ea. cbn [mbind option_bind].
  pose proof (ro_names _ Ha _ _ Ea) as Hnames.
  assert (Hsort : StronglySorted (λ a b, path_leb a b = true) changed) by apply sort_paths_sorted.
  assert (Hnd : NoDup changed).
  { unfold changed, diff. rewrite sort_by_perm. apply NoDup_ListNoDup, List.NoDup_filter, NoDup_ListNoDup, NoDup_fst_map_to_list. }
  rewrite E in Hnd, Hsort. apply NoDup_app in Hnd as (_ & Hnd & Hnd2). apply list.NoDup_cons in Hnd2 as [Hp2 _].
  assert (Hp1 : p ∉ l1). { intros Hl. apply (Hnd p Hl). left. }
  destruct (holds_insert l1 p a f Hf Hp1 Ea Hp) as [Hf1 Ho1].
  destruct (IH (l1 ++ [p]) (<[target ++ p := a]> f)) as (f' & Ef & Hf' & Ho); [by rewrite <-app_assoc | done |].
  exists f'. split; [|split; [done|]]; cycle 1.
  { intros q Hq. rewrite Ho, Ho1; done. }
  cbn [extract_layer]. unfold extract_entry. cbn [e_path e_absolute].
  rewrite ordinary_no_dots by done.
  destruct (ordinary_not_wh (List.last p "")) as [E1 E2]; [by apply ordinary_last|].
  rewrite bool_decide_false, E1 by done. cbn [with_owner].
  rewrite unpack_plain; [by cbn [ok_or mbind result_bind] | done | | |].
  - eapply list.Forall_impl; [exact Hnames|]. by intros c (? & ? & ? & _).
  - intros q [k Hk]. destruct (decide (q `prefix_of` target)) as [Hq|Hq]; [by apply Hf|].
    assert (∃ q', q = target ++ q' ∧ removelast p = q' ++ k) as (q' & -> & Hq').
    { symmetry in Hk. apply app_eq_inv in Hk as [(k' & E3 & E4)|(k' & E3 & E4)]; [eauto | destruct Hq; by exists k']. }
    destruct Hf as [Hl _]. rewrite Hl. apply exists_last in Hp as (p0 & c & ->). rewrite removelast_last in Hq'.
    apply overlay_dir.
    + destruct (decide (q' ∈ changed)) as [Hc|]; [|by left]. right. rewrite E in Hc.
      apply elem_of_app in Hc as [|[Hc|Hc]%elem_of_cons]; [done| |].
      * apply (f_equal length) in Hc. rewrite Hq', !length_app in Hc. cbn in Hc. lia.
      * apply StronglySorted_app_1_r in Hsort. inversion Hsort as [|? ? _ Hall]; subst.
        rewrite list.Forall_forall in Hall. specialize (Hall _ Hc).
        replace ((q' ++ k) ++ [c]) with (q' ++ (k ++ [c])) in Hall by (by rewrite app_assoc).
        destruct (k ++ [c]) as [|x y] eqn:Ek; [by destruct k|]. by rewrite path_leb_below in Hall.
    + rewrite Hq', <-app_assoc in Ea. apply (ro_prefix _ _ _ _ Ha Ea). by destruct k.
  - intros j Hj. destruct Hf as [Hl _]. rewrite Hl in Hj. unfold overlay in Hj. rewrite decide_False in Hj by done.
    by apply (Hshape p).
Qed.

(** *** Whiteouts *)

Lemma remove_tree_lookup t f p : remove_tree t f !! p = if decide (t `prefix_of` p) then None else f !! p.
Proof.
  unfold remove_tree. rewrite map_lookup_filter. destruct (f !! p) as [i|]; cbn; [|by destruct (decide _)].
  destruct (decide (t `prefix_of` p)); [by rewrite option_guard_False by tauto | by rewrite option_guard_True].
Qed.

Lemma prefix_app_target (d p : path) : target ++ d `prefix_of` target ++ p ↔ d `prefix_of` p.
Proof.
  split; [|apply prefix_app]. intros [k E]. rewrite <-app_assoc in E. apply app_inv_head in E. by exists k.
Qed.

(** The old and new paths without what is below [gone]. *)
Definition without (gone : list path) (p : path) : option inode :=
  if decide (Exists (λ d, d `prefix_of` p) gone) then None else overlay changed p.

Lemma overlay_deleted_child d q : d ∈ deleted → q ≠ [] → is_Some (overlay changed (d ++ q)) →
  ∃ j, before !! d = Some j ∧ is_dir j = true.
Proof.
  intros Hd Hq [i Hi]. unfold overlay in Hi. destruct (decide _) as [Hc|_].
  - rewrite (below_deleted d (d ++ q)) in Hi; [done | done | by exists q].
  - by apply (ro_prefix before d q i).
Qed.

Lemma holds_parent gone f q : holds (without gone) f → Forall (λ d, d ∈ deleted) gone →
  is_Some (after !! q) → (∀ k, k `prefix_of` q → ∃ j, f !! (target ++ k) = Some j ∧ (k ≠ q → is_dir j = true)).
Proof.
  intros [Hl _] Hg [a Ea] k [r ->]. rewrite Hl. unfold without. rewrite decide_False.
  - destruct (decide (r = [])) as [->|Hr].
    + rewrite app_nil_r in *. unfold overlay. destruct (decide (k ∈ changed)); [by eauto|].
      rewrite unchanged by (done || by eexists). by eauto.
    + destruct (ro_prefix _ _ _ _ Ha Ea Hr) as (j & Ej & Hj).
      destruct (overlay_dir changed k) as (j' & Ej' & Hj'); [|by eauto|by eauto].
      destruct (decide (k ∈ changed)); auto.
  - rewrite Exists_exists. intros (d & Hin & Hd). rewrite list.Forall_forall in Hg.
    rewrite (below_deleted d (k ++ r)) in Ea; [done | by apply Hg | by apply prefix_app_r].
Qed.

Lemma remove_deleted gone d f : holds (without gone) f → Forall (λ d, d ∈ deleted) gone → d ∈ deleted →
  (∃ j, after !! removelast d = Some j ∧ is_dir j = true) →
  let f' := remove_path f (target ++ removelast d) (List.last d "") in
  holds (without (gone ++ [d])) f' ∧ outside f f'.
Proof.
  intros Hf Hg Hd (j & Ej & Hj) f'. pose proof Hd as (Hne & [b Eb] & En & _)%elem_of_deleted.
  pose proof (ro_names _ Hb _ _ Eb) as Hnames.
  pose proof (ordinary_last d Hnames Hne) as (N1 & N2 & N3 & _).
  pose proof (app_removelast_last "" Hne) as Ed.
  assert (Hw : resolve_dir f (target ++ removelast d) = Some (target ++ removelast d)).
  { apply (resolve_dirs f []).
    - apply Forall_app. split; [done|]. rewrite Ed in Hnames. by apply Forall_app in Hnames as [? _].
    - intros q [r Hr]. destruct (decide (q `prefix_of` target)) as [Hq|Hq]; [by apply Hf|].
      symmetry in Hr. apply app_eq_inv in Hr as [(k & -> & Hk)|(k & -> & _)]; [|destruct Hq; by exists k].
      destruct (holds_parent gone f (removelast d) Hf Hg ltac:(by eexists) k) as (i & Ei & Hi); [by exists r|].
      cbn [app]. exists i. split; [done|]. destruct (decide (k = removelast d)) as [->|]; [|by apply Hi].
      destruct Hf as [Hl _]. rewrite Hl in Ei. unfold without, overlay in Ei.
      repeat case_decide; try done; [congruence|]. rewrite (Hshape (removelast d) i j); [done|done|done]. }
  assert (E : f' !! (target ++ d) = None ∧
              ∀ p, f' !! p = if decide (target ++ d `prefix_of` p) then None else f !! p).
  { unfold f', remove_path. rewrite Hw, !bool_decide_false by done.
    rewrite <-app_assoc, <-Ed. destruct (f !! (target ++ d)) as [i|] eqn:Ei.
    - destruct (is_dir i) eqn:Hi.
      + split; [|intros p]; rewrite remove_tree_lookup; [by rewrite decide_True | done].
      + split; [apply lookup_delete_eq|]. intros p. destruct (decide (target ++ d = p)) as [<-|Hp].
        { rewrite lookup_delete_eq. by rewrite decide_True. }
        rewrite lookup_delete_ne by done. destruct (decide (_ `prefix_of` p)) as [[q ->]|]; [|done].
        assert (q ≠ []) by (intros ->; by rewrite app_nil_r in Hp).
        destruct Hf as [Hl _]. rewrite <-app_assoc, Hl. unfold without. case_decide; [done|].
        destruct (overlay changed (d ++ q)) as [x|] eqn:Ex; [|done].
        destruct (overlay_deleted_child d q Hd) as (b' & Eb' & Hb'); [done | by eexists|].
        rewrite Hl in Ei. unfold without, overlay in Ei. repeat case_decide; congruence.
    - split; [done|]. intros p. destruct (decide (_ `prefix_of` p)) as [[q ->]|]; [|done].
      destruct (decide (q = [])) as [->|Hq]; [by rewrite app_nil_r|].
      destruct Hf as [Hl _]. rewrite <-app_assoc, Hl. rewrite Hl in Ei. unfold without in *.
      destruct (decide (Exists _ gone)) as [Hx|Hx] in |- *; [done|]. rewrite decide_False in Ei.
      + destruct (overlay changed (d ++ q)) as [x|] eqn:Ex; [|done].
        destruct (overlay_deleted_child d q Hd) as (b' & Eb' & Hb'); [done | by eexists|].
        unfold overlay in Ei. case_decide as Hc; [|congruence].
        by apply elem_of_changed in Hc as (_ & a & Ea & _); congruence.
      + intros Hy. apply Hx. eapply Exists_impl; [exact Hy|]. intros y Hyp. cbn. by apply prefix_app_r. }
  destruct E as [_ E]. destruct Hf as [Hl Hdirs]. split; [split|].
  - intros p. rewrite E, Hl. unfold without.
    destruct (decide (target ++ d `prefix_of` target ++ p)) as [Hp|Hp].
    + rewrite decide_True; [done|]. apply Exists_app. right. apply Exists_cons_hd. by apply prefix_app_target.
    + destruct (decide (Exists _ gone)) as [Hx|Hx].
      * rewrite decide_True; [done|]. apply Exists_app. by left.
      * rewrite decide_False; [done|]. intros [?|Hy]%Exists_app; [done|].
        inversion Hy as [? ? Hz|? ? Hz]; [|by inversion Hz]. apply Hp. by apply prefix_app_target.
  - intros q Hq. rewrite E, decide_False; [by apply Hdirs|]. intros Hp.
    assert (target ++ d `prefix_of` target) as [r Hr] by (by etrans).
    rewrite <-app_assoc in Hr. apply (f_equal length) in Hr. rewrite !length_app in Hr.
    destruct d; [done|]. cbn in Hr. lia.
  - intros q Hq. rewrite E, decide_False; [done|]. intros [r ->]. destruct Hq. rewrite <-app_assoc. by exists (d ++ r).
Qed.

Lemma deleted_parent_dir d : d ∈ deleted → ∃ j, after !! removelast d = Some j ∧ is_dir j = true.
Proof.
  intros (Hne & [b Eb] & _ & Hp)%elem_of_deleted. pose proof (app_removelast_last "" Hne) as Ed.
  rewrite Ed in Eb. destruct (ro_parent _ Hb _ _ _ Eb) as (i & Ei & Hi).
  destruct Hp as [Hp|[a Ea]].
  - rewrite Hp in *. rewrite Hroot in Ei. eauto.
  - exists a. split; [done|]. by rewrite <-(Hshape _ _ _ Ei Ea).
Qed.

Lemma extract_deleted l1 l2 f : deleted = l1 ++ l2 → holds (without l1) f →
  ∃ f', extract_layer target (omap (whiteout None) l2) f = Ok f' ∧
  holds (without deleted) f' ∧ outside f f'.
Proof.
  revert l1 f. induction l2 as [|d l2 IH]; intros l1 f E Hf.
  { rewrite app_nil_r in E. rewrite E. exists f. by repeat split; try apply Hf. }
  assert (Hin : d ∈ deleted) by (rewrite E; apply elem_of_app; right; by left).
  assert (Hg : Forall (λ d, d ∈ deleted) l1).
  { apply list.Forall_forall. intros x Hx. rewrite E. apply elem_of_app. by left. }
  destruct (remove_deleted l1 d f Hf Hg Hin (deleted_parent_dir d Hin)) as [Hf1 Ho1].
  destruct (IH (l1 ++ [d]) _ ltac:(by rewrite <-app_assoc) Hf1) as (f' & Ef & Hf' & Ho).
  exists f'. split; [|split; [done|]]; cycle 1. { intros q Hq. rewrite Ho, Ho1; done. }
  pose proof Hin as (Hne & [b Eb] & _)%elem_of_deleted.
  pose proof (ro_names _ Hb _ _ Eb) as Hnames. pose proof (ordinary_last d Hnames Hne) as Hlast.
  assert (Hw : whiteout None d = Some {| e_absolute := false;
      e_path := removelast d ++ [".wh." +:+ List.last d ""];
      e_inode := {| i_kind := KFile ""; i_mode := 420; i_uid := 0; i_gid := 0 |} |}) by (by destruct d).
  cbn [omap list_omap]. rewrite Hw. cbn [extract_layer]. unfold extract_entry, join_target.
  cbn [e_path e_absolute]. rewrite existsb_app, last_last, removelast_last, strip_prefix_app.
  rewrite ordinary_no_dots; cycle 1.
  { rewrite (app_removelast_last "" Hne) in Hnames. by apply Forall_app in Hnames as [? _]. }
  cbn [existsb orb]. rewrite bool_decide_false by done. cbn [orb].
  rewrite bool_decide_false; [done|]. intros Ex. injection Ex as Ex. destruct Hlast as (_ & _ & _ & Hl).
  by rewrite Ex in Hl.
Qed.

Lemma extract_app es es' f : extract_layer target (es ++ es') f =
  f1 ← extract_layer target es f; extract_layer target es' f1.
Proof.
  revert f. induction es as [|e es IH]; intros f; [done|]. cbn [app extract_layer].
  destruct (extract_entry target f e) as [f1|x]; cbn [mbind result_bind]; [apply IH | done].
Qed.

Lemma run_layer_restores f : mounted target before f →
  ∃ f', extract_layer target (default [] (run_layer stat stat' before after)) f = Ok f' ∧
    mounted target after f' ∧ outside f f'.
Proof.
  intros [Hl Hd]. unfold run_layer. fold changed deleted.
  assert (E : default [] match changed, deleted with
              | [], [] => None
              | ch, de => Some (create_layer_with_deletions after ch de)
              end = create_layer_with_deletions after changed deleted).
  { destruct changed, deleted; done. }
  rewrite E. unfold create_layer_with_deletions, create_layer_with_chown. rewrite extract_app.
  destruct (extract_changed [] changed f) as (f1 & E1 & Hf1 & Ho1); [done | |].
  { split; [|done]. intros p. unfold overlay. rewrite decide_False; [done | apply not_elem_of_nil]. }
  rewrite E1. cbn [mbind result_bind].
  destruct (extract_deleted [] deleted f1) as (f2 & E2 & [Hl2 Hd2] & Ho2); [done | |].
  { destruct Hf1 as [Hl1 Hd1]. split; [|done]. intros p. rewrite Hl1. unfold without.
    rewrite decide_False; [done|]. by inversion 1. }
  exists f2. split; [done|]. split; [split; [|done]|].
  - intros p. rewrite Hl2. unfold without. case_decide as Hx.
    + apply Exists_exists in Hx as (d & Hin & Hp). by rewrite (below_deleted d p).
    + destruct (after !! p) as [a|] eqn:Ea.
      * unfold overlay. case_decide; [done|]. rewrite unchanged by (done || by eexists). done.
      * unfold overlay. case_decide; [done|]. destruct (before !! p) as [b|] eqn:Eb; [|done].
        destruct (gone_deleted p) as (d & Hin & Hp); [by eexists | done|].
        destruct Hx. apply Exists_exists. eauto.
  - intros q Hq. rewrite Ho2, Ho1; done.
Qed.
End snapshots.


(** ** What goes wrong *)

(** A step that only changes owners leaves no trace. *)
Lemma chown_lost stat before after :
  (∀ p, i_mode <$> before !! p = i_mode <$> after !! p) → run_layer stat stat before after = None.
Proof.
  intros Hm. unfold run_layer.
  assert (Hch : diff (capture stat before) (capture stat after) = []).
  { apply elem_of_nil_inv. intros p Hp. fold (changed stat stat before after) in Hp.
    apply elem_of_changed in Hp as (_ & a & Ea & Hp). specialize (Hm p). rewrite Ea in Hm.
    destruct (before !! p) as [b|]; [|done]. injection Hm as Hm. by destruct (Hp b eq_refl). }
  assert (Hde : deletions (capture stat before) (capture stat after) = []).
  { apply elem_of_nil_inv. intros p Hp. fold (deleted stat stat before after) in Hp.
    apply elem_of_deleted in Hp as (_ & [b Eb] & En & _). specialize (Hm p). by rewrite Eb, En in Hm. }
  by rewrite Hch, Hde.
Qed.

(** A whiteout with an absolute path deletes files of the host. *)
Lemma whiteout_escapes `{Unpack} target d name f i wh :
  Forall ordinary d → ordinary name →
  (∀ q, q `prefix_of` d → ∃ j, f !! q = Some j ∧ is_dir j = true) →
  f !! (d ++ [name]) = Some i → is_dir i = false →
  extract_layer target [{| e_absolute := true; e_path := d ++ [".wh." +:+ name]; e_inode := wh |}] f
    = Ok (delete (d ++ [name]) f).
Proof.
  intros Hd Hn Hdirs Hi Hf. cbn [extract_layer]. unfold extract_entry, join_target.
  cbn [e_path e_absolute]. rewrite existsb_app, ordinary_no_dots by done. cbn [existsb orb].
  rewrite bool_decide_false by done. cbn [orb]. rewrite last_last, removelast_last, strip_prefix_app.
  destruct Hn as (N1 & N2 & N3 & N4). rewrite bool_decide_false; cycle 1.
  { intros E. injection E as E. by rewrite E in N4. }
  cbn [mbind result_bind]. unfold remove_path, resolve_dir.
  rewrite (resolve_dirs f [] d) by done. cbn [app]. by rewrite !bool_decide_false, Hi, Hf by done.
Qed.

(** The name [.wh...] is no parent component, but its victim is [..]: the whole
    directory that holds the target is emptied. *)
Lemma whiteout_dotdot `{Unpack} d t f wh :
  Forall ordinary d → ordinary t →
  (∀ q, q `prefix_of` d ++ [t] → ∃ j, f !! q = Some j ∧ is_dir j = true) →
  extract_layer (d ++ [t]) [{| e_absolute := false; e_path := [".wh..."]; e_inode := wh |}] f
    = Ok (remove_children d f).
Proof.
  intros Hd Ht Hdirs. cbn [extract_layer]. unfold extract_entry, join_target.
  cbn [e_path e_absolute existsb]. rewrite !bool_decide_false by done. cbn [orb List.last removelast].
  change (strip_prefix ".wh." ".wh...") with (Some ".."). cbn [mbind result_bind]. rewrite app_nil_r.
  unfold remove_path, resolve_dir. rewrite (resolve_dirs f [] (d ++ [t])); [|apply Forall_app; split; [done | by apply list.Forall_singleton]|done].
  cbn [app]. rewrite bool_decide_false by done. rewrite bool_decide_true by done. by rewrite removelast_last.
Qed.

(** ** A concrete run *)

Definition toy_unpack : Unpack.
Proof. refine {| unpack_in target e f := Some (<[target ++ e_path e := e_inode e]> f) |}. done. Defined.

Definition toy_dir : inode := {| i_kind := KDir; i_mode := 493; i_uid := 0; i_gid := 0 |}.
Definition toy_text (s : string) : inode := {| i_kind := KFile s; i_mode := 420; i_uid := 0; i_gid := 0 |}.
Definition toy_before : fs := {[ [] := toy_dir; ["old"] := toy_text "x" ]}.
Definition toy_after : fs := {[ [] := toy_dir; ["new"] := toy_text "y" ]}.
Definition toy_host : fs := {[ [] := toy_dir; ["t"] := toy_dir; ["t"; "old"] := toy_text "x" ]}.

Lemma toy_rootfs name s : ordinary name → rootfs_ok {[ [] := toy_dir; [name] := toy_text s ]}.
Proof.
  intros Hn.
  assert (Hin : ∀ p i, ({[ [] := toy_dir; [name] := toy_text s ]} : fs) !! p = Some i → p = [] ∨ p = [name]).
  { intros p i [[<- _]|[_ [<- _]%lookup_singleton_Some]]%lookup_insert_Some; auto. }
  split.
  - exists toy_dir. split; [apply lookup_insert_eq | done].
  - intros p c i [E|E]%Hin; [by destruct p|]. destruct p as [|x p]; [|by destruct p].
    exists toy_dir. split; [apply lookup_insert_eq | done].
  - intros p i [->| ->]%Hin; [constructor | by apply list.Forall_singleton].
Qed.


(** A link that is copied with [--chown] loses its target. *)
Lemma chowned_link_loses_target :
  let link := {| i_kind := KLink "libc.so.6"; i_mode := 511; i_uid := 0; i_gid := 0 |} in
  map e_inode (create_layer_with_chown {[ ["lib"] := link ]} [["lib"]] [] (Some (1000, 1000)%Z))
  = [{| i_kind := KLink ""; i_mode := 511; i_uid := 1000; i_gid := 1000 |}].
Proof. vm_compute. reflexivity. Qed.
