(* ===== verification/Dockerfile.v ===== *)
(** * Dockerfile: the parser of build files

    [runtime/src/oci/build/dockerfile/] (logical lines, one parser per
    instruction, quoting, durations) and [instruction_to_string] of
    [runtime/src/oci/build/engine/handlers.rs], which writes the instruction of an
    [ONBUILD] trigger into an image, to be parsed again by a later build.
    [serde_json] on arrays of strings and Unicode upper-casing are arguments. *)

From Stdlib Require Import ZArith Lia Ascii Floats.SpecFloat.
From stdpp Require Import base gmap strings list numbers.
From S2P Require Import Prelude RustStr RustFloat Text.

Local Open Scope string_scope.
Local Open Scope list_scope.
Local Open Scope nat_scope.

(** ** Data *)

Inductive Instruction :=
  | From_ (image : string) (alias : option string)
  | Run (command : string)
  | Copy (src : list string) (dst : string) (from chown : option string)
  | Workdir (path : string)
  | Env (vars : list (string * string))
  | Entrypoint (exec : list string)
  | Cmd (exec : list string)
  | Expose (ports : list string)
  | Label (pairs : list (string * string))
  | User (user : string)
  | Arg (name : string) (default : option string)
  | Add (src : list string) (dst : string) (chown : option string)
  | Shell (exec : list string)
  | StopSignal (signal : string)
  | HealthCheck (cmd : option (list string)) (interval timeout retries start_period : option Z)
  | OnBuild (instruction : Instruction)
  | Volume (paths : list string).

(** The errors of the parser.  [Panics]: a slice whose end precedes its start;
    [Diverges]: the model's fuel ran out, which never happens ([parse_instruction_total]). *)
Inductive parse_problem :=
  | Requires (keyword : string)
  | ExecForm
  | JsonForm (keyword : string)
  | TooFewPaths (keyword : string)
  | InvalidToken (keyword token : string)
  | ShellNotJson
  | ShellEmpty
  | BadRetries (value : string)
  | BadDuration (value : string)
  | ExpectedCmd (keyword : string)
  | CmdRequired
  | OnbuildOnbuild
  | OnbuildFrom
  | VolumeEmpty
  | EmptyStage
  | FromTwice
  | UnknownFlag (keyword flag : string)
  | InvalidJson (text : string)
  | UnknownInstruction (keyword : string).

Inductive docker_error :=
  | Panics
  | Diverges
  | EmptyFile
  | FirstNotFrom
  | AtLine (line : nat) (problem : parse_problem).

(** ** Lines and words *)

Fixpoint join_lines (ls : list string) (current : string) : list string :=
  match ls with
  | [] => if is_empty current then [] else [current]
  | line :: ls =>
      match strip_suffix "\" line with
      | Some stripped => join_lines ls (current +:+ trim_end stripped +:+ " ")
      | None => (current +:+ line) :: join_lines ls ""
      end
  end.
Definition join_continuation_lines (content : string) : list string := join_lines (lines content) "".

Definition split_first_word (s : string) : string * string :=
  let '(w, r) := break_ws (trim s) in (w, trim_start r).

(** [rest.splitn(3, char::is_whitespace)] *)
Definition splitn3_ws (s : string) : list string :=
  let '(p0, r) := break_ws s in
  match strip_ws r with
  | None => [p0]
  | Some r =>
      let '(p1, r) := break_ws r in
      match strip_ws r with None => [p0; p1] | Some p2 => [p0; p1; p2] end
  end.

(** Double and single quotes. *)
Definition dq : ascii := "034"%char.
Definition sq : ascii := "'"%char.

(** [s[1..s.len() - 1]] *)
Definition slice_inner (s : string) : result docker_error string :=
  if (String.length s <? 2) then Err Panics
  else Ok (String.substring 1 (String.length s - 2) s).

Definition quoted_by (q : ascii) (s : string) : bool :=
  starts_with (String q "") s && ends_with (String q "") s.

Definition unquote (s : string) : result docker_error string :=
  let s := trim s in
  if quoted_by dq s || quoted_by sq s then slice_inner s else Ok s.

(** [shell_split] does not look at quotes. *)
Definition shell_split (s : string) : list string := split_whitespace s.

(** [cur] is the current token, reversed. *)
Fixpoint tokenize_go (s : string) (quote : option ascii) (cur : string) (has_content : bool)
    : list string :=
  let flush k := if has_content then str_rev cur :: k else k in
  match s with
  | "" => flush []
  | String a r1 =>
      match quote with
      | Some q => tokenize_go r1 (if Ascii.eqb a q then None else Some q) (String a cur) has_content
      | None =>
          let keep := tokenize_go r1 None (String a cur) true in
          if Ascii.eqb a dq || Ascii.eqb a sq then tokenize_go r1 (Some a) (String a cur) true
          else if ws1 a then flush (tokenize_go r1 None "" false)
          else match r1 with
               | "" => keep
               | String b r2 =>
                   if ws2 a b then flush (tokenize_go r2 None "" false)
                   else match r2 with
                        | "" => keep
                        | String c r3 =>
                            if ws3 a b c then flush (tokenize_go r3 None "" false) else keep
                        end
               end
      end
  end.
Definition tokenize_quoted (s : string) : list string := tokenize_go s None "" false.

(** ** Durations *)

Definition is_ascii_alphabetic (c : ascii) : bool := is_lower c || is_upper c.

(** The longest prefix of ASCII letters and [µ]. *)
Fixpoint take_unit (s : string) : string * string :=
  match s with
  | "" => ("", "")
  | String a r1 =>
      if is_ascii_alphabetic a then let '(u, r) := take_unit r1 in (String a u, r)
      else match r1 with
           | String b r2 =>
               if ((code a =? 0xC2) && (code b =? 0xB5))%Z
               then let '(u, r) := take_unit r2 in (String a (String b u), r)
               else ("", s)
           | "" => ("", s)
           end
  end.
Fixpoint take_number (s : string) : string * string :=
  match s with
  | String a r1 =>
      if is_digit a || Ascii.eqb a "." then let '(n, r) := take_number r1 in (String a n, r)
      else ("", s)
  | "" => ("", "")
  end.

Definition micro : string := String "194"%char (String "181"%char "s").
Definition unit_secs (unit : string) : option spec_float :=
  if bool_decide (unit = "ns") then Some (f64_of_decimal false 1 (-9))
  else if bool_decide (unit = "us" ∨ unit = micro) then Some (f64_of_decimal false 1 (-6))
  else if bool_decide (unit = "ms") then Some (f64_of_decimal false 1 (-3))
  else if bool_decide (unit = "s") then Some (int_as_f64 1)
  else if bool_decide (unit = "m") then Some (int_as_f64 60)
  else if bool_decide (unit = "h") then Some (int_as_f64 3600)
  else None.

(** One [<number><unit>] segment per round; [None] is invalid. *)
Fixpoint duration_segments (fuel : nat) (s : string) (total : spec_float) (saw_unit : bool)
    : option spec_float :=
  match fuel with
  | O => None
  | S fuel =>
      if is_empty s then if saw_unit then Some total else None
      else
        let '(num, r) := take_number s in
        if is_empty r then None
        else
          let '(unit, r) := take_unit r in
          if is_empty num || is_empty unit then None
          else
            value ← parse_f64 num;
            u ← unit_secs unit;
            duration_segments fuel r (f64_add total (f64_mul value u)) true
  end.

Definition docker_duration_secs (text : string) (line : nat) : result docker_error Z :=
  let s := trim text in
  if is_empty s then Ok 0%Z
  else match parse_uint 64 s with
       | Some n => Ok n
       | None =>
           match duration_segments (S (String.length s)) s (S754_zero false) false with
           | Some total => Ok (f64_round_as_uint 64 total)
           | None => Err (AtLine line (BadDuration s))
           end
       end.

(** ** Instructions *)

Section parser.
Context (to_uppercase : string → string) (from_json : string → option (list string)).

Abbreviation parsed A := (result docker_error A).

Definition parse_json_array (s : string) (line : nat) : parsed (list string) :=
  ok_or (AtLine line (InvalidJson s)) (from_json s).

(** The check every parser starts with. *)
Definition require (keyword rest : string) (line : nat) : parsed () :=
  if is_empty rest then Err (AtLine line (Requires keyword)) else Ok ().

(** Exec form in JSON, or shell form. *)
Definition exec_or_shell (rest : string) (line : nat) : parsed (list string) :=
  if starts_with "[" rest then parse_json_array rest line else Ok ["/bin/sh"; "-c"; rest].

Definition parse_from (rest : string) (line : nat) : parsed Instruction :=
  _ ← require "FROM" rest line;
  Ok match splitn3_ws rest with
     | p0 :: p1 :: p2 :: _ =>
         if eq_ignore_ascii_case p1 "AS" then From_ p0 (Some (trim p2)) else From_ p0 None
     | p0 :: _ => From_ p0 None
     | [] => From_ "" None
     end.

Definition parse_run (rest : string) (line : nat) : parsed Instruction :=
  _ ← require "RUN" rest line;
  if starts_with "[" rest then Err (AtLine line ExecForm) else Ok (Run rest).

Fixpoint copy_flags_loop (fuel : nat) (line : nat) (from chown : option string) (remaining : string)
    : parsed (option string * option string * string) :=
  match fuel with
  | O => Err Diverges
  | S fuel =>
      let trimmed := trim_start remaining in
      if negb (starts_with "--" trimmed) then Ok (from, chown, trimmed)
      else
        let '(flag, after) := split_first_word trimmed in
        match strip_prefix "--from=" flag with
        | Some stage =>
            if is_empty stage then Err (AtLine line EmptyStage)
            else match from with
                 | Some _ => Err (AtLine line FromTwice)
                 | None => copy_flags_loop fuel line (Some stage) chown after
                 end
        | None =>
            match strip_prefix "--chown=" flag with
            | Some owner => copy_flags_loop fuel line from (Some owner) after
            | None => Err (AtLine line (UnknownFlag "COPY" flag))
            end
        end
  end.
Definition parse_copy_flags (rest : string) (line : nat) :=
  copy_flags_loop (S (String.length rest)) line None None rest.

Fixpoint add_flags_loop (fuel : nat) (line : nat) (chown : option string) (remaining : string)
    : parsed (option string * string) :=
  match fuel with
  | O => Err Diverges
  | S fuel =>
      let trimmed := trim_start remaining in
      if negb (starts_with "--" trimmed) then Ok (chown, trimmed)
      else
        let '(flag, after) := split_first_word trimmed in
        match strip_prefix "--chown=" flag with
        | Some owner => add_flags_loop fuel line (Some owner) after
        | None => Err (AtLine line (UnknownFlag "ADD" flag))
        end
  end.
Definition parse_add_flags (rest : string) (line : nat) :=
  add_flags_loop (S (String.length rest)) line None rest.

(** Sources and, last, the destination. *)
Definition src_dst (keyword remaining : string) (line : nat) : parsed (list string * string) :=
  if starts_with "[" remaining then Err (AtLine line (JsonForm keyword))
  else
    let parts := shell_split remaining in
    if (length parts <? 2) then Err (AtLine line (TooFewPaths keyword))
    else Ok (removelast parts, List.last parts "").

Definition parse_copy (rest : string) (line : nat) : parsed Instruction :=
  _ ← require "COPY" rest line;
  '(from, chown, remaining) ← parse_copy_flags rest line;
  '(src, dst) ← src_dst "COPY" remaining line;
  Ok (Copy src dst from chown).

Definition parse_add (rest : string) (line : nat) : parsed Instruction :=
  _ ← require "ADD" rest line;
  '(chown, remaining) ← parse_add_flags rest line;
  '(src, dst) ← src_dst "ADD" remaining line;
  Ok (Add src dst chown).

Definition parse_workdir (rest : string) (line : nat) : parsed Instruction :=
  _ ← require "WORKDIR" rest line; Ok (Workdir rest).

Definition is_kv_form (rest : string) : bool :=
  match find_char "=" rest, find_ws rest with
  | Some eq, Some sp => eq <? sp
  | Some _, None => true
  | _, _ => false
  end.

Definition parse_pair (keyword : string) (line : nat) (token : string) : parsed (string * string) :=
  match split_once "=" token with
  | Some (key, value) =>
      if is_empty key then Err (AtLine line (InvalidToken keyword token))
      else v ← unquote value; Ok (key, v)
  | None => Err (AtLine line (InvalidToken keyword token))
  end.

Definition parse_env (rest : string) (line : nat) : parsed Instruction :=
  _ ← require "ENV" rest line;
  if is_kv_form rest then
    vars ← mapM (parse_pair "ENV" line) (tokenize_quoted rest); Ok (Env vars)
  else let '(key, value) := split_first_word rest in Ok (Env [(key, value)]).

Definition parse_label (rest : string) (line : nat) : parsed Instruction :=
  _ ← require "LABEL" rest line;
  if is_kv_form rest then
    pairs ← mapM (parse_pair "LABEL" line) (tokenize_quoted rest); Ok (Label pairs)
  else
    let '(key, value) := split_first_word rest in
    v ← unquote value; Ok (Label [(key, v)]).

Definition parse_entrypoint (rest : string) (line : nat) : parsed Instruction :=
  _ ← require "ENTRYPOINT" rest line; exec ← exec_or_shell rest line; Ok (Entrypoint exec).
Definition parse_cmd (rest : string) (line : nat) : parsed Instruction :=
  _ ← require "CMD" rest line; exec ← exec_or_shell rest line; Ok (Cmd exec).

Definition normalize_port (p : string) : string := if has_char "/" p then p else p +:+ "/tcp".
Definition parse_expose (rest : string) (line : nat) : parsed Instruction :=
  _ ← require "EXPOSE" rest line; Ok (Expose (map normalize_port (split_whitespace rest))).

Definition parse_user (rest : string) (line : nat) : parsed Instruction :=
  _ ← require "USER" rest line; Ok (User (default rest (head (split_whitespace rest)))).

Definition parse_arg (rest : string) (line : nat) : parsed Instruction :=
  _ ← require "ARG" rest line;
  match split_once "=" rest with
  | Some (name, value) => d ← unquote value; Ok (Arg name (Some d))
  | None => Ok (Arg (trim rest) None)
  end.

Definition parse_shell (rest : string) (line : nat) : parsed Instruction :=
  _ ← require "SHELL" rest line;
  if negb (starts_with "[" rest) then Err (AtLine line ShellNotJson)
  else
    exec ← parse_json_array rest line;
    match exec with [] => Err (AtLine line ShellEmpty) | _ => Ok (Shell exec) end.

Definition parse_stopsignal (rest : string) (line : nat) : parsed Instruction :=
  _ ← require "STOPSIGNAL" rest line; Ok (StopSignal (trim rest)).

Record health_opts := {
  ho_interval : option Z; ho_timeout : option Z; ho_retries : option Z; ho_start_period : option Z }.
Definition no_opts : health_opts :=
  {| ho_interval := None; ho_timeout := None; ho_retries := None; ho_start_period := None |}.

Fixpoint health_flags_loop (fuel : nat) (line : nat) (o : health_opts) (remaining : string)
    : parsed (health_opts * string) :=
  match fuel with
  | O => Err Diverges
  | S fuel =>
      let trimmed := trim_start remaining in
      let '(flag, after) := split_first_word trimmed in
      let value (p d : string) := default d (strip_prefix p flag) in
      if starts_with "--interval=" trimmed then
        n ← docker_duration_secs (value "--interval=" "30s") line;
        health_flags_loop fuel line {| ho_interval := Some n; ho_timeout := ho_timeout o;
          ho_retries := ho_retries o; ho_start_period := ho_start_period o |} after
      else if starts_with "--timeout=" trimmed then
        n ← docker_duration_secs (value "--timeout=" "30s") line;
        health_flags_loop fuel line {| ho_interval := ho_interval o; ho_timeout := Some n;
          ho_retries := ho_retries o; ho_start_period := ho_start_period o |} after
      else if starts_with "--retries=" trimmed then
        n ← ok_or (AtLine line (BadRetries (value "--retries=" "3"))) (parse_uint 32 (value "--retries=" "3"));
        health_flags_loop fuel line {| ho_interval := ho_interval o; ho_timeout := ho_timeout o;
          ho_retries := Some n; ho_start_period := ho_start_period o |} after
      else if starts_with "--start-period=" trimmed then
        n ← docker_duration_secs (value "--start-period=" "0s") line;
        health_flags_loop fuel line {| ho_interval := ho_interval o; ho_timeout := ho_timeout o;
          ho_retries := ho_retries o; ho_start_period := Some n |} after
      else Ok (o, remaining)
  end.

Definition parse_healthcheck (rest : string) (line : nat) : parsed Instruction :=
  _ ← require "HEALTHCHECK" rest line;
  if eq_ignore_ascii_case (trim rest) "NONE" then Ok (HealthCheck None None None None None)
  else
    '(o, remaining) ← health_flags_loop (S (String.length rest)) line no_opts rest;
    let '(keyword, cmd_rest) := split_first_word (trim_start remaining) in
    if negb (eq_ignore_ascii_case keyword "CMD") then Err (AtLine line (ExpectedCmd keyword))
    else if is_empty cmd_rest then Err (AtLine line CmdRequired)
    else
      cmd ← exec_or_shell cmd_rest line;
      Ok (HealthCheck (Some cmd) (ho_interval o) (ho_timeout o) (ho_retries o) (ho_start_period o)).

Definition parse_volume (rest : string) (line : nat) : parsed Instruction :=
  _ ← require "VOLUME" rest line;
  paths ← (if starts_with "[" rest then parse_json_array rest line else Ok (split_whitespace rest));
  match paths with [] => Err (AtLine line VolumeEmpty) | _ => Ok (Volume paths) end.

Definition parse_maintainer (rest : string) (line : nat) : parsed Instruction :=
  if is_empty (trim rest) then Err (AtLine line (Requires "MAINTAINER"))
  else Ok (Label [("maintainer", trim rest)]).

(** [parse_onbuild], given the parser of the inner instruction. *)
Definition parse_onbuild (inner : string → nat → parsed Instruction) (rest : string) (line : nat)
    : parsed Instruction :=
  _ ← require "ONBUILD" rest line;
  i ← inner rest line;
  match i with
  | OnBuild _ => Err (AtLine line OnbuildOnbuild)
  | From_ _ _ => Err (AtLine line OnbuildFrom)
  | _ => Ok (OnBuild i)
  end.

Definition simple_parsers : list (string * (string → nat → parsed Instruction)) :=
  [("FROM", parse_from); ("RUN", parse_run); ("COPY", parse_copy); ("WORKDIR", parse_workdir);
   ("ENV", parse_env); ("ENTRYPOINT", parse_entrypoint); ("CMD", parse_cmd);
   ("EXPOSE", parse_expose); ("LABEL", parse_label); ("USER", parse_user); ("ARG", parse_arg);
   ("ADD", parse_add); ("SHELL", parse_shell); ("STOPSIGNAL", parse_stopsignal);
   ("HEALTHCHECK", parse_healthcheck); ("VOLUME", parse_volume); ("MAINTAINER", parse_maintainer)].

Fixpoint find_parser (keyword : string) (ps : list (string * (string → nat → parsed Instruction))) :=
  match ps with
  | [] => None
  | (k, p) :: ps => if bool_decide (k = keyword) then Some p else find_parser keyword ps
  end.

(** [ONBUILD] parses its argument recursively; the argument is shorter. *)
Fixpoint parse_instruction_go (fuel : nat) (text : string) (line : nat) : parsed Instruction :=
  match fuel with
  | O => Err Diverges
  | S fuel =>
      let '(keyword, rest) := split_first_word text in
      let upper := to_uppercase keyword in
      if bool_decide (upper = "ONBUILD") then parse_onbuild (parse_instruction_go fuel) rest line
      else match find_parser upper simple_parsers with
           | Some p => p rest line
           | None => Err (AtLine line (UnknownInstruction keyword))
           end
  end.
Definition parse_instruction (text : string) (line : nat) : parsed Instruction :=
  parse_instruction_go (S (String.length text)) text line.

Definition parse_single_instruction (text : string) : parsed Instruction :=
  parse_instruction (trim text) 0.

(** ** The file *)

Fixpoint parse_logical (ls : list string) (line_num : nat) : parsed (list Instruction) :=
  match ls with
  | [] => Ok []
  | line :: ls =>
      let trimmed := trim line in
      if is_empty trimmed || starts_with "#" trimmed then parse_logical ls (S line_num)
      else
        i ← parse_instruction trimmed (S line_num);
        instrs ← parse_logical ls (S line_num);
        Ok (i :: instrs)
  end.

Definition is_arg (i : Instruction) : bool := match i with Arg _ _ => true | _ => false end.
Definition is_from (i : Instruction) : bool := match i with From_ _ _ => true | _ => false end.

Definition parse_dockerfile (content : string) : parsed (list Instruction) :=
  instrs ← parse_logical (join_continuation_lines content) 0;
  match instrs with
  | [] => Err EmptyFile
  | _ =>
      match List.find (λ i, negb (is_arg i)) instrs with
      | Some i => if is_from i then Ok instrs else Err FirstNotFrom
      | None => Err FirstNotFrom
      end
  end.
End parser.

(** ** Writing an instruction back ([instruction_to_string]) *)

(** [{:?}] of a [str]: quotes, backslashes and control characters are escaped.
    Bytes above ASCII stay as they are, as [Debug] leaves printable characters. *)
Definition backslash : ascii := "\"%char.
Definition lower_hex (n : Z) : string :=
  if (n <? 16)%Z then String (hex_digit n) "" else hex2 n.
Definition debug_char (a : ascii) : string :=
  if Ascii.eqb a dq || Ascii.eqb a backslash then String backslash (String a "")
  else if (code a =? 0)%Z then "\0"
  else if (code a =? 9)%Z then "\t"
  else if (code a =? 10)%Z then "\n"
  else if (code a =? 13)%Z then "\r"
  else if ((code a <? 32) || (code a =? 127))%Z then "\u{" +:+ lower_hex (code a) +:+ "}"
  else String a "".
Fixpoint debug_body (s : string) : string :=
  match s with "" => "" | String a r => debug_char a +:+ debug_body r end.
Definition debug_str (s : string) : string := String dq (debug_body s) +:+ String dq "".
Definition debug_vec (l : list string) : string := "[" +:+ join ", " (map debug_str l) +:+ "]".

Definition show_pair (kv : string * string) : string := kv.1 +:+ "=" +:+ kv.2.
Definition flag_text (flag : string) (o : option string) : string :=
  match o with Some v => " --" +:+ flag +:+ "=" +:+ v | None => "" end.

Fixpoint instruction_to_string (i : Instruction) : string :=
  match i with
  | Run command => "RUN " +:+ command
  | Copy src dst from chown =>
      "COPY" +:+ flag_text "from" from +:+ flag_text "chown" chown +:+ " " +:+ join " " src +:+ " " +:+ dst
  | Add src dst chown =>
      "ADD" +:+ flag_text "chown" chown +:+ " " +:+ join " " src +:+ " " +:+ dst
  | Workdir path => "WORKDIR " +:+ path
  | Env vars => "ENV " +:+ join " " (map show_pair vars)
  | Entrypoint exec => "ENTRYPOINT " +:+ debug_vec exec
  | Cmd exec => "CMD " +:+ debug_vec exec
  | Expose ports => "EXPOSE " +:+ join " " ports
  | Label pairs => "LABEL " +:+ join " " (map show_pair pairs)
  | User user => "USER " +:+ user
  | Arg name (Some d) => "ARG " +:+ name +:+ "=" +:+ d
  | Arg name None => "ARG " +:+ name
  | Shell exec => "SHELL " +:+ debug_vec exec
  | StopSignal signal => "STOPSIGNAL " +:+ signal
  | HealthCheck (Some c) _ _ _ _ => "HEALTHCHECK CMD " +:+ join " " c
  | HealthCheck None _ _ _ _ => "HEALTHCHECK NONE"
  | OnBuild instruction => "ONBUILD " +:+ instruction_to_string instruction
  | Volume paths => "VOLUME " +:+ join " " paths
  | From_ image (Some a) => "FROM " +:+ image +:+ " AS " +:+ a
  | From_ image None => "FROM " +:+ image
  end.

(** ** Every loop ends *)

Lemma split_first_word_length s w r : split_first_word s = (w, r) →
  String.length w + String.length r ≤ String.length s ∧ (r = "" ∨ String.length r < String.length s).
Proof.
  unfold split_first_word. destruct (break_ws (trim s)) as [w0 r0] eqn:E. intros [= <- <-].
  pose proof (break_ws_app (trim s)) as Ha. pose proof (break_ws_rest (trim s)) as Hr.
  rewrite E in Ha, Hr. cbn [fst snd] in *. pose proof (trim_length s) as Hl.
  rewrite Ha, str_length_app in Hl. destruct Hr as [->|[t Ht]].
  - split; [cbn; lia | by left].
  - rewrite (trim_start_strip _ _ Ht). pose proof (strip_ws_length _ _ Ht). pose proof (trim_start_length t).
    split; [lia | right; lia].
Qed.

Lemma split_first_word_flag p s w r : starts_with p s = true → p ≠ "" →
  split_first_word s = (w, r) → String.length r < String.length s.
Proof.
  intros Hp Hne Hw. destruct (split_first_word_length s w r Hw) as [_ [->|?]]; [|done].
  apply starts_with_spec in Hp as [t ->]. rewrite str_length_app. destruct p; [done | cbn; lia].
Qed.

Section total.
Context (to_uppercase : string → string) (from_json : string → option (list string)).

Lemma copy_flags_total fuel line from chown s : String.length s < fuel →
  copy_flags_loop fuel line from chown s ≠ Err Diverges.
Proof.
  revert from chown s. induction fuel as [|fuel IH]; intros from chown s Hs; [lia|].
  cbn [copy_flags_loop]. destruct (starts_with "--" (trim_start s)) eqn:Hf; [|done].
  destruct (split_first_word (trim_start s)) as [flag after] eqn:Ew.
  pose proof (split_first_word_flag "--" _ _ _ Hf ltac:(done) Ew). pose proof (trim_start_length s).
  cbn [negb]. repeat case_match; try done; apply IH; lia.
Qed.

Lemma add_flags_total fuel line chown s : String.length s < fuel →
  add_flags_loop fuel line chown s ≠ Err Diverges.
Proof.
  revert chown s. induction fuel as [|fuel IH]; intros chown s Hs; [lia|].
  cbn [add_flags_loop]. destruct (starts_with "--" (trim_start s)) eqn:Hf; [|done].
  destruct (split_first_word (trim_start s)) as [flag after] eqn:Ew.
  pose proof (split_first_word_flag "--" _ _ _ Hf ltac:(done) Ew). pose proof (trim_start_length s).
  cbn [negb]. repeat case_match; try done; apply IH; lia.
Qed.

Lemma duration_total s line : docker_duration_secs s line ≠ Err Diverges.
Proof. unfold docker_duration_secs. repeat case_match; done. Qed.

Lemma bind_total {A B} (m : result docker_error A) (f : A → result docker_error B) :
  m ≠ Err Diverges → (∀ a, f a ≠ Err Diverges) → m ≫= f ≠ Err Diverges.
Proof. destruct m; cbn; [done | congruence]. Qed.

Lemma health_flags_total fuel line o s : String.length s < fuel →
  health_flags_loop fuel line o s ≠ Err Diverges.
Proof.
  revert o s. induction fuel as [|fuel IH]; intros o s Hs; [lia|]. cbn [health_flags_loop].
  destruct (split_first_word (trim_start s)) as [flag after] eqn:Ew. pose proof (trim_start_length s).
  repeat match goal with
  | |- context [if starts_with ?p ?t then _ else _] =>
      destruct (starts_with p t) eqn:?;
        [pose proof (split_first_word_flag p _ _ _ ltac:(eassumption) ltac:(done) Ew);
         apply bind_total;
           [first [apply duration_total | unfold ok_or; by case_match] | intros; apply IH; lia]|]
  end; done.
Qed.

Lemma unquote_total s : unquote s ≠ Err Diverges.
Proof. unfold unquote, slice_inner. repeat case_match; done. Qed.

Lemma pairs_total k line ts : mapM (parse_pair k line) ts ≠ Err Diverges.
Proof.
  induction ts as [|t ts IH]; [done|].
  change (mapM (parse_pair k line) (t :: ts)) with
    (p ← parse_pair k line t; ps ← mapM (parse_pair k line) ts; mret (p :: ps)).
  apply bind_total; [|intros; by apply bind_total].
  unfold parse_pair. repeat case_match; try done. apply bind_total; [apply unquote_total | done].
Qed.

Lemma exec_total s line : exec_or_shell from_json s line ≠ Err Diverges.
Proof. unfold exec_or_shell, parse_json_array, ok_or. repeat case_match; done. Qed.

Lemma json_total s line : parse_json_array from_json s line ≠ Err Diverges.
Proof. unfold parse_json_array, ok_or. repeat case_match; done. Qed.

Lemma require_total k s line : require k s line ≠ Err Diverges.
Proof. unfold require. by case_match. Qed.

Lemma src_dst_total k s line : src_dst k s line ≠ Err Diverges.
Proof. unfold src_dst. repeat case_match; done. Qed.

#[local] Hint Resolve require_total json_total exec_total pairs_total unquote_total src_dst_total : a3s.

Lemma simple_parser_total k p rest line :
  find_parser k (simple_parsers from_json) = Some p → p rest line ≠ Err Diverges.
Proof.
  unfold simple_parsers. cbn [find_parser].
  repeat (case_bool_decide; [intros [= <-] | ]); [..|done];
    unfold parse_from, parse_run, parse_copy, parse_workdir, parse_env, parse_entrypoint, parse_cmd,
      parse_expose, parse_label, parse_user, parse_arg, parse_add, parse_shell, parse_stopsignal,
      parse_healthcheck, parse_volume, parse_maintainer, parse_copy_flags, parse_add_flags;
    repeat first
      [ done
      | by auto with a3s
      | apply copy_flags_total; lia
      | apply add_flags_total; lia
      | apply health_flags_total; lia
      | apply bind_total; [|intros]
      | case_match ].
Qed.

Lemma parse_instruction_go_total fuel s line : String.length s < fuel →
  parse_instruction_go to_uppercase from_json fuel s line ≠ Err Diverges.
Proof.
  revert s. induction fuel as [|fuel IH]; intros s Hs; [lia|]. cbn [parse_instruction_go].
  destruct (split_first_word s) as [w r] eqn:Ew. case_bool_decide.
  - unfold parse_onbuild. unfold require. destruct (is_empty r) eqn:Hr; [done|]. cbn [mbind result_bind].
    apply bind_total; [|intros i; by destruct i].
    destruct (split_first_word_length _ _ _ Ew) as [_ [->|?]]; [done|]. apply IH. lia.
  - destruct (find_parser _ _) as [p|] eqn:Ep; [by eapply simple_parser_total | done].
Qed.

Lemma parse_instruction_total s line : parse_instruction to_uppercase from_json s line ≠ Err Diverges.
Proof. apply parse_instruction_go_total. lia. Qed.
End total.

(** ** What is written is read back *)

Definition unquoted (s : string) : bool := negb (has_char dq s) && negb (has_char sq s).
(** Visible text without quotes, possibly empty. *)
Definition clean (s : string) : bool := str_forallb visible s && unquoted s.
Definition plain_pair (kv : string * string) : bool :=
  word kv.1 && negb (has_char "=" kv.1) && unquoted kv.1 && clean kv.2.
Definition plain_words (ws : list string) : bool :=
  forallb word ws && match ws with [] => false | w :: _ => negb (starts_with "[" w) end.
(** The first source is not taken for a flag. *)
Definition plain_sources (src : list string) : bool :=
  plain_words src && match src with [] => false | w :: _ => negb (starts_with "--" w) end.
Definition opt_b {A} (f : A → bool) (o : option A) : bool := match o with Some a => f a | None => true end.

(** The instructions whose text is read back: no white space where the printer
    does not quote it, and no health check with a command. *)
Fixpoint plain (i : Instruction) : bool :=
  match i with
  | From_ image alias => word image && opt_b tidy alias
  | Run command => tidy command && negb (starts_with "[" command)
  | Copy src dst from chown =>
      plain_sources src && word dst && opt_b word from && opt_b (str_forallb visible) chown
  | Workdir path => tidy path
  | Env vars | Label vars => forallb plain_pair vars && negb (bool_decide (vars = []))
  | Entrypoint _ | Cmd _ => true
  | Expose ports => forallb (λ p, word p && has_char "/" p) ports && negb (bool_decide (ports = []))
  | User user => word user
  | Arg name None => tidy name && negb (has_char "=" name)
  | Arg name (Some d) => word name && negb (has_char "=" name) && clean d
  | Add src dst chown => plain_sources src && word dst && opt_b (str_forallb visible) chown
  | Shell exec => negb (bool_decide (exec = []))
  | StopSignal signal => tidy signal
  | HealthCheck cmd interval timeout retries start_period =>
      bool_decide (cmd = None ∧ interval = None ∧ timeout = None ∧ retries = None ∧ start_period = None)
  | OnBuild i => plain i && match i with OnBuild _ | From_ _ _ => false | _ => true end
  | Volume paths => plain_words paths
  end.

Lemma split_first_word_space w r : word w = true → tidy r = true →
  split_first_word (w +:+ String " " r) = (w, r).
Proof.
  intros Hw Hr. unfold split_first_word.
  rewrite trim_tidy by (change (String " " r) with (" " +:+ r); rewrite <-str_app_assoc; apply tidy_app; auto with a3s).
  rewrite break_ws_space by auto with a3s. by rewrite trim_start_space, trim_start_first by auto with a3s.
Qed.

Lemma split_first_word_only w : word w = true → split_first_word w = (w, "").
Proof.
  intros Hw. unfold split_first_word. rewrite trim_tidy by auto with a3s.
  by rewrite break_ws_word by auto with a3s.
Qed.

(** The first of several words. *)
Lemma split_first_word_join w ws : word w = true → Forall (λ w, word w = true) ws →
  split_first_word (join " " (w :: ws)) = (w, join " " ws).
Proof.
  intros Hw Hws. destruct ws as [|w' ws]; [by apply split_first_word_only|].
  apply split_first_word_space; [done|]. by apply join_words_tidy.
Qed.

Lemma join_starts p w ws : str_forallb visible p = true →
  starts_with p (join " " (w :: ws)) = starts_with p w.
Proof. intros Hp. destruct ws as [|w' ws]; [done|]. by apply starts_with_word. Qed.

Lemma unquote_clean s : clean s = true → unquote s = Ok s.
Proof.
  intros [Hv [H1%negb_true_iff H2%negb_true_iff]%andb_true_iff]%andb_true_iff.
  unfold unquote. rewrite trim_visible by done. unfold quoted_by. rewrite !starts_with_char.
  destruct s as [|a s]; [done|]. cbn [has_char] in H1, H2. apply orb_false_iff in H1 as [H1 _], H2 as [H2 _].
  rewrite !(Ascii.eqb_sym _ a), H1, H2. done.
Qed.

(** *** Tokens *)

Lemma tokenize_go_word w s cur b : str_forallb visible w = true → unquoted w = true →
  tokenize_go (w +:+ s) None cur b
    = tokenize_go s None (str_rev w +:+ cur) (b || negb (is_empty w)).
Proof.
  revert cur b. induction w as [|a w IH]; intros cur b; cbn [str_forallb String.append]; [by rewrite orb_false_r|].
  intros [Ha Hw]%andb_true_iff [Hd%negb_true_iff Hs%negb_true_iff]%andb_true_iff.
  cbn [has_char] in Hd, Hs. apply orb_false_iff in Hd as [Hd Hd'], Hs as [Hs Hs'].
  destruct (visible_not_ws a Ha) as (H1 & H2 & H3).
  transitivity (tokenize_go (w +:+ s) None (String a cur) true).
  - cbn [tokenize_go]. rewrite Hd, Hs, H1. cbn [orb].
    destruct (w +:+ s) as [|x r]; [done|]. rewrite (proj1 (H2 x)). destruct r as [|c r]; [done|].
    by rewrite (proj1 (H3 x c)).
  - rewrite IH; [|done | unfold unquoted; by rewrite Hd', Hs'].
    rewrite str_rev_cons, str_app_assoc. by destruct b.
Qed.

Lemma tokenize_words ws : Forall (λ w, word w = true ∧ unquoted w = true) ws →
  tokenize_quoted (join " " ws) = ws.
Proof.
  unfold tokenize_quoted. intros Hws. induction Hws as [|w ws [Hw Hu] Hws IH]; [done|].
  assert (Hv := word_visible _ Hw). assert (He := word_ne _ Hw).
  destruct ws as [|w' ws].
  - change (join " " [w]) with w. rewrite <-(str_app_nil_r w) at 1.
    rewrite tokenize_go_word by done. rewrite str_app_nil_r. cbn [tokenize_go].
    by rewrite He, str_rev_involutive.
  - change (join " " (w :: w' :: ws)) with (w +:+ String " " (join " " (w' :: ws))).
    rewrite tokenize_go_word by done. rewrite str_app_nil_r, He. cbn [negb orb].
    change (tokenize_go (String " " ?r) None ?c true) with (str_rev c :: tokenize_go r None "" false).
    by rewrite str_rev_involutive, IH.
Qed.

Lemma plain_pair_word kv : plain_pair kv = true →
  word (show_pair kv) = true ∧ unquoted (show_pair kv) = true.
Proof.
  unfold plain_pair, clean, unquoted, word, show_pair. destruct kv as [k v]. cbn [fst snd].
  rewrite !andb_true_iff, !negb_true_iff. intros Hp. destruct_and! Hp.
  rewrite !has_char_app, !str_forallb_app.
  repeat match goal with E : _ = true |- _ => rewrite E | E : has_char _ _ = false |- _ => rewrite E end.
  by destruct k.
Qed.

Lemma parse_pair_show k line kv : plain_pair kv = true → parse_pair k line (show_pair kv) = Ok kv.
Proof.
  destruct kv as [key v]. unfold plain_pair. cbn [fst snd]. rewrite !andb_true_iff, negb_true_iff.
  intros (((Hk & He) & _) & Hv). unfold parse_pair, show_pair. cbn [fst snd].
  change ("=" +:+ v) with (String "=" v). rewrite split_once_app by done.
  rewrite word_ne by done. by rewrite unquote_clean.
Qed.

Lemma pairs_kv_form kvs : forallb plain_pair kvs = true → kvs ≠ [] →
  is_kv_form (join " " (map show_pair kvs)) = true.
Proof.
  destruct kvs as [|[k v] kvs]; [done|]. cbn [forallb]. intros [Hp _]%andb_true_iff _.
  pose proof (plain_pair_word _ Hp) as [Hw _]. unfold plain_pair in Hp. cbn [fst snd] in Hp.
  rewrite !andb_true_iff, negb_true_iff in Hp. destruct Hp as (((_ & He) & _) & _).
  cbn [map]. set (r := map show_pair kvs). unfold is_kv_form.
  assert (∃ t, join " " (show_pair (k, v) :: r) = k +:+ String "=" t) as [t Et].
  { destruct r as [|w r]; [by exists v|]. exists (v +:+ " " +:+ join " " (w :: r)).
    rewrite join_cons2. unfold show_pair. cbn [fst snd]. by rewrite !str_app_assoc. }
  rewrite Et, find_char_app by done. rewrite <-Et. unfold find_ws.
  assert (Hlt : (String.length k <? String.length (show_pair (k, v))) = true).
  { apply Nat.ltb_lt. unfold show_pair. cbn [fst snd]. rewrite !str_length_app. cbn. lia. }
  destruct r as [|w r].
  - change (join " " [show_pair (k, v)]) with (show_pair (k, v)).
    by rewrite break_ws_word by auto with a3s.
  - rewrite join_cons2. change (" " +:+ ?s) with (String " " s). by rewrite break_ws_space by auto with a3s.
Qed.

Lemma pairs_parse k line kvs : forallb plain_pair kvs = true →
  mapM (parse_pair k line) (tokenize_quoted (join " " (map show_pair kvs))) = Ok kvs.
Proof.
  intros Hp. rewrite tokenize_words.
  - apply mapM_Ok_Forall2. induction kvs as [|kv kvs IH]; [constructor|].
    cbn [forallb] in Hp. apply andb_true_iff in Hp as [H1 H2]. constructor; [by apply parse_pair_show | auto].
  - apply List.Forall_map. rewrite forallb_forall in Hp. apply List.Forall_forall.
    intros kv Hin. by apply plain_pair_word, Hp.
Qed.

(** *** Flags, sources and destination *)

Definition flag_words (flag : string) (o : option string) : list string :=
  match o with Some v => ["--" +:+ flag +:+ "=" +:+ v] | None => [] end.

Lemma flag_words_ok flag o : str_forallb visible flag = true → opt_b (str_forallb visible) o = true →
  Forall (λ w, word w = true) (flag_words flag o).
Proof.
  intros Hf Ho. destruct o as [v|]; constructor; [|done]. cbn [opt_b] in Ho. unfold word.
  by rewrite !str_forallb_app, Hf, Ho.
Qed.

Lemma join_app sep l1 l2 : l1 ≠ [] → l2 ≠ [] → join sep (l1 ++ l2) = join sep l1 +:+ sep +:+ join sep l2.
Proof.
  intros H1 H2. induction l1 as [|x [|y l1] IH]; [done | by destruct l2 |].
  cbn [app]. rewrite !join_cons2, str_app_assoc, str_app_assoc. f_equal. f_equal. by apply IH.
Qed.

(** The text of the flags and of what follows, as words. *)
Lemma flags_join flag o ws : ws ≠ [] →
  flag_text flag o +:+ " " +:+ join " " ws = " " +:+ join " " (flag_words flag o ++ ws).
Proof.
  intros Hws. destruct o as [v|]; [|done]. unfold flag_words, flag_text. rewrite join_app by done.
  change (join " " [?x]) with x. by rewrite !str_app_assoc.
Qed.

Lemma src_dst_words k line src dst : plain_sources src = true → word dst = true →
  src_dst k (join " " (src ++ [dst])) line = Ok (src, dst).
Proof.
  intros [[Hw Hb]%andb_true_iff _]%andb_true_iff Hd. unfold src_dst.
  destruct src as [|w src]; [done|]. apply negb_true_iff in Hb. change ((w :: src) ++ [dst]) with (w :: (src ++ [dst])).
  rewrite join_starts, Hb by done. unfold shell_split. rewrite split_whitespace_words.
  - rewrite (proj2 (Nat.ltb_ge _ _)) by (cbn; rewrite length_app; cbn; lia).
    change (w :: src ++ [dst]) with ((w :: src) ++ [dst]). by rewrite removelast_last, last_last.
  - rewrite forallb_forall in Hw. change (w :: src ++ [dst]) with ((w :: src) ++ [dst]).
    apply Forall_app. split; [apply List.Forall_forall; exact Hw | by repeat constructor].
Qed.

Lemma sources_words src dst : plain_sources src = true → word dst = true →
  Forall (λ w, word w = true) (src ++ [dst]) ∧ src ≠ [] ∧
  starts_with "--" (join " " (src ++ [dst])) = false ∧
  trim_start (join " " (src ++ [dst])) = join " " (src ++ [dst]).
Proof.
  intros [[Hw _]%andb_true_iff Hf]%andb_true_iff Hd.
  assert (Hall : Forall (λ w, word w = true) (src ++ [dst])).
  { rewrite forallb_forall in Hw. apply Forall_app. split; [apply List.Forall_forall; exact Hw | by repeat constructor]. }
  destruct src as [|w src]; [done|]. split_and!; [done | done | |].
  - change ((w :: src) ++ [dst]) with (w :: (src ++ [dst])). rewrite join_starts by done. by apply negb_true_iff.
  - apply trim_start_first, tidy_first, join_words_tidy; done.
Qed.

(** One round of a flag loop: the flag is split off. *)
Lemma flag_round w ws : word w = true → Forall (λ w, word w = true) ws → ws ≠ [] →
  trim_start (join " " (w :: ws)) = join " " (w :: ws) ∧
  split_first_word (join " " (w :: ws)) = (w, join " " ws) ∧
  starts_with "--" (join " " (w :: ws)) = starts_with "--" w.
Proof.
  intros Hw Hws Hne. split_and!; [| by apply split_first_word_join | by apply join_starts].
  apply trim_start_first, tidy_first, join_words_tidy; [done | by constructor].
Qed.

Lemma add_flags_words fuel line chown ws :
  opt_b (str_forallb visible) chown = true → Forall (λ w, word w = true) ws → ws ≠ [] →
  starts_with "--" (join " " ws) = false → trim_start (join " " ws) = join " " ws → 1 < fuel →
  add_flags_loop fuel line None (join " " (flag_words "chown" chown ++ ws)) = Ok (chown, join " " ws).
Proof.
  intros Hc Hws Hne Hs Ht Hf. do 2 (destruct fuel as [|fuel]; [lia|]).
  assert (Hend : ∀ o, add_flags_loop (S fuel) line o (join " " ws) = Ok (o, join " " ws)).
  { intros o. cbn [add_flags_loop]. by rewrite Ht, Hs. }
  pose proof (flag_words_ok "chown" chown eq_refl Hc) as Hfw.
  destruct chown as [v|]; cbn [flag_words app] in *; [|cbn [add_flags_loop]; by rewrite Ht, Hs].
  apply list.Forall_cons in Hfw as [Hv _]. destruct (flag_round _ ws Hv Hws Hne) as (E1 & E2 & E3).
  remember (S fuel) as f. cbn [add_flags_loop]. rewrite E1, E2, E3. cbn. apply Hend.
Qed.

Lemma copy_flags_words fuel line from chown ws :
  opt_b word from = true → opt_b (str_forallb visible) chown = true →
  Forall (λ w, word w = true) ws → ws ≠ [] →
  starts_with "--" (join " " ws) = false → trim_start (join " " ws) = join " " ws → 2 < fuel →
  copy_flags_loop fuel line None None (join " " (flag_words "from" from ++ flag_words "chown" chown ++ ws))
    = Ok (from, chown, join " " ws).
Proof.
  intros Hf Hc Hws Hne Hs Ht Hfuel. do 3 (destruct fuel as [|fuel]; [lia|]).
  assert (Hend : ∀ f o o', copy_flags_loop (S f) line o o' (join " " ws) = Ok (o, o', join " " ws)).
  { intros f o o'. cbn [copy_flags_loop]. by rewrite Ht, Hs. }
  pose proof (flag_words_ok "chown" chown eq_refl Hc) as Hcw.
  assert (Hchown : ∀ f o, copy_flags_loop (S (S f)) line o None (join " " (flag_words "chown" chown ++ ws))
    = Ok (o, chown, join " " ws)).
  { intros f o. destruct chown as [v|]; cbn [flag_words app] in *; [|apply Hend].
    apply list.Forall_cons in Hcw as [Hv _]. destruct (flag_round _ ws Hv Hws Hne) as (E1 & E2 & E3).
    remember (S f) as g. cbn [copy_flags_loop]. rewrite E1, E2, E3. cbn. rewrite Heqg. apply Hend. }
  destruct from as [v|]; cbn [flag_words app] in *; [|apply Hchown].
  assert (Hv : Forall (λ w, word w = true) (flag_words "from" (Some v))).
  { apply flag_words_ok; [done|]. cbn [opt_b] in *. by apply word_visible. }
  apply list.Forall_cons in Hv as [Hv _].
  destruct (flag_round _ (flag_words "chown" chown ++ ws) Hv) as (E1 & E2 & E3).
  { by apply Forall_app. } { by destruct chown. }
  remember (S (S fuel)) as g. cbn [copy_flags_loop]. rewrite E1, E2, E3. cbn [opt_b] in Hf.
  cbn. rewrite word_ne by done. rewrite Heqg. apply Hchown.
Qed.

(** *** One instruction *)

Definition keyword (i : Instruction) : string :=
  match i with
  | From_ _ _ => "FROM" | Run _ => "RUN" | Copy _ _ _ _ => "COPY" | Workdir _ => "WORKDIR"
  | Env _ => "ENV" | Entrypoint _ => "ENTRYPOINT" | Cmd _ => "CMD" | Expose _ => "EXPOSE"
  | Label _ => "LABEL" | User _ => "USER" | Arg _ _ => "ARG" | Add _ _ _ => "ADD"
  | Shell _ => "SHELL" | StopSignal _ => "STOPSIGNAL" | HealthCheck _ _ _ _ _ => "HEALTHCHECK"
  | OnBuild _ => "ONBUILD" | Volume _ => "VOLUME"
  end.

Definition args (i : Instruction) : string :=
  match i with
  | Run c => c
  | Copy src dst from chown => join " " (flag_words "from" from ++ flag_words "chown" chown ++ src ++ [dst])
  | Add src dst chown => join " " (flag_words "chown" chown ++ src ++ [dst])
  | Workdir path => path
  | Env vars | Label vars => join " " (map show_pair vars)
  | Entrypoint exec | Cmd exec | Shell exec => debug_vec exec
  | Expose ws | Volume ws => join " " ws
  | User s | StopSignal s => s
  | Arg name (Some d) => name +:+ "=" +:+ d
  | Arg name None => name
  | HealthCheck (Some c) _ _ _ _ => "CMD " +:+ join " " c
  | HealthCheck None _ _ _ _ => "NONE"
  | OnBuild i => instruction_to_string i
  | From_ image (Some a) => image +:+ " AS " +:+ a
  | From_ image None => image
  end.

Lemma to_string_args i : plain i = true →
  instruction_to_string i = keyword i +:+ String " " (args i).
Proof.
  destruct i as [image [a|]| |src dst from chown| | | | | | | |name [d|]|src dst chown| | |[c|] ? ? ? ?| |]; try done.
  - cbn [plain]. rewrite !andb_true_iff. intros (((Hs & Hd) & _) & _).
    destruct (sources_words src dst Hs Hd) as (_ & Hne & _). cbn [instruction_to_string keyword args].
    assert (E : join " " src +:+ " " +:+ dst = join " " (src ++ [dst])) by (by rewrite join_app).
    rewrite E, flags_join by (by destruct src).
    rewrite flags_join by (destruct chown; [done | by destruct src]). done.
  - cbn [plain]. rewrite !andb_true_iff. intros ((Hs & Hd) & _).
    destruct (sources_words src dst Hs Hd) as (_ & Hne & _). cbn [instruction_to_string keyword args].
    assert (E : join " " src +:+ " " +:+ dst = join " " (src ++ [dst])) by (by rewrite join_app).
    by rewrite E, flags_join by (by destruct src).
Qed.

Lemma forallb_Forall {A} (p : A → bool) l : forallb p l = true → Forall (λ x, p x = true) l.
Proof. rewrite forallb_forall. intros Hl. by apply List.Forall_forall. Qed.

Lemma plain_pairs_words kvs : forallb plain_pair kvs = true →
  Forall (λ w, word w = true) (map show_pair kvs).
Proof.
  intros Hp%forallb_Forall. apply List.Forall_map. eapply Forall_impl; [|exact Hp].
  intros kv Hkv. by apply plain_pair_word.
Qed.

Lemma first_visible_rev_app s t : first_visible (str_rev t) = true → first_visible (str_rev (s +:+ t)) = true.
Proof. rewrite str_rev_app_distr. apply first_visible_app. Qed.

Lemma word_eq_tidy name d : word name = true → str_forallb visible d = true →
  tidy (name +:+ "=" +:+ d) = true.
Proof.
  intros Hn Hd. apply word_tidy. unfold word. rewrite !str_forallb_app, Hd.
  rewrite (word_visible _ Hn). by destruct name.
Qed.

Lemma args_tidy i : plain i = true → tidy (args i) = true.
Proof.
  induction i as [image [a|]| |src dst from chown| |vars|exec|exec|ports|vars| |name [d|]|src dst chown|exec| |cmd ? ? ? ?|i IH|ws];
    cbn [plain args opt_b]; rewrite ?andb_true_iff, ?negb_true_iff; intros Hp; destruct_and? Hp; auto with a3s.
  - rewrite <-str_app_assoc. apply tidy_app; auto with a3s.
  - destruct (sources_words src dst) as (Hall & Hne & _); [done..|].
    apply join_words_tidy; [destruct from, chown; [done..|by destruct src]|].
    apply Forall_app. split; [|apply Forall_app; split; [by apply flag_words_ok | done]].
    apply flag_words_ok; [done|]. destruct from; [|done]. cbn [opt_b] in *. by apply word_visible.
  - apply join_words_tidy; [|by apply plain_pairs_words]. rewrite bool_decide_eq_false in *. by destruct vars.
  - unfold debug_vec. by apply tidy_app_r.
  - unfold debug_vec. by apply tidy_app_r.
  - apply join_words_tidy; [rewrite bool_decide_eq_false in *; done|].
    eapply Forall_impl; [|by apply forallb_Forall]. by intros ? [? _]%andb_true_iff.
  - apply join_words_tidy; [|by apply plain_pairs_words]. rewrite bool_decide_eq_false in *. by destruct vars.
  - apply word_eq_tidy; [done|]. match goal with H : clean _ = true |- _ => by apply andb_true_iff in H as [? _] end.
  - destruct (sources_words src dst) as (Hall & Hne & _); [done..|].
    apply join_words_tidy; [destruct chown; [done|by destruct src]|].
    apply Forall_app. split; [by apply flag_words_ok | done].
  - unfold debug_vec. by apply tidy_app_r.
  - rewrite bool_decide_eq_true in *. naive_solver.
  - rewrite to_string_args by done. change (String " " ?s) with (" " +:+ s). rewrite <-str_app_assoc.
    apply tidy_app; [by destruct i | auto].
  - unfold plain_words in Hp. apply andb_true_iff in Hp as [Hw Hh].
    apply join_words_tidy; [by destruct ws | by apply forallb_Forall].
Qed.

Section roundtrip.
Context (to_uppercase : string → string) (from_json : string → option (list string)).
(** Unicode upper-casing is the ASCII one on ASCII text. *)
Context (upper_ascii : ∀ s, is_ascii s = true → to_uppercase s = uppercase s).

(** The JSON reader reads the array the printer wrote. *)
Fixpoint json_ok (i : Instruction) : Prop :=
  match i with
  | Entrypoint l | Cmd l | Shell l => from_json (debug_vec l) = Some l
  | OnBuild i => json_ok i
  | _ => True
  end.

Lemma require_ok k s line : is_empty s = false → require k s line = Ok ().
Proof. unfold require. by intros ->. Qed.

Lemma debug_vec_bracket l : starts_with "[" (debug_vec l) = true.
Proof. done. Qed.

(** The parser of an instruction's keyword. *)
Definition parser_of (i : Instruction) : string → nat → result docker_error Instruction :=
  match i with
  | From_ _ _ => parse_from | Run _ => parse_run | Copy _ _ _ _ => parse_copy
  | Workdir _ => parse_workdir | Env _ => parse_env | Entrypoint _ => parse_entrypoint from_json
  | Cmd _ => parse_cmd from_json | Expose _ => parse_expose | Label _ => parse_label
  | User _ => parse_user | Arg _ _ => parse_arg | Add _ _ _ => parse_add
  | Shell _ => parse_shell from_json | StopSignal _ => parse_stopsignal
  | HealthCheck _ _ _ _ _ => parse_healthcheck from_json
  | OnBuild _ => parse_onbuild (λ _ _, Err Diverges) | Volume _ => parse_volume from_json
  end.

Lemma find_parser_keyword i : match i with OnBuild _ => True | _ =>
  find_parser (keyword i) (simple_parsers from_json) = Some (parser_of i) end.
Proof. by destruct i. Qed.

Lemma words_fuel fw (src : list string) dst :
  Forall (λ w, word w = true) (fw ++ src ++ [dst]) → src ≠ [] →
  2 < S (String.length (join " " (fw ++ src ++ [dst]))).
Proof.
  intros Hall Hsrc. pose proof (join_words_length _ Hall) as Hl. rewrite !length_app in Hl.
  destruct src; [done|]. cbn [length] in Hl. lia.
Qed.

Lemma ports_normal ports : forallb (λ p, word p && has_char "/" p) ports = true →
  Forall (λ w, word w = true) ports ∧ map normalize_port ports = ports.
Proof.
  intros Hp. induction ports as [|p ports IH]; [done|]. cbn [forallb] in Hp.
  apply andb_true_iff in Hp as [[Hw Hs]%andb_true_iff Hp]. destruct (IH Hp) as [Hall E].
  split; [by constructor|]. cbn [map]. rewrite E. unfold normalize_port. by rewrite Hs.
Qed.

Lemma parse_args i line : plain i = true → json_ok i →
  match i with OnBuild _ => True | _ => parser_of i (args i) line = Ok i end.
Proof.
  intros Hp Hj. pose proof (tidy_ne _ (args_tidy i Hp)) as Hne. revert Hp Hj Hne.
  destruct i as [image [a|]|command|src dst from chown|path|vars|exec|exec|ports|vars|user|name [d|]|src dst chown|exec|signal|cmd ? ? ? ?|i|ws];
    cbn [plain args opt_b json_ok parser_of]; rewrite ?andb_true_iff, ?negb_true_iff; intros Hp Hj Hne; try done;
    destruct_and? Hp;
    unfold parse_from, parse_run, parse_copy, parse_workdir, parse_env, parse_entrypoint, parse_cmd,
      parse_expose, parse_label, parse_user, parse_arg, parse_add, parse_shell, parse_stopsignal,
      parse_healthcheck, parse_volume;
    rewrite ?require_ok by done; cbn [mbind result_bind].
  - unfold splitn3_ws. change (" AS " +:+ a) with (String " " ("AS" +:+ String " " a)).
    rewrite break_ws_space by auto with a3s. rewrite strip_ws_space, break_ws_space by done.
    rewrite strip_ws_space. change (eq_ignore_ascii_case "AS" "AS") with true. cbn match.
    by rewrite trim_tidy.
  - unfold splitn3_ws. by rewrite break_ws_word by auto with a3s.
  - match goal with E : starts_with _ _ = false |- _ => by rewrite E end.
  - destruct (sources_words src dst) as (Hall & Hsrc & Hs & Ht); [done..|].
    assert (Hws : Forall (λ w, word w = true) (flag_words "from" from ++ flag_words "chown" chown)).
    { apply Forall_app. split; [|by apply flag_words_ok]. apply flag_words_ok; [done|].
      destruct from; [|done]. by apply word_visible. }
    unfold parse_copy_flags. rewrite copy_flags_words; [|done..| |done|done|].
    + cbn [mbind result_bind]. by rewrite src_dst_words.
    + by destruct src.
    + rewrite app_assoc. apply words_fuel; [|done]. by apply Forall_app.
  - done.
  - rewrite pairs_kv_form, pairs_parse; [done.. |]. rewrite bool_decide_eq_false in *. done.
  - unfold exec_or_shell, parse_json_array. by rewrite debug_vec_bracket, Hj.
  - unfold exec_or_shell, parse_json_array. by rewrite debug_vec_bracket, Hj.
  - destruct (ports_normal ports) as [Hall E]; [done|]. by rewrite split_whitespace_words, E.
  - rewrite pairs_kv_form, pairs_parse; [done.. |]. rewrite bool_decide_eq_false in *. done.
  - change user with (join " " [user]) at 2. rewrite split_whitespace_words by (by repeat constructor). done.
  - change ("=" +:+ d) with (String "=" d). rewrite split_once_app by done. by rewrite unquote_clean.
  - match goal with E : has_char _ _ = false |- _ => apply split_once_None in E; rewrite E end.
    by rewrite trim_tidy.
  - destruct (sources_words src dst) as (Hall & Hsrc & Hs & Ht); [done..|].
    pose proof (flag_words_ok "chown" chown eq_refl ltac:(done)) as Hws.
    unfold parse_add_flags. rewrite add_flags_words; [|done..| |done|done|].
    + cbn [mbind result_bind]. by rewrite src_dst_words.
    + by destruct src.
    + enough (2 < S (String.length (join " " (flag_words "chown" chown ++ src ++ [dst])))) by lia.
      apply words_fuel; [|done]. by apply Forall_app.
  - unfold parse_json_array. rewrite debug_vec_bracket, Hj. cbn [negb ok_or mbind result_bind].
    rewrite bool_decide_eq_false in *. by destruct exec.
  - by rewrite trim_tidy.
  - rewrite bool_decide_eq_true in *. destruct_and!. by subst.
  - unfold plain_words in Hp. apply andb_true_iff in Hp as [Hw Hh]. destruct ws as [|w ws]; [done|].
    rewrite join_starts by done. apply negb_true_iff in Hh. rewrite Hh. cbn [mbind result_bind].
    by rewrite split_whitespace_words by (by apply forallb_Forall).
Qed.

Lemma keyword_word i : word (keyword i) = true ∧ to_uppercase (keyword i) = keyword i.
Proof. split; [by destruct i|]. destruct i; by rewrite upper_ascii. Qed.

Lemma parse_go_roundtrip i fuel line : plain i = true → json_ok i →
  String.length (instruction_to_string i) < fuel →
  parse_instruction_go to_uppercase from_json fuel (instruction_to_string i) line = Ok i.
Proof.
  revert fuel. induction i as [image a|command|src dst from chown|path|vars|exec|exec|ports|vars|user|name d|src dst chown|exec|signal|cmd n1 n2 n3 n4|i IH|ws];
    intros fuel Hp Hj Hf; (destruct fuel as [|fuel]; [lia|]);
    cbn [parse_instruction_go]; rewrite to_string_args by done;
    match goal with |- context [keyword ?j] =>
      destruct (keyword_word j) as [Hk Hu]; rewrite split_first_word_space by auto using args_tidy;
      rewrite Hu; pose proof (find_parser_keyword j) as Hfp; pose proof (parse_args j line Hp Hj) as Hpa;
      cbn match in Hfp, Hpa end;
    try (rewrite bool_decide_false by done; by rewrite Hfp).
  rewrite bool_decide_true by done. unfold parse_onbuild.
  rewrite require_ok by (apply tidy_ne; by apply args_tidy). cbn [mbind result_bind].
  cbn [plain] in Hp. apply andb_true_iff in Hp as [Hp Hin]. cbn [args].
  rewrite IH; [by destruct i | done | done |].
  cbn [instruction_to_string] in Hf. rewrite str_length_app in Hf. cbn in Hf. lia.
Qed.

Lemma to_string_tidy i : plain i = true → tidy (instruction_to_string i) = true.
Proof.
  intros Hp. rewrite to_string_args by done. change (String " " ?s) with (" " +:+ s).
  rewrite <-str_app_assoc. apply tidy_app; [by destruct i | by apply args_tidy].
Qed.

(** A build trigger survives its image: the text an [ONBUILD] instruction is
    stored as is parsed back to the same instruction by the build that runs it,
    for every instruction without the white space and options the text leaves
    unquoted. *)
Theorem onbuild_roundtrip i : plain i = true → json_ok i →
  parse_single_instruction to_uppercase from_json (instruction_to_string i) = Ok i.
Proof.
  intros Hp Hj. unfold parse_single_instruction, parse_instruction.
  rewrite trim_tidy by (by apply to_string_tidy). apply parse_go_roundtrip; [done | done | lia].
Qed.

(** *** A whole file *)

(** A line that is neither continued nor broken. *)
Definition whole_line (s : string) : Prop := one_line s ∧ strip_suffix "\" s = None.

Lemma join_lines_whole ls : Forall whole_line ls → join_lines ls "" = ls.
Proof. induction 1 as [|l ls [_ Hl] Hls IH]; [done|]. cbn [join_lines]. by rewrite Hl, IH. Qed.

Lemma parse_logical_roundtrip instrs n : Forall (λ i, plain i = true ∧ json_ok i) instrs →
  parse_logical to_uppercase from_json (map instruction_to_string instrs) n = Ok instrs.
Proof.
  intros Hi. revert n. induction Hi as [|i instrs [Hp Hj] Hi IH]; intros n; [done|].
  cbn [map parse_logical]. pose proof (to_string_tidy i Hp) as Ht. rewrite trim_tidy by done.
  rewrite tidy_ne by done.
  assert (starts_with "#" (instruction_to_string i) = false) as ->.
  { rewrite to_string_args by done. by destruct i. }
  cbn [orb]. unfold parse_instruction. rewrite parse_go_roundtrip by (done || lia).
  cbn [mbind result_bind]. by rewrite IH.
Qed.

End roundtrip.

(** ** What goes wrong *)

Section defects.
Context (to_uppercase : string → string) (from_json : string → option (list string)).
Context (upper_ascii : ∀ s, is_ascii s = true → to_uppercase s = uppercase s).

Lemma parse_dispatch fuel s line w r p :
  split_first_word s = (w, r) → is_ascii w = true → bool_decide (uppercase w = "ONBUILD") = false →
  find_parser (uppercase w) (simple_parsers from_json) = Some p →
  parse_instruction_go to_uppercase from_json (S fuel) s line = p r line.
Proof.
  intros E Ha Hn Hp. cbn [parse_instruction_go]. by rewrite E, upper_ascii, Hn, Hp.
Qed.

Lemma parse_dispatch_onbuild fuel s line r :
  split_first_word s = ("ONBUILD", r) →
  parse_instruction_go to_uppercase from_json (S fuel) s line
    = parse_onbuild (parse_instruction_go to_uppercase from_json fuel) r line.
Proof. intros E. cbn [parse_instruction_go]. by rewrite E, upper_ascii. Qed.

Ltac run_dispatch := erewrite parse_dispatch;
  [|vm_compute; reflexivity | reflexivity | vm_compute; reflexivity | reflexivity].
Ltac run_parser := unfold parse_single_instruction, parse_instruction;
  run_dispatch; vm_compute; reflexivity.

(** A lone quote as a value makes [unquote] slice [s[1..0]]. *)
Lemma lone_quote_panics :
  parse_single_instruction to_uppercase from_json ("ENV A=" +:+ String dq "") = Err Panics ∧
  parse_single_instruction to_uppercase from_json ("ARG A=" +:+ String sq "") = Err Panics.
Proof. split; run_parser. Qed.

(** A second space before [AS] loses the name of the stage. *)
Lemma from_two_spaces :
  parse_single_instruction to_uppercase from_json "FROM a  AS b" = Ok (From_ "a" None).
Proof. run_parser. Qed.

(** A trigger with a quoted value is stored without its quotes. *)
Lemma onbuild_quotes_lost :
  let i := Env [("A", "x y")] in
  parse_single_instruction to_uppercase from_json
    ("ONBUILD ENV A=" +:+ String dq "x y" +:+ String dq "") = Ok (OnBuild i) ∧
  parse_single_instruction to_uppercase from_json (instruction_to_string i)
    = Err (AtLine 0 (InvalidToken "ENV" "y")).
Proof.
  split; [|run_parser]. unfold parse_single_instruction, parse_instruction.
  erewrite parse_dispatch_onbuild by (vm_compute; reflexivity). unfold parse_onbuild.
  rewrite require_ok by reflexivity. cbn [mbind result_bind].
  change (parse_instruction_go to_uppercase from_json ?n) with (parse_instruction_go to_uppercase from_json (S (pred n))).
  run_dispatch. vm_compute. reflexivity.
Qed.

(** A health-check trigger loses its options, and its command is wrapped again. *)
Lemma onbuild_healthcheck_changed :
  let i := HealthCheck (Some ["/bin/sh"; "-c"; "true"]) (Some 5%Z) None None None in
  parse_single_instruction to_uppercase from_json "HEALTHCHECK --interval=5s CMD true" = Ok i ∧
  parse_single_instruction to_uppercase from_json (instruction_to_string i)
    = Ok (HealthCheck (Some ["/bin/sh"; "-c"; "/bin/sh -c true"]) None None None None).
Proof. split; run_parser. Qed.
End defects.

(** ** Durations *)

Lemma take_number_app s : s = (take_number s).1 +:+ (take_number s).2.
Proof.
  induction s as [|a s IH]; [done|]. cbn [take_number]. case_match; [|done].
  destruct (take_number s). cbn in *. by rewrite <-IH.
Qed.

Lemma take_unit_app s : s = (take_unit s).1 +:+ (take_unit s).2.
Proof.
  induction s as [s IH] using (induction_ltof1 _ String.length). unfold ltof in IH.
  destruct s as [|a r1]; [done|]. cbn [take_unit]. destruct (is_ascii_alphabetic a).
  - specialize (IH r1 ltac:(cbn; lia)). destruct (take_unit r1). cbn in *. by rewrite <-IH.
  - destruct r1 as [|b r2]; [done|]. case_match; [|done].
    specialize (IH r2 ltac:(cbn; lia)). destruct (take_unit r2). cbn in *. by rewrite <-IH.
Qed.

(** More fuel than the length of the text changes nothing. *)
Lemma duration_fuel f1 f2 s total b : String.length s < f1 → String.length s < f2 →
  duration_segments f1 s total b = duration_segments f2 s total b.
Proof.
  revert f2 s total b. induction f1 as [|f1 IH]; intros f2 s total b H1 H2; [lia|].
  destruct f2 as [|f2]; [lia|]. cbn [duration_segments]. destruct (is_empty s); [done|].
  pose proof (take_number_app s) as En. destruct (take_number s) as [num r]. cbn [fst snd] in En.
  destruct (is_empty r); [done|].
  pose proof (take_unit_app r) as Eu. destruct (take_unit r) as [u r']. cbn [fst snd] in Eu.
  destruct (is_empty num) eqn:Hn; [done|]. cbn [orb]. destruct (is_empty u); [done|].
  destruct (parse_f64 num); [|done]. destruct (unit_secs u); [|done]. cbn [mbind option_bind].
  rewrite En, Eu, !str_length_app in H1, H2. destruct num; [done|]. cbn [String.length] in *.
  apply IH; lia.
Qed.

Example durations_ex :
  (λ s, docker_duration_secs s 1) <$> ["30"; "30s"; "1m30s"; "2h45m"; "1500ms"; "400ms"; "1.5s"; "s"; "5x"; "1m30"]
  = [Ok 30; Ok 30; Ok 90; Ok 9900; Ok 2; Ok 0; Ok 2; Err (AtLine 1 (BadDuration "s"));
     Err (AtLine 1 (BadDuration "5x")); Err (AtLine 1 (BadDuration "1m30"))]%Z.
Proof. vm_compute. reflexivity. Qed.

(** ** Concrete runs *)

Definition toy_json (s : string) : option (list string) :=
  if bool_decide (s = debug_vec ["nginx"; "-g"]) then Some ["nginx"; "-g"] else None.

Definition toy_file : list Instruction :=
  [Arg "V" (Some "3.19"); From_ "alpine:$V" (Some "base"); Env [("A", "1"); ("B", "")];
   Run "apk add curl && true"; Copy ["a.txt"; "b"] "/app/" (Some "0") (Some "1:1");
   OnBuild (Add ["x"] "/y" None); Expose ["80/tcp"; "53/udp"]; HealthCheck None None None None None;
   Cmd ["nginx"; "-g"]].

Lemma onbuild_roundtrip_witness :
  parse_single_instruction uppercase toy_json
    (instruction_to_string (OnBuild (Copy ["a"; "b"] "/c" None (Some "app")))) =
    Ok (OnBuild (Copy ["a"; "b"] "/c" None (Some "app"))).
Proof. apply (onbuild_roundtrip uppercase toy_json (λ s _, eq_refl)); [vm_compute; reflexivity | exact I]. Defined.

