(* ===== verification/BuildCache.v ===== *)
(** * BuildCache: the layer cache of image builds

    [runtime/src/oci/build/cache.rs]: the chain key that identifies a build step
    with everything before it, the content hash of [COPY] and [ADD] sources, and
    the two directories of the cache ([keys/] and [blobs/]) with their eviction.
    SHA-256 and gzip are arguments; the outcome of each file operation of a
    [store] is a value of [store_io], so that its failures are part of the model. *)

From Stdlib Require Import ZArith Lia Ascii Sorting.Sorted.
From stdpp Require Import base gmap strings list numbers sorting fin_maps.
From S2P Require Import Prelude RustStr Text.

Local Open Scope string_scope.
Local Open Scope list_scope.

(** ** The content of sources *)

(** What [exists], [is_dir], [read_dir] and [read] see at a path; [None] stands
    for a file or directory that cannot be read. *)
Inductive node :=
  | NFile (bytes : option string)
  | NDir (entries : list (string * node))
  | NUnreadable.

(** [to_le_bytes] of a [u64] *)
Fixpoint le_bytes (n : nat) (z : Z) : string :=
  match n with
  | O => ""
  | S n => String (ascii_of_N (Z.to_N (z mod 256))) (le_bytes n (z / 256))
  end.

Definition slash (dir name : string) : string := if is_empty dir then name else dir +:+ "/" +:+ name.

(** [collect_files]: relative path and content of every file below a directory. *)
Fixpoint collect_files (rel : string) (n : node) : option (list (string * option string)) :=
  match n with
  | NFile c => Some [(rel, c)]
  | NUnreadable => None
  | NDir es =>
      (fix go (es : list (string * node)) : option (list (string * option string)) :=
         match es with
         | [] => Some []
         | (name, n) :: es =>
             fs ← collect_files (slash rel name) n; rest ← go es; Some (fs ++ rest)
         end) es
  end.

(** The components by which paths are ordered: the root, a leading [.], [..], names. *)
Definition component (first : bool) (c : string) : option (Z * string) :=
  if is_empty c then if first then Some (1%Z, "") else None
  else if bool_decide (c = ".") then if first then Some (2%Z, "") else None
  else if bool_decide (c = "..") then Some (3%Z, "")
  else Some (4%Z, c).
Definition path_components (p : string) : list (Z * string) :=
  if is_empty p then []
  else match split "/" p with
       | [] => []
       | c :: cs => option_list (component true c) ++ omap (component false) cs
       end.
Fixpoint components_leb (p q : list (Z * string)) : bool :=
  match p, q with
  | [], _ => true
  | _ :: _, [] => false
  | (r, a) :: p, (s, b) :: q =>
      if (r =? s)%Z
      then match String.compare a b with Lt => true | Gt => false | Eq => components_leb p q end
      else (r <? s)%Z
  end.
Definition rel_leb (a b : string * option string) : bool :=
  components_leb (path_components a.1) (path_components b.1).

Definition nul : ascii := "000"%char.
Definition frame (rel bytes : string) : string :=
  rel +:+ String nul (le_bytes 8 (Z.of_nat (String.length bytes)) +:+ bytes).

(** What the hasher absorbs; an unreadable file gives up. *)
Fixpoint absorb (files : list (string * option string)) : option string :=
  match files with
  | [] => Some ""
  | (rel, c) :: files => bytes ← c; rest ← absorb files; Some (frame rel bytes +:+ rest)
  end.

Fixpoint source_files (at_path : string → option node) (src_patterns : list string)
    : option (list (string * option string)) :=
  match src_patterns with
  | [] => Some []
  | src :: srcs =>
      n ← at_path (trim_start_char "/" src);
      fs ← collect_files (match n with NFile _ => src | _ => "" end) n;
      rest ← source_files at_path srcs;
      Some (fs ++ rest)
  end.

Section hashing.
Context (sha256 : string → string).

Definition hash_context_sources (at_path : string → option node) (src_patterns : list string) : option string :=
  files ← source_files at_path src_patterns;
  text ← absorb (sort_by rel_leb files);
  Some (sha256 text).

(** ** Chain keys *)

Definition chain (prev_key instruction_repr : string) (input_hash : option string) : string :=
  sha256 (prev_key +:+ newline +:+ instruction_repr
          +:+ match input_hash with Some h => newline +:+ h | None => "" end).

(** The key at [FROM] and the keys after it. *)
Definition from_key (base_diff_ids : list string) : string := sha256 (join "," base_diff_ids).
Definition chain_keys (base_diff_ids : list string) (steps : list (string * option string)) : string :=
  foldl (λ key '(repr, h), chain key repr h) (from_key base_diff_ids) steps.
End hashing.

(** ** The cache on disk *)

Record KeyRecord := { kr_digest : string; kr_diff_id : string; kr_size : Z }.
Record blob := { b_content : string; b_mtime : Z }.
Definition blob_len (b : blob) : Z := Z.of_nat (String.length (b_content b)).

Record BuildCache := { c_keys : gmap string KeyRecord; c_blobs : gmap string blob }.
Definition empty_cache : BuildCache := {| c_keys := ∅; c_blobs := ∅ |}.

(** A layer file: [li_path] stands for the content at the path, as long as the file
    is there.  The layer of a hit lies in the cache, whose eviction can remove it
    before the image is assembled; the build then fails, and no content changes. *)
Record LayerInfo := { li_path : string; li_digest : string; li_size : Z }.
Record CachedLayer := { cl_blob : string; cl_digest : string; cl_diff_id : string; cl_size : Z }.

Definition cache_lookup (c : BuildCache) (key : string) : option CachedLayer :=
  record ← c_keys c !! key;
  b ← c_blobs c !! kr_digest record;
  Some {| cl_blob := b_content b; cl_digest := kr_digest record;
          cl_diff_id := kr_diff_id record; cl_size := kr_size record |}.

(** Writing a key record: done, failed with the old file kept, or failed with a
    file that is no record any more. *)
Inductive key_write := Written | Kept | Garbled.

(** What happens on disk during one [store]: how far the copy of the blob came
    ([None]: complete; otherwise what a failed copy leaves behind), what becomes of
    the key record, which blobs can be removed, the clock, the cap. *)
Record store_io := {
  copy_failed : option (option string);
  key_written : key_write;
  removable : string → bool;
  clock : Z;
  max_bytes : Z }.

Definition total_len (l : list (string * blob)) : Z := foldr (λ '(_, b) n, (blob_len b + n)%Z) 0%Z l.

Fixpoint evict (can_remove : string → bool) (cap total : Z) (l : list (string * blob))
    (blobs : gmap string blob) : gmap string blob :=
  match l with
  | [] => blobs
  | (d, b) :: l =>
      if (total <=? cap)%Z then blobs
      else if can_remove d then evict can_remove cap (sat_sub total (blob_len b)) l (delete d blobs)
      else evict can_remove cap total l blobs
  end.

Definition mtime_leb (x y : string * blob) : bool := (b_mtime x.2 <=? b_mtime y.2)%Z.

Section store.
Context `{HashOrder}.

(** The directory is listed in an unspecified order; sorting by time is stable. *)
Definition oldest_first (blobs : gmap string blob) : list (string * blob) :=
  sort_by mtime_leb (hash_iter blobs).

Definition prune_to (can_remove : string → bool) (cap : Z) (blobs : gmap string blob) : gmap string blob :=
  let total := wrap 64 (total_len (hash_iter blobs)) in
  if (total <=? cap)%Z then blobs else evict can_remove cap total (oldest_first blobs) blobs.

Definition cache_store (io : store_io) (c : BuildCache) (key : string) (layer : LayerInfo) (diff_id : string)
    : BuildCache :=
  let copied blobs :=
    let record := {| kr_digest := li_digest layer; kr_diff_id := diff_id; kr_size := li_size layer |} in
    {| c_keys := match key_written io with
                 | Written => <[key := record]> (c_keys c)
                 | Kept => c_keys c
                 | Garbled => delete key (c_keys c)
                 end;
       c_blobs := prune_to (removable io) (max_bytes io) blobs |} in
  match c_blobs c !! li_digest layer with
  | Some _ => copied (c_blobs c)
  | None =>
      match copy_failed io with
      | None => copied (<[li_digest layer := {| b_content := li_path layer; b_mtime := clock io |}]> (c_blobs c))
      | Some None => c
      | Some (Some part) =>
          {| c_keys := c_keys c;
             c_blobs := <[li_digest layer := {| b_content := part; b_mtime := clock io |}]> (c_blobs c) |}
      end
  end.
End store.

(** ** The framing of hashed files *)

Lemma le_bytes_length n z : String.length (le_bytes n z) = n.
Proof. revert z. induction n as [|n IH]; intros z; cbn; [done|]. by rewrite IH. Qed.

Lemma le_bytes_inj n z z' : (0 ≤ z < 256 ^ Z.of_nat n)%Z → (0 ≤ z' < 256 ^ Z.of_nat n)%Z →
  le_bytes n z = le_bytes n z' → z = z'.
Proof.
  revert z z'. induction n as [|n IH]; intros z z'; [cbn; lia|].
  rewrite Nat2Z.inj_succ, Z.pow_succ_r by lia. intros Hz Hz' [= E1 E2].
  apply IH in E2; [|split; [apply Z.div_pos|apply Z.div_lt_upper_bound]; lia..].
  assert (Z.to_N (z mod 256) = Z.to_N (z' mod 256)) as E.
  { rewrite <-(N_ascii_embedding (Z.to_N (z mod 256))), <-(N_ascii_embedding (Z.to_N (z' mod 256)));
      [by rewrite E1|pose proof (Z.mod_pos_bound z' 256); lia|pose proof (Z.mod_pos_bound z 256); lia]. }
  apply Z2N.inj in E; [|apply Z.mod_pos_bound; lia..].
  rewrite (Z.div_mod z 256), (Z.div_mod z' 256) by lia. congruence.
Qed.

Lemma str_app_inj_length s t u v : String.length s = String.length t → s +:+ u = t +:+ v → s = t ∧ u = v.
Proof.
  revert t. induction s as [|a s IH]; intros [|b t]; cbn; try done.
  intros [= Hl] [= -> E]. by destruct (IH t Hl E) as [-> ->].
Qed.

Lemma str_app_char_inj c s t u v : has_char c s = false → has_char c t = false →
  s +:+ String c u = t +:+ String c v → s = t ∧ u = v.
Proof.
  intros Hs Ht E. pose proof (split_once_app c s u Hs) as E1. rewrite E, (split_once_app c t v Ht) in E1.
  by injection E1 as -> ->.
Qed.

(** Paths without NUL bytes and lengths below [2^64], as the system guarantees. *)
Definition framed (f : string * option string) : Prop :=
  has_char nul f.1 = false ∧ ∀ b, f.2 = Some b → (Z.of_nat (String.length b) < 2 ^ 64)%Z.

Lemma absorb_inj l l' t : Forall framed l → Forall framed l' → absorb l = Some t → absorb l' = Some t → l = l'.
Proof.
  revert l' t. induction l as [|[r c] l IH]; intros [|[r' c'] l'] t Hl Hl'; cbn [absorb].
  - done.
  - intros [= <-]. destruct c' as [b'|]; [|done]. cbn. destruct (absorb l'); [|done]. cbn.
    unfold frame. by destruct r'.
  - intros E1 [= <-]. revert E1. destruct c as [b|]; [|done]. cbn. destruct (absorb l); [|done]. cbn.
    unfold frame. by destruct r.
  - apply list.Forall_cons in Hl as [[Hr Hb] Hl], Hl' as [[Hr' Hb'] Hl'].
    destruct c as [b|], c' as [b'|]; try done. cbn.
    destruct (absorb l) as [x|] eqn:El; [|done]. destruct (absorb l') as [x'|] eqn:El'; [|done]. cbn.
    intros [= <-] [= E]. unfold frame in E. rewrite !str_app_assoc in E. cbn [String.append] in E.
    rewrite !str_app_assoc in E.
    apply str_app_char_inj in E as [<- E]; [|done..].
    apply str_app_inj_length in E as [E1 E2]; [|by rewrite !le_bytes_length].
    apply le_bytes_inj in E1; [|split; [lia|]; by auto..].
    apply str_app_inj_length in E2 as [-> ->]; [|lia]. f_equal. by eapply IH.
Qed.

(** ** What a key identifies *)

Section keys.
Context (sha256 : string → string).
Context (sha256_inj : ∀ a b, sha256 a = sha256 b → a = b).
Context (sha256_line : ∀ a, has_char nl (sha256 a) = false).

Lemma source_hash_exact ctx ctx' srcs srcs' fs fs' h :
  source_files ctx srcs = Some fs → source_files ctx' srcs' = Some fs' →
  Forall framed fs → Forall framed fs' →
  hash_context_sources sha256 ctx srcs = Some h → hash_context_sources sha256 ctx' srcs' = Some h →
  fs ≡ₚ fs'.
Proof using sha256_inj.
  intros E E' Hf Hf'. unfold hash_context_sources. rewrite E, E'. cbn.
  destruct (absorb (sort_by rel_leb fs)) as [t|] eqn:Ea; [|done].
  destruct (absorb (sort_by rel_leb fs')) as [t'|] eqn:Ea'; [|done]. cbn.
  intros [= <-] [= ->%sha256_inj].
  rewrite <-(sort_by_perm rel_leb fs), <-(sort_by_perm rel_leb fs').
  erewrite (absorb_inj _ (sort_by rel_leb fs')); [done| | |exact Ea|exact Ea']; by rewrite sort_by_perm.
Qed.

Lemma chain_inj k k' r r' h h' :
  has_char nl k = false → has_char nl k' = false → has_char nl r = false → has_char nl r' = false →
  chain sha256 k r h = chain sha256 k' r' h' → k = k' ∧ r = r' ∧ h = h'.
Proof using sha256_inj.
  intros Hk Hk' Hr Hr' E%sha256_inj. unfold newline in E. cbn [String.append] in E.
  apply str_app_char_inj in E as [-> E]; [|done..]. split; [done|].
  destruct h as [h|], h' as [h'|]; cbn [String.append] in E; rewrite ?str_app_nil_r in E.
  - by apply str_app_char_inj in E as [-> ->].
  - subst r'. rewrite has_char_app in Hr'. cbn in Hr'. by rewrite orb_true_r in Hr'.
  - subst r. rewrite has_char_app in Hr. cbn in Hr. by rewrite orb_true_r in Hr.
  - by subst.
Qed.

Lemma chain_not_from k r h ids : Forall (λ d, has_char nl d = false) ids →
  chain sha256 k r h ≠ from_key sha256 ids.
Proof using sha256_inj.
  intros Hids E%sha256_inj. assert (has_char nl (join "," ids) = false) as Hn.
  { clear E. induction ids as [|d [|e l] IH]; [done|by apply list.Forall_cons in Hids as [? _]|].
    apply list.Forall_cons in Hids as [Hd Hl]. rewrite join_cons2, has_char_app, Hd. cbn. by apply IH. }
  rewrite <-E, has_char_app in Hn. unfold newline in Hn. cbn in Hn. by rewrite orb_true_r in Hn.
Qed.

Definition diff_id_ok (d : string) : Prop := has_char nl d = false ∧ has_char "," d = false ∧ d ≠ "".

Lemma from_key_inj ids ids' : Forall diff_id_ok ids → Forall diff_id_ok ids' →
  from_key sha256 ids = from_key sha256 ids' → ids = ids'.
Proof using sha256_inj.
  intros H1 H2 E%sha256_inj.
  assert (∀ l, Forall diff_id_ok l → l ≠ [] → split "," (join "," l) = l) as Hs.
  { intros l Hl Hne. apply (split_join "," l); [done|]. eapply list.Forall_impl; [exact Hl|]. by intros ? (_ & ? & _). }
  assert (∀ l, Forall diff_id_ok l → join "," l = "" → l = []) as He.
  { intros [|d l] Hl Ej; [done|]. specialize (Hs (d :: l) Hl ltac:(done)). rewrite Ej in Hs. injection Hs as <- <-.
    apply list.Forall_cons in Hl as [(_ & _ & ?) _]. done. }
  destruct ids as [|d l]; [symmetry; by apply He|]. destruct ids' as [|d' l']; [by apply He|].
  by rewrite <-(Hs (d :: l)), <-(Hs (d' :: l')), E.
Qed.

Lemma chain_keys_line ids steps : has_char nl (chain_keys sha256 ids steps) = false.
Proof using sha256_line.
  unfold chain_keys. destruct steps as [|[r h] steps] using rev_ind; [apply sha256_line|].
  rewrite foldl_app. apply sha256_line.
Qed.

Lemma chain_keys_inj ids ids' steps steps' :
  Forall diff_id_ok ids → Forall diff_id_ok ids' →
  Forall (λ s, has_char nl s.1 = false) steps → Forall (λ s, has_char nl s.1 = false) steps' →
  chain_keys sha256 ids steps = chain_keys sha256 ids' steps' → ids = ids' ∧ steps = steps'.
Proof using sha256_inj sha256_line.
  intros Hi Hi'. revert steps'.
  assert (∀ l, Forall diff_id_ok l → Forall (λ d, has_char nl d = false) l) as Hw.
  { intros l Hl. eapply list.Forall_impl; [exact Hl|]. by intros ? (? & _). }
  induction steps as [|[r h] steps IH] using rev_ind; intros steps';
    destruct steps' as [|[r' h'] steps' _] using rev_ind; unfold chain_keys; rewrite ?foldl_app; cbn [foldl].
  - intros _ _ E. split; [by apply from_key_inj|done].
  - intros _ _ E. symmetry in E. by apply chain_not_from in E; auto.
  - intros _ _ E. by apply chain_not_from in E; auto.
  - fold (chain_keys sha256 ids steps). fold (chain_keys sha256 ids' steps').
    rewrite !Forall_app, !list.Forall_singleton. cbn [fst]. intros [Hs Hr] [Hs' Hr'] E.
    apply chain_inj in E as (E & -> & ->); [|apply chain_keys_line || done..].
    by destruct (IH steps') as [-> ->].
Qed.
End keys.

(** ** Eviction *)

Lemma total_len_nonneg l : (0 ≤ total_len l)%Z.
Proof. induction l as [|[d b] l IH]; [done|]. cbn [total_len foldr]. fold (total_len l). unfold blob_len. lia. Qed.

Lemma total_len_perm l l' : l ≡ₚ l' → total_len l = total_len l'.
Proof. induction 1 as [|[] l l' _ IH|[] [] l|]; cbn [total_len foldr] in *; try lia. by fold (total_len l) (total_len l'); rewrite IH. Qed.

(** The number of blobs that go: none once the rest fits under the cap. *)
Fixpoint evicted (cap : Z) (l : list (string * blob)) : nat :=
  match l with
  | [] => O
  | x :: l' => if (total_len l <=? cap)%Z then O else S (evicted cap l')
  end.

Lemma evicted_fits cap l : (0 ≤ cap)%Z → (total_len (drop (evicted cap l) l) ≤ cap)%Z.
Proof.
  intros Hc. induction l as [|x l IH]; [done|]. cbn [evicted].
  destruct (Z.leb_spec (total_len (x :: l)) cap); [done|]. exact IH.
Qed.

Lemma evicted_needed cap l j : j < evicted cap l → (cap < total_len (drop j l))%Z.
Proof.
  revert j. induction l as [|x l IH]; intros j; cbn [evicted]; [lia|].
  destruct (Z.leb_spec (total_len (x :: l)) cap); [lia|]. destruct j as [|j]; [done|].
  intros Hj. apply IH. lia.
Qed.

Lemma evict_spec cap l blobs :
  evict (λ _, true) cap (total_len l) l blobs = foldr delete blobs (reverse (take (evicted cap l) l).*1).
Proof.
  revert blobs. induction l as [|[d b] l IH]; intros blobs; [done|]. cbn [evict evicted].
  destruct (Z.leb_spec (total_len ((d, b) :: l)) cap); [done|]. cbn [take fmap list_fmap fst].
  rewrite reverse_cons, foldr_app. cbn [foldr]. rewrite <-IH. f_equal. unfold sat_sub. cbn [total_len foldr].
  pose proof (total_len_nonneg l). fold (total_len l). lia.
Qed.

Lemma lookup_foldr_delete {A} (m : gmap string A) ks k :
  foldr delete m ks !! k = if decide (k ∈ ks) then None else m !! k.
Proof.
  induction ks as [|k' ks IH]; cbn; [done|]. destruct (decide (k = k')) as [->|Hne].
  - rewrite lookup_delete_eq, decide_True; [done|]. by left.
  - rewrite lookup_delete_ne, IH by done. destruct (decide (k ∈ ks)).
    + by rewrite decide_True by (by right).
    + rewrite decide_False; [done|]. by rewrite elem_of_cons; intros [?|?].
Qed.

Lemma mtime_leb_sorted l : StronglySorted (λ a b, mtime_leb a b = true) (sort_by mtime_leb l).
Proof.
  unfold mtime_leb. apply sort_by_sorted; intros *; rewrite ?Z.leb_le; lia.
Qed.

Section prune.
Context `{HashOrder}.

Lemma oldest_first_perm blobs : oldest_first blobs ≡ₚ map_to_list blobs.
Proof. unfold oldest_first. by rewrite sort_by_perm, hash_iter_perm. Qed.

Lemma elem_of_oldest_first blobs d b : (d, b) ∈ oldest_first blobs ↔ blobs !! d = Some b.
Proof. by rewrite oldest_first_perm, elem_of_map_to_list. Qed.

(** With every blob removable, what the eviction leaves is a suffix of the
    blobs by age that fits the cap, and the suffix is the longest: removing one
    blob less would leave more than the cap. *)
Lemma prune_to_spec cap blobs :
  (0 ≤ cap)%Z → (total_len (map_to_list blobs) < 2 ^ 64)%Z →
  let n := evicted cap (oldest_first blobs) in
  map_to_list (prune_to (λ _, true) cap blobs) ≡ₚ drop n (oldest_first blobs).
Proof.
  intros Hc Ht n. assert (NoDup (oldest_first blobs).*1) as Hnd.
  { rewrite oldest_first_perm. apply NoDup_fst_map_to_list. }
  assert (prune_to (λ _, true) cap blobs = foldr delete blobs (reverse (take n (oldest_first blobs)).*1)) as ->.
  { unfold prune_to. rewrite (total_len_perm _ _ (hash_iter_perm _ blobs)), wrap_small
      by (split; [apply total_len_nonneg|done]).
    rewrite <-(total_len_perm _ _ (oldest_first_perm blobs)). subst n. destruct (Z.leb_spec (total_len (oldest_first blobs)) cap) as [Hle|Hgt].
    - assert (evicted cap (oldest_first blobs) = 0) as ->; [|done].
      destruct (oldest_first blobs); [done|]. cbn [evicted]. by rewrite (proj2 (Z.leb_le _ _) Hle).
    - apply evict_spec. }
  apply NoDup_Permutation; [apply NoDup_map_to_list| |].
  { apply NoDup_fmap_1 with fst. rewrite <-(take_drop n (oldest_first blobs)), fmap_app in Hnd.
    by apply NoDup_app in Hnd as (_ & _ & ?). }
  intros [d b]. rewrite elem_of_map_to_list, lookup_foldr_delete.
  destruct (decide _) as [Hd|Hd]; rewrite elem_of_reverse in Hd.
  - split; [done|]. intros Hin. exfalso.
    rewrite <-(take_drop n (oldest_first blobs)), fmap_app in Hnd. apply NoDup_app in Hnd as (_ & Hdis & _).
    apply (Hdis d Hd). apply list_elem_of_fmap. by exists (d, b).
  - rewrite <-elem_of_oldest_first. rewrite <-(take_drop n (oldest_first blobs)) at 1. rewrite elem_of_app.
    split; [|by right]. intros [Hin|]; [|done]. destruct Hd. apply list_elem_of_fmap. by exists (d, b).
Qed.
End prune.

(** ** What a hit returns *)

Lemma evict_subset can_remove cap total l blobs : evict can_remove cap total l blobs ⊆ blobs.
Proof.
  revert total blobs. induction l as [|[d b] l IH]; intros total blobs; cbn [evict]; [done|].
  split_match; [done|]. split_match; [|done]. etrans; [apply IH|]. apply delete_subseteq.
Qed.

(** One [store] of a build: the outcome of its file operations and its arguments. *)
Record stored := { s_io : store_io; s_key : string; s_layer : LayerInfo; s_diff_id : string }.

Section hits.
Context `{HashOrder} (sha256 : string → string).

Lemma prune_to_subset can_remove cap blobs : prune_to can_remove cap blobs ⊆ blobs.
Proof. unfold prune_to. split_match; [done|]. apply evict_subset. Qed.

Definition run_store (c : BuildCache) (s : stored) : BuildCache :=
  cache_store (s_io s) c (s_key s) (s_layer s) (s_diff_id s).

(** The copy of the blob is not cut short, and the layer's digest is its own. *)
Definition complete (s : stored) : Prop :=
  (∀ part, copy_failed (s_io s) ≠ Some (Some part)) ∧ li_digest (s_layer s) = sha256 (li_path (s_layer s)).

Definition cached (s : stored) : CachedLayer :=
  {| cl_blob := li_path (s_layer s); cl_digest := li_digest (s_layer s);
     cl_diff_id := s_diff_id s; cl_size := li_size (s_layer s) |}.

Record agrees (c : BuildCache) (ss : list stored) : Prop := {
  ag_blobs : ∀ d b, c_blobs c !! d = Some b → sha256 (b_content b) = d;
  ag_keys : ∀ k r, c_keys c !! k = Some r → ∃ s, s ∈ ss ∧ s_key s = k ∧
    r = {| kr_digest := li_digest (s_layer s); kr_diff_id := s_diff_id s; kr_size := li_size (s_layer s) |} }.

Lemma agrees_store c ss s : agrees c ss → complete s → agrees (run_store c s) (ss ++ [s]).
Proof.
  intros [Hb Hk] [Hc Hd]. assert (∀ k r, c_keys c !! k = Some r → ∃ s', s' ∈ ss ++ [s] ∧ s_key s' = k ∧
    r = {| kr_digest := li_digest (s_layer s'); kr_diff_id := s_diff_id s'; kr_size := li_size (s_layer s') |}) as Hk'.
  { intros k r (s' & ? & ?)%Hk. exists s'. rewrite elem_of_app. auto. }
  assert (∀ blobs, (∀ d b, blobs !! d = Some b → sha256 (b_content b) = d) →
    ∀ d b, prune_to (removable (s_io s)) (max_bytes (s_io s)) blobs !! d = Some b → sha256 (b_content b) = d) as Hp.
  { intros blobs Hbl d b Hl. apply Hbl. eapply lookup_weaken; [exact Hl|]. apply prune_to_subset. }
  assert (∀ k r, match key_written (s_io s) with
     | Written => <[s_key s := {| kr_digest := li_digest (s_layer s); kr_diff_id := s_diff_id s; kr_size := li_size (s_layer s) |}]> (c_keys c)
     | Kept => c_keys c
     | Garbled => delete (s_key s) (c_keys c) end !! k = Some r → ∃ s', s' ∈ ss ++ [s] ∧ s_key s' = k ∧
    r = {| kr_digest := li_digest (s_layer s'); kr_diff_id := s_diff_id s'; kr_size := li_size (s_layer s') |}) as Hw.
  { intros k r. destruct (key_written (s_io s)).
    - rewrite lookup_insert_Some. intros [[<- <-]|[_ ?]]; [|by apply Hk'].
      exists s. rewrite elem_of_app, list_elem_of_singleton. auto.
    - apply Hk'.
    - rewrite lookup_delete_Some. intros [_ ?]. by apply Hk'. }
  unfold run_store, cache_store. destruct (c_blobs c !! li_digest (s_layer s)) eqn:E.
  - split; [|exact Hw]. cbn. by apply Hp.
  - destruct (copy_failed (s_io s)) as [[part|]|] eqn:Ec; [by destruct (Hc part)|by split|].
    split; [|exact Hw]. cbn. apply Hp. intros d b. rewrite lookup_insert_Some.
    intros [[<- <-]|[_ ?]]; [done|by apply Hb].
Qed.

(** A hit is a layer that was stored under the key, with the bytes it was stored with. *)
Lemma hit_was_stored ss key cl : (∀ a b, sha256 a = sha256 b → a = b) → Forall complete ss →
  cache_lookup (foldl run_store empty_cache ss) key = Some cl →
  ∃ s, s ∈ ss ∧ s_key s = key ∧ cl = cached s.
Proof.
  intros Hinj Hss. assert (agrees (foldl run_store empty_cache ss) ss) as [Hb Hk].
  { induction ss as [|s ss IH] using rev_ind; [by split; intros ? ? E; cbn in E; rewrite lookup_empty in E|]. rewrite foldl_app. cbn [foldl].
    apply Forall_app in Hss as [Hss Hs]. rewrite list.Forall_singleton in Hs. apply agrees_store; [by apply IH|done]. }
  unfold cache_lookup. destruct (c_keys _ !! key) as [r|] eqn:Er; [|done]. cbn.
  destruct (Hk key r Er) as (s & Hs & Hkey & ->). cbn.
  destruct (c_blobs _ !! _) as [b|] eqn:Eb; [|done]. cbn. intros [= <-]. exists s. split_and!; [done..|].
  unfold cached. f_equal. apply Hinj. rewrite (Hb _ _ Eb). rewrite list.Forall_forall in Hss.
  by destruct (Hss s Hs) as [_ ?].
Qed.
End hits.

(** *** A copy that is cut short

    A failed copy leaves its file behind; the next [store] of the layer finds the
    file, writes the key, and the hit has the truncated bytes. *)
Definition disk_full : store_io :=
  {| copy_failed := Some (Some "ab"); key_written := Written; removable := λ _, true; clock := 1; max_bytes := 100 |}.
Definition disk_fine : store_io :=
  {| copy_failed := None; key_written := Written; removable := λ _, true; clock := 2; max_bytes := 100 |}.

Lemma partial_copy_is_reused :
  let layer := {| li_path := "abcdef"; li_digest := "d1"; li_size := 6 |} in
  let c1 := @cache_store list_order disk_full empty_cache "k" layer "i1" in
  let c2 := @cache_store list_order disk_fine c1 "k" layer "i1" in
  cache_lookup c1 "k" = None ∧ cl_blob <$> cache_lookup c2 "k" = Some "ab".
Proof. by split; vm_compute. Qed.


(** *** A layer that is reused can be evicted by the same build

    A hit is recorded by the path of its blob, which is read when the image is
    assembled; the [store] of a later layer evicts it when the cap is reached. *)
Lemma reused_layer_is_evicted :
  let io t := {| copy_failed := None; key_written := Written; removable := λ _, true; clock := t; max_bytes := 10 |} in
  let l1 := {| li_path := "12345678"; li_digest := "d1"; li_size := 8 |} in
  let l2 := {| li_path := "abcdefgh"; li_digest := "d2"; li_size := 8 |} in
  let c1 := @cache_store list_order (io 1%Z) empty_cache "k1" l1 "i1" in
  let c2 := @cache_store list_order (io 2%Z) c1 "k2" l2 "i2" in
  cl_digest <$> cache_lookup c1 "k1" = Some "d1" ∧ c_blobs c2 !! "d1" = None.
Proof. by split; vm_compute. Qed.
