(* ===== verification/Build.v ===== *)
(** * Build: the image build engine

    [runtime/src/oci/build/engine/]: stages, build arguments and their expansion,
    the effect of every instruction on the state of a build, the reuse of cached
    layers, [ONBUILD] triggers, the choice of the stage that becomes the image.
    What an instruction does to files ([handle_copy], [handle_add], [handle_run],
    extraction, pulling an image) are the operations of the class [Effects]; the
    theorems hold for every instance. *)

From Stdlib Require Import ZArith Lia Ascii.
From stdpp Require Import base gmap strings list numbers fin_maps.
From S2P Require Import Prelude RustStr Text Dockerfile BuildCache.

Local Open Scope string_scope.
Local Open Scope list_scope.
Local Open Scope nat_scope.

(** ** State *)

Record OciHealthCheck := {
  hc_test : list string; hc_interval : option Z; hc_timeout : option Z;
  hc_retries : option Z; hc_start_period : option Z }.

Record OciImageConfig := {
  oc_entrypoint : option (list string);
  oc_cmd : option (list string);
  oc_env : list (string * string);
  oc_working_dir : option string;
  oc_user : option string;
  oc_exposed_ports : list string;
  oc_labels : gmap string string;
  oc_volumes : list string;
  oc_stop_signal : option string;
  oc_health_check : option OciHealthCheck;
  oc_onbuild : list string }.

Definition scratch_config : OciImageConfig :=
  {| oc_entrypoint := None; oc_cmd := None; oc_env := []; oc_working_dir := None; oc_user := None;
     oc_exposed_ports := []; oc_labels := ∅; oc_volumes := []; oc_stop_signal := None;
     oc_health_check := None; oc_onbuild := [] |}.

Record HistoryEntry := { created_by : string; empty_layer : bool }.

Record BuildState := {
  workdir : string;
  env : list (string * string);
  entrypoint : option (list string);
  cmd : option (list string);
  user : option string;
  exposed_ports : list string;
  labels : gmap string string;
  layers : list LayerInfo;
  diff_ids : list string;
  history : list HistoryEntry;
  build_args : gmap string string;
  declared_args : gset string;
  shell : list string;
  stop_signal : option string;
  health_check : option OciHealthCheck;
  onbuild : list string;
  volumes : list string }.

Definition new_state (args : gmap string string) : BuildState :=
  {| workdir := "/"; env := []; entrypoint := None; cmd := None; user := None; exposed_ports := [];
     labels := ∅; layers := []; diff_ids := []; history := []; build_args := args;
     declared_args := ∅; shell := ["/bin/sh"; "-c"]; stop_signal := None; health_check := None;
     onbuild := []; volumes := [] |}.

(** Assignment to one field of the state. *)
Section fields.
Context (st : BuildState).
Definition set_workdir (x : string) : BuildState :=
  {| workdir := x; env := env st; entrypoint := entrypoint st; cmd := cmd st; user := user st;
     exposed_ports := exposed_ports st; labels := labels st; layers := layers st; diff_ids := diff_ids
     st; history := history st; build_args := build_args st; declared_args := declared_args st; shell :=
     shell st; stop_signal := stop_signal st; health_check := health_check st; onbuild := onbuild st;
     volumes := volumes st |}.
Definition set_env (x : list (string * string)) : BuildState :=
  {| workdir := workdir st; env := x; entrypoint := entrypoint st; cmd := cmd st; user := user st;
     exposed_ports := exposed_ports st; labels := labels st; layers := layers st; diff_ids := diff_ids
     st; history := history st; build_args := build_args st; declared_args := declared_args st; shell :=
     shell st; stop_signal := stop_signal st; health_check := health_check st; onbuild := onbuild st;
     volumes := volumes st |}.
Definition set_entrypoint (x : option (list string)) : BuildState :=
  {| workdir := workdir st; env := env st; entrypoint := x; cmd := cmd st; user := user st;
     exposed_ports := exposed_ports st; labels := labels st; layers := layers st; diff_ids := diff_ids
     st; history := history st; build_args := build_args st; declared_args := declared_args st; shell :=
     shell st; stop_signal := stop_signal st; health_check := health_check st; onbuild := onbuild st;
     volumes := volumes st |}.
Definition set_cmd (x : option (list string)) : BuildState :=
  {| workdir := workdir st; env := env st; entrypoint := entrypoint st; cmd := x; user := user st;
     exposed_ports := exposed_ports st; labels := labels st; layers := layers st; diff_ids := diff_ids
     st; history := history st; build_args := build_args st; declared_args := declared_args st; shell :=
     shell st; stop_signal := stop_signal st; health_check := health_check st; onbuild := onbuild st;
     volumes := volumes st |}.
Definition set_user (x : option string) : BuildState :=
  {| workdir := workdir st; env := env st; entrypoint := entrypoint st; cmd := cmd st; user := x;
     exposed_ports := exposed_ports st; labels := labels st; layers := layers st; diff_ids := diff_ids
     st; history := history st; build_args := build_args st; declared_args := declared_args st; shell :=
     shell st; stop_signal := stop_signal st; health_check := health_check st; onbuild := onbuild st;
     volumes := volumes st |}.
Definition set_exposed_ports (x : list string) : BuildState :=
  {| workdir := workdir st; env := env st; entrypoint := entrypoint st; cmd := cmd st; user := user st;
     exposed_ports := x; labels := labels st; layers := layers st; diff_ids := diff_ids st; history :=
     history st; build_args := build_args st; declared_args := declared_args st; shell := shell st;
     stop_signal := stop_signal st; health_check := health_check st; onbuild := onbuild st; volumes :=
     volumes st |}.
Definition set_labels (x : gmap string string) : BuildState :=
  {| workdir := workdir st; env := env st; entrypoint := entrypoint st; cmd := cmd st; user := user st;
     exposed_ports := exposed_ports st; labels := x; layers := layers st; diff_ids := diff_ids st;
     history := history st; build_args := build_args st; declared_args := declared_args st; shell :=
     shell st; stop_signal := stop_signal st; health_check := health_check st; onbuild := onbuild st;
     volumes := volumes st |}.
Definition set_layers (x : list LayerInfo) : BuildState :=
  {| workdir := workdir st; env := env st; entrypoint := entrypoint st; cmd := cmd st; user := user st;
     exposed_ports := exposed_ports st; labels := labels st; layers := x; diff_ids := diff_ids st;
     history := history st; build_args := build_args st; declared_args := declared_args st; shell :=
     shell st; stop_signal := stop_signal st; health_check := health_check st; onbuild := onbuild st;
     volumes := volumes st |}.
Definition set_diff_ids (x : list string) : BuildState :=
  {| workdir := workdir st; env := env st; entrypoint := entrypoint st; cmd := cmd st; user := user st;
     exposed_ports := exposed_ports st; labels := labels st; layers := layers st; diff_ids := x; history
     := history st; build_args := build_args st; declared_args := declared_args st; shell := shell st;
     stop_signal := stop_signal st; health_check := health_check st; onbuild := onbuild st; volumes :=
     volumes st |}.
Definition set_history (x : list HistoryEntry) : BuildState :=
  {| workdir := workdir st; env := env st; entrypoint := entrypoint st; cmd := cmd st; user := user st;
     exposed_ports := exposed_ports st; labels := labels st; layers := layers st; diff_ids := diff_ids
     st; history := x; build_args := build_args st; declared_args := declared_args st; shell := shell
     st; stop_signal := stop_signal st; health_check := health_check st; onbuild := onbuild st; volumes
     := volumes st |}.
Definition set_build_args (x : gmap string string) : BuildState :=
  {| workdir := workdir st; env := env st; entrypoint := entrypoint st; cmd := cmd st; user := user st;
     exposed_ports := exposed_ports st; labels := labels st; layers := layers st; diff_ids := diff_ids
     st; history := history st; build_args := x; declared_args := declared_args st; shell := shell st;
     stop_signal := stop_signal st; health_check := health_check st; onbuild := onbuild st; volumes :=
     volumes st |}.
Definition set_declared_args (x : gset string) : BuildState :=
  {| workdir := workdir st; env := env st; entrypoint := entrypoint st; cmd := cmd st; user := user st;
     exposed_ports := exposed_ports st; labels := labels st; layers := layers st; diff_ids := diff_ids
     st; history := history st; build_args := build_args st; declared_args := x; shell := shell st;
     stop_signal := stop_signal st; health_check := health_check st; onbuild := onbuild st; volumes :=
     volumes st |}.
Definition set_shell (x : list string) : BuildState :=
  {| workdir := workdir st; env := env st; entrypoint := entrypoint st; cmd := cmd st; user := user st;
     exposed_ports := exposed_ports st; labels := labels st; layers := layers st; diff_ids := diff_ids
     st; history := history st; build_args := build_args st; declared_args := declared_args st; shell :=
     x; stop_signal := stop_signal st; health_check := health_check st; onbuild := onbuild st; volumes
     := volumes st |}.
Definition set_stop_signal (x : option string) : BuildState :=
  {| workdir := workdir st; env := env st; entrypoint := entrypoint st; cmd := cmd st; user := user st;
     exposed_ports := exposed_ports st; labels := labels st; layers := layers st; diff_ids := diff_ids
     st; history := history st; build_args := build_args st; declared_args := declared_args st; shell :=
     shell st; stop_signal := x; health_check := health_check st; onbuild := onbuild st; volumes :=
     volumes st |}.
Definition set_health_check (x : option OciHealthCheck) : BuildState :=
  {| workdir := workdir st; env := env st; entrypoint := entrypoint st; cmd := cmd st; user := user st;
     exposed_ports := exposed_ports st; labels := labels st; layers := layers st; diff_ids := diff_ids
     st; history := history st; build_args := build_args st; declared_args := declared_args st; shell :=
     shell st; stop_signal := stop_signal st; health_check := x; onbuild := onbuild st; volumes :=
     volumes st |}.
Definition set_onbuild (x : list string) : BuildState :=
  {| workdir := workdir st; env := env st; entrypoint := entrypoint st; cmd := cmd st; user := user st;
     exposed_ports := exposed_ports st; labels := labels st; layers := layers st; diff_ids := diff_ids
     st; history := history st; build_args := build_args st; declared_args := declared_args st; shell :=
     shell st; stop_signal := stop_signal st; health_check := health_check st; onbuild := x; volumes :=
     volumes st |}.
Definition set_volumes (x : list string) : BuildState :=
  {| workdir := workdir st; env := env st; entrypoint := entrypoint st; cmd := cmd st; user := user st;
     exposed_ports := exposed_ports st; labels := labels st; layers := layers st; diff_ids := diff_ids
     st; history := history st; build_args := build_args st; declared_args := declared_args st; shell :=
     shell st; stop_signal := stop_signal st; health_check := health_check st; onbuild := onbuild st;
     volumes := x |}.
End fields.

(** ** Stages ([stages.rs]) *)

Record BuildStage := { bs_alias : option string; bs_instructions : list Instruction }.

Definition push_instr (i : Instruction) (s : BuildStage) : BuildStage :=
  {| bs_alias := bs_alias s; bs_instructions := bs_instructions s ++ [i] |}.

(** The loop: finished stages, the current one, what came before the first [FROM]. *)
Fixpoint split_loop (instrs : list Instruction) (stages : list BuildStage) (current : option BuildStage)
    (pre_from : list Instruction) : list BuildStage :=
  match instrs with
  | [] => stages ++ option_list current
  | i :: instrs =>
      match i with
      | From_ _ alias =>
          split_loop instrs (stages ++ option_list current)
            (Some {| bs_alias := alias; bs_instructions := pre_from ++ [i] |}) []
      | _ =>
          match current with
          | Some s => split_loop instrs stages (Some (push_instr i s)) pre_from
          | None => split_loop instrs stages None (pre_from ++ [i])
          end
      end
  end.
Definition split_into_stages (instrs : list Instruction) : list BuildStage := split_loop instrs [] None [].

Fixpoint global_arg_decls (instrs : list Instruction) : list (string * option string) :=
  match instrs with
  | [] => []
  | From_ _ _ :: _ => []
  | Arg name default :: instrs => (name, default) :: global_arg_decls instrs
  | _ :: instrs => global_arg_decls instrs
  end.

(** A stage by name, the first of that name, or by number. *)
Definition resolve_stage_rootfs {R} (from_ref : string) (completed : list (option string * R)) : option R :=
  match List.find (λ s, bool_decide (s.1 = Some from_ref)) completed with
  | Some s => Some s.2
  | None => i ← parse_uint 64 from_ref; snd <$> completed !! Z.to_nat i
  end.

(** [--target]: by alias, by number, the last stage without it. *)
Inductive build_error :=
  | TargetNotFound (target : string)
  | TooManyPlatforms
  | NotLinux (os : string)
  | TriggerFailed (e : docker_error)
  | TriggerUnsupported (trigger : string)
  | NoSuchStage (from_ref : string)
  | DiffIdFailed
  | Failed (message : string).

Fixpoint position {A} (p : A → bool) (l : list A) : option nat :=
  match l with
  | [] => None
  | x :: l => if p x then Some O else S <$> position p l
  end.

Definition output_stage (target : option string) (stages : list BuildStage) : result build_error nat :=
  match target with
  | None => Ok (pred (length stages))
  | Some t =>
      match position (λ s, bool_decide (bs_alias s = Some t)) stages with
      | Some i => Ok i
      | None =>
          match parse_uint 64 t with
          | Some i => if (i <? Z.of_nat (length stages))%Z then Ok (Z.to_nat i) else Err (TargetNotFound t)
          | None => Err (TargetNotFound t)
          end
      end
  end.

(** ** Paths and owners ([utils.rs]) *)

Definition is_tar_archive (name : string) : bool :=
  let lower := lowercase name in
  existsb (λ ext, ends_with ext lower) [".tar"; ".tar.gz"; ".tgz"; ".tar.bz2"; ".tbz2"; ".tar.xz"; ".txz"].

Definition resolve_path (workdir path : string) : string :=
  if starts_with "/" path then path else trim_end_char "/" workdir +:+ "/" +:+ path.

(** [splitn(n, ':')] where only the first fields are read. *)
Definition fields (line : string) : list string := split ":" line.

Inductive owner_error := BadUid (user : string) | BadGid (group : string) | NoUser (user : string) | NoGroup (group : string).

Definition owner_line (name : string) (line : string) : option string :=
  match fields line with
  | f0 :: _ :: f2 :: _ => if bool_decide (f0 = name) then Some f2 else None
  | _ => None
  end.

Fixpoint first_some {A B} (f : A → option B) (l : list A) : option B :=
  match l with
  | [] => None
  | x :: l => match f x with Some b => Some b | None => first_some f l end
  end.

(** [splitn(4, ':')] leaves the rest of the line in the fourth field, which
    neither function reads; the third ends at the next colon. *)
Definition resolve_user (user : string) (passwd : option string) : result owner_error Z :=
  match parse_uint 32 user with
  | Some n => Ok n
  | None =>
      match first_some (owner_line user) (lines (default "" passwd)) with
      | Some id => ok_or (BadUid user) (parse_uint 32 id)
      | None => Err (NoUser user)
      end
  end.

Definition resolve_group (group : string) (etc_group : option string) : result owner_error Z :=
  match parse_uint 32 group with
  | Some n => Ok n
  | None =>
      match first_some (owner_line group) (lines (default "" etc_group)) with
      | Some id => ok_or (BadGid group) (parse_uint 32 id)
      | None => Err (NoGroup group)
      end
  end.

(** The first line of the user decides, also when its group is no number. *)
Definition uid_to_gid (uid : Z) (passwd : option string) : option Z :=
  text ← passwd;
  gid ← first_some (λ line,
    match fields line with
    | _ :: _ :: f2 :: f3 :: _ => if bool_decide (parse_uint 32 f2 = Some uid) then Some (parse_uint 32 f3) else None
    | _ => None
    end) (lines text);
  gid.

Definition resolve_chown (spec : string) (passwd etc_group : option string) : result owner_error (Z * Z) :=
  let '(user_part, group_part) :=
    match split_once ":" spec with
    | Some (u, g) => (u, Some g)
    | None => (spec, None)
    end in
  uid ← resolve_user user_part passwd;
  gid ← match group_part with
        | Some g => resolve_group g etc_group
        | None => Ok (default uid (uid_to_gid uid passwd))
        end;
  Ok (uid, gid).

(** ** Variables *)

Section variables.
Context `{HashOrder}.

(** One variable after the other, in the order of the map; each replacement
    works on the result of the one before. *)
Definition expand_args (s : string) (args : gmap string string) : string :=
  foldl (λ r '(key, value), replace ("$" +:+ key) value (replace ("${" +:+ key +:+ "}") value r))
    s (hash_iter args).

Definition declared_build_args (st : BuildState) : gmap string string :=
  filter (λ kv, kv.1 ∈ declared_args st) (build_args st).

Definition expansion_vars (st : BuildState) : gmap string string :=
  foldl (λ m '(k, v), <[k := v]> m) (declared_build_args st) (env st).

Definition declare_arg (name : string) (value : option string) (st : BuildState) : BuildState :=
  let st := set_declared_args st ({[name]} ∪ declared_args st) in
  match build_args st !! name, value with
  | None, Some v => set_build_args st (<[name := v]> (build_args st))
  | _, _ => st
  end.

Definition seed_global_arg (st : BuildState) (decl : string * option string) : BuildState :=
  declare_arg decl.1 decl.2 st.

(** ** Instructions that only change the configuration *)

Definition push_history (created_by : string) (empty_layer : bool) (st : BuildState) : BuildState :=
  set_history st (history st ++ [{| created_by := created_by; empty_layer := empty_layer |}]).

Fixpoint assign (key value : string) (vars : list (string * string)) : list (string * string) :=
  match vars with
  | [] => [(key, value)]
  | (k, v) :: vars => if bool_decide (k = key) then (k, value) :: vars else (k, v) :: assign key value vars
  end.

Definition push_new (l : list string) (x : string) : list string :=
  if bool_decide (x ∈ l) then l else l ++ [x].

Definition assign_var (st : BuildState) (kv : string * string) : BuildState :=
  set_env st (assign kv.1 (expand_args kv.2 (expansion_vars st)) (env st)).

Definition add_labels (pairs : list (string * string)) (st : BuildState) : BuildState :=
  set_labels st (foldl (λ m '(k, v), <[k := v]> m) (labels st) pairs).

Definition add_ports (ports : list string) (st : BuildState) : BuildState :=
  set_exposed_ports st (foldl push_new (exposed_ports st) ports).

(** The new state and the directories the instruction creates; [None] for the
    instructions that are not configuration only. *)
Definition configure (st : BuildState) (i : Instruction) : option (BuildState * list string) :=
  match i with
  | From_ _ _ | Copy _ _ _ _ | Add _ _ _ | Run _ => None
  | Workdir path =>
      let st := set_workdir st (resolve_path (workdir st) (expand_args path (expansion_vars st))) in
      Some (push_history ("WORKDIR " +:+ path) true st, [trim_start_char "/" (workdir st)])
  | Env vars =>
      Some (push_history ("ENV " +:+ join " " (map show_pair vars)) true (foldl assign_var st vars), [])
  | Entrypoint exec =>
      Some (push_history ("ENTRYPOINT " +:+ debug_vec exec) true (set_entrypoint st (Some exec)), [])
  | Cmd exec => Some (push_history ("CMD " +:+ debug_vec exec) true (set_cmd st (Some exec)), [])
  | Expose ports => Some (push_history ("EXPOSE " +:+ join " " ports) true (add_ports ports st), [])
  | Label pairs =>
      Some (push_history ("LABEL " +:+ join " " (map show_pair pairs)) true (add_labels pairs st), [])
  | User u => Some (push_history ("USER " +:+ u) true (set_user st (Some u)), [])
  | Arg name value => Some (push_history ("ARG " +:+ name) true (declare_arg name value st), [])
  | Shell exec => Some (push_history ("SHELL " +:+ debug_vec exec) true (set_shell st exec), [])
  | StopSignal signal =>
      Some (push_history ("STOPSIGNAL " +:+ signal) true (set_stop_signal st (Some signal)), [])
  | HealthCheck c interval timeout retries start_period =>
      let hc := (λ t, {| hc_test := t; hc_interval := interval; hc_timeout := timeout;
                         hc_retries := retries; hc_start_period := start_period |}) <$> c in
      Some (push_history (match c with Some _ => "HEALTHCHECK CMD ..." | None => "HEALTHCHECK NONE" end) true
              (set_health_check st hc), [])
  | OnBuild inner =>
      Some (push_history ("ONBUILD " +:+ instruction_to_string inner) true
              (set_onbuild st (onbuild st ++ [instruction_to_string inner])), [])
  | Volume paths =>
      Some (push_history ("VOLUME " +:+ join " " paths) true
              (set_volumes st (foldl push_new (volumes st) paths)), map (trim_start_char "/") paths)
  end.

(** ** The base image *)

Definition apply_base_config (st : BuildState) (c : OciImageConfig) : BuildState :=
  let st := set_env st (oc_env c) in
  let st := set_entrypoint st (oc_entrypoint c) in
  let st := set_cmd st (oc_cmd c) in
  let st := set_user st (oc_user c) in
  let st := set_exposed_ports st (oc_exposed_ports c) in
  let st := set_labels st (oc_labels c) in
  let st := match oc_working_dir c with Some wd => set_workdir st wd | None => st end in
  let st := match oc_stop_signal c with Some s => set_stop_signal st (Some s) | None => st end in
  let st := match oc_health_check c with Some hc => set_health_check st (Some hc) | None => st end in
  set_volumes st (foldl push_new (volumes st) (oc_volumes c)).

(** A trigger's variables are expanded with every build argument. *)
Definition trigger_var (st : BuildState) (kv : string * string) : BuildState :=
  set_env st (assign kv.1 (expand_args kv.2 (build_args st)) (env st)).

Definition execute_onbuild_trigger (to_uppercase : string → string) (from_json : string → option (list string))
    (st : BuildState) (trigger : string) : result build_error BuildState :=
  i ← map_err TriggerFailed (parse_single_instruction to_uppercase from_json trigger);
  st ← match i with
       | Env vars => Ok (foldl trigger_var st vars)
       | Label pairs => Ok (add_labels pairs st)
       | Workdir path => Ok (set_workdir st (resolve_path (workdir st) path))
       | Expose ports => Ok (add_ports ports st)
       | User u => Ok (set_user st (Some u))
       | _ => Err (TriggerUnsupported trigger)
       end;
  Ok (push_history ("ONBUILD " +:+ trigger) true st).

Fixpoint execute_triggers (to_uppercase : string → string) (from_json : string → option (list string))
    (st : BuildState) (triggers : list string) : result build_error BuildState :=
  match triggers with
  | [] => Ok st
  | t :: triggers =>
      st ← execute_onbuild_trigger to_uppercase from_json st t;
      execute_triggers to_uppercase from_json st triggers
  end.
End variables.

(** ** Running a stage *)

(** The steps that read and write root file systems, as functions of their arguments: two calls with the
    same arguments give the same answer, which real commands need not.  A layer file is given by its
    content ([LayerInfo]), so that [extract] reads what was stored; a layer that an eviction takes
    away before it is read is a failure of [extract] or of the assembly, which is not modelled. *)
Class Effects := {
  rootfs : Type;
  empty_root : rootfs;
  (** [create_dir_all], failures ignored *)
  mkdirs : list string → rootfs → rootfs;
  (** [extract_layer] of a layer file *)
  extract : string → rootfs → result string rootfs;
  (** the layer files and the configuration of an image *)
  pull : string → result string (list string * OciImageConfig);
  (** [handle_copy]: sources, destination, [--chown], the root they are copied
      from ([None]: the build context), the stage's root, [WORKDIR], layer number *)
  copy_step : list string → string → option string → option rootfs → rootfs → string → nat →
    result string (rootfs * LayerInfo);
  add_step : list string → string → option string → rootfs → string → nat → result string (rootfs * LayerInfo);
  (** [handle_run]: command, root, [WORKDIR], environment, [SHELL], layer number *)
  run_step : string → rootfs → string → list (string * string) → list string → nat →
    result string (rootfs * option LayerInfo) }.

Record run {R} := {
  r_state : BuildState;
  r_rootfs : R;
  r_base_layers : list LayerInfo;
  r_base_diff_ids : list string;
  r_key : string;
  r_valid : bool;
  r_external : gmap string R }.
Arguments run : clear implicits.

(** What a build depends on: the arguments of [BuildConfig], the context, and code
    outside the repository. *)
Record setup := {
  su_sha256 : string → string;
  su_gunzip : string → option string;
  su_uppercase : string → string;
  su_json : string → option (list string);
  su_context : string → option node;
  su_io : nat → store_io }.

Section engine.
Context `{HashOrder} `{Effects} (su : setup).
Implicit Types (r : run rootfs) (c : option BuildCache).

Definition compute_diff_id (layer : string) : result build_error string :=
  raw ← ok_or DiffIdFailed (su_gunzip su layer); Ok (su_sha256 su raw).

Fixpoint extract_all (ls : list string) (root : rootfs) : result build_error rootfs :=
  match ls with
  | [] => Ok root
  | l :: ls => root ← map_err Failed (extract l root); extract_all ls root
  end.

Definition layer_info (file : string) : LayerInfo :=
  {| li_path := file; li_digest := su_sha256 su file; li_size := Z.of_nat (String.length file) |}.

Definition handle_from (image : string) (root : rootfs) (args : gmap string string)
    : result build_error (rootfs * list LayerInfo * list string * OciImageConfig) :=
  let image_ref := expand_args image args in
  if bool_decide (image_ref = "scratch") then Ok (root, [], [], scratch_config)
  else
    '(files, config) ← map_err Failed (pull image_ref);
    root ← extract_all files root;
    ids ← mapM compute_diff_id files;
    Ok (root, map layer_info files, ids, config).

Definition resolve_external_image_rootfs (image_ref : string) (cache : gmap string rootfs)
    : result build_error (gmap string rootfs * rootfs) :=
  match cache !! image_ref with
  | Some root => Ok (cache, root)
  | None =>
      '(files, _) ← map_err Failed (pull image_ref);
      root ← extract_all files empty_root;
      Ok (<[image_ref := root]> cache, root)
  end.

(** The text an instruction contributes to the chain key. *)
Definition instruction_repr (st : BuildState) (i : Instruction) : string :=
  match i with
  | Env vars =>
      "ENV " +:+ join " " (map (λ kv, show_pair (kv.1, expand_args kv.2 (expansion_vars st))) vars)
  | Arg name value =>
      "ARG " +:+ show_pair (name, default "" (match build_args st !! name with Some v => Some v | None => value end))
  | _ => instruction_to_string i
  end.

Definition input_hash (i : Instruction) : option string :=
  match i with
  | Copy src _ None _ | Add src _ _ => hash_context_sources (su_sha256 su) (su_context su) src
  | _ => None
  end.

(** What [COPY], [ADD] and [RUN] do: the images pulled so far, the new root, the layer. *)
Definition produce (completed : list (option string * rootfs)) (r : run rootfs) (i : Instruction)
    : result build_error (gmap string rootfs * rootfs * option LayerInfo) :=
  let st := r_state r in
  let index := length (layers st) + length (r_base_layers r) in
  match i with
  | Copy src dst (Some from_ref) chown =>
      '(ext, from_root) ← match resolve_stage_rootfs from_ref completed with
                          | Some root => Ok (r_external r, root)
                          | None => resolve_external_image_rootfs from_ref (r_external r)
                          end;
      '(root, l) ← map_err Failed (copy_step src dst chown (Some from_root) (r_rootfs r) (workdir st) index);
      Ok (ext, root, Some l)
  | Copy src dst None chown =>
      '(root, l) ← map_err Failed (copy_step src dst chown None (r_rootfs r) (workdir st) index);
      Ok (r_external r, root, Some l)
  | Add src dst chown =>
      '(root, l) ← map_err Failed (add_step src dst chown (r_rootfs r) (workdir st) index);
      Ok (r_external r, root, Some l)
  | Run command =>
      '(root, l) ← map_err Failed (run_step command (r_rootfs r) (workdir st) (env st) (shell st) index);
      Ok (r_external r, root, l)
  | _ => Ok (r_external r, r_rootfs r, None)
  end.

Definition copied (flag : string) (src : list string) (dst : string) : string :=
  flag +:+ " " +:+ join " " src +:+ " " +:+ dst.

(** The history of a layer that is reused, and of one that is made. *)
Definition reused_by (i : Instruction) : string :=
  match i with
  | Copy src dst (Some f) _ => copied ("COPY --from=" +:+ f) src dst
  | Copy src dst None (Some owner) => copied ("COPY --chown=" +:+ owner) src dst
  | Copy src dst None None => copied "COPY" src dst
  | Add src dst _ => copied "ADD" src dst
  | Run command => "RUN " +:+ command
  | _ => ""
  end.
Definition made_by (i : Instruction) : string :=
  match i with
  | Copy src dst (Some f) _ => copied ("COPY --from=" +:+ f) src dst
  | Copy src dst None _ => copied "COPY" src dst
  | Add src dst _ => copied "ADD" src dst
  | Run command => "RUN " +:+ command
  | _ => ""
  end.

Definition push_layer (l : LayerInfo) (diff_id created_by : string) (st : BuildState) : BuildState :=
  push_history created_by false
    (set_layers (set_diff_ids st (diff_ids st ++ [diff_id])) (layers st ++ [l])).

Definition with_state (r : run rootfs) (st : BuildState) (root : rootfs) : run rootfs :=
  {| r_state := st; r_rootfs := root; r_base_layers := r_base_layers r; r_base_diff_ids := r_base_diff_ids r;
     r_key := r_key r; r_valid := r_valid r; r_external := r_external r |}.
Definition with_key (r : run rootfs) (key : string) : run rootfs :=
  {| r_state := r_state r; r_rootfs := r_rootfs r; r_base_layers := r_base_layers r;
     r_base_diff_ids := r_base_diff_ids r; r_key := key; r_valid := r_valid r; r_external := r_external r |}.

(** [COPY], [ADD], [RUN]: reuse, or make and store. *)
Definition layer_step (step : nat) (completed : list (option string * rootfs)) (c : option BuildCache)
    (r : run rootfs) (i : Instruction) : option BuildCache * result build_error (run rootfs) :=
  match (if r_valid r then c ≫= λ b, cache_lookup b (r_key r) else None) with
  | Some hit =>
      (c, root ← map_err Failed (extract (cl_blob hit) (r_rootfs r));
          let l := {| li_path := cl_blob hit; li_digest := cl_digest hit; li_size := cl_size hit |} in
          Ok (with_state r (push_layer l (cl_diff_id hit) (reused_by i) (r_state r)) root))
  | None =>
      let made st ext root :=
        {| r_state := st; r_rootfs := root; r_base_layers := r_base_layers r;
           r_base_diff_ids := r_base_diff_ids r; r_key := r_key r; r_valid := false; r_external := ext |} in
      match produce completed r i with
      | Err e => (c, Err e)
      | Ok (ext, root, None) => (c, Ok (made (push_history (made_by i) true (r_state r)) ext root))
      | Ok (ext, root, Some l) =>
          match compute_diff_id (li_path l) with
          | Err e => (c, Err e)
          | Ok diff_id =>
              ((λ b, cache_store (su_io su step) b (r_key r) l diff_id) <$> c,
               Ok (made (push_layer l diff_id (made_by i) (r_state r)) ext root))
          end
      end
  end.

Definition from_step (r : run rootfs) (image : string) : result build_error (run rootfs) :=
  '(root, base, ids, config) ← handle_from image (r_rootfs r) (declared_build_args (r_state r));
  st ← execute_triggers (su_uppercase su) (su_json su) (apply_base_config (r_state r) config) (oc_onbuild config);
  Ok {| r_state := push_history ("FROM " +:+ image) true st; r_rootfs := root; r_base_layers := base;
        r_base_diff_ids := ids; r_key := from_key (su_sha256 su) ids; r_valid := true;
        r_external := r_external r |}.

Definition execute (step : nat) (completed : list (option string * rootfs)) (c : option BuildCache)
    (r : run rootfs) (i : Instruction) : option BuildCache * result build_error (run rootfs) :=
  match i with
  | From_ image _ => (c, from_step r image)
  | _ =>
      let r := with_key r (chain (su_sha256 su) (r_key r) (instruction_repr (r_state r) i) (input_hash i)) in
      match configure (r_state r) i with
      | Some (st, dirs) => (c, Ok (with_state r st (mkdirs dirs (r_rootfs r))))
      | None => layer_step step completed c r i
      end
  end.

Fixpoint execute_all (step : nat) (completed : list (option string * rootfs)) (c : option BuildCache)
    (r : run rootfs) (instrs : list Instruction) : option BuildCache * result build_error (run rootfs) :=
  match instrs with
  | [] => (c, Ok r)
  | i :: instrs =>
      match execute (S step) completed c r i with
      | (c, Ok r) => execute_all (S step) completed c r instrs
      | (c, Err e) => (c, Err e)
      end
  end.

(** ** The build *)

Record BuildConfig := {
  bc_build_args : gmap string string; bc_platforms : list (string * string);
  bc_target : option string; bc_no_cache : bool }.

Definition validate_build_config (cfg : BuildConfig) : result build_error () :=
  if (1 <? length (bc_platforms cfg))%nat then Err TooManyPlatforms
  else for_each (λ p, if bool_decide (p.1 = "linux") then Ok () else Err (NotLinux p.1)) (bc_platforms cfg).

(** A fresh stage: later stages are seeded with the global arguments. *)
Definition start_stage (cfg : BuildConfig) (globals : list (string * option string)) (idx : nat)
    (ext : gmap string rootfs) : run rootfs :=
  let st := new_state (bc_build_args cfg) in
  {| r_state := match idx with O => st | _ => foldl seed_global_arg st globals end;
     r_rootfs := empty_root; r_base_layers := []; r_base_diff_ids := []; r_key := ""; r_valid := true;
     r_external := ext |}.

Fixpoint run_stages (cfg : BuildConfig) (globals : list (string * option string)) (output idx step : nat)
    (completed : list (option string * rootfs)) (ext : gmap string rootfs) (c : option BuildCache)
    (stages : list BuildStage) : option BuildCache * result build_error (run rootfs) :=
  match stages with
  | [] => (c, Ok (start_stage cfg [] O ext))
  | s :: stages =>
      match execute_all step completed c (start_stage cfg globals idx ext) (bs_instructions s) with
      | (c, Ok r) =>
          if (idx =? output)%nat then (c, Ok r)
          else run_stages cfg globals output (S idx) (step + length (bs_instructions s))
                 (completed ++ [(bs_alias s, r_rootfs r)]) (r_external r) c stages
      | (c, Err e) => (c, Err e)
      end
  end.

(** [build] up to the assembly of the image; the cache directory outlives a failure. *)
Definition build (cfg : BuildConfig) (disk : option BuildCache) (instrs : list Instruction)
    : option BuildCache * result build_error (run rootfs) :=
  match validate_build_config cfg with
  | Err e => (disk, Err e)
  | Ok _ =>
      let stages := split_into_stages instrs in
      match output_stage (bc_target cfg) stages with
      | Err e => (disk, Err e)
      | Ok output =>
          let c := if bc_no_cache cfg then None else disk in
          let '(c', res) := run_stages cfg (global_arg_decls instrs) output 0 0 [] ∅ c stages in
          (if bc_no_cache cfg then disk else c', res)
      end
  end.
End engine.

(** ** Stages cover the file *)

Definition no_from (l : list Instruction) : Prop := Forall (λ i, is_from i = false) l.

(** A stage has exactly one [FROM], which gives its alias. *)
Definition one_from (s : BuildStage) : Prop :=
  ∃ pre image rest, bs_instructions s = pre ++ From_ image (bs_alias s) :: rest ∧ no_from pre ∧ no_from rest.

Lemma one_from_push s i : one_from s → is_from i = false → one_from (push_instr i s).
Proof.
  intros (pre & image & rest & E & Hp & Hr) Hi. exists pre, image, (rest ++ [i]). cbn.
  split_and!; [by rewrite E, <-app_assoc|done|]. apply Forall_app. by rewrite list.Forall_singleton.
Qed.

Lemma split_loop_one_from instrs stages current pre :
  Forall one_from stages → (∀ s, current = Some s → one_from s) → no_from pre →
  Forall one_from (split_loop instrs stages current pre).
Proof.
  revert stages current pre. induction instrs as [|i instrs IH]; intros stages current pre Hs Hc Hp.
  - cbn. apply Forall_app. split; [done|]. destruct current as [s|]; [|constructor].
    apply list.Forall_singleton. by apply Hc.
  - assert (is_from i = true ∨ is_from i = false) as [Hi|Hi] by (destruct (is_from i); auto).
    + destruct i as [image alias| | | | | | | | | | | | | | | | ]; try done. cbn [split_loop]. apply IH.
      * apply Forall_app. split; [done|]. destruct current as [s|]; [|constructor].
        apply list.Forall_singleton. by apply Hc.
      * intros ? [= <-]. exists pre, image, []. split_and!; [done|done|constructor].
      * constructor.
    + assert (split_loop (i :: instrs) stages current pre =
        match current with
        | Some s => split_loop instrs stages (Some (push_instr i s)) pre
        | None => split_loop instrs stages None (pre ++ [i])
        end) as -> by (destruct i; try done; by destruct current).
      destruct current as [s|]; apply IH; try done.
      * intros ? [= <-]. apply one_from_push; auto.
      * apply Forall_app. by rewrite list.Forall_singleton.
Qed.

Definition all_instructions (stages : list BuildStage) : list Instruction := concat (map bs_instructions stages).

Lemma split_loop_concat instrs stages current pre :
  current ≠ None ∨ existsb is_from instrs = true → (current ≠ None → pre = []) →
  all_instructions (split_loop instrs stages current pre) =
  all_instructions stages ++ all_instructions (option_list current) ++ pre ++ instrs.
Proof.
  unfold all_instructions. revert stages current pre.
  induction instrs as [|i instrs IH]; intros stages current pre Hc Hp.
  - destruct Hc as [Hc|]; [|done]. rewrite Hp by done. cbn [split_loop]. by rewrite map_app, concat_app, !app_nil_r.
  - assert (is_from i = true ∨ is_from i = false) as [Hi|Hi] by (destruct (is_from i); auto).
    + destruct i as [image alias| | | | | | | | | | | | | | | | ]; try done. cbn [split_loop].
      rewrite IH; [|by left|done]. rewrite map_app, concat_app. cbn. by rewrite !app_nil_r, <-!app_assoc.
    + assert (split_loop (i :: instrs) stages current pre =
        match current with
        | Some s => split_loop instrs stages (Some (push_instr i s)) pre
        | None => split_loop instrs stages None (pre ++ [i])
        end) as -> by (destruct i; try done; by destruct current).
      destruct current as [s|].
      * rewrite IH; [|by left|auto]. rewrite Hp by done. cbn. by rewrite !app_nil_r, <-!app_assoc.
      * destruct Hc as [Hc|Hc]; [done|]. cbn [existsb] in Hc. rewrite Hi in Hc. rewrite IH; [|by right|done].
        cbn. by rewrite <-!app_assoc.
Qed.

(** The stages are the file, cut before every [FROM] but the first. *)
Lemma split_into_stages_spec instrs : existsb is_from instrs = true →
  all_instructions (split_into_stages instrs) = instrs ∧ Forall one_from (split_into_stages instrs) ∧
  split_into_stages instrs ≠ [].
Proof.
  intros Hf. assert (all_instructions (split_into_stages instrs) = instrs) as E.
  { unfold split_into_stages. by rewrite split_loop_concat by (done || by right). }
  split_and!; [done|by apply split_loop_one_from; [constructor|done|constructor]|].
  intros En. rewrite En in E. by subst instrs.
Qed.

Lemma position_lt {A} (p : A → bool) l n : position p l = Some n → n < length l.
Proof.
  revert n. induction l as [|x l IH]; intros n; cbn; [done|].
  destruct (p x); [intros [= <-]; lia|]. destruct (position p l); cbn; [|done]. intros [= <-].
  specialize (IH _ eq_refl). lia.
Qed.

Lemma output_stage_lt target stages n : stages ≠ [] → output_stage target stages = Ok n → n < length stages.
Proof.
  intros Hne. unfold output_stage. destruct target as [t|].
  - destruct (position _ stages) eqn:E; [intros [= <-]; by apply position_lt in E|].
    destruct (parse_uint 64 t) as [i|] eqn:Ei; [|done]. apply parse_uint_range in Ei as [? _].
    destruct (Z.ltb_spec i (Z.of_nat (length stages))); [|done]. intros [= <-]. lia.
  - intros [= <-]. destruct stages; [done|cbn; lia].
Qed.

(** ** What the state of a build keeps *)

Definition made_layers (h : list HistoryEntry) : nat := length (List.filter (λ e, negb (empty_layer e)) h).
#[local] Arguments made_layers : simpl never.

Record state_ok (st : BuildState) : Prop := {
  so_layers : length (layers st) = length (diff_ids st);
  so_history : made_layers (history st) = length (layers st);
  so_env : NoDup (env st).*1;
  so_ports : NoDup (exposed_ports st);
  so_volumes : NoDup (volumes st);
  so_workdir : starts_with "/" (workdir st) = true }.

Record config_ok (c : OciImageConfig) : Prop := {
  co_env : NoDup (oc_env c).*1;
  co_ports : NoDup (oc_exposed_ports c);
  co_workdir : ∀ wd, oc_working_dir c = Some wd → starts_with "/" wd = true }.

Lemma new_port_NoDup l x : NoDup l → NoDup (push_new l x).
Proof.
  intros Hl. unfold push_new. case_bool_decide; [done|]. apply NoDup_app. split_and!; [done| |apply NoDup_singleton].
  intros y Hy ->%list_elem_of_singleton. done.
Qed.

Lemma foldl_push_new l xs : NoDup l → NoDup (foldl push_new l xs).
Proof. revert l. induction xs as [|x xs IH]; intros l Hl; cbn; [done|]. by apply IH, new_port_NoDup. Qed.

Lemma assign_keys k v l : (assign k v l).*1 = if decide (k ∈ l.*1) then l.*1 else l.*1 ++ [k].
Proof.
  induction l as [|[k' v'] l IH]; cbn [assign]; [done|]. case_bool_decide as E.
  - subst k'. cbn. rewrite decide_True; [done|]. by left.
  - rewrite fmap_cons, IH. cbn. destruct (decide (k ∈ l.*1)).
    + by rewrite decide_True by (by right).
    + rewrite decide_False; [done|]. by intros [?|?]%elem_of_cons.
Qed.

Lemma assign_NoDup k v l : NoDup l.*1 → NoDup (assign k v l).*1.
Proof.
  intros Hl. rewrite assign_keys. destruct (decide _) as [|Hn]; [done|].
  apply NoDup_app. split_and!; [done| |apply NoDup_singleton]. by intros y Hy ->%list_elem_of_singleton.
Qed.

Lemma resolve_path_absolute wd p : starts_with "/" wd = true → starts_with "/" (resolve_path wd p) = true.
Proof.
  intros Hwd. unfold resolve_path. destruct (starts_with "/" p) eqn:E; [done|].
  destruct (trim_end_char "/" wd) as [|a t] eqn:Et; [done|].
  assert (∃ u, wd = (String a t +:+ u)%string) as (u & ->).
  { rewrite <-Et. clear. unfold trim_end_char. set (w := str_rev wd).
    assert (∃ u, w = (u +:+ trim_start_char "/" w)%string) as (u & E).
    { generalize w. clear. intros w. induction w as [|b w (u & E)]; [by exists ""|].
      cbn [trim_start_char]. destruct (Ascii.eqb _ _); [|by exists ""]. exists (String b u).
      cbn [String.append]. by rewrite <-E. }
    exists (str_rev u). rewrite <-str_rev_app_distr, <-E. by rewrite <-(str_rev_involutive wd). }
  apply starts_with_spec in Hwd as (v & Hv). cbn in Hv. injection Hv as -> _. done.
Qed.

Lemma made_layers_push h s b : made_layers (h ++ [{| created_by := s; empty_layer := b |}]) =
  made_layers h + (if b then 0 else 1).
Proof. unfold made_layers. rewrite List.filter_app, length_app. by destruct b. Qed.

Section invariant.
Context `{HashOrder} `{Effects} (su : setup).

Lemma push_empty_ok st s : state_ok st → state_ok (push_history s true st).
Proof. intros [? ? ? ? ? ?]. split; cbn; try done. rewrite made_layers_push. lia. Qed.

Lemma assign_vars_ok (f : BuildState → string * string → BuildState) vars st :
  (∀ st kv, ∃ v, f st kv = set_env st (assign kv.1 v (env st))) →
  state_ok st → state_ok (foldl f st vars).
Proof.
  intros Hf. revert st. induction vars as [|kv vars IH]; intros st Hst; cbn [foldl]; [done|].
  apply IH. destruct (Hf st kv) as (v & ->). destruct Hst as [? ? ? ? ? ?]. split; cbn; try done.
  by apply assign_NoDup.
Qed.

Lemma declare_arg_ok name value st : state_ok st → state_ok (declare_arg name value st).
Proof.
  intros [? ? ? ? ? ?]. unfold declare_arg. cbn. destruct (build_args st !! name), value; by split.
Qed.

Lemma configure_ok st i st' dirs : state_ok st → configure st i = Some (st', dirs) → state_ok st'.
Proof.
  intros Hst E. destruct i; try done; cbn [configure] in E; injection E as <- _; apply push_empty_ok;
    try (by destruct Hst; split).
  - destruct Hst; split; try done. cbn. by apply resolve_path_absolute.
  - apply assign_vars_ok; [|done]. intros st0 kv. unfold assign_var. eauto.
  - destruct Hst; split; try done. cbn. by apply foldl_push_new.
  - by apply declare_arg_ok.
  - destruct Hst; split; try done. cbn. by apply foldl_push_new.
Qed.

Lemma triggers_ok ts st st' :
  state_ok st → execute_triggers (su_uppercase su) (su_json su) st ts = Ok st' → state_ok st'.
Proof.
  revert st. induction ts as [|t ts IH]; intros st Hst E; cbn [execute_triggers] in E; inv_result; [done|].
  eapply IH; [|exact E]. unfold execute_onbuild_trigger in H1. inv_result. apply push_empty_ok.
  destruct x0; inv_result; try done.
  - destruct Hst; split; try done. cbn. by apply resolve_path_absolute.
  - apply assign_vars_ok; [|done]. intros st0 kv. unfold trigger_var. eauto.
  - destruct Hst; split; try done. cbn. by apply foldl_push_new.
  - by destruct Hst; split.
  - by destruct Hst; split.
Qed.

Context (pull_ok : ∀ image files config, pull image = Ok (files, config) → config_ok config).

Definition run_ok (r : run rootfs) : Prop :=
  state_ok (r_state r) ∧ length (r_base_layers r) = length (r_base_diff_ids r).

Lemma base_config_ok st config : state_ok st → config_ok config → state_ok (apply_base_config st config).
Proof using Type.
  intros [? ? ? ? ? ?] [? ? Hwd]. unfold apply_base_config.
  destruct (oc_working_dir config), (oc_stop_signal config), (oc_health_check config); split; cbn; auto;
    by apply foldl_push_new.
Qed.

Lemma from_step_ok r image r' : run_ok r → from_step su r image = Ok r' → run_ok r'.
Proof using pull_ok.
  intros [Hst _] E. unfold from_step in E. inv_result.
  destruct x as [[[root base] ids] config]. inv_result.
  assert (config_ok config ∧ length base = length ids) as [Hc Hl].
  { unfold handle_from in H1. case_bool_decide; inv_result; [split; [split|]; by constructor || done|].
    destruct x0 as [files conf]. inv_result.
    split; [by eapply pull_ok|]. rewrite length_map. symmetry. by eapply mapM_Ok_length. }
  split; [|done]. cbn. apply push_empty_ok. eapply triggers_ok; [|eassumption]. by apply base_config_ok.
Qed.

Lemma push_layer_ok l d s st : state_ok st → state_ok (push_layer l d s st).
Proof using Type.
  intros [? ? ? ? ? ?]. split; cbn; try done; rewrite ?made_layers_push, ?length_app; cbn; lia.
Qed.

Lemma layer_step_ok step completed c r i c' r' : run_ok r → layer_step su step completed c r i = (c', Ok r') → run_ok r'.
Proof using Type.
  intros [Hst Hb] E. unfold layer_step in E. split_match.
  - injection E as _ E. inv_result. split; [by apply push_layer_ok|done].
  - destruct (produce completed r i) as [[[ext root] [l|]]|]; [| |done].
    + destruct (compute_diff_id su (li_path l)); [|done]. injection E as _ <-. split; [by apply push_layer_ok|done].
    + injection E as _ <-. split; [by apply push_empty_ok|done].
Qed.

Lemma execute_not_from step completed c r i : is_from i = false →
  execute su step completed c r i =
  let r' := with_key r (chain (su_sha256 su) (r_key r) (instruction_repr (r_state r) i) (input_hash su i)) in
  match configure (r_state r) i with
  | Some (st, dirs) => (c, Ok (with_state r' st (mkdirs dirs (r_rootfs r))))
  | None => layer_step su step completed c r' i
  end.
Proof using Type. by destruct i. Qed.

Lemma execute_ok step completed c r i c' r' : run_ok r → execute su step completed c r i = (c', Ok r') → run_ok r'.
Proof using pull_ok.
  intros Hr E. destruct (is_from i) eqn:Hi.
  - destruct i; try done. injection E as _ E. by eapply from_step_ok.
  - rewrite execute_not_from in E by done. destruct (configure (r_state r) i) as [[st dirs]|] eqn:Ec.
    + injection E as _ <-. split; [eapply configure_ok; [apply Hr|exact Ec]|apply Hr].
    + eapply layer_step_ok; [|exact E]. exact Hr.
Qed.

Lemma execute_all_ok step completed c r instrs c' r' :
  run_ok r → execute_all su step completed c r instrs = (c', Ok r') → run_ok r'.
Proof using pull_ok.
  revert step c r. induction instrs as [|i instrs IH]; intros step c r Hr E; cbn [execute_all] in E.
  - by injection E as _ <-.
  - destruct (execute su (S step) completed c r i) as [c1 [r1|]] eqn:E1; [|done].
    eapply IH; [|exact E]. by eapply execute_ok.
Qed.

Lemma start_stage_ok cfg globals idx ext : run_ok (start_stage cfg globals idx ext).
Proof using Type.
  assert (state_ok (new_state (bc_build_args cfg))) as Hn by (split; try done; constructor).
  split; [|done]. cbn. destruct idx; [done|]. clear -Hn. revert Hn. generalize (new_state (bc_build_args cfg)).
  induction globals as [|g gs IH]; intros st Hst; cbn; [done|]. apply IH. by apply declare_arg_ok.
Qed.

Lemma run_stages_ok cfg globals output idx step completed ext c stages c' r :
  run_stages su cfg globals output idx step completed ext c stages = (c', Ok r) → run_ok r.
Proof using pull_ok.
  revert idx step completed ext c. induction stages as [|s stages IH]; intros idx step completed ext c E;
    cbn [run_stages] in E.
  - injection E as _ <-. apply start_stage_ok.
  - destruct (execute_all su step completed c _ _) as [c1 [r1|]] eqn:E1; [|done].
    destruct (idx =? output); [|by eapply IH].
    injection E as _ <-. eapply execute_all_ok; [apply start_stage_ok|exact E1].
Qed.

(** C7: whatever the cache holds and whatever the instructions do to files, the
    state a successful build hands to the assembly has one diff id and one
    non-empty history entry per new layer, one diff id per base layer, no variable,
    port or volume twice, and an absolute working directory, provided the base
    images have none twice and absolute working directories. *)
Theorem built_state_ok cfg disk instrs c' r :
  build su cfg disk instrs = (c', Ok r) → run_ok r.
Proof using pull_ok.
  unfold build. destruct (validate_build_config cfg); [|done].
  destruct (output_stage _ _) as [output|]; [|done].
  destruct (run_stages _ _ _ _ _ _ _ _ _ _) as [c1 res] eqn:E. intros [= _ ->]. by eapply run_stages_ok.
Qed.
End invariant.

(** ** A warm cache changes nothing *)

(** States that differ only in the texts of their histories. *)
Definition forget_text (e : HistoryEntry) : HistoryEntry := {| created_by := ""; empty_layer := empty_layer e |}.
Definition like (st st' : BuildState) : Prop :=
  ∃ h, st' = set_history st h ∧ map forget_text h = map forget_text (history st).

Lemma like_refl st : like st st.
Proof. exists (history st). by destruct st. Qed.

Lemma like_fields st st' : like st st' →
  layers st' = layers st ∧ diff_ids st' = diff_ids st ∧ workdir st' = workdir st ∧ env st' = env st ∧
  shell st' = shell st ∧ made_layers (history st') = made_layers (history st).
Proof.
  intros (h & -> & E). cbn. split_and!; try done. unfold made_layers.
  assert (∀ l : list HistoryEntry, length (List.filter (λ e, negb (empty_layer e)) l)
    = length (List.filter (λ e, negb (empty_layer e)) (map forget_text l))) as Hm.
  { induction l as [|e l IH]; [done|]. cbn. destruct (empty_layer e); cbn; auto. }
  by rewrite (Hm h), (Hm (history st)), E.
Qed.

Lemma like_push st st' s s' b : like st st' → like (push_history s b st) (push_history s' b st').
Proof.
  intros (h & -> & E). exists (h ++ [{| created_by := s'; empty_layer := b |}]).
  split; [done|]. cbn. rewrite !map_app, E. done.
Qed.

Lemma like_push_layer st st' l d s s' : like st st' → like (push_layer l d s st) (push_layer l d s' st').
Proof. intros (h & -> & E). apply like_push. by exists h. Qed.

Section like.
Context `{HashOrder}.

Lemma like_foldl {A} (f : BuildState → A → BuildState) xs st st' :
  (∀ st h x, f (set_history st h) x = set_history (f st x) h) → (∀ st x, history (f st x) = history st) →
  like st st' → like (foldl f st xs) (foldl f st' xs).
Proof.
  intros Hf Hh. revert st st'. induction xs as [|x xs IH]; intros st st' Hl; cbn [foldl]; [done|].
  apply IH. destruct Hl as (h & -> & E). exists h. by rewrite Hf, Hh.
Qed.

Lemma like_declare name value st st' : like st st' → like (declare_arg name value st) (declare_arg name value st').
Proof.
  intros (h & -> & E). exists h. unfold declare_arg. cbn. by destruct (build_args st !! name), value.
Qed.

Lemma like_vars st st' : like st st' → expansion_vars st' = expansion_vars st ∧
  declared_build_args st' = declared_build_args st ∧ build_args st' = build_args st.
Proof. by intros (h & -> & E). Qed.

Lemma configure_like st st' i st1 dirs : like st st' → configure st i = Some (st1, dirs) →
  ∃ st1', configure st' i = Some (st1', dirs) ∧ like st1 st1'.
Proof.
  intros Hl E. pose proof Hl as (h & -> & Eh).
  destruct i; try done; cbn [configure] in E; injection E as <- <-;
    (eexists; split; [reflexivity|]); apply like_push; try (by exists h).
  - by apply like_foldl.
  - by apply like_declare.
Qed.

Lemma repr_like st st' i : like st st' → instruction_repr st' i = instruction_repr st i.
Proof. by intros (h & -> & E). Qed.

Lemma base_config_like st st' config : like st st' → like (apply_base_config st config) (apply_base_config st' config).
Proof.
  intros (h & -> & E). exists h. unfold apply_base_config.
  by destruct (oc_working_dir config), (oc_stop_signal config), (oc_health_check config).
Qed.
End like.

Section warm.
Context `{HashOrder} `{Effects} (su : setup).
Implicit Types (r : run rootfs) (completed : list (option string * rootfs)).

(** What [COPY --from=<image>] reads, whether or not it was pulled before. *)
Definition fetch (image_ref : string) : result build_error rootfs :=
  '(files, _) ← map_err Failed (pull image_ref); extract_all files empty_root.
Definition fetched (ext : gmap string rootfs) : Prop :=
  ∀ image_ref root, ext !! image_ref = Some root → fetch image_ref = Ok root.

Lemma fetched_empty : fetched ∅.
Proof. intros image_ref root. by rewrite lookup_empty. Qed.

Lemma resolve_external_fetch image_ref ext ext' root : fetched ext →
  resolve_external_image_rootfs image_ref ext = Ok (ext', root) → fetch image_ref = Ok root ∧ fetched ext'.
Proof.
  intros Hf E. unfold resolve_external_image_rootfs in E.
  destruct (ext !! image_ref) as [root0|] eqn:El; [injection E as <- <-; eauto|].
  inv_result. destruct x as [files config]. inv_result.
  assert (fetch image_ref = Ok root) as Hr.
  { unfold fetch. match goal with Hp : pull _ = _ |- _ => rewrite Hp end. by cbn. }
  split; [done|]. intros ref' root'. rewrite lookup_insert_Some. intros [[<- <-]|[_ ?]]; eauto.
Qed.

Lemma fetch_resolve_external image_ref ext root : fetched ext → fetch image_ref = Ok root →
  ∃ ext', resolve_external_image_rootfs image_ref ext = Ok (ext', root) ∧ fetched ext'.
Proof.
  intros Hf E. unfold resolve_external_image_rootfs. destruct (ext !! image_ref) as [root0|] eqn:El.
  - exists ext. apply Hf in El. split; [congruence|done].
  - pose proof E as E'. unfold fetch in E. destruct (map_err Failed (pull image_ref)) as [[files config]|]; [|done].
    cbn in E |- *. rewrite E. cbn. eexists. split; [done|].
    intros ref' root'. rewrite lookup_insert_Some. intros [[<- <-]|[_ ?]]; eauto.
Qed.

Record similar r r' : Prop := {
  sim_state : like (r_state r) (r_state r');
  sim_rootfs : r_rootfs r' = r_rootfs r;
  sim_base : r_base_layers r' = r_base_layers r;
  sim_ids : r_base_diff_ids r' = r_base_diff_ids r;
  sim_key : r_key r' = r_key r;
  sim_fetched : fetched (r_external r) ∧ fetched (r_external r') }.

Lemma produce_similar completed r r' i ext root ol : similar r r' →
  produce completed r i = Ok (ext, root, ol) →
  ∃ ext', produce completed r' i = Ok (ext', root, ol) ∧ fetched ext ∧ fetched ext'.
Proof.
  intros [Hl Hr Hb _ _ [Hf Hf']] E. destruct (like_fields _ _ Hl) as (Ely & _ & Ew & Ee & Es & _).
  destruct i as [| |src dst [from_ref|] chown| | | | | | | | | | | | | | ]; unfold produce in *;
    rewrite ?Ely, ?Ew, ?Ee, ?Es, ?Hr, ?Hb;
    try (eexists; split; [by injection E as <- <- <-|by injection E as <- <- <-]);
    try (inv_result; match goal with x : _ * _ |- _ => destruct x as [root1 l1] end; inv_result;
         eexists; split; [match goal with Hs : _ = Ok (root, _) |- _ => by rewrite Hs end|done]).
  destruct (resolve_stage_rootfs from_ref completed) as [from_root|].
  - cbn in E |- *. inv_result. destruct x as [root1 l1]. inv_result. eexists. split; [|done].
    match goal with Hs : copy_step _ _ _ _ _ _ _ = _ |- _ => by rewrite Hs end.
  - inv_result. destruct x as [ext1 from_root]. inv_result. destruct x as [root1 l1]. inv_result.
    destruct (resolve_external_fetch from_ref (r_external r) ext from_root) as [Hx Hx']; [done..|].
    destruct (fetch_resolve_external from_ref (r_external r') from_root) as (ext' & Er & Hx''); [done..|].
    exists ext'. rewrite Er. cbn.
    match goal with Hs : copy_step _ _ _ _ _ _ _ = _ |- _ => by rewrite Hs end.
Qed.

(** The reference: a build without a cache. *)
Definition plain_step completed r i : result build_error (run rootfs) := (execute su 0 completed None r i).2.
Fixpoint plain_run completed r (instrs : list Instruction) : result build_error (run rootfs) :=
  match instrs with
  | [] => Ok r
  | i :: instrs => r ← plain_step completed r i; plain_run completed r instrs
  end.

(** The cache agrees with the run: a hit at one of its steps is the layer the
    step makes, and extracting it does what the step does. *)
Definition hit_agrees (b : BuildCache) r (i : Instruction) r1 : Prop :=
  configure (r_state r) i = None → ∀ hit, cache_lookup b (r_key r1) = Some hit →
    extract (cl_blob hit) (r_rootfs r) = Ok (r_rootfs r1) ∧
    ∃ s, like (r_state r1)
      (push_layer {| li_path := cl_blob hit; li_digest := cl_digest hit; li_size := cl_size hit |}
         (cl_diff_id hit) s (r_state r)).
Fixpoint consistent (b : BuildCache) completed r (instrs : list Instruction) : Prop :=
  match instrs with
  | [] => True
  | i :: instrs => ∀ r1, plain_step completed r i = Ok r1 → hit_agrees b r i r1 ∧ consistent b completed r1 instrs
  end.

Lemma like_push_layer_inv st st' st1 l d s : like st st' →
  like st1 (push_layer l d s st) → ∀ s', like st1 (push_layer l d s' st').
Proof.
  intros (h & -> & E) (h1 & E1 & Eh) s'. exists (h ++ [{| created_by := s'; empty_layer := false |}]). split.
  - unfold push_layer, push_history in *. destruct st1, st. cbn in *. by injection E1 as -> -> -> -> -> -> -> -> -> <- -> -> -> -> -> -> ->.
  - rewrite <-Eh. unfold push_layer, push_history in E1. apply (f_equal history) in E1. cbn in E1. subst h1.
    by rewrite !map_app, E.
Qed.

Lemma cached_step completed step b c r r' i r1 :
  is_from i = false → similar r r' → (c = None ∨ r_valid r' = false ∨ c = Some b) →
  plain_step completed r i = Ok r1 → hit_agrees b r i r1 →
  ∃ c' r1', execute su step completed c r' i = (c', Ok r1') ∧ similar r1 r1' ∧
    (c' = None ∨ r_valid r1' = false ∨ c' = Some b).
Proof.
  intros Hi Hsim Hc E Hh. unfold plain_step in E. rewrite execute_not_from in E by done.
  rewrite execute_not_from by done. destruct (configure (r_state r) i) as [[st1 dirs]|] eqn:Ec.
  - injection E as <-. destruct Hsim as [Hl Hr Hb Hd Hk Hf].
    destruct (configure_like _ _ _ _ _ Hl Ec) as (st1' & -> & Hl1).
    eexists _, _. split; [reflexivity|]. split; [|exact Hc].
    split; cbn; rewrite ?Hr, ?Hk, ?(repr_like _ _ i Hl); done.
  - assert (configure (r_state r') i = None) as -> by (destruct i; done).
    specialize (Hh Ec). rewrite (repr_like _ _ i (sim_state _ _ Hsim)), (sim_key _ _ Hsim).
    set (key := chain (su_sha256 su) (r_key r) (instruction_repr (r_state r) i) (input_hash su i)) in *.
    assert (similar (with_key r key) (with_key r' key)) as Hsim' by (destruct Hsim; by split).
    unfold layer_step in E. replace (if r_valid (with_key r key) then _ else None) with (@None CachedLayer) in E
      by (by destruct (r_valid (with_key r key))).
    destruct (produce completed (with_key r key) i) as [[[ext root] ol]|] eqn:Ep; [|done].
    destruct (produce_similar _ _ _ _ _ _ _ Hsim' Ep) as (ext' & Ep' & Hf & Hf').
    unfold layer_step. destruct (if r_valid (with_key r' key) then _ else None) as [hit|] eqn:Ehit.
    + assert (cache_lookup b key = Some hit ∧ c = Some b) as [Hlk ->].
      { cbn in Ehit. destruct (r_valid r') eqn:Ev; [|done]. destruct Hc as [->|[?| ->]]; done. }
      assert (r_key r1 = key) as Ek by (destruct ol as [l|]; [destruct (compute_diff_id su (li_path l)); [|done]|];
        by injection E as <-).
      rewrite Ek in Hh. destruct (Hh hit Hlk) as (Hx & s & Hl1).
      cbn [r_rootfs with_key]. rewrite (sim_rootfs _ _ Hsim), Hx. cbn [map_err mbind result_bind].
      eexists _, _. split; [reflexivity|]. split; [|by right; right].
      destruct Hsim as [Hl Hr Hb Hd Hk [Hf0 Hf0']].
      split; cbn; try done; [by eapply like_push_layer_inv|..];
        (destruct ol as [l|]; [destruct (compute_diff_id su (li_path l)); [|done]|]; by injection E as <-).
    + rewrite Ep'. destruct ol as [l|].
      * destruct (compute_diff_id su (li_path l)) as [d|]; [|done]. injection E as <-.
        eexists _, _. split; [reflexivity|]. split; [|by right; left].
        destruct Hsim as [Hl Hr Hb Hd Hk _]. split; cbn; try done. by apply like_push_layer.
      * injection E as <-. eexists _, _. split; [reflexivity|]. split; [|by right; left].
        destruct Hsim as [Hl Hr Hb Hd Hk _]. split; cbn; try done. by apply like_push.
Qed.

Lemma cached_run completed instrs step b c r r' r1 :
  no_from instrs → similar r r' → (c = None ∨ r_valid r' = false ∨ c = Some b) →
  consistent b completed r instrs → plain_run completed r instrs = Ok r1 →
  ∃ c' r1', execute_all su step completed c r' instrs = (c', Ok r1') ∧ similar r1 r1'.
Proof.
  revert step c r r'. induction instrs as [|i instrs IH]; intros step c r r' Hn Hsim Hc Hcon E; cbn [plain_run] in E.
  - injection E as <-. by eexists _, _.
  - apply list.Forall_cons in Hn as [Hi Hn]. inv_result. destruct (Hcon _ H1) as [Hh Hcon'].
    destruct (cached_step completed (S step) b c r r' i x Hi Hsim Hc H1 Hh) as (c1 & r1' & E1 & Hsim1 & Hc1).
    cbn [execute_all]. rewrite E1. by eapply IH.
Qed.
End warm.

(** *** The cache a build leaves *)

Section cold.
Context `{HashOrder} `{Effects} (su : setup).
Implicit Types (r : run rootfs) (completed : list (option string * rootfs)).

(** The keys of a stage by their distance from [FROM]. *)
Inductive depth (ids : list string) : nat → string → Prop :=
  | depth_from : depth ids 0 (from_key (su_sha256 su) ids)
  | depth_chain n key repr h : depth ids n key → depth ids (S n) (chain (su_sha256 su) key repr h).

Context (sha256_inj : ∀ a b, su_sha256 su a = su_sha256 su b → a = b).
Context (sha256_line : ∀ a, has_char nl (su_sha256 su a) = false).
(** No copy into the cache is cut short, the layers carry their own digests, and
    extracting a layer does to the root what the step that made it did. *)
Context (whole_copies : ∀ n part, copy_failed (su_io su n) ≠ Some (Some part)).
Context (layers_restore : ∀ completed r i ext root l, produce completed r i = Ok (ext, root, Some l) →
  li_digest l = su_sha256 su (li_path l) ∧ extract (li_path l) (r_rootfs r) = Ok root).
Context (ids : list string) (ids_line : Forall (λ d, has_char nl d = false) ids).

Lemma depth_line n key : depth ids n key → has_char nl key = false.
Proof using sha256_line. destruct 1; apply sha256_line. Qed.

Lemma depth_unique n m key : depth ids n key → depth ids m key → n = m.
Proof using sha256_inj sha256_line ids_line.
  intros Hn. revert m. induction Hn as [|n key repr h Hk IH]; intros m Hm; inversion Hm as [Em Ek|m' key' repr' h' Hk' Em Ek]; subst.
  - done.
  - by apply chain_not_from in Ek.
  - symmetry in Ek. by apply chain_not_from in Ek.
  - f_equal. apply IH. apply sha256_inj in Ek. unfold newline in Ek. cbn [String.append] in Ek.
    apply str_app_char_inj in Ek as [-> _]; [done|by eapply depth_line..].
Qed.

(** One step of a build whose cache has no hit: the plain step, and what it stores. *)
Lemma cold_step completed step b r i c' r1 :
  is_from i = false → (r_valid r = false ∨ b = empty_cache) →
  execute su step completed (Some b) r i = (c', Ok r1) →
  plain_step su completed r i = Ok r1 ∧ ∃ repr h, r_key r1 = chain (su_sha256 su) (r_key r) repr h ∧
  ((c' = Some b ∧ r_valid r1 = r_valid r) ∨ (c' = Some b ∧ r_valid r1 = false) ∨
   ∃ s, c' = Some (run_store b s) ∧ s_key s = r_key r1 ∧ complete (su_sha256 su) s ∧ r_valid r1 = false ∧
     extract (li_path (s_layer s)) (r_rootfs r) = Ok (r_rootfs r1) ∧
     like (r_state r1) (push_layer (s_layer s) (s_diff_id s) (made_by i) (r_state r))).
Proof using whole_copies layers_restore.
  intros Hi Hcold E. unfold plain_step. rewrite !execute_not_from in E |- * by done.
  destruct (configure (r_state r) i) as [[st dirs]|] eqn:Ec.
  { injection E as <- <-. split; [done|]. eexists _, _. split; [reflexivity|]. by left. }
  cbn zeta in *. set (key := chain (su_sha256 su) (r_key r) (instruction_repr (r_state r) i) (input_hash su i)) in *.
  unfold layer_step in E |- *. replace (if r_valid (with_key r key) then _ else None) with (@None CachedLayer) in E
    by (cbn; destruct Hcold as [->| ->]; [done|]; destruct (r_valid r); [|done]; cbn; unfold cache_lookup; cbn; by rewrite lookup_empty).
  replace (if r_valid (with_key r key) then _ else None) with (@None CachedLayer)
    by (by destruct (r_valid (with_key r key))).
  destruct (produce completed (with_key r key) i) as [[[ext root] [l|]]|] eqn:Ep; [| |done].
  - destruct (compute_diff_id su (li_path l)) as [d|]; [|done]. injection E as <- <-. split; [done|].
    eexists _, _. split; [reflexivity|]. right. right.
    exists {| s_io := su_io su step; s_key := key; s_layer := l; s_diff_id := d |}.
    destruct (layers_restore _ _ _ _ _ _ Ep) as [Hd Hx]. split_and!; try done; [|apply like_refl].
    split; [apply whole_copies|done].
  - injection E as <- <-. split; [done|]. eexists _, _. split; [reflexivity|]. right. by left.
Qed.

Definition from_depths (lo hi : nat) (s : stored) : Prop := ∃ m, depth ids m (s_key s) ∧ lo ≤ m ≤ hi.

Lemma cold_run completed instrs step n r prev c' r1 :
  no_from instrs → depth ids n (r_key r) → (r_valid r = false ∨ prev = []) →
  execute_all su step completed (Some (foldl run_store empty_cache prev)) r instrs = (c', Ok r1) →
  plain_run su completed r instrs = Ok r1 ∧ ∃ made, c' = Some (foldl run_store empty_cache (prev ++ made)) ∧
    Forall (complete (su_sha256 su)) made ∧ Forall (from_depths (S n) (n + length instrs)) made ∧
    ∀ all, Forall (complete (su_sha256 su)) all →
      (∀ s, s ∈ all → s ∈ made ∨ ∃ m, depth ids m (s_key s) ∧ (m ≤ n ∨ n + length instrs < m)) →
      consistent su (foldl run_store empty_cache all) completed r instrs.
Proof using sha256_inj sha256_line whole_copies layers_restore ids_line.
  revert step n r prev. induction instrs as [|i instrs IH]; intros step n r prev Hn Hd Hcold E; cbn [execute_all] in E.
  { injection E as <- <-. split; [done|]. exists []. rewrite app_nil_r. split_and!; by try constructor. }
  apply list.Forall_cons in Hn as [Hi Hn].
  destruct (execute su (S step) completed (Some _) r i) as [c1 [r2|]] eqn:E1; [|done].
  destruct (cold_step completed (S step) (foldl run_store empty_cache prev) r i c1 r2) as (Hp & repr & h & Hk & Hcases);
    [done|destruct Hcold as [| ->]; auto|done|].
  assert (depth ids (S n) (r_key r2)) as Hd2 by (rewrite Hk; by constructor).
  assert (∃ head, c1 = Some (foldl run_store empty_cache (prev ++ head)) ∧ Forall (complete (su_sha256 su)) head ∧
    (r_valid r2 = false ∨ prev ++ head = []) ∧ Forall (λ s, s_key s = r_key r2) head ∧
    ∀ all, Forall (complete (su_sha256 su)) all → (∀ s, s ∈ all → s_key s = r_key r2 → s ∈ head) →
      hit_agrees (foldl run_store empty_cache all) r i r2) as (head & -> & Hc & Hv & Hkeys & Hhits).
  { assert (∀ all, Forall (complete (su_sha256 su)) all → (∀ s, s ∈ all → s_key s = r_key r2 → s ∈ []) →
      hit_agrees (foldl run_store empty_cache all) r i r2) as Hnone.
    { intros all Hall Hno _ hit Hit. destruct (hit_was_stored _ _ _ _ sha256_inj Hall Hit) as (s & Hs & Hsk & _).
      by apply Hno, not_elem_of_nil in Hs. }
    destruct Hcases as [[-> Hv]|[[-> Hv]|(s & -> & Hsk & Hs & Hv & Hx & Hl)]].
    - exists []. rewrite app_nil_r, Hv. split_and!; [done|constructor|done|constructor|done].
    - exists []. rewrite app_nil_r. split_and!; [done|constructor|by left|constructor|done].
    - exists [s]. rewrite foldl_app. split_and!; [done|by apply list.Forall_singleton|by left|by apply list.Forall_singleton|].
      intros all Hall Hone _ hit Hit. destruct (hit_was_stored _ _ _ _ sha256_inj Hall Hit) as (s' & Hs' & Hsk' & ->).
      apply Hone, list_elem_of_singleton in Hs' as ->; [|done]. split; [done|]. exists (made_by i). cbn.
      by destruct (s_layer s). }
  destruct (IH (S step) (S n) r2 (prev ++ head) Hn Hd2 Hv E) as (Hrun & made & -> & Hcm & Hdm & Hall).
  split; [cbn [plain_run]; by rewrite Hp|]. exists (head ++ made). rewrite <-app_assoc.
  split_and!; [done|by apply Forall_app| |].
  - apply Forall_app. split.
    + eapply list.Forall_impl; [exact Hkeys|]. intros s Hs. exists (S n). rewrite Hs. cbn. split; [done|lia].
    + eapply list.Forall_impl; [exact Hdm|]. intros s (m & ? & ?). exists m. cbn. split; [done|lia].
  - intros all Hcall Hin. cbn [consistent]. intros r2' Hp'. rewrite Hp in Hp'. injection Hp' as <-. split.
    + apply Hhits; [done|]. intros s Hs Hsk. destruct (Hin s Hs) as [[?|Hm]%elem_of_app|(m & Hm & Hr)]; [done| |].
      * rewrite list.Forall_forall in Hdm. destruct (Hdm s Hm) as (m & Hm' & ?). rewrite Hsk in Hm'.
        pose proof (depth_unique _ _ _ Hm' Hd2). lia.
      * rewrite Hsk in Hm. pose proof (depth_unique _ _ _ Hm Hd2). cbn in Hr. lia.
    + apply Hall; [done|]. intros s Hs. destruct (Hin s Hs) as [[Hh|Hm]%elem_of_app|(m & Hm & Hr)]; [|by left|].
      * right. exists (S n). rewrite list.Forall_forall in Hkeys. rewrite (Hkeys s Hh). split; [done|lia].
      * right. exists m. cbn in Hr. split; [done|lia].
Qed.

(** A single stage, run again on the cache its first run left behind when it
    started from an empty one, gives the same layers, root and configuration as a
    run without a cache; only the texts of the history may differ.  This is for
    steps that are functions of their arguments, layers that restore the root of
    their step ([Layers.layer_restores] is about that), copies into the cache that
    are whole or absent, and layer files that stay what they were. *)
Theorem warm_rebuild completed instrs step step' r c' r1 :
  no_from instrs → r_key r = from_key (su_sha256 su) ids → fetched (r_external r) →
  execute_all su step completed (Some empty_cache) r instrs = (c', Ok r1) →
  plain_run su completed r instrs = Ok r1 ∧
  ∃ c'' r2, execute_all su step' completed c' r instrs = (c'', Ok r2) ∧
    layers (r_state r2) = layers (r_state r1) ∧ diff_ids (r_state r2) = diff_ids (r_state r1) ∧
    r_rootfs r2 = r_rootfs r1 ∧ ∃ h, r_state r2 = set_history (r_state r1) h ∧ map forget_text h = map forget_text (history (r_state r1)).
Proof using sha256_inj sha256_line whole_copies layers_restore ids_line.
  intros Hn Hk Hf E. destruct (cold_run completed instrs step 0 r [] c' r1) as (Hp & made & -> & Hc & _ & Hall);
    [done|rewrite Hk; constructor|by right|done|]. split; [done|].
  destruct (cached_run su completed instrs step' (foldl run_store empty_cache ([] ++ made))
    (Some (foldl run_store empty_cache ([] ++ made))) r r r1) as (c'' & r2 & E2 & [Hl Hr _ _ _ _]).
  - done.
  - split; try done. apply like_refl.
  - by right; right.
  - apply Hall; [done|]. by left.
  - done.
  - exists c'', r2. destruct (like_fields _ _ Hl) as (? & ? & _). by split_and!.
Qed.
End cold.

(** ** What equal keys mean *)

Section traces.
Context `{HashOrder} `{Effects}.

(** The text and the content hash each instruction adds to the key. *)
Fixpoint key_trace (su : setup) (completed : list (option string * rootfs)) (r : run rootfs)
    (instrs : list Instruction) : list (string * option string) :=
  match instrs with
  | [] => []
  | i :: instrs =>
      (instruction_repr (r_state r) i, input_hash su i)
      :: match plain_step su completed r i with
         | Ok r1 => key_trace su completed r1 instrs
         | Err _ => []
         end
  end.

Lemma plain_step_key su completed r i r1 : is_from i = false → plain_step su completed r i = Ok r1 →
  r_key r1 = chain (su_sha256 su) (r_key r) (instruction_repr (r_state r) i) (input_hash su i).
Proof.
  intros Hi E. unfold plain_step in E. rewrite execute_not_from in E by done.
  destruct (configure (r_state r) i) as [[st dirs]|]; [by injection E as <-|].
  unfold layer_step in E. replace (if r_valid _ then _ else None) with (@None CachedLayer) in E
    by (by destruct (r_valid _)).
  destruct (produce _ _ _) as [[[ext root] [l|]]|]; [| |done].
  - destruct (compute_diff_id su (li_path l)); [|done]. by injection E as <-.
  - by injection E as <-.
Qed.

Lemma plain_run_key su completed instrs r r1 : no_from instrs → plain_run su completed r instrs = Ok r1 →
  r_key r1 = foldl (λ key '(repr, h), chain (su_sha256 su) key repr h) (r_key r) (key_trace su completed r instrs).
Proof.
  revert r. induction instrs as [|i instrs IH]; intros r Hn E; cbn [plain_run key_trace foldl] in *; [by injection E as <-|].
  apply list.Forall_cons in Hn as [Hi Hn]. inv_result. rewrite H1. erewrite IH; [|done|exact E].
  by rewrite (plain_step_key _ _ _ _ _ Hi H1).
Qed.

End traces.

(** ** A concrete engine

    Root file systems are lists of texts, a layer is the text it appends, the hash
    is the hexadecimal form of the text. *)

Fixpoint hex_encode (s : string) : string :=
  match s with "" => "" | String a s => hex2 (code a) +:+ hex_encode s end.

Definition unhex (x y : ascii) : option ascii :=
  hi ← to_digit 16 x; lo ← to_digit 16 y; Some (ascii_of_N (Z.to_N (hi * 16 + lo))).

Lemma unhex_hex2 a : unhex (hex_digit (code a / 16)) (hex_digit (code a mod 16)) = Some a.
Proof. by destruct a as [[] [] [] [] [] [] [] []]. Qed.

Lemma hex_encode_inj a b : hex_encode a = hex_encode b → a = b.
Proof.
  revert b. induction a as [|x a IH]; intros [|y b]; cbn [hex_encode]; [done|done|done|].
  unfold hex2. cbn [String.append]. intros [= E1 E2 E3]. pose proof (unhex_hex2 x) as Hx.
  rewrite E1, E2, unhex_hex2 in Hx. injection Hx as ->. f_equal. by apply IH.
Qed.

Lemma hex_encode_line a : has_char nl (hex_encode a) = false.
Proof.
  induction a as [|x a IH]; [done|]. cbn [hex_encode]. rewrite has_char_app, IH.
  by destruct x as [[] [] [] [] [] [] [] []].
Qed.

Definition toy_io : store_io :=
  {| copy_failed := None; key_written := Written; removable := λ _, true; clock := 0; max_bytes := 10 ^ 9 |}.
Definition toy_setup : setup :=
  {| su_sha256 := hex_encode; su_gunzip := Some; su_uppercase := uppercase; su_json := λ _, None;
     su_context := λ p, if bool_decide (p = "app") then Some (NFile (Some "code")) else None;
     su_io := λ _, toy_io |}.

Definition toy_made (text : string) (root : list string) : list string * LayerInfo :=
  (root ++ [text], layer_info toy_setup text).
Definition toy_effects : Effects :=
  {| rootfs := list string; empty_root := [];
     mkdirs := λ _ root, root;
     extract := λ l root, Ok (root ++ [l]);
     pull := λ image, if bool_decide (image = "base") then Ok (["os"], scratch_config) else Err "no such image";
     copy_step := λ src dst _ from root _ _, Ok (toy_made (join " " (src ++ dst :: default [] from)) root);
     add_step := λ src dst _ root _ _, Ok (toy_made (join " " (src ++ [dst])) root);
     run_step := λ command root wd vars _ _, Ok ((λ '(root, l), (root, Some l))
       (toy_made (join ";" (command :: wd :: map show_pair vars)) root)) |}.
#[local] Existing Instance toy_effects.
#[local] Existing Instance list_order.

Definition toy_args : BuildConfig :=
  {| bc_build_args := {["V" := "1"]}; bc_platforms := [("linux", "amd64")]; bc_target := None; bc_no_cache := false |}.
Definition toy_after_from (ids : list string) : run rootfs :=
  {| r_state := new_state ∅; r_rootfs := []; r_base_layers := []; r_base_diff_ids := ids;
     r_key := from_key hex_encode ids; r_valid := true; r_external := ∅ |}.
Definition toy_instrs : list Instruction :=
  [Env [("A", "1")]; Workdir "/srv"; Copy ["app"] "/srv/" None (Some "0:0"); Run "make"; Cmd ["run"]].

Lemma toy_layers_restore completed r i ext root l : produce completed r i = Ok (ext, root, Some l) →
  li_digest l = su_sha256 toy_setup (li_path l) ∧ extract (li_path l) (r_rootfs r) = Ok root.
Proof.
  intros E. destruct i as [| |src dst [f|] chown| | | | | | | | | | | | | | ]; cbn in E; try done;
    try (by injection E as <- <- <-).
  inv_result. destruct x as [ext0 root0]. by injection E as <- <- <-.
Qed.

Definition toy_first : option BuildCache * result build_error (run rootfs) :=
  execute_all toy_setup 0 [] (Some empty_cache) (toy_after_from ["d0"]) toy_instrs.
Definition toy_result : run rootfs := match toy_first.2 with Ok r => r | Err _ => toy_after_from [] end.

Lemma succeeded {C E A} (x : C * result E A) d : is_ok x.2 = true →
  x = (x.1, Ok match x.2 with Ok a => a | Err _ => d end).
Proof. by destruct x as [c [a|e]]. Qed.

Lemma succeeded_result {E A} (x : result E A) d : is_ok x = true → x = Ok match x with Ok a => a | Err _ => d end.
Proof. by destruct x. Qed.

Lemma toy_first_ok : toy_first = (toy_first.1, Ok toy_result).
Proof. apply succeeded. vm_compute. reflexivity. Qed.

Lemma toy_result_rootfs : r_rootfs toy_result = ["app /srv/"; "make;/srv;A=1"].
Proof. vm_compute. reflexivity. Qed.

Lemma warm_rebuild_witness : ∃ c'' r2,
  execute_all toy_setup 0 [] toy_first.1 (toy_after_from ["d0"]) toy_instrs = (c'', Ok r2) ∧
  r_rootfs r2 = ["app /srv/"; "make;/srv;A=1"] ∧ diff_ids (r_state r2) = diff_ids (r_state toy_result).
Proof.
  destruct (warm_rebuild toy_setup hex_encode_inj hex_encode_line ltac:(done) toy_layers_restore ["d0"]
    ltac:(by apply list.Forall_singleton) [] toy_instrs 0 0 (toy_after_from ["d0"]) toy_first.1 toy_result
    ltac:(by repeat constructor) eq_refl fetched_empty toy_first_ok)
    as (_ & c'' & r2 & E2 & _ & Hd & Hr & _).
  exists c'', r2. split; [exact E2|]. split; [by rewrite Hr, toy_result_rootfs|exact Hd].
Defined.

Definition toy_file : list Instruction :=
  [Arg "V" (Some "0"); From_ "base" (Some "b"); Env [("A", "x$V")]; Run "make"; From_ "base" None;
   Copy ["out"] "/out" (Some "b") None; Expose ["80/tcp"; "80/tcp"]; Workdir "srv"].
Definition toy_build : option BuildCache * result build_error (run rootfs) :=
  build toy_setup toy_args (Some empty_cache) toy_file.
Definition toy_built : run rootfs := match toy_build.2 with Ok r => r | Err _ => toy_after_from [] end.

Lemma toy_build_ok : toy_build = (toy_build.1, Ok toy_built).
Proof. apply succeeded. vm_compute. reflexivity. Qed.

Lemma toy_pull_ok image files config : pull image = Ok (files, config) → config_ok config.
Proof. cbn. case_bool_decide; [|done]. intros [= _ <-]. split; try done; constructor. Qed.

Lemma built_state_ok_witness : run_ok toy_built ∧
  (layers (r_state toy_built), length (r_base_layers toy_built), workdir (r_state toy_built))
  = ([layer_info toy_setup "out /out os make;/;A=x1"], 1, "/srv").
Proof.
  split; [apply (built_state_ok toy_setup toy_pull_ok toy_args (Some empty_cache) toy_file toy_build.1);
          apply toy_build_ok|vm_compute; reflexivity].
Defined.

Definition toy_plain : run rootfs :=
  match plain_run toy_setup [] (toy_after_from ["d0"]) toy_instrs with Ok r => r | Err _ => toy_after_from [] end.

Lemma toy_plain_ok : plain_run toy_setup [] (toy_after_from ["d0"]) toy_instrs = Ok toy_plain.
Proof.
  apply succeeded_result. vm_compute. reflexivity.
Qed.


(** *** What the key leaves out *)

Definition after (st : BuildState) : run rootfs :=
  {| r_state := st; r_rootfs := []; r_base_layers := []; r_base_diff_ids := ["d0"];
     r_key := from_key hex_encode ["d0"]; r_valid := true; r_external := ∅ |}.
Definition rebuilt (completed completed' : list (option string * rootfs)) (st st' : BuildState)
    (instrs instrs' : list Instruction) : option (rootfs * option rootfs) :=
  let c := (execute_all toy_setup 0 completed (Some empty_cache) (after st) instrs).1 in
  let root r := r_rootfs <$> res_ok r in
  cached ← root (execute_all toy_setup 0 completed' c (after st') instrs').2;
  Some (cached, root (execute_all toy_setup 0 completed' None (after st') instrs').2).

(** The stage a [COPY --from] reads is not in the key: after the stage changed,
    the old copy is reused. *)
Lemma copy_from_is_stale :
  rebuilt [(Some "b", ["old"])] [(Some "b", ["new"])] (new_state ∅) (new_state ∅)
    [Copy ["x"] "/x" (Some "b") None] [Copy ["x"] "/x" (Some "b") None]
  = Some (["x /x old"], Some ["x /x new"]).
Proof. vm_compute. reflexivity. Qed.

(** Nor is the configuration of the base image: two bases with the same layers and
    different environments share the layers of [RUN]. *)
Lemma base_config_is_stale :
  let st v := set_env (new_state ∅) [("A", v)] in
  rebuilt [] [] (st "1") (st "2") [Run "make"] [Run "make"] = Some (["make;/;A=1"], Some ["make;/;A=2"]).
Proof. vm_compute. reflexivity. Qed.

(** Two different [ENV] instructions have the same text in the key. *)
Lemma env_text_is_stale :
  rebuilt [] [] (new_state ∅) (new_state ∅)
    [Env [("A", "1"); ("B", "2")]; Run "make"] [Env [("A", "1 B=2")]; Run "make"]
  = Some (["make;/;A=1;B=2"], Some ["make;/;A=1 B=2"]) ∧
  instruction_repr (new_state ∅) (Env [("A", "1"); ("B", "2")]) = instruction_repr (new_state ∅) (Env [("A", "1 B=2")]).
Proof. split; vm_compute; reflexivity. Qed.

(** A pattern or a URL is not a file of the context: its step has no content hash. *)
Lemma pattern_is_not_hashed : input_hash toy_setup (Copy ["*.txt"] "/" None None) = None ∧
  input_hash toy_setup (Add ["http://host/file"] "/" None) = None ∧
  input_hash toy_setup (Copy ["app"] "/" None None) ≠ None.
Proof. by vm_compute. Qed.

(** The layers of the base image have no history entry of their own. *)
Lemma history_omits_base : made_layers (history (r_state toy_built)) = 1 ∧
  length (r_base_diff_ids toy_built ++ diff_ids (r_state toy_built)) = 2.
Proof. vm_compute. done. Qed.

(** The history of [COPY --chown] depends on whether the layer was reused. *)
Lemma chown_history_differs : reused_by (Copy ["a"] "/b" None (Some "u")) ≠ made_by (Copy ["a"] "/b" None (Some "u")).
Proof. done. Qed.

(** A variable whose name begins with another variable's name: the result depends
    on the order of the map. *)
Definition reverse_order : HashOrder :=
  {| hash_iter := λ A m, reverse (map_to_list m); hash_iter_perm := λ A m, reverse_Permutation _ |}.

Lemma expand_args_order : let args := {["FOO" := "1"; "FOOBAR" := "2"]} in
  (@expand_args list_order "$FOOBAR" args, @expand_args reverse_order "$FOOBAR" args) ∈
    [("1BAR", "2"); ("2", "1BAR")].
Proof. vm_compute. set_solver. Qed.
