(* ===== verification/Image.v ===== *)
(** * Image: assembling an image and reading one

    [assemble_image] of [runtime/src/oci/build/engine/mod.rs], which writes the
    result of a build as an OCI layout, [OciImage::from_path] of
    [runtime/src/oci/image.rs], which reads a layout, and
    [core/src/platform.rs].  JSON documents are records with the members the code
    writes and reads; their texts, and the hash, are arguments. *)

From Stdlib Require Import ZArith Lia Ascii.
From stdpp Require Import base gmap strings list numbers fin_maps.
From S2P Require Import Prelude RustStr Text BuildCache Build.

Local Open Scope string_scope.
Local Open Scope list_scope.
Local Open Scope nat_scope.

(** ** Platforms *)

Record Platform := { p_os : string; p_arch : string; p_variant : option string }.

Definition normalize_arch (arch : string) : string :=
  if bool_decide (arch ∈ ["x86_64"; "x86-64"]) then "amd64"
  else if bool_decide (arch ∈ ["aarch64"; "arm64v8"]) then "arm64"
  else if bool_decide (arch ∈ ["armhf"; "armv7l"]) then "arm"
  else if bool_decide (arch ∈ ["i386"; "i686"; "x86"]) then "386"
  else arch.

Definition parse_platform (s : string) : option Platform :=
  match split "/" s with
  | [os; arch] => Some {| p_os := os; p_arch := normalize_arch arch; p_variant := None |}
  | [os; arch; v] => Some {| p_os := os; p_arch := normalize_arch arch; p_variant := Some v |}
  | _ => None
  end.

Definition parse_platforms (s : string) : option (list Platform) := mapM (λ p, parse_platform (trim p)) (split "," s).

Definition show_platform (p : Platform) : string :=
  p_os p +:+ "/" +:+ p_arch p +:+ match p_variant p with Some v => "/" +:+ v | None => "" end.

(** ** Documents *)

(** Durations are nanoseconds. *)
Record health_doc := {
  hd_test : list string; hd_interval : option Z; hd_timeout : option Z;
  hd_retries : option Z; hd_start_period : option Z }.

(** The [config] member; [ExposedPorts] and [Volumes] are the keys of objects. *)
Record config_doc := {
  cd_env : option (list string); cd_entrypoint : option (list string); cd_cmd : option (list string);
  cd_working_dir : option string; cd_user : option string; cd_exposed_ports : option (gset string);
  cd_labels : option (gmap string string); cd_stop_signal : option string;
  cd_healthcheck : option health_doc; cd_onbuild : option (list string); cd_volumes : option (gset string) }.

Record image_doc := {
  id_architecture : string; id_created : string; id_config : config_doc;
  id_diff_ids : list string; id_history : list HistoryEntry }.

Record manifest_doc := { md_config : string * Z; md_layers : list (string * Z) }.
Record index_doc := { xd_manifests : list (string * Z * Platform) }.

(** ** A layout on disk *)

Record layout := { lo_marker : bool; lo_index : option string; lo_blobs : option (gmap string string) }.

Inductive image_error :=
  | NotALayout (missing : string) | NoIndex | NoManifests | NoManifestBlob | BadManifest | NoConfigBlob | BadConfig.

Class Documents := {
  show_image : image_doc → string; read_image : string → option image_doc;
  show_manifest : manifest_doc → string; read_manifest : string → option manifest_doc;
  show_index : index_doc → string; read_index : string → option index_doc;
  read_show_image d : read_image (show_image d) = Some d;
  read_show_manifest d : read_manifest (show_manifest d) = Some d;
  read_show_index d : read_index (show_index d) = Some d }.

(** ** Assembly *)

(** [Some x] unless it is empty *)
Definition unless_nil {A} (l : list A) : option (list A) := match l with [] => None | _ => Some l end.

(** Multiplication of a release build *)
Definition to_nanos (secs : Z) : Z := wrap 64 (secs * 1000000000).

Definition health_document (hc : OciHealthCheck) : health_doc :=
  {| hd_test := hc_test hc; hd_interval := to_nanos <$> hc_interval hc; hd_timeout := to_nanos <$> hc_timeout hc;
     hd_retries := hc_retries hc; hd_start_period := to_nanos <$> hc_start_period hc |}.

Definition config_document (st : BuildState) : config_doc :=
  {| cd_env := unless_nil (map (λ kv, kv.1 +:+ "=" +:+ kv.2) (env st));
     cd_entrypoint := entrypoint st;
     cd_cmd := cmd st;
     cd_working_dir := if bool_decide (workdir st = "/") then None else Some (workdir st);
     cd_user := user st;
     cd_exposed_ports := list_to_set <$> unless_nil (exposed_ports st);
     cd_labels := if bool_decide (labels st = ∅) then None else Some (labels st);
     cd_stop_signal := stop_signal st;
     cd_healthcheck := health_document <$> health_check st;
     cd_onbuild := unless_nil (onbuild st);
     cd_volumes := list_to_set <$> unless_nil (volumes st) |}.

Definition prefixed_digest (digest : string) : string := "sha256:" +:+ digest.

Section assemble.
Context `{Documents} (sha256 : string → string).

Definition add_layer (blobs : gmap string string) (l : LayerInfo) : gmap string string :=
  match blobs !! ("sha256/" +:+ li_digest l) with
  | Some _ => blobs
  | None => <["sha256/" +:+ li_digest l := li_path l]> blobs
  end.

Definition describe (l : LayerInfo) : string * Z := (prefixed_digest (li_digest l), li_size l).

(** The layout and the digest of its manifest. *)
Definition assemble_image (st : BuildState) (base_layers : list LayerInfo) (base_diff_ids : list string)
    (target : Platform) (now : string) : layout * string :=
  let all := base_layers ++ layers st in
  let blobs := foldl add_layer ∅ all in
  let config := show_image
    {| id_architecture := p_arch target; id_created := now; id_config := config_document st;
       id_diff_ids := map prefixed_digest (base_diff_ids ++ diff_ids st); id_history := history st |} in
  let blobs := <["sha256/" +:+ sha256 config := config]> blobs in
  let manifest := show_manifest
    {| md_config := (prefixed_digest (sha256 config), Z.of_nat (String.length config)); md_layers := map describe all |} in
  let blobs := <["sha256/" +:+ sha256 manifest := manifest]> blobs in
  let index := show_index
    {| xd_manifests := [(prefixed_digest (sha256 manifest), Z.of_nat (String.length manifest), target)] |} in
  ({| lo_marker := true; lo_index := Some index; lo_blobs := Some blobs |}, prefixed_digest (sha256 manifest)).
End assemble.

(** ** Reading *)

Definition blob_path (digest : string) : string :=
  match split ":" digest with
  | [algorithm; hash] => algorithm +:+ "/" +:+ hash
  | _ => "sha256/" +:+ digest
  end.

(** [duration_seconds_from_json], [u32_from_json] on numbers *)
Definition to_seconds (nanos : Z) : option Z :=
  if (nanos =? 0)%Z then None else Some (Z.max (div_ceil nanos 1000000000) 1).

Definition parse_health_check (d : health_doc) : option OciHealthCheck :=
  match hd_test d with
  | [] => None
  | marker :: _ =>
      if eq_ignore_ascii_case marker "NONE" then None
      else Some {| hc_test := hd_test d;
                   hc_interval := hd_interval d ≫= to_seconds;
                   hc_timeout := hd_timeout d ≫= to_seconds;
                   hc_retries := n ← hd_retries d; if ((0 <? n) && (n <? 2 ^ 32))%Z then Some n else None;
                   hc_start_period := hd_start_period d ≫= to_seconds |}
  end.

(** [from_oci_config]; the order of a set's elements is the parser's. *)
Definition image_config (d : config_doc) : OciImageConfig :=
  {| oc_entrypoint := cd_entrypoint d;
     oc_cmd := cd_cmd d;
     oc_env := omap (split_once "=") (default [] (cd_env d));
     oc_working_dir := cd_working_dir d;
     oc_user := cd_user d;
     oc_exposed_ports := elements (default ∅ (cd_exposed_ports d));
     oc_labels := default ∅ (cd_labels d);
     oc_volumes := elements (default ∅ (cd_volumes d));
     oc_stop_signal := cd_stop_signal d;
     oc_health_check := cd_healthcheck d ≫= parse_health_check;
     oc_onbuild := default [] (cd_onbuild d) |}.

Record OciImage := { im_manifest_digest : string; im_config : OciImageConfig; im_layer_paths : list string }.

Section reading.
Context `{Documents}.

Definition validate_oci_layout (d : layout) : result image_error () :=
  if negb (lo_marker d) then Err (NotALayout "oci-layout")
  else match lo_index d, lo_blobs d with
       | None, _ => Err (NotALayout "index.json")
       | Some _, None => Err (NotALayout "blobs")
       | Some _, Some _ => Ok ()
       end.

Definition from_path (d : layout) : result image_error OciImage :=
  _ ← validate_oci_layout d;
  index ← ok_or NoIndex (lo_index d ≫= read_index);
  manifest_digest ← ok_or NoManifests (fst ∘ fst <$> head (xd_manifests index));
  let blobs := default ∅ (lo_blobs d) in
  text ← ok_or NoManifestBlob (blobs !! blob_path manifest_digest);
  manifest ← ok_or BadManifest (read_manifest text);
  config_text ← ok_or NoConfigBlob (blobs !! blob_path (md_config manifest).1);
  doc ← ok_or BadConfig (read_image config_text);
  Ok {| im_manifest_digest := manifest_digest; im_config := image_config (id_config doc);
        im_layer_paths := map (blob_path ∘ fst) (md_layers manifest) |}.
End reading.

(** ** What was assembled is read back *)

Definition health_ok (hc : OciHealthCheck) : Prop :=
  let duration_ok o := ∀ s, o = Some s → (0 < s < 2 ^ 34)%Z in
  (∃ marker rest, hc_test hc = marker :: rest ∧ eq_ignore_ascii_case marker "NONE" = false) ∧
  duration_ok (hc_interval hc) ∧ duration_ok (hc_timeout hc) ∧ duration_ok (hc_start_period hc) ∧
  ∀ n, hc_retries hc = Some n → (0 < n < 2 ^ 32)%Z.

Lemma nanos_roundtrip o : (∀ s, o = Some s → (0 < s < 2 ^ 34)%Z) → (to_nanos <$> o) ≫= to_seconds = o.
Proof.
  destruct o as [s|]; [|done]. intros Hs. specialize (Hs s eq_refl). cbn. unfold to_nanos, to_seconds.
  rewrite wrap_small by (unfold in_range; lia). destruct (Z.eqb_spec (s * 1000000000) 0); [lia|].
  unfold div_ceil. f_equal. rewrite Z.mod_mul, Z.div_mul by lia. cbn. lia.
Qed.

Lemma health_roundtrip hc : health_ok hc → parse_health_check (health_document hc) = Some hc.
Proof.
  intros ((m & rest & Ht & Hm) & Hi & Hto & Hs & Hr). unfold parse_health_check, health_document. cbn.
  rewrite Ht, Hm, !nanos_roundtrip by done. destruct hc as [t i to re sp]. cbn in *. subst t. do 2 f_equal.
  destruct re as [n|]; [|done]. specialize (Hr n eq_refl). cbn.
  rewrite (proj2 (Z.ltb_lt 0 n)), (proj2 (Z.ltb_lt n (2 ^ 32))) by lia. done.
Qed.

Lemma env_roundtrip l : Forall (λ kv, has_char "=" kv.1 = false) l →
  omap (split_once "=") (map (λ kv : string * string, kv.1 +:+ "=" +:+ kv.2) l) = l.
Proof.
  induction 1 as [|[k v] l Hk _ IH]; [done|]. cbn [map omap list_omap fst snd].
  change (k +:+ "=" +:+ v) with (k +:+ String "=" v). rewrite (split_once_app "=" k v Hk). f_equal. exact IH.
Qed.

Lemma default_unless_nil {A} (l : list A) : default [] (unless_nil l) = l.
Proof. by destruct l. Qed.

Lemma set_roundtrip l : NoDup l → elements (default ∅ (list_to_set (C := gset string) <$> unless_nil l)) ≡ₚ l.
Proof. intros Hl. destruct l as [|x l]; [by cbn; rewrite elements_empty|]. cbn -[list_to_set]. by apply elements_list_to_set. Qed.

Section roundtrip.
Context `{Documents} (sha256 : string → string).
Context (sha256_inj : ∀ a b, sha256 a = sha256 b → a = b).
Context (sha256_hex : ∀ a, has_char ":" (sha256 a) = false).

Lemma blob_path_sha a : blob_path (prefixed_digest (sha256 a)) = "sha256/" +:+ sha256 a.
Proof using sha256_hex.
  unfold blob_path, prefixed_digest. change ("sha256:" +:+ sha256 a) with (join ":" ["sha256"; sha256 a]).
  rewrite split_join; [done|done|]. apply list.Forall_cons. split; [done|]. apply list.Forall_singleton, sha256_hex.
Qed.

Definition addressed (m : gmap string string) : Prop := ∀ k v, m !! k = Some v → k = "sha256/" +:+ sha256 v.

Lemma addressed_lookup m x : addressed m → is_Some (m !! ("sha256/" +:+ sha256 x)) →
  m !! ("sha256/" +:+ sha256 x) = Some x.
Proof using sha256_inj.
  intros Hm [v Hv]. pose proof (Hm _ _ Hv) as E. apply str_app_inj_l, sha256_inj in E. by subst.
Qed.

Lemma addressed_insert m x : addressed m → addressed (<["sha256/" +:+ sha256 x := x]> m).
Proof using Type. intros Hm k v. rewrite lookup_insert_Some. intros [[<- <-]|[_ ?]]; [done|by apply Hm]. Qed.

Lemma add_layers_spec ls m : addressed m → Forall (λ l, li_digest l = sha256 (li_path l)) ls →
  addressed (foldl add_layer m ls) ∧ m ⊆ foldl add_layer m ls ∧
  ∀ l, l ∈ ls → is_Some (foldl add_layer m ls !! ("sha256/" +:+ sha256 (li_path l))).
Proof using Type.
  revert m. induction ls as [|l ls IH]; intros m Hm Hl; cbn [foldl].
  { split_and!; [done..|]. by intros l ?%not_elem_of_nil. }
  apply list.Forall_cons in Hl as [Hd Hl]. unfold add_layer at 2 4 6. rewrite Hd.
  destruct (m !! ("sha256/" +:+ sha256 (li_path l))) as [v|] eqn:E.
  - destruct (IH m Hm Hl) as (? & Hsub & Hin). split_and!; [done..|].
    intros l' [->|?]%elem_of_cons; [|by apply Hin]. exists v. by eapply lookup_weaken.
  - destruct (IH (<["sha256/" +:+ sha256 (li_path l) := li_path l]> m)) as (? & Hsub & Hin);
      [by apply addressed_insert|done|]. split_and!; [done|etrans; [by apply insert_subseteq|exact Hsub]|].
    intros l' [->|?]%elem_of_cons; [|by apply Hin]. eexists. eapply lookup_weaken; [|exact Hsub].
    apply lookup_insert_eq.
Qed.

(** The configuration a build's state stands for. *)
Record config_of (st : BuildState) (c : OciImageConfig) : Prop := {
  cf_entrypoint : oc_entrypoint c = entrypoint st;
  cf_cmd : oc_cmd c = cmd st;
  cf_env : oc_env c = env st;
  cf_workdir : default "/" (oc_working_dir c) = workdir st;
  cf_user : oc_user c = user st;
  cf_ports : oc_exposed_ports c ≡ₚ exposed_ports st;
  cf_labels : oc_labels c = labels st;
  cf_volumes : oc_volumes c ≡ₚ volumes st;
  cf_stop_signal : oc_stop_signal c = stop_signal st;
  cf_health : oc_health_check c = health_check st;
  cf_onbuild : oc_onbuild c = onbuild st }.

Lemma config_roundtrip st : Forall (λ kv, has_char "=" kv.1 = false) (env st) →
  NoDup (exposed_ports st) → NoDup (volumes st) → (∀ hc, health_check st = Some hc → health_ok hc) →
  config_of st (image_config (config_document st)).
Proof using Type.
  intros He Hp Hv Hh. split; cbn; try done.
  - rewrite default_unless_nil. by apply env_roundtrip.
  - by case_bool_decide.
  - by apply set_roundtrip.
  - case_bool_decide as E; by rewrite ?E.
  - by apply set_roundtrip.
  - destruct (health_check st) as [hc|]; [|done]. cbn. by apply health_roundtrip, Hh.
  - apply default_unless_nil.
Qed.

(** The layout a build assembles is a valid layout; reading it gives the
    manifest digest of the build, the configuration of the build's state, and
    layer blobs whose contents are the base layers followed by the new ones. *)
Theorem image_roundtrip st base ids target now :
  Forall (λ l, li_digest l = sha256 (li_path l)) (base ++ layers st) →
  Forall (λ kv, has_char "=" kv.1 = false) (env st) → NoDup (exposed_ports st) → NoDup (volumes st) →
  (∀ hc, health_check st = Some hc → health_ok hc) →
  let '(d, digest) := assemble_image sha256 st base ids target now in
  ∃ im, from_path d = Ok im ∧ im_manifest_digest im = digest ∧ config_of st (im_config im) ∧
    map (λ p, default ∅ (lo_blobs d) !! p) (im_layer_paths im) = map (Some ∘ li_path) (base ++ layers st).
Proof using sha256_inj sha256_hex.
  intros Hl He Hp Hv Hh. unfold assemble_image.
  set (config := show_image _). set (manifest := show_manifest _). set (index := show_index _).
  set (blobs := <["sha256/" +:+ sha256 manifest := manifest]> _).
  destruct (add_layers_spec (base ++ layers st) ∅) as (Ha & _ & Hin); [by intros ? ?|done|].
  assert (addressed blobs) as Hb by (by do 2 apply addressed_insert).
  assert (∀ k x (m : gmap string string), is_Some (m !! k) → is_Some (<["sha256/" +:+ sha256 x := x]> m !! k)) as Hkeep.
  { intros k x m Hm. rewrite lookup_insert_is_Some'. by right. }
  assert (blobs !! ("sha256/" +:+ sha256 manifest) = Some manifest) as Em by (apply lookup_insert_eq).
  assert (blobs !! ("sha256/" +:+ sha256 config) = Some config) as Ec.
  { apply addressed_lookup; [done|]. apply Hkeep. rewrite lookup_insert_eq. by eexists. }
  assert (∀ l, l ∈ base ++ layers st → is_Some (blobs !! ("sha256/" +:+ sha256 (li_path l)))) as Hblobs
    by (intros; by apply Hkeep, Hkeep, Hin).
  eassert (read_index index = Some _) as Ri by apply read_show_index.
  eassert (read_manifest manifest = Some _) as Rm by apply read_show_manifest.
  eassert (read_image config = Some _) as Rc by apply read_show_image.
  clearbody config manifest index blobs.
  eexists. split; [|split; [|split]].
  - unfold from_path. cbn -[blob_path]. rewrite Ri. cbn -[blob_path prefixed_digest].
    rewrite blob_path_sha, Em. cbn -[blob_path prefixed_digest]. rewrite Rm. cbn -[blob_path prefixed_digest].
    rewrite blob_path_sha, Ec. cbn -[blob_path prefixed_digest]. rewrite Rc. reflexivity.
  - done.
  - cbn. by apply config_roundtrip.
  - cbn -[blob_path prefixed_digest]. rewrite !map_map. apply map_ext_in. intros l Hin'%list_elem_of_In.
    cbn -[blob_path prefixed_digest].
    rewrite list.Forall_forall in Hl. rewrite (Hl l Hin'), blob_path_sha.
    apply addressed_lookup; [done|]. by apply Hblobs.
Qed.
End roundtrip.

(** ** Platforms are read as they are shown *)

Lemma normalize_arch_idem arch : normalize_arch (normalize_arch arch) = normalize_arch arch.
Proof.
  unfold normalize_arch. repeat case_bool_decide; try done;
    repeat match goal with H : _ ∈ _ |- _ => vm_compute in H; set_solver end.
Qed.

Lemma platform_roundtrip p : has_char "/" (p_os p) = false → has_char "/" (p_arch p) = false →
  (∀ v, p_variant p = Some v → has_char "/" v = false) → normalize_arch (p_arch p) = p_arch p →
  parse_platform (show_platform p) = Some p.
Proof.
  destruct p as [os arch v]. cbn. intros Ho Ha Hv Hn. unfold parse_platform, show_platform. cbn [p_os p_arch p_variant].
  destruct v as [v|].
  - change (os +:+ String "/" (arch +:+ String "/" v)) with (join "/" [os; arch; v]).
    rewrite (split_join "/"); [by rewrite Hn|done|]. by repeat constructor; auto.
  - rewrite str_app_nil_r. change (os +:+ String "/" arch) with (join "/" [os; arch]).
    rewrite (split_join "/"); [by rewrite Hn|done|]. by repeat constructor.
Qed.

(** ** A concrete reading and writing of documents *)

Fixpoint show_bits (p : positive) : string :=
  match p with xH => "" | xO p => String "0" (show_bits p) | xI p => String "1" (show_bits p) end.
Fixpoint read_bits (s : string) : positive :=
  match s with "" => xH | String a s => if Ascii.eqb a "0" then xO (read_bits s) else xI (read_bits s) end.

Lemma read_show_bits p : read_bits (show_bits p) = p.
Proof. induction p as [p IH|p IH|]; cbn; by rewrite ?IH. Qed.

#[local] Instance history_countable : EqDecision HistoryEntry.
Proof. solve_decision. Defined.
#[local] Instance platform_eq : EqDecision Platform.
Proof. solve_decision. Defined.
#[local] Instance health_eq : EqDecision health_doc.
Proof. solve_decision. Defined.
#[local] Instance config_eq : EqDecision config_doc.
Proof. solve_decision. Defined.
#[local] Instance image_eq : EqDecision image_doc.
Proof. solve_decision. Defined.
#[local] Instance manifest_eq : EqDecision manifest_doc.
Proof. solve_decision. Defined.
#[local] Instance index_eq : EqDecision index_doc.
Proof. solve_decision. Defined.

#[local] Instance entry_countable : Countable HistoryEntry.
Proof.
  refine (inj_countable' (λ e, (created_by e, empty_layer e)) (λ '(a, b), {| created_by := a; empty_layer := b |}) _).
  by intros [].
Defined.
#[local] Instance platform_countable : Countable Platform.
Proof.
  refine (inj_countable' (λ p, (p_os p, p_arch p, p_variant p))
    (λ '(a, b, c), {| p_os := a; p_arch := b; p_variant := c |}) _). by intros [].
Defined.
#[local] Instance health_countable : Countable health_doc.
Proof.
  refine (inj_countable' (λ d, (hd_test d, hd_interval d, hd_timeout d, hd_retries d, hd_start_period d))
    (λ '(a, b, c, d, e), {| hd_test := a; hd_interval := b; hd_timeout := c; hd_retries := d; hd_start_period := e |}) _).
  by intros [].
Defined.
#[local] Instance config_countable : Countable config_doc.
Proof.
  refine (inj_countable' (λ d, (cd_env d, cd_entrypoint d, cd_cmd d, cd_working_dir d, cd_user d,
      cd_exposed_ports d, cd_labels d, cd_stop_signal d, cd_healthcheck d, cd_onbuild d, cd_volumes d))
    (λ '(a, b, c, d, e, f, g, h, i, j, k),
      {| cd_env := a; cd_entrypoint := b; cd_cmd := c; cd_working_dir := d; cd_user := e; cd_exposed_ports := f;
         cd_labels := g; cd_stop_signal := h; cd_healthcheck := i; cd_onbuild := j; cd_volumes := k |}) _).
  by intros [].
Defined.
#[local] Instance image_countable : Countable image_doc.
Proof.
  refine (inj_countable' (λ d, (id_architecture d, id_created d, id_config d, id_diff_ids d, id_history d))
    (λ '(a, b, c, d, e), {| id_architecture := a; id_created := b; id_config := c; id_diff_ids := d; id_history := e |}) _).
  by intros [].
Defined.
#[local] Instance manifest_countable : Countable manifest_doc.
Proof.
  refine (inj_countable' (λ d, (md_config d, md_layers d)) (λ '(a, b), {| md_config := a; md_layers := b |}) _).
  by intros [].
Defined.
#[local] Instance index_countable : Countable index_doc.
Proof. refine (inj_countable' xd_manifests (λ a, {| xd_manifests := a |}) _). by intros []. Defined.

Lemma decode_show {A} `{Countable A} (x : A) : decode (read_bits (show_bits (encode x))) = Some x.
Proof. by rewrite read_show_bits, decode_encode. Qed.

Definition toy_documents : Documents :=
  {| show_image d := show_bits (encode d); read_image s := decode (read_bits s);
     show_manifest d := show_bits (encode d); read_manifest s := decode (read_bits s);
     show_index d := show_bits (encode d); read_index s := decode (read_bits s);
     read_show_image := decode_show; read_show_manifest := decode_show; read_show_index := decode_show |}.

Lemma hex_encode_colon a : has_char ":" (hex_encode a) = false.
Proof.
  induction a as [|x a IH]; [done|]. cbn [hex_encode]. rewrite has_char_app, IH.
  by destruct x as [[] [] [] [] [] [] [] []].
Qed.

Definition toy_image_state : BuildState :=
  set_layers (set_health_check (set_env (new_state ∅) [("A", "1=2")])
    (Some {| hc_test := ["/check"]; hc_interval := Some 30%Z; hc_timeout := None; hc_retries := Some 3%Z;
             hc_start_period := None |}))
    [{| li_path := "layer"; li_digest := hex_encode "layer"; li_size := 5 |}].
Definition toy_platform : Platform := {| p_os := "linux"; p_arch := "amd64"; p_variant := None |}.

Lemma image_roundtrip_witness : ∃ im,
  @from_path toy_documents (@assemble_image toy_documents hex_encode toy_image_state [] [] toy_platform "now").1 = Ok im ∧
  oc_env (im_config im) = [("A", "1=2")].
Proof.
  destruct (@image_roundtrip toy_documents hex_encode hex_encode_inj hex_encode_colon toy_image_state [] []
    toy_platform "now") as (im & E & _ & Hc & _).
  - by apply list.Forall_singleton.
  - by apply list.Forall_singleton.
  - constructor.
  - constructor.
  - intros hc [= <-]. split; [by exists "/check", []|]. cbn. split_and!; intros ? [= <-]; lia.
  - exists im. split; [exact E|]. by rewrite (cf_env _ _ Hc).
Defined.
