(* ===== verification/ImageStore.v ===== *)
(** * ImageStore: the index of stored images

    [runtime/src/oci/store.rs]: references, digests, the directories that hold the
    layouts, least-recently-used eviction, and the index file.  Directories are a
    map from names to sizes; the outcomes of file operations are arguments, so that
    a copy cut short or a failed removal is part of the model. *)

From Stdlib Require Import ZArith Lia Ascii.
From stdpp Require Import base gmap strings list numbers fin_maps.
From S2P Require Import Prelude RustStr Reference.

Local Open Scope string_scope.
Local Open Scope list_scope.
Local Open Scope nat_scope.

(** ** State *)

Record StoredImage := {
  si_reference : string; si_digest : string; si_size : Z;
  si_pulled_at : Z; si_last_used : Z; si_path : string }.

#[export] Instance stored_image_eq_dec : EqDecision StoredImage.
Proof. solve_decision. Defined.

(** The index in memory, the directories below [sha256/] with their sizes, the
    index file. *)
Record ImageStore := {
  st_index : gmap string StoredImage;
  st_dirs : gmap string Z;
  st_saved : option (list StoredImage);
  st_max : Z }.

Definition with_index (s : ImageStore) (m : gmap string StoredImage) : ImageStore :=
  {| st_index := m; st_dirs := st_dirs s; st_saved := st_saved s; st_max := st_max s |}.
Definition with_dirs (s : ImageStore) (d : gmap string Z) : ImageStore :=
  {| st_index := st_index s; st_dirs := d; st_saved := st_saved s; st_max := st_max s |}.

Definition set_last_used (now : Z) (i : StoredImage) : StoredImage :=
  {| si_reference := si_reference i; si_digest := si_digest i; si_size := si_size i;
     si_pulled_at := si_pulled_at i; si_last_used := now; si_path := si_path i |}.
Definition set_reference (r : string) (i : StoredImage) : StoredImage :=
  {| si_reference := r; si_digest := si_digest i; si_size := si_size i;
     si_pulled_at := si_pulled_at i; si_last_used := si_last_used i; si_path := si_path i |}.

(** The directory of a digest *)
Definition dir_name (digest : string) : string := default digest (strip_prefix "sha256:" digest).

Inductive store_error := CopyFailed | ImageNotFound (image : string) | RemoveFailed (path : string) | SaveFailed | Unending.

(** How the copy of a layout ends: complete with its size, or broken off with the
    part that is left. *)
Inductive copy_end := Whole (size : Z) | Broken (part : option Z).

Section operations.
Context `{HashOrder}.

(** [HashMap::values] *)
Definition images (s : ImageStore) : list StoredImage := (hash_iter (st_index s)).*2.

Definition save_index (ok : bool) (s : ImageStore) : ImageStore * result store_error () :=
  if ok then ({| st_index := st_index s; st_dirs := st_dirs s; st_saved := Some (images s); st_max := st_max s |}, Ok ())
  else (s, Err SaveFailed).

Definition load_index (saved : list StoredImage) (dirs : gmap string Z) : gmap string StoredImage :=
  foldl (λ m i, match dirs !! si_path i with Some _ => <[si_reference i := i]> m | None => m end) ∅ saved.

(** [ImageStore::new]; [None]: the index file is not readable. *)
Definition open_store (parsed : option (option (list StoredImage))) (dirs : gmap string Z) (max : Z)
    : option ImageStore :=
  match parsed with
  | Some (Some saved) => Some {| st_index := load_index saved dirs; st_dirs := dirs; st_saved := Some saved; st_max := max |}
  | Some None => Some {| st_index := ∅; st_dirs := dirs; st_saved := None; st_max := max |}
  | None => None
  end.

Definition get (now : Z) (saves : bool) (reference : string) (s : ImageStore) : ImageStore * option StoredImage :=
  match st_index s !! reference with
  | Some i =>
      let i := set_last_used now i in
      ((save_index saves (with_index s (<[reference := i]> (st_index s)))).1, Some i)
  | None => (s, None)
  end.

Definition get_by_digest (now : Z) (saves : bool) (digest : string) (s : ImageStore) : ImageStore * option StoredImage :=
  match List.find (λ kv, bool_decide (si_digest kv.2 = digest)) (hash_iter (st_index s)) with
  | Some (key, i) =>
      let i := set_last_used now i in
      ((save_index saves (with_index s (<[key := i]> (st_index s)))).1, Some i)
  | None => (s, None)
  end.

Definition resolve_image (now : Z) (saves : bool) (image : string) (s : ImageStore) : ImageStore * option StoredImage :=
  match get now saves image s with
  | (s1, Some i) => (s1, Some i)
  | (s1, None) =>
      let digest_part := match rsplit_once "@" image with Some (_, d) => d | None => image end in
      match get_by_digest now saves digest_part s1 with
      | (s2, Some i) => (s2, Some i)
      | (s2, None) =>
          match parse_reference image with
          | Ok parsed => get now saves (full_reference parsed) s2
          | Err _ => (s2, None)
          end
      end
  end.

(** The image a reference is taken from stays under its digest when nothing else
    has that digest. *)
Definition displace (reference digest : string) (index : gmap string StoredImage) : gmap string StoredImage :=
  match index !! reference with
  | Some old =>
      if bool_decide (si_digest old = digest) then index
      else if existsb (λ kv, negb (bool_decide (kv.1 = reference)) && bool_decide (si_digest kv.2 = si_digest old))
                (hash_iter index) then index
      else match index !! si_digest old with
           | Some _ => index
           | None => <[si_digest old := set_reference (si_digest old) old]> index
           end
  | None => index
  end.

Definition put (now : Z) (copy : copy_end) (saves : bool) (reference digest : string) (s : ImageStore)
    : ImageStore * result store_error StoredImage :=
  let target := dir_name digest in
  let stored dirs :=
    let i := {| si_reference := reference; si_digest := digest; si_size := default 0%Z (dirs !! target);
                si_pulled_at := now; si_last_used := now; si_path := target |} in
    let s := with_dirs (with_index s (<[reference := i]> (displace reference digest (st_index s)))) dirs in
    let '(s, saved) := save_index saves s in
    (s, _ ← saved; Ok i) in
  match st_dirs s !! target with
  | Some _ => stored (st_dirs s)
  | None =>
      match copy with
      | Whole size => stored (<[target := size]> (st_dirs s))
      | Broken (Some part) => (with_dirs s (<[target := part]> (st_dirs s)), Err CopyFailed)
      | Broken None => (s, Err CopyFailed)
      end
  end.

(** The layouts of the removed images that no entry has any more. *)
Fixpoint remove_dirs (can_remove : string → bool) (removed : list StoredImage) (index : gmap string StoredImage)
    (dirs : gmap string Z) : gmap string Z * result store_error () :=
  match removed with
  | [] => (dirs, Ok ())
  | i :: removed =>
      if existsb (λ o, bool_decide (si_digest o = si_digest i)) (hash_iter index).*2
      then remove_dirs can_remove removed index dirs
      else match dirs !! si_path i with
           | None => remove_dirs can_remove removed index dirs
           | Some _ =>
               if can_remove (si_path i)
               then remove_dirs can_remove removed index (delete (si_path i) dirs)
               else (dirs, Err (RemoveFailed (si_path i)))
           end
  end.

(** [filter_map(|k| index.remove(k))] *)
Fixpoint remove_keys (keys : list string) (index : gmap string StoredImage)
    : list StoredImage * gmap string StoredImage :=
  match keys with
  | [] => ([], index)
  | k :: keys =>
      match index !! k with
      | Some i => let '(removed, index) := remove_keys keys (delete k index) in (i :: removed, index)
      | None => remove_keys keys index
      end
  end.

Definition remove (can_remove : string → bool) (saves : bool) (image : string) (s : ImageStore)
    : ImageStore * result store_error () :=
  let keys :=
    match st_index s !! image with
    | Some _ => [image]
    | None => map si_reference (List.filter (λ i, bool_decide (si_digest i = image)) (images s))
    end in
  match keys with
  | [] => (s, Err (ImageNotFound image))
  | _ =>
      let '(removed, index) := remove_keys keys (st_index s) in
      match remove_dirs can_remove removed index (st_dirs s) with
      | (dirs, Err e) => (with_dirs (with_index s index) dirs, Err e)
      | (dirs, Ok _) => save_index saves (with_dirs (with_index s index) dirs)
      end
  end.

Definition total_size (s : ImageStore) : Z := wrap 64 (foldr (λ i n, (si_size i + n)%Z) 0%Z (images s)).

(** [min_by_key]: the first of the least. *)
Definition older (best : option StoredImage) (i : StoredImage) : option StoredImage :=
  match best with
  | Some b => if (si_last_used i <? si_last_used b)%Z then Some i else Some b
  | None => Some i
  end.
Definition least_recent (l : list StoredImage) : option StoredImage := foldl older None l.

Fixpoint evict_loop (fuel : nat) (can_remove : string → bool) (saves : bool) (s : ImageStore) (evicted : list string)
    : ImageStore * result store_error (list string) :=
  if (total_size s <=? st_max s)%Z then (s, Ok evicted)
  else match least_recent (images s) with
       | None => (s, Ok evicted)
       | Some i =>
           match fuel with
           | O => (s, Err Unending)
           | S fuel =>
               match remove can_remove saves (si_reference i) s with
               | (s, Ok _) => evict_loop fuel can_remove saves s (evicted ++ [si_reference i])
               | (s, Err e) => (s, Err e)
               end
           end
       end.
Definition evict (can_remove : string → bool) (saves : bool) (s : ImageStore) : ImageStore * result store_error (list string) :=
  evict_loop (size (st_index s)) can_remove saves s [].
End operations.

(** ** The invariant *)

Record store_ok (s : ImageStore) : Prop := {
  ok_key : ∀ k i, st_index s !! k = Some i → si_reference i = k;
  ok_digest : ∀ k i, st_index s !! k = Some i →
    starts_with "sha256:" (si_digest i) = true ∧ si_path i = dir_name (si_digest i);
  ok_dir : ∀ k i, st_index s !! k = Some i → is_Some (st_dirs s !! si_path i);
  ok_owned : ∀ d, is_Some (st_dirs s !! d) → ∃ k i, st_index s !! k = Some i ∧ si_path i = d;
  ok_dangling : ∀ k i, st_index s !! k = Some i → starts_with "sha256:" k = true → si_digest i = k }.

(** A digest is determined by its directory. *)
Lemma dir_name_inj d d' : starts_with "sha256:" d = true → starts_with "sha256:" d' = true →
  dir_name d = dir_name d' → d = d'.
Proof.
  intros (t & ->)%starts_with_spec (t' & ->)%starts_with_spec. unfold dir_name.
  rewrite !strip_prefix_app. cbn. by intros ->.
Qed.

Section invariant.
Context `{HashOrder}.

Lemma elem_of_images s i : i ∈ images s ↔ ∃ k, st_index s !! k = Some i.
Proof.
  unfold images. rewrite list_elem_of_fmap. split.
  - intros ([k a] & -> & Hin%elem_of_hash_iter). by exists k.
  - intros (k & Hk). exists (k, i). by rewrite elem_of_hash_iter.
Qed.

Lemma existsb_images (p : StoredImage → bool) (m : gmap string StoredImage) :
  existsb p (hash_iter m).*2 = true ↔ ∃ k i, m !! k = Some i ∧ p i = true.
Proof.
  rewrite existsb_exists. setoid_rewrite <-list_elem_of_In. setoid_rewrite list_elem_of_fmap. split.
  - intros (i & ([k a] & -> & Hin%elem_of_hash_iter) & Hp). by exists k, a.
  - intros (k & i & Hk & Hp). exists i. split; [|done]. exists (k, i). by rewrite elem_of_hash_iter.
Qed.

Lemma touch_ok s k i now saves : store_ok s → st_index s !! k = Some i →
  store_ok (save_index saves (with_index s (<[k := set_last_used now i]> (st_index s)))).1.
Proof.
  intros [Hk Hd Hdir Ho Hg] Hi.
  assert (∀ P : string → StoredImage → Prop, (∀ k i, P k i → P k (set_last_used now i)) →
    (∀ k i, st_index s !! k = Some i → P k i) →
    ∀ k' i', <[k := set_last_used now i]> (st_index s) !! k' = Some i' → P k' i') as Hins.
  { intros P HP Hall k' i'. rewrite lookup_insert_Some. intros [[<- <-]|[_ ?]]; auto. }
  assert (store_ok (with_index s (<[k := set_last_used now i]> (st_index s)))) as Hok.
  { split; cbn.
    - by apply (Hins (λ k i, si_reference i = k)).
    - by apply (Hins (λ k i, starts_with "sha256:" (si_digest i) = true ∧ si_path i = dir_name (si_digest i))).
    - by apply (Hins (λ k i, is_Some (st_dirs s !! si_path i))).
    - intros d (k' & i' & Hi' & <-)%Ho. destruct (decide (k = k')) as [<-|Hne].
      + exists k, (set_last_used now i). rewrite lookup_insert_eq. split; [done|]. cbn. congruence.
      + exists k', i'. by rewrite lookup_insert_ne.
    - by apply (Hins (λ k i, starts_with "sha256:" k = true → si_digest i = k)). }
  destruct saves; [|done]. destruct Hok. by split.
Qed.

Lemma get_ok now saves r s : store_ok s → store_ok (get now saves r s).1.
Proof. intros Hs. unfold get. destruct (st_index s !! r) eqn:E; [by apply touch_ok|done]. Qed.

Lemma get_by_digest_ok now saves d s : store_ok s → store_ok (get_by_digest now saves d s).1.
Proof.
  intros Hs. unfold get_by_digest. destruct (List.find _ _) as [[k i]|] eqn:E; [|done].
  apply find_some in E as [Hin%list_elem_of_In%elem_of_hash_iter _]. by apply touch_ok.
Qed.

Lemma resolve_ok now saves image s : store_ok s → store_ok (resolve_image now saves image s).1.
Proof.
  intros Hs. unfold resolve_image. pose proof (get_ok now saves image s Hs) as H1.
  destruct (get now saves image s) as [s1 [i|]]; [done|].
  set (d := match rsplit_once "@" image with Some (_, d) => d | None => image end).
  pose proof (get_by_digest_ok now saves d s1 H1) as H2. destruct (get_by_digest now saves d s1) as [s2 [i|]]; [done|].
  destruct (parse_reference image); [by apply get_ok|done].
Qed.

Lemma save_index_ok saves s : store_ok s → store_ok (save_index saves s).1.
Proof. intros [? ? ? ? ?]. by destruct saves. Qed.

(** What is under other references stays; what was under the reference keeps an
    entry with its digest. *)
Lemma displace_spec r d m :
  (∀ k i, m !! k = Some i → starts_with "sha256:" (si_digest i) = true) →
  (∀ k i, m !! k = Some i → starts_with "sha256:" k = true → si_digest i = k) → starts_with "sha256:" r = false →
  let m' := displace r d m in
  (∀ k i, k ≠ r → m !! k = Some i → m' !! k = Some i) ∧
  (∀ k i, m' !! k = Some i → m !! k = Some i ∨
     ∃ old, m !! r = Some old ∧ k = si_digest old ∧ i = set_reference k old) ∧
  (∀ old, m !! r = Some old → si_digest old = d ∨ ∃ k i, k ≠ r ∧ m' !! k = Some i ∧ si_digest i = si_digest old ∧
     (m !! k = Some i ∨ i = set_reference k old)).
Proof.
  intros Hdig Hdang Hr m'. subst m'. unfold displace.
  destruct (m !! r) as [old|] eqn:Er; [|split_and!; [done|by left|done]].
  case_bool_decide as Ed; [split_and!; [done|by left|intros ? [= <-]; by left]|].
  destruct (existsb _ _) eqn:Ex.
  - split_and!; [done|by left|]. intros ? [= <-]. right. apply existsb_exists in Ex as ([k i] & Hin & Hp).
    apply list_elem_of_In, elem_of_hash_iter in Hin. apply andb_true_iff in Hp as [Hne Hp]. cbn in *.
    apply negb_true_iff, bool_decide_eq_false in Hne. apply bool_decide_eq_true in Hp. exists k, i. auto.
  - destruct (m !! si_digest old) as [j|] eqn:Ej.
    + split_and!; [done|by left|]. intros ? [= <-]. right. exists (si_digest old), j.
      pose proof (Hdig _ _ Er) as Hs. split_and!; [intros E; congruence|done|by apply Hdang|by left].
    + split_and!.
      * intros k i Hne Hk. rewrite lookup_insert_ne; [done|]. intros <-. congruence.
      * intros k i. rewrite lookup_insert_Some. intros [[<- <-]|[_ ?]]; [right|by left]. by exists old.
      * intros ? [= <-]. right. exists (si_digest old), (set_reference (si_digest old) old).
        pose proof (Hdig _ _ Er) as Hs. rewrite lookup_insert_eq. split_and!; [intros E; congruence|done|done|by right].
Qed.

Lemma put_ok now copy saves r d s : store_ok s → starts_with "sha256:" r = false → starts_with "sha256:" d = true →
  (∀ part, copy ≠ Broken (Some part)) → store_ok (put now copy saves r d s).1.
Proof.
  intros [Hk Hd Hdir Ho Hg] Hr Hdg Hcopy.
  assert (∀ dirs, is_Some (dirs !! dir_name d) → (∀ x, is_Some (st_dirs s !! x) → is_Some (dirs !! x)) →
    (∀ x, is_Some (dirs !! x) → x = dir_name d ∨ is_Some (st_dirs s !! x)) →
    ∀ i, si_reference i = r → si_digest i = d → si_path i = dir_name d →
    store_ok (with_dirs (with_index s (<[r := i]> (displace r d (st_index s)))) dirs)) as Hnew.
  { intros dirs Ht Hsub Hsup i Hir Hid Hip.
    destruct (displace_spec r d (st_index s)) as (Hkeep & Hfrom & Hold);
      [intros k j Hj; by apply (Hd k j)|done|done|].
    assert (∀ P : string → StoredImage → Prop, P r i → (∀ k j, st_index s !! k = Some j → P k j) →
      (∀ j, st_index s !! r = Some j → P (si_digest j) (set_reference (si_digest j) j)) →
      ∀ k j, <[r := i]> (displace r d (st_index s)) !! k = Some j → P k j) as Hall.
    { intros P H1 H2 H3 k j. rewrite lookup_insert_Some. intros [[<- <-]|[_ Hj]]; [done|].
      apply Hfrom in Hj as [?|(old & Hold' & -> & ->)]; auto. }
    split; cbn.
    - by apply (Hall (λ k j, si_reference j = k)).
    - apply (Hall (λ k j, starts_with "sha256:" (si_digest j) = true ∧ si_path j = dir_name (si_digest j))); [by rewrite Hid|done|].
      intros j Hj. by apply (Hd r j).
    - apply (Hall (λ k j, is_Some (dirs !! si_path j))); [by rewrite Hip|intros; by eapply Hsub, Hdir|].
      intros j Hj. by apply Hsub, (Hdir r j).
    - intros x [->|Hx]%Hsup; [exists r, i; by rewrite lookup_insert_eq|].
      apply Ho in Hx as (k & j & Hj & <-). destruct (decide (k = r)) as [->|Hne].
      + destruct (Hold j Hj) as [Hjd|(k' & j' & Hne' & Hj' & Hjd & Hj'')].
        * exists r, i. rewrite lookup_insert_eq. split; [done|]. rewrite Hip. destruct (Hd _ _ Hj) as [_ ->]. by rewrite Hjd.
        * exists k', j'. rewrite lookup_insert_ne by done. split; [done|].
          destruct Hj'' as [Hj''| ->]; [|done]. destruct (Hd _ _ Hj) as [_ ->], (Hd _ _ Hj'') as [_ ->]. by rewrite Hjd.
      + exists k, j. rewrite lookup_insert_ne by done. split; [by apply Hkeep|done].
    - apply (Hall (λ k j, starts_with "sha256:" k = true → si_digest j = k)); [congruence|done|done]. }
  unfold put. destruct (st_dirs s !! dir_name d) as [z|] eqn:Et; [|destruct copy as [sz|[part|]]].
  - destruct (save_index saves _) as [s' res] eqn:Es. apply (f_equal fst) in Es. cbn in Es. cbn. subst s'.
    apply save_index_ok, Hnew; [by eexists|done|by right|done..].
  - destruct (save_index saves _) as [s' res] eqn:Es. apply (f_equal fst) in Es. cbn in Es. cbn. subst s'.
    apply save_index_ok, Hnew; [rewrite lookup_insert_eq; by eexists| | |done..].
    + intros x Hx. rewrite lookup_insert_is_Some'. by right.
    + intros x. rewrite lookup_insert_is_Some'. intros [<-|?]; auto.
  - by destruct (Hcopy part).
  - by split.
Qed.

(** Keys that are removed leave the rest of the index. *)
Lemma remove_keys_spec keys m removed m' : remove_keys keys m = (removed, m') →
  (∀ k i, m' !! k = Some i ↔ m !! k = Some i ∧ k ∉ keys) ∧
  (∀ i, i ∈ removed ↔ ∃ k, k ∈ keys ∧ m !! k = Some i).
Proof.
  revert m removed m'. induction keys as [|k keys IH]; intros m removed m' E; cbn [remove_keys] in E.
  { injection E as <- <-. split; set_solver. }
  destruct (m !! k) as [a|] eqn:Ek.
  - destruct (remove_keys keys (delete k m)) as [rs m1] eqn:E1. injection E as <- <-.
    destruct (IH _ _ _ E1) as [H1 H2]. split.
    + intros k' i. rewrite H1, lookup_delete_Some, not_elem_of_cons. naive_solver.
    + intros i. rewrite elem_of_cons, H2. setoid_rewrite lookup_delete_Some. setoid_rewrite elem_of_cons. split.
      * intros [->|(k' & ? & ? & ?)]; [exists k; auto|exists k'; auto].
      * intros (k' & [->|?] & Hi); [left; congruence|]. destruct (decide (k = k')) as [<-|]; [left; congruence|].
        right. by exists k'.
  - destruct (IH _ _ _ E) as [H1 H2]. split.
    + intros k' i. rewrite H1, not_elem_of_cons. naive_solver.
    + intros i. rewrite H2. setoid_rewrite elem_of_cons. naive_solver.
Qed.

Definition unused (i : StoredImage) (index : gmap string StoredImage) : Prop :=
  ∀ k o, index !! k = Some o → si_digest o ≠ si_digest i.

(** Exactly the directories of removed images that nothing uses any more go. *)
Lemma remove_dirs_spec removed index dirs : ∃ dirs', remove_dirs (λ _, true) removed index dirs = (dirs', Ok ()) ∧
  dirs' ⊆ dirs ∧
  (∀ x, is_Some (dirs !! x) → is_Some (dirs' !! x) ∨ ∃ i, i ∈ removed ∧ si_path i = x ∧ unused i index) ∧
  (∀ i, i ∈ removed → unused i index → dirs' !! si_path i = None).
Proof.
  revert dirs. induction removed as [|i removed IH]; intros dirs; cbn [remove_dirs].
  { exists dirs. split_and!; [done|done|by left|by intros ? ?%not_elem_of_nil]. }
  assert (∀ dirs', dirs' ⊆ dirs → (∀ x, is_Some (dirs !! x) → is_Some (dirs' !! x) ∨
      (x = si_path i ∧ unused i index)) → (unused i index → dirs' !! si_path i = None) →
    ∃ dirs'', remove_dirs (λ _, true) removed index dirs' = (dirs'', Ok ()) ∧ dirs'' ⊆ dirs ∧
      (∀ x, is_Some (dirs !! x) → is_Some (dirs'' !! x) ∨ ∃ j, j ∈ i :: removed ∧ si_path j = x ∧ unused j index) ∧
      (∀ j, j ∈ i :: removed → unused j index → dirs'' !! si_path j = None)) as Hstep.
  { intros dirs1 Hsub Hkeep Hgone. destruct (IH dirs1) as (dirs2 & E & Hsub2 & Hkeep2 & Hgone2).
    exists dirs2. split_and!; [done|by etrans| |].
    - intros x [Hx|[-> Hu]]%Hkeep; [|right; exists i; set_solver].
      apply Hkeep2 in Hx as [?|(j & ? & ? & ?)]; [by left|right]. exists j. set_solver.
    - intros j [->|Hj]%elem_of_cons Hu; [|by apply Hgone2]. specialize (Hgone Hu).
      destruct (dirs2 !! si_path i) eqn:E2; [|done]. by rewrite (lookup_weaken _ _ _ _ E2 Hsub2) in Hgone. }
  destruct (existsb _ _) eqn:Ex.
  - apply Hstep; [done|by left|]. intros Hu. exfalso. apply existsb_images in Ex as (k & o & Hk & Ho).
    apply bool_decide_eq_true in Ho. by apply (Hu k o Hk).
  - assert (unused i index) as Hu.
    { intros k o Hk Ho. rewrite <-not_true_iff_false in Ex. apply Ex, existsb_images. exists k, o.
      by rewrite bool_decide_eq_true. }
    destruct (dirs !! si_path i) as [z|] eqn:Ed; [|by apply Hstep; auto].
    apply Hstep; [apply delete_subseteq| |by rewrite lookup_delete_eq].
    intros x Hx. destruct (decide (x = si_path i)); [by right|left]. by rewrite lookup_delete_ne.
Qed.

(** Removing the keys of a sane store. *)
Lemma remove_ok saves image s : store_ok s → store_ok (remove (λ _, true) saves image s).1.
Proof.
  intros Hs. pose proof Hs as [Hk Hd Hdir Ho Hg]. unfold remove.
  set (keys := match st_index s !! image with Some _ => _ | None => _ end). destruct keys as [|k0 ks] eqn:Eks; [done|].
  rewrite <-Eks. destruct (remove_keys keys (st_index s)) as [removed index] eqn:Er.
  destruct (remove_keys_spec _ _ _ _ Er) as [Hidx Hrem].
  destruct (remove_dirs_spec removed index (st_dirs s)) as (dirs & -> & Hsub & Hkeep & Hgone).
  apply save_index_ok. split; cbn.
  - intros k i [? _]%Hidx. by apply Hk.
  - intros k i [Hi _]%Hidx. by apply (Hd k i).
  - intros k i Hi. pose proof Hi as [Hi' Hn]%Hidx. destruct (Hkeep (si_path i)) as [?|(j & Hj & Hp & Hu)]; [by eapply Hdir|done|].
    exfalso. apply (Hu k i Hi). apply Hrem in Hj as (k' & _ & Hj). destruct (Hd _ _ Hj) as [Hs1 Hp1], (Hd _ _ Hi') as [Hs2 Hp2].
    apply dir_name_inj; congruence.
  - intros x Hx. assert (is_Some (st_dirs s !! x)) as (k & i & Hi & <-)%Ho.
    { destruct Hx as [v Hv]. exists v. by eapply lookup_weaken. }
    destruct (decide (k ∈ keys)) as [Hin|Hn]; [|exists k, i; split; [by apply Hidx|done]].
    destruct (existsb (λ o, bool_decide (si_digest o = si_digest i)) (hash_iter index).*2) eqn:Ex.
    + apply existsb_images in Ex as (k' & o & Ho' & He%bool_decide_eq_true). exists k', o. split; [done|].
      apply Hidx in Ho' as [Ho' _]. destruct (Hd _ _ Hi) as [_ ->], (Hd _ _ Ho') as [_ ->]. by rewrite He.
    + exfalso. destruct Hx as [v Hv]. rewrite Hgone in Hv; [done|by apply Hrem; exists k|].
      intros k' o Hk' He. rewrite <-not_true_iff_false in Ex. apply Ex, existsb_images. exists k', o.
      by rewrite bool_decide_eq_true.
  - intros k i [Hi _]%Hidx. by apply Hg.
Qed.
End invariant.

(** ** Eviction *)

Section eviction.
Context `{HashOrder}.

Definition sum_sizes (l : list StoredImage) : Z := foldr (λ i n, (si_size i + n)%Z) 0%Z l.
Definition total_of (m : gmap string StoredImage) : Z := sum_sizes (map_to_list m).*2.

#[local] Instance sum_sizes_proper : Proper ((≡ₚ) ==> (=)) sum_sizes.
Proof.
  intros l l'. unfold sum_sizes. induction 1 as [|i l l' _ IH|i j l|l1 l2 l3 _ IH1 _ IH2]; cbn [foldr]; [done|by rewrite IH|lia|].
  by rewrite IH1.
Qed.

Definition sizes_ok (m : gmap string StoredImage) : Prop :=
  (∀ k i, m !! k = Some i → (0 ≤ si_size i)%Z) ∧ (total_of m < 2 ^ 64)%Z.

Lemma sizes_ok_check m : forallb (λ kv, (0 <=? si_size kv.2)%Z) (map_to_list m) = true → (total_of m <? 2 ^ 64)%Z = true →
  sizes_ok m.
Proof.
  intros Hb Ht%Z.ltb_lt. split; [|done]. intros k i Hi. rewrite forallb_forall in Hb.
  apply Z.leb_le, (Hb (k, i)). by apply list_elem_of_In, elem_of_map_to_list.
Qed.

Lemma total_of_delete m k i : m !! k = Some i → total_of m = (si_size i + total_of (delete k m))%Z.
Proof.
  intros Hk. unfold total_of. rewrite <-(map_to_list_delete m k i Hk).  done.
Qed.

Lemma total_of_nonneg m : (∀ k i, m !! k = Some i → (0 ≤ si_size i)%Z) → (0 ≤ total_of m)%Z.
Proof.
  induction m as [|k i m Hn IH] using map_ind; intros Hm; [by unfold total_of; rewrite map_to_list_empty|].
  rewrite (total_of_delete _ k i) by apply lookup_insert_eq. rewrite delete_insert_id by done.
  pose proof (Hm k i (lookup_insert_eq _ _ _)). assert (0 ≤ total_of m)%Z; [|lia].
  apply IH. intros k' i' Hk'. apply (Hm k' i'). rewrite lookup_insert_ne; [done|]. intros ->. congruence.
Qed.

Lemma sizes_ok_delete m k : sizes_ok m → sizes_ok (delete k m).
Proof.
  intros [Hm Ht]. assert (∀ k' i, delete k m !! k' = Some i → (0 ≤ si_size i)%Z) as Hd.
  { intros k' i [_ ?]%lookup_delete_Some. eauto. }
  split; [done|]. destruct (m !! k) as [i|] eqn:E; [|by rewrite delete_id].
  rewrite (total_of_delete m k i E) in Ht. pose proof (Hm _ _ E). lia.
Qed.

Lemma total_size_of s : sizes_ok (st_index s) → total_size s = total_of (st_index s).
Proof.
  intros [Hs Ht]. unfold total_size. fold (sum_sizes (images s)).
  assert (sum_sizes (images s) = total_of (st_index s)) as ->.
  { unfold images. by rewrite hash_iter_perm. }
  apply wrap_small. split; [by apply total_of_nonneg|done].
Qed.

Lemma foldl_older l b : ∃ i, foldl older (Some b) l = Some i ∧ (i = b ∨ i ∈ l) ∧
  (si_last_used i ≤ si_last_used b)%Z ∧ ∀ j, j ∈ l → (si_last_used i ≤ si_last_used j)%Z.
Proof.
  revert b. induction l as [|a l IH]; intros b; cbn [foldl older].
  { exists b. split_and!; [done|by left|lia|by intros ? ?%not_elem_of_nil]. }
  destruct (Z.ltb_spec (si_last_used a) (si_last_used b)) as [Hlt|Hge].
  - destruct (IH a) as (i & E & Hi & Hb & Hl). exists i. split_and!; [done|set_solver|lia|].
    intros j [->|?]%elem_of_cons; auto.
  - destruct (IH b) as (i & E & Hi & Hb & Hl). exists i. split_and!; [done|set_solver|lia|].
    intros j [->|?]%elem_of_cons; [lia|auto].
Qed.

Lemma least_recent_spec s : (st_index s = ∅ ∧ least_recent (images s) = None) ∨
  ∃ k i, st_index s !! k = Some i ∧ least_recent (images s) = Some i ∧
    ∀ k' j, st_index s !! k' = Some j → (si_last_used i ≤ si_last_used j)%Z.
Proof.
  pose proof (elem_of_images s) as Hel. unfold least_recent. destruct (images s) as [|b l].
  - left. split; [|done]. apply map_empty. intros k. destruct (st_index s !! k) as [i|] eqn:E; [|done].
    assert (i ∈ []) as []%not_elem_of_nil by (apply Hel; by exists k).
  - right. cbn [foldl older]. destruct (foldl_older l b) as (i & E & Hi & Hb & Hl).
    assert (i ∈ b :: l) as (k & Hk)%Hel by set_solver. exists k, i. split_and!; [done..|].
    intros k' j Hj. assert (j ∈ b :: l) as [->|?]%elem_of_cons by (apply Hel; by exists k'); auto.
Qed.

Lemma remove_exact s k i : store_ok s → st_index s !! k = Some i → ∃ s',
  remove (λ _, true) true k s = (s', Ok ()) ∧ st_index s' = delete k (st_index s) ∧ st_max s' = st_max s.
Proof.
  intros Hs Hk. unfold remove. rewrite Hk. cbn [remove_keys]. rewrite Hk.
  destruct (remove_dirs_spec [i] (delete k (st_index s)) (st_dirs s)) as (dirs & -> & _). eexists. by split_and!.
Qed.

(** What is left after the evicted references. *)
Definition without (ev : list string) (m : gmap string StoredImage) : gmap string StoredImage := foldl (λ m k, delete k m) m ev.

Lemma without_lookup ev m k i : without ev m !! k = Some i ↔ m !! k = Some i ∧ k ∉ ev.
Proof.
  unfold without. revert m. induction ev as [|k' ev IH]; intros m; cbn [foldl]; [set_solver|].
  rewrite IH, lookup_delete_Some, not_elem_of_cons. naive_solver.
Qed.

Record eviction (m : gmap string StoredImage) (max : Z) (m' : gmap string StoredImage) (ev : list string) : Prop := {
  ev_left : m' = without ev m;
  ev_fits : (total_of m' ≤ max)%Z;
  ev_known : ∀ k, k ∈ ev → is_Some (m !! k);
  ev_oldest : ∀ k i k' i', k ∈ ev → m !! k = Some i → m' !! k' = Some i' → (si_last_used i ≤ si_last_used i')%Z;
  ev_needed : ∀ pre k post, ev = pre ++ k :: post → (max < total_of (without pre m))%Z }.

Lemma evict_nothing s : sizes_ok (st_index s) → (total_size s ≤ st_max s)%Z →
  eviction (st_index s) (st_max s) (st_index s) [].
Proof.
  intros Hz Hle. rewrite total_size_of in Hle by done.
  split; [done|done|set_solver|set_solver|by intros []].
Qed.

Lemma evict_loop_spec fuel s done_ : store_ok s → sizes_ok (st_index s) → (0 ≤ st_max s)%Z → size (st_index s) ≤ fuel →
  ∃ s' ev, evict_loop fuel (λ _, true) true s done_ = (s', Ok (done_ ++ ev)) ∧ store_ok s' ∧
    eviction (st_index s) (st_max s) (st_index s') ev.
Proof.
  revert s done_. induction fuel as [|fuel IH]; intros s done_ Hs Hz Hm Hf;
    cbn [evict_loop]; destruct (Z.leb_spec (total_size s) (st_max s)) as [Hle|Hgt].
  1, 3: (exists s, []; rewrite app_nil_r; split_and!; [done|done|by apply evict_nothing]).
  all: destruct (least_recent_spec s) as [[He ->]|(k & i & Hk & -> & Hold)].
  1, 3: (rewrite total_size_of, He in Hgt by done; unfold total_of in Hgt; rewrite map_to_list_empty in Hgt; cbn in Hgt; lia).
  { assert (st_index s = ∅) as He by (apply map_size_empty_iff; lia). by rewrite He in Hk. }
  destruct (remove_exact s k i Hs Hk) as (s1 & E1 & Ei & Em). pose proof (remove_ok true k s Hs) as Hs1. rewrite E1 in Hs1.
  rewrite (ok_key _ Hs _ _ Hk), E1. rewrite total_size_of in Hgt by done.
  assert (size (st_index s1) ≤ fuel) as Hf1.
  { rewrite Ei, map_size_delete_Some by (by eexists). pose proof (map_size_non_empty_iff (st_index s)). lia. }
  destruct (IH s1 (done_ ++ [k]) Hs1) as (s' & ev & E & Hs' & [Hleft Hfits Hknown Holdest Hneed]);
    [rewrite Ei; by apply sizes_ok_delete|lia|done|].
  exists s', (k :: ev). rewrite E, <-app_assoc. split_and!; [done|done|]. rewrite Ei, Em in *. split.
  - done.
  - done.
  - intros k' [->|Hk']%elem_of_cons; [by eexists|]. destruct (Hknown k' Hk') as [j [_ Hj]%lookup_delete_Some]. by exists j.
  - intros k1 i1 k2 i2 [->|Hk1]%elem_of_cons H1 H2.
    + assert (i1 = i) as -> by congruence. rewrite Hleft in H2. apply without_lookup in H2 as [[_ H2]%lookup_delete_Some _]. eauto.
    + destruct (decide (k1 = k)) as [->|Hne].
      * assert (i1 = i) as -> by congruence. rewrite Hleft in H2. apply without_lookup in H2 as [[_ H2]%lookup_delete_Some _]. eauto.
      * eapply (Holdest k1 i1); [done|by rewrite lookup_delete_ne|done].
  - intros [|p pre] k1 post Epre; injection Epre as -> Epre; [exact Hgt|]. cbn. by eapply Hneed.
Qed.
End eviction.

(** ** Sequences of operations *)

Inductive store_op :=
  | OGet (now : Z) (reference : string)
  | OResolve (now : Z) (image : string)
  | OPut (now : Z) (copy : copy_end) (reference digest : string)
  | ORemove (image : string)
  | OEvict.

(** What callers pass: references are names, digests are SHA-256, no copy is left half done. *)
Definition op_ok (o : store_op) : Prop :=
  match o with
  | OPut _ copy reference digest =>
      starts_with "sha256:" reference = false ∧ starts_with "sha256:" digest = true ∧ ∀ part, copy ≠ Broken (Some part)
  | _ => True
  end.

Section sequences.
Context `{HashOrder}.

(** An operation, and whether the index can be written during it; layouts can be removed. *)
Definition run_op (s : ImageStore) (o : bool * store_op) : ImageStore :=
  let saves := o.1 in
  match o.2 with
  | OGet now r => (get now saves r s).1
  | OResolve now image => (resolve_image now saves image s).1
  | OPut now copy r d => (put now copy saves r d s).1
  | ORemove image => (remove (λ _, true) saves image s).1
  | OEvict => (evict (λ _, true) saves s).1
  end.
Definition all_saved (l : list store_op) : list (bool * store_op) := map (pair true) l.

(** Opening the store again, in this or another process, gives the same index. *)
Definition reopens (s : ImageStore) : Prop :=
  st_index <$> open_store (Some (st_saved s)) (st_dirs s) (st_max s) = Some (st_index s).

Lemma load_index_lookup l dirs k i : NoDup (map si_reference l) → (∀ j, j ∈ l → is_Some (dirs !! si_path j)) →
  load_index l dirs !! k = Some i ↔ i ∈ l ∧ si_reference i = k.
Proof.
  unfold load_index. induction l as [|j l IH] using rev_ind; intros Hnd Hd; [cbn; set_solver|].
  rewrite map_app in Hnd. apply NoDup_app in Hnd as (Hnd & Hdis & _). rewrite foldl_app. cbn [foldl].
  destruct (Hd j) as [z ->]; [set_solver|]. rewrite lookup_insert_Some, IH; [|done|set_solver].
  rewrite elem_of_app, list_elem_of_singleton. split.
  - intros [[<- <-]|[_ ?]]; [by auto|naive_solver].
  - intros [[Hi| ->] <-]; [right|by left]. split; [|done]. intros E. apply (Hdis (si_reference i)); [|by rewrite <-E; left].
    apply list_elem_of_fmap. by exists i.
Qed.

Lemma saved_reopens s : store_ok s → reopens (save_index true s).1.
Proof.
  intros Hs. unfold reopens. cbn. f_equal. apply map_eq. intros k. apply option_eq. intros i.
  rewrite load_index_lookup.
  - rewrite elem_of_images. split.
    + intros [(k' & Hk') <-]. by rewrite (ok_key _ Hs _ _ Hk').
    + intros Hk. split; [by exists k|by apply (ok_key _ Hs)].
  - assert (map si_reference (images s) = hash_keys (st_index s)) as ->; [|apply NoDup_hash_keys].
    unfold images, hash_keys. change (map si_reference) with (fmap (M := list) si_reference). rewrite <-list_fmap_compose.
    apply list_fmap_ext. intros n [k' i'] Hi%list_elem_of_lookup_2%elem_of_hash_iter. by apply (ok_key _ Hs).
  - intros j (k' & Hj)%elem_of_images. by eapply ok_dir.
Qed.

Definition sane (s : ImageStore) : Prop := store_ok s ∧ reopens s.

(** An operation ends where it began or with the index saved. *)
Lemma save_ok_back s : store_ok (save_index true s).1 → store_ok s.
Proof. by intros [? ? ? ? ?]. Qed.

Lemma sane_save s : store_ok (save_index true s).1 → sane (save_index true s).1.
Proof. intros Hs. split; [done|]. by apply saved_reopens, save_ok_back. Qed.

Lemma get_sane now r s : sane s → sane (get now true r s).1.
Proof.
  intros [Hs Hr]. pose proof (get_ok now true r s Hs) as Hg. unfold get in *.
  destruct (st_index s !! r); [by apply sane_save|done].
Qed.

Lemma get_by_digest_sane now d s : sane s → sane (get_by_digest now true d s).1.
Proof.
  intros [Hs Hr]. pose proof (get_by_digest_ok now true d s Hs) as Hg. unfold get_by_digest in *.
  destruct (List.find _ _) as [[k i]|]; [by apply sane_save|done].
Qed.

Lemma resolve_sane now image s : sane s → sane (resolve_image now true image s).1.
Proof.
  intros Hs. unfold resolve_image. pose proof (get_sane now image s Hs) as H1.
  destruct (get now true image s) as [s1 [i|]]; [done|].
  set (d := match rsplit_once "@" image with Some (_, d) => d | None => image end).
  pose proof (get_by_digest_sane now d s1 H1) as H2. destruct (get_by_digest now true d s1) as [s2 [i|]]; [done|].
  destruct (parse_reference image); [by apply get_sane|done].
Qed.

Lemma put_sane now copy r d s : sane s → op_ok (OPut now copy r d) → sane (put now copy true r d s).1.
Proof.
  intros [Hs Hr] (H1 & H2 & H3). pose proof (put_ok now copy true r d s Hs H1 H2 H3) as Hp. unfold put in *.
  destruct (st_dirs s !! dir_name d); [by apply sane_save|].
  destruct copy as [z|[part|]]; [by apply sane_save|by destruct (H3 part)|done].
Qed.

Lemma remove_sane image s : sane s → sane (remove (λ _, true) true image s).1.
Proof.
  intros [Hs Hr]. pose proof (remove_ok true image s Hs) as Hp. unfold remove in *.
  destruct (match st_index s !! image with Some _ => _ | None => _ end) as [|k ks]; [done|].
  destruct (remove_keys (k :: ks) (st_index s)) as [removed index].
  destruct (remove_dirs_spec removed index (st_dirs s)) as (dirs & E & _). rewrite E in Hp |- *. by apply sane_save.
Qed.

Lemma evict_loop_sane fuel s ev : sane s → sane (evict_loop fuel (λ _, true) true s ev).1.
Proof.
  revert s ev. induction fuel as [|fuel IH]; intros s ev Hs; cbn [evict_loop];
    (destruct (_ <=? _)%Z; [done|]); destruct (least_recent _) as [i|]; try done.
  pose proof (remove_sane (si_reference i) s Hs) as Hr.
  destruct (remove _ _ _ s) as [s1 [u|]]; [by apply IH|done].
Qed.

Lemma evict_loop_ok fuel saves s ev : store_ok s → store_ok (evict_loop fuel (λ _, true) saves s ev).1.
Proof.
  revert s ev. induction fuel as [|fuel IH]; intros s ev Hs; cbn [evict_loop];
    (destruct (_ <=? _)%Z; [done|]); destruct (least_recent _) as [i|]; try done.
  pose proof (remove_ok saves (si_reference i) s Hs) as Hr.
  destruct (remove _ _ _ s) as [s1 [u|]]; [by apply IH|done].
Qed.

Lemma run_op_ok s o : store_ok s → op_ok o.2 → store_ok (run_op s o).
Proof.
  intros Hs. destruct o as [saves []]; cbn [run_op fst snd op_ok]; [by intros; apply get_ok|by intros; apply resolve_ok| | |].
  - intros (? & ? & ?). by apply put_ok.
  - intros _. by apply remove_ok.
  - intros _. by apply evict_loop_ok.
Qed.

Lemma run_op_sane s o : sane s → op_ok o.2 → o.1 = true → sane (run_op s o).
Proof.
  intros Hs Ho. destruct o as [saves o]. cbn in Ho. intros [= ->]. destruct o; cbn [run_op fst snd];
    [by apply get_sane|by apply resolve_sane|by apply put_sane|by apply remove_sane|by apply evict_loop_sane].
Qed.

(** C34: The store of one process stays whole through any sequence of pulls, builds, lookups, removals
    and evictions, one after another, as long as references are not digests and digests are
    SHA-256, a copy that fails leaves no part of a layout, layouts that are no longer needed can be
    removed, and no other process writes the store.  Every indexed image has its layout on disk and
    is under its own reference, and every layout on disk belongs to an indexed image (re-tagging
    orphans nothing), whether or not the index could be written at each operation; and when it
    could be at all of them, opening the store again gives the same index.  The start is a store
    of which all this holds, such as an empty one. *)
Theorem store_invariant ops s : sane s → Forall (λ o, op_ok o.2) ops →
  let s' := foldl run_op s ops in
  (∀ k i, st_index s' !! k = Some i →
     si_reference i = k ∧ si_path i = dir_name (si_digest i) ∧ is_Some (st_dirs s' !! si_path i)) ∧
  (∀ d, is_Some (st_dirs s' !! d) → ∃ k i, st_index s' !! k = Some i ∧ si_path i = d) ∧
  (Forall (λ o, o.1 = true) ops → st_index <$> open_store (Some (st_saved s')) (st_dirs s') (st_max s') = Some (st_index s')).
Proof.
  intros Hs Hops s'. assert (store_ok s') as [Hk Hd Hdir Ho _].
  { subst s'. destruct Hs as [Hs _]. revert s Hs. induction Hops as [|o ops Ho _ IH]; intros s Hs; cbn [foldl]; [done|].
    by apply IH, run_op_ok. }
  split_and!; [|done|].
  - intros k i Hi. destruct (Hd k i Hi). split_and!; eauto.
  - intros Hall. assert (sane s') as [_ Hr]; [|done]. subst s'. clear Hk Hd Hdir Ho.
    revert s Hs. induction Hall as [|o ops Ho _ IH]; intros s Hs; cbn [foldl]; [done|]. apply list.Forall_cons in Hops as [? ?].
    apply IH; [done|]. by apply run_op_sane.
Qed.

(** Eviction ends, without an error, with the total at or below the limit; it
    removes the images least recently used, and none once the total fits. *)
Theorem evict_lru s : store_ok s → sizes_ok (st_index s) → (0 ≤ st_max s)%Z →
  ∃ s' ev, evict (λ _, true) true s = (s', Ok ev) ∧ store_ok s' ∧
    eviction (st_index s) (st_max s) (st_index s') ev.
Proof.
  intros Hs Hz Hm. destruct (evict_loop_spec (size (st_index s)) s [] Hs Hz Hm) as (s' & ev & E & Hrest); [done|].
  by exists s', ev.
Qed.
End sequences.

(** ** Concrete stores *)

#[local] Existing Instance list_order.

Definition empty_store (max : Z) : ImageStore := {| st_index := ∅; st_dirs := ∅; st_saved := None; st_max := max |}.

Lemma empty_store_sane max : sane (empty_store max).
Proof. split; [|done]. by split; cbn; intros *; rewrite ?lookup_empty; [..|intros [? ?]|]. Qed.

(** [app:1] is pulled, used, rebuilt and removed; [db:1] shares the old layout for a while. *)
Definition toy_ops : list (bool * store_op) := all_saved
  [OPut 1 (Whole 5) "app:1" "sha256:aa"; OPut 2 (Whole 9) "db:1" "sha256:aa"; OGet 3 "app:1";
   OPut 4 (Whole 7) "app:1" "sha256:bb"; ORemove "db:1"; OPut 5 (Whole 3) "app:1" "sha256:cc"; OEvict].

Lemma store_invariant_witness :
  let s' := foldl run_op (empty_store 8) toy_ops in
  (∀ d, is_Some (st_dirs s' !! d) → ∃ k i, st_index s' !! k = Some i ∧ si_path i = d) ∧
  map_to_list (st_dirs s') = [("cc", 3%Z)].
Proof.
  split; [|vm_compute; reflexivity].
  apply (store_invariant toy_ops (empty_store 8) (empty_store_sane 8)). by repeat constructor.
Defined.

Definition full_store : ImageStore :=
  foldl run_op (empty_store 8) $ all_saved [OPut 1 (Whole 5) "a:1" "sha256:aa"; OPut 2 (Whole 4) "b:1" "sha256:bb";
                                OPut 3 (Whole 4) "c:1" "sha256:cc"; OGet 4 "a:1"].

Lemma full_store_ok : store_ok full_store.
Proof.
  unfold full_store. cbn [all_saved map foldl run_op fst snd]. apply get_ok. do 3 (apply put_ok; [|done|done|done]).
  apply empty_store_sane.
Qed.

Lemma full_store_sizes : sizes_ok (st_index full_store).
Proof. apply sizes_ok_check; vm_compute; reflexivity. Qed.

Lemma evict_lru_witness : ∃ s' ev, evict (λ _, true) true full_store = (s', Ok ev) ∧
  eviction (st_index full_store) 8 (st_index s') ev ∧ (evict (λ _, true) true full_store).2 = Ok ["b:1"; "c:1"].
Proof.
  destruct (evict_lru full_store full_store_ok full_store_sizes) as (s' & ev & E & _ & Hev); [by vm_compute|].
  exists s', ev. split; [exact E|]. split; [exact Hev|vm_compute; reflexivity].
Defined.

(** *** A layout that was not copied completely

    The copy breaks off; the next [put] of the digest finds the directory and
    records the part as the image. *)
Lemma broken_copy_is_kept :
  let s1 := (put 1 (Broken (Some 3%Z)) true "app:1" "sha256:aa" (empty_store 100)).1 in
  si_size <$> (put 2 (Whole 9) true "app:1" "sha256:aa" s1).2 = Ok 3%Z.
Proof. vm_compute. reflexivity. Qed.

(** *** Shared layouts are counted once per reference

    Six bytes on disk, a limit of ten, and an image is evicted. *)
Lemma shared_layout_counts_twice :
  let s := foldl run_op (empty_store 10) $ all_saved [OPut 1 (Whole 6) "app:1" "sha256:aa"; OPut 2 (Whole 6) "app:2" "sha256:aa"] in
  map_to_list (st_dirs s) = [("aa", 6%Z)] ∧ total_size s = 12%Z ∧ (evict (λ _, true) true s).2 = Ok ["app:1"].
Proof. vm_compute. done. Qed.

(** *** Two processes

    Each process has its own index and writes it whole: the second one's [put]
    drops the first one's image from the file. *)
Lemma other_process_entry_lost :
  let a := (put 1 (Whole 6) true "a:1" "sha256:aa" (empty_store 100)).1 in
  let b := (put 2 (Whole 6) true "b:1" "sha256:bb" (with_dirs (empty_store 100) (st_dirs a))).1 in
  map si_reference (default [] (st_saved b)) = ["b:1"] ∧ is_Some (st_dirs b !! "aa").
Proof. vm_compute. split; [done|by eexists]. Qed.
