(* ===== verification/CopyStep.v ===== *)
(** * CopyStep: what COPY, ADD and RUN do to files

    [handle_copy], [handle_add] and the preparation of [handle_run]
    ([runtime/src/oci/build/engine/handlers.rs]), [copy_dir_filtered]
    ([engine/utils.rs]) and the layers made of a destination
    ([runtime/src/oci/build/layer.rs]), on the file systems of [Layers]: the build
    context and the root of the stage are directories of the host.  Downloads and
    the unpacking of archives are arguments. *)

From Stdlib Require Import ZArith Lia Ascii.
From stdpp Require Import base gmap strings list numbers fin_maps.
From S2P Require Import Prelude RustStr Text Glob Layers BuildCache Build.

Local Open Scope string_scope.
Local Open Scope list_scope.
Local Open Scope nat_scope.

(** ** File operations *)

Definition components (s : string) : list string := split "/" s.

(** [metadata]: links are followed. *)
Definition stat (f : fs) (p : list string) : option (path * inode) :=
  q ← resolve_dir f p; i ← f !! q; Some (q, i).
Definition path_exists (f : fs) (p : list string) : bool := bool_decide (is_Some (stat f p)).
Definition path_is_dir (f : fs) (p : list string) : bool :=
  match stat f p with Some (_, i) => is_dir i | None => false end.
Definition path_is_file (f : fs) (p : list string) : bool :=
  match stat f p with Some (_, i) => match i_kind i with KFile _ => true | _ => false end | None => false end.

Definition dots (c : string) : bool := bool_decide (c ∈ [""; "."; ".."]).

(** [symlink_metadata]: the last component is not followed. *)
Definition lstat (f : fs) (p : list string) : option inode :=
  match rev p with
  | c :: _ => if dots c then snd <$> stat f p
              else d ← resolve_dir f (removelast p); f !! (d ++ [c])
  | [] => f !! []
  end.

Definition new_dir : inode := {| i_kind := KDir; i_mode := 493; i_uid := 0; i_gid := 0 |}.

Fixpoint mkdir_go (f : fs) (cur : path) (p : list string) : option fs :=
  match p with
  | [] => Some f
  | c :: p =>
      if bool_decide (c = "" ∨ c = ".") then mkdir_go f cur p
      else if bool_decide (c = "..") then mkdir_go f (removelast cur) p
      else match f !! (cur ++ [c]) with
           | None => mkdir_go (<[cur ++ [c] := new_dir]> f) (cur ++ [c]) p
           | Some _ =>
               q ← walk max_links f cur [c];
               i ← f !! q;
               if is_dir i then mkdir_go f q p else None
           end
  end.
Definition create_dir_all (f : fs) (p : list string) : option fs := mkdir_go f [] p.

(** Where a file that is opened for writing lies: links are followed, also to
    files that do not exist yet. *)
Fixpoint open_path (links : nat) (f : fs) (cur : path) (p : list string) : option path :=
  match rev p with
  | [] => None
  | name :: _ =>
      if dots name then None
      else
        d ← walk max_links f cur (removelast p);
        match f !! (d ++ [name]) with
        | None => Some (d ++ [name])
        | Some i =>
            match i_kind i with
            | KDir => None
            | KFile _ => Some (d ++ [name])
            | KLink t =>
                match links with
                | O => None
                | S links => open_path links f (if starts_with "/" t then [] else d) (components t)
                end
            end
        end
  end.

(** Content is written, the owner of an existing file stays; [None] as mode keeps it. *)
Definition write_file (f : fs) (p : list string) (content : string) (mode : option Z) : option fs :=
  q ← open_path max_links f [] p;
  _ ← (d ← f !! removelast q; if is_dir d then Some () else None);
  let old := f !! q in
  Some (<[q := {| i_kind := KFile content;
                  i_mode := match mode with Some m => m | None => from_option i_mode 420%Z old end;
                  i_uid := from_option i_uid 0%Z old; i_gid := from_option i_gid 0%Z old |}]> f).

(** [std::fs::copy] *)
Definition copy_file (f : fs) (src dst : list string) : option fs :=
  '(_, i) ← stat f src;
  match i_kind i with
  | KFile content => write_file f dst content (Some (i_mode i))
  | _ => None
  end.

(** The names in a directory, in the order of the file system. *)
Definition name_in (d q : path) : option string :=
  if bool_decide (d `prefix_of` q) then match drop (length d) q with [name] => Some name | _ => None end else None.
Definition entries (f : fs) (d : path) : list string := omap (λ kv, name_in d kv.1) (map_to_list f).

Inductive copy_error :=
  | Pattern (e : source_error)
  | SourceNotFound (src : string)
  | SourceIgnored (src : string)
  | MkdirFailed
  | NotADirectory
  | CopyFailed
  | LinkFailed
  | OwnerUnknown (e : owner_error)
  | DownloadFailed (url : string)
  | UnpackFailed
  | TooDeep.

Abbreviation copied A := (result copy_error A).

(** [remove_file], failures ignored, then [symlink] *)
Definition relink (f : fs) (dst : list string) (target : string) : copied fs :=
  match rev dst, resolve_dir f (removelast dst) with
  | name :: _, Some d =>
      let f := match f !! (d ++ [name]) with
               | Some i => if is_dir i then f else delete (d ++ [name]) f
               | None => f
               end in
      match f !! (d ++ [name]) with
      | Some _ => Err LinkFailed
      | None => Ok (<[d ++ [name] := {| i_kind := KLink target; i_mode := 511; i_uid := 0; i_gid := 0 |}]> f)
      end
  | _, _ => Err LinkFailed
  end.

(** [copy_dir_filtered]: [fuel] bounds the depth of the tree. *)
Fixpoint copy_dir (fuel : nat) (ignore : option (list Rule)) (src dst : list string) (rel : string) (f : fs) : copied fs :=
  match fuel with
  | O => Err TooDeep
  | S fuel =>
      f ← ok_or MkdirFailed (create_dir_all f dst);
      '(d, i) ← ok_or NotADirectory (stat f src);
      if negb (is_dir i) then Err NotADirectory
      else
        (fix go (names : list string) (f : fs) : copied fs :=
           match names with
           | [] => Ok f
           | name :: names =>
               let entry_rel := slash rel name in
               if match ignore with Some rules => is_excluded rules entry_rel | None => false end then go names f
               else
                 f ← match f !! (d ++ [name]) with
                     | None => Err CopyFailed
                     | Some i =>
                         match i_kind i with
                         | KLink target => relink f (dst ++ [name]) target
                         | KDir => copy_dir fuel ignore (src ++ [name]) (dst ++ [name]) entry_rel f
                         | KFile _ => ok_or CopyFailed (copy_file f (src ++ [name]) (dst ++ [name]))
                         end
                     end;
                 go names f
           end) (entries f d) f
  end.

(** ** The layer of a destination *)

(** [add_dir_to_tar]: everything below the directory. *)
Fixpoint dir_layer (fuel : nat) (chown : option (Z * Z)) (prefix : list string) (f : fs) (d : path) : copied (list tar_entry) :=
  match fuel with
  | O => Err TooDeep
  | S fuel =>
      (fix go (names : list string) : copied (list tar_entry) :=
         match names with
         | [] => Ok []
         | name :: names =>
             match f !! (d ++ [name]) with
             | None => Err CopyFailed
             | Some i =>
                 let e := {| e_absolute := false; e_path := prefix ++ [name]; e_inode := with_owner chown i |} in
                 below ← (if is_dir i then dir_layer fuel chown (prefix ++ [name]) f (d ++ [name]) else Ok []);
                 rest ← go names;
                 Ok (e :: below ++ rest)
             end
         end) (entries f d)
  end.

Definition normal (p : list string) : list string := List.filter (λ c, negb (is_empty c)) p.

(** [create_layer_from_dir_with_chown] for a directory, [create_layer_with_chown] of
    the one path otherwise. *)
Definition destination_layer (fuel : nat) (root : path) (f : fs) (dst : list string) (chown : option (Z * Z))
    : copied (list tar_entry) :=
  if path_is_dir f (root ++ dst)
  then match stat f (root ++ dst) with
       | Some (d, _) => dir_layer fuel chown (normal dst) f d
       | None => Err NotADirectory
       end
  else Ok match lstat f (root ++ dst) with
          | Some i => [{| e_absolute := false; e_path := normal dst; e_inode := with_owner chown i |}]
          | None => []
          end.

(** ** The handlers *)

Section handlers.
Context (fuel : nat) (root : path).

Definition read_text (f : fs) (p : list string) : option string :=
  '(_, i) ← stat f p; match i_kind i with KFile c => Some c | _ => None end.

Definition chown_ids (f : fs) (chown : option string) : copied (option (Z * Z)) :=
  match chown with
  | Some spec =>
      ids ← map_err OwnerUnknown (resolve_chown spec (read_text f (root ++ ["etc"; "passwd"]))
                                    (read_text f (root ++ ["etc"; "group"])));
      Ok (Some ids)
  | None => Ok None
  end.

(** The destination, and the directories made for it. *)
Definition destination (workdir dst : string) : list string := components (trim_start_char "/" (resolve_path workdir dst)).
Definition prepare (workdir dst : string) (many : bool) (f : fs) : copied fs :=
  let p := destination workdir dst in
  ok_or MkdirFailed (create_dir_all f (root ++ (if ends_with "/" dst || many then p else removelast p))).

Definition source_listing (f : fs) (context : path) (dir : string) : option (list string) :=
  '(d, i) ← stat f (context ++ components dir); if is_dir i then Some (entries f d) else None.

(** The part [COPY] and [ADD] share: a file or directory of the context. *)
Definition copy_source (ignore : option (list Rule)) (context : path) (dst : list string) (src : string) (f : fs) : copied fs :=
  let rel := if bool_decide (src = ".") then "" else trim_start_char "/" src in
  let src_path := context ++ components (trim_start_char "/" src) in
  if negb (path_exists f src_path) then Err (SourceNotFound src)
  else if match ignore with
          | Some rules => negb (is_empty rel) && path_is_file f src_path && is_excluded rules rel
          | None => false
          end then Err (SourceIgnored src)
  else if path_is_dir f src_path then copy_dir fuel ignore src_path (root ++ dst) rel f
  else
    let name := match rev (List.filter (λ c, negb (bool_decide (c = "" ∨ c = "."))) src_path) with
                | c :: _ => if bool_decide (c = "..") then src else c
                | [] => src
                end in
    let target := if path_is_dir f (root ++ dst) then root ++ dst ++ [name] else root ++ dst in
    ok_or CopyFailed (copy_file f src_path target).

Fixpoint copy_sources (ignore : option (list Rule)) (context : path) (dst : list string) (srcs : list string) (f : fs) : copied fs :=
  match srcs with
  | [] => Ok f
  | src :: srcs => f ← copy_source ignore context dst src f; copy_sources ignore context dst srcs f
  end.

Definition handle_copy (srcs : list string) (dst : string) (chown : option string) (context : path) (workdir : string)
    (ignore : option (list Rule)) (f : fs) : copied (fs * list tar_entry) :=
  srcs ← map_err Pattern (resolve_source_patterns (source_listing f context) srcs);
  f ← prepare workdir dst (1 <? length srcs) f;
  f ← copy_sources ignore context (destination workdir dst) srcs f;
  ids ← chown_ids f chown;
  layer ← destination_layer fuel root f (destination workdir dst) ids;
  Ok (f, layer).

(** [ADD]: URLs are downloaded, archives unpacked. *)
Context (download : string → option string) (unpack_archive : string → string → path → fs → option fs).

Definition url_file_name (url : string) : string :=
  match rsplit_once "/" url with
  | Some (_, name) => if is_empty name then "downloaded" else name
  | None => url
  end.

Definition add_source (ignore : option (list Rule)) (context : path) (dst : list string) (src : string) (f : fs) : copied fs :=
  if is_url src then
    bytes ← ok_or (DownloadFailed src) (download src);
    let file := if path_is_dir f (root ++ dst) || ends_with "/" src
                then root ++ dst ++ components (url_file_name src) else root ++ dst in
    f ← ok_or MkdirFailed (create_dir_all f (removelast file));
    ok_or CopyFailed (write_file f file bytes None)
  else
    let rel := if bool_decide (src = ".") then "" else trim_start_char "/" src in
    let src_path := context ++ components (trim_start_char "/" src) in
    if path_exists f src_path && is_tar_archive src && negb (path_is_dir f src_path)
       && negb match ignore with
               | Some rules => negb (is_empty rel) && path_is_file f src_path && is_excluded rules rel
               | None => false
               end
    then
      f ← ok_or MkdirFailed (create_dir_all f (root ++ dst));
      '(d, _) ← ok_or NotADirectory (stat f (root ++ dst));
      content ← ok_or CopyFailed (read_text f src_path);
      ok_or UnpackFailed (unpack_archive (lowercase src) content d f)
    else copy_source ignore context dst src f.

Fixpoint add_sources (ignore : option (list Rule)) (context : path) (dst : list string) (srcs : list string) (f : fs) : copied fs :=
  match srcs with
  | [] => Ok f
  | src :: srcs => f ← add_source ignore context dst src f; add_sources ignore context dst srcs f
  end.

(** The owner is resolved before the files are copied. *)
Definition handle_add (srcs : list string) (dst : string) (chown : option string) (context : path) (workdir : string)
    (ignore : option (list Rule)) (f : fs) : copied (fs * list tar_entry) :=
  ids ← chown_ids f chown;
  srcs ← map_err Pattern (resolve_source_patterns (source_listing f context) srcs);
  f ← prepare workdir dst (1 <? length srcs) f;
  f ← add_sources ignore context (destination workdir dst) srcs f;
  layer ← destination_layer fuel root f (destination workdir dst) ids;
  Ok (f, layer).

(** *** Before a [RUN] *)

Inductive run_error := NotRoot | ShellRelative (shell : string) | ShellMissing (shell : string) | WorkdirRelative | WorkdirFailed.

Definition linux_run_shell_path (shell : list string) : string := default "/bin/sh" (head shell).

Definition validate_linux_run_preconditions (shell : list string) (effective_uid : Z) (f : fs) : result run_error () :=
  let sh := linux_run_shell_path shell in
  if negb (effective_uid =? 0)%Z then Err NotRoot
  else if negb (starts_with "/" sh) then Err (ShellRelative sh)
  else if negb (path_exists f (root ++ components (trim_start_char "/" sh))) then Err (ShellMissing sh)
  else Ok ().

Definition ensure_linux_run_workdir (workdir : string) (f : fs) : result run_error (fs * list string) :=
  let wd := if is_empty (trim workdir) then "/" else workdir in
  if negb (starts_with "/" wd) then Err WorkdirRelative
  else
    let p := root ++ components (trim_start_char "/" wd) in
    f ← ok_or WorkdirFailed (create_dir_all f p);
    Ok (f, p).

(** The arguments of [chroot]. *)
Definition run_arguments (shell : list string) (command : string) : list string :=
  match shell with
  | [] => ["/bin/sh"; "-c"]
  | _ => shell
  end ++ [command].

Definition run_environment (vars : list (string * string)) : gmap string string :=
  foldl (λ m '(k, v), <[k := v]> m)
    {["PATH" := "/usr/local/sbin:/usr/local/bin:/usr/sbin:/usr/bin:/sbin:/bin"; "HOME" := "/root"]} vars.
End handlers.

(** ** Copying one file *)

Definition plain_name (c : string) : Prop := c ≠ "" ∧ c ≠ "." ∧ c ≠ "..".
Definition dir_at (f : fs) (q : path) : Prop := ∃ i, f !! q = Some i ∧ is_dir i = true.

Lemma walk_cons links f cur c rest : plain_name c →
  walk links f cur (c :: rest) =
  match f !! (cur ++ [c]) with
  | None => None
  | Some i =>
      match i_kind i with
      | KDir => walk links f (cur ++ [c]) rest
      | KFile _ => if bool_decide (rest = []) then Some (cur ++ [c]) else None
      | KLink t =>
          match links with
          | O => None
          | S links => walk links f (if starts_with "/" t then [] else cur) (split "/" t ++ rest)
          end
      end
  end.
Proof.
  intros (H1 & H2 & H3). destruct links; cbn [walk]; rewrite (bool_decide_eq_false_2 (c = "" ∨ c = ".")) by tauto;
    by rewrite (bool_decide_eq_false_2 (c = "..")).
Qed.

Lemma walk_nil links f cur : walk links f cur [] = Some cur.
Proof. by destruct links. Qed.

Lemma prefix_snoc_cons {A} (cur : list A) c p q : q `prefix_of` p → cur ++ c :: q `prefix_of` cur ++ c :: p.
Proof. intros Hq. by apply prefix_app, prefix_cons. Qed.

(** Directories all the way. *)
Lemma walk_dirs links f cur p : Forall plain_name p →
  (∀ q, q `prefix_of` p → q ≠ [] → dir_at f (cur ++ q)) → walk links f cur p = Some (cur ++ p).
Proof.
  intros Hp. revert cur. induction Hp as [|c p Hc Hp IH]; intros cur Hd; [by rewrite walk_nil, app_nil_r|].
  rewrite walk_cons by done. destruct (Hd [c]) as (i & Hi & Hdir); [by apply prefix_cons, prefix_nil|done|].
  rewrite Hi. unfold is_dir in Hdir. destruct (i_kind i); try done. rewrite IH; [by rewrite <-app_assoc|].
  intros q Hq Hne. rewrite <-app_assoc. apply Hd; [by apply prefix_cons|done].
Qed.

(** Directories up to a file. *)
Lemma walk_file links f cur p name i content : Forall plain_name p → plain_name name →
  (∀ q, q `prefix_of` p → q ≠ [] → dir_at f (cur ++ q)) → f !! (cur ++ p ++ [name]) = Some i → i_kind i = KFile content →
  walk links f cur (p ++ [name]) = Some (cur ++ p ++ [name]).
Proof.
  intros Hp Hn. revert cur. induction Hp as [|c p Hc Hp IH]; intros cur Hd Hi Hk; cbn [app].
  - rewrite walk_cons by done. cbn [app] in Hi. rewrite Hi, Hk. by rewrite bool_decide_eq_true_2.
  - rewrite walk_cons by done. destruct (Hd [c]) as (j & Hj & Hdir); [by apply prefix_cons, prefix_nil|done|].
    rewrite Hj. unfold is_dir in Hdir. destruct (i_kind j); try done.
    change (cur ++ c :: p ++ [name]) with (cur ++ [c] ++ p ++ [name]). rewrite app_assoc.
    apply IH; [|rewrite <-app_assoc; exact Hi|done].
    intros q Hq Hne. rewrite <-app_assoc. apply Hd; [by apply prefix_cons|done].
Qed.

(** Making directories: what is there stays, what is made are directories below. *)
Lemma mkdir_plain f cur p : Forall plain_name p →
  (∀ q, q `prefix_of` p → q ≠ [] → f !! (cur ++ q) = None ∨ dir_at f (cur ++ q)) →
  (∀ q q', q `prefix_of` q' → q' `prefix_of` p → q ≠ [] → f !! (cur ++ q) = None → f !! (cur ++ q') = None) →
  ∃ f', mkdir_go f cur p = Some f' ∧ (∀ q, q `prefix_of` p → q ≠ [] → dir_at f' (cur ++ q)) ∧
    (∀ x i, f !! x = Some i → f' !! x = Some i) ∧
    (∀ x i, f' !! x = Some i → f !! x = Some i ∨ ∃ q, q `prefix_of` p ∧ q ≠ [] ∧ x = cur ++ q).
Proof.
  intros Hp. revert f cur. induction Hp as [|c p Hc Hp IH]; intros f cur Hd Hm; cbn [mkdir_go].
  { exists f. split_and!; [done| |done|by left]. intros q ->%prefix_nil_inv. done. }
  destruct Hc as (H1 & H2 & H3). rewrite (bool_decide_eq_false_2 (c = "" ∨ c = ".")) by tauto.
  rewrite (bool_decide_eq_false_2 (c = "..")) by done.
  assert (∀ f1, (∀ q, q `prefix_of` p → q ≠ [] → f1 !! ((cur ++ [c]) ++ q) = None ∨ dir_at f1 ((cur ++ [c]) ++ q)) →
    (∀ q q', q `prefix_of` q' → q' `prefix_of` p → q ≠ [] → f1 !! ((cur ++ [c]) ++ q) = None → f1 !! ((cur ++ [c]) ++ q') = None) →
    dir_at f1 (cur ++ [c]) → (∀ x i, f !! x = Some i → f1 !! x = Some i) →
    (∀ x i, f1 !! x = Some i → f !! x = Some i ∨ x = cur ++ [c]) →
    ∃ f', mkdir_go f1 (cur ++ [c]) p = Some f' ∧ (∀ q, q `prefix_of` c :: p → q ≠ [] → dir_at f' (cur ++ q)) ∧
      (∀ x i, f !! x = Some i → f' !! x = Some i) ∧
      (∀ x i, f' !! x = Some i → f !! x = Some i ∨ ∃ q, q `prefix_of` c :: p ∧ q ≠ [] ∧ x = cur ++ q)) as Hstep.
  { intros f1 Hd1 Hm1 Hc1 Hsub Hsup. destruct (IH f1 (cur ++ [c]) Hd1 Hm1) as (f' & -> & Hdirs & Hkeep & Hnew).
    exists f'. split_and!; [done| |by auto|].
    - intros [|c' q] Hq Hne; [done|]. apply prefix_cons_inv_1 in Hq as Hcc. subst c'. apply prefix_cons_inv_2 in Hq.
      destruct q as [|d q].
      + destruct Hc1 as (i & Hi & Hdi). exists i. split; [by apply Hkeep|done].
      + change (cur ++ c :: d :: q) with (cur ++ [c] ++ d :: q). rewrite app_assoc. by apply Hdirs.
    - intros x i [Hx|(q & Hq & Hne & ->)]%Hnew.
      + apply Hsup in Hx as [?| ->]; [by left|right]. exists [c]. split_and!; [by apply prefix_cons, prefix_nil|done|done].
      + right. exists (c :: q). split_and!; [by apply prefix_cons|done|by rewrite <-app_assoc]. }
  destruct (f !! (cur ++ [c])) as [j|] eqn:Ej.
  - destruct (Hd [c]) as [?|(i & Hi & Hdi)]; [by apply prefix_cons, prefix_nil|done|congruence|].
    assert (j = i) as -> by congruence. rewrite walk_cons, Ej by done. unfold is_dir in Hdi |- *.
    destruct (i_kind i) eqn:Ek; try done. rewrite walk_nil. cbn. rewrite Ej. cbn. rewrite Ek. apply Hstep; try done.
    + intros q Hq Hne. rewrite <-app_assoc. apply Hd; [by apply prefix_cons|done].
    + intros q q' Hq Hq' Hne. rewrite <-!app_assoc. apply Hm; [by apply prefix_cons|by apply prefix_cons|done].
    + exists i. split; [done|]. unfold is_dir. by rewrite Ek.
    + by left.
  - assert (∀ q, q ≠ [] → q `prefix_of` p → f !! ((cur ++ [c]) ++ q) = None) as Hnone.
    { intros q Hne Hq. rewrite <-app_assoc. apply (Hm [c]); [by apply prefix_cons, prefix_nil|by apply prefix_cons|done|done]. }
    assert (∀ q, q ≠ [] → (cur ++ [c]) ++ q ≠ cur ++ [c]) as Hneq.
    { intros q Hne E. apply (f_equal length) in E. rewrite !length_app in E. destruct q; [done|]. cbn in E. lia. }
    apply Hstep.
    + intros q Hq Hne. left. rewrite lookup_insert_ne by (apply not_eq_sym; by apply Hneq). by apply Hnone.
    + intros q q' Hq Hq' Hne _. assert (q' ≠ []) by (intros ->; by apply prefix_nil_inv in Hq).
      rewrite lookup_insert_ne by (apply not_eq_sym; by apply Hneq). by apply Hnone.
    + exists new_dir. by rewrite lookup_insert_eq.
    + intros x i Hx. rewrite lookup_insert_ne; [done|]. intros <-. congruence.
    + intros x i. rewrite lookup_insert_Some. intros [[<- _]|[_ ?]]; auto.
Qed.

Lemma walk_missing links f cur p name : Forall plain_name p → plain_name name →
  (∀ q, q `prefix_of` p → q ≠ [] → dir_at f (cur ++ q)) → f !! (cur ++ p ++ [name]) = None →
  walk links f cur (p ++ [name]) = None.
Proof.
  intros Hp Hn. revert cur. induction Hp as [|c p Hc Hp IH]; intros cur Hd Hi; cbn [app].
  - rewrite walk_cons by done. cbn [app] in Hi. by rewrite Hi.
  - rewrite walk_cons by done. destruct (Hd [c]) as (j & Hj & Hdir); [by apply prefix_cons, prefix_nil|done|].
    rewrite Hj. unfold is_dir in Hdir. destruct (i_kind j); try done.
    apply IH; [|rewrite <-app_assoc; exact Hi]. intros q Hq Hne. rewrite <-app_assoc. apply Hd; [by apply prefix_cons|done].
Qed.

(** A directory and the way to it. *)
Record way (f : fs) (p : path) : Prop := {
  way_names : Forall plain_name p;
  way_dirs : ∀ q, q `prefix_of` p → dir_at f q }.

Lemma stat_file f p name i content : way f p → plain_name name → f !! (p ++ [name]) = Some i → i_kind i = KFile content →
  stat f (p ++ [name]) = Some (p ++ [name], i).
Proof.
  intros [Hp Hd] Hn Hi Hk. unfold stat, resolve_dir. rewrite (walk_file _ f [] p name i content); auto. cbn. by rewrite Hi.
Qed.

Lemma stat_missing f p name : way f p → plain_name name → f !! (p ++ [name]) = None → stat f (p ++ [name]) = None.
Proof. intros [Hp Hd] Hn Hi. unfold stat, resolve_dir. by rewrite (walk_missing _ f [] p name); auto. Qed.

Lemma plain_not_dots c : plain_name c → dots c = false.
Proof. intros (? & ? & ?). unfold dots. apply bool_decide_eq_false. set_solver. Qed.

Lemma write_plain_mode f p name content mode old : way f p → plain_name name → f !! (p ++ [name]) = old →
  (∀ i, old = Some i → ∃ c, i_kind i = KFile c) →
  write_file f (p ++ [name]) content mode =
  Some (<[p ++ [name] := {| i_kind := KFile content;
                            i_mode := match mode with Some m => m | None => from_option i_mode 420%Z old end;
                            i_uid := from_option i_uid 0%Z old; i_gid := from_option i_gid 0%Z old |}]> f).
Proof.
  intros [Hp Hd] Hn Ho Hold. unfold write_file.
  assert (open_path max_links f [] (p ++ [name]) = Some (p ++ [name])) as ->.
  { assert (∀ links, open_path links f [] (p ++ [name]) = Some (p ++ [name])) as Hopen; [|apply Hopen].
    intros links. destruct links; cbn [open_path]; rewrite rev_unit, plain_not_dots, removelast_last by done;
      rewrite (walk_dirs _ f [] p) by auto; cbn; rewrite Ho;
      (destruct old as [i|]; [destruct (Hold i eq_refl) as (c & Hc)|done]; by rewrite Hc). }
  cbn. rewrite removelast_last. destruct (Hd p) as (j & -> & Hj); [done|]. cbn. rewrite Hj. cbn. by rewrite Ho.
Qed.

Lemma write_plain f p name content mode old : way f p → plain_name name → f !! (p ++ [name]) = old →
  (∀ i, old = Some i → ∃ c, i_kind i = KFile c) →
  write_file f (p ++ [name]) content (Some mode) =
  Some (<[p ++ [name] := {| i_kind := KFile content; i_mode := mode;
                            i_uid := from_option i_uid 0%Z old; i_gid := from_option i_gid 0%Z old |}]> f).
Proof. exact (write_plain_mode f p name content (Some mode) old). Qed.

Lemma lstat_plain f p name : way f p → plain_name name → lstat f (p ++ [name]) = f !! (p ++ [name]).
Proof.
  intros [Hp Hd] Hn. unfold lstat. rewrite rev_unit, plain_not_dots, removelast_last by done.
  unfold resolve_dir. by rewrite (walk_dirs _ f [] p) by auto.
Qed.

Lemma mkdir_skip g cur p rest : Forall plain_name p → (∀ q, q `prefix_of` p → q ≠ [] → dir_at g (cur ++ q)) →
  mkdir_go g cur (p ++ rest) = mkdir_go g (cur ++ p) rest.
Proof.
  intros Hp. revert cur. induction Hp as [|c p Hc Hp IH]; intros cur Hd; [by rewrite app_nil_r|].
  cbn [app mkdir_go]. destruct Hc as (H1 & H2 & H3). rewrite (bool_decide_eq_false_2 (c = "" ∨ c = ".")) by tauto.
  rewrite (bool_decide_eq_false_2 (c = "..")) by done.
  destruct (Hd [c]) as (i & Hi & Hdi); [by apply prefix_cons, prefix_nil|done|]. rewrite Hi, walk_cons, Hi by done.
  unfold is_dir in Hdi. destruct (i_kind i) eqn:Ek; try done. rewrite walk_nil. cbn. rewrite Hi. cbn. unfold is_dir. rewrite Ek.
  rewrite IH; [by rewrite <-app_assoc|]. intros q Hq Hne. rewrite <-app_assoc. apply Hd; [by apply prefix_cons|done].
Qed.

Lemma prefix_app_cases {A} (q a b : list A) : q `prefix_of` a ++ b →
  q `prefix_of` a ∨ ∃ q', q = a ++ q' ∧ q' `prefix_of` b.
Proof.
  intros [r E]. apply app_eq_inv in E as [(k & -> & ->)|(k & -> & ->)]; [left|right]; [by apply prefix_app_r|].
  exists k. split; [done|by apply prefix_app_r].
Qed.

Section copy_file.
Context (fuel : nat) (root context sp dp : path) (sname dname src dst workdir : string) (f : fs).
Context (si : inode) (content : string) (ignore : option (list Rule)).
(** The source is a file of the context, named without wildcards, not ignored. *)
Context (src_name : components (trim_start_char "/" src) = sp ++ [sname]).
Context (src_literal : is_url src = false ∧ has_glob_meta src = false).
Context (src_way : way f (context ++ sp)) (src_plain : plain_name sname).
Context (src_file : f !! ((context ++ sp) ++ [sname]) = Some si) (src_content : i_kind si = KFile content).
Context (not_ignored : ∀ rules, ignore = Some rules → is_excluded rules (trim_start_char "/" src) = false).
(** The destination is a name below the root; on the way to it are directories, then
    nothing; in its place is a file or nothing. *)
Context (dst_name : destination workdir dst = dp ++ [dname]) (dst_no_slash : ends_with "/" dst = false).
Context (dst_plain : Forall plain_name dp ∧ plain_name dname) (root_way : way f root).
Context (dst_dirs : ∀ q, q `prefix_of` dp → q ≠ [] → f !! (root ++ q) = None ∨ dir_at f (root ++ q)).
Context (dst_open : ∀ q q', q `prefix_of` q' → q' `prefix_of` dp ++ [dname] → q ≠ [] →
  f !! (root ++ q) = None → f !! (root ++ q') = None).
Context (dst_free : ∀ i, f !! ((root ++ dp) ++ [dname]) = Some i → ∃ c, i_kind i = KFile c).

Definition copied_inode : inode :=
  {| i_kind := KFile content; i_mode := i_mode si;
     i_uid := from_option i_uid 0%Z (f !! ((root ++ dp) ++ [dname]));
     i_gid := from_option i_gid 0%Z (f !! ((root ++ dp) ++ [dname])) |}.

(** The directories are made, the rest stays. *)
Lemma prepared : ∃ f1, prepare root workdir dst false f = Ok f1 ∧ way f1 (root ++ dp) ∧
  (∀ x i, f !! x = Some i → f1 !! x = Some i) ∧
  (∀ x i, f1 !! x = Some i → f !! x = Some i ∨ ∃ q, q `prefix_of` dp ∧ q ≠ [] ∧ x = root ++ q).
Proof using dst_name dst_no_slash dst_plain root_way dst_dirs dst_open.
  destruct dst_plain as [Hdp Hdn]. destruct root_way as [Hr Hrd].
  destruct (mkdir_plain f root dp Hdp dst_dirs) as (f1 & E & Hdirs & Hkeep & Hnew).
  { intros q q' Hq Hq'. apply dst_open; [done|]. by apply prefix_app_r. }
  exists f1. unfold prepare, create_dir_all. rewrite dst_name, dst_no_slash. cbn [orb]. rewrite removelast_last.
  rewrite mkdir_skip by auto. cbn [app]. rewrite E. split_and!; [done| |done|done]. split; [by apply Forall_app|].
  intros q Hq. destruct (decide (q `prefix_of` root)) as [Hqr|Hqr].
  - destruct (Hrd q Hqr) as (i & Hi & Hdi). exists i. auto.
  - apply prefix_app_cases in Hq as [?|(q' & -> & Hq')]; [done|]. apply Hdirs; [done|].
    intros ->. apply Hqr. by rewrite app_nil_r.
Qed.

Lemma target_unmade q : q `prefix_of` dp → (root ++ dp) ++ [dname] ≠ root ++ q.
Proof using Type.
  intros Hq E. rewrite <-app_assoc in E. apply app_inv_head in E. apply prefix_length in Hq.
  apply (f_equal length) in E. rewrite length_app in E. cbn in E. lia.
Qed.

(** Copying one file of the context to a name in the image writes the file's
    bytes and mode there, makes the missing directories on the way, changes nothing
    else on the host, and the layer holds exactly the file under its name. *)
Theorem copy_one_file : ∃ f',
  handle_copy fuel root [src] dst None context workdir ignore f =
    Ok (f', [{| e_absolute := false; e_path := dp ++ [dname]; e_inode := copied_inode |}]) ∧
  f' !! (root ++ dp ++ [dname]) = Some copied_inode ∧
  (∀ x, f' !! x ≠ f !! x → ∃ q, q ≠ [] ∧ q `prefix_of` dp ++ [dname] ∧ x = root ++ q).
Proof using All.
  destruct prepared as (f1 & Ep & Hway & Hkeep & Hnew). destruct dst_plain as [Hdp Hdn], src_literal as [Hu Hg].
  assert (f1 !! ((root ++ dp) ++ [dname]) = f !! ((root ++ dp) ++ [dname])) as Et.
  { destruct (f !! ((root ++ dp) ++ [dname])) as [i|] eqn:E; [by apply Hkeep|].
    destruct (f1 !! ((root ++ dp) ++ [dname])) as [i|] eqn:E1; [|done].
    apply Hnew in E1 as [?|(q & Hq & _ & Ex)]; [congruence|]. by destruct (target_unmade q Hq). }
  assert (way f1 (context ++ sp)) as Hsrc1.
  { destruct src_way as [? Hd]. split; [done|]. intros q Hq. destruct (Hd q Hq) as (i & ? & ?). exists i. auto. }
  assert (stat f1 (context ++ sp ++ [sname]) = Some ((context ++ sp) ++ [sname], si)) as Es.
  { rewrite app_assoc. eapply stat_file; eauto. }
  assert (is_dir si = false) as Hsd by (unfold is_dir; by rewrite src_content).
  set (f2 := <[(root ++ dp) ++ [dname] := copied_inode]> f1).
  assert (way f2 (root ++ dp)) as Hway2.
  { destruct Hway as [? Hd]. split; [done|]. intros q Hq. destruct (Hd q Hq) as (i & Hi & Hdi). exists i. split; [|done].
    unfold f2. rewrite lookup_insert_ne; [done|]. intros <-. apply prefix_length in Hq. rewrite !length_app in Hq. cbn in Hq. lia. }
  assert (f2 !! ((root ++ dp) ++ [dname]) = Some copied_inode) as E2 by apply lookup_insert_eq.
  exists f2. split_and!.
  - unfold handle_copy. cbn [resolve_source_patterns]. rewrite Hu, Hg. cbn [mbind result_bind map_err app length Nat.ltb Nat.leb].
    rewrite Ep. cbn [mbind result_bind copy_sources]. unfold copy_source. rewrite src_name, dst_name.
    unfold path_exists, path_is_dir at 1, path_is_file. rewrite Es, bool_decide_eq_true_2 by eauto. cbn [negb].
    assert (match ignore with
            | Some rules => negb (is_empty (if bool_decide (src = ".") then "" else trim_start_char "/" src))
                && match i_kind si with KFile _ => true | _ => false end
                && is_excluded rules (if bool_decide (src = ".") then "" else trim_start_char "/" src)
            | None => false
            end = false) as ->.
    { destruct ignore as [rules|]; [|done]. case_bool_decide; [done|]. rewrite (not_ignored rules) by done. apply andb_false_r. }
    rewrite Hsd. assert (path_is_dir f1 (root ++ dp ++ [dname]) = false) as ->.
    { unfold path_is_dir. rewrite app_assoc. destruct (f !! ((root ++ dp) ++ [dname])) as [i|] eqn:Ei.
      - destruct (dst_free i eq_refl) as (c & Hc). rewrite (stat_file _ _ _ i c) by (done || congruence).
        unfold is_dir. by rewrite Hc.
      - by rewrite stat_missing by (done || congruence). }
    unfold copy_file. rewrite Es. cbn [mbind option_bind]. rewrite src_content, app_assoc.
    rewrite (write_plain _ _ _ _ _ _ Hway Hdn Et) by (intros; by apply dst_free). cbn [ok_or mbind result_bind chown_ids].
    change (<[_ := _]> f1) with f2. unfold destination_layer.
    assert (path_is_dir f2 (root ++ dp ++ [dname]) = false) as ->.
    { unfold path_is_dir. rewrite app_assoc. by rewrite (stat_file _ _ _ _ content Hway2 Hdn E2). }
    rewrite app_assoc, (lstat_plain _ _ _ Hway2 Hdn), E2. cbn [mbind result_bind with_owner].
    do 4 f_equal. unfold normal. assert (Forall plain_name (dp ++ [dname])) as Hall by (apply Forall_app; by rewrite list.Forall_singleton).
    clear -Hall. induction Hall as [|c l (Hc & _) _ IH]; [done|]. cbn. destruct c; [done|]. cbn. by rewrite IH.
  - by rewrite app_assoc.
  - intros x Hx. unfold f2 in Hx. rewrite lookup_insert in Hx. destruct (decide ((root ++ dp) ++ [dname] = x)) as [<-|Hne].
    + exists (dp ++ [dname]). rewrite <-app_assoc. split_and!; [by destruct dp|done|done].
    + destruct (f1 !! x) as [i|] eqn:E1; [|destruct (f !! x) eqn:E; [by apply Hkeep in E; congruence|done]].
      apply Hnew in E1 as [?|(q & Hq & Hqn & ->)]; [congruence|]. exists q. split_and!; [done|by apply prefix_app_r|done].
Qed.
End copy_file.

(** ** Concrete copies *)

Definition prefixes (p : path) : list path := map (λ n, take n p) (seq 0 (S (length p))).

Lemma prefix_in_prefixes q p : q `prefix_of` p → q ∈ prefixes p.
Proof.
  intros [r ->]. apply list_elem_of_fmap. exists (length q). rewrite take_app_length. split; [done|].
  apply elem_of_seq. rewrite length_app. lia.
Qed.

Definition is_dir_at (f : fs) (q : path) : bool := match f !! q with Some i => is_dir i | None => false end.

Lemma is_dir_at_spec f q : is_dir_at f q = true → dir_at f q.
Proof. unfold is_dir_at. destruct (f !! q) as [i|] eqn:E; [|done]. by exists i. Qed.

Definition plain_nameb (c : string) : bool := negb (bool_decide (c ∈ [""; "."; ".."])).

Lemma plain_nameb_spec c : plain_nameb c = true → plain_name c.
Proof. unfold plain_nameb. rewrite negb_true_iff, bool_decide_eq_false. intros H. split_and!; intros ->; set_solver. Qed.

Lemma way_check f p : forallb plain_nameb p = true → forallb (is_dir_at f) (prefixes p) = true → way f p.
Proof.
  intros Hp Hd. split.
  - apply Forall_forall. intros c Hc. apply plain_nameb_spec. rewrite forallb_forall in Hp. by apply Hp, list_elem_of_In.
  - intros q Hq. apply is_dir_at_spec. rewrite forallb_forall in Hd. by apply Hd, list_elem_of_In, prefix_in_prefixes.
Qed.

Definition file_of (c : string) : inode := {| i_kind := KFile c; i_mode := 420; i_uid := 0; i_gid := 0 |}.
Definition link_to (t : string) : inode := {| i_kind := KLink t; i_mode := 511; i_uid := 0; i_gid := 0 |}.

(** A host with a context [/c], a stage root [/r] and its own [/etc/passwd]. *)
Definition toy_host_with (extra : list (path * inode)) : fs :=
  list_to_map (extra ++ [([], new_dir); (["c"], new_dir); (["c"; "a"], file_of "hello"); (["r"], new_dir);
                         (["etc"], new_dir); (["etc"; "passwd"], file_of "root:x:0:0")]).
Definition plain_host : fs := toy_host_with [].

Lemma copy_one_file_witness : ∃ f',
  handle_copy 9 ["r"] ["a"] "/x/b" None ["c"] "/" None plain_host =
    Ok (f', [{| e_absolute := false; e_path := ["x"; "b"]; e_inode := file_of "hello" |}]) ∧
  f' !! ["r"; "x"; "b"] = Some (file_of "hello").
Proof.
  destruct (copy_one_file 9 ["r"] ["c"] [] ["x"] "a" "b" "a" "/x/b" "/" plain_host (file_of "hello") "hello" None)
    as (f' & E & Hf & _).
  - reflexivity.
  - done.
  - by apply way_check; vm_compute.
  - by apply plain_nameb_spec.
  - reflexivity.
  - reflexivity.
  - done.
  - reflexivity.
  - reflexivity.
  - split; [apply list.Forall_singleton|]; by apply plain_nameb_spec.
  - by apply way_check; vm_compute.
  - intros q Hq%prefix_in_prefixes Hne. left. vm_compute in Hq. set_solver.
  - intros q q' Hq Hq'%prefix_in_prefixes Hne _. assert (q' ≠ []) by (intros ->; by apply prefix_nil_inv in Hq).
    vm_compute in Hq'. set_solver.
  - intros i. vm_compute. done.
  - exists f'. split; [exact E|exact Hf].
Defined.

(** *** Ways out of the context and of the root *)

(** A source with [..] is read from outside the build context. *)
Lemma source_outside_context :
  map e_inode <$> (snd <$> handle_copy 9 ["r"] ["../etc/passwd"] "/p" None ["c"] "/" None plain_host)
  = Ok [file_of "root:x:0:0"].
Proof. vm_compute. reflexivity. Qed.

(** A link of the base image is followed on the host: [COPY a /data/passwd] with
    [/data -> /etc] in the image overwrites the host's own file. *)
Lemma destination_outside_root :
  (λ r, r.1 !! ["etc"; "passwd"]) <$>
    handle_copy 9 ["r"] ["a"] "/data/passwd" None ["c"] "/" None (toy_host_with [(["r"; "data"], link_to "/etc")])
  = Ok (Some (file_of "hello")).
Proof. vm_compute. reflexivity. Qed.

(** [--chown] is applied to everything in the destination directory, not only to
    what was copied; what the copy leaves in the root has the old owner. *)
Lemma chown_takes_the_directory :
  let f := toy_host_with [(["r"; "srv"], new_dir); (["r"; "srv"; "key"], file_of "k")] in
  (λ r, (map (λ e, (e_path e, i_uid (e_inode e))) r.2, i_uid <$> r.1 !! ["r"; "srv"; "a"])) <$>
    handle_copy 9 ["r"] ["a"] "/srv/" (Some "7:7") ["c"] "/" None f
  = Ok ([(["srv"; "a"], 7%Z); (["srv"; "key"], 7%Z)], Some 0%Z) ∨
  (λ r, (map (λ e, (e_path e, i_uid (e_inode e))) r.2, i_uid <$> r.1 !! ["r"; "srv"; "a"])) <$>
    handle_copy 9 ["r"] ["a"] "/srv/" (Some "7:7") ["c"] "/" None f
  = Ok ([(["srv"; "key"], 7%Z); (["srv"; "a"], 7%Z)], Some 0%Z).
Proof. vm_compute. auto. Qed.
