(* ===== verification/TreeCopy.v ===== *)
(** * TreeCopy: copies of directory trees

    [copy_dir_recursive] as the caches and root providers use it
    ([runtime/src/cache/layer_cache.rs], with the owners of the files) and as the snapshots do
    ([runtime/src/snapshot.rs] and [cli/src/commands/snapshot.rs], without them), on the trees of
    [Layers]; what a complete copy is, and what a broken-off one leaves. *)

From Stdlib Require Import ZArith Lia.
From stdpp Require Import base gmap strings list numbers fin_maps sets.
From S2P Require Import Prelude RustStr Layers CopyStep.

Local Open Scope string_scope.
Local Open Scope list_scope.
Local Open Scope Z_scope.

(** The effective user and group of the process *)
Class HostIds := { host_uid : Z; host_gid : Z }.

(** ** One file *)

(** [lchown] takes the set-user-ID bit from a regular file, and the set-group-ID bit when its
    group may execute it. *)
Definition drop_setid (mode : Z) : Z :=
  let m := Z.ldiff mode 2048 in if Z.testbit mode 3 then Z.ldiff m 1024 else m.

Section copy.
Context `{HostIds}.

(** [preserve_owner]: as root only *)
Definition preserve_owner (i made : inode) : inode :=
  if host_uid =? 0 then
    {| i_kind := i_kind made;
       i_mode := match i_kind made with KFile _ => drop_setid (i_mode made) | _ => i_mode made end;
       i_uid := i_uid i; i_gid := i_gid i |}
  else made.

(** What the process makes: a directory with the default mode, a link, a file that
    [std::fs::copy] gives the mode of its source. *)
Definition made_inode (i : inode) : inode :=
  {| i_kind := i_kind i;
     i_mode := match i_kind i with KDir => 493 | KLink _ => 511 | KFile _ => i_mode i end;
     i_uid := host_uid; i_gid := host_gid |}.

Definition copy_inode (keep : bool) (i : inode) : inode :=
  if keep then preserve_owner i (made_inode i) else made_inode i.

(** ** The recursion *)

(** The entries of the directory [p], in the order of the file system; [rec] copies a directory.
    [fails] are the paths whose copy does not succeed; the flag says whether the copy is whole. *)
Fixpoint copy_names (keep : bool) (fails : path → bool) (rec : path → fs → fs * bool) (src : fs) (p : path)
    (names : list string) (dst : fs) : fs * bool :=
  match names with
  | [] => (dst, true)
  | n :: names =>
      let q := p ++ [n] in
      match src !! q with
      | None => (dst, false)
      | Some i =>
          if is_dir i then
            match rec q dst with
            | (dst, true) => copy_names keep fails rec src p names dst
            | r => r
            end
          else if fails q then (dst, false)
          else copy_names keep fails rec src p names (<[q := copy_inode keep i]> dst)
      end
  end.
Fixpoint copy_dir_recursive (keep : bool) (fuel : nat) (fails : path → bool) (src : fs) (p : path) (dst : fs) : fs * bool :=
  match fuel with
  | O => (dst, false)
  | S fuel =>
      match src !! p with
      | None => (dst, false)
      | Some d =>
          if fails p then (dst, false)
          else copy_names keep fails (copy_dir_recursive keep fuel fails src) src p (entries src p)
                 (<[p := copy_inode keep d]> dst)
      end
  end.

(** The specification: the same paths, each file as it arrives. *)
Definition copy_tree (keep : bool) (t : fs) : fs := copy_inode keep <$> t.

(** The paths of a directory tree: the root is a directory, and so is what has something in it. *)
Definition tree (t : fs) : Prop :=
  dir_at t [] ∧ ∀ p n, is_Some (t !! (p ++ [n])) → dir_at t p.

Lemma name_in_Some d q n : name_in d q = Some n ↔ q = d ++ [n].
Proof.
  unfold name_in. case_bool_decide as Hp.
  - destruct Hp as [r ->]. rewrite drop_app_length. split.
    + destruct r as [|x [|y r]]; [done| |done]. by intros [= ->].
    + intros E%app_inv_head. by rewrite E.
  - split; [done|]. intros ->. destruct Hp. by eexists.
Qed.

Lemma elem_of_dir_entries (t : fs) (p : path) (n : string) : n ∈ entries t p ↔ is_Some (t !! (p ++ [n])).
Proof.
  unfold entries. rewrite list_elem_of_omap. split.
  - intros ([q i] & Hq%elem_of_map_to_list & E%name_in_Some). cbn in E. subst q. by exists i.
  - intros [i Hi]. exists (p ++ [n], i). rewrite elem_of_map_to_list. split; [done|]. by apply name_in_Some.
Qed.

Lemma entries_NoDup (t : fs) (p : path) : NoDup (entries t p).
Proof.
  unfold entries. pose proof (NoDup_fst_map_to_list t) as Hnd. revert Hnd. generalize (map_to_list t). intros l.
  induction l as [|[q i] l IH]; [constructor|]. intros [Hni Hnd]%NoDup_cons. cbn [omap list_omap fst].
  destruct (name_in p q) as [n|] eqn:E; [|by apply IH]. apply name_in_Some in E as ->. apply NoDup_cons. split; [|by apply IH].
  rewrite list_elem_of_omap. intros ([q' i'] & Hin & E%name_in_Some). cbn in E. subst q'. apply Hni. apply list_elem_of_fmap. exists (p ++ [n], i'). done.
Qed.

(** What a call with enough fuel does to the destination. *)
Definition copies (keep : bool) (src : fs) (p : path) (dst dst' : fs) : Prop :=
  ∀ q, dst' !! q = if bool_decide (p `prefix_of` q) then copy_inode keep <$> src !! q else dst !! q.

Lemma prefix_child {A} `{EqDecision A} (p q : list A) : p `prefix_of` q → q = p ∨ ∃ n, p ++ [n] `prefix_of` q.
Proof. intros [[|n r] ->]; [left; by rewrite app_nil_r|]. right. exists n. exists r. by rewrite <-app_assoc. Qed.

Lemma children_apart (p q : path) a b : p ++ [a] `prefix_of` q → p ++ [b] `prefix_of` q → a = b.
Proof. intros [r ->] [r' E]. rewrite <-!app_assoc in E. apply app_inv_head in E. by injection E. Qed.

Lemma child_not_root (p : path) n : ¬ p ++ [n] `prefix_of` p.
Proof. intros Hp%prefix_length. rewrite length_app in Hp. cbn in Hp. lia. Qed.

Lemma no_prefix_child (t : fs) (p : path) (n : string) (q : path) (i : inode) : (∀ (q : path) (n : string), is_Some (t !! (q ++ [n])) → dir_at t q) →
  t !! (p ++ [n]) = Some i → is_dir i = false → p ++ [n] `prefix_of` q → q ≠ p ++ [n] → t !! q = None.
Proof.
  intros Ht Hi Hd [r ->] Hne. destruct r as [|m r]; [by rewrite app_nil_r in Hne|]. clear Hne.
  destruct (t !! ((p ++ [n]) ++ m :: r)) eqn:E; [|done]. exfalso.
  assert (∀ r, is_Some (t !! ((p ++ [n]) ++ r)) → r ≠ [] → dir_at t (p ++ [n])) as Hup.
  { induction r0 as [|x r0 IH] using rev_ind; [done|]. intros Hs _. rewrite app_assoc in Hs. apply Ht in Hs as (j & Hj & Hdj).
    destruct r0 as [|y r0]; [rewrite app_nil_r in Hj; by exists j|]. apply IH; [by exists j|done]. }
  destruct (Hup (m :: r)) as (j & Hj & Hdj); [by rewrite E|done|]. rewrite Hi in Hj. injection Hj as <-. congruence.
Qed.

Definition closed (t : fs) : Prop := ∀ (q : path) (n : string), is_Some (t !! (q ++ [n])) → dir_at t q.

Lemma closed_up (t : fs) (p r : path) : closed t → is_Some (t !! (p ++ r)) → is_Some (t !! p).
Proof.
  intros Ht. induction r as [|x r IH] using rev_ind; [by rewrite app_nil_r|]. rewrite app_assoc. intros (j & Hj & _)%Ht. apply IH. by eexists.
Qed.

Section names.
Context (keep : bool) (src : fs) (p : path) (rec : path → fs → fs * bool).
Context (Hrec : ∀ (n : string) (dst : fs), n ∈ entries src p → (∀ q, p ++ [n] `prefix_of` q → dst !! q = None) →
  ∃ dst', rec (p ++ [n]) dst = (dst', true) ∧ copies keep src (p ++ [n]) dst dst').

Lemma copy_one_name (n : string) (names : list string) (dst : fs) : closed src → n ∈ entries src p →
  (∀ q, p ++ [n] `prefix_of` q → dst !! q = None) →
  ∃ dst', copy_names keep (λ _, false) rec src p (n :: names) dst = copy_names keep (λ _, false) rec src p names dst' ∧
          copies keep src (p ++ [n]) dst dst'.
Proof.
  intros Ht Hn Hfr. destruct (proj1 (elem_of_dir_entries _ _ _) Hn) as [i Hi]. cbn [copy_names]. rewrite Hi. destruct (is_dir i) eqn:Hdi.
  - destruct (Hrec n dst Hn Hfr) as (dst1 & -> & C1). by exists dst1.
  - eexists. split; [done|]. intros q. case_bool_decide as Hq.
    + destruct (decide (q = p ++ [n])) as [->|Hne]; [by rewrite lookup_insert_eq, Hi|].
      rewrite lookup_insert_ne by done. by rewrite (no_prefix_child src p n q i), Hfr.
    + rewrite lookup_insert_ne; [done|]. intros <-. by apply Hq.
Qed.

Lemma copy_names_spec (names : list string) (dst : fs) : closed src → NoDup names → names ⊆ entries src p →
  (∀ n q, n ∈ names → p ++ [n] `prefix_of` q → dst !! q = None) →
  ∃ dst', copy_names keep (λ _, false) rec src p names dst = (dst', true) ∧
    (∀ q n, n ∈ names → p ++ [n] `prefix_of` q → dst' !! q = copy_inode keep <$> src !! q) ∧
    (∀ q, (∀ n, n ∈ names → ¬ p ++ [n] `prefix_of` q) → dst' !! q = dst !! q).
Proof.
  intros Ht. revert dst. induction names as [|n names IHn]; intros dst Hnd Hin Hfr.
  { exists dst. split; [done|]. split; [by intros q n ?%not_elem_of_nil|done]. }
  apply NoDup_cons in Hnd as [Hn Hnd].
  destruct (copy_one_name n names dst) as (dst1 & E1 & C1); [done|apply Hin; constructor|intros q; apply Hfr; constructor|].
  destruct (IHn dst1) as (dst' & E2 & I2 & O2); [done|intros m Hm; apply Hin; by constructor| |].
  { intros m q Hm Hq. rewrite C1. rewrite bool_decide_false; [apply (Hfr m); [by constructor|done]|].
    intros Hq'. rewrite (children_apart p q n m) in Hn; done. }
  exists dst'. rewrite E1. split; [done|]. split.
  - intros q m Hm Hq. apply elem_of_cons in Hm as [->|Hm]; [|by eapply I2]. rewrite O2, C1, bool_decide_true; [done..|].
    intros m Hm Hq'. rewrite (children_apart p q n m) in Hn; done.
  - intros q Hq. rewrite O2, C1, bool_decide_false; [done|apply Hq; constructor|]. intros m Hm. apply Hq. by constructor.
Qed.
End names.

Lemma copy_dir_copies (keep : bool) (fuel : nat) (src : fs) (p : path) (dst : fs) : closed src → is_Some (src !! p) →
  (∀ q, p `prefix_of` q → is_Some (src !! q) → (length q < length p + fuel)%nat) →
  (∀ q, p `prefix_of` q → dst !! q = None) →
  ∃ dst', copy_dir_recursive keep fuel (λ _, false) src p dst = (dst', true) ∧ copies keep src p dst dst'.
Proof.
  intros Ht. revert p dst. induction fuel as [|fuel IH]; intros p dst [d Hd] Hdepth Hfree.
  { exfalso. cut (length p < length p + 0)%nat; [lia|]. apply Hdepth; [done|by eexists]. }
  cbn [copy_dir_recursive]. rewrite Hd. assert (∀ n (q : path), p ++ [n] `prefix_of` q → p `prefix_of` q) as Hup.
  { intros n q. etrans; [by apply prefix_app_r|done]. }
  destruct (copy_names_spec keep src p (copy_dir_recursive keep fuel (λ _, false) src)) with
    (names := entries src p) (dst := <[p := copy_inode keep d]> dst) as (dst' & E & I & O); [|done|apply entries_NoDup|done| |].
  - intros n dst0 Hn Hfr. apply IH; [by apply elem_of_dir_entries| |done].
    intros q Hq Hs. specialize (Hdepth q (Hup n q Hq) Hs). rewrite length_app. cbn. lia.
  - intros n q _ Hq. rewrite lookup_insert_ne; [apply Hfree; by eapply Hup|]. intros ->. by eapply child_not_root.
  - exists dst'. split; [done|]. intros q. case_bool_decide as Hq.
    2: { rewrite O, lookup_insert_ne; [done|by intros ->|]. intros n _ Hn. apply Hq. by eapply Hup. }
    destruct (prefix_child _ _ Hq) as [->|[n Hn]].
    { rewrite O, lookup_insert_eq, Hd; [done|]. intros n _. apply child_not_root. }
    destruct (decide (n ∈ entries src p)) as [Hin|Hni]; [by eapply I|].
    assert (src !! q = None) as ->.
    { destruct (src !! q) eqn:Hsq; [|done]. destruct Hni. apply elem_of_dir_entries. destruct Hn as [r ->]. apply (closed_up _ _ r Ht). by eexists. }
    rewrite O, lookup_insert_ne; [by apply Hfree|intros <-; by eapply child_not_root|].
    intros m Hm Hq'. by rewrite (children_apart p q m n) in Hm.
Qed.

(** A copy that breaks off at any point leaves only whole files of the source. *)
Lemma copy_names_part (keep : bool) (fails : path → bool) (rec : path → fs → fs * bool) (src : fs) (p : path) (names : list string) (dst : fs) :
  (∀ q d q' i, (rec q d).1 !! q' = Some i → d !! q' = Some i ∨ copy_inode keep <$> src !! q' = Some i) →
  ∀ q i, (copy_names keep fails rec src p names dst).1 !! q = Some i → dst !! q = Some i ∨ copy_inode keep <$> src !! q = Some i.
Proof.
  intros Hrec. revert dst. induction names as [|n names IH]; intros dst q i; [by left|]. cbn [copy_names].
  destruct (src !! (p ++ [n])) as [j|] eqn:Hj; [|by left]. destruct (is_dir j).
  - specialize (Hrec (p ++ [n]) dst). destruct (rec (p ++ [n]) dst) as [d' [|]]; [|by apply Hrec].
    intros [Hq|Hq]%IH; [by apply Hrec|by right].
  - destruct (fails (p ++ [n])); [by left|]. intros [Hq|Hq]%IH; [|by right]. destruct (decide (q = p ++ [n])) as [->|Hne].
    + rewrite lookup_insert_eq in Hq. right. by rewrite Hj.
    + rewrite lookup_insert_ne in Hq by done. by left.
Qed.

Lemma copy_dir_part (keep : bool) (fuel : nat) (fails : path → bool) (src : fs) (p : path) (dst : fs) (q : path) (i : inode) :
  (copy_dir_recursive keep fuel fails src p dst).1 !! q = Some i → dst !! q = Some i ∨ copy_inode keep <$> src !! q = Some i.
Proof.
  revert p dst q i. induction fuel as [|fuel IH]; intros p dst q i; [by left|]. cbn [copy_dir_recursive].
  destruct (src !! p) as [d|] eqn:Hd; [|by left]. destruct (fails p); [by left|].
  intros [Hq|Hq]%copy_names_part; [|by right|exact IH]. destruct (decide (q = p)) as [->|Hne].
  - rewrite lookup_insert_eq in Hq. right. by rewrite Hd.
  - rewrite lookup_insert_ne in Hq by done. by left.
Qed.

(** Fuel for a tree: one more than its deepest path. *)
Definition tree_fuel (t : fs) : nat := S (max_list (map (λ kv, length kv.1) (map_to_list t))).

Lemma tree_fuel_enough (t : fs) (q : path) : is_Some (t !! q) → (length q < tree_fuel t)%nat.
Proof.
  intros [i Hi]. unfold tree_fuel. apply Nat.lt_succ_r. apply (max_list_elem_of_le). apply list_elem_of_fmap.
  exists (q, i). split; [done|]. by apply elem_of_map_to_list.
Qed.

(** A copy that does not fail is complete: every path of the tree, and no other, with the same
    content. *)
Theorem copy_exact (keep : bool) (t : fs) : tree t →
  copy_dir_recursive keep (tree_fuel t) (λ _, false) t [] ∅ = (copy_tree keep t, true).
Proof.
  intros [(r & Hr & _) Ht]. destruct (copy_dir_copies keep (tree_fuel t) t [] ∅) as (t' & -> & C); [done|by exists r| |done|].
  - intros q _ Hq. cbn. by apply tree_fuel_enough.
  - f_equal. apply map_eq. intros q. rewrite C, bool_decide_true by apply prefix_nil. unfold copy_tree. by rewrite lookup_fmap.
Qed.

(** A copy that says it is whole met no failure. *)
Lemma copy_names_whole (keep : bool) (fails : path → bool) (rec rec' : path → fs → fs * bool) (src : fs) (p : path) (names : list string) (dst d : fs) :
  (∀ q e e', rec q e = (e', true) → rec' q e = (e', true)) →
  copy_names keep fails rec src p names dst = (d, true) → copy_names keep (λ _, false) rec' src p names dst = (d, true).
Proof.
  intros Hrec. revert dst. induction names as [|n names IH]; intros dst; [done|]. cbn [copy_names].
  destruct (src !! (p ++ [n])) as [i|]; [|done]. destruct (is_dir i).
  - destruct (rec (p ++ [n]) dst) as [e [|]] eqn:E; [|done]. rewrite (Hrec _ _ _ E). apply IH.
  - destruct (fails (p ++ [n])); [done|]. apply IH.
Qed.

Lemma copy_dir_whole (keep : bool) (fuel : nat) (fails : path → bool) (src : fs) (p : path) (dst d : fs) :
  copy_dir_recursive keep fuel fails src p dst = (d, true) → copy_dir_recursive keep fuel (λ _, false) src p dst = (d, true).
Proof.
  revert p dst d. induction fuel as [|fuel IH]; intros p dst d; [done|]. cbn [copy_dir_recursive].
  destruct (src !! p) as [i|]; [|done]. destruct (fails p); [done|]. apply copy_names_whole. exact IH.
Qed.

Lemma copy_whole_exact (keep : bool) (fails : path → bool) (t d : fs) : tree t →
  copy_dir_recursive keep (tree_fuel t) fails t [] ∅ = (d, true) → d = copy_tree keep t.
Proof. intros Ht E%copy_dir_whole. rewrite copy_exact in E by done. by injection E. Qed.

Lemma tree_copy (keep : bool) (t : fs) : tree t → tree (copy_tree keep t).
Proof.
  assert (∀ p : path, dir_at t p → dir_at (copy_tree keep t) p) as Hd.
  { intros p (i & Hi & Hd). exists (copy_inode keep i). unfold copy_tree. rewrite lookup_fmap, Hi. split; [done|].
    revert Hd. unfold is_dir, copy_inode, preserve_owner, made_inode. by destruct keep, (host_uid =? 0). }
  intros [Hr Ht]. split; [by apply Hd|]. intros p n. unfold copy_tree at 1. rewrite lookup_fmap, fmap_is_Some. intros Hs. by apply Hd, (Ht p n).
Qed.

(** A tree that was copied is copied exactly. *)
Lemma drop_setid_twice m : drop_setid (drop_setid m) = drop_setid m.
Proof.
  unfold drop_setid. assert (Z.testbit (Z.ldiff m 2048) 3 = Z.testbit m 3) as H1.
  { rewrite Z.ldiff_spec. cbn. by rewrite andb_true_r. }
  assert (Z.testbit (Z.ldiff (Z.ldiff m 2048) 1024) 3 = Z.testbit m 3) as H2.
  { rewrite Z.ldiff_spec, H1. cbn. by rewrite andb_true_r. }
  assert (∀ x y, Z.ldiff (Z.ldiff x y) y = Z.ldiff x y) as H3.
  { intros x y. apply Z.bits_inj. intros n. rewrite !Z.ldiff_spec. destruct (Z.testbit x n), (Z.testbit y n); done. }
  assert (∀ x y z, Z.ldiff (Z.ldiff x y) z = Z.ldiff (Z.ldiff x z) y) as H4.
  { intros x y z. apply Z.bits_inj. intros n. rewrite !Z.ldiff_spec. destruct (Z.testbit x n), (Z.testbit y n), (Z.testbit z n); done. }
  destruct (Z.testbit m 3) eqn:E; rewrite ?H1, ?H2, ?E.
  - by rewrite (H4 _ 1024 2048), !H3.
  - apply H3.
Qed.

Lemma copy_inode_twice keep i : copy_inode keep (copy_inode keep i) = copy_inode keep i.
Proof.
  destruct keep, i as [[|c|l] m u g]; unfold copy_inode, preserve_owner, made_inode; cbn; [| | |done..];
    destruct (host_uid =? 0); cbn; rewrite ?drop_setid_twice; done.
Qed.

Lemma copy_tree_twice (keep : bool) (t : fs) : copy_tree keep (copy_tree keep t) = copy_tree keep t.
Proof. unfold copy_tree. rewrite <-map_fmap_compose. apply map_fmap_ext. intros p i _. apply copy_inode_twice. Qed.

(** What survives a copy: kinds and contents always; the owners when they are kept, as root; the
    mode of a file that has no set-ID bits. *)
Theorem copy_keeps_inode keep i :
  i_kind (copy_inode keep i) = i_kind i ∧
  (keep = true → host_uid = 0 → i_uid (copy_inode keep i) = i_uid i ∧ i_gid (copy_inode keep i) = i_gid i) ∧
  (∀ c, i_kind i = KFile c → Z.land (i_mode i) 3072 = 0 → i_mode (copy_inode keep i) = i_mode i).
Proof.
  unfold copy_inode, preserve_owner, made_inode. split_and!.
  - by destruct keep, (host_uid =? 0).
  - intros -> ->. done.
  - intros c Hk Hm. assert (drop_setid (i_mode i) = i_mode i) as Hd.
    { assert (∀ n, (n = 10 ∨ n = 11) → Z.testbit (i_mode i) n = false) as Hb.
      { intros n Hn. assert (Z.testbit (Z.land (i_mode i) 3072) n = false) as Hz by (rewrite Hm; apply Z.bits_0).
        rewrite Z.land_spec in Hz. destruct Hn as [-> | ->]; cbn in Hz; by rewrite andb_true_r in Hz. }
      assert (∀ k, (k = 10 ∨ k = 11) → Z.ldiff (i_mode i) (2 ^ k) = i_mode i) as Hl.
      { intros k Hk'. apply Z.bits_inj. intros n. rewrite Z.ldiff_spec. destruct (decide (n = k)) as [->|Hne].
        - by rewrite (Hb k Hk').
        - rewrite Z.pow2_bits_false by done. by rewrite andb_true_r. }
      unfold drop_setid. change 2048 with (2 ^ 11). change 1024 with (2 ^ 10). rewrite (Hl 11), (Hl 10) by auto. by destruct (Z.testbit _ _). }
    rewrite Hk. destruct keep, (host_uid =? 0); cbn; rewrite ?Hd; done.
Qed.

(** As root, a tree with plain modes is copied as it is. *)
Definition plain_inode (i : inode) : Prop :=
  match i_kind i with KDir => i_mode i = 493 | KLink _ => i_mode i = 511 | KFile _ => Z.land (i_mode i) 3072 = 0 end.
Lemma copy_tree_plain (t : fs) : host_uid = 0 → map_Forall (λ _, plain_inode) t → copy_tree true t = t.
Proof.
  intros Hu Ht. apply map_eq. intros p. unfold copy_tree. rewrite lookup_fmap. destruct (t !! p) as [i|] eqn:E; [|done].
  cbn [fmap option_fmap option_map]. f_equal. specialize (Ht p i E). destruct (copy_keeps_inode true i) as (Hk & Ho & Hm). destruct (Ho eq_refl Hu) as [H1 H2].
  assert (i_mode (copy_inode true i) = i_mode i) as H3.
  { unfold plain_inode in Ht. destruct (i_kind i) as [|c|l] eqn:Ek; [|by eapply Hm|];
      unfold copy_inode, preserve_owner, made_inode; rewrite Hu; cbn; by rewrite Ek, Ht. }
  revert Hk H1 H2 H3. generalize (copy_inode true i) as j. clear. intros [k m u g] Hk H1 H2 H3. destruct i. cbn in *. congruence.
Qed.
End copy.

Definition as_root : HostIds := {| host_uid := 0; host_gid := 0 |}.

(** The mode of a directory is not copied: a world-writable [/tmp] becomes writable by its owner
    alone, and a private directory readable by all. *)
Lemma directory_modes_lost keep m :
  i_mode (@copy_inode as_root keep {| i_kind := KDir; i_mode := m; i_uid := 0; i_gid := 0 |}) = 493.
Proof. by destruct keep. Qed.

(** The owner is set after the mode, which takes the set-user-ID bit from programs. *)
Lemma setuid_lost : let su := {| i_kind := KFile "su"; i_mode := 2541; i_uid := 0; i_gid := 0 |} in
  i_mode (@copy_inode as_root true su) = 493 ∧ i_mode (@copy_inode as_root false su) = 2541.
Proof. vm_compute. done. Qed.

(** Without owners every file of a snapshot becomes the process's. *)
Lemma owners_lost : let f := {| i_kind := KFile "x"; i_mode := 384; i_uid := 999; i_gid := 999 |} in
  let c := @copy_inode as_root false f in i_uid c = 0 ∧ i_gid c = 0 ∧ i_mode c = 384.
Proof. done. Qed.

(** A check that a map is a tree *)
Definition tree_b (t : fs) : bool :=
  is_dir_at t [] && forallb (λ kv, bool_decide (kv.1 = []) || is_dir_at t (List.removelast kv.1)) (map_to_list t).
Lemma tree_check (t : fs) : tree_b t = true → tree t.
Proof.
  unfold tree_b. rewrite andb_true_iff, forallb_forall. intros [Hr Hall]. split; [by apply is_dir_at_spec|].
  intros p n [i Hi]. apply is_dir_at_spec. specialize (Hall (p ++ [n], i)). cbn in Hall. rewrite removelast_last in Hall.
  rewrite bool_decide_false in Hall by (by destruct p). apply Hall, list_elem_of_In. by apply elem_of_map_to_list.
Qed.

Definition demo_source : fs := {[ [] := new_dir; ["a"] := new_dir; ["a"; "x"] := file_of "1"; ["l"] := link_to "a" ]}.
Lemma copy_exact_witness :
  @copy_dir_recursive as_root true (tree_fuel demo_source) (λ _, false) demo_source [] ∅ = (@copy_tree as_root true demo_source, true).
Proof. apply (@copy_exact as_root true). apply tree_check. vm_compute. reflexivity. Defined.
