(* ===== verification/Streaming.v ===== *)
(** * Streaming: exec, attach and port-forward sessions of the CRI server

    [cri/src/streaming.rs] (one-time session tokens, the HTTP request that redeems
    one, port-forward frames) and [cri/src/spdy.rs] (SPDY/3.1 frames, the channels
    of a remotecommand session, the relay between the client and the guest).  A
    connection is the bytes that arrive ([Pty.reader]) and the bytes written; the
    two directions of a relay are one sequence of events in the order in which the
    server handles them.  zlib and serde_json are arguments. *)

From Stdlib Require Import ZArith Lia Ascii.
From stdpp Require Import base gmap strings list numbers fin_maps.
From S2P Require Import Prelude RustStr Text Pty.

Local Open Scope string_scope.
Local Open Scope list_scope.
Local Open Scope Z_scope.

(** ** Sessions *)

Inductive SessionKind := SExec | SAttach | SPortForward.

#[export] Instance session_kind_eq_dec : EqDecision SessionKind.
Proof. solve_decision. Defined.

Definition path_segment (k : SessionKind) : string :=
  match k with SExec => "exec" | SAttach => "attach" | SPortForward => "portforward" end.

Record StreamingSession := {
  ss_kind : SessionKind; ss_sandbox_id : string; ss_cmd : list string; ss_tty : bool; ss_stdin : bool;
  ss_stdin_once : bool; ss_stdout : bool; ss_stderr : bool; ss_ports : list Z; ss_attachable : bool;
  ss_port_forward_socket : string }.

Record PendingSession := { ps_session : StreamingSession; ps_expires_at : Z }.
Abbreviation sessions := (gmap string PendingSession).

Definition DEFAULT_STREAMING_SESSION_TTL : Z := from_secs 60.

Definition is_expired (now : Z) (p : PendingSession) : bool := ps_expires_at p <=? now.

Definition prune_expired_sessions (now : Z) (m : sessions) : sessions :=
  filter (λ kv, is_expired now kv.2 = false) m.

(** [StreamingHandle::register], with the token the generator gave. *)
Definition register_session (now : Z) (token : string) (s : StreamingSession) (m : sessions) : sessions :=
  <[token := {| ps_session := s; ps_expires_at := now + DEFAULT_STREAMING_SESSION_TTL |}]>
    (prune_expired_sessions now m).

Definition session_url (addr token : string) (s : StreamingSession) : string :=
  "http://" +:+ addr +:+ "/" +:+ path_segment (ss_kind s) +:+ "/" +:+ token.

(** ** The request *)

Definition crlf : string := String "013" (String "010" "").
Definition head_end : string := crlf +:+ crlf.
Definition MAX_HEAD : nat := (16 * 1024)%nat.

(** Bytes are read one at a time up to the end of the head; the rest stays. *)
Fixpoint read_head (fuel : nat) (acc : string) (s : string) : string * string :=
  match s, fuel with
  | String c s, S fuel =>
      let acc := acc +:+ String c "" in
      if ends_with head_end acc then (acc, s) else read_head fuel acc s
  | _, _ => (acc, s)
  end.
(** The loop stops once more than [MAX_HEAD] bytes are read. *)
Definition read_request (s : string) : string * string := read_head (S MAX_HEAD) "" s.

Fixpoint str_contains (p s : string) : bool :=
  starts_with p s || match s with "" => false | String _ s => str_contains p s end.

Inductive route :=
  | Respond (status : Z) (body : string)
  | Serve (s : StreamingSession) (spdy : bool).

(** The kind and the token a request names, or the response that refuses it *)
Definition request_target (request : string) : result (Z * string) (string * string) :=
  match split_whitespace (default "" (head (lines request))) with
  | _ :: path :: _ =>
      match split "/" (trim_start_char "/" path) with
      | [kind; token] => Ok (kind, token)
      | _ => Err (404, "Not Found")
      end
  | _ => Err (400, "Bad Request")
  end.

(** [handle_connection]: which session the request redeems. *)
Definition handle_connection (now : Z) (request : string) (m : sessions) : sessions * route :=
  let spdy := str_contains "upgrade: spdy" (lowercase request) in
  match request_target request with
  | Err (status, body) => (m, Respond status body)
  | Ok (kind, token) =>
      let m := prune_expired_sessions now m in
      match m !! token with
      | Some p =>
          if bool_decide (path_segment (ss_kind (ps_session p)) = kind)
          then (delete token m, Serve (ps_session p) spdy)
          else (m, Respond 404 "Session kind mismatch")
      | None => (m, Respond 404 "Session not found or expired")
      end
  end.

(** [send_response] *)
Definition status_text (status : Z) : string :=
  if status =? 200 then "OK" else if status =? 400 then "Bad Request" else if status =? 404 then "Not Found"
  else if status =? 501 then "Not Implemented" else if status =? 502 then "Bad Gateway" else "Error".

Definition send_response (status : Z) (body : string) : string :=
  "HTTP/1.1 " +:+ show_uint status +:+ " " +:+ status_text status +:+ crlf +:+ "Content-Type: text/plain" +:+ crlf
  +:+ "Content-Length: " +:+ show_uint (Z.of_nat (String.length body)) +:+ crlf +:+ "Connection: close" +:+ head_end +:+ body.

(** ** SPDY frames *)

Inductive Frame :=
  | SynStream (stream_id : Z)
  | DataFrame (stream_id : Z) (fin : bool) (data : list Z)
  | Ping (id : Z)
  | Ignored.

#[export] Instance frame_eq_dec : EqDecision Frame.
Proof. solve_decision. Defined.

Definition FLAG_FIN : Z := 1.

(** The length of a frame, 24 bits of it *)
Definition len24 (n : Z) : list Z := [Z.shiftr n 16 mod 256; Z.shiftr n 8 mod 256; n mod 256].

Definition data_frame (stream_id : Z) (fin : bool) (payload : list Z) : list Z :=
  to_be_bytes (Z.land stream_id (2 ^ 31 - 1)) ++ [if fin then FLAG_FIN else 0]
  ++ len24 (wrap 32 (Z.of_nat (length payload))) ++ payload.

Definition ping_frame (id : Z) : list Z := [128; 3; 0; 6; 0; 0; 0; 4] ++ to_be_bytes id.

(** [compress] stands for the deflated form of an empty header block. *)
Definition syn_reply_frame (header_block : list Z) (stream_id : Z) : list Z :=
  let data := to_be_bytes (Z.land stream_id (2 ^ 31 - 1)) ++ header_block in
  [128; 3; 0; 2; 0] ++ len24 (wrap 32 (Z.of_nat (length data))) ++ data.

Definition decode_frame (h0 h1 h2 h3 flags : Z) (data : list Z) : Frame :=
  if Z.testbit h0 7 then
    let frame_type := h2 * 256 + h3 in
    match data with
    | d0 :: d1 :: d2 :: d3 :: _ =>
        if frame_type =? 1 then SynStream (from_be_bytes (Z.land d0 127) d1 d2 d3)
        else if frame_type =? 6 then Ping (from_be_bytes d0 d1 d2 d3)
        else Ignored
    | _ => Ignored
    end
  else DataFrame (from_be_bytes (Z.land h0 127) h1 h2 h3) (Z.testbit flags 0) data.

Definition read_spdy_frame (r : reader) : reader * result io_error (option Frame) :=
  match read_exact r 8 with
  | (r, Err UnexpectedEof) => (r, Ok None)
  | (r, Err e) => (r, Err e)
  | (r, Ok [h0; h1; h2; h3; flags; l0; l1; l2]) =>
      let len := Z.lor (Z.shiftl l0 16) (Z.lor (Z.shiftl l1 8) l2) in
      if 0 <? len then
        match read_exact r (Z.to_nat len) with
        | (r, Ok data) => (r, Ok (Some (decode_frame h0 h1 h2 h3 flags data)))
        | (r, Err e) => (r, Err e)
        end
      else (r, Ok (Some (decode_frame h0 h1 h2 h3 flags [])))
  | (r, Ok _) => (r, Ok None)
  end.

(** The frames of a connection, until it ends. *)
Fixpoint read_spdy_frames (fuel : nat) (r : reader) : list Frame :=
  match fuel with
  | O => []
  | S fuel =>
      match read_spdy_frame r with
      | (r, Ok (Some f)) => f :: read_spdy_frames fuel r
      | _ => []
      end
  end.
Definition received (bytes : list Z) : list Frame :=
  read_spdy_frames (S (length bytes)) {| incoming := bytes; ending := None |}.

(** ** Channels *)

Inductive Channel := ChError | ChStdin | ChStdout | ChStderr | ChResize.

#[export] Instance channel_eq_dec : EqDecision Channel.
Proof. solve_decision. Defined.

Definition expected_channels (s : StreamingSession) : list Channel :=
  [ChError] ++ (if ss_stdin s then [ChStdin] else []) ++ (if ss_stdout s then [ChStdout] else [])
  ++ (if ss_stderr s && negb (ss_tty s) then [ChStderr] else []) ++ (if ss_tty s then [ChResize] else []).

(** The map from channels to stream ids, as an association list. *)
Definition channel_id (ids : list (Channel * Z)) (c : Channel) : option Z :=
  snd <$> List.find (λ p, bool_decide (p.1 = c)) ids.

(** [collect_streams] on the client's frames: the ids, what is written, the frames left. *)
Fixpoint collect_streams (header_block : nat → list Z) (expected : list Channel) (opened : nat) (frames : list Frame)
    : list (Channel * Z) * list Z * list Frame :=
  match expected with
  | [] => ([], [], frames)
  | c :: expected' =>
      (fix go (frames : list Frame) : list (Channel * Z) * list Z * list Frame :=
         match frames with
         | [] => ([], [], [])
         | SynStream id :: frames =>
             let '(ids, out, rest) := collect_streams header_block expected' (S opened) frames in
             ((c, id) :: ids, syn_reply_frame (header_block opened) id ++ out, rest)
         | Ping id :: frames => let '(ids, out, rest) := go frames in (ids, ping_frame id ++ out, rest)
         | DataFrame _ _ _ :: frames | Ignored :: frames => go frames
         end) frames
  end.

(** ** Guest events and the exec relay *)

Inductive StreamType := Stdout | Stderr.

#[export] Instance stream_type_eq_dec : EqDecision StreamType.
Proof. solve_decision. Defined.

Inductive ExecEvent :=
  | Chunk (stream : StreamType) (data : list Z)
  | FlushAck
  | Exit (exit_code : Z) (oom_killed : bool).

(** What is done with the input of the guest's process *)
Inductive stdin_op := WriteStdin (data : list Z) | CloseStdin | CancelExec.

(** What the two sides of a relay deliver, in the order in which it is handled *)
Inductive relay_event (C E : Type) :=
  | FromClient (f : C)
  | ClientGone
  | FromGuest (e : E)
  | GuestGone.
Arguments FromClient {C E} f.
Arguments ClientGone {C E}.
Arguments FromGuest {C E} e.
Arguments GuestGone {C E}.

Record relay (G : Type) := { to_client : list Z; to_guest : list G; in_closed : bool; live : bool }.
Arguments to_client {G} _.
Arguments to_guest {G} _.
Arguments in_closed {G} _.
Arguments live {G} _.
Arguments Build_relay {G} _ _ _ _.

Definition relay_start (G : Type) : relay G := {| to_client := []; to_guest := []; in_closed := false; live := true |}.
Definition send {G} (bs : list Z) (r : relay G) : relay G :=
  {| to_client := to_client r ++ bs; to_guest := to_guest r; in_closed := in_closed r; live := live r |}.
Definition tell {G} (ops : list G) (r : relay G) : relay G :=
  {| to_client := to_client r; to_guest := to_guest r ++ ops; in_closed := in_closed r; live := live r |}.
Definition mark_closed {G} (r : relay G) : relay G :=
  {| to_client := to_client r; to_guest := to_guest r; in_closed := true; live := live r |}.
Definition finish {G} (r : relay G) : relay G :=
  {| to_client := to_client r; to_guest := to_guest r; in_closed := in_closed r; live := false |}.

(** The relay runs until one of its two tasks ends. *)
Definition relay_run {G C E} (step : relay G → relay_event C E → relay G) (r : relay G) (evs : list (relay_event C E)) : relay G :=
  foldl (λ r ev, if live r then step r ev else r) r evs.

(** [exit_status_payload]; [status_json] is serde's text of the [Status] object. *)
Definition exit_status_payload (status_json : Z → list Z) (exit_code : Z) : option (list Z) :=
  if exit_code =? 0 then None else Some (status_json exit_code).

(** The stream a chunk goes to *)
Definition chunk_target (ids : list (Channel * Z)) (s : StreamType) : option Z :=
  match s with Stdout => channel_id ids ChStdout | Stderr => channel_id ids ChStderr end.

Definition send_chunk {G} (ids : list (Channel * Z)) (s : StreamType) (data : list Z) (r : relay G) : relay G :=
  match chunk_target ids s with Some id => send (data_frame id false data) r | None => r end.

Definition send_fin {G} (id : option Z) (r : relay G) : relay G :=
  match id with Some id => send (data_frame id true []) r | None => r end.

(** The end of [serve_exec]'s writer task *)
Definition send_exit {G} (status_json : Z → list Z) (ids : list (Channel * Z)) (exit_code : Z) (r : relay G) : relay G :=
  let r := match channel_id ids ChError with
           | Some id =>
               let r := match exit_status_payload status_json exit_code with
                        | Some body => send (data_frame id false body) r
                        | None => r
                        end in
               send (data_frame id true []) r
           | None => r
           end in
  finish (send_fin (channel_id ids ChStderr) (send_fin (channel_id ids ChStdout) r)).

(** [serve_exec]: the client's frames to the guest's input, the guest's events back *)
Definition exec_step (status_json : Z → list Z) (ids : list (Channel * Z)) (r : relay stdin_op)
    (ev : relay_event Frame ExecEvent) : relay stdin_op :=
  match ev with
  | FromClient (DataFrame id fin data) =>
      if bool_decide (Some id = channel_id ids ChStdin) then
        let r := if bool_decide (data = []) then r else tell [WriteStdin data] r in
        if fin && negb (in_closed r) then tell [CloseStdin] (mark_closed r) else r
      else r
  | FromClient (Ping id) => send (ping_frame id) r
  | FromClient (SynStream _) | FromClient Ignored => r
  | ClientGone => finish (if in_closed r then r else tell [CloseStdin] r)
  | FromGuest (Chunk s data) => send_chunk ids s data r
  | FromGuest (Exit code _) => send_exit status_json ids code r
  | FromGuest FlushAck => r
  | GuestGone => send_exit status_json ids 0 r
  end.

(** The bytes of a text *)
Fixpoint bytes_of (s : string) : list Z :=
  match s with "" => [] | String c s => code c :: bytes_of s end.

Definition UPGRADE_RESPONSE : string :=
  "HTTP/1.1 101 Switching Protocols" +:+ crlf +:+ "Connection: Upgrade" +:+ crlf +:+ "Upgrade: SPDY/3.1" +:+ crlf
  +:+ "X-Stream-Protocol-Version: v4.channel.k8s.io" +:+ head_end.

(** [serve_exec] without a terminal, once the guest has accepted the request: what the
    client receives and what the guest's process is given *)
Definition serve_exec (header_block : nat → list Z) (status_json : Z → list Z) (s : StreamingSession)
    (opening : list Frame) (evs : list (relay_event Frame ExecEvent)) : list Z * list stdin_op :=
  let '(ids, replies, pending) := collect_streams header_block (expected_channels s) 0 opening in
  let r := relay_run (exec_step status_json ids) (relay_start stdin_op) (map FromClient pending ++ evs) in
  (bytes_of UPGRADE_RESPONSE ++ replies ++ to_client r, to_guest r).

(** ** Attach *)

Inductive recv := Got (e : ExecEvent) | Lagged.

(** [serve_attach]: the broadcast output of the running container; [has_stdin] when an
    input of it is registered *)
Definition attach_step (has_stdin stdin_once : bool) (ids : list (Channel * Z)) (r : relay stdin_op)
    (ev : relay_event Frame recv) : relay stdin_op :=
  let ending := finish (send_fin (channel_id ids ChStderr)
                          (send_fin (channel_id ids ChStdout) (send_fin (channel_id ids ChError) r))) in
  match ev with
  | FromClient (DataFrame id fin data) =>
      if bool_decide (Some id = channel_id ids ChStdin) then
        let r := if bool_decide (data = []) then r else if has_stdin then tell [WriteStdin data] r else r in
        if fin && negb (in_closed r)
        then let r := mark_closed r in if stdin_once && has_stdin then tell [CloseStdin] r else r
        else r
      else r
  | FromClient (Ping id) => send (ping_frame id) r
  | FromClient (SynStream _) | FromClient Ignored => r
  | ClientGone => finish r
  | FromGuest (Got (Chunk s data)) => send_chunk ids s data r
  | FromGuest (Got FlushAck) | FromGuest Lagged => r
  | FromGuest (Got (Exit _ _)) | GuestGone => ending
  end.

(** ** TTY exec *)

(** What [serve_exec_tty] writes to the guest's terminal: frames of [pty.rs]; the resize
    message is serde's. *)
Definition tty_step (parse_size : list Z → option (Z * Z)) (resize_json : Z → Z → list Z) (ids : list (Channel * Z))
    (r : relay Z) (ev : relay_event Frame (Z * list Z)) : relay Z :=
  match ev with
  | FromClient (DataFrame id _ data) =>
      if bool_decide (Some id = channel_id ids ChStdin) && negb (bool_decide (data = []))
      then tell (write_frame [] FRAME_PTY_DATA data) r
      else if bool_decide (Some id = channel_id ids ChResize) && negb (bool_decide (data = []))
      then match parse_size data with
           | Some (w, h) => tell (write_frame [] FRAME_PTY_RESIZE (resize_json w h)) r
           | None => r
           end
      else r
  | FromClient _ => r
  | ClientGone => finish r
  | FromGuest (ty, payload) =>
      if ty =? FRAME_PTY_DATA then
        match channel_id ids ChStdout with Some id => send (data_frame id false payload) r | None => r end
      else if ty =? FRAME_PTY_EXIT
      then finish (send_fin (channel_id ids ChStdout) (send_fin (channel_id ids ChError) r))
      else r
  | GuestGone => finish (send_fin (channel_id ids ChStdout) (send_fin (channel_id ids ChError) r))
  end.

(** ** Sessions of callers that do not upgrade to SPDY *)

(** [handle_exec_stdin_stream]: bytes read from the connection or an error of it, an event
    of the guest or an error of its channel *)
Definition plain_exec_step (stdout stderr : bool) (r : relay stdin_op)
    (ev : relay_event (result unit (list Z)) (result unit ExecEvent)) : relay stdin_op :=
  let ending := finish (if in_closed r then r else tell [CloseStdin] r) in
  match ev with
  | FromClient (Ok data) => if in_closed r then r else tell [WriteStdin data] r
  | FromClient (Err _) => if in_closed r then r else finish (tell [CancelExec] r)
  | ClientGone => if in_closed r then r else tell [CloseStdin] (mark_closed r)
  | FromGuest (Ok (Chunk Stdout data)) => if stdout then send data r else r
  | FromGuest (Ok (Chunk Stderr data)) => if stderr then send data r else r
  | FromGuest (Ok FlushAck) => r
  | FromGuest (Ok (Exit _ _)) => ending
  | FromGuest (Err _) => finish (tell [CancelExec] r)
  | GuestGone => ending
  end.

(** [handle_attach_stream], once the workload's output is subscribed to; [in_closed] is
    [true] from the start without stdin. *)
Definition plain_attach_step (s : StreamingSession) (has_stdin : bool) (r : relay stdin_op)
    (ev : relay_event (result unit (list Z)) recv) : relay stdin_op :=
  let ending := finish (if ss_stdin s && ss_stdin_once s && negb (in_closed r) && has_stdin
                        then tell [CloseStdin] r else r) in
  match ev with
  | FromClient (Ok data) => if in_closed r then r else if has_stdin then tell [WriteStdin data] r else r
  | FromClient (Err _) => if in_closed r then r else finish r
  | ClientGone =>
      if in_closed r then r else
      let r := mark_closed r in
      let r := if ss_stdin_once s && has_stdin then tell [CloseStdin] r else r in
      if ss_stdout s || ss_stderr s then r else finish r
  | FromGuest (Got (Chunk Stdout data)) => if ss_stdout s then send data r else r
  | FromGuest (Got (Chunk Stderr data)) => if ss_stderr s then send data r else r
  | FromGuest (Got FlushAck) | FromGuest Lagged => r
  | FromGuest (Got (Exit _ _)) | GuestGone => ending
  end.

(** The answers of [handle_attach_stream] before it upgrades *)
Definition plain_attach_refusal (s : StreamingSession) (has_stdin : bool) : option (Z * string) :=
  if ss_stdin s && negb has_stdin then
    Some (501, "Attach stdin is not available for this container: no running workload stdin is registered.")
  else if negb (ss_attachable s) then
    Some (501, "Attach is not available for this container: no running workload stream is registered.")
  else None.

(** [handle_pty_stream] after its request: bytes are wrapped as terminal data; an exit
    frame is not forwarded and does not end the session. *)
Definition plain_pty_step (r : relay Z) (ev : relay_event (list Z) (Z * list Z)) : relay Z :=
  match ev with
  | FromClient data => tell (write_frame [] FRAME_PTY_DATA data) r
  | ClientGone | GuestGone => finish r
  | FromGuest (ty, payload) => if ty =? FRAME_PTY_DATA then send payload r else r
  end.

(** ** Port forwarding *)

Definition PORT_FORWARD_STREAM_ID : Z := 1.
Definition PORT_FORWARD_FRAME_OPEN : Z := 1.
Definition PORT_FORWARD_FRAME_OPEN_ACK : Z := 2.
Definition PORT_FORWARD_FRAME_DATA : Z := 3.
Definition PORT_FORWARD_FRAME_CLOSE : Z := 4.

Record PortForwardFrame := { pf_kind : Z; pf_stream : Z; pf_payload : list Z }.

Definition write_port_forward_frame (frame_type stream_id : Z) (payload : list Z) : list Z :=
  [frame_type] ++ to_be_bytes stream_id ++ to_be_bytes (wrap 32 (Z.of_nat (length payload))) ++ payload.

Definition read_port_forward_frame (r : reader) : reader * result io_error (option PortForwardFrame) :=
  match read_exact r 9 with
  | (r, Err UnexpectedEof) => (r, Ok None)
  | (r, Err e) => (r, Err e)
  | (r, Ok [k; i0; i1; i2; i3; l0; l1; l2; l3]) =>
      let len := from_be_bytes l0 l1 l2 l3 in
      let frame payload := {| pf_kind := k; pf_stream := from_be_bytes i0 i1 i2 i3; pf_payload := payload |} in
      if 0 <? len then
        match read_exact r (Z.to_nat len) with
        | (r, Ok payload) => (r, Ok (Some (frame payload)))
        | (r, Err e) => (r, Err e)
        end
      else (r, Ok (Some (frame [])))
  | (r, Ok _) => (r, Ok None)
  end.

(** The guest's answer to [OPEN] *)
Definition open_ok (ack : option PortForwardFrame) : bool :=
  match ack with
  | Some f => (pf_kind f =? PORT_FORWARD_FRAME_OPEN_ACK) && (pf_stream f =? PORT_FORWARD_STREAM_ID)
              && (default 1 (head (pf_payload f)) =? 0)
  | None => false
  end.

Definition pf_data (data : list Z) : list Z := write_port_forward_frame PORT_FORWARD_FRAME_DATA PORT_FORWARD_STREAM_ID data.
Definition pf_close : list Z := write_port_forward_frame PORT_FORWARD_FRAME_CLOSE PORT_FORWARD_STREAM_ID [].

(** What [serve_port_forward] and [handle_port_forward_stream] check before anything is sent *)
Inductive pf_plan := PfRefuse (status : Z) (body : string) | PfOpen (port : Z).

Definition PORT_FORWARD_MULTI_PORT_MESSAGE : string :=
  "PortForward currently supports exactly one port per streaming session.".
Definition PORT_FORWARD_UNAVAILABLE_MESSAGE : string :=
  "PortForward is not available for this sandbox: no guest port-forward control channel is configured.".
Definition PORT_FORWARD_INVALID_PORT_MESSAGE : string := "PortForward requested an invalid guest port.".

(** [u16::try_from] of an [i32] *)
Definition u16_of (p : Z) : option Z := if (0 <=? p) && (p <? 2 ^ 16) then Some p else None.

Definition plan_spdy (s : StreamingSession) : pf_plan :=
  match head (ss_ports s) ≫= u16_of with
  | None => PfRefuse 400 ""
  | Some port => if bool_decide (ss_port_forward_socket s = "") then PfRefuse 501 "" else PfOpen port
  end.

Definition plan_plain (s : StreamingSession) : pf_plan :=
  match ss_ports s with
  | [] => PfRefuse 400 "No ports specified"
  | [p] =>
      if bool_decide (ss_port_forward_socket s = "") then PfRefuse 501 PORT_FORWARD_UNAVAILABLE_MESSAGE
      else match u16_of p with
           | Some port => PfOpen port
           | None => PfRefuse 400 PORT_FORWARD_INVALID_PORT_MESSAGE
           end
  | _ => PfRefuse 400 PORT_FORWARD_MULTI_PORT_MESSAGE
  end.

(** [serve_port_forward] once the guest has answered: after the client's side has closed
    only the guest's frames are handled. *)
Definition port_forward_step (data_id : Z) (r : relay Z) (ev : relay_event Frame PortForwardFrame) : relay Z :=
  match ev with
  | FromClient f =>
      if in_closed r then r else
      match f with
      | DataFrame id fin data =>
          if id =? data_id then
            let r := if bool_decide (data = []) then r else tell (pf_data data) r in
            if fin then mark_closed (tell pf_close r) else r
          else r
      | Ping id => send (ping_frame id) r
      | SynStream _ | Ignored => r
      end
  | ClientGone => if in_closed r then r else mark_closed (tell pf_close r)
  | FromGuest f =>
      if pf_stream f =? PORT_FORWARD_STREAM_ID then
        if pf_kind f =? PORT_FORWARD_FRAME_DATA then send (data_frame data_id false (pf_payload f)) r
        else if pf_kind f =? PORT_FORWARD_FRAME_CLOSE then finish (send (data_frame data_id true []) r)
        else r
      else r
  | GuestGone => finish r
  end.

(** The relay of [handle_port_forward_stream], on the bare connection; an empty read is
    its end. *)
Definition plain_forward_step (r : relay Z) (ev : relay_event (list Z) PortForwardFrame) : relay Z :=
  match ev with
  | FromClient input => if in_closed r then r else tell (pf_data input) r
  | ClientGone => if in_closed r then r else mark_closed (tell pf_close r)
  | FromGuest f =>
      if pf_stream f =? PORT_FORWARD_STREAM_ID then
        if pf_kind f =? PORT_FORWARD_FRAME_DATA then send (pf_payload f) r
        else if pf_kind f =? PORT_FORWARD_FRAME_CLOSE then finish r
        else r
      else r
  | GuestGone => finish r
  end.

(** The two streams of [serve_port_forward], error and then data: [None] when the
    connection ends first; what is written, the frames left *)
Fixpoint pf_streams (header_block : nat → list Z) (ids : list Z) (frames : list Frame) : option (list Z) * list Z * list Frame :=
  if (length ids <? 2)%nat then
    match frames with
    | [] => (None, [], [])
    | SynStream id :: frames =>
        let '(r, out, rest) := pf_streams header_block (ids ++ [id]) frames in
        (r, syn_reply_frame (header_block (length ids)) id ++ out, rest)
    | Ping id :: frames =>
        let '(r, out, rest) := pf_streams header_block ids frames in (r, ping_frame id ++ out, rest)
    | DataFrame _ _ _ :: frames | Ignored :: frames => pf_streams header_block ids frames
    end
  else (Some ids, [], frames).

Definition UPGRADE_RESPONSE_PORTFORWARD : string :=
  "HTTP/1.1 101 Switching Protocols" +:+ crlf +:+ "Connection: Upgrade" +:+ crlf +:+ "Upgrade: SPDY/3.1" +:+ crlf
  +:+ "X-Stream-Protocol-Version: portforward.k8s.io" +:+ head_end.

Definition pf_open (port : Z) : list Z :=
  write_port_forward_frame PORT_FORWARD_FRAME_OPEN PORT_FORWARD_STREAM_ID [Z.shiftr port 8 mod 256; port mod 256].

Definition bare_status (status : Z) : string :=
  "HTTP/1.1 " +:+ show_uint status +:+ " " +:+ status_text status +:+ crlf +:+ "Content-Length: 0" +:+ head_end.

(** [serve_port_forward]: whether the control socket accepts and how it answers [OPEN] are
    given; the result is what the client and the guest receive. *)
Definition serve_port_forward (header_block : nat → list Z) (s : StreamingSession) (opening : list Frame)
    (connects : bool) (ack : option PortForwardFrame) (evs : list (relay_event Frame PortForwardFrame)) : list Z * list Z :=
  match plan_spdy s with
  | PfRefuse status _ => (bytes_of (bare_status status), [])
  | PfOpen port =>
      let head := bytes_of UPGRADE_RESPONSE_PORTFORWARD in
      match pf_streams header_block [] opening with
      | (Some (_ :: data_id :: _), replies, pending) =>
          if negb connects then (head ++ replies, [])
          else if negb (open_ok ack) then (head ++ replies, pf_open port)
          else
            let r := relay_run (port_forward_step data_id) (relay_start Z) (map FromClient pending ++ evs) in
            (head ++ replies ++ to_client r, pf_open port ++ to_guest r)
      | (_, replies, _) => (head ++ replies, [])
      end
  end.

Definition PORT_FORWARD_CONNECT_FAILED_MESSAGE : string := "Failed to connect to the guest port-forward control channel.".
Definition PORT_FORWARD_OPEN_FAILED_MESSAGE : string := "Failed to open the requested guest port.".
Definition plain_upgrade : string :=
  "HTTP/1.1 101 Switching Protocols" +:+ crlf +:+ "Connection: Upgrade" +:+ crlf +:+ "Upgrade: SPDY/3.1" +:+ head_end.

(** [handle_port_forward_stream] *)
Definition handle_port_forward_stream (s : StreamingSession) (connects : bool) (ack : option PortForwardFrame)
    (evs : list (relay_event (list Z) PortForwardFrame)) : list Z * list Z :=
  match plan_plain s with
  | PfRefuse status body => (bytes_of (send_response status body), [])
  | PfOpen port =>
      if negb connects then (bytes_of (send_response 502 PORT_FORWARD_CONNECT_FAILED_MESSAGE), [])
      else if negb (open_ok ack) then (bytes_of (send_response 502 PORT_FORWARD_OPEN_FAILED_MESSAGE), pf_open port)
      else
        let r := relay_run plain_forward_step (relay_start Z) evs in
        (bytes_of plain_upgrade ++ to_client r, pf_open port ++ to_guest r)
  end.

(** ** Frames on the wire *)

Lemma land_high_low a b k : 0 ≤ b < 2 ^ k → 0 ≤ k → Z.land (a * 2 ^ k) b = 0.
Proof.
  intros Hb Hk. apply Z.bits_inj'. intros i Hi. rewrite Z.land_spec, Z.bits_0.
  destruct (Z.ltb_spec i k) as [Hlt|Hge]; [by rewrite Z.mul_pow2_bits_low|].
  destruct (decide (b = 0)) as [->|Hb0]; [by rewrite Z.bits_0, andb_false_r|].
  rewrite (Z.bits_above_log2 b i), andb_false_r; [done|lia|].
  enough (Z.log2 b < k) by lia. apply Z.log2_lt_pow2; lia.
Qed.

Lemma lor_bytes a b k : 0 ≤ b < 2 ^ k → 0 ≤ k → Z.lor (Z.shiftl a k) b = a * 2 ^ k + b.
Proof.
  intros Hb Hk. rewrite Z.shiftl_mul_pow2 by done. rewrite <-Z.add_lor_land.
  rewrite (land_high_low a b k) by done. lia.
Qed.

(** A length below [2 ^ 24] is read back. *)
Lemma len24_roundtrip n : 0 ≤ n < 2 ^ 24 →
  match len24 n with
  | [a; b; c] => Z.lor (Z.shiftl a 16) (Z.lor (Z.shiftl b 8) c) = n
  | _ => False
  end.
Proof.
  intros Hn. unfold len24. rewrite !Z.shiftr_div_pow2 by lia.
  change (2 ^ 24) with 16777216 in Hn. change (2 ^ 16) with 65536. change (2 ^ 8) with 256.
  pose proof (Z.mod_pos_bound n 256). pose proof (Z.mod_pos_bound (n / 256) 256).
  rewrite (lor_bytes _ (n mod 256) 8) by lia.
  change (2 ^ 8) with 256. rewrite lor_bytes by (change (2 ^ 16) with 65536; lia).
  change (2 ^ 16) with 65536. Z.to_euclidean_division_equations. lia.
Qed.

(** The bytes the server writes for a frame *)
Definition encode_frame (f : Frame) : list Z :=
  match f with
  | DataFrame id fin data => data_frame id fin data
  | Ping id => ping_frame id
  | SynStream _ | Ignored => []
  end.

(** The frames whose bytes are read back *)
Definition sendable (f : Frame) : Prop :=
  match f with
  | DataFrame id _ data => 0 ≤ id < 2 ^ 31 ∧ Z.of_nat (length data) < 2 ^ 24
  | Ping id => in_range 32 id
  | SynStream _ | Ignored => False
  end.

Lemma read_encoded f rest e : sendable f →
  read_spdy_frame {| incoming := encode_frame f ++ rest; ending := e |} =
    ({| incoming := rest; ending := e |}, Ok (Some f)).
Proof.
  destruct f as [id|id fin data|id|]; intros Hf; cbn [sendable] in Hf; try done.
  - destruct Hf as [Hid Hlen]. set (n := Z.of_nat (length data)) in *.
    unfold encode_frame, data_frame. fold n.
    assert (Z.land id (2 ^ 31 - 1) = id) as ->.
    { replace (2 ^ 31 - 1) with (Z.ones 31) by done. rewrite Z.land_ones by lia. by apply Z.mod_small. }
    rewrite wrap_small by (unfold in_range, n; lia).
    assert (0 ≤ n < 2 ^ 24) as Hn by (unfold n; lia).
    pose proof (len24_roundtrip n Hn) as H24. pose proof (be_bytes_roundtrip id) as H32.
    specialize (H32 ltac:(unfold in_range; lia)).
    unfold to_be_bytes, len24 in *. unfold read_spdy_frame.
    match type of H32 with from_be_bytes ?h0 ?h1 ?h2 ?h3 = _ =>
      match type of H24 with Z.lor (Z.shiftl ?l0 _) (Z.lor (Z.shiftl ?l1 _) ?l2) = _ =>
        change (([h0; h1; h2; h3] ++ [if fin then FLAG_FIN else 0] ++ [l0; l1; l2] ++ data) ++ rest)
          with ([h0; h1; h2; h3; if fin then FLAG_FIN else 0; l0; l1; l2] ++ (data ++ rest));
        assert (0 ≤ h0 < 128) as Hh0 by (rewrite Z.shiftr_div_pow2 by lia;
          change (2 ^ 31) with 2147483648 in Hid; change (2 ^ 24) with 16777216;
          Z.to_euclidean_division_equations; lia) end end.
    rewrite read_exact_app by done. rewrite H24.
    assert (∀ d, decode_frame (Z.shiftr id 24 mod 256) (Z.shiftr id 16 mod 256) (Z.shiftr id 8 mod 256) (id mod 256)
      (if fin then FLAG_FIN else 0) d = DataFrame id fin d) as Hdec.
    { intros d. unfold decode_frame.
      rewrite (Z.bits_above_log2 _ 7); [|lia|].
      - rewrite (Z.land_ones _ 7) by lia. rewrite (Z.mod_small _ (2 ^ 7)) by done. rewrite H32. by destruct fin.
      - destruct (decide (Z.shiftr id 24 mod 256 = 0)) as [->|]; [done|].
        apply Z.log2_lt_pow2; [lia|]. change (2 ^ 7) with 128. lia. }
    destruct (Z.ltb_spec 0 n) as [Hpos|Hz].
    + rewrite read_exact_app by (unfold n; lia). by rewrite Hdec.
    + rewrite Hdec. unfold n in Hz. by destruct data.
  - unfold encode_frame, ping_frame, read_spdy_frame.
    rewrite <-app_assoc, read_exact_app by done. cbn -[read_exact to_be_bytes decode_frame].
    pose proof (be_bytes_roundtrip id Hf) as H32. unfold to_be_bytes in *.
    rewrite read_exact_app by done. unfold decode_frame. by rewrite H32.
Qed.

Lemma read_all_encoded fs e fuel : Forall sendable fs → (length fs < fuel)%nat →
  read_spdy_frames fuel {| incoming := concat (map encode_frame fs); ending := e |} = fs.
Proof.
  intros Hfs. revert fuel. induction Hfs as [|f fs Hf _ IH]; intros fuel Hfuel.
  - destruct fuel as [|fuel]; [done|]. cbn. unfold read_spdy_frame, read_exact. cbn. by destruct e.
  - destruct fuel as [|fuel]; [cbn in Hfuel; lia|]. cbn [map concat read_spdy_frames].
    rewrite read_encoded by done. f_equal. apply IH. cbn in Hfuel. lia.
Qed.

Lemma encode_nonempty f : sendable f → (0 < length (encode_frame f))%nat.
Proof. destruct f; cbn; [done| | |done]; intros _; rewrite ?length_app; cbn; lia. Qed.

Lemma received_encoded fs : Forall sendable fs → received (concat (map encode_frame fs)) = fs.
Proof.
  intros Hfs. unfold received. apply read_all_encoded; [done|].
  enough (length fs ≤ length (concat (map encode_frame fs)))%nat by lia.
  induction Hfs as [|f fs Hf _ IH]; cbn [map concat]; [done|].
  rewrite length_app. pose proof (encode_nonempty f Hf). cbn. lia.
Qed.

(** ** What a relay writes *)

Lemma relay_run_app {G C E} (step : relay G → relay_event C E → relay G) r a b :
  relay_run step r (a ++ b) = relay_run step (relay_run step r a) b.
Proof. apply foldl_app. Qed.

Lemma relay_run_one {G C E} (step : relay G → relay_event C E → relay G) r ev :
  live r = true → relay_run step r [ev] = step r ev.
Proof. intros Hl. cbn. by rewrite Hl. Qed.

(** The frames an exec relay sends before the exit, in the order of the events *)
Definition relayed (ids : list (Channel * Z)) (ev : relay_event Frame ExecEvent) : list Frame :=
  match ev with
  | FromClient (Ping id) => [Ping id]
  | FromGuest (Chunk s data) =>
      match chunk_target ids s with Some id => [DataFrame id false data] | None => [] end
  | _ => []
  end.

(** What the client sent on a stream *)
Definition sent_on (id : option Z) (ev : relay_event Frame ExecEvent) : list (bool * list Z) :=
  match ev with
  | FromClient (DataFrame i fin data) => if bool_decide (Some i = id) then [(fin, data)] else []
  | _ => []
  end.

(** The events before the end of the session *)
Definition quiet (ev : relay_event Frame ExecEvent) : Prop :=
  match ev with FromGuest (Exit _ _) | ClientGone | GuestGone => False | _ => True end.

Definition writes_of (op : stdin_op) : list Z := match op with WriteStdin d => d | _ => [] end.
Definition closes (ops : list stdin_op) : nat :=
  length (List.filter (λ op, match op with CloseStdin => true | _ => false end) ops).

Lemma closes_app a b : closes (a ++ b) = (closes a + closes b)%nat.
Proof. unfold closes. by rewrite List.filter_app, length_app. Qed.

Record relayed_to (ids : list (Channel * Z)) (evs : list (relay_event Frame ExecEvent)) (r r' : relay stdin_op) : Prop := {
  rt_live : live r' = live r;
  rt_client : to_client r' = to_client r ++ concat (map encode_frame (concat (map (relayed ids) evs)));
  rt_data : concat (map writes_of (to_guest r')) =
            concat (map writes_of (to_guest r)) ++ concat (map snd (concat (map (sent_on (channel_id ids ChStdin)) evs)));
  rt_closed : in_closed r' = in_closed r || existsb fst (concat (map (sent_on (channel_id ids ChStdin)) evs));
  rt_closes : (closes (to_guest r') + Nat.b2n (in_closed r) = closes (to_guest r) + Nat.b2n (in_closed r'))%nat }.

Lemma exec_step_relays status_json ids r ev : quiet ev → live r = true →
  relayed_to ids [ev] r (exec_step status_json ids r ev).
Proof.
  intros Hq Hl. destruct r as [c g cl l]; cbn in Hl; subst l.
  destruct ev as [[id|id fin data|id|]| |[s data| |code oom]|]; cbn in Hq; try done;
    try (split; cbn; rewrite ?app_nil_r, ?orb_false_r; done).
  - unfold exec_step. case_bool_decide as Hid.
    + split; cbn [map concat sent_on relayed]; rewrite ?(bool_decide_eq_true_2 _ Hid);
        destruct (bool_decide (data = [])) eqn:Hd; destruct fin, cl; cbn -[closes];
        rewrite ?closes_app, ?map_app, ?concat_app, ?app_nil_r; cbn; rewrite ?app_nil_r; try done;
        try (apply bool_decide_eq_true_1 in Hd; subst data; by rewrite ?app_nil_r); lia.
    + split; cbn [map concat sent_on relayed]; rewrite ?(bool_decide_eq_false_2 _ Hid); cbn;
        by rewrite ?app_nil_r, ?orb_false_r.
  - unfold exec_step, send_chunk. destruct (chunk_target ids s) as [i|] eqn:Hi;
      split; cbn; rewrite ?Hi; cbn; by rewrite ?app_nil_r, ?orb_false_r.
Qed.

Lemma relayed_to_trans ids evs1 evs2 r1 r2 r3 :
  relayed_to ids evs1 r1 r2 → relayed_to ids evs2 r2 r3 → relayed_to ids (evs1 ++ evs2) r1 r3.
Proof.
  intros [a b c d e] [a' b' c' d' e']. split.
  - congruence.
  - by rewrite b', b, !map_app, !concat_app, map_app, concat_app, app_assoc.
  - by rewrite c', c, !map_app, !concat_app, map_app, concat_app, app_assoc.
  - by rewrite d', d, !map_app, !concat_app, existsb_app, orb_assoc.
  - lia.
Qed.

Lemma exec_run_relays status_json ids evs r : Forall quiet evs → live r = true →
  relayed_to ids evs r (relay_run (exec_step status_json ids) r evs).
Proof.
  intros Hq. revert r. induction Hq as [|ev evs Hev _ IH]; intros r Hl.
  - split; cbn; rewrite ?app_nil_r, ?orb_false_r; done.
  - cbn [relay_run foldl]. rewrite Hl. pose proof (exec_step_relays status_json ids r ev Hev Hl) as H1.
    refine (relayed_to_trans ids [ev] evs _ _ _ H1 (IH _ _)). destruct H1. congruence.
Qed.

(** The frames that end a session *)
Definition fin_of (id : option Z) : list Frame := match id with Some id => [DataFrame id true []] | None => [] end.
Definition exit_frames (status_json : Z → list Z) (ids : list (Channel * Z)) (code : Z) : list Frame :=
  match channel_id ids ChError with
  | Some id => (if code =? 0 then [] else [DataFrame id false (status_json code)]) ++ [DataFrame id true []]
  | None => []
  end ++ fin_of (channel_id ids ChStdout) ++ fin_of (channel_id ids ChStderr).

Lemma send_exit_frames {G} status_json ids code (r : relay G) :
  send_exit status_json ids code r =
    finish (send (concat (map encode_frame (exit_frames status_json ids code))) r).
Proof.
  unfold send_exit, exit_frames, exit_status_payload, finish, send_fin, send, fin_of.
  destruct r as [c g cl l]; cbn.
  destruct (channel_id ids ChError), (code =? 0), (channel_id ids ChStdout), (channel_id ids ChStderr); cbn;
    rewrite ?app_nil_r, ?map_app, ?concat_app; cbn; rewrite <-?app_assoc, ?app_nil_r; done.
Qed.

(** The frames of a stream *)
Definition on (id : Z) (fs : list Frame) : list Frame :=
  List.filter (λ f, match f with DataFrame i _ _ => i =? id | _ => false end) fs.

Lemma on_app id a b : on id (a ++ b) = on id a ++ on id b.
Proof. apply List.filter_app. Qed.

(** The chunks of an output stream *)
Definition chunks_of (s : StreamType) (ev : relay_event Frame ExecEvent) : list (list Z) :=
  match s, ev with
  | Stdout, FromGuest (Chunk Stdout data) | Stderr, FromGuest (Chunk Stderr data) => [data]
  | _, _ => []
  end.

(** What fits in a frame: chunks and pings *)
Definition fits_frame (ev : relay_event Frame ExecEvent) : Prop :=
  match ev with
  | FromGuest (Chunk _ data) => Z.of_nat (length data) < 2 ^ 24
  | FromClient (Ping id) => in_range 32 id
  | _ => True
  end.

Section streams.
Context (ids : list (Channel * Z)).
Hypothesis distinct : NoDup ids.*2.
Hypothesis valid : Forall (λ i, 0 ≤ i < 2 ^ 31) ids.*2.

Lemma channel_elem c i : channel_id ids c = Some i → (c, i) ∈ ids.
Proof using.
  unfold channel_id. destruct (List.find _ ids) as [[c' i']|] eqn:E; [|done]. cbn. intros [= <-].
  apply find_some in E as [Hin Hc]. cbn in Hc. apply bool_decide_eq_true_1 in Hc as ->.
  by apply list_elem_of_In.
Qed.

Lemma channel_inj c c' i : channel_id ids c = Some i → channel_id ids c' = Some i → c = c'.
Proof using distinct.
  intros H1%channel_elem H2%channel_elem.
  apply list_elem_of_lookup in H1 as [n1 H1], H2 as [n2 H2].
  assert (n1 = n2) as ->.
  { apply (NoDup_lookup _ n1 n2 i distinct); rewrite list_lookup_fmap; [by rewrite H1|by rewrite H2]. }
  congruence.
Qed.

Lemma channel_valid c i : channel_id ids c = Some i → 0 ≤ i < 2 ^ 31.
Proof using valid.
  intros Hc%channel_elem. apply (proj1 (list.Forall_forall _ _) valid).
  apply list_elem_of_fmap. by exists (c, i).
Qed.

Lemma relayed_sendable evs : Forall fits_frame evs → Forall sendable (concat (map (relayed ids) evs)).
Proof using valid.
  induction 1 as [|ev evs Hev _ IH]; cbn [map concat]; [by apply list.Forall_nil|].
  apply Forall_app. split; [|done]. destruct ev as [[]| |[s data| |]|]; cbn; try by apply list.Forall_nil.
  - by apply list.Forall_singleton.
  - destruct (chunk_target ids s) as [i|] eqn:Hi; [|by apply list.Forall_nil].
    apply list.Forall_singleton. split; [|done]. destruct s; by eapply channel_valid.
Qed.

Lemma exit_sendable status_json code : Z.of_nat (length (status_json code)) < 2 ^ 24 →
  Forall sendable (exit_frames status_json ids code).
Proof using valid.
  intros Hs. unfold exit_frames, fin_of. rewrite !Forall_app. repeat split.
  - destruct (channel_id ids ChError) eqn:E; [|by apply list.Forall_nil].
    apply channel_valid in E. destruct (code =? 0); repeat constructor; try lia; done.
  - destruct (channel_id ids ChStdout) eqn:E; [|by apply list.Forall_nil].
    apply channel_valid in E. repeat constructor; lia.
  - destruct (channel_id ids ChStderr) eqn:E; [|by apply list.Forall_nil].
    apply channel_valid in E. repeat constructor; lia.
Qed.

Lemma on_fin c c' id : channel_id ids c = Some id →
  on id (fin_of (channel_id ids c')) = if bool_decide (c = c') then [DataFrame id true []] else [].
Proof using distinct.
  intros Hc. case_bool_decide as E.
  - subst c'. rewrite Hc. cbn. by rewrite Z.eqb_refl.
  - unfold fin_of. destruct (channel_id ids c') as [i|] eqn:Hi; [|done]. cbn.
    destruct (Z.eqb_spec i id) as [->|]; [|done]. by pose proof (channel_inj _ _ _ Hc Hi).
Qed.

(** The status goes to the error stream only. *)
Lemma on_exit_error status_json c id code : channel_id ids c = Some id → c ≠ ChError →
  on id match channel_id ids ChError with
        | Some id => (if code =? 0 then [] else [DataFrame id false (status_json code)]) ++ [DataFrame id true []]
        | None => []
        end = [].
Proof using distinct.
  intros Hid Hne. destruct (channel_id ids ChError) as [i|] eqn:He; [|done].
  assert (i ≠ id) as Hi%Z.eqb_neq by (intros ->; by pose proof (channel_inj _ _ _ Hid He)).
  destruct (code =? 0); cbn; by rewrite !Hi.
Qed.

Lemma on_relayed c id evs : channel_id ids c = Some id →
  on id (concat (map (relayed ids) evs)) =
    DataFrame id false <$> concat (map (match c with
                                        | ChStdout => chunks_of Stdout | ChStderr => chunks_of Stderr
                                        | _ => λ _, [] end) evs).
Proof using distinct.
  intros Hc. induction evs as [|ev evs IH]; cbn [map concat]; [by destruct c|].
  rewrite on_app, IH, fmap_app. f_equal.
  destruct ev as [[]| |[s data| |]|]; try by destruct c. cbn [relayed].
  destruct (chunk_target ids s) as [i|] eqn:Hi; cbn.
  - destruct (Z.eqb_spec i id) as [->|Hne].
    + assert (c = match s with Stdout => ChStdout | Stderr => ChStderr end) as ->; [|by destruct s].
      eapply channel_inj; [done|]. by destruct s.
    + destruct c, s; cbn in *; try done; congruence.
  - destruct c, s; cbn in *; try done; congruence.
Qed.
End streams.

Lemma concat_map_nil {A B} (f : A → list B) l : (∀ x, f x = []) → concat (map f l) = [].
Proof. intros Hf. induction l as [|x l IH]; cbn; [done|]. by rewrite Hf, IH. Qed.

(** ** Collecting the streams *)

(** A client that opens the expected streams, and nothing else, gets them in order. *)
Lemma collect_in_order header_block expected opened k :
  length opened = length expected →
  ∃ replies, collect_streams header_block expected k (map SynStream opened) = (zip expected opened, replies, []).
Proof.
  revert opened k. induction expected as [|c expected IH]; intros [|i opened] k Hlen; try done; [by eexists|].
  cbn [collect_streams map]. destruct (IH opened (S k)) as [replies ->]; [by injection Hlen|]. by eexists.
Qed.

(** C9: A command run without a terminal is relayed exactly.  When the client opens the
    streams the session calls for, under distinct ids, and the guest's output up to the
    exit and the client's frames are handled in any interleaving, then what the client
    receives after the upgrade and the replies decodes to: on the stdout and stderr
    streams each chunk of that output in order and then the end of the stream; on the
    error stream the status object exactly when the exit code is not 0, and then its end.
    The process gets the bytes of the client's stdin stream in order, and its input is
    closed exactly once if the client ended that stream, and not at all otherwise. *)
Theorem exec_delivers header_block status_json s opened evs code oom :
  length opened = length (expected_channels s) → NoDup opened → Forall (λ i, 0 ≤ i < 2 ^ 31) opened →
  Forall quiet evs → Forall fits_frame evs → Z.of_nat (length (status_json code)) < 2 ^ 24 →
  ∃ replies body ops,
    let ids := zip (expected_channels s) opened in
    let stdin := concat (map (sent_on (channel_id ids ChStdin)) evs) in
    let frames := received body in
    serve_exec header_block status_json s (map SynStream opened) (evs ++ [FromGuest (Exit code oom)]) =
      (bytes_of UPGRADE_RESPONSE ++ replies ++ body, ops) ∧
    (∀ id, channel_id ids ChStdout = Some id →
       on id frames = (DataFrame id false <$> concat (map (chunks_of Stdout) evs)) ++ [DataFrame id true []]) ∧
    (∀ id, channel_id ids ChStderr = Some id →
       on id frames = (DataFrame id false <$> concat (map (chunks_of Stderr) evs)) ++ [DataFrame id true []]) ∧
    (∀ id, channel_id ids ChError = Some id →
       on id frames = (if code =? 0 then [] else [DataFrame id false (status_json code)]) ++ [DataFrame id true []]) ∧
    concat (map writes_of ops) = concat (map snd stdin) ∧ closes ops = Nat.b2n (existsb fst stdin).
Proof.
  intros Hlen Hnd Hval Hq Hfit Hst.
  destruct (collect_in_order header_block (expected_channels s) opened 0 Hlen) as [replies Hc].
  set (ids := zip (expected_channels s) opened) in *.
  assert (ids.*2 = opened) as Hids by (unfold ids; rewrite snd_zip; [done|lia]).
  assert (NoDup ids.*2) as Hnd' by (by rewrite Hids).
  assert (Forall (λ i, 0 ≤ i < 2 ^ 31) ids.*2) as Hval' by (by rewrite Hids).
  pose proof (exec_run_relays status_json ids evs (relay_start stdin_op) Hq eq_refl) as [Hl Hcl Hd Hcd Hcs].
  set (r := relay_run (exec_step status_json ids) (relay_start stdin_op) evs) in *.
  exists replies, (concat (map encode_frame (concat (map (relayed ids) evs) ++ exit_frames status_json ids code))),
    (to_guest r). cbn zeta.
  rewrite received_encoded by (apply Forall_app; split; [by apply relayed_sendable|by apply exit_sendable]).
  split; [|split; [|split; [|split; [|split]]]].
  - unfold serve_exec. rewrite Hc. cbn [map app]. rewrite relay_run_app, relay_run_one by done.
    fold r. cbn [exec_step].
    rewrite send_exit_frames. cbn [finish send to_client to_guest]. rewrite Hcl. cbn [relay_start to_client app].
    by rewrite map_app, concat_app.
  - intros id Hid. rewrite on_app, (on_relayed ids Hnd' _ _ _ Hid). f_equal. unfold exit_frames.
    rewrite !on_app, !(on_fin ids Hnd' _ _ _ Hid). rewrite bool_decide_eq_true_2, bool_decide_eq_false_2 by done.
    by rewrite (on_exit_error ids Hnd' _ _ _ _ Hid) by done.
  - intros id Hid. rewrite on_app, (on_relayed ids Hnd' _ _ _ Hid). f_equal. unfold exit_frames.
    rewrite !on_app, !(on_fin ids Hnd' _ _ _ Hid). rewrite bool_decide_eq_false_2, bool_decide_eq_true_2 by done.
    by rewrite (on_exit_error ids Hnd' _ _ _ _ Hid) by done.
  - intros id Hid. rewrite on_app, (on_relayed ids Hnd' _ _ _ Hid).
    rewrite (concat_map_nil _ evs) by done. unfold exit_frames.
    rewrite !on_app, !(on_fin ids Hnd' _ _ _ Hid), Hid. rewrite !bool_decide_eq_false_2 by done.
    rewrite !app_nil_r. destruct (code =? 0); cbn; by rewrite !Z.eqb_refl.
  - by rewrite Hd.
  - rewrite Hcd in Hcs. change (closes (to_guest (relay_start stdin_op))) with 0%nat in Hcs.
    cbn [in_closed relay_start orb Nat.b2n] in Hcs. lia.
Qed.

Definition demo_session : StreamingSession := {|
  ss_kind := SExec; ss_sandbox_id := "sb"; ss_cmd := ["cat"]; ss_tty := false; ss_stdin := true; ss_stdin_once := true;
  ss_stdout := true; ss_stderr := true; ss_ports := [80]; ss_attachable := true; ss_port_forward_socket := "/pf.sock" |}.

Definition demo_events : list (relay_event Frame ExecEvent) :=
  [FromClient (DataFrame 3 false [104; 105]); FromGuest (Chunk Stdout [104]); FromClient (Ping 7);
   FromGuest (Chunk Stderr [33]); FromGuest (Chunk Stdout [105]); FromClient (DataFrame 3 true [])].

Lemma exec_delivers_witness :
  ∃ replies body ops,
    serve_exec (λ _, [0]) (λ c, [c]) demo_session (map SynStream [1; 3; 5; 7])
      (demo_events ++ [FromGuest (Exit 2 false)]) = (bytes_of UPGRADE_RESPONSE ++ replies ++ body, ops) ∧
    on 5 (received body) = [DataFrame 5 false [104]; DataFrame 5 false [105]; DataFrame 5 true []] ∧
    on 1 (received body) = [DataFrame 1 false [2]; DataFrame 1 true []] ∧
    concat (map writes_of ops) = [104; 105] ∧ closes ops = 1%nat.
Proof.
  destruct (exec_delivers (λ _, [0]) (λ c, [c]) demo_session [1; 3; 5; 7] demo_events 2 false)
    as (replies & body & ops & Heq & Hout & _ & Herr & Hin & Hcl).
  - reflexivity.
  - by apply (bool_decide_unpack _).
  - by apply (bool_decide_unpack _).
  - repeat constructor.
  - repeat constructor; vm_compute; congruence.
  - reflexivity.
  - exists replies, body, ops. split; [exact Heq|]. split; [exact (Hout 5 eq_refl)|].
    split; [exact (Herr 1 eq_refl)|]. split; [exact Hin|exact Hcl].
Defined.

(** ** Sessions: the ledger *)

Inductive session_op := OpRegister (token : string) (s : StreamingSession) | OpRequest (request : string).

(** The server: what each request gets *)
Fixpoint session_run (ops : list (Z * session_op)) (m : sessions) : list route :=
  match ops with
  | [] => []
  | (now, OpRegister token s) :: ops => session_run ops (register_session now token s m)
  | (now, OpRequest request) :: ops =>
      let '(m, out) := handle_connection now request m in out :: session_run ops m
  end.

(** The promise: a ledger that forgets nothing, in which each entry is redeemed or not. *)
Abbreviation ledger := (gmap string (PendingSession * bool)).

Definition ledger_request (now : Z) (request : string) (l : ledger) : ledger * route :=
  match request_target request with
  | Err (status, body) => (l, Respond status body)
  | Ok (kind, token) =>
      match l !! token with
      | Some (p, false) =>
          if now <? ps_expires_at p then
            if bool_decide (path_segment (ss_kind (ps_session p)) = kind)
            then (<[token := (p, true)]> l, Serve (ps_session p) (str_contains "upgrade: spdy" (lowercase request)))
            else (l, Respond 404 "Session kind mismatch")
          else (l, Respond 404 "Session not found or expired")
      | _ => (l, Respond 404 "Session not found or expired")
      end
  end.

Fixpoint ledger_run (ops : list (Z * session_op)) (l : ledger) : list route :=
  match ops with
  | [] => []
  | (now, OpRegister token s) :: ops =>
      ledger_run ops (<[token := ({| ps_session := s; ps_expires_at := now + DEFAULT_STREAMING_SESSION_TTL |}, false)]> l)
  | (now, OpRequest request) :: ops =>
      let '(l, out) := ledger_request now request l in out :: ledger_run ops l
  end.

(** From a time on, the table holds the entries of the ledger that can still be redeemed. *)
Definition agrees (t : Z) (m : sessions) (l : ledger) : Prop :=
  ∀ token p, t < ps_expires_at p → m !! token = Some p ↔ l !! token = Some (p, false).

Lemma agrees_later t t' m l : t ≤ t' → agrees t m l → agrees t' m l.
Proof. intros Ht H token p Hp. apply H. lia. Qed.

Lemma prune_lookup now m token p :
  prune_expired_sessions now m !! token = Some p ↔ m !! token = Some p ∧ now < ps_expires_at p.
Proof.
  unfold prune_expired_sessions. rewrite map_lookup_filter_Some. unfold is_expired. cbn.
  by rewrite Z.leb_gt.
Qed.

Lemma agrees_prune t m l : agrees t m l → agrees t (prune_expired_sessions t m) l.
Proof. intros H token p Hp. rewrite prune_lookup, (H token p Hp). naive_solver. Qed.

Lemma agrees_register t token s m l : agrees t m l →
  agrees t (register_session t token s m)
    (<[token := ({| ps_session := s; ps_expires_at := t + DEFAULT_STREAMING_SESSION_TTL |}, false)]> l).
Proof.
  intros H token' p Hp. unfold register_session. destruct (decide (token = token')) as [->|Hne].
  - rewrite !lookup_insert_eq. naive_solver.
  - rewrite !lookup_insert_ne by done. by apply agrees_prune.
Qed.

Lemma agrees_request t request m l : agrees t m l →
  snd (handle_connection t request m) = snd (ledger_request t request l) ∧
  agrees t (fst (handle_connection t request m)) (fst (ledger_request t request l)).
Proof.
  intros H. unfold handle_connection, ledger_request.
  destruct (request_target request) as [[kind token]|[status body]]; [|done].
  destruct (prune_expired_sessions t m !! token) as [p|] eqn:E.
  - pose proof E as E'. rewrite prune_lookup in E'. destruct E' as [Hm Hexp].
    rewrite (proj1 (H token p Hexp) Hm). rewrite (proj2 (Z.ltb_lt _ _) Hexp).
    case_bool_decide as Hk; cbn; [|split; [done|by apply agrees_prune]]. split; [done|].
    intros token' p' Hp'. destruct (decide (token = token')) as [->|Hne].
    + rewrite lookup_delete_eq, lookup_insert_eq. naive_solver.
    + rewrite lookup_delete_ne, lookup_insert_ne by done. by apply agrees_prune.
  - assert (∀ p, l !! token = Some (p, false) → (t <? ps_expires_at p) = false) as Hl.
    { intros p Hp. apply Z.ltb_ge. destruct (decide (t < ps_expires_at p)) as [Ht|]; [|lia].
      apply (H token p Ht) in Hp. assert (prune_expired_sessions t m !! token = Some p) by (by apply prune_lookup).
      congruence. }
    destruct (l !! token) as [[p []]|]; [split; [done|by apply agrees_prune]| |split; [done|by apply agrees_prune]].
    rewrite (Hl p eq_refl). split; [done|by apply agrees_prune].
Qed.

(** The times of a run do not decrease. *)
Fixpoint clock (t : Z) (ops : list (Z * session_op)) : Prop :=
  match ops with [] => True | (now, _) :: ops => t ≤ now ∧ clock now ops end.

Lemma runs_agree ops t m l : clock t ops → agrees t m l → session_run ops m = ledger_run ops l.
Proof.
  revert t m l. induction ops as [|[now op] ops IH]; intros t m l Hc H; [done|].
  destruct Hc as [Ht Hc]. apply (agrees_later t now) in H; [|done]. destruct op as [token s|request]; cbn.
  - by apply (IH now _ _ Hc), agrees_register.
  - destruct (agrees_request now request m l H) as [Ho Ha].
    destruct (handle_connection now request m) as [m' out], (ledger_request now request l) as [l' out'].
    cbn in *. subst out'. f_equal. by apply (IH now).
Qed.

(** C10: One-time sessions.  Whatever is registered and requested, in any order with a
    clock that does not run back, each request gets what the ledger prescribes: the
    session registered under its token, if that is the kind in the path, less than 60
    seconds have passed since its registration and it has not been redeemed since; in
    particular no token serves two requests, a request of the wrong kind does not use a
    token up, and the table may drop expired entries at any time without a difference. *)
Theorem sessions_refine_ledger (t : Z) (ops : list (Z * session_op)) :
  clock t ops → session_run ops ∅ = ledger_run ops ∅.
Proof. intros Hc. apply (runs_agree ops t); [done|]. intros token p _. by rewrite !lookup_empty. Qed.

Definition get (path : string) : string := "GET " +:+ path +:+ " HTTP/1.1" +:+ head_end.
Definition demo_ops : list (Z * session_op) :=
  [(0, OpRegister "t1" demo_session); (1, OpRequest (get "/attach/t1")); (2, OpRequest (get "/exec/t1"));
   (3, OpRequest (get "/exec/t1")); (4, OpRegister "t2" demo_session); (4 + from_secs 60, OpRequest (get "/exec/t2"))].

Lemma sessions_refine_ledger_witness :
  session_run demo_ops ∅ = ledger_run demo_ops ∅ ∧
  ledger_run demo_ops ∅ =
    [Respond 404 "Session kind mismatch"; Serve demo_session false; Respond 404 "Session not found or expired";
     Respond 404 "Session not found or expired"].
Proof.
  split.
  - apply (sessions_refine_ledger 0). repeat split; by vm_compute.
  - vm_compute. reflexivity.
Defined.

(** ** Port forwarding *)

Definition encode_pf (f : PortForwardFrame) : list Z :=
  write_port_forward_frame (pf_kind f) (pf_stream f) (pf_payload f).

Definition pf_sendable (f : PortForwardFrame) : Prop :=
  in_range 32 (pf_stream f) ∧ in_range 32 (Z.of_nat (length (pf_payload f))).

Lemma read_encoded_pf f rest e : pf_sendable f →
  read_port_forward_frame {| incoming := encode_pf f ++ rest; ending := e |} =
    ({| incoming := rest; ending := e |}, Ok (Some f)).
Proof.
  destruct f as [k i payload]. intros [Hi Hp]. cbn in Hi, Hp.
  unfold encode_pf, write_port_forward_frame. cbn [pf_kind pf_stream pf_payload].
  rewrite (wrap_small 32) by done. pose proof (be_bytes_roundtrip _ Hi) as H1.
  pose proof (be_bytes_roundtrip _ Hp) as H2. set (n := Z.of_nat (length payload)) in *.
  unfold to_be_bytes in *. unfold read_port_forward_frame.
  match type of H1 with from_be_bytes ?a ?b ?c ?d = _ =>
    match type of H2 with from_be_bytes ?w ?x ?y ?z = _ =>
      change (([k] ++ [a; b; c; d] ++ [w; x; y; z] ++ payload) ++ rest)
        with ([k; a; b; c; d; w; x; y; z] ++ (payload ++ rest)) end end.
  rewrite read_exact_app by done. rewrite H1, H2. destruct (Z.ltb_spec 0 n) as [Hpos|Hz].
  - rewrite read_exact_app by (unfold n; lia). done.
  - unfold n in Hz. by destruct payload.
Qed.

(** The frames of the control channel, until it ends *)
Fixpoint read_pf_frames (fuel : nat) (r : reader) : list PortForwardFrame :=
  match fuel with
  | O => []
  | S fuel =>
      match read_port_forward_frame r with
      | (r, Ok (Some f)) => f :: read_pf_frames fuel r
      | _ => []
      end
  end.
Definition pf_received (bytes : list Z) : list PortForwardFrame :=
  read_pf_frames (S (length bytes)) {| incoming := bytes; ending := None |}.

Lemma pf_received_encoded fs : Forall pf_sendable fs → pf_received (concat (map encode_pf fs)) = fs.
Proof.
  intros Hfs. unfold pf_received.
  assert (length fs < S (length (concat (map encode_pf fs))))%nat as Hfuel.
  { clear Hfs. induction fs as [|f fs IH]; [cbn; lia|]. cbn [map concat]. rewrite length_app.
    unfold encode_pf at 1, write_port_forward_frame. cbn [length app] in *. lia. }
  revert Hfuel. generalize (S (length (concat (map encode_pf fs)))) as fuel. intros fuel.
  revert fuel. induction Hfs as [|f fs Hf _ IH]; intros [|fuel] Hfuel; try (cbn in Hfuel; lia).
  - done.
  - cbn [map concat read_pf_frames]. rewrite read_encoded_pf by done. f_equal. apply IH. cbn in Hfuel. lia.
Qed.

Abbreviation fwd_event := (relay_event Frame PortForwardFrame).
Definition pf_data_frame (data : list Z) : PortForwardFrame :=
  {| pf_kind := PORT_FORWARD_FRAME_DATA; pf_stream := PORT_FORWARD_STREAM_ID; pf_payload := data |}.
Definition pf_close_frame : PortForwardFrame :=
  {| pf_kind := PORT_FORWARD_FRAME_CLOSE; pf_stream := PORT_FORWARD_STREAM_ID; pf_payload := [] |}.
Definition data_frames (data : list Z) : list PortForwardFrame :=
  if bool_decide (data = []) then [] else [pf_data_frame data].

(** What an event gives the guest while the client's side is open, and the client *)
Definition up (data_id : Z) (ev : fwd_event) : list PortForwardFrame :=
  match ev with FromClient (DataFrame id _ data) => if id =? data_id then data_frames data else [] | _ => [] end.
Definition guest_data (ev : fwd_event) : list (list Z) :=
  match ev with
  | FromGuest f =>
      if (pf_stream f =? PORT_FORWARD_STREAM_ID) && (pf_kind f =? PORT_FORWARD_FRAME_DATA) then [pf_payload f] else []
  | _ => []
  end.
Definition down (closed : bool) (data_id : Z) (ev : fwd_event) : list Frame :=
  (match ev with FromClient (Ping id) => if closed then [] else [Ping id] | _ => [] end)
  ++ (DataFrame data_id false <$> guest_data ev).

(** The guest's side stays open, and [closed] or so does the client's. *)
Definition open_event (closed : bool) (data_id : Z) (ev : fwd_event) : Prop :=
  match ev with
  | FromGuest f => (pf_stream f =? PORT_FORWARD_STREAM_ID) && (pf_kind f =? PORT_FORWARD_FRAME_CLOSE) = false
  | GuestGone => False
  | FromClient (DataFrame id fin _) => closed = true ∨ (id =? data_id) && fin = false
  | ClientGone => closed = true
  | FromClient _ => True
  end.

Definition fwd_fits (ev : fwd_event) : Prop :=
  match ev with
  | FromClient (DataFrame _ _ data) => in_range 32 (Z.of_nat (length data))
  | FromClient (Ping id) => in_range 32 id
  | FromGuest f => Z.of_nat (length (pf_payload f)) < 2 ^ 24
  | _ => True
  end.

Lemma forward_step data_id closed r ev : live r = true → in_closed r = closed → open_event closed data_id ev →
  port_forward_step data_id r ev =
    send (concat (map encode_frame (down closed data_id ev)))
      (tell (if closed then [] else concat (map encode_pf (up data_id ev))) r).
Proof.
  intros Hl Hc Ho. destruct r as [c g cl l]; cbn in Hl, Hc; subst cl l.
  unfold port_forward_step, send, tell, down. cbn [in_closed to_client to_guest live].
  destruct ev as [[id|id fin data|id|]| |[k st p]|]; cbn in Ho |- *; try done;
    try (destruct closed; cbn; by rewrite ?app_nil_r).
  - destruct closed; cbn; [by rewrite !app_nil_r|]. destruct Ho as [?|Ho]; [done|].
    destruct (id =? data_id); cbn in Ho |- *; [subst fin|by rewrite !app_nil_r].
    unfold data_frames. case_bool_decide; cbn; by rewrite ?app_nil_r.
  - destruct (st =? PORT_FORWARD_STREAM_ID) eqn:E1; cbn; [|by destruct closed; cbn; rewrite !app_nil_r].
    cbn in Ho. destruct (k =? PORT_FORWARD_FRAME_DATA) eqn:E2; cbn;
      [by destruct closed; cbn; rewrite !app_nil_r|]. rewrite Ho. by destruct closed; cbn; rewrite !app_nil_r.
Qed.

Lemma forward_run data_id closed evs r : live r = true → in_closed r = closed → Forall (open_event closed data_id) evs →
  relay_run (port_forward_step data_id) r evs =
    send (concat (map encode_frame (concat (map (down closed data_id) evs))))
      (tell (if closed then [] else concat (map encode_pf (concat (map (up data_id) evs)))) r).
Proof.
  intros Hl Hc Ho. revert r Hl Hc. induction Ho as [|ev evs Hev _ IH]; intros r Hl Hc.
  - destruct r; unfold send, tell. cbn. destruct closed; by rewrite !app_nil_r.
  - unfold relay_run in *. cbn [foldl]. rewrite Hl, (forward_step data_id closed) by done. rewrite IH by done.
    destruct r; unfold send, tell. cbn [to_client to_guest in_closed live map concat].
    destruct closed; rewrite ?map_app, ?concat_app, <-?app_assoc, ?app_nil_r; done.
Qed.

Lemma down_sendable closed data_id evs : 0 ≤ data_id < 2 ^ 31 → Forall fwd_fits evs →
  Forall sendable (concat (map (down closed data_id) evs)).
Proof.
  intros Hid. induction 1 as [|ev evs Hev _ IH]; cbn [map concat]; [by apply list.Forall_nil|].
  apply Forall_app. split; [|done]. unfold down. destruct ev as [[]| |f|]; cbn in *; try by apply list.Forall_nil.
  - destruct closed; cbn; [by apply list.Forall_nil|by apply list.Forall_singleton].
  - destruct (_ && _); cbn; [by apply list.Forall_singleton|by apply list.Forall_nil].
Qed.

Lemma up_sendable data_id evs : Forall fwd_fits evs → Forall pf_sendable (concat (map (up data_id) evs)).
Proof.
  induction 1 as [|ev evs Hev _ IH]; cbn [map concat]; [by apply list.Forall_nil|].
  apply Forall_app. split; [|done]. destruct ev as [[|id fin data| |]| |f|]; cbn; try by apply list.Forall_nil.
  unfold data_frames. destruct (id =? data_id), (bool_decide (data = [])); try by apply list.Forall_nil.
  apply list.Forall_singleton. split; [by unfold in_range; cbn|done].
Qed.

Lemma on_down closed data_id evs :
  on data_id (concat (map (down closed data_id) evs)) = DataFrame data_id false <$> concat (map guest_data evs).
Proof.
  induction evs as [|ev evs IH]; cbn [map concat]; [done|]. rewrite on_app, IH, fmap_app. f_equal.
  unfold down. destruct ev as [[]| |f|]; cbn; try done; [by destruct closed|].
  destruct (_ && _); cbn; [|done]. by rewrite Z.eqb_refl.
Qed.

Lemma forward_closes data_id r :
  port_forward_step data_id r (FromGuest pf_close_frame) = finish (send (encode_frame (DataFrame data_id true [])) r).
Proof. done. Qed.

(** The relay from the answer of the guest to its close *)
Lemma forward_relay data_id evs1 evs2 last :
  0 ≤ data_id < 2 ^ 31 → Forall (open_event false data_id) evs1 → Forall (open_event true data_id) evs2 →
  Forall fwd_fits (evs1 ++ [FromClient (DataFrame data_id true last)] ++ evs2) →
  let r := relay_run (port_forward_step data_id) (relay_start Z)
             (evs1 ++ [FromClient (DataFrame data_id true last)] ++ evs2 ++ [FromGuest pf_close_frame]) in
  pf_received (to_guest r) = concat (map (up data_id) evs1) ++ data_frames last ++ [pf_close_frame] ∧
  on data_id (received (to_client r)) =
    (DataFrame data_id false <$> concat (map guest_data (evs1 ++ evs2))) ++ [DataFrame data_id true []].
Proof.
  intros Hid Ho1 Ho2 Hfit. cbn zeta. apply Forall_app in Hfit as [Hf1 Hfit]. apply Forall_cons in Hfit as [Hfl Hf2].
  rewrite !relay_run_app, (forward_run data_id false evs1 (relay_start Z) eq_refl eq_refl Ho1).
  rewrite (relay_run_one _ _ (FromClient _)) by done.
  set (r1 := port_forward_step _ _ (FromClient _)).
  assert (r1 = {| to_client := concat (map encode_frame (concat (map (down false data_id) evs1)));
                  to_guest := concat (map encode_pf (concat (map (up data_id) evs1) ++ data_frames last ++ [pf_close_frame]));
                  in_closed := true; live := true |}) as ->.
  { unfold r1, port_forward_step. cbn [in_closed send tell]. rewrite Z.eqb_refl. unfold data_frames.
    case_bool_decide; unfold mark_closed, tell; cbn [to_client to_guest live app];
      rewrite !map_app, !concat_app, <-?app_assoc; done. }
  rewrite (forward_run data_id true evs2) by done. rewrite relay_run_one by done.
  rewrite forward_closes. cbn [finish send tell to_client to_guest live].
  rewrite app_nil_r. split.
  - apply pf_received_encoded. rewrite !Forall_app. split; [by apply up_sendable|]. split.
    + unfold data_frames. case_bool_decide; [by apply list.Forall_nil|]. apply list.Forall_singleton. by split.
    + apply list.Forall_singleton. by split.
  - rewrite <-concat_app, <-map_app, <-(app_nil_r (encode_frame _)).
    change (encode_frame ?f ++ []) with (concat (map encode_frame [f])). rewrite <-concat_app, <-map_app.
    rewrite received_encoded.
    + rewrite !on_app, !on_down. cbn. by rewrite Z.eqb_refl, map_app, concat_app, fmap_app.
    + rewrite !Forall_app. split; [split; by apply down_sendable|]. apply list.Forall_singleton. cbn. split; lia.
Qed.

(** A forwarded port is a transparent connection.  Let the client open its two
    streams, the guest accept the session's port, the client send on the data stream and
    end it, and the guest send and then close, in any interleaving.  The guest's control
    channel carries [OPEN] with the port and then, as it decodes it, exactly the client's
    non-empty data in order and one CLOSE at its end; the client receives, after the
    upgrade and the replies, on the data stream every payload of the guest in order, those
    sent after its own end included, and then the end of the stream. *)
Theorem forward_transparent header_block s port error_id data_id ack evs1 evs2 last :
  plan_spdy s = PfOpen port → open_ok (Some ack) = true →
  0 ≤ data_id < 2 ^ 31 → Forall (open_event false data_id) evs1 → Forall (open_event true data_id) evs2 →
  Forall fwd_fits (evs1 ++ [FromClient (DataFrame data_id true last)] ++ evs2) →
  ∃ replies body control,
    serve_port_forward header_block s [SynStream error_id; SynStream data_id] true (Some ack)
      (evs1 ++ [FromClient (DataFrame data_id true last)] ++ evs2 ++ [FromGuest pf_close_frame]) =
      (bytes_of UPGRADE_RESPONSE_PORTFORWARD ++ replies ++ body, pf_open port ++ control) ∧
    pf_received control = concat (map (up data_id) evs1) ++ data_frames last ++ [pf_close_frame] ∧
    on data_id (received body) =
      (DataFrame data_id false <$> concat (map guest_data (evs1 ++ evs2))) ++ [DataFrame data_id true []].
Proof.
  intros Hplan Hack Hid Ho1 Ho2 Hfit. unfold serve_port_forward. rewrite Hplan, Hack. cbn [negb].
  cbn [pf_streams length Nat.ltb Nat.leb app map]. eexists _, _, _. split; [done|]. by apply forward_relay.
Qed.

Lemma forward_transparent_witness :
  ∃ replies body control,
    serve_port_forward (λ _, [0]) demo_session [SynStream 1; SynStream 3] true
      (Some {| pf_kind := 2; pf_stream := 1; pf_payload := [0] |})
      ([FromClient (DataFrame 3 false [71]); FromGuest (pf_data_frame [79])]
       ++ [FromClient (DataFrame 3 true [])] ++ [FromGuest (pf_data_frame [75])] ++ [FromGuest pf_close_frame]) =
      (bytes_of UPGRADE_RESPONSE_PORTFORWARD ++ replies ++ body, pf_open 80 ++ control) ∧
    pf_received control = [pf_data_frame [71]; pf_close_frame] ∧
    on 3 (received body) = [DataFrame 3 false [79]; DataFrame 3 false [75]; DataFrame 3 true []].
Proof.
  destruct (forward_transparent (λ _, [0]) demo_session 80 1 3 {| pf_kind := 2; pf_stream := 1; pf_payload := [0] |}
              [FromClient (DataFrame 3 false [71]); FromGuest (pf_data_frame [79])]
              [FromGuest (pf_data_frame [75])] []) as (replies & body & control & Heq & Hg & Hc).
  - reflexivity.
  - reflexivity.
  - lia.
  - apply list.Forall_cons; split; [by right|]. repeat constructor.
  - repeat constructor.
  - repeat constructor; vm_compute; congruence.
  - exists replies, body, control. split; [exact Heq|]. split; [exact Hg|exact Hc].
Defined.

(** ** Where a session does not report what happened *)

(** A guest that disconnects before the exit is reported as success: the error stream is
    ended without a status, exactly as for exit code 0. *)
Lemma lost_guest_reports_success status_json ids r oom :
  exec_step status_json ids r GuestGone = exec_step status_json ids r (FromGuest (Exit 0 oom)).
Proof. done. Qed.

(** With a terminal no exit code is reported at all. *)
Lemma tty_exit_code_lost parse_size resize_json ids r payload payload' :
  tty_step parse_size resize_json ids r (FromGuest (FRAME_PTY_EXIT, payload)) =
  tty_step parse_size resize_json ids r (FromGuest (FRAME_PTY_EXIT, payload')).
Proof. done. Qed.

(** Each stream a client opens is answered. *)
Lemma syn_stream_is_answered header_block s id rest :
  ∃ ids out rest', collect_streams header_block (expected_channels s) 0 (SynStream id :: rest) =
                   (ids, syn_reply_frame (header_block 0%nat) id ++ out, rest').
Proof.
  unfold expected_channels. cbn [app collect_streams].
  destruct (collect_streams _ _ _ rest) as [[ids out] rest']. by eexists _, _, _.
Qed.

(** Only 24 bits of a length are written: a payload of [2 ^ 24] bytes gets length 0, and
    what follows is no longer read as frames. *)
Lemma long_payload_length_lost data : Z.of_nat (length data) = 2 ^ 24 → ∀ id fin, 0 ≤ id < 2 ^ 31 →
  (read_spdy_frame {| incoming := data_frame id fin data; ending := None |}).2 = Ok (Some (DataFrame id fin [])).
Proof.
  intros Hlen id fin Hid.
  assert (data_frame id fin data = encode_frame (DataFrame id fin []) ++ data) as ->.
  { unfold encode_frame, data_frame. rewrite Hlen, <-!app_assoc. done. }
  rewrite read_encoded; [done|]. split; [done|]. done.
Qed.

(** A caller that does not upgrade may ask for one port only; over SPDY the ports after
    the first are dropped silently. *)
Lemma spdy_forwards_first_port s p q : ss_ports s = [p; q] → 0 ≤ p < 2 ^ 16 → ss_port_forward_socket s ≠ "" →
  plan_spdy s = PfOpen p ∧ plan_plain s = PfRefuse 400 PORT_FORWARD_MULTI_PORT_MESSAGE.
Proof.
  intros Hp Hr Hs. unfold plan_spdy, plan_plain. rewrite Hp. cbn. split; [|done]. unfold u16_of.
  rewrite (proj2 (Z.leb_le _ _)), (proj2 (Z.ltb_lt _ _)) by lia. cbn. by rewrite bool_decide_eq_false_2.
Qed.
