(* ===== verification/DirCache.v ===== *)
(** * DirCache: the caches of extracted layers and built root file systems

    [runtime/src/cache/layer_cache.rs], [runtime/src/cache/rootfs_cache.rs] and the
    interface [core/src/traits/cache.rs] both implement.  An entry is a directory and,
    beside it, a metadata file; the two caches differ in the name of the entry and in
    their limits.  Directories hold trees of an abstract type with a size; the outcome
    of each file operation is an argument, so that a copy cut short or a failed write
    is part of the model.  A metadata file that does not parse is [None].  SHA-256 is
    an argument. *)

From Stdlib Require Import ZArith Lia Ascii Sorting.Sorted.
From stdpp Require Import base gmap strings list numbers fin_maps.
From S2P Require Import Prelude RustStr.

Local Open Scope string_scope.
Local Open Scope list_scope.
Local Open Scope Z_scope.

(** ** State *)

(** [LayerMeta] and [RootfsMeta]; the description of a layer is empty. *)
Record CacheMeta := {
  cm_key : string; cm_description : string; cm_size : Z; cm_cached_at : Z; cm_last_accessed : Z }.

#[export] Instance cache_meta_eq_dec : EqDecision CacheMeta.
Proof. solve_decision. Defined.

Definition touch (now : Z) (m : CacheMeta) : CacheMeta :=
  {| cm_key := cm_key m; cm_description := cm_description m; cm_size := cm_size m;
     cm_cached_at := cm_cached_at m; cm_last_accessed := now |}.

Record cache (D : Type) := { c_dirs : gmap string D; c_metas : gmap string (option CacheMeta) }.
Arguments c_dirs {D} _.
Arguments c_metas {D} _.
Arguments Build_cache {D} _ _.

Definition empty_cache (D : Type) : cache D := {| c_dirs := ∅; c_metas := ∅ |}.

Inductive cache_error := RemoveDirFailed | RemoveMetaFailed | CopyFailed | WriteFailed.

(** How the copy of a directory ends: complete, or broken off with what is there. *)
Inductive copy_result (D : Type) := Copied | BrokenOff (part : option D).
Arguments Copied {D}.
Arguments BrokenOff {D} part.

(** [LayerCache::digest_to_dirname] *)
Definition digest_to_dirname (digest : string) : string :=
  str_map (λ c, if Ascii.eqb c ":" then "_"%char else c) digest.

Section cache.
Context {D : Type} (dir_size : D → option Z).
(** What a complete copy of a tree is *)
Context (copy_of : D → D).
(** The entry of a key: [digest_to_dirname] for layers, the key itself for root file systems *)
Context (name_of : string → string).

(** ** Operations *)

Definition get (now : Z) (writes : bool) (key : string) (c : cache D) : cache D * option D :=
  let name := name_of key in
  match c_dirs c !! name, c_metas c !! name with
  | Some d, Some m =>
      (match m with
       | Some m => if writes then {| c_dirs := c_dirs c; c_metas := <[name := Some (touch now m)]> (c_metas c) |} else c
       | None => c
       end, Some d)
  | _, _ => (c, None)
  end.

Definition put (now : Z) (removes : bool) (copy : copy_result D) (writes : bool) (key : string) (source : D)
    (description : string) (c : cache D) : cache D * result cache_error D :=
  let name := name_of key in
  if bool_decide (is_Some (c_dirs c !! name)) && negb removes then (c, Err RemoveDirFailed) else
  match copy with
  | BrokenOff part => ({| c_dirs := match part with Some p => <[name := p]> (c_dirs c) | None => delete name (c_dirs c) end;
                          c_metas := c_metas c |}, Err CopyFailed)
  | Copied =>
      let dirs := <[name := copy_of source]> (c_dirs c) in
      let m := {| cm_key := key; cm_description := description; cm_size := default 0 (dir_size (copy_of source));
                  cm_cached_at := now; cm_last_accessed := now |} in
      if writes then ({| c_dirs := dirs; c_metas := <[name := Some m]> (c_metas c) |}, Ok (copy_of source))
      else ({| c_dirs := dirs; c_metas := c_metas c |}, Err WriteFailed)
  end.

Definition invalidate (rmdir rmmeta : bool) (key : string) (c : cache D) : cache D * result cache_error () :=
  let name := name_of key in
  if bool_decide (is_Some (c_dirs c !! name)) && negb rmdir then (c, Err RemoveDirFailed) else
  let c := {| c_dirs := delete name (c_dirs c); c_metas := c_metas c |} in
  if bool_decide (is_Some (c_metas c !! name)) && negb rmmeta then (c, Err RemoveMetaFailed) else
  ({| c_dirs := c_dirs c; c_metas := delete name (c_metas c) |}, Ok ()).

(** [list_entries], in the order of the directory *)
Definition list_entries `{HashOrder} (c : cache D) : list CacheMeta := omap snd (hash_iter (c_metas c)).

Definition sum_size (l : list CacheMeta) : Z := wrap 64 (foldr (λ m n, cm_size m + n) 0 l).
Definition total_size `{HashOrder} (c : cache D) : Z := sum_size (list_entries c).
Definition entry_count `{HashOrder} (c : cache D) : nat := length (list_entries c).

(** The loop of [prune] over the entries, oldest first; [within] is its limit on the
    number and size of what is left. *)
Fixpoint prune_loop (rm : string → bool * bool) (within : nat → Z → bool) (entries : list CacheMeta) (count : nat) (size : Z)
    (evicted : nat) (c : cache D) : cache D * result cache_error nat :=
  match entries with
  | [] => (c, Ok evicted)
  | e :: entries =>
      if within count size then (c, Ok evicted) else
      match invalidate (rm (cm_key e)).1 (rm (cm_key e)).2 (cm_key e) c with
      | (c, Ok _) => prune_loop rm within entries (count - 1) (Z.max 0 (size - cm_size e)) (S evicted) c
      | (c, Err err) => (c, Err err)
      end
  end.

Definition oldest_first (l : list CacheMeta) : list CacheMeta :=
  sort_by (λ a b, cm_last_accessed a <=? cm_last_accessed b) l.

Definition prune `{HashOrder} (rm : string → bool * bool) (within : nat → Z → bool) (c : cache D)
    : cache D * result cache_error nat :=
  let entries := list_entries c in
  if within (length entries) (sum_size entries) then (c, Ok O)
  else prune_loop rm within (oldest_first entries) (length entries) (sum_size entries) O c.
End cache.

(** [LayerCache::prune] looks at the bytes, [RootfsCache::prune] at both limits. *)
Definition layer_within (max_bytes : Z) (_ : nat) (size : Z) : bool := size <=? max_bytes.
Definition rootfs_within (max_entries : nat) (max_bytes : Z) (count : nat) (size : Z) : bool :=
  (count <=? max_entries)%nat && (size <=? max_bytes).

(** [RootfsCache::compute_key] *)
Definition nl : string := String "010" "".

Definition pair_leb (a b : string * string) : bool :=
  match String.compare a.1 b.1 with
  | Lt => true | Gt => false
  | Eq => match String.compare a.2 b.2 with Gt => false | _ => true end
  end.

Definition key_text (image_ref : string) (layer_digests entrypoint : list string) (env : list (string * string)) : string :=
  "rootfs-cache-v1" +:+ nl +:+ image_ref +:+ nl
  +:+ String.concat "" (map (λ d, d +:+ nl) layer_digests)
  +:+ String.concat "" (map (λ p, p +:+ nl) entrypoint)
  +:+ String.concat "" (map (λ kv, kv.1 +:+ "=" +:+ kv.2 +:+ nl) (sort_by pair_leb env)).

Definition compute_key (sha256_hex : string → string) (image_ref : string) (layer_digests entrypoint : list string)
    (env : list (string * string)) : string := sha256_hex (key_text image_ref layer_digests entrypoint env).

(** ** What a key serves *)

Inductive cache_op (D : Type) :=
  | OpGet (now : Z) (writes : bool) (key : string)
  | OpPut (now : Z) (removes : bool) (copy : copy_result D) (writes : bool) (key : string) (source : D) (description : string)
  | OpInvalidate (rmdir rmmeta : bool) (key : string).
Arguments OpGet {D} now writes key.
Arguments OpPut {D} now removes copy writes key source description.
Arguments OpInvalidate {D} rmdir rmmeta key.

Definition op_key {D} (o : cache_op D) : string :=
  match o with OpGet _ _ k => k | OpPut _ _ _ _ k _ _ => k | OpInvalidate _ _ k => k end.

(** What an operation answers: a hit or miss, or success or an error *)
Inductive answer (D : Type) := Hit (d : D) | Miss | Done | Failed (e : cache_error).
Arguments Hit {D} d.
Arguments Miss {D}.
Arguments Done {D}.
Arguments Failed {D} e.

Definition done_or {D A} (r : result cache_error A) : answer D := match r with Ok _ => Done | Err e => Failed e end.

Section history.
Context {D : Type} (dir_size : D → option Z) (copy_of : D → D) (name_of : string → string).

Definition cache_step (o : cache_op D) (c : cache D) : cache D * answer D :=
  match o with
  | OpGet now w k => let '(c, r) := get name_of now w k c in (c, match r with Some d => Hit d | None => Miss end)
  | OpPut now rm cp w k d desc => let '(c, r) := put dir_size copy_of name_of now rm cp w k d desc c in (c, done_or r)
  | OpInvalidate rd rm k => let '(c, r) := invalidate name_of rd rm k c in (c, done_or r)
  end.

Fixpoint cache_run (ops : list (cache_op D)) (c : cache D) : cache D * list (answer D) :=
  match ops with
  | [] => (c, [])
  | o :: ops => let '(c, a) := cache_step o c in let '(c, l) := cache_run ops c in (c, a :: l)
  end.

(** The promise for one key: the last tree that was copied for it, and whether the
    entry is on record. *)
Record slot := { whole : option D; recorded : bool }.
Definition blank : slot := {| whole := None; recorded := false |}.

Definition slot_step (key : string) (s : slot) (oa : cache_op D * answer D) : slot :=
  if bool_decide (op_key oa.1 = key) then
    match oa.1, oa.2 with
    | OpPut _ _ _ _ _ d _, Done => {| whole := Some (copy_of d); recorded := true |}
    | OpPut _ _ _ _ _ d _, Failed WriteFailed => {| whole := Some (copy_of d); recorded := recorded s |}
    | OpPut _ _ _ _ _ _ _, Failed CopyFailed => {| whole := None; recorded := recorded s |}
    | OpInvalidate _ _ _, Done => blank
    | OpInvalidate _ _ _, Failed RemoveMetaFailed => {| whole := None; recorded := recorded s |}
    | _, _ => s
    end
  else s.

Definition served (s : slot) : option D := if recorded s then whole s else None.

(** No copy breaks off over an entry that is on record, unless nothing of it is left. *)
Definition gentle (key : string) (s : slot) (o : cache_op D) : Prop :=
  match o with
  | OpPut _ _ (BrokenOff (Some _)) _ k _ _ => k = key → recorded s = false
  | _ => True
  end.

Fixpoint gentle_run (key : string) (s : slot) (h : list (cache_op D * answer D)) : Prop :=
  match h with
  | [] => True
  | oa :: h => gentle key s oa.1 ∧ gentle_run key (slot_step key s oa) h
  end.

(** The slot describes the entry of the key; what is there without a record does not count. *)
Definition slot_ok (key : string) (s : slot) (c : cache D) : Prop :=
  (recorded s = true ↔ is_Some (c_metas c !! name_of key)) ∧
  (recorded s = true → c_dirs c !! name_of key = whole s) ∧
  (∀ d, whole s = Some d → c_dirs c !! name_of key = Some d).

Lemma slot_get key s c now w : slot_ok key s c → (get name_of now w key c).2 = served s.
Proof.
  intros (Hr & Hw & _). unfold get, served. destruct (recorded s) eqn:E.
  - destruct (proj1 Hr eq_refl) as [m Hm]. rewrite Hm, (Hw eq_refl). by destruct (whole s).
  - destruct (c_metas c !! name_of key) as [m|] eqn:Hm; [|by destruct (c_dirs c !! name_of key)].
    exfalso. assert (false = true) by (apply Hr; by eexists). done.
Qed.

(** An operation on another name leaves the entry alone. *)
Lemma step_other o c name : name_of (op_key o) ≠ name →
  c_dirs (cache_step o c).1 !! name = c_dirs c !! name ∧
  (is_Some (c_metas (cache_step o c).1 !! name) ↔ is_Some (c_metas c !! name)).
Proof.
  intros Hne. destruct o as [now w k|now rm cp w k d desc|rd rm k]; cbn in *.
  - unfold get. destruct (c_dirs c !! name_of k), (c_metas c !! name_of k) as [[m|]|]; try done.
    destruct w; cbn; [|done]. by rewrite lookup_insert_ne.
  - unfold put. destruct (_ && _); [done|]. destruct cp as [|[p|]]; [destruct w|..]; cbn;
      rewrite ?lookup_insert_ne, ?lookup_delete_ne by done; done.
  - unfold invalidate. destruct (_ && _); [done|]. cbn.
    destruct (_ && _); cbn; rewrite ?lookup_delete_ne by done; done.
Qed.

Lemma slot_step_ok key s o c : (name_of (op_key o) = name_of key → op_key o = key) →
  slot_ok key s c → gentle key s o → slot_ok key (slot_step key s (o, (cache_step o c).2)) (cache_step o c).1.
Proof.
  intros Hinj Hok Hg. unfold slot_step. cbn [fst snd]. case_bool_decide as Hk.
  2: { destruct (step_other o c (name_of key)) as [Hd Hm]; [by intros H; apply Hk, Hinj|].
       destruct Hok as (Hr & Hw & Hx). unfold slot_ok. by rewrite Hm, Hd. }
  destruct Hok as (Hr & Hw & Hx). destruct o as [now w k|now rm cp w k d desc|rd rm k]; cbn in Hk, Hg |- *; subst k.
  - enough (c_dirs (get name_of now w key c).1 = c_dirs c ∧
            (is_Some (c_metas (get name_of now w key c).1 !! name_of key) ↔ is_Some (c_metas c !! name_of key))) as [Hd Hm].
    { destruct (get name_of now w key c) as [c' [d|]]; cbn in *; unfold slot_ok; by rewrite Hd, Hm. }
    unfold get. destruct (c_dirs c !! name_of key), (c_metas c !! name_of key) as [[m|]|] eqn:Em; cbn; rewrite ?Em; try done.
    destruct w; cbn; rewrite ?lookup_insert_eq, ?Em; [|done]. split; [done|]. by split; intros _; eexists.
  - unfold put. destruct (_ && _) eqn:E; cbn; [done|]. destruct cp as [|[p|]]; cbn.
    + destruct w; cbn; unfold slot_ok; cbn; rewrite ?lookup_insert_eq; [|done]. split; [by split|done].
    + specialize (Hg eq_refl). unfold slot_ok; cbn. rewrite lookup_insert_eq. split; [done|]. split; [congruence|done].
    + unfold slot_ok; cbn. rewrite lookup_delete_eq. done.
  - unfold invalidate. destruct (bool_decide (is_Some (c_dirs c !! name_of key)) && negb rd) eqn:E; cbn; [done|].
    destruct (bool_decide (is_Some (c_metas c !! name_of key)) && negb rm) eqn:E2; unfold slot_ok; cbn; rewrite ?lookup_delete_eq; [done|].
    split; [|by split]. split; [done|]. by intros [? ?].
Qed.

Lemma slot_run_ok key ops s c : (∀ o, o ∈ ops → name_of (op_key o) = name_of key → op_key o = key) →
  slot_ok key s c → gentle_run key s (zip ops (cache_run ops c).2) →
  slot_ok key (foldl (slot_step key) s (zip ops (cache_run ops c).2)) (cache_run ops c).1.
Proof.
  revert s c. induction ops as [|o ops IH]; intros s c Hinj Hok Hg; [done|]. cbn [cache_run] in *.
  pose proof (slot_step_ok key s o c (Hinj o (list_elem_of_here _ _)) Hok) as Hstep.
  destruct (cache_step o c) as [c1 a] eqn:E1.
  destruct (cache_run ops c1) as [c2 l] eqn:E2. cbn in *. destruct Hg as [Hg Hgs].
  specialize (IH (slot_step key s (o, a)) c1). rewrite E2 in IH. apply IH; [|by apply Hstep|done].
  intros o' Ho'. apply Hinj. by apply list_elem_of_further.
Qed.
End history.

(** A key serves what was cached for it.  Whatever happens to the files (removals,
    copies and writes may fail at any point) and in any order of operations, as long as
    no copy breaks off over an entry that is on record: looking a key up afterwards gives
    exactly the copy of the tree that was last cached for that key, whole, if its metadata was
    written and it has not been invalidated since, and nothing otherwise; operations on
    keys with other names make no difference. *)
Theorem cache_serves {D} (dir_size : D → option Z) (copy_of : D → D) (name_of : string → string) (ops : list (cache_op D)) key now w :
  (∀ o, o ∈ ops → name_of (op_key o) = name_of key → op_key o = key) →
  let '(c, answers) := cache_run dir_size copy_of name_of ops (empty_cache D) in
  gentle_run copy_of key blank (zip ops answers) →
  (get name_of now w key c).2 = served (foldl (slot_step copy_of key) blank (zip ops answers)).
Proof.
  intros Hinj. pose proof (slot_run_ok dir_size copy_of name_of key ops blank (empty_cache D) Hinj) as H.
  destruct (cache_run dir_size copy_of name_of ops (empty_cache D)) as [c answers]. cbn in H. intros Hg.
  apply slot_get, H; [|done]. unfold slot_ok. cbn. rewrite !lookup_empty. split; [|by split].
  split; [done|]. by intros [? ?].
Qed.

(** ** Pruning *)

Definition total (l : list CacheMeta) : Z := foldr (λ m n, cm_size m + n) 0 l.

Lemma total_nonneg l : Forall (λ m, 0 ≤ cm_size m) l → 0 ≤ total l.
Proof. unfold total. induction 1; cbn; lia. Qed.

Lemma total_perm l l' : l ≡ₚ l' → total l = total l'.
Proof. unfold total. induction 1; cbn; lia. Qed.

(** How many of the oldest entries have to go *)
Fixpoint evict_count (within : nat → Z → bool) (l : list CacheMeta) : nat :=
  match l with
  | [] => O
  | e :: l' => if within (length l) (total l) then O else S (evict_count within l')
  end.

Lemma evict_count_spec within l : within O 0 = true →
  (evict_count within l ≤ length l)%nat ∧
  within (length (drop (evict_count within l) l)) (total (drop (evict_count within l) l)) = true ∧
  ∀ j, (j < evict_count within l)%nat → within (length (drop j l)) (total (drop j l)) = false.
Proof.
  intros H0. induction l as [|e l (IH1 & IH2 & IH3)]; cbn [evict_count length].
  - cbn. split; [lia|]. split; [done|]. lia.
  - destruct (within (S (length l)) (total (e :: l))) eqn:E; [split; [lia|]; split; [done|]; lia|].
    split; [lia|]. split; [done|]. intros [|j] Hj; [done|]. apply IH3. lia.
Qed.

Section pruning.
Context {D : Type} (name_of : string → string).

Definition all_ok (_ : string) : bool * bool := (true, true).
Definition drop_entry (c : cache D) (e : CacheMeta) : cache D :=
  {| c_dirs := delete (name_of (cm_key e)) (c_dirs c); c_metas := delete (name_of (cm_key e)) (c_metas c) |}.

Lemma invalidate_all_ok key (c : cache D) : invalidate name_of true true key c =
  ({| c_dirs := delete (name_of key) (c_dirs c); c_metas := delete (name_of key) (c_metas c) |}, Ok ()).
Proof. unfold invalidate. by rewrite !andb_false_r. Qed.

Lemma prune_loop_spec within l k c : Forall (λ m, 0 ≤ cm_size m) l →
  prune_loop name_of all_ok within l (length l) (total l) k c =
    (foldl drop_entry c (take (evict_count within l) l), Ok (k + evict_count within l)%nat).
Proof.
  intros Hl. revert k c. induction Hl as [|e l He Hl IH]; intros k c; [by rewrite Nat.add_0_r|].
  cbn [prune_loop evict_count length]. destruct (within (S (length l)) (total (e :: l))); [by rewrite Nat.add_0_r|].
  cbn [all_ok fst snd]. rewrite invalidate_all_ok, Nat.sub_succ, Nat.sub_0_r.
  pose proof (total_nonneg l Hl). change (total (e :: l)) with (cm_size e + total l).
  replace (Z.max 0 (cm_size e + total l - cm_size e)) with (total l) by lia.
  rewrite IH. cbn [take foldl]. f_equal. f_equal. lia.
Qed.

Lemma drop_entries_lookup l (c : cache D) name :
  c_dirs (foldl drop_entry c l) !! name = (if bool_decide (name ∈ (name_of ∘ cm_key) <$> l) then None else c_dirs c !! name) ∧
  c_metas (foldl drop_entry c l) !! name = (if bool_decide (name ∈ (name_of ∘ cm_key) <$> l) then None else c_metas c !! name).
Proof.
  revert c. induction l as [|e l IH]; intros c; [done|]. cbn [foldl]. destruct (IH (drop_entry c e)) as [-> ->]. cbn.
  destruct (decide (name = name_of (cm_key e))) as [->|Hne].
  - rewrite !lookup_delete_eq. rewrite (bool_decide_eq_true_2 (_ ∈ _ :: _)) by apply list_elem_of_here.
    by case_bool_decide.
  - rewrite !lookup_delete_ne by done.
    rewrite (bool_decide_ext (name ∈ name_of (cm_key e) :: ((name_of ∘ cm_key) <$> l)) (name ∈ (name_of ∘ cm_key) <$> l)); [done|].
    rewrite elem_of_cons. naive_solver.
Qed.
End pruning.

(** Each metadata file names its own key. *)
Definition coherent {D} (name_of : string → string) (c : cache D) : Prop :=
  ∀ name m, c_metas c !! name = Some (Some m) → name_of (cm_key m) = name.

Lemma elem_of_entries `{HashOrder} {D} (c : cache D) m :
  m ∈ list_entries c ↔ ∃ name, c_metas c !! name = Some (Some m).
Proof.
  unfold list_entries. rewrite list_elem_of_omap. split.
  - intros ([name o] & Hin & Ho). cbn in Ho. subst o. exists name. by apply elem_of_hash_iter.
  - intros [name Hm]. exists (name, Some m). split; [by apply elem_of_hash_iter|done].
Qed.

Lemma entries_names `{HashOrder} {D} name_of (c : cache D) : coherent name_of c →
  NoDup ((name_of ∘ cm_key) <$> list_entries c).
Proof.
  intros Hc. unfold list_entries. pose proof (NoDup_hash_keys (c_metas c)) as Hnd. unfold hash_keys in Hnd.
  assert (∀ name m, (name, Some m) ∈ hash_iter (c_metas c) → name_of (cm_key m) = name) as Hn.
  { intros name m Hin%elem_of_hash_iter. by apply Hc. }
  induction (hash_iter (c_metas c)) as [|[name o] l IH]; [constructor|]. cbn in Hnd. apply NoDup_cons in Hnd as [Hni Hnd].
  assert (NoDup ((name_of ∘ cm_key) <$> omap snd l)) as IH'.
  { apply IH; [done|]. intros name' m' Hin. apply Hn. by apply list_elem_of_further. }
  destruct o as [m|]; cbn; [|done]. constructor; [|done]. rewrite (Hn name m) by apply list_elem_of_here.
  intros (m' & Hname & ([name' o'] & Hin & Ho)%list_elem_of_omap)%list_elem_of_fmap. cbn in Ho, Hname. subst o'.
  apply Hni. apply list_elem_of_fmap. exists (name', Some m'). split; [|done]. cbn.
  rewrite Hname. apply Hn. by apply list_elem_of_further.
Qed.

Lemma oldest_first_sorted l : StronglySorted (λ a b, cm_last_accessed a ≤ cm_last_accessed b) (oldest_first l).
Proof.
  assert (StronglySorted (λ a b, (cm_last_accessed a <=? cm_last_accessed b) = true) (oldest_first l)) as Hs.
  { apply sort_by_sorted.
    - intros a b. rewrite !Z.leb_le. lia.
    - intros a b d. rewrite !Z.leb_le. lia. }
  induction Hs as [|a l' _ IH Ha]; constructor; [done|]. eapply Forall_impl; [exact Ha|]. intros b. apply Z.leb_le.
Qed.

(** Pruning evicts no more than needed, oldest first.  On a cache whose metadata are
    in order, and with removals that succeed, it ends with the entries within the limits;
    what it evicted is the shortest run of least recently used entries that achieves
    this, their directories and metadata are gone, and the rest of the cache is as it
    was. *)
Theorem prune_exact `{HashOrder} {D} (name_of : string → string) (within : nat → Z → bool) (c : cache D) :
  coherent name_of c → within O 0 = true →
  Forall (λ m, 0 ≤ cm_size m) (list_entries c) → total (list_entries c) < 2 ^ 64 →
  let l := oldest_first (list_entries c) in
  ∃ c' n, prune name_of all_ok within c = (c', Ok n) ∧
    l ≡ₚ list_entries c ∧ StronglySorted (λ a b, cm_last_accessed a ≤ cm_last_accessed b) l ∧
    within (length (drop n l)) (total (drop n l)) = true ∧
    (∀ j, (j < n)%nat → within (length (drop j l)) (total (drop j l)) = false) ∧
    (∀ m, m ∈ list_entries c' ↔ m ∈ drop n l) ∧
    (∀ name, c_dirs c' !! name =
       if bool_decide (name ∈ (name_of ∘ cm_key) <$> take n l) then None else c_dirs c !! name).
Proof.
  intros Hc H0 Hpos Hsum. cbn zeta. set (l := oldest_first (list_entries c)).
  assert (l ≡ₚ list_entries c) as Hl by apply sort_by_perm.
  assert (Forall (λ m, 0 ≤ cm_size m) l) as Hposl by (by rewrite Hl).
  assert (sum_size (list_entries c) = total l) as Hs.
  { unfold sum_size. fold (total (list_entries c)). rewrite wrap_small; [by apply total_perm|].
    pose proof (total_nonneg _ Hpos). unfold in_range. lia. }
  destruct (evict_count_spec within l H0) as (Hle & Hin & Hout).
  exists (foldl (drop_entry name_of) c (take (evict_count within l) l)), (evict_count within l).
  assert (prune name_of all_ok within c =
    (foldl (drop_entry name_of) c (take (evict_count within l) l), Ok (evict_count within l))) as Hp.
  { unfold prune. cbn zeta. fold l. rewrite Hs, <-(Permutation_length Hl). destruct (within (length l) (total l)) eqn:E.
    - enough (evict_count within l = O) as -> by done. destruct l as [|e l']; [done|]. cbn [evict_count]. by rewrite E.
    - by rewrite (prune_loop_spec name_of within l 0 c Hposl). }
  split; [done|]. split; [done|]. split.
  { apply oldest_first_sorted. }
  split; [done|]. split; [done|]. split; [|intros name; apply drop_entries_lookup].
  intros m. rewrite elem_of_entries.
  assert (NoDup ((name_of ∘ cm_key) <$> l)) as Hnd by (rewrite Hl; by apply entries_names).
  rewrite <-(take_drop (evict_count within l) l) in Hnd at 1. rewrite fmap_app in Hnd.
  apply NoDup_app in Hnd as (_ & Hdis & _). setoid_rewrite (λ name, proj2 (drop_entries_lookup name_of _ c name)).
  split.
  - intros [name Hm]. case_bool_decide as Hni; [done|]. assert (m ∈ l) as Hml by (rewrite Hl, elem_of_entries; eauto).
    rewrite <-(take_drop (evict_count within l) l) in Hml. apply elem_of_app in Hml as [Hml|]; [|done].
    destruct Hni. apply list_elem_of_fmap. exists m. split; [|done]. symmetry. by apply Hc.
  - intros Hm. assert (m ∈ l) as Hml by (rewrite <-(take_drop (evict_count within l) l); apply elem_of_app; by right).
    rewrite Hl, elem_of_entries in Hml. destruct Hml as [name Hml]. exists name.
    rewrite bool_decide_eq_false_2; [done|]. intros Hni. apply (Hdis name Hni).
    apply list_elem_of_fmap. exists m. split; [|done]. symmetry. by apply Hc.
Qed.

(** ** Names and keys *)

Lemma digest_to_dirname_inj a b : has_char "_" a = false → has_char "_" b = false →
  digest_to_dirname a = digest_to_dirname b → a = b.
Proof.
  unfold digest_to_dirname. revert b. induction a as [|c a IH]; intros [|d b]; try done.
  cbn [has_char str_map]. intros [Hc Ha]%orb_false_iff [Hd Hb]%orb_false_iff [= Hcd Hab].
  f_equal; [|by apply IH]. apply Ascii.eqb_neq in Hc, Hd.
  destruct (Ascii.eqb_spec c ":"), (Ascii.eqb_spec d ":"); congruence.
Qed.

(** ** Examples and defects *)

Definition demo_cache : cache (list Z) := {|
  c_dirs := <["sha256_b" := [2]]> (<["sha256_a" := [1; 1]]> ∅);
  c_metas := <["sha256_b" := Some {| cm_key := "sha256:b"; cm_description := ""; cm_size := 30; cm_cached_at := 1; cm_last_accessed := 9 |}]>
             (<["sha256_a" := Some {| cm_key := "sha256:a"; cm_description := ""; cm_size := 80; cm_cached_at := 2; cm_last_accessed := 5 |}]> ∅) |}.

Lemma demo_coherent : coherent digest_to_dirname demo_cache.
Proof.
  intros name m Hm. cbn in Hm.
  destruct (decide (name = "sha256_b")) as [->|H1]; [rewrite lookup_insert_eq in Hm; by injection Hm as <-|].
  rewrite lookup_insert_ne in Hm by done.
  destruct (decide (name = "sha256_a")) as [->|H2]; [rewrite lookup_insert_eq in Hm; by injection Hm as <-|].
  by rewrite lookup_insert_ne, lookup_empty in Hm by done.
Qed.

Definition demo_ops : list (cache_op (list Z)) :=
  [OpPut 1 true Copied true "sha256:a" [1] ""; OpPut 2 true (BrokenOff (Some [9])) true "sha256:b" [2; 2] "";
   OpInvalidate true true "sha256:c"; OpPut 3 true Copied false "sha256:a" [3] ""].

Lemma cache_serves_witness :
  (get digest_to_dirname 5 true "sha256:a" (cache_run (λ _, Some 1) id digest_to_dirname demo_ops (empty_cache _)).1).2 = Some [3] ∧
  (get digest_to_dirname 5 true "sha256:b" (cache_run (λ _, Some 1) id digest_to_dirname demo_ops (empty_cache _)).1).2 = None.
Proof.
  split.
  - refine (eq_trans (cache_serves (λ _, Some 1) id digest_to_dirname demo_ops "sha256:a" 5 true _ _) _).
    + intros o Ho. unfold demo_ops in Ho. repeat (apply elem_of_cons in Ho as [->|Ho]; [done|]). by apply elem_of_nil in Ho.
    + vm_compute. repeat split; congruence.
    + reflexivity.
  - refine (eq_trans (cache_serves (λ _, Some 1) id digest_to_dirname demo_ops "sha256:b" 5 true _ _) _).
    + intros o Ho. unfold demo_ops in Ho. repeat (apply elem_of_cons in Ho as [->|Ho]; [done|]). by apply elem_of_nil in Ho.
    + vm_compute. repeat split; congruence.
    + reflexivity.
Defined.

Lemma prune_exact_witness :
  ∃ c' n, prune (H := list_order) digest_to_dirname all_ok (layer_within 50) demo_cache = (c', Ok n) ∧
    (∀ j, (j < n)%nat → layer_within 50 (length (drop j (oldest_first (list_entries (H := list_order) demo_cache))))
       (total (drop j (oldest_first (list_entries (H := list_order) demo_cache)))) = false).
Proof.
  destruct (prune_exact (H := list_order) digest_to_dirname (layer_within 50) demo_cache demo_coherent eq_refl)
    as (c' & n & Hp & _ & _ & _ & Hmin & _).
  - apply (bool_decide_unpack _). vm_compute. reflexivity.
  - apply Z.ltb_lt. vm_compute. reflexivity.
  - exists c', n. split; [exact Hp|exact Hmin].
Defined.

(** A copy that breaks off over an entry leaves the metadata of the old one beside a part
    of the new one: the next lookup serves the part. *)
Lemma broken_replacement_is_served :
  let c := (cache_run (λ d : list Z, Some (Z.of_nat (length d))) id digest_to_dirname
              [OpPut 1 true Copied true "sha256:a" [1] ""; OpPut 2 true (BrokenOff (Some [2])) true "sha256:a" [2; 3] ""]
              (empty_cache _)).1 in
  (get digest_to_dirname 3 true "sha256:a" c).2 = Some [2].
Proof. reflexivity. Qed.

(** A layer and an argument of the entry point are the same in the key. *)
Lemma key_ambiguous sha image a b env :
  compute_key sha image [a; b] [] env = compute_key sha image [a] [b] env.
Proof.
  unfold compute_key, key_text. do 5 f_equal. cbn [map String.concat].
  by rewrite !str_app_assoc.
Qed.

(** The digests are hashed in the order given. *)
Lemma key_order_matters : key_text "i" ["a"; "b"] [] [] ≠ key_text "i" ["b"; "a"] [] [].
Proof. vm_compute. congruence. Qed.
