(* ===== verification/Logs.v ===== *)
(** * Logs: container output from the console to the reader

    [core/src/log.rs] (the options, the processor that tails the console of a machine,
    the rotating file), [cri/src/runtime_service/log_writer.rs] (the CRI log file) and
    [cli/src/commands/logs.rs] (what [logs] prints).  The console arrives in chunks: a
    poll that finds the end of the file waits for the next one.  Text is its bytes, with
    UTF-8 validity computed.  gzip, serde_json, the clock, chrono's parser and Unicode
    lower case are arguments. *)

From Stdlib Require Import ZArith Lia Ascii.
From stdpp Require Import base gmap strings list numbers fin_maps.
From S2P Require Import Prelude RustStr Text BoxState Image Streaming.

Local Open Scope string_scope.
Local Open Scope list_scope.
Local Open Scope Z_scope.

(** ** Options *)

Definition show_driver (d : LogDriver) : string :=
  match d with JsonFile => "json-file" | Syslog => "syslog" | NoLog => "none" end.
Definition parse_driver (s : string) : result string LogDriver :=
  if bool_decide (s = "json-file") then Ok JsonFile
  else if bool_decide (s = "syslog") then Ok Syslog
  else if bool_decide (s = "none") then Ok NoLog
  else Err ("unknown log driver: '" +:+ s +:+ "' (supported: json-file, syslog, none)").

Definition log_default : LogConfig := {| driver := JsonFile; log_options := ∅ |}.

(** [parse_size]; the product is taken modulo [2 ^ 64]. *)
Definition parse_size (to_lowercase : string → string) (s : string) : option Z :=
  let s := to_lowercase (trim s) in
  match parse_uint 64 s with
  | Some n => Some n
  | None =>
      let scaled num mult := (λ n, wrap 64 (n * mult)) <$> parse_uint 64 num in
      if ends_with "gb" s || ends_with "g" s then scaled (trim_end_matches "g" (trim_end_matches "gb" s)) (1024 * 1024 * 1024)
      else if ends_with "mb" s || ends_with "m" s then scaled (trim_end_matches "m" (trim_end_matches "mb" s)) (1024 * 1024)
      else if ends_with "kb" s || ends_with "k" s then scaled (trim_end_matches "k" (trim_end_matches "kb" s)) 1024
      else if ends_with "b" s then scaled (trim_end_matches "b" s) 1
      else None
  end.

Definition max_size (to_lowercase : string → string) (c : LogConfig) : Z :=
  default (10 * 1024 * 1024) (log_options c !! "max-size" ≫= parse_size to_lowercase).
Definition max_file (c : LogConfig) : Z := default 3 (log_options c !! "max-file" ≫= parse_uint 32).
Definition syslog_address (c : LogConfig) : string := default "udp://localhost:514" (log_options c !! "syslog-address").
Definition syslog_facility (c : LogConfig) : string := default "daemon" (log_options c !! "syslog-facility").
Definition log_tag (c : LogConfig) : option string := log_options c !! "tag".

Record LogEntry := { le_log : string; le_stream : string; le_time : string }.

(** ** UTF-8 *)

Definition in_byte (r : Z * Z) (c : ascii) : bool := (r.1 <=? code c) && (code c <=? r.2).

(** [pending]: the ranges of the bytes that must come next. *)
Fixpoint utf8_go (pending : list (Z * Z)) (s : string) : bool :=
  match s, pending with
  | "", [] => true
  | "", _ => false
  | String c s, r :: pending => in_byte r c && utf8_go pending s
  | String c s, [] =>
      let tail := (0x80, 0xBF) in
      if code c <? 0x80 then utf8_go [] s
      else if in_byte (0xC2, 0xDF) c then utf8_go [tail] s
      else if code c =? 0xE0 then utf8_go [(0xA0, 0xBF); tail] s
      else if code c =? 0xED then utf8_go [(0x80, 0x9F); tail] s
      else if in_byte (0xE1, 0xEF) c then utf8_go [tail; tail] s
      else if code c =? 0xF0 then utf8_go [(0x90, 0xBF); tail; tail] s
      else if in_byte (0xF1, 0xF3) c then utf8_go [tail; tail; tail] s
      else if code c =? 0xF4 then utf8_go [(0x80, 0x8F); tail; tail] s
      else false
  end.
(** [str::from_utf8] succeeds. *)
Definition utf8 (s : string) : bool := utf8_go [] s.

(** ** Tailing the console *)

Definition LF : ascii := "010".
Definition CR : ascii := "013".

(** The bytes up to and with the first newline, or all of them; the rest *)
Fixpoint take_line (s : string) : string * string :=
  match s with
  | "" => ("", "")
  | String c s =>
      if Ascii.eqb c LF then (String c "", s)
      else let '(l, r) := take_line s in (String c l, r)
  end.

(** [BufRead::read_line] on what is available: the bytes are consumed; they are appended
    to the buffer only if they are valid UTF-8. *)
Inductive line_read := AtEnd | Bad | Got_line (seg : string).
Definition read_line (unread : string) : string * line_read :=
  match unread with
  | "" => ("", AtEnd)
  | _ => let '(seg, rest) := take_line unread in (rest, if utf8 seg then Got_line seg else Bad)
  end.

(** [trim_end_matches(|c| c == '\n' || c == '\r')] *)
Fixpoint trim_eol_rev (s : string) : string :=
  match s with
  | String c r => if Ascii.eqb c LF || Ascii.eqb c CR then trim_eol_rev r else s
  | "" => ""
  end.
Definition trim_eol (s : string) : string := str_rev (trim_eol_rev (str_rev s)).

(** A tail: what is unread, the partial line, the chunks that are still to come; the stop
    flag is set once there are none. *)
Record tail := { t_unread : string; t_buf : string; t_future : list string }.

(** [tail_next_line]; the outer [None] is lack of fuel, the inner one the end. *)
Fixpoint tail_next_line (fuel : nat) (t : tail) : option (option string * tail) :=
  match fuel with
  | O => None
  | S fuel =>
      match read_line (t_unread t) with
      | (rest, Got_line seg) =>
          let buf := t_buf t +:+ seg in
          if ends_with (String LF "") buf
          then Some (Some (trim_eol buf), {| t_unread := rest; t_buf := ""; t_future := t_future t |})
          else tail_next_line fuel {| t_unread := rest; t_buf := buf; t_future := t_future t |}
      | (rest, _) =>
          match t_future t with
          | chunk :: future => tail_next_line fuel {| t_unread := rest +:+ chunk; t_buf := t_buf t; t_future := future |}
          | [] =>
              if bool_decide (t_buf t = "") then Some (None, {| t_unread := rest; t_buf := ""; t_future := [] |})
              else Some (Some (trim_eol (t_buf t)), {| t_unread := rest; t_buf := ""; t_future := [] |})
          end
      end
  end.

Definition is_runtime_console_noise (line : string) : bool := starts_with "init.krun:" line.

(** [run_tagged_tail]: the lines it emits; the first [fuel] counts lines. *)
Fixpoint run_tagged_tail (fuel_lines fuel : nat) (filter_noise : bool) (t : tail) : option (list string) :=
  match fuel_lines with
  | O => None
  | S fuel_lines =>
      match tail_next_line fuel t with
      | None => None
      | Some (None, _) => Some []
      | Some (Some line, t) =>
          rest ← run_tagged_tail fuel_lines fuel filter_noise t;
          Some (if filter_noise && is_runtime_console_noise line then rest else line :: rest)
      end
  end.

(** ** The rotating file *)

(** The current file, the rotated ones by their index, and the counter *)
Record RotatingWriter := { rw_file : string; rw_rotated : gmap Z string; rw_written : Z; rw_max_size : Z; rw_max_file : Z }.

Definition new_writer (existing : string) (rotated : gmap Z string) (max_size max_file : Z) : RotatingWriter :=
  {| rw_file := existing; rw_rotated := rotated; rw_written := Z.of_nat (String.length existing);
     rw_max_size := max_size; rw_max_file := max_file |}.

Definition move_file (from to : Z) (m : gmap Z string) : gmap Z string :=
  match m !! from with Some f => <[to := f]> (delete from m) | None => m end.

(** [(1..n).rev()] *)
Definition rev_range (n : Z) : list Z := rev (Z.of_nat <$> seq 1 (Z.to_nat n - 1)).

Section rotating.
Context (gzip : string → string).

Definition rotate (w : RotatingWriter) : RotatingWriter :=
  let m := foldl (λ m i, move_file i (i + 1) m) (rw_rotated w) (rev_range (rw_max_file w)) in
  let m := delete (rw_max_file w) m in
  {| rw_file := ""; rw_rotated := <[1 := gzip (rw_file w)]> m; rw_written := 0;
     rw_max_size := rw_max_size w; rw_max_file := rw_max_file w |}.

Definition write_line (w : RotatingWriter) (line : string) : RotatingWriter :=
  let bytes := line +:+ String LF "" in
  let w := {| rw_file := rw_file w +:+ bytes; rw_rotated := rw_rotated w;
              rw_written := rw_written w + Z.of_nat (String.length bytes);
              rw_max_size := rw_max_size w; rw_max_file := rw_max_file w |} in
  if rw_max_size w <=? rw_written w then rotate w else w.
End rotating.

(** [run_json_file_processor]: the lines of the two streams in the order in which the lock
    was taken, each with the time of its record *)
Definition log_entry (stream line time : string) : LogEntry :=
  {| le_log := line +:+ String LF ""; le_stream := stream; le_time := time |}.

Definition run_json_file_processor (gzip : string → string) (to_json : LogEntry → string) (w : RotatingWriter)
    (emitted : list (string * string * string)) : RotatingWriter :=
  foldl (λ w '(stream, line, time), write_line gzip w (to_json (log_entry stream line time))) w emitted.

(** [run_syslog_processor]: where and how a line is sent *)
Inductive syslog_proto := Udp | Tcp.
Definition syslog_target (address : string) : syslog_proto * string :=
  match strip_prefix "udp://" address with
  | Some rest => (Udp, rest)
  | None => match strip_prefix "tcp://" address with Some rest => (Tcp, rest) | None => (Udp, address) end
  end.
Definition syslog_message (proto : syslog_proto) (tag line : string) : string :=
  "<30>" +:+ tag +:+ ": " +:+ line +:+ match proto with Udp => "" | Tcp => String LF "" end.

(** ** The CRI log file *)

Record CriLogWriter := { cw_file : string; cw_rotated : list string; cw_stdout : string; cw_stderr : string }.

Definition open_writer (log_path existing : string) : option CriLogWriter :=
  if bool_decide (log_path = "") then None
  else Some {| cw_file := existing; cw_rotated := []; cw_stdout := ""; cw_stderr := "" |}.

Definition stream_name (s : StreamType) : string := match s with Stdout => "stdout" | Stderr => "stderr" end.

Definition partial (s : StreamType) (w : CriLogWriter) : string :=
  match s with Stdout => cw_stdout w | Stderr => cw_stderr w end.
Definition set_partial (s : StreamType) (p : string) (w : CriLogWriter) : CriLogWriter :=
  match s with
  | Stdout => {| cw_file := cw_file w; cw_rotated := cw_rotated w; cw_stdout := p; cw_stderr := cw_stderr w |}
  | Stderr => {| cw_file := cw_file w; cw_rotated := cw_rotated w; cw_stdout := cw_stdout w; cw_stderr := p |}
  end.

Definition cri_record (time : string) (s : StreamType) (line : string) : string :=
  time +:+ " " +:+ stream_name s +:+ " F " +:+ line +:+ String LF "".

Definition write_record (time : string) (s : StreamType) (line : string) (w : CriLogWriter) : CriLogWriter :=
  {| cw_file := cw_file w +:+ cri_record time s line; cw_rotated := cw_rotated w;
     cw_stdout := cw_stdout w; cw_stderr := cw_stderr w |}.

(** The complete lines of a text, without their newlines, and what is left *)
Fixpoint cut (acc s : string) : list string * string :=
  match s with
  | "" => ([], acc)
  | String c s =>
      if Ascii.eqb c LF then let '(l, r) := cut "" s in (acc :: l, r)
      else cut (acc +:+ String c "") s
  end.

Definition write_chunk (time : string) (s : StreamType) (data : string) (w : CriLogWriter) : CriLogWriter :=
  let '(lines, rest) := cut "" (partial s w +:+ data) in
  foldl (λ w l, write_record time s l w) (set_partial s rest w) lines.

Definition flush_partial (time : string) (s : StreamType) (w : CriLogWriter) : CriLogWriter :=
  if bool_decide (partial s w = "") then w else write_record time s (partial s w) (set_partial s "" w).

Definition flush_partials (time : string) (w : CriLogWriter) : CriLogWriter :=
  flush_partial time Stderr (flush_partial time Stdout w).

(** [reopen], after the kubelet has renamed the file; [existing] is what is at the path. *)
Definition reopen (time existing : string) (w : CriLogWriter) : CriLogWriter :=
  let w := flush_partials time w in
  {| cw_file := existing; cw_rotated := cw_rotated w ++ [cw_file w]; cw_stdout := cw_stdout w; cw_stderr := cw_stderr w |}.

(** ** The logs command *)

Record LogSource := { ls_path : string; ls_structured : bool }.

Definition resolve_log_source (exists_ : string → bool) (json_log console_log : string) : option LogSource :=
  if exists_ json_log then Some {| ls_path := json_log; ls_structured := true |}
  else if exists_ console_log then Some {| ls_path := console_log; ls_structured := false |}
  else None.

(** What is printed, and whether to the standard error *)
Record printed := { to_stderr : bool; out : string }.

Section logs_command.
Context (from_json : string → option LogEntry) (parse_time : string → option Z).

(** The bounds are inclusive. *)
Definition time_ok (since until : option Z) (t : Z) : bool :=
  match since with Some s => negb (t <? s) | None => true end
  && match until with Some u => negb (u <? t) | None => true end.

Definition print_json_line (raw : string) (timestamps : bool) (since until : option Z) : list printed :=
  match from_json raw with
  | None => [{| to_stderr := false; out := raw +:+ String LF "" |}]
  | Some e =>
      let has_filter := bool_decide (is_Some since) || bool_decide (is_Some until) in
      if has_filter && match parse_time (le_time e) with Some t => negb (time_ok since until t) | None => false end then []
      else [{| to_stderr := bool_decide (le_stream e = "stderr");
               out := if timestamps then le_time e +:+ " " +:+ le_log e else le_log e |}]
  end.

(** [&line[..35]]: [None] is the panic on a byte that is not the boundary of a character. *)
Definition line_prefix (line : string) : option string :=
  if (35 <? String.length line)%nat then
    if continues (String.substring 35 1 line) then None else Some (String.substring 0 35 line)
  else Some line.

Definition extract_line_timestamp (line : string) : option (option Z) :=
  prefix ← line_prefix line;
  Some (head (split_whitespace prefix) ≫= parse_time).

Definition line_in_range (line : string) (since until : option Z) : option bool :=
  t ← extract_line_timestamp line;
  Some (match t with Some t => time_ok since until t | None => true end).

(** [print_line]; [now] is the time in RFC 3339. *)
Definition print_line (now line : string) (timestamps : bool) : printed :=
  {| to_stderr := false; out := (if timestamps then now +:+ " " +:+ line else line) +:+ String LF "" |}.

Definition show_line (structured timestamps : bool) (since until : option Z) (now line : string) : option (list printed) :=
  if structured then Some (print_json_line line timestamps since until)
  else
    let wanted := if bool_decide (is_Some since) || bool_decide (is_Some until)
                  then line_in_range line since until else Some true in
    (λ wanted, if wanted : bool then [print_line now line timestamps] else []) <$> wanted.

(** [stream_logs] on the content of the file, up to the point where it starts to follow:
    with [--follow] and no [--tail] nothing is shown before. *)
Definition stream_logs (structured : bool) (tail : option nat) (follow timestamps : bool) (since until : option Z)
    (now content : string) : option (list printed) :=
  let ls := lines content in
  let shown := match tail with
               | Some n => drop (length ls - n)%nat ls
               | None => if follow then [] else ls
               end in
  ps ← mapM (M := option) (show_line structured timestamps since until now) shown; Some (concat ps).
End logs_command.

(** [parse_duration] of [logs]: a number of seconds that is not zero *)
Definition parse_relative (parse_duration_secs : string → option Z) (s : string) : option Z :=
  n ← parse_duration_secs s; if n =? 0 then None else Some n.
Definition parse_time_filter (parse_time : string → option Z) (parse_duration_secs : string → option Z) (now : Z) (s : string) : option Z :=
  match parse_time s with
  | Some t => Some t
  | None => (λ n, now - n * 10 ^ 9) <$> parse_relative parse_duration_secs s
  end.

(** ** Cutting text into lines *)

Lemma cut_app acc a b : cut acc (a +:+ b) = ((cut acc a).1 ++ (cut (cut acc a).2 b).1, (cut (cut acc a).2 b).2).
Proof.
  revert acc. induction a as [|c a IH]; intros acc; cbn [String.append cut fst snd app]; [by destruct (cut acc b)|].
  destruct (Ascii.eqb c LF); [|apply IH]. rewrite IH. by destruct (cut "" a).
Qed.

Lemma cut_none acc s : has_char LF s = false → cut acc s = ([], acc +:+ s).
Proof.
  revert acc. induction s as [|c s IH]; intros acc; cbn [has_char cut]; [by rewrite str_app_nil_r|].
  intros [Hc Hs]%orb_false_iff. rewrite Hc, IH by done. by rewrite str_app_assoc.
Qed.

Lemma cut_line acc s r : has_char LF s = false →
  cut acc (s +:+ String LF r) = ((acc +:+ s) :: (cut "" r).1, (cut "" r).2).
Proof.
  intros Hs. rewrite cut_app, (cut_none acc s Hs). cbn [fst snd app cut]. rewrite Ascii.eqb_refl. by destruct (cut "" r).
Qed.

Lemma take_line_spec s : s ≠ "" →
  (∃ l, take_line s = (l +:+ String LF "", (take_line s).2) ∧ has_char LF l = false ∧ s = l +:+ String LF (take_line s).2) ∨
  (take_line s = (s, "") ∧ has_char LF s = false).
Proof.
  induction s as [|c s IH]; intros Hne; [done|]. cbn [take_line]. destruct (Ascii.eqb_spec c LF) as [->|Hc].
  - left. by exists "".
  - destruct (decide (s = "")) as [->|Hs].
    + right. cbn. by rewrite (proj2 (Ascii.eqb_neq _ _) Hc).
    + destruct (IH Hs) as [(l & Ht & Hl & Hsl)|[Ht Hl]]; destruct (take_line s) as [x y].
      * left. injection Ht as ->. exists (String c l). cbn in *. split; [done|]. split; [|by rewrite <-Hsl].
        by rewrite (proj2 (Ascii.eqb_neq _ _) Hc).
      * right. injection Ht as -> ->. cbn. by rewrite (proj2 (Ascii.eqb_neq _ _) Hc).
Qed.

(** ** Validity of pieces *)

Lemma utf8_newline p a b : Forall (λ r, 0x80 ≤ r.1) p →
  utf8_go p (a +:+ String LF b) = utf8_go p a && utf8_go [] b.
Proof.
  revert p. induction a as [|c a IH]; intros p Hp.
  - cbn [String.append]. destruct Hp as [|r p Hr _]; cbn [utf8_go]; [done|].
    unfold in_byte. rewrite (proj2 (Z.leb_gt _ _)); [done|]. change (code LF) with 10. lia.
  - cbn [String.append]. destruct Hp as [|r p Hr Hp]; cbn [utf8_go].
    + repeat match goal with |- context [if ?b then _ else _] => destruct b end;
        try (apply IH; repeat constructor; cbn; lia). done.
    + rewrite IH by done. by rewrite andb_assoc.
Qed.

Lemma utf8_lines a b : utf8 (a +:+ String LF b) = true → utf8 (a +:+ String LF "") = true ∧ utf8 b = true.
Proof.
  unfold utf8. rewrite !(utf8_newline [] a) by constructor. intros [Ha Hb]%andb_true_iff. by rewrite Ha.
Qed.

(** ** The tail *)

Definition future_text (l : list string) : string := String.concat "" l.
Lemma future_cons c l : future_text (c :: l) = c +:+ future_text l.
Proof. unfold future_text. destruct l; cbn; [by rewrite str_app_nil_r|done]. Qed.

(** Each round of the loop makes this smaller. *)
Definition todo (t : tail) : nat :=
  (String.length (t_unread t) + foldr (λ c n, S (String.length c + n)) O (t_future t))%nat.

Record tail_ok (t : tail) : Prop := {
  tk_unread : utf8 (t_unread t) = true;
  tk_future : Forall (λ c, utf8 c = true) (t_future t);
  tk_buf : has_char LF (t_buf t) = false }.

Definition remaining (t : tail) : list string * string := cut (t_buf t) (t_unread t +:+ future_text (t_future t)).

Lemma next_line_spec fuel t : tail_ok t → (todo t < fuel)%nat →
  match remaining t with
  | (l :: ls, r) => ∃ t', tail_next_line fuel t = Some (Some (trim_eol (l +:+ String LF "")), t') ∧ tail_ok t' ∧
                          remaining t' = (ls, r) ∧ (todo t' < todo t)%nat
  | ([], r) => if bool_decide (r = "") then ∃ t', tail_next_line fuel t = Some (None, t')
               else ∃ t', tail_next_line fuel t = Some (Some (trim_eol r), t') ∧ tail_ok t' ∧ remaining t' = ([], "") ∧ todo t' = O
  end.
Proof.
  revert t. induction fuel as [|fuel IH]; intros [u b F] [Hu HF Hb] Hf; [lia|]. cbn in Hu, HF, Hb.
  unfold remaining. cbn [t_buf t_unread t_future tail_next_line]. unfold read_line.
  destruct (decide (u = "")) as [->|Hune].
  - cbn [String.append]. destruct F as [|c F].
    + rewrite cut_none by done. cbn. rewrite str_app_nil_r. case_bool_decide; [by eexists|].
      eexists. split; [done|]. split; [by split|]. done.
    + rewrite future_cons. apply list.Forall_cons in HF as [Hc HF].
      specialize (IH {| t_unread := c; t_buf := b; t_future := F |} ltac:(by split)).
      unfold todo, remaining in *. cbn [t_buf t_unread t_future String.length foldr Nat.add] in *.
      specialize (IH ltac:(lia)).
      destruct (cut b (c +:+ future_text F)) as [[|l ls] r]; [done|].
      destruct IH as (t' & ? & ? & ? & ?). exists t'. split; [done|]. split; [done|]. split; [done|]. lia.
  - destruct u as [|a u]; [done|]. remember (String a u) as s eqn:Es. clear Es.
    destruct (take_line_spec s Hune) as [(l & Ht & Hl & Hs)|[Ht Hl]].
    + destruct (take_line s) as [seg rest]. cbn in Ht, Hs. injection Ht as ->. subst s.
      destruct (utf8_lines l rest Hu) as [H1 H2]. rewrite H1, <-str_app_assoc, ends_with_app.
      rewrite !str_app_assoc. cbn [String.append]. rewrite cut_line by done. eexists. split; [by rewrite str_app_assoc|].
      split; [by split|]. cbn [t_buf t_unread t_future]. split; [by destruct (cut "" _)|].
      unfold todo. cbn [t_unread t_future]. rewrite str_length_app. cbn. lia.
    + rewrite Ht. unfold utf8. rewrite Hu. rewrite (ends_with_no LF); [|done|by rewrite has_char_app, Hb].
      specialize (IH {| t_unread := ""; t_buf := b +:+ s; t_future := F |}). unfold remaining in IH. cbn [t_buf t_unread t_future] in IH.
      rewrite cut_app, (cut_none b s Hl). cbn [fst snd app].
      assert (tail_ok {| t_unread := ""; t_buf := b +:+ s; t_future := F |}) as Hok.
      { split; [done|done|]. cbn. by rewrite has_char_app, Hb. }
      assert (0 < String.length s)%nat by (destruct s; [done|cbn; lia]).
      specialize (IH Hok). unfold todo in *. cbn [t_unread t_future String.length] in *.
      specialize (IH ltac:(cbn in Hf; lia)). cbn [String.append] in IH.
      destruct (cut (b +:+ s) (future_text F)) as [[|l ls] r]; cbn [fst snd]; [done|].
      destruct IH as (t' & ? & ? & ? & ?). exists t'. split; [done|]. split; [done|]. split; [done|]. cbn. lia.
Qed.

(** The lines of a text as a tail shows them: at each newline, and what is left at the end *)
Definition console_lines (text : string) : list string :=
  let '(ls, r) := cut "" text in
  map (λ l, trim_eol (l +:+ String LF "")) ls ++ (if bool_decide (r = "") then [] else [trim_eol r]).
Definition keep_line (filter_noise : bool) (l : string) : bool := negb (filter_noise && is_runtime_console_noise l).

Lemma tagged_tail_spec fuel_lines fuel noise t : tail_ok t → (todo t < fuel)%nat → (S (todo t) < fuel_lines)%nat →
  run_tagged_tail fuel_lines fuel noise t =
    Some (List.filter (keep_line noise)
            (map (λ l, trim_eol (l +:+ String LF "")) (remaining t).1
             ++ (if bool_decide ((remaining t).2 = "") then [] else [trim_eol (remaining t).2]))).
Proof.
  assert (∀ x rest, (if noise && is_runtime_console_noise x then List.filter (keep_line noise) rest
                     else x :: List.filter (keep_line noise) rest) = List.filter (keep_line noise) (x :: rest)) as Hcons.
  { intros x rest. cbn. unfold keep_line. by destruct (noise && is_runtime_console_noise x). }
  revert t. induction fuel_lines as [|n IH]; intros t Hok Hf Hl; [lia|].
  pose proof (next_line_spec fuel t Hok Hf) as Hn. cbn [run_tagged_tail].
  destruct (remaining t) as [[|l ls] r] eqn:E; cbn [fst snd map app].
  - case_bool_decide; [by destruct Hn as [t' ->]|]. destruct Hn as (t' & -> & Hok' & Hr & Ht').
    destruct n as [|n]; [lia|]. pose proof (next_line_spec fuel t' Hok' ltac:(lia)) as Hend. rewrite Hr in Hend.
    destruct Hend as [t'' Hend]. cbn [run_tagged_tail]. rewrite Hend. cbn [mbind option_bind]. by rewrite <-Hcons.
  - destruct Hn as (t' & -> & Hok' & Hr & Ht'). rewrite IH by (done || lia). rewrite Hr. cbn [mbind option_bind fst snd].
    by rewrite <-Hcons.
Qed.

Definition start_tail (chunks : list string) : tail := {| t_unread := ""; t_buf := ""; t_future := chunks |}.
(** The lines a tail emits for a console *)
Definition emitted_lines (noise : bool) (chunks : list string) : option (list string) :=
  run_tagged_tail (S (S (todo (start_tail chunks)))) (S (todo (start_tail chunks))) noise (start_tail chunks).

(** The tail ends, and how the console was cut into chunks makes no difference. *)
Lemma tail_exact noise chunks : Forall (λ c, utf8 c = true) chunks →
  emitted_lines noise chunks = Some (List.filter (keep_line noise) (console_lines (future_text chunks))).
Proof.
  intros Hc. unfold emitted_lines. rewrite tagged_tail_spec; [|by split|lia|lia].
  unfold remaining, console_lines, start_tail. cbn [t_buf t_unread t_future String.append].
  by destruct (cut "" (future_text chunks)).
Qed.

(** ** Rotation *)

Definition with_newline (l : string) : string := l +:+ String LF "".
Definition text (g : list string) : string := String.concat "" (map with_newline g).

Lemma concat_snoc (l : list string) x : String.concat "" (l ++ [x]) = String.concat "" l +:+ x.
Proof.
  induction l as [|y l IH]; [done|]. destruct l as [|z l]; cbn in *; [done|]. by rewrite IH, !str_app_assoc.
Qed.

Lemma text_snoc g l : text (g ++ [l]) = text g +:+ with_newline l.
Proof. unfold text. rewrite map_app. cbn [map]. by rewrite concat_snoc. Qed.

(** How many rotated files there are room for *)
Definition keep (max_file : Z) : Z := Z.max 1 (max_file - 1).

Definition down (k : nat) : list Z := rev (Z.of_nat <$> seq 1 k).
Lemma down_S k : down (S k) = Z.of_nat (S k) :: down k.
Proof. unfold down. rewrite seq_S, fmap_app, rev_app_distr. done. Qed.

Lemma move_lookup (m : gmap Z string) i j : m !! (i + 1) = None →
  move_file i (i + 1) m !! j = if bool_decide (j = i + 1) then m !! i else if bool_decide (j = i) then None else m !! j.
Proof.
  intros Hn. unfold move_file. destruct (m !! i) as [f|] eqn:E; repeat case_bool_decide; subst;
    rewrite ?lookup_insert_eq, ?lookup_insert_ne, ?lookup_delete_eq, ?lookup_delete_ne by lia; try done.
Qed.

(** The loop shifts the files up by one. *)
Lemma shift_lookup (m : gmap Z string) k j : m !! (Z.of_nat k + 1) = None → (0 < k)%nat →
  foldl (λ m i, move_file i (i + 1) m) m (down k) !! j =
    if bool_decide (j = 1) then None
    else if bool_decide (2 ≤ j ≤ Z.of_nat k + 1) then m !! (j - 1) else m !! j.
Proof.
  revert m. induction k as [|k IH]; intros m Hn Hk; [lia|]. rewrite down_S. cbn [foldl].
  destruct k as [|k].
  - change (down 0) with (@nil Z). cbn [foldl]. rewrite move_lookup by done. repeat case_bool_decide; subst; try lia; try done.
  - rewrite IH by (try lia; rewrite move_lookup by done; repeat case_bool_decide; try lia; done).
    rewrite !move_lookup by done. repeat case_bool_decide; try lia; try done. f_equal. lia.
Qed.

Section rotation.
Context (gzip : string → string).

Definition rotated_as (n : Z) (hs : list (list string)) (m : gmap Z string) : Prop :=
  ∀ i, m !! i = if bool_decide (1 ≤ i ≤ n) then (gzip ∘ text) <$> (hs !! Z.to_nat (i - 1)) else None.

Lemma rotate_files mf (m : gmap Z string) hs g : 0 ≤ mf → rotated_as (keep mf) hs m →
  rotated_as (keep mf) (g :: hs)
    (<[1 := gzip (text g)]> (delete mf (foldl (λ m i, move_file i (i + 1) m) m (rev_range mf)))).
Proof.
  intros Hmf Hm i. destruct (decide (i = 1)) as [->|Hi].
  { rewrite lookup_insert_eq. rewrite bool_decide_eq_true_2 by (unfold keep; lia). done. }
  rewrite lookup_insert_ne by done.
  assert (∀ j, 1 ≤ j → Z.to_nat (j - 1) = S (Z.to_nat (j - 1 - 1)) ∨ j = 1) as Hj by lia.
  destruct (decide (mf ≤ 1)) as [Hle|Hgt].
  - assert (rev_range mf = []) as ->.
    { unfold rev_range. by replace (Z.to_nat mf - 1)%nat with O by lia. }
    cbn [foldl]. assert (keep mf = 1) as Hk by (unfold keep; lia). rewrite Hk.
    rewrite bool_decide_eq_false_2 by lia.
    destruct (decide (i = mf)) as [->|]; [apply lookup_delete_eq|rewrite lookup_delete_ne by done].
    rewrite Hm, Hk. by rewrite bool_decide_eq_false_2 by lia.
  - assert (keep mf = mf - 1) as Hk by (unfold keep; lia). rewrite Hk.
    change (rev_range mf) with (down (Z.to_nat mf - 1)).
    destruct (decide (i = mf)) as [->|Hne].
    { rewrite lookup_delete_eq, bool_decide_eq_false_2 by lia. done. }
    rewrite lookup_delete_ne by done. rewrite shift_lookup; [|rewrite Hm, bool_decide_eq_false_2 by lia; done|lia].
    rewrite (bool_decide_eq_false_2 (i = 1)) by done. repeat case_bool_decide; try lia.
    + rewrite Hm, Hk, bool_decide_eq_true_2 by lia. destruct (Hj i) as [->|]; [lia| |lia]. done.
    + rewrite Hm, Hk. by rewrite bool_decide_eq_false_2 by lia.
Qed.

(** The lines written so far: the groups that were rotated, newest first, and the current one *)
Record written (lines : list string) (hs : list (list string)) (cur : list string) (w : RotatingWriter) : Prop := {
  wr_lines : lines = concat (rev hs) ++ cur;
  wr_file : rw_file w = text cur;
  wr_count : rw_written w = Z.of_nat (String.length (text cur));
  wr_rotated : rotated_as (keep (rw_max_file w)) hs (rw_rotated w);
  wr_groups : Forall (λ g, rw_max_size w ≤ Z.of_nat (String.length (text g)) ∧
                ∃ g' l, g = g' ++ [l] ∧ Z.of_nat (String.length (text g')) < rw_max_size w) hs;
  wr_cur : Z.of_nat (String.length (text cur)) < rw_max_size w }.

Lemma write_line_written lines hs cur w l : 0 ≤ rw_max_file w → written lines hs cur w →
  (∃ hs' cur', written (lines ++ [l]) hs' cur' (write_line gzip w l)) ∧
  rw_max_file (write_line gzip w l) = rw_max_file w ∧ rw_max_size (write_line gzip w l) = rw_max_size w.
Proof.
  intros Hmf [Hl Hf Hc Hr Hg Hcur]. unfold write_line. fold (with_newline l). cbn [rw_max_size rw_written].
  rewrite Hc, Hf, <-Nat2Z.inj_add, <-str_length_app, <-text_snoc.
  destruct (Z.leb_spec (rw_max_size w) (Z.of_nat (String.length (text (cur ++ [l]))))) as [Hfull|Hroom].
  - split; [|done]. exists ((cur ++ [l]) :: hs), []. unfold rotate. cbn [rw_file rw_rotated rw_max_size rw_max_file].
    split; cbn [rw_file rw_rotated rw_max_size rw_max_file rw_written].
    + rewrite Hl. cbn [rev]. rewrite concat_app. cbn. by rewrite !app_nil_r, app_assoc.
    + done.
    + done.
    + by apply rotate_files.
    + constructor; [|done]. split; [done|]. by exists cur, l.
    + cbn. pose proof (Nat2Z.is_nonneg (String.length (text cur))). lia.
  - split; [|done]. exists hs, (cur ++ [l]). split; try done. cbn. by rewrite Hl, app_assoc.
Qed.

Lemma write_lines_written ls lines hs cur w : 0 ≤ rw_max_file w → written lines hs cur w →
  ∃ hs' cur', written (lines ++ ls) hs' cur' (foldl (write_line gzip) w ls).
Proof.
  revert lines hs cur w. induction ls as [|l ls IH]; intros lines hs cur w Hmf Hw.
  - exists hs, cur. by rewrite app_nil_r.
  - cbn [foldl]. destruct (write_line_written lines hs cur w l Hmf Hw) as [(hs' & cur' & Hw') [Hm _]].
    replace (lines ++ l :: ls) with ((lines ++ [l]) ++ ls) by (by rewrite <-app_assoc).
    apply (IH _ hs' cur'); [by rewrite Hm|done].
Qed.

Lemma new_writer_written max_size max_file : 0 < max_size → written [] [] [] (new_writer "" ∅ max_size max_file).
Proof.
  intros Hs. split; cbn; try done. intros i. rewrite lookup_empty. by case_bool_decide.
Qed.
End rotation.

Lemma write_lines_limits gzip ls w : rw_max_size (foldl (write_line gzip) w ls) = rw_max_size w ∧
                                     rw_max_file (foldl (write_line gzip) w ls) = rw_max_file w.
Proof.
  revert w. induction ls as [|x xs IH]; intros w; [done|]. cbn [foldl]. destruct (IH (write_line gzip w x)) as [-> ->].
  unfold write_line. cbn. by destruct (_ <=? _).
Qed.

(** Rotation loses nothing but the oldest files.  From an empty directory, after any
    lines were written, the lines are cut into consecutive groups: the last one is the
    current file, and the rotated files 1, 2, ... are the groups before it, newest first,
    compressed, as far as there is room for them (one less than [max_file], at least
    one), with no other file left.  A group was closed by the first line with which it
    reached [max_size], so no file exceeds it by more than one line, and no line is ever
    split. *)
Theorem rotation_exact (gzip : string → string) max_size max_file ls :
  0 < max_size → 0 ≤ max_file →
  let w := foldl (write_line gzip) (new_writer "" ∅ max_size max_file) ls in
  ∃ hs cur, ls = concat (rev hs) ++ cur ∧ rw_file w = text cur ∧
    (∀ i, rw_rotated w !! i =
       if bool_decide (1 ≤ i ≤ keep max_file) then (gzip ∘ text) <$> (hs !! Z.to_nat (i - 1)) else None) ∧
    Forall (λ g, max_size ≤ Z.of_nat (String.length (text g)) ∧
       ∃ g' l, g = g' ++ [l] ∧ Z.of_nat (String.length (text g')) < max_size) hs ∧
    Z.of_nat (String.length (text cur)) < max_size.
Proof.
  intros Hs Hf. cbn zeta. destruct (write_lines_written gzip ls [] [] [] (new_writer "" ∅ max_size max_file) Hf)
    as (hs & cur & [Hl Hfile _ Hr Hg Hc]); [by apply new_writer_written|].
  destruct (write_lines_limits gzip ls (new_writer "" ∅ max_size max_file)) as [H1 H2]. unfold rotated_as in Hr. rewrite H1 in Hg, Hc. rewrite H2 in Hr.
  exists hs, cur. cbn in Hl. done.
Qed.

(** ** The CRI log *)

Lemma cut_rest acc s : has_char LF acc = false → has_char LF (cut acc s).2 = false.
Proof.
  revert acc. induction s as [|c s IH]; intros acc Hacc; cbn [cut]; [done|].
  destruct (Ascii.eqb c LF) eqn:E; [destruct (cut "" s) as [l r] eqn:Ec; specialize (IH "" eq_refl); by rewrite Ec in IH|].
  apply IH. rewrite has_char_app, Hacc. cbn. by rewrite E.
Qed.

Lemma cut_continue acc s : has_char LF acc = false → cut "" (acc +:+ s) = cut acc s.
Proof. intros H. rewrite cut_app, (cut_none "" acc H). cbn. by destruct (cut acc s). Qed.

Abbreviation cri_rec := (string * StreamType * string)%type.
Definition rec_text (recs : list cri_rec) : string := String.concat "" (map (λ '(t, s, l), cri_record t s l) recs).
Definition on_stream (s : StreamType) (recs : list cri_rec) : list string :=
  omap (λ '(_, s', l), match s, s' with Stdout, Stdout | Stderr, Stderr => Some l | _, _ => None end) recs.

Lemma rec_text_snoc recs t s l : rec_text (recs ++ [(t, s, l)]) = rec_text recs +:+ cri_record t s l.
Proof. unfold rec_text. rewrite map_app. cbn [map]. by rewrite concat_snoc. Qed.

Lemma on_stream_app s a b : on_stream s (a ++ b) = on_stream s a ++ on_stream s b.
Proof. unfold on_stream. apply omap_app. Qed.

(** The file holds these records, and nothing has been set aside. *)
Definition logged (recs : list cri_rec) (w : CriLogWriter) : Prop := cw_file w = rec_text recs.

Lemma write_records_logged t s ls recs w : logged recs w →
  logged (recs ++ map (λ l, (t, s, l)) ls) (foldl (λ w l, write_record t s l w) w ls) ∧
  (∀ s', partial s' (foldl (λ w l, write_record t s l w) w ls) = partial s' w).
Proof.
  revert recs w. induction ls as [|l ls IH]; intros recs w Hw; cbn [foldl map]; [by rewrite app_nil_r|].
  destruct (IH (recs ++ [(t, s, l)]) (write_record t s l w)) as [H1 H2].
  { unfold logged. rewrite rec_text_snoc. cbn. by rewrite Hw. }
  rewrite <-app_assoc in H1. split; [exact H1|]. intros s'. rewrite H2. by destruct s'.
Qed.

Lemma on_stream_same s t ls : on_stream s (map (λ l, (t, s, l)) ls) = ls.
Proof. induction ls as [|l ls IH]; [done|]. unfold on_stream in *. destruct s; cbn in *; by rewrite IH. Qed.
Lemma on_stream_other s s' t ls : s ≠ s' → on_stream s (map (λ l, (t, s', l)) ls) = [].
Proof. intros Hne. induction ls as [|l ls IH]; [done|]. unfold on_stream in *. destruct s, s'; cbn in *; congruence. Qed.

(** The bytes of a stream *)
Definition bytes_on (s : StreamType) (evs : list cri_rec) : string := String.concat "" (on_stream s evs).

Lemma bytes_on_snoc s evs t s' d :
  bytes_on s (evs ++ [(t, s', d)]) = bytes_on s evs +:+ match s, s' with Stdout, Stdout | Stderr, Stderr => d | _, _ => "" end.
Proof.
  unfold bytes_on. rewrite on_stream_app. destruct s, s'; cbn; by rewrite ?app_nil_r, ?str_app_nil_r, ?concat_snoc.
Qed.

Definition write_all_chunks (evs : list cri_rec) (w : CriLogWriter) : CriLogWriter :=
  foldl (λ w '(t, s, d), write_chunk t s d w) w evs.

(** The records are the lines that are complete, the rest is held back. *)
Definition cri_ok (evs recs : list cri_rec) (w : CriLogWriter) : Prop :=
  logged recs w ∧ ∀ s, (on_stream s recs, partial s w) = cut "" (bytes_on s evs).

Lemma write_chunk_ok evs recs w t s d : cri_ok evs recs w →
  ∃ recs', cri_ok (evs ++ [(t, s, d)]) recs' (write_chunk t s d w).
Proof.
  intros [Hlog Hs]. unfold write_chunk.
  assert (has_char LF (partial s w) = false) as Hp.
  { pose proof (cut_rest "" (bytes_on s evs) eq_refl) as H. by rewrite <-Hs in H. }
  rewrite cut_continue by done. destruct (cut (partial s w) d) as [ls rest] eqn:Ec.
  assert (logged recs (set_partial s rest w)) as Hlog' by (by destruct s).
  destruct (write_records_logged t s ls recs _ Hlog') as [H1 H2]. exists (recs ++ map (λ l, (t, s, l)) ls).
  split; [done|]. intros s'. rewrite H2, on_stream_app, bytes_on_snoc, cut_app, <-(Hs s'). cbn [fst snd].
  destruct (decide (s' = s)) as [->|Hne].
  - rewrite on_stream_same. destruct s; cbn in *; by rewrite Ec.
  - rewrite on_stream_other by done. rewrite app_nil_r. destruct s, s'; try done; cbn; by rewrite ?app_nil_r.
Qed.

Lemma write_all_ok evs : ∃ recs, cri_ok evs recs
  (write_all_chunks evs {| cw_file := ""; cw_rotated := []; cw_stdout := ""; cw_stderr := "" |}).
Proof.
  induction evs as [|[[t s] d] evs [recs IH]] using rev_ind.
  - exists []. split; [done|]. by intros [].
  - unfold write_all_chunks in *. rewrite foldl_app. cbn [foldl]. by apply (write_chunk_ok evs recs).
Qed.

Lemma flush_partial_ok t s recs w : logged recs w →
  ∃ recs', logged recs' (flush_partial t s w) ∧
    (∀ s', on_stream s' recs' = on_stream s' recs ++
       (if bool_decide (s' = s) then if bool_decide (partial s w = "") then [] else [partial s w] else [])) ∧
    (∀ s', s' ≠ s → partial s' (flush_partial t s w) = partial s' w).
Proof.
  intros Hlog. unfold flush_partial. case_bool_decide as Hp.
  - exists recs. split; [done|]. split; [|done]. intros s'. case_bool_decide; by rewrite app_nil_r.
  - exists (recs ++ [(t, s, partial s w)]). split.
    { unfold logged in *. rewrite rec_text_snoc, <-Hlog. by destruct s. }
    split; [|by destruct s; intros []].
    intros s'. rewrite on_stream_app. f_equal. case_bool_decide as Hs; [subst; by destruct s|]. by destruct s, s'.
Qed.

(** A container's log is its output.  Whatever chunks of the two streams arrive, in
    any interleaving, once the writer is flushed the file is a sequence of records, and
    the lines of the records of each stream are exactly the lines of the bytes of that
    stream, in order, with what follows its last newline as the last one if there is
    any. *)
Theorem cri_log_exact (evs : list cri_rec) (t : string) :
  ∃ recs, cw_file (flush_partials t (write_all_chunks evs {| cw_file := ""; cw_rotated := []; cw_stdout := ""; cw_stderr := "" |}))
          = rec_text recs ∧
    ∀ s, on_stream s recs =
      (cut "" (bytes_on s evs)).1 ++ (if bool_decide ((cut "" (bytes_on s evs)).2 = "") then [] else [(cut "" (bytes_on s evs)).2]).
Proof.
  destruct (write_all_ok evs) as [recs [Hlog Hs]]. set (w := write_all_chunks _ _) in *. unfold flush_partials.
  destruct (flush_partial_ok t Stdout recs w Hlog) as (recs1 & Hlog1 & H1 & Hp1).
  destruct (flush_partial_ok t Stderr recs1 _ Hlog1) as (recs2 & Hlog2 & H2 & _).
  exists recs2. split; [done|]. intros s. rewrite <-(Hs s). cbn [fst snd]. rewrite H2, H1, (Hp1 Stderr) by done.
  destruct s; cbn; by rewrite ?app_nil_r.
Qed.

(** ** From the console to the reader *)

Lemma text_lines g : Forall one_line g → lines (text g) = g.
Proof.
  intros Hg. destruct (decide (g = [])) as [->|Hne]; [done|].
  assert (text g = join newline g +:+ newline) as ->; [|by apply lines_join_clean].
  unfold text, join. clear Hg. induction g as [|x g IH]; [done|]. destruct g as [|y g]; [done|].
  change (String.concat "" (map with_newline (x :: y :: g))) with (with_newline x +:+ String.concat "" (map with_newline (y :: g))).
  rewrite IH by done. unfold with_newline. rewrite str_app_assoc.
  change (String.concat newline (x :: y :: g)) with (x +:+ newline +:+ String.concat newline (y :: g)). by rewrite !str_app_assoc.
Qed.

Lemma text_app a b : text (a ++ b) = text a +:+ text b.
Proof.
  induction b as [|x b IH] using rev_ind; [by rewrite app_nil_r, str_app_nil_r|].
  by rewrite app_assoc, !text_snoc, IH, str_app_assoc.
Qed.

(** As long as they fit in one file, the lines are all in the current one. *)
Lemma unrotated gzip ls max_size max_file : Z.of_nat (String.length (text ls)) < max_size → 0 ≤ max_file →
  rw_file (foldl (write_line gzip) (new_writer "" ∅ max_size max_file) ls) = text ls.
Proof.
  intros Hsize Hmf. set (w := new_writer "" ∅ max_size max_file).
  destruct (write_lines_written gzip ls [] [] [] w Hmf) as (hs & cur & [Hl Hf _ _ Hg _]).
  { apply new_writer_written. lia. }
  cbn in Hl. destruct hs as [|g hs]; [by rewrite Hf, Hl|]. exfalso.
  apply list.Forall_cons in Hg as [[Hg _] _]. rewrite (proj1 (write_lines_limits gzip ls w)) in Hg. cbn in Hg.
  rewrite Hl in Hsize. cbn [rev] in Hsize. rewrite concat_app in Hsize. cbn [concat] in Hsize.
  rewrite app_nil_r, !text_app, !str_length_app in Hsize. lia.
Qed.

Abbreviation emission := (string * string * string)%type.
Definition lines_on (s : string) (em : list emission) : list string :=
  omap (λ '(st, l, _), if bool_decide (st = s) then Some l else None) em.

Section end_to_end.
Context (gzip : string → string) (to_json : LogEntry → string) (from_json : string → option LogEntry).
Context (parse_time : string → option Z).
Hypothesis json_roundtrip : ∀ e, from_json (to_json e) = Some e.
Hypothesis json_line : ∀ e, one_line (to_json e).

Definition json_of (em : emission) : string := let '(st, l, t) := em in to_json (log_entry st l t).

Lemma processor_lines w em : run_json_file_processor gzip to_json w em = foldl (write_line gzip) w (map json_of em).
Proof using. revert w. induction em as [|[[st l] t] em IH]; intros w; [done|]. apply IH. Qed.

Lemma shown_emissions now em :
  mapM (M := option) (show_line from_json parse_time true false None None now) (map json_of em) =
    Some (map (λ '(st, l, _), [{| to_stderr := bool_decide (st = "stderr"); out := with_newline l |}]) em).
Proof using json_roundtrip.
  apply mapM_Some_2. induction em as [|[[st l] t] em IH]; cbn [map]; constructor; [|exact IH].
  cbn. unfold print_json_line. by rewrite json_roundtrip.
Qed.

(** C33: [logs] shows the container's output.  Let the two consoles arrive in chunks of valid UTF-8
    (no chunk ends inside a character).  Then both tails end; and when the lines they emit are
    recorded in any interleaving, in a log that is empty at first, with every write succeeding
    and all records fitting in one file, and each record is one line that reads back as its entry,
    then [logs], without a filter or [--tail], prints to its standard output exactly the lines
    of the machine's standard output, in order, and to its standard error exactly those of its
    standard error.  A line is taken without its newline and the carriage returns at its end, the
    last one also without a newline, and is left out when it begins with [init.krun:]. *)
Theorem logs_show_output out_chunks err_chunks :
  Forall (λ c, utf8 c = true) out_chunks → Forall (λ c, utf8 c = true) err_chunks →
  ∃ outs errs, emitted_lines true out_chunks = Some outs ∧ emitted_lines true err_chunks = Some errs ∧
  ∀ em max_size max_file now, lines_on "stdout" em = outs → lines_on "stderr" em = errs →
  Forall (λ e, e.1.1 = "stdout" ∨ e.1.1 = "stderr") em →
  Z.of_nat (String.length (text (map json_of em))) < max_size → 0 ≤ max_file →
  ∃ ps,
    stream_logs from_json parse_time true None false false None None now
      (rw_file (run_json_file_processor gzip to_json (new_writer "" ∅ max_size max_file) em)) = Some ps ∧
    out <$> List.filter (λ p, negb (to_stderr p)) ps =
      with_newline <$> List.filter (keep_line true) (console_lines (future_text out_chunks)) ∧
    out <$> List.filter to_stderr ps =
      with_newline <$> List.filter (keep_line true) (console_lines (future_text err_chunks)).
Proof using json_roundtrip json_line.
  intros Ho He. eexists _, _. split; [by apply tail_exact|]. split; [by apply tail_exact|].
  intros em max_size max_file now Hlo Hle Hem Hsize Hmf. rewrite <-Hlo, <-Hle. clear Hlo Hle.
  unfold stream_logs. rewrite processor_lines, unrotated by done. rewrite text_lines.
  2: { apply list.Forall_forall. intros x (e & <- & _)%list_elem_of_In%in_map_iff. destruct e as [[? ?] ?]. apply json_line. }
  rewrite shown_emissions. eexists. split; [done|]. clear Hsize. split.
  - induction Hem as [|[[st l] t] em Hst _ IH]; [done|]. cbn in Hst. destruct Hst as [-> | ->]; [|exact IH].
    exact (f_equal (cons (with_newline l)) IH).
  - induction Hem as [|[[st l] t] em Hst _ IH]; [done|]. cbn in Hst. destruct Hst as [-> | ->]; [exact IH|].
    exact (f_equal (cons (with_newline l)) IH).
Qed.
End end_to_end.

(** ** Examples and defects *)

Lemma rotation_exact_witness :
  let w := foldl (write_line (λ s, s)) (new_writer "" ∅ 4 3) ["a"; "b"; "cc"; "ddd"; "e"] in
  ∃ hs cur, ["a"; "b"; "cc"; "ddd"; "e"] = concat (rev hs) ++ cur ∧ rw_file w = text cur ∧
    (∀ i, rw_rotated w !! i =
       if bool_decide (1 ≤ i ≤ keep 3) then ((λ s, s) ∘ text) <$> (hs !! Z.to_nat (i - 1)) else None).
Proof.
  destruct (rotation_exact (λ s, s) 4 3 ["a"; "b"; "cc"; "ddd"; "e"]) as (hs & cur & Hl & Hf & Hr & _).
  - lia.
  - lia.
  - exists hs, cur. split; [exact Hl|]. split; [exact Hf|exact Hr].
Defined.

(** A printer of entries for the examples *)
Definition toy_json (e : LogEntry) : string := show_bits (encode (le_log e, le_stream e, le_time e)).
Definition toy_parse (s : string) : option LogEntry :=
  (λ '(l, st, t), {| le_log := l; le_stream := st; le_time := t |}) <$> decode (read_bits s).

Lemma toy_roundtrip e : toy_parse (toy_json e) = Some e.
Proof. unfold toy_parse, toy_json. rewrite decode_show. by destruct e. Qed.

Lemma toy_one_line e : one_line (toy_json e).
Proof. unfold toy_json. generalize (encode (le_log e, le_stream e, le_time e)) as p. induction p; split; cbn; by try apply IHp. Qed.

Definition demo_emissions : list emission :=
  [("stdout", "hello", "t1"); ("stderr", "oops", "t2"); ("stdout", "world", "t3")].

Lemma logs_show_output_witness :
  ∃ ps,
    stream_logs toy_parse (λ _, None) true None false false None None ""
      (rw_file (run_json_file_processor (λ s, s) toy_json (new_writer "" ∅ 100000 3) demo_emissions)) = Some ps ∧
    out <$> List.filter (λ p, negb (to_stderr p)) ps = [with_newline "hello"; with_newline "world"].
Proof.
  destruct (logs_show_output (λ s, s) toy_json toy_parse (λ _, None) toy_roundtrip toy_one_line
    ["init.krun: x" +:+ newline +:+ "hel"; "lo" +:+ newline +:+ "world"] ["oops" +:+ newline]) as (outs & errs & Ho & He & Hshow).
  - repeat constructor.
  - repeat constructor.
  - destruct (Hshow demo_emissions 100000 3 "") as (ps & Hps & Hout & _).
    + injection Ho as <-. reflexivity.
    + injection He as <-. reflexivity.
    + repeat constructor; cbn; tauto.
    + apply Z.ltb_lt. vm_compute. reflexivity.
    + lia.
    + exists ps. split; [exact Hps|exact Hout].
Defined.

(** The rotated files [max_file] is documented to keep are one more than are kept. *)
Lemma keeps_one_less max_file : 2 ≤ max_file → keep max_file = max_file - 1.
Proof. unfold keep. lia. Qed.

(** A character that arrives in two parts is lost, with the rest of its line on both sides
    of the cut. *)
Lemma split_character_lost :
  let e := String "195" (String "169" "") in
  emitted_lines true ["caf" +:+ e +:+ newline] = Some ["caf" +:+ e] ∧
  emitted_lines true ["caf" +:+ String "195" ""; String "169" newline; "ok" +:+ newline] = Some ["ok"].
Proof. split; reflexivity. Qed.

(** A line that is not valid UTF-8 is dropped; at the end of the machine's life what
    follows it is dropped as well. *)
Lemma invalid_line_ends_log :
  emitted_lines true ["a" +:+ newline +:+ String "255" newline +:+ "b" +:+ newline] = Some ["a"].
Proof. reflexivity. Qed.

(** A size may wrap: the rotation then happens at every line. *)
Lemma size_wraps : parse_size lowercase "17179869184g" = Some 0.
Proof. reflexivity. Qed.

(** The suffix may be repeated. *)
Lemma repeated_suffix_accepted : parse_size lowercase "10mbmb" = parse_size lowercase "10mb".
Proof. reflexivity. Qed.

(** A line that is incomplete when the file is reopened becomes two records. *)
Lemma reopen_splits_line w0 :
  open_writer "/log" "" = Some w0 →
  let w := write_chunk "t3" Stdout ("c" +:+ newline) (reopen "t2" "" (write_chunk "t1" Stdout "ab" w0)) in
  (cw_rotated w, cw_file w) = ([cri_record "t2" Stdout "ab"], cri_record "t3" Stdout "c").
Proof. intros [= <-]. reflexivity. Qed.

(** With a time filter, a raw line with a character across byte 35 is a panic. *)
Lemma prefix_panics from_json parse_time now :
  let line := "0123456789012345678901234567890123" +:+ String "195" (String "169" "") in
  show_line from_json parse_time false false (Some 0) None now line = None.
Proof. reflexivity. Qed.

(** [--follow] alone shows nothing of what was logged before. *)
Lemma follow_hides_past from_json parse_time structured ts since until now content :
  stream_logs from_json parse_time structured None true ts since until now content = Some [].
Proof. reflexivity. Qed.

(** [--tail] counts before the time filter. *)
Lemma tail_before_filter :
  let parse t := parse_uint 64 t in
  let content := toy_json (log_entry "stdout" "early" "1") +:+ newline +:+ toy_json (log_entry "stdout" "late" "9") +:+ newline in
  stream_logs toy_parse parse true (Some 1%nat) false false None (Some 5) "" content = Some [].
Proof. vm_compute. reflexivity. Qed.
