(* ===== verification/Confine.v ===== *)
(** * Confine: the identity and the confinement of a container process

    [guest/init/src/user.rs] (user strings, [/etc/passwd], [/etc/group]),
    [guest/init/src/namespace.rs] (capabilities, the seccomp program, the hook that runs
    between fork and exec) and [configure_child_process] of
    [guest/init/src/exec_server.rs].  Files of the image are their contents.  The kernel's
    credential calls are a class with the documented behaviour of each call as a law; the
    classic BPF machine is modelled for the three instructions the program is made of. *)

From Stdlib Require Import ZArith Lia Ascii.
From stdpp Require Import base gmap strings list numbers.
From S2P Require Import Prelude RustStr Text Security.

Local Open Scope string_scope.
Local Open Scope list_scope.
Local Open Scope Z_scope.

(** ** Users ([user.rs]) *)

Record ProcessUser := { pu_uid : Z; pu_gid : option Z }.

Inductive user_error :=
| UserEmpty
| UserShape (user : string)
| PartEmpty (label original : string)
| NamedUnsupported (label part : string).

Definition parse_user_part (part label original : string) : result user_error Z :=
  if is_empty part then Err (PartEmpty label original)
  else if bool_decide (part = "root") then Ok 0
  else ok_or (NamedUnsupported label part) (parse_uint 32 part).

Definition parse_process_user (user : option string) : result user_error (option ProcessUser) :=
  match user with
  | None => Ok None
  | Some user =>
      let user := trim user in
      if is_empty user then Err UserEmpty
      else
        match split ":" user with
        | [u] =>
            uid ← parse_user_part u "user" user;
            Ok (Some {| pu_uid := uid; pu_gid := None |})
        | [u; g] =>
            uid ← parse_user_part u "user" user;
            gid ← parse_user_part g "group" user;
            Ok (Some {| pu_uid := uid; pu_gid := Some gid |})
        | _ => Err (UserShape user)
        end
  end.

(** The first line of [/etc/passwd] with four fields and the name decides, also when its
    numbers do not parse ([?] leaves the function). *)
Fixpoint passwd_by_name (name : string) (ls : list string) : option (option (Z * Z)) :=
  match ls with
  | [] => None
  | line :: ls =>
      match split ":" line with
      | f0 :: _ :: f2 :: f3 :: _ =>
          if bool_decide (f0 = name) then
            Some (match parse_uint 32 f2, parse_uint 32 f3 with
                  | Some uid, Some gid => Some (uid, gid)
                  | _, _ => None
                  end)
          else passwd_by_name name ls
      | _ => passwd_by_name name ls
      end
  end.

Definition resolve_named_user (user : string) (passwd : option string) : option string :=
  let user := trim user in
  let '(name, group_suffix) :=
    match split_once ":" user with
    | Some (name, group) => (name, Some group)
    | None => (user, None)
    end in
  if is_empty name || bool_decide (name = "root") || bool_decide (is_Some (parse_uint 32 name)) then None
  else
    match passwd with
    | None => None
    | Some text =>
        match passwd_by_name name (lines text) with
        | Some (Some (uid, gid)) =>
            Some (show_uint uid +:+ ":" +:+
              match group_suffix with Some group => group | None => show_uint gid end)
        | _ => None
        end
    end.

(** A line whose user number matches but whose group number does not parse is passed over. *)
Fixpoint passwd_by_uid (uid : Z) (ls : list string) : option (string * Z) :=
  match ls with
  | [] => None
  | line :: ls =>
      match split ":" line with
      | f0 :: _ :: f2 :: f3 :: _ =>
          if bool_decide (parse_uint 32 f2 = Some uid) then
            match parse_uint 32 f3 with
            | Some gid => Some (f0, gid)
            | None => passwd_by_uid uid ls
            end
          else passwd_by_uid uid ls
      | _ => passwd_by_uid uid ls
      end
  end.

Definition passwd_entry_for_uid (passwd : option string) (uid : Z) : option (string * Z) :=
  text ← passwd; passwd_by_uid uid (lines text).

Definition primary_gid_for_uid (passwd : option string) (uid : Z) : option Z :=
  snd <$> passwd_entry_for_uid passwd uid.

(** The number of a line of [/etc/group] that lists the user as a member. *)
Definition group_line (username line : string) : option Z :=
  match split ":" line with
  | _ :: _ :: f2 :: f3 :: _ =>
      gid ← parse_uint 32 f2;
      if existsb (λ member, bool_decide (trim member = username)) (split "," f3) then Some gid else None
  | _ => None
  end.

(** The [retain] over a set of the numbers already seen. *)
Fixpoint retain_new (seen : list Z) (l : list Z) : list Z :=
  match l with
  | [] => []
  | x :: l => if bool_decide (x ∈ seen) then retain_new seen l else x :: retain_new (x :: seen) l
  end.

Definition resolve_image_groups (passwd group_file : option string) (uid : Z) (explicit_gid : option Z)
    (user : string) : list Z :=
  let name_part := trim (hd "" (split ":" (trim user))) in
  let is_named := negb (is_empty name_part) && negb (bool_decide (name_part = "root")) &&
    negb (bool_decide (is_Some (parse_uint 32 name_part))) in
  let passwd_entry := passwd_entry_for_uid passwd uid in
  let username := if is_named then Some name_part else fst <$> passwd_entry in
  let first :=
    match explicit_gid with
    | Some gid => [gid]
    | None => match passwd_entry with Some (_, gid) => [gid] | None => [] end
    end in
  let listed :=
    match username, group_file with
    | Some name, Some text => omap (group_line name) (lines text)
    | _, _ => []
    end in
  retain_new [] (first ++ listed).

(** [resolve_user_and_groups] of [namespace.rs]: no identity means the process keeps the
    identity of the init process, root. *)
Definition resolve_user_and_groups (passwd group_file : option string) (user : option string)
    : option ProcessUser * list Z :=
  match user with
  | None => (None, [])
  | Some user =>
      let user := trim user in
      if is_empty user then (None, [])
      else
        let resolved := default user (resolve_named_user user passwd) in
        match parse_process_user (Some resolved) with
        | Ok (Some pu) =>
            let gid := match pu_gid pu with
                       | Some g => Some g
                       | None => primary_gid_for_uid passwd (pu_uid pu)
                       end in
            (Some {| pu_uid := pu_uid pu; pu_gid := gid |},
             resolve_image_groups passwd group_file (pu_uid pu) gid user)
        | _ => (None, [])
        end
  end.

(** ** Capabilities ([namespace.rs]) *)

Definition cap_names : list (string * Z) :=
  [("CHOWN", 0); ("DAC_OVERRIDE", 1); ("DAC_READ_SEARCH", 2); ("FOWNER", 3); ("FSETID", 4); ("KILL", 5);
   ("SETGID", 6); ("SETUID", 7); ("SETPCAP", 8); ("LINUX_IMMUTABLE", 9); ("NET_BIND_SERVICE", 10);
   ("NET_BROADCAST", 11); ("NET_ADMIN", 12); ("NET_RAW", 13); ("IPC_LOCK", 14); ("IPC_OWNER", 15);
   ("SYS_MODULE", 16); ("SYS_RAWIO", 17); ("SYS_CHROOT", 18); ("SYS_PTRACE", 19); ("SYS_PACCT", 20);
   ("SYS_ADMIN", 21); ("SYS_BOOT", 22); ("SYS_NICE", 23); ("SYS_RESOURCE", 24); ("SYS_TIME", 25);
   ("SYS_TTY_CONFIG", 26); ("MKNOD", 27); ("LEASE", 28); ("AUDIT_WRITE", 29); ("AUDIT_CONTROL", 30);
   ("SETFCAP", 31); ("MAC_OVERRIDE", 32); ("MAC_ADMIN", 33); ("SYSLOG", 34); ("WAKE_ALARM", 35);
   ("BLOCK_SUSPEND", 36); ("AUDIT_READ", 37); ("PERFMON", 38); ("BPF", 39); ("CHECKPOINT_RESTORE", 40)].

Fixpoint assoc (name : string) (l : list (string * Z)) : option Z :=
  match l with
  | [] => None
  | (k, v) :: l => if bool_decide (k = name) then Some v else assoc name l
  end.

Definition cap_name_to_number (name : string) : option Z :=
  assoc (default name (strip_prefix "CAP_" name)) cap_names.

(** A capability set is the two 32-bit words of the kernel interface. *)
Record CapData := { effective : Z; permitted : Z; inheritable : Z }.
Definition capsets : Type := CapData * CapData.

Definition u32_not (x : Z) : Z := Z.lxor x (u_max 32).

Definition clear_word (mask : Z) (d : CapData) : CapData :=
  {| effective := Z.land (effective d) mask; permitted := Z.land (permitted d) mask;
     inheritable := Z.land (inheritable d) mask |}.

(** The loop of [clear_effective_caps] over the names; unknown names do nothing. *)
Definition clear_cap (data : capsets) (name : string) : capsets :=
  match cap_name_to_number name with
  | Some cap =>
      let mask := u32_not (Z.shiftl 1 (cap mod 32)) in
      let '(w0, w1) := data in
      if cap / 32 =? 0 then (clear_word mask w0, w1)
      else if cap / 32 =? 1 then (w0, clear_word mask w1) else data
  | None => data
  end.

Definition no_caps : CapData := {| effective := 0; permitted := 0; inheritable := 0 |}.

Definition has_all (names : list string) : bool := existsb (λ c, bool_decide (c = "ALL")) names.

Definition cleared_sets (cap_drop : list string) (data : capsets) : capsets :=
  if has_all cap_drop then (no_caps, no_caps) else foldl clear_cap data cap_drop.

(** The mask of [restrict_capabilities_to_keep]. *)
Definition keep_cap (mask : Z * Z) (name : string) : Z * Z :=
  match cap_name_to_number name with
  | Some cap =>
      let '(m0, m1) := mask in
      if cap / 32 =? 0 then (Z.lor m0 (Z.shiftl 1 (cap mod 32)), m1)
      else if cap / 32 =? 1 then (m0, Z.lor m1 (Z.shiftl 1 (cap mod 32))) else mask
  | None => mask
  end.
Definition keep_mask (keep : list string) : Z * Z := foldl keep_cap (0, 0) keep.

Definition word_of {A} (ws : A * A) (cap : Z) : A := if cap / 32 =? 0 then ws.1 else ws.2.

Definition kept (mask : Z * Z) (cap : Z) : bool :=
  negb (Z.land (word_of mask cap) (Z.shiftl 1 (cap mod 32)) =? 0).

Definition sets_of (mask : Z * Z) : capsets :=
  ({| effective := mask.1; permitted := mask.1; inheritable := mask.1 |},
   {| effective := mask.2; permitted := mask.2; inheritable := mask.2 |}).

(** [0..=40]. *)
Definition all_caps : list Z := seqZ 0 41.

(** ** The seccomp program ([namespace.rs]) *)

(** [sock_filter]: 16-bit code, 8-bit jump offsets, 32-bit constant. *)
Record sock_filter := { sf_code : Z; sf_jt : Z; sf_jf : Z; sf_k : Z }.

Definition BPF_LD_ABS : Z := 0x20.
Definition BPF_JEQ_K : Z := 0x15.
Definition BPF_RET_K : Z := 0x06.
Definition RET_ALLOW : Z := 0x7fff0000.
Definition RET_EPERM : Z := 0x00050001.
Definition RET_KILL : Z := 0x80000000.

Inductive target := X86_64 | Aarch64.
Definition audit_arch (t : target) : Z :=
  match t with X86_64 => 0xC000003E | Aarch64 => 0xC00000B7 end.

Definition bpf_ret (k : Z) : sock_filter := {| sf_code := BPF_RET_K; sf_jt := 0; sf_jf := 0; sf_k := k |}.
Definition bpf_load (k : Z) : sock_filter := {| sf_code := BPF_LD_ABS; sf_jt := 0; sf_jf := 0; sf_k := k |}.

(** The checks of the blocked numbers; [remaining] counts the numbers from the current one
    and is cut to eight bits. *)
Fixpoint check_instrs (blocked : list Z) : list sock_filter :=
  match blocked with
  | [] => []
  | nr :: blocked' =>
      {| sf_code := BPF_JEQ_K; sf_jt := wrap 8 (Z.of_nat (length blocked)); sf_jf := 0; sf_k := nr |}
      :: check_instrs blocked'
  end.

(** The instructions as the code lays them out.  Its comments call the last one the target of the
    architecture check; the offset [length + 2] reaches the one before it
    ([foreign_arch_not_killed]). *)
Definition build_seccomp_errno_filter (t : target) (blocked : list Z) : list sock_filter :=
  [bpf_load 4;
   {| sf_code := BPF_JEQ_K; sf_jt := 0; sf_jf := wrap 8 (Z.of_nat (length blocked) + 2); sf_k := audit_arch t |};
   bpf_load 0]
  ++ check_instrs blocked ++ [bpf_ret RET_ALLOW; bpf_ret RET_EPERM; bpf_ret RET_KILL].

Definition default_blocked (t : target) : list Z :=
  match t with
  | X86_64 => [246; 320; 169; 167; 168; 175; 313; 176; 163; 164; 227; 135; 250; 298; 321; 323]
  | Aarch64 => [104; 294; 142; 224; 225; 105; 273; 106; 89; 170; 112; 92; 219; 241; 280; 282]
  end.

Definition build_default_bpf_filter (t : target) : list sock_filter :=
  build_seccomp_errno_filter t (default_blocked t).

Definition syscall_names (t : target) : list (string * Z) :=
  match t with
  | X86_64 =>
      [("chmod", 90); ("fchmod", 91); ("fchmodat", 268); ("sethostname", 170); ("setdomainname", 171);
       ("mount", 165); ("umount2", 166); ("chroot", 161); ("ptrace", 101); ("reboot", 169)]
  | Aarch64 =>
      [("fchmod", 52); ("fchmodat", 53); ("sethostname", 161); ("setdomainname", 162); ("mount", 40);
       ("umount2", 39); ("chroot", 51); ("ptrace", 117); ("reboot", 142)]
  end.
Definition syscall_name_to_number (t : target) (name : string) : option Z := assoc name (syscall_names t).

(** The classic BPF machine on [seccomp_data]: the number at offset 0, the architecture at
    offset 4.  A jump skips instructions after the current one; running off the end, which
    the kernel's checker refuses, is no verdict. *)
Fixpoint bpf_run (fuel : nat) (prog : list sock_filter) (acc nr arch : Z) : option Z :=
  match fuel, prog with
  | S fuel, i :: rest =>
      if sf_code i =? BPF_LD_ABS then
        match sf_k i with
        | 0 => bpf_run fuel rest nr nr arch
        | 4 => bpf_run fuel rest arch nr arch
        | _ => None
        end
      else if sf_code i =? BPF_JEQ_K then
        bpf_run fuel (drop (Z.to_nat (if acc =? sf_k i then sf_jt i else sf_jf i)) rest) acc nr arch
      else if sf_code i =? BPF_RET_K then Some (sf_k i)
      else None
  | _, _ => None
  end.

Definition verdict (prog : list sock_filter) (nr arch : Z) : option Z :=
  bpf_run (length prog) prog 0 nr arch.

(** ** The kernel's credentials *)

Record creds := {
  c_uid : Z; c_gid : Z; c_groups : list Z; c_caps : capsets; c_bounding : Z; c_ambient : Z;
  c_nnp : bool; c_filters : list (list sock_filter) }.

Definition CAP_SETGID : Z := 6.
Definition CAP_SETUID : Z := 7.
Definition CAP_SETPCAP : Z := 8.
Definition EPERM : Z := 1.
Definition EINVAL : Z := 22.

Definition holds (set : CapData → Z) (d : capsets) (cap : Z) : bool :=
  Z.testbit (set (word_of d cap)) (cap mod 32).

Definition has_cap (set : CapData → Z) (c : creds) (cap : Z) : bool := holds set (c_caps c) cap.

(** What [capset(2)] accepts without any capability: a permitted set that does not grow, an
    effective set inside it, an inheritable set inside the old one and the bounding set. *)
Definition capset_ok (c : creds) (d : capsets) : Prop := ∀ cap, 0 ≤ cap < 64 →
  (holds permitted d cap = true → holds permitted (c_caps c) cap = true) ∧
  (holds effective d cap = true → holds permitted d cap = true) ∧
  (holds inheritable d cap = true → holds inheritable (c_caps c) cap = true ∨
     (holds permitted (c_caps c) cap = true ∧ Z.testbit (c_bounding c) cap = true)).

Definition with_ids (c : creds) (uid gid : Z) (groups : list Z) : creds :=
  {| c_uid := uid; c_gid := gid; c_groups := groups; c_caps := c_caps c; c_bounding := c_bounding c;
     c_ambient := c_ambient c; c_nnp := c_nnp c; c_filters := c_filters c |}.
Definition with_caps (c : creds) (d : capsets) : creds :=
  {| c_uid := c_uid c; c_gid := c_gid c; c_groups := c_groups c; c_caps := d; c_bounding := c_bounding c;
     c_ambient := c_ambient c; c_nnp := c_nnp c; c_filters := c_filters c |}.
Definition with_bounding (c : creds) (b : Z) : creds :=
  {| c_uid := c_uid c; c_gid := c_gid c; c_groups := c_groups c; c_caps := c_caps c; c_bounding := b;
     c_ambient := c_ambient c; c_nnp := c_nnp c; c_filters := c_filters c |}.
Definition with_ambient (c : creds) (a : Z) : creds :=
  {| c_uid := c_uid c; c_gid := c_gid c; c_groups := c_groups c; c_caps := c_caps c;
     c_bounding := c_bounding c; c_ambient := a; c_nnp := c_nnp c; c_filters := c_filters c |}.
Definition with_nnp (c : creds) : creds :=
  {| c_uid := c_uid c; c_gid := c_gid c; c_groups := c_groups c; c_caps := c_caps c;
     c_bounding := c_bounding c; c_ambient := c_ambient c; c_nnp := true; c_filters := c_filters c |}.
Definition with_filter (c : creds) (f : list sock_filter) : creds :=
  {| c_uid := c_uid c; c_gid := c_gid c; c_groups := c_groups c; c_caps := c_caps c;
     c_bounding := c_bounding c; c_ambient := c_ambient c; c_nnp := c_nnp c; c_filters := f :: c_filters c |}.

(** A change from user 0 to another clears the effective, permitted and ambient sets. *)
Definition drop_root_word (d : CapData) : CapData :=
  {| effective := 0; permitted := 0; inheritable := inheritable d |}.
Definition become (c : creds) (uid : Z) : creds :=
  if (c_uid c =? 0) && negb (uid =? 0) then
    with_ambient (with_caps (with_ids c uid (c_gid c) (c_groups c))
      (drop_root_word (c_caps c).1, drop_root_word (c_caps c).2)) 0
  else with_ids c uid (c_gid c) (c_groups c).

(** Capabilities up to [last_cap] exist.  The calls of the hook, each with its manual page's behaviour: [prctl(2)], [capset(2)],
    [setgroups(2)], [setgid(2)], [setuid(2)], [seccomp(2)]. *)
Class Kernel := {
  last_cap : Z;
  prctl_nnp : creds → result Z creds;
  prctl_bounding_drop : creds → Z → result Z creds;
  prctl_ambient_clear : creds → result Z creds;
  sys_capset : creds → capsets → result Z creds;
  sys_setgroups : creds → list Z → result Z creds;
  sys_setgid : creds → Z → result Z creds;
  sys_setuid : creds → Z → result Z creds;
  sys_seccomp : creds → list sock_filter → result Z creds;
  last_cap_range : 8 ≤ last_cap ≤ 40;
  nnp_sets c : prctl_nnp c = Ok (with_nnp c);
  bounding_drops c cap : has_cap effective c CAP_SETPCAP = true → 0 ≤ cap ≤ last_cap →
    prctl_bounding_drop c cap = Ok (with_bounding c (Z.clearbit (c_bounding c) cap));
  bounding_unknown c cap : has_cap effective c CAP_SETPCAP = true → last_cap < cap →
    prctl_bounding_drop c cap = Err EINVAL;
  ambient_clears c : prctl_ambient_clear c = Ok (with_ambient c 0);
  capset_reduces c d : capset_ok c d → sys_capset c d = Ok (with_caps c d);
  setgroups_allowed c gs : has_cap effective c CAP_SETGID = true →
    sys_setgroups c gs = Ok (with_ids c (c_uid c) (c_gid c) gs);
  setgid_allowed c g : has_cap effective c CAP_SETGID = true ∨ c_gid c = g →
    sys_setgid c g = Ok (with_ids c (c_uid c) g (c_groups c));
  setgid_denied c g : has_cap effective c CAP_SETGID = false → c_gid c ≠ g → sys_setgid c g = Err EPERM;
  setuid_allowed c u : has_cap effective c CAP_SETUID = true ∨ c_uid c = u → sys_setuid c u = Ok (become c u);
  setuid_denied c u : has_cap effective c CAP_SETUID = false → c_uid c ≠ u → sys_setuid c u = Err EPERM;
  seccomp_installs c f : c_nnp c = true → sys_seccomp c f = Ok (with_filter c f) }.

(** ** The hook between fork and exec *)

Inductive exec_error := Errno (e : Z) | UnsupportedProfile (path : string).

Section hook.
Context `{Kernel} (t : target).

Definition os (r : result Z creds) : result exec_error creds := map_err Errno r.

(** One turn of the bounding-set loops: only EINVAL is passed over. *)
Definition bounding_step (c : creds) (cap : Z) : result exec_error creds :=
  match prctl_bounding_drop c cap with
  | Ok c' => Ok c'
  | Err e => if e =? EINVAL then Ok c else Err (Errno e)
  end.

Fixpoint bounding_loop (caps : list Z) (c : creds) : result exec_error creds :=
  match caps with
  | [] => Ok c
  | cap :: caps => c' ← bounding_step c cap; bounding_loop caps c'
  end.

(** [clear_ambient_and_inheritable_caps]: only the ambient set is cleared. *)
Definition clear_ambient (c : creds) : result exec_error creds :=
  match prctl_ambient_clear c with
  | Ok c' => Ok c'
  | Err e => if e =? EINVAL then Ok c else Err (Errno e)
  end.

Definition clear_effective_caps (cap_drop : list string) (c : creds) : result exec_error creds :=
  os (sys_capset c (cleared_sets cap_drop (c_caps c))).

Definition drop_capabilities (cap_drop : list string) (c : creds) : result exec_error creds :=
  c ← bounding_loop (if has_all cap_drop then all_caps else omap cap_name_to_number cap_drop) c;
  c ← clear_effective_caps cap_drop c;
  clear_ambient c.

Definition set_capability_sets (mask : Z * Z) (c : creds) : result exec_error creds :=
  os (sys_capset c (sets_of mask)).

Definition restrict_capabilities_to_keep (keep : list string) (c : creds) : result exec_error creds :=
  let mask := keep_mask keep in
  c ← bounding_loop (List.filter (λ cap, negb (kept mask cap)) all_caps) c;
  c ← set_capability_sets mask c;
  clear_ambient c.

Definition install_seccomp_filter (f : list sock_filter) (c : creds) : result exec_error creds :=
  c ← os (prctl_nnp c);
  os (sys_seccomp c f).

(** [ProcessUser::apply]. *)
Definition apply_user (u : ProcessUser) (c : creds) : result exec_error creds :=
  c ← match pu_gid u with Some g => os (sys_setgid c g) | None => Ok c end;
  os (sys_setuid c (pu_uid u)).

Definition is_nil {A} (l : list A) : bool := match l with [] => true | _ => false end.

Definition when (b : bool) (f : creds → result exec_error creds) (c : creds) : result exec_error creds :=
  if b then f c else Ok c.

Definition set_groups (gs : list Z) (c : creds) : result exec_error creds := os (sys_setgroups c gs).

Definition switch_user (u : option ProcessUser) (c : creds) : result exec_error creds :=
  match u with Some u => apply_user u c | None => Ok c end.

(** [apply_security_before_exec]: what the hook of the main process does. *)
Definition apply_security_before_exec (cfg : SecurityConfig) (u : option ProcessUser) (gs : list Z)
    (c : creds) : result exec_error creds :=
  let privileged := sec_privileged cfg in
  let no_new_privs := sec_no_new_privileges cfg && negb privileged in
  let mode := if privileged then Unconfined else sec_seccomp cfg in
  let cap_drop := if privileged then [] else sec_cap_drop cfg in
  c ← when no_new_privs (λ c, os (prctl_nnp c)) c;
  c ← when (is_some u && negb (is_nil gs)) (set_groups gs) c;
  c ← when (negb (is_nil cap_drop)) (drop_capabilities cap_drop) c;
  c ← switch_user u c;
  match mode with
  | SeccompDefault => install_seccomp_filter (build_default_bpf_filter t) c
  | Unconfined => Ok c
  | Custom path => Err (UnsupportedProfile path)
  end.

(** [configure_child_process]: the hook of an exec session, without the cgroup, process
    group and root directory calls that come first. *)
Definition exec_filter (apply_seccomp : bool) (seccomp_localhost : list string) : option (list sock_filter) :=
  if negb (is_nil seccomp_localhost) then
    Some (build_seccomp_errno_filter t (omap (syscall_name_to_number t) seccomp_localhost))
  else if apply_seccomp then Some (build_default_bpf_filter t) else None.

Definition configure_child_process (u : option ProcessUser) (gs : list Z) (apply_seccomp : bool)
    (cap_drop : list string) (cap_keep : option (list string)) (seccomp_localhost : list string)
    (no_new_privs : bool) (c : creds) : result exec_error creds :=
  c ← when (negb (is_nil gs)) (set_groups gs) c;
  c ← match cap_keep with
      | Some keep => restrict_capabilities_to_keep keep c
      | None => when (negb (is_nil cap_drop)) (drop_capabilities cap_drop) c
      end;
  c ← switch_user u c;
  c ← when no_new_privs (λ c, os (prctl_nnp c)) c;
  match exec_filter apply_seccomp seccomp_localhost with
  | Some f => install_seccomp_filter f c
  | None => Ok c
  end.
End hook.

(** ** The program decides as intended *)

Lemma check_length blocked : length (check_instrs blocked) = length blocked.
Proof. induction blocked; simpl; congruence. Qed.

Lemma check_run blocked nr arch fuel : (length blocked ≤ 255)%nat → (length blocked + 3 ≤ fuel)%nat →
  bpf_run fuel (check_instrs blocked ++ [bpf_ret RET_ALLOW; bpf_ret RET_EPERM; bpf_ret RET_KILL]) nr nr arch
  = Some (if bool_decide (nr ∈ blocked) then RET_EPERM else RET_ALLOW).
Proof.
  revert fuel. induction blocked as [|x l IH]; intros fuel Hl Hf.
  - destruct fuel; [simpl in Hf; lia|]. done.
  - cbn [length] in *. destruct fuel as [|fuel]; [lia|].
    cbn [check_instrs app bpf_run sf_code sf_k sf_jt sf_jf].
    change (BPF_JEQ_K =? BPF_LD_ABS) with false. change (BPF_JEQ_K =? BPF_JEQ_K) with true. cbn iota.
    destruct (Z.eqb_spec nr x) as [->|Hne].
    + rewrite bool_decide_true by apply list_elem_of_here.
      cbn [length]. rewrite wrap_small by (unfold in_range; lia). rewrite Nat2Z.id.
      rewrite drop_app_ge by (rewrite check_length; lia). rewrite check_length.
      replace (S (length l) - length l)%nat with 1%nat by lia.
      destruct fuel as [|fuel]; [lia|]. done.
    + rewrite drop_0, IH by lia. f_equal. repeat case_bool_decide; set_solver.
Qed.

(** What the instructions of a list of at most 253 numbers decide.  The jump for a foreign architecture
    ends one instruction before the one that kills the process. *)
Lemma filter_exact t blocked nr arch : (length blocked ≤ 253)%nat →
  verdict (build_seccomp_errno_filter t blocked) nr arch
  = Some (if negb (arch =? audit_arch t) then RET_EPERM
          else if bool_decide (nr ∈ blocked) then RET_EPERM else RET_ALLOW).
Proof.
  intros Hl. unfold verdict, build_seccomp_errno_filter. rewrite !length_app, check_length.
  cbn [length Nat.add app].
  set (n := length blocked) in *.
  remember (n + 3)%nat as f eqn:Hf.
  cbn [bpf_run sf_code sf_k bpf_load].
  change (BPF_LD_ABS =? BPF_LD_ABS) with true. change (BPF_JEQ_K =? BPF_LD_ABS) with false.
  change (BPF_JEQ_K =? BPF_JEQ_K) with true. cbn iota. cbn [sf_jt sf_jf].
  destruct (Z.eqb_spec arch (audit_arch t)) as [->|Hne].
  - cbn [negb]. change (Z.to_nat 0) with O. rewrite drop_0. cbn [bpf_run sf_code sf_k bpf_load].
    change (BPF_LD_ABS =? BPF_LD_ABS) with true. cbn iota. apply check_run; fold n; lia.
  - cbn [negb]. rewrite wrap_small by (unfold in_range; lia).
    replace (Z.to_nat (Z.of_nat n + 2)) with (S (S n)) by lia. cbn [drop].
    rewrite drop_app_ge by (rewrite check_length; fold n; lia). rewrite check_length. fold n.
    replace (S n - n)%nat with 1%nat by lia. destruct f as [|f]; [lia|]. done.
Qed.

(** C32: The seccomp program built for a list of at most 253 numbers decides every system call and
    never runs off its end.  A call of the architecture the guest was built for fails with EPERM
    when its number is listed and is allowed otherwise; a call whose architecture value is another
    one is never allowed, whatever its number (how it is refused is not claimed here). *)
Theorem filter_decides t blocked nr arch : (length blocked ≤ 253)%nat →
  verdict (build_seccomp_errno_filter t blocked) nr (audit_arch t) = Some (if bool_decide (nr ∈ blocked) then RET_EPERM else RET_ALLOW) ∧
  (arch ≠ audit_arch t → ∃ v, verdict (build_seccomp_errno_filter t blocked) nr arch = Some v ∧ v ≠ RET_ALLOW).
Proof.
  intros Hl. split; [|intros Ha]; rewrite filter_exact by done.
  - by rewrite Z.eqb_refl.
  - rewrite (proj2 (Z.eqb_neq _ _)) by done. eexists. by split.
Qed.

Lemma filter_decides_witness :
  (length (default_blocked X86_64) ≤ 253)%nat ∧
  verdict (build_default_bpf_filter X86_64) 321 0xC000003E = Some RET_EPERM ∧
  verdict (build_default_bpf_filter X86_64) 1 0xC000003E = Some RET_ALLOW ∧
  ∃ v, verdict (build_default_bpf_filter X86_64) 1 0x40000003 = Some v ∧ v ≠ RET_ALLOW.
Proof.
  assert (Hl : (length (default_blocked X86_64) ≤ 253)%nat) by (simpl; lia).
  split_and!; [exact Hl | | |].
  - exact (proj1 (filter_decides X86_64 (default_blocked X86_64) 321 0 Hl)).
  - exact (proj1 (filter_decides X86_64 (default_blocked X86_64) 1 0 Hl)).
  - apply (proj2 (filter_decides X86_64 (default_blocked X86_64) 1 0x40000003 Hl)). done.
Defined.

(** The x32 form of a blocked call has the architecture of the others and another number. *)
Lemma x32_allowed : verdict (build_default_bpf_filter X86_64) (321 + 0x40000000) 0xC000003E = Some RET_ALLOW.
Proof. by vm_compute. Qed.

(** With the default list a foreign architecture is refused, not killed. *)
Lemma foreign_arch_not_killed : verdict (build_default_bpf_filter X86_64) 1 0x40000003 = Some RET_EPERM.
Proof. by vm_compute. Qed.

(** The bound is exact: with 254 entries the 8-bit offset of the architecture check is 0 and
    a call of another architecture is decided by its number. *)
Lemma foreign_arch_passes :
  verdict (build_seccomp_errno_filter X86_64 (replicate 254 165)) 1 0x40000003 = Some RET_ALLOW.
Proof. by vm_compute. Qed.

(** ** Capability sets *)

Lemma cap_number_range name cap : cap_name_to_number name = Some cap → 0 ≤ cap ≤ 40.
Proof.
  assert (Hr : Forall (λ kv, 0 ≤ kv.2 ≤ 40) cap_names) by (repeat constructor; cbn; lia).
  unfold cap_name_to_number. generalize (default name (strip_prefix "CAP_" name)).
  induction Hr as [|[k v] l Hv Hl IH]; intros x; cbn [assoc]; [done|].
  case_bool_decide; [|apply IH]. intros [= <-]. done.
Qed.

Lemma testbit_one k i : 0 ≤ i → Z.testbit (Z.shiftl 1 k) i = (i =? k).
Proof.
  intros Hi. rewrite Z.shiftl_spec by lia. destruct (Z.eqb_spec i k) as [->|Hne]; [by rewrite Z.sub_diag|].
  destruct (decide (i < k)); [by rewrite Z.testbit_neg_r by lia|].
  replace (i - k) with (Z.succ (i - k - 1)) by lia.
  change 1 with (2 * 0 + 1). rewrite Z.testbit_odd_succ by lia. apply Z.testbit_0_l.
Qed.

Lemma testbit_clear w k i : 0 ≤ k < 32 → 0 ≤ i < 32 →
  Z.testbit (Z.land w (u32_not (Z.shiftl 1 k))) i = Z.testbit w i && negb (i =? k).
Proof.
  intros Hk Hi. unfold u32_not, u_max. rewrite Z.land_spec, Z.lxor_spec, testbit_one by lia.
  replace (2 ^ 32 - 1) with (Z.ones 32) by done. rewrite Z.ones_spec_low by lia.
  by rewrite xorb_true_r.
Qed.

Lemma testbit_set m k i : 0 ≤ i →
  Z.testbit (Z.lor m (Z.shiftl 1 k)) i = Z.testbit m i || (i =? k).
Proof.
  intros Hi. by rewrite Z.lor_spec, testbit_one.
Qed.

(** The capabilities a list of names takes away. *)
Definition dropped (names : list string) (cap : Z) : bool :=
  has_all names || existsb (λ name, bool_decide (cap_name_to_number name = Some cap)) names.

(** The three sets of a word. *)
Definition a_set (set : CapData → Z) : Prop := set = effective ∨ set = permitted ∨ set = inheritable.

Lemma same_cap cap n : 0 ≤ cap < 64 → 0 ≤ n < 64 →
  (cap =? n) = (cap / 32 =? n / 32) && (cap mod 32 =? n mod 32).
Proof.
  intros. pose proof (Z.div_mod cap 32). pose proof (Z.div_mod n 32).
  destruct (Z.eqb_spec cap n) as [->|]; [by rewrite !Z.eqb_refl|].
  destruct (Z.eqb_spec (cap / 32) (n / 32)), (Z.eqb_spec (cap mod 32) (n mod 32)); try done; lia.
Qed.

Lemma clear_cap_holds set d name cap : a_set set → 0 ≤ cap < 64 →
  holds set (clear_cap d name) cap
  = holds set d cap && negb (bool_decide (cap_name_to_number name = Some cap)).
Proof.
  intros Hset Hcap. unfold clear_cap. destruct (cap_name_to_number name) as [n|] eqn:En; last first.
  { rewrite bool_decide_false by done. by rewrite andb_true_r. }
  pose proof (cap_number_range _ _ En) as Hn.
  replace (bool_decide (Some n = Some cap)) with (cap =? n)
    by (destruct (Z.eqb_spec cap n); case_bool_decide; congruence).
  rewrite (same_cap cap n) by lia.
  assert (Hm : 0 ≤ n mod 32 < 32) by (apply Z.mod_pos_bound; lia).
  assert (Hi : 0 ≤ cap mod 32 < 32) by (apply Z.mod_pos_bound; lia).
  assert (Hw : ∀ w, Z.testbit (set (clear_word (u32_not (Z.shiftl 1 (n mod 32))) w)) (cap mod 32)
      = Z.testbit (set w) (cap mod 32) && negb (cap mod 32 =? n mod 32)).
  { intros w. destruct Hset as [-> |[-> | ->]]; apply testbit_clear; lia. }
  assert (Hd : n / 32 = 0 ∨ n / 32 = 1) by (clear -Hn; destruct (decide (n < 32)); [left; apply Z.div_small; lia|
    right; symmetry; apply (Z.div_unique_pos _ _ _ (n - 32)); lia]).
  assert (Hc : cap / 32 = 0 ∨ cap / 32 = 1) by (clear -Hcap; destruct (decide (cap < 32)); [left; apply Z.div_small; lia|
    right; symmetry; apply (Z.div_unique_pos _ _ _ (cap - 32)); lia]).
  destruct d as [w0 w1]. unfold holds, word_of.
  destruct Hd as [-> | ->], Hc as [-> | ->]; cbn; rewrite ?Hw, ?andb_true_r; done.
Qed.

Lemma cleared_holds set names d cap : a_set set → 0 ≤ cap < 64 →
  holds set (cleared_sets names d) cap = holds set d cap && negb (dropped names cap).
Proof.
  intros Hset Hcap. unfold cleared_sets, dropped. destruct (has_all names) eqn:Ha.
  - rewrite andb_false_r. unfold holds, word_of.
    destruct Hset as [-> |[-> | ->]]; destruct (_ =? 0); apply Z.testbit_0_l.
  - cbn [orb]. clear Ha. revert d. induction names as [|x names IH]; intros d; cbn [foldl existsb].
    + by rewrite andb_true_r.
    + rewrite IH, clear_cap_holds by done. rewrite negb_orb. by rewrite andb_assoc.
Qed.

Definition named (names : list string) (cap : Z) : bool :=
  existsb (λ name, bool_decide (cap_name_to_number name = Some cap)) names.

Lemma div32 cap : 0 ≤ cap < 64 → cap / 32 = 0 ∨ cap / 32 = 1.
Proof.
  intros. destruct (decide (cap < 32)); [left; apply Z.div_small; lia|].
  right. symmetry. apply (Z.div_unique_pos _ _ _ (cap - 32)); lia.
Qed.

Lemma keep_mask_bit keep cap : 0 ≤ cap < 64 →
  Z.testbit (word_of (keep_mask keep) cap) (cap mod 32) = named keep cap.
Proof.
  intros Hcap. unfold keep_mask.
  assert (Hg : ∀ m, Z.testbit (word_of (foldl keep_cap m keep) cap) (cap mod 32)
      = Z.testbit (word_of m cap) (cap mod 32) || named keep cap); last first.
  { rewrite Hg. unfold word_of. destruct (cap / 32 =? 0); by rewrite Z.testbit_0_l. }
  induction keep as [|x keep IH]; intros m; cbn [foldl named existsb]; [by rewrite orb_false_r|].
  rewrite IH. unfold named. rewrite orb_assoc. f_equal. unfold keep_cap.
  destruct (cap_name_to_number x) as [n|] eqn:En; last first.
  { rewrite bool_decide_false by done. by rewrite orb_false_r. }
  pose proof (cap_number_range _ _ En) as Hn.
  replace (bool_decide (Some n = Some cap)) with (cap =? n)
    by (destruct (Z.eqb_spec cap n); case_bool_decide; congruence).
  rewrite (same_cap cap n) by lia.
  assert (Hi : 0 ≤ cap mod 32) by (apply Z.mod_pos_bound; lia).
  destruct m as [m0 m1]. unfold word_of.
  destruct (div32 n ltac:(lia)) as [-> | ->], (div32 cap Hcap) as [-> | ->]; cbn;
    rewrite ?testbit_set, ?orb_false_r by lia; done.
Qed.

Lemma land_bit m k : 0 ≤ k → negb (Z.land m (Z.shiftl 1 k) =? 0) = Z.testbit m k.
Proof.
  intros Hk. destruct (Z.testbit m k) eqn:E.
  - destruct (Z.eqb_spec (Z.land m (Z.shiftl 1 k)) 0) as [H0|]; [|done].
    assert (Hb : Z.testbit (Z.land m (Z.shiftl 1 k)) k = false) by (rewrite H0; apply Z.testbit_0_l).
    rewrite Z.land_spec, E, testbit_one, Z.eqb_refl in Hb by lia. done.
  - replace (Z.land m (Z.shiftl 1 k)) with 0; [done|].
    apply Z.bits_inj'. intros i Hi. rewrite Z.land_spec, testbit_one, Z.testbit_0_l by lia.
    destruct (Z.eqb_spec i k) as [->|]; [by rewrite E | by rewrite andb_false_r].
Qed.

Lemma kept_spec keep cap : 0 ≤ cap < 64 → kept (keep_mask keep) cap = named keep cap.
Proof.
  intros Hcap. unfold kept. rewrite land_bit by (apply Z.mod_pos_bound; lia). by apply keep_mask_bit.
Qed.

Lemma sets_of_holds set keep cap : a_set set → 0 ≤ cap < 64 →
  holds set (sets_of (keep_mask keep)) cap = named keep cap.
Proof.
  intros Hset Hcap. rewrite <-keep_mask_bit by done. unfold holds, word_of, sets_of.
  destruct Hset as [-> |[-> | ->]]; by destruct (_ =? 0).
Qed.

(** ** The hook *)

Section confine.
Context `{K : Kernel} (t : target).

(** The state of the init process: root, every capability of the kernel held and allowed,
    nothing above the last one. *)
Record root_creds (c : creds) : Prop := {
  rc_uid : c_uid c = 0;
  rc_gid : c_gid c = 0;
  rc_full : ∀ cap, 0 ≤ cap ≤ last_cap →
    has_cap effective c cap = true ∧ has_cap permitted c cap = true ∧ Z.testbit (c_bounding c) cap = true;
  rc_above : ∀ cap, last_cap < cap < 64 →
    has_cap effective c cap = false ∧ has_cap permitted c cap = false ∧
    has_cap inheritable c cap = false ∧ Z.testbit (c_bounding c) cap = false }.

Definition all_nonneg (l : list Z) : Prop := Forall (λ cap, 0 ≤ cap) l.

Lemma bounding_loop_spec caps c : has_cap effective c CAP_SETPCAP = true → all_nonneg caps →
  ∃ b, bounding_loop caps c = Ok (with_bounding c b) ∧
    ∀ cap, 0 ≤ cap → Z.testbit b cap
      = Z.testbit (c_bounding c) cap && negb (bool_decide (cap ∈ caps) && (cap <=? last_cap)).
Proof.
  intros Hp Hn. revert c Hp. induction Hn as [|x caps Hx Hn IH]; intros c Hp; cbn [bounding_loop].
  { exists (c_bounding c). split; [by destruct c|]. intros cap Hc. by rewrite andb_true_r. }
  unfold bounding_step. destruct (decide (x ≤ last_cap)).
  - rewrite bounding_drops by (done || lia). cbn [mbind result_bind].
    destruct (IH (with_bounding c (Z.clearbit (c_bounding c) x)) Hp) as (b & Hb & Hbits).
    exists b. split; [by rewrite Hb|]. intros cap Hc. rewrite (Hbits cap Hc). cbn [c_bounding with_bounding].
    rewrite Z.clearbit_eqb by lia. destruct (Z.eqb_spec x cap) as [->|Hne]; cbn [negb].
    + rewrite andb_false_r. rewrite (bool_decide_true (cap ∈ cap :: caps)) by apply list_elem_of_here.
      replace (cap <=? last_cap) with true by (symmetry; apply Z.leb_le; lia). by rewrite andb_false_r.
    + rewrite andb_true_r. do 3 f_equal. apply bool_decide_ext. set_solver.
  - rewrite bounding_unknown by (done || lia). cbn. destruct (IH c Hp) as (b & Hb & Hbits).
    exists b. split; [done|]. intros cap Hc. rewrite (Hbits cap Hc).
    destruct (Z.eqb_spec x cap) as [->|Hne].
    + replace (cap <=? last_cap) with false by (symmetry; apply Z.leb_gt; lia). by rewrite !andb_false_r.
    + do 3 f_equal. apply bool_decide_ext. set_solver.
Qed.

Ltac cap_range := pose proof last_cap_range; unfold CAP_SETGID, CAP_SETUID, CAP_SETPCAP; lia.

(** What one list of names leaves: the sets and the bounding set without the dropped ones. *)
Lemma drop_spec names c : has_cap effective c CAP_SETPCAP = true →
  (∀ cap, 0 ≤ cap < 64 → has_cap effective c cap = true → has_cap permitted c cap = true) →
  ∃ b, drop_capabilities names c
      = Ok (with_ambient (with_caps (with_bounding c b) (cleared_sets names (c_caps c))) 0) ∧
    ∀ cap, 0 ≤ cap ≤ last_cap → Z.testbit b cap = Z.testbit (c_bounding c) cap && negb (dropped names cap).
Proof.
  intros Hp Hep. pose proof last_cap_range as Hl. unfold drop_capabilities.
  set (caps := if has_all names then all_caps else omap cap_name_to_number names).
  destruct (bounding_loop_spec caps c Hp) as (b & -> & Hb).
  { unfold caps, all_nonneg. destruct (has_all names).
    - apply list.Forall_forall. intros x Hx. apply elem_of_seqZ in Hx. lia.
    - apply list.Forall_forall. intros x (n & _ & Hn)%list_elem_of_omap. apply cap_number_range in Hn. lia. }
  cbn [mbind result_bind]. unfold clear_effective_caps. rewrite capset_reduces; last first.
  { intros cap Hcap. cbn [with_bounding c_caps c_bounding].
    rewrite !cleared_holds by (unfold a_set; auto). unfold has_cap in Hep. specialize (Hep cap Hcap).
    split_and!; [| |]; intros [H1 H2]%andb_true_iff; [done| |by left].
    rewrite H2, Hep by done. done. }
  cbn. unfold clear_ambient. rewrite ambient_clears. exists b. split; [done|].
  intros cap Hcap. rewrite Hb by lia. do 2 f_equal. replace (cap <=? last_cap) with true by lia.
  rewrite andb_true_r. unfold caps, dropped. destruct (has_all names); cbn [orb].
  - apply bool_decide_eq_true. apply elem_of_seqZ. lia.
  - apply eq_true_iff_eq. rewrite bool_decide_eq_true, list_elem_of_omap, existsb_exists.
    setoid_rewrite <-list_elem_of_In. setoid_rewrite bool_decide_eq_true. done.
Qed.

Lemma restrict_spec keep c : has_cap effective c CAP_SETPCAP = true →
  (∀ cap, 0 ≤ cap < 64 → named keep cap = true →
     has_cap permitted c cap = true ∧ Z.testbit (c_bounding c) cap = true) →
  ∃ b, restrict_capabilities_to_keep keep c
      = Ok (with_ambient (with_caps (with_bounding c b) (sets_of (keep_mask keep))) 0) ∧
    ∀ cap, 0 ≤ cap ≤ last_cap → Z.testbit b cap = Z.testbit (c_bounding c) cap && named keep cap.
Proof.
  intros Hp Hk. pose proof last_cap_range as Hl. unfold restrict_capabilities_to_keep.
  set (caps := List.filter _ all_caps).
  assert (Hcaps : ∀ cap, cap ∈ caps ↔ 0 ≤ cap < 41 ∧ named keep cap = false).
  { intros cap. unfold caps. rewrite elem_of_filter_b. unfold all_caps. rewrite elem_of_seqZ, negb_true_iff.
    split; intros [H1 H2]; (split; [lia|]); [by rewrite kept_spec in H2 by lia | by rewrite kept_spec by lia]. }
  destruct (bounding_loop_spec caps c Hp) as (b & -> & Hb).
  { apply list.Forall_forall. intros x [? _]%Hcaps. lia. }
  assert (Hbit : ∀ cap, 0 ≤ cap ≤ last_cap → Z.testbit b cap = Z.testbit (c_bounding c) cap && named keep cap).
  { intros cap Hcap. rewrite Hb by lia. f_equal. replace (cap <=? last_cap) with true by lia.
    rewrite andb_true_r. destruct (named keep cap) eqn:E.
    - rewrite bool_decide_false; [done|]. rewrite Hcaps, E. by intros [_ ?].
    - rewrite bool_decide_true; [done|]. rewrite Hcaps. split; [lia | done]. }
  cbn [mbind result_bind]. unfold set_capability_sets. rewrite capset_reduces; last first.
  { intros cap Hcap. cbn [with_bounding c_caps c_bounding].
    rewrite !sets_of_holds by (unfold a_set; auto). split_and!; intros Hn; [by apply Hk | done|].
    right. destruct (Hk cap Hcap Hn) as [? Hbc]. split; [done|].
    rewrite Hb, Hbc by lia. rewrite bool_decide_false; [done|]. rewrite Hcaps, Hn. by intros [_ ?]. }
  cbn. unfold clear_ambient. rewrite ambient_clears. by exists b.
Qed.

(** The credentials after the capability step: root without the capabilities [left] rejects. *)
Record reduced (left : Z → bool) (c c' : creds) : Prop := {
  rd_ids : c_uid c' = c_uid c ∧ c_gid c' = c_gid c ∧ c_groups c' = c_groups c;
  rd_marks : c_nnp c' = c_nnp c ∧ c_filters c' = c_filters c;
  rd_held : ∀ cap, 0 ≤ cap ≤ last_cap → has_cap effective c' cap = left cap ∧ has_cap permitted c' cap = left cap;
  rd_gone : ∀ cap, 0 ≤ cap ≤ last_cap → left cap = false →
    has_cap inheritable c' cap = false ∧ Z.testbit (c_bounding c') cap = false }.

Lemma drop_reduces names c : root_creds c → ∃ c',
  when (negb (is_nil names)) (drop_capabilities names) c = Ok c' ∧ reduced (λ cap, negb (dropped names cap)) c c'.
Proof.
  intros Hr. pose proof last_cap_range as Hl. destruct names as [|x names].
  { exists c. split; [done|]. split; [done|done| |].
    - intros cap Hcap. destruct (rc_full c Hr cap Hcap) as (-> & -> & _). done.
    - intros cap _. done. }
  cbn [when is_nil negb]. generalize (x :: names). intros l.
  destruct (drop_spec l c) as (b & -> & Hb).
  - apply (rc_full c Hr). cap_range.
  - intros cap Hcap Hc. destruct (decide (cap ≤ last_cap)); [apply (rc_full c Hr); lia|].
    destruct (rc_above c Hr cap ltac:(lia)) as (He & _). congruence.
  - eexists. split; [done|]. split; [done|done| |]; cbn.
    + intros cap Hcap. unfold has_cap. cbn [c_caps with_ambient with_caps].
      rewrite !cleared_holds by (unfold a_set; auto; lia).
      destruct (rc_full c Hr cap Hcap) as (He & Hp & _). unfold has_cap in He, Hp. by rewrite He, Hp.
    + intros cap Hcap Hd%negb_false_iff. rewrite Hb by done. rewrite Hd, andb_false_r. split; [|done].
      unfold has_cap. cbn [c_caps with_ambient with_caps].
      rewrite cleared_holds by (unfold a_set; auto; lia). by rewrite Hd, andb_false_r.
Qed.

Lemma keep_reduces keep c : root_creds c → (∀ cap, named keep cap = true → cap ≤ last_cap) → ∃ c',
  restrict_capabilities_to_keep keep c = Ok c' ∧ reduced (named keep) c c'.
Proof.
  intros Hr Hk. pose proof last_cap_range as Hl.
  destruct (restrict_spec keep c) as (b & -> & Hb).
  - apply (rc_full c Hr). cap_range.
  - intros cap Hcap Hn. destruct (rc_full c Hr cap) as (_ & ? & ?); [|done]. specialize (Hk cap Hn). lia.
  - eexists. split; [done|]. split; [done|done| |]; cbn.
    + intros cap Hcap. unfold has_cap. cbn [c_caps with_ambient with_caps].
      by rewrite !sets_of_holds by (unfold a_set; auto; lia).
    + intros cap Hcap Hd. rewrite Hb by done. rewrite Hd, andb_false_r. split; [|done].
      unfold has_cap. cbn [c_caps with_ambient with_caps]. by rewrite sets_of_holds by (unfold a_set; auto; lia).
Qed.

(** The switch of identity needs a capability for each number that is not root's. *)
Definition may_switch (left : Z → bool) (u : option ProcessUser) : Prop :=
  match u with
  | None => True
  | Some pu =>
      match pu_gid pu with Some g => g = 0 ∨ left CAP_SETGID = true | None => True end ∧
      (pu_uid pu = 0 ∨ left CAP_SETUID = true)
  end.

#[global] Instance may_switch_dec left u : Decision (may_switch left u).
Proof. unfold may_switch. destruct u as [[uid [g|]]|]; cbn; apply _. Defined.

Definition switched (u : option ProcessUser) (c : creds) : creds :=
  match u with
  | None => c
  | Some pu => become (with_ids c 0 (default 0 (pu_gid pu)) (c_groups c)) (pu_uid pu)
  end.

Lemma switch_spec left c0 c u : reduced left c0 c → c_uid c0 = 0 → c_gid c0 = 0 →
  (may_switch left u → switch_user u c = Ok (switched u c)) ∧
  (¬ may_switch left u → switch_user u c = Err (Errno EPERM)).
Proof.
  intros Hr Hu Hg. destruct (rd_ids _ _ _ Hr) as (Hu' & Hg' & _). rewrite Hu in Hu'. rewrite Hg in Hg'.
  destruct u as [[uid og]|]; [|done]. unfold switch_user, apply_user, may_switch, switched. cbn [pu_gid pu_uid].
  assert (Hgid : has_cap effective c CAP_SETGID = left CAP_SETGID) by (apply (rd_held _ _ _ Hr); cap_range).
  assert (Huid : has_cap effective c CAP_SETUID = left CAP_SETUID) by (apply (rd_held _ _ _ Hr); cap_range).
  assert (Hset : ∀ g, (uid = 0 ∨ left CAP_SETUID = true →
        os (sys_setuid (with_ids c 0 g (c_groups c)) uid) = Ok (become (with_ids c 0 g (c_groups c)) uid)) ∧
      (¬ (uid = 0 ∨ left CAP_SETUID = true) → os (sys_setuid (with_ids c 0 g (c_groups c)) uid) = Err (Errno EPERM))).
  { intros g. split; intros Hx.
    - rewrite setuid_allowed; [done|]. destruct Hx as [-> |Hx]; [by right | left; unfold has_cap in *; cbn; by rewrite Huid].
    - rewrite setuid_denied; [done| |]; [unfold has_cap in *; cbn; rewrite Huid; apply not_true_iff_false; naive_solver|].
      cbn. naive_solver. }
  assert (Hsame : c = with_ids c 0 0 (c_groups c)) by (destruct c; cbn in *; by subst).
  destruct og as [g|]; cbn [default].
  - destruct (decide (g = 0 ∨ left CAP_SETGID = true)) as [Hx|Hx].
    + rewrite setgid_allowed by (rewrite Hgid, Hg'; destruct Hx; auto). cbn [os map_err mbind result_bind].
      rewrite Hu'. destruct (Hset g) as [Hs1 Hs2]. split; [intros [_ ?]; by apply Hs1|].
      intros Hn. apply Hs2. naive_solver.
    + rewrite setgid_denied; [split; [naive_solver | done] | |].
      * rewrite Hgid. apply not_true_iff_false. naive_solver.
      * rewrite Hg'. naive_solver.
  - cbn [mbind result_bind]. destruct (Hset 0) as [Hs1 Hs2]. rewrite <-Hsame in Hs1, Hs2. rewrite <-Hsame.
    split; [intros [_ ?]; by apply Hs1 | intros Hn; apply Hs2; naive_solver].
Qed.

(** The state in which the switch leaves the process. *)
Lemma switched_spec left c0 c u : reduced left c0 c → c_uid c0 = 0 →
  let c' := switched u c in
  c_bounding c' = c_bounding c ∧ c_nnp c' = c_nnp c ∧ c_filters c' = c_filters c ∧ c_groups c' = c_groups c ∧
  (∀ set cap, a_set set → has_cap set c' cap = true → has_cap set c cap = true) ∧
  (∀ pu, u = Some pu → c_uid c' = pu_uid pu ∧ c_gid c' = default 0 (pu_gid pu) ∧
     (pu_uid pu ≠ 0 → ∀ cap, has_cap effective c' cap = false ∧ has_cap permitted c' cap = false)).
Proof.
  intros Hr Hu. destruct u as [[uid og]|]; [|by split_and!]. cbn [switched pu_uid pu_gid].
  unfold become. cbn [c_uid with_ids]. rewrite Z.eqb_refl. cbn [andb].
  destruct (Z.eqb_spec uid 0) as [->|Hne]; cbn [negb].
  - split_and!; try done. intros pu [= <-]. done.
  - split_and!; try done.
    + intros set cap Hs. unfold has_cap, holds, word_of. cbn.
      destruct Hs as [-> |[-> | ->]], (cap / 32 =? 0); cbn; rewrite ?Z.testbit_0_l; done.
    + intros pu [= <-]. split_and!; try done. intros _ cap. unfold has_cap, holds, word_of. cbn.
      destruct (cap / 32 =? 0); cbn; by rewrite !Z.testbit_0_l.
Qed.

Definition mode_of_config (cfg : SecurityConfig) : SeccompMode :=
  if sec_privileged cfg then Unconfined else sec_seccomp cfg.
Definition drop_of_config (cfg : SecurityConfig) : list string :=
  if sec_privileged cfg then [] else sec_cap_drop cfg.
Definition left_by (cfg : SecurityConfig) (cap : Z) : bool := negb (dropped (drop_of_config cfg) cap).

(** The first two calls keep the credentials of root. *)
Lemma hook_start cfg (u : option ProcessUser) gs c : root_creds c → ∃ c2 c3,
  (c1 ← when (sec_no_new_privileges cfg && negb (sec_privileged cfg)) (λ c, os (prctl_nnp c)) c;
   c2 ← when (is_some u && negb (is_nil gs)) (set_groups gs) c1;
   when (negb (is_nil (drop_of_config cfg))) (drop_capabilities (drop_of_config cfg)) c2) = Ok c3 ∧
  reduced (left_by cfg) c2 c3 ∧ c_uid c2 = 0 ∧ c_gid c2 = 0 ∧
  c_groups c2 = (if is_some u && negb (is_nil gs) then gs else c_groups c) ∧
  c_nnp c2 = (c_nnp c || (sec_no_new_privileges cfg && negb (sec_privileged cfg))) ∧
  c_filters c2 = c_filters c.
Proof.
  intros Hr.
  assert (H1 : ∃ c1, when (sec_no_new_privileges cfg && negb (sec_privileged cfg)) (λ c, os (prctl_nnp c)) c = Ok c1 ∧
    root_creds c1 ∧ c_groups c1 = c_groups c ∧ c_filters c1 = c_filters c ∧
    c_nnp c1 = (c_nnp c || (sec_no_new_privileges cfg && negb (sec_privileged cfg)))).
  { unfold when. destruct (_ && _).
    - rewrite nnp_sets. eexists. split; [done|]. rewrite orb_true_r. split; [|done]. destruct Hr. by split.
    - exists c. rewrite orb_false_r. by split_and!. }
  destruct H1 as (c1 & -> & Hr1 & Hg1 & Hf1 & Hn1). cbn [mbind result_bind].
  assert (H2 : ∃ c2, when (is_some u && negb (is_nil gs)) (set_groups gs) c1 = Ok c2 ∧ root_creds c2 ∧
    c_groups c2 = (if is_some u && negb (is_nil gs) then gs else c_groups c) ∧
    c_filters c2 = c_filters c ∧ c_nnp c2 = c_nnp c1).
  { unfold when, set_groups. destruct (is_some u && negb (is_nil gs)); [|by exists c1].
    rewrite setgroups_allowed by (apply (rc_full c1 Hr1); cap_range).
    eexists. split; [done|]. split; [|done]. destruct Hr1. by split. }
  destruct H2 as (c2 & -> & Hr2 & Hg2 & Hf2 & Hn2). cbn [mbind result_bind].
  destruct (drop_reduces (drop_of_config cfg) c2 Hr2) as (c3 & -> & Hred).
  exists c2, c3. split_and!; try done; [apply (rc_uid _ Hr2) | apply (rc_gid _ Hr2) | congruence].
Qed.

(** The hook in terms of the switch and the filter. *)
Lemma hook_unfold cfg u gs c : root_creds c → ∃ c2 c3,
  apply_security_before_exec t cfg u gs c =
    (c4 ← switch_user u c3;
     match mode_of_config cfg with
     | SeccompDefault => install_seccomp_filter (build_default_bpf_filter t) c4
     | Unconfined => Ok c4
     | Custom path => Err (UnsupportedProfile path)
     end) ∧
  reduced (left_by cfg) c2 c3 ∧ c_uid c2 = 0 ∧ c_gid c2 = 0 ∧
  c_groups c2 = (if is_some u && negb (is_nil gs) then gs else c_groups c) ∧
  c_nnp c2 = (c_nnp c || (sec_no_new_privileges cfg && negb (sec_privileged cfg))) ∧
  c_filters c2 = c_filters c.
Proof.
  intros Hr. destruct (hook_start cfg u gs c Hr) as (c2 & c3 & Hrun & Hrest). exists c2, c3.
  split; [|done]. unfold apply_security_before_exec. fold (drop_of_config cfg) (mode_of_config cfg).
  destruct (when (sec_no_new_privileges cfg && negb (sec_privileged cfg)) _ c) as [c1|]; [|done].
  cbn [mbind result_bind] in *.
  destruct (when (is_some u && negb (is_nil gs)) _ c1) as [c2'|]; [|done]. cbn [mbind result_bind] in *.
  by rewrite Hrun.
Qed.

Lemma install_ok f c : install_seccomp_filter f c = Ok (with_filter (with_nnp c) f).
Proof. unfold install_seccomp_filter. rewrite nnp_sets. cbn. by rewrite seccomp_installs. Qed.

(** The hook of the main process starts the container exactly when the profile is not a
    custom file and the identity can be taken: each number that is not root's needs its
    capability (SETGID, SETUID) to survive the capability step, which comes first. *)
Theorem starts_iff cfg u gs c : root_creds c →
  is_ok (apply_security_before_exec t cfg u gs c) = true ↔
  (∀ path, mode_of_config cfg ≠ Custom path) ∧ may_switch (left_by cfg) u.
Proof.
  intros Hr. destruct (hook_unfold cfg u gs c Hr) as (c2 & c3 & -> & Hred & Hu & Hg & _).
  destruct (switch_spec (left_by cfg) c2 c3 u Hred Hu Hg) as [Hyes Hno].
  destruct (decide (may_switch (left_by cfg) u)) as [Hm|Hm].
  - rewrite (Hyes Hm). cbn [mbind result_bind].
    destruct (mode_of_config cfg); rewrite ?install_ok; cbn; naive_solver.
  - rewrite (Hno Hm). cbn. naive_solver.
Qed.

(** C11: A container that starts is confined as its profile says: no dropped capability is
    left in the effective, permitted, inheritable or bounding set, the process has the
    requested identity and, when that is not root, no capability in force, and the default
    profile has its filter installed with no-new-privileges set. *)
Theorem confined cfg u gs c c' : root_creds c → sec_privileged cfg = false →
  apply_security_before_exec t cfg u gs c = Ok c' →
  (∀ cap, 0 ≤ cap ≤ last_cap → dropped (sec_cap_drop cfg) cap = true →
     has_cap effective c' cap = false ∧ has_cap permitted c' cap = false ∧
     has_cap inheritable c' cap = false ∧ Z.testbit (c_bounding c') cap = false) ∧
  (∀ pu, u = Some pu → c_uid c' = pu_uid pu ∧ c_gid c' = default 0 (pu_gid pu) ∧
     (gs ≠ [] → c_groups c' = gs) ∧
     (pu_uid pu ≠ 0 → ∀ cap, has_cap effective c' cap = false ∧ has_cap permitted c' cap = false)) ∧
  (sec_no_new_privileges cfg = true → c_nnp c' = true) ∧
  (sec_seccomp cfg = SeccompDefault → c_nnp c' = true ∧ head (c_filters c') = Some (build_default_bpf_filter t)).
Proof.
  intros Hr Hp Hrun. destruct (hook_unfold cfg u gs c Hr) as (c2 & c3 & Heq & Hred & Hu & Hg & Hgs & Hnnp & _).
  rewrite Heq in Hrun. clear Heq. apply bind_Ok in Hrun as (c4 & Hsw & Hfin).
  destruct (switch_spec (left_by cfg) c2 c3 u Hred Hu Hg) as [Hyes Hno].
  assert (c4 = switched u c3) as ->.
  { destruct (decide (may_switch (left_by cfg) u)) as [Hm|Hm].
    - rewrite (Hyes Hm) in Hsw. congruence.
    - by rewrite (Hno Hm) in Hsw. }
  destruct (switched_spec (left_by cfg) c2 c3 u Hred Hu) as (Hb & Hn & Hf & Hgr & Hsub & Hid).
  destruct (rd_ids _ _ _ Hred) as (_ & _ & Hgr3). destruct (rd_marks _ _ _ Hred) as (Hn3 & _).
  assert (Hc : c_caps c' = c_caps (switched u c3) ∧ c_bounding c' = c_bounding (switched u c3) ∧
      c_uid c' = c_uid (switched u c3) ∧ c_gid c' = c_gid (switched u c3) ∧ c_groups c' = c_groups (switched u c3) ∧
      (c_nnp (switched u c3) = true → c_nnp c' = true) ∧
      (sec_seccomp cfg = SeccompDefault → c_nnp c' = true ∧ head (c_filters c') = Some (build_default_bpf_filter t))).
  { unfold mode_of_config in Hfin. rewrite Hp in Hfin.
    destruct (sec_seccomp cfg); [rewrite install_ok in Hfin| |]; simplify_eq; by split_and!. }
  destruct Hc as (Hcaps & Hbc & Huc & Hgc & Hgsc & Hnc & Hfc).
  assert (Hhas : ∀ set cap, has_cap set c' cap = has_cap set (switched u c3) cap)
    by (intros; unfold has_cap; by rewrite Hcaps).
  split_and!; [| | |exact Hfc].
  - intros cap Hcap Hd.
    assert (Hl : left_by cfg cap = false) by (unfold left_by, drop_of_config; by rewrite Hp, Hd).
    destruct (rd_held _ _ _ Hred cap Hcap) as [He Hpm]. destruct (rd_gone _ _ _ Hred cap Hcap Hl) as [Hi Hbd].
    rewrite !Hhas, Hbc, Hb. rewrite Hl in He, Hpm.
    split_and!; try done; apply not_true_iff_false; intros Ht; apply Hsub in Ht; unfold a_set; auto; congruence.
  - intros pu Hpu. destruct (Hid pu Hpu) as (H1 & H2 & H3). rewrite Huc, Hgc, Hgsc, Hgr, Hgr3, Hgs.
    split_and!; [done|done| |].
    + intros Hne. subst u. cbn. by destruct gs.
    + intros Hne cap. rewrite !Hhas. by apply H3.
  - intros Hnn. apply Hnc. rewrite Hn, Hn3, Hnnp, Hnn, Hp. by rewrite orb_true_r.
Qed.

(** An exec session with a keep list runs exactly when the identity can be taken with
    the kept capabilities, and then holds no capability outside the list, in force or in
    the bounding set; as root it holds exactly the list. *)
Theorem exec_confined u gs seccomp drop keep localhost nnp c : root_creds c →
  (∀ cap, named keep cap = true → cap ≤ last_cap) →
  (¬ may_switch (named keep) u →
     configure_child_process t u gs seccomp drop (Some keep) localhost nnp c = Err (Errno EPERM)) ∧
  (may_switch (named keep) u → ∃ c',
     configure_child_process t u gs seccomp drop (Some keep) localhost nnp c = Ok c' ∧
     (∀ cap, 0 ≤ cap ≤ last_cap → named keep cap = false →
        has_cap effective c' cap = false ∧ has_cap permitted c' cap = false ∧ Z.testbit (c_bounding c') cap = false) ∧
     (u = None → ∀ cap, 0 ≤ cap ≤ last_cap → has_cap effective c' cap = named keep cap) ∧
     (∀ pu, u = Some pu → c_uid c' = pu_uid pu ∧ c_gid c' = default 0 (pu_gid pu)) ∧
     (∀ f, exec_filter t seccomp localhost = Some f → c_nnp c' = true ∧ head (c_filters c') = Some f)).
Proof.
  intros Hr Hk. unfold configure_child_process.
  assert (H1 : ∃ c1, when (negb (is_nil gs)) (set_groups gs) c = Ok c1 ∧ root_creds c1).
  { unfold when, set_groups. destruct (negb (is_nil gs)); [|by exists c].
    rewrite setgroups_allowed by (apply (rc_full c Hr); cap_range).
    eexists. split; [done|]. destruct Hr. by split. }
  destruct H1 as (c1 & -> & Hr1). cbn [mbind result_bind].
  destruct (keep_reduces keep c1 Hr1 Hk) as (c2 & -> & Hred). cbn [mbind result_bind].
  destruct (switch_spec _ c1 c2 u Hred (rc_uid _ Hr1) (rc_gid _ Hr1)) as [Hyes Hno].
  split; intros Hm; [by rewrite (Hno Hm)|]. rewrite (Hyes Hm). cbn [mbind result_bind].
  destruct (switched_spec _ c1 c2 u Hred (rc_uid _ Hr1)) as (Hb & _ & _ & _ & Hsub & Hid).
  assert (H3 : ∃ c3, (c3 ← when nnp (λ c, os (prctl_nnp c)) (switched u c2);
      match exec_filter t seccomp localhost with Some f => install_seccomp_filter f c3 | None => Ok c3 end) = Ok c3 ∧
    c_caps c3 = c_caps (switched u c2) ∧ c_bounding c3 = c_bounding (switched u c2) ∧
    c_uid c3 = c_uid (switched u c2) ∧ c_gid c3 = c_gid (switched u c2) ∧
    (∀ f, exec_filter t seccomp localhost = Some f → c_nnp c3 = true ∧ head (c_filters c3) = Some f)).
  { unfold when. destruct nnp; [rewrite nnp_sets|]; cbn [os map_err mbind result_bind];
      destruct (exec_filter t seccomp localhost); rewrite ?install_ok;
      (eexists; split; [done|]; split_and!; try done; by intros ? [= <-]). }
  destruct H3 as (c3 & -> & Hc & Hbc & Huc & Hgc & Hf). exists c3. split; [done|].
  assert (Hhas : ∀ set cap, has_cap set c3 cap = has_cap set (switched u c2) cap)
    by (intros; unfold has_cap; by rewrite Hc).
  split_and!; [| | |exact Hf].
  - intros cap Hcap Hn. destruct (rd_held _ _ _ Hred cap Hcap) as [He Hp].
    destruct (rd_gone _ _ _ Hred cap Hcap Hn) as [_ Hbd]. rewrite !Hhas, Hbc, Hb, Hbd. rewrite Hn in He, Hp.
    split_and!; try done; apply not_true_iff_false; intros Ht; apply Hsub in Ht; unfold a_set; auto; congruence.
  - intros -> cap Hcap. rewrite Hhas. by apply (rd_held _ _ _ Hred).
  - intros pu Hpu. rewrite Huc, Hgc. by destruct (Hid pu Hpu) as (? & ? & _).
Qed.
End confine.

(** ** A kernel *)

Definition capset_okb (c : creds) (d : capsets) : bool :=
  forallb (λ cap,
    implb (holds permitted d cap) (holds permitted (c_caps c) cap) &&
    implb (holds effective d cap) (holds permitted d cap) &&
    implb (holds inheritable d cap)
      (holds inheritable (c_caps c) cap || holds permitted (c_caps c) cap && Z.testbit (c_bounding c) cap))
    (seqZ 0 64).

Lemma capset_okb_spec c d : capset_ok c d → capset_okb c d = true.
Proof.
  intros Hok. apply forallb_forall. intros cap Hin%list_elem_of_In%elem_of_seqZ.
  destruct (Hok cap ltac:(lia)) as (H1 & H2 & H3).
  rewrite !andb_true_iff, !implb_true_iff, orb_true_iff, andb_true_iff. done.
Qed.

#[export] Program Instance linux : Kernel := {|
  last_cap := 40;
  prctl_nnp c := Ok (with_nnp c);
  prctl_bounding_drop c cap :=
    if has_cap effective c CAP_SETPCAP then
      if cap <=? 40 then Ok (with_bounding c (Z.clearbit (c_bounding c) cap)) else Err EINVAL
    else Err EPERM;
  prctl_ambient_clear c := Ok (with_ambient c 0);
  sys_capset c d := if capset_okb c d then Ok (with_caps c d) else Err EPERM;
  sys_setgroups c gs :=
    if has_cap effective c CAP_SETGID then Ok (with_ids c (c_uid c) (c_gid c) gs) else Err EPERM;
  sys_setgid c g :=
    if has_cap effective c CAP_SETGID || (c_gid c =? g) then Ok (with_ids c (c_uid c) g (c_groups c)) else Err EPERM;
  sys_setuid c u := if has_cap effective c CAP_SETUID || (c_uid c =? u) then Ok (become c u) else Err EPERM;
  sys_seccomp c f := if c_nnp c then Ok (with_filter c f) else Err EPERM |}.
Next Obligation. lia. Qed.
Next Obligation. done. Qed.
Next Obligation. cbn beta. intros c cap -> ?. by replace (cap <=? 40) with true by lia. Qed.
Next Obligation. cbn beta. intros c cap -> ?. by replace (cap <=? 40) with false by lia. Qed.
Next Obligation. done. Qed.
Next Obligation. cbn beta. intros c d Hok. by rewrite capset_okb_spec. Qed.
Next Obligation. cbn beta. by intros c gs ->. Qed.
Next Obligation. cbn beta. intros c g [-> |<-]; [done|]. by rewrite Z.eqb_refl, orb_true_r. Qed.
Next Obligation. cbn beta. intros c g -> Hne. by apply Z.eqb_neq in Hne as ->. Qed.
Next Obligation. cbn beta. intros c u [-> |<-]; [done|]. by rewrite Z.eqb_refl, orb_true_r. Qed.
Next Obligation. cbn beta. intros c u -> Hne. by apply Z.eqb_neq in Hne as ->. Qed.
Next Obligation. cbn beta. by intros c f ->. Qed.

(** Root with every capability, as the init process has. *)
Definition root_word (n : Z) : CapData := {| effective := Z.ones n; permitted := Z.ones n; inheritable := 0 |}.
Definition init_creds : creds :=
  {| c_uid := 0; c_gid := 0; c_groups := []; c_caps := (root_word 32, root_word 9); c_bounding := Z.ones 41;
     c_ambient := 0; c_nnp := false; c_filters := [] |}.

Lemma init_root : root_creds init_creds.
Proof.
  split; [done|done| |].
  - assert (Hall : forallb (λ cap, has_cap effective init_creds cap && has_cap permitted init_creds cap &&
      Z.testbit (c_bounding init_creds) cap) (seqZ 0 41) = true) by (vm_compute; done).
    rewrite forallb_forall in Hall. intros cap Hcap. cbn in Hcap.
    specialize (Hall cap ltac:(apply list_elem_of_In, elem_of_seqZ; lia)).
    rewrite !andb_true_iff in Hall. naive_solver.
  - assert (Hall : forallb (λ cap, negb (has_cap effective init_creds cap) && negb (has_cap permitted init_creds cap) &&
      negb (has_cap inheritable init_creds cap) && negb (Z.testbit (c_bounding init_creds) cap)) (seqZ 41 23) = true)
      by (vm_compute; done).
    rewrite forallb_forall in Hall. intros cap Hcap. cbn in Hcap.
    specialize (Hall cap ltac:(apply list_elem_of_In, elem_of_seqZ; lia)).
    rewrite !andb_true_iff, !negb_true_iff in Hall. naive_solver.
Qed.

Definition web_user : ProcessUser := {| pu_uid := 1000; pu_gid := Some 1000 |}.
Definition hardened (drop : list string) : SecurityConfig :=
  {| sec_seccomp := SeccompDefault; sec_no_new_privileges := true; sec_cap_add := [];
     sec_cap_drop := drop; sec_privileged := false |}.

Lemma starts_iff_witness :
  is_ok (apply_security_before_exec X86_64 (hardened ["NET_RAW"]) (Some web_user) [1000; 27] init_creds) = true.
Proof. apply (starts_iff X86_64 _ _ _ _ init_root). split; [done|]. split; right; vm_compute; reflexivity. Defined.

Definition web_creds : creds :=
  match apply_security_before_exec X86_64 (hardened ["NET_RAW"]) (Some web_user) [1000; 27] init_creds with
  | Ok c => c | Err _ => init_creds end.

Lemma confined_witness :
  apply_security_before_exec X86_64 (hardened ["NET_RAW"]) (Some web_user) [1000; 27] init_creds = Ok web_creds ∧
  Z.testbit (c_bounding web_creds) 13 = false ∧ c_uid web_creds = 1000.
Proof.
  assert (Hrun : apply_security_before_exec X86_64 (hardened ["NET_RAW"]) (Some web_user) [1000; 27] init_creds
    = Ok web_creds) by (vm_compute; reflexivity).
  split; [exact Hrun|].
  destruct (confined X86_64 (hardened ["NET_RAW"]) (Some web_user) [1000; 27] init_creds web_creds init_root eq_refl Hrun) as (Hd & Hu & _).
  split; [|by destruct (Hu web_user eq_refl)].
  by destruct (Hd 13 ltac:(cbn; lia) eq_refl) as (_ & _ & _ & ?).
Defined.

Lemma exec_confined_witness : ∃ c',
  configure_child_process X86_64 (Some web_user) [] true [] (Some ["SETUID"; "SETGID"; "CHOWN"]) [] true init_creds = Ok c' ∧
  c_uid c' = 1000.
Proof.
  destruct (exec_confined X86_64 (Some web_user) [] true [] ["SETUID"; "SETGID"; "CHOWN"] [] true init_creds init_root)
    as [_ Hok].
  - intros cap Hn. unfold named in Hn. apply existsb_exists in Hn as (x & _ & Hx%bool_decide_eq_true).
    apply cap_number_range in Hx. cbn. lia.
  - destruct Hok as (c' & Hrun & _ & _ & Hu & _).
    + split; right; vm_compute; reflexivity.
    + exists c'. split; [exact Hrun|]. by destruct (Hu web_user eq_refl).
Defined.

(** Dropping every capability and running as another user cannot be combined: the switch
    comes after the drop and is refused. *)
Lemma drop_all_blocks_user :
  apply_security_before_exec X86_64 (hardened ["ALL"]) (Some web_user) [1000] init_creds = Err (Errno EPERM) ∧
  configure_child_process X86_64 (Some web_user) [] true [] (Some []) [] true init_creds = Err (Errno EPERM).
Proof. split; vm_compute; reflexivity. Qed.

(** Names are matched in upper case and [ALL] without its prefix; others drop nothing. *)
Lemma unknown_names_drop_nothing cap : dropped ["CAP_ALL"; "net_raw"] cap = false.
Proof. reflexivity. Qed.

(** ** Identities *)

Lemma retain_new_spec seen l :
  NoDup (retain_new seen l) ∧ (∀ x, x ∈ retain_new seen l ↔ x ∈ l ∧ x ∉ seen).
Proof.
  revert seen. induction l as [|y l IH]; intros seen; cbn [retain_new]; [split; [constructor | set_solver]|].
  case_bool_decide as Hy.
  - destruct (IH seen) as [Hn Hm]. split; [done|]. set_solver.
  - destruct (IH (y :: seen)) as [Hn Hm]. split.
    + constructor; [|done]. rewrite Hm. set_solver.
    + intros x. rewrite elem_of_cons, Hm. destruct (decide (x = y)); set_solver.
Qed.

(** The user name whose memberships count. *)
Definition group_user (passwd : option string) (uid : Z) (user : string) : option string :=
  let name_part := trim (hd "" (split ":" (trim user))) in
  if negb (is_empty name_part) && negb (bool_decide (name_part = "root")) &&
     negb (bool_decide (is_Some (parse_uint 32 name_part)))
  then Some name_part else fst <$> passwd_entry_for_uid passwd uid.

(** The supplementary groups are without duplicates and exactly the primary group (the
    explicit one, else the one of the image's passwd entry), which comes first, and the
    groups of the image's group file that list the user. *)
Theorem image_groups_exact passwd group_file uid gid user :
  let gs := resolve_image_groups passwd group_file uid gid user in
  let primary := match gid with Some g => Some g | None => primary_gid_for_uid passwd uid end in
  NoDup gs ∧
  (∀ g, primary = Some g → head gs = Some g) ∧
  (∀ g, g ∈ gs ↔ primary = Some g ∨
     ∃ name text line, group_user passwd uid user = Some name ∧ group_file = Some text ∧
       line ∈ lines text ∧ group_line name line = Some g).
Proof.
  cbn zeta. unfold resolve_image_groups, primary_gid_for_uid. fold (group_user passwd uid user).
  set (first := match gid with Some g => [g] | None => _ end).
  set (listed := match group_user passwd uid user, group_file with Some _, Some _ => _ | _, _ => _ end).
  destruct (retain_new_spec [] (first ++ listed)) as [Hn Hm]. split; [done|].
  assert (Hf : ∀ g, match gid with Some g => Some g | None => snd <$> passwd_entry_for_uid passwd uid end = Some g ↔ first = [g]).
  { intros g. unfold first. destruct gid as [g'|]; [naive_solver|].
    destruct (passwd_entry_for_uid passwd uid) as [[n g']|]; cbn; naive_solver. }
  split.
  - intros g Hg%Hf. rewrite Hg. done.
  - intros g. rewrite Hm, elem_of_app.
    assert (Hl : g ∈ listed ↔ ∃ name text line, group_user passwd uid user = Some name ∧ group_file = Some text ∧
       line ∈ lines text ∧ group_line name line = Some g).
    { unfold listed. destruct (group_user passwd uid user) as [name|]; [|set_solver].
      destruct group_file as [text|]; [|set_solver]. rewrite list_elem_of_omap. naive_solver. }
    rewrite Hl, Hf. assert (Hg : g ∈ first ↔ first = [g]).
    { unfold first. destruct gid as [g'|]; [set_solver|]. destruct (passwd_entry_for_uid passwd uid) as [[n g']|]; set_solver. }
    rewrite Hg. set_solver.
Qed.

(** A name of [/etc/passwd]: visible characters, no colon, not [root], not a number. *)
Definition plain_user (name : string) : Prop :=
  word name = true ∧ has_char ":" name = false ∧ name ≠ "root" ∧ parse_uint 32 name = None.

Lemma show_not_root n : 0 ≤ n → show_uint n ≠ "root".
Proof.
  intros Hn E. pose proof (show_uint_digits n Hn) as H. by rewrite E in H.
Qed.

Lemma parse_part_number n label original : in_range 32 n → parse_user_part (show_uint n) label original = Ok n.
Proof.
  intros Hn. unfold parse_user_part. rewrite show_uint_nonempty, bool_decide_false by (apply show_not_root; apply Hn).
  by rewrite parse_show_uint.
Qed.

Lemma numbers_visible uid gid : 0 ≤ uid → 0 ≤ gid →
  str_forallb visible (show_uint uid +:+ ":" +:+ show_uint gid) = true.
Proof. intros. rewrite !str_forallb_app, !show_uint_visible by done. done. Qed.

(** [uid:gid] names that user and that group. *)
Lemma parse_numbers uid gid : in_range 32 uid → in_range 32 gid →
  parse_process_user (Some (show_uint uid +:+ ":" +:+ show_uint gid)) = Ok (Some {| pu_uid := uid; pu_gid := Some gid |}).
Proof.
  intros Hu Hg. assert (0 ≤ uid ∧ 0 ≤ gid) as [Hu0 Hg0] by (unfold in_range in *; lia).
  unfold parse_process_user. rewrite trim_visible by by apply numbers_visible.
  assert (He : is_empty (show_uint uid +:+ ":" +:+ show_uint gid) = false).
  { pose proof (show_uint_nonempty uid). by destruct (show_uint uid). }
  rewrite He. change (show_uint uid +:+ ":" +:+ show_uint gid) with (join ":" [show_uint uid; show_uint gid]).
  rewrite split_join; [| done | repeat constructor; by apply show_uint_no_char].
  rewrite !parse_part_number by done. done.
Qed.

Lemma parse_number uid : in_range 32 uid →
  parse_process_user (Some (show_uint uid)) = Ok (Some {| pu_uid := uid; pu_gid := None |}).
Proof.
  intros Hu. assert (Hu0 : 0 ≤ uid) by (unfold in_range in *; lia). unfold parse_process_user.
  rewrite trim_visible by by apply show_uint_visible.
  rewrite show_uint_nonempty, split_no by by apply show_uint_no_char.
  by rewrite parse_part_number.
Qed.

Lemma passwd_by_name_range name ls uid gid : passwd_by_name name ls = Some (Some (uid, gid)) →
  in_range 32 uid ∧ in_range 32 gid.
Proof.
  induction ls as [|line ls IH]; cbn [passwd_by_name]; [done|].
  destruct (split ":" line) as [|f0 [|f1 [|f2 [|f3 fs]]]]; try exact IH.
  case_bool_decide; [|exact IH].
  destruct (parse_uint 32 f2) eqn:E2; [|done]. destruct (parse_uint 32 f3) eqn:E3; [|done].
  intros [= <- <-]. eauto using parse_uint_range.
Qed.

(** A number is left to the parser. *)
Lemma resolve_number_none uid rest passwd : in_range 32 uid → str_forallb visible rest = true →
  resolve_named_user (show_uint uid) passwd = None ∧ resolve_named_user (show_uint uid +:+ ":" +:+ rest) passwd = None.
Proof.
  intros Hu Hr. assert (Hu0 : 0 ≤ uid) by (unfold in_range in *; lia).
  assert (Hno : has_char ":" (show_uint uid) = false) by by apply show_uint_no_char.
  unfold resolve_named_user. split.
  - rewrite trim_visible by by apply show_uint_visible. apply split_once_None in Hno as ->.
    rewrite (bool_decide_true (is_Some _)) by (rewrite parse_show_uint by done; eauto). by rewrite !orb_true_r.
  - rewrite trim_visible by (rewrite !str_forallb_app, show_uint_visible, Hr by done; done).
    change (":" +:+ rest) with (String ":" rest). rewrite split_once_app by done.
    rewrite (bool_decide_true (is_Some _)) by (rewrite parse_show_uint by done; eauto). by rewrite !orb_true_r.
Qed.

Lemma resolve_name text name uid gid rest : plain_user name → str_forallb visible rest = true →
  passwd_by_name name (lines text) = Some (Some (uid, gid)) →
  resolve_named_user name (Some text) = Some (show_uint uid +:+ ":" +:+ show_uint gid) ∧
  resolve_named_user (name +:+ ":" +:+ rest) (Some text) = Some (show_uint uid +:+ ":" +:+ rest).
Proof.
  intros (Hw & Hc & Hr & Hp) Hv Hpw. pose proof (word_ne _ Hw) as Hne. pose proof (word_visible _ Hw) as Hvis.
  unfold resolve_named_user. split.
  - rewrite trim_visible by done. rewrite (proj2 (split_once_None _ _) Hc), Hne.
    rewrite (bool_decide_false _ Hr), (bool_decide_false (is_Some _)) by (rewrite Hp; by intros []).
    cbn [orb]. by rewrite Hpw.
  - rewrite trim_visible by (rewrite !str_forallb_app, Hvis, Hv; done).
    change (":" +:+ rest) with (String ":" rest). rewrite split_once_app, Hne by done.
    rewrite (bool_decide_false _ Hr), (bool_decide_false (is_Some _)) by (rewrite Hp; by intros []).
    cbn [orb]. by rewrite Hpw.
Qed.

Lemma resolve_visible passwd gf user pu : str_forallb visible user = true → is_empty user = false →
  parse_process_user (Some (default user (resolve_named_user user passwd))) = Ok (Some pu) →
  resolve_user_and_groups passwd gf (Some user) =
    let gid := match pu_gid pu with Some g => Some g | None => primary_gid_for_uid passwd (pu_uid pu) end in
    (Some {| pu_uid := pu_uid pu; pu_gid := gid |}, resolve_image_groups passwd gf (pu_uid pu) gid user).
Proof. intros Hv He Hp. unfold resolve_user_and_groups. by rewrite trim_visible, He, Hp. Qed.

(** A name of the image's passwd file gets the numbers of its line, with an explicit
    group number in place of the line's; numbers are taken as they are, and a user number
    alone gets the primary group of its passwd entry. *)
Theorem user_resolved text gf name uid gid g :
  plain_user name → passwd_by_name name (lines text) = Some (Some (uid, gid)) → in_range 32 g →
  (resolve_user_and_groups (Some text) gf (Some name)).1 = Some {| pu_uid := uid; pu_gid := Some gid |} ∧
  (resolve_user_and_groups (Some text) gf (Some (name +:+ ":" +:+ show_uint g))).1
    = Some {| pu_uid := uid; pu_gid := Some g |} ∧
  (resolve_user_and_groups (Some text) gf (Some (show_uint uid +:+ ":" +:+ show_uint g))).1
    = Some {| pu_uid := uid; pu_gid := Some g |} ∧
  (resolve_user_and_groups (Some text) gf (Some (show_uint uid))).1
    = Some {| pu_uid := uid; pu_gid := primary_gid_for_uid (Some text) uid |}.
Proof.
  intros Hn Hpw Hg. destruct (passwd_by_name_range _ _ _ _ Hpw) as [Hu Hgid].
  assert (0 ≤ uid ∧ 0 ≤ gid ∧ 0 ≤ g) as (Hu0 & Hgid0 & Hg0) by (unfold in_range in *; lia).
  assert (Hvg : str_forallb visible (show_uint g) = true) by by apply show_uint_visible.
  destruct (resolve_name text name uid gid (show_uint g) Hn Hvg Hpw) as [R1 R2].
  destruct (resolve_number_none uid (show_uint g) (Some text) Hu Hvg) as [R3 R4].
  destruct Hn as (Hw & _). pose proof (word_ne _ Hw) as Hne. pose proof (word_visible _ Hw) as Hvis.
  split_and!.
  - erewrite resolve_visible; [|done|done|rewrite R1; by apply parse_numbers]. done.
  - erewrite resolve_visible; [| |by destruct name|rewrite R2; by apply parse_numbers]; [done|].
    by rewrite !str_forallb_app, Hvis, Hvg.
  - erewrite resolve_visible; [| by apply numbers_visible | |rewrite R4; by apply parse_numbers]; [done|].
    pose proof (show_uint_nonempty uid). by destruct (show_uint uid).
  - erewrite resolve_visible; [|by apply show_uint_visible|apply show_uint_nonempty|rewrite R3; by apply parse_number]. done.
Qed.

Definition demo_passwd : string :=
  "root:x:0:0:root:/root:/bin/sh" +:+ newline +:+ "node:x:1000:1000::/home/node:/bin/sh" +:+ newline.
Definition demo_group : string :=
  "root:x:0:" +:+ newline +:+ "node:x:1000:" +:+ newline +:+ "sudo:x:27:node,app" +:+ newline.

Lemma user_resolved_witness :
  (resolve_user_and_groups (Some demo_passwd) (Some demo_group) (Some "node")).1
  = Some {| pu_uid := 1000; pu_gid := Some 1000 |}.
Proof.
  apply (user_resolved demo_passwd (Some demo_group) "node" 1000 1000 5).
  - split_and!; done.
  - vm_compute. reflexivity.
  - split; lia.
Defined.

(** A group given by its name makes the whole identity unreadable, and the process of an
    image that says [USER node:node] keeps the identity of root. *)
Lemma named_group_runs_as_root :
  resolve_user_and_groups (Some demo_passwd) (Some demo_group) (Some "node:node") = (None, []).
Proof. vm_compute. reflexivity. Qed.

(** So does a user the image does not have. *)
Lemma unknown_user_runs_as_root :
  resolve_user_and_groups (Some demo_passwd) (Some demo_group) (Some "nobody") = (None, []).
Proof. vm_compute. reflexivity. Qed.
