(* ===== verification/VmSpec.v ===== *)
(** * VmSpec: from a box configuration to the instance the shim starts

    [runtime/src/vm/spec.rs] (mounts, entry point, environment of the init process),
    [runtime/src/vm/network.rs] and the environment the boot adds to it
    ([runtime/src/vm/mod.rs]), and what the shim hands to the hypervisor
    ([shim/src/main.rs], [shim/src/krun/context.rs]).  The Linux build is modelled.  What the
    host file system answers is a record of functions; the volume store is the one of
    Store.v. *)

From Stdlib Require Import ZArith Lia Ascii.
From stdpp Require Import base gmap strings list numbers.
From S2P Require Import Prelude RustStr Text Build Network Store Options Config Security.

Local Open Scope string_scope.
Local Open Scope list_scope.
Local Open Scope Z_scope.

(** ** The instance ([core/src/vmm.rs]) *)

Record FsMount := { fm_tag : string; fm_host_path : string; fm_read_only : bool }.
Record EntryPoint := { ep_executable : string; ep_args : list string; ep_env : list (string * string) }.

Record NetworkInstanceConfig := {
  ni_ip : Z; ni_gateway : Z; ni_prefix_len : Z; ni_mac : list Z; ni_dns : list Z }.

Record InstanceSpec := {
  is_box_id : string; is_vcpus : Z; is_memory_mib : Z; is_rootfs : string;
  is_mounts : list FsMount; is_entrypoint : EntryPoint; is_workdir : string;
  is_port_map : list string; is_user : option string;
  is_network : option NetworkInstanceConfig; is_limits : ResourceLimits }.

(** [BoxLayout], the parts the specification is built from; [bl_init] tells whether
    [sbin/init] exists in the root file system. *)
Record BoxLayout := {
  bl_rootfs : string; bl_workspace : string; bl_oci : option OciImageConfig; bl_init : bool }.

(** What the host file system answers: [create_dir_all] succeeds or not, [canonicalize] is
    asked after it. *)
Record HostFs := {
  hf_exists : string → bool; hf_mkdir : string → bool; hf_canonicalize : string → option string;
  hf_is_file : string → bool }.

Inductive spec_error :=
| InvalidVolumeFormat (volume : string)
| InvalidVolumeMode (mode volume : string)
| VolumeCreateFailed (path : string)
| VolumeResolveFailed (path : string)
| SpecPanic.

(** ** Process configuration *)

Definition GUEST_WORKDIR : string := "/workspace".
Definition fallback_command : string * list string :=
  ("/bin/sh", ["-c"; "echo No command specified; exec /bin/sh"]).

Definition resolve_oci_entrypoint (oci : OciImageConfig) (cmd_override : list string)
    (entrypoint_override : option (list string)) : string * list string :=
  let entrypoint := match entrypoint_override with Some ep => ep | None => default [] (oc_entrypoint oci) end in
  let cmd := match cmd_override with [] => default [] (oc_cmd oci) | _ => cmd_override end in
  match entrypoint, cmd with
  | e :: es, _ => (e, es ++ cmd)
  | [], c :: cs => (c, cs)
  | [], [] => fallback_command
  end.

Definition non_empty (o : option string) : option string :=
  match o with Some s => if is_empty s then None else Some s | None => None end.

Definition effective_workdir (config : BoxConfig) (oci : option OciImageConfig) : string :=
  let image_workdir := non_empty (o ← oci; oc_working_dir o) in
  match non_empty (workdir config) with
  | Some w =>
      if starts_with "/" w then w
      else trim_end_char "/" (default "/" image_workdir) +:+ "/" +:+ trim_start_char "/" w
  | None => default GUEST_WORKDIR image_workdir
  end.

Definition effective_user (config : BoxConfig) (oci : option OciImageConfig) : option string :=
  match non_empty (user config) with
  | Some u => Some u
  | None => non_empty (o ← oci; oc_user o)
  end.

(** ** Volumes *)

Definition vol_tag (index : nat) : string := "vol" +:+ show_uint (Z.of_nat index).

(** The last disjunct cannot hold of a piece between colons. *)
Definition looks_like_path (s : string) : bool :=
  starts_with "/" s || starts_with "\" s || starts_with "./" s || starts_with "../" s ||
  ((String.length s =? 2)%nat &&
   match s with String c _ => is_lower c || is_upper c | "" => false end && ends_with ":" s).

Definition is_mode (s : string) : bool := bool_decide (s = "ro") || bool_decide (s = "rw").

Definition host_part (parts : list string) : string :=
  let joined := join ":" parts in
  match parts with
  | p0 :: _ =>
      if (String.length p0 =? 1)%nat then default joined (strip_suffix ":" joined) else joined
  | [] => joined
  end.

(** The checks of [parse_volume_mount] before it touches the host: the host path, the guest
    path and whether the mount is read-only. *)
Definition split_volume (volume : string) : result spec_error (string * string * bool) :=
  let parts := split ":" volume in
  let n := length parts in
  if (n <? 2)%nat then Err (InvalidVolumeFormat volume)
  else
    let last := List.last parts "" in
    let has_mode := is_mode last in
    if negb has_mode && negb (looks_like_path last) then Err (InvalidVolumeMode last volume)
    else
      let guest_idx := if has_mode then (n - 2)%nat else (n - 1)%nat in
      let guest := nth guest_idx parts "" in
      let mode := if has_mode then last else "" in
      if is_empty guest || is_mode guest then Err (InvalidVolumeFormat volume)
      else Ok (host_part (firstn guest_idx parts), guest, bool_decide (mode = "ro")).

Definition parse_volume_mount (fs : HostFs) (volume : string) (index : nat) : result spec_error FsMount :=
  '(host, _, read_only) ← split_volume volume;
  if negb (hf_exists fs host) && negb (hf_mkdir fs host) then Err (VolumeCreateFailed host)
  else
    match hf_canonicalize fs host with
    | None => Err (VolumeResolveFailed host)
    | Some path => Ok {| fm_tag := vol_tag index; fm_host_path := path; fm_read_only := read_only |}
    end.

Fixpoint user_mounts (fs : HostFs) (volumes : list string) (index : nat) : result spec_error (list FsMount) :=
  match volumes with
  | [] => Ok []
  | vol :: volumes =>
      m ← parse_volume_mount fs vol index;
      ms ← user_mounts fs volumes (S index);
      Ok (m :: ms)
  end.

(** The guest paths the user covers: the second piece of each volume. *)
Definition user_guest_paths (volumes : list string) : list string :=
  omap (λ v, split ":" v !! 1%nat) volumes.

(** ** Anonymous volumes *)

Definition fnv1a_hash (s : string) : Z :=
  foldl (λ h b, wrap 64 (Z.lxor h b * 0x100000001b3)) 0xcbf29ce484222325 (as_bytes s).

(** [{:x}]. *)
Fixpoint hex_go (fuel : nat) (n : Z) (acc : string) : string :=
  match fuel with
  | O => acc
  | S fuel =>
      let acc := String (hex_digit (n mod 16)) acc in
      if n <? 16 then acc else hex_go fuel (n / 16) acc
  end.
Definition show_hex (n : Z) : string := hex_go 16 n "".

(** [s[..8]] panics on shorter text; box identifiers and digests are ASCII. *)
Definition first8 (s : string) : option string :=
  if (8 <=? String.length s)%nat then Some (String.substring 0 8 s) else None.

Definition anon_name (box_id vol_path : string) : option string :=
  hash ← first8 (show_hex (fnv1a_hash vol_path));
  Some ("anon_" +:+ String.substring 0 (Nat.min 8 (String.length box_id)) box_id +:+ "_" +:+ hash).

Section spec.
Context {content : Type} (to_json : gmap string VolumeConfig → content)
  (from_json : content → option (gmap string VolumeConfig)) (volumes_dir now : string).
Context (io : string → VolumeStore.vol_io content).

Abbreviation vstore := (VolumeStore.store content).

(** [create_anonymous_volume]: the mount point, and whether the volume is new. *)
Definition create_anonymous_volume (box_id name : string) (s : vstore)
    : vstore * result store_err (string * bool) :=
  match VolumeStore.get from_json (io name) s name with
  | Err e => (s, Err e)
  | Ok (Some existing) => (s, Ok (vol_mount_point existing, false))
  | Ok None =>
      let config := volume_new name "" now in
      let config := {| vol_name := vol_name config; vol_driver := vol_driver config;
        vol_mount_point := vol_mount_point config; vol_labels := <["anonymous" := "true"]> (vol_labels config);
        vol_in_use_by := vol_in_use_by config; vol_size_limit := vol_size_limit config;
        vol_created_at := vol_created_at config |} in
      match VolumeStore.create to_json from_json volumes_dir (io name) s (attach config box_id) with
      | (s, Ok created) => (s, Ok (vol_mount_point created, true))
      | (s, Err e) => (s, Err e)
      end
  end.

(** What the loop over the image's volumes keeps: the store, the mounts, the names of the
    anonymous volumes and of the new ones. *)
Record anon_state := {
  an_store : vstore; an_mounts : list FsMount; an_volumes : list string; an_created : list string }.

(** The loop over the image's volumes: a volume that cannot be created is passed over and
    does not advance the tag number. *)
Fixpoint anon_mounts (box_id : string) (covered : list string) (paths : list string) (offset : nat)
    (st : anon_state) : result spec_error anon_state :=
  match paths with
  | [] => Ok st
  | path :: paths =>
      if bool_decide (path ∈ covered) then anon_mounts box_id covered paths offset st
      else
        name ← ok_or SpecPanic (anon_name box_id path);
        match create_anonymous_volume box_id name (an_store st) with
        | (s, Ok (host, created)) =>
            anon_mounts box_id covered paths (S offset)
              {| an_store := s;
                 an_mounts := an_mounts st ++ [{| fm_tag := vol_tag offset; fm_host_path := host; fm_read_only := false |}];
                 an_volumes := an_volumes st ++ [name];
                 an_created := an_created st ++ (if created then [name] else []) |}
        | (s, Err _) =>
            anon_mounts box_id covered paths offset
              {| an_store := s; an_mounts := an_mounts st; an_volumes := an_volumes st; an_created := an_created st |}
        end
  end.

(** ** The environment of the init process *)

Definition numbered (prefix : string) (start : nat) (values : list string) : list (string * string) :=
  imap (λ i v, (prefix +:+ show_uint (Z.of_nat (start + i)), v)) values.

Definition volume_var (fs : HostFs) (i : nat) (vol : string) : option (string * string) :=
  match split ":" vol with
  | host :: guest :: rest =>
      let mode := match rest with m :: _ => if bool_decide (m = "ro") then ":ro" else "" | [] => "" end in
      let file_flag := if hf_is_file fs host then ":file" else "" in
      Some ("BOX_VOL_" +:+ show_uint (Z.of_nat i), vol_tag i +:+ ":" +:+ guest +:+ mode +:+ file_flag)
  | _ => None
  end.

Fixpoint volume_vars (fs : HostFs) (volumes : list string) (i : nat) : list (string * string) :=
  match volumes with
  | [] => []
  | vol :: volumes =>
      match volume_var fs i vol with Some kv => [kv] | None => [] end ++ volume_vars fs volumes (S i)
  end.

(** Every image volume the user does not cover advances the number here. *)
Definition anon_vars (covered : list string) (paths : list string) (start : nat) : list (string * string) :=
  imap (λ i path, ("BOX_VOL_" +:+ show_uint (Z.of_nat (start + i)), vol_tag (start + i) +:+ ":" +:+ path))
    (List.filter (λ p, negb (bool_decide (p ∈ covered))) paths).

(** The command and the environment of the container. *)
Definition container_process (config : BoxConfig) (oci : option OciImageConfig)
    : string * list string * list (string * string) :=
  let '(exec, args, env) :=
    match oci with
    | Some oci =>
        let '(exec, args) := resolve_oci_entrypoint oci (cmd config) (entrypoint_override config) in
        (exec, args, oc_env oci)
    | None => (fallback_command.1, fallback_command.2, [])
    end in
  (exec, args, merge_env_pairs env (extra_env config)).

Definition oci_volumes (oci : option OciImageConfig) : list string :=
  match oci with Some o => oc_volumes o | None => [] end.

Definition init_env (fs : HostFs) (config : BoxConfig) (oci : option OciImageConfig) : list (string * string) :=
  let '(exec, args, env) := container_process config oci in
  [("BOX_EXEC_EXEC", exec); ("BOX_EXEC_ARGC", show_uint (Z.of_nat (length args)))]
  ++ numbered "BOX_EXEC_ARG_" 0 args
  ++ [("BOX_EXEC_WORKDIR", effective_workdir config oci)]
  ++ match effective_user config oci with Some u => [("BOX_EXEC_USER", u)] | None => [] end
  ++ map (λ kv, ("BOX_EXEC_ENV_" +:+ kv.1, kv.2)) env
  ++ volume_vars fs (volumes config) 0
  ++ anon_vars (user_guest_paths (volumes config)) (oci_volumes oci) (length (volumes config))
  ++ numbered "BOX_TMPFS_" 0 (tmpfs config)
  ++ numbered "BOX_SYSCTL_" 0 (map (λ kv, kv.1 +:+ "=" +:+ kv.2) (sysctls config))
  ++ to_env_vars (from_options (security_opt config) (cap_add config) (cap_drop config) (privileged config))
  ++ (if read_only config then [("BOX_READONLY", "1")] else [])
  ++ match hostname config with Some h => [("BOX_HOSTNAME", h)] | None => [] end.

Definition simulates (t : TeeConfig) : bool :=
  match t with SevSnp _ _ simulate => simulate | Tdx _ simulate => simulate | TeeNone => false end.

(** The variables every entry point gets at the end. *)
Definition common_env (config : BoxConfig) : list (string * string) :=
  (if simulates (tee config) then [("A3S_TEE_SIMULATE", "1")] else [])
  ++ [("BOX_CRI_PORT_FWD", "1")]
  ++ match sidecar config with
     | Some s =>
         [("BOX_SIDECAR_IMAGE", sidecar_image s); ("BOX_SIDECAR_VSOCK_PORT", show_uint (vsock_port s))]
         ++ numbered "BOX_SIDECAR_ENV_" 0 (map (λ kv, kv.1 +:+ "=" +:+ kv.2) (sidecar_env s))
         ++ [("BOX_SIDECAR_ENV_COUNT", show_uint (Z.of_nat (length (sidecar_env s))))]
     | None => []
     end.

Definition build_entrypoint (fs : HostFs) (config : BoxConfig) (layout : BoxLayout) : EntryPoint :=
  let oci := bl_oci layout in
  if bl_init layout then
    {| ep_executable := "/sbin/init"; ep_args := []; ep_env := init_env fs config oci ++ common_env config |}
  else
    let '(exec, args, env) := container_process config oci in
    let env := match oci with Some _ => env | None => extra_env config end in
    {| ep_executable := exec; ep_args := args; ep_env := env ++ common_env config |}.

(** ** [build_instance_spec]: the specification and the volumes it made *)
Definition build_instance_spec (fs : HostFs) (config : BoxConfig) (box_id : string) (layout : BoxLayout)
    (s : vstore) : result spec_error (InstanceSpec * anon_state) :=
  mounts ← user_mounts fs (volumes config) 0;
  an ← anon_mounts box_id (user_guest_paths (volumes config)) (oci_volumes (bl_oci layout))
         (length (volumes config))
         {| an_store := s; an_mounts := []; an_volumes := []; an_created := [] |};
  Ok ({| is_box_id := box_id;
         is_vcpus := wrap 8 (vcpus (resources config));
         is_memory_mib := memory_mb (resources config);
         is_rootfs := bl_rootfs layout;
         is_mounts := {| fm_tag := "workspace"; fm_host_path := bl_workspace layout; fm_read_only := false |}
                      :: mounts ++ an_mounts an;
         is_entrypoint := build_entrypoint fs config layout;
         is_workdir := effective_workdir config (bl_oci layout);
         is_port_map := port_map config;
         is_user := if bl_init layout then None else effective_user config (bl_oci layout);
         is_network := None;
         is_limits := resource_limits config |}, an).
End spec.

(** ** Bridge networking ([vm/network.rs]) *)

Inductive bridge_error :=
| NetworkNotFound (name : string)
| BoxNotConnected (box_id name : string)
| BadMac (mac : string)
| BackendFailed
| HostsConfig (e : dns_err).

(** [u8::from_str_radix(part, 16)]: an optional plus, then digits. *)
Fixpoint hex_value (acc : Z) (s : string) : option Z :=
  match s with
  | "" => Some acc
  | String c s => d ← to_digit 16 c; hex_value (acc * 16 + d) s
  end.
Definition parse_hex_u8 (s : string) : option Z :=
  let digits := default s (strip_prefix "+" s) in
  if is_empty digits then None
  else
    v ← hex_value 0 digits;
    if v <=? 255 then Some v else None.

Definition parse_mac (mac : string) : option (list Z) :=
  let parts := split ":" mac in
  if (length parts =? 6)%nat then mapM parse_hex_u8 parts else None.

(** [spawn] tells whether the network backend came up. *)
Definition setup_bridge_network (config : BoxConfig) (box_id network_name : string)
    (net : option NetworkConfig) (spawn : bool) : result bridge_error NetworkInstanceConfig :=
  net ← ok_or (NetworkNotFound network_name) net;
  ep ← ok_or (BoxNotConnected box_id network_name) (net_endpoints net !! box_id);
  let prefix := default 24 (p ← split "/" (net_subnet net) !! 1%nat; parse_uint 8 p) in
  mac ← ok_or (BadMac (ep_mac_address ep)) (parse_mac (ep_mac_address ep));
  let servers := match dns config with [] => [of_octets 8 8 8 8] | l => omap parse_ipv4 l end in
  if spawn then
    Ok {| ni_ip := ep_ip_address ep; ni_gateway := net_gateway net; ni_prefix_len := prefix;
          ni_mac := mac; ni_dns := servers |}
  else Err BackendFailed.

Definition hostname_aliases (config : BoxConfig) (default_name : option string) : list string :=
  let aliases := match non_empty default_name with Some n => [n] | None => [] end in
  match non_empty (hostname config) with
  | Some h => if existsb (λ a, bool_decide (a = h)) aliases then aliases else aliases ++ [h]
  | None => aliases
  end.

(** The hosts file of a box on a bridge network. *)
Definition write_hosts_file (config : BoxConfig) (box_id network_name : string)
    (net : option NetworkConfig) : result bridge_error string :=
  net ← ok_or (NetworkNotFound network_name) net;
  ep ← ok_or (BoxNotConnected box_id network_name) (net_endpoints net !! box_id);
  add_hosts ← map_err HostsConfig (parse_add_host_entries (add_hosts config));
  Ok (generate_hosts_file_with_entries (Some (show_ipv4 (ep_ip_address ep)))
        (hostname_aliases config (Some (ep_box_name ep))) (peer_endpoints net box_id) add_hosts).

(** The hosts file of any other box, written only when there is something to say. *)
Definition write_standalone_hosts_file (config : BoxConfig) : result bridge_error (option string) :=
  add_hosts ← map_err HostsConfig (parse_add_host_entries (add_hosts config));
  let aliases := hostname_aliases config None in
  match aliases, add_hosts with
  | [], [] => Ok None
  | _, _ => Ok (Some (generate_hosts_file_with_entries None aliases [] add_hosts))
  end.

(** The variables the boot adds for a bridge network ([vm/mod.rs]). *)
Definition net_env (n : NetworkInstanceConfig) : list (string * string) :=
  [("A3S_NET_IP", show_ipv4 (ni_ip n) +:+ "/" +:+ show_uint (ni_prefix_len n));
   ("A3S_NET_GATEWAY", show_ipv4 (ni_gateway n));
   ("A3S_NET_DNS", join "," (map show_ipv4 (ni_dns n)))].

Definition with_network (spec : InstanceSpec) (n : NetworkInstanceConfig) : InstanceSpec :=
  {| is_box_id := is_box_id spec; is_vcpus := is_vcpus spec; is_memory_mib := is_memory_mib spec;
     is_rootfs := is_rootfs spec; is_mounts := is_mounts spec;
     is_entrypoint := {| ep_executable := ep_executable (is_entrypoint spec);
                         ep_args := ep_args (is_entrypoint spec);
                         ep_env := ep_env (is_entrypoint spec) ++ net_env n |};
     is_workdir := is_workdir spec; is_port_map := is_port_map spec; is_user := is_user spec;
     is_network := Some n; is_limits := is_limits spec |}.

(** ** The shim ([shim/src/main.rs]) *)

Definition ulimit_names : list (string * Z) :=
  [("core", 4); ("cpu", 0); ("data", 2); ("fsize", 1); ("locks", 10); ("memlock", 8); ("msgqueue", 12);
   ("nice", 13); ("nofile", 7); ("nproc", 6); ("rss", 5); ("rtprio", 14); ("rttime", 15); ("sigpending", 11);
   ("stack", 3)].

Fixpoint find_name (name : string) (l : list (string * Z)) : option Z :=
  match l with
  | [] => None
  | (k, v) :: l => if bool_decide (k = name) then Some v else find_name name l
  end.

(** [to_lowercase] on the ASCII names the table has. *)
Definition parse_ulimit (ulimit : string) : option string :=
  '(name, limits) ← split_once "=" ulimit;
  n ← find_name (lowercase name) ulimit_names;
  Some (show_uint n +:+ "=" +:+ limits).

(** The resource limits of the guest, in the order they are handed over. *)
Definition guest_rlimits (l : ResourceLimits) : list string :=
  ["7=1048576:1048576"]
  ++ [match pids_limit l with
      | Some p => "6=" +:+ show_uint p +:+ ":" +:+ show_uint p
      | None => "6=4096:8192"
      end]
  ++ omap parse_ulimit (ulimits l).

Inductive cpuset_error := CpuRange (part : string) | CpuNumber (text : string) | CpuOrder (first last : Z).

Definition parse_cpu_part (part : string) : result cpuset_error (list Z) :=
  let part := trim part in
  if has_char "-" part then
    match split "-" part with
    | [a; b] =>
        first ← ok_or (CpuNumber a) (parse_uint 64 a);
        last ← ok_or (CpuNumber b) (parse_uint 64 b);
        if last <? first then Err (CpuOrder first last) else Ok (seqZ first (last - first + 1))
    | _ => Err (CpuRange part)
    end
  else
    cpu ← ok_or (CpuNumber part) (parse_uint 64 part);
    Ok [cpu].

Definition parse_cpuset_spec (spec : string) : result cpuset_error (list Z) :=
  cpus ← mapM parse_cpu_part (split "," spec);
  Ok (concat cpus).

(** [shares.clamp(2, 262144)] and the conversion to a cgroup weight. *)
Definition start_weight (shares : Z) : Z := 1 + ((Z.min (Z.max shares 2) 262144 - 2) * 9999) / 262142.

(** The files of the cgroup and what is written to each; nothing when no limit asks for it. *)
Definition cgroup_writes (l : ResourceLimits) : list (string * string) :=
  if is_some (cpu_shares l) || is_some (cpu_quota l) || is_some (memory_reservation l) || is_some (memory_swap l) then
    match cpu_shares l with Some s => [("cpu.weight", show_uint (start_weight s))] | None => [] end
    ++ match cpu_quota l with
       | Some q => [("cpu.max", limit_or_max q +:+ " " +:+ show_uint (default 100000 (cpu_period l)))]
       | None => []
       end
    ++ match memory_reservation l with Some r => [("memory.low", show_uint r)] | None => [] end
    ++ match memory_swap l with Some s => [("memory.swap.max", limit_or_max s)] | None => [] end
  else [].

Definition is_auto_assigned_host_port (mapping : string) : bool :=
  match split_once ":" mapping with
  | Some (host, _) => bool_decide (parse_uint 16 host = Some 0)
  | None => false
  end.

Definition tsi_port_map_for_spec (spec : InstanceSpec) : list string :=
  match is_network spec with
  | Some _ => []
  | None => List.filter (λ m, negb (is_auto_assigned_host_port m)) (is_port_map spec)
  end.

(** What a share holds: a directory, or a fresh directory with the one file, under the
    file's own name. *)
Inductive share := ShareDir (path : string) | ShareFile (path name : string).

Definition file_name (path : string) : string := List.last (split "/" path) "".

Definition share_of (fs : HostFs) (m : FsMount) : string * share :=
  (fm_tag m, if hf_is_file fs (fm_host_path m) then ShareFile (fm_host_path m) (file_name (fm_host_path m))
             else ShareDir (fm_host_path m)).

(** [env_to_cstring]: a NUL byte is refused. *)
Definition env_to_cstring (env : list (string * string)) : option (list string) :=
  mapM (λ kv, let s := kv.1 +:+ "=" +:+ kv.2 in if has_char nul s then None else Some s) env.

(** ** The shim's numbers *)

(** A cpuset denotes exactly the processors of its parts. *)
Lemma cpuset_exact spec cpus cpu : parse_cpuset_spec spec = Ok cpus →
  (cpu ∈ cpus ↔ ∃ part l, part ∈ split "," spec ∧ parse_cpu_part part = Ok l ∧ cpu ∈ l).
Proof.
  unfold parse_cpuset_spec. intros (ls & Hm & [= <-])%bind_Ok. apply mapM_Ok_Forall2 in Hm.
  induction Hm as [|p l ps ls Hp Hps IH]; [set_solver|].
  cbn [concat]. rewrite elem_of_app, IH. split.
  - intros [Hin|(p' & l' & ? & ? & ?)]; [exists p, l | exists p', l']; set_solver.
  - intros (p' & l' & [-> |Hin]%elem_of_cons & Hp' & Hc); [left; congruence | right; set_solver].
Qed.

(** The weight of a start is in the kernel's range and, inside the documented range of
    shares, the one a live update writes. *)
Lemma start_weight_range shares : 1 ≤ start_weight shares ≤ 10000.
Proof.
  unfold start_weight. set (x := Z.min (Z.max shares 2) 262144 - 2).
  assert (0 ≤ x ≤ 262142) by lia. split.
  - pose proof (Z.div_pos (x * 9999) 262142). lia.
  - assert (x * 9999 / 262142 ≤ 9999); [|lia].
    transitivity (262142 * 9999 / 262142); [apply Z.div_le_mono; lia | by vm_compute].
Qed.

Lemma weights_agree shares : 2 ≤ shares ≤ 262144 → start_weight shares = cpu_weight shares.
Proof.
  intros Hs. unfold start_weight, cpu_weight, sat_sub.
  replace (Z.min (Z.max shares 2) 262144) with shares by lia. rewrite Z.max_r by lia.
  destruct (Z.leb_spec shares 2).
  - by replace (shares - 2) with 0 by lia.
  - rewrite wrap_small by (unfold in_range; nia). f_equal. symmetry. apply Z.min_l.
    transitivity 9999; [|lia]. transitivity (262142 * 9999 / 262142); [apply Z.div_le_mono; lia | by vm_compute].
Qed.
