(* ===== verification/GuestBoot.v ===== *)
(** * GuestBoot: what the init process of the guest reads from its environment

    [guest/init/src/main.rs] (entry point, sidecar, volumes, tmpfs, read-only root, exit
    code), [guest/init/src/network.rs] and [guest/init/src/host_config.rs].  The environment
    is the list of entries in order: a lookup finds the first.  Mounts and files are
    sequences of operations, carried out one after the other until one fails.

    The theorems put both ends together: the environment VmSpec.v writes is the
    configuration the guest acts on. *)

From Stdlib Require Import ZArith Lia Ascii.
From stdpp Require Import base gmap strings list numbers.
From S2P Require Import Prelude RustStr Text Build Network Store Options Config Security Confine VmSpec.

Local Open Scope string_scope.
Local Open Scope list_scope.
Local Open Scope Z_scope.

(** ** The environment *)

Definition environment : Type := list (string * string).

(** [std::env::var]. *)
Fixpoint env_get (env : environment) (key : string) : option string :=
  match env with
  | [] => None
  | (k, v) :: env => if bool_decide (k = key) then Some v else env_get env key
  end.

(** [std::env::set_var]. *)
Fixpoint env_set (env : environment) (key value : string) : environment :=
  match env with
  | [] => [(key, value)]
  | (k, v) :: env => if bool_decide (k = key) then (k, value) :: env else (k, v) :: env_set env key value
  end.

(** One entry of [environ]: the name ends at the first [=] after the first byte. *)
Definition parse_entry (s : string) : option (string * string) :=
  match s with
  | "" => None
  | String c rest => '(k, v) ← split_once "=" rest; Some (String c k, v)
  end.

(** The values of [prefix0], [prefix1], ... up to the first that is missing; there are at
    most as many as the environment has entries. *)
Fixpoint read_numbered (fuel : nat) (env : environment) (prefix : string) (index : nat) : list string :=
  match fuel with
  | O => []
  | S fuel =>
      match env_get env (prefix +:+ show_uint (Z.of_nat index)) with
      | Some v => v :: read_numbered fuel env prefix (S index)
      | None => []
      end
  end.
Definition numbered_values (env : environment) (prefix : string) : list string :=
  read_numbered (S (length env)) env prefix 0.

(** ** Entry point and sidecar ([main.rs]) *)

Record ExecConfig := {
  x_executable : string; x_args : list string; x_env : list (string * string);
  x_workdir : string; x_user : option string }.

Definition usize (s : string) : option nat := Z.to_nat <$> parse_uint 64 s.

(** [ExecConfig::from_env]; [(0..argc).filter_map]. *)
Definition exec_from_env (env : environment) : ExecConfig :=
  {| x_executable := default "/sbin/init" (env_get env "BOX_EXEC_EXEC");
     x_args :=
       match (s ← env_get env "BOX_EXEC_ARGC"; usize s) with
       | Some argc => omap (λ i, env_get env ("BOX_EXEC_ARG_" +:+ show_uint (Z.of_nat i))) (seq 0 argc)
       | None => []
       end;
     x_env := omap (λ kv, k ← strip_prefix "BOX_EXEC_ENV_" kv.1; Some (k, kv.2)) env;
     x_workdir := default "/" (env_get env "BOX_EXEC_WORKDIR");
     x_user := non_empty (env_get env "BOX_EXEC_USER") |}.

(** [SidecarConfig::from_env]. *)
Definition sidecar_from_env (env : environment) : option SidecarConfig :=
  image ← env_get env "BOX_SIDECAR_IMAGE";
  if is_empty image then None
  else
    let port := default 4092 (s ← env_get env "BOX_SIDECAR_VSOCK_PORT"; parse_uint 32 s) in
    let count := default O (s ← env_get env "BOX_SIDECAR_ENV_COUNT"; usize s) in
    Some {| sidecar_image := image; vsock_port := port;
            sidecar_env := omap (λ i, raw ← env_get env ("BOX_SIDECAR_ENV_" +:+ show_uint (Z.of_nat i)); split_once "=" raw)
                             (seq 0 count) |}.

(** The binary [launch_sidecar] runs: the last path component up to the tag. *)
Definition sidecar_binary (image : string) : string :=
  "/usr/bin/" +:+ hd "" (split ":" (List.last (split "/" image) "")).

(** [expose_container_env_to_exec]. *)
Definition expose_container_env_to_exec (config : ExecConfig) (env : environment) : environment :=
  foldl (λ env kv,
    if is_empty kv.1 || has_char "=" kv.1 || has_char nul kv.1 || has_char nul kv.2 then env
    else env_set env kv.1 kv.2) env (x_env config).

(** [Command::env] for each variable, over the environment that [exec] inherits: the last value of a name
    counts. *)
Definition command_env (inherited vars : environment) : environment :=
  foldl (λ env kv, env_set env kv.1 kv.2) inherited vars.

(** What [child_process] of [namespace.rs] runs: nothing clears the environment of init, and the user
    is looked up in the root file system; one that is not found leaves no identity, and the
    container runs as root. *)
Record Spawned := {
  sp_command : string; sp_args : list string; sp_env : environment; sp_workdir : string;
  sp_identity : option ProcessUser * list Z }.
Definition spawn_isolated (passwd group_file : option string) (init_env : environment) (x : ExecConfig) : Spawned :=
  {| sp_command := x_executable x; sp_args := x_args x; sp_env := command_env init_env (x_env x);
     sp_workdir := x_workdir x; sp_identity := resolve_user_and_groups passwd group_file (x_user x) |}.

(** [is_tee_available] of [core/src/tee.rs] asks for the variable or the device. *)
Definition is_tee_environment (device : bool) (env : environment) : bool :=
  is_some (env_get env "A3S_TEE_SIMULATE") || device.

(** ** Mounts ([main.rs]) *)

Inductive op :=
| CreateDirAll (path : string)
| MountShare (tag target : string) (read_only : bool)
| EnsureFile (path : string)
| BindFile (source target : string)
| RemountReadOnly (target : string)
| MountTmpfs (path : string) (options : option string)
| RemountRoot
| BindRoot
| RemountRootBind.

(** Operations run until one fails ([?]). *)
Fixpoint run_ops (ok : op → bool) (ops : list op) : list op * bool :=
  match ops with
  | [] => ([], true)
  | o :: ops => if ok o then let '(done, r) := run_ops ok ops in (o :: done, r) else ([], false)
  end.

(** The text up to the last slash; nothing when there is no slash. *)
Definition parent_of (path : string) : option string := fst <$> rsplit_once "/" path.

(** One turn of [mount_user_volumes]; a value without a path is reported and passed over. *)
Definition volume_ops (index : nat) (value : string) : list op :=
  match split ":" value with
  | tag :: guest :: flags =>
      let read_only := existsb (λ m, bool_decide (m = "ro")) flags in
      let is_file := existsb (λ m, bool_decide (m = "file")) flags in
      if is_file then
        let private_mp := "/run/.a3s-filemounts/" +:+ show_uint (Z.of_nat index) in
        let src := private_mp +:+ "/" +:+ List.last (split "/" guest) guest in
        [CreateDirAll private_mp; MountShare tag private_mp false]
        ++ match parent_of guest with Some p => if is_empty p then [] else [CreateDirAll p] | None => [] end
        ++ [EnsureFile guest; BindFile src guest]
        ++ (if read_only then [RemountReadOnly guest] else [])
      else [CreateDirAll guest; MountShare tag guest read_only]
  | _ => []
  end.

Definition mount_user_volumes (env : environment) : list op :=
  concat (imap volume_ops (numbered_values env "BOX_VOL_")).

Definition tmpfs_ops (value : string) : list op :=
  let '(path, options) := match split_once ":" value with Some (p, o) => (p, Some o) | None => (value, None) end in
  [CreateDirAll path; MountTmpfs path options].

Definition mount_tmpfs_volumes (env : environment) : list op :=
  concat (map tmpfs_ops (numbered_values env "BOX_TMPFS_")).

(** [remount_rootfs_readonly]: whether the root ends up read-only; no failure stops the boot. *)
Definition remount_rootfs_readonly (ok : op → bool) (env : environment) : bool :=
  if bool_decide (env_get env "BOX_READONLY" = Some "1") then
    ok RemountRoot || (ok BindRoot && ok RemountRootBind)
  else false.

(** ** Host name and sysctls ([host_config.rs]) *)

Definition sysctl_write (spec : string) : option (string * string) :=
  '(name, value) ← split_once "=" spec;
  Some ("/proc/sys/" +:+ replace "." "/" (trim name), value).

Definition apply_sysctls_from_env (env : environment) : list (string * string) :=
  omap sysctl_write (numbered_values env "BOX_SYSCTL_").

(** The host name set, or the refusal that stops the boot. *)
Definition hostname_from_env (env : environment) : result dns_err (option string) :=
  match env_get env "BOX_HOSTNAME" with
  | None => Ok None
  | Some h => _ ← validate_hostname h; Ok (Some h)
  end.

(** ** Network ([network.rs]) *)

Record GuestNetConfig := { gn_ip_cidr : string; gn_gateway : string; gn_dns : list string }.

Definition net_from_env (env : environment) : option GuestNetConfig :=
  ip ← env_get env "A3S_NET_IP";
  Some {| gn_ip_cidr := ip; gn_gateway := default "" (env_get env "A3S_NET_GATEWAY");
          gn_dns := match env_get env "A3S_NET_DNS" with
                    | Some s => map trim (split "," s)
                    | None => ["8.8.8.8"]
                    end |}.

(** [prefix_to_netmask]: the shift is taken modulo 32 and the difference modulo [2 ^ 32], as
    in a build without overflow checks. *)
Definition prefix_to_netmask (prefix : Z) : Z :=
  if prefix =? 0 then 0
  else Z.lxor (wrap 32 (wrap 32 (Z.shiftl 1 ((32 - prefix) mod 32)) - 1)) (u_max 32).

(** The address and the mask [add_address] gives to the interface. *)
Definition add_address (ip_cidr : string) : option (Z * Z) :=
  match split "/" ip_cidr with
  | [a; p] => ip ← parse_ipv4 a; prefix ← parse_uint 8 p; Some (ip, prefix_to_netmask prefix)
  | _ => None
  end.

Definition resolv_conf (servers : list string) : string :=
  "# Generated by a3s-box guest init" +:+ newline +:+
  join "" (map (λ s, "nameserver " +:+ s +:+ newline) servers).

(** The interface as it is configured: address, mask, route, resolver file. *)
Record GuestIf := { gi_ip : Z; gi_mask : Z; gi_route : option Z; gi_resolv : string }.

Definition configure_interfaces (c : GuestNetConfig) : option GuestIf :=
  '(ip, mask) ← add_address (gn_ip_cidr c);
  route ← (if is_empty (gn_gateway c) then Some None else Some <$> parse_ipv4 (gn_gateway c));
  Some {| gi_ip := ip; gi_mask := mask; gi_route := route; gi_resolv := resolv_conf (gn_dns c) |}.

(** ** Waiting for the container ([main.rs]) *)

Inductive wait_status := Exited (status : Z) | Signaled (signal : Z) | StillAlive | OtherStatus | NoChild | WaitError.
Inductive wait_result := ExitWith (code : Z) | ShutDown | Finished | Failed.

(** What each turn of the loop sees: the shutdown flag, then [waitpid]. *)
Fixpoint wait_for_children (turns : list (bool * wait_status)) : option wait_result :=
  match turns with
  | [] => None
  | (true, _) :: _ => Some ShutDown
  | (false, Exited status) :: _ => Some (ExitWith status)
  | (false, Signaled signal) :: _ => Some (ExitWith (128 + signal))
  | (false, (StillAlive | OtherStatus)) :: turns => wait_for_children turns
  | (false, NoChild) :: _ => Some Finished
  | (false, WaitError) :: _ => Some Failed
  end.

(** What is written to [/.a3s_exit_code]. *)
Definition persisted (r : wait_result) : option string :=
  match r with ExitWith code => Some (show_uint code) | _ => None end.

(** ** The boot as a whole ([run_init]) *)

Inductive boot_error := MountFailed (after : list op) | NetworkFailed | HostnameRefused (e : dns_err).

(** What the container is started with, and the state of the guest around it. *)
Record Booted := {
  b_exec : ExecConfig; b_security : SecurityConfig; b_sidecar : option SidecarConfig;
  b_net : option GuestIf; b_hostname : option string; b_sysctls : list (string * string);
  b_mounts : list op; b_root_read_only : bool }.

(** The steps from the user volumes to the start of the container, in the order of
    [run_init]; the first failure ends the boot. *)
Definition run_init (ok : op → bool) (env : environment) : result boot_error Booted :=
  let '(done, good) := run_ops ok (mount_user_volumes env ++ mount_tmpfs_volumes env) in
  if negb good then Err (MountFailed done)
  else
    net ← match net_from_env env with
          | None => Ok None
          | Some c => ok_or NetworkFailed (Some <$> configure_interfaces c)
          end;
    host ← map_err HostnameRefused (hostname_from_env env);
    Ok {| b_exec := exec_from_env env; b_security := from_env_vars (list_to_map env);
          b_sidecar := sidecar_from_env env; b_net := net; b_hostname := host;
          b_sysctls := apply_sysctls_from_env env; b_mounts := done;
          b_root_read_only := remount_rootfs_readonly ok env |}.

(** ** Lookups *)

Lemma env_get_app a b k :
  env_get (a ++ b) k = match env_get a k with Some v => Some v | None => env_get b k end.
Proof. induction a as [|[k' v] a IH]; cbn [app env_get]; [done|]. by case_bool_decide. Qed.

Lemma env_get_miss p env k :
  Forall (λ kv, starts_with p kv.1 = true) env → starts_with p k = false → env_get env k = None.
Proof.
  intros Hp Hk. induction Hp as [|[k' v] env H Hp IH]; [done|]. cbn [env_get].
  rewrite bool_decide_false; [done|]. cbn in H. congruence.
Qed.

Lemma env_get_foreign p env k :
  Forall (λ kv, starts_with p kv.1 = false) env → starts_with p k = true → env_get env k = None.
Proof.
  intros Hp Hk. induction Hp as [|[k' v] env H Hp IH]; [done|]. cbn [env_get].
  rewrite bool_decide_false; [done|]. cbn in H. congruence.
Qed.

Lemma env_get_map env k : (list_to_map env : gmap string string) !! k = env_get env k.
Proof.
  induction env as [|[k' v] env IH]; [done|]. cbn [list_to_map foldr env_get fst snd].
  case_bool_decide as E; [subst; apply lookup_insert_eq | by rewrite lookup_insert_ne].
Qed.

(** An environment in pieces, each with the prefix of its names. *)
Definition pieces : Type := list (string * environment).
Definition flat (ps : pieces) : environment := concat (map snd ps).
Definition labelled (ps : pieces) : Prop :=
  Forall (λ p, Forall (λ kv, starts_with p.1 kv.1 = true) p.2) ps.

Fixpoint pieces_get (ps : pieces) (k : string) : option string :=
  match ps with
  | [] => None
  | (q, e) :: ps =>
      if starts_with q k then match env_get e k with Some v => Some v | None => pieces_get ps k end
      else pieces_get ps k
  end.

Lemma pieces_get_skip q e ps k : starts_with q k = false → pieces_get ((q, e) :: ps) k = pieces_get ps k.
Proof. intros E. cbn [pieces_get]. by rewrite E. Qed.
Lemma pieces_get_hit q e ps k : starts_with q k = true →
  pieces_get ((q, e) :: ps) k = match env_get e k with Some v => Some v | None => pieces_get ps k end.
Proof. intros E. cbn [pieces_get]. by rewrite E. Qed.

Lemma flat_get ps k : labelled ps → env_get (flat ps) k = pieces_get ps k.
Proof.
  induction 1 as [|[q e] ps Hq Hps IH]; [done|]. unfold flat in *. cbn [map concat snd pieces_get].
  rewrite env_get_app, IH. destruct (starts_with q k) eqn:E; [done|]. by rewrite (env_get_miss q).
Qed.

Lemma show_uint_inj m n : 0 ≤ m → 0 ≤ n → show_uint m = show_uint n → m = n.
Proof.
  intros Hm Hn E. pose proof (parse_digits_show m Hm) as H1. pose proof (parse_digits_show n Hn) as H2.
  rewrite E, H2 in H1. congruence.
Qed.

Lemma starts_with_app p s : starts_with p (p +:+ s) = true.
Proof. apply starts_with_spec. eauto. Qed.

Lemma numbered_labelled p start vs : Forall (λ kv, starts_with p kv.1 = true) (numbered p start vs).
Proof.
  apply list.Forall_forall. intros kv Hin. unfold numbered in Hin.
  apply elem_of_lookup_imap in Hin as (i & v & -> & _). apply starts_with_app.
Qed.

Lemma numbered_cons p start v vs :
  numbered p start (v :: vs) = (p +:+ show_uint (Z.of_nat start), v) :: numbered p (S start) vs.
Proof.
  unfold numbered. cbn [imap]. rewrite Nat.add_0_r. f_equal. apply imap_ext.
  intros i x _. cbn. by rewrite Nat.add_succ_r.
Qed.

(** A numbered value is found under its number, and nothing under another. *)
Lemma numbered_get p start vs i : (start ≤ i)%nat →
  env_get (numbered p start vs) (p +:+ show_uint (Z.of_nat i)) = vs !! (i - start)%nat.
Proof.
  revert start. induction vs as [|v vs IH]; intros start Hi; [done|].
  rewrite numbered_cons. cbn [env_get]. case_bool_decide as E.
  - apply str_app_inj_l, show_uint_inj in E; [|lia..]. replace (i - start)%nat with O by lia. done.
  - assert (i ≠ start) by (intros ->; done). rewrite IH by lia.
    by replace (i - start)%nat with (S (i - S start)) by lia.
Qed.

Lemma read_numbered_spec fuel env p i vs : (length vs < fuel)%nat →
  (∀ j, env_get env (p +:+ show_uint (Z.of_nat (i + j))) = vs !! j) → read_numbered fuel env p i = vs.
Proof.
  revert i vs. induction fuel as [|fuel IH]; intros i vs Hf Hget; [lia|]. cbn [read_numbered].
  pose proof (Hget O) as H0. rewrite Nat.add_0_r in H0. rewrite H0. destruct vs as [|v vs]; [done|]. cbn.
  f_equal. apply IH; [cbn in Hf; lia|]. intros j. specialize (Hget (S j)). cbn in Hget.
  by rewrite Nat.add_succ_r in Hget.
Qed.

Lemma env_get_elem env k v : env_get env k = Some v → k ∈ env.*1.
Proof.
  induction env as [|[k' v'] env IH]; [done|]. cbn [env_get fmap list_fmap fst].
  case_bool_decide as E; [subst; by left | right; by apply IH].
Qed.

(** The loop over the numbers sees every value, whatever else the environment holds. *)
Lemma numbered_values_spec env p vs :
  (∀ j, env_get env (p +:+ show_uint (Z.of_nat j)) = vs !! j) → numbered_values env p = vs.
Proof.
  intros Hget. unfold numbered_values. apply read_numbered_spec; [|done].
  assert (Hsub : (λ j : nat, p +:+ show_uint (Z.of_nat j)) <$> seq 0 (length vs) ⊆+ env.*1).
  { apply NoDup_submseteq.
    - apply NoDup_fmap_2_strong; [|apply NoDup_seq].
      intros x y _ _ E%str_app_inj_l%show_uint_inj; lia.
    - intros k (j & -> & Hj)%list_elem_of_fmap. apply elem_of_seq in Hj.
      destruct (lookup_lt_is_Some_2 vs j) as [v Hv]; [lia|]. eapply env_get_elem. by rewrite Hget. }
  apply submseteq_length in Hsub. rewrite !length_fmap, length_seq in Hsub. lia.
Qed.

(** ** Over the wire *)

Definition key_ok (kv : string * string) : Prop := is_empty kv.1 = false ∧ has_char "=" kv.1 = false.

Lemma parse_entry_ok k v : key_ok (k, v) → parse_entry (k +:+ "=" +:+ v) = Some (k, v).
Proof.
  intros [Hne Hc]. destruct k as [|c k]; [done|]. cbn [String.append parse_entry].
  cbn in Hc. apply orb_false_iff in Hc as [_ Hc].
  change ("=" +:+ v) with (String "=" v). by rewrite split_once_app.
Qed.

(** The guest sees the entries the shim hands over. *)
Lemma wire_roundtrip env strs : Forall key_ok env → env_to_cstring env = Some strs → omap parse_entry strs = env.
Proof.
  unfold env_to_cstring. intros Hk. revert strs. induction Hk as [|[k v] env Hkv Hk IH]; intros strs.
  - by intros [= <-].
  - pose proof (parse_entry_ok k v Hkv) as Hp. cbn [mapM fst snd]. set (s := k +:+ "=" +:+ v) in *.
    clearbody s. destruct (has_char nul s); [done|]. cbn.
    destruct (mapM _ env) as [rest|] eqn:E; [|done]. cbn. intros [= <-]. cbn. rewrite Hp. f_equal. by apply IH.
Qed.

(** ** The environment of a boot, in pieces *)

Definition sidecar_vars (s : SidecarConfig) : list string := map (λ kv, kv.1 +:+ "=" +:+ kv.2) (sidecar_env s).

Definition vol_values (env : environment) : list string := map snd env.

(** One goal for each piece. *)
Ltac each_piece :=
  match goal with
  | |- Forall _ (_ :: _) => apply list.Forall_cons; split; [cbn [fst snd] | each_piece]
  | |- Forall _ [] => apply list.Forall_nil; exact I
  end.

Section boot.
Context (fs : HostFs) (config : BoxConfig) (oci : option OciImageConfig) (net : option NetworkInstanceConfig).

Definition profile : SecurityConfig :=
  from_options (security_opt config) (cap_add config) (cap_drop config) (privileged config).

Definition boot_pieces : pieces :=
  let '(exec, args, env) := container_process config oci in
  [("BOX_EXEC_EXEC", [("BOX_EXEC_EXEC", exec)]);
   ("BOX_EXEC_ARGC", [("BOX_EXEC_ARGC", show_uint (Z.of_nat (length args)))]);
   ("BOX_EXEC_ARG_", numbered "BOX_EXEC_ARG_" 0 args);
   ("BOX_EXEC_WORKDIR", [("BOX_EXEC_WORKDIR", effective_workdir config oci)]);
   ("BOX_EXEC_USER", match effective_user config oci with Some u => [("BOX_EXEC_USER", u)] | None => [] end);
   ("BOX_EXEC_ENV_", map (λ kv, ("BOX_EXEC_ENV_" +:+ kv.1, kv.2)) env);
   ("BOX_VOL_", volume_vars fs (volumes config) 0 ++
     anon_vars (user_guest_paths (volumes config)) (oci_volumes oci) (length (volumes config)));
   ("BOX_TMPFS_", numbered "BOX_TMPFS_" 0 (tmpfs config));
   ("BOX_SYSCTL_", numbered "BOX_SYSCTL_" 0 (map (λ kv, kv.1 +:+ "=" +:+ kv.2) (sysctls config)));
   ("A3S_SEC_", to_env_vars profile);
   ("BOX_READONLY", if read_only config then [("BOX_READONLY", "1")] else []);
   ("BOX_HOSTNAME", match hostname config with Some h => [("BOX_HOSTNAME", h)] | None => [] end);
   ("A3S_TEE_SIMULATE", if simulates (tee config) then [("A3S_TEE_SIMULATE", "1")] else []);
   ("BOX_CRI_PORT_FWD", [("BOX_CRI_PORT_FWD", "1")]);
   ("BOX_SIDECAR_IMAGE", match sidecar config with Some s => [("BOX_SIDECAR_IMAGE", sidecar_image s)] | None => [] end);
   ("BOX_SIDECAR_VSOCK_PORT",
     match sidecar config with Some s => [("BOX_SIDECAR_VSOCK_PORT", show_uint (vsock_port s))] | None => [] end);
   ("BOX_SIDECAR_ENV_", match sidecar config with
     | Some s => numbered "BOX_SIDECAR_ENV_" 0 (sidecar_vars s)
                 ++ [("BOX_SIDECAR_ENV_COUNT", show_uint (Z.of_nat (length (sidecar_env s))))]
     | None => [] end);
   ("A3S_NET_", match net with Some n => net_env n | None => [] end)].

(** The environment of the entry point when the guest's init is process 1. *)
Definition boot_env : environment :=
  init_env fs config oci ++ common_env config ++ match net with Some n => net_env n | None => [] end.

Lemma boot_env_flat : boot_env = flat boot_pieces.
Proof.
  unfold boot_env, init_env, common_env, boot_pieces, flat. destruct (container_process config oci) as [[exec args] env].
  cbn [map concat snd]. rewrite app_nil_r. fold profile.
  destruct (sidecar config) as [s|]; unfold sidecar_vars; by rewrite <-!app_assoc.
Qed.

Lemma volume_vars_labelled vs i : Forall (λ kv, starts_with "BOX_VOL_" kv.1 = true) (volume_vars fs vs i).
Proof.
  revert i. induction vs as [|v vs IH]; intros i; [constructor|]. cbn [volume_vars]. apply Forall_app. split; [|apply IH].
  unfold volume_var. destruct (split ":" v) as [|? [|? ?]]; repeat constructor.
Qed.

Lemma anon_vars_labelled covered paths start :
  Forall (λ kv, starts_with "BOX_VOL_" kv.1 = true) (anon_vars covered paths start).
Proof.
  apply list.Forall_forall. intros kv Hin. unfold anon_vars in Hin.
  apply elem_of_lookup_imap in Hin as (i & v & -> & _). apply starts_with_app.
Qed.

Lemma to_env_vars_labelled c : Forall (λ kv, starts_with "A3S_SEC_" kv.1 = true) (to_env_vars c).
Proof. destruct c as [m nnp [|a add] [|d drop] []]; repeat constructor. Qed.

Lemma boot_labelled : labelled boot_pieces.
Proof.
  unfold labelled, boot_pieces. destruct (container_process config oci) as [[exec args] env].
  each_piece; try apply numbered_labelled; try apply to_env_vars_labelled.
  all: try (case_match; repeat constructor; fail).
  all: try (repeat constructor; fail).
  - apply list.Forall_forall. intros kv ([k v] & -> & _)%list_elem_of_fmap. apply starts_with_app.
  - apply Forall_app. split; [apply volume_vars_labelled | apply anon_vars_labelled].
  - destruct (sidecar config); [|constructor]. apply Forall_app. split; [apply numbered_labelled | repeat constructor].
Qed.

(** ** What the guest finds *)

Context (pre post : environment).
Definition foreign (kv : string * string) : Prop :=
  starts_with "BOX_" kv.1 = false ∧ starts_with "A3S_" kv.1 = false.
Hypothesis pre_foreign : Forall foreign pre.
Hypothesis post_foreign : Forall foreign post.

(** The environment of the init process: the entries of the boot among others the
    hypervisor sets, which use neither prefix. *)
Definition guest_env : environment := pre ++ boot_env ++ post.

Lemma guest_get k : starts_with "BOX_" k = true ∨ starts_with "A3S_" k = true →
  env_get guest_env k = pieces_get boot_pieces k.
Proof using pre_foreign post_foreign.
  intros Hk. unfold guest_env. rewrite !env_get_app, boot_env_flat, flat_get by apply boot_labelled.
  assert (Hm : ∀ e, Forall foreign e → env_get e k = None).
  { intros e He. destruct Hk as [Hk|Hk]; (eapply env_get_foreign; [|exact Hk]);
      (eapply Forall_impl; [|exact He]); intros ? []; done. }
  rewrite (Hm pre), (Hm post) by done. by destruct (pieces_get boot_pieces k).
Qed.
End boot.

(** Settles which pieces can hold a name. *)
Ltac pick :=
  rewrite guest_get by first [assumption | left; reflexivity | right; reflexivity];
  unfold boot_pieces;
  repeat match goal with |- context [container_process ?c ?o] =>
    let E := fresh "E" in destruct (container_process c o) as [[? ?] ?] eqn:E; cbn [fst snd] end;
  repeat first [rewrite pieces_get_skip by reflexivity | rewrite pieces_get_hit by reflexivity].

Lemma last_some {A} (o : option A) : match o with Some v => Some v | None => None end = o.
Proof. by destruct o. Qed.

Lemma numbered_keys p start vs : is_empty p = false → has_char "=" p = false → Forall key_ok (numbered p start vs).
Proof.
  intros Hp Hc. apply list.Forall_forall. intros kv Hin. unfold numbered in Hin.
  apply elem_of_lookup_imap in Hin as (i & v & -> & _). split; cbn [fst].
  - by destruct p.
  - rewrite has_char_app, Hc. apply show_uint_no_char; [done | lia].
Qed.

Lemma volume_vars_keys fs vs i : Forall key_ok (volume_vars fs vs i).
Proof.
  revert i. induction vs as [|v vs IH]; intros i; [constructor|]. cbn [volume_vars]. apply Forall_app. split; [|apply IH].
  unfold volume_var. destruct (split ":" v) as [|? [|? ?]]; repeat constructor.
  cbn [fst]. rewrite has_char_app. apply show_uint_no_char; [done | lia].
Qed.

Lemma anon_vars_keys covered paths start : Forall key_ok (anon_vars covered paths start).
Proof.
  apply list.Forall_forall. intros kv Hin. unfold anon_vars in Hin.
  apply elem_of_lookup_imap in Hin as (i & v & -> & _). split; cbn [fst]; [done|].
  rewrite has_char_app. apply show_uint_no_char; [done | lia].
Qed.

(** The names of a boot can be carried when those of the container can. *)
Lemma boot_keys fs config oci net :
  Forall (λ kv, has_char "=" kv.1 = false) (container_process config oci).2 →
  Forall key_ok (boot_env fs config oci net).
Proof.
  intros Henv. rewrite boot_env_flat. unfold flat. apply Forall_concat, Forall_map.
  unfold boot_pieces. destruct (container_process config oci) as [[exec args] env]. cbn [snd] in Henv.
  each_piece; try by apply numbered_keys.
  all: try (case_match; repeat constructor; fail).
  all: try (repeat constructor; fail).
  - apply Forall_map. eapply Forall_impl; [|exact Henv]. intros [k v] Hk. split; cbn in *; [done|].
    by rewrite Hk.
  - apply Forall_app. split; [apply volume_vars_keys | apply anon_vars_keys].
  - destruct (profile config) as [m nnp [|a add] [|d drop] []]; repeat constructor.
  - destruct (sidecar config); [|constructor]. apply Forall_app. split; [by apply numbered_keys | repeat constructor].
Qed.

Section handoff.
Context (fs : HostFs) (config : BoxConfig) (oci : option OciImageConfig) (net : option NetworkInstanceConfig).
Context (pre post : environment) (strs : list string).

(** The hand-over: the strings of the boot reach the guest among entries of other names. *)
Record handed_over : Prop := {
  ho_strings : env_to_cstring (boot_env fs config oci net) = Some strs;
  ho_keys : Forall (λ kv, has_char "=" kv.1 = false) (container_process config oci).2;
  ho_pre : Forall foreign pre;
  ho_post : Forall foreign post }.

Definition received : environment := pre ++ omap parse_entry strs ++ post.

Lemma received_env : handed_over → received = guest_env fs config oci net pre post.
Proof.
  intros H. unfold received, guest_env. do 2 f_equal. apply wire_roundtrip; [|apply (ho_strings H)].
  apply boot_keys, (ho_keys H).
Qed.

Ltac pick_received H :=
  pose proof (ho_pre H); pose proof (ho_post H); rewrite (received_env H); pick.

Lemma omap_seq_lookup {A} (f : nat → option A) (l : list A) start :
  (∀ i, f (start + i)%nat = l !! i) → omap f (seq start (length l)) = l.
Proof.
  revert start. induction l as [|x l IH]; intros start Hf; [done|]. cbn [length seq omap list_omap].
  pose proof (Hf O) as H0. rewrite Nat.add_0_r in H0. rewrite H0. cbn. f_equal. apply IH. intros i.
  specialize (Hf (S i)). by rewrite Nat.add_succ_r in Hf.
Qed.

Lemma usize_show n : Z.of_nat n < 2 ^ 64 → usize (show_uint (Z.of_nat n)) = Some n.
Proof. intros Hn. unfold usize. rewrite parse_show_uint by (unfold in_range; lia). cbn. by rewrite Nat2Z.id. Qed.

(** Names that are not the container's variables are not taken for them. *)
Lemma no_container_env p env : Forall (λ kv, starts_with p kv.1 = true) env →
  (∀ y, strip_prefix "BOX_EXEC_ENV_" (p +:+ y) = None) →
  omap (λ kv : string * string, k ← strip_prefix "BOX_EXEC_ENV_" kv.1; Some (k, kv.2)) env = [].
Proof.
  intros Hp Hn. induction Hp as [|[k v] env H Hp IH]; [done|]. cbn [omap list_omap].
  cbn [fst] in *. apply starts_with_spec in H as [y ->]. rewrite Hn. cbn. exact IH.
Qed.

Lemma no_container_foreign env : Forall foreign env →
  omap (λ kv : string * string, k ← strip_prefix "BOX_EXEC_ENV_" kv.1; Some (k, kv.2)) env = [].
Proof.
  induction 1 as [|[k v] env [H _] He IH]; [done|]. cbn [omap list_omap fst snd] in *.
  destruct (strip_prefix "BOX_EXEC_ENV_" k) eqn:E; [|exact IH].
  apply strip_prefix_Some in E as ->. done.
Qed.

Definition own_env (kv : string * string) : option (string * string) :=
  k ← strip_prefix "BOX_EXEC_ENV_" kv.1; Some (k, kv.2).

Lemma flat_container ps : labelled ps →
  Forall (λ p, p.1 = "BOX_EXEC_ENV_" ∨ ∀ y, strip_prefix "BOX_EXEC_ENV_" (p.1 +:+ y) = None) ps →
  omap own_env (flat ps) = concat (map (λ p, if String.eqb p.1 "BOX_EXEC_ENV_" then omap own_env p.2 else []) ps).
Proof.
  intros Hl Hp. induction Hl as [|[p e] ps He Hl IH]; [done|]. unfold flat in *. cbn [map concat snd fst] in *.
  apply list.Forall_cons in Hp as [Hpe Hp]. rewrite omap_app, IH by done. f_equal. cbn [fst] in Hpe.
  destruct Hpe as [-> |Hn]; [done|]. destruct (String.eqb_spec p "BOX_EXEC_ENV_") as [->|Hne]; [done|].
  by apply (no_container_env p).
Qed.

Lemma container_env_read : handed_over → omap own_env received = (container_process config oci).2.
Proof.
  intros H. rewrite (received_env H). unfold guest_env.
  rewrite !omap_app. unfold own_env at 1 3. rewrite (no_container_foreign pre), (no_container_foreign post) by apply H.
  rewrite app_nil_r. cbn [app]. rewrite boot_env_flat, flat_container.
  - unfold boot_pieces. destruct (container_process config oci) as [[exec args] env].
    cbn [map concat fst snd String.eqb Ascii.eqb Bool.eqb app]. rewrite app_nil_r.
    clear. induction env as [|[k v] env IH]; [done|].
    cbn [map omap list_omap]. unfold own_env at 1. cbn [fst snd]. rewrite strip_prefix_app. cbn. f_equal. exact IH.
  - apply boot_labelled.
  - unfold boot_pieces. destruct (container_process config oci) as [[exec args] env].
    each_piece; first [by left | right; intros; reflexivity].
Qed.

Lemma effective_user_set u : effective_user config oci = Some u → is_empty u = false.
Proof.
  unfold effective_user, non_empty. intros H. repeat case_match; simplify_eq; done.
Qed.

(** The entry point that init reads is the host's. *)
Lemma process_read :
  handed_over → Z.of_nat (length (container_process config oci).1.2) < 2 ^ 64 →
  exec_from_env received =
    {| x_executable := (container_process config oci).1.1;
       x_args := (container_process config oci).1.2;
       x_env := (container_process config oci).2;
       x_workdir := effective_workdir config oci;
       x_user := effective_user config oci |}.
Proof.
  intros H Hn. unfold exec_from_env.
  change (omap (λ kv, k ← strip_prefix "BOX_EXEC_ENV_" kv.1; Some (k, kv.2)) received) with (omap own_env received).
  rewrite (container_env_read H). f_equal.
  - pick_received H. reflexivity.
  - assert (Hc : env_get received "BOX_EXEC_ARGC" = Some (show_uint (Z.of_nat (length (container_process config oci).1.2)))).
    { pick_received H. reflexivity. }
    rewrite Hc. cbn [mbind option_bind]. rewrite usize_show by done. apply omap_seq_lookup. intros i. cbn [Nat.add].
    pick_received H. rewrite numbered_get by lia. rewrite Nat.sub_0_r. apply last_some.
  - pick_received H. reflexivity.
  - assert (Hu : env_get received "BOX_EXEC_USER" = effective_user config oci).
    { pick_received H. by destruct (effective_user config oci). }
    rewrite Hu. destruct (effective_user config oci) as [u|] eqn:E; [|done]. cbn. by rewrite (effective_user_set u E).
Qed.

Lemma env_get_set env k v k' : env_get (env_set env k v) k' = if bool_decide (k = k') then Some v else env_get env k'.
Proof.
  induction env as [|[x w] env IH]; cbn [env_set env_get]; [by case_bool_decide|].
  repeat case_bool_decide; cbn [env_get]; rewrite ?IH; repeat case_bool_decide; congruence.
Qed.

Lemma command_env_get vars env k : env_get (command_env env vars) k = match env_get (rev vars) k with Some v => Some v | None => env_get env k end.
Proof.
  unfold command_env. revert env. induction vars as [|[x w] vars IH]; intros env; [done|]. cbn [foldl rev]. rewrite IH, env_get_app, env_get_set.
  destruct (env_get (rev vars) k); [done|]. cbn. by case_bool_decide.
Qed.

(** C31: The container the guest starts is the one the host resolved, when the strings of the boot
    (free of NUL bytes, and no variable of the container has an [=] in its name) reach the init
    process among entries whose names begin with neither [BOX_] nor [A3S_], and the number of arguments
    fits 64 bits.  The process is started with the same command, the same arguments in the same
    order, the working directory, and the identity that the container's user has in the root file
    system (root, when no user is given or it cannot be resolved).  Its environment is that of the
    init process, which it inherits, with the container's variables set over it: a variable of
    the container has its last value there, and every other name what it has in init. *)
Theorem process_handoff passwd group_file :
  handed_over → Z.of_nat (length (container_process config oci).1.2) < 2 ^ 64 →
  let p := spawn_isolated passwd group_file received (exec_from_env received) in
  sp_command p = (container_process config oci).1.1 ∧
  sp_args p = (container_process config oci).1.2 ∧
  sp_workdir p = effective_workdir config oci ∧
  sp_identity p = resolve_user_and_groups passwd group_file (effective_user config oci) ∧
  ∀ k, env_get (sp_env p) k =
    match env_get (rev (container_process config oci).2) k with Some v => Some v | None => env_get received k end.
Proof.
  intros H Hn. cbv zeta. rewrite process_read by done. cbn [spawn_isolated sp_command sp_args sp_workdir sp_identity sp_env x_executable x_args x_workdir x_user x_env].
  split_and!; [done..|]. intros k. apply command_env_get.
Qed.

(** The guest's numbered lists are the host's. *)
Lemma tmpfs_read : handed_over → numbered_values received "BOX_TMPFS_" = tmpfs config.
Proof.
  intros H. apply numbered_values_spec. intros j. pick_received H.
  rewrite numbered_get by lia. rewrite Nat.sub_0_r. apply last_some.
Qed.

Lemma sysctls_read : handed_over →
  numbered_values received "BOX_SYSCTL_" = map (λ kv, kv.1 +:+ "=" +:+ kv.2) (sysctls config).
Proof.
  intros H. apply numbered_values_spec. intros j. pick_received H.
  rewrite numbered_get by lia. rewrite Nat.sub_0_r. apply last_some.
Qed.

Lemma security_read : handed_over → portable (profile config) →
  from_env_vars (list_to_map received) = profile config.
Proof.
  intros H Hp.
  assert (Hs : ∀ k, starts_with "A3S_SEC_" k = true →
    (list_to_map received : gmap string string) !! k = (list_to_map (to_env_vars (profile config)) : gmap string string) !! k).
  { intros k Hk. rewrite !env_get_map. apply starts_with_spec in Hk as [y ->]. pick_received H. apply last_some. }
  unfold from_env_vars. rewrite !Hs by done. fold (from_env_vars (list_to_map (to_env_vars (profile config)))).
  revert Hp. unfold portable, from_env_vars. destruct (env_lookups (profile config)) as (-> & -> & -> & -> & ->).
  destruct (profile config) as [m nnp add drop []]; cbn [sec_privileged sec_seccomp sec_no_new_privileges
    sec_cap_add sec_cap_drop from_option]; [by intros -> | intros [Ha Hd]].
  rewrite bool_decide_false by done. rewrite parse_seccomp_value, !caps_var_parse by done. by destruct nnp.
Qed.

Lemma hostname_read : handed_over → env_get received "BOX_HOSTNAME" = hostname config.
Proof. intros H. pick_received H. by destruct (hostname config). Qed.

Lemma readonly_read : handed_over →
  bool_decide (env_get received "BOX_READONLY" = Some "1") = read_only config.
Proof. intros H. pick_received H. by destruct (read_only config). Qed.

(** A sysctl the guest writes to the file of its name. *)
Lemma sysctl_write_ok name value : has_char "=" name = false →
  sysctl_write (name +:+ "=" +:+ value) = Some ("/proc/sys/" +:+ replace "." "/" (trim name), value).
Proof.
  intros Hn. unfold sysctl_write. change ("=" +:+ value) with (String "=" value).
  by rewrite split_once_app.
Qed.

(** The guest prepares the machine the host asked for: the tmpfs mounts in their order,
    each sysctl written to its file, the host name, a read-only root exactly when asked,
    and the security profile the options describe. *)
Theorem machine_handoff ok : handed_over →
  Forall (λ kv, has_char "=" kv.1 = false) (sysctls config) → portable (profile config) →
  mount_tmpfs_volumes received = concat (map tmpfs_ops (tmpfs config)) ∧
  apply_sysctls_from_env received
    = map (λ kv, ("/proc/sys/" +:+ replace "." "/" (trim kv.1), kv.2)) (sysctls config) ∧
  env_get received "BOX_HOSTNAME" = hostname config ∧
  remount_rootfs_readonly ok received
    = (if read_only config then ok RemountRoot || (ok BindRoot && ok RemountRootBind) else false) ∧
  from_env_vars (list_to_map received) = profile config.
Proof.
  intros H Hs Hp. split_and!.
  - unfold mount_tmpfs_volumes. by rewrite tmpfs_read.
  - unfold apply_sysctls_from_env. rewrite sysctls_read by done. clear -Hs.
    induction Hs as [|[k v] l Hk Hl IH]; [done|]. cbn [map omap list_omap fst snd] in *.
    rewrite sysctl_write_ok by done. cbn. f_equal. exact IH.
  - by apply hostname_read.
  - unfold remount_rootfs_readonly. rewrite <-(readonly_read H). by case_bool_decide.
  - by apply security_read.
Qed.

(** The sidecar reaches the guest whole: image, port and variables. *)
Theorem sidecar_handoff : handed_over →
  (∀ s, sidecar config = Some s → is_empty (sidecar_image s) = false ∧ in_range 32 (vsock_port s) ∧
     Z.of_nat (length (sidecar_env s)) < 2 ^ 64 ∧ Forall (λ kv, has_char "=" kv.1 = false) (sidecar_env s)) →
  sidecar_from_env received = sidecar config.
Proof.
  intros H Hs. unfold sidecar_from_env.
  assert (Hi : env_get received "BOX_SIDECAR_IMAGE" = sidecar_image <$> sidecar config).
  { pick_received H. by destruct (sidecar config). }
  assert (Hp : env_get received "BOX_SIDECAR_VSOCK_PORT" = (λ s, show_uint (vsock_port s)) <$> sidecar config).
  { pick_received H. by destruct (sidecar config). }
  destruct (sidecar config) as [s|] eqn:Es; [|by rewrite Hi].
  destruct (Hs s eq_refl) as (Hne & Hr & Hlen & Hk).
  assert (Hmiss : env_get (numbered "BOX_SIDECAR_ENV_" 0 (sidecar_vars s)) "BOX_SIDECAR_ENV_COUNT" = None).
  { generalize (sidecar_vars s) O. intros l. induction l as [|v l IH]; intros n; [done|].
    rewrite numbered_cons. cbn [env_get]. rewrite bool_decide_false; [apply IH|].
    change "BOX_SIDECAR_ENV_COUNT" with ("BOX_SIDECAR_ENV_" +:+ "COUNT"). intros E%str_app_inj_l.
    pose proof (show_uint_digits (Z.of_nat n) ltac:(lia)) as Hd. by rewrite E in Hd. }
  assert (Hc : env_get received "BOX_SIDECAR_ENV_COUNT" = Some (show_uint (Z.of_nat (length (sidecar_env s))))).
  { pick_received H. rewrite Es, env_get_app, Hmiss. reflexivity. }
  assert (He : ∀ i, env_get received ("BOX_SIDECAR_ENV_" +:+ show_uint (Z.of_nat i)) = sidecar_vars s !! i).
  { intros i. pick_received H. rewrite Es, env_get_app, numbered_get, Nat.sub_0_r by lia.
    destruct (sidecar_vars s !! i) eqn:El; [done|]. cbn [env_get]. rewrite bool_decide_false; [done|].
    change "BOX_SIDECAR_ENV_COUNT" with ("BOX_SIDECAR_ENV_" +:+ "COUNT"). intros Ec%str_app_inj_l.
    pose proof (show_uint_digits (Z.of_nat i) ltac:(lia)) as Hd. by rewrite <-Ec in Hd. }
  rewrite Hi, Hp, Hc. cbn [fmap option_fmap option_map mbind option_bind]. rewrite Hne, parse_show_uint, usize_show by done.
  cbn [default]. destruct s as [img port env]. cbn [sidecar_image vsock_port sidecar_env] in *. do 2 f_equal.
  apply omap_seq_lookup. intros i. rewrite He. unfold sidecar_vars. cbn [sidecar_env Nat.add].
  rewrite list_lookup_fmap. destruct (env !! i) as [[k v]|] eqn:Ei; [|done]. cbn [fmap option_fmap option_map fst snd mbind option_bind].
  change ("=" +:+ v) with (String "=" v). apply split_once_app.
  rewrite list.Forall_forall in Hk. apply (Hk (k, v)). by eapply list_elem_of_lookup_2.
Qed.
End handoff.

(** ** Volumes, end to end *)

(** A volume option in its documented form [host:guest[:ro|rw]]. *)
Record volume := { v_host : string; v_guest : string; v_mode : option bool }.
Definition show_volume (v : volume) : string :=
  join ":" ([v_host v; v_guest v] ++
    match v_mode v with Some true => ["ro"] | Some false => ["rw"] | None => [] end).
Definition v_read_only (v : volume) : bool := default false (v_mode v).
Definition plain_volume (v : volume) : Prop :=
  has_char ":" (v_host v) = false ∧ has_char ":" (v_guest v) = false ∧ starts_with "/" (v_guest v) = true.

Lemma split_show_volume v : plain_volume v →
  split ":" (show_volume v)
  = [v_host v; v_guest v] ++ match v_mode v with Some true => ["ro"] | Some false => ["rw"] | None => [] end.
Proof.
  intros (Hh & Hg & _). unfold show_volume. apply split_join; [done|].
  destruct (v_mode v) as [[]|]; repeat constructor; done.
Qed.

Lemma abs_path_shape p : starts_with "/" p = true → is_empty p = false ∧ is_mode p = false ∧ looks_like_path p = true.
Proof.
  intros [t ->]%starts_with_spec. split_and!; try done.
Qed.

Lemma host_part_plain h rest : has_char ":" h = false → host_part [h] = h ∧ firstn 1 (h :: rest) = [h].
Proof.
  intros Hh. split; [|done]. unfold host_part. cbn. destruct (String.length h =? 1)%nat; [|done].
  destruct (strip_suffix ":" h) eqn:E; [|done]. apply strip_suffix_Some in E. subst h.
  rewrite has_char_app in Hh. by rewrite orb_true_r in Hh.
Qed.

Lemma split_volume_ok v : plain_volume v →
  split_volume (show_volume v) = Ok (v_host v, v_guest v, v_read_only v).
Proof.
  intros Hv. unfold split_volume. rewrite split_show_volume by done. destruct Hv as (Hh & Hg & Hp).
  destruct (abs_path_shape _ Hp) as (He & Hm & Hl). unfold v_read_only.
  destruct (host_part_plain (v_host v) [] Hh) as [Hhp _].
  destruct (v_mode v) as [[]|]; cbn [app length Nat.ltb Nat.leb List.last nth firstn Nat.sub default].
  - cbn [is_mode]. change (is_mode "ro") with true. cbn [negb andb nth firstn]. by rewrite He, Hm, Hhp.
  - change (is_mode "rw") with true. cbn [negb andb nth firstn]. by rewrite He, Hm, Hhp.
  - rewrite Hm, Hl. cbn [negb andb nth firstn]. by rewrite He, Hm, Hhp.
Qed.

(** The value under which the guest finds a volume. *)
Definition volume_value (fs : HostFs) (i : nat) (v : volume) : string :=
  vol_tag i +:+ ":" +:+ v_guest v +:+ (if v_read_only v then ":ro" else "") +:+
  (if hf_is_file fs (v_host v) then ":file" else "").

Lemma volume_vars_numbered fs vs start : Forall plain_volume vs →
  volume_vars fs (map show_volume vs) start
  = numbered "BOX_VOL_" start (imap (λ i v, volume_value fs (start + i) v) vs).
Proof.
  intros Hv. revert start. induction Hv as [|v vs Hv Hvs IH]; intros start; [done|].
  cbn [map volume_vars imap]. rewrite numbered_cons, Nat.add_0_r. unfold volume_var. rewrite split_show_volume by done.
  cbn [app]. f_equal.
  - f_equal. unfold volume_value, v_read_only. by destruct (v_mode v) as [[]|].
  - rewrite IH. f_equal. apply imap_ext. intros i x _. cbn. by rewrite Nat.add_succ_r.
Qed.

Lemma numbered_app p start a b : numbered p start (a ++ b) = numbered p start a ++ numbered p (start + length a) b.
Proof.
  revert start. induction a as [|x a IH]; intros start; [cbn; by rewrite Nat.add_0_r|].
  cbn [app]. rewrite !numbered_cons, IH. cbn [app length]. by rewrite Nat.add_succ_r.
Qed.

(** The image's volumes no volume of the user covers. *)
Definition uncovered (vs : list volume) (oci : option OciImageConfig) : list string :=
  List.filter (λ p, negb (bool_decide (p ∈ map v_guest vs))) (oci_volumes oci).

Lemma covered_guests vs : Forall plain_volume vs → user_guest_paths (map show_volume vs) = map v_guest vs.
Proof.
  intros Hv. unfold user_guest_paths. induction Hv as [|v vs Hv Hvs IH]; [done|].
  cbn [map omap list_omap]. rewrite split_show_volume by done. cbn. f_equal. exact IH.
Qed.

Lemma anon_vars_numbered covered paths start :
  anon_vars covered paths start = numbered "BOX_VOL_" start
    (imap (λ i p, vol_tag (start + i) +:+ ":" +:+ p) (List.filter (λ p, negb (bool_decide (p ∈ covered))) paths)).
Proof.
  unfold anon_vars. generalize (List.filter (λ p, negb (bool_decide (p ∈ covered))) paths). intros l.
  revert start. induction l as [|p l IH]; intros start; [done|]. cbn [imap]. rewrite numbered_cons, Nat.add_0_r.
  f_equal. etransitivity; [|etransitivity; [apply (IH (S start))|]].
  - apply imap_ext. intros i x _. cbn. by rewrite Nat.add_succ_r.
  - f_equal. apply imap_ext. intros i x _. cbn. by rewrite Nat.add_succ_r.
Qed.

Lemma vol_tag_plain i : has_char ":" (vol_tag i) = false.
Proof. unfold vol_tag. rewrite has_char_app, show_uint_no_char by (done || lia). done. Qed.

Lemma volume_ops_dir i fs v : plain_volume v → hf_is_file fs (v_host v) = false →
  volume_ops i (volume_value fs i v) = [CreateDirAll (v_guest v); MountShare (vol_tag i) (v_guest v) (v_read_only v)].
Proof.
  intros (_ & Hg & _) Hf. unfold volume_ops, volume_value. rewrite Hf, str_app_nil_r.
  destruct (v_read_only v).
  - change (vol_tag i +:+ ":" +:+ v_guest v +:+ ":ro") with (join ":" [vol_tag i; v_guest v; "ro"]).
    rewrite split_join; [done|done|]. repeat constructor; auto using vol_tag_plain.
  - rewrite str_app_nil_r. change (vol_tag i +:+ ":" +:+ v_guest v) with (join ":" [vol_tag i; v_guest v]).
    rewrite split_join; [done|done|]. repeat constructor; auto using vol_tag_plain.
Qed.

Lemma volume_ops_anon i j p : has_char ":" p = false →
  volume_ops j (vol_tag i +:+ ":" +:+ p) = [CreateDirAll p; MountShare (vol_tag i) p false].
Proof.
  intros Hp. unfold volume_ops. change (vol_tag i +:+ ":" +:+ p) with (join ":" [vol_tag i; p]).
  rewrite split_join; [done|done|]. repeat constructor; auto using vol_tag_plain.
Qed.

Definition dir_plan (vs : list volume) : list op :=
  concat (imap (λ i v, [CreateDirAll (v_guest v); MountShare (vol_tag i) (v_guest v) (v_read_only v)]) vs).
Definition anon_plan (start : nat) (paths : list string) : list op :=
  concat (imap (λ i p, [CreateDirAll p; MountShare (vol_tag (start + i)) p false]) paths).

Lemma user_mounts_spec fs vs start ms : Forall plain_volume vs →
  user_mounts fs (map show_volume vs) start = Ok ms →
  length ms = length vs ∧ ∀ i v, vs !! i = Some v → ∃ path, hf_canonicalize fs (v_host v) = Some path ∧
    ms !! i = Some {| fm_tag := vol_tag (start + i); fm_host_path := path; fm_read_only := v_read_only v |}.
Proof.
  intros Hv. revert start ms. induction Hv as [|v vs Hv Hvs IH]; intros start ms; cbn [map user_mounts].
  { intros [= <-]. split; [done|]. intros i v. by rewrite lookup_nil. }
  intros (m & Hm & (ms' & Hms & [= <-])%bind_Ok)%bind_Ok.
  destruct (IH _ _ Hms) as [Hl Hi]. split; [cbn; congruence|].
  unfold parse_volume_mount in Hm. rewrite split_volume_ok in Hm by done. cbn [mbind result_bind] in Hm.
  destruct (negb _ && negb _); [done|]. destruct (hf_canonicalize fs (v_host v)) as [path|] eqn:Ec; [|done].
  injection Hm as <-. intros [|i] w Hw; cbn in Hw.
  - injection Hw as <-. exists path. split; [done|]. cbn. by rewrite Nat.add_0_r.
  - destruct (Hi i w Hw) as (path' & Hc & Hmi). exists path'. split; [done|]. rewrite Nat.add_succ_r. exact Hmi.
Qed.

(** The tags of the anonymous shares, when none is passed over. *)
Lemma anon_tags {content} to_json from_json volumes_dir now io box_id covered paths start
    (st st' : anon_state (content := content)) :
  anon_mounts to_json from_json volumes_dir now io box_id covered paths start st = Ok st' →
  (length (an_mounts st') ≤ length (an_mounts st) +
     length (List.filter (λ p, negb (bool_decide (p ∈ covered))) paths))%nat ∧
  (length (an_mounts st') = (length (an_mounts st) +
     length (List.filter (λ p, negb (bool_decide (p ∈ covered))) paths))%nat →
   fm_tag <$> an_mounts st' = (fm_tag <$> an_mounts st) ++
     imap (λ i _, vol_tag (start + i)) (List.filter (λ p, negb (bool_decide (p ∈ covered))) paths)).
Proof.
  revert start st. induction paths as [|p paths IH]; intros start st; cbn [anon_mounts List.filter].
  { intros [= <-]. cbn. rewrite app_nil_r. split; [lia | done]. }
  case_bool_decide as Hp; cbn [negb]; [apply IH|].
  intros (name & _ & Hrun)%bind_Ok. revert Hrun.
  destruct (create_anonymous_volume to_json from_json volumes_dir now io box_id name (an_store st)) as [s [[host created]|e]];
    intros Hrun; destruct (IH _ _ Hrun) as [Hle Heq]; cbn [an_mounts length] in *.
  - rewrite length_app in Hle, Heq. cbn [length] in Hle, Heq. split; [lia|]. intros Hl. rewrite Heq by lia.
    rewrite fmap_app, <-app_assoc. cbn [fmap list_fmap app fm_tag imap]. do 2 f_equal; [by rewrite Nat.add_0_r|].
    apply imap_ext. intros i x _. cbn. by rewrite Nat.add_succ_r.
  - split; [lia|]. intros Hl. lia.
Qed.

Section volumes.
Context (fs : HostFs) (config : BoxConfig) (oci : option OciImageConfig) (net : option NetworkInstanceConfig).
Context (pre post : environment) (strs : list string) (vs : list volume).

Lemma volumes_read : handed_over fs config oci net pre post strs →
  volumes config = map show_volume vs → Forall plain_volume vs →
  numbered_values (received pre post strs) "BOX_VOL_"
  = imap (volume_value fs) vs ++ imap (λ i p, vol_tag (length vs + i) +:+ ":" +:+ p) (uncovered vs oci).
Proof.
  intros H Hv Hp. apply numbered_values_spec. intros j.
  pose proof (ho_pre _ _ _ _ _ _ _ H); pose proof (ho_post _ _ _ _ _ _ _ H).
  rewrite (received_env _ _ _ _ _ _ _ H). pick.
  rewrite Hv, volume_vars_numbered, covered_guests, anon_vars_numbered, length_map by done.
  fold (uncovered vs oci). pose proof (numbered_app "BOX_VOL_" 0 (imap (volume_value fs) vs)
    (imap (λ i p, vol_tag (length vs + i) +:+ ":" +:+ p) (uncovered vs oci))) as Ha.
  rewrite length_imap in Ha. cbn [Nat.add] in Ha |- *.
  change (imap (λ i v, volume_value fs i v) vs) with (imap (volume_value fs) vs).
  rewrite <-Ha, numbered_get, Nat.sub_0_r by lia. apply last_some.
Qed.

Lemma imap_twice {A B C} (f : nat → B → C) (g : nat → A → B) l : imap f (imap g l) = imap (λ i x, f i (g i x)) l.
Proof. revert f g. induction l as [|x l IH]; intros f g; [done|]. cbn [imap]. f_equal. apply IH. Qed.

Lemma concat_imap {A} (f g : nat → A → list op) l : (∀ i x, l !! i = Some x → f i x = g i x) →
  concat (imap f l) = concat (imap g l).
Proof. intros Hfg. f_equal. apply imap_ext. intros i x Hx. by apply Hfg. Qed.

(** A volume reaches the path it was asked for: the share of the i-th volume option is
    the resolved host directory, the guest mounts the share of the same tag at the guest
    path, read-only exactly when asked, and every image volume the user does not cover is
    mounted writable at its path from the share of its tag when its volume could be made. *)
Theorem volumes_delivered {content} to_json from_json volumes_dir now io box_id ms
    (s0 : VolumeStore.store content) an :
  handed_over fs config oci net pre post strs →
  volumes config = map show_volume vs → Forall plain_volume vs →
  Forall (λ v, hf_is_file fs (v_host v) = false) vs →
  Forall (λ p, has_char ":" p = false) (oci_volumes oci) →
  user_mounts fs (volumes config) 0 = Ok ms →
  anon_mounts to_json from_json volumes_dir now io box_id (user_guest_paths (volumes config)) (oci_volumes oci)
    (length (volumes config)) {| an_store := s0; an_mounts := []; an_volumes := []; an_created := [] |} = Ok an →
  (∀ i v, vs !! i = Some v → ∃ path, hf_canonicalize fs (v_host v) = Some path ∧
     ms !! i = Some {| fm_tag := vol_tag i; fm_host_path := path; fm_read_only := v_read_only v |}) ∧
  mount_user_volumes (received pre post strs) = dir_plan vs ++ anon_plan (length vs) (uncovered vs oci) ∧
  (length (an_mounts an) = length (uncovered vs oci) →
   fm_tag <$> an_mounts an = imap (λ i _, vol_tag (length vs + i)) (uncovered vs oci)).
Proof.
  intros H Hv Hp Hf Hc Hm Han. split_and!.
  - rewrite Hv in Hm. by apply (user_mounts_spec fs vs 0 ms Hp).
  - unfold mount_user_volumes. rewrite volumes_read by done. rewrite imap_app, concat_app. f_equal.
    + rewrite imap_twice. apply concat_imap. intros i v Hi. apply volume_ops_dir.
      * rewrite list.Forall_forall in Hp. apply Hp. by eapply list_elem_of_lookup_2.
      * rewrite list.Forall_forall in Hf. apply Hf. by eapply list_elem_of_lookup_2.
    + rewrite imap_twice. apply concat_imap. intros i p Hi. apply volume_ops_anon.
      rewrite list.Forall_forall in Hc. apply Hc. apply list_elem_of_lookup_2, elem_of_filter_b in Hi. apply Hi.
  - intros Hl. pose proof (anon_tags _ _ _ _ _ _ _ _ _ _ _ Han) as [_ Ht].
    rewrite Hv, covered_guests, length_map in Ht by done. cbn [an_mounts length Nat.add fmap list_fmap app] in Ht.
    by apply Ht.
Qed.
End volumes.

(** ** A machine *)

Definition demo_fs : HostFs :=
  {| hf_exists := λ _, true; hf_mkdir := λ _, true; hf_canonicalize := Some; hf_is_file := λ _, false |}.

Definition demo_config (vols : list string) : BoxConfig :=
  {| image := "app"; workspace := ""; resources := resource_default; log_level := LogInfo;
     debug_grpc := false; tee := TeeNone; cmd := ["serve"; "--port=80"]; entrypoint_override := None;
     user := Some "app"; workdir := Some "src"; hostname := Some "web"; volumes := vols;
     extra_env := [("MODE", "a=b c")]; cache := cache_default; pool := pool_default; port_map := []; dns := [];
     add_hosts := []; network := Tsi; tmpfs := ["/tmp:size=1m"]; resource_limits := limits_default;
     cap_add := []; cap_drop := ["NET_RAW"]; security_opt := []; sysctls := [("net.core.somaxconn", "64")];
     privileged := false; read_only := true;
     sidecar := Some {| sidecar_image := "ghcr.io/a/proxy:1"; vsock_port := 4092; sidecar_env := [("K", "V=W")] |};
     persistent := false |}.

Definition demo_oci : OciImageConfig :=
  {| oc_entrypoint := Some ["/bin/app"; "-v"]; oc_cmd := Some ["run"]; oc_env := [("PATH", "/bin"); ("MODE", "x")];
     oc_working_dir := Some "/app/"; oc_user := None; oc_exposed_ports := []; oc_labels := ∅;
     oc_volumes := ["/mnt"; "/var/lib"]; oc_stop_signal := None; oc_health_check := None; oc_onbuild := [] |}.

Definition demo_volume : volume := {| v_host := "/data"; v_guest := "/mnt"; v_mode := Some true |}.

Definition demo_strs (config : BoxConfig) : list string :=
  default [] (env_to_cstring (boot_env demo_fs config (Some demo_oci) None)).
Definition demo_pre : environment := [("HOME", "/"); ("TERM", "xterm")].

Lemma demo_handed_over : let config := demo_config ["/data:/mnt:ro"] in
  handed_over demo_fs config (Some demo_oci) None demo_pre [] (demo_strs config).
Proof. split; [vm_compute; reflexivity | repeat constructor | repeat constructor | constructor]. Defined.

Lemma process_handoff_witness : let config := demo_config ["/data:/mnt:ro"] in
  let env := received demo_pre [] (demo_strs config) in
  let p := spawn_isolated (Some "app:x:7:8::/:/bin/sh") None env (exec_from_env env) in
  sp_command p = "/bin/app" ∧ sp_args p = ["-v"; "serve"; "--port=80"] ∧ sp_workdir p = "/app/src" ∧
  (sp_identity p).1 = Some {| pu_uid := 7; pu_gid := Some 8 |} ∧ env_get (sp_env p) "MODE" = Some "a=b c".
Proof.
  cbv zeta. destruct (process_handoff _ _ _ _ _ _ _ (Some "app:x:7:8::/:/bin/sh") None demo_handed_over) as (-> & -> & -> & -> & He).
  - vm_compute. reflexivity.
  - rewrite He. split_and!; vm_compute; reflexivity.
Defined.

Lemma machine_handoff_witness : let config := demo_config ["/data:/mnt:ro"] in
  apply_sysctls_from_env (received demo_pre [] (demo_strs config)) = [("/proc/sys/net/core/somaxconn", "64")].
Proof.
  cbv zeta. destruct (machine_handoff _ _ _ _ _ _ _ (λ _, true) demo_handed_over) as (_ & Hs & _).
  - repeat constructor.
  - split; [constructor|]. repeat constructor.
  - rewrite Hs. vm_compute. reflexivity.
Defined.

Lemma sidecar_handoff_witness : let config := demo_config ["/data:/mnt:ro"] in
  sidecar_from_env (received demo_pre [] (demo_strs config)) = sidecar config.
Proof.
  cbv zeta. apply (sidecar_handoff _ _ _ _ _ _ _ demo_handed_over). intros s [= <-].
  split_and!; [reflexivity | split; cbn; lia | cbn; lia | repeat constructor].
Defined.

Definition demo_vstore : VolumeStore.store (gmap string VolumeConfig) :=
  {| VolumeStore.vfile := {| main_file := None; tmp_file := None |}; VolumeStore.vdirs := ∅ |}.
Definition demo_anon (io : string → VolumeStore.vol_io (gmap string VolumeConfig)) (config : BoxConfig)
    (oci : OciImageConfig) : result spec_error anon_state :=
  anon_mounts (λ m, m) Some "/v" "t0" io "0123456789ab" (user_guest_paths (volumes config)) (oc_volumes oci)
    (length (volumes config)) {| an_store := demo_vstore; an_mounts := []; an_volumes := []; an_created := [] |}.
Definition demo_an (io : string → VolumeStore.vol_io (gmap string VolumeConfig)) config oci : anon_state :=
  match demo_anon io config oci with
  | Ok an => an
  | Err _ => {| an_store := demo_vstore; an_mounts := []; an_volumes := []; an_created := [] |}
  end.

Lemma volumes_delivered_witness : let config := demo_config ["/data:/mnt:ro"] in
  mount_user_volumes (received demo_pre [] (demo_strs config))
  = [CreateDirAll "/mnt"; MountShare "vol0" "/mnt" true; CreateDirAll "/var/lib"; MountShare "vol1" "/var/lib" false].
Proof.
  cbv zeta. set (config := demo_config ["/data:/mnt:ro"]).
  destruct (volumes_delivered demo_fs config (Some demo_oci) None demo_pre [] (demo_strs config) [demo_volume]
    (λ m, m) Some "/v" "t0" (λ _, VolumeStore.good_io) "0123456789ab"
    [{| fm_tag := "vol0"; fm_host_path := "/data"; fm_read_only := true |}] demo_vstore
    (demo_an (λ _, VolumeStore.good_io) config demo_oci)) as (_ & Hm & _).
  - exact demo_handed_over.
  - reflexivity.
  - repeat constructor.
  - repeat constructor.
  - repeat constructor.
  - vm_compute. reflexivity.
  - vm_compute. reflexivity.
  - rewrite Hm. vm_compute. reflexivity.
Defined.

(** ** What goes wrong *)

(** The container inherits what the boot told init: the variables of the sidecar are in its environment. *)
Lemma container_sees_boot_variables : let env := received demo_pre [] (demo_strs (demo_config ["/data:/mnt:ro"])) in
  let p := spawn_isolated None None env (exec_from_env env) in
  env_get (sp_env p) "BOX_SIDECAR_ENV_0" = Some "K=V=W" ∧ env_get (sp_env p) "BOX_EXEC_EXEC" = Some "/bin/app".
Proof. vm_compute. done. Qed.

(** A volume whose directory cannot be made leaves the tags of the host one behind the
    numbers the guest is told: the share of [/b] has the tag the guest mounts at [/a], and
    the tag it mounts at [/b] does not exist. *)
Definition two_volumes : OciImageConfig :=
  {| oc_entrypoint := None; oc_cmd := Some ["sh"]; oc_env := []; oc_working_dir := None; oc_user := None;
     oc_exposed_ports := []; oc_labels := ∅; oc_volumes := ["/a"; "/b"]; oc_stop_signal := None;
     oc_health_check := None; oc_onbuild := [] |}.
Definition io_without (bad : string) (name : string) : VolumeStore.vol_io (gmap string VolumeConfig) :=
  {| VolumeStore.vio := good_env; VolumeStore.mkvol_ok := negb (bool_decide (Some name = anon_name "0123456789ab" bad));
     VolumeStore.rmvol_ok := true |}.

Lemma failed_volume_shifts_tags :
  let config := demo_config [] in
  (λ m, (fm_tag m, fm_host_path m)) <$> an_mounts (demo_an (io_without "/a") config two_volumes)
    = [("vol0", path_join "/v" (default "" (anon_name "0123456789ab" "/b")))] ∧
  anon_vars [] (oc_volumes two_volumes) 0 = [("BOX_VOL_0", "vol0:/a"); ("BOX_VOL_1", "vol1:/b")].
Proof. split; vm_compute; reflexivity. Qed.

(** A host path with a colon: the share is made for one guest path, the guest is told
    another. *)
Lemma colon_in_host_path :
  split_volume "/a:b:/mnt" = Ok ("/a:b", "/mnt", false) ∧
  volume_var demo_fs 0 "/a:b:/mnt" = Some ("BOX_VOL_0", "vol0:b").
Proof. split; vm_compute; reflexivity. Qed.

(** A single file through a link: the share holds the file under the name of the link's
    target, the guest binds it under the name of the guest path. *)
Definition link_fs : HostFs :=
  {| hf_exists := λ _, true; hf_mkdir := λ _, true; hf_canonicalize := λ _, Some "/usr/share/zoneinfo/UTC";
     hf_is_file := λ _, true |}.

Lemma linked_file_is_missing :
  (m ← parse_volume_mount link_fs "/etc/localtime:/etc/localtime:ro" 0; Ok (share_of link_fs m))
    = Ok ("vol0", ShareFile "/usr/share/zoneinfo/UTC" "UTC") ∧
  (kv ← volume_var link_fs 0 "/etc/localtime:/etc/localtime:ro"; Some (volume_ops 0 kv.2))
    = Some [CreateDirAll "/run/.a3s-filemounts/0"; MountShare "vol0" "/run/.a3s-filemounts/0" false;
            CreateDirAll "/etc"; EnsureFile "/etc/localtime";
            BindFile "/run/.a3s-filemounts/0/localtime" "/etc/localtime"; RemountReadOnly "/etc/localtime"].
Proof. split; vm_compute; reflexivity. Qed.

(** The variables of the container reach the init process before it looks for a trusted
    environment: an image can turn simulation on. *)
Lemma image_turns_simulation_on :
  let config := {| x_executable := ""; x_args := []; x_env := [("A3S_TEE_SIMULATE", "1")]; x_workdir := "/"; x_user := None |} in
  is_tee_environment false (expose_container_env_to_exec config demo_pre) = true ∧
  is_tee_environment false demo_pre = false.
Proof. done. Qed.

(** An entry point that replaces the image's keeps the image's command as its arguments. *)
Lemma override_keeps_image_cmd :
  resolve_oci_entrypoint demo_oci [] (Some ["/bin/sh"]) = ("/bin/sh", ["run"]).
Proof. done. Qed.

(** More than 255 processors wrap around. *)
Lemma vcpus_wrap : wrap 8 256 = 0.
Proof. done. Qed.

(** ** The network, end to end *)

Lemma hex_digit_to_digit d : 0 ≤ d < 16 → to_digit 16 (hex_digit d) = Some d.
Proof.
  intros Hd. assert (d = 0 ∨ d = 1 ∨ d = 2 ∨ d = 3 ∨ d = 4 ∨ d = 5 ∨ d = 6 ∨ d = 7 ∨ d = 8
    ∨ d = 9 ∨ d = 10 ∨ d = 11 ∨ d = 12 ∨ d = 13 ∨ d = 14 ∨ d = 15) as H by lia.
  by repeat destruct H as [->|H]; [..|rewrite H].
Qed.

Lemma hex_digit_plain d : 0 ≤ d < 16 → Ascii.eqb "+" (hex_digit d) = false ∧ Ascii.eqb (hex_digit d) ":" = false.
Proof.
  intros Hd. assert (d = 0 ∨ d = 1 ∨ d = 2 ∨ d = 3 ∨ d = 4 ∨ d = 5 ∨ d = 6 ∨ d = 7 ∨ d = 8
    ∨ d = 9 ∨ d = 10 ∨ d = 11 ∨ d = 12 ∨ d = 13 ∨ d = 14 ∨ d = 15) as H by lia.
  by repeat destruct H as [->|H]; [..|rewrite H].
Qed.

Lemma parse_hex2 b : 0 ≤ b < 256 → parse_hex_u8 (hex2 b) = Some b ∧ has_char ":" (hex2 b) = false.
Proof.
  intros Hb. assert (0 ≤ b / 16 < 16 ∧ 0 ≤ b mod 16 < 16) as [H1 H2] by (Z.to_euclidean_division_equations; lia).
  destruct (hex_digit_plain _ H1) as [P1 C1]. destruct (hex_digit_plain _ H2) as [_ C2].
  split; [|unfold hex2; cbn [has_char]; by rewrite C1, C2].
  unfold parse_hex_u8, hex2. cbn [strip_prefix]. rewrite P1. cbn [default is_empty hex_value].
  rewrite !hex_digit_to_digit by done. cbn [mbind option_bind hex_value]. replace ((0 * 16 + b / 16) * 16 + b mod 16) with b
    by (Z.to_euclidean_division_equations; lia).
  by replace (b <=? 255) with true by lia.
Qed.

(** The address of an endpoint's interface is read back byte by byte. *)
Lemma parse_mac_of_ip ip : in_range 32 ip →
  parse_mac (Ipam.mac_from_ip ip) = Some (let '(a, b, c, d) := octets ip in [2; 66; a; b; c; d]).
Proof.
  intros Hip. unfold Ipam.mac_from_ip. destruct (octets ip) as [[[a b] c] d] eqn:E.
  destruct (octets_range _ _ _ _ _ E) as (Ha & Hb & Hc & Hd).
  destruct (parse_hex2 a Ha) as [A1 A2], (parse_hex2 b Hb) as [B1 B2], (parse_hex2 c Hc) as [C1 C2],
    (parse_hex2 d Hd) as [D1 D2].
  unfold parse_mac. change ("02:42:" +:+ hex2 a +:+ ":" +:+ hex2 b +:+ ":" +:+ hex2 c +:+ ":" +:+ hex2 d)
    with (join ":" ["02"; "42"; hex2 a; hex2 b; hex2 c; hex2 d]).
  rewrite split_join; [|done|repeat constructor; done]. cbn [length Nat.eqb].
  change (parse_hex_u8 "02") with (Some 2). cbn [mapM mbind option_bind].
  change (parse_hex_u8 "02") with (Some 2). change (parse_hex_u8 "42") with (Some 66).
  rewrite A1, B1, C1, D1. done.
Qed.

(** The mask of a prefix keeps the bits above the host part. *)
Lemma netmask_bit p i : 1 ≤ p ≤ 32 → 0 ≤ i < 32 → Z.testbit (prefix_to_netmask p) i = (32 - p <=? i).
Proof.
  intros Hp Hi. unfold prefix_to_netmask. replace (p =? 0) with false by lia.
  rewrite (Z.mod_small (32 - p)) by lia. rewrite Z.shiftl_1_l.
  assert (0 < 2 ^ (32 - p) < 2 ^ 32).
  { split; [apply Z.pow_pos_nonneg; lia | apply Z.pow_lt_mono_r; lia]. }
  rewrite (wrap_small 32 (2 ^ (32 - p))) by (unfold in_range; lia).
  rewrite wrap_small by (unfold in_range; lia).
  rewrite Z.lxor_spec. unfold u_max. replace (2 ^ (32 - p) - 1) with (Z.ones (32 - p)) by (rewrite Z.ones_equiv; lia).
  replace (2 ^ 32 - 1) with (Z.ones 32) by done.
  rewrite (Z.ones_spec_low 32) by lia. rewrite xorb_true_r.
  destruct (Z.leb_spec (32 - p) i); [rewrite Z.ones_spec_high by lia | rewrite Z.ones_spec_low by lia]; done.
Qed.

(** An address masked is its network. *)
Lemma netmask_network p ip : 1 ≤ p ≤ 32 → in_range 32 ip →
  Z.land ip (prefix_to_netmask p) = ip - ip mod 2 ^ (32 - p).
Proof.
  intros Hp Hip. assert (Hm : ip - ip mod 2 ^ (32 - p) = Z.shiftl (Z.shiftr ip (32 - p)) (32 - p)).
  { rewrite Z.shiftl_mul_pow2, Z.shiftr_div_pow2 by lia.
    pose proof (Z.div_mod ip (2 ^ (32 - p))). lia. }
  rewrite Hm. apply Z.bits_inj'. intros i Hi. rewrite Z.land_spec.
  destruct (decide (i < 32)).
  - rewrite netmask_bit, Z.shiftl_spec by lia. destruct (Z.leb_spec (32 - p) i).
    + rewrite Z.shiftr_spec by lia. rewrite andb_true_r. f_equal. lia.
    + rewrite andb_false_r. symmetry. apply Z.testbit_neg_r. lia.
  - rewrite Z.shiftl_spec, Z.shiftr_spec by lia. replace (i - (32 - p) + (32 - p)) with i by lia.
    assert (Hz : Z.testbit ip i = false); [|by rewrite Hz].
    unfold in_range in Hip. rewrite <-(Z.mod_small ip (2 ^ 32)) by lia.
    apply Z.mod_pow2_bits_high. lia.
Qed.

(** A box on a well-formed network boots with its endpoint's numbers. *)
Lemma bridge_ready config box_id name nc ipam ep :
  network_inv ipam nc → Ipam.wf ipam → net_endpoints nc !! box_id = Some ep → in_range 32 (ep_ip_address ep) →
  setup_bridge_network config box_id name (Some nc) true =
    Ok {| ni_ip := ep_ip_address ep; ni_gateway := Ipam.gateway ipam; ni_prefix_len := Ipam.prefix_len ipam;
          ni_mac := (let '(a, b, c, d) := octets (ep_ip_address ep) in [2; 66; a; b; c; d]);
          ni_dns := match dns config with [] => [of_octets 8 8 8 8] | l => omap parse_ipv4 l end |}.
Proof.
  intros Hinv Hwf Hep Hip. unfold setup_bridge_network. cbn [ok_or mbind result_bind]. rewrite Hep.
  cbn [ok_or mbind result_bind]. rewrite (epok_mac _ _ _ (inv_endpoints _ _ Hinv _ _ Hep)), parse_mac_of_ip by done.
  cbn [ok_or mbind result_bind]. rewrite (inv_gateway _ _ Hinv), (inv_subnet _ _ Hinv). unfold Ipam.cidr.
  change (show_ipv4 (Ipam.network ipam) +:+ "/" +:+ show_uint (Ipam.prefix_len ipam))
    with (join "/" [show_ipv4 (Ipam.network ipam); show_uint (Ipam.prefix_len ipam)]).
  pose proof (Ipam.wf_prefix _ Hwf). rewrite split_join; [|done|].
  - cbn [lookup list_lookup mbind option_bind]. rewrite parse_show_uint by (unfold in_range; lia). done.
  - repeat constructor; [apply show_ipv4_no_slash | apply show_uint_no_char; [done | lia]].
Qed.

Lemma ipv4_visible ip : str_forallb visible (show_ipv4 ip) = true ∧ has_char "," (show_ipv4 ip) = false.
Proof.
  unfold show_ipv4. destruct (octets ip) as [[[a b] c] d] eqn:E. destruct (octets_range _ _ _ _ _ E) as (?&?&?&?).
  change (join "." [show_uint a; show_uint b; show_uint c; show_uint d])
    with (show_uint a +:+ "." +:+ show_uint b +:+ "." +:+ show_uint c +:+ "." +:+ show_uint d).
  rewrite !str_forallb_app, !has_char_app, !show_uint_visible, !show_uint_no_char by (done || lia). done.
Qed.

Lemma dns_roundtrip l : l ≠ [] → map trim (split "," (join "," (map show_ipv4 l))) = map show_ipv4 l.
Proof.
  intros Hne. rewrite split_join; [|by destruct l|].
  - rewrite map_map. apply map_ext. intros ip. apply trim_visible, ipv4_visible.
  - apply Forall_map, list.Forall_forall. intros ip _. apply ipv4_visible.
Qed.

(** The interface the guest configures from the variables of a network. *)
Lemma net_read n : in_range 32 (ni_ip n) → in_range 32 (ni_gateway n) → in_range 8 (ni_prefix_len n) → ni_dns n ≠ [] →
  ∀ env, env_get env "A3S_NET_IP" = env_get (net_env n) "A3S_NET_IP" →
    env_get env "A3S_NET_GATEWAY" = env_get (net_env n) "A3S_NET_GATEWAY" →
    env_get env "A3S_NET_DNS" = env_get (net_env n) "A3S_NET_DNS" →
  (c ← net_from_env env; configure_interfaces c) =
    Some {| gi_ip := ni_ip n; gi_mask := prefix_to_netmask (ni_prefix_len n); gi_route := Some (ni_gateway n);
            gi_resolv := resolv_conf (map show_ipv4 (ni_dns n)) |}.
Proof.
  intros Hip Hgw Hp Hd env E1 E2 E3. unfold net_from_env. rewrite E1, E2, E3. 
  change (env_get (net_env n) "A3S_NET_IP") with (Some (show_ipv4 (ni_ip n) +:+ "/" +:+ show_uint (ni_prefix_len n))).
  change (env_get (net_env n) "A3S_NET_GATEWAY") with (Some (show_ipv4 (ni_gateway n))).
  change (env_get (net_env n) "A3S_NET_DNS") with (Some (join "," (map show_ipv4 (ni_dns n)))).
  cbn [mbind option_bind default]. rewrite dns_roundtrip by done. unfold configure_interfaces, add_address. cbn [gn_ip_cidr gn_gateway gn_dns].
  change (show_ipv4 (ni_ip n) +:+ "/" +:+ show_uint (ni_prefix_len n))
    with (join "/" [show_ipv4 (ni_ip n); show_uint (ni_prefix_len n)]).
  rewrite split_join; [|done|repeat constructor; [apply show_ipv4_no_slash | apply show_uint_no_char; [done | apply Hp]]].
  rewrite parse_show_ipv4, parse_show_uint by done. cbn [mbind option_bind].
  unfold id. assert (is_empty (show_ipv4 (ni_gateway n)) = false) as ->.
  { pose proof (parse_show_ipv4 _ Hgw) as H. by destruct (show_ipv4 (ni_gateway n)). }
  by rewrite parse_show_ipv4.
Qed.

(** A box connected to a well-formed network comes up on it: the guest's interface has
    the address the network assigned to the box, a mask under which the address and the
    gateway are in the network's own subnet, a default route to the network's gateway and
    the configured name servers. *)
Theorem bridge_handoff fs config oci pre post strs box_id name nc ipam ep n :
  network_inv ipam nc → Ipam.wf ipam → Ipam.aligned ipam →
  net_endpoints nc !! box_id = Some ep →
  setup_bridge_network config box_id name (Some nc) true = Ok n → ni_dns n ≠ [] →
  handed_over fs config oci (Some n) pre post strs →
  (c ← net_from_env (received pre post strs); configure_interfaces c) =
    Some {| gi_ip := ep_ip_address ep; gi_mask := prefix_to_netmask (Ipam.prefix_len ipam);
            gi_route := Some (net_gateway nc); gi_resolv := resolv_conf (map show_ipv4 (ni_dns n)) |} ∧
  Z.land (ep_ip_address ep) (prefix_to_netmask (Ipam.prefix_len ipam)) = Ipam.network ipam ∧
  Z.land (net_gateway nc) (prefix_to_netmask (Ipam.prefix_len ipam)) = Ipam.network ipam.
Proof.
  intros Hinv Hwf Hal Hep Hn Hdns H. pose proof (Ipam.wf_prefix _ Hwf) as Hp. pose proof (Ipam.wf_network _ Hwf) as Hnet.
  pose proof (Ipam.wf_gateway _ Hwf) as Hgw. pose proof (Ipam.wf_gateway_range _ Hwf) as Hgr.
  pose proof (epok_ip _ _ _ (inv_endpoints _ _ Hinv _ _ Hep)) as Hip.
  destruct (Ipam.broadcast_range _ Hwf) as [_ Hbr].
  assert (Hir : in_range 32 (ep_ip_address ep)) by (unfold in_range in *; lia).
  rewrite (bridge_ready config box_id name nc ipam ep Hinv Hwf Hep Hir) in Hn. injection Hn as <-.
  assert (Hsub : ∀ ip, in_range 32 ip → Ipam.network ipam ≤ ip ≤ Ipam.broadcast ipam →
    Z.land ip (prefix_to_netmask (Ipam.prefix_len ipam)) = Ipam.network ipam).
  { intros ip Hr Hbet. rewrite netmask_network by (done || lia).
    pose proof (Ipam.between_in_subnet ipam ip Hwf Hbet) as Hs. unfold Ipam.in_subnet, Ipam.aligned, Ipam.host_bits in *.
    assert (0 < 2 ^ (32 - Ipam.prefix_len ipam)) by (apply Z.pow_pos_nonneg; lia).
    pose proof (Z.div_mod ip (2 ^ (32 - Ipam.prefix_len ipam))).
    pose proof (Z.div_mod (Ipam.network ipam) (2 ^ (32 - Ipam.prefix_len ipam))). lia. }
  rewrite (inv_gateway _ _ Hinv). split_and!; [|apply Hsub; [done | lia] | apply Hsub; [done | lia]].
  pose proof (ho_pre _ _ _ _ _ _ _ H); pose proof (ho_post _ _ _ _ _ _ _ H).
  match type of Hdns with ni_dns ?n ≠ [] => apply (net_read n) end; try done.
  - cbn [ni_prefix_len]. unfold in_range. lia.
  - rewrite (received_env _ _ _ _ _ _ _ H). pick. reflexivity.
  - rewrite (received_env _ _ _ _ _ _ _ H). pick. reflexivity.
  - rewrite (received_env _ _ _ _ _ _ _ H). pick. reflexivity.
Qed.

(** A network of two boxes. *)
Definition demo_ep : NetworkEndpoint :=
  {| ep_box_id := "b1"; ep_box_name := "web"; ep_aliases := []; ep_ip_address := of_octets 10 88 0 2;
     ep_mac_address := Ipam.mac_from_ip (of_octets 10 88 0 2) |}.
Definition demo_ipam : Ipam.t := Ipam.mk (of_octets 10 88 0 0) 24 (of_octets 10 88 0 1).
Definition demo_bridge : NetworkConfig :=
  {| net_name := "lan"; net_subnet := Ipam.cidr demo_ipam; net_gateway := of_octets 10 88 0 1; net_driver := "bridge";
     net_labels := ∅; net_endpoints := {[ "b1" := demo_ep ]}; net_created_at := "t0"; net_policy := default_policy |}.
Definition demo_ni : NetworkInstanceConfig :=
  {| ni_ip := of_octets 10 88 0 2; ni_gateway := of_octets 10 88 0 1; ni_prefix_len := 24;
     ni_mac := [2; 66; 10; 88; 0; 2]; ni_dns := [of_octets 8 8 8 8] |}.
Definition net_strs (config : BoxConfig) : list string :=
  default [] (env_to_cstring (boot_env demo_fs config (Some demo_oci) (Some demo_ni))).

Lemma demo_bridge_inv : network_inv demo_ipam demo_bridge.
Proof.
  split; [done|done|done| |].
  - cbn [net_endpoints demo_bridge]. intros id ep [<- <-]%lookup_singleton_Some. split; [done | vm_compute; split; congruence | done].
  - cbn [net_endpoints demo_bridge]. intros id id' ep ep' [<- _]%lookup_singleton_Some [<- _]%lookup_singleton_Some. done.
Qed.

Lemma bridge_handoff_witness : let config := demo_config [] in
  (c ← net_from_env (received demo_pre [] (net_strs config)); configure_interfaces c) =
    Some {| gi_ip := of_octets 10 88 0 2; gi_mask := of_octets 255 255 255 0;
            gi_route := Some (of_octets 10 88 0 1);
            gi_resolv := "# Generated by a3s-box guest init" +:+ newline +:+ "nameserver 8.8.8.8" +:+ newline |}.
Proof.
  cbv zeta. set (config := demo_config []).
  destruct (bridge_handoff demo_fs config (Some demo_oci) demo_pre [] (net_strs config) "b1" "lan" demo_bridge demo_ipam
    demo_ep demo_ni) as [Hc _].
  - exact demo_bridge_inv.
  - split; vm_compute; split; congruence.
  - vm_compute. reflexivity.
  - reflexivity.
  - vm_compute. reflexivity.
  - done.
  - split; [vm_compute; reflexivity | repeat constructor | repeat constructor | constructor].
  - rewrite Hc. vm_compute. reflexivity.
Defined.

(** Name servers that are not IPv4 addresses are dropped; when none is left the guest gets a
    resolver file with an empty name server. *)
Lemma only_ipv6_dns :
  omap parse_ipv4 ["2001:4860:4860::8888"] = [] ∧
  gn_dns <$> net_from_env (net_env {| ni_ip := 0; ni_gateway := 0; ni_prefix_len := 24; ni_mac := []; ni_dns := [] |})
    = Some [""].
Proof. split; vm_compute; reflexivity. Qed.
