(* ===== verification/ExecServer.v ===== *)
(** * ExecServer: commands run in the guest

    [guest/init/src/exec_server.rs] (frames, the connection handler, streaming sessions) and the
    host's client [runtime/src/grpc/exec.rs].  A streaming session is a state with the three
    threads that work on it (the monitor of the client's frames, the readers of the two
    pipes, the main loop) and with the processes that write to the pipes; a run is a
    sequence of steps of any of them.  The numbers of the frame types and the host's frame
    reader belong to another crate and are a class; JSON texts are a class as well. *)

From Stdlib Require Import ZArith Lia Ascii.
From stdpp Require Import base gmap strings list numbers.
From S2P Require Import Prelude RustStr Text Pty Lifecycle Cri Streaming Logs.

Local Open Scope string_scope.
Local Open Scope list_scope.
Local Open Scope Z_scope.

(** ** Requests and results ([core/src/exec.rs]) *)

Record ExecOutput := { eo_stdout : list Z; eo_stderr : list Z; eo_exit_code : Z }.

Definition DEFAULT_EXEC_TIMEOUT_NS : Z := 5000000000.
Definition MAX_OUTPUT_BYTES : Z := 16 * 1024 * 1024.
Definition STREAM_CHUNK_BYTES : nat := Z.to_nat (16 * 1024).

(** ** Frames *)

(** The frame types the code names and what reading one frame from the bytes of a stream
    gives; both belong to the transport crate. *)
Inductive frame_type := FData | FControl | FHeartbeat | FError | FClose.

Inductive tr_answer := TrFrame (t : frame_type) (payload rest : list Z) | TrEof | TrFail.

Class Transport := { ft : frame_type → Z; tr_read : list Z → tr_answer }.

Definition MAX_FRAME : Z := 16 * 1024 * 1024.

Definition write_exec_frame (w : list Z) (ty : Z) (payload : list Z) : list Z :=
  w ++ [ty] ++ to_be_bytes (wrap 32 (Z.of_nat (length payload))) ++ payload.

(** The host reads what the guest writes: a type byte, four bytes of length, the payload. *)
Class TransportLaws `{!Transport} := {
  ft_inj a b : ft a = ft b → a = b;
  tr_read_frame t p rest : Z.of_nat (length p) ≤ MAX_FRAME →
    tr_read (write_exec_frame [] (ft t) p ++ rest) = TrFrame t p rest;
  tr_read_nil : tr_read [] = TrEof;
}.

Definition read_exec_frame (r : reader) : reader * result io_error (option (Z * list Z)) :=
  match read_exact r 5 with
  | (r, Err UnexpectedEof) => (r, Ok None)
  | (r, Err e) => (r, Err e)
  | (r, Ok [ty; b1; b2; b3; b4]) =>
      let len := from_be_bytes b1 b2 b3 b4 in
      if MAX_FRAME <? len then (r, Err (FrameTooLarge len))
      else if 0 <? len then
        match read_exact r (Z.to_nat len) with
        | (r, Ok payload) => (r, Ok (Some (ty, payload)))
        | (r, Err e) => (r, Err e)
        end
      else (r, Ok (Some (ty, [])))
  | (r, Ok _) => (r, Ok None)
  end.

(** serde's texts *)
Class ExecCodec := {
  request_from_slice : list Z → option ExecRequest;
  request_to_vec : ExecRequest → list Z;
  output_to_vec : ExecOutput → list Z;
  output_from_slice : list Z → option ExecOutput;
  chunk_to_vec : StreamType → list Z → list Z;
  chunk_from_slice : list Z → option (StreamType * list Z);
  exec_exit_to_vec : Z → bool → list Z;
  exec_exit_from_slice : list Z → option (Z * bool);
}.

Definition EXEC_CONTROL_SIGNAL_MAIN : string := "signal-main:".
Definition EXEC_SIGNAL_MAIN_ACK : list Z := as_bytes "signal-main-ack".
Definition EXEC_CONTROL_CANCEL : list Z := as_bytes "cancel".
Definition EXEC_CONTROL_STDIN_CLOSE : list Z := as_bytes "stdin-close".
Definition EXEC_CONTROL_FLUSH : list Z := as_bytes "flush".
Definition EXEC_FLUSH_ACK : list Z := as_bytes "flush-ack".

(** Round trips; a chunk is an array of decimal numbers beside the stream's name, an exit is
    an object and not the text of an acknowledgement. *)
Class ExecCodecLaws `{!ExecCodec} := {
  request_round r : request_from_slice (request_to_vec r) = Some r;
  output_round o : output_from_slice (output_to_vec o) = Some o;
  chunk_round s d : chunk_from_slice (chunk_to_vec s d) = Some (s, d);
  chunk_size s d : (length (chunk_to_vec s d) ≤ 4 * length d + 64)%nat;
  exit_round c o : exec_exit_from_slice (exec_exit_to_vec c o) = Some (c, o);
  exit_not_ack c o : exec_exit_to_vec c o ≠ EXEC_FLUSH_ACK;
  exit_size c o : (length (exec_exit_to_vec c o) ≤ 128)%nat;
}.

Section server.
Context `{!Transport} `{!ExecCodec}.

(** ** The connection handler *)

(** What a connection leads to: nothing, one frame, a signal and a frame, a command. *)
Inductive conn_action :=
  | Nothing
  | Reply (ty : Z) (payload : list Z)
  | SignalMain (kill : option (Z * Z)) (ty : Z) (payload : list Z)
  | RunStreaming (req : ExecRequest) (rest : reader)
  | RunOnce (req : ExecRequest).

(** [signal_main_process] with the recorded process id *)
Definition signal_main_process (container_pid sig : Z) : option (Z * Z) :=
  if 0 <? container_pid then Some (container_pid, sig) else None.

Definition SIGTERM : Z := 15.

(** The number after the prefix *)
Definition requested_signal (payload : string) : Z :=
  default SIGTERM
    (n ← (if utf8 payload then parse_int 32 (trim payload) else None);
     if (0 <? n) && (n <? 64) then Some n else None).

Definition send_error_frame (message : string) : conn_action := Reply (ft FError) (as_bytes message).

Definition handle_exec_connection (container_pid : Z) (json_error : list Z → string) (r : reader)
    : result io_error conn_action :=
  match read_exec_frame r with
  | (_, Err e) => Err e
  | (_, Ok None) => Ok Nothing
  | (r, Ok (Some (ty, payload))) =>
      if negb (ty =? ft FData) then
        if ty =? ft FHeartbeat then Ok (Reply (ft FHeartbeat) payload)
        else if (ty =? ft FControl) && starts_with EXEC_CONTROL_SIGNAL_MAIN (of_bytes payload) then
          let sig := requested_signal (of_bytes (drop (String.length EXEC_CONTROL_SIGNAL_MAIN) payload)) in
          Ok (SignalMain (signal_main_process container_pid sig) (ft FControl) EXEC_SIGNAL_MAIN_ACK)
        else Ok (send_error_frame "Expected Data frame")
      else
        match request_from_slice payload with
        | None => Ok (send_error_frame ("Invalid JSON: " +:+ json_error payload))
        | Some req => Ok (if er_streaming req then RunStreaming req r else RunOnce req)
        end
  end.

(** ** Output frames *)

Definition write_exec_stream_chunk (w : list Z) (s : StreamType) (data : list Z) : list Z :=
  match data with [] => w | _ => write_exec_frame w (ft FData) (chunk_to_vec s data) end.

(** [slice::chunks]; [fuel] bounds the number of pieces. *)
Fixpoint pieces (fuel n : nat) (data : list Z) : list (list Z) :=
  match fuel, data with
  | _, [] => []
  | O, _ => [data]
  | S fuel, _ => take n data :: pieces fuel n (drop n data)
  end.

Definition write_exec_stream_chunks (w : list Z) (s : StreamType) (data : list Z) : list Z :=
  foldl (λ w c, write_exec_stream_chunk w s c) w (pieces (length data) STREAM_CHUNK_BYTES data).

Definition write_exec_exit (w : list Z) (exit_code : Z) (oom_killed : bool) : list Z :=
  write_exec_frame w (ft FControl) (exec_exit_to_vec exit_code oom_killed).

Definition write_exec_flush_ack (w : list Z) : list Z := write_exec_frame w (ft FControl) EXEC_FLUSH_ACK.

Definition write_exec_stream_response (w : list Z) (o : ExecOutput) : list Z :=
  write_exec_exit
    (write_exec_stream_chunks (write_exec_stream_chunks w Stdout (eo_stdout o)) Stderr (eo_stderr o))
    (eo_exit_code o) false.

(** The bytes of the frames a session sends *)
Definition write_event (w : list Z) (e : ExecEvent) : list Z :=
  match e with
  | Chunk s data => write_exec_stream_chunk w s data
  | FlushAck => write_exec_flush_ack w
  | Exit c o => write_exec_exit w c o
  end.

(** ** The input monitor *)

Inductive ExecInputEvent := Stdin (data : list Z) | StdinClose | Cancel | Flush.

Definition is_bytes (a b : list Z) : bool := bool_decide (a = b).

(** One frame of the client: the event it becomes, and whether the monitor goes on. *)
Definition monitor_frame (ty : Z) (payload : list Z) : option ExecInputEvent * bool :=
  if (ty =? ft FControl) && is_bytes payload EXEC_CONTROL_CANCEL then (Some Cancel, false)
  else if (ty =? ft FControl) && is_bytes payload EXEC_CONTROL_STDIN_CLOSE then (Some StdinClose, true)
  else if (ty =? ft FControl) && is_bytes payload EXEC_CONTROL_FLUSH then (Some Flush, true)
  else if ty =? ft FData then (Some (Stdin payload), true)
  else if ty =? ft FClose then (Some Cancel, false)
  else (None, true).

(** ** A streaming session *)

Inductive StreamingStopReason := StopTimeout | StopCancelled.

(** Where the main loop is.  [First] and [Second] are the two calls of
    [process_streaming_input] in the loop; the flag of [PInput] is [outcome.flush], that of
    the flush states [outcome.cancel]. *)
Inductive call_site := First | Second.
Inductive pc :=
  | PInput (k : call_site) (flush : bool)
  | PFlushOut (k : call_site) (cancel : bool)
  | PFlushAck (k : call_site) (cancel : bool)
  | PRecv
  | PWait
  | PReaped
  | PJoin (code : Z) (reason : option StreamingStopReason)
  | PDrain (code : Z) (reason : option StreamingStopReason)
  | PMessage (code : Z) (reason : option StreamingStopReason)
  | PExit (code : Z) (reason : option StreamingStopReason)
  | PDone (code : Z) (reason : option StreamingStopReason)
  | PFailed.

Inductive reader_state := Reading | AtEof | Broken.

(** [ss_written] is everything the processes ever wrote to a pipe, [ss_pipe] what its reader
    has not read, [ss_open] whether some process can still write, [ss_queue] the channel of
    the readers, [ss_client] the frames the monitor has not read, [ss_input] its channel,
    [ss_sent] what was sent to the client. *)
Record session := {
  ss_written : StreamType → list Z;
  ss_pipe : StreamType → list Z;
  ss_open : StreamType → bool;
  ss_reader : StreamType → reader_state;
  ss_queue : list (StreamType * list Z);
  ss_client : list (Z * list Z);
  ss_monitor : bool;
  ss_input : list ExecInputEvent;
  ss_stdin_open : bool;
  ss_stdin : list Z;
  ss_killed : bool;
  ss_sent : list ExecEvent;
  ss_pc : pc;
}.

Definition upd {A} (f : StreamType → A) (s : StreamType) (a : A) : StreamType → A :=
  λ s', if decide (s' = s) then a else f s'.

Definition set_pc (p : pc) (s : session) : session :=
  {| ss_written := ss_written s; ss_pipe := ss_pipe s; ss_open := ss_open s; ss_reader := ss_reader s;
     ss_queue := ss_queue s; ss_client := ss_client s; ss_monitor := ss_monitor s; ss_input := ss_input s;
     ss_stdin_open := ss_stdin_open s; ss_stdin := ss_stdin s; ss_killed := ss_killed s;
     ss_sent := ss_sent s; ss_pc := p |}.
Definition set_queue (q : list (StreamType * list Z)) (s : session) : session :=
  {| ss_written := ss_written s; ss_pipe := ss_pipe s; ss_open := ss_open s; ss_reader := ss_reader s;
     ss_queue := q; ss_client := ss_client s; ss_monitor := ss_monitor s; ss_input := ss_input s;
     ss_stdin_open := ss_stdin_open s; ss_stdin := ss_stdin s; ss_killed := ss_killed s;
     ss_sent := ss_sent s; ss_pc := ss_pc s |}.
Definition set_input (i : list ExecInputEvent) (s : session) : session :=
  {| ss_written := ss_written s; ss_pipe := ss_pipe s; ss_open := ss_open s; ss_reader := ss_reader s;
     ss_queue := ss_queue s; ss_client := ss_client s; ss_monitor := ss_monitor s; ss_input := i;
     ss_stdin_open := ss_stdin_open s; ss_stdin := ss_stdin s; ss_killed := ss_killed s;
     ss_sent := ss_sent s; ss_pc := ss_pc s |}.
Definition set_stdin (o : bool) (bs : list Z) (s : session) : session :=
  {| ss_written := ss_written s; ss_pipe := ss_pipe s; ss_open := ss_open s; ss_reader := ss_reader s;
     ss_queue := ss_queue s; ss_client := ss_client s; ss_monitor := ss_monitor s; ss_input := ss_input s;
     ss_stdin_open := o; ss_stdin := bs; ss_killed := ss_killed s;
     ss_sent := ss_sent s; ss_pc := ss_pc s |}.
Definition send (e : ExecEvent) (s : session) : session :=
  {| ss_written := ss_written s; ss_pipe := ss_pipe s; ss_open := ss_open s; ss_reader := ss_reader s;
     ss_queue := ss_queue s; ss_client := ss_client s; ss_monitor := ss_monitor s; ss_input := ss_input s;
     ss_stdin_open := ss_stdin_open s; ss_stdin := ss_stdin s; ss_killed := ss_killed s;
     ss_sent := ss_sent s ++ [e]; ss_pc := ss_pc s |}.
Definition kill_child_process_group (s : session) : session :=
  {| ss_written := ss_written s; ss_pipe := ss_pipe s; ss_open := ss_open s; ss_reader := ss_reader s;
     ss_queue := ss_queue s; ss_client := ss_client s; ss_monitor := ss_monitor s; ss_input := ss_input s;
     ss_stdin_open := ss_stdin_open s; ss_stdin := ss_stdin s; ss_killed := true;
     ss_sent := ss_sent s; ss_pc := ss_pc s |}.

(** An empty chunk sends nothing. *)
Definition send_data (st : StreamType) (data : list Z) (s : session) : session :=
  match data with [] => s | _ => send (Chunk st data) s end.

(** What the system answers to the main loop: [try_wait], writing to the child's input (all
    of it, or only so many bytes before an error), writing to the client, the OOM counter. *)
Inductive wait_answer :=
  | ChildExited (code : option Z)
  | StillRunning (elapsed : Z)
  | ReapedElsewhere
  | WaitFailed (message : list Z).

Record answer := { an_wait : wait_answer; an_stdin : option nat; an_write_ok : bool; an_oom : bool }.

Definition write_live_child_stdin (a : answer) (data : list Z) (s : session) : session :=
  if ss_stdin_open s then
    match an_stdin a with
    | None => set_stdin true (ss_stdin s ++ data) s
    | Some n => set_stdin false (ss_stdin s ++ take n data) s
    end
  else s.

(** Taking one chunk from the channel and sending it; [otherwise] when the channel is empty *)
Definition take_chunk (a : answer) (next : session → session) (otherwise : session → session) (s : session) : session :=
  match ss_queue s with
  | [] => otherwise s
  | (st, data) :: q => if an_write_ok a then next (send_data st data (set_queue q s)) else set_pc PFailed s
  end.

Definition after_input (k : call_site) : pc := match k with First => PRecv | Second => PWait end.

Definition stop_cancelled (s : session) : session :=
  set_pc (PJoin 137 (Some StopCancelled)) (kill_child_process_group s).

(** One [try_recv] of [drain_exec_input_events], and what follows an empty channel *)
Definition input_step (a : answer) (k : call_site) (flush : bool) (s : session) : session :=
  match ss_input s with
  | [] => set_pc (if flush then PFlushOut k false else after_input k) s
  | Stdin data :: r => write_live_child_stdin a data (set_input r s)
  | StdinClose :: r => set_stdin false (ss_stdin s) (set_input r s)
  | Flush :: r => set_pc (PInput k true) (set_input r s)
  | Cancel :: r => if flush then set_pc (PFlushOut k true) (set_input r s) else stop_cancelled (set_input r s)
  end.

Definition timeout_message : list Z := as_bytes (String nl "Process killed: timeout exceeded").
Definition cancel_message : list Z := as_bytes (String nl "Process killed: stop requested").

Definition message (reason : option StreamingStopReason) : list Z :=
  match reason with
  | Some StopTimeout => timeout_message
  | Some StopCancelled => cancel_message
  | None => []
  end.

Definition wait_step (timeout : Z) (a : answer) (s : session) : session :=
  match an_wait a with
  | ChildExited code => set_pc (PJoin (default 1 code) None) s
  | StillRunning elapsed =>
      if timeout <=? elapsed then set_pc (PJoin 137 (Some StopTimeout)) (kill_child_process_group s)
      else set_pc (PInput First false) s
  | ReapedElsewhere => set_pc PReaped s
  | WaitFailed m =>
      if an_write_ok a then set_pc (PJoin 1 None) (send_data Stderr m s) else set_pc PFailed s
  end.

Definition reader_done (s : session) (st : StreamType) : bool :=
  match ss_reader s st with Reading => false | _ => true end.

(** A step of [wait_streaming_child] and of the end of [execute_command_streaming]; [None]
    while it waits for the readers or has ended *)
Definition main_step (timeout : Z) (a : answer) (s : session) : option session :=
  match ss_pc s with
  | PInput k flush => Some (input_step a k flush s)
  | PFlushOut k cancel => Some (take_chunk a id (set_pc (PFlushAck k cancel)) s)
  | PFlushAck k cancel =>
      Some (if an_write_ok a then
              let s := send FlushAck s in
              if cancel then stop_cancelled s else set_pc (after_input k) s
            else set_pc PFailed s)
  | PRecv => Some (take_chunk a (set_pc (PInput Second false)) (set_pc (PInput Second false)) s)
  | PWait => Some (wait_step timeout a s)
  | PReaped => Some (take_chunk a id (set_pc (PJoin 0 None)) s)
  | PJoin code reason =>
      if reader_done s Stdout && reader_done s Stderr then Some (set_pc (PDrain code reason) s) else None
  | PDrain code reason => Some (take_chunk a id (set_pc (PMessage code reason)) s)
  | PMessage code reason =>
      Some (if an_write_ok a then set_pc (PExit code reason) (send_data Stderr (message reason) s)
            else set_pc PFailed s)
  | PExit code reason =>
      Some (if an_write_ok a then set_pc (PDone code reason) (send (Exit code (an_oom a)) s)
            else set_pc PFailed s)
  | PDone _ _ | PFailed => None
  end.

(** The other threads and the processes *)
Inductive env_event :=
  | Writes (st : StreamType) (data : list Z)
  | Closes (st : StreamType)
  | Reads (st : StreamType) (n : nat)
  | ReadsEof (st : StreamType)
  | ReadFails (st : StreamType)
  | Monitor.

Definition with_streams (w p : StreamType → list Z) (o : StreamType → bool) (r : StreamType → reader_state)
    (q : list (StreamType * list Z)) (s : session) : session :=
  {| ss_written := w; ss_pipe := p; ss_open := o; ss_reader := r;
     ss_queue := q; ss_client := ss_client s; ss_monitor := ss_monitor s; ss_input := ss_input s;
     ss_stdin_open := ss_stdin_open s; ss_stdin := ss_stdin s; ss_killed := ss_killed s;
     ss_sent := ss_sent s; ss_pc := ss_pc s |}.

Definition with_client (c : list (Z * list Z)) (m : bool) (i : list ExecInputEvent) (s : session) : session :=
  {| ss_written := ss_written s; ss_pipe := ss_pipe s; ss_open := ss_open s; ss_reader := ss_reader s;
     ss_queue := ss_queue s; ss_client := c; ss_monitor := m; ss_input := i;
     ss_stdin_open := ss_stdin_open s; ss_stdin := ss_stdin s; ss_killed := ss_killed s;
     ss_sent := ss_sent s; ss_pc := ss_pc s |}.

(** [spawn_stream_reader]: what [read] of at most [STREAM_CHUNK_BYTES] returned is queued;
    end of file comes when the pipe is empty and nobody can write to it. *)
Definition env_step (e : env_event) (s : session) : option session :=
  match e with
  | Writes st data =>
      if ss_open s st then
        Some (with_streams (upd (ss_written s) st (ss_written s st ++ data))
                (upd (ss_pipe s) st (ss_pipe s st ++ data)) (ss_open s) (ss_reader s) (ss_queue s) s)
      else None
  | Closes st => Some (with_streams (ss_written s) (ss_pipe s) (upd (ss_open s) st false) (ss_reader s) (ss_queue s) s)
  | Reads st n =>
      match ss_reader s st with
      | Reading =>
          if (0 <? n)%nat && (n <=? STREAM_CHUNK_BYTES)%nat && (n <=? length (ss_pipe s st))%nat then
            Some (with_streams (ss_written s) (upd (ss_pipe s) st (drop n (ss_pipe s st))) (ss_open s)
                    (ss_reader s) (ss_queue s ++ [(st, take n (ss_pipe s st))]) s)
          else None
      | _ => None
      end
  | ReadsEof st =>
      match ss_reader s st, ss_open s st, ss_pipe s st with
      | Reading, false, [] =>
          Some (with_streams (ss_written s) (ss_pipe s) (ss_open s) (upd (ss_reader s) st AtEof) (ss_queue s) s)
      | _, _, _ => None
      end
  | ReadFails st =>
      match ss_reader s st with
      | Reading => Some (with_streams (ss_written s) (ss_pipe s) (ss_open s) (upd (ss_reader s) st Broken) (ss_queue s) s)
      | _ => None
      end
  | Monitor =>
      if ss_monitor s then
        match ss_client s with
        | [] => Some (with_client [] false (ss_input s) s)
        | (ty, payload) :: c =>
            let '(e, go) := monitor_frame ty payload in
            Some (with_client c go (ss_input s ++ from_option (λ e, [e]) [] e) s)
        end
      else None
  end.

Definition sys_label := (answer + env_event)%type.

Definition session_step (timeout : Z) (l : sys_label) (s : session) : option session :=
  match l with inl a => main_step timeout a s | inr e => env_step e s end.

Fixpoint session_run (timeout : Z) (ls : list sys_label) (s : session) : option session :=
  match ls with [] => Some s | l :: ls => s ← session_step timeout l s; session_run timeout ls s end.

(** [write_child_stdin] and the state in which the loop begins; the child's input is a pipe
    exactly when there is data or more may come. *)
Definition new_session (stdin_data : option (list Z)) (stdin_streaming : bool) (client : list (Z * list Z)) : session :=
  {| ss_written := λ _, []; ss_pipe := λ _, []; ss_open := λ _, true; ss_reader := λ _, Reading;
     ss_queue := []; ss_client := client; ss_monitor := true; ss_input := [];
     ss_stdin_open := stdin_streaming; ss_stdin := default [] stdin_data; ss_killed := false;
     ss_sent := []; ss_pc := PInput First false |}.

(** ** The host's client ([runtime/src/grpc/exec.rs]) *)

Record StreamingExec := { se_in : list Z; se_done : bool; se_stdout_bytes : Z; se_stderr_bytes : Z }.

Inductive client_error :=
  | ReadFailed
  | BadChunk
  | BadExit
  | BadResponse
  | ClosedWithoutResponse
  | ServerError (message : list Z)
  | UnexpectedFrame (t : frame_type).

Definition finish_exec (c : StreamingExec) : StreamingExec :=
  {| se_in := se_in c; se_done := true; se_stdout_bytes := se_stdout_bytes c; se_stderr_bytes := se_stderr_bytes c |}.

Definition count_chunk (s : StreamType) (d : list Z) (c : StreamingExec) : StreamingExec :=
  match s with
  | Stdout => {| se_in := se_in c; se_done := se_done c;
                 se_stdout_bytes := wrap 64 (se_stdout_bytes c + Z.of_nat (length d)); se_stderr_bytes := se_stderr_bytes c |}
  | Stderr => {| se_in := se_in c; se_done := se_done c; se_stdout_bytes := se_stdout_bytes c;
                 se_stderr_bytes := wrap 64 (se_stderr_bytes c + Z.of_nat (length d)) |}
  end.

Definition next_event (c : StreamingExec) : StreamingExec * result client_error (option ExecEvent) :=
  if se_done c then (c, Ok None)
  else
    match tr_read (se_in c) with
    | TrEof => (finish_exec c, Ok None)
    | TrFail => (finish_exec c, Err ReadFailed)
    | TrFrame t payload rest =>
        let c := {| se_in := rest; se_done := false;
                    se_stdout_bytes := se_stdout_bytes c; se_stderr_bytes := se_stderr_bytes c |} in
        match t with
        | FData =>
            match chunk_from_slice payload with
            | None => (c, Err BadChunk)
            | Some (s, d) => (count_chunk s d c, Ok (Some (Chunk s d)))
            end
        | FControl =>
            if is_bytes payload EXEC_FLUSH_ACK then (c, Ok (Some FlushAck))
            else
              match exec_exit_from_slice payload with
              | None => (c, Err BadExit)
              | Some (code, oom) => (finish_exec c, Ok (Some (Exit code oom)))
              end
        | FError => (finish_exec c, Err (ServerError payload))
        | _ => (c, Err (UnexpectedFrame t))
        end
    end.

(** [collect]; an exit code of -1 stands for a stream that ended without one. *)
Fixpoint collect_loop (fuel : nat) (c : StreamingExec) (o : ExecOutput)
    : option (result client_error (ExecOutput * StreamingExec)) :=
  match fuel with
  | O => None
  | S fuel =>
      match next_event c with
      | (_, Err e) => Some (Err e)
      | (c, Ok None) => Some (Ok (o, c))
      | (c, Ok (Some e)) =>
          collect_loop fuel c
            match e with
            | Chunk Stdout d => {| eo_stdout := eo_stdout o ++ d; eo_stderr := eo_stderr o; eo_exit_code := eo_exit_code o |}
            | Chunk Stderr d => {| eo_stdout := eo_stdout o; eo_stderr := eo_stderr o ++ d; eo_exit_code := eo_exit_code o |}
            | FlushAck => o
            | Exit code _ => {| eo_stdout := eo_stdout o; eo_stderr := eo_stderr o; eo_exit_code := code |}
            end
      end
  end.

Definition exec_stream (incoming : list Z) : StreamingExec :=
  {| se_in := incoming; se_done := false; se_stdout_bytes := 0; se_stderr_bytes := 0 |}.

Definition collect (c : StreamingExec) : option (result client_error (ExecOutput * StreamingExec)) :=
  collect_loop (S (length (se_in c))) c {| eo_stdout := []; eo_stderr := []; eo_exit_code := -1 |}.

(** The answer of a one-shot command *)
Definition exec_command (incoming : list Z) : result client_error ExecOutput :=
  match tr_read incoming with
  | TrFail => Err ReadFailed
  | TrEof => Err ClosedWithoutResponse
  | TrFrame FData payload _ => ok_or BadResponse (output_from_slice payload)
  | TrFrame FError payload _ => Err (ServerError payload)
  | TrFrame t _ _ => Err (UnexpectedFrame t)
  end.

Definition heartbeat (incoming : list Z) : bool :=
  match tr_read incoming with TrFrame FHeartbeat _ _ => true | _ => false end.

(** The request of [signal_main] and what it makes of the answer *)
Definition signal_main_request (signal : Z) : list Z :=
  write_exec_frame [] (ft FControl) (as_bytes (EXEC_CONTROL_SIGNAL_MAIN +:+ show_int signal)).

Definition signal_main_acked (incoming : list Z) : bool :=
  match tr_read incoming with TrFrame FControl p _ => is_bytes p EXEC_SIGNAL_MAIN_ACK | _ => false end.
End server.

(** ** Frames *)

Lemma read_exec_frame_cons ty payload rest e :
  Z.of_nat (length payload) ≤ MAX_FRAME →
  read_exec_frame {| incoming := write_exec_frame [] ty payload ++ rest; ending := e |} =
  ({| incoming := rest; ending := e |}, Ok (Some (ty, payload))).
Proof.
  intros Hlen. unfold write_exec_frame. set (n := Z.of_nat (length payload)) in *.
  assert (in_range 32 n) as Hr by (unfold in_range, n, MAX_FRAME in *; lia).
  rewrite (wrap_small 32 n Hr). pose proof (be_bytes_roundtrip n Hr) as Hb.
  unfold to_be_bytes in *. unfold read_exec_frame.
  match type of Hb with from_be_bytes ?a ?b ?c ?d = _ =>
    change (([] ++ [ty] ++ [a; b; c; d] ++ payload) ++ rest)
      with ([ty; a; b; c; d] ++ (payload ++ rest)) end.
  rewrite read_exact_app by done. rewrite Hb, (proj2 (Z.ltb_ge _ _)) by done.
  destruct (Z.ltb_spec 0 n) as [Hpos|Hz].
  - rewrite read_exact_app; [done|]. unfold n. lia.
  - unfold n in Hz. by destruct payload.
Qed.

(** ** What the client reads *)

Section reading.
Context `{TL : !Transport} `{EC : !ExecCodec} `{TLL : !TransportLaws} `{ECL : !ExecCodecLaws}.

(** What a session sends before its end: pieces of output and acknowledgements *)
Definition mid (e : ExecEvent) : Prop :=
  match e with
  | Chunk _ d => d ≠ [] ∧ (length d ≤ STREAM_CHUNK_BYTES)%nat
  | FlushAck => True
  | Exit _ _ => False
  end.

Definition stream_bytes (st : StreamType) (es : list ExecEvent) : list Z :=
  concat (omap (λ e, match e with Chunk s d => if decide (s = st) then Some d else None | _ => None end) es).

Arguments stream_bytes : simpl never.

Lemma stream_bytes_app st es es' : stream_bytes st (es ++ es') = stream_bytes st es ++ stream_bytes st es'.
Proof. unfold stream_bytes. by rewrite omap_app, concat_app. Qed.

Lemma stream_bytes_cons st e es : stream_bytes st (e :: es) = stream_bytes st [e] ++ stream_bytes st es.
Proof. apply (stream_bytes_app st [e] es). Qed.

Lemma stream_bytes_chunk st s d : stream_bytes st [Chunk s d] = if decide (s = st) then d else [].
Proof. unfold stream_bytes. cbn. destruct (decide (s = st)); cbn; [by rewrite app_nil_r|done]. Qed.
Lemma stream_bytes_own st d : stream_bytes st [Chunk st d] = d.
Proof. by rewrite stream_bytes_chunk, decide_True. Qed.
Lemma stream_bytes_other st s d : s ≠ st → stream_bytes st [Chunk s d] = [].
Proof. intros. by rewrite stream_bytes_chunk, decide_False. Qed.

Definition event_frame (e : ExecEvent) : frame_type * list Z :=
  match e with
  | Chunk s d => (FData, chunk_to_vec s d)
  | FlushAck => (FControl, EXEC_FLUSH_ACK)
  | Exit c o => (FControl, exec_exit_to_vec c o)
  end.

Definition sendable (e : ExecEvent) : Prop := match e with Exit _ _ => True | _ => mid e end.

Lemma mid_sendable e : mid e → sendable e.
Proof. by destruct e. Qed.

Lemma write_event_frame w e : sendable e →
  write_event w e = w ++ write_exec_frame [] (ft (event_frame e).1) (event_frame e).2.
Proof. destruct e as [s [|b d]| |c o]; cbn; try done; intros [H _]; congruence. Qed.

Lemma event_frame_small e : sendable e → Z.of_nat (length (event_frame e).2) ≤ MAX_FRAME.
Proof.
  assert (Z.of_nat STREAM_CHUNK_BYTES = 16384) as Hc by reflexivity.
  destruct e as [s d| |c o]; cbn -[MAX_FRAME STREAM_CHUNK_BYTES]; intros H; unfold MAX_FRAME.
  - pose proof (chunk_size s d). lia.
  - done.
  - pose proof (exit_size c o). lia.
Qed.

Lemma next_event_reads e rest a b : sendable e →
  ∃ c, next_event {| se_in := write_event [] e ++ rest; se_done := false; se_stdout_bytes := a; se_stderr_bytes := b |}
       = (c, Ok (Some e)) ∧ se_in c = rest ∧ se_done c = (match e with Exit _ _ => true | _ => false end) ∧
    se_stdout_bytes c = (match e with Chunk Stdout d => wrap 64 (a + Z.of_nat (length d)) | _ => a end) ∧
    se_stderr_bytes c = (match e with Chunk Stderr d => wrap 64 (b + Z.of_nat (length d)) | _ => b end).
Proof.
  intros He. rewrite write_event_frame by done. cbn [app]. unfold next_event. cbn [se_done se_in].
  rewrite tr_read_frame by (by apply event_frame_small).
  destruct e as [s d| |c o]; cbn -[EXEC_FLUSH_ACK].
  - rewrite chunk_round. destruct s; by eexists.
  - unfold is_bytes. rewrite bool_decide_true by done. by eexists.
  - unfold is_bytes. rewrite bool_decide_false by apply exit_not_ack. rewrite exit_round. by eexists.
Qed.

Lemma wire_app es w : Forall sendable es →
  foldl write_event w es = w ++ foldr (λ e bs, write_event [] e ++ bs) [] es.
Proof.
  intros H. revert w. induction H as [|e es He _ IH]; intros w; cbn [foldl foldr]; [by rewrite app_nil_r|].
  rewrite IH, write_event_frame, (write_event_frame [] e), <-app_assoc by done. done.
Qed.

Lemma wire_length es : Forall sendable es →
  (length es ≤ length (foldr (λ e bs, write_event [] e ++ bs) [] es))%nat.
Proof.
  induction 1 as [|e es He _ IH]; cbn [foldr length]; [done|].
  rewrite length_app, write_event_frame by done. unfold write_exec_frame. cbn [app length]. lia.
Qed.

Definition add_output (o : ExecOutput) (es : list ExecEvent) (code : Z) : ExecOutput :=
  {| eo_stdout := eo_stdout o ++ stream_bytes Stdout es; eo_stderr := eo_stderr o ++ stream_bytes Stderr es;
     eo_exit_code := code |}.

Lemma collect_reads es code oom fuel o a b :
  Forall mid es → (length es + 2 ≤ fuel)%nat →
  0 ≤ a → 0 ≤ b →
  a + Z.of_nat (length (stream_bytes Stdout es)) < 2 ^ 64 → b + Z.of_nat (length (stream_bytes Stderr es)) < 2 ^ 64 →
  ∃ c, collect_loop fuel {| se_in := foldr (λ e bs, write_event [] e ++ bs) [] (es ++ [Exit code oom]);
                            se_done := false; se_stdout_bytes := a; se_stderr_bytes := b |} o
       = Some (Ok (add_output o es code, c)) ∧ se_done c = true ∧
    se_stdout_bytes c = a + Z.of_nat (length (stream_bytes Stdout es)) ∧
    se_stderr_bytes c = b + Z.of_nat (length (stream_bytes Stderr es)).
Proof.
  intros Hm. revert fuel o a b. induction Hm as [|e es He _ IH]; intros fuel o a b Hf Ha Hb Hao Hbo.
  - cbn [length] in Hf. destruct fuel as [|[|fuel]]; [lia|lia|]. cbn [app foldr]. cbn [collect_loop].
    destruct (next_event_reads (Exit code oom) [] a b I) as (c & -> & _ & Hd & H1 & H2).
    cbn [collect_loop]. unfold next_event. rewrite Hd. unfold add_output. change (stream_bytes Stdout []) with (@nil Z).
    change (stream_bytes Stderr []) with (@nil Z). cbn [length Z.of_nat]. rewrite !app_nil_r, !Z.add_0_r. by exists c.
  - destruct fuel as [|fuel]; [lia|]. cbn [app foldr collect_loop].
    destruct (next_event_reads e (foldr (λ e bs, write_event [] e ++ bs) [] (es ++ [Exit code oom])) a b)
      as ([ci cd c1 c2] & -> & Hi & Hd & H1 & H2); [by apply mid_sendable|]. cbn in Hi, Hd, H1, H2. subst ci.
    rewrite (stream_bytes_cons Stdout e es), length_app in Hao.
    rewrite (stream_bytes_cons Stderr e es), length_app in Hbo. cbn [length] in Hf.
    destruct e as [s d| |? ?]; [|cbn in Hd; subst|done].
    + destruct s; [rewrite stream_bytes_own in Hao; rewrite stream_bytes_other in Hbo by done
                  |rewrite stream_bytes_own in Hbo; rewrite stream_bytes_other in Hao by done]; cbn in Hd, H1, H2; subst.
      * rewrite wrap_small by (unfold in_range; lia).
        destruct (IH fuel {| eo_stdout := eo_stdout o ++ d; eo_stderr := eo_stderr o; eo_exit_code := eo_exit_code o |}
                    (a + Z.of_nat (length d)) b) as (c & -> & Hd & H1 & H2); [lia..|].
        exists c. rewrite H1, H2. unfold add_output. cbn [eo_stdout eo_stderr].
        rewrite (stream_bytes_cons Stdout _ es), (stream_bytes_cons Stderr _ es), stream_bytes_own, stream_bytes_other by done. cbn [app]. rewrite length_app, app_assoc.
        split_and!; [done|done|lia|lia].
      * rewrite wrap_small by (unfold in_range; lia).
        destruct (IH fuel {| eo_stdout := eo_stdout o; eo_stderr := eo_stderr o ++ d; eo_exit_code := eo_exit_code o |}
                    a (b + Z.of_nat (length d))) as (c & -> & Hd & H1 & H2); [lia..|].
        exists c. rewrite H1, H2. unfold add_output. cbn [eo_stdout eo_stderr].
        rewrite (stream_bytes_cons Stdout _ es), (stream_bytes_cons Stderr _ es), stream_bytes_own, stream_bytes_other by done. cbn [app]. rewrite length_app, app_assoc.
        split_and!; [done|done|lia|lia].
    + apply (IH fuel o a b); try done; lia.
Qed.
End reading.

Arguments stream_bytes : simpl never.

(** ** Sessions *)

Section sessions.
Context `{TL : !Transport} (timeout : Z).

(** Properties kept by every step hold in every run. *)
Lemma run_invariant (Q : sys_label → Prop) (P : session → Prop) :
  (∀ l s s', Q l → P s → session_step timeout l s = Some s' → P s') →
  ∀ ls s s', Forall Q ls → P s → session_run timeout ls s = Some s' → P s'.
Proof.
  intros Hstep ls. induction ls as [|l ls IH]; intros s s' HQ Hs Hr; cbn in Hr; [by simplify_eq|].
  apply bind_Some in Hr as (s1 & H1 & H2). apply list.Forall_cons in HQ as [Hl HQ]. eauto.
Qed.

Definition queue_bytes (st : StreamType) (q : list (StreamType * list Z)) : list Z :=
  concat (omap (λ c, if decide (c.1 = st) then Some c.2 else None) q).

Arguments queue_bytes : simpl never.

Lemma queue_bytes_app st q q' : queue_bytes st (q ++ q') = queue_bytes st q ++ queue_bytes st q'.
Proof. unfold queue_bytes. by rewrite omap_app, concat_app. Qed.
Lemma queue_bytes_one st s d : queue_bytes st [(s, d)] = stream_bytes st [Chunk s d].
Proof. rewrite stream_bytes_chunk. unfold queue_bytes. cbn. destruct (decide (s = st)); cbn; by rewrite ?app_nil_r. Qed.
Lemma queue_bytes_cons st s d q : queue_bytes st ((s, d) :: q) = stream_bytes st [Chunk s d] ++ queue_bytes st q.
Proof. rewrite <-queue_bytes_one. apply (queue_bytes_app st [(s, d)] q). Qed.

(** What is sent after the output of the processes *)
Definition trailer (p : pc) (st : StreamType) : list Z :=
  match p, st with
  | PExit _ r, Stderr | PDone _ r, Stderr => message r
  | _, _ => []
  end.
Definition is_done (p : pc) : bool := match p with PDone _ _ => true | _ => false end.
Definition joined (p : pc) : bool :=
  match p with PDrain _ _ | PMessage _ _ | PExit _ _ | PDone _ _ => true | _ => false end.
Definition drained (p : pc) : bool := match p with PMessage _ _ | PExit _ _ | PDone _ _ => true | _ => false end.

Definition chunk_ok (c : StreamType * list Z) : Prop := c.2 ≠ [] ∧ (length c.2 ≤ STREAM_CHUNK_BYTES)%nat.

(** Nothing is lost, doubled or reordered: per stream, what was sent, what is queued and
    what is in the pipe are together what was written. *)
Record session_ok (s : session) : Prop := {
  ok_bytes st : ss_pc s ≠ PFailed → ∃ x, stream_bytes st (ss_sent s) = x ++ trailer (ss_pc s) st ∧
    x ++ queue_bytes st (ss_queue s) ++ ss_pipe s st = ss_written s st;
  ok_queue : Forall chunk_ok (ss_queue s);
  ok_sent : ∃ es, Forall mid es ∧
    match ss_pc s with PDone code _ => ∃ oom, ss_sent s = es ++ [Exit code oom] | _ => ss_sent s = es end;
  ok_eof st : ss_reader s st = AtEof → ss_open s st = false ∧ ss_pipe s st = [];
  ok_joined : joined (ss_pc s) = true → ∀ st, ss_reader s st ≠ Reading;
  ok_drained : drained (ss_pc s) = true → ss_queue s = [];
}.

Lemma session_ok_new d str client : session_ok (new_session d str client).
Proof. split; cbn; try done; [intros []; by exists []|by exists []]. Qed.

(** The input side makes no difference. *)
Lemma session_ok_ext s s' :
  ss_written s' = ss_written s → ss_pipe s' = ss_pipe s → ss_open s' = ss_open s → ss_reader s' = ss_reader s →
  ss_queue s' = ss_queue s → ss_sent s' = ss_sent s → ss_pc s' = ss_pc s → session_ok s → session_ok s'.
Proof.
  intros E1 E2 E3 E4 E5 E6 E7 [A B C D E F].
  split; rewrite ?E1, ?E2, ?E3, ?E4, ?E5, ?E6, ?E7; done.
Qed.

Lemma session_ok_pc p s :
  session_ok s → (∀ st, trailer p st = trailer (ss_pc s) st) ∨ p = PFailed → is_done p = false → is_done (ss_pc s) = false →
  ss_pc s ≠ PFailed →
  (joined p = true → ∀ st, ss_reader s st ≠ Reading) → (drained p = true → ss_queue s = []) → session_ok (set_pc p s).
Proof.
  intros [A B C D E F] Ht Hp Hs Hf Hj Hd. split; cbn; try done.
  - intros st Hnf. destruct Ht as [Ht|]; [|done]. rewrite Ht. by apply A.
  - destruct C as (es & Hm & He). exists es. split; [done|]. destruct (ss_pc s); try done; destruct p; done.
Qed.

(** Sending more while the end is not reached *)
Lemma session_ok_send e s :
  session_ok s → mid e → is_done (ss_pc s) = false → drained (ss_pc s) = false → (∀ st, stream_bytes st [e] = []) →
  session_ok (send e s).
Proof.
  intros [A B C D E F] He Hs Hd Hb. split; cbn; try done.
  - intros st Hnf. destruct (A st Hnf) as (x & H1 & H2). exists x. by rewrite stream_bytes_app, Hb, app_nil_r.
  - destruct C as (es & Hm & Hes). exists (es ++ [e]). split; [by apply Forall_app; split; [|constructor]|].
    destruct (ss_pc s); try done; congruence.
Qed.

Lemma session_ok_chunk st d q s :
  session_ok s → ss_queue s = (st, d) :: q → drained (ss_pc s) = false → session_ok (send_data st d (set_queue q s)).
Proof.
  intros [A B C D E F] Hq Hd. rewrite Hq in B. apply list.Forall_cons in B as [[Hne Hle] B].
  assert (Hs : send_data st d (set_queue q s) = send (Chunk st d) (set_queue q s)) by (by destruct d).
  rewrite Hs. split; cbn; try done.
  - intros st' Hnf. destruct (A st' Hnf) as (x & H1 & H2). rewrite Hq, queue_bytes_cons in H2.
    assert (trailer (ss_pc s) st' = []) as Ht by (destruct (ss_pc s), st'; done).
    rewrite Ht, app_nil_r in *. exists (x ++ stream_bytes st' [Chunk st d]).
    rewrite stream_bytes_app, H1, app_nil_r, <-!app_assoc in *. done.
  - destruct C as (es & Hm & Hes). exists (es ++ [Chunk st d]). split; [by apply Forall_app; split; [|constructor]|].
    destruct (ss_pc s); try done; congruence.
  - rewrite Hd. done.
Qed.

Ltac same_output := eapply session_ok_ext; last eassumption; done.
Ltac moved E := apply session_ok_pc; [done || same_output|try (by right); left|..]; cbn; rewrite ?E; try done.

Lemma session_ok_take a next otherwise s :
  session_ok s → drained (ss_pc s) = false → is_done (ss_pc s) = false → ss_pc s ≠ PFailed →
  (∀ s1, session_ok s1 → ss_pc s1 = ss_pc s → ss_reader s1 = ss_reader s → session_ok (next s1)) →
  (ss_queue s = [] → session_ok (otherwise s)) → session_ok (take_chunk a next otherwise s).
Proof.
  intros Hok Hd Hn Ht H1 H2. unfold take_chunk. destruct (ss_queue s) as [|[st d] q] eqn:Hq; [auto|].
  destruct (an_write_ok a).
  - apply H1; [by apply session_ok_chunk|by destruct d|by destruct d].
  - apply session_ok_pc; try done. by right.
Qed.

Lemma session_ok_input a k flush s :
  session_ok s → ss_pc s = PInput k flush → session_ok (input_step a k flush s).
Proof.
  intros Hok Hp. unfold input_step, write_live_child_stdin, stop_cancelled, set_stdin.
  destruct (ss_input s) as [|[d| | |] r]; cbn.
  - destruct flush, k; moved Hp.
  - destruct (ss_stdin_open s), (an_stdin a); same_output.
  - same_output.
  - destruct flush; moved Hp.
  - moved Hp.
Qed.

Lemma session_ok_final code reason oom s :
  session_ok s → ss_pc s = PExit code reason → session_ok (set_pc (PDone code reason) (send (Exit code oom) s)).
Proof.
  intros [A B C D E F] Hp. rewrite Hp in *. split; cbn; try done.
  - intros st _. destruct (A st) as (x & H1 & H2); [done|]. exists x. rewrite stream_bytes_app. split; [|done].
    change (stream_bytes st [Exit code oom]) with (@nil Z). rewrite app_nil_r, H1. by destruct st.
  - destruct C as (es & Hm & ->). exists es. eauto.
Qed.

Lemma session_ok_message code reason s :
  session_ok s → ss_pc s = PMessage code reason →
  session_ok (set_pc (PExit code reason) (send_data Stderr (message reason) s)).
Proof.
  intros [A B C D E F] Hp. rewrite Hp in *. cbn in *.
  assert (Hq : ss_queue s = []) by auto.
  destruct reason as [r|]; cbn -[message].
  - assert (Hm : mid (Chunk Stderr (message (Some r)))).
    { split; [by destruct r|]. apply Nat2Z.inj_le. by destruct r. }
    assert (Hs : send_data Stderr (message (Some r)) s = send (Chunk Stderr (message (Some r))) s) by (by destruct r).
    rewrite Hs. split; cbn -[message]; try done.
    + intros st _. destruct (A st) as (x & H1 & H2); [done|]. exists x. split; [|done].
      rewrite stream_bytes_app, H1, app_nil_r. destruct st; [by rewrite stream_bytes_other|by rewrite stream_bytes_own].
    + destruct C as (es & Hm' & ->). exists (es ++ [Chunk Stderr (message (Some r))]).
      split; [by apply Forall_app; split; [|constructor]|done].
  - split; cbn; try done. intros st _. destruct (A st) as (x & H1 & H2); [done|]. exists x. by destruct st.
Qed.

Definition no_wait_failure (l : sys_label) : Prop :=
  match l with inl a => match an_wait a with WaitFailed _ => False | _ => True end | _ => True end.

Lemma session_ok_main a s s' :
  no_wait_failure (inl a) → session_ok s → main_step timeout a s = Some s' → session_ok s'.
Proof.
  intros Hw Hok Hstep. unfold main_step in Hstep. destruct (ss_pc s) eqn:Hp; simplify_eq/=.
  - by apply session_ok_input.
  - apply session_ok_take; rewrite ?Hp; try done. intros _. moved Hp.
  - destruct (an_write_ok a); [|moved Hp].
    assert (session_ok (send FlushAck s)) as H1 by (apply session_ok_send; rewrite ?Hp; done).
    destruct cancel; unfold stop_cancelled; destruct k; moved Hp.
  - apply session_ok_take; rewrite ?Hp; try done.
    + intros s1 H1 E1 _. moved E1.
    + intros _. moved Hp.
  - unfold wait_step. cbn in Hw. destruct (an_wait a) as [c|e| |m]; [| | |done].
    + moved Hp.
    + destruct (timeout <=? e); moved Hp.
    + moved Hp.
  - apply session_ok_take; rewrite ?Hp; try done. intros _. moved Hp.
  - destruct (reader_done s Stdout) eqn:H1; [|done]. destruct (reader_done s Stderr) eqn:H2; [|done].
    simplify_eq/=. unfold reader_done in *. moved Hp.
    intros _ []; [by destruct (ss_reader s Stdout)|by destruct (ss_reader s Stderr)].
  - pose proof (ok_joined _ Hok) as Hj. rewrite Hp in Hj.
    apply session_ok_take; rewrite ?Hp; try done. intros. moved Hp; auto.
  - destruct (an_write_ok a); [by apply session_ok_message|]. moved Hp.
  - destruct (an_write_ok a); [by apply session_ok_final|moved Hp].
Qed.

Lemma session_ok_env e s s' : session_ok s → env_step e s = Some s' → session_ok s'.
Proof.
  intros Hok He. pose proof Hok as [A B C D E F]. destruct e as [st d|st|st n|st|st|]; unfold env_step in He.
  - destruct (ss_open s st) eqn:Ho; [|done]. simplify_eq/=. split; cbn; try done.
    + intros st' Hf. destruct (A st' Hf) as (x & H1 & H2). exists x. split; [done|]. unfold upd.
      destruct (decide (st' = st)) as [->|]; [|done]. by rewrite <-H2, <-!app_assoc.
    + intros st' Hr. destruct (D st' Hr) as [Ho' Hpi]. unfold upd. destruct (decide (st' = st)) as [->|]; [congruence|done].
  - simplify_eq/=. split; cbn; try done. intros st' Hr. destruct (D st' Hr). unfold upd. by destruct (decide (st' = st)).
  - destruct (ss_reader s st) eqn:Hr; try done.
    destruct ((0 <? n)%nat && (n <=? STREAM_CHUNK_BYTES)%nat && (n <=? length (ss_pipe s st))%nat) eqn:Hn; [|done].
    apply andb_true_iff in Hn as [[Hn1%Nat.ltb_lt Hn2%Nat.leb_le]%andb_true_iff Hn3%Nat.leb_le].
    simplify_eq/=. split; cbn -[STREAM_CHUNK_BYTES]; try done.
    + intros st' Hf. destruct (A st' Hf) as (x & H1 & H2). exists x. split; [done|].
      rewrite queue_bytes_app, queue_bytes_one, <-H2. unfold upd. destruct (decide (st' = st)) as [->|].
      * by rewrite stream_bytes_own, <-!app_assoc, take_drop.
      * by rewrite stream_bytes_other, <-!app_assoc.
    + apply Forall_app. split; [done|]. constructor; [|done]. split; cbn -[STREAM_CHUNK_BYTES].
      * intros Hnil%(f_equal length). rewrite length_take in Hnil. cbn in Hnil. lia.
      * rewrite length_take. lia.
    + intros st' Hr'. unfold upd. destruct (decide (st' = st)) as [->|]; [congruence|]. by apply D.
    + intros Hd. pose proof (E ltac:(by destruct (ss_pc s)) st). congruence.
  - destruct (ss_reader s st) eqn:Hr, (ss_open s st) eqn:Ho, (ss_pipe s st) eqn:Hpi; try done.
    simplify_eq/=. split; cbn; try done; unfold upd.
    + intros st' Hr'. destruct (decide (st' = st)) as [->|]; [done|by apply D].
    + intros Hj st'. destruct (decide (st' = st)); [done|by apply E].
  - destruct (ss_reader s st) eqn:Hr; try done. simplify_eq/=. split; cbn; try done; unfold upd.
    + intros st' Hr'. destruct (decide (st' = st)) as [->|]; [done|by apply D].
    + intros Hj st'. destruct (decide (st' = st)); [done|by apply E].
  - destruct (ss_monitor s); [|done]. destruct (ss_client s) as [|[ty pl] c]; [simplify_eq/=; same_output|].
    destruct (monitor_frame ty pl). simplify_eq/=. same_output.
Qed.

(** How a session ends: with the child's status, or killed because the time is over or
    because a frame of the client asked for it *)
Definition cancel_asked (client : list (Z * list Z)) : Prop :=
  ∃ f, f ∈ client ∧ (monitor_frame f.1 f.2).1 = Some Cancel.

Definition ended (ls : list sys_label) (client : list (Z * list Z)) (code : Z) (reason : option StreamingStopReason) : Prop :=
  match reason with
  | Some StopCancelled => code = 137 ∧ cancel_asked client
  | Some StopTimeout => code = 137 ∧ ∃ a e, inl a ∈ ls ∧ an_wait a = StillRunning e ∧ timeout ≤ e
  | None => ∃ a, inl a ∈ ls ∧ (an_wait a = ReapedElsewhere ∧ code = 0 ∨ ∃ c, an_wait a = ChildExited c ∧ code = default 1 c)
  end.

Definition pc_ended (ls : list sys_label) (client : list (Z * list Z)) (p : pc) : Prop :=
  match p with
  | PJoin c r | PDrain c r | PMessage c r | PExit c r | PDone c r => ended ls client c r
  | PFlushOut _ true | PFlushAck _ true => cancel_asked client
  | PReaped => ∃ a, inl a ∈ ls ∧ an_wait a = ReapedElsewhere
  | _ => True
  end.

Record end_ok (ls : list sys_label) (client : list (Z * list Z)) (s : session) : Prop := {
  eo_pc : pc_ended ls client (ss_pc s);
  eo_client f : f ∈ ss_client s → f ∈ client;
  eo_input : Cancel ∈ ss_input s → cancel_asked client;
}.

Lemma end_ok_pc ls client p s : end_ok ls client s → pc_ended ls client p → end_ok ls client (set_pc p s).
Proof. by intros [A B C] Hp. Qed.

Lemma end_ok_ext ls client s s' : ss_pc s' = ss_pc s → ss_client s' = ss_client s → ss_input s' = ss_input s →
  end_ok ls client s → end_ok ls client s'.
Proof. intros E1 E2 E3 [A B C]. split; rewrite ?E1, ?E2, ?E3; done. Qed.

Lemma end_ok_take ls client a next otherwise s :
  end_ok ls client s → (∀ s1, end_ok ls client s1 → ss_pc s1 = ss_pc s → end_ok ls client (next s1)) →
  end_ok ls client (otherwise s) → end_ok ls client (take_chunk a next otherwise s).
Proof.
  intros Hs H1 H2. unfold take_chunk. destruct (ss_queue s) as [|[st d] q]; [done|].
  destruct (an_write_ok a); [|by apply end_ok_pc]. apply H1; [|by destruct d].
  eapply end_ok_ext, Hs; by destruct d.
Qed.

Lemma end_ok_step ls client l s s' :
  no_wait_failure l ∧ l ∈ ls → end_ok ls client s → session_step timeout l s = Some s' → end_ok ls client s'.
Proof.
  intros [Hw Hl] Hok Hstep. pose proof Hok as [A B C]. destruct l as [a|e]; cbn [session_step] in Hstep.
  - unfold main_step in Hstep. destruct (ss_pc s) eqn:Hp; simplify_eq/=.
    + unfold input_step, write_live_child_stdin, stop_cancelled.
      destruct (ss_input s) as [|[d| | |] r] eqn:Hi; cbn.
      * by destruct flush; [|destruct k]; split; cbn; rewrite ?Hi.
      * destruct (ss_stdin_open s), (an_stdin a); split; cbn; rewrite ?Hp; try done; intros; apply C; by constructor.
      * split; cbn; rewrite ?Hp; try done. intros; apply C; by constructor.
      * destruct flush; split; cbn; try done; try (split; [done|]); intros; apply C; by constructor.
      * split; cbn; try done. intros; apply C; by constructor.
    + apply end_ok_take; [done|by intros|by apply end_ok_pc].
    + destruct (an_write_ok a); [|by apply end_ok_pc]. destruct cancel; [|by destruct k]. by split; cbn.
    + apply end_ok_take; [done|by intros; apply end_ok_pc|by apply end_ok_pc].
    + unfold wait_step. cbn in Hw. destruct (an_wait a) as [c|el| |m] eqn:Ha; [| | |done].
      * apply end_ok_pc; [done|]. cbn. eauto 10.
      * destruct (Z.leb_spec timeout el); [|by apply end_ok_pc]. split; cbn; eauto 10.
      * apply end_ok_pc; [done|]. cbn. eauto.
    + apply end_ok_take; [done|by intros|apply end_ok_pc; [done|]]. destruct A as (a' & ? & ?). cbn. eauto 10.
    + destruct (reader_done s Stdout && reader_done s Stderr); [|done]. simplify_eq. by apply end_ok_pc.
    + apply end_ok_take; [done|by intros|by apply end_ok_pc].
    + destruct (an_write_ok a); [|by apply end_ok_pc]. apply end_ok_pc; [|done].
      eapply end_ok_ext, Hok; by destruct reason as [[]|].
    + destruct (an_write_ok a); [|by apply end_ok_pc]. by split.
  - destruct e as [st d|st|st n|st|st|]; unfold env_step in Hstep.
    + destruct (ss_open s st); simplify_eq. by split.
    + simplify_eq. by split.
    + destruct (ss_reader s st); try done. case_match; simplify_eq. by split.
    + destruct (ss_reader s st), (ss_open s st), (ss_pipe s st); simplify_eq. by split.
    + destruct (ss_reader s st); simplify_eq. by split.
    + destruct (ss_monitor s); [|done]. destruct (ss_client s) as [|[ty pl] c] eqn:Hc; [by simplify_eq; split|].
      destruct (monitor_frame ty pl) as [ev go] eqn:Hm. simplify_eq/=. split; cbn; [done|by intros; apply B; constructor|].
      intros [Hi|Hi]%elem_of_app; [by apply C|]. destruct ev as [ev|]; cbn in Hi; [|by apply not_elem_of_nil in Hi].
      apply list_elem_of_singleton in Hi as <-. exists (ty, pl). split; [apply B; constructor|]. cbn. by rewrite Hm.
Qed.
End sessions.

Arguments queue_bytes : simpl never.

Section delivered.
Context `{TL : !Transport} `{EC : !ExecCodec} `{TLL : !TransportLaws} `{ECL : !ExecCodecLaws}.

Lemma session_ok_run timeout d str client ls s :
  session_run timeout ls (new_session d str client) = Some s → Forall no_wait_failure ls → session_ok s.
Proof.
  intros Hr Hw. refine (run_invariant timeout no_wait_failure session_ok _ ls _ s Hw (session_ok_new _ _ _) Hr).
  intros [a|e] s1 s2 Hl H1 H2; [by eapply session_ok_main|by eapply session_ok_env].
Qed.

Lemma end_ok_run timeout d str client ls s :
  session_run timeout ls (new_session d str client) = Some s → Forall no_wait_failure ls →
  end_ok timeout ls client s.
Proof.
  intros Hr Hw. refine (run_invariant timeout (λ l, no_wait_failure l ∧ l ∈ ls) (end_ok timeout ls client) _ ls _ s _ _ Hr).
  - intros. by eapply end_ok_step.
  - apply list.Forall_forall. intros l Hl. by rewrite list.Forall_forall in Hw; auto.
  - split; cbn; [done|done|by intros ?%not_elem_of_nil].
Qed.

(** C12: A streamed command arrives whole.  However the child, the readers of its two
    pipes, the monitor of the client and the main loop interleave, a session that gets to
    its end has sent what the host's client collects as exactly the bytes the processes
    wrote, per stream and in order, followed by the reason when it was stopped, and one
    exit: 137 after the timeout or a request to stop, the child's status when the wait
    returned it (1 for a signal), and 0 when the child turned out to be reaped elsewhere
    (ECHILD).  Conditions: no wait fails in another way, both readers reach the end of
    their pipe without a read error, and a stream has less than 2^64 - 64 bytes. *)
Theorem stream_exact timeout stdin str client ls s code reason :
  session_run timeout ls (new_session stdin str client) = Some s → ss_pc s = PDone code reason →
  Forall no_wait_failure ls → (∀ st, ss_reader s st ≠ Broken) →
  (∀ st, Z.of_nat (length (ss_written s st)) + 64 < 2 ^ 64) →
  ended timeout ls client code reason ∧
  ∃ c, collect (exec_stream (foldl write_event [] (ss_sent s))) =
       Some (Ok ({| eo_stdout := ss_written s Stdout; eo_stderr := ss_written s Stderr ++ message reason;
                    eo_exit_code := code |}, c)) ∧
    se_stdout_bytes c = Z.of_nat (length (ss_written s Stdout)) ∧
    se_stderr_bytes c = Z.of_nat (length (ss_written s Stderr ++ message reason)).
Proof.
  intros Hr Hp Hw Hb Hlen. split.
  { pose proof (eo_pc _ _ _ _ (end_ok_run _ _ _ _ _ _ Hr Hw)) as H. by rewrite Hp in H. }
  destruct (session_ok_run _ _ _ _ _ _ Hr Hw) as [A B C D E F]. rewrite Hp in *.
  destruct C as (es & Hm & oom & Hs). specialize (F eq_refl).
  assert (Hby : ∀ st, stream_bytes st es = ss_written s st ++ trailer (PDone code reason) st).
  { intros st. destruct (A st) as (x & H1 & H2); [done|]. destruct (D st) as [_ Hpi].
    { specialize (E eq_refl st). specialize (Hb st). by destruct (ss_reader s st). }
    rewrite F, Hpi in H2. cbn in H2. rewrite app_nil_r in H2. subst x.
    rewrite Hs, stream_bytes_app in H1. change (stream_bytes st [Exit code oom]) with (@nil Z) in H1.
    by rewrite app_nil_r in H1. }
  assert (Hsend : Forall sendable (es ++ [Exit code oom])).
  { apply Forall_app. split; [|by constructor]. eapply list.Forall_impl; [exact Hm|]. apply mid_sendable. }
  rewrite Hs, wire_app by done. cbn [app]. unfold collect, exec_stream. cbn [se_in].
  pose proof (Hlen Stdout) as L1. pose proof (Hlen Stderr) as L2.
  assert (length (message reason) ≤ 64)%nat as L3 by (destruct reason as [[]|]; vm_compute; lia).
  edestruct (collect_reads es code oom (S (length (foldr (λ e bs, write_event [] e ++ bs) [] (es ++ [Exit code oom]))))
    {| eo_stdout := []; eo_stderr := []; eo_exit_code := -1 |} 0 0) as (c & -> & _ & H1 & H2); try done.
  - pose proof (wire_length (es ++ [Exit code oom]) Hsend) as Hl. rewrite length_app in Hl. cbn [length] in Hl. lia.
  - rewrite Hby. cbn [trailer]. rewrite app_nil_r. lia.
  - rewrite Hby. cbn [trailer]. rewrite length_app. lia.
  - exists c. unfold add_output. cbn [eo_stdout eo_stderr app]. rewrite H1, H2, !Hby. cbn [trailer].
    by rewrite app_nil_r, !Z.add_0_l.
Qed.

(** *** A flush *)

Definition as_chunks (q : list (StreamType * list Z)) : list ExecEvent := (λ c, Chunk c.1 c.2) <$> q.

(** What follows a request to flush, taken when [sent] was sent and [q] was queued: the queue
    is being sent, or it is sent, or it is sent and acknowledged (or the connection is lost). *)
Definition flushing (sent : list ExecEvent) (q : list (StreamType * list Z)) (s : session) : Prop :=
  (∃ k b x, (ss_pc s = PInput k true ∨ ss_pc s = PFlushOut k b) ∧
     ∃ q1 q2, q = q1 ++ q2 ∧ ss_sent s = sent ++ as_chunks q1 ∧ ss_queue s = q2 ++ x) ∨
  (∃ k b x, (ss_pc s = PFlushOut k b ∨ ss_pc s = PFlushAck k b) ∧ ss_sent s = sent ++ as_chunks q ++ x) ∨
  (∃ x y, ss_sent s = sent ++ as_chunks q ++ x ++ FlushAck :: y) ∨
  ss_pc s = PFailed.

Lemma main_sent timeout a s s' : main_step timeout a s = Some s' → ∃ x, ss_sent s' = ss_sent s ++ x.
Proof.
  assert (Htake : ∀ next otherwise, (∀ s, ss_sent (next s) = ss_sent s) → (∀ s, ss_sent (otherwise s) = ss_sent s) →
    ∃ x, ss_sent (take_chunk a next otherwise s) = ss_sent s ++ x).
  { intros next otherwise H1 H2. unfold take_chunk. destruct (ss_queue s) as [|[st [|b d]] q].
    - exists []. by rewrite H2, app_nil_r.
    - destruct (an_write_ok a); [rewrite H1|]; exists []; by rewrite app_nil_r.
    - destruct (an_write_ok a); [rewrite H1; by eexists|]. exists []. by rewrite app_nil_r. }
  assert (Hnone : ∀ s1, ss_sent s1 = ss_sent s → ∃ x, ss_sent s1 = ss_sent s ++ x)
    by (intros s1 ->; exists []; by rewrite app_nil_r).
  intros Hstep. unfold main_step in Hstep. destruct (ss_pc s); simplify_eq/=; try (by apply Htake); try done.
  - unfold input_step, write_live_child_stdin, stop_cancelled.
    destruct (ss_input s) as [|[]]; cbn; try (by apply Hnone);
      [destruct (ss_stdin_open s), (an_stdin a)|destruct flush]; by apply Hnone.
  - destruct (an_write_ok a); [destruct cancel|]; cbn; [by eexists..|]. by apply Hnone.
  - unfold wait_step. destruct (an_wait a) as [?|e| |m]; [by apply Hnone| |by apply Hnone|].
    + destruct (timeout <=? e); by apply Hnone.
    + destruct (an_write_ok a); [|by apply Hnone]. destruct m; [by apply Hnone|]. cbn. by eexists.
  - destruct (reader_done s Stdout && reader_done s Stderr); [|done]. simplify_eq. by apply Hnone.
  - destruct (an_write_ok a); [|by apply Hnone]. destruct (message reason); [by apply Hnone|]. cbn. by eexists.
  - destruct (an_write_ok a); [by eexists|by apply Hnone].
Qed.

(** The other threads send nothing and leave the main loop where it is; the queue grows. *)
Lemma env_frame e s s' : env_step e s = Some s' →
  ss_sent s' = ss_sent s ∧ ss_pc s' = ss_pc s ∧ ∃ x, ss_queue s' = ss_queue s ++ x.
Proof.
  assert (∀ q : list (StreamType * list Z), ∃ x, q = q ++ x) as Hq by (intros q; exists []; by rewrite app_nil_r).
  intros He. destruct e as [st d|st|st n|st|st|]; unfold env_step in He; repeat case_match; simplify_eq/=; eauto.
Qed.

Lemma flushing_main timeout sent q a s s' : Forall chunk_ok (ss_queue s) →
  flushing sent q s → main_step timeout a s = Some s' → flushing sent q s'.
Proof.
  intros Hc [(k & b & x & Hp & q1 & q2 & -> & Hs & Hq)|[(k & b & x & Hp & Hs)|[(x & y & Hs)|Hp]]] Hstep.
  - destruct Hp as [Hp|Hp]; unfold main_step in Hstep; rewrite Hp in Hstep; simplify_eq/=.
    + left. unfold input_step, write_live_child_stdin. destruct (ss_input s) as [|[d| | |] r]; cbn.
      * exists k, false, x. eauto 10.
      * exists k, b, x. destruct (ss_stdin_open s), (an_stdin a); cbn; eauto 10.
      * exists k, b, x. eauto 10.
      * exists k, true, x. eauto 10.
      * exists k, b, x. eauto 10.
    + unfold take_chunk. rewrite Hq in *. destruct q2 as [|[st d] q2]; cbn in *.
      * rewrite app_nil_r. destruct x as [|[st d] x].
        -- right; left. exists k, b, []. cbn. rewrite app_nil_r. auto.
        -- destruct (an_write_ok a); [|by right; right; right]. right; left.
           apply list.Forall_cons in Hc as [[Hne _] _]. destruct d as [|z d]; [done|]. cbn.
           eexists k, b, _. rewrite Hs, <-app_assoc. auto.
      * destruct (an_write_ok a); [|by right; right; right]. left.
        apply list.Forall_cons in Hc as [[Hne _] _]. destruct d as [|z d]; [done|]. cbn.
        exists k, b, x. split; [auto|]. exists (q1 ++ [(st, z :: d)]), q2. rewrite <-app_assoc. split; [done|].
        rewrite Hs. unfold as_chunks. rewrite fmap_app, app_assoc. done.
  - destruct Hp as [Hp|Hp]; unfold main_step in Hstep; rewrite Hp in Hstep; simplify_eq/=.
    + unfold take_chunk. destruct (ss_queue s) as [|[st d] r]; [right; left; exists k, b, x; cbn; auto|].
      destruct (an_write_ok a); [|by right; right; right]. right; left.
      apply list.Forall_cons in Hc as [[Hne _] _]. destruct d as [|z d]; [done|]. cbn.
      exists k, b, (x ++ [Chunk st (z :: d)]). rewrite Hs, <-!app_assoc. auto.
    + destruct (an_write_ok a); [|by right; right; right]. right; right; left. exists x, [].
      destruct b; cbn; rewrite Hs, <-!app_assoc; done.
  - right; right; left. destruct (main_sent _ _ _ _ Hstep) as [z Hz]. exists x, (y ++ z).
    rewrite Hz, Hs, <-!app_assoc. done.
  - unfold main_step in Hstep. by rewrite Hp in Hstep.
Qed.

Lemma flushing_env sent q e s s' : flushing sent q s → env_step e s = Some s' → flushing sent q s'.
Proof.
  intros Hf He. destruct (env_frame _ _ _ He) as (Hs & Hp & z & Hq). unfold flushing. rewrite Hs, Hp, Hq.
  destruct Hf as [(k & b & x & Hpc & q1 & q2 & Hqq & Hss & Hqs)|Hrest]; [|by right].
  left. exists k, b, (x ++ z). split; [done|]. exists q1, q2. by rewrite Hqs, <-app_assoc.
Qed.

(** An acknowledged flush is a boundary.  When the main loop takes a request to flush, all
    pieces of output that were sent or queued by then come before the acknowledgement in what
    the client receives, in their order, and the session sends that acknowledgement before it
    ends. *)
Theorem flush_boundary timeout stdin str client ls1 ls2 a k flush r s1 s2 s3 code reason :
  session_run timeout ls1 (new_session stdin str client) = Some s1 → Forall no_wait_failure ls1 →
  ss_pc s1 = PInput k flush → ss_input s1 = Flush :: r → main_step timeout a s1 = Some s2 →
  session_run timeout ls2 s2 = Some s3 → Forall no_wait_failure ls2 → ss_pc s3 = PDone code reason →
  ∃ x y, ss_sent s3 = ss_sent s1 ++ as_chunks (ss_queue s1) ++ x ++ FlushAck :: y.
Proof.
  intros H1 W1 Hp Hi Hstep H2 W2 Hd.
  assert (Hok1 : session_ok s1) by (by eapply session_ok_run).
  assert (Hf2 : flushing (ss_sent s1) (ss_queue s1) s2).
  { unfold main_step in Hstep. rewrite Hp in Hstep. unfold input_step in Hstep. rewrite Hi in Hstep. simplify_eq/=.
    left. exists k, true, []. split; [by left|]. exists [], (ss_queue s1). cbn. by rewrite !app_nil_r. }
  assert (Hok2 : session_ok s2).
  { unfold main_step in Hstep. rewrite Hp in Hstep. simplify_eq. by apply session_ok_input. }
  destruct (run_invariant timeout no_wait_failure (λ s, session_ok s ∧ flushing (ss_sent s1) (ss_queue s1) s))
    with (ls := ls2) (s := s2) (s' := s3) as [_ Hf3]; try done.
  { intros [a'|e] u u' Hl [Ho Hf] Hu; cbn in Hu; split.
    - by eapply session_ok_main.
    - eapply flushing_main; [by apply ok_queue|done..].
    - by eapply session_ok_env.
    - by eapply flushing_env. }
  destruct Hf3 as [(?&?&?&[Hx|Hx]&_)|[(?&?&?&[Hx|Hx]&_)|[Hx|Hx]]]; congruence.
Qed.

(** *** Standard input *)

(** What the client asked to be written before it closed the input or stopped the command *)
Fixpoint pending (es : list ExecInputEvent) : list Z :=
  match es with
  | [] | StdinClose :: _ | Cancel :: _ => []
  | Stdin d :: es => d ++ pending es
  | Flush :: es => pending es
  end.

Fixpoint client_events (fs : list (Z * list Z)) : list ExecInputEvent :=
  match fs with
  | [] => []
  | (ty, payload) :: fs =>
      let '(e, go) := monitor_frame ty payload in
      from_option (λ e, [e]) [] e ++ (if go : bool then client_events fs else [])
  end.

Definition requested (fs : list (Z * list Z)) : list Z := pending (client_events fs).

Definition to_come (s : session) : list Z :=
  pending (ss_input s ++ (if ss_monitor s then client_events (ss_client s) else [])).

(** The loop may still take input *)
Definition looping (p : pc) : bool :=
  match p with PInput _ _ | PFlushOut _ false | PFlushAck _ false | PRecv | PWait => true | _ => false end.

Definition stdin_works (l : sys_label) : Prop := match l with inl a => an_stdin a = None | _ => True end.

Record stdin_ok (all : list Z) (s : session) : Prop := {
  so_prefix : ss_stdin s `prefix_of` all;
  so_open : ss_stdin_open s = true → looping (ss_pc s) = true → ss_stdin s ++ to_come s = all;
  so_closed : ss_stdin_open s = false → ss_stdin s = all;
}.

Lemma stdin_ok_ext all s s' : ss_stdin s' = ss_stdin s → ss_stdin_open s' = ss_stdin_open s → ss_input s' = ss_input s →
  ss_monitor s' = ss_monitor s → ss_client s' = ss_client s → (looping (ss_pc s') = true → looping (ss_pc s) = true) →
  stdin_ok all s → stdin_ok all s'.
Proof. intros E1 E2 E3 E4 E5 E6 [A B C]. unfold to_come in *. split; unfold to_come; rewrite ?E1, ?E2, ?E3, ?E4, ?E5; auto. Qed.

Lemma stdin_ok_take all a next otherwise s : stdin_ok all s →
  (∀ s1, stdin_ok all s1 → ss_pc s1 = ss_pc s → stdin_ok all (next s1)) → stdin_ok all (otherwise s) →
  stdin_ok all (take_chunk a next otherwise s).
Proof.
  intros Hs H1 H2. unfold take_chunk. destruct (ss_queue s) as [|[st d] q]; [done|].
  destruct (an_write_ok a); [|by eapply stdin_ok_ext, Hs]. apply H1; [|by destruct d].
  eapply stdin_ok_ext, Hs; by destruct d.
Qed.

Lemma stdin_ok_input all a k flush s : an_stdin a = None → stdin_ok all s → ss_pc s = PInput k flush →
  stdin_ok all (input_step a k flush s).
Proof.
  intros Hw Hok Hp. pose proof Hok as [A B C]. unfold input_step, write_live_child_stdin, stop_cancelled.
  rewrite Hp in B. unfold to_come in B. destruct (ss_input s) as [|[d| | |] r] eqn:Hi; cbn -[pending] in B |- *.
  - eapply stdin_ok_ext, Hok; try done. by rewrite Hp.
  - rewrite Hw. destruct (ss_stdin_open s) eqn:Ho.
    + specialize (B eq_refl eq_refl). cbn in B. split; unfold to_come; cbn; try done.
      * rewrite <-B, app_assoc. by apply prefix_app_r.
      * intros _ _. by rewrite <-B, <-app_assoc.
    + split; unfold to_come; cbn; try done; rewrite ?Ho; auto; congruence.
  - split; unfold to_come; cbn; try done. intros _. destruct (ss_stdin_open s); [|by apply C].
    rewrite <-(B eq_refl eq_refl). cbn. by rewrite app_nil_r.
  - destruct flush; split; unfold to_come; cbn; done.
  - by split; unfold to_come; cbn.
Qed.

Lemma stdin_ok_step timeout all l s s' :
  stdin_works l → stdin_ok all s → session_step timeout l s = Some s' → stdin_ok all s'.
Proof.
  intros Hw Hok Hstep. destruct l as [a|e]; cbn [session_step] in Hstep.
  - cbn in Hw. unfold main_step in Hstep. destruct (ss_pc s) eqn:Hp; simplify_eq/=.
    + by apply stdin_ok_input.
    + apply stdin_ok_take; [done|by intros|]. eapply stdin_ok_ext, Hok; try done. by rewrite Hp; destruct cancel.
    + destruct (an_write_ok a); [|by eapply stdin_ok_ext, Hok].
      destruct cancel; eapply stdin_ok_ext, Hok; try done; rewrite Hp; by destruct k.
    + apply stdin_ok_take; [done| |].
      * intros s1 H1 E1. eapply stdin_ok_ext, H1; try done. by rewrite E1, Hp.
      * eapply stdin_ok_ext, Hok; try done. by rewrite Hp.
    + unfold wait_step. destruct (an_wait a) as [c|el| |m].
      * by eapply stdin_ok_ext, Hok.
      * destruct (timeout <=? el); eapply stdin_ok_ext, Hok; try done; by rewrite Hp.
      * by eapply stdin_ok_ext, Hok.
      * destruct (an_write_ok a); [|by eapply stdin_ok_ext, Hok]. eapply stdin_ok_ext, Hok; by destruct m.
    + apply stdin_ok_take; [done|by intros|]. by eapply stdin_ok_ext, Hok.
    + destruct (reader_done s Stdout && reader_done s Stderr); [|done]. simplify_eq. by eapply stdin_ok_ext, Hok.
    + apply stdin_ok_take; [done|by intros|]. by eapply stdin_ok_ext, Hok.
    + destruct (an_write_ok a); [|by eapply stdin_ok_ext, Hok]. eapply stdin_ok_ext, Hok; by destruct (message reason).
    + destruct (an_write_ok a); by eapply stdin_ok_ext, Hok.
  - destruct e as [st d|st|st n|st|st|]; unfold env_step in Hstep;
      try (repeat case_match; simplify_eq/=; by eapply stdin_ok_ext, Hok).
    destruct (ss_monitor s) eqn:Hm; [|done]. destruct Hok as [A B C]. unfold to_come in B. rewrite Hm in B.
    destruct (ss_client s) as [|[ty pl] c] eqn:Hc; cbn in B.
    + simplify_eq/=. split; unfold to_come; cbn; auto.
    + destruct (monitor_frame ty pl) as [ev go] eqn:Hf. simplify_eq/=. split; unfold to_come; cbn; auto.
      rewrite <-app_assoc. auto.
Qed.

(** The command reads what the client wrote.  While its input is a pipe and takes what is
    written, the command has been given, in order, the data of the request followed by the
    bytes of the client's data frames up to the frame that closed the input or stopped the
    command: a prefix of them at any time, all of them once the input is closed. *)
Theorem stdin_exact timeout data client ls s :
  session_run timeout ls (new_session data true client) = Some s → Forall stdin_works ls →
  ss_stdin s `prefix_of` default [] data ++ requested client ∧
  (ss_stdin_open s = false → ss_stdin s = default [] data ++ requested client).
Proof.
  intros Hr Hw.
  assert (stdin_ok (default [] data ++ requested client) s) as [A B C]; [|done].
  refine (run_invariant timeout stdin_works (stdin_ok _) _ ls _ s Hw _ Hr).
  - intros. by eapply stdin_ok_step.
  - split; cbn; try done. by apply prefix_app_r.
Qed.

(** A graceful stop reaches the main process: the signal the host asks for is the one the
    guest delivers, and the host learns that it was delivered. *)
Lemma signal_main_delivered pid sig jerr e :
  0 < pid → 0 < sig < 64 →
  handle_exec_connection pid jerr {| incoming := signal_main_request sig; ending := e |}
  = Ok (SignalMain (Some (pid, sig)) (ft FControl) EXEC_SIGNAL_MAIN_ACK) ∧
  signal_main_acked (write_exec_frame [] (ft FControl) EXEC_SIGNAL_MAIN_ACK) = true.
Proof.
  intros Hp Hs. split.
  - assert (Hfin : ∀ n, (0 < n < 64)%nat → let p := as_bytes (EXEC_CONTROL_SIGNAL_MAIN +:+ show_int (Z.of_nat n)) in
      starts_with EXEC_CONTROL_SIGNAL_MAIN (of_bytes p) = true ∧
      requested_signal (of_bytes (drop (String.length EXEC_CONTROL_SIGNAL_MAIN) p)) = Z.of_nat n ∧
      Z.of_nat (length p) ≤ MAX_FRAME).
    { intros n Hn. assert (forallb (λ n, let p := as_bytes (EXEC_CONTROL_SIGNAL_MAIN +:+ show_int (Z.of_nat n)) in
        starts_with EXEC_CONTROL_SIGNAL_MAIN (of_bytes p) &&
        (requested_signal (of_bytes (drop (String.length EXEC_CONTROL_SIGNAL_MAIN) p)) =? Z.of_nat n) &&
        (Z.of_nat (length p) <=? MAX_FRAME)) (seq 1 63) = true) as Hall by (vm_compute; reflexivity).
      rewrite forallb_forall in Hall. specialize (Hall n ltac:(apply in_seq; lia)). cbv zeta in Hall |- *.
      apply andb_true_iff in Hall as [[H1 H2%Z.eqb_eq]%andb_true_iff H3%Z.leb_le]. done. }
    destruct (Hfin (Z.to_nat sig) ltac:(lia)) as (H1 & H2 & H3). rewrite Z2Nat.id in * by lia. cbv zeta in *.
    unfold handle_exec_connection, signal_main_request.
    rewrite <-(app_nil_r (write_exec_frame _ _ _)), read_exec_frame_cons by done.
    assert (Hne : ∀ t, t ≠ FControl → (ft FControl =? ft t) = false).
    { intros t Ht. apply Z.eqb_neq. intros Heq%ft_inj. congruence. }
    rewrite !Hne by done. cbn [negb]. rewrite Z.eqb_refl, H1, H2. cbn [andb]. unfold signal_main_process.
    by rewrite (proj2 (Z.ltb_lt 0 pid)).
  - unfold signal_main_acked. rewrite <-(app_nil_r (write_exec_frame _ _ _)), tr_read_frame by done. done.
Qed.
End delivered.

(** ** A concrete transport and codec *)

Definition frame_code (t : frame_type) : Z :=
  match t with FData => 1 | FControl => 2 | FHeartbeat => 3 | FError => 4 | FClose => 5 end.

Definition frame_of_code (n : Z) : option frame_type :=
  if n =? 1 then Some FData else if n =? 2 then Some FControl else if n =? 3 then Some FHeartbeat
  else if n =? 4 then Some FError else if n =? 5 then Some FClose else None.

Definition plain_read (bs : list Z) : tr_answer :=
  match read_exec_frame {| incoming := bs; ending := None |} with
  | (r, Ok (Some (ty, p))) =>
      match frame_of_code ty with Some t => TrFrame t p (incoming r) | None => TrFail end
  | (_, Ok None) => TrEof
  | (_, Err _) => TrFail
  end.

#[local] Instance plain_transport : Transport := {| ft := frame_code; tr_read := plain_read |}.

#[local] Instance plain_transport_laws : TransportLaws.
Proof.
  split.
  - by intros [] [].
  - intros t p rest Hp. unfold tr_read, plain_transport, plain_read. rewrite read_exec_frame_cons by done. by destruct t.
  - reflexivity.
Qed.

Definition request_tuple (r : ExecRequest) :=
  (er_cmd r, er_timeout_ns r, er_env r, er_working_dir r, er_rootfs r, er_stdin r, er_stdin_streaming r, er_user r, er_streaming r).
Definition tuple_request t : ExecRequest :=
  let '(c, ti, e, w, r, i, live, u, s) := t in
  {| er_cmd := c; er_timeout_ns := ti; er_env := e; er_working_dir := w; er_rootfs := r; er_stdin := i;
     er_stdin_streaming := live; er_user := u; er_streaming := s |}.

Definition bit (b : bool) : Z := if b then 1 else 0.

#[local] Instance plain_codec : ExecCodec := {|
  request_from_slice l := match l with [Zpos p] => tuple_request <$> decode p | _ => None end;
  request_to_vec r := [Zpos (encode (request_tuple r))];
  output_to_vec o := eo_exit_code o :: Z.of_nat (length (eo_stdout o)) :: eo_stdout o ++ eo_stderr o;
  output_from_slice l :=
    match l with
    | c :: n :: d => Some {| eo_stdout := take (Z.to_nat n) d; eo_stderr := drop (Z.to_nat n) d; eo_exit_code := c |}
    | _ => None
    end;
  chunk_to_vec s d := bit (bool_decide (s = Stderr)) :: d;
  chunk_from_slice l :=
    match l with n :: d => Some (if n =? 1 then Stderr else Stdout, d) | [] => None end;
  exec_exit_to_vec c o := [c; bit o];
  exec_exit_from_slice l := match l with [c; o] => Some (c, o =? 1) | _ => None end |}.

#[local] Instance plain_codec_laws : ExecCodecLaws.
Proof.
  split.
  - intros []. cbn. by rewrite decode_encode.
  - intros []. cbn. rewrite Nat2Z.id. by rewrite take_app_length, drop_app_length.
  - by intros [] d.
  - intros. cbn. lia.
  - by intros c [].
  - by intros c o.
  - intros. cbn. lia.
Qed.

Definition fine : answer := {| an_wait := StillRunning 0; an_stdin := None; an_write_ok := true; an_oom := false |}.
Definition gone (code : Z) : answer := {| an_wait := ChildExited (Some code); an_stdin := None; an_write_ok := true; an_oom := false |}.

Definition demo_client : list (Z * list Z) :=
  [(frame_code FData, [5; 6]); (frame_code FControl, EXEC_CONTROL_FLUSH); (frame_code FControl, EXEC_CONTROL_STDIN_CLOSE)].

(** Input and a flush arrive while the child writes to both streams. *)
Definition demo_before : list sys_label :=
  [inr (Writes Stdout [1; 2]); inr (Reads Stdout 2); inr Monitor; inr Monitor; inl fine].
Definition demo_after : list sys_label :=
  [inr Monitor; inr (Writes Stderr [9]); inl fine; inl fine; inl fine; inl fine; inr (Reads Stderr 1); inl fine; inl fine;
   inl fine; inl (gone 3); inr (Writes Stdout [4]); inr (Closes Stdout); inr (Closes Stderr); inr (Reads Stdout 1);
   inr (ReadsEof Stdout); inr (ReadsEof Stderr); inl fine; inl fine; inl fine; inl fine; inl fine].

Definition demo_start : session := new_session (Some [7]) true demo_client.
Definition demo_at : session := default demo_start (session_run 1000 demo_before demo_start).
Definition demo_flush : session := default demo_start (main_step 1000 fine demo_at).
Definition demo_end : session := default demo_start (session_run 1000 demo_after demo_flush).

Lemma stream_exact_witness :
  ss_pc demo_end = PDone 3 None ∧
  ∃ c, collect (exec_stream (foldl write_event [] (ss_sent demo_end))) =
       Some (Ok ({| eo_stdout := [1; 2; 4]; eo_stderr := [9]; eo_exit_code := 3 |}, c)).
Proof.
  split; [by vm_compute|].
  destruct (stream_exact 1000 (Some [7]) true demo_client (demo_before ++ inl fine :: demo_after) demo_end 3 None)
    as (_ & c & Hc & _ & _).
  - vm_compute. reflexivity.
  - vm_compute. reflexivity.
  - unfold demo_before, demo_after. cbn [app]. repeat (constructor; [exact I|]). constructor.
  - intros []; vm_compute; discriminate.
  - intros []; vm_compute; reflexivity.
  - exists c. exact Hc.
Defined.

Lemma flush_boundary_witness :
  ∃ x y, ss_sent demo_end = [] ++ [Chunk Stdout [1; 2]] ++ x ++ FlushAck :: y.
Proof.
  apply (flush_boundary 1000 (Some [7]) true demo_client demo_before demo_after fine First false [] demo_at demo_flush demo_end 3 None).
  - vm_compute. reflexivity.
  - unfold demo_before. repeat (constructor; [exact I|]). constructor.
  - vm_compute. reflexivity.
  - vm_compute. reflexivity.
  - vm_compute. reflexivity.
  - vm_compute. reflexivity.
  - unfold demo_after. repeat (constructor; [exact I|]). constructor.
  - vm_compute. reflexivity.
Defined.

Lemma stdin_exact_witness : ss_stdin_open demo_end = false ∧ ss_stdin demo_end = [7; 5; 6].
Proof.
  split; [by vm_compute|].
  destruct (stdin_exact 1000 (Some [7]) demo_client (demo_before ++ inl fine :: demo_after) demo_end) as [_ Hall].
  - vm_compute. reflexivity.
  - unfold demo_before, demo_after. cbn [app]. repeat (constructor; [exact I || reflexivity|]). constructor.
  - apply Hall. vm_compute. reflexivity.
Defined.

(** The status of a child that was reaped elsewhere is reported as success, and death by a
    signal as 1. *)
Lemma reaped_reports_success s :
  ss_pc s = PReaped → ss_queue s = [] → main_step 1000 fine s = Some (set_pc (PJoin 0 None) s).
Proof. intros Hp Hq. unfold main_step, take_chunk. by rewrite Hp, Hq. Qed.
