(* ===== verification/ExecCommand.v ===== *)
(** * ExecCommand: the command of an exec request

    [guest/init/src/exec_server.rs] ([build_command] and what it calls, [execute_command]) and
    [guest/init/src/cgroup.rs].  The file system of the guest is a class of questions and of
    mount operations; what is done to it is also kept as a list.  The child of a one-shot
    command is the output it still has to write, with two pipes of limited size. *)

From Stdlib Require Import ZArith Lia Ascii.
From stdpp Require Import base gmap strings list numbers.
From S2P Require Import Prelude RustStr Text Pty Lifecycle Cri Streaming Logs Security Confine ExecServer.

Local Open Scope string_scope.
Local Open Scope list_scope.
Local Open Scope Z_scope.

(** ** The security entries of the environment *)

(** The first entry with the prefix *)
Fixpoint find_entry (prefix : string) (env : list string) : option string :=
  match env with
  | [] => None
  | e :: env => match strip_prefix prefix e with Some v => Some v | None => find_entry prefix env end
  end.

Definition has_entry (entry : string) (env : list string) : bool := existsb (λ e, bool_decide (e = entry)) env.

Definition csv_names (csv : string) : list string :=
  List.filter (λ n, negb (is_empty n)) (trim <$> split "," csv).

Definition csv_gids (csv : string) : list Z := omap (λ g, parse_uint 32 (trim g)) (split "," csv).

Definition parse_sec_mem_limit (env : list string) : option Z :=
  v ← find_entry "A3S_SEC_MEM_LIMIT=" env;
  n ← parse_uint 64 (trim v);
  if 0 <? n then Some n else None.

Definition parse_sec_int (env : list string) (prefix : string) : option Z :=
  v ← find_entry prefix env; parse_int 64 (trim v).

Definition parse_sec_path_list (env : list string) (prefix : string) : list string :=
  match find_entry prefix env with
  | Some v => List.filter (λ p, negb (is_empty p)) (split ":" v)
  | None => []
  end.

(** ** Preparing the container's root *)

Inductive fs_op :=
  | MountPseudo (fstype target : string)
  | CreateDirAll (path : string)
  | Mknod (path : string) (major minor : Z)
  | MaskDir (target : string)
  | MaskFile (target : string)
  | BindSelf (target : string)
  | RemountReadonly (target : string).

Definition op_target (o : fs_op) : string :=
  match o with
  | MountPseudo _ t | CreateDirAll t | Mknod t _ _ | MaskDir t | MaskFile t | BindSelf t | RemountReadonly t => t
  end.

(** The guest's file system: [stat] and [lstat] give the device and whether it is a directory. *)
Class GuestFs (F : Type) := {
  fs_stat : F → string → option (bool * Z);
  fs_lstat : F → string → option (bool * Z);
  fs_readonly : F → string → bool;
  fs_do : fs_op → F → bool * F;
}.

Section rootfs.
Context {F : Type} `{!GuestFs F}.

(** The file system and the operations tried on it *)
Definition guest := (F * list fs_op)%type.

Definition try_op (o : fs_op) (g : guest) : bool * guest :=
  let '(ok, f) := fs_do o g.1 in (ok, (f, g.2 ++ [o])).

Definition pseudo_filesystem (rootfs : string) (root_dev : Z) (g : guest) (p : string * string) : guest :=
  let target := rootfs +:+ "/" +:+ p.1 in
  match fs_stat g.1 target with
  | Some (_, dev) => if dev =? root_dev then (try_op (MountPseudo p.2 target) g).2 else g
  | None =>
      let '(ok, g) := try_op (CreateDirAll target) g in
      if ok then (try_op (MountPseudo p.2 target) g).2 else g
  end.

Definition ensure_container_pseudo_filesystems (rootfs : string) (g : guest) : guest :=
  match fs_stat g.1 rootfs with
  | None => g
  | Some (_, root_dev) => foldl (pseudo_filesystem rootfs root_dev) g [("proc", "proc"); ("sys", "sysfs")]
  end.

Definition dev_nodes : list (string * Z * Z) :=
  [("null", 1, 3); ("zero", 1, 5); ("full", 1, 7); ("random", 1, 8); ("urandom", 1, 9); ("tty", 5, 0)].

Definition ensure_container_dev_nodes (rootfs : string) (g : guest) : guest :=
  let dev := rootfs +:+ "/dev" in
  let '(ok, g) := try_op (CreateDirAll dev) g in
  if ok then
    foldl (λ g '(name, major, minor),
      let path := dev +:+ "/" +:+ name in
      match fs_stat g.1 path with
      | Some _ => g
      | None => (try_op (Mknod path major minor) g).2
      end) g dev_nodes
  else g.

(** A path that starts at the root and has no [..] component *)
Definition is_safe (path : string) : bool :=
  starts_with "/" path && negb (existsb (λ c, bool_decide (c = "..")) (split "/" path)).

(** [Path::parent] of an absolute path: what is before its last component, where a slash or a
    dot at the end does not count *)
Fixpoint trim_tail (fuel : nat) (s : string) : string :=
  match fuel, strip_suffix "/" s, strip_suffix "/." s with
  | S fuel, Some r, _ | S fuel, None, Some r => trim_tail fuel r
  | _, _, _ => s
  end.

Definition parent_of (path : string) : option string :=
  match rsplit_once "/" (trim_tail (String.length path) path) with
  | Some (p, _) => Some (if is_empty p then "/" else p)
  | None => None
  end.

Definition is_mountpoint (f : F) (target : string) : bool :=
  match fs_lstat f target with
  | None => false
  | Some (_, dev) =>
      match p ← parent_of target; fs_stat f p with
      | Some (_, pdev) => negb (pdev =? dev)
      | None => false
      end
  end.

Definition mask_path (rootfs : string) (g : guest) (path : string) : guest :=
  if negb (is_safe path) then g
  else
    let target := rootfs +:+ path in
    if is_mountpoint g.1 target then g
    else
      match fs_lstat g.1 target with
      | Some (true, _) => (try_op (MaskDir target) g).2
      | Some (false, _) => (try_op (MaskFile target) g).2
      | None => g
      end.

(** Binding onto itself, then remounting, unless it is read-only already *)
Definition bind_readonly (target : string) (g : guest) : guest :=
  if fs_readonly g.1 target then g
  else
    let '(ok, g) := try_op (BindSelf target) g in
    if ok then (try_op (RemountReadonly target) g).2 else g.

Definition readonly_path (rootfs : string) (g : guest) (path : string) : guest :=
  if negb (is_safe path) then g
  else
    let target := rootfs +:+ path in
    match fs_stat g.1 target with
    | None => g
    | Some _ => bind_readonly target g
    end.

Definition apply_container_path_restrictions (rootfs : string) (masked readonly : list string) (g : guest) : guest :=
  foldl (readonly_path rootfs) (foldl (mask_path rootfs) g masked) readonly.

Definition prepare_rootfs (rootfs : string) (env : list string) (g : guest) : guest :=
  let g := ensure_container_pseudo_filesystems rootfs g in
  let g := ensure_container_dev_nodes rootfs g in
  let masked := parse_sec_path_list env "A3S_SEC_MASKED_PATHS=" in
  let readonly := parse_sec_path_list env "A3S_SEC_READONLY_PATHS=" in
  let g := match masked, readonly with
           | [], [] => g
           | _, _ => apply_container_path_restrictions rootfs masked readonly g
           end in
  if has_entry "A3S_SEC_READONLY_ROOTFS=1" env then bind_readonly rootfs g else g.

(** ** Building the command *)

(** The arguments of [configure_child_process] *)
Record ChildSetup := {
  cs_rootfs : option string;
  cs_workdir : string;
  cs_user : option ProcessUser;
  cs_groups : list Z;
  cs_seccomp : bool;
  cs_cap_drop : list string;
  cs_cap_keep : option (list string);
  cs_localhost : list string;
  cs_no_new_privs : bool;
  cs_cgroup_procs : option string;
}.

Record Command := {
  cmd_program : string;
  cmd_args : list string;
  cmd_env : list (string * string);
  cmd_stdin_piped : bool;
  cmd_current_dir : option string;
  cmd_setup : ChildSetup;
}.

Definition failed (message : string) (code : Z) : ExecOutput :=
  {| eo_stdout := []; eo_stderr := as_bytes message; eo_exit_code := code |}.

(** Files of a root directory, and the texts of errors *)
Record RootFiles := {
  rf_passwd : string → option string;
  rf_group : string → option string;
  rf_user_error : user_error → string;
  rf_metadata_error : string → string;
}.

(** The entries that reach the workload *)
Definition workload_env (env : list string) : list (string * string) :=
  omap (λ e, kv ← split_once "=" e; if starts_with "A3S_SEC_" kv.1 then None else Some kv) env.

Definition process_user_of (rf : RootFiles) (rootfs user : option string) : result user_error (option ProcessUser) :=
  let root := default "/" rootfs in
  let resolved := match user with Some u => resolve_named_user u (rf_passwd rf root) | None => None end in
  pu ← parse_process_user (match resolved with Some r => Some r | None => user end);
  Ok (fmap (M := option) (λ p, match pu_gid p with
            | None => {| pu_uid := pu_uid p; pu_gid := primary_gid_for_uid (rf_passwd rf root) (pu_uid p) |}
            | Some _ => p
            end) pu).

Definition groups_of (rf : RootFiles) (rootfs user : option string) (env : list string) (pu : option ProcessUser) : list Z :=
  let given := from_option csv_gids [] (find_entry "A3S_SEC_SUPPLEMENTAL_GROUPS=" env) in
  match pu, rootfs with
  | Some p, Some root =>
      retain_new [] (given ++ resolve_image_groups (rf_passwd rf root) (rf_group rf root) (pu_uid p) (pu_gid p) (default "root" user))
  | _, _ => given
  end.

Definition NUL : ascii := "000"%char.

Definition setup_of (rf : RootFiles) (req : ExecRequest) (cgroup_procs : option string) (pu : option ProcessUser) : ChildSetup :=
  let env := er_env req in
  {| cs_rootfs := er_rootfs req; cs_workdir := default "/" (er_working_dir req); cs_user := pu;
     cs_groups := groups_of rf (er_rootfs req) (er_user req) env pu;
     cs_seccomp := has_entry "A3S_SEC_SECCOMP=default" env;
     cs_cap_drop := from_option csv_names [] (find_entry "A3S_SEC_CAP_DROP=" env);
     cs_cap_keep := csv_names <$> find_entry "A3S_SEC_CAP_KEEP=" env;
     cs_localhost := from_option csv_names [] (find_entry "A3S_SEC_SECCOMP_LOCALHOST=" env);
     cs_no_new_privs := has_entry "A3S_SEC_NO_NEW_PRIVS=1" env;
     cs_cgroup_procs := cgroup_procs |}.

Definition command_of (rf : RootFiles) (req : ExecRequest) (cgroup_procs : option string) (pu : option ProcessUser)
    (program : string) (args : list string) : Command :=
  {| cmd_program := program; cmd_args := args; cmd_env := workload_env (er_env req);
     cmd_stdin_piped := bool_decide (is_Some (er_stdin req)) || er_stdin_streaming req;
     cmd_current_dir := match er_rootfs req with None => er_working_dir req | Some _ => None end;
     cmd_setup := setup_of rf req cgroup_procs pu |}.

(** The root directory of the request: refused, or prepared *)
Definition check_rootfs (rf : RootFiles) (req : ExecRequest) (g : guest) : result ExecOutput guest :=
  match er_rootfs req with
  | None => Ok g
  | Some rootfs =>
      if is_empty rootfs || negb (starts_with "/" rootfs) || has_char NUL rootfs
         || has_char NUL (default "/" (er_working_dir req))
      then Err (failed ("Invalid rootfs path: " +:+ rootfs) 1)
      else
        match fs_stat g.1 rootfs with
        | Some (true, _) => Ok (prepare_rootfs rootfs (er_env req) g)
        | Some (false, _) => Err (failed ("Rootfs path is not a directory: " +:+ rootfs) 1)
        | None => Err (failed ("Rootfs path is unavailable: " +:+ rootfs +:+ " (" +:+ rf_metadata_error rf rootfs +:+ ")") 1)
        end
  end.

Definition exec_timeout (req : ExecRequest) : Z :=
  if er_timeout_ns req =? 0 then DEFAULT_EXEC_TIMEOUT_NS else er_timeout_ns req.

Definition build_command (rf : RootFiles) (req : ExecRequest) (cgroup_procs : option string) (g : guest)
    : result ExecOutput (Command * Z * guest) :=
  match er_cmd req with
  | [] => Err (failed "Empty command" 1)
  | program :: args =>
      pu ← map_err (λ e, failed (rf_user_error rf e) 1) (process_user_of rf (er_rootfs req) (er_user req));
      g ← check_rootfs rf req g;
      Ok (command_of rf req cgroup_procs pu program args, exec_timeout req, g)
  end.
End rootfs.

(** The credentials of the child before it runs the program: the hook enters the root and
    then confines the process. *)
Inductive hook_error := HookErrno (e : Z) | HookConfine (e : exec_error).

Definition run_hook `{Kernel} (t : target) (enter : ChildSetup → option Z) (s : ChildSetup) (c : creds)
    : result hook_error creds :=
  match enter s with
  | Some e => Err (HookErrno e)
  | None =>
      map_err HookConfine
        (configure_child_process t (cs_user s) (cs_groups s) (cs_seccomp s) (cs_cap_drop s) (cs_cap_keep s)
           (cs_localhost s) (cs_no_new_privs s) c)
  end.

(** ** Control groups ([cgroup.rs]) *)

Definition CGROUP_ROOT : string := "/sys/fs/cgroup".

Definition shares_to_weight (shares : Z) : Z :=
  let shares := Z.max 2 (Z.min 262144 shares) in
  Z.max 1 (Z.min 10000 (1 + (shares - 2) * 9999 / 262142)).

(** What a creation writes, in order; [write_ok] says which writes succeed. *)
Record Cgroup := { cg_path : string; cg_writes : list (string * string) }.

Definition positive (o : option Z) : bool := match o with Some n => 0 <? n | None => false end.

Definition create_cgroup (ready : bool) (pid seq : Z) (mkdir_ok : bool) (write_ok : string → bool)
    (memory_max cpu_quota cpu_period cpu_shares : option Z) : option Cgroup :=
  let want_memory := positive memory_max in
  let want_cpu := positive cpu_quota in
  let want_weight := positive cpu_shares in
  if (negb want_memory && negb want_cpu && negb want_weight) || negb ready then None
  else
    let path := CGROUP_ROOT +:+ "/box-" +:+ show_uint pid +:+ "-" +:+ show_uint seq in
    if negb mkdir_ok then None
    else
      let put file value := let f := path +:+ "/" +:+ file in if write_ok f then [(f, value)] else [] in
      let memory := put "memory.max" (show_uint (default 0 memory_max)) in
      if want_memory && is_nil memory then None
      else
        let period := match cpu_period with Some p => if 0 <? p then p else 100000 | None => 100000 end in
        Some {| cg_path := path;
                cg_writes :=
                  (if want_memory then memory ++ put "memory.oom.group" "1" else []) ++
                  (if want_cpu then put "cpu.max" (show_int (default 0 cpu_quota) +:+ " " +:+ show_uint period) else []) ++
                  (if want_weight then put "cpu.weight" (show_uint (shares_to_weight (default 1024 cpu_shares))) else []) |}.

Definition procs_path (c : Cgroup) : string := cg_path c +:+ "/cgroup.procs".

Definition oom_kills (memory_events : option string) : Z :=
  match memory_events with
  | None => 0
  | Some text => default 0 (v ← find_entry "oom_kill " (lines text); parse_uint 64 (trim v))
  end.

(** The control group of a streamed command *)
Definition exec_cgroup (ready : bool) (pid seq : Z) (mkdir_ok : bool) (write_ok : string → bool) (env : list string)
    : option Cgroup :=
  create_cgroup ready pid seq mkdir_ok write_ok (parse_sec_mem_limit env)
    (parse_sec_int env "A3S_SEC_CPU_QUOTA=")
    (wrap 64 <$> parse_sec_int env "A3S_SEC_CPU_PERIOD=") (wrap 64 <$> parse_sec_int env "A3S_SEC_CPU_SHARES=").

(** ** One-shot commands *)

Definition truncate_output (data : list Z) : list Z :=
  if MAX_OUTPUT_BYTES <? Z.of_nat (length data) then take (Z.to_nat MAX_OUTPUT_BYTES) data else data.

(** A child: the writes it still has to make, and its status.  A write that does not fit its
    pipe fills it and waits. *)
Record child := { ch_todo : list (StreamType * list Z); ch_pipe : StreamType → list Z; ch_status : option Z }.

Section oneshot.
Context (capacity : nat).

Fixpoint child_run (n : nat) (c : child) : child :=
  match n, ch_todo c with
  | S n, (st, d) :: rest =>
      let room := (capacity - length (ch_pipe c st))%nat in
      if (length d <=? room)%nat then
        child_run n {| ch_todo := rest; ch_pipe := upd (ch_pipe c) st (ch_pipe c st ++ d); ch_status := ch_status c |}
      else
        {| ch_todo := (st, drop room d) :: rest; ch_pipe := upd (ch_pipe c) st (ch_pipe c st ++ take room d);
           ch_status := ch_status c |}
  | _, _ => c
  end.

(** One turn of the polling loop: how far the child came, the time, and how [try_wait] fails *)
Inductive poll_failure := PollReaped | PollError (message : string).
Record poll := { po_steps : nat; po_elapsed : Z; po_fails : option poll_failure }.

Definition oneshot_output (c : child) (code : Z) (extra : list Z) : ExecOutput :=
  {| eo_stdout := truncate_output (ch_pipe c Stdout); eo_stderr := truncate_output (ch_pipe c Stderr ++ extra);
     eo_exit_code := code |}.

Fixpoint execute_polls (timeout : Z) (ps : list poll) (c : child) : option ExecOutput :=
  match ps with
  | [] => None
  | p :: ps =>
      let c := child_run (po_steps p) c in
      match po_fails p with
      | Some PollReaped => Some (oneshot_output c 0 [])
      | Some (PollError m) => Some (failed ("Failed to wait for command: " +:+ m) 1)
      | None =>
          match ch_todo c with
          | [] => Some (oneshot_output c (default 1 (ch_status c)) [])
          | _ =>
              if timeout <=? po_elapsed p then Some (oneshot_output c 137 timeout_message)
              else execute_polls timeout ps c
          end
      end
  end.

Definition execute_command {F} `{!GuestFs F} (rf : RootFiles) (req : ExecRequest) (spawn : Command → result string child)
    (ps : list poll) (g : guest (F := F)) : option ExecOutput :=
  match build_command rf req None g with
  | Err o => Some o
  | Ok (command, timeout, _) =>
      match spawn command with
      | Err e => Some (failed ("Failed to spawn command '" +:+ cmd_program command +:+ "': " +:+ e) 127)
      | Ok c => execute_polls timeout ps c
      end
  end.
End oneshot.

(** ** Preparing the root stays inside it *)

Section inside.
Context {F : Type} `{!GuestFs F}.

Definition inside (rootfs target : string) : Prop :=
  ∃ p, target = rootfs +:+ p ∧ (p = "" ∨ starts_with "/" p = true ∧ ".." ∉ split "/" p).

(** [g'] was made from [g] by operations inside the root. *)
Definition grew (rootfs : string) (g g' : guest (F := F)) : Prop :=
  ∃ ops, g'.2 = g.2 ++ ops ∧ Forall (λ o, inside rootfs (op_target o)) ops.

Lemma grew_refl r g : grew r g g.
Proof. exists []. by rewrite app_nil_r. Qed.
Lemma grew_trans r g1 g2 g3 : grew r g1 g2 → grew r g2 g3 → grew r g1 g3.
Proof.
  intros (o1 & E1 & H1) (o2 & E2 & H2). exists (o1 ++ o2). rewrite E2, E1, app_assoc. split; [done|].
  by apply Forall_app.
Qed.
Lemma grew_try r o g : inside r (op_target o) → grew r g (try_op o g).2.
Proof. intros Ho. unfold try_op. destruct (fs_do o g.1). exists [o]. by split; [|constructor]. Qed.
Lemma grew_fold {A} r (f : guest (F := F) → A → guest (F := F)) l g :
  (∀ g a, a ∈ l → grew r g (f g a)) → grew r g (foldl f g l).
Proof.
  revert g. induction l as [|a l IH]; intros g Hf; [apply grew_refl|]. cbn. eapply grew_trans.
  - apply Hf. constructor.
  - apply IH. intros. apply Hf. by constructor.
Qed.

Lemma inside_safe r p : is_safe p = true → inside r (r +:+ p).
Proof.
  intros [Ha Hd%negb_true_iff]%andb_true_iff. exists p. split; [done|]. right. split; [done|].
  intros Hin%list_elem_of_In. apply not_true_iff_false in Hd. apply Hd, existsb_exists.
  exists "..". split; [done|]. by apply bool_decide_eq_true.
Qed.
Lemma inside_root r : inside r r.
Proof. exists "". split; [|by left]. by rewrite str_app_nil_r. Qed.

Lemma pseudo_grew r dev g p : is_safe ("/" +:+ p.1) = true → grew r g (pseudo_filesystem r dev g p).
Proof.
  intros Hs. unfold pseudo_filesystem. assert (inside r (r +:+ "/" +:+ p.1)) as Hi by (by apply inside_safe).
  destruct (fs_stat g.1 _) as [[? d]|].
  - destruct (d =? dev); [by apply grew_try|apply grew_refl].
  - destruct (try_op (CreateDirAll _) g) as [ok g1] eqn:E.
    assert (grew r g g1) as H1 by (change g1 with ((ok, g1).2); rewrite <-E; by apply grew_try).
    destruct ok; [|done]. eapply grew_trans; [done|]. by apply grew_try.
Qed.

Lemma dev_nodes_grew r g : grew r g (ensure_container_dev_nodes r g).
Proof.
  unfold ensure_container_dev_nodes. destruct (try_op (CreateDirAll _) g) as [ok g1] eqn:E.
  assert (grew r g g1) as H1 by (change g1 with ((ok, g1).2); rewrite <-E; apply grew_try; by apply inside_safe).
  destruct ok; [|done]. eapply grew_trans; [done|]. apply grew_fold. intros g2 [[name major] minor] Hin.
  destruct (fs_stat g2.1 _); [apply grew_refl|]. apply grew_try. cbn [op_target].
  assert (is_safe ("/dev/" +:+ name) = true) as Hs.
  { unfold dev_nodes in Hin. rewrite !elem_of_cons in Hin.
    destruct Hin as [?|[?|[?|[?|[?|[?|?%not_elem_of_nil]]]]]]; by simplify_eq. }
  rewrite str_app_assoc. by apply inside_safe.
Qed.

Lemma bind_grew r t g : inside r t → grew r g (bind_readonly t g).
Proof.
  intros Ht. unfold bind_readonly. destruct (fs_readonly g.1 t); [apply grew_refl|].
  destruct (try_op (BindSelf t) g) as [ok g1] eqn:E.
  assert (grew r g g1) as H1 by (change g1 with ((ok, g1).2); rewrite <-E; by apply grew_try).
  destruct ok; [|done]. eapply grew_trans; [done|]. by apply grew_try.
Qed.

Lemma restrictions_grew r masked readonly g : grew r g (apply_container_path_restrictions r masked readonly g).
Proof.
  unfold apply_container_path_restrictions. apply (grew_trans _ _ (foldl (mask_path r) g masked));
    apply grew_fold; intros g1 p _.
  - unfold mask_path. destruct (is_safe p) eqn:Hs; cbn [negb]; [|apply grew_refl].
    destruct (is_mountpoint g1.1 _); [apply grew_refl|].
    destruct (fs_lstat g1.1 _) as [[[] ?]|]; [| |apply grew_refl]; apply grew_try; by apply inside_safe.
  - unfold readonly_path. destruct (is_safe p) eqn:Hs; cbn [negb]; [|apply grew_refl].
    destruct (fs_stat g1.1 _); [|apply grew_refl]. apply bind_grew. by apply inside_safe.
Qed.

Lemma prepare_grew r env g : grew r g (prepare_rootfs r env g).
Proof.
  assert (∀ g1, grew r g g1 → grew r g (if has_entry "A3S_SEC_READONLY_ROOTFS=1" env then bind_readonly r g1 else g1)) as Hlast.
  { intros g1 H1. destruct (has_entry _ _); [|done]. eapply grew_trans; [done|]. apply bind_grew, inside_root. }
  unfold prepare_rootfs. apply Hlast.
  assert (grew r g (ensure_container_dev_nodes r (ensure_container_pseudo_filesystems r g))) as H2.
  { eapply grew_trans; [|apply dev_nodes_grew]. unfold ensure_container_pseudo_filesystems.
    destruct (fs_stat g.1 r) as [[? d]|]; [|apply grew_refl]. apply grew_fold.
    intros g1 p [->|[->|?%not_elem_of_nil]%elem_of_cons]%elem_of_cons; [by apply pseudo_grew..|done]. }
  destruct (parse_sec_path_list env _), (parse_sec_path_list env _); try done;
    (eapply grew_trans; [done|apply restrictions_grew]).
Qed.

(** Whatever the request's environment says, the files and mounts made for a command are
    inside its root: every path that is created, mounted or remounted is the root or the root
    followed by an absolute path without a component [..]; a request that is refused, or that
    has no root, changes nothing. *)
Theorem mounts_inside rf req cg (g : guest (F := F)) :
  match build_command rf req cg g with
  | Err o => eo_stdout o = [] ∧ eo_exit_code o = 1
  | Ok (_, _, g') => ∃ ops, g'.2 = g.2 ++ ops ∧
      Forall (λ o, ∃ rootfs, er_rootfs req = Some rootfs ∧ starts_with "/" rootfs = true ∧ inside rootfs (op_target o)) ops
  end.
Proof.
  unfold build_command. destruct (er_cmd req) as [|program args]; [done|].
  destruct (process_user_of rf (er_rootfs req) (er_user req)); [|done]. cbn.
  unfold check_rootfs. destruct (er_rootfs req) as [rootfs|]; cbn; [|exists []; by rewrite app_nil_r].
  destruct (is_empty rootfs || _ || _ || _) eqn:Hc; [done|].
  apply orb_false_iff in Hc as [[[_ Hs%negb_false_iff]%orb_false_iff _]%orb_false_iff _].
  destruct (fs_stat g.1 rootfs) as [[[] ?]|]; [|done..]. cbn.
  destruct (prepare_grew rootfs (er_env req) g) as (ops & -> & Hops). exists ops. split; [done|].
  eapply list.Forall_impl; [exact Hops|]. cbn. eauto.
Qed.
End inside.

(** ** One-shot commands and full pipes *)

Section pipes.
Context (capacity : nat).

Definition todo_bytes (st : StreamType) (todo : list (StreamType * list Z)) : list Z := queue_bytes st todo.

Lemma child_run_fits n c :
  (∀ st, (length (ch_pipe c st) + length (todo_bytes st (ch_todo c)) ≤ capacity)%nat) →
  ch_todo (child_run capacity n c) = drop n (ch_todo c) ∧ ch_status (child_run capacity n c) = ch_status c ∧
  ∀ st, ch_pipe (child_run capacity n c) st = ch_pipe c st ++ todo_bytes st (take n (ch_todo c)).
Proof.
  unfold todo_bytes. revert c. induction n as [|n IH]; intros c Hfit.
  { cbn. rewrite take_0. split_and!; [done..|]. intros st. by rewrite app_nil_r. }
  cbn [child_run]. destruct (ch_todo c) as [|[st d] rest] eqn:Ht.
  { rewrite Ht. split_and!; [done..|]. intros st. by rewrite app_nil_r. }
  assert (Hd : (length d ≤ capacity - length (ch_pipe c st))%nat).
  { pose proof (Hfit st) as H. rewrite queue_bytes_cons, stream_bytes_own, length_app in H. lia. }
  rewrite (proj2 (Nat.leb_le _ _) Hd).
  edestruct (IH {| ch_todo := rest; ch_pipe := upd (ch_pipe c) st (ch_pipe c st ++ d); ch_status := ch_status c |})
    as (H1 & H2 & H3).
  - intros st'. cbn. pose proof (Hfit st') as H. rewrite queue_bytes_cons, length_app in H. unfold upd.
    destruct (decide (st' = st)) as [->|Hne].
    + rewrite stream_bytes_own in H. rewrite length_app. lia.
    + lia.
  - cbn in H1, H2, H3. rewrite H1, H2. split_and!; [done..|]. intros st'. rewrite H3. cbn [take].
    rewrite queue_bytes_cons. unfold upd. destruct (decide (st' = st)) as [->|Hne].
    + by rewrite stream_bytes_own, <-app_assoc.
    + by rewrite stream_bytes_other.
Qed.

(** A child whose output does not fit never finishes. *)
Lemma child_run_full st n c :
  (length (ch_pipe c st) ≤ capacity)%nat → (capacity < length (ch_pipe c st) + length (todo_bytes st (ch_todo c)))%nat →
  let c' := child_run capacity n c in
  (length (ch_pipe c' st) ≤ capacity)%nat ∧ (capacity < length (ch_pipe c' st) + length (todo_bytes st (ch_todo c')))%nat.
Proof.
  unfold todo_bytes. revert c. induction n as [|n IH]; intros c H1 H2; [done|]. cbn [child_run].
  destruct (ch_todo c) as [|[st' d] rest] eqn:Ht; [by rewrite Ht|]. rewrite queue_bytes_cons, length_app in H2.
  destruct (Nat.leb_spec (length d) (capacity - length (ch_pipe c st'))) as [Hle|Hgt].
  - apply IH; cbn; unfold upd; destruct (decide (st = st')) as [->|Hne]; rewrite ?length_app;
      rewrite ?stream_bytes_own, ?stream_bytes_other in H2 by done; cbn in H2; lia.
  - cbn. unfold upd. rewrite queue_bytes_cons, !length_app. destruct (decide (st = st')) as [->|Hne].
    + rewrite stream_bytes_own in *. rewrite length_app, length_take, length_drop. lia.
    + rewrite stream_bytes_other in H2 |- * by done. cbn in H2 |- *. lia.
Qed.

Lemma truncate_small d : (length d ≤ Z.to_nat MAX_OUTPUT_BYTES)%nat → truncate_output d = d.
Proof. intros Hd. unfold truncate_output. destruct (Z.ltb_spec MAX_OUTPUT_BYTES (Z.of_nat (length d))); [unfold MAX_OUTPUT_BYTES in *; lia|done]. Qed.

Lemma queue_bytes_take_drop st n l : queue_bytes st (take n l) ++ queue_bytes st (drop n l) = queue_bytes st l.
Proof. by rewrite <-queue_bytes_app, take_drop. Qed.

Fixpoint all_steps (ps : list poll) : nat := match ps with [] => O | p :: ps => po_steps p + all_steps ps end.

(** A one-shot command whose output fits its pipes, and that ends before its time is over,
    is reported as it was: both outputs whole and the status of the process (1 when a signal
    killed it), whatever it wrote before the polls came. *)
Theorem oneshot_exact timeout ps p more c :
  (capacity ≤ Z.to_nat MAX_OUTPUT_BYTES)%nat →
  (∀ st, (length (ch_pipe c st) + length (todo_bytes st (ch_todo c)) ≤ capacity)%nat) →
  Forall (λ q, po_elapsed q < timeout ∧ po_fails q = None) ps → po_fails p = None →
  (length (ch_todo c) ≤ all_steps (ps ++ [p]))%nat →
  execute_polls capacity timeout (ps ++ p :: more) c =
  Some {| eo_stdout := ch_pipe c Stdout ++ todo_bytes Stdout (ch_todo c);
          eo_stderr := ch_pipe c Stderr ++ todo_bytes Stderr (ch_todo c);
          eo_exit_code := default 1 (ch_status c) |}.
Proof.
  unfold todo_bytes. intros Hcap Hfit Hps Hp. revert c Hfit. induction Hps as [|q ps [He Hq] _ IH]; intros c Hfit Hsteps.
  - cbn [app execute_polls]. rewrite Hp. destruct (child_run_fits (po_steps p) c Hfit) as (-> & H2 & H3).
    assert (Hle : (length (ch_todo c) ≤ po_steps p)%nat) by (cbn in Hsteps; lia).
    rewrite drop_ge by done. unfold oneshot_output. rewrite H2, !H3. unfold todo_bytes. rewrite take_ge, app_nil_r by done.
    rewrite !truncate_small; [done| |]; rewrite length_app; pose proof (Hfit Stderr); pose proof (Hfit Stdout); lia.
  - cbn [app execute_polls]. rewrite Hq. destruct (child_run_fits (po_steps q) c Hfit) as (H1 & H2 & H3).
    unfold todo_bytes in H3. destruct (ch_todo (child_run capacity (po_steps q) c)) as [|x xs] eqn:Ht.
    + unfold oneshot_output. rewrite H2, !H3, app_nil_r.
      assert (Hall : ∀ st, queue_bytes st (take (po_steps q) (ch_todo c)) = queue_bytes st (ch_todo c)).
      { intros st. rewrite <-(queue_bytes_take_drop st (po_steps q) (ch_todo c)), <-H1. unfold queue_bytes at 3. cbn.
        by rewrite app_nil_r. }
      rewrite !Hall, !truncate_small; [done| |]; rewrite length_app; pose proof (Hfit Stderr); pose proof (Hfit Stdout); lia.
    + rewrite (proj2 (Z.leb_gt _ _)) by done.
      assert (Hsplit : ∀ st, queue_bytes st (take (po_steps q) (ch_todo c)) ++ queue_bytes st (x :: xs) = queue_bytes st (ch_todo c)).
      { intros st. rewrite H1. apply queue_bytes_take_drop. }
      rewrite IH; rewrite ?Ht.
      * rewrite H2, !H3, <-!app_assoc, !Hsplit. done.
      * intros st. rewrite ?Ht, H3. pose proof (Hfit st) as Hf. rewrite <-(Hsplit st), length_app in Hf.
        rewrite length_app. lia.
      * rewrite ?Ht, H1, length_drop. cbn [app all_steps] in Hsteps. lia.
Qed.

(** The pipes are read only after the child has ended: one that writes more than a pipe holds
    waits for its reader until the timeout kills it, so its status is lost. *)
Theorem oneshot_full_pipe timeout ps c st o :
  (length (ch_pipe c st) ≤ capacity)%nat → (capacity < length (ch_pipe c st) + length (todo_bytes st (ch_todo c)))%nat →
  Forall (λ q, po_fails q = None) ps → execute_polls capacity timeout ps c = Some o → eo_exit_code o = 137.
Proof.
  intros H1 H2 Hps. revert c H1 H2. induction Hps as [|q ps Hq _ IH]; intros c H1 H2 He; [done|].
  cbn [execute_polls] in He. rewrite Hq in He.
  destruct (child_run_full st (po_steps q) c H1 H2) as [H3 H4].
  destruct (ch_todo (child_run capacity (po_steps q) c)) as [|x xs] eqn:Ht.
  { unfold todo_bytes, queue_bytes in H4. cbn in H4. lia. }
  destruct (timeout <=? po_elapsed q); [by simplify_eq|]. eapply IH; [exact H3| |exact He]. by rewrite Ht.
Qed.
End pipes.

Lemma oneshot_exact_witness :
  execute_polls 4 100 [{| po_steps := 1; po_elapsed := 50; po_fails := None |}; {| po_steps := 5; po_elapsed := 120; po_fails := None |}]
    {| ch_todo := [(Stdout, [1; 2]); (Stderr, [3]); (Stdout, [4])]; ch_pipe := λ _, []; ch_status := Some 7 |}
  = Some {| eo_stdout := [1; 2; 4]; eo_stderr := [3]; eo_exit_code := 7 |}.
Proof.
  apply (oneshot_exact 4 100 [{| po_steps := 1; po_elapsed := 50; po_fails := None |}]
           {| po_steps := 5; po_elapsed := 120; po_fails := None |} []).
  - unfold MAX_OUTPUT_BYTES. lia.
  - intros []; vm_compute; lia.
  - repeat constructor.
  - reflexivity.
  - cbn. lia.
Defined.

(** ** Weights *)

Lemma weight_range shares : 1 ≤ shares_to_weight shares ≤ 10000.
Proof. unfold shares_to_weight. lia. Qed.

Lemma weight_mono a b : a ≤ b → shares_to_weight a ≤ shares_to_weight b.
Proof.
  intros Hab. unfold shares_to_weight.
  assert ((Z.max 2 (Z.min 262144 a) - 2) * 9999 / 262142 ≤ (Z.max 2 (Z.min 262144 b) - 2) * 9999 / 262142)
    by (apply Z.div_le_mono; lia). lia.
Qed.

(** A request of no processor shares by a negative number asks for the largest weight. *)
Lemma negative_shares_get_most : shares_to_weight (wrap 64 (-1)) = 10000.
Proof. reflexivity. Qed.
