(* ===== verification/CriContainer.v ===== *)
(** * CriContainer: from a CRI container request to a confined process

    [cri/src/runtime_service/convert.rs] (users, mounts, environment, commands), the
    security part of [create_container] in [cri/src/runtime_service/mod.rs] and the handler
    itself, [mounts.rs] and the cleanup of [service_ops.rs].  The requests of [StartContainer]
    and [ExecSync] go to the guest's [ExecCommand], whose hook is [Confine]'s. *)

From Stdlib Require Import ZArith Lia Ascii.
From stdpp Require Import base gmap strings list numbers.
From S2P Require Import Prelude RustStr Text Pty Options Build Lifecycle Cri Streaming Logs Security Confine ExecServer ExecCommand.

Local Open Scope string_scope.
Local Open Scope list_scope.
Local Open Scope Z_scope.

(** ** Requests *)

Record Capability := { cap_add_capabilities : list string; cap_drop_capabilities : list string }.

Inductive ProfileType := PtRuntimeDefault | PtUnconfined | PtLocalhost.
Record SecurityProfile := { sp_type : ProfileType; sp_localhost_ref : string }.

Record NamespaceOption := { no_network : Z; no_ipc : Z; no_user : Z }.
Definition NAMESPACE_NODE : Z := 2.

Record LinuxContainerSecurityContext := {
  sc_capabilities : option Capability;
  sc_privileged : bool;
  sc_namespace_options : option NamespaceOption;
  sc_run_as_user : option Z;
  sc_run_as_group : option Z;
  sc_run_as_username : string;
  sc_supplemental_groups : list Z;
  sc_masked_paths : list string;
  sc_readonly_paths : list string;
  sc_seccomp : option SecurityProfile;
  sc_no_new_privs : bool;
  sc_readonly_rootfs : bool;
  sc_apparmor : option SecurityProfile;
  sc_apparmor_profile : string;
}.

Record LinuxContainerResources := {
  lr_memory_limit_in_bytes : Z; lr_cpu_quota : Z; lr_cpu_period : Z; lr_cpu_shares : Z }.

Record LinuxContainerConfig := {
  lc_resources : option LinuxContainerResources;
  lc_security_context : option LinuxContainerSecurityContext }.

Record Mount := {
  mt_container_path : string; mt_host_path : string; mt_readonly : bool;
  mt_selinux_relabel : bool; mt_propagation : Z }.

Record ContainerConfig := {
  cc_metadata : option (string * Z);
  cc_image : option string;
  cc_command : list string;
  cc_args : list string;
  cc_working_dir : string;
  cc_envs : list (string * string);
  cc_mounts : list Mount;
  cc_devices : nat;
  cc_labels : gmap string string;
  cc_annotations : gmap string string;
  cc_log_path : string;
  cc_stdin : bool;
  cc_stdin_once : bool;
  cc_tty : bool;
  cc_linux : option LinuxContainerConfig;
}.

Definition security_context (cfg : ContainerConfig) : option LinuxContainerSecurityContext :=
  l ← cc_linux cfg; lc_security_context l.
Definition resources (cfg : ContainerConfig) : option LinuxContainerResources :=
  l ← cc_linux cfg; lc_resources l.

Inductive create_error :=
  | SandboxUnknown
  | SandboxNotReady
  | ConfigRequired
  | MetadataRequired
  | HostNamespace (kind : string)
  | DevicesUnsupported
  | MountHostEmpty
  | MountPathEmpty
  | MountPathRelative (path : string)
  | PropagationInvalid (value : Z)
  | PropagationUnsupported (value : Z)
  | ImageNotFound (image : string)
  | ImageInvalid
  | GroupWithoutUser
  | AppArmorNotLoaded (profile : string)
  | RootfsFailed
  | MountsNeedRootfs
  | MountSourceMissing (path : string)
  | MountEscapes (path : string)
  | MountIsRoot
  | MountFailed.

(** ** Conversion ([convert.rs]) *)

Definition component_char (c : string) : string :=
  match c with
  | String a "" => if is_ascii_alphanumeric a || bool_decide (c = "-") || bool_decide (c = "_") then c else "_"
  | _ => "_"
  end.

Definition sanitize_path_component (value : string) : string :=
  let s := String.concat "" (component_char <$> chars value) in
  if is_empty s then "unknown" else s.

Definition container_user_from_linux_config (linux : option LinuxContainerConfig) : option string :=
  sc ← (l ← linux; lc_security_context l);
  if negb (is_empty (sc_run_as_username sc)) then Some (sc_run_as_username sc)
  else
    user ← sc_run_as_user sc;
    Some match sc_run_as_group sc with
         | Some group => show_int user +:+ ":" +:+ show_int group
         | None => show_int user
         end.

Definition validate_namespace_options (o : option NamespaceOption) : result create_error () :=
  match o with
  | None => Ok ()
  | Some o =>
      if no_network o =? NAMESPACE_NODE then Err (HostNamespace "network (HostNetwork)")
      else if no_ipc o =? NAMESPACE_NODE then Err (HostNamespace "IPC (HostIpc)")
      else if no_user o =? NAMESPACE_NODE then Err (HostNamespace "user")
      else Ok ()
  end.

(** Private is 0, host-to-container 1 and bidirectional 2. *)
Definition validate_container_mount (m : Mount) : result create_error () :=
  if is_empty (trim (mt_host_path m)) then Err MountHostEmpty
  else if is_empty (trim (mt_container_path m)) then Err MountPathEmpty
  else if negb (starts_with "/" (mt_container_path m)) then Err (MountPathRelative (mt_container_path m))
  else if (mt_propagation m <? 0) || (2 <? mt_propagation m) then Err (PropagationInvalid (mt_propagation m))
  else if negb (mt_propagation m =? 0) then Err (PropagationUnsupported (mt_propagation m))
  else Ok ().

Definition container_mount_from_cri (m : Mount) : ContainerMount :=
  {| cm_container_path := mt_container_path m; cm_host_path := mt_host_path m; cm_readonly := mt_readonly m;
     cm_selinux_relabel := mt_selinux_relabel m; cm_propagation := mt_propagation m |}.

Fixpoint resolve_container_mounts (ms : list Mount) : result create_error (list ContainerMount) :=
  match ms with
  | [] => Ok []
  | m :: ms =>
      _ ← validate_container_mount m;
      rest ← resolve_container_mounts ms;
      Ok (container_mount_from_cri m :: rest)
  end.

(** [find] then assignment, or [push] *)
Definition merge_env (image_env cri_env : list (string * string)) : list (string * string) :=
  merge_env_pairs image_env cri_env.

Definition resolve_command_and_args (cfg : ContainerConfig) (image : option OciImageConfig) : list string * list string :=
  match cc_command cfg with
  | [] =>
      (default [] (image ≫= oc_entrypoint),
       match cc_args cfg with [] => default [] (image ≫= oc_cmd) | args => args end)
  | command => (command, cc_args cfg)
  end.

Definition container_exit_reason (exit_code : Z) (oom_killed : bool) : string :=
  if oom_killed then "OOMKilled" else if exit_code =? 0 then "Completed" else "Error".

(** ** The security envelope *)

Definition DEFAULT_CAPABILITIES : list string :=
  ["CHOWN"; "DAC_OVERRIDE"; "FSETID"; "FOWNER"; "MKNOD"; "NET_RAW"; "SETGID"; "SETUID"; "SETFCAP"; "SETPCAP";
   "NET_BIND_SERVICE"; "SYS_CHROOT"; "KILL"; "AUDIT_WRITE"].

(** The action of a profile, and its rules: names and action *)
Record OciSeccompProfile := { osp_default : string; osp_syscalls : list (list string * string) }.

Definition denies (action : string) : bool :=
  existsb (λ a, bool_decide (a = action)) ["SCMP_ACT_ERRNO"; "SCMP_ACT_KILL"; "SCMP_ACT_KILL_THREAD"; "SCMP_ACT_KILL_PROCESS"].

(** What the host answers: case mapping, seccomp profiles that can be read and parsed, the
    loaded AppArmor profiles, images. *)
Record ResolvedContainerImage := { ri_digest : string; ri_path : string; ri_config : OciImageConfig }.

Record CreateEnv := {
  ce_upper : string → string;
  ce_profile : string → option OciSeccompProfile;
  ce_apparmor_profiles : option string;
  ce_image : string → result create_error ResolvedContainerImage;
  ce_rootfs_base : string;
  ce_build_rootfs : string → bool;
  ce_source_exists : string → bool;
  ce_bind : string → string → bool;
  ce_id : string;
  ce_now : Z;
}.

Section create.
Context (w : CreateEnv).

Definition normalize (cap : string) : string :=
  ce_upper w (default (trim cap) (strip_prefix "CAP_" (trim cap))).

Definition kept_set (c : option Capability) : option (gset string) :=
  let kept : gset string := list_to_set DEFAULT_CAPABILITIES in
  match c with
  | None => Some kept
  | Some c =>
      let add := normalize <$> cap_add_capabilities c in
      let drop := normalize <$> cap_drop_capabilities c in
      if bool_decide ("ALL" ∈ add) then None
      else Some ((if bool_decide ("ALL" ∈ drop) then ∅ else kept ∖ list_to_set drop) ∪ list_to_set add)
  end.

(** In the order of a [BTreeSet] *)
Definition kept_capabilities (c : option Capability) : option (list string) :=
  s ← kept_set c; Some (sort_by String.leb (elements s)).

Definition apparmor_profile_loaded (name : string) : bool :=
  match ce_apparmor_profiles w with
  | None => false
  | Some text => existsb (λ line, bool_decide (head (split_whitespace line) = Some name)) (lines text)
  end.

(** The calls a profile denies; [None] when it cannot be applied *)
Definition parse_localhost_seccomp_deny (ref : string) : option (list string) :=
  p ← ce_profile w ref;
  if bool_decide (osp_default p = "SCMP_ACT_ALLOW") || bool_decide (osp_default p = "SCMP_ACT_LOG")
  then Some (concat (fst <$> List.filter (λ s, denies s.2) (osp_syscalls p)))
  else None.

Definition entry_if (b : bool) (key value : string) : list (string * string) := if b then [(key, value)] else [].

Definition resource_entries (r : option LinuxContainerResources) : list (string * string) :=
  match r with
  | None => []
  | Some r =>
      entry_if (0 <? lr_memory_limit_in_bytes r) "A3S_SEC_MEM_LIMIT" (show_int (lr_memory_limit_in_bytes r)) ++
      entry_if (0 <? lr_cpu_quota r) "A3S_SEC_CPU_QUOTA" (show_int (lr_cpu_quota r)) ++
      entry_if ((0 <? lr_cpu_quota r) && (0 <? lr_cpu_period r)) "A3S_SEC_CPU_PERIOD" (show_int (lr_cpu_period r)) ++
      entry_if (0 <? lr_cpu_shares r) "A3S_SEC_CPU_SHARES" (show_int (lr_cpu_shares r))
  end.

Definition seccomp_entries (sc : LinuxContainerSecurityContext) : list (string * string) :=
  match sc_seccomp sc with
  | Some p =>
      if sc_privileged sc then []
      else
        match sp_type p with
        | PtRuntimeDefault => [("A3S_SEC_SECCOMP", "default")]
        | PtLocalhost =>
            match parse_localhost_seccomp_deny (sp_localhost_ref p) with
            | Some deny => [("A3S_SEC_SECCOMP_LOCALHOST", join "," deny)]
            | None => [("A3S_SEC_SECCOMP", "default")]
            end
        | PtUnconfined => []
        end
  | None => []
  end.

Definition capability_entries (sc : LinuxContainerSecurityContext) : list (string * string) :=
  if sc_privileged sc then []
  else match kept_capabilities (sc_capabilities sc) with
       | Some kept => [("A3S_SEC_CAP_KEEP", join "," kept)]
       | None => []
       end.

Definition security_entries (sc : LinuxContainerSecurityContext) : list (string * string) :=
  entry_if (negb (is_nil (sc_supplemental_groups sc))) "A3S_SEC_SUPPLEMENTAL_GROUPS"
    (join "," (show_int <$> sc_supplemental_groups sc)) ++
  entry_if (negb (is_nil (sc_masked_paths sc))) "A3S_SEC_MASKED_PATHS" (join ":" (sc_masked_paths sc)) ++
  entry_if (negb (is_nil (sc_readonly_paths sc))) "A3S_SEC_READONLY_PATHS" (join ":" (sc_readonly_paths sc)) ++
  seccomp_entries sc ++ capability_entries sc ++
  entry_if (sc_no_new_privs sc && negb (sc_privileged sc)) "A3S_SEC_NO_NEW_PRIVS" "1" ++
  entry_if (sc_readonly_rootfs sc) "A3S_SEC_READONLY_ROOTFS" "1".

(** The environment of the container: the image's and the pod's without the runtime's own
    names, then the runtime's entries *)
Definition plain_env (cfg : ContainerConfig) (image : option OciImageConfig) : list (string * string) :=
  List.filter (λ kv, negb (starts_with "A3S_SEC_" kv.1)) (merge_env (from_option oc_env [] image) (cc_envs cfg)).

Definition envelope (cfg : ContainerConfig) : list (string * string) :=
  resource_entries (resources cfg) ++ from_option security_entries [] (security_context cfg).

Definition container_env (cfg : ContainerConfig) (image : option OciImageConfig) : list (string * string) :=
  plain_env cfg image ++ envelope cfg.

Definition apparmor_localhost (sc : LinuxContainerSecurityContext) : option string :=
  match sc_apparmor sc with
  | Some p => match sp_type p with PtLocalhost => Some (sp_localhost_ref p) | _ => strip_prefix "localhost/" (sc_apparmor_profile sc) end
  | None => strip_prefix "localhost/" (sc_apparmor_profile sc)
  end.

(** The refusals of the security context *)
Definition check_security (sc : option LinuxContainerSecurityContext) : result create_error () :=
  match sc with
  | None => Ok ()
  | Some sc =>
      if bool_decide (is_Some (sc_run_as_group sc)) && negb (bool_decide (is_Some (sc_run_as_user sc)))
         && is_empty (sc_run_as_username sc)
      then Err GroupWithoutUser
      else
        match apparmor_localhost sc with
        | Some p =>
            let p := trim p in
            if is_empty p || negb (apparmor_profile_loaded p) then Err (AppArmorNotLoaded p) else Ok ()
        | None => Ok ()
        end
  end.

(** ** Mounts ([mounts.rs]) *)

(** [Path::components] of an absolute path: empty parts and dots do not count. *)
Definition path_parts (path : string) : list string :=
  List.filter (λ c, negb (is_empty c) && negb (bool_decide (c = "."))) (split "/" path).

Definition container_path_inside_rootfs (rootfs path : string) : result create_error string :=
  if negb (starts_with "/" path) then Err (MountPathRelative path)
  else
    let parts := path_parts path in
    if bool_decide (".." ∈ parts) then Err (MountEscapes path)
    else match parts with [] => Err MountIsRoot | _ => Ok (rootfs +:+ "/" +:+ join "/" parts) end.

(** What is done to the host's files, in order *)
Inductive rootfs_effect :=
  | Prepared (path : string)
  | Bound (source target : string) (readonly : bool)
  | Cleaned (path : string).

Definition materialize_container_mount (rootfs : string) (m : ContainerMount)
    : list rootfs_effect * result create_error () :=
  if negb (ce_source_exists w (cm_host_path m)) then ([], Err (MountSourceMissing (cm_host_path m)))
  else
    match container_path_inside_rootfs rootfs (cm_container_path m) with
    | Err e => ([], Err e)
    | Ok target =>
        if ce_bind w (cm_host_path m) target then ([Bound (cm_host_path m) target (cm_readonly m)], Ok ())
        else ([], Err MountFailed)
    end.

Fixpoint mount_each (rootfs : string) (ms : list ContainerMount) : list rootfs_effect * result create_error () :=
  match ms with
  | [] => ([], Ok ())
  | m :: ms =>
      match materialize_container_mount rootfs m with
      | (es, Err e) => (es, Err e)
      | (es, Ok _) => let '(es', r) := mount_each rootfs ms in (es ++ es', r)
      end
  end.

Definition materialize_container_mounts (rootfs : string) (ms : list ContainerMount)
    : list rootfs_effect * result create_error () :=
  match ms with
  | [] => ([], Ok ())
  | _ => if is_empty (trim rootfs) then ([], Err MountsNeedRootfs) else mount_each rootfs ms
  end.

(** [cleanup_container_rootfs_path]: only below the directory of the container roots *)
Definition cleanup_container_rootfs_path (path : string) : list rootfs_effect :=
  if is_empty (trim path) then []
  else if bool_decide (path = ce_rootfs_base w) || starts_with (ce_rootfs_base w +:+ "/") path then [Cleaned path]
  else [].

(** ** The handler *)

Definition resolve_container_image (image : string) : result create_error (option ResolvedContainerImage) :=
  if is_empty image then Ok None else Some <$> ce_image w image.

Definition GUEST_BASE : string := "/run/a3s/cri/container-rootfs".

Definition rootfs_tail (sandbox container : string) : string :=
  sanitize_path_component sandbox +:+ "/" +:+ sanitize_path_component container +:+ "/rootfs".

Definition container_rootfs_paths (sandbox container : string) : string * string :=
  (ce_rootfs_base w +:+ "/" +:+ rootfs_tail sandbox container, GUEST_BASE +:+ "/" +:+ rootfs_tail sandbox container).

(** [Path::join] *)
Definition join_path (base p : string) : string :=
  if starts_with "/" p then p else if is_empty base || ends_with "/" base then base +:+ p else base +:+ "/" +:+ p.

Definition new_container (sb : PodSandbox) (cfg : ContainerConfig) (meta : string * Z) (image_ref : string)
    (image : option ResolvedContainerImage) (mounts : list ContainerMount) (rootfs : string * string) : Container :=
  let config := ri_config <$> image in
  let '(command, args) := resolve_command_and_args cfg config in
  {| ct_id := ce_id w; ct_sandbox_id := sb_id sb; ct_name := meta.1; ct_attempt := meta.2;
     ct_image_ref := image_ref; ct_resolved_image_digest := from_option ri_digest "" image;
     ct_resolved_image_path := from_option ri_path "" image; ct_command := command; ct_args := args;
     ct_env := container_env cfg config;
     ct_working_dir := (if is_empty (cc_working_dir cfg) then default "" (config ≫= oc_working_dir) else cc_working_dir cfg);
     ct_user := match container_user_from_linux_config (cc_linux cfg) with Some u => Some u | None => config ≫= oc_user end;
     ct_stdin := cc_stdin cfg; ct_stdin_once := cc_stdin_once cfg; ct_tty := cc_tty cfg; ct_mounts := mounts;
     ct_state := Created; ct_created_at := ce_now w; ct_started_at := 0; ct_finished_at := 0; ct_exit_code := 0;
     ct_oom_killed := false; ct_labels := cc_labels cfg; ct_annotations := cc_annotations cfg;
     ct_log_path := (if is_empty (cc_log_path cfg) then "" else join_path (sb_log_directory sb) (cc_log_path cfg));
     ct_rootfs_path := rootfs.1; ct_rootfs_guest_path := rootfs.2 |}.

(** The part before anything is allocated *)
Definition checked (sb : option PodSandbox) (cfg : option ContainerConfig)
    : result create_error (PodSandbox * ContainerConfig * (string * Z) * list ContainerMount * option ResolvedContainerImage) :=
  sb ← ok_or SandboxUnknown sb;
  _ ← (if bool_decide (sb_state sb = Ready) then Ok () else Err SandboxNotReady);
  cfg ← ok_or ConfigRequired cfg;
  meta ← ok_or MetadataRequired (cc_metadata cfg);
  _ ← validate_namespace_options (match security_context cfg with Some sc => sc_namespace_options sc | None => None end);
  _ ← (match cc_devices cfg with O => Ok () | _ => Err DevicesUnsupported end);
  mounts ← resolve_container_mounts (cc_mounts cfg);
  image ← resolve_container_image (default "" (cc_image cfg));
  _ ← check_security (security_context cfg);
  Ok (sb, cfg, meta, mounts, image).

Definition create_container `{HashOrder} (io : cri_io) (sandbox_id : string) (cfg : option ContainerConfig) (s : Svc)
    : list rootfs_effect * Svc * result create_error string :=
  match checked (sandbox_of s sandbox_id) cfg with
  | Err e => ([], s, Err e)
  | Ok (sb, cfg, meta, mounts, image) =>
      let paths := match image with Some _ => container_rootfs_paths sandbox_id (ce_id w) | None => ("", "") end in
      let built := match image with Some _ => ce_build_rootfs w paths.1 | None => true end in
      let prepared := match image with Some _ => [Prepared paths.1] | None => [] end in
      if negb built then (prepared ++ cleanup_container_rootfs_path paths.1, s, Err RootfsFailed)
      else
        match materialize_container_mounts paths.1 mounts with
        | (bound, Err e) => (prepared ++ bound ++ cleanup_container_rootfs_path paths.1, s, Err e)
        | (bound, Ok _) =>
            let c := new_container sb cfg meta (default "" (cc_image cfg)) image mounts paths in
            (prepared ++ bound,
             emit (with_store s (add_container io c (sv_store s))) (CreatedEvent (ce_id w) "ContainerCreated"), Ok (ce_id w))
        end
  end.

(** ** Exec requests for a container *)

Definition entry (kv : string * string) : string := kv.1 +:+ "=" +:+ kv.2.

(** [ExecSync] *)
Definition exec_sync_request (c : Container) (cmd : list string) (timeout : Z) : ExecRequest :=
  {| er_cmd := cmd;
     er_timeout_ns := (if 0 <? timeout then wrap 64 (wrap 64 timeout * 1000000000) else DEFAULT_EXEC_TIMEOUT_NS);
     er_env := entry <$> List.filter (λ kv, starts_with "A3S_SEC_" kv.1) (ct_env c);
     er_working_dir := None; er_rootfs := non_empty (ct_rootfs_guest_path c); er_stdin := None;
     er_stdin_streaming := false; er_user := ct_user c; er_streaming := false |}.

(** [Exec] and the streaming server behind it: the session knows the command and the root *)
Definition streaming_exec_request (c : Container) (cmd : list string) (stdin : bool) : ExecRequest :=
  {| er_cmd := cmd; er_timeout_ns := DEFAULT_EXEC_TIMEOUT_NS; er_env := []; er_working_dir := None;
     er_rootfs := non_empty (ct_rootfs_guest_path c); er_stdin := None; er_stdin_streaming := stdin;
     er_user := None; er_streaming := false |}.
End create.

(** ** Entries of an environment *)

Fixpoint lookup_key (key : string) (l : list (string * string)) : option string :=
  match l with [] => None | kv :: l => if String.eqb key kv.1 then Some kv.2 else lookup_key key l end.

Definition has_kv (key value : string) (l : list (string * string)) : bool :=
  existsb (λ kv, String.eqb key kv.1 && String.eqb value kv.2) l.

Lemma lookup_key_app k a b : lookup_key k (a ++ b) = match lookup_key k a with Some v => Some v | None => lookup_key k b end.
Proof. induction a as [|kv a IH]; cbn; [done|]. by destruct (String.eqb k kv.1). Qed.
Lemma has_kv_app k v a b : has_kv k v (a ++ b) = has_kv k v a || has_kv k v b.
Proof. apply existsb_app. Qed.
Lemma lookup_key_if k b k' v : lookup_key k (entry_if b k' v) = if b && String.eqb k k' then Some v else None.
Proof. by destruct b. Qed.
Lemma has_kv_if k v b k' v' : has_kv k v (entry_if b k' v') = b && (String.eqb k k' && String.eqb v v').
Proof. destruct b; cbn; [by rewrite orb_false_r|done]. Qed.

Lemma find_entry_app p a b : find_entry p (a ++ b) = match find_entry p a with Some v => Some v | None => find_entry p b end.
Proof. induction a as [|e a IH]; cbn; [done|]. by destruct (strip_prefix p e). Qed.

(** A key without [=] is found by its own entries only. *)
Lemma strip_key K k v : has_char "=" K = false → has_char "=" k = false →
  strip_prefix (K +:+ "=") (k +:+ "=" +:+ v) = if String.eqb K k then Some v else None.
Proof.
  revert k. induction K as [|a K IH]; intros [|b k] HK Hk; cbn in *; try done.
  - destruct (Ascii.eqb "=" b) eqn:Hb; [|by destruct b as [[] [] [] [] [] [] [] []]].
    apply Ascii.eqb_eq in Hb as <-. done.
  - apply orb_false_iff in HK as [Ha _]. destruct (Ascii.eqb a "=") eqn:E; [|done].
    apply Ascii.eqb_eq in E as ->. done.
  - apply orb_false_iff in HK as [_ HK], Hk as [_ Hk].
    destruct (Ascii.eqb a b) eqn:E; [|done]. by apply IH.
Qed.

Lemma find_entry_keys K l : has_char "=" K = false → Forall (λ kv, has_char "=" kv.1 = false) l →
  find_entry (K +:+ "=") (entry <$> l) = lookup_key K l.
Proof.
  intros HK. induction 1 as [|[k v] l Hk _ IH]; cbn [fmap list_fmap find_entry lookup_key]; [done|].
  unfold entry at 1. cbn [fst snd]. rewrite strip_key by done. destruct (String.eqb K k); [done|]. apply IH.
Qed.

(** A prefix without [=] that an entry has is a prefix of its key. *)
Lemma key_prefix p k v : has_char "=" p = false → starts_with p (k +:+ "=" +:+ v) = true → starts_with p k = true.
Proof.
  revert k. induction p as [|a p IH]; intros [|b k] Hp Hs; try done.
  - cbn in Hp. apply orb_false_iff in Hp as [Ha _]. unfold starts_with in Hs. cbn in Hs.
    destruct (Ascii.eqb a "=") eqn:E; [|done]. apply Ascii.eqb_eq in E as ->. done.
  - cbn in Hp. apply orb_false_iff in Hp as [_ Hp]. unfold starts_with in *. cbn in Hs |- *.
    destruct (Ascii.eqb a b); [|done]. exact (IH k Hp Hs).
Qed.

Definition not_sec (kv : string * string) : Prop := starts_with "A3S_SEC_" kv.1 = false.

Lemma not_sec_entry kv s : not_sec kv → strip_prefix ("A3S_SEC_" +:+ s) (entry kv) = None.
Proof.
  intros Hn. destruct (strip_prefix ("A3S_SEC_" +:+ s) (entry kv)) as [r|] eqn:E; [|done].
  apply strip_prefix_Some in E. exfalso. unfold not_sec in Hn.
  rewrite (key_prefix "A3S_SEC_" kv.1 kv.2) in Hn; [done|done|].
  change (kv.1 +:+ "=" +:+ kv.2) with (entry kv). rewrite E, str_app_assoc. apply starts_with_spec. eauto.
Qed.

Lemma find_entry_not_sec s l : Forall not_sec l → find_entry ("A3S_SEC_" +:+ s) (entry <$> l) = None.
Proof. induction 1 as [|kv l Hk _ IH]; cbn [fmap list_fmap find_entry]; [done|]. by rewrite not_sec_entry. Qed.

(** The entries of the runtime are found whatever else the environment holds. *)
Lemma find_sec r plain l : Forall not_sec plain → has_char "=" r = false → Forall (λ kv, has_char "=" kv.1 = false) l →
  find_entry (("A3S_SEC_" +:+ r) +:+ "=") (entry <$> plain ++ l) = lookup_key ("A3S_SEC_" +:+ r) l.
Proof.
  intros Hp Hr Hl. rewrite fmap_app, find_entry_app, str_app_assoc, find_entry_not_sec by done.
  rewrite <-str_app_assoc. apply find_entry_keys; [|done]. by rewrite has_char_app, Hr.
Qed.

Lemma entry_eqb k v k' v' : has_char "=" k = false → has_char "=" k' = false →
  bool_decide (entry (k', v') = entry (k, v)) = String.eqb k k' && String.eqb v v'.
Proof.
  intros Hk Hk'. apply eq_true_iff_eq. rewrite bool_decide_eq_true, andb_true_iff, !String.eqb_eq. split; [|by intros [-> ->]].
  intros E. pose proof (strip_key k k' v' Hk Hk') as H1. unfold entry in E. cbn [fst snd] in E. rewrite E in H1.
  rewrite strip_key, String.eqb_refl in H1 by done. destruct (String.eqb_spec k k'); [|done]. split; [done|congruence].
Qed.

Lemma has_sec r v plain l : Forall not_sec plain → has_char "=" r = false → Forall (λ kv, has_char "=" kv.1 = false) l →
  has_entry (entry ("A3S_SEC_" +:+ r, v)) (entry <$> plain ++ l) = has_kv ("A3S_SEC_" +:+ r) v l.
Proof.
  intros Hp Hr Hl. unfold has_entry, has_kv. rewrite fmap_app, existsb_app.
  replace (existsb _ (entry <$> plain)) with false.
  - cbn [orb]. induction Hl as [|[k u] l Hk _ IH]; [done|]. cbn [fmap list_fmap existsb]. rewrite IH. f_equal.
    apply entry_eqb; [|done]. by rewrite has_char_app, Hr.
  - symmetry. induction Hp as [|kv plain Hk _ IH]; [done|]. cbn [fmap list_fmap existsb]. rewrite IH, orb_false_r.
    apply bool_decide_eq_false. intros E. pose proof (not_sec_entry kv (r +:+ "=" +:+ v) Hk) as H1. rewrite E in H1.
    unfold entry in H1. cbn [fst snd] in H1. rewrite str_app_assoc in H1.
    rewrite <-(str_app_nil_r ("A3S_SEC_" +:+ r +:+ "=" +:+ v)) in H1 at 2. by rewrite strip_prefix_app in H1.
Qed.

Lemma parse_int_show n : 0 ≤ n < 2 ^ 63 → parse_int 64 (show_uint n) = Some n.
Proof.
  intros Hn. pose proof (show_uint_digits n ltac:(lia)) as Hd.
  assert (Hp : parse_int 64 (show_uint n) = m ← parse_uint 64 (show_uint n); if m <? 2 ^ (64 - 1) then Some m else None).
  { destruct (show_uint n) as [|a r]; [done|]. cbn in Hd. apply andb_true_iff in Hd as [Ha _].
    destruct a as [[] [] [] [] [] [] [] []]; first [reflexivity|discriminate]. }
  rewrite Hp, parse_show_uint by (unfold in_range; lia). cbn [mbind option_bind].
  by rewrite (proj2 (Z.ltb_lt _ _)) by lia.
Qed.

(** Lists of names in an entry *)
Definition plain_word (n : string) : Prop :=
  n ≠ "" ∧ has_char "," n = false ∧ str_forallb visible n = true.

Lemma csv_names_join l : Forall plain_word l → csv_names (join "," l) = l.
Proof.
  intros Hl. unfold csv_names. destruct l as [|n l]; [done|].
  rewrite split_join; [|done|].
  - clear -Hl. induction Hl as [|m ms (Hne & _ & Hv) _ IH]; [done|]. cbn [fmap list_fmap List.filter].
    rewrite (trim_visible m Hv). destruct m; [done|]. cbn [is_empty negb]. by rewrite IH.
  - eapply list.Forall_impl; [exact Hl|]. by intros m (_ & Hc & _).
Qed.

(** ** The envelope reaches the guest *)

Section envelope.
Context (w : CreateEnv).

Definition wants_default (sc : LinuxContainerSecurityContext) : bool :=
  negb (sc_privileged sc) &&
  match sc_seccomp sc with
  | Some p =>
      match sp_type p with
      | PtRuntimeDefault => true
      | PtUnconfined => false
      | PtLocalhost => negb (bool_decide (is_Some (parse_localhost_seccomp_deny w (sp_localhost_ref p))))
      end
  | None => false
  end.

Definition denied_calls (sc : LinuxContainerSecurityContext) : list string :=
  if sc_privileged sc then []
  else match sc_seccomp sc with
       | Some {| sp_type := PtLocalhost; sp_localhost_ref := ref |} => default [] (parse_localhost_seccomp_deny w ref)
       | _ => []
       end.

Definition sec_key (kv : string * string) : Prop := has_char "=" kv.1 = false ∧ starts_with "A3S_SEC_" kv.1 = true.

Lemma entry_if_sec b k v : sec_key (k, v) → Forall sec_key (entry_if b k v).
Proof. destruct b; [by constructor|constructor]. Qed.

Lemma seccomp_sec sc : Forall sec_key (seccomp_entries w sc).
Proof. unfold seccomp_entries. repeat case_match; repeat constructor. Qed.
Lemma capability_sec sc : Forall sec_key (capability_entries w sc).
Proof. unfold capability_entries. repeat case_match; repeat constructor. Qed.

Lemma envelope_sec cfg : Forall sec_key (envelope w cfg).
Proof.
  unfold envelope. apply Forall_app. split.
  - unfold resource_entries. destruct (resources cfg); [|done]. rewrite !Forall_app. split_and!; by apply entry_if_sec.
  - destruct (security_context cfg) as [sc|]; [|done]. cbn [from_option]. unfold security_entries. rewrite !Forall_app.
    split_and!; try (by apply entry_if_sec); [apply seccomp_sec|apply capability_sec].
Qed.

Lemma envelope_plain cfg : Forall (λ kv, has_char "=" kv.1 = false) (envelope w cfg).
Proof. eapply list.Forall_impl; [apply envelope_sec|]. by intros ? []. Qed.

Lemma seccomp_other K sc : String.eqb K "A3S_SEC_SECCOMP" = false → String.eqb K "A3S_SEC_SECCOMP_LOCALHOST" = false →
  lookup_key K (seccomp_entries w sc) = None.
Proof. intros H1 H2. unfold seccomp_entries. repeat case_match; cbn [lookup_key fst]; by rewrite ?H1, ?H2. Qed.
Lemma capability_other K sc : String.eqb K "A3S_SEC_CAP_KEEP" = false → lookup_key K (capability_entries w sc) = None.
Proof. intros H1. unfold capability_entries. repeat case_match; cbn [lookup_key fst]; by rewrite ?H1. Qed.
Lemma seccomp_has_other K v sc : String.eqb K "A3S_SEC_SECCOMP" = false → String.eqb K "A3S_SEC_SECCOMP_LOCALHOST" = false →
  has_kv K v (seccomp_entries w sc) = false.
Proof. intros H1 H2. unfold seccomp_entries. repeat case_match; unfold has_kv; cbn [existsb fst]; by rewrite ?H1, ?H2. Qed.
Lemma capability_has_other K v sc : String.eqb K "A3S_SEC_CAP_KEEP" = false → has_kv K v (capability_entries w sc) = false.
Proof. intros H1. unfold capability_entries. repeat case_match; unfold has_kv; cbn [existsb fst]; by rewrite ?H1. Qed.

(** Looking a literal name up among the entries *)
Ltac entries :=
  unfold security_entries;
  repeat (rewrite lookup_key_app || rewrite has_kv_app || rewrite lookup_key_if || rewrite has_kv_if
    || (rewrite seccomp_other by reflexivity) || (rewrite capability_other by reflexivity)
    || (rewrite seccomp_has_other by reflexivity) || (rewrite capability_has_other by reflexivity));
  cbn [String.eqb Ascii.eqb Bool.eqb]; rewrite ?andb_false_r, ?andb_true_r, ?orb_false_r; cbn [orb].

Lemma resources_other K r : String.eqb K "A3S_SEC_MEM_LIMIT" = false → String.eqb K "A3S_SEC_CPU_QUOTA" = false →
  String.eqb K "A3S_SEC_CPU_PERIOD" = false → String.eqb K "A3S_SEC_CPU_SHARES" = false →
  lookup_key K (resource_entries r) = None ∧ ∀ v, has_kv K v (resource_entries r) = false.
Proof.
  intros H1 H2 H3 H4. destruct r as [r|]; [|done]. unfold resource_entries. split; [|intros v].
  - by rewrite !lookup_key_app, !lookup_key_if, H1, H2, H3, H4, !andb_false_r.
  - by rewrite !has_kv_app, !has_kv_if, H1, H2, H3, H4, !andb_false_r.
Qed.

Lemma envelope_lookup K cfg sc : security_context cfg = Some sc →
  lookup_key K (resource_entries (resources cfg)) = None →
  lookup_key K (envelope w cfg) = lookup_key K (security_entries w sc).
Proof. intros Hsc Hr. unfold envelope. rewrite lookup_key_app, Hr, Hsc. done. Qed.

Lemma envelope_has K v cfg sc : security_context cfg = Some sc →
  has_kv K v (resource_entries (resources cfg)) = false →
  has_kv K v (envelope w cfg) = has_kv K v (security_entries w sc).
Proof. intros Hsc Hr. unfold envelope. rewrite has_kv_app, Hr, Hsc. done. Qed.

Ltac sec_lookup :=
  rewrite find_sec by (done || apply envelope_plain); erewrite envelope_lookup by (eassumption || by apply resources_other);
  entries.
Ltac sec_has :=
  rewrite has_sec by (done || apply envelope_plain); erewrite envelope_has by (eassumption || by apply resources_other);
  entries.

Section found.
Context (cfg : ContainerConfig) (sc : LinuxContainerSecurityContext) (plain : list (string * string)).
Context (Hsc : security_context cfg = Some sc) (Hplain : Forall not_sec plain).
Let guest_env : list string := entry <$> plain ++ envelope w cfg.

Lemma found_keep : find_entry "A3S_SEC_CAP_KEEP=" guest_env =
  if sc_privileged sc then None else join "," <$> kept_capabilities w (sc_capabilities sc).
Proof.
  change "A3S_SEC_CAP_KEEP=" with (("A3S_SEC_" +:+ "CAP_KEEP") +:+ "="). unfold guest_env. sec_lookup.
  unfold capability_entries. destruct (sc_privileged sc); [done|]. by destruct (kept_capabilities w _).
Qed.

Lemma found_drop : find_entry "A3S_SEC_CAP_DROP=" guest_env = None.
Proof. change "A3S_SEC_CAP_DROP=" with (("A3S_SEC_" +:+ "CAP_DROP") +:+ "="). unfold guest_env. by sec_lookup. Qed.

Lemma found_localhost : from_option csv_names [] (find_entry "A3S_SEC_SECCOMP_LOCALHOST=" guest_env) =
  csv_names (join "," (denied_calls sc)).
Proof.
  change "A3S_SEC_SECCOMP_LOCALHOST=" with (("A3S_SEC_" +:+ "SECCOMP_LOCALHOST") +:+ "="). unfold guest_env. sec_lookup.
  unfold seccomp_entries, denied_calls. destruct (sc_seccomp sc) as [[ty ref]|]; cbn [sp_type sp_localhost_ref];
    destruct (sc_privileged sc); try done. destruct ty; try done. by destruct (parse_localhost_seccomp_deny w ref).
Qed.

Lemma found_seccomp : has_entry "A3S_SEC_SECCOMP=default" guest_env = wants_default sc.
Proof.
  change "A3S_SEC_SECCOMP=default" with (entry ("A3S_SEC_" +:+ "SECCOMP", "default")). unfold guest_env. sec_has.
  unfold seccomp_entries, wants_default. destruct (sc_seccomp sc) as [[ty ref]|]; cbn [sp_type sp_localhost_ref];
    destruct (sc_privileged sc); try done. destruct ty; try done. by destruct (parse_localhost_seccomp_deny w ref).
Qed.

Lemma found_nnp : has_entry "A3S_SEC_NO_NEW_PRIVS=1" guest_env = sc_no_new_privs sc && negb (sc_privileged sc).
Proof.
  change "A3S_SEC_NO_NEW_PRIVS=1" with (entry ("A3S_SEC_" +:+ "NO_NEW_PRIVS", "1")). unfold guest_env. by sec_has.
Qed.

Lemma found_readonly : has_entry "A3S_SEC_READONLY_ROOTFS=1" guest_env = sc_readonly_rootfs sc.
Proof.
  change "A3S_SEC_READONLY_ROOTFS=1" with (entry ("A3S_SEC_" +:+ "READONLY_ROOTFS", "1")). unfold guest_env. by sec_has.
Qed.

Lemma found_paths (r : string) (ps : list string) :
  has_char "=" r = false → lookup_key ("A3S_SEC_" +:+ r) (envelope w cfg) = (if is_nil ps then None else Some (join ":" ps)) →
  Forall (λ p, p ≠ "" ∧ has_char ":" p = false) ps →
  parse_sec_path_list guest_env (("A3S_SEC_" +:+ r) +:+ "=") = ps.
Proof.
  intros Hr Hl Hps. unfold parse_sec_path_list, guest_env. rewrite find_sec by (done || apply envelope_plain). rewrite Hl.
  destruct ps as [|p ps]; [done|]. cbn [is_nil].
  rewrite split_join; [|done|eapply list.Forall_impl; [exact Hps|]; by intros ? []].
  clear -Hps. induction Hps as [|q qs [Hq _] _ IH]; [done|]. cbn [List.filter]. destruct q; [done|]. cbn. by rewrite IH.
Qed.

Lemma found_masked : Forall (λ p, p ≠ "" ∧ has_char ":" p = false) (sc_masked_paths sc) →
  parse_sec_path_list guest_env "A3S_SEC_MASKED_PATHS=" = sc_masked_paths sc.
Proof.
  intros H. change "A3S_SEC_MASKED_PATHS=" with (("A3S_SEC_" +:+ "MASKED_PATHS") +:+ "="). apply found_paths; [done| |done].
  erewrite envelope_lookup by (eassumption || by apply resources_other). entries. by destruct (sc_masked_paths sc).
Qed.

Lemma found_readonly_paths : Forall (λ p, p ≠ "" ∧ has_char ":" p = false) (sc_readonly_paths sc) →
  parse_sec_path_list guest_env "A3S_SEC_READONLY_PATHS=" = sc_readonly_paths sc.
Proof.
  intros H. change "A3S_SEC_READONLY_PATHS=" with (("A3S_SEC_" +:+ "READONLY_PATHS") +:+ "="). apply found_paths; [done| |done].
  erewrite envelope_lookup by (eassumption || by apply resources_other). entries. by destruct (sc_readonly_paths sc).
Qed.

(** No entry of the security context is a limit. *)
Lemma security_no_limit K : String.eqb K "A3S_SEC_SUPPLEMENTAL_GROUPS" = false → String.eqb K "A3S_SEC_MASKED_PATHS" = false →
  String.eqb K "A3S_SEC_READONLY_PATHS" = false → String.eqb K "A3S_SEC_SECCOMP" = false →
  String.eqb K "A3S_SEC_SECCOMP_LOCALHOST" = false → String.eqb K "A3S_SEC_CAP_KEEP" = false →
  String.eqb K "A3S_SEC_NO_NEW_PRIVS" = false → String.eqb K "A3S_SEC_READONLY_ROOTFS" = false →
  lookup_key K (security_entries w sc) = None.
Proof.
  intros H1 H2 H3 H4 H5 H6 H7 H8. unfold security_entries.
  by rewrite !lookup_key_app, !lookup_key_if, seccomp_other, capability_other, H1, H2, H3, H7, H8, !andb_false_r by done.
Qed.

Lemma found_limit r K : resources cfg = Some r → has_char "=" K = false →
  lookup_key ("A3S_SEC_" +:+ K) (security_entries w sc) = None →
  find_entry (("A3S_SEC_" +:+ K) +:+ "=") guest_env = lookup_key ("A3S_SEC_" +:+ K) (resource_entries (Some r)).
Proof.
  intros Hr HK Hs. unfold guest_env. rewrite find_sec by (done || apply envelope_plain).
  unfold envelope. rewrite Hr, Hsc, lookup_key_app. cbn [from_option]. rewrite Hs.
  by destruct (lookup_key ("A3S_SEC_" +:+ K) (resource_entries (Some r))).
Qed.

Lemma found_memory r : resources cfg = Some r → lr_memory_limit_in_bytes r < 2 ^ 63 →
  parse_sec_mem_limit guest_env =
  (if 0 <? lr_memory_limit_in_bytes r then Some (lr_memory_limit_in_bytes r) else None).
Proof.
  intros Hr Hm. unfold parse_sec_mem_limit. change "A3S_SEC_MEM_LIMIT=" with (("A3S_SEC_" +:+ "MEM_LIMIT") +:+ "=").
  rewrite (found_limit r) by (done || by apply security_no_limit). unfold resource_entries. entries.
  destruct (Z.ltb_spec 0 (lr_memory_limit_in_bytes r)) as [Hpos|]; [|done]. cbn [mbind option_bind].
  unfold show_int. rewrite (proj2 (Z.ltb_ge _ _)) by lia.
  rewrite trim_visible by (apply show_uint_visible; lia). rewrite parse_show_uint by (unfold in_range; lia). cbn.
  by rewrite (proj2 (Z.ltb_lt _ _)).
Qed.

Lemma found_int r K n : resources cfg = Some r → has_char "=" K = false → 0 < n < 2 ^ 63 →
  lookup_key ("A3S_SEC_" +:+ K) (security_entries w sc) = None →
  lookup_key ("A3S_SEC_" +:+ K) (resource_entries (Some r)) = Some (show_int n) →
  parse_sec_int guest_env (("A3S_SEC_" +:+ K) +:+ "=") = Some n.
Proof.
  intros Hr HK Hn Hs Hl. unfold parse_sec_int. rewrite (found_limit r) by done. rewrite Hl. cbn [mbind option_bind].
  unfold show_int. rewrite (proj2 (Z.ltb_ge _ _)) by lia.
  rewrite trim_visible by (apply show_uint_visible; lia). apply parse_int_show. lia.
Qed.

Lemma found_cpu r : resources cfg = Some r → 0 < lr_cpu_quota r < 2 ^ 63 → 0 < lr_cpu_period r < 2 ^ 63 →
  0 < lr_cpu_shares r < 2 ^ 63 →
  parse_sec_int guest_env "A3S_SEC_CPU_QUOTA=" = Some (lr_cpu_quota r) ∧
  parse_sec_int guest_env "A3S_SEC_CPU_PERIOD=" = Some (lr_cpu_period r) ∧
  parse_sec_int guest_env "A3S_SEC_CPU_SHARES=" = Some (lr_cpu_shares r).
Proof.
  intros Hr Hq Hp Hsh.
  assert ((0 <? lr_cpu_quota r) = true) as Eq by (apply Z.ltb_lt; lia).
  assert ((0 <? lr_cpu_period r) = true) as Ep by (apply Z.ltb_lt; lia).
  assert ((0 <? lr_cpu_shares r) = true) as Es by (apply Z.ltb_lt; lia).
  split_and!; [apply (found_int r "CPU_QUOTA")|apply (found_int r "CPU_PERIOD")|apply (found_int r "CPU_SHARES")]; try done;
    try (by apply security_no_limit); unfold resource_entries; rewrite Eq, ?Ep, ?Es; by destruct (0 <? lr_memory_limit_in_bytes r).
Qed.
End found.
End envelope.

(** ** A container is confined as its request says *)

Lemma plain_env_not_sec cfg image : Forall not_sec (plain_env cfg image).
Proof.
  unfold plain_env. apply list.Forall_forall. intros kv Hin. apply list_elem_of_In, filter_In in Hin as [_ Hn].
  by apply negb_true_iff in Hn.
Qed.

Lemma filter_envelope w cfg image :
  List.filter (λ kv, starts_with "A3S_SEC_" kv.1) (container_env w cfg image) = envelope w cfg.
Proof.
  unfold container_env. rewrite List.filter_app.
  assert (H1 : List.filter (λ kv : string * string, starts_with "A3S_SEC_" kv.1) (plain_env cfg image) = []).
  { induction (plain_env_not_sec cfg image) as [|kv l Hk _ IH]; [done|]. cbn [List.filter]. by rewrite Hk. }
  rewrite H1. cbn [app]. induction (envelope_sec w cfg) as [|kv l [_ Hk] _ IH]; [done|]. cbn [List.filter].
  by rewrite Hk, IH.
Qed.

(** Both requests carry the envelope, after entries that cannot be taken for it. *)
Lemma request_env w sb cfg meta image_ref image mounts rootfs req :
  let ct := new_container w sb cfg meta image_ref image mounts rootfs in
  (∃ timeout, to_exec_request ct timeout = Some req) ∨ (∃ cmd secs, req = exec_sync_request ct cmd secs) →
  ∃ plain, Forall not_sec plain ∧ er_env req = entry <$> plain ++ envelope w cfg.
Proof.
  intros ct [[timeout Hr]|(cmd & secs & ->)].
  - exists (plain_env cfg (ri_config <$> image)). split; [apply plain_env_not_sec|].
    assert (ct_env ct = container_env w cfg (ri_config <$> image)) as He
      by (unfold ct, new_container; by destruct (resolve_command_and_args _ _)).
    unfold to_exec_request in Hr. destruct (ct_command ct ++ ct_args ct); [done|]. simplify_eq. cbn [er_env]. by rewrite He.
  - exists []. split; [constructor|]. cbn [er_env exec_sync_request].
    assert (ct_env ct = container_env w cfg (ri_config <$> image)) as ->
      by (unfold ct, new_container; by destruct (resolve_command_and_args _ _)).
    by rewrite filter_envelope.
Qed.

(** The setup the guest derives from a request is the one of the security context. *)
Lemma setup_of_envelope w cfg sc rf req cg pu plain :
  security_context cfg = Some sc → Forall not_sec plain → er_env req = entry <$> plain ++ envelope w cfg →
  (∀ ks, kept_capabilities w (sc_capabilities sc) = Some ks → Forall plain_word ks) → Forall plain_word (denied_calls w sc) →
  let s := setup_of rf req cg pu in
  cs_user s = pu ∧ cs_cap_drop s = [] ∧
  cs_cap_keep s = (if sc_privileged sc then None else kept_capabilities w (sc_capabilities sc)) ∧
  cs_seccomp s = wants_default w sc ∧ cs_localhost s = denied_calls w sc ∧
  cs_no_new_privs s = sc_no_new_privs sc && negb (sc_privileged sc).
Proof.
  intros Hsc Hp He Hk Hd. cbn [setup_of cs_user cs_cap_drop cs_cap_keep cs_seccomp cs_localhost cs_no_new_privs].
  rewrite He. rewrite (found_drop w cfg sc) by done. rewrite (found_keep w cfg sc) by done.
  rewrite (found_seccomp w cfg sc) by done. rewrite (found_localhost w cfg sc) by done. rewrite (found_nnp w cfg sc) by done.
  rewrite csv_names_join by done. split_and!; try done. destruct (sc_privileged sc); [done|].
  destruct (kept_capabilities w _) as [ks|]; [|done]. cbn. by rewrite csv_names_join by auto.
Qed.

(** The user a container is to run as: the one of its security context, else the one of
    its image. *)
Definition wanted_user (cfg : ContainerConfig) (image : option ResolvedContainerImage) : option string :=
  match container_user_from_linux_config (cc_linux cfg) with
  | Some u => Some u
  | None => (ri_config <$> image) ≫= oc_user
  end.

Lemma request_user w sb cfg meta image_ref image mounts rootfs req :
  let ct := new_container w sb cfg meta image_ref image mounts rootfs in
  (∃ timeout, to_exec_request ct timeout = Some req) ∨ (∃ cmd secs, req = exec_sync_request ct cmd secs) →
  er_user req = wanted_user cfg image.
Proof.
  intros ct Hreq. assert (ct_user ct = wanted_user cfg image) as <-
    by (unfold ct, new_container; by destruct (resolve_command_and_args _ _)).
  destruct Hreq as [[timeout Hr]|(cmd & secs & ->)]; [|done].
  unfold to_exec_request in Hr. destruct (ct_command ct ++ ct_args ct); [done|]. by simplify_eq.
Qed.

Lemma build_command_setup `{GuestFs F} rf req cg (g : guest (F := F)) cmd timeout g' :
  build_command rf req cg g = Ok (cmd, timeout, g') →
  ∃ pu, process_user_of rf (er_rootfs req) (er_user req) = Ok pu ∧ cmd_setup cmd = setup_of rf req cg pu.
Proof.
  unfold build_command. destruct (er_cmd req) as [|prog args]; [done|]. intros E.
  destruct (process_user_of _ _ _) as [pu|]; [|done]. exists pu. split; [done|].
  cbn [map_err mbind result_bind] in E. by destruct (check_rootfs rf req g); cbn in E; simplify_eq.
Qed.

(** A user given by number is that user, and in the group given by number. *)
Lemma numbers_of_user rf root cfg sc image u pu :
  security_context cfg = Some sc → is_empty (sc_run_as_username sc) = true →
  sc_run_as_user sc = Some u → in_range 32 u → (∀ g, sc_run_as_group sc = Some g → in_range 32 g) →
  process_user_of rf root (wanted_user cfg image) = Ok pu →
  ∃ p, pu = Some p ∧ pu_uid p = u ∧ ∀ g, sc_run_as_group sc = Some g → pu_gid p = Some g.
Proof.
  intros Hsc Hn Hu Hru Hrg. unfold wanted_user, container_user_from_linux_config.
  unfold security_context in Hsc. rewrite Hsc. cbn [mbind option_bind]. rewrite Hn, Hu. cbn [negb].
  assert (∀ n, in_range 32 n → show_int n = show_uint n) as Hshow.
  { intros n [Hlo _]. unfold show_int. destruct (Z.ltb_spec n 0); [lia|done]. }
  unfold process_user_of. destruct (sc_run_as_group sc) as [g|].
  - specialize (Hrg g eq_refl). rewrite !Hshow by done. cbn [mbind option_bind]. rewrite ?Hshow by done.
    destruct (resolve_number_none u (show_uint g) (rf_passwd rf (default "/" root)) Hru) as [_ ->].
    { apply show_uint_visible. by destruct Hrg. }
    rewrite parse_numbers by done. intros [= <-]. eexists. split_and!; [done..|]. by intros ? [= <-].
  - cbn [mbind option_bind]. rewrite ?Hshow by done.
    destruct (resolve_number_none u "" (rf_passwd rf (default "/" root)) Hru eq_refl) as [-> _].
    rewrite parse_number by done. intros [= <-]. by eexists.
Qed.


(** ** Creating a container *)

Lemma path_parts_ok path part : part ∈ path_parts path → part ≠ "" ∧ part ≠ "." ∧ has_char "/" part = false.
Proof.
  unfold path_parts. intros Hin. apply list_elem_of_In, filter_In in Hin as [Hin [H1 H2]%andb_true_iff].
  split_and!; [by intros ->|by intros ->|]. pose proof (split_pieces "/" path) as Hp. rewrite list.Forall_forall in Hp. by apply Hp, list_elem_of_In.
Qed.

(** A target below the root: its components are names, none of them [..] *)
Definition below (rootfs target : string) : Prop :=
  ∃ parts, parts ≠ [] ∧ target = rootfs +:+ "/" +:+ join "/" parts ∧
    Forall (λ p, p ≠ "" ∧ p ≠ "." ∧ p ≠ ".." ∧ has_char "/" p = false) parts.

Lemma inside_rootfs rootfs path target : container_path_inside_rootfs rootfs path = Ok target → below rootfs target.
Proof.
  unfold container_path_inside_rootfs. destruct (negb _); [done|].
  case_bool_decide as Hdd; [done|]. destruct (path_parts path) as [|p ps] eqn:E; [done|]. intros ?. simplify_eq.
  exists (p :: ps). split_and!; [done|done|]. rewrite <-E. apply list.Forall_forall. intros q Hq.
  destruct (path_parts_ok path q Hq) as (H1 & H2 & H3). split_and!; [done|done| |done]. intros ->. by rewrite E in Hq.
Qed.

Section created.
Context `{HashOrder} (w : CreateEnv) (io : cri_io).

Definition bound_below (rootfs : string) (e : rootfs_effect) : Prop :=
  match e with Bound _ target _ => below rootfs target | _ => False end.

Lemma mount_each_below rootfs ms : Forall (bound_below rootfs) (mount_each w rootfs ms).1.
Proof.
  induction ms as [|m ms IH]; [constructor|]. cbn [mount_each]. unfold materialize_container_mount.
  destruct (negb _); [constructor|]. destruct (container_path_inside_rootfs rootfs (cm_container_path m)) as [target|] eqn:E;
    [|constructor]. destruct (ce_bind w _ target); [|constructor].
  destruct (mount_each w rootfs ms) as [es r]. cbn in *. constructor; [|done]. by eapply inside_rootfs.
Qed.

Lemma cleanup_managed sid : starts_with "/" (ce_rootfs_base w) = true →
  cleanup_container_rootfs_path w (container_rootfs_paths w sid (ce_id w)).1
  = [Cleaned (container_rootfs_paths w sid (ce_id w)).1].
Proof.
  intros Hb. cbn [fst container_rootfs_paths]. unfold cleanup_container_rootfs_path.
  set (p := ce_rootfs_base w +:+ "/" +:+ rootfs_tail sid (ce_id w)).
  assert (Ht : trim p = p).
  { unfold trim. rewrite trim_start_first.
    - apply trim_end_last. unfold p, rootfs_tail. rewrite !str_rev_app_distr, !str_app_assoc. reflexivity.
    - unfold p. apply starts_with_spec in Hb as [r ->]. reflexivity. }
  rewrite Ht. assert (is_empty p = false) as ->.
  { unfold p. by apply starts_with_spec in Hb as [r ->]. }
  assert (starts_with (ce_rootfs_base w +:+ "/") p = true) as ->.
  { apply starts_with_spec. unfold p. exists (rootfs_tail sid (ce_id w)). by rewrite str_app_assoc. }
  by rewrite orb_true_r.
Qed.

(** What a request leaves on the disk when it fails *)
Definition left_nothing (effects : list rootfs_effect) : Prop :=
  effects = [] ∨ ∃ p bound, effects = Prepared p :: bound ++ [Cleaned p] ∧ Forall (bound_below p) bound.

Lemma new_container_id sb c meta ref image mounts paths :
  ct_id (new_container w sb c meta ref image mounts paths) = ce_id w.
Proof. unfold new_container. by destruct (resolve_command_and_args _ _). Qed.

Lemma created_ok sid cfg s sb c meta image mounts paths effects :
  sandbox_of s sid = Some sb ∧ sb_state sb = Ready ∧ cfg = Some c ∧ cc_metadata c = Some meta →
  (∃ p, Forall (λ e, e = Prepared p ∨ bound_below p e) effects) →
  let s' := emit (with_store s (add_container io (new_container w sb c meta (default "" (cc_image c)) image mounts paths)
                    (sv_store s))) (CreatedEvent (ce_id w) "ContainerCreated") in
  ce_id w = ce_id w ∧ sv_vms s' = sv_vms s ∧
  (∀ k, sandbox_of s' k = sandbox_of s k) ∧ (∀ k, k ≠ ce_id w → container_of s' k = container_of s k) ∧
  sv_events s' = sv_events s ++ [CreatedEvent (ce_id w) "ContainerCreated"] ∧
  (∃ sb c meta image mounts paths, sandbox_of s sid = Some sb ∧ sb_state sb = Ready ∧ cfg = Some c ∧
     cc_metadata c = Some meta ∧ container_of s' (ce_id w)
     = Some (new_container w sb c meta (default "" (cc_image c)) image mounts paths)) ∧
  ∃ p, Forall (λ e, e = Prepared p ∨ bound_below p e) effects.
Proof.
  intros (H1 & H2 & H3 & H4) He. cbv zeta.
  assert (Hct : ∀ k, container_of (emit (with_store s (add_container io (new_container w sb c meta (default "" (cc_image c)) image
      mounts paths) (sv_store s))) (CreatedEvent (ce_id w) "ContainerCreated")) k =
    <[ce_id w := new_container w sb c meta (default "" (cc_image c)) image mounts paths]> (cs_containers (sv_store s)) !! k).
  { intros k. rewrite <-(new_container_id sb c meta (default "" (cc_image c)) image mounts paths) at 2. 
    unfold container_of, emit, with_store, add_container, persist. cbn. by destruct (cio_write io). }
  assert (Hsb : ∀ k, sandbox_of (emit (with_store s (add_container io (new_container w sb c meta (default "" (cc_image c)) image
      mounts paths) (sv_store s))) (CreatedEvent (ce_id w) "ContainerCreated")) k = sandbox_of s k).
  { intros k. unfold sandbox_of, emit, with_store, add_container, persist. cbn. by destruct (cio_write io). }
  split; [done|]. split; [done|]. split; [exact Hsb|]. split; [intros k Hk; rewrite Hct; by rewrite lookup_insert_ne|].
  split; [done|]. split; [|done]. exists sb, c, meta, image, mounts, paths. split_and!; [done..|]. rewrite Hct.
  apply lookup_insert_eq.
Qed.

(** C14: CreateContainer is all or nothing.  A request that is refused or fails leaves the
    service as it was, and a root that was prepared for it is removed after whatever was
    bound into it; every bind is to a path below the root of the container, without a [..].
    A request that succeeds adds one container, in state created and with the request's
    settings, publishes its creation and changes no other container and no sandbox. *)
Theorem create_all_or_nothing sid cfg s effects s' r :
  starts_with "/" (ce_rootfs_base w) = true →
  create_container w io sid cfg s = (effects, s', r) →
  match r with
  | Err _ => s' = s ∧ left_nothing effects
  | Ok id => id = ce_id w ∧ sv_vms s' = sv_vms s ∧
      (∀ k, sandbox_of s' k = sandbox_of s k) ∧ (∀ k, k ≠ id → container_of s' k = container_of s k) ∧
      sv_events s' = sv_events s ++ [CreatedEvent id "ContainerCreated"] ∧
      (∃ sb c meta image mounts paths, sandbox_of s sid = Some sb ∧ sb_state sb = Ready ∧ cfg = Some c ∧
         cc_metadata c = Some meta ∧ container_of s' id
         = Some (new_container w sb c meta (default "" (cc_image c)) image mounts paths)) ∧
      ∃ p, Forall (λ e, e = Prepared p ∨ bound_below p e) effects
  end.
Proof.
  intros Hb. unfold create_container.
  destruct (checked w (sandbox_of s sid) cfg) as [[[[[sb c] meta] mounts] image]|] eqn:Hc; last first.
  { intros ?. simplify_eq. split; [done|]. by left. }
  assert (Hpre : sandbox_of s sid = Some sb ∧ sb_state sb = Ready ∧ cfg = Some c ∧ cc_metadata c = Some meta).
  { unfold checked in Hc. destruct (sandbox_of s sid) as [sb0|]; [|done]. cbn [ok_or mbind result_bind] in Hc.
    case_bool_decide; [|done]. cbn in Hc. destruct cfg as [c0|]; [|done]. cbn in Hc.
    destruct (cc_metadata c0) as [m0|] eqn:Em; [|done]. cbn in Hc.
    destruct (validate_namespace_options _); [|done]. cbn in Hc. destruct (cc_devices c0); [|done]. cbn in Hc.
    destruct (resolve_container_mounts _); [|done]. cbn in Hc. destruct (resolve_container_image w _); [|done]. cbn in Hc.
    destruct (check_security w _); [|done]. cbn in Hc. by simplify_eq. }
  destruct image as [img|].
  - pose proof (cleanup_managed sid Hb) as Hcl. set (paths := container_rootfs_paths w sid (ce_id w)) in *.
    destruct (ce_build_rootfs w paths.1); cbn [negb]; last first.
    { intros ?. simplify_eq. split; [done|]. right. exists paths.1, []. by rewrite Hcl. }
    destruct (materialize_container_mounts w paths.1 mounts) as [bound [|e]] eqn:Em;
      (assert (Hbd : Forall (bound_below paths.1) bound) by
        (unfold materialize_container_mounts in Em; destruct mounts; [by simplify_eq|]; destruct (is_empty _); [by simplify_eq|];
         replace bound with ((mount_each w paths.1 (c0 :: mounts)).1) by (by rewrite Em); apply mount_each_below));
      intros ?; simplify_eq.
    + refine (created_ok _ _ _ _ _ _ _ _ _ _ Hpre _).
      exists paths.1. constructor; [by left|]. eapply list.Forall_impl; [exact Hbd|]. auto.
    + split; [done|]. right. exists paths.1, bound. by rewrite Hcl.
  - cbn [negb]. unfold materialize_container_mounts. destruct mounts as [|m ms].
    + intros ?. simplify_eq. refine (created_ok _ _ _ _ _ _ _ _ _ _ Hpre _). exists "". constructor.
    + change (is_empty (trim ("" : string, "" : string).1)) with true. cbn [fst].
      change (cleanup_container_rootfs_path w "") with (@nil rootfs_effect).
      intros ?. simplify_eq. split; [done|]. by left.
Qed.
End created.

(** ** Removing a root ([service_ops.rs]) *)

Fixpoint count_char (c : ascii) (s : string) : nat :=
  match s with "" => O | String a s => (if Ascii.eqb a c then 1 else 0) + count_char c s end.

(** [Vec::dedup] *)
Fixpoint dedup (l : list string) : list string :=
  match l with
  | a :: (b :: _) as r => if String.eqb a b then dedup r else a :: dedup r
  | _ => l
  end.

Definition at_or_under (root mp : string) : bool := String.eqb mp root || starts_with (root +:+ "/") mp.

Definition deepest_first (l : list string) : list string :=
  sort_by (λ a b, (count_char "/" b <=? count_char "/" a)%nat) l.

Definition submounts_under (mountinfo root : string) : list string :=
  let root := trim_end_char "/" root in
  dedup (deepest_first (List.filter (at_or_under root) (omap (λ line, split " " line !! 4%nat) (lines mountinfo)))).

(** The mounts of the host, oldest first, and [umount -l]: the last mount at the path.
    (The kernel detaches what is mounted below it as well, which here stays until its own
    turn; it comes before, deepest first.) *)
Fixpoint umount (mp : string) (ms : list string) : list string :=
  match ms with
  | [] => []
  | m :: ms => if String.eqb m mp && negb (existsb (String.eqb mp) ms) then ms else m :: umount mp ms
  end.

(** A table that cannot be read leaves every mount; an [umount] that fails leaves its mount,
    and the next one is tried all the same. *)
Definition unmount_submounts_under (mountinfo : list string → option string) (umount_ok : string → bool)
    (root : string) (ms : list string) : list string :=
  match mountinfo ms with
  | None => ms
  | Some text => foldl (λ ms mp, if umount_ok mp then umount mp ms else ms) ms (submounts_under text root)
  end.

(** Removing the tree goes through what is still mounted in it. *)
Definition deleted_sources (root : string) (ms : list string) : list string :=
  List.filter (at_or_under (trim_end_char "/" root)) ms.

(** The kernel's text: a line of fields for each mount, the fifth one the mount point with
    white space and backslashes as octal numbers *)
Definition octal (c : ascii) : string :=
  if Ascii.eqb c " " then "\040" else if Ascii.eqb c "009" then "\011" else if Ascii.eqb c nl then "\012"
  else if Ascii.eqb c "\" then "\134" else String c "".
Fixpoint escape (s : string) : string := match s with "" => "" | String c s => octal c +:+ escape s end.

Section cleanup.
Context (ids rest : string → list string).

Definition mount_line (mp : string) : string := join " " (ids mp ++ escape mp :: rest mp).
Definition mount_table (ms : list string) : string := text (mount_line <$> ms).

Definition plain_path (p : string) : Prop :=
  has_char " " p = false ∧ has_char "009" p = false ∧ has_char nl p = false ∧ has_char "\" p = false ∧
  has_char carriage p = false.

Hypothesis ids_four : ∀ mp, length (ids mp) = 4%nat.
Hypothesis fields_plain : ∀ mp, plain_path mp → Forall (λ f, has_char " " f = false) (ids mp ++ mp :: rest mp).
Hypothesis one_lines : ∀ mp, plain_path mp → one_line (mount_line mp).

Lemma escape_plain p : plain_path p → escape p = p.
Proof.
  intros (H1 & H2 & H3 & H4 & _). induction p as [|a p IH]; [done|]. cbn [has_char] in *.
  apply orb_false_iff in H1 as [A1 B1], H2 as [A2 B2], H3 as [A3 B3], H4 as [A4 B4].
  cbn [escape]. unfold octal. rewrite A1, A2, A3, A4. cbn [String.append]. by rewrite IH.
Qed.

Lemma mount_line_point mp : plain_path mp → split " " (mount_line mp) !! 4%nat = Some mp.
Proof.
  intros Hp. unfold mount_line. rewrite escape_plain by done. rewrite split_join; [|by destruct (ids mp)|by apply fields_plain].
  rewrite lookup_app_r by (by rewrite ids_four). by rewrite ids_four.
Qed.

Lemma table_points ms : Forall plain_path ms → omap (λ line, split " " line !! 4%nat) (lines (mount_table ms)) = ms.
Proof.
  intros Hp. unfold mount_table. rewrite text_lines.
  - induction Hp as [|m ms Hm _ IH]; [done|]. cbn. rewrite mount_line_point by done. cbn. by rewrite <-IH at 2.
  - apply Forall_fmap. eapply list.Forall_impl; [exact Hp|]. apply one_lines.
Qed.

Lemma dedup_in x l : x ∈ dedup l ↔ x ∈ l.
Proof.
  induction l as [|a [|b r] IH]; [done..|]. cbn [dedup]. destruct (String.eqb_spec a b) as [->|].
  - rewrite IH. rewrite !elem_of_cons. tauto.
  - rewrite !elem_of_cons, IH, !elem_of_cons. tauto.
Qed.

Lemma umount_in mp x ms : NoDup ms → x ∈ umount mp ms ↔ x ∈ ms ∧ x ≠ mp.
Proof.
  induction 1 as [|m ms Hm Hn IH]; cbn [umount]; [split; [by intros ?%not_elem_of_nil|by intros [?%not_elem_of_nil _]]|].
  destruct (String.eqb_spec m mp) as [->|Hne]; cbn [andb].
  - destruct (existsb (String.eqb mp) ms) eqn:Ee; cbn [negb].
    + apply existsb_exists in Ee as (y & Hy & ->%String.eqb_eq). by apply list_elem_of_In in Hy.
    + rewrite elem_of_cons. split; [intros Hx; split; [by right|congruence]|by intros [[->|?] ?]].
  - rewrite !elem_of_cons, IH. split; [naive_solver|naive_solver].
Qed.

Lemma umount_nodup mp ms : NoDup ms → NoDup (umount mp ms).
Proof.
  induction 1 as [|m ms Hm Hn IH]; cbn [umount]; [constructor|].
  destruct (String.eqb m mp && negb _); [done|]. constructor; [|done]. intros Hx%umount_in; [|done]. naive_solver.
Qed.

Lemma umount_other mp x ms : x ≠ mp → x ∈ umount mp ms ↔ x ∈ ms.
Proof.
  intros Hne. induction ms as [|m ms IH]; cbn [umount]; [done|].
  destruct (String.eqb_spec m mp) as [->|]; cbn [andb]; [|by rewrite !elem_of_cons, IH].
  destruct (negb _); rewrite !elem_of_cons, ?IH; naive_solver.
Qed.

Section unmounting.
Context (umount_ok : string → bool).

Lemma umount_each_other ps x : x ∉ ps → ∀ ms,
  x ∈ foldl (λ ms mp, if umount_ok mp then umount mp ms else ms) ms ps ↔ x ∈ ms.
Proof.
  induction ps as [|p ps IH]; intros Hx ms; cbn [foldl]; [done|].
  apply not_elem_of_cons in Hx as [Hp Hx]. rewrite IH by done.
  destruct (umount_ok p); [by apply umount_other|done].
Qed.

Lemma umount_each_gone ps x : x ∈ ps → umount_ok x = true → ∀ ms, NoDup ms →
  x ∉ foldl (λ ms mp, if umount_ok mp then umount mp ms else ms) ms ps.
Proof.
  intros Hx Hok. induction ps as [|p ps IH]; intros ms Hn; [by apply not_elem_of_nil in Hx|]. cbn [foldl].
  assert (NoDup (if umount_ok p then umount p ms else ms)) as Hn' by (destruct (umount_ok p); [by apply umount_nodup|done]).
  destruct (decide (x ∈ ps)) as [Hin|Hout]; [by apply IH|]. rewrite umount_each_other by done.
  apply elem_of_cons in Hx as [<-|?]; [|done]. rewrite Hok. intros [_ ?]%umount_in; done.
Qed.
End unmounting.

(** Only paths at or under the root are ever given to [umount]. *)
Lemma submounts_below text root x : x ∈ submounts_under text root → at_or_under (trim_end_char "/" root) x = true.
Proof.
  unfold submounts_under. rewrite dedup_in. unfold deepest_first. rewrite sort_by_perm.
  intros Hx%list_elem_of_In. by apply filter_In in Hx as [_ ?].
Qed.

Lemma submounts_listed root ms x : Forall plain_path ms →
  x ∈ submounts_under (mount_table ms) root ↔ x ∈ ms ∧ at_or_under (trim_end_char "/" root) x = true.
Proof.
  intros Hp. unfold submounts_under. rewrite dedup_in. unfold deepest_first. rewrite sort_by_perm.
  by rewrite list_elem_of_In, filter_In, <-list_elem_of_In, table_points.
Qed.

End cleanup.

(** ** Examples and defects *)

Definition demo_image : OciImageConfig :=
  {| oc_entrypoint := Some ["/srv"]; oc_cmd := None; oc_env := [("PATH", "/bin"); ("A3S_SEC_CAP_KEEP", "SYS_ADMIN")];
     oc_working_dir := None; oc_user := None; oc_exposed_ports := []; oc_labels := ∅; oc_volumes := []; oc_stop_signal := None;
     oc_health_check := None; oc_onbuild := [] |}.

Definition demo_host : CreateEnv :=
  {| ce_upper := uppercase; ce_profile := λ _, None; ce_apparmor_profiles := None;
     ce_image := λ _, Ok {| ri_digest := "sha256:0"; ri_path := "/images/0"; ri_config := demo_image |};
     ce_rootfs_base := "/base"; ce_build_rootfs := λ _, true; ce_source_exists := λ _, true; ce_bind := λ _ _, true;
     ce_id := "c1"; ce_now := 5 |}.

Definition demo_context : LinuxContainerSecurityContext :=
  {| sc_capabilities := Some {| cap_add_capabilities := ["net_admin"]; cap_drop_capabilities := ["CAP_NET_RAW"] |};
     sc_privileged := false; sc_namespace_options := None; sc_run_as_user := Some 1000; sc_run_as_group := None;
     sc_run_as_username := ""; sc_supplemental_groups := []; sc_masked_paths := []; sc_readonly_paths := [];
     sc_seccomp := Some {| sp_type := PtRuntimeDefault; sp_localhost_ref := "" |}; sc_no_new_privs := true;
     sc_readonly_rootfs := false; sc_apparmor := None; sc_apparmor_profile := "" |}.

Definition demo_config (sc : option LinuxContainerSecurityContext) : ContainerConfig :=
  {| cc_metadata := Some ("web", 0); cc_image := Some "web"; cc_command := []; cc_args := []; cc_working_dir := "";
     cc_envs := [("A3S_SEC_SECCOMP", "off"); ("MODE", "a")];
     cc_mounts := [{| mt_container_path := "/data"; mt_host_path := "/srv/data"; mt_readonly := true;
                      mt_selinux_relabel := false; mt_propagation := 0 |}];
     cc_devices := O; cc_labels := ∅; cc_annotations := ∅; cc_log_path := "web.log"; cc_stdin := false; cc_stdin_once := false;
     cc_tty := false; cc_linux := Some {| lc_resources := None; lc_security_context := sc |} |}.

Definition demo_container (sc : option LinuxContainerSecurityContext) : Container :=
  new_container demo_host (toy_sandbox "p") (demo_config sc) ("web", 0) "web"
    (Some {| ri_digest := "sha256:0"; ri_path := "/images/0"; ri_config := demo_image |}) [] ("/r", "/g").

Definition demo_kept : list string := default [] (kept_capabilities demo_host (sc_capabilities demo_context)).

Definition demo_files : RootFiles :=
  {| rf_passwd := λ _, None; rf_group := λ _, None; rf_user_error := λ _, ""; rf_metadata_error := λ _, "" |}.

Definition demo_request : ExecRequest := exec_sync_request (demo_container (Some demo_context)) ["id"] 3.
(** A guest in which every path is a directory and every operation succeeds *)
#[local] Instance demo_fs : GuestFs () :=
  {| fs_stat := λ _ _, Some (true, 1); fs_lstat := λ _ _, Some (true, 1); fs_readonly := λ _ _, false;
     fs_do := λ _ f, (true, f) |}.
Definition demo_guest : guest (F := ()) := ((), []).


Lemma create_all_or_nothing_witness :
  ∃ effects s', @create_container demo_host list_order cri_io_ok "p" (Some (demo_config (Some demo_context))) toy_svc
                = (effects, s', Ok "c1") ∧ ct_state <$> container_of s' "c1" = Some Created.
Proof.
  destruct (@create_container demo_host list_order cri_io_ok "p" (Some (demo_config (Some demo_context))) toy_svc)
    as [[effects s'] r] eqn:E.
  assert (Hr : r = Ok "c1") by (vm_compute in E; congruence). subst r. exists effects, s'. split; [done|].
  destruct (@create_all_or_nothing list_order demo_host cri_io_ok "p" _ _ _ _ _ eq_refl E)
    as (_ & _ & _ & _ & _ & (sb & c & meta & image & mounts & paths & _ & _ & _ & _ & ->) & _).
  cbn. unfold new_container. by destruct (resolve_command_and_args _ _).
Defined.

Definition demo_ids (mp : string) : list string := ["36"; "35"; "0:1"; "/"].
Definition demo_rest (mp : string) : list string := ["rw"; "-"; "ext4"; "/dev/vda"; "rw"].

Definition demo_mounts : list string := ["/"; "/base/p/c1/rootfs/data"; "/base/p/c1/rootfs/data/in"].


(** A mount point with a space is listed in its escaped form, which is not where it is
    mounted: it stays, and removing the tree deletes the host's files through it. *)
Lemma space_keeps_mount :
  deleted_sources "/base/p/c1/rootfs"
    (unmount_submounts_under (λ ms, Some (mount_table demo_ids demo_rest ms)) (λ _, true) "/base/p/c1/rootfs"
       ["/"; "/base/p/c1/rootfs/my data"]) = ["/base/p/c1/rootfs/my data"].
Proof. vm_compute. reflexivity. Qed.

(** Two mounts at one path are unmounted once. *)
Lemma stacked_mount_stays :
  deleted_sources "/base/p/c1/rootfs"
    (unmount_submounts_under (λ ms, Some (mount_table demo_ids demo_rest ms)) (λ _, true) "/base/p/c1/rootfs"
       ["/"; "/base/p/c1/rootfs/data"; "/base/p/c1/rootfs/data"]) = ["/base/p/c1/rootfs/data"].
Proof. vm_compute. reflexivity. Qed.

(** Without a readable table nothing is unmounted, and the tree is removed all the same. *)
Lemma unreadable_table_keeps_mounts umount_ok root ms : unmount_submounts_under (λ _, None) umount_ok root ms = ms.
Proof. reflexivity. Qed.

(** A streamed exec carries no envelope, no user and the default timeout: it runs as root
    with every capability and without a filter in any container, and for five seconds. *)
Lemma streamed_exec_unconfined `{K : Kernel} t rf ct cmd stdin cg c :
  let req := streaming_exec_request ct cmd stdin in
  exec_timeout req = 5000000000 ∧
  process_user_of rf (er_rootfs req) (er_user req) = Ok None ∧
  run_hook t (λ _, None) (setup_of rf req cg None) c = Ok c.
Proof. cbn. done. Qed.

(** A container without a security context keeps every capability of the guest. *)
Lemma no_context_keeps_all rf cg :
  ∀ req, to_exec_request (demo_container None) 1 = Some req → cs_cap_keep (setup_of rf req cg None) = None.
Proof. intros req E. vm_compute in E. by simplify_eq. Qed.

(** The usual restricted profile, every capability dropped and a user that is not root, is
    refused by the guest. *)
Definition restricted_context : LinuxContainerSecurityContext :=
  {| sc_capabilities := Some {| cap_add_capabilities := []; cap_drop_capabilities := ["ALL"] |};
     sc_privileged := false; sc_namespace_options := None; sc_run_as_user := Some 1000; sc_run_as_group := None;
     sc_run_as_username := ""; sc_supplemental_groups := []; sc_masked_paths := []; sc_readonly_paths := [];
     sc_seccomp := Some {| sp_type := PtRuntimeDefault; sp_localhost_ref := "" |}; sc_no_new_privs := true;
     sc_readonly_rootfs := false; sc_apparmor := None; sc_apparmor_profile := "" |}.

Lemma restricted_pod_refused :
  ∀ req pu, to_exec_request (demo_container (Some restricted_context)) 1 = Some req →
    process_user_of demo_files (er_rootfs req) (er_user req) = Ok pu →
    run_hook X86_64 (λ _, None) (setup_of demo_files req None pu) init_creds = Err (HookConfine (Errno EPERM)).
Proof. intros req pu E. vm_compute in E. simplify_eq. intros Hp. vm_compute in Hp. simplify_eq. vm_compute. reflexivity. Qed.

(** The group of a user given by name is dropped. *)
Lemma username_drops_group g :
  container_user_from_linux_config (Some {| lc_resources := None; lc_security_context := Some
    {| sc_capabilities := None; sc_privileged := false; sc_namespace_options := None; sc_run_as_user := None;
       sc_run_as_group := Some g; sc_run_as_username := "web"; sc_supplemental_groups := []; sc_masked_paths := [];
       sc_readonly_paths := []; sc_seccomp := None; sc_no_new_privs := false; sc_readonly_rootfs := false;
       sc_apparmor := None; sc_apparmor_profile := "" |} |}) = Some "web".
Proof. reflexivity. Qed.

(** A profile that denies a call the guest has no number for denies nothing. *)
Lemma unknown_call_allowed : exec_filter X86_64 true ["unshare"] = Some (build_seccomp_errno_filter X86_64 []).
Proof. vm_compute. reflexivity. Qed.
