(* ===== verification/Rootfs.v ===== *)
(** * Rootfs: the root file system of a box

    [runtime/src/oci/rootfs.rs] (a root made of an image's layers, with the guest's init and
    the files every root has), [runtime/src/rootfs/provider.rs] and [overlay.rs] (a cached
    root copied or mounted below the box's own layer), [runtime/src/vm/layout.rs] (the choice
    between a restored, a cached and a new root; the search for the init binary) and
    [runtime/src/vm/reap.rs] (what is left of a crashed service).  Files of the host are the
    ones of Layers.v and CopyStep.v, the cache is the one of DirCache.v.  What the kernel
    does for an overlay mount, and which system calls fail, are arguments. *)

From Stdlib Require Import ZArith Lia Ascii.
From stdpp Require Import base gmap strings list numbers fin_maps.
From S2P Require Import DirCache Prelude RustStr Text Config Layers Build CopyStep TreeCopy.

Local Open Scope string_scope.
Local Open Scope list_scope.
Local Open Scope Z_scope.

(** ** Building a root from an image ([oci/rootfs.rs]) *)

Inductive root_error :=
| MkdirFailed
| LayerFailed (e : layer_error)
| InitNotFound
| RemoveFailed
| CopyInitFailed
| PermissionsFailed
| WriteFailed.

(** [remove_file]: the last component is not followed and is no directory. *)
Definition remove_file (f : fs) (p : list string) : option fs :=
  name ← List.hd_error (rev p);
  d ← resolve_dir f (removelast p);
  i ← f !! (d ++ [name]);
  if is_dir i then None else Some (delete (d ++ [name]) f).

(** [set_permissions], links are followed. *)
Definition set_mode (f : fs) (p : list string) (mode : Z) : option fs :=
  '(q, i) ← stat f p;
  Some (<[q := {| i_kind := i_kind i; i_mode := mode; i_uid := i_uid i; i_gid := i_gid i |}]> f).

Definition base_dirs : list path :=
  [["dev"]; ["proc"]; ["sys"]; ["tmp"]; ["run"]; ["etc"]; ["var"]; ["var"; "tmp"]; ["var"; "log"]; ["workspace"]].

Fixpoint create_dirs (root : path) (dirs : list path) (f : fs) : result root_error fs :=
  match dirs with
  | [] => Ok f
  | d :: dirs => f ← ok_or MkdirFailed (create_dir_all f (root ++ d)); create_dirs root dirs f
  end.
Definition create_base_structure (root : path) (f : fs) : result root_error fs := create_dirs root base_dirs f.

Fixpoint extract_image `{Unpack} (root : path) (layers : list (list tar_entry)) (f : fs) : result root_error fs :=
  match layers with
  | [] => Ok f
  | l :: layers => f ← map_err LayerFailed (extract_layer root l f); extract_image root layers f
  end.

Definition install_guest_init (root src : path) (f : fs) : result root_error fs :=
  if negb (path_exists f src) then Err InitNotFound
  else
    f ← ok_or MkdirFailed (create_dir_all f (root ++ ["sbin"]));
    f ← ok_or MkdirFailed (create_dir_all f (root ++ ["sbin"]));
    let dest := root ++ ["sbin"; "init"] in
    f ← (if path_exists f dest || bool_decide (is_Some (lstat f dest))
         then ok_or RemoveFailed (remove_file f dest) else Ok f);
    f ← ok_or CopyInitFailed (copy_file f src dest);
    ok_or PermissionsFailed (set_mode f dest 493).

(** [ensure_passwd_entries] and [ensure_group_entries] on the text of the file. *)
Definition has_entry_for (name existing : string) : bool :=
  existsb (λ line, bool_decide (head (split ":" line) = Some name)) (lines existing).
Definition ensure_entries (required : list (string * string)) (existing : string) : string :=
  let content :=
    if negb (is_empty existing) && negb (ends_with newline existing) then existing +:+ newline else existing in
  foldl (λ content '(name, entry),
    if has_entry_for name existing then content else (content +:+ entry) +:+ newline) content required.

Definition required_users : list (string * string) :=
  [("root", "root:x:0:0:root:/root:/bin/sh"); ("nobody", "nobody:x:65534:65534:nobody:/:/bin/false")].
Definition required_groups : list (string * string) := [("root", "root:x:0:"); ("nogroup", "nogroup:x:65534:")].

(** The builder's [write_file] *)
Definition write_root (root p : path) (content : string) (f : fs) : result root_error fs :=
  f ← ok_or MkdirFailed (create_dir_all f (removelast (root ++ p)));
  ok_or WriteFailed (CopyStep.write_file f (root ++ p) content None).

Definition tab : string := String "009" "".
Definition default_hosts : string :=
  "127.0.0.1" +:+ tab +:+ "localhost" +:+ newline +:+ "::1" +:+ tab +:+ tab +:+ "localhost" +:+ newline.
Definition default_resolv : string := "nameserver 8.8.8.8" +:+ newline +:+ "nameserver 8.8.4.4" +:+ newline.
Definition default_nsswitch : string :=
  "passwd: files" +:+ newline +:+ "group: files" +:+ newline +:+ "hosts: files dns" +:+ newline.

Definition ensure_file (root p : path) (required : list (string * string)) (f : fs) : result root_error fs :=
  write_root root p (ensure_entries required (default "" (read_text f (root ++ p)))) f.

Definition create_essential_files (root : path) (resolv_conf : option string) (f : fs) : result root_error fs :=
  f ← ensure_file root ["etc"; "passwd"] required_users f;
  f ← ensure_file root ["etc"; "group"] required_groups f;
  f ← write_root root ["etc"; "hosts"] default_hosts f;
  f ← write_root root ["etc"; "resolv.conf"] (default default_resolv resolv_conf) f;
  write_root root ["etc"; "nsswitch.conf"] default_nsswitch f.

(** [OciRootfsBuilder::build] with an image path. *)
Definition build `{Unpack} (root : path) (layers : list (list tar_entry)) (init : option path)
    (resolv_conf : option string) (f : fs) : result root_error fs :=
  f ← create_base_structure root f;
  f ← extract_image root layers f;
  f ← match init with Some src => install_guest_init root src f | None => Ok f end;
  create_essential_files root resolv_conf f.

(** *** Entries of the user database *)

Lemma foldl_entries existing required content :
  foldl (λ content '(name, entry),
    if has_entry_for name existing then content else (content +:+ entry) +:+ newline) content required
  = content +:+ String.concat "" (map (λ ne, ne.2 +:+ newline)
      (List.filter (λ ne, negb (has_entry_for ne.1 existing)) required)).
Proof.
  revert content. induction required as [|[name entry] l IH]; intros content; cbn [foldl List.filter map].
  - by rewrite str_app_nil_r.
  - rewrite IH. cbn [fst]. destruct (has_entry_for name existing); cbn [negb]; [done|].
    cbn [map snd]. rewrite !str_app_assoc. f_equal.
    destruct (map _ (List.filter _ l)) eqn:E; cbn; [by rewrite ?str_app_nil_r|]. by rewrite ?str_app_assoc.
Qed.

Definition terminated (s : string) : string :=
  if negb (is_empty s) && negb (ends_with newline s) then s +:+ newline else s.
Definition missing (required : list (string * string)) (existing : string) : list (string * string) :=
  List.filter (λ ne, negb (has_entry_for ne.1 existing)) required.
Definition chomp (x : string) : string := default x (strip_suffix cr x).

Lemma ensure_entries_missing required existing :
  ensure_entries required existing
  = terminated existing +:+ String.concat "" (map (λ ne, ne.2 +:+ newline) (missing required existing)).
Proof. apply foldl_entries. Qed.

Lemma split_sep c s t : split c (s +:+ String c t) = split c s ++ split c t.
Proof.
  induction s as [|a s IH]; cbn; [by rewrite Ascii.eqb_refl|].
  destruct (Ascii.eqb a c); [by rewrite IH|]. rewrite IH. pose proof (split_nonempty c s).
  by destruct (split c s).
Qed.

Lemma lines_go_end l : lines_go (l ++ [""]) = map chomp l.
Proof.
  induction l as [|x l IH]; [done|]. cbn [app map]. rewrite <-IH. by destruct l.
Qed.

Lemma lines_newline s : lines (s +:+ newline) = map chomp (split nl s).
Proof. unfold lines, newline. rewrite (split_sep nl s ""). apply lines_go_end. Qed.

Lemma terminated_cases s : terminated s = "" ∨ ∃ u, terminated s = u +:+ newline.
Proof.
  unfold terminated. destruct (is_empty s) eqn:E; [left; by destruct s|]. cbn [negb].
  destruct (ends_with newline s) eqn:E'; [|right; by exists s]. right.
  unfold ends_with in E'. destruct (strip_suffix newline s) as [u|] eqn:Eu; [|done].
  apply strip_suffix_Some in Eu. by exists u.
Qed.

Lemma lines_add t e : t = "" ∨ (∃ u, t = u +:+ newline) → one_line e →
  lines (t +:+ e +:+ newline) = lines t ++ [e].
Proof.
  intros Ht [Hn Hc]. assert (map chomp (split nl e) = [e]) as He.
  { rewrite split_no by done. cbn. unfold chomp. by rewrite strip_suffix_cr. }
  destruct Ht as [->|(u & ->)]; [change ("" +:+ e +:+ newline) with (e +:+ newline); by rewrite lines_newline|]. rewrite lines_newline.
  rewrite <-str_app_assoc, lines_newline.
  replace ((u +:+ newline) +:+ e) with (u +:+ String nl e) by (by rewrite str_app_assoc).
  by rewrite split_sep, map_app, He.
Qed.

Lemma lines_add_all t (l : list (string * string)) : t = "" ∨ (∃ u, t = u +:+ newline) → Forall (λ ne, one_line ne.2) l →
  lines (t +:+ String.concat "" (map (λ ne, ne.2 +:+ newline) l)) = lines t ++ map snd l.
Proof.
  intros Ht Hl. revert t Ht. induction Hl as [|[n e] l He Hl IH]; intros t Ht.
  - cbn. by rewrite str_app_nil_r, app_nil_r.
  - replace (t +:+ String.concat "" (map (λ ne, ne.2 +:+ newline) ((n, e) :: l)))
      with ((t +:+ e +:+ newline) +:+ String.concat "" (map (λ ne, ne.2 +:+ newline) l)).
    2: { cbn. destruct (map _ l); cbn; by rewrite ?str_app_nil_r, ?str_app_assoc. }
    rewrite IH.
    + rewrite lines_add by done. by rewrite <-app_assoc.
    + right. exists (t +:+ e). by rewrite str_app_assoc.
Qed.

Lemma chomp_head x name : one_line name → head (split ":" x) = Some name → head (split ":" (chomp x)) = Some name.
Proof.
  intros [_ Hc] Hx. unfold chomp. destruct (strip_suffix cr x) as [t|] eqn:E; [|done]. cbn.
  apply strip_suffix_Some in E as ->. destruct (has_char ":" t) eqn:Ht.
  - destruct (split_once ":" t) as [[a b]|] eqn:Es; [|apply split_once_None in Es; congruence].
    apply split_once_Some in Es as [-> Ha]. rewrite str_app_assoc in Hx. cbn [String.append] in Hx.
    rewrite split_cons in Hx |- * by done. exact Hx.
  - rewrite split_no in Hx by (by rewrite has_char_app, Ht). injection Hx as <-.
    rewrite has_char_app in Hc. by apply orb_false_iff in Hc as [_ ?].
Qed.

Lemma entry_terminated name s : one_line name → has_entry_for name s = true → has_entry_for name (terminated s) = true.
Proof.
  intros Hn H. unfold terminated. destruct (negb _ && negb _) eqn:E; [|done].
  unfold has_entry_for in *. apply existsb_exists in H as (x & Hx & Hh). apply bool_decide_eq_true in Hh.
  assert (x ∈ map chomp (split nl s) ∨ chomp x ∈ map chomp (split nl s)) as [Hin|Hin].
  { apply list_elem_of_In in Hx. revert Hx. unfold lines. generalize (split nl s) as l. clear. intros l.
    induction l as [|y [|z l] IH]; cbn [lines_go map]; [by left| |].
    - destruct (is_empty y); [by intros ?%not_elem_of_nil|]. intros ->%list_elem_of_singleton. right. constructor.
    - intros [->|Hx]%elem_of_cons; [left; constructor|]. destruct (IH Hx); [left|right]; by constructor. }
  all: rewrite lines_newline; apply existsb_exists; eexists; (split; [by apply list_elem_of_In|]);
    apply bool_decide_eq_true; auto using chomp_head.
Qed.

Lemma entry_app name t u : t = "" ∨ (∃ v, t = v +:+ newline) → has_entry_for name t = true → has_entry_for name (t +:+ u) = true.
Proof.
  intros [->|(v & ->)] H; [done|]. unfold has_entry_for in *. apply existsb_exists in H as (x & Hx & Hh).
  apply existsb_exists. exists x. split; [|done]. rewrite lines_newline in Hx. unfold lines.
  replace ((v +:+ newline) +:+ u) with (v +:+ String nl u) by (by rewrite str_app_assoc). rewrite split_sep.
  pose proof (split_nonempty nl u) as Hk. revert Hk Hx.
  generalize (split nl v) as l. generalize (split nl u) as k. clear. intros k l Hk.
  induction l as [|y l IH]; [done|]. cbn [app map]. intros [<-|Hx]; [|apply IH in Hx].
  - destruct (l ++ k) eqn:E; [by apply app_nil in E as [_ ->]|]. by left.
  - destruct (l ++ k) eqn:E; [done|]. by right.
Qed.

(** The user database keeps its lines and has every required name once the builder is done;
    building again changes nothing. *)
Theorem ensure_entries_correct required existing :
  Forall (λ ne, one_line ne.1 ∧ one_line ne.2 ∧ head (split ":" ne.2) = Some ne.1) required →
  let r := ensure_entries required existing in
  lines r = lines (terminated existing) ++ map snd (missing required existing) ∧
  Forall (λ ne, has_entry_for ne.1 r = true) required ∧ ensure_entries required r = r.
Proof.
  intros Hreq r. assert (Hl : lines r = lines (terminated existing) ++ map snd (missing required existing)).
  { unfold r. rewrite ensure_entries_missing. apply lines_add_all; [apply terminated_cases|].
    apply list.Forall_forall. intros ne [Hin _]%elem_of_filter_b. rewrite list.Forall_forall in Hreq. by destruct (Hreq _ Hin) as (_ & ? & _). }
  assert (Ha : Forall (λ ne, has_entry_for ne.1 r = true) required).
  { apply list.Forall_forall. intros ne Hin. rewrite list.Forall_forall in Hreq.
    destruct (Hreq _ Hin) as (H1 & H2 & H3). destruct (has_entry_for ne.1 existing) eqn:E.
    - unfold r. rewrite ensure_entries_missing. apply entry_app; [apply terminated_cases|]. by apply entry_terminated.
    - unfold has_entry_for. rewrite Hl. apply existsb_exists. exists ne.2. split; [|by apply bool_decide_eq_true].
      apply in_or_app. right. apply in_map, filter_In. split; [by apply list_elem_of_In|]. by rewrite E. }
  split_and!; [done|done|]. rewrite ensure_entries_missing. unfold missing. rewrite filter_none.
  2: { intros ne Hin. rewrite list.Forall_forall in Ha. by rewrite Ha. }
  cbn. rewrite str_app_nil_r. unfold terminated.
  destruct (is_empty r) eqn:E; [done|]. cbn [negb].
  assert (ends_with newline r = true) as ->; [|done]. revert E. unfold r. rewrite ensure_entries_missing.
  destruct (missing required existing) as [|ne l] using rev_ind.
  - cbn. rewrite str_app_nil_r. destruct (terminated_cases existing) as [->|(u & ->)]; [done|]. intros _. apply ends_with_app.
  - intros _. rewrite map_app. cbn [map].
    assert (∀ l x, String.concat "" (l ++ [x +:+ newline]) = (String.concat "" l +:+ x) +:+ newline) as ->.
    { clear. intros l x. induction l as [|y l IH]; [done|]. cbn [app]. destruct l; cbn in *; by rewrite ?IH, ?str_app_assoc. }
    rewrite <-str_app_assoc. apply ends_with_app.
Qed.

(** *** The files every root has *)

Definition text_file (content : string) (old : option inode) : inode :=
  {| i_kind := KFile content; i_mode := from_option i_mode 420 old;
     i_uid := from_option i_uid 0 old; i_gid := from_option i_gid 0 old |}.
Definition no_link (o : option inode) : Prop := ∀ i, o = Some i → ∃ c, i_kind i = KFile c.

Lemma dir_at_insert f p name i q : dir_at f q → q ≠ p ++ [name] → dir_at (<[p ++ [name] := i]> f) q.
Proof. intros (j & Hj & Hd) Hne. exists j. by rewrite lookup_insert_ne. Qed.

Lemma way_insert f p name i : way f p → way (<[p ++ [name] := i]> f) p.
Proof.
  intros [Hp Hd]. split; [done|]. intros q Hq. apply dir_at_insert; [by apply Hd|]. intros ->.
  apply prefix_length in Hq. rewrite length_app in Hq. cbn in Hq. lia.
Qed.

Lemma mkdir_way f p : way f p → create_dir_all f p = Some f.
Proof.
  intros [Hp Hd]. unfold create_dir_all. rewrite <-(app_nil_r p) at 1. rewrite mkdir_skip; [done|done|].
  intros q Hq _. by apply Hd.
Qed.

Section files.
Context (root : path).
Abbreviation etc name := (root ++ ["etc"; name]).

Lemma write_root_etc name content f : way f (root ++ ["etc"]) → plain_name name → no_link (f !! etc name) →
  write_root root ["etc"; name] content f = Ok (<[etc name := text_file content (f !! etc name)]> f).
Proof.
  intros Hw Hn Hl. unfold write_root. change (["etc"; name]) with (["etc"] ++ [name]). rewrite app_assoc, removelast_last.
  rewrite mkdir_way by done. cbn [ok_or mbind result_bind]. rewrite (write_plain_mode f _ name content None (f !! ((root ++ ["etc"]) ++ [name]))); [done|done|done|done|].
  rewrite <-app_assoc. exact Hl.
Qed.

Lemma read_etc name f : way f (root ++ ["etc"]) → plain_name name → no_link (f !! etc name) →
  default "" (read_text f (etc name)) = match f !! etc name with Some i => match i_kind i with KFile c => c | _ => "" end | None => "" end.
Proof.
  intros Hw Hn Hl. unfold read_text. change (["etc"; name]) with (["etc"] ++ [name]) in *. rewrite app_assoc in *.
  destruct (f !! _) as [i|] eqn:E.
  - destruct (Hl i eq_refl) as (c & Hc). rewrite (stat_file f _ name i c) by done. cbn. by rewrite Hc.
  - by rewrite stat_missing.
Qed.

Definition old_text (f : fs) (name : string) : string :=
  match f !! etc name with Some i => match i_kind i with KFile c => c | _ => "" end | None => "" end.

Definition essential (resolv_conf : option string) (f : fs) : list (string * string) :=
  [("passwd", ensure_entries required_users (old_text f "passwd"));
   ("group", ensure_entries required_groups (old_text f "group"));
   ("hosts", default_hosts); ("resolv.conf", default default_resolv resolv_conf); ("nsswitch.conf", default_nsswitch)].

Lemma etc_inj a b : etc a = etc b → a = b.
Proof. intros H%app_inv_head. by injection H. Qed.

Fixpoint write_all (ncs : list (string * string)) (f : fs) : result root_error fs :=
  match ncs with
  | [] => Ok f
  | (name, content) :: ncs => f ← write_root root ["etc"; name] content f; write_all ncs f
  end.

Lemma way_etc name i f : way f (root ++ ["etc"]) → way (<[etc name := i]> f) (root ++ ["etc"]).
Proof. intros Hw. change (["etc"; name]) with (["etc"] ++ [name]). rewrite app_assoc. by apply way_insert. Qed.

Lemma write_all_exact ncs f : way f (root ++ ["etc"]) → NoDup (map fst ncs) →
  Forall (λ nc, plain_name nc.1 ∧ no_link (f !! etc nc.1)) ncs →
  ∃ f', write_all ncs f = Ok f' ∧
    Forall (λ nc, f' !! etc nc.1 = Some (text_file nc.2 (f !! etc nc.1))) ncs ∧
    ∀ q, q ∉ map (λ nc, etc nc.1) ncs → f' !! q = f !! q.
Proof.
  revert f. induction ncs as [|[n c] ncs IH]; intros f Hw Hnd Hl; [by exists f|].
  apply list.Forall_cons in Hl as [[Hn Hl] Hr]. cbn [fst] in *. inversion_clear Hnd as [|? ? Hnew Hnd'].
  assert (∀ nc, nc ∈ ncs → nc.1 ≠ n) as Hne.
  { intros nc Hin Heq. apply Hnew. rewrite <-Heq. by apply list_elem_of_fmap_2. }
  cbn [write_all]. rewrite write_root_etc by done. cbn [mbind result_bind].
  destruct (IH (<[etc n := text_file c (f !! etc n)]> f)) as (f' & -> & Hf & Ho); [by apply way_etc|done| |].
  { rewrite list.Forall_forall in *. intros nc Hin. destruct (Hr _ Hin) as [H1 H2]. split; [done|].
    rewrite lookup_insert_ne; [done|]. intros E%etc_inj. by apply (Hne nc). }
  exists f'. split; [done|]. split.
  - constructor.
    + cbn [fst snd]. rewrite Ho, lookup_insert_eq; [done|]. intros ([n' c'] & E%etc_inj & Hin)%list_elem_of_fmap.
      by apply (Hne _ Hin).
    + rewrite list.Forall_forall in *. intros nc Hin. rewrite (Hf _ Hin). rewrite lookup_insert_ne; [done|].
      intros E%etc_inj. by apply (Hne nc).
  - intros q Hq. cbn [map] in Hq. rewrite not_elem_of_cons in Hq. destruct Hq as [H1 H2]. cbn [fst] in H1.
    rewrite Ho by done. by rewrite lookup_insert_ne.
Qed.

Lemma plain_b c : plain_nameb c = true → plain_name c.
Proof. apply plain_nameb_spec. Qed.

Lemma essential_writes resolv_conf f : way f (root ++ ["etc"]) → no_link (f !! etc "passwd") → no_link (f !! etc "group") →
  create_essential_files root resolv_conf f = write_all (essential resolv_conf f) f.
Proof.
  intros Hw Hp Hg. unfold create_essential_files, ensure_file, essential. rewrite read_etc by (done || by apply plain_b).
  cbn [write_all]. fold (old_text f "passwd").
  rewrite write_root_etc by (done || by apply plain_b). cbn [mbind result_bind].
  rewrite read_etc; [|by apply way_etc|by apply plain_b|by rewrite lookup_insert_ne by (by intros ?%etc_inj)].
  rewrite lookup_insert_ne by (by intros ?%etc_inj). fold (old_text f "group").
  destruct (write_root root ["etc"; "group"] _ _) as [f1|]; [|done]. cbn [mbind result_bind].
  destruct (write_root root ["etc"; "hosts"] _ _) as [f2|]; [|done]. cbn [mbind result_bind].
  destruct (write_root root ["etc"; "resolv.conf"] _ _) as [f3|]; [|done]. cbn [mbind result_bind].
  by destruct (write_root root ["etc"; "nsswitch.conf"] _ _).
Qed.

(** A root whose [/etc] is a directory gets exactly the five files: the user and group databases
    with the required names added, the others with their fixed contents; nothing else changes. *)
Theorem essential_files_exact resolv_conf f :
  way f (root ++ ["etc"]) → Forall (λ nc, no_link (f !! etc nc.1)) (essential resolv_conf f) →
  ∃ f', create_essential_files root resolv_conf f = Ok f' ∧
    Forall (λ nc, f' !! etc nc.1 = Some (text_file nc.2 (f !! etc nc.1))) (essential resolv_conf f) ∧
    ∀ q, q ∉ map (λ nc, etc nc.1) (essential resolv_conf f) → f' !! q = f !! q.
Proof.
  intros Hw Hl. rewrite essential_writes; [|done|by inversion_clear Hl|by inversion_clear Hl as [|? ? _ Hl']; inversion_clear Hl'].
  apply write_all_exact; [done| |].
  - cbn. repeat (constructor; [rewrite ?not_elem_of_cons; split_and?; (done || apply not_elem_of_nil)|]). constructor.
  - unfold essential in *. rewrite !list.Forall_cons in *. cbn [fst] in *.
    destruct Hl as (? & ? & ? & ? & ? & _). split_and!; (done || (by apply plain_b) || constructor).
Qed.
End files.

(** *** The guest's init *)

Lemma way_delete f p d : way f p → ¬ dir_at f d → way (delete d f) p.
Proof.
  intros [Hp Hd] Hn. split; [done|]. intros q Hq. destruct (Hd q Hq) as (j & Hj & Hj'). exists j.
  rewrite lookup_delete_ne; [done|]. intros ->. apply Hn. by exists j.
Qed.

(** Whatever the image had at [/sbin/init], a file, a link or nothing, the guest's init
    binary is there afterwards, executable, and nothing else changed; a link is replaced and
    not followed. *)
Theorem init_installed root sp sn f i content :
  way f (root ++ ["sbin"]) → way f sp → plain_name sn → f !! (sp ++ [sn]) = Some i → i_kind i = KFile content →
  sp ++ [sn] ≠ root ++ ["sbin"; "init"] → ¬ dir_at f (root ++ ["sbin"; "init"]) →
  install_guest_init root (sp ++ [sn]) f =
  Ok (<[root ++ ["sbin"; "init"] := {| i_kind := KFile content; i_mode := 493; i_uid := 0; i_gid := 0 |}]> f).
Proof.
  intros Hw Hsp Hsn Hi Hk Hne Hnd. change (["sbin"; "init"]) with (["sbin"] ++ ["init"]) in *. rewrite app_assoc in *.
  set (dest := (root ++ ["sbin"]) ++ ["init"]) in *. assert (plain_name "init") as Hpi by (by apply plain_b).
  unfold install_guest_init. assert (path_exists f (sp ++ [sn]) = true) as ->.
  { unfold path_exists. rewrite (stat_file f sp sn i content) by done. by apply bool_decide_eq_true. }
  cbn [negb]. rewrite mkdir_way by done. cbn [ok_or mbind result_bind]. rewrite mkdir_way by done. cbn [ok_or mbind result_bind].
  change (["sbin"; "init"]) with (["sbin"] ++ ["init"]). rewrite app_assoc. fold dest.
  assert ((if path_exists f dest || bool_decide (is_Some (lstat f dest))
           then ok_or RemoveFailed (remove_file f dest) else Ok f) = Ok (delete dest f)) as ->.
  { assert (lstat f dest = f !! dest) as -> by (by apply lstat_plain). destruct (f !! dest) as [j|] eqn:Ej.
    - rewrite orb_comm. rewrite bool_decide_eq_true_2 by done. cbn [orb]. unfold remove_file, dest.
      rewrite rev_unit, removelast_last. cbn [hd_error mbind option_bind]. unfold resolve_dir.
      destruct Hw as [Hp Hd]. rewrite (walk_dirs _ f [] (root ++ ["sbin"])) by auto. cbn. fold dest. rewrite Ej. cbn.
      destruct (is_dir j) eqn:Edj; [|done]. exfalso. apply Hnd. by exists j.
    - unfold path_exists. assert (stat f dest = None) as -> by (by apply stat_missing).
      rewrite !bool_decide_eq_false_2 by (by intros []). cbn. by rewrite delete_id. }
  cbn [mbind result_bind]. assert (way (delete dest f) (root ++ ["sbin"])) as Hw' by (by apply way_delete).
  assert (way (delete dest f) sp) as Hsp' by (by apply way_delete).
  unfold copy_file. rewrite (stat_file _ sp sn i content); [|done|done|by rewrite lookup_delete_ne by done|done].
  cbn [mbind option_bind]. rewrite Hk.
  rewrite (write_plain _ (root ++ ["sbin"]) "init" content (i_mode i) None); [|done|done|by apply lookup_delete_eq|done].
  cbn [ok_or mbind result_bind from_option]. unfold set_mode.
  rewrite (stat_file _ (root ++ ["sbin"]) "init" {| i_kind := KFile content; i_mode := i_mode i; i_uid := 0; i_gid := 0 |} content);
    [|by apply way_insert|done|by rewrite lookup_insert_eq|done].
  cbn. fold dest. f_equal. by rewrite insert_insert_eq, insert_delete_eq.
Qed.

(** The builder follows links the image brought: an image whose [/etc/resolv.conf] is a link
    to a path of the host overwrites that file of the host when its root is built. *)
Lemma image_link_writes_host :
  (λ f, f !! ["etc"; "passwd"]) <$>
    @build toy_unpack ["r"] [[{| e_absolute := false; e_path := ["etc"; "resolv.conf"]; e_inode := link_to "/etc/passwd" |}]]
      None None plain_host
  = Ok (Some (file_of default_resolv)).
Proof. vm_compute. reflexivity. Qed.

(** An image without links there builds as expected. *)
Lemma build_plain :
  (λ f, (f !! ["etc"; "passwd"], i_kind <$> f !! ["r"; "etc"; "passwd"], f !! ["r"; "sbin"; "init"])) <$>
    @build toy_unpack ["r"] [[{| e_absolute := false; e_path := ["etc"; "passwd"]; e_inode := file_of "app:x:7:7::/:/bin/sh" |}]]
      (Some ["c"; "a"]) None plain_host
  = Ok (Some (file_of "root:x:0:0"),
        Some (KFile (ensure_entries required_users "app:x:7:7::/:/bin/sh")),
        Some {| i_kind := KFile "hello"; i_mode := 493; i_uid := 0; i_gid := 0 |}).
Proof. vm_compute. reflexivity. Qed.

(** ** Providers: a cached root made writable for one box ([rootfs/provider.rs]) *)

(** The layer a box writes to: files, and [None] for what it removed. *)
Abbreviation upper_layer := (gmap path (option inode)).

(** What the kernel shows of an overlay. *)
Definition overlay_view (lower : fs) (upper : upper_layer) : fs :=
  merge (λ l u, match u with Some r => r | None => l end) lower upper.

(** The directory of a box: [rootfs], the marker of a restored snapshot, [upper], [work] and
    [merged], and the lower roots of the overlays mounted there, the newest first. *)
Record box_dir := {
  bd_rootfs : option fs; bd_marker : bool; bd_upper : option upper_layer;
  bd_work : bool; bd_merged : bool; bd_mounts : list fs }.

Definition blank_dir : box_dir :=
  {| bd_rootfs := None; bd_marker := false; bd_upper := None; bd_work := false; bd_merged := false; bd_mounts := [] |}.

Definition set_rootfs (r : option fs) (b : box_dir) : box_dir :=
  {| bd_rootfs := r; bd_marker := bd_marker b; bd_upper := bd_upper b; bd_work := bd_work b;
     bd_merged := bd_merged b; bd_mounts := bd_mounts b |}.
Definition set_upper (u : option upper_layer) (b : box_dir) : box_dir :=
  {| bd_rootfs := bd_rootfs b; bd_marker := bd_marker b; bd_upper := u; bd_work := bd_work b;
     bd_merged := bd_merged b; bd_mounts := bd_mounts b |}.
Definition set_work (w : bool) (b : box_dir) : box_dir :=
  {| bd_rootfs := bd_rootfs b; bd_marker := bd_marker b; bd_upper := bd_upper b; bd_work := w;
     bd_merged := bd_merged b; bd_mounts := bd_mounts b |}.
Definition set_merged (m : bool) (b : box_dir) : box_dir :=
  {| bd_rootfs := bd_rootfs b; bd_marker := bd_marker b; bd_upper := bd_upper b; bd_work := bd_work b;
     bd_merged := m; bd_mounts := bd_mounts b |}.
Definition set_mounts (l : list fs) (b : box_dir) : box_dir :=
  {| bd_rootfs := bd_rootfs b; bd_marker := bd_marker b; bd_upper := bd_upper b; bd_work := bd_work b;
     bd_merged := bd_merged b; bd_mounts := l |}.

(** What the host answers: directories that can be made and removed, the mount and unmount
    calls (the system call and the command tried after it), the copy of a tree. *)
Record provider_io := {
  io_mkdir : string → bool; io_rmdir : string → bool; io_mount : bool * bool; io_umount : bool * bool;
  io_copy : copy_result fs }.
Definition good_provider_io : provider_io :=
  {| io_mkdir := λ _, true; io_rmdir := λ _, true; io_mount := (true, true); io_umount := (true, true);
     io_copy := Copied |}.

Inductive provider_error := OverlayDir (name : string) | MountFailed | UnmountFailed | CopyRootFailed | RemoveRootFailed.

(** The directory a box runs from. *)
Inductive root_dir := RootfsDir | MergedDir.

Definition view_at (d : root_dir) (b : box_dir) : option fs :=
  match d with
  | RootfsDir => bd_rootfs b
  | MergedDir =>
      if bd_merged b then
        Some match bd_mounts b with lower :: _ => overlay_view lower (default ∅ (bd_upper b)) | [] => ∅ end
      else None
  end.

Section providers.
Context {ids : HostIds}.

(** The trait, and its two implementations *)
Record RootfsProvider := {
  prepare : provider_io → fs → box_dir → box_dir * result provider_error root_dir;
  cleanup : provider_io → bool → box_dir → box_dir * result provider_error ();
  provider_name : string }.

Definition copy_prepare (io : provider_io) (cached : fs) (b : box_dir) : box_dir * result provider_error root_dir :=
  match bd_rootfs b with
  | Some _ => (b, Ok RootfsDir)
  | None =>
      match io_copy io with
      | Copied => (set_rootfs (Some (copy_tree true cached)) b, Ok RootfsDir)
      | BrokenOff part => (set_rootfs part b, Err CopyRootFailed)
      end
  end.
Definition copy_cleanup (io : provider_io) (persistent : bool) (b : box_dir) : box_dir * result provider_error () :=
  if persistent then (b, Ok ())
  else match bd_rootfs b with
       | None => (b, Ok ())
       | Some _ => if io_rmdir io "rootfs" then (set_rootfs None b, Ok ()) else (b, Err RemoveRootFailed)
       end.
Definition CopyProvider : RootfsProvider :=
  {| prepare := copy_prepare; cleanup := copy_cleanup; provider_name := "copy" |}.

(** [overlay_mount] and [overlay_unmount] on the directory [merged] *)
Definition overlay_mount (io : provider_io) (lower : fs) (b : box_dir) : result provider_error box_dir :=
  if (io_mount io).1 || (io_mount io).2 then Ok (set_mounts (lower :: bd_mounts b) b) else Err MountFailed.
Definition overlay_unmount (io : provider_io) (b : box_dir) : result provider_error box_dir :=
  match bd_mounts b with
  | _ :: mounts => if (io_umount io).1 || (io_umount io).2 then Ok (set_mounts mounts b) else Err UnmountFailed
  | [] => Err UnmountFailed
  end.

Definition make_dir (io : provider_io) (name : string) (made : box_dir → box_dir) (b : box_dir)
    : box_dir * result provider_error () :=
  if io_mkdir io name then (made b, Ok ()) else (b, Err (OverlayDir name)).

Definition overlay_prepare (io : provider_io) (cached : fs) (b : box_dir) : box_dir * result provider_error root_dir :=
  match make_dir io "upper" (λ b, set_upper (Some (default ∅ (bd_upper b))) b) b with
  | (b, Err e) => (b, Err e)
  | (b, Ok _) =>
      match make_dir io "work" (set_work true) b with
      | (b, Err e) => (b, Err e)
      | (b, Ok _) =>
          match make_dir io "merged" (set_merged true) b with
          | (b, Err e) => (b, Err e)
          | (b, Ok _) =>
              match overlay_mount io cached b with
              | Ok b => (b, Ok MergedDir)
              | Err e => (b, Err e)
              end
          end
      end
  end.

(** [remove_dir_all] on one directory of the box, if it is there.  While something is mounted
    on [merged] the files go through the mount, and the directory itself is busy. *)
Inductive overlay_dir := Upper | Work | Merged.
Definition dir_name (d : overlay_dir) : string := match d with Upper => "upper" | Work => "work" | Merged => "merged" end.

Definition remove_box_dir (io : provider_io) (b : box_dir) (d : overlay_dir) : box_dir :=
  if negb (io_rmdir io (dir_name d)) then b
  else match d with
       | Upper => set_upper None b
       | Work => set_work false b
       | Merged =>
           match bd_mounts b with
           | [] => set_merged false b
           | lower :: _ =>
               if bd_merged b then set_upper ((λ u, (λ _, None) <$> overlay_view lower u ∪ lower) <$> bd_upper b) b
               else b
           end
       end.

Definition overlay_cleanup (io : provider_io) (persistent : bool) (b : box_dir) : box_dir * result provider_error () :=
  let b := if bd_merged b then match overlay_unmount io b with Ok b' => b' | Err _ => b end else b in
  let dirs := if persistent then [Merged; Work] else [Upper; Work; Merged] in
  (foldl (remove_box_dir io) b dirs, Ok ()).
Definition OverlayProvider : RootfsProvider :=
  {| prepare := overlay_prepare; cleanup := overlay_cleanup; provider_name := "overlay" |}.

(** What the guest writes to its root: a path gets an inode or is removed. *)
Abbreviation root_write := (path * option inode)%type.
Definition write_tree (t : fs) (w : root_write) : fs := partial_alter (λ _, w.2) w.1 t.
Definition guest_write (d : root_dir) (b : box_dir) (w : root_write) : box_dir :=
  match d with
  | RootfsDir => set_rootfs ((λ t, write_tree t w) <$> bd_rootfs b) b
  | MergedDir =>
      match bd_mounts b with
      | [] => b
      | _ :: _ => set_upper (<[w.1 := w.2]> <$> bd_upper b) b
      end
  end.

(** *** What a provider promises

    A box at rest has contents over the cached root it was made from; [prepare] shows them,
    the guest changes them, and [cleanup] keeps them for a persistent box and drops them
    otherwise. *)
Class KeepsWrites (P : RootfsProvider) := {
  at_rest : fs → fs → box_dir → Prop;
  running : fs → fs → root_dir → box_dir → Prop;
  rest_blank lower : copy_tree true lower = lower → at_rest lower lower blank_dir;
  running_view lower t d b : running lower t d b → view_at d b = Some t;
  running_overlay lower t b : running lower t MergedDir b → is_Some (bd_upper b) ∧ bd_mounts b ≠ [];
  start_shows lower t b : at_rest lower t b →
    ∃ b' d, prepare P good_provider_io lower b = (b', Ok d) ∧ running lower t d b';
  write_shows lower t d b w : running lower t d b → running lower (write_tree t w) d (guest_write d b w);
  stop_rests lower t d b persistent : running lower t d b →
    ∃ b', cleanup P good_provider_io persistent b = (b', Ok ()) ∧
          at_rest lower (if persistent then t else lower) b' }.

Lemma overlay_empty lower : overlay_view lower ∅ = lower.
Proof. apply map_eq. intros p. unfold overlay_view. rewrite lookup_merge, lookup_empty. by destruct (lower !! p). Qed.

Lemma overlay_write lower upper w :
  overlay_view lower (<[w.1 := w.2]> upper) = write_tree (overlay_view lower upper) w.
Proof.
  apply map_eq. intros p. unfold overlay_view, write_tree. rewrite lookup_merge.
  destruct (decide (p = w.1)) as [->|Hne].
  - rewrite lookup_insert_eq, lookup_partial_alter_eq. by destruct (lower !! _), w.2.
  - rewrite lookup_insert_ne, lookup_partial_alter_ne, lookup_merge by done. by destruct (lower !! p), (upper !! p).
Qed.

#[export] Instance copy_keeps : KeepsWrites CopyProvider.
Proof.
  refine {| at_rest lower t b := copy_tree true lower = lower ∧ (bd_rootfs b = Some t ∨ bd_rootfs b = None ∧ t = lower);
            running lower t d b := copy_tree true lower = lower ∧ d = RootfsDir ∧ bd_rootfs b = Some t |}.
  - intros lower Hc. split; [done|]. by right.
  - by intros lower t d b (_ & -> & Hb).
  - by intros lower t b (_ & ? & _).
  - intros lower t b. cbn. unfold copy_prepare. intros [Hc [Hb|[Hb ->]]]; rewrite Hb; eexists _, _; [done|]. cbn. by rewrite Hc.
  - intros lower t d b w (Hc & -> & Hb). split; [done|]. cbn. by rewrite Hb.
  - intros lower t d b persistent (Hc & -> & Hb). cbn. unfold copy_cleanup. destruct persistent.
    + exists b. auto.
    + rewrite Hb. cbn. eexists. split; [done|]. split; [done|]. by right.
Defined.

#[export] Instance overlay_keeps : KeepsWrites OverlayProvider.
Proof.
  refine {| at_rest lower t b := bd_mounts b = [] ∧ overlay_view lower (default ∅ (bd_upper b)) = t;
            running lower t d b := d = MergedDir ∧ bd_merged b = true ∧ bd_mounts b = [lower] ∧
              ∃ u, bd_upper b = Some u ∧ overlay_view lower u = t |}.
  - intros lower _. split; [done|]. apply overlay_empty.
  - intros lower t d b (-> & Hm & Hl & u & Hu & <-). cbn. by rewrite Hm, Hl, Hu.
  - intros lower t b (_ & _ & -> & u & Hu & _). eauto.
  - intros lower t b [Hm <-]. cbn. unfold overlay_prepare. cbn. eexists _, _. split; [done|].
    split_and!; [done|done|cbn; by rewrite Hm|]. eexists. split; [done|]. by destruct (bd_upper b).
  - intros lower t d b w (-> & Hm & Hl & u & Hu & <-). cbn. rewrite Hl. cbn. rewrite Hu.
    split_and!; try done. eexists. split; [done|]. apply overlay_write.
  - intros lower t d b persistent (-> & Hm & Hl & u & Hu & <-). cbn. unfold overlay_cleanup. rewrite Hm.
    unfold overlay_unmount. rewrite Hl. cbn [fst snd good_provider_io io_umount orb].
    eexists. split; [done|]. destruct persistent; cbn; rewrite ?Hu; (split; [done|]); [done|apply overlay_empty].
Defined.

(** Any number of runs of one box: prepare, the guest's writes, cleanup.  The list is what the
    root looks like at the end of each run. *)
Fixpoint run_sessions (P : RootfsProvider) (persistent : bool) (cached : fs) (runs : list (list root_write))
    (b : box_dir) : result provider_error (list (option fs) * box_dir) :=
  match runs with
  | [] => Ok ([], b)
  | ws :: runs =>
      match prepare P good_provider_io cached b with
      | (b, Err e) => Err e
      | (b, Ok d) =>
          let b := foldl (guest_write d) b ws in
          let seen := view_at d b in
          match cleanup P good_provider_io persistent b with
          | (b, Err e) => Err e
          | (b, Ok _) => '(l, b) ← run_sessions P persistent cached runs b; Ok (seen :: l, b)
          end
      end
  end.

(** The specification: a persistent box continues where it stopped, another starts over. *)
Fixpoint spec_sessions (persistent : bool) (cached t : fs) (runs : list (list root_write)) : list fs :=
  match runs with
  | [] => []
  | ws :: runs =>
      let t' := foldl write_tree t ws in
      t' :: spec_sessions persistent cached (if persistent then t' else cached) runs
  end.

Section sessions.
Context (P : RootfsProvider) `{!KeepsWrites P} (cached : fs) (persistent : bool).

Lemma writes_run t d b ws : running cached t d b →
  running cached (foldl write_tree t ws) d (foldl (guest_write d) b ws).
Proof. revert t b. induction ws as [|w ws IH]; intros t b H; [done|]. by apply IH, write_shows. Qed.

Lemma sessions_from runs t b : at_rest cached t b →
  ∃ b', run_sessions P persistent cached runs b = Ok (Some <$> spec_sessions persistent cached t runs, b').
Proof.
  revert t b. induction runs as [|ws runs IH]; intros t b H; [by exists b|]. cbn [run_sessions spec_sessions].
  destruct (start_shows cached t b H) as (b1 & d & -> & H1). apply (writes_run _ _ _ ws) in H1.
  rewrite (running_view _ _ _ _ H1). destruct (stop_rests _ _ _ _ persistent H1) as (b2 & -> & H2).
  destruct (IH _ _ H2) as (b3 & ->). by exists b3.
Qed.
End sessions.

(** C19: Both root providers, the copying one and the overlay, implement the same contract as long
    as their I/O succeeds (directories made and removed, copies whole, mounts and unmounts
    done), from a box directory without contents and over a root taken from the cache: in any
    number of runs of a box, with any writes of its guest, every prepare and cleanup succeeds,
    a persistent box finds its root as it left it, and a box that is not persistent finds the
    cached root again each time.  When an unmount fails neither holds for the overlay: the
    writes are lost without an error. *)
Theorem sessions_refine persistent t runs : let cached := copy_tree true t in
  Forall (λ P, res_ok (fst <$> run_sessions P persistent cached runs blank_dir)
               = Some (Some <$> spec_sessions persistent cached cached runs))
    [CopyProvider; OverlayProvider].
Proof.
  intros cached. repeat constructor.
  - destruct (sessions_from CopyProvider cached persistent runs cached blank_dir) as (b & ->); [apply rest_blank, copy_tree_twice|done].
  - destruct (sessions_from OverlayProvider cached persistent runs cached blank_dir) as (b & ->); [apply rest_blank, copy_tree_twice|done].
Qed.
End providers.

(** When the overlay of a persistent box cannot be unmounted, the cleanup goes on and removes the
    files below [merged] through the mount: the writes it was to keep are gone, and the
    files of the cached root are hidden.  The failure is not reported. *)
Lemma unmount_failure_loses_data :
  let io := {| io_mkdir := λ _, true; io_rmdir := λ _, true; io_mount := (true, true); io_umount := (false, false);
               io_copy := Copied |} in
  let cached : fs := {[ ["bin"] := new_dir ]} in
  let b := guest_write MergedDir (overlay_prepare io cached blank_dir).1 (["data"], Some (file_of "precious")) in
  (t ← view_at MergedDir b; t !! ["data"]) = Some (file_of "precious") ∧
  is_ok (overlay_cleanup io true b).2 = true ∧
  (map_to_list <$> view_at MergedDir (overlay_prepare good_provider_io cached (overlay_cleanup io true b).1).1) = Some [].
Proof. split_and!; vm_compute; reflexivity. Qed.

(** A root that a broken-off copy or a crash left behind is taken for the box's own: the
    copying provider reuses it whether the box is persistent or not. *)
Lemma leftover_reused {ids : HostIds} cached left b : bd_rootfs b = Some left →
  copy_prepare good_provider_io cached b = (b, Ok RootfsDir).
Proof. intros H. unfold copy_prepare. by rewrite H. Qed.
