(* ===== verification/Layout.v ===== *)
(** * Layout: what a box boots from

    [runtime/src/vm/layout.rs]: the directories of a boot, the choice between a restored
    snapshot, a cached root and one built from the image, the trusted-execution settings and
    the search for the guest's init binary; [runtime/src/vm/reap.rs]: what is cleared after a
    crash.  Roots and providers are those of Rootfs.v, the cache is the one of DirCache.v. *)

From Stdlib Require Import ZArith Lia Ascii.
From stdpp Require Import base gmap strings list numbers fin_maps.
From S2P Require Import DirCache Prelude RustStr Text Layers Build CopyStep TreeCopy Rootfs Config.

Local Open Scope string_scope.
Local Open Scope list_scope.
Local Open Scope Z_scope.

(** ** The guest's init binary *)

Section elf.
Context (data : list Z).

Definition byte_at (off : Z) : Z := nth (Z.to_nat off) data 0.
Fixpoint le_bytes (n : nat) (off : Z) : Z :=
  match n with O => 0 | S n => byte_at off + 256 * le_bytes n (off + 1) end.
Definition data_len : Z := Z.of_nat (length data).

(** The loop over the program headers, on 64-bit offsets; [None]: the slice of a header
    whose end wraps around is out of order and panics. *)
Fixpoint no_interp (e_phoff e_phentsize : Z) (n : nat) (i : Z) : option bool :=
  match n with
  | O => Some true
  | S n =>
      let ph := wrap 64 (e_phoff + i * e_phentsize) in
      if data_len <? wrap 64 (ph + 4) then Some true
      else if wrap 64 (ph + 4) <? ph then None
      else if le_bytes 4 ph =? 3 then Some false
      else no_interp e_phoff e_phentsize n (i + 1)
  end.

Definition elf_static : option bool :=
  if (data_len <? 64) || negb (bool_decide (take 4 data = [127; 69; 76; 70])) then Some false
  else if negb ((byte_at 7 =? 0) || (byte_at 7 =? 3)) then Some false
  else if negb (byte_at 4 =? 2) || negb (byte_at 5 =? 1) then Some true
  else
    let e_phoff := le_bytes 8 32 in
    let e_phentsize := le_bytes 2 54 in
    let e_phnum := le_bytes 2 56 in
    if (e_phoff =? 0) || (e_phentsize <? 4) then Some true
    else no_interp e_phoff e_phentsize (Z.to_nat e_phnum) 0.
End elf.

(** [is_linux_elf] on what reading the file gives *)
Definition is_linux_elf (file : option (list Z)) : option bool :=
  match file with None => Some false | Some data => elf_static data end.

Fixpoint str_contains (p s : string) : bool :=
  starts_with p s || match s with "" => false | String _ s => str_contains p s end.

Definition cross_dirs : list string :=
  ["aarch64-unknown-linux-musl/debug"; "aarch64-unknown-linux-musl/release";
   "x86_64-unknown-linux-musl/debug"; "x86_64-unknown-linux-musl/release"].

(** [find_binary_candidates]: [exe_dir] and [target_root] are the directory of the program and
    the one above it, where there are such; [path] the directories of the search path. *)
Definition find_binary_candidates (exists_ : string → bool) (exe_dir target_root : option string)
    (home : string) (path : list string) (name : string) : list string :=
  let at_ dir := dir +:+ "/" +:+ name in
  List.filter exists_
    (match exe_dir with
     | Some d => at_ d :: match target_root with Some r => map (λ c, at_ (r +:+ "/" +:+ c)) cross_dirs | None => [] end
     | None => []
     end
     ++ map (λ c, at_ ("target/" +:+ c)) cross_dirs ++ map at_ ["target/debug"; "target/release"]
     ++ [at_ (home +:+ "/bin")] ++ map at_ path).

Definition musl_rank (p : string) : Z := if str_contains "-unknown-linux-musl" p then 0 else 1.

Fixpoint first_static (read : string → option (list Z)) (candidates : list string) : option (option string) :=
  match candidates with
  | [] => Some None
  | p :: ps => ok ← is_linux_elf (read p); if ok : bool then Some (Some p) else first_static read ps
  end.

(** [find_guest_init]: [None] is a panic, [Some None] the error that no binary was found. *)
Definition find_guest_init (read : string → option (list Z)) (candidates : list string) : option (option string) :=
  first_static read (sort_by (λ a b, musl_rank a <=? musl_rank b) candidates).

(** ** Trusted execution *)

Inductive tee_error := SnpUnsupported | TeeWrite | TdxUnsupported (workload : string).

(** [generate_tee_config]: the JSON that is written and its type, when the hardware is used;
    [cpus] and [ram] are the box's resources. *)
Record tee_instance := { ti_workload : string; ti_cpus : Z; ti_ram_mib : Z; ti_tee : string; ti_data : string }.

Definition generate_tee_config (snp write_ok : bool) (config : BoxConfig) : result tee_error (option tee_instance) :=
  match tee config with
  | TeeNone => Ok None
  | SevSnp workload generation simulate =>
      if simulate then Ok None
      else if negb snp then Err SnpUnsupported
      else if negb write_ok then Err TeeWrite
      else Ok (Some {| ti_workload := workload; ti_cpus := vcpus (resources config); ti_ram_mib := memory_mb (resources config);
                       ti_tee := "snp";
                       ti_data := "{" +:+ String "034" ("gen" +:+ String "034" (":" +:+ String "034" (generation_as_str generation +:+ String "034" "}"))) |})
  | Tdx workload simulate => if simulate then Ok None else Err (TdxUnsupported workload)
  end.

(** ** Trees as directories of the host *)

(** The tree [t] at the directory [root] of the host, and the tree that is there. *)
Definition graft (root : path) (t h : fs) : fs :=
  kmap (app root) t ∪ remove_tree root h.
Definition below (root q : path) : option path :=
  if bool_decide (root `prefix_of` q) then Some (drop (length root) q) else None.
Definition subtree (root : path) (f : fs) : fs :=
  list_to_map (omap (λ kv, (λ p, (p, kv.2)) <$> below root kv.1) (map_to_list f)).

#[export] Instance inode_eq_dec : EqDecision inode.
Proof. solve_decision. Defined.

(** What an overlay records when the view changes from one tree to another. *)
Definition changes (t t' : fs) : upper_layer :=
  merge (λ x y, if decide (x = y) then None else Some y) t t'.
Definition set_view (d : root_dir) (t t' : fs) (b : box_dir) : box_dir :=
  match d with
  | RootfsDir => set_rootfs (Some t') b
  | MergedDir => set_upper ((λ u, changes t t' ∪ u) <$> bd_upper b) b
  end.

(** ** Preparing a boot *)

Inductive layout_error :=
| SocketDir | LogsDir | WorkspaceDir | WorkspacePath | ImageStoreFailed | PullFailed
| ProviderFailed (e : provider_error) | RootFailed (e : root_error) | ImageConfigFailed | TeeFailed (e : tee_error).

(** What the host and the registry answer during one preparation: the directories, the
    workspace (there or made, and its absolute path), the image (its layers, and its
    configuration, read again where it is needed), the cache directory, the calls of the provider,
    the init binary, the hardware. *)
Record layout_io := {
  lo_sockets : bool; lo_logs : bool; lo_workspace : bool; lo_canonical : option string;
  lo_store : bool; lo_pull : option (list (list tar_entry)); lo_config : option OciImageConfig;
  lo_now : Z; lo_open_get : bool; lo_touch : bool; lo_open_put : bool; lo_removes : bool;
  lo_copy : copy_result fs; lo_meta : bool; lo_prune : string → bool * bool;
  lo_provider : provider_io; lo_init : option path; lo_snp : bool; lo_tee_write : bool }.

Record layout_out := {
  lay_root : root_dir; lay_workspace : string; lay_oci : option OciImageConfig; lay_tee : option tee_instance }.

Section layout.
Context `{HashOrder} `{Unpack} {ids : HostIds} (sha256_hex : string → string) (dir_size : fs → option Z).
Context (P : RootfsProvider) (host : fs) (box : path) (config : BoxConfig).

Definition root_of (d : root_dir) : path :=
  box ++ [match d with RootfsDir => "rootfs" | MergedDir => "merged" end].

Definition cache_key : string := compute_key sha256_hex (image config) [] [] [].

Definition try_rootfs_cache_path (lo : layout_io) (c : DirCache.cache fs) : DirCache.cache fs * option fs :=
  if negb (cache_enabled (cache config)) then (c, None)
  else if negb (lo_open_get lo) then (c, None)
  else DirCache.get id (lo_now lo) (lo_touch lo) cache_key c.

Definition store_rootfs_cache (lo : layout_io) (built : fs) (c : DirCache.cache fs) : DirCache.cache fs :=
  if negb (cache_enabled (cache config)) then c
  else if negb (lo_open_put lo) then c
  else match DirCache.put dir_size (copy_tree true) id (lo_now lo) (lo_removes lo) (lo_copy lo) (lo_meta lo) cache_key built (image config) c with
       | (c, Ok _) =>
           (DirCache.prune id (lo_prune lo)
              (rootfs_within (Z.to_nat (max_rootfs_entries (cache config))) (max_cache_bytes (cache config))) c).1
       | (c, Err _) => c
       end.

(** [install_guest_init_only] on the root a box runs from *)
Definition refresh_init (d : root_dir) (init : path) (b : box_dir) : result root_error box_dir :=
  match view_at d b with
  | None => Err MkdirFailed
  | Some t =>
      f ← install_guest_init (root_of d) init (graft (root_of d) t host);
      Ok (set_view d t (subtree (root_of d) f) b)
  end.

Definition populated (r : option fs) : bool :=
  match r with Some t => existsb (λ kv, negb (bool_decide (kv.1 = []))) (map_to_list t) | None => false end.

Definition with_tee (lo : layout_io) (out : option tee_instance → layout_out) : result layout_error layout_out :=
  t ← map_err TeeFailed (generate_tee_config (lo_snp lo) (lo_tee_write lo) config); Ok (out t).

(** A restored snapshot: the root as it is, with the init refreshed when that succeeds. *)
Definition restored_layout (lo : layout_io) (workspace : string) (b : box_dir) : box_dir * result layout_error layout_out :=
  let b := match lo_init lo with
           | Some init => match refresh_init RootfsDir init b with Ok b' => b' | Err _ => b end
           | None => b
           end in
  (b, with_tee lo (λ t, {| lay_root := RootfsDir; lay_workspace := workspace; lay_oci := None; lay_tee := t |})).

Definition cached_layout (lo : layout_io) (workspace : string) (cached : fs) (b : box_dir)
    : box_dir * result layout_error layout_out :=
  match prepare P (lo_provider lo) cached b with
  | (b, Err e) => (b, Err (ProviderFailed e))
  | (b, Ok d) =>
      match match lo_init lo with Some init => refresh_init d init b | None => Ok b end with
      | Err e => (b, Err (RootFailed e))
      | Ok b =>
          (b, oci ← ok_or ImageConfigFailed (lo_config lo);
              with_tee lo (λ t, {| lay_root := d; lay_workspace := workspace; lay_oci := Some oci; lay_tee := t |}))
      end
  end.

Definition built_layout (lo : layout_io) (workspace : string) (layers : list (list tar_entry)) (b : box_dir)
    (c : DirCache.cache fs) : box_dir * DirCache.cache fs * result layout_error layout_out :=
  let root := root_of RootfsDir in
  match build root layers (lo_init lo) None (graft root (default ∅ (bd_rootfs b)) host) with
  | Err e => (b, c, Err (RootFailed e))
  | Ok f =>
      let t := subtree root f in
      let b := set_rootfs (Some t) b in
      match lo_config lo with
      | None => (b, c, Err ImageConfigFailed)
      | Some oci =>
          (b, store_rootfs_cache lo t c,
           with_tee lo (λ te, {| lay_root := RootfsDir; lay_workspace := workspace; lay_oci := Some oci; lay_tee := te |}))
      end
  end.

Definition prepare_layout (lo : layout_io) (b : box_dir) (c : DirCache.cache fs)
    : box_dir * DirCache.cache fs * result layout_error layout_out :=
  if negb (lo_sockets lo) then (b, c, Err SocketDir)
  else if negb (lo_logs lo) then (b, c, Err LogsDir)
  else if negb (lo_workspace lo) then (b, c, Err WorkspaceDir)
  else match lo_canonical lo with
  | None => (b, c, Err WorkspacePath)
  | Some workspace =>
      if bd_marker b && populated (bd_rootfs b) then
        let '(b, r) := restored_layout lo workspace b in (b, c, r)
      else if negb (lo_store lo) then (b, c, Err ImageStoreFailed)
      else match lo_pull lo with
      | None => (b, c, Err PullFailed)
      | Some layers =>
          match try_rootfs_cache_path lo c with
          | (c, Some cached) => let '(b, r) := cached_layout lo workspace cached b in (b, c, r)
          | (c, None) => built_layout lo workspace layers b c
          end
      end
  end.
End layout.

(** ** After a crash ([vm/reap.rs]) *)

Record process := { pr_pid : Z; pr_cmdline : option string }.

(** [kill_orphaned_shim] over the entries of [/proc]: the names that are numbers, with their
    command lines; the result is what was killed. *)
Definition kill_orphaned_shim (box_id : string) (procs : option (list (string * option string))) : list Z :=
  match procs with
  | None => []
  | Some l =>
      omap (λ '(name, cmdline),
        pid ← parse_int 32 name;
        line ← cmdline;
        if str_contains "a3s-box-shim" line && str_contains box_id line then Some pid else None) l
  end.

(** [wait_for_exit]: at most a hundred polls of fifty milliseconds; the result is the
    number of polls, [alive] tells what poll [k] sees. *)
Fixpoint wait_polls (alive : nat → bool) (remaining : nat) (k : nat) : nat :=
  match remaining with
  | O => k
  | S r => if alive k then wait_polls alive r (S k) else S k
  end.
Definition wait_for_exit (pids : list Z) (alive : nat → bool) : nat :=
  match pids with [] => O | _ => wait_polls alive (Z.to_nat (5000 / 50)) 0 end.

(** [reap_orphaned_box_in]: [None] as directory when the box has none. *)
Definition reap_orphaned_box (io : provider_io) (rm_box : bool) (box_id : string)
    (procs : option (list (string * option string))) (b : option box_dir) : option box_dir * list Z :=
  match b with
  | None => (None, [])
  | Some b =>
      let killed := kill_orphaned_shim box_id procs in
      let b := if bd_merged b then match overlay_unmount io b with Ok b' => b' | Err _ => b end else b in
      (if rm_box then None else Some b, killed)
  end.

(** ** The init binary that is chosen *)

Section elf_facts.
Context (data : list Z) (e_phoff e_phentsize : Z).

Definition header_at (i : Z) : Z := e_phoff + i * e_phentsize.
(** Header [i] lies in the file and names a program interpreter. *)
Definition interp_at (i : Z) : bool := (header_at i + 4 <=? data_len data) && (le_bytes data 4 (header_at i) =? 3).

Lemma no_interp_spec n i : 0 ≤ e_phoff → 0 ≤ e_phentsize → 0 ≤ i →
  header_at (i + Z.of_nat n) + 4 < 2 ^ 64 →
  no_interp data e_phoff e_phentsize n i = Some (negb (existsb interp_at (seqZ i (Z.of_nat n)))).
Proof.
  intros Ho Hs. revert i. induction n as [|n IH]; intros i Hi Hb; [done|].
  rewrite Nat2Z.inj_succ, seqZ_cons by lia. rewrite Z.pred_succ. cbn [no_interp existsb]. unfold header_at in *.
  assert (e_phoff + i * e_phentsize + 4 ≤ e_phoff + (i + Z.of_nat (S n)) * e_phentsize + 4) by nia.
  rewrite (wrap_small 64 (e_phoff + i * e_phentsize)) by (unfold in_range; nia).
  rewrite (wrap_small 64 (e_phoff + i * e_phentsize + 4)) by (unfold in_range; nia).
  unfold interp_at at 1, header_at. destruct (Z.ltb_spec (data_len data) (e_phoff + i * e_phentsize + 4)) as [Hlt|Hge].
  - rewrite (proj2 (Z.leb_gt _ _)) by lia. cbn [andb orb].
    assert (existsb interp_at (seqZ (Z.succ i) (Z.of_nat n)) = false) as ->; [|done].
    apply not_true_iff_false. intros (k & Hk & Hi')%existsb_exists. apply list_elem_of_In, elem_of_seqZ in Hk.
    unfold interp_at, header_at in Hi'. apply andb_true_iff in Hi' as [Hle%Z.leb_le _]. nia.
  - rewrite (proj2 (Z.leb_le _ _)) by lia. rewrite (proj2 (Z.ltb_ge _ _)) by lia. cbn [andb].
    destruct (Z.eqb (le_bytes data 4 (e_phoff + i * e_phentsize)) 3); [done|]. cbn [orb].
    rewrite IH; [done|lia|]. rewrite Nat2Z.inj_succ in Hb. unfold header_at. by replace (i + 1 + Z.of_nat n) with (i + Z.succ (Z.of_nat n)) by lia.
Qed.
End elf_facts.

(** Of 64-bit little-endian ELF files with a sane header table exactly those are accepted that
    name no program interpreter, that is, the static ones. *)
Theorem elf_static_spec data :
  64 ≤ data_len data → take 4 data = [127; 69; 76; 70] → byte_at data 7 = 0 ∨ byte_at data 7 = 3 →
  byte_at data 4 = 2 → byte_at data 5 = 1 →
  0 < le_bytes data 8 32 → 4 ≤ le_bytes data 2 54 → 0 ≤ le_bytes data 2 56 →
  le_bytes data 8 32 + le_bytes data 2 56 * le_bytes data 2 54 + 4 < 2 ^ 64 →
  is_linux_elf (Some data)
  = Some (negb (existsb (interp_at data (le_bytes data 8 32) (le_bytes data 2 54)) (seqZ 0 (le_bytes data 2 56)))).
Proof.
  intros Hl Hm Ha Hc He Ho Hs Hn Hb. unfold is_linux_elf, elf_static.
  rewrite (proj2 (Z.ltb_ge _ _)) by lia. rewrite bool_decide_eq_true_2 by done. cbn [negb orb].
  replace ((byte_at data 7 =? 0) || (byte_at data 7 =? 3)) with true by (destruct Ha as [-> | ->]; done).
  rewrite Hc, He. cbn [negb orb Z.eqb]. rewrite (proj2 (Z.eqb_neq _ _)) by lia. rewrite (proj2 (Z.ltb_ge _ _)) by lia.
  cbn [orb]. rewrite no_interp_spec; [by rewrite Z2Nat.id by lia|lia..|]. unfold header_at. rewrite Z2Nat.id by lia. lia.
Qed.

(** A file with a header offset at the end of the address space is not rejected but stops the program. *)
Lemma elf_offset_panics :
  let head := [127; 69; 76; 70; 2; 1; 1; 0] ++ repeat 0 24 ++ repeat 255 8 ++ repeat 0 14 ++ [56; 0; 1; 0] ++ repeat 0 20 in
  is_linux_elf (Some head) = None.
Proof. vm_compute. reflexivity. Qed.

Lemma insert_rank_front x l : musl_rank x = 0 → insert_by (λ a b, musl_rank a <=? musl_rank b) x l = x :: l.
Proof.
  intros Hx. destruct l as [|y l]; [done|]. cbn. rewrite Hx.
  assert ((0 <=? musl_rank y) = true) as ->; [|done]. unfold musl_rank. by destruct (str_contains _ y).
Qed.
Lemma insert_rank_mid x l k : musl_rank x = 1 → Forall (λ y, musl_rank y = 0) l → Forall (λ y, musl_rank y = 1) k →
  insert_by (λ a b, musl_rank a <=? musl_rank b) x (l ++ k) = l ++ x :: k.
Proof.
  intros Hx Hl Hk. induction Hl as [|y l Hy Hl IH]; cbn.
  - destruct Hk as [|z k Hz Hk]; [done|]. cbn. by rewrite Hx, Hz.
  - by rewrite Hx, Hy, IH.
Qed.

Definition is_musl (p : string) : bool := musl_rank p =? 0.

Lemma rank_sorted l : sort_by (λ a b, musl_rank a <=? musl_rank b) l
  = List.filter is_musl l ++ List.filter (λ p, negb (is_musl p)) l.
Proof.
  induction l as [|x l IH]; [done|]. cbn [sort_by foldr]. fold (sort_by (λ a b, musl_rank a <=? musl_rank b) l).
  rewrite IH. cbn [List.filter]. destruct (is_musl x) eqn:Em; cbn [negb]; unfold is_musl in Em.
  - apply Z.eqb_eq in Em. by apply insert_rank_front.
  - apply insert_rank_mid.
    + unfold musl_rank in *. by destruct (str_contains _ x).
    + apply list.Forall_forall. intros y [_ Hy%Z.eqb_eq]%elem_of_filter_b. done.
    + apply list.Forall_forall. intros y [_ Hy]%elem_of_filter_b. unfold is_musl, musl_rank in *. by destruct (str_contains _ y).
Qed.

Lemma first_static_app read l k : first_static read (l ++ k) =
  match first_static read l with Some None => first_static read k | r => r end.
Proof.
  induction l as [|p l IH]; [done|]. cbn [app first_static]. destruct (is_linux_elf (read p)) as [[]|]; cbn; auto.
Qed.

Lemma first_static_Some read l p : first_static read l = Some (Some p) → p ∈ l ∧ is_linux_elf (read p) = Some true.
Proof.
  induction l as [|q l IH]; [done|]. cbn [first_static]. destruct (is_linux_elf (read q)) as [[]|] eqn:E; cbn; [| |done].
  - intros [= <-]. split; [constructor|done].
  - intros [H1 H2]%IH. split; [by constructor|done].
Qed.
Lemma first_static_None read l : first_static read l = Some None → Forall (λ p, is_linux_elf (read p) = Some false) l.
Proof.
  induction l as [|q l IH]; [done|]. cbn [first_static]. destruct (is_linux_elf (read q)) as [[]|] eqn:E; cbn; [done| |done].
  intros H. constructor; auto.
Qed.

(** The binary that is found is a candidate that is accepted, and it is a musl build whenever an
    accepted candidate is one; none is found only when every candidate is refused. *)
Theorem guest_init_choice read candidates :
  match find_guest_init read candidates with
  | Some (Some p) => p ∈ candidates ∧ is_linux_elf (read p) = Some true ∧
      (∀ q, q ∈ candidates → is_musl q = true → is_linux_elf (read q) = Some true → is_musl p = true)
  | Some None => Forall (λ p, is_linux_elf (read p) = Some false) candidates
  | None => True
  end.
Proof.
  unfold find_guest_init. rewrite rank_sorted, first_static_app.
  destruct (first_static read (List.filter is_musl candidates)) as [[p|]|] eqn:E1; [| |done].
  - apply first_static_Some in E1 as [[Hin Hm]%elem_of_filter_b He]. auto.
  - apply first_static_None in E1. destruct (first_static read _) as [[p|]|] eqn:E2; [| |done].
    + apply first_static_Some in E2 as [[Hin Hm]%elem_of_filter_b He]. split_and!; [done|done|].
      intros q Hq Hqm Hqe. rewrite list.Forall_forall in E1. rewrite E1 in Hqe; [done|]. by apply elem_of_filter_b.
    + apply first_static_None in E2. apply list.Forall_forall. intros q Hq. rewrite list.Forall_forall in *.
      destruct (is_musl q) eqn:Em; [apply E1|apply E2]; apply elem_of_filter_b; [done|]. by rewrite Em.
Qed.

(** ** Roots from the cache *)

Lemma below_Some root q p : below root q = Some p ↔ q = root ++ p.
Proof.
  unfold below. case_bool_decide as H; split.
  - intros [= <-]. destruct H as [r ->]. by rewrite drop_app_length.
  - intros ->. by rewrite drop_app_length.
  - done.
  - intros ->. destruct H. by apply prefix_app_r.
Qed.

Lemma subtree_lookup (root : path) (f : fs) (p : path) : subtree root f !! p = f !! (root ++ p).
Proof.
  apply option_eq. intros i. unfold subtree. rewrite <-elem_of_list_to_map.
  - rewrite list_elem_of_omap. split.
    + intros ([q j] & Hin%elem_of_map_to_list & H). cbn in H. destruct (below root q) as [p'|] eqn:E; [|done].
      apply below_Some in E as ->. cbn in H. by simplify_eq/=.
    + intros H. exists (root ++ p, i). split; [by apply elem_of_map_to_list|]. cbn.
      by rewrite (proj2 (below_Some root (root ++ p) p)).
  - assert (∀ l : list (path * inode), NoDup l.*1 → NoDup (omap (λ kv, (λ p, (p, kv.2)) <$> below root kv.1) l).*1) as Hnd.
    { intros l. induction l as [|[q j] l IH]; [done|]. cbn. intros [Hq Hl]%NoDup_cons.
      destruct (below root q) as [p'|] eqn:E; cbn; [|auto]. apply NoDup_cons. split; [|auto].
      intros ([p'' k] & -> & ([q' k'] & Hin & Hk)%list_elem_of_omap)%list_elem_of_fmap. cbn in *.
      destruct (below root q') as [p3|] eqn:E'; [|done]. apply below_Some in E as ->, E' as ->. simplify_eq/=.
      apply Hq, list_elem_of_fmap. by exists (root ++ p'', k). }
    apply Hnd, NoDup_fst_map_to_list.
Qed.

Lemma graft_inside (root : path) (t h : fs) (p : path) : graft root t h !! (root ++ p) = t !! p.
Proof.
  unfold graft. rewrite lookup_union.
  rewrite (lookup_kmap (M1 := gmap path) (M2 := gmap path) (app root)).
  assert (remove_tree root h !! (root ++ p) = None) as ->.
  { unfold remove_tree. apply map_lookup_filter_None. right. intros i _ Hn. apply Hn. cbn. by apply prefix_app_r. }
  by destruct (t !! p).
Qed.
Lemma graft_outside (root : path) (t h : fs) (q : path) : ¬ root `prefix_of` q → graft root t h !! q = h !! q.
Proof.
  intros Hq. unfold graft. rewrite lookup_union.
  assert ((kmap (app root) t : fs) !! q = None) as ->.
  { apply (lookup_kmap_None (M1 := gmap path) (M2 := gmap path) (app root)). intros p ->. destruct Hq. by apply prefix_app_r. }
  unfold remove_tree. rewrite map_lookup_filter. destruct (h !! q) eqn:E; [|done]. cbn. by rewrite option_guard_True.
Qed.
Lemma subtree_graft (root : path) (t h : fs) : subtree root (graft root t h) = t.
Proof. apply map_eq. intros p. by rewrite subtree_lookup, graft_inside. Qed.

Lemma changes_same (t : fs) : changes t t = ∅.
Proof. apply map_eq. intros p. unfold changes. rewrite lookup_merge, lookup_empty. destruct (t !! p); [cbn; by case_decide|done]. Qed.
Lemma set_view_same d t b : view_at d b = Some t → set_view d t t b = b.
Proof.
  destruct d, b as [r m u w mg mo]; cbn; [by intros ->|]. intros _. unfold set_upper. cbn. rewrite changes_same. f_equal.
  destruct u as [u|]; [|done]. cbn. f_equal. apply map_empty_union.
Qed.

Lemma changes_overlay (lower : fs) (u : upper_layer) (t' : fs) :
  overlay_view lower (changes (overlay_view lower u) t' ∪ u) = t'.
Proof.
  apply map_eq. intros p. unfold overlay_view, changes.
  rewrite lookup_merge, lookup_union, lookup_merge, lookup_merge.
  destruct (lower !! p), (u !! p) as [[]|], (t' !! p); cbn; try case_decide; simplify_eq/=; done.
Qed.

(** What is put into a view is what the view shows. *)
Lemma view_set_view d t t' b : view_at d b = Some t → (d = MergedDir → is_Some (bd_upper b)) →
  (d = MergedDir → bd_mounts b ≠ []) → view_at d (set_view d t t' b) = Some t'.
Proof.
  destruct d; [done|]. intros Hv Hu Hm. destruct (Hu eq_refl) as [u Eu].
  cbn in *. destruct (bd_merged b); [|done]. rewrite Eu in *. cbn.
  destruct (bd_mounts b) as [|lower ms]; [by destruct Hm|]. cbn in *. injection Hv as <-. by rewrite changes_overlay.
Qed.

Section warm.
Context `{HashOrder} `{Unpack} {ids : HostIds} (sha256_hex : string → string) (dir_size : fs → option Z).
Context (P : RootfsProvider) `{!KeepsWrites P} (host : fs) (box : path) (config : BoxConfig).
Abbreviation key := (cache_key sha256_hex config).

Lemma invalidate_shrinks (a b : bool) (k : string) (c : DirCache.cache fs) (n : string) (d : fs) :
  c_dirs (invalidate id a b k c).1 !! n = Some d → c_dirs c !! n = Some d.
Proof.
  unfold invalidate. destruct (_ && negb a); [done|]. cbn [c_dirs]. destruct (_ && negb b); cbn [fst c_dirs];
    by intros [_ ?]%lookup_delete_Some.
Qed.
Lemma prune_shrinks (rm : string → bool * bool) (within : nat → Z → bool) (c : DirCache.cache fs) (n : string) (d : fs) :
  c_dirs (DirCache.prune id rm within c).1 !! n = Some d → c_dirs c !! n = Some d.
Proof.
  unfold DirCache.prune. destruct (within _ _); [done|]. generalize (oldest_first (list_entries c)) as l.
  generalize (length (list_entries c)) as k, (sum_size (list_entries c)) as z, O as e. intros k z e l.
  revert k z e c. induction l as [|m l IH]; intros k z e c; [done|]. cbn [prune_loop].
  destruct (within k z); [done|]. destruct (invalidate id _ _ _ c) as [c' [u|err]] eqn:E.
  - intros Hd%IH. eapply invalidate_shrinks. by rewrite E.
  - intros Hd. eapply invalidate_shrinks. by rewrite E.
Qed.

Lemma get_hit (now : Z) (w : bool) (c : DirCache.cache fs) (d : fs) : (DirCache.get id now w key c).2 = Some d →
  c_dirs c !! key = Some d ∧ is_Some (c_metas c !! key).
Proof. unfold DirCache.get. cbn. destruct (c_dirs c !! key), (c_metas c !! key); intros [= ->]; eauto. Qed.
Lemma get_miss (now : Z) (w : bool) (c : DirCache.cache fs) : (DirCache.get id now w key c).2 = None →
  (DirCache.get id now w key c).1 = c ∧ ¬ (is_Some (c_dirs c !! key) ∧ is_Some (c_metas c !! key)).
Proof.
  unfold DirCache.get. cbn. destruct (c_dirs c !! key), (c_metas c !! key); intros [=]; (split; [done|]); by intros [[] []].
Qed.

(** After a miss, a hit finds what the miss stored. *)
Lemma stored_is_found (lo1 lo2 : layout_io) (t : fs) (c : DirCache.cache fs) (cached : fs) : lo_open_get lo1 = true → lo_copy lo1 = Copied →
  (try_rootfs_cache_path sha256_hex config lo1 c).2 = None →
  (try_rootfs_cache_path sha256_hex config lo2 (store_rootfs_cache sha256_hex dir_size config lo1 t
     (try_rootfs_cache_path sha256_hex config lo1 c).1)).2 = Some cached →
  cached = copy_tree true t.
Proof.
  intros Ho Hcp. unfold try_rootfs_cache_path, store_rootfs_cache. destruct (cache_enabled _); cbn [negb]; [|done].
  rewrite Ho. cbn [negb]. intros [-> Hnot]%get_miss. destruct (lo_open_get lo2); cbn [negb]; [|done].
  destruct (lo_open_put lo1); cbn [negb].
  2: { intros [H1 H2]%get_hit. destruct Hnot. split; [by rewrite H1|done]. }
  unfold DirCache.put. cbn [id]. destruct (bool_decide _ && negb _).
  { intros [H1 H2]%get_hit. destruct Hnot. split; [by rewrite H1|done]. }
  rewrite Hcp. destruct (lo_meta lo1); intros [H1 H2]%get_hit.
  - apply prune_shrinks in H1. cbn [c_dirs] in H1. rewrite lookup_insert_eq in H1. congruence.
  - cbn [c_dirs] in H1. rewrite lookup_insert_eq in H1. congruence.
Qed.

(** The init binary of the host is a file with that content, outside of the box, and can be
    put at [/sbin/init] of the root [t]. *)
Record init_fits (t : fs) (init : path) (content : string) : Prop := {
  ip_host : way host box;
  ip_split : ∃ sp sn i, init = sp ++ [sn] ∧ way host sp ∧ plain_name sn ∧ host !! init = Some i ∧ i_kind i = KFile content;
  ip_outside : ¬ box `prefix_of` init;
  ip_root : dir_at t [];
  ip_sbin : dir_at t ["sbin"];
  ip_file : ¬ dir_at t ["sbin"; "init"] }.

(** A root with that guest init: an executable of root *)
Definition with_init (content : string) (t : fs) : fs :=
  <[["sbin"; "init"] := {| i_kind := KFile content; i_mode := 493; i_uid := 0; i_gid := 0 |}]> t.

Lemma prefix_snoc_inv (q p : path) (x : string) : q `prefix_of` p ++ [x] → q `prefix_of` p ∨ q = p ++ [x].
Proof.
  intros [r E]. destruct r as [|y r _] using rev_ind; [right; by rewrite app_nil_r in E|].
  left. rewrite app_assoc in E. apply app_inj_tail in E as [-> _]. by exists r.
Qed.

Lemma subtree_graft_insert (root p : path) (i : inode) (t h : fs) :
  subtree root (<[root ++ p := i]> (graft root t h)) = <[p := i]> t.
Proof.
  apply map_eq. intros q. rewrite subtree_lookup. destruct (decide (q = p)) as [->|Hne].
  - by rewrite !lookup_insert_eq.
  - rewrite !lookup_insert_ne, graft_inside; [done|congruence|]. intros ?%app_inv_head. congruence.
Qed.

Lemma refresh_installs (d : root_dir) (init : path) (t : fs) (b : box_dir) content : view_at d b = Some t → init_fits t init content →
  refresh_init host box d init b = Ok (set_view d t (with_init content t) b).
Proof.
  intros Hv [Hbox (sp & sn & i & -> & Hsp & Hsn & Hi & Hk) Hout Hroot Hsbin Hfile].
  unfold refresh_init. rewrite Hv. set (root := root_of box d).
  assert (∃ n, root = box ++ [n] ∧ plain_name n) as (n & En & Hn).
  { unfold root, root_of. destruct d; eexists; (split; [done|]); by apply plain_b. }
  assert (∀ q : path, q `prefix_of` box → ¬ root `prefix_of` q) as Hshort.
  { intros q Hq%prefix_length Hr%prefix_length. rewrite En, length_app in Hr. cbn in Hr. lia. }
  assert (∀ q : path, q `prefix_of` sp ++ [sn] → ¬ root `prefix_of` q) as Haway.
  { intros q Hq Hr. apply Hout. transitivity root; [rewrite En; by apply prefix_app_r|]. by transitivity q. }
  assert (way (graft root t host) (root ++ ["sbin"])) as Hway.
  { split.
    - rewrite En. rewrite !list.Forall_app. destruct Hbox as [Hp _]. split_and!; [done| |]; apply list.Forall_singleton; [done|by apply plain_b].
    - intros q [Hq| ->]%prefix_snoc_inv.
      + rewrite En in Hq. apply prefix_snoc_inv in Hq as [Hq|Hq].
        * destruct (way_dirs _ _ Hbox q Hq) as (j & Hj & Hd). exists j. by rewrite graft_outside by auto.
        * rewrite Hq, <-En. destruct Hroot as (j & Hj & Hd). exists j. pose proof (graft_inside root t host []) as G. rewrite app_nil_r in G. by rewrite G.
      + destruct Hsbin as (j & Hj & Hd). exists j. by rewrite graft_inside. }
  rewrite (init_installed root sp sn _ i content); [|done| |done| |done| |].
  - cbn [mbind result_bind]. by rewrite subtree_graft_insert.
  - destruct Hsp as [Hp Hd]. split; [done|]. intros q Hq. destruct (Hd q Hq) as (j & Hj & Hdj). exists j.
    rewrite graft_outside; [done|]. apply Haway. by apply prefix_app_r.
  - rewrite graft_outside by (by apply Haway). done.
  - intros E. apply (Haway (sp ++ [sn])); [done|]. rewrite E. by apply prefix_app_r.
  - intros (j & Hj & Hd). rewrite graft_inside in Hj. apply Hfile. by exists j.
Qed.

(** C18: A box that boots from the cache gets the root that the first box of the image was built
    with.  After a boot that missed the cache, opened it and copied its root into it whole,
    whatever else is in the cache and whatever is pruned or fails besides, take a next new box
    of the same image that hits the cache and boots with a provider whose I/O succeeds: its
    root is a complete copy of the first one's, every path with the same kind and content,
    except for /sbin/init, which is the guest init found on the host at the second boot
    (the same file when it has not changed, and the copied one when none is found).  With either
    provider; the init file lies outside of the box's directory and fits into the root. *)
Theorem warm_root_equals_cold (lo1 lo2 : layout_io) (c c1 c2 : DirCache.cache fs) (b1 b2 : box_dir) (out1 out2 : layout_out) (t : fs) :
  prepare_layout sha256_hex dir_size P host box config lo1 blank_dir c = (b1, c1, Ok out1) →
  lo_open_get lo1 = true → lo_copy lo1 = Copied → (try_rootfs_cache_path sha256_hex config lo1 c).2 = None →
  view_at (lay_root out1) b1 = Some t →
  prepare_layout sha256_hex dir_size P host box config lo2 blank_dir c1 = (b2, c2, Ok out2) →
  lo_provider lo2 = good_provider_io → is_Some (try_rootfs_cache_path sha256_hex config lo2 c1).2 →
  match lo_init lo2 with
  | None => view_at (lay_root out2) b2 = Some (copy_tree true t)
  | Some init => ∀ content, init_fits (copy_tree true t) init content →
                 view_at (lay_root out2) b2 = Some (with_init content (copy_tree true t))
  end.
Proof.
  intros H1 Ho Hcp Hmiss Hv H2 Hio [cached Hhit].
  assert (cached = copy_tree true t) as ->.
  { unfold prepare_layout in H1. destruct (lo_sockets lo1), (lo_logs lo1), (lo_workspace lo1); cbn [negb] in H1; try done.
    destruct (lo_canonical lo1) as [ws|]; [|done]. cbn [blank_dir bd_marker andb] in H1.
    destruct (lo_store lo1); cbn [negb] in H1; [|done]. destruct (lo_pull lo1) as [layers|]; [|done].
    destruct (try_rootfs_cache_path sha256_hex config lo1 c) as [c0 o] eqn:E. cbn in Hmiss. subst o.
    unfold built_layout in H1. destruct (build _ _ _ _ _) as [f|]; [|done]. destruct (lo_config lo1) as [oci|]; [|done].
    injection H1 as <- <- H1. unfold with_tee in H1. destruct (map_err _ _) as [te|]; [|done]. cbn in H1. injection H1 as <-.
    cbn in Hv. injection Hv as <-. eapply (stored_is_found lo1 lo2 _ c); rewrite ?E; [done|done|done|exact Hhit]. }
  unfold prepare_layout in H2. destruct (lo_sockets lo2), (lo_logs lo2), (lo_workspace lo2); cbn [negb] in H2; try done.
  destruct (lo_canonical lo2) as [ws|]; [|done]. cbn [blank_dir bd_marker andb] in H2.
  destruct (lo_store lo2); cbn [negb] in H2; [|done]. destruct (lo_pull lo2) as [layers|]; [|done].
  destruct (try_rootfs_cache_path sha256_hex config lo2 c1) as [c3 o] eqn:E. cbn in Hhit. subst o.
  unfold cached_layout in H2. rewrite Hio in H2.
  destruct (start_shows _ _ blank_dir (rest_blank _ (copy_tree_twice true t))) as (b' & d & Hp & Hr). fold blank_dir in H2. rewrite Hp in H2.
  pose proof (running_view _ _ _ _ Hr) as Hv'.
  destruct (lo_init lo2) as [init|].
  - intros content Hinit. rewrite (refresh_installs _ _ _ _ _ Hv' Hinit) in H2.
    injection H2 as <- <- H2. destruct (lo_config lo2) as [oci|]; [|done]. cbn in H2.
    unfold with_tee in H2. destruct (map_err _ _) as [te|]; [|done]. cbn in H2. injection H2 as <-.
    apply view_set_view; [done|..]; intros ->; by eapply running_overlay.
  - injection H2 as <- <- H2. destruct (lo_config lo2) as [oci|]; [|done]. cbn in H2.
    unfold with_tee in H2. destruct (map_err _ _) as [te|]; [|done]. cbn in H2. by injection H2 as <-.
Qed.

(** On a hit the layers of the image play no part: an image that was pulled again under the same
    reference, with other layers, boots with the root of the old one and its own configuration. *)
Lemma hit_ignores_layers (lo : layout_io) (layers : list (list tar_entry)) (b : box_dir) (c : DirCache.cache fs) : is_Some (try_rootfs_cache_path sha256_hex config lo c).2 → is_Some (lo_pull lo) →
  prepare_layout sha256_hex dir_size P host box config
    {| lo_sockets := lo_sockets lo; lo_logs := lo_logs lo; lo_workspace := lo_workspace lo; lo_canonical := lo_canonical lo;
       lo_store := lo_store lo; lo_pull := Some layers; lo_config := lo_config lo; lo_now := lo_now lo;
       lo_open_get := lo_open_get lo; lo_touch := lo_touch lo; lo_open_put := lo_open_put lo; lo_removes := lo_removes lo;
       lo_copy := lo_copy lo; lo_meta := lo_meta lo; lo_prune := lo_prune lo; lo_provider := lo_provider lo;
       lo_init := lo_init lo; lo_snp := lo_snp lo; lo_tee_write := lo_tee_write lo |} b c
  = prepare_layout sha256_hex dir_size P host box config lo b c.
Proof.
  intros [cached Hc] [l Hl]. unfold prepare_layout. cbn. rewrite Hl. unfold try_rootfs_cache_path in *. cbn.
  destruct (negb (lo_sockets lo)); [done|]. destruct (negb (lo_logs lo)); [done|].
  destruct (negb (lo_workspace lo)); [done|]. destruct (lo_canonical lo) as [ws|]; [|done].
  destruct (bd_marker b && populated (bd_rootfs b)); [done|]. destruct (negb (lo_store lo)); [done|].
  destruct (negb (cache_enabled _)); [done|]. destruct (negb (lo_open_get lo)); [done|].
  destruct (DirCache.get _ _ _ _ _) as [c' [o|]]; done.
Qed.
End warm.

(** ** A concrete host *)

Definition demo_config : BoxConfig :=
  {| image := "img"; workspace := ""; resources := resource_default; log_level := LogInfo;
     debug_grpc := false; tee := TeeNone; cmd := []; entrypoint_override := None;
     user := None; workdir := None; hostname := None; volumes := []; extra_env := [];
     cache := cache_default; pool := pool_default; port_map := []; dns := [];
     add_hosts := []; network := network box_default; tmpfs := []; resource_limits := limits_default;
     cap_add := []; cap_drop := []; security_opt := []; sysctls := [];
     privileged := false; read_only := false; sidecar := None; persistent := true |}.

Definition demo_io (layers : list (list tar_entry)) : layout_io := {|
  lo_sockets := true; lo_logs := true; lo_workspace := true; lo_canonical := Some "/w"; lo_store := true;
  lo_pull := Some layers; lo_config := Some scratch_config; lo_now := 1; lo_open_get := true; lo_touch := true;
  lo_open_put := true; lo_removes := true; lo_copy := Copied; lo_meta := true; lo_prune := λ _, (true, true);
  lo_provider := good_provider_io; lo_init := Some ["c"; "a"]; lo_snp := false; lo_tee_write := true |}.

Definition demo_prepare (P : RootfsProvider) (layers : list (list tar_entry)) (b : box_dir) (c : DirCache.cache fs) :=
  @prepare_layout list_order toy_unpack as_root id (λ _, Some 1) P plain_host ["r"] demo_config (demo_io layers) b c.

Definition demo_layer : list tar_entry := [{| e_absolute := false; e_path := ["app"]; e_inode := file_of "v1" |}].
Definition demo_cold := demo_prepare OverlayProvider [demo_layer] blank_dir (empty_cache fs).
Definition demo_warm := demo_prepare OverlayProvider [demo_layer] blank_dir demo_cold.1.2.
Definition demo_out (d : root_dir) : layout_out :=
  {| lay_root := d; lay_workspace := "/w"; lay_oci := Some scratch_config; lay_tee := None |}.
Definition demo_tree : fs := default ∅ (view_at RootfsDir demo_cold.1.1).

Lemma triple_eta {A B C} (x : A * B * C) (c : C) : x.2 = c → x = (x.1.1, x.1.2, c).
Proof. intros <-. by destruct x as [[] ]. Qed.

Lemma demo_init : init_fits plain_host ["r"] (@copy_tree as_root true demo_tree) ["c"; "a"] "hello".
Proof.
  split.
  - by apply way_check; vm_compute.
  - exists ["c"], "a", (file_of "hello"). split_and!; [done| |by apply plain_b|by vm_compute|done].
    by apply way_check; vm_compute.
  - by intros [r E].
  - by apply is_dir_at_spec; vm_compute.
  - by apply is_dir_at_spec; vm_compute.
  - intros (i & Hi & Hd). vm_compute in Hi. injection Hi as <-. by vm_compute in Hd.
Qed.

Definition some_b {A} (o : option A) : bool := match o with Some _ => true | None => false end.
Lemma some_b_default (o : option fs) : some_b o = true → o = Some (default ∅ o).
Proof. by destruct o. Qed.
Lemma some_b_is_Some {A} (o : option A) : some_b o = true → is_Some o.
Proof. by destruct o. Qed.

Lemma demo_cold_ok : demo_cold.2 = Ok (demo_out RootfsDir).
Proof. vm_compute. reflexivity. Qed.
Lemma demo_warm_ok : demo_warm.2 = Ok (demo_out MergedDir).
Proof. vm_compute. reflexivity. Qed.
Lemma demo_miss : (try_rootfs_cache_path id demo_config (demo_io [demo_layer]) (empty_cache fs)).2 = None.
Proof. vm_compute. reflexivity. Qed.
Lemma demo_hit : some_b (try_rootfs_cache_path id demo_config (demo_io [demo_layer]) demo_cold.1.2).2 = true.
Proof. vm_compute. reflexivity. Qed.
Lemma demo_view : some_b (view_at RootfsDir demo_cold.1.1) = true.
Proof. vm_compute. reflexivity. Qed.

Lemma warm_root_equals_cold_witness :
  view_at (lay_root (demo_out MergedDir)) demo_warm.1.1 = Some (@with_init "hello" (@copy_tree as_root true demo_tree)).
Proof.
  refine (@warm_root_equals_cold list_order toy_unpack as_root id (λ _, Some 1) OverlayProvider _ plain_host ["r"] demo_config
    (demo_io [demo_layer]) (demo_io [demo_layer]) (empty_cache fs) demo_cold.1.2 demo_warm.1.2 demo_cold.1.1 demo_warm.1.1
    (demo_out RootfsDir) (demo_out MergedDir) demo_tree (triple_eta demo_cold _ demo_cold_ok) eq_refl eq_refl demo_miss
    (some_b_default _ demo_view) (triple_eta demo_warm _ demo_warm_ok)
    eq_refl (some_b_is_Some _ demo_hit) "hello" demo_init).
Defined.

(** A persistent box that was built on a cache miss runs from [rootfs]; when it is started again
    the cache hits and it runs from the overlay, without what it wrote: its data is still in the
    directory and no longer in its root. *)
Lemma restart_after_miss_forgets :
  let w := (["data"], Some (file_of "precious")) in
  let b1 := guest_write RootfsDir demo_cold.1.1 w in
  let b2 := (overlay_cleanup good_provider_io true b1).1 in
  let '(b3, _, r) := demo_prepare OverlayProvider [demo_layer] b2 demo_cold.1.2 in
  (t ← view_at RootfsDir b1; t !! ["data"]) = Some (file_of "precious") ∧
  lay_root <$> res_ok r = Some MergedDir ∧ (t ← view_at MergedDir b3; t !! ["data"]) = None ∧
  (t ← bd_rootfs b3; t !! ["data"]) = Some (file_of "precious").
Proof. vm_compute. done. Qed.

(** The cache is asked for the reference alone: after the image behind it changed, boxes
    keep booting with the old files. *)
Lemma moved_reference_is_stale :
  let layer2 := [{| e_absolute := false; e_path := ["app"]; e_inode := file_of "v2" |}] in
  (t ← view_at MergedDir (demo_prepare OverlayProvider [layer2] blank_dir demo_cold.1.2).1.1; t !! ["app"])
  = Some (file_of "v1").
Proof. vm_compute. reflexivity. Qed.

(** The second box of an image has directories with other modes than the first: one that all could
    write to is its owner's alone. *)
Lemma warm_directory_modes :
  let spool := {| i_kind := KDir; i_mode := 1023; i_uid := 0; i_gid := 0 |} in
  let layers := [[{| e_absolute := false; e_path := ["spool"]; e_inode := spool |}]] in
  let '(b1, c, _) := demo_prepare OverlayProvider layers blank_dir (empty_cache fs) in
  let '(b2, _, _) := demo_prepare OverlayProvider layers blank_dir c in
  (t ← view_at RootfsDir b1; i_mode <$> t !! ["spool"]) = Some 1023 ∧
  (t ← view_at MergedDir b2; i_mode <$> t !! ["spool"]) = Some 493.
Proof. vm_compute. done. Qed.

(** ** Snapshots and crashes *)

(** A box with the marker of a restored snapshot boots from its own root, whatever the cache and the
    registry say; without an init binary to refresh the root is exactly the one restored. *)
Theorem restored_root_kept `{HashOrder} `{Unpack} {ids : HostIds} (sha256_hex : string → string) (dir_size : fs → option Z) (P : RootfsProvider) (host : fs) (box : path) (config : BoxConfig)
    (lo : layout_io) (b : box_dir) (c : DirCache.cache fs) (b' : box_dir) (c' : DirCache.cache fs) (out : layout_out) :
  bd_marker b = true → populated (bd_rootfs b) = true →
  prepare_layout sha256_hex dir_size P host box config lo b c = (b', c', Ok out) →
  lay_root out = RootfsDir ∧ lay_oci out = None ∧ c' = c ∧ (lo_init lo = None → b' = b).
Proof.
  intros Hm Hp. unfold prepare_layout. rewrite Hm, Hp. cbn [andb].
  destruct (negb (lo_sockets lo)); [done|]. destruct (negb (lo_logs lo)); [done|].
  destruct (negb (lo_workspace lo)); [done|]. destruct (lo_canonical lo) as [ws|]; [|done].
  unfold restored_layout, with_tee. intros Heq. injection Heq as <- <- Ho.
  destruct (map_err _ _) as [te|]; [|done]. cbn in Ho. injection Ho as <-. split_and!; try done. by intros ->.
Qed.

(** Only processes whose command line names the shim and the box are killed; the wait for them is
    at most a hundred polls, five seconds. *)
Theorem reap_bounded (box_id : string) (procs : option (list (string * option string))) (pid : Z) :
  pid ∈ kill_orphaned_shim box_id procs →
  ∃ l name line, procs = Some l ∧ (name, Some line) ∈ l ∧ parse_int 32 name = Some pid ∧
    str_contains "a3s-box-shim" line = true ∧ str_contains box_id line = true.
Proof.
  destruct procs as [l|]; cbn; [|by intros ?%not_elem_of_nil]. intros ([name [line|]] & Hin & H)%list_elem_of_omap; cbn in H.
  - destruct (parse_int 32 name) as [p|] eqn:E; [|done]. cbn in H. destruct (_ && _) eqn:E'; [|done].
    apply andb_true_iff in E' as []. exists l, name, line. split_and!; try done. congruence.
  - by destruct (parse_int 32 name).
Qed.

Lemma wait_bounded (pids : list Z) (alive : nat → bool) : (wait_for_exit pids alive ≤ 100)%nat.
Proof.
  unfold wait_for_exit. destruct pids; [lia|]. replace (Z.to_nat (5000 / 50)) with 100%nat by done.
  assert (∀ r k, (wait_polls alive r k ≤ k + r)%nat) as H; [|apply (H 100%nat 0%nat)].
  intros r. induction r as [|r IH]; intros k; cbn; [lia|]. destruct (alive k); [specialize (IH (S k)); lia|lia].
Qed.
