(* ===== verification/VmManager.v ===== *)
(** * VmManager: the life of one virtual machine

    [runtime/src/vmm/handler.rs] (the handle of a shim process), [core/src/vmm.rs] (whether a
    process exited), [runtime/src/vm/ready.rs] (waiting for the guest) and [runtime/src/vm/mod.rs]
    (boot, failed boots, destruction, the state machine, commands and live limits).  The boot
    is composed of Layout.v's preparation and VmSpec.v's specification and network; volumes are
    the store of Store.v, limits those of Security.v.  Clocks, processes and what the host
    answers are arguments. *)

From Stdlib Require Import ZArith Lia Ascii.
From stdpp Require Import base gmap strings list numbers fin_maps.
From S2P Require Import DirCache Prelude RustStr Text Layers Build Options Network Store Config Security TreeCopy Rootfs Layout VmSpec.

Local Open Scope string_scope.
Local Open Scope list_scope.
Local Open Scope Z_scope.

(** ** The handle of a shim process *)

Definition SIGKILL : Z := 9.
Definition SIGTERM : Z := 15.
Definition DEFAULT_SHUTDOWN_TIMEOUT_MS : Z := 10000.

(** [sh_owned]: the process was spawned by this manager and can be waited for. *)
Record ShimHandler := { sh_pid : Z; sh_box_id : string; sh_owned : bool; sh_exit_code : option Z }.
Definition from_child (pid : Z) (box_id : string) : ShimHandler :=
  {| sh_pid := pid; sh_box_id := box_id; sh_owned := true; sh_exit_code := None |}.
Definition from_pid (pid : Z) (box_id : string) : ShimHandler :=
  {| sh_pid := pid; sh_box_id := box_id; sh_owned := false; sh_exit_code := None |}.

(** [Child::try_wait]: an exit code, or none for a process ended by a signal. *)
Inductive poll := Exited (code : option Z) | StillRunning | PollFailed.

(** What the polls of a stop see: the milliseconds that have passed and the answers; [st_final] is
    what waiting after the last signal gives. *)
Record stop_env := {
  st_elapsed : nat → Z; st_poll : nat → poll; st_final : option (option Z);
  st_waitpid : nat → Z; st_exists : nat → bool }.

(** The loop for a process of our own: what the exit code is set to, if it is, and whether the
    process was killed.  [None]: out of fuel. *)
Fixpoint stop_owned (env : stop_env) (timeout : Z) (fuel k : nat) : option (option (option Z) * bool) :=
  match fuel with
  | O => None
  | S fuel =>
      match st_poll env k with
      | Exited code => Some (Some code, false)
      | StillRunning =>
          if timeout <? st_elapsed env k then Some (st_final env, true)
          else stop_owned env timeout fuel (S k)
      | PollFailed => Some (None, true)
      end
  end.

(** The loop for a process that was only attached to: whether it was killed. *)
Fixpoint stop_attached (env : stop_env) (timeout : Z) (fuel k : nat) : option bool :=
  match fuel with
  | O => None
  | S fuel =>
      if 0 <? st_waitpid env k then Some false
      else if (st_waitpid env k <? 0) && negb (st_exists env k) then Some false
      else if timeout <? st_elapsed env k then Some true
      else stop_attached env timeout fuel (S k)
  end.

(** One poll every fifty milliseconds *)
Definition stop_fuel (timeout : Z) : nat := S (S (Z.to_nat (timeout / 50))).

(** [ShimHandler::stop]: the handle afterwards and the signals that were sent. *)
Definition stop (env : stop_env) (signal timeout : Z) (h : ShimHandler) : option (ShimHandler * list (Z * Z)) :=
  let kill (killed : bool) := if killed then [(sh_pid h, SIGKILL)] else [] in
  if sh_owned h then
    '(code, killed) ← stop_owned env timeout (stop_fuel timeout) 0;
    Some ({| sh_pid := sh_pid h; sh_box_id := sh_box_id h; sh_owned := false;
             sh_exit_code := default (sh_exit_code h) code |},
          (sh_pid h, signal) :: kill killed)
  else
    killed ← stop_attached env timeout (stop_fuel timeout) 0;
    Some (h, (sh_pid h, signal) :: kill killed).

(** [ShimHandler::try_wait_exit] *)
Definition handler_try_wait (p : poll) (h : ShimHandler) : ShimHandler * result () (option Z) :=
  match sh_exit_code h with
  | Some c => (h, Ok (Some c))
  | None =>
      if negb (sh_owned h) then (h, Ok None)
      else match p with
           | Exited code =>
               ({| sh_pid := sh_pid h; sh_box_id := sh_box_id h; sh_owned := true; sh_exit_code := code |}, Ok code)
           | StillRunning => (h, Ok None)
           | PollFailed => (h, Err ())
           end
  end.

(** [linux_process_exited] on the text of [/proc/<pid>/stat] *)
Definition linux_process_exited (stat : option string) : bool :=
  match stat with
  | None => true
  | Some text =>
      match rsplit_once ")" text with
      | Some (_, rest) =>
          match trim_start rest with
          | String c _ => Ascii.eqb c "Z" || Ascii.eqb c "X"
          | "" => false
          end
      | None => false
      end
  end.

(** ** Waiting for the guest ([ready.rs]) *)

(** What the polls see: the time, whether the socket is there, whether the shim exited, whether a
    connection and its heartbeat succeed. *)
Record ready_env := {
  rd_elapsed : nat → Z; rd_socket : nat → bool; rd_exited : nat → bool; rd_heartbeat : nat → bool }.
Definition MAX_WAIT_MS : Z := 10000.

(** Phase two: connect until a heartbeat is answered. *)
Fixpoint wait_heartbeat (env : ready_env) (fuel k : nat) : option bool :=
  match fuel with
  | O => None
  | S fuel =>
      if MAX_WAIT_MS <=? rd_elapsed env k then Some false
      else if rd_exited env k then Some false
      else if rd_heartbeat env k then Some true
      else wait_heartbeat env fuel (S k)
  end.

(** Phase one: wait for the socket, then phase two at the same time.  The result tells whether
    there is a client; the wait itself never fails. *)
Fixpoint wait_for_exec_ready (env : ready_env) (fuel k : nat) : option bool :=
  match fuel with
  | O => None
  | S fuel =>
      if MAX_WAIT_MS <=? rd_elapsed env k then Some false
      else if rd_socket env k then wait_heartbeat env (S fuel) k
      else if rd_exited env k then Some false
      else wait_for_exec_ready env fuel (S k)
  end.
(** One poll every two hundred milliseconds *)
Definition ready_fuel : nat := 52.

(** *** Both loops end *)

Section waiting.
Context (env : stop_env) (timeout : Z).
Hypothesis sleeps : ∀ k, 50 * Z.of_nat k ≤ st_elapsed env k.
Hypothesis timeout_nonneg : 0 ≤ timeout.

Lemma stop_fuel_late k : (Z.to_nat (timeout / 50) < k)%nat → timeout < st_elapsed env k.
Proof using sleeps timeout_nonneg.
  intros Hk. specialize (sleeps k). pose proof (Z.div_pos timeout 50). pose proof (Z.mul_div_le timeout 50).
  pose proof (Z.mod_pos_bound timeout 50). pose proof (Z.div_mod timeout 50). lia.
Qed.

(** The loops end by the poll after the timeout; a kill means that the timeout passed, or that the
    process could not be polled. *)
Lemma stop_owned_ends : ∃ code killed k, stop_owned env timeout (stop_fuel timeout) 0 = Some (code, killed) ∧
  (killed = false → st_poll env k = Exited (default None code) ∧ code ≠ None) ∧
  (killed = true → timeout < st_elapsed env k ∨ st_poll env k = PollFailed).
Proof using sleeps timeout_nonneg.
  assert (∀ fuel k, (Z.to_nat (timeout / 50) + 2 ≤ k + fuel)%nat → (k < k + fuel)%nat →
    ∃ code killed j, stop_owned env timeout fuel k = Some (code, killed) ∧
      (killed = false → st_poll env j = Exited (default None code) ∧ code ≠ None) ∧
      (killed = true → timeout < st_elapsed env j ∨ st_poll env j = PollFailed)) as H.
  { intros fuel. induction fuel as [|fuel IH]; intros k Hf Hk; [lia|]. cbn [stop_owned].
    destruct (st_poll env k) as [c| |] eqn:E.
    - exists (Some c), false, k. by rewrite E.
    - destruct (Z.ltb_spec timeout (st_elapsed env k)) as [Hlt|Hge].
      + exists (st_final env), true, k. naive_solver.
      + apply IH; [lia|]. destruct fuel; [|lia]. exfalso. pose proof (stop_fuel_late k). lia.
    - exists None, true, k. naive_solver. }
  unfold stop_fuel. apply H; lia.
Qed.

Lemma stop_attached_ends : ∃ killed k, stop_attached env timeout (stop_fuel timeout) 0 = Some killed ∧
  (killed = true → timeout < st_elapsed env k).
Proof using sleeps timeout_nonneg.
  assert (∀ fuel k, (Z.to_nat (timeout / 50) + 2 ≤ k + fuel)%nat → (k < k + fuel)%nat →
    ∃ killed j, stop_attached env timeout fuel k = Some killed ∧ (killed = true → timeout < st_elapsed env j)) as H.
  { intros fuel. induction fuel as [|fuel IH]; intros k Hf Hk; [lia|]. cbn [stop_attached].
    destruct (0 <? _); [by exists false, k|]. destruct (_ && _); [by exists false, k|].
    destruct (Z.ltb_spec timeout (st_elapsed env k)) as [Hlt|Hge]; [by exists true, k|].
    apply IH; [lia|]. destruct fuel; [|lia]. exfalso. pose proof (stop_fuel_late k). lia. }
  unfold stop_fuel. apply H; lia.
Qed.

(** Stopping a machine ends: the configured signal is sent first, [SIGKILL] at most once after
    it, and only when the timeout has passed or the process cannot be polled. *)
Theorem shim_stop_correct signal h : ∃ h' sigs k, stop env signal timeout h = Some (h', sigs) ∧
  sh_pid h' = sh_pid h ∧ sh_owned h' = false ∧
  (sigs = [(sh_pid h, signal)] ∨
   sigs = [(sh_pid h, signal); (sh_pid h, SIGKILL)] ∧ (timeout < st_elapsed env k ∨ sh_owned h = true ∧ st_poll env k = PollFailed)).
Proof using sleeps timeout_nonneg.
  unfold stop. destruct (sh_owned h) eqn:Eo.
  - destruct stop_owned_ends as (code & killed & k & -> & H1 & H2). cbn. eexists _, _, k. split; [done|].
    split_and!; [done|done|]. destruct killed; [right|by left]. split; [done|]. destruct (H2 eq_refl); auto.
  - destruct stop_attached_ends as (killed & k & -> & H2). cbn. exists h. eexists _, k. split; [done|].
    split_and!; [done|done|]. destruct killed; [right|by left]. auto.
Qed.
End waiting.

Lemma ready_late (env : ready_env) : (∀ k, 200 * Z.of_nat k ≤ rd_elapsed env k) → ∀ k, (50 ≤ k)%nat → (MAX_WAIT_MS <=? rd_elapsed env k) = true.
Proof. intros Hs k Hk. apply Z.leb_le. unfold MAX_WAIT_MS. specialize (Hs k). lia. Qed.

(** The wait for the guest's server ends after at most ten seconds of polls, with a client exactly
    when a heartbeat was answered in time by a machine that still ran. *)
Theorem exec_ready_ends (env : ready_env) : (∀ k, 200 * Z.of_nat k ≤ rd_elapsed env k) →
  ∃ connected, wait_for_exec_ready env ready_fuel 0 = Some connected ∧
    (connected = true → ∃ k, rd_elapsed env k < MAX_WAIT_MS ∧ rd_exited env k = false ∧ rd_heartbeat env k = true).
Proof.
  intros Hs. pose proof (ready_late env Hs) as Hlate.
  assert (∀ fuel k, (51 ≤ k + fuel)%nat → (0 < fuel)%nat → ∃ c, wait_heartbeat env fuel k = Some c ∧
    (c = true → ∃ k, rd_elapsed env k < MAX_WAIT_MS ∧ rd_exited env k = false ∧ rd_heartbeat env k = true)) as H2.
  { intros fuel. induction fuel as [|fuel IH]; intros k Hf Hp; [lia|]. cbn [wait_heartbeat].
    destruct (Z.leb_spec MAX_WAIT_MS (rd_elapsed env k)) as [|Hlt]; [by exists false|].
    destruct (rd_exited env k) eqn:Ee; [by exists false|]. destruct (rd_heartbeat env k) eqn:Eh; [exists true; eauto|].
    apply IH; [lia|]. destruct fuel; [|lia]. exfalso. specialize (Hlate k ltac:(lia)). apply Z.leb_le in Hlate. lia. }
  assert (∀ fuel k, (51 ≤ k + fuel)%nat → (0 < fuel)%nat → ∃ c, wait_for_exec_ready env fuel k = Some c ∧
    (c = true → ∃ k, rd_elapsed env k < MAX_WAIT_MS ∧ rd_exited env k = false ∧ rd_heartbeat env k = true)) as H1.
  { intros fuel. induction fuel as [|fuel IH]; intros k Hf Hp; [lia|]. cbn [wait_for_exec_ready].
    destruct (Z.leb_spec MAX_WAIT_MS (rd_elapsed env k)) as [|Hlt]; [by exists false|].
    destruct (rd_socket env k); [apply H2; lia|]. destruct (rd_exited env k); [by exists false|].
    apply IH; [lia|]. destruct fuel; [|lia]. exfalso. specialize (Hlate k ltac:(lia)). apply Z.leb_le in Hlate. lia. }
  apply H1; unfold ready_fuel; lia.
Qed.

(** A shim that was ended by a signal has no exit code: polling does not report it, and a
    foreground run learns of it from the health check. *)
Lemma signalled_exit_unseen p h : sh_exit_code h = None → p ≠ PollFailed → (∀ c, p ≠ Exited (Some c)) →
  handler_try_wait p h = (h, Ok None) ∨ p = Exited None ∧ (handler_try_wait p h).2 = Ok None.
Proof.
  intros He Hp Hc. unfold handler_try_wait. rewrite He. destruct (sh_owned h); cbn [negb]; [|by left].
  destruct p as [[c|]| |]; [by destruct (Hc c)|by right|by left|done].
Qed.

(** A zombie counts as exited, whatever the name of the process is. *)
Lemma zombie_exited : linux_process_exited (Some "4242 ((libkrun VM) S) Z 1 2 3") = true ∧
  linux_process_exited (Some "4242 ((libkrun VM) Z) S 1 2 3") = false ∧ linux_process_exited None = true.
Proof. by vm_compute. Qed.

(** ** The manager *)

Inductive VmState := Created | Ready | Busy | Compacting | Stopped.
#[export] Instance vmstate_eq_dec : EqDecision VmState.
Proof. solve_decision. Defined.

(** The counters the manager moves, when metrics are attached. *)
Record vm_prom := {
  vm_created_total : Z; vm_destroyed_total : Z; vm_count_ready : Z; exec_total : Z; exec_errors_total : Z }.

(** The machine's own state: [vm_net] is the running network backend, the sockets are the paths
    kept after a boot, [vm_events] what was emitted. *)
Record VmManager := {
  vm_state : VmState; vm_provider : bool; vm_handler : option ShimHandler; vm_exec_client : bool;
  vm_net : bool; vm_anonymous : list string; vm_created : list string;
  vm_image_config : option OciImageConfig; vm_tee : bool; vm_sockets : option string;
  vm_prom_ : option vm_prom; vm_exit_code : option Z; vm_events : list string }.

Definition vm_new (provider : bool) (prom : option vm_prom) : VmManager :=
  {| vm_state := Created; vm_provider := provider; vm_handler := None; vm_exec_client := false; vm_net := false;
     vm_anonymous := []; vm_created := []; vm_image_config := None; vm_tee := false; vm_sockets := None;
     vm_prom_ := prom; vm_exit_code := None; vm_events := [] |}.

Section setters.
Context (v : VmManager).
Definition set_state (x : VmState) : VmManager :=
  {| vm_state := x; vm_provider := vm_provider v; vm_handler := vm_handler v; vm_exec_client := vm_exec_client v;
     vm_net := vm_net v; vm_anonymous := vm_anonymous v; vm_created := vm_created v; vm_image_config := vm_image_config v;
     vm_tee := vm_tee v; vm_sockets := vm_sockets v; vm_prom_ := vm_prom_ v; vm_exit_code := vm_exit_code v; vm_events := vm_events v |}.
Definition set_handler (x : option ShimHandler) : VmManager :=
  {| vm_state := vm_state v; vm_provider := vm_provider v; vm_handler := x; vm_exec_client := vm_exec_client v;
     vm_net := vm_net v; vm_anonymous := vm_anonymous v; vm_created := vm_created v; vm_image_config := vm_image_config v;
     vm_tee := vm_tee v; vm_sockets := vm_sockets v; vm_prom_ := vm_prom_ v; vm_exit_code := vm_exit_code v; vm_events := vm_events v |}.
Definition set_exit (x : option Z) : VmManager :=
  {| vm_state := vm_state v; vm_provider := vm_provider v; vm_handler := vm_handler v; vm_exec_client := vm_exec_client v;
     vm_net := vm_net v; vm_anonymous := vm_anonymous v; vm_created := vm_created v; vm_image_config := vm_image_config v;
     vm_tee := vm_tee v; vm_sockets := vm_sockets v; vm_prom_ := vm_prom_ v; vm_exit_code := x; vm_events := vm_events v |}.
Definition set_net (x : bool) : VmManager :=
  {| vm_state := vm_state v; vm_provider := vm_provider v; vm_handler := vm_handler v; vm_exec_client := vm_exec_client v;
     vm_net := x; vm_anonymous := vm_anonymous v; vm_created := vm_created v; vm_image_config := vm_image_config v;
     vm_tee := vm_tee v; vm_sockets := vm_sockets v; vm_prom_ := vm_prom_ v; vm_exit_code := vm_exit_code v; vm_events := vm_events v |}.
Definition set_volumes (anonymous created : list string) : VmManager :=
  {| vm_state := vm_state v; vm_provider := vm_provider v; vm_handler := vm_handler v; vm_exec_client := vm_exec_client v;
     vm_net := vm_net v; vm_anonymous := anonymous; vm_created := created; vm_image_config := vm_image_config v;
     vm_tee := vm_tee v; vm_sockets := vm_sockets v; vm_prom_ := vm_prom_ v; vm_exit_code := vm_exit_code v; vm_events := vm_events v |}.
Definition set_image_config (x : option OciImageConfig) : VmManager :=
  {| vm_state := vm_state v; vm_provider := vm_provider v; vm_handler := vm_handler v; vm_exec_client := vm_exec_client v;
     vm_net := vm_net v; vm_anonymous := vm_anonymous v; vm_created := vm_created v; vm_image_config := x;
     vm_tee := vm_tee v; vm_sockets := vm_sockets v; vm_prom_ := vm_prom_ v; vm_exit_code := vm_exit_code v; vm_events := vm_events v |}.
Definition set_provider (x : bool) : VmManager :=
  {| vm_state := vm_state v; vm_provider := x; vm_handler := vm_handler v; vm_exec_client := vm_exec_client v;
     vm_net := vm_net v; vm_anonymous := vm_anonymous v; vm_created := vm_created v; vm_image_config := vm_image_config v;
     vm_tee := vm_tee v; vm_sockets := vm_sockets v; vm_prom_ := vm_prom_ v; vm_exit_code := vm_exit_code v; vm_events := vm_events v |}.
Definition set_client (client : bool) : VmManager :=
  {| vm_state := vm_state v; vm_provider := vm_provider v; vm_handler := vm_handler v; vm_exec_client := client;
     vm_net := vm_net v; vm_anonymous := vm_anonymous v; vm_created := vm_created v; vm_image_config := vm_image_config v;
     vm_tee := vm_tee v; vm_sockets := vm_sockets v; vm_prom_ := vm_prom_ v; vm_exit_code := vm_exit_code v; vm_events := vm_events v |}.
Definition set_sockets (sockets : option string) (tee : bool) : VmManager :=
  {| vm_state := vm_state v; vm_provider := vm_provider v; vm_handler := vm_handler v; vm_exec_client := vm_exec_client v;
     vm_net := vm_net v; vm_anonymous := vm_anonymous v; vm_created := vm_created v; vm_image_config := vm_image_config v;
     vm_tee := tee; vm_sockets := sockets; vm_prom_ := vm_prom_ v; vm_exit_code := vm_exit_code v; vm_events := vm_events v |}.
Definition note (count : vm_prom → vm_prom) (events : list string) : VmManager :=
  {| vm_state := vm_state v; vm_provider := vm_provider v; vm_handler := vm_handler v; vm_exec_client := vm_exec_client v;
     vm_net := vm_net v; vm_anonymous := vm_anonymous v; vm_created := vm_created v; vm_image_config := vm_image_config v;
     vm_tee := vm_tee v; vm_sockets := vm_sockets v; vm_prom_ := count <$> vm_prom_ v; vm_exit_code := vm_exit_code v;
     vm_events := vm_events v ++ events |}.
End setters.

Definition count_boot (p : vm_prom) : vm_prom :=
  {| vm_created_total := vm_created_total p + 1; vm_destroyed_total := vm_destroyed_total p;
     vm_count_ready := vm_count_ready p + 1; exec_total := exec_total p; exec_errors_total := exec_errors_total p |}.
Definition count_destroy (p : vm_prom) : vm_prom :=
  {| vm_created_total := vm_created_total p; vm_destroyed_total := vm_destroyed_total p + 1;
     vm_count_ready := vm_count_ready p - 1; exec_total := exec_total p; exec_errors_total := exec_errors_total p |}.
Definition count_exec (failed : bool) (p : vm_prom) : vm_prom :=
  {| vm_created_total := vm_created_total p; vm_destroyed_total := vm_destroyed_total p;
     vm_count_ready := vm_count_ready p; exec_total := exec_total p + 1;
     exec_errors_total := exec_errors_total p + (if failed then 1 else 0) |}.

(** *** State transitions *)

Inductive vm_error :=
| AlreadyBooted | NotReady | InvalidTransition | NotBusy | NotBooted | IsStopped | NoProcess | SignalFailed
| EmptyCommand | NoExecClient | ExecFailed | NotRunningPid (pid : Z).

Definition set_busy (v : VmManager) : VmManager * result vm_error () :=
  if bool_decide (vm_state v = Ready) then (set_state v Busy, Ok ()) else (v, Err NotReady).
Definition set_ready (v : VmManager) : VmManager * result vm_error () :=
  if bool_decide (vm_state v = Busy ∨ vm_state v = Compacting) then (set_state v Ready, Ok ()) else (v, Err InvalidTransition).
Definition set_compacting (v : VmManager) : VmManager * result vm_error () :=
  if bool_decide (vm_state v = Busy) then (set_state v Compacting, Ok ()) else (v, Err NotBusy).

(** The states in which a command runs or a machine is paused *)
Definition check_live (v : VmManager) : result vm_error () :=
  match vm_state v with Ready | Busy | Compacting => Ok () | Created => Err NotBooted | Stopped => Err IsStopped end.

(** [pause] and [resume]: the signal that is sent. *)
Definition pause (kill_ok : bool) (v : VmManager) : result vm_error (Z * Z) :=
  _ ← check_live v;
  match vm_handler v with
  | Some h => if kill_ok then Ok (sh_pid h, 19) else Err SignalFailed
  | None => Err NoProcess
  end.
Definition resume (kill_ok : bool) (v : VmManager) : result vm_error (Z * Z) :=
  match vm_handler v with
  | Some h => if kill_ok then Ok (sh_pid h, 18) else Err SignalFailed
  | None => Err NoProcess
  end.

Definition health_check (alive : Z → bool) (v : VmManager) : bool :=
  match vm_state v with
  | Ready | Busy | Compacting => match vm_handler v with Some h => alive (sh_pid h) | None => false end
  | _ => false
  end.

(** [try_wait_exit] of the manager *)
Definition try_wait_exit (p : poll) (v : VmManager) : VmManager * result () (option Z) :=
  match vm_handler v with
  | None => (v, Ok (vm_exit_code v))
  | Some h =>
      match handler_try_wait p h with
      | (h, Ok (Some code)) => (set_exit (set_handler v (Some h)) (Some code), Ok (Some code))
      | (h, Ok None) => (set_handler v (Some h), Ok None)
      | (h, Err e) => (set_handler v (Some h), Err e)
      end
  end.

(** [attach_running_process] *)
Definition attach_running_process (box_id : string) (pid : Z) (alive connects : bool) (sockets : string) (v : VmManager)
    : VmManager * result vm_error () :=
  if negb alive then (v, Err (NotRunningPid pid))
  else (set_state (set_handler (set_sockets (set_client v connects) (Some sockets) (vm_tee v)) (Some (from_pid pid box_id))) Ready, Ok ()).

(** *** Commands in the guest and live limits *)

(** What a client's command gives: an exit code and the error stream, or a failure. *)
Abbreviation exec_answer := (result string (Z * string)).

(** [exec_request]: the error of a request that is not sent, or what was answered. *)
Definition exec_request (cmd : list string) (answer : exec_answer) (v : VmManager)
    : VmManager * result (vm_error + string) (Z * string) :=
  match cmd with
  | [] => (v, Err (inl EmptyCommand))
  | _ =>
      match check_live v with
      | Err e => (v, Err (inl e))
      | Ok _ =>
          if negb (vm_exec_client v) then (v, Err (inl NoExecClient))
          else
            let failed := match answer with Err _ => true | Ok (code, _) => negb (code =? 0) end in
            (note v (count_exec failed) [], map_err inr answer)
      end
  end.

Definition show_i32 (n : Z) : string := if n <? 0 then "-" +:+ show_uint (- n) else show_uint n.
Definition shell_command (text : string) : list string := ["sh"; "-c"; text].

(** The text of an error ([BoxError]'s display) is an argument. *)
Fixpoint apply_limits (show : vm_error + string → string) (answer : string → exec_answer) (commands : list string)
    (v : VmManager) (applied : list string) (rejected : list (string * string))
    : VmManager * (list string * list (string * string)) :=
  match commands with
  | [] => (v, (applied, rejected))
  | c :: commands =>
      match exec_request (shell_command c) (answer c) v with
      | (v, Ok (code, stderr)) =>
          if code =? 0 then apply_limits show answer commands v (applied ++ [c]) rejected
          else
            let reason := if is_empty (trim stderr) then "exit code " +:+ show_i32 code else trim stderr in
            apply_limits show answer commands v applied (rejected ++ [(c, reason)])
      | (v, Err e) => apply_limits show answer commands v applied (rejected ++ [(c, show e)])
      end
  end.

Record ResizeResult := { rr_applied : list string; rr_rejected : list (string * string) }.

(** [update_resources] *)
Definition update_resources (show : vm_error + string → string) (answer : string → exec_answer) (u : ResourceUpdate)
    (v : VmManager) : VmManager * result resize_err ResizeResult :=
  match validate_update u with
  | Err e => (v, Err e)
  | Ok _ =>
      if negb (has_tier2_changes u) then (v, Ok {| rr_applied := []; rr_rejected := [] |})
      else
        let '(v, (applied, rejected)) := apply_limits show answer (build_cgroup_commands u) v [] [] in
        (v, Ok {| rr_applied := applied; rr_rejected := rejected |})
  end.

(** ** Boot and destruction *)

Inductive boot_error :=
| BootState (e : vm_error) | BootLayout (e : layout_error) | ResolvWrite | HostnameInvalid (e : dns_err) | HostnameWrite
| HostsError (e : bridge_error) | HostsWrite | BootSpec (e : spec_error) | BridgeFailed (e : bridge_error)
| ShimNotFound | ShimMissing | StartFailed | ExitedImmediately | BootPanic.

Section machine.
Context `{HashOrder} `{Unpack} {ids : HostIds} (sha256_hex : string → string) (dir_size : fs → option Z).
Context (P : RootfsProvider) (host_fs : fs) (box_path : path) (config : BoxConfig) (box_id home : string).
Context {content : Type} (to_json : gmap string VolumeConfig → content)
  (from_json : content → option (gmap string VolumeConfig)) (volumes_dir now : string).
Context (net_store : string → option NetworkConfig).

(** What the manager changes on the host: the box's directory and its sockets' directory, the
    cache of roots, the volumes, the signals, and whether a network backend that it started
    is running. *)
Record host_state := {
  hs_box : option box_dir; hs_sockets : bool; hs_cache : DirCache.cache fs;
  hs_volumes : VolumeStore.store content; hs_signals : list (Z * Z); hs_backend : bool }.

Definition with_box (b : option box_dir) (h : host_state) : host_state :=
  {| hs_box := b; hs_sockets := hs_sockets h; hs_cache := hs_cache h; hs_volumes := hs_volumes h; hs_signals := hs_signals h;
     hs_backend := hs_backend h |}.
Definition with_sockets (s : bool) (h : host_state) : host_state :=
  {| hs_box := hs_box h; hs_sockets := s; hs_cache := hs_cache h; hs_volumes := hs_volumes h; hs_signals := hs_signals h;
     hs_backend := hs_backend h |}.
Definition with_volumes (s : VolumeStore.store content) (h : host_state) : host_state :=
  {| hs_box := hs_box h; hs_sockets := hs_sockets h; hs_cache := hs_cache h; hs_volumes := s; hs_signals := hs_signals h;
     hs_backend := hs_backend h |}.
Definition with_signals (l : list (Z * Z)) (h : host_state) : host_state :=
  {| hs_box := hs_box h; hs_sockets := hs_sockets h; hs_cache := hs_cache h; hs_volumes := hs_volumes h;
     hs_signals := hs_signals h ++ l; hs_backend := hs_backend h |}.
Definition with_backend (b : bool) (h : host_state) : host_state :=
  {| hs_box := hs_box h; hs_sockets := hs_sockets h; hs_cache := hs_cache h; hs_volumes := hs_volumes h;
     hs_signals := hs_signals h; hs_backend := b |}.

(** What the host answers while a machine is taken down. *)
Record down_env := {
  dn_stop : stop_env; dn_provider : provider_io; dn_net : bool; dn_rm_box : bool; dn_rm_sockets : bool;
  dn_volume : string → VolumeStore.vol_io content }.

(** The handler is taken and stopped; an unending stop is [None]. *)
Definition stop_handler (env : down_env) (signal timeout : Z) (v : VmManager) (h : host_state)
    : option (VmManager * host_state) :=
  match vm_handler v with
  | None => Some (v, h)
  | Some sh =>
      '(sh, sigs) ← stop (dn_stop env) signal timeout sh;
      Some (set_exit (set_handler v None) (sh_exit_code sh), with_signals sigs h)
  end.

Definition cleanup_created_anonymous_volumes (env : down_env) (v : VmManager) (h : host_state) : VmManager * host_state :=
  match vm_created v with
  | [] => (v, h)
  | created =>
      (set_volumes v (List.filter (λ n, negb (bool_decide (n ∈ created))) (vm_anonymous v)) [],
       with_volumes (foldl (λ s n, (VolumeStore.remove to_json from_json volumes_dir (dn_volume env n) s n true).1)
                       (hs_volumes h) created) h)
  end.

(** [cleanup_box_dir]: failures are logged. *)
Definition cleanup_box_dir (env : down_env) (h : host_state) : host_state :=
  let b := (λ b, (cleanup P (dn_provider env) false b).1) <$> hs_box h in
  let h := with_box (if dn_rm_box env then None else b) h in
  with_sockets (if dn_rm_sockets env then false else hs_sockets h) h.

(** The backend the manager holds is killed and forgotten, also when the kill fails. *)
Definition stop_network (env : down_env) (v : VmManager) (h : host_state) : VmManager * host_state :=
  (set_net v false, if vm_net v && dn_net env then with_backend false h else h).

Definition cleanup_boot_failure (env : down_env) (v : VmManager) (h : host_state) : option (VmManager * host_state) :=
  '(v, h) ← stop_handler env SIGTERM DEFAULT_SHUTDOWN_TIMEOUT_MS v h;
  let '(v, h) := stop_network env v h in
  let '(v, h) := cleanup_created_anonymous_volumes env v h in
  Some (v, cleanup_box_dir env h).

(** What the host answers during a boot. *)
Record boot_env := {
  bo_layout : layout_io; bo_resolv : bool; bo_hostname : bool; bo_hosts : bool; bo_fs : HostFs;
  bo_volume : string → VolumeStore.vol_io content; bo_init_exists : bool; bo_spawn_net : bool; bo_net_left : bool; bo_net_hosts : bool;
  bo_find_shim : bool; bo_shim_exists : bool; bo_start : option Z; bo_running : bool; bo_ready : ready_env;
  bo_down : down_env }.

Definition root_path (d : root_dir) : string :=
  home +:+ "/boxes/" +:+ box_id +:+ "/" +:+ match d with RootfsDir => "rootfs" | MergedDir => "merged" end.
Definition socket_dir : string := "/tmp/a3s-box-sockets/" +:+ box_id.

Definition spec_layout (env : boot_env) (l : layout_out) : BoxLayout :=
  {| bl_rootfs := root_path (lay_root l); bl_workspace := lay_workspace l; bl_oci := lay_oci l; bl_init := bo_init_exists env |}.

(** [write_hostname_file] *)
Definition write_hostname_file (env : boot_env) : result boot_error () :=
  match hostname config with
  | None => Ok ()
  | Some h => _ ← map_err HostnameInvalid (validate_hostname h); if bo_hostname env then Ok () else Err HostnameWrite
  end.

(** The steps on the root before the specification: name resolution, host name, hosts. *)
Definition write_root_files (env : boot_env) : result boot_error () :=
  if negb (bo_resolv env) then Err ResolvWrite
  else
    _ ← write_hostname_file env;
    hosts ← map_err HostsError (write_standalone_hosts_file config);
    match hosts with Some _ => if bo_hosts env then Ok () else Err HostsWrite | None => Ok () end.

(** Bridge networking.  [bo_spawn_net]: the backend was started and its socket came.  When it
    did not come, [bo_net_left] tells whether the process had been started and goes on; the
    manager then has no hold of it. *)
Definition left_running (env : boot_env) (e : bridge_error) : bool :=
  match e with BackendFailed => bo_net_left env | _ => false end.

Definition boot_network (env : boot_env) (v : VmManager) (spec : InstanceSpec) (h : host_state)
    : VmManager * host_state * result boot_error InstanceSpec :=
  match network config with
  | Bridge name =>
      match setup_bridge_network config box_id name (net_store name) (bo_spawn_net env) with
      | Err e => (v, if left_running env e then with_backend true h else h, Err (BridgeFailed e))
      | Ok net =>
          let v := set_net v true in
          (v, with_backend true h, _ ← map_err HostsError (write_hosts_file config box_id name (net_store name));
              if bo_net_hosts env then Ok (with_network spec net) else Err HostsWrite)
      end
  | _ => (v, h, Ok spec)
  end.

Definition boot_provider (env : boot_env) (v : VmManager) : VmManager * result boot_error () :=
  if vm_provider v then (v, Ok ())
  else if negb (bo_find_shim env) then (v, Err ShimNotFound)
  else if negb (bo_shim_exists env) then (v, Err ShimMissing)
  else (set_provider v true, Ok ()).

Definition uses_tee : bool := match tee config with TeeNone => false | _ => true end.

(** The boot up to the machine that runs, without the cleanup of a failure: [None] when
    a wait does not end. *)
Definition boot_steps (env : boot_env) (v : VmManager) (h : host_state)
    : option (VmManager * host_state * result boot_error ()) :=
  let '(b, c, r) := prepare_layout sha256_hex dir_size P host_fs box_path config (bo_layout env)
                      (default blank_dir (hs_box h)) (hs_cache h) in
  let h := {| hs_box := if lo_sockets (bo_layout env) && lo_logs (bo_layout env) then Some b else hs_box h;
              hs_sockets := lo_sockets (bo_layout env) || hs_sockets h; hs_cache := c;
              hs_volumes := hs_volumes h; hs_signals := hs_signals h; hs_backend := hs_backend h |} in
  match r with
  | Err e => Some (v, h, Err (BootLayout e))
  | Ok layout =>
      let v := set_image_config v (lay_oci layout) in
      match write_root_files env with
      | Err e => Some (v, h, Err e)
      | Ok _ =>
          match build_instance_spec to_json from_json volumes_dir now (bo_volume env) (bo_fs env) config box_id
                  (spec_layout env layout) (hs_volumes h) with
          | Err SpecPanic => Some (v, h, Err BootPanic)
          | Err e => Some (v, h, Err (BootSpec e))
          | Ok (spec, an) =>
              let v := set_volumes v (vm_anonymous v ++ an_volumes an) (vm_created v ++ an_created an) in
              let h := with_volumes (an_store an) h in
              match boot_network env v spec h with
              | (v, h, Err e) => Some (v, h, Err e)
              | (v, h, Ok spec) =>
                  match boot_provider env v with
                  | (v, Err e) => Some (v, h, Err e)
                  | (v, Ok _) =>
                      match bo_start env with
                      | None => Some (v, h, Err StartFailed)
                      | Some pid =>
                          let v := set_handler v (Some (from_child pid (is_box_id spec))) in
                          if negb (bo_running env) then Some (v, h, Err ExitedImmediately)
                          else
                            client ← wait_for_exec_ready (bo_ready env) ready_fuel 0;
                            let v := if client : bool then set_client v true else v in
                            Some (set_sockets v (Some socket_dir) (uses_tee || vm_tee v), h, Ok ())
                      end
                  end
              end
          end
      end
  end.

(** [VmManager::boot] *)
Definition boot (env : boot_env) (v : VmManager) (h : host_state) : option (VmManager * host_state * result boot_error ()) :=
  if negb (bool_decide (vm_state v = Created)) then Some (v, h, Err (BootState AlreadyBooted))
  else
    '(v, h, r) ← boot_steps env v h;
    match r with
    | Ok _ => Some (note (set_state v Ready) count_boot ["box.ready"], h, Ok ())
    | Err BootPanic => Some (v, h, Err BootPanic)
    | Err e => '(v, h) ← cleanup_boot_failure (bo_down env) v h; Some (v, h, Err e)
    end.

(** [destroy_with_options] *)
Definition destroy_with_options (env : down_env) (signal timeout : Z) (v : VmManager) (h : host_state)
    : option (VmManager * host_state) :=
  if bool_decide (vm_state v = Stopped) then Some (v, h)
  else
    '(v, h) ← stop_handler env signal timeout (set_state v Stopped) h;
    let '(v, h) := stop_network env v h in
    let b := (λ b, (cleanup P (dn_provider env) (persistent config) b).1) <$> hs_box h in
    let h := with_box b h in
    let h := with_sockets (if dn_rm_sockets env then false else hs_sockets h) h in
    let h := if persistent config then h else with_box (if dn_rm_box env then None else hs_box h) h in
    Some (note v count_destroy ["box.stopped"], h).
Definition destroy (env : down_env) := destroy_with_options env SIGTERM DEFAULT_SHUTDOWN_TIMEOUT_MS.
End machine.

(** ** Volumes of a boot that fails *)

Section volumes.
Context {content : Type} (to_json : gmap string VolumeConfig → content)
  (from_json : content → option (gmap string VolumeConfig))
  (json_roundtrip : ∀ d, from_json (to_json d) = Some d) (volumes_dir now : string).
Abbreviation vstored := (VolumeStore.vstored from_json).

Lemma load_is_stored io (s : VolumeStore.store content) m m' :
  vstored s = Some m → load from_json ∅ (VolumeStore.vio io) (VolumeStore.vfile s) = Ok m' → m' = m.
Proof. intros Hs Hl%load_stored. unfold VolumeStore.vstored in Hs. congruence. Qed.

(** Creating an anonymous volume adds one name that was free, or nothing. *)
Lemma create_anonymous_spec io box_id name (s s' : VolumeStore.store content) m r :
  vstored s = Some m → create_anonymous_volume to_json from_json volumes_dir now io box_id name s = (s', r) →
  match r with
  | Ok (_, true) => m !! name = None ∧ ∃ c, vstored s' = Some (<[name := c]> m)
  | _ => vstored s' = Some m
  end.
Proof using json_roundtrip.
  intros Hs. unfold create_anonymous_volume, VolumeStore.get.
  destruct (load from_json ∅ (VolumeStore.vio (io name)) (VolumeStore.vfile s)) as [m1|e] eqn:El; cbn [mbind result_bind].
  2: { by intros [= <- <-]. }
  pose proof (load_is_stored _ _ _ _ Hs El) as ->. destruct (m !! name) as [old|] eqn:En; [by intros [= <- <-]|].
  unfold VolumeStore.create. rewrite El. cbn [vol_name attach volume_new].
  match goal with |- context [bool_decide (is_Some (m !! ?k))] => change k with name end.
  rewrite En. rewrite bool_decide_eq_false_2 by (by intros []).
  destruct (VolumeStore.mkvol_ok (io name)); cbn [negb]; [|by intros [= <- <-]].
  match goal with |- context [save to_json _ ?d _] => destruct (save to_json (VolumeStore.vio (io name)) d (VolumeStore.vfile s)) as [f [[]|e]] eqn:Esv end;
    intros [= <- <-].
  - split; [done|]. eexists. unfold VolumeStore.vstored. cbn. by eapply stored_save_Ok.
  - unfold VolumeStore.vstored. cbn. by erewrite stored_save_Err.
Qed.

Definition grown (created : list string) (m m' : gmap string VolumeConfig) : Prop :=
  (∀ n, n ∈ created → m !! n = None) ∧ ∀ n, n ∉ created → m' !! n = m !! n.

Lemma anon_mounts_spec io box_id covered paths offset (st st' : anon_state (content := content)) m :
  anon_mounts to_json from_json volumes_dir now io box_id covered paths offset st = Ok st' → vstored (an_store st) = Some m →
  ∃ new m', an_created st' = an_created st ++ new ∧ vstored (an_store st') = Some m' ∧ grown new m m'.
Proof using json_roundtrip.
  revert offset st m. induction paths as [|p paths IH]; intros offset st m; cbn [anon_mounts].
  { intros [= <-] Hs. exists [], m. rewrite app_nil_r. split_and!; [done|done|]. split; [by intros n ?%not_elem_of_nil|done]. }
  destruct (bool_decide (p ∈ covered)); [apply IH|].
  destruct (anon_name box_id p) as [name|]; cbn [ok_or mbind result_bind]; [|done].
  destruct (create_anonymous_volume _ _ _ _ _ _ _ _) as [s r] eqn:E. intros Hgo Hs.
  apply (create_anonymous_spec _ _ _ _ _ m) in E; [|done]. destruct r as [[host []]|e].
  - destruct E as [Hn [c Hc]]. apply (IH _ _ (<[name := c]> m)) in Hgo; [|done].
    destruct Hgo as (new & m' & Hnew & Hm' & Hg1 & Hg2). exists (name :: new), m'. cbn in Hnew.
    rewrite Hnew, <-app_assoc. split_and!; [done|done|]. split.
    + intros n [->|Hin]%elem_of_cons; [done|]. apply Hg1 in Hin. by apply lookup_insert_None in Hin as [? _].
    + intros n [Hne Hni]%not_elem_of_cons. rewrite Hg2 by done. by rewrite lookup_insert_ne.
  - apply (IH _ _ m) in Hgo; [|done]. destruct Hgo as (new & m' & Hnew & ?). exists new, m'. cbn in Hnew. by rewrite app_nil_r in Hnew.
  - by apply (IH _ _ m) in Hgo.
Qed.

Lemma remove_created (io : string → VolumeStore.vol_io content) created (s : VolumeStore.store content) m :
  (∀ n, io n = VolumeStore.good_io) → vstored s = Some m →
  ∃ m', vstored (foldl (λ s n, (VolumeStore.remove to_json from_json volumes_dir (io n) s n true).1) s created) = Some m' ∧
    ∀ n, m' !! n = if decide (n ∈ created) then None else m !! n.
Proof using json_roundtrip.
  intros Hio. revert s m. induction created as [|k created IH]; intros s m Hs.
  { exists m. split; [done|]. intros n. by rewrite decide_False by apply not_elem_of_nil. }
  cbn [foldl]. rewrite Hio.
  assert (vstored (VolumeStore.remove to_json from_json volumes_dir VolumeStore.good_io s k true).1 = Some (delete k m)) as Hk.
  { unfold VolumeStore.remove. cbn [VolumeStore.vio VolumeStore.good_io]. rewrite (vstored_load from_json s m) by done. destruct (m !! k) as [c|] eqn:Ek.
    - rewrite andb_false_r. cbn. by apply vstored_after.
    - cbn. by rewrite delete_id. }
  destruct (IH _ _ Hk) as (m' & Hm' & Hl). exists m'. split; [done|]. intros n. rewrite Hl.
  destruct (decide (n ∈ created)) as [Hin|Hni]; [by rewrite decide_True by (by constructor)|].
  destruct (decide (n = k)) as [->|Hne]; [rewrite decide_True by constructor; apply lookup_delete_eq|].
  rewrite decide_False by (by rewrite not_elem_of_cons). by rewrite lookup_delete_ne.
Qed.

Lemma grown_removed created m m' m'' : grown created m m' →
  (∀ n, m'' !! n = if decide (n ∈ created) then None else m' !! n) → m'' = m.
Proof using Type.
  intros [H1 H2] H. apply map_eq. intros n. rewrite H. case_decide as Hn; [by rewrite H1|by rewrite H2].
Qed.
End volumes.

(** ** Boots *)

Section boots.
Context `{HashOrder} `{Unpack} {ids : HostIds} (sha256_hex : string → string) (dir_size : fs → option Z).
Context (P : RootfsProvider) (host_fs : fs) (box_path : path) (config : BoxConfig) (box_id home : string).
Context {content : Type} (to_json : gmap string VolumeConfig → content)
  (from_json : content → option (gmap string VolumeConfig))
  (json_roundtrip : ∀ d, from_json (to_json d) = Some d) (volumes_dir now : string).
Context (net_store : string → option NetworkConfig).
Abbreviation vstored := (VolumeStore.vstored from_json).
Abbreviation host := (host_state (content := content)).
Abbreviation run_steps :=
  (boot_steps sha256_hex dir_size P host_fs box_path config box_id home to_json from_json volumes_dir now net_store).
Abbreviation run_boot :=
  (boot sha256_hex dir_size P host_fs box_path config box_id home to_json from_json volumes_dir now net_store).

Definition bridged : bool := match network config with Bridge _ => true | _ => false end.

(** What a boot leaves alone until it is done. *)
Record same_record (v v' : VmManager) : Prop := {
  sr_state : vm_state v' = vm_state v; sr_prom : vm_prom_ v' = vm_prom_ v; sr_events : vm_events v' = vm_events v;
  sr_exit : vm_exit_code v' = vm_exit_code v }.

(** The backend was started, its socket did not come, and it goes on. *)
Definition backend_lost {A} (env : boot_env (content := content)) (r : result boot_error A) : Prop :=
  match r with
  | Err (BridgeFailed BackendFailed) => bo_spawn_net env = false ∧ bo_net_left env = true
  | _ => False
  end.
Arguments backend_lost {A} env r : simpl never.

(** What the steps of a boot can have done when they end. *)
Record begun (env : boot_env (content := content)) (m : gmap string VolumeConfig) (v : VmManager) (h : host) (v' : VmManager) (h' : host)
    (r : result boot_error ()) : Prop := {
  bg_record : same_record v v';
  bg_signals : hs_signals h' = hs_signals h;
  bg_backend : hs_backend h' = true → hs_backend h = true ∨ vm_net v' = true ∨ backend_lost env r;
  bg_volumes : ∃ m', vstored (hs_volumes h') = Some m' ∧ grown (vm_created v') m m';
  bg_handler : vm_handler v' = vm_handler v ∨
    ∃ pid id, bo_start env = Some pid ∧ vm_handler v' = Some (from_child pid id);
  bg_failed : is_ok r = false → vm_sockets v' = vm_sockets v ∧ vm_exec_client v' = vm_exec_client v;
  bg_ok : is_ok r = true → vm_sockets v' = Some (socket_dir box_id) ∧ vm_net v' = bridged || vm_net v ∧
    is_Some (vm_handler v') ∧ bo_running env = true }.

Lemma bridge_backend name net spawn : setup_bridge_network config box_id name net spawn = Err BackendFailed → spawn = false.
Proof using Type.
  unfold setup_bridge_network. destruct spawn; [|done]. destruct net as [net|]; [|done]. cbn.
  destruct (net_endpoints net !! box_id) as [ep|]; [|done]. cbn. by destruct (parse_mac _).
Qed.

Lemma boot_network_cases (env : boot_env (content := content)) v spec (h : host) v' h' r :
  boot_network config box_id net_store env v spec h = (v', h', r) →
  (v' = v ∨ v' = set_net v true) ∧ (is_ok r = true → vm_net v' = bridged || vm_net v) ∧
  (h' = with_backend (hs_backend h') h) ∧
  (hs_backend h' = true → hs_backend h = true ∨ vm_net v' = true ∨ backend_lost env r).
Proof using Type.
  assert (h = with_backend (hs_backend h) h) as Hh by by destruct h.
  unfold boot_network, bridged. destruct (network config) as [|name|]; [by intros [= <- <- <-]; auto| |by intros [= <- <- <-]; auto].
  destruct (setup_bridge_network _ _ _ _ _) as [net|e] eqn:Es; intros [= <- <- <-]; [by auto 10|].
  split; [by left|]. split; [done|]. destruct (left_running env e) eqn:El; [|by auto]. split; [done|].
  right; right. destruct e; try done. split; [by eapply bridge_backend|done].
Qed.
Lemma boot_provider_cases (env : boot_env (content := content)) v v' r : boot_provider env v = (v', r) → v' = v ∨ v' = set_provider v true.
Proof using Type. unfold boot_provider. repeat case_match; intros [= <- <-]; auto. Qed.

Lemma boot_steps_begun env m v (h : host) v' h' r : vm_created v = [] → vstored (hs_volumes h) = Some m →
  run_steps env v h = Some (v', h', r) → begun env m v h v' h' r.
Proof using json_roundtrip.
  intros Hc Hm. assert (grown [] m m) as Hg by (split; [by intros n ?%not_elem_of_nil|done]).
  unfold boot_steps. destruct (prepare_layout _ _ _ _ _ _ _ _ _) as [[b c] [layout|e]].
  2: { intros [= <- <- <-]. split; cbn; eauto; [done| |done]. rewrite Hc. eauto. }
  destruct (write_root_files _ _) as [u|e]; [|intros [= <- <- <-]; split; cbn; eauto; [done| |done]; rewrite Hc; eauto].
  destruct (build_instance_spec _ _ _ _ _ _ _ _ _ _) as [[spec an]|e] eqn:Es.
  2: { destruct e; intros [= <- <- <-]; (split; cbn; eauto; [done| |done]; rewrite Hc; eauto). }
  unfold build_instance_spec in Es. destruct (user_mounts _ _ _) as [mounts|]; [|done]. cbn [mbind result_bind] in Es.
  destruct (anon_mounts _ _ _ _ _ _ _ _ _ _) as [an'|] eqn:Ea; [|done]. cbn in Es. injection Es as Espec <-.
  apply (anon_mounts_spec to_json from_json json_roundtrip _ _ _ _ _ _ _ _ _ m) in Ea; [|done].
  destruct Ea as (new & m' & Hnew & Hm' & Hgrown). cbn in Hnew.
  set (v1 := set_volumes _ _ _). assert (same_record v v1 ∧ vm_created v1 = new ∧ vm_handler v1 = vm_handler v ∧
    vm_sockets v1 = vm_sockets v ∧ vm_exec_client v1 = vm_exec_client v ∧ vm_net v1 = vm_net v) as (S1 & C1 & H1 & K1 & X1 & N1).
  { split_and!; try done. cbn. by rewrite Hc, Hnew. }
  clearbody v1. cbn [hs_signals hs_volumes with_volumes].
  destruct (boot_network _ _ _ env v1 spec _) as [[v2 h2] r2] eqn:E2.
  apply boot_network_cases in E2 as (E2 & N2 & -> & B2). set (bk := hs_backend h2) in *. clearbody bk. cbn in B2.
  assert (same_record v v2 ∧ vm_created v2 = new ∧ vm_handler v2 = vm_handler v ∧
    vm_sockets v2 = vm_sockets v ∧ vm_exec_client v2 = vm_exec_client v) as (S2 & C2 & H2 & K2 & X2).
  { destruct S1 as [? ? ? ?]. destruct E2 as [-> | ->]; split_and!; try done; by split. }
  destruct r2 as [spec'|e]; [|intros [= <- <- <-]; split; cbn; eauto; [rewrite C2; eauto|done]].
  specialize (N2 eq_refl). rewrite N1 in N2.
  assert (bk = true → hs_backend h = true ∨ vm_net v2 = true) as B2' by (intros Hb; destruct (B2 Hb) as [?|[?|[]]]; auto).
  destruct (boot_provider env v2) as [v3 r3] eqn:E3. apply boot_provider_cases in E3.
  assert (same_record v v3 ∧ vm_created v3 = new ∧ vm_handler v3 = vm_handler v ∧
    vm_sockets v3 = vm_sockets v ∧ vm_exec_client v3 = vm_exec_client v ∧ vm_net v3 = vm_net v2) as (S3 & C3 & H3 & K3 & X3 & N3).
  { destruct S2 as [? ? ? ?]. destruct E3 as [-> | ->]; split_and!; try done; by split. }
  assert (∀ r : result boot_error (), bk = true → hs_backend h = true ∨ vm_net v3 = true ∨ backend_lost env r) as B3
    by (intros x Hb; rewrite N3; destruct (B2' Hb); auto).
  destruct r3 as [u3|e]; [|intros [= <- <- <-]; split; cbn; eauto; [rewrite C3; eauto|done]].
  destruct (bo_start env) as [pid|] eqn:Ep; [|intros [= <- <- <-]; split; cbn; eauto; [rewrite C3; eauto|done]].
  destruct S3 as [A1 A2 A3 A4].
  destruct (bo_running env) eqn:Er; cbn [negb].
  2: { intros [= <- <- <-]. split; cbn; eauto; [by split|rewrite C3; eauto|done]. }
  destruct (wait_for_exec_ready _ _ _) as [client|]; [|done]. cbn [mbind option_bind]. intros [= <- <- <-].
  split; cbn; [destruct client; by split|done|by destruct client; apply B3| | |done|].
  - destruct client; cbn; rewrite C3; eauto.
  - right. exists pid. destruct client; eauto.
  - intros _. destruct client; cbn; rewrite N3, N2; eauto.
Qed.

Abbreviation down := (down_env (content := content)).
Abbreviation run_destroy := (destroy_with_options P config (content := content)).

Lemma stop_handler_spec (env : down) signal timeout v (h : host) v' h' :
  stop_handler env signal timeout v h = Some (v', h') →
  vm_handler v' = None ∧ vm_state v' = vm_state v ∧ vm_created v' = vm_created v ∧ vm_anonymous v' = vm_anonymous v ∧
  vm_sockets v' = vm_sockets v ∧ vm_exec_client v' = vm_exec_client v ∧ vm_prom_ v' = vm_prom_ v ∧ vm_events v' = vm_events v ∧
  hs_volumes h' = hs_volumes h ∧ hs_box h' = hs_box h ∧ hs_sockets h' = hs_sockets h ∧
  ∃ sigs, hs_signals h' = hs_signals h ++ sigs ∧
    match vm_handler v with None => sigs = [] | Some sh => ∃ rest, sigs = (sh_pid sh, signal) :: rest end.
Proof using Type.
  unfold stop_handler. destruct (vm_handler v) as [sh|] eqn:E.
  - destruct (stop _ _ _ _) as [[sh' sigs]|] eqn:Es; [|done]. cbn. intros [= <- <-]. split_and!; try done.
    exists sigs. split; [done|]. unfold stop in Es. destruct (sh_owned sh).
    + destruct (stop_owned _ _ _ _) as [[code killed]|]; [|done]. cbn in Es. injection Es as _ <-. eauto.
    + destruct (stop_attached _ _ _ _) as [killed|]; [|done]. cbn in Es. injection Es as _ <-. eauto.
  - intros [= <- <-]. split_and!; try done. exists []. by rewrite app_nil_r.
Qed.

Lemma stop_handler_backend (env : down) signal timeout v (h : host) v' h' :
  stop_handler env signal timeout v h = Some (v', h') → vm_net v' = vm_net v ∧ hs_backend h' = hs_backend h.
Proof using Type.
  unfold stop_handler. destruct (vm_handler v) as [sh|]; [|by intros [= <- <-]].
  destruct (stop _ _ _ _) as [[sh' sigs]|]; [|done]. cbn. by intros [= <- <-].
Qed.


(** A backend whose socket comes too late is started and then forgotten: neither the cleanup
    of this boot nor a later destruction stops it. *)
Lemma late_backend_runs_on (env : boot_env (content := content)) (denv : down) v spec (h : host) name :
  network config = Bridge name → setup_bridge_network config box_id name (net_store name) (bo_spawn_net env) = Err BackendFailed →
  bo_net_left env = true → vm_net v = false →
  let '(v', h', _) := boot_network config box_id net_store env v spec h in
  vm_net v' = false ∧ hs_backend h' = true ∧ hs_backend (stop_network denv v' h').2 = true.
Proof using Type.
  intros Hn Hs Hl Hv. unfold boot_network. rewrite Hn, Hs. cbn [left_running]. rewrite Hl.
  unfold stop_network. rewrite Hv. done.
Qed.

(** A boot that succeeds leaves a machine that was running, its sockets and, on a bridge network,
    the network backend; it is announced and counted once. *)
Theorem boot_success env m v (h : host) v' h' :
  vm_created v = [] → vstored (hs_volumes h) = Some m → run_boot env v h = Some (v', h', Ok ()) →
  vm_state v = Created ∧ vm_state v' = Ready ∧ is_Some (vm_handler v') ∧ bo_running env = true ∧
  vm_sockets v' = Some (socket_dir box_id) ∧ vm_net v' = bridged || vm_net v ∧
  vm_events v' = vm_events v ++ ["box.ready"] ∧ vm_prom_ v' = count_boot <$> vm_prom_ v.
Proof using json_roundtrip.
  intros Hc Hm. unfold boot. case_bool_decide as Hst; cbn [negb]; [|done].
  destruct (boot_steps _ _ _ _ _ _ _ _ _ _ _ _ _ _ v h) as [[[v1 h1] r]|] eqn:E1; [|done].
  apply (boot_steps_begun _ m) in E1; [|done..]. cbn [mbind option_bind].
  destruct E1 as [[S1 S2 S3 S4] _ _ _ _ _ Hok]. destruct r as [u|[]]; try done;
    try (destruct (cleanup_boot_failure _ _ _ _ _ _ _) as [[v2 h2]|]; by intros [=]).
  destruct (Hok eq_refl) as (K & N & Hh & Hr). intros [= <- <-]. cbn. rewrite S2, S3. auto 10.
Qed.

(** Every boot and every destruction returns, when sleeping takes its time. *)
Definition clocks_run (env : down) : Prop := ∀ k, 50 * Z.of_nat k ≤ st_elapsed (dn_stop env) k.

Lemma stop_handler_returns (env : down) signal timeout v (h : host) : clocks_run env → 0 ≤ timeout →
  ∃ v' h', stop_handler env signal timeout v h = Some (v', h').
Proof using Type.
  intros Hk Ht. unfold stop_handler. destruct (vm_handler v) as [sh|]; [|eauto].
  destruct (shim_stop_correct _ timeout Hk Ht signal sh) as (sh' & sigs & k & -> & _). cbn. eauto.
Qed.

Theorem boot_returns env v (h : host) : clocks_run (bo_down env) → (∀ k, 200 * Z.of_nat k ≤ rd_elapsed (bo_ready env) k) →
  is_Some (run_boot env v h).
Proof using Type.
  intros Hk Hr. unfold boot. destruct (negb _); [eauto|].
  assert (is_Some (run_steps env v h)) as [[[v1 h1] r] ->].
  { unfold boot_steps. destruct (prepare_layout _ _ _ _ _ _ _ _ _) as [[b c] [layout|e]]; [|eauto].
    destruct (write_root_files _ _) as [u|e]; [|eauto].
    destruct (build_instance_spec _ _ _ _ _ _ _ _ _ _) as [[spec an]|[]]; eauto.
    destruct (boot_network _ _ _ _ _ _ _) as [[v2 h2] [spec'|e]]; [|eauto]. destruct (boot_provider _ _) as [v3 [u3|e]]; [|eauto].
    destruct (bo_start env); [|eauto]. destruct (negb _); [eauto|].
    destruct (exec_ready_ends _ Hr) as (c1 & -> & _). cbn. eauto. }
  cbn [mbind option_bind].
  assert (∀ e, is_Some ('(v, h) ← cleanup_boot_failure P to_json from_json volumes_dir (bo_down env) v1 h1; Some (v, h, @Err boot_error () e))) as Hcl.
  { intros e. unfold cleanup_boot_failure.
    destruct (stop_handler_returns (bo_down env) SIGTERM DEFAULT_SHUTDOWN_TIMEOUT_MS v1 h1 Hk) as (v2 & h2 & ->); [done|]. cbn [mbind option_bind]. unfold stop_network.
    destruct (cleanup_created_anonymous_volumes _ _ _ _ _ _) as [v3 h3]. cbn. eauto. }
  destruct r as [u|[]]; eauto.
Qed.

(** Destroying a machine stops it, the network backend, and removes its sockets; a box that is
    not persistent loses its directory; a second destruction does nothing. *)
Theorem destroy_correct (env : down) signal timeout v (h : host) v' h' :
  vm_state v ≠ Stopped → dn_rm_box env = true → dn_rm_sockets env = true →
  run_destroy env signal timeout v h = Some (v', h') →
  vm_state v' = Stopped ∧ vm_handler v' = None ∧ vm_net v' = false ∧ hs_sockets h' = false ∧
  (persistent config = false → hs_box h' = None) ∧ vm_events v' = vm_events v ++ ["box.stopped"] ∧
  (∀ env' s t, run_destroy env' s t v' h' = Some (v', h')) ∧
  ∃ sigs, hs_signals h' = hs_signals h ++ sigs ∧
    match vm_handler v with None => sigs = [] | Some sh => ∃ rest, sigs = (sh_pid sh, signal) :: rest end.
Proof using Type.
  intros Hns Hb Hs. unfold destroy_with_options. rewrite bool_decide_eq_false_2 by done.
  destruct (stop_handler _ _ _ _ _) as [[v1 h1]|] eqn:E; [|done]. cbn [mbind option_bind].
  apply stop_handler_spec in E as (D1 & D2 & D3 & D4 & D5 & D6 & D7 & D8 & D9 & D10 & D11 & sigs & Hsig & Hsh).
  cbn in D2, D8, Hsh. rewrite Hb, Hs. unfold stop_network.
  set (h2 := if vm_net v1 && dn_net env then with_backend false h1 else h1).
  assert (hs_signals h2 = hs_signals h1) as G2 by (unfold h2; by destruct (_ && _)). clearbody h2. intros Heq. injection Heq as <- Hh.
  assert (hs_sockets h' = false ∧ hs_signals h' = hs_signals h1 ∧ (persistent config = false → hs_box h' = None)) as (F1 & F2 & F3)
    by (rewrite <-Hh, <-G2; by destruct (persistent config)).
  cbn. rewrite D2, D8. split_and!; try done.
  exists sigs. by rewrite F2.
Qed.

(** A persistent box keeps what its guest wrote, with any provider that keeps its promise. *)
Theorem destroy_keeps_data `{!KeepsWrites P} (env : down) signal timeout v (h : host) v' h' lower t d b :
  vm_state v ≠ Stopped → persistent config = true → dn_provider env = good_provider_io →
  hs_box h = Some b → running lower t d b →
  run_destroy env signal timeout v h = Some (v', h') →
  ∃ b', hs_box h' = Some b' ∧ at_rest lower t b'.
Proof using Type.
  intros Hns Hp Hio Hb Hr. unfold destroy_with_options. rewrite bool_decide_eq_false_2 by done.
  destruct (stop_handler _ _ _ _ _) as [[v1 h1]|] eqn:E; [|done]. cbn [mbind option_bind].
  apply stop_handler_spec in E as (_ & _ & _ & _ & _ & _ & _ & _ & _ & D10 & _ & _).
  unfold stop_network. set (h2 := if vm_net v1 && dn_net env then with_backend false h1 else h1).
  assert (hs_box h2 = hs_box h1) as G2 by (unfold h2; by destruct (_ && _)). clearbody h2.
  intros [= <- <-]. rewrite Hp. cbn. rewrite G2, D10, Hb, Hio. cbn.
  destruct (stop_rests lower t d b true Hr) as (b' & -> & Hrest). by exists b'.
Qed.

(** *** Every history of a manager *)

Inductive vm_step : VmManager * host → VmManager * host → Prop :=
| StepBoot env v h v' h' r : run_boot env v h = Some (v', h', r) → r ≠ Err BootPanic → vm_step (v, h) (v', h')
| StepDestroy env signal timeout v h v' h' : run_destroy env signal timeout v h = Some (v', h') → vm_step (v, h) (v', h')
| StepAttach pid alive connects sockets v h :
    vm_step (v, h) ((attach_running_process box_id pid alive connects sockets v).1, h)
| StepBusy v h : vm_step (v, h) ((set_busy v).1, h)
| StepReady v h : vm_step (v, h) ((set_ready v).1, h)
| StepCompacting v h : vm_step (v, h) ((set_compacting v).1, h)
| StepWait p v h : vm_step (v, h) ((try_wait_exit p v).1, h)
| StepExec cmd answer v h : vm_step (v, h) ((exec_request cmd answer v).1, h).

(** Before a boot there is no machine and nothing of one, a live state has a machine and its
    sockets, and after destruction there is no machine and no network backend. *)
Definition vm_ok (v : VmManager) : Prop :=
  match vm_state v with
  | Created => vm_handler v = None ∧ vm_sockets v = None ∧ vm_exec_client v = false ∧ vm_net v = false ∧ vm_created v = []
  | Ready | Busy | Compacting => is_Some (vm_handler v) ∧ is_Some (vm_sockets v)
  | Stopped => vm_handler v = None ∧ vm_net v = false
  end.

Lemma steps_fields env v (h : host) v' h' r : run_steps env v h = Some (v', h', r) →
  vm_state v' = vm_state v ∧ (is_ok r = true → is_Some (vm_handler v') ∧ is_Some (vm_sockets v')) ∧
  (is_ok r = false → vm_sockets v' = vm_sockets v ∧ vm_exec_client v' = vm_exec_client v).
Proof using Type.
  unfold boot_steps. destruct (prepare_layout _ _ _ _ _ _ _ _ _) as [[b c] [layout|e]]; [|by intros [= <- <- <-]].
  destruct (write_root_files _ _) as [u|e]; [|by intros [= <- <- <-]].
  destruct (build_instance_spec _ _ _ _ _ _ _ _ _ _) as [[spec an]|[]]; try by intros [= <- <- <-].
  destruct (boot_network _ _ _ _ _ _ _) as [[v2 h2] r2] eqn:E2. apply boot_network_cases in E2 as [E2 _].
  destruct (boot_provider _ _) as [v3 r3] eqn:E3. apply boot_provider_cases in E3.
  assert (vm_state v2 = vm_state v ∧ vm_sockets v2 = vm_sockets v ∧ vm_exec_client v2 = vm_exec_client v) as (A1 & A2 & A3)
    by (by destruct E2 as [-> | ->]).
  assert (vm_state v3 = vm_state v ∧ vm_sockets v3 = vm_sockets v ∧ vm_exec_client v3 = vm_exec_client v) as (B1 & B2 & B3)
    by (by destruct E3 as [-> | ->]).
  destruct r2 as [spec'|e]; [|by intros [= <- <- <-]]. destruct r3 as [u3|e]; [|by intros [= <- <- <-]].
  destruct (bo_start env); [|by intros [= <- <- <-]]. destruct (negb _); [by intros [= <- <- <-]|].
  destruct (wait_for_exec_ready _ _ _) as [client|]; [|done]. cbn [mbind option_bind]. intros [= <- <- <-].
  destruct client; cbn; split_and!; try done; eauto.
Qed.

Lemma cleanup_fields (env : down) v (h : host) v' h' :
  cleanup_boot_failure P to_json from_json volumes_dir env v h = Some (v', h') →
  vm_state v' = vm_state v ∧ vm_handler v' = None ∧ vm_net v' = false ∧ vm_created v' = [] ∧
  vm_sockets v' = vm_sockets v ∧ vm_exec_client v' = vm_exec_client v.
Proof using Type.
  unfold cleanup_boot_failure. destruct (stop_handler _ _ _ _ _) as [[v1 h1]|] eqn:E; [|done]. cbn [mbind option_bind].
  apply stop_handler_spec in E as (D1 & D2 & D3 & D4 & D5 & D6 & D7 & D8 & _).
  unfold stop_network, cleanup_created_anonymous_volumes. cbn [vm_created set_net].
  destruct (vm_created v1) eqn:Ec; intros [= <- <-]; by cbn.
Qed.

Lemma vm_step_ok a b : vm_step a b → vm_ok a.1 → vm_ok b.1.
Proof using Type.
  intros [env v h v' h' r Hb Hnp|env signal timeout v h v' h' Hd|pid alive connects sockets v h|v h|v h|v h|p v h|cmd answer v h]; cbn [fst].
  - unfold boot in Hb. case_bool_decide as Hst; cbn [negb] in Hb; [|injection Hb as <- _ _; done].
    destruct (boot_steps _ _ _ _ _ _ _ _ _ _ _ _ _ _ v h) as [[[v1 h1] r1]|] eqn:E1; [|done]. cbn [mbind option_bind] in Hb.
    apply steps_fields in E1 as (F1 & F2 & F3). destruct r1 as [u|e1].
    { injection Hb as <- _ _. intros _. unfold vm_ok. cbn. by apply F2. }
    unfold vm_ok at 1. rewrite Hst. intros (A1 & A2 & A3 & A4 & A5). destruct (F3 eq_refl) as [K X].
    assert (e1 = BootPanic ∨ ∃ v2 h2, cleanup_boot_failure P to_json from_json volumes_dir (bo_down env) v1 h1 = Some (v2, h2) ∧ v' = v2) as [->|(v2 & h2 & Hcl & ->)].
    { destruct e1; try (by left); right; (destruct (cleanup_boot_failure _ _ _ _ _ _ _) as [[v2 h2]|]; [|done]); cbn in Hb;
        exists v2, h2; by simplify_eq. }
    { injection Hb as _ _ <-. done. }
    apply cleanup_fields in Hcl as (C1 & C2 & C3 & C4 & C5 & C6). unfold vm_ok. rewrite C1, F1, Hst. split_and!; congruence.
  - unfold destroy_with_options in Hd. case_bool_decide as Hst; [injection Hd as <- _; done|].
    destruct (stop_handler _ _ _ _ _) as [[v1 h1]|] eqn:E; [|done]. cbn [mbind option_bind] in Hd.
    apply stop_handler_spec in E as (D1 & D2 & _). cbn in D2. injection Hd as <- _. intros _. unfold vm_ok. cbn. by rewrite D2.
  - unfold attach_running_process. destruct alive; cbn; [|done]. intros _. unfold vm_ok. cbn. eauto.
  - unfold set_busy. case_bool_decide as Hs; [|done]. unfold vm_ok. rewrite Hs. done.
  - unfold set_ready. case_bool_decide as Hs; [|done]. unfold vm_ok. destruct Hs as [-> | ->]; done.
  - unfold set_compacting. case_bool_decide as Hs; [|done]. unfold vm_ok. rewrite Hs. done.
  - unfold try_wait_exit. destruct (vm_handler v) as [sh|] eqn:Eh; [|done]. unfold vm_ok. rewrite Eh.
    destruct (handler_try_wait p sh) as [sh' [[code|]|e]]; cbn; destruct (vm_state v); naive_solver.
  - unfold exec_request. destruct cmd; [done|]. destruct (check_live v); [|done]. destruct (negb _); [done|]. done.
Qed.

(** C17: After any history of boots, destructions, attachments, commands and state changes, in any
    order and whatever the host answers, the state tells the truth: a created manager has no machine and
    nothing left of one, a live one has a machine and its sockets, a stopped one has neither
    machine nor network backend. *)
Theorem vm_reachable provider prom (h : host) v' h' :
  rtc vm_step (vm_new provider prom, h) (v', h') → vm_ok v'.
Proof using Type.
  intros Hr. change v' with (v', h').1. assert (vm_ok (vm_new provider prom, h).1) as Hok by done. revert Hok.
  induction Hr as [|a b c Hs Hr IH]; [done|]. intros Ha. apply IH. by eapply vm_step_ok.
Qed.
End boots.

(** ** Live limits *)

Section limits.
Context (show : vm_error + string → string) (answer : string → exec_answer).

Definition accepted (v : VmManager) (c : string) : bool :=
  match (exec_request (shell_command c) (answer c) v).2 with Ok (code, _) => code =? 0 | Err _ => false end.

Lemma exec_keeps cmd a v c : accepted (exec_request cmd a v).1 c = accepted v c.
Proof.
  unfold exec_request at 1. destruct cmd; [done|]. destruct (check_live v) eqn:E; [|done].
  destruct (vm_exec_client v) eqn:Ec; [|done]. cbn [negb fst]. unfold accepted, exec_request. cbn [shell_command].
  unfold check_live in *. cbn. rewrite Ec. by destruct (vm_state v).
Qed.

Lemma apply_limits_spec commands v applied rejected :
  (apply_limits show answer commands v applied rejected).2.1 = applied ++ List.filter (accepted v) commands ∧
  map fst (apply_limits show answer commands v applied rejected).2.2
    = map fst rejected ++ List.filter (λ c, negb (accepted v c)) commands.
Proof.
  revert v applied rejected. induction commands as [|c commands IH]; intros v applied rejected; cbn [apply_limits].
  { by rewrite !app_nil_r. }
  assert (∀ v', v' = (exec_request (shell_command c) (answer c) v).1 →
    List.filter (accepted v') commands = List.filter (accepted v) commands ∧
    List.filter (λ c, negb (accepted v' c)) commands = List.filter (λ c, negb (accepted v c)) commands) as Hf.
  { intros v' ->. split; apply filter_ext; intros c'; by rewrite exec_keeps. }
  cbn [List.filter]. destruct (accepted v c) eqn:Ea; cbn [negb]; unfold accepted in Ea;
    destruct (exec_request (shell_command c) (answer c) v) as [v' [[code stderr]|e]]; destruct (Hf v' eq_refl) as [F1 F2];
    cbn [snd] in Ea; try done; rewrite ?Ea.
  - destruct (IH v' (applied ++ [c]) rejected) as [-> ->]. by rewrite F1, F2, <-app_assoc.
  - edestruct IH as [-> ->]. rewrite F1, F2. split; [done|]. by rewrite map_app, <-app_assoc.
  - edestruct IH as [-> ->]. rewrite F1, F2. split; [done|]. by rewrite map_app, <-app_assoc.
Qed.

(** A live resize refuses machine sizes before anything runs; otherwise each command is reported once,
    in order, as applied when it ended with zero in the guest and as rejected if not. *)
Theorem update_reports u v :
  match update_resources show answer u v with
  | (v', Err _) => v' = v ∧ (is_Some (ru_vcpus u) ∨ is_Some (ru_memory_mb u))
  | (_, Ok r) => rr_applied r = List.filter (accepted v) (build_cgroup_commands u) ∧
      map fst (rr_rejected r) = List.filter (λ c, negb (accepted v c)) (build_cgroup_commands u)
  end.
Proof.
  unfold update_resources. destruct (validate_update u) eqn:Ev.
  - destruct (has_tier2_changes u) eqn:Et; cbn [negb].
    + pose proof (apply_limits_spec (build_cgroup_commands u) v [] []) as Hs.
      destruct (apply_limits _ _ _ _ _ _) as [v' [applied rejected]]. exact Hs.
    + apply commands_iff_tier2 in Et. by rewrite Et.
  - split; [done|]. unfold validate_update in Ev. destruct (ru_vcpus u), (ru_memory_mb u); eauto; done.
Qed.
End limits.

(** ** A concrete machine *)

Definition demo_stop : stop_env :=
  {| st_elapsed := λ k, 50 * Z.of_nat k; st_poll := λ k, if (k <? 3)%nat then StillRunning else Exited (Some 0);
     st_final := None; st_waitpid := λ _, 0; st_exists := λ _, true |}.
Definition demo_ready : ready_env :=
  {| rd_elapsed := λ k, 200 * Z.of_nat k; rd_socket := λ k, (2 <=? k)%nat; rd_exited := λ _, false;
     rd_heartbeat := λ k, (4 <=? k)%nat |}.
Abbreviation demo_content := (gmap string VolumeConfig).
Definition demo_down : down_env (content := demo_content) :=
  {| dn_stop := demo_stop; dn_provider := good_provider_io; dn_net := true; dn_rm_box := true; dn_rm_sockets := true;
     dn_volume := λ _, VolumeStore.good_io |}.
Definition demo_env (running : bool) : boot_env (content := demo_content) :=
  {| bo_layout := demo_io [demo_layer]; bo_resolv := true; bo_hostname := true; bo_hosts := true;
     bo_fs := {| hf_exists := λ _, true; hf_mkdir := λ _, true; hf_canonicalize := Some; hf_is_file := λ _, false |};
     bo_volume := λ _, VolumeStore.good_io; bo_init_exists := true; bo_spawn_net := true; bo_net_left := false; bo_net_hosts := true;
     bo_find_shim := true; bo_shim_exists := true; bo_start := Some 4242; bo_running := running; bo_ready := demo_ready;
     bo_down := demo_down |}.

(** A persistent box that ran before: its directory holds what it wrote. *)
Definition demo_data : box_dir := guest_write RootfsDir demo_cold.1.1 (["data"], Some (CopyStep.file_of "precious")).
Definition demo_host : host_state (content := demo_content) :=
  {| hs_box := Some demo_data; hs_sockets := false; hs_cache := demo_cold.1.2;
     hs_volumes := {| VolumeStore.vfile := {| main_file := None; tmp_file := None |}; VolumeStore.vdirs := ∅ |}; hs_signals := []; hs_backend := false |}.
Definition demo_boot (running : bool) (v : VmManager) (h : host_state (content := demo_content)) :=
  @boot list_order toy_unpack as_root id (λ _, Some 1) OverlayProvider CopyStep.plain_host ["r"] demo_config "box-1" "/h" demo_content
    id Some "/h/volumes" "now" (λ _, None) (demo_env running) v h.
Definition no_prom : vm_prom :=
  {| vm_created_total := 0; vm_destroyed_total := 0; vm_count_ready := 0; exec_total := 0; exec_errors_total := 0 |}.
Definition demo_vm : VmManager := vm_new false (Some no_prom).
Definition demo_failed := default (demo_vm, demo_host, Ok ()) (demo_boot false demo_vm demo_host).

Lemma option_eta {A B C} (o : option (A * B * C)) d c : snd <$> o = Some c →
  o = Some ((default d o).1.1, (default d o).1.2, c).
Proof. destruct o as [[[a b] c']|]; [|done]. cbn. congruence. Qed.

Lemma demo_boot_fails : snd <$> demo_boot false demo_vm demo_host = Some (Err ExitedImmediately).
Proof. vm_compute. reflexivity. Qed.


(** A failed start of a persistent box deletes its data: the cleanup of a boot removes the box's
    directory and does not ask whether the box is persistent or existed before. *)
Lemma failed_start_deletes_data :
  persistent demo_config = true ∧
  (b ← hs_box demo_host; t ← bd_rootfs b; t !! ["data"]) = Some (CopyStep.file_of "precious") ∧
  demo_failed.2 = Err ExitedImmediately ∧ hs_box demo_failed.1.2 = None.
Proof. split_and!; vm_compute; reflexivity. Qed.

(** A machine that comes up, and goes down again. *)
Definition demo_up := default (demo_vm, demo_host, Ok ()) (demo_boot true demo_vm demo_host).
Definition demo_gone := default (demo_vm, demo_host) (destroy OverlayProvider demo_config demo_down demo_up.1.1 demo_up.1.2).

Lemma demo_life :
  demo_up.2 = Ok () ∧ vm_exec_client demo_up.1.1 = true ∧ vm_events demo_gone.1 = ["box.ready"; "box.stopped"] ∧
  hs_signals demo_gone.2 = [(4242, SIGTERM)] ∧ vm_exit_code demo_gone.1 = Some 0 ∧
  vm_count_ready <$> vm_prom_ demo_gone.1 = Some 0.
Proof. split_and!; vm_compute; reflexivity. Qed.

Lemma demo_boots : snd <$> demo_boot true demo_vm demo_host = Some (Ok ()).
Proof. vm_compute. reflexivity. Qed.
Lemma demo_destroyed : destroy OverlayProvider demo_config demo_down demo_up.1.1 demo_up.1.2 = Some demo_gone.
Proof.
  unfold demo_gone. assert (some_b (destroy OverlayProvider demo_config demo_down demo_up.1.1 demo_up.1.2) = true) as Hs by (vm_compute; reflexivity).
  by destruct (destroy _ _ _ _ _).
Qed.

Lemma vm_reachable_witness : vm_ok (set_busy demo_up.1.1).1 ∧ vm_ok demo_gone.1.
Proof.
  assert (demo_boot true demo_vm demo_host = Some (demo_up.1.1, demo_up.1.2, Ok ())) as Hb
    by exact (option_eta _ (demo_vm, demo_host, Ok ()) _ demo_boots).
  pose proof demo_destroyed as Hd. revert Hb Hd. generalize demo_up as up, demo_gone as gone. intros up [gv gh] Hb Hd.
  split.
  - apply (@vm_reachable list_order toy_unpack as_root id (λ _, Some 1) OverlayProvider CopyStep.plain_host ["r"] demo_config "box-1" "/h"
      demo_content id Some "/h/volumes" "now" (λ _, None) false (Some no_prom) demo_host _ up.1.2).
    eapply rtc_l; [eapply StepBoot; [exact Hb|done]|]. apply rtc_once. apply StepBusy.
  - apply (@vm_reachable list_order toy_unpack as_root id (λ _, Some 1) OverlayProvider CopyStep.plain_host ["r"] demo_config "box-1" "/h"
      demo_content id Some "/h/volumes" "now" (λ _, None) false (Some no_prom) demo_host gv gh).
    eapply rtc_l; [eapply StepBoot; [exact Hb|done]|]. apply rtc_once.
    eapply StepDestroy. exact Hd.
Defined.

(** The gauge of ready machines is lowered by every destruction and raised only by a boot: a manager
    that never booted, or that attached to a running machine, leaves it one too low. *)
Lemma ready_gauge_negative :
  (λ x, vm_count_ready <$> vm_prom_ x.1) <$> destroy OverlayProvider demo_config demo_down demo_vm demo_host = Some (Some (-1)).
Proof. vm_compute. reflexivity. Qed.
