(* ===== verification/NetProxy.v ===== *)
(** * NetProxy: port forwarding in user space

    [netproxy/src/lib.rs], the gateway of a machine on a bridge network (the macOS build): host
    connections that are accepted, opened towards the guest, carried in both directions and
    released; name queries; the two ends of the socket pair.  The sockets of the network stack
    (smoltcp) are a state, two buffers and the operations the proxy calls, as that library
    documents them; what a poll of the stack does to them, and what the host's sockets answer, are
    arguments of a round. *)

From Stdlib Require Import ZArith Lia.
From stdpp Require Import base gmap strings list numbers fin_maps sets.
From S2P Require Import Prelude RustStr Options.

Local Open Scope string_scope.
Local Open Scope list_scope.
Local Open Scope Z_scope.

Definition EPHEMERAL_BASE : Z := 49152.
Definition BUFFER : nat := Z.to_nat 65536.
Definition READ_SIZE : nat := Z.to_nat 8192.
Definition DNS_SIZE : nat := Z.to_nat 4096.

(** ** The network stack *)

Inductive tcp_state :=
| Closed | Listen | SynSent | SynReceived | Established | FinWait1 | FinWait2 | CloseWait | Closing | LastAck | TimeWait.
#[export] Instance tcp_state_eq_dec : EqDecision tcp_state.
Proof. solve_decision. Defined.

(** What the proxy calls of the stack (smoltcp), for sockets of type [S].  [recv] is the call whose
    closure consumes all it is shown; [send_slice] also gives the count that was queued;
    [connect local ip port] is a new socket after the attempt to connect, whose failure is
    ignored; [add dns sockets] is the slot the socket set gives. *)
Class TcpStack (S : Type) := {
  state : S → tcp_state;
  can_recv : S → bool;
  can_send : S → bool;
  recv : S → list Z * S;
  send_slice : list Z → S → nat * S;
  close : S → S;
  connect : Z → Z → Z → S;
  add : nat → gmap nat S → nat }.

(** The set's contract: a new socket gets a slot that is in use neither by a socket nor by the
    name server. *)
Class FreshSlots (S : Type) `{TcpStack S} := {
  add_fresh : ∀ dns (s : gmap nat S), s !! add dns s = None ∧ add dns s ≠ dns }.

(** The contract of the two buffers: [recv] hands out a prefix of what was received, [send_slice]
    queues a prefix of what it is given, all of it when there is room. *)
Class Buffers (S : Type) `{TcpStack S} := {
  rx : S → list Z;
  tx : S → list Z;
  recv_prefix : ∀ s, rx s = (recv s).1 ++ rx (recv s).2 ∧ tx (recv s).2 = tx s;
  send_queues : ∀ d s, can_send s = true → (length (tx s) + length d ≤ BUFFER)%nat →
    tx (send_slice d s).2 = tx s ++ d ∧ rx (send_slice d s).2 = rx s;
  close_keeps : ∀ s, rx (close s) = rx s ∧ tx (close s) = tx s }.

(** The host's end of a connection: the bytes that were read from it and the bytes it took. *)
Record host_stream := { st_id : nat; st_read : list Z; st_written : list Z }.

Record PortForward := {
  pf_guest_ip : Z; pf_guest_port : Z; pf_pending : list (nat * host_stream); pf_active : list (nat * host_stream) }.

(** ** The device: frames of the socket pair *)

Definition MAX_FRAME : nat := Z.to_nat 1514.

(** [drain]: at most [n] frames, each cut at the buffer's size, until the socket has none. *)
Fixpoint drain_loop (n : nat) (incoming rx_queue : list (list Z)) : list (list Z) * list (list Z) :=
  match n, incoming with
  | S n, f :: incoming => drain_loop n incoming (rx_queue ++ [take MAX_FRAME f])
  | _, _ => (incoming, rx_queue)
  end.
Definition drain : list (list Z) → list (list Z) → list (list Z) * list (list Z) := drain_loop 64.

(** [receive]: the oldest frame, unless the socket cannot be cloned (the frame is gone then). *)
Definition receive (cloned : bool) (rx_queue : list (list Z)) : option (list Z) * list (list Z) :=
  match rx_queue with
  | [] => (None, [])
  | f :: q => (if cloned then Some f else None, q)
  end.

Lemma drain_loop_order n incoming q : ∃ k, (k ≤ n)%nat ∧
  drain_loop n incoming q = (drop k incoming, q ++ map (take MAX_FRAME) (take k incoming)).
Proof.
  revert incoming q. induction n as [|n IH]; intros incoming q; [exists O; by rewrite app_nil_r|].
  destruct incoming as [|f incoming]; [exists O; cbn; rewrite app_nil_r; split; [lia|done]|].
  destruct (IH incoming (q ++ [take MAX_FRAME f])) as (k & Hk & E). exists (Datatypes.S k). split; [lia|].
  cbn [drain_loop]. rewrite E. cbn. by rewrite <-app_assoc.
Qed.

Section Engine.
Context {sock : Type} {Stk : TcpStack sock}.

(** ** The engine *)

Record ProxyEngine := {
  pe_sockets : gmap nat sock; pe_dns_handle : nat; pe_dns_servers : list Z;
  pe_forwards : list PortForward; pe_next_ephemeral : Z }.

(** [ProxyEngine::new] *)
Definition ProxyEngine_new (dns_handle : nat) (dns_servers : list Z) (fs : list PortForward) : ProxyEngine :=
  {| pe_sockets := ∅; pe_dns_handle := dns_handle; pe_dns_servers := dns_servers; pe_forwards := fs;
     pe_next_ephemeral := EPHEMERAL_BASE |}.

Definition set_forwards (fs : list PortForward) (sockets : gmap nat sock) (e : ProxyEngine) : ProxyEngine :=
  {| pe_sockets := sockets; pe_dns_handle := pe_dns_handle e; pe_dns_servers := pe_dns_servers e;
     pe_forwards := fs; pe_next_ephemeral := pe_next_ephemeral e |}.

(** [open_guest_tcp] *)
Definition next_port (p : Z) : Z :=
  let n := wrap 16 (p + 1) in if n <? EPHEMERAL_BASE then EPHEMERAL_BASE else n.
Definition open_guest_tcp (ip port : Z) (e : ProxyEngine) : nat * ProxyEngine :=
  let handle := add (pe_dns_handle e) (pe_sockets e) in
  (handle,
   {| pe_sockets := <[handle := connect (pe_next_ephemeral e) ip port]> (pe_sockets e);
      pe_dns_handle := pe_dns_handle e; pe_dns_servers := pe_dns_servers e; pe_forwards := pe_forwards e;
      pe_next_ephemeral := next_port (pe_next_ephemeral e) |}).

Definition push_pending (h : nat) (s : host_stream) (pf : PortForward) : PortForward :=
  {| pf_guest_ip := pf_guest_ip pf; pf_guest_port := pf_guest_port pf; pf_pending := pf_pending pf ++ [(h, s)]; pf_active := pf_active pf |}.

(** [accept_connections]: [accepted i] are the connections waiting on the listener of forward [i].
    The first pass collects them, the second opens a guest connection for each. *)
Definition new_conns (accepted : nat → list nat) (fs : list PortForward) : list (nat * nat * Z * Z) :=
  concat (imap (λ i pf, map (λ c, (i, c, pf_guest_ip pf, pf_guest_port pf)) (accepted i)) fs).
Definition accept_one (e : ProxyEngine) (c : nat * nat * Z * Z) : ProxyEngine :=
  let '(i, stream, ip, port) := c in
  let '(handle, e) := open_guest_tcp ip port e in
  set_forwards (alter (push_pending handle {| st_id := stream; st_read := []; st_written := [] |}) i (pe_forwards e)) (pe_sockets e) e.
Definition accept_connections (accepted : nat → list nat) (e : ProxyEngine) : ProxyEngine :=
  foldl accept_one e (new_conns accepted (pe_forwards e)).

(** [promote_established]; [None]: the socket set panics on a handle it does not have. *)
Definition conn_gone (st : tcp_state) : bool := match st with Closed | TimeWait | CloseWait => true | _ => false end.

Fixpoint promote_loop (pending : list (nat * host_stream)) (sockets : gmap nat sock)
    (active still : list (nat * host_stream)) : option (gmap nat sock * list (nat * host_stream) * list (nat * host_stream)) :=
  match pending with
  | [] => Some (sockets, active, still)
  | (h, s) :: pending =>
      so ← sockets !! h;
      if bool_decide (state so = Established) then promote_loop pending sockets (active ++ [(h, s)]) still
      else if conn_gone (state so) then promote_loop pending (delete h sockets) active still
      else promote_loop pending sockets active (still ++ [(h, s)])
  end.
Definition promote_pf (sockets : gmap nat sock) (pf : PortForward) : option (gmap nat sock * PortForward) :=
  '(sockets, active, still) ← promote_loop (pf_pending pf) sockets (pf_active pf) [];
  Some (sockets, {| pf_guest_ip := pf_guest_ip pf; pf_guest_port := pf_guest_port pf; pf_pending := still; pf_active := active |}).

(** [cleanup] *)
Fixpoint cleanup_loop (active : list (nat * host_stream)) (sockets : gmap nat sock)
    : option (list (nat * host_stream) * list nat) :=
  match active with
  | [] => Some ([], [])
  | (h, s) :: active =>
      so ← sockets !! h;
      '(keep, remove) ← cleanup_loop active sockets;
      if conn_gone (state so) then Some (keep, h :: remove) else Some ((h, s) :: keep, remove)
  end.
Definition cleanup_pf (sockets : gmap nat sock) (pf : PortForward) : option (gmap nat sock * PortForward) :=
  '(keep, remove) ← cleanup_loop (pf_active pf) sockets;
  Some (foldl (λ m h, delete h m) sockets remove,
        {| pf_guest_ip := pf_guest_ip pf; pf_guest_port := pf_guest_port pf; pf_pending := pf_pending pf; pf_active := keep |}).

(** What the host answers for one connection: how much of a write it takes, and what a
    read gives. *)
Inductive read_result := ReadEof | ReadBytes (data : list Z) | ReadBlocked | ReadFailed.
Record stream_io := { io_takes : nat; io_read : read_result }.

(** [proxy_data] for one connection *)
Definition proxy_one (io : stream_io) (so : sock) (s : host_stream) : sock * host_stream :=
  let '(so, s) :=
    if can_recv so then
      let '(data, so) := recv so in
      (so, {| st_id := st_id s; st_read := st_read s; st_written := st_written s ++ take (io_takes io) data |})
    else (so, s) in
  if can_send so then
    match io_read io with
    | ReadEof | ReadFailed => (close so, s)
    | ReadBytes data =>
        let '(_, so) := send_slice (take READ_SIZE data) so in
        (so, {| st_id := st_id s; st_read := st_read s ++ take READ_SIZE data; st_written := st_written s |})
    | ReadBlocked => (so, s)
    end
  else (so, s).

Fixpoint proxy_loop (io : nat → stream_io) (active : list (nat * host_stream)) (sockets : gmap nat sock)
    : option (gmap nat sock * list (nat * host_stream)) :=
  match active with
  | [] => Some (sockets, [])
  | (h, s) :: active =>
      so ← sockets !! h;
      let '(so, s) := proxy_one (io h) so s in
      '(sockets, active) ← proxy_loop io active (<[h := so]> sockets);
      Some (sockets, (h, s) :: active)
  end.
Definition proxy_pf (io : nat → stream_io) (sockets : gmap nat sock) (pf : PortForward) : option (gmap nat sock * PortForward) :=
  '(sockets, active) ← proxy_loop io (pf_active pf) sockets;
  Some (sockets, {| pf_guest_ip := pf_guest_ip pf; pf_guest_port := pf_guest_port pf; pf_pending := pf_pending pf; pf_active := active |}).

(** A pass over all forwards *)
Fixpoint each_forward (f : gmap nat sock → PortForward → option (gmap nat sock * PortForward))
    (sockets : gmap nat sock) (fs : list PortForward) : option (gmap nat sock * list PortForward) :=
  match fs with
  | [] => Some (sockets, [])
  | pf :: fs =>
      '(sockets, pf) ← f sockets pf;
      '(sockets, fs) ← each_forward f sockets fs;
      Some (sockets, pf :: fs)
  end.
Definition pass (f : gmap nat sock → PortForward → option (gmap nat sock * PortForward)) (e : ProxyEngine) : option ProxyEngine :=
  '(sockets, fs) ← each_forward f (pe_sockets e) (pe_forwards e);
  Some (set_forwards fs sockets e).

(** One round of [run]: [polled] is what the stack makes of each socket. *)
Record round_env := {
  re_accepted : nat → list nat; re_polled : nat → sock → sock; re_io : nat → stream_io }.

Definition round (env : round_env) (e : ProxyEngine) : option ProxyEngine :=
  let e := accept_connections (re_accepted env) e in
  let e := set_forwards (pe_forwards e) (map_imap (λ h s, Some (re_polled env h s)) (pe_sockets e)) e in
  e ← pass promote_pf e;
  e ← pass (proxy_pf (re_io env)) e;
  pass cleanup_pf e.

(** [forward_dns]: one query per round, answered by the first server alone. *)
Definition forward_dns (servers : list Z) (query : option (list Z * Z)) (bound : bool) (answer : Z → list Z → option (list Z))
    : option (list Z * Z) :=
  match servers, query with
  | server :: _, Some (q, src) => if bound then (λ r, (take DNS_SIZE r, src)) <$> answer server q else None
  | _, _ => None
  end.

(** ** Listeners ([parse_port_forwards]) *)

Fixpoint parse_port_forwards (bind : Z → bool) (port_map : list string) (guest_ip : Z)
    : result (port_err + Z) (list (Z * PortForward)) :=
  match port_map with
  | [] => Ok []
  | entry :: rest =>
      m ← map_err inl (parse_port_mapping entry);
      if bind (host_port m) then
        l ← parse_port_forwards bind rest guest_ip;
        Ok ((host_port m, {| pf_guest_ip := guest_ip; pf_guest_port := guest_port m; pf_pending := []; pf_active := [] |}) :: l)
      else Err (inr (host_port m))
  end.

(** ** No socket is lost, none is used twice *)

Definition pf_handles (pf : PortForward) : list nat := map fst (pf_pending pf) ++ map fst (pf_active pf).
Definition handles (fs : list PortForward) : list nat := concat (map pf_handles fs).

(** The sockets of the set are exactly those of the connections, each of one connection, and the
    name server's slot is none of them. *)
Record engine_ok (e : ProxyEngine) : Prop := {
  eo_distinct : NoDup (handles (pe_forwards e));
  eo_sockets : ∀ h, is_Some (pe_sockets e !! h) ↔ h ∈ handles (pe_forwards e);
  eo_dns : pe_dns_handle e ∉ handles (pe_forwards e);
  eo_port : EPHEMERAL_BASE ≤ pe_next_ephemeral e < 65536 }.

(** What a pass does to one forward: it keeps or releases connections, and releases the socket
    with the connection. *)
Definition releases (f : gmap nat sock → PortForward → option (gmap nat sock * PortForward)) : Prop :=
  ∀ s pf, NoDup (pf_handles pf) → (∀ h, h ∈ pf_handles pf → is_Some (s !! h)) →
  ∃ s' pf', f s pf = Some (s', pf') ∧ NoDup (pf_handles pf') ∧
    (∀ h, h ∈ pf_handles pf' → h ∈ pf_handles pf) ∧
    (∀ h, h ∈ pf_handles pf → (is_Some (s' !! h) ↔ h ∈ pf_handles pf')) ∧
    (∀ h, h ∉ pf_handles pf → s' !! h = s !! h).

Lemma each_releases f : releases f → ∀ fs s, NoDup (handles fs) → (∀ h, h ∈ handles fs → is_Some (s !! h)) →
  ∃ s' fs', each_forward f s fs = Some (s', fs') ∧ NoDup (handles fs') ∧
    (∀ h, h ∈ handles fs' → h ∈ handles fs) ∧
    (∀ h, h ∈ handles fs → (is_Some (s' !! h) ↔ h ∈ handles fs')) ∧
    (∀ h, h ∉ handles fs → s' !! h = s !! h).
Proof.
  intros Hf fs. induction fs as [|pf fs IH]; intros s Hnd Hin.
  { exists s, []. split_and!; try done. by intros h ?%not_elem_of_nil. }
  unfold handles in Hnd, Hin. cbn [map concat] in Hnd, Hin. fold (handles fs) in Hnd, Hin.
  apply NoDup_app in Hnd as (Hnd1 & Hdis & Hnd2).
  destruct (Hf s pf Hnd1) as (s1 & pf' & E1 & N1 & S1 & R1 & O1); [intros h Hh; apply Hin; set_solver|].
  destruct (IH s1 Hnd2) as (s2 & fs' & E2 & N2 & S2 & R2 & O2).
  { intros h Hh. rewrite O1; [apply Hin; set_solver|]. intros H. by apply (Hdis h). }
  cbn [each_forward]. rewrite E1. cbn. rewrite E2. cbn. exists s2, (pf' :: fs'). split; [done|].
  unfold handles in *. cbn [map concat]. split_and!.
  - apply NoDup_app. split_and!; [done| |done]. intros h H1%S1 H2%S2. by apply (Hdis h).
  - intros h. rewrite !elem_of_app. intros [H1%S1|H2%S2]; auto.
  - intros h. rewrite !elem_of_app. intros [H1|H2].
    + rewrite O2 by (by apply Hdis). rewrite (R1 h H1). split; [auto|]. intros [|H2%S2]; [done|]. by destruct (Hdis h H1).
    + rewrite (R2 h H2). split; [auto|]. intros [H1%S1|]; [|done]. by destruct (Hdis h H1).
  - intros h. rewrite not_elem_of_app. intros [H1 H2]. rewrite O2 by done. by apply O1.
Qed.

Lemma pass_ok f e : releases f → engine_ok e → ∃ e', pass f e = Some e' ∧ engine_ok e'.
Proof.
  intros Hf [Hd Hs Hdns Hp]. unfold pass.
  destruct (each_releases f Hf (pe_forwards e) (pe_sockets e) Hd) as (s' & fs' & -> & N & S & R & O); [by intros h ?%Hs|].
  cbn. eexists. split; [done|]. split; cbn; [done| | |done].
  - intros h. destruct (decide (h ∈ handles (pe_forwards e))) as [Hin|Hni]; [by apply R|].
    rewrite O by done. split; [by intros ?%Hs|]. by intros ?%S.
  - by intros ?%S.
Qed.

Lemma promote_loop_spec pending s active still :
  NoDup (map fst pending ++ map fst active ++ map fst still) → (∀ h, h ∈ map fst pending → is_Some (s !! h)) →
  ∃ s' a' st', promote_loop pending s active still = Some (s', a', st') ∧ NoDup (map fst st' ++ map fst a') ∧
    (∀ h, h ∈ map fst st' ++ map fst a' → h ∈ map fst pending ++ map fst active ++ map fst still) ∧
    (∀ h, h ∈ map fst active ++ map fst still → h ∈ map fst st' ++ map fst a') ∧
    (∀ h, h ∈ map fst pending → (is_Some (s' !! h) ↔ h ∈ map fst st' ++ map fst a')) ∧
    (∀ h, h ∉ map fst pending → s' !! h = s !! h).
Proof.
  revert s active still. induction pending as [|[h0 s0] pending IH]; intros s active still Hnd Hin.
  { exists s, active, still. cbn [map app] in *. split_and!; try done.
    - by rewrite (Permutation_app_comm (map fst still)).
    - intros h. rewrite !elem_of_app. tauto.
    - intros h. rewrite !elem_of_app. tauto.
    - by intros h ?%not_elem_of_nil. }
  cbn [map app fst] in *. apply NoDup_cons in Hnd as [Hnew Hnd]. cbn [promote_loop].
  destruct (Hin h0) as [so Hso]; [constructor|]. rewrite Hso. cbn [mbind option_bind].
  assert (∀ h, h ∈ map fst pending → is_Some (s !! h)) as Hin' by (intros h Hh; apply Hin; by constructor).
  assert (h0 ∉ map fst pending) as Hn0 by (clear -Hnew; set_solver).
  case_bool_decide as He; [|destruct (conn_gone (state so)) eqn:Hg].
  - destruct (IH s (active ++ [(h0, s0)]) still) as (s' & a' & st' & -> & N & S & K & R & O); [|done|].
    { rewrite map_app. cbn. rewrite !NoDup_app in *. pose proof (NoDup_singleton h0). clear -Hnew Hnd H. set_solver. }
    rewrite map_app in S, K. cbn in S, K. exists s', a', st'. split; [done|]. split_and!; [done| | | |].
    + intros h Hh%S. clear -Hh. set_solver.
    + intros h Hh. apply K. clear -Hh. set_solver.
    + intros h [->|Hh]%elem_of_cons; [|by apply R]. rewrite O, Hso by done. split; [|done]. intros _. apply K. clear. set_solver.
    + intros h [_ Hh]%not_elem_of_cons. by apply O.
  - destruct (IH (delete h0 s) active still) as (s' & a' & st' & -> & N & S & K & R & O); [done| |].
    { intros h Hh. rewrite lookup_delete_ne; [auto|]. by intros ->. }
    exists s', a', st'. split; [done|]. split_and!; [done| |done| |].
    + intros h Hh%S. by constructor.
    + intros h [->|Hh]%elem_of_cons; [|by apply R]. rewrite O, lookup_delete_eq by done. split; [by intros []|]. by intros ?%S.
    + intros h [Hne Hh]%not_elem_of_cons. rewrite O by done. by rewrite lookup_delete_ne.
  - destruct (IH s active (still ++ [(h0, s0)])) as (s' & a' & st' & -> & N & S & K & R & O); [|done|].
    { rewrite map_app. cbn. rewrite !NoDup_app in *. pose proof (NoDup_singleton h0). clear -Hnew Hnd H. set_solver. }
    rewrite map_app in S, K. cbn in S, K. exists s', a', st'. split; [done|]. split_and!; [done| | | |].
    + intros h Hh%S. clear -Hh. set_solver.
    + intros h Hh. apply K. clear -Hh. set_solver.
    + intros h [->|Hh]%elem_of_cons; [|by apply R]. rewrite O, Hso by done. split; [|done]. intros _. apply K. clear. set_solver.
    + intros h [_ Hh]%not_elem_of_cons. by apply O.
Qed.

Lemma promote_releases : releases promote_pf.
Proof.
  intros s pf Hnd Hin. unfold promote_pf, pf_handles in *.
  destruct (promote_loop_spec (pf_pending pf) s (pf_active pf) []) as (s' & a' & st' & -> & N & S & K & R & O).
  { cbn. by rewrite app_nil_r. }
  { intros h Hh. apply Hin, elem_of_app. by left. }
  cbn [map] in S, K. rewrite app_nil_r in S, K. cbn [mbind option_bind]. eexists _, _. split; [done|]. cbn [pf_pending pf_active].
  split_and!; [done|done| |].
  - intros h [Hh|Hh]%elem_of_app; [by apply R|]. rewrite O.
    + split; [intros _; by apply K|]. intros _. apply Hin, elem_of_app. by right.
    + apply NoDup_app in Hnd as (_ & Hd & _). intros H. by apply (Hd h).
  - intros h Hh. apply O. clear -Hh. set_solver.
Qed.

Lemma cleanup_loop_spec active (s : gmap nat sock) : NoDup (map fst active) → (∀ h, h ∈ map fst active → is_Some (s !! h)) →
  ∃ keep remove, cleanup_loop active s = Some (keep, remove) ∧ NoDup (map fst keep) ∧
    ∀ h, h ∈ map fst active ↔ h ∈ map fst keep ∨ h ∈ remove ∧ (h ∉ map fst keep).
Proof.
  induction active as [|[h0 s0] active IH]; intros Hnd Hin.
  { exists [], []. split_and!; [done|constructor|]. clear. set_solver. }
  cbn [map fst] in *. apply NoDup_cons in Hnd as [Hnew Hnd]. destruct (IH Hnd) as (keep & remove & Hc & N & S).
  { intros h Hh. apply Hin. by constructor. }
  cbn [cleanup_loop]. destruct (Hin h0) as [so Hso]; [constructor|]. rewrite Hso. cbn [mbind option_bind]. rewrite Hc. cbn [mbind option_bind].
  destruct (conn_gone (state so)); eexists _, _; (split; [done|]).
  - split; [done|]. intros h. rewrite elem_of_cons, (S h), elem_of_cons. split; [|tauto].
    intros [->|[?|?]]; [|tauto..]. right. split; [by left|]. intros Hk. apply Hnew. apply S. by left.
  - cbn [map fst]. split.
    + apply NoDup_cons. split; [|done]. intros Hk. apply Hnew, S. by left.
    + intros h. rewrite !elem_of_cons, (S h). split; [|tauto]. intros [->|[?|[? ?]]]; [tauto..|].
      right. split; [done|]. intros [->|?]; [|done]. apply Hnew, S. tauto.
Qed.

Lemma delete_all (l : list nat) (m : gmap nat sock) h :
  foldl (λ m h, delete h m) m l !! h = if decide (h ∈ l) then None else m !! h.
Proof.
  revert m. induction l as [|k l IH]; intros m; [by rewrite decide_False by set_solver|]. cbn [foldl]. rewrite IH.
  destruct (decide (h ∈ l)); [by rewrite decide_True by set_solver|].
  destruct (decide (h = k)) as [->|Hne]; [rewrite decide_True by set_solver; apply lookup_delete_eq|].
  rewrite decide_False by set_solver. by rewrite lookup_delete_ne.
Qed.

Lemma cleanup_releases : releases cleanup_pf.
Proof.
  intros s pf Hnd Hin. unfold cleanup_pf, pf_handles in *. apply NoDup_app in Hnd as (Hn1 & Hd & Hn2).
  assert (∀ h, h ∈ map fst (pf_active pf) → is_Some (s !! h)) as Hin2 by (intros h Hh; apply Hin, elem_of_app; by right).
  destruct (cleanup_loop_spec (pf_active pf) s Hn2 Hin2) as (keep & remove & E & N & S).
  assert (∀ h, h ∈ remove → h ∈ map fst (pf_active pf) ∧ h ∉ map fst keep) as Hrm.
  { clear -E Hn2. revert keep remove E. induction (pf_active pf) as [|[h0 s0] l IH]; intros keep remove; cbn [cleanup_loop map fst].
    { intros [= <- <-] h ?%not_elem_of_nil. done. }
    destruct (s !! h0) as [so|]; [|done]. cbn. destruct (cleanup_loop l s) as [[k r]|] eqn:El; [|done]. cbn.
    cbn [map fst] in Hn2. apply NoDup_cons in Hn2 as [Hnew Hnd]. specialize (IH Hnd k r eq_refl).
    assert (∀ h, h ∈ map fst k → h ∈ map fst l) as Hk.
    { clear -El. revert k r El. induction l as [|[h1 s1] l IH]; intros k r; cbn [cleanup_loop map fst]; [by intros [= <- <-]|].
      destruct (s !! h1) as [so|]; [|done]. cbn. destruct (cleanup_loop l s) as [[k1 r1]|]; [|done]. cbn.
      destruct (conn_gone _); intros [= <- <-]; cbn [map fst]; specialize (IH _ _ eq_refl); clear -IH; set_solver. }
    destruct (conn_gone (state so)); intros [= <- <-] h; cbn [map fst]; clear -IH Hk Hnew; set_solver. }
  rewrite E. cbn [mbind option_bind]. eexists _, _. split; [done|]. cbn [pf_pending pf_active].
  split_and!.
  - apply NoDup_app. split_and!; [done| |done]. intros h H1 H2. apply (Hd h H1), S. by left.
  - intros h. rewrite !elem_of_app. intros [?|Hk]; [by left|]. right. apply S. by left.
  - intros h Hh. rewrite delete_all. destruct (decide (h ∈ remove)) as [Hr|Hr].
    + destruct (Hrm h Hr) as [H1 H2]. split; [by intros []|]. intros [Hp|Hk]%elem_of_app; [by destruct (Hd h Hp)|done].
    + split; [|intros _; by apply Hin]. intros _. apply elem_of_app in Hh as [?|Ha]; [apply elem_of_app; by left|].
      apply elem_of_app. right. apply S in Ha as [?|[? _]]; done.
  - intros h Hh. rewrite delete_all. rewrite decide_False; [done|]. intros [Hr _]%Hrm. apply Hh, elem_of_app. by right.
Qed.

Lemma proxy_loop_spec io active (s : gmap nat sock) : (∀ h, h ∈ map fst active → is_Some (s !! h)) →
  ∃ s' active', proxy_loop io active s = Some (s', active') ∧ map fst active' = map fst active ∧
    (∀ h, is_Some (s' !! h) ↔ is_Some (s !! h)) ∧ (∀ h, h ∉ map fst active → s' !! h = s !! h).
Proof.
  revert s. induction active as [|[h0 s0] active IH]; intros s Hin; [by exists s, []|].
  cbn [proxy_loop map fst] in *. destruct (Hin h0) as [so Hso]; [constructor|]. rewrite Hso. cbn [mbind option_bind].
  destruct (proxy_one (io h0) so s0) as [so' s0'].
  assert (∀ h, is_Some (<[h0 := so']> s !! h) ↔ is_Some (s !! h)) as Hsame.
  { intros h. destruct (decide (h = h0)) as [->|]; [rewrite lookup_insert_eq, Hso; done|by rewrite lookup_insert_ne]. }
  destruct (IH (<[h0 := so']> s)) as (s' & active' & -> & M & D & O).
  { intros h Hh. apply Hsame, Hin. by constructor. }
  cbn. exists s', ((h0, s0') :: active'). cbn [map fst]. rewrite M. split_and!; [done|done| |].
  - intros h. by rewrite D.
  - intros h [Hne Hh]%not_elem_of_cons. rewrite O by done. by rewrite lookup_insert_ne.
Qed.

Lemma proxy_releases io : releases (proxy_pf io).
Proof.
  intros s pf Hnd Hin. unfold proxy_pf, pf_handles in *.
  destruct (proxy_loop_spec io (pf_active pf) s) as (s' & active' & -> & M & D & O); [intros h Hh; apply Hin, elem_of_app; by right|].
  cbn [mbind option_bind]. eexists _, _. split; [done|]. cbn [pf_pending pf_active]. rewrite M. split_and!; try done.
  - intros h Hh. rewrite D. split; [done|]. intros _. by apply Hin.
  - intros h [_ Hh]%not_elem_of_app. by apply O.
Qed.

Lemma handles_alter fs i h s : (i < length fs)%nat → handles (alter (push_pending h s) i fs) ≡ₚ h :: handles fs.
Proof.
  revert i. induction fs as [|pf0 fs IH]; intros [|i] Hi; cbn [length] in Hi; [lia|lia| |]; unfold handles in *; cbn [alter list_alter].
  - cbn [map concat]. unfold pf_handles at 1. cbn [push_pending pf_pending pf_active].
    rewrite map_app. cbn [map]. rewrite <-!app_assoc. cbn. rewrite <-!Permutation_middle. unfold pf_handles. by rewrite <-app_assoc.
  - cbn [map concat]. rewrite (IH i) by lia. by rewrite <-Permutation_middle.
Qed.

Lemma next_port_range p : EPHEMERAL_BASE ≤ p < 65536 → EPHEMERAL_BASE ≤ next_port p < 65536.
Proof.
  unfold next_port, EPHEMERAL_BASE. intros Hp. destruct (decide (p = 65535)) as [->|]; [vm_compute; split; congruence|].
  rewrite wrap_small by (unfold in_range; lia). destruct (Z.ltb_spec (p + 1) 49152); lia.
Qed.

Lemma new_conns_range accepted fs c : c ∈ new_conns accepted fs → (c.1.1.1 < length fs)%nat.
Proof.
  unfold new_conns. rewrite list_elem_of_In, in_concat. intros (l & Hl & Hc). apply list_elem_of_In, elem_of_lookup_imap in Hl as (i & pf & -> & Hi).
  apply in_map_iff in Hc as (x & <- & _). cbn. by eapply lookup_lt_Some.
Qed.

Context `{!FreshSlots sock}.

Lemma accept_one_ok e c : engine_ok e → (c.1.1.1 < length (pe_forwards e))%nat →
  engine_ok (accept_one e c) ∧ length (pe_forwards (accept_one e c)) = length (pe_forwards e).
Proof.
  intros [Hd Hs Hdns Hp] Hi. destruct c as [[[i st] ip] port]. cbn [fst] in Hi. unfold accept_one, open_guest_tcp.
  destruct (add_fresh (pe_dns_handle e) (pe_sockets e)) as [Hfree Hne].
  set (h0 := add _ _) in *. assert (h0 ∉ handles (pe_forwards e)) as Hni by (rewrite <-Hs, Hfree; by intros []).
  split; [|cbn [set_forwards pe_forwards]; by rewrite length_alter].
  split; cbn [set_forwards pe_forwards pe_sockets pe_dns_handle pe_next_ephemeral].
  - rewrite handles_alter by done. by apply NoDup_cons.
  - intros h. rewrite handles_alter, elem_of_cons by done. destruct (decide (h = h0)) as [->|Hne'].
    + rewrite lookup_insert_eq. split; [by left|done].
    + rewrite lookup_insert_ne, Hs by done. tauto.
  - rewrite handles_alter, elem_of_cons by done. intros [E|E]; [by symmetry in E|done].
  - by apply next_port_range.
Qed.

Lemma accept_all_ok accepted e : engine_ok e → engine_ok (accept_connections accepted e).
Proof.
  unfold accept_connections. intros He.
  assert (∀ c, c ∈ new_conns accepted (pe_forwards e) → (c.1.1.1 < length (pe_forwards e))%nat) as Hr by (intros c; apply new_conns_range).
  revert Hr. generalize (new_conns accepted (pe_forwards e)) as l. intros l. revert e He. induction l as [|c l IH]; intros e He Hr; [done|].
  cbn [foldl]. destruct (accept_one_ok e c He) as [He' Hl]; [apply Hr; constructor|]. apply IH; [done|].
  intros c' Hc'. rewrite Hl. apply Hr. by constructor.
Qed.

Lemma round_ok env e : engine_ok e → ∃ e', round env e = Some e' ∧ engine_ok e'.
Proof.
  intros Hs. unfold round. apply (accept_all_ok (re_accepted env)) in Hs. set (e1 := accept_connections _ _) in *. clearbody e1.
  assert (engine_ok (set_forwards (pe_forwards e1) (map_imap (λ h s, Some (re_polled env h s)) (pe_sockets e1)) e1)) as H2.
  { destruct Hs as [Hd Hsk Hdns Hp]. split; cbn; [done| |done|done]. intros h. rewrite <-Hsk, map_lookup_imap.
    destruct (pe_sockets e1 !! h); cbn; split; by intros []. }
  destruct (pass_ok _ _ promote_releases H2) as (e3 & -> & H3). cbn.
  destruct (pass_ok _ _ (proxy_releases (re_io env)) H3) as (e4 & -> & H4). cbn.
  exact (pass_ok _ _ cleanup_releases H4).
Qed.

Fixpoint run_rounds (envs : list round_env) (e : ProxyEngine) : option ProxyEngine :=
  match envs with [] => Some e | env :: envs => e ← round env e; run_rounds envs e end.

Lemma run_rounds_ok envs e : engine_ok e → ∃ e', run_rounds envs e = Some e' ∧ engine_ok e'.
Proof.
  revert e. induction envs as [|env envs IH]; intros e He; [by exists e|]. cbn [run_rounds].
  destruct (round_ok env e He) as (e' & Hr & He'). rewrite Hr. cbn. auto.
Qed.

Lemma parsed_no_handles bind port_map ip l : parse_port_forwards bind port_map ip = Ok l → handles (map snd l) = [].
Proof.
  revert l. induction port_map as [|p rest IH]; intros l; cbn [parse_port_forwards]; [by intros [= <-]|].
  destruct (parse_port_mapping p) as [m|]; [|done]. cbn. destruct (bind (host_port m)); [|done].
  destruct (parse_port_forwards bind rest ip) as [l'|]; [|done]. cbn. intros [= <-]. exact (IH l' eq_refl).
Qed.

(** The proxy never touches a socket it released and never loses one: started with any port
    rules that parse, after any number of rounds, whatever connections arrive and whatever the
    network stack and the hosts answer, the engine has not panicked on a missing socket, the
    sockets in use are exactly those of the pending and active connections, each belongs to one
    connection, and the local ports stay in their range. *)
Theorem proxy_rounds bind port_map ip l dns servers envs :
  parse_port_forwards bind port_map ip = Ok l →
  ∃ e', run_rounds envs (ProxyEngine_new dns servers (map snd l)) = Some e' ∧ engine_ok e'.
Proof.
  intros Hl. apply run_rounds_ok. apply parsed_no_handles in Hl. unfold ProxyEngine_new.
  split; cbn [pe_forwards pe_sockets pe_dns_handle pe_next_ephemeral]; rewrite ?Hl.
  - constructor.
  - intros h. rewrite lookup_empty. split; [by intros []|by intros ?%not_elem_of_nil].
  - apply not_elem_of_nil.
  - unfold EPHEMERAL_BASE. lia.
Qed.

(** ** Local ports *)

Definition port_after (k : nat) (p : Z) : Z := Nat.iter k next_port p.

Lemma port_after_closed k p : EPHEMERAL_BASE ≤ p < 65536 →
  port_after k p = EPHEMERAL_BASE + (p - EPHEMERAL_BASE + Z.of_nat k) mod 16384.
Proof.
  intros Hp. induction k as [|k IH].
  - cbn. rewrite Z.add_0_r, Z.mod_small; unfold EPHEMERAL_BASE in *; lia.
  - change (port_after (S k) p) with (next_port (port_after k p)). rewrite IH.
    assert (0 ≤ (p - EPHEMERAL_BASE + Z.of_nat k) mod 16384 < 16384) by (apply Z.mod_pos_bound; lia).
    rewrite Nat2Z.inj_succ. replace (p - EPHEMERAL_BASE + Z.succ (Z.of_nat k)) with (p - EPHEMERAL_BASE + Z.of_nat k + 1) by lia.
    rewrite (Z.add_mod (p - EPHEMERAL_BASE + Z.of_nat k) 1) by lia. change (1 mod 16384) with 1. set (r := (p - EPHEMERAL_BASE + Z.of_nat k) mod 16384) in *.
    unfold next_port. destruct (decide (r = 16383)) as [->|Hr].
    + reflexivity.
    + rewrite wrap_small by (unfold in_range, EPHEMERAL_BASE; lia). rewrite (Z.mod_small (r + 1)) by lia.
      unfold EPHEMERAL_BASE in *. destruct (Z.ltb_spec (49152 + r + 1) 49152); lia.
Qed.

(** Any 16384 connections in a row have different local ports; the next one reuses the first. *)
Theorem local_ports_distinct p i j : EPHEMERAL_BASE ≤ p < 65536 → (i < j < i + Z.to_nat 16384)%nat →
  port_after i p ≠ port_after j p ∧ port_after (i + Z.to_nat 16384) p = port_after i p.
Proof.
  intros Hp Hij. rewrite !port_after_closed by done. split.
  - intros E. assert ((p - EPHEMERAL_BASE + Z.of_nat j) mod 16384 = (p - EPHEMERAL_BASE + Z.of_nat i) mod 16384) as E' by lia.
    set (a := p - EPHEMERAL_BASE) in *. assert ((Z.of_nat j - Z.of_nat i) mod 16384 = 0) as H0.
    { replace (Z.of_nat j - Z.of_nat i) with ((a + Z.of_nat j) - (a + Z.of_nat i)) by lia. rewrite Zminus_mod, E', Z.sub_diag. done. }
    rewrite Z.mod_small in H0 by lia. lia.
  - f_equal. rewrite Nat2Z.inj_add, Z2Nat.id by lia.
    replace (p - EPHEMERAL_BASE + (Z.of_nat i + 16384)) with (p - EPHEMERAL_BASE + Z.of_nat i + 1 * 16384) by lia. by rewrite Z.mod_add.
Qed.

(** ** The bytes of a connection *)

(** When the host takes what it is offered and there is room in the send buffer, carrying loses
    nothing: what the host got and what is still buffered are the guest's bytes, and what was read
    from the host is queued for the guest. *)
Theorem proxy_one_exact `{!Buffers sock} io so s :
  (length (rx so) ≤ io_takes io)%nat → (length (tx so) + READ_SIZE ≤ BUFFER)%nat →
  let '(so', s') := proxy_one io so s in
  st_written s' ++ rx so' = st_written s ++ rx so ∧
  ∃ d, st_read s' = st_read s ++ d ∧ tx so' = tx so ++ d.
Proof.
  intros Ht Hroom. unfold proxy_one.
  assert (∃ so1 s1, (if can_recv so then
      let '(data, so) := recv so in
      (so, {| st_id := st_id s; st_read := st_read s; st_written := st_written s ++ take (io_takes io) data |})
    else (so, s)) = (so1, s1) ∧ st_written s1 ++ rx so1 = st_written s ++ rx so ∧ st_read s1 = st_read s ∧ tx so1 = tx so)
    as (so1 & s1 & -> & H1 & H2 & H3).
  { destruct (can_recv so); [|by exists so, s]. destruct (recv_prefix so) as [Hrx Htx].
    destruct (recv so) as [data so1]. cbn [fst snd] in *. eexists _, _. split; [done|]. cbn [st_written st_read]. split_and!; [|done|done].
    rewrite take_ge; [by rewrite Hrx, app_assoc|]. rewrite Hrx, length_app in Ht. lia. }
  destruct (can_send so1) eqn:Hcs; [|split; [done|]; exists []; by rewrite !app_nil_r, H2, H3].
  destruct (close_keeps so1) as [C1 C2].
  destruct (io_read io) as [|data| |]; try (split; [by rewrite ?C1|]; exists []; by rewrite !app_nil_r, ?C2, H2, H3).
  destruct (send_queues (take READ_SIZE data) so1) as [Q1 Q2]; [done|rewrite H3, length_take; lia|].
  destruct (send_slice (take READ_SIZE data) so1) as [n so2]. cbn [snd st_written st_read] in *.
  split; [by rewrite Q2|]. exists (take READ_SIZE data). by rewrite H2, H3 in *.
Qed.

End Engine.

(** ** A stack of two plain buffers *)

(** A socket whose buffers are lists, an instance of the contracts above. *)
Record plain_socket := { so_state : tcp_state; so_rx : list Z; so_tx : list Z }.

Definition plain_send (d : list Z) (s : plain_socket) : nat * plain_socket :=
  let n := (Nat.min (length d) (BUFFER - length (so_tx s)))%nat in
  (n, {| so_state := so_state s; so_rx := so_rx s; so_tx := so_tx s ++ take n d |}).

#[export] Instance plain_stack : TcpStack plain_socket := {
  state := so_state;
  can_recv s := match so_rx s with [] => false | _ => true end;
  can_send s := match so_state s with Established | CloseWait => (length (so_tx s) <? BUFFER)%nat | _ => false end;
  recv s := (so_rx s, {| so_state := so_state s; so_rx := []; so_tx := so_tx s |});
  send_slice := plain_send;
  close s := {| so_state := match so_state s with Established => FinWait1 | CloseWait => LastAck | st => st end;
                so_rx := so_rx s; so_tx := so_tx s |};
  connect _ _ _ := {| so_state := SynSent; so_rx := []; so_tx := [] |};
  add dns s := fresh ({[dns]} ∪ dom s) }.

#[export] Instance plain_fresh : FreshSlots plain_socket.
Proof.
  split. intros dns s. cbn. pose proof (is_fresh (A := nat) (C := gset nat) ({[dns]} ∪ dom s)) as Hf.
  apply not_elem_of_union in Hf as [H1 H2]. split; [by apply not_elem_of_dom|]. intros E. apply H1. by apply elem_of_singleton.
Qed.

#[export, refine] Instance plain_buffers : Buffers plain_socket := { rx := so_rx; tx := so_tx }.
Proof.
  - intros s. cbn. by rewrite app_nil_r.
  - intros d s _ Hl. cbn. split; [|done]. f_equal. apply take_ge. lia.
  - done.
Qed.

Definition demo_forward : PortForward := {| pf_guest_ip := 1; pf_guest_port := 80; pf_pending := []; pf_active := [] |}.
Definition demo_round (st : tcp_state) (rx : list Z) (n : nat) : @round_env plain_socket :=
  {| re_accepted := λ i, match i with O => seq 0 n | _ => [] end;
     re_polled := λ _ s, {| so_state := st; so_rx := so_rx s ++ rx; so_tx := so_tx s |};
     re_io := λ _, {| io_takes := BUFFER; io_read := ReadBytes [71; 69; 84] |} |}.

Lemma demo_rules : parse_port_forwards (λ _, true) ["8080:80"] 1 = Ok [(8080, demo_forward)].
Proof. vm_compute. reflexivity. Qed.

Lemma proxy_rounds_witness :
  parse_port_forwards (λ _, true) ["8080:80"] 1 = Ok [(8080, demo_forward)] ∧
  ∃ e', run_rounds [demo_round SynSent [] 2; demo_round Established [104; 105] 0; demo_round Closed [] 1]
          (ProxyEngine_new 0%nat [8] [demo_forward]) = Some e' ∧ engine_ok e'.
Proof. split; [exact demo_rules|]. exact (proxy_rounds _ _ _ _ 0%nat [8] _ demo_rules). Defined.

(** Losses: a host that is slow takes part of the data and the rest is dropped; a send buffer that
    is nearly full takes part of what was read; a guest that answers and closes before the
    connection was seen as established, or before its last bytes were carried, is cut off. *)
Definition demo_socket (st : tcp_state) (rx tx : list Z) : plain_socket := {| so_state := st; so_rx := rx; so_tx := tx |}.
Definition fresh_stream : host_stream := {| st_id := 0; st_read := []; st_written := [] |}.

Lemma slow_host_loses_data :
  proxy_one {| io_takes := 1; io_read := ReadBlocked |} (demo_socket Established [1; 2; 3; 4] []) fresh_stream
  = (demo_socket Established [] [], {| st_id := 0; st_read := []; st_written := [1] |}).
Proof. reflexivity. Qed.

Lemma full_buffer_loses_data t : (length t + 1 = BUFFER)%nat →
  let '(so, s) := proxy_one {| io_takes := 0; io_read := ReadBytes [7; 8; 9] |} (demo_socket Established [] t) fresh_stream in
  st_read s = [7; 8; 9] ∧ so_tx so = t ++ [7].
Proof.
  intros Hl. assert (take READ_SIZE [7; 8; 9] = [7; 8; 9]) as Ht by (apply take_ge; apply Nat.leb_le; vm_compute; done).
  unfold proxy_one. cbn [demo_socket can_recv can_send plain_stack so_state so_rx so_tx io_read].
  destruct (Nat.ltb_spec (length t) BUFFER); [|lia]. rewrite Ht. change (send_slice [7; 8; 9]) with (plain_send [7; 8; 9]). unfold plain_send. cbn [so_tx so_state so_rx st_id st_written length st_read fresh_stream].
  split; [done|]. change (so_tx (demo_socket Established [] t)) with t. assert ((BUFFER - length t)%nat = 1%nat) as -> by (clear -Hl; lia). done.
Qed.

Lemma quick_answer_lost :
  promote_loop [(0%nat, fresh_stream)] {[ 0%nat := demo_socket CloseWait [104; 105] [] ]} [] [] = Some (∅, [], []).
Proof. vm_compute. reflexivity. Qed.

Lemma half_closed_cut_off :
  cleanup_loop [(0%nat, fresh_stream)] {[ 0%nat := demo_socket CloseWait [104; 105] [] ]} = Some ([], [0%nat]).
Proof. vm_compute. reflexivity. Qed.

(** ** The manager of the socket pair *)

Record NetProxyManager := { nm_socket_fd : option Z; nm_proxy_fd : option Z }.

Definition NetProxyManager_new : NetProxyManager := {| nm_socket_fd := None; nm_proxy_fd := None |}.
(** [socketpair]'s two descriptors, or its failure *)
Definition spawn (pair : option (Z * Z)) (m : NetProxyManager) : bool * NetProxyManager :=
  match pair with
  | None => (false, m)
  | Some (proxy_fd, krun_fd) => (true, {| nm_socket_fd := Some krun_fd; nm_proxy_fd := Some proxy_fd |})
  end.
Definition netproxy_stop (m : NetProxyManager) : list Z * NetProxyManager :=
  (option_list (nm_socket_fd m) ++ option_list (nm_proxy_fd m), NetProxyManager_new).
Definition is_running (m : NetProxyManager) : bool :=
  match nm_socket_fd m, nm_proxy_fd m with None, None => false | _, _ => true end.

(** [stop] followed by the drop's [stop] closes each end of the pair once. *)
Lemma stop_once a b m : let '(_, m) := spawn (Some (a, b)) m in
  is_running m = true ∧ (netproxy_stop m).1 = [b; a] ∧ is_running (netproxy_stop m).2 = false ∧
  (netproxy_stop (netproxy_stop m).2).1 = [].
Proof. by split_and!. Qed.

(** A second [spawn] forgets the first pair: its descriptors are never closed. *)
Lemma respawn_leaks a b c d m :
  let m := (spawn (Some (c, d)) (spawn (Some (a, b)) m).2).2 in (netproxy_stop m).1 = [d; c].
Proof. done. Qed.
