(* ===== verification/Snapshot.v ===== *)
(** * Snapshot: saved boxes

    The snapshot store ([core/src/snapshot.rs], [runtime/src/snapshot.rs]): saving a root with its
    configuration, listing, deleting and pruning; and the commands that create a snapshot from a
    box and restore a box from one ([cli/src/commands/snapshot.rs]).  A snapshot is a directory
    [<base>/<id>] with the tree [rootfs] and the file [metadata.json]. *)

From Stdlib Require Import ZArith Lia Sorted.
From stdpp Require Import base gmap strings list numbers fin_maps sets sorting.
From S2P Require Import DirCache Prelude RustStr Text Options Network Config BoxState Layers Build CopyStep TreeCopy Rootfs Layout.

Local Open Scope string_scope.
Local Open Scope list_scope.
Local Open Scope Z_scope.

(** ** Metadata *)

Record SnapshotMetadata := {
  sm_id : string; sm_name : string; sm_source_box_id : string; sm_image : string; sm_vcpus : Z; sm_memory_mb : Z;
  sm_volumes : list string; sm_env : gmap string string; sm_cmd : list string; sm_entrypoint : option (list string);
  sm_workdir : option string; sm_port_map : list string; sm_labels : gmap string string; sm_network_mode : option string;
  sm_rootfs_cache_key : option string; sm_size_bytes : Z; sm_created_at : Z; sm_description : string }.

Definition snapshot_new (now : Z) (id name source_box_id image : string) : SnapshotMetadata :=
  {| sm_id := id; sm_name := name; sm_source_box_id := source_box_id; sm_image := image; sm_vcpus := 2; sm_memory_mb := 512;
     sm_volumes := []; sm_env := ∅; sm_cmd := []; sm_entrypoint := None; sm_workdir := None; sm_port_map := [];
     sm_labels := ∅; sm_network_mode := None; sm_rootfs_cache_key := None; sm_size_bytes := 0; sm_created_at := now;
     sm_description := "" |}.

Definition with_size (size : Z) (m : SnapshotMetadata) : SnapshotMetadata :=
  {| sm_id := sm_id m; sm_name := sm_name m; sm_source_box_id := sm_source_box_id m; sm_image := sm_image m;
     sm_vcpus := sm_vcpus m; sm_memory_mb := sm_memory_mb m; sm_volumes := sm_volumes m; sm_env := sm_env m;
     sm_cmd := sm_cmd m; sm_entrypoint := sm_entrypoint m; sm_workdir := sm_workdir m; sm_port_map := sm_port_map m;
     sm_labels := sm_labels m; sm_network_mode := sm_network_mode m; sm_rootfs_cache_key := sm_rootfs_cache_key m;
     sm_size_bytes := size; sm_created_at := sm_created_at m; sm_description := sm_description m |}.

(** ** The store *)

(** What is found at [metadata.json]. *)
Inductive meta_file := NoFile | Unreadable | BadJson | Meta (m : SnapshotMetadata).
Record snap_dir := { sd_rootfs : option fs; sd_meta : meta_file }.
Abbreviation snap_store := (gmap string snap_dir).

Inductive snap_error := SnapExists (id : string) | SnapMkdir | SnapCopy | SnapWrite | SnapRead | SnapParse | SnapDelete (id : string).

(** [snap_dir_size]: links are followed; [follow p] is the size found behind the link at [p], of a file
    or of a whole directory, and 0 when it leads nowhere. *)
Fixpoint snap_dir_size (fuel : nat) (follow : path → Z) (t : fs) (p : path) : Z :=
  match fuel with
  | O => 0
  | S fuel =>
      foldl (λ total n,
        match t !! (p ++ [n]) with
        | None => total
        | Some i =>
            wrap 64 (total + match i_kind i with
                             | KDir => snap_dir_size fuel follow t (p ++ [n])
                             | KFile c => Z.of_nat (String.length c)
                             | KLink _ => follow (p ++ [n])
                             end)
        end) 0 (entries t p)
  end.

Section store.
Context `{HashOrder} {ids : HostIds}.

(** What the host answers during a [snap_save]; a write that fails leaves no file or part of one. *)
Inductive write_out := Written | Unwritten | PartWritten.
Record save_io := { sv_mkdir : bool; sv_rootfs : bool; sv_fails : path → bool; sv_follow : path → Z; sv_write : write_out }.
Definition good_save : save_io :=
  {| sv_mkdir := true; sv_rootfs := true; sv_fails := λ _, false; sv_follow := λ _, 0; sv_write := Written |}.

Definition snap_save (io : save_io) (m : SnapshotMetadata) (source : option fs) (s : snap_store)
    : snap_store * result snap_error SnapshotMetadata :=
  let id := sm_id m in
  if bool_decide (is_Some (s !! id)) then (s, Err (SnapExists id)) else
  if negb (sv_mkdir io) then (s, Err SnapMkdir) else
  let finish t :=
    let m := with_size (snap_dir_size (tree_fuel t) (sv_follow io) t []) m in
    match sv_write io with
    | Written => (<[id := {| sd_rootfs := Some t; sd_meta := Meta m |}]> s, Ok m)
    | Unwritten => (<[id := {| sd_rootfs := Some t; sd_meta := NoFile |}]> s, Err SnapWrite)
    | PartWritten => (<[id := {| sd_rootfs := Some t; sd_meta := BadJson |}]> s, Err SnapWrite)
    end in
  match source with
  | Some t =>
      match copy_dir_recursive false (tree_fuel t) (sv_fails io) t [] ∅ with
      | (t', true) => finish t'
      | (t', false) => (<[id := {| sd_rootfs := Some t'; sd_meta := NoFile |}]> s, Err SnapCopy)
      end
  | None =>
      if sv_rootfs io then finish {[ [] := new_dir ]}
      else (<[id := {| sd_rootfs := None; sd_meta := NoFile |}]> s, Err SnapMkdir)
  end.

Definition snap_get (id : string) (s : snap_store) : result snap_error (option SnapshotMetadata) :=
  match s !! id with
  | None => Ok None
  | Some d =>
      match sd_meta d with
      | NoFile => Ok None
      | Unreadable => Err SnapRead
      | BadJson => Err SnapParse
      | Meta m => Ok (Some m)
      end
  end.

Definition meta_of (d : snap_dir) : option SnapshotMetadata := match sd_meta d with Meta m => Some m | _ => None end.
Definition snap_list (s : snap_store) : list SnapshotMetadata :=
  sort_by (λ a b, sm_created_at b <=? sm_created_at a) (omap (λ nd, meta_of nd.2) (hash_iter s)).

(** [delete] of one name; the whole store for the empty id, whose path is the base directory. *)
Definition snap_delete (removes : string → bool) (id : string) (s : snap_store) : snap_store * result snap_error bool :=
  if bool_decide (id = "") then
    if removes "" then (∅, Ok true) else (s, Err (SnapDelete id))
  else match s !! id with
       | None => (s, Ok false)
       | Some _ => if removes id then (delete id s, Ok true) else (s, Err (SnapDelete id))
       end.

Definition sizes (l : list SnapshotMetadata) : Z := wrap 64 (foldr (λ m n, sm_size_bytes m + n) 0 l).
Definition snap_count (s : snap_store) : nat := length (snap_list s).
Definition snap_total_size (s : snap_store) : Z := sizes (snap_list s).

(** The limits of [prune]; 0 is no limit. *)
Definition over (max_count : nat) (max_bytes : Z) (l : list SnapshotMetadata) : bool :=
  (0 <? max_count)%nat && (max_count <? length l)%nat || (0 <? max_bytes) && (max_bytes <? sizes l).

(** The loop of [prune]: the list from its end, the oldest snapshot. *)
Fixpoint snap_prune_loop (removes : string → bool) (max_count : nat) (max_bytes : Z) (oldest : list SnapshotMetadata)
    (removed : list string) (s : snap_store) : snap_store * result snap_error (list string) :=
  match oldest with
  | [] => (s, Ok removed)
  | m :: rest =>
      if over max_count max_bytes oldest then
        match snap_delete removes (sm_id m) s with
        | (s, Ok _) => snap_prune_loop removes max_count max_bytes rest (removed ++ [sm_id m]) s
        | (s, Err e) => (s, Err e)
        end
      else (s, Ok removed)
  end.
Definition snap_prune (removes : string → bool) (max_count : nat) (max_bytes : Z) (s : snap_store)
    : snap_store * result snap_error (list string) :=
  snap_prune_loop removes max_count max_bytes (rev (snap_list s)) [] s.
End store.

(** ** The commands *)

Inductive snap_cmd_error :=
| BoxNotFound (q : string) | BoxAmbiguous (q : string) (n : nat) | NoRootfs (box : string) | SnapStore (e : snap_error)
| SnapNotFound (q : string) | SnapAmbiguous (q : string) (n : nat) | RestoreMkdir | RestoreCopy | RestoreMarker | RestoreState (e : state_err).

(** [resolve_box]: the id comes first, then the name *)
Definition resolve_box (rs : records) (q : string) : result snap_cmd_error BoxRecord :=
  match find_by_id rs q with
  | Some r => Ok r
  | None =>
      match find_by_name rs q with
      | Some r => Ok r
      | None =>
          match find_by_id_prefix rs q with
          | [] => Err (BoxNotFound q)
          | [r] => Ok r
          | l => Err (BoxAmbiguous q (length l))
          end
      end
  end.

(** [resolve_box_rootfs]: [merged] when something is in it, else [rootfs] when it is there. *)
Definition resolve_box_rootfs (b : box_dir) : option root_dir :=
  if bd_merged b && populated (view_at MergedDir b) then Some MergedDir
  else if bool_decide (is_Some (bd_rootfs b)) then Some RootfsDir else None.

Definition box_snapshot (now : Z) (snap_id : string) (name description : option string) (r : BoxRecord) : SnapshotMetadata :=
  let m := snapshot_new now snap_id (default (b_name r +:+ "-snapshot") name) (b_id r) (b_image r) in
  {| sm_id := sm_id m; sm_name := sm_name m; sm_source_box_id := sm_source_box_id m; sm_image := sm_image m;
     sm_vcpus := b_cpus r; sm_memory_mb := b_memory_mb r; sm_volumes := b_volumes r; sm_env := b_env r;
     sm_cmd := b_cmd r; sm_entrypoint := b_entrypoint r; sm_workdir := b_workdir r; sm_port_map := b_port_map r;
     sm_labels := b_labels r; sm_network_mode := sm_network_mode m; sm_rootfs_cache_key := sm_rootfs_cache_key m;
     sm_size_bytes := sm_size_bytes m; sm_created_at := sm_created_at m;
     sm_description := default (sm_description m) description |}.

Section commands.
Context `{HashOrder} {ids : HostIds}.

Definition snap_id (nanos : Z) : string :=
  "snap-" +:+ (if nanos <? 0 then "-" +:+ show_uint (- nanos) else show_uint nanos).

(** [execute_create]; [nanos] is the clock that makes the id, [dirs] the directory of each box. *)
Definition execute_create (io : save_io) (now nanos : Z) (q : string) (name description : option string)
    (rs : records) (dirs : string → box_dir) (s : snap_store) : snap_store * result snap_cmd_error string :=
  match resolve_box rs q with
  | Err e => (s, Err e)
  | Ok r =>
      match resolve_box_rootfs (dirs (b_id r)) with
      | None => (s, Err (NoRootfs (b_name r)))
      | Some d =>
          let '(s, res) := snap_save io (box_snapshot now (snap_id nanos) name description r) (view_at d (dirs (b_id r))) s in
          (s, map_err SnapStore (sm_id <$> res))
      end
  end.

Definition resolve_snapshot (q : string) (s : snap_store) : result snap_cmd_error SnapshotMetadata :=
  found ← map_err SnapStore (snap_get q s);
  match found with
  | Some m => Ok m
  | None =>
      match List.filter (λ m, bool_decide (sm_name m = q)) (snap_list s) with
      | [] => Err (SnapNotFound q)
      | [m] => Ok m
      | l => Err (SnapAmbiguous q (length l))
      end
  end.

Definition restored_record (now : Z) (home box_id name : string) (m : SnapshotMetadata) : BoxRecord :=
  let box_dir := home +:+ "/boxes/" +:+ box_id in
  {| b_id := box_id; b_short_id := make_short_id box_id; b_name := name; b_image := sm_image m;
     b_status := "created"; b_pid := None; b_cpus := sm_vcpus m; b_memory_mb := sm_memory_mb m; b_volumes := sm_volumes m;
     b_env := sm_env m; b_cmd := sm_cmd m; b_entrypoint := sm_entrypoint m; b_box_dir := box_dir;
     b_exec_socket_path := box_dir +:+ "/sockets/exec.sock"; b_console_log := box_dir +:+ "/logs/console.log";
     b_created_at := now; b_started_at := None; b_auto_remove := false;
     b_hostname := None; b_user := None; b_workdir := sm_workdir m; b_restart_policy := "no";
     b_port_map := sm_port_map m; b_labels := sm_labels m; b_stopped_by_user := false; b_restart_count := 0;
     b_max_restart_count := 0; b_exit_code := None; b_health_check := None;
     b_healthcheck_disabled := false; b_health_status := "none"; b_health_retries := 0;
     b_health_last_check := None; b_network_mode := Tsi; b_network_name := None;
     b_volume_names := []; b_tmpfs := []; b_anonymous_volumes := [];
     b_resource_limits := limits_default;
     b_log_config := {| driver := JsonFile; log_options := ∅ |}; b_add_host := [];
     b_platform := None; b_init := false; b_read_only := false; b_cap_add := [];
     b_cap_drop := []; b_security_opt := []; b_privileged := false; b_devices := [];
     b_gpus := None; b_shm_size := None; b_stop_signal := None; b_stop_timeout := None;
     b_oom_kill_disable := false; b_oom_score_adj := None |}.

Definition set_marker (b : box_dir) : box_dir :=
  {| bd_rootfs := bd_rootfs b; bd_marker := true; bd_upper := bd_upper b; bd_work := bd_work b;
     bd_merged := bd_merged b; bd_mounts := bd_mounts b |}.

(** What the host answers during a restore *)
Record restore_io := { ro_mkdir : bool; ro_fails : path → bool; ro_marker : bool; ro_add : result state_err () }.

(** [execute_restore]: the new box's directory, and the records after [StateFile::add]. *)
Definition execute_restore (io : restore_io) (now : Z) (home box_id fresh_name q : string) (name : option string)
    (rs : records) (s : snap_store) : box_dir * records * result snap_cmd_error string :=
  match resolve_snapshot q s with
  | Err e => (blank_dir, rs, Err e)
  | Ok m =>
      if negb (ro_mkdir io) then (blank_dir, rs, Err RestoreMkdir) else
      let finish b :=
        match ro_add io with
        | Ok _ => (b, rs ++ [restored_record now home box_id (default fresh_name name) m], Ok box_id)
        | Err e => (b, rs, Err (RestoreState e))
        end in
      match s !! sm_id m ≫= sd_rootfs with
      | Some t =>
          match copy_dir_recursive false (tree_fuel t) (ro_fails io) t [] ∅ with
          | (t', true) =>
              let b := set_rootfs (Some t') blank_dir in
              if ro_marker io then finish (set_marker b) else (b, rs, Err RestoreMarker)
          | (t', false) => (set_rootfs (Some t') blank_dir, rs, Err RestoreCopy)
          end
      | None => finish blank_dir
      end
  end.

(** [execute_rm]: the ids that were there are printed *)
Fixpoint execute_rm (removes : string → bool) (ids : list string) (s : snap_store) : snap_store * result snap_cmd_error (list string) :=
  match ids with
  | [] => (s, Ok [])
  | id :: ids =>
      match snap_delete removes id s with
      | (s, Err e) => (s, Err (SnapStore e))
      | (s, Ok found) =>
          let '(s, r) := execute_rm removes ids s in
          (s, l ← r; Ok (if found then id :: l else l))
      end
  end.

Definition execute_inspect (id : string) (s : snap_store) : result snap_cmd_error SnapshotMetadata :=
  found ← map_err SnapStore (snap_get id s); ok_or (SnapNotFound id) found.
End commands.

(** ** What the store promises *)

(** Snapshots that are on record are under their own id and have a root. *)
Definition store_ok (s : snap_store) : Prop :=
  ∀ id d m, s !! id = Some d → sd_meta d = Meta m → sm_id m = id ∧ id ≠ "" ∧ is_Some (sd_rootfs d).

Section laws.
Context `{HO : HashOrder} {ids : HostIds}.

Lemma elem_of_snap_list (s : snap_store) (m : SnapshotMetadata) :
  m ∈ snap_list s ↔ ∃ id d, s !! id = Some d ∧ sd_meta d = Meta m.
Proof.
  unfold snap_list. rewrite sort_by_perm, list_elem_of_omap. split.
  - intros ([id d] & Hin%elem_of_hash_iter & Hm). exists id, d. split; [done|]. unfold meta_of in Hm. cbn in Hm.
    destruct (sd_meta d); by simplify_eq.
  - intros (id & d & Hd & Hm). exists (id, d). split; [by apply elem_of_hash_iter|]. unfold meta_of. cbn. by rewrite Hm.
Qed.

(** The list has the newest snapshot first. *)
Lemma snap_list_sorted (s : snap_store) : StronglySorted (λ a b, sm_created_at b ≤ sm_created_at a) (snap_list s).
Proof.
  assert (StronglySorted (λ a b, (sm_created_at b <=? sm_created_at a) = true) (snap_list s)) as Hs.
  { apply sort_by_sorted; [intros a b|intros a b c]; rewrite !Z.leb_le; lia. }
  induction Hs as [|a l _ IH Ha]; constructor; [done|]. eapply list.Forall_impl; [exact Ha|]. intros b. apply Z.leb_le.
Qed.

Lemma snap_list_ids (s : snap_store) : store_ok s → NoDup (sm_id <$> snap_list s).
Proof.
  intros Hs. unfold snap_list. rewrite sort_by_perm. pose proof (NoDup_hash_keys s) as Hnd. unfold hash_keys in Hnd.
  assert (∀ id d m, (id, d) ∈ hash_iter s → meta_of d = Some m → sm_id m = id) as Hid.
  { intros id d m Hin%elem_of_hash_iter Hm. unfold meta_of in Hm. destruct (sd_meta d) eqn:E; simplify_eq. by eapply Hs. }
  induction (hash_iter s) as [|[id d] l IH]; [constructor|]. cbn [fmap list_fmap fst] in Hnd. apply NoDup_cons in Hnd as [Hni Hnd].
  assert (NoDup (sm_id <$> omap (λ nd, meta_of nd.2) l)) as IH'.
  { apply IH; [done|]. intros id' d' m' Hin. apply Hid. by constructor. }
  cbn. destruct (meta_of d) as [m|] eqn:Em; [|done]. constructor; [|done].
  rewrite (Hid id d m) by (done || constructor). intros (m' & E & ([id' d'] & Hin & Hm)%list_elem_of_omap)%list_elem_of_fmap.
  apply Hni. apply list_elem_of_fmap. exists (id', d'). split; [|done]. cbn in *. rewrite E. eapply Hid; [by constructor|done].
Qed.

(** *** Saving *)

(** A save that succeeds stores a complete copy of the root and the metadata with its size, and
    touches nothing else; one that fails adds nothing to the list. *)
Theorem save_spec io m t (s s' : snap_store) r : tree t → snap_save io m (Some t) s = (s', r) →
  (∀ id, id ≠ sm_id m → s' !! id = s !! id) ∧
  match r with
  | Ok m' => s !! sm_id m = None ∧
      m' = with_size (snap_dir_size (tree_fuel (copy_tree false t)) (sv_follow io) (copy_tree false t) []) m ∧
      s' !! sm_id m = Some {| sd_rootfs := Some (copy_tree false t); sd_meta := Meta m' |} ∧
      snap_get (sm_id m) s' = Ok (Some m')
  | Err _ => ∀ m', m' ∈ snap_list s' ↔ m' ∈ snap_list s
  end.
Proof.
  intros Ht. unfold snap_save. case_bool_decide as Hex; [by intros [= <- <-]|].
  assert (s !! sm_id m = None) as Hnone by (by apply eq_None_not_Some).
  destruct (sv_mkdir io); cbn [negb]; [|by intros [= <- <-]].
  assert (∀ d, (∀ m', sd_meta d ≠ Meta m') → ∀ m', m' ∈ snap_list (<[sm_id m := d]> s) ↔ m' ∈ snap_list s) as Hinv.
  { intros d Hd m'. rewrite !elem_of_snap_list. split; intros (id & e & He & Hm).
    - apply lookup_insert_Some in He as [[<- <-]|[Hne He]]; [by destruct (Hd m')|eauto].
    - exists id, e. split; [|done]. rewrite lookup_insert_ne; [done|]. intros <-. congruence. }
  destruct (copy_dir_recursive _ _ _ _ _ _) as [t' [|]] eqn:Ec.
  - apply copy_whole_exact in Ec as ->; [|done]. destruct (sv_write io); intros [= <- <-].
    + split; [intros; by rewrite lookup_insert_ne|]. split; [done|]. split; [done|]. rewrite lookup_insert_eq. split; [done|].
      unfold snap_get. by rewrite lookup_insert_eq.
    + split; [intros; by rewrite lookup_insert_ne|]. by apply Hinv.
    + split; [intros; by rewrite lookup_insert_ne|]. by apply Hinv.
  - intros [= <- <-]. split; [intros; by rewrite lookup_insert_ne|]. by apply Hinv.
Qed.

(** Every operation keeps the store in order. *)
Lemma save_keeps io m source s : sm_id m ≠ "" → store_ok s → store_ok (snap_save io m source s).1.
Proof.
  intros Hid Hs. unfold snap_save. case_bool_decide; [done|]. destruct (sv_mkdir io); [|done]. cbn [negb].
  assert (∀ d, (∀ m', sd_meta d = Meta m' → sm_id m' = sm_id m ∧ is_Some (sd_rootfs d)) → store_ok (<[sm_id m := d]> s)) as Hins.
  { intros d Hd id e m' He Hm. apply lookup_insert_Some in He as [[<- <-]|[_ He]]; [|by eapply Hs]. destruct (Hd m' Hm). done. }
  destruct source as [t|]; [destruct (copy_dir_recursive _ _ _ _ _ _) as [t' [|]]|destruct (sv_rootfs io)];
    try destruct (sv_write io); apply Hins; cbn; intros m'; try done; intros [= <-]; cbn; eauto.
Qed.
Lemma delete_keeps removes id s : store_ok s → store_ok (snap_delete removes id s).1.
Proof.
  intros Hs. unfold snap_delete. case_bool_decide; [destruct (removes ""); [|done]; cbn; intros i d m Hd; by rewrite lookup_empty in Hd|].
  destruct (s !! id); [|done]. destruct (removes id); [|done]. cbn. intros i d m [_ Hd]%lookup_delete_Some. by apply Hs.
Qed.

(** *** Pruning *)

Definition forget_snap (s : snap_store) (m : SnapshotMetadata) : snap_store := delete (sm_id m) s.

Fixpoint prune_count (max_count : nat) (max_bytes : Z) (oldest : list SnapshotMetadata) : nat :=
  match oldest with
  | [] => O
  | _ :: rest => if over max_count max_bytes oldest then S (prune_count max_count max_bytes rest) else O
  end.

Lemma prune_count_spec mc mb l : (prune_count mc mb l ≤ length l)%nat ∧ over mc mb (drop (prune_count mc mb l) l) = false ∧
  ∀ j, (j < prune_count mc mb l)%nat → over mc mb (drop j l) = true.
Proof.
  assert (over mc mb [] = false) as H0.
  { unfold over. change (sizes []) with 0. cbn [length]. rewrite (proj2 (Nat.ltb_ge mc 0)) by lia. rewrite andb_false_r.
    destruct (Z.ltb_spec 0 mb); [|done]. by rewrite (proj2 (Z.ltb_ge mb 0)) by lia. }
  induction l as [|m l (IH1 & IH2 & IH3)]; cbn [prune_count length]; [split; [lia|]; split; [done|lia]|].
  destruct (over mc mb (m :: l)) eqn:E; [|split; [lia|]; split; [done|lia]].
  split; [lia|]. split; [done|]. intros [|j] Hj; [done|]. apply IH3. lia.
Qed.

Lemma snap_delete_all id s : id ≠ "" → ∃ b, snap_delete (λ _, true) id s = (delete id s, Ok b).
Proof.
  intros Hid. unfold snap_delete. rewrite bool_decide_false by done. destruct (s !! id) eqn:E; [by exists true|].
  exists false. by rewrite delete_id.
Qed.

Lemma prune_loop_run mc mb l removed s : Forall (λ m, sm_id m ≠ "") l →
  snap_prune_loop (λ _, true) mc mb l removed s =
    (foldl forget_snap s (take (prune_count mc mb l) l), Ok (removed ++ map sm_id (take (prune_count mc mb l) l))).
Proof.
  intros Hl. revert removed s. induction Hl as [|m l Hm Hl IH]; intros removed s; [cbn; by rewrite app_nil_r|].
  cbn [snap_prune_loop prune_count]. destruct (over mc mb (m :: l)); [|cbn; by rewrite app_nil_r].
  destruct (snap_delete_all (sm_id m) s Hm) as [b ->]. rewrite IH. cbn [take foldl map]. by rewrite <-app_assoc.
Qed.

Lemma forget_lookup l (s : snap_store) id : foldl forget_snap s l !! id = if bool_decide (id ∈ map sm_id l) then None else s !! id.
Proof.
  revert s. induction l as [|m l IH]; intros s; [done|]. cbn [foldl map]. rewrite IH. unfold forget_snap.
  destruct (decide (id = sm_id m)) as [->|Hne].
  - rewrite (bool_decide_true (sm_id m ∈ sm_id m :: _)) by constructor. rewrite lookup_delete_eq. by case_bool_decide.
  - rewrite lookup_delete_ne by done. do 2 case_bool_decide; set_solver.
Qed.

(** Pruning removes no more than needed, oldest first: with removals that succeed, what is left
    is within both limits, what was removed is the shortest run of oldest snapshots that
    achieves this, and everything else in the store, also what is not on record, is as it was. *)
Theorem snap_prune_exact mc mb s : store_ok s →
  let oldest := rev (snap_list s) in
  ∃ s' n, snap_prune (λ _, true) mc mb s = (s', Ok (map sm_id (take n oldest))) ∧
    over mc mb (drop n oldest) = false ∧ (∀ j, (j < n)%nat → over mc mb (drop j oldest) = true) ∧
    (∀ a b, a ∈ take n oldest → b ∈ drop n oldest → sm_created_at a ≤ sm_created_at b) ∧
    (∀ m, m ∈ snap_list s' ↔ m ∈ drop n oldest) ∧
    (∀ id, s' !! id = if bool_decide (id ∈ map sm_id (take n oldest)) then None else s !! id).
Proof.
  intros Hs oldest. destruct (prune_count_spec mc mb oldest) as (Hle & Hin & Hout). set (n := prune_count mc mb oldest) in *.
  assert (∀ m, m ∈ oldest ↔ m ∈ snap_list s) as Hel by (intros m; unfold oldest; by rewrite list_elem_of_In, <-in_rev, <-list_elem_of_In).
  exists (foldl forget_snap s (take n oldest)), n. split_and!.
  - unfold snap_prune. rewrite (prune_loop_run mc mb oldest []); [done|]. apply list.Forall_forall. intros m (id & d & Hd & Hm)%Hel%elem_of_snap_list.
    destruct (Hs id d m Hd Hm) as (<- & Hne & _). done.
  - done.
  - done.
  - intros a b Ha Hb. pose proof (snap_list_sorted s) as Hsort.
    assert (snap_list s = rev (drop n oldest) ++ rev (take n oldest)) as E by (rewrite <-rev_app_distr, take_drop; unfold oldest; by rewrite rev_involutive).
    rewrite E in Hsort. apply StronglySorted_app_1_elem_of with (x1 := b) (x2 := a) in Hsort; [done| |]; by rewrite list_elem_of_In, <-in_rev, <-list_elem_of_In.
  - assert (NoDup (map sm_id oldest)) as Hnd.
    { unfold oldest. rewrite map_rev, <-Permutation_rev. by apply snap_list_ids. }
    rewrite <-(take_drop n oldest), map_app in Hnd. apply NoDup_app in Hnd as (_ & Hdis & _).
    intros m. rewrite elem_of_snap_list. setoid_rewrite forget_lookup. split.
    + intros (id & d & Hd & Hm). case_bool_decide as Hni; [done|]. destruct (Hs id d m Hd Hm) as (<- & _).
      assert (m ∈ oldest) as Ho by (apply Hel, elem_of_snap_list; eauto). rewrite <-(take_drop n oldest) in Ho. apply elem_of_app in Ho as [Ho|]; [|done].
      destruct Hni. by apply list_elem_of_fmap_2.
    + intros Hm. assert (m ∈ oldest) as Ho by (rewrite <-(take_drop n oldest); apply elem_of_app; by right).
      apply Hel, elem_of_snap_list in Ho as (id & d & Hd & Hmd). exists id, d. destruct (Hs id d m Hd Hmd) as (<- & _). split; [|done].
      rewrite bool_decide_false; [done|]. intros Hni. apply (Hdis _ Hni). by apply list_elem_of_fmap_2.
  - intros id. apply forget_lookup.
Qed.
End laws.

(** ** From a box to its snapshot to a new box *)

Section roundtrip.
Context `{HO : HashOrder} {ids : HostIds}.

Lemma create_saves io now nanos q name desc rs dirs (s s1 : snap_store) id r d t :
  resolve_box rs q = Ok r → resolve_box_rootfs (dirs (b_id r)) = Some d → view_at d (dirs (b_id r)) = Some t → tree t →
  execute_create io now nanos q name desc rs dirs s = (s1, Ok id) →
  ∃ m, s1 !! id = Some {| sd_rootfs := Some (copy_tree false t); sd_meta := Meta m |} ∧ sm_id m = id ∧
    ∃ size, m = with_size size (box_snapshot now (snap_id nanos) name desc r).
Proof.
  intros Hr Hd Hv Ht. unfold execute_create. rewrite Hr, Hd, Hv.
  destruct (snap_save _ _ _ _) as [s' res] eqn:Es. apply save_spec in Es as [_ Es]; [|done].
  destruct res as [m|e]; cbn; [|done]. destruct Es as (_ & Hm & Hs & _). intros [= <- <-].
  exists m. rewrite Hm in *. cbn [with_size sm_id] in *. split; [done|]. split; [done|]. by eexists.
Qed.

(** What a restored box has of the one that was saved. *)
Definition same_box (r r' : BoxRecord) : Prop :=
  b_image r' = b_image r ∧ b_cpus r' = b_cpus r ∧ b_memory_mb r' = b_memory_mb r ∧ b_volumes r' = b_volumes r ∧
  b_env r' = b_env r ∧ b_cmd r' = b_cmd r ∧ b_entrypoint r' = b_entrypoint r ∧ b_workdir r' = b_workdir r ∧
  b_port_map r' = b_port_map r ∧ b_labels r' = b_labels r ∧ b_status r' = "created".

(** The root a box runs on: its copy of the image, or what its mounted overlay shows.  (A box of the
    overlay provider that is stopped has nothing mounted, and is in neither case.) *)
Inductive box_root (b : box_dir) : fs → Prop :=
  | CopiedRoot t : bd_merged b = false → bd_rootfs b = Some t → box_root b t
  | MountedRoot lower rest : bd_merged b = true → bd_mounts b = lower :: rest →
      populated (Some (overlay_view lower (default ∅ (bd_upper b)))) = true → box_root b (overlay_view lower (default ∅ (bd_upper b))).

Lemma box_root_resolved b t : box_root b t → ∃ d, resolve_box_rootfs b = Some d ∧ view_at d b = Some t.
Proof.
  intros [t' Hm Hr|lower rest Hm Hl Hp]; unfold resolve_box_rootfs, view_at; rewrite Hm; cbn [andb].
  - exists RootfsDir. rewrite Hr. by rewrite bool_decide_true by eauto.
  - exists MergedDir. rewrite Hl, Hp. done.
Qed.

(** C30: A box restored from a snapshot is the box that was saved.  The source's root is its
    copied [rootfs] directory, or, for a running box of the overlay provider, what its mounted
    overlay shows (a stopped box of that provider is not covered); creating and restoring
    succeeded, and meanwhile, whatever happened to the store and the boxes, the snapshot itself was
    left alone.  Then the restored box has a complete copy of the root the source had when the
    snapshot was taken, marked as its own, and a record, under the new id and name, created and
    not running, with the image, resources, volumes, environment, command, entry point, working
    directory, ports and labels of the source; other settings, such as its confinement and
    network, are not kept. *)
Theorem snapshot_restores io rio now now' nanos q name name' desc rs rs' rs2 dirs (s s1 s2 : snap_store) id r t home box_id fresh b out :
  resolve_box rs q = Ok r → box_root (dirs (b_id r)) t → tree t →
  execute_create io now nanos q name desc rs dirs s = (s1, Ok id) →
  s2 !! id = s1 !! id →
  execute_restore rio now' home box_id fresh id name' rs' s2 = (b, rs2, Ok out) →
  b = set_marker (set_rootfs (Some (copy_tree false t)) blank_dir) ∧
  ∃ r', rs2 = rs' ++ [r'] ∧ b_id r' = box_id ∧ b_name r' = default fresh name' ∧ same_box r r'.
Proof.
  intros Hr (d & Hd & Hv)%box_root_resolved Ht Hc Hs2 Hre.
  destruct (create_saves _ _ _ _ _ _ _ _ _ _ _ _ _ _ Hr Hd Hv Ht Hc) as (m & Hm & Hid & size & Em).
  rewrite <-Hs2 in Hm. unfold execute_restore, resolve_snapshot, snap_get in Hre. rewrite Hm in Hre. cbn [sd_meta map_err mbind result_bind] in Hre.
  rewrite Hid, Hm in Hre. cbn [mbind option_bind sd_rootfs] in Hre. destruct (ro_mkdir rio); cbn [negb] in Hre; [|done].
  destruct (copy_dir_recursive _ _ _ _ _ _) as [t' [|]] eqn:Ec; [|done].
  apply copy_whole_exact in Ec as ->; [|by apply tree_copy]. rewrite copy_tree_twice in Hre.
  destruct (ro_marker rio); [|done]. destruct (ro_add rio); [|done]. injection Hre as <- <- <-.
  split; [done|]. eexists. split; [done|]. subst m. by split_and!.
Qed.

(** The restored box boots from that root, whatever is in the caches and registries. *)
Theorem restored_box_boots `{Unpack} (sha256_hex : string → string) (dsize : fs → option Z) (P : RootfsProvider) (host : fs) (box : path) (config : BoxConfig)
    (lo : layout_io) (b b' : box_dir) (c c' : DirCache.cache fs) (out : layout_out) (t : fs) :
  b = set_marker (set_rootfs (Some t) blank_dir) → populated (Some t) = true → lo_init lo = None →
  prepare_layout sha256_hex dsize P host box config lo b c = (b', c', Ok out) →
  view_at (lay_root out) b' = Some t.
Proof.
  intros -> Hp Hi Hl. apply restored_root_kept in Hl as (Hd & _ & _ & Hb); [|done|done]. by rewrite Hd, (Hb Hi).
Qed.
End roundtrip.

(** ** Witness and defects *)

Definition demo_tree : fs := {[ [] := new_dir; ["data"] := file_of "precious" ]}.
Definition running_box : box_dir := set_rootfs (Some demo_tree) blank_dir.
Definition demo_rs : records := [demo_record "b-1" "web" "running" (Some 1) "always"].
Definition create_demo := @execute_create as_root good_save 7 42 "web" None None demo_rs (λ _, running_box) ∅.
Definition good_restore : restore_io := {| ro_mkdir := true; ro_fails := λ _, false; ro_marker := true; ro_add := Ok () |}.
Definition restore_demo (s : snap_store) :=
  @execute_restore list_order as_root good_restore 8 "/h" "b-2" "calm" "snap-42" None demo_rs s.

Lemma create_demo_ok : create_demo.2 = Ok "snap-42".
Proof. vm_compute. reflexivity. Qed.
Lemma restore_demo_ok : (restore_demo create_demo.1).2 = Ok "b-2".
Proof. vm_compute. reflexivity. Qed.

Lemma snapshot_restores_witness : ∃ r', (restore_demo create_demo.1).1.2 = demo_rs ++ [r'] ∧ b_name r' = "calm" ∧
  same_box (demo_record "b-1" "web" "running" (Some 1) "always") r'.
Proof.
  destruct (@snapshot_restores list_order as_root good_save good_restore 7 8 42 "web" None None None demo_rs demo_rs
    (restore_demo create_demo.1).1.2 (λ _, running_box) ∅ create_demo.1 create_demo.1 "snap-42"
    (demo_record "b-1" "web" "running" (Some 1) "always") demo_tree "/h" "b-2" "calm" (restore_demo create_demo.1).1.1 "b-2")
    as (_ & r' & H1 & H2 & H3 & H4).
  - reflexivity.
  - by constructor.
  - apply tree_check. vm_compute. reflexivity.
  - rewrite <-create_demo_ok. apply surjective_pairing.
  - reflexivity.
  - exact (triple_eta _ _ restore_demo_ok).
  - exists r'. by split_and!.
Defined.

(** The security options of a box are not in its snapshot: a box that was confined is restored
    without its limits. *)
Lemma restore_drops_confinement now home box_id name m : let r := restored_record now home box_id name m in
  b_read_only r = false ∧ b_cap_drop r = [] ∧ b_security_opt r = [] ∧ b_user r = None ∧ b_resource_limits r = limits_default ∧
  b_network_mode r = Tsi ∧ b_network_name r = None ∧ b_volume_names r = [] ∧ b_restart_policy r = "no" ∧ b_health_check r = None.
Proof. by split_and!. Qed.

(** The name of a restored box is not checked: two boxes can have the same. *)
Lemma restore_duplicates_name : let '(_, rs, _) := @execute_restore list_order as_root good_restore 8 "/h" "b-2" "calm" "snap-42" (Some "web") demo_rs create_demo.1 in
  map b_name rs = ["web"; "web"].
Proof. vm_compute. reflexivity. Qed.

(** A failed save leaves its directory: it is in no list and counts in no limit. *)
Lemma failed_save_stays : let io := {| sv_mkdir := true; sv_rootfs := true; sv_fails := λ p, bool_decide (p = ["data"]); sv_follow := λ _, 0; sv_write := Written |} in
  let s := (@snap_save as_root io (snapshot_new 1 "s" "n" "b" "i") (Some demo_tree) ∅).1 in
  bool_decide (is_Some (s !! "s")) = true ∧ @snap_list list_order s = [] ∧
  is_ok (@snap_save as_root good_save (snapshot_new 1 "s" "n" "b" "i") (Some demo_tree) s).2 = false.
Proof. vm_compute. done. Qed.

(** The empty id is the directory of all snapshots: removing it removes them all. *)
Lemma empty_id_removes_all (s : snap_store) : (execute_rm (λ _, true) [""] s).1 = ∅.
Proof. done. Qed.

(** A stopped box on an overlay has nothing in [merged]; when an older [rootfs] is left in its
    directory the snapshot is of that. *)
Lemma stopped_overlay_is_stale lower u :
  let b := {| bd_rootfs := Some demo_tree; bd_marker := false; bd_upper := Some u; bd_work := true; bd_merged := true; bd_mounts := [lower] |} in
  resolve_box_rootfs (@cleanup OverlayProvider good_provider_io true b).1 = Some RootfsDir.
Proof. vm_compute. reflexivity. Qed.

(** The size follows links: a link of the image to a directory of the host adds what is there. *)
Lemma size_follows_links : let t : fs := {[ [] := new_dir; ["l"] := link_to "/" ]} in
  snap_dir_size (tree_fuel t) (λ _, 1000000) t [] = 1000000.
Proof. vm_compute. reflexivity. Qed.
