(* ===== verification/Sdk.v ===== *)
(** * Sdk: workloads and execution adapters

    Workload envelopes ([core/src/workload.rs]), the registry that runs them through host
    adapters or a machine executor and checks capabilities ([sdk/src/registry.rs]), and the HTTP
    adapter ([sdk/src/adapter.rs]).  The HTTP client and the HTML parser are arguments. *)

From Stdlib Require Import ZArith Lia.
From stdpp Require Import base gmap strings list numbers fin_maps sets.
From S2P Require Import Prelude RustStr Text.

Local Open Scope string_scope.
Local Open Scope list_scope.
Local Open Scope Z_scope.

(** ** JSON values *)

Inductive json := JNull | JBool (b : bool) | JNum (n : Z) | JStr (s : string) | JArr (l : list json) | JObj (l : list (string * json)).

(** [Value::get] with a key, [Value::as_str], [Value::as_u64] *)
Definition json_get (key : string) (v : json) : option json :=
  match v with JObj l => snd <$> List.find (λ kv, bool_decide (kv.1 = key)) l | _ => None end.
Definition as_str (v : json) : option string := match v with JStr s => Some s | _ => None end.
Definition as_u64 (v : json) : option Z := match v with JNum n => if (0 <=? n) && (n <? 2 ^ 64) then Some n else None | _ => None end.
(** [serde_json::from_value] into a map of strings *)
Definition as_string_map (v : json) : option (gmap string string) :=
  match v with
  | JObj l => list_to_map <$> mapM (λ kv, (λ s, (kv.1, s)) <$> as_str kv.2) (rev l)
  | _ => None
  end.

(** ** Envelopes *)

Inductive ExecutionLaunchMode := MicroVM | HostAdapterCompat | Hybrid.
Inductive RuntimeClass := A3sBox.
Inductive WorkloadKind := AgentInvocation | ExecutionTask.

Record BoxRuntimeSpec := { rt_runtime : string; rt_entrypoint : string; rt_args : list string; rt_env : gmap string string }.

Definition for_agent_invocation (agent version : string) : BoxRuntimeSpec :=
  {| rt_runtime := "a3s/agent-runner"; rt_entrypoint := "a3s-code";
     rt_args := ["run"; "--package"; "registry://" +:+ agent +:+ "@" +:+ version]; rt_env := ∅ |}.
Definition for_execution_adapter (executor handler : string) : BoxRuntimeSpec :=
  {| rt_runtime := "a3s/executor/" +:+ executor; rt_entrypoint := "a3s-executor";
     rt_args := ["--executor"; executor; "--handler"; handler]; rt_env := ∅ |}.

Record BoxWorkloadEnvelope := {
  wl_runtime_class : RuntimeClass; wl_kind : WorkloadKind; wl_runtime : BoxRuntimeSpec; wl_input : json;
  wl_labels : gmap string string }.

Inductive sdk_error :=
| EmptyRuntime | EmptyEntrypoint | UnknownRuntime (runtime : string) | NoAdapter (executor : string) | UnknownAdapter (name : string)
| AdapterFailed (message : string) | VmFailed (message : string) | VmNotConfigured | RiskExceeded | NotGranted.

Definition validate (e : BoxWorkloadEnvelope) : result sdk_error () :=
  if is_empty (trim (rt_runtime (wl_runtime e))) then Err EmptyRuntime
  else if is_empty (trim (rt_entrypoint (wl_runtime e))) then Err EmptyEntrypoint
  else Ok ().

(** ** Capabilities *)

Inductive CapabilityAccess := Read | Write | Execute.
Inductive CapabilityRisk := Low | Medium | High.
Definition risk_rank (r : CapabilityRisk) : nat := match r with Low => 0 | Medium => 1 | High => 2 end.
Definition risk_gt (a b : CapabilityRisk) : bool := (risk_rank b <? risk_rank a)%nat.

Inductive ExecutionCapability :=
| Net (protocol operation scope : string)
| Filesystem (scope : string) (access : CapabilityAccess)
| Tool (name : string) (access : CapabilityAccess) (scope : string).

Record ExecutionCapabilityGrant := { cg_capability : ExecutionCapability; cg_risk : CapabilityRisk }.

Inductive CapabilityMatchMode := MatchNone | AllRequired.
Record ExecutionPolicy := {
  ep_match_mode : CapabilityMatchMode; ep_max_risk : option CapabilityRisk; ep_allow_risk : bool;
  ep_scopes : list string; ep_allow_scope : bool }.
Definition default_execution_policy : ExecutionPolicy :=
  {| ep_match_mode := AllRequired; ep_max_risk := None; ep_allow_risk := false; ep_scopes := []; ep_allow_scope := false |}.

Definition capability_matches (granted required : ExecutionCapability) : bool :=
  match granted, required with
  | Net gp _ _, Net rp _ _ => bool_decide (gp = rp)
  | Filesystem gs _, Filesystem rs _ => bool_decide (gs = rs) || bool_decide (gs = "*")
  | Tool gn _ _, Tool rn _ _ => bool_decide (gn = rn)
  | _, _ => false
  end.

(** The trait [ExecutionAdapter]: what it grants, and what running a handler on an input gives in
    the time allowed. *)
Record ExecutionAdapter := {
  ad_capabilities : list ExecutionCapabilityGrant;
  ad_execute : string → json → Z → result string json }.

(** ** The registry *)

Record VmPoolStats := { vp_idle : Z; vp_active : Z; vp_max_total : Z; vp_available : Z }.
Record VmExecutor := { vx_execute : BoxWorkloadEnvelope → Z → result string json; vx_stats : VmPoolStats }.

Record ExecutionRegistry := {
  er_adapters : gmap string ExecutionAdapter; er_launch_mode : ExecutionLaunchMode; er_vm : option VmExecutor }.

Definition register_adapter (name : string) (a : ExecutionAdapter) (r : ExecutionRegistry) : ExecutionRegistry :=
  {| er_adapters := <[name := a]> (er_adapters r); er_launch_mode := er_launch_mode r; er_vm := er_vm r |}.
Definition with_vm_executor (x : VmExecutor) (r : ExecutionRegistry) : ExecutionRegistry :=
  {| er_adapters := er_adapters r; er_launch_mode := er_launch_mode r; er_vm := Some x |}.

Definition with_defaults (http : ExecutionAdapter) : ExecutionRegistry :=
  register_adapter "http" http {| er_adapters := ∅; er_launch_mode := HostAdapterCompat; er_vm := None |}.

Fixpoint enable_adapters (http : ExecutionAdapter) (names : list string) (r : ExecutionRegistry) : result sdk_error ExecutionRegistry :=
  match names with
  | [] => Ok r
  | n :: names =>
      if bool_decide (n = "http") then enable_adapters http names (register_adapter n http r)
      else if bool_decide (n = "vm") || bool_decide (n = "microvm") then enable_adapters http names r
      else Err (UnknownAdapter n)
  end.
Definition from_enabled_with_launch_mode (http : ExecutionAdapter) (names : list string) (mode : ExecutionLaunchMode)
    : result sdk_error ExecutionRegistry :=
  enable_adapters http names {| er_adapters := ∅; er_launch_mode := mode; er_vm := None |}.

Definition all_capabilities `{HashOrder} (r : ExecutionRegistry) : list ExecutionCapabilityGrant :=
  concat (map (λ kv, ad_capabilities kv.2) (hash_iter (er_adapters r))).

(** [extract_handler_from_args] *)
Fixpoint extract_handler_from_args (args : list string) : option string :=
  match args with
  | [] => None
  | arg :: rest =>
      if bool_decide (arg = "--handler") then match rest with h :: _ => Some h | [] => None end
      else extract_handler_from_args rest
  end.

(** [trim_start_matches] with a string: the prefix is taken off as often as it is there. *)
Fixpoint trim_prefixes (fuel : nat) (p s : string) : string :=
  match fuel with
  | O => s
  | S fuel => match strip_prefix p s with Some r => trim_prefixes fuel p r | None => s end
  end.

Definition executor_of (runtime : string) : result sdk_error string :=
  if starts_with "a3s/executor/" runtime then Ok (trim_prefixes (String.length runtime) "a3s/executor/" runtime)
  else if starts_with "a3s/agent-runner" runtime then Ok "agent"
  else Err (UnknownRuntime runtime).

Definition execute_via_adapter (r : ExecutionRegistry) (e : BoxWorkloadEnvelope) (timeout : Z) : result sdk_error json :=
  executor ← executor_of (rt_runtime (wl_runtime e));
  adapter ← ok_or (NoAdapter executor) (er_adapters r !! executor);
  map_err AdapterFailed
    (ad_execute adapter (default executor (extract_handler_from_args (rt_args (wl_runtime e)))) (wl_input e) timeout).

Definition execute_in_vm (r : ExecutionRegistry) (e : BoxWorkloadEnvelope) (timeout : Z) : result sdk_error json :=
  match er_vm r with Some x => map_err VmFailed (vx_execute x e timeout) | None => Err VmNotConfigured end.

Definition execute_box_workload (r : ExecutionRegistry) (e : BoxWorkloadEnvelope) (timeout : Z) : result sdk_error json :=
  _ ← validate e;
  match er_vm r, wl_runtime_class e with
  | Some _, A3sBox => execute_in_vm r e timeout
  | None, _ => execute_via_adapter r e timeout
  end.

Fixpoint check_required (p : ExecutionPolicy) (grants : list ExecutionCapabilityGrant) (required : list ExecutionCapability)
    : result sdk_error () :=
  match required with
  | [] => Ok ()
  | c :: required =>
      match List.find (λ g, capability_matches (cg_capability g) c) grants with
      | Some g =>
          match ep_max_risk p with
          | Some max_risk =>
              if risk_gt (cg_risk g) max_risk && negb (ep_allow_risk p) then Err RiskExceeded else check_required p grants required
          | None => check_required p grants required
          end
      | None => if negb (ep_allow_scope p) then Err NotGranted else check_required p grants required
      end
  end.
Definition validate_capabilities (r : ExecutionRegistry) (executor : string) (required : list ExecutionCapability)
    (p : ExecutionPolicy) : result sdk_error () :=
  adapter ← ok_or (NoAdapter executor) (er_adapters r !! executor);
  check_required p (ad_capabilities adapter) required.

Record BoxRuntimePoolSnapshot := {
  ps_mode : ExecutionLaunchMode; ps_idle : Z; ps_active : Z; ps_total : Z; ps_max_total : Z; ps_available : Z;
  ps_occupancy : Z * Z; ps_pressure : bool }.
(** [box_runtime_pool_snapshot]; a ratio is a numerator and a denominator. *)
Definition box_runtime_pool_snapshot (r : ExecutionRegistry) : BoxRuntimePoolSnapshot :=
  match er_vm r with
  | Some x =>
      let s := vx_stats x in
      {| ps_mode := er_launch_mode r; ps_idle := vp_idle s; ps_active := vp_active s; ps_total := vp_max_total s;
         ps_max_total := vp_max_total s; ps_available := vp_available s;
         ps_occupancy := if 0 <? vp_max_total s then (vp_active s, vp_max_total s) else (0, 1);
         ps_pressure := (vp_available s =? 0) && (vp_max_total s <=? vp_active s) |}
  | None =>
      {| ps_mode := er_launch_mode r; ps_idle := 0; ps_active := 0; ps_total := 0; ps_max_total := 0; ps_available := 0;
         ps_occupancy := (0, 1); ps_pressure := false |}
  end.

(** ** The HTTP adapter *)

Definition http_capabilities : list ExecutionCapabilityGrant :=
  [{| cg_capability := Net "http" "fetch" "public"; cg_risk := Low |};
   {| cg_capability := Net "http" "post" "public"; cg_risk := Medium |};
   {| cg_capability := Net "http" "extract" "public"; cg_risk := Medium |}].

(** What the client gives for a request: its construction, the exchange and the body can fail; the
    headers are those whose values are text. *)
Inductive http_answer := ClientFailed | RequestFailed (m : string) | BodyFailed (m : string)
| Response (status : Z) (headers : list (string * string)) (body : string).
Inductive http_method := Get | Post (body : string).

(** What the page gives: the text of the first element of a selector, its HTML, the content of a
    [meta] tag by name or property, the targets of the links. *)
Record html_page := {
  hp_text : string → option string; hp_html : string → option string; hp_meta_name : string → option string;
  hp_meta_property : string → option string; hp_links : list string }.

Section http.
Context (client : http_method → string → gmap string string → Z → http_answer).
Context (parse_document : string → html_page) (fragment_text : string → string).

Definition headers_of (input : json) : result string (gmap string string) :=
  match json_get "headers" input with
  | None => Ok ∅
  | Some v => match as_string_map v with Some m => Ok m | None => Err "invalid http headers" end
  end.
Definition url_of (what : string) (input : json) : result string string :=
  ok_or ("http " +:+ what +:+ " requires string field `url`") (json_get "url" input ≫= as_str).

Definition answer_json (a : http_answer) : result string json :=
  match a with
  | ClientFailed => Err "failed to build http client"
  | RequestFailed m => Err ("request failed: " +:+ m)
  | BodyFailed m => Err ("failed to read body: " +:+ m)
  | Response status headers body =>
      Ok (JObj [("status", JNum status);
                ("headers", JObj (map (λ kv, (kv.1, JStr kv.2)) (map_to_list (list_to_map (rev headers) : gmap string string))));
                ("body", JStr body)])
  end.

Definition http_get (input : json) (timeout : Z) : result string json :=
  url ← url_of "get" input;
  headers ← headers_of input;
  answer_json (client Get url headers timeout).
Definition http_post (input : json) (timeout : Z) : result string json :=
  url ← url_of "post" input;
  body ← ok_or "http post requires string field `body`" (json_get "body" input ≫= as_str);
  headers ← headers_of input;
  answer_json (client (Post body) url headers timeout).

(** [normalize_text]: single spaces *)
Definition normalize_text (s : string) : string := join " " (split_whitespace s).
Definition non_empty (s : string) : option string := if is_empty s then None else Some s.

Record ExtractedContent := {
  xc_title : option string; xc_description : option string; xc_text : string; xc_html : option string; xc_links : list string }.

Definition extract_text_fragment (s : string) : string := normalize_text (fragment_text s).
Definition collect_links (p : html_page) : list string :=
  take 100 (List.filter (λ s, negb (is_empty s)) (map normalize_text (hp_links p))).
Definition orelse {A} (a b : option A) : option A := match a with Some x => Some x | None => b end.
Definition extract_html_content (html : string) : ExtractedContent :=
  let p := parse_document html in
  let content := orelse (hp_html p "article") (hp_html p "main") in
  {| xc_title := (normalize_text <$> hp_text p "title") ≫= non_empty;
     xc_description := orelse ((normalize_text <$> hp_meta_name p "description") ≫= non_empty)
                              ((normalize_text <$> hp_meta_property p "og:description") ≫= non_empty);
     xc_text := default (extract_text_fragment html) ((extract_text_fragment <$> content) ≫= non_empty);
     xc_html := content;
     xc_links := collect_links p |}.

Definition opt_json (o : option string) : json := match o with Some s => JStr s | None => JNull end.
Definition web_extract (input : json) (timeout : Z) : result string json :=
  url ← ok_or "web extract requires string field `url`" (json_get "url" input ≫= as_str);
  headers ← headers_of input;
  response ← http_get (JObj [("url", JStr url); ("headers", JObj (map (λ kv, (kv.1, JStr kv.2)) (map_to_list headers)))]) timeout;
  body ← ok_or "missing body in fetched response" (json_get "body" response ≫= as_str);
  let x := extract_html_content body in
  Ok (JObj [("status", JNum (default 0 (json_get "status" response ≫= as_u64))); ("url", JStr url);
            ("title", opt_json (xc_title x)); ("description", opt_json (xc_description x)); ("content_text", JStr (xc_text x));
            ("content_html", opt_json (xc_html x)); ("links", JArr (map JStr (xc_links x)))]).

Definition execute_http (handler : string) (input : json) (timeout : Z) : result string json :=
  if bool_decide (handler = "get") then http_get input timeout
  else if bool_decide (handler = "post") then http_post input timeout
  else if bool_decide (handler = "extract") then web_extract input timeout
  else Err ("unsupported http handler: " +:+ handler).

Definition HttpExecutionAdapter : ExecutionAdapter :=
  {| ad_capabilities := http_capabilities; ad_execute := execute_http |}.
End http.

(** ** What capability checks decide *)

(** A required capability passes when the first grant that matches it is within the allowed
    risk, or when none matches and missing grants are allowed. *)
Definition passes (p : ExecutionPolicy) (grants : list ExecutionCapabilityGrant) (c : ExecutionCapability) : Prop :=
  match List.find (λ g, capability_matches (cg_capability g) c) grants with
  | Some g => ep_allow_risk p = true ∨ ∀ m, ep_max_risk p = Some m → (risk_rank (cg_risk g) ≤ risk_rank m)%nat
  | None => ep_allow_scope p = true
  end.

Theorem capabilities_exact r executor required p :
  validate_capabilities r executor required p = Ok () ↔
  ∃ a, er_adapters r !! executor = Some a ∧ Forall (passes p (ad_capabilities a)) required.
Proof.
  unfold validate_capabilities. destruct (er_adapters r !! executor) as [a|]; cbn; [|split; [done|]; by intros (? & ? & _)].
  transitivity (Forall (passes p (ad_capabilities a)) required); [|split; [eauto|by intros (? & [= <-] & ?)]].
  induction required as [|c required IH]; cbn [check_required]; [by split; [constructor|]|]. rewrite list.Forall_cons, <-IH. unfold passes at 1.
  destruct (List.find _ _) as [g|].
  - destruct (ep_max_risk p) as [m|].
    + unfold risk_gt. destruct (Nat.ltb_spec (risk_rank m) (risk_rank (cg_risk g))), (ep_allow_risk p); cbn [andb negb]; split; intros Hx; try done.
      * by split; [left|].
      * by destruct Hx.
      * destruct Hx as [[?|Hm] _]; [done|]. specialize (Hm m eq_refl). lia.
      * by split; [left|].
      * by destruct Hx.
      * split; [right|done]. by intros ? [= <-].
      * by destruct Hx.
    + split; [intros Hx; split; [right; done|done]|by intros [_ ?]].
  - destruct (ep_allow_scope p); cbn [negb]; split; intros Hx; try done; by destruct Hx.
Qed.

(** ** What runs *)

Lemma trim_prefixes_done fuel p s : starts_with p s = false → trim_prefixes fuel p s = s.
Proof. intros Hp. destruct fuel; [done|]. cbn. unfold starts_with in Hp. by destruct (strip_prefix p s). Qed.

Lemma trim_prefixes_one n p s : starts_with p s = false → trim_prefixes (S n) p (p +:+ s) = s.
Proof. intros Hp. cbn [trim_prefixes]. rewrite strip_prefix_app. by apply trim_prefixes_done. Qed.

(** A workload made for an adapter runs that adapter's handler on the host, with the input and
    the time it was given. *)
Theorem adapter_dispatch r executor handler input labels timeout a :
  er_vm r = None → er_adapters r !! executor = Some a →
  starts_with "a3s/executor/" executor = false → executor ≠ "--handler" →
  is_empty (trim ("a3s/executor/" +:+ executor)) = false →
  execute_box_workload r {| wl_runtime_class := A3sBox; wl_kind := ExecutionTask;
    wl_runtime := for_execution_adapter executor handler; wl_input := input; wl_labels := labels |} timeout
  = map_err AdapterFailed (ad_execute a handler input timeout).
Proof.
  intros Hvm Ha Hp Hne Ht. unfold execute_box_workload, validate. cbn [wl_runtime for_execution_adapter rt_runtime rt_entrypoint].
  rewrite Ht. change (is_empty (trim "a3s-executor")) with false. cbn [mbind result_bind]. rewrite Hvm.
  unfold execute_via_adapter, executor_of. cbn [wl_runtime for_execution_adapter rt_runtime rt_args wl_input].
  assert (starts_with "a3s/executor/" ("a3s/executor/" +:+ executor) = true) as -> by (unfold starts_with; by rewrite strip_prefix_app).
  change (String.length ("a3s/executor/" +:+ executor)) with (S (12 + String.length executor)). rewrite trim_prefixes_one by done. cbn [mbind result_bind]. rewrite Ha. cbn [ok_or mbind result_bind].
  cbn [extract_handler_from_args]. rewrite (bool_decide_false (executor = "--handler")) by done. done.
Qed.

(** ** What is fetched *)

Lemma mapM_strings (l : list (string * string)) :
  mapM (λ kv, (λ s, (kv.1, s)) <$> as_str kv.2) (map (λ kv, (kv.1, JStr kv.2)) l) = Some l.
Proof. induction l as [|[k v] l IH]; [done|]. cbn. cbn in IH. by rewrite IH. Qed.

Lemma headers_roundtrip (headers : gmap string string) url :
  headers_of (JObj [("url", JStr url); ("headers", JObj (map (λ kv, (kv.1, JStr kv.2)) (map_to_list headers)))]) = Ok headers.
Proof.
  unfold headers_of. cbn [json_get List.find fst]. rewrite bool_decide_false, bool_decide_true by done. cbn [fmap option_fmap option_map snd as_string_map].
  rewrite <-map_rev, mapM_strings. cbn [fmap option_fmap option_map]. f_equal.
  transitivity (list_to_map (map_to_list headers) : gmap string string); [|apply list_to_map_to_list].
  apply list_to_map_proper; [|by rewrite <-Permutation_rev].
  rewrite <-Permutation_rev. apply NoDup_fst_map_to_list.
Qed.

(** An extraction makes one request, the one a plain fetch of the same input makes. *)
Theorem extract_fetches client parse_document fragment_text input timeout url headers :
  json_get "url" input = Some (JStr url) → headers_of input = Ok headers →
  match client Get url headers timeout with
  | Response status hs body =>
      ∃ fields, web_extract client parse_document fragment_text input timeout = Ok (JObj fields) ∧
        json_get "url" (JObj fields) = Some (JStr url) ∧
        json_get "status" (JObj fields) = Some (JNum (if (0 <=? status) && (status <? 2 ^ 64) then status else 0)) ∧
        json_get "content_text" (JObj fields) = Some (JStr (xc_text (extract_html_content parse_document fragment_text body)))
  | a => web_extract client parse_document fragment_text input timeout = answer_json a
  end.
Proof.
  intros Hu Hh. unfold web_extract. rewrite Hu. cbn [mbind option_bind as_str ok_or result_bind]. rewrite Hh. cbn [mbind result_bind].
  unfold http_get, url_of. rewrite headers_roundtrip. cbn [json_get List.find fst]. rewrite bool_decide_true by done.
  cbn [fmap option_fmap option_map snd mbind option_bind as_str ok_or result_bind].
  destruct (client Get url headers timeout) as [| | |status hs body]; cbn [answer_json mbind result_bind]; try done.
  cbn. eexists. split; [done|]. split; [done|]. split; [|done]. cbn [json_get List.find fst].
  rewrite !(bool_decide_true ("status" = "status")) by done. cbn [fmap option_fmap option_map snd mbind option_bind as_u64]. by destruct (_ && _).
Qed.

Lemma links_bounded p : (length (collect_links p) ≤ 100)%nat ∧ Forall (λ s, s ≠ "") (collect_links p).
Proof.
  unfold collect_links. split; [rewrite length_take; lia|]. apply Forall_take, list.Forall_forall. intros s Hs.
  apply list_elem_of_In, List.filter_In in Hs as [_ Hs]. by intros ->.
Qed.

(** ** Witnesses and defects *)

Definition echo_adapter : ExecutionAdapter := {| ad_capabilities := http_capabilities; ad_execute := λ h i t, Ok (JArr [JStr h; i]) |}.

Lemma adapter_dispatch_witness : execute_box_workload (with_defaults echo_adapter)
  {| wl_runtime_class := A3sBox; wl_kind := ExecutionTask; wl_runtime := for_execution_adapter "http" "get"; wl_input := JNum 1; wl_labels := ∅ |} 5
  = Ok (JArr [JStr "get"; JNum 1]).
Proof. exact (adapter_dispatch (with_defaults echo_adapter) "http" "get" (JNum 1) ∅ 5 echo_adapter eq_refl eq_refl eq_refl ltac:(done) eq_refl). Defined.

(** The operation of a network capability is not compared, and only the first grant counts: a
    post, granted with medium risk, passes a policy that allows low risk. *)
Lemma post_passes_as_fetch :
  let p := {| ep_match_mode := AllRequired; ep_max_risk := Some Low; ep_allow_risk := false; ep_scopes := []; ep_allow_scope := false |} in
  validate_capabilities (with_defaults echo_adapter) "http" [Net "http" "post" "public"] p = Ok ().
Proof. vm_compute. reflexivity. Qed.

(** Access is not compared: a grant to read covers writing. *)
Lemma read_covers_write s : capability_matches (Filesystem s Read) (Filesystem s Write) = true.
Proof. cbn. by rewrite bool_decide_true. Qed.

(** The match mode and the allowed scopes of a policy have no effect. *)
Lemma scopes_ignored r executor required p mode scopes :
  validate_capabilities r executor required
    {| ep_match_mode := mode; ep_max_risk := ep_max_risk p; ep_allow_risk := ep_allow_risk p; ep_scopes := scopes; ep_allow_scope := ep_allow_scope p |}
  = validate_capabilities r executor required p.
Proof.
  unfold validate_capabilities. destruct (er_adapters r !! executor) as [a|]; [|done]. cbn.
  induction required as [|c required IH]; [done|]. cbn. by rewrite IH.
Qed.

(** In the mode for machines, without a machine executor, a workload runs on the host. *)
Lemma microvm_runs_on_host :
  match from_enabled_with_launch_mode echo_adapter ["http"] MicroVM with
  | Ok r => execute_box_workload r {| wl_runtime_class := A3sBox; wl_kind := ExecutionTask;
              wl_runtime := for_execution_adapter "http" "get"; wl_input := JNull; wl_labels := ∅ |} 5 = Ok (JArr [JStr "get"; JNull])
  | Err _ => False
  end.
Proof. vm_compute. reflexivity. Qed.

(** The other way round, the compatibility mode does not keep a workload on the host. *)
Lemma compat_mode_uses_vm x e timeout : validate e = Ok () →
  execute_box_workload (with_vm_executor x (with_defaults echo_adapter)) e timeout = map_err VmFailed (vx_execute x e timeout).
Proof. intros Hv. unfold execute_box_workload. rewrite Hv. cbn. by destruct (wl_runtime_class e). Qed.
