(* ===== verification/ComposeCmd.v ===== *)
(** * ComposeCmd: bringing a project up and down

    The [compose] command ([cli/src/commands/compose.rs]) with the cleanup of boxes
    ([cli/src/cleanup.rs]): the networks and services of a project are started in dependency order,
    a failure rolls everything back, [down] stops and removes what carries the project's label.
    The state file is a list of records that the command holds a copy of; what the other processes
    write to it in the meantime, and every answer of the host, are arguments. *)

From Stdlib Require Import ZArith Lia Ascii.
From stdpp Require Import base gmap strings list numbers fin_maps sets.
From S2P Require Import Prelude RustStr RustFloat IpAddr Network Store Options Config Compose BoxState.

Local Open Scope string_scope.
Local Open Scope list_scope.
Local Open Scope Z_scope.

Definition LABEL_PROJECT : string := "com.a3s.compose.project".
Definition LABEL_SERVICE : string := "com.a3s.compose.service".
Definition COMPOSE_FILES : list string := ["compose.yaml"; "compose.yml"; "docker-compose.yaml"; "docker-compose.yml"].

Inductive up_error :=
| FileMissing (path : string) | NoComposeFile | FileUnreadable | FileInvalid
| BadRestart (svc : string) (e : policy_err) | BadProject (e : compose_err) | StateFailed | AlreadyActive (names : list string)
| NetReadFailed | NetInvalid (name : string) (e : net_err) | BadDriver (driver : string) | BadPolicyMode (e : net_err) | NetWriteFailed (e : option store_err)
| HealthTimeout (svcs : list string) | CompletionTimeout (svcs : list string) | DependencyFailed (svc : string) (code : Z)
| BadService (e : compose_err) | VolumeFailed | MkdirFailed | NetworkMissing (name : string) | ConnectFailed (svc : string) (e : net_err)
| StartFailed (svc : string) | AddFailed | AttachFailed | NoSuchService (svc : string).

(** ** The file *)

(** [load_compose_file]: [files] are the files there, [parse] the YAML reader. *)
Definition load_compose_file (files : string → option (option string)) (parse : string → option ComposeConfig) (cwd : string)
    (explicit : option string) : result up_error (string * ComposeConfig) :=
  path ← match explicit with
         | Some p => if bool_decide (is_Some (files p)) then Ok p else Err (FileMissing p)
         | None => ok_or NoComposeFile (List.find (λ p, bool_decide (is_Some (files p))) (map (path_join cwd) COMPOSE_FILES))
         end;
  text ← ok_or FileUnreadable (mjoin (files path));
  config ← ok_or FileInvalid (parse text);
  Ok (path, config).

Definition service_restart_policy (svc_name : string) (svc : option ServiceConfig) : result up_error (string * Z) :=
  match svc ≫= s_restart with
  | None => Ok ("no", 0)
  | Some restart => map_err (BadRestart svc_name) (parse_restart_policy restart)
  end.
Definition validate_compose_restart_policies `{HashOrder} (config : ComposeConfig) : result up_error () :=
  for_each (λ kv, _ ← service_restart_policy kv.1 (Some kv.2); Ok ()) (hash_iter (c_services config)).

(** ** The host *)

Record host := {
  h_mem : records;      (** the records the command holds *)
  h_disk : records;     (** the state file *)
  h_nets : gmap string NetworkConfig;
  h_vols : gmap string VolumeConfig;
  h_dirs : gset string; (** the directories of boxes *)
  h_procs : gset Z }.   (** the processes that run *)

Definition set_state (mem disk : records) (h : host) : host :=
  {| h_mem := mem; h_disk := disk; h_nets := h_nets h; h_vols := h_vols h; h_dirs := h_dirs h; h_procs := h_procs h |}.
Definition set_nets (n : gmap string NetworkConfig) (h : host) : host :=
  {| h_mem := h_mem h; h_disk := h_disk h; h_nets := n; h_vols := h_vols h; h_dirs := h_dirs h; h_procs := h_procs h |}.
Definition set_vols (v : gmap string VolumeConfig) (h : host) : host :=
  {| h_mem := h_mem h; h_disk := h_disk h; h_nets := h_nets h; h_vols := v; h_dirs := h_dirs h; h_procs := h_procs h |}.
Definition set_dirs (d : gset string) (h : host) : host :=
  {| h_mem := h_mem h; h_disk := h_disk h; h_nets := h_nets h; h_vols := h_vols h; h_dirs := d; h_procs := h_procs h |}.
Definition set_procs (p : gset Z) (h : host) : host :=
  {| h_mem := h_mem h; h_disk := h_disk h; h_nets := h_nets h; h_vols := h_vols h; h_dirs := h_dirs h; h_procs := p |}.

(** What the host answers while things are undone.  The code goes on whatever they are. *)
Class Undo := {
  ok_process : string → bool;           (** the process of the box is stopped *)
  ok_detach : string → string → bool;   (** the box is taken off the volume, and that is written *)
  ok_disconnect : string → string → bool; (** the network is read, and written without the box *)
  ok_anonymous : string → bool;         (** the volume is removed *)
  ok_dir : string → bool;               (** the directory of the box is removed *)
  ok_state : string → bool;             (** the state file is written without the box *)
  ok_clear : string → bool;             (** the network is written without endpoints *)
  ok_drop : string → bool }.            (** the network is removed *)

(** Everything that is undone is undone. *)
Class UndoWorks {U : Undo} : Prop := {
  works_process id : ok_process id = true;
  works_detach id n : ok_detach id n = true;
  works_disconnect n id : ok_disconnect n id = true;
  works_anonymous n : ok_anonymous n = true;
  works_dir id : ok_dir id = true;
  works_state id : ok_state id = true;
  works_clear n : ok_clear n = true;
  works_drop n : ok_drop n = true }.

(** [StateFile::remove] of the copy the command holds: when the box was in it and the write
    succeeds, the file becomes that copy. *)
Definition state_shrinks (id : string) (h : host) : bool := (length (drop_id id (h_mem h)) <? length (h_mem h))%nat.
Definition state_remove_with (written : bool) (id : string) (h : host) : host :=
  let rs := drop_id id (h_mem h) in
  set_state rs (if state_shrinks id h && written then rs else h_disk h) h.

Section undo.
Context {U : Undo}.

Definition state_remove (id : string) (h : host) : host := state_remove_with (ok_state id) id h.

(** ** Releasing a box *)

Record ServiceBox := {
  sb_id : string; sb_svc : string; sb_pid : option Z; sb_status : string; sb_network : option string;
  sb_volumes : list string; sb_anonymous : list string; sb_stop_signal : option string; sb_stop_timeout : option Z }.

Definition record_network_name (r : BoxRecord) : option string :=
  match b_network_name r with
  | Some n => Some n
  | None => match b_network_mode r with Bridge n => Some n | _ => None end
  end.

Definition from_record (r : BoxRecord) : ServiceBox :=
  {| sb_id := b_id r; sb_svc := default "" (b_labels r !! LABEL_SERVICE); sb_pid := b_pid r; sb_status := b_status r;
     sb_network := record_network_name r; sb_volumes := b_volume_names r; sb_anonymous := b_anonymous_volumes r;
     sb_stop_signal := b_stop_signal r; sb_stop_timeout := b_stop_timeout r |}.

Definition disconnect_net (net box_id : string) (nets : gmap string NetworkConfig) : gmap string NetworkConfig :=
  match nets !! net with
  | Some c => match disconnect c box_id with Ok (c', _) => <[net := c']> nets | Err _ => nets end
  | None => nets
  end.
Definition detach_box_volumes (box_id : string) (volume_names : list string) (h : host) : host :=
  set_vols (alter_all (λ v, detach v box_id) (List.filter (ok_detach box_id) volume_names) (h_vols h)) h.
Definition cleanup_box_resources (box_id : string) (volume_names : list string) (network : option string) (h : host) : host :=
  let h := detach_box_volumes box_id volume_names h in
  match network with
  | Some n => if ok_disconnect n box_id then set_nets (disconnect_net n box_id (h_nets h)) h else h
  | None => h
  end.

Definition cleanup_anonymous_volumes (names : list string) (h : host) : host :=
  set_vols (foldl (λ m n, delete n m) (h_vols h) (List.filter ok_anonymous names)) h.

Definition delete_box_dir (box_id : string) (h : host) : host :=
  if ok_dir box_id then set_dirs (h_dirs h ∖ {[ box_id ]}) h else h.

Definition cleanup_service_box (s : ServiceBox) (h : host) : host :=
  let h := cleanup_box_resources (sb_id s) (sb_volumes s) (sb_network s) h in
  let h := cleanup_anonymous_volumes (sb_anonymous s) h in
  delete_box_dir (sb_id s) h.

(** [stop_service_process]: the graceful stop ends with a kill. *)
Definition stop_service_process (s : ServiceBox) (h : host) : host :=
  if is_active_status (sb_status s) then
    match sb_pid s with
    | Some pid => if ok_process (sb_id s) then set_procs (h_procs h ∖ {[ pid ]}) h else h
    | None => h
    end
  else h.

Definition release_service (s : ServiceBox) (h : host) : host :=
  state_remove (sb_id s) (cleanup_service_box s (stop_service_process s h)).

(** ** Rolling back *)

Definition rollback_started_services (started : list ServiceBox) (h : host) : host :=
  foldl (λ h s, release_service s h) h (rev started).

(** Every endpoint is disconnected and that is written, then the network is removed, which is
    refused while it has endpoints. *)
Definition drop_network (nets : gmap string NetworkConfig) (name : string) : gmap string NetworkConfig :=
  let nets := if ok_clear name then alter (λ c, with_endpoints c ∅) name nets else nets in
  if ok_drop name then
    match NetworkStore.remove_step name nets with Ok (nets, _) => nets | Err _ => nets end
  else nets.
Definition cleanup_created_networks (created : list string) (h : host) : host :=
  set_nets (foldl drop_network (h_nets h) (rev created)) h.

Definition rollback_compose_up {A} (started : list ServiceBox) (created : list string) (e : up_error) (h : host) : host * result up_error A :=
  (cleanup_created_networks created (rollback_started_services started h), Err e).
End undo.

(** ** Waiting for dependencies *)

Definition in_project (project : string) (r : BoxRecord) : bool := bool_decide (b_labels r !! LABEL_PROJECT = Some project).

(** The state file as each poll before the deadline reads it; [None] when it cannot be read. *)
Fixpoint wait_for_healthy (project : string) (svcs : list string) (polls : list (option records)) : result up_error () :=
  match polls with
  | [] => Err (HealthTimeout svcs)
  | None :: _ => Err StateFailed
  | Some rs :: polls =>
      if forallb (λ svc, existsb (λ r, in_project project r && bool_decide (b_health_status r = "healthy"))
                           (find_by_label rs LABEL_SERVICE svc)) svcs
      then Ok () else wait_for_healthy project svcs polls
  end.

(** One pass of [wait_for_completed] over the services: all done, or not, or a failure. *)
Fixpoint check_completed (project : string) (exited : Z → bool) (rs : records) (svcs : list string) : result up_error bool :=
  match svcs with
  | [] => Ok true
  | svc :: svcs =>
      match List.find (in_project project) (find_by_label rs LABEL_SERVICE svc) with
      | None => _ ← check_completed project exited rs svcs; Ok false
      | Some r =>
          if negb (is_active r) || match b_pid r with Some pid => exited pid | None => true end then
            match b_exit_code r with
            | Some code => if code =? 0 then check_completed project exited rs svcs else Err (DependencyFailed svc code)
            | None => check_completed project exited rs svcs
            end
          else _ ← check_completed project exited rs svcs; Ok false
      end
  end.
Fixpoint wait_for_completed (project : string) (svcs : list string) (polls : list (option records * (Z → bool))) : result up_error () :=
  match polls with
  | [] => Err (CompletionTimeout svcs)
  | (None, _) :: _ => Err StateFailed
  | (Some rs, exited) :: polls =>
      all_done ← check_completed project exited rs svcs;
      if (all_done : bool) then Ok () else wait_for_completed project svcs polls
  end.

(** ** Volumes of a service *)

(** [resolve_named_volume]: a host path is left alone, a name becomes the volume's directory and is
    created when it is not there. *)
Definition resolve_named_volume (volumes_dir now : string) (creates : bool) (spec : string) (vols : gmap string VolumeConfig)
    : gmap string VolumeConfig * result up_error (string * option string) :=
  match split ":" spec with
  | host_part :: (_ :: _) as rest =>
      if starts_with "/" host_part || starts_with "." host_part then (vols, Ok (spec, None))
      else match vols !! host_part with
           | Some v => (vols, Ok (join ":" (vol_mount_point v :: tail rest), Some host_part))
           | None =>
               if creates then
                 let v := with_mount_point (volume_new host_part "" now) (path_join volumes_dir host_part) in
                 (<[host_part := v]> vols, Ok (join ":" (vol_mount_point v :: tail rest), Some host_part))
               else (vols, Err VolumeFailed)
           end
  | _ => (vols, Ok (spec, None))
  end.
Fixpoint resolve_service_volumes (volumes_dir now : string) (creates : bool) (specs : list string) (vols : gmap string VolumeConfig)
    : gmap string VolumeConfig * result up_error (list string * list string) :=
  match specs with
  | [] => (vols, Ok ([], []))
  | spec :: specs =>
      match resolve_named_volume volumes_dir now creates spec vols with
      | (vols, Err e) => (vols, Err e)
      | (vols, Ok (r, name)) =>
          let '(vols, res) := resolve_service_volumes volumes_dir now creates specs vols in
          (vols, '(rs, names) ← res; Ok (r :: rs, option_list name ++ names))
      end
  end.

(** ** Networks *)

Definition validate_network_driver (driver : string) : result up_error () :=
  if bool_decide (driver = "bridge") then Ok () else Err (BadDriver driver).
Definition validate_attachable_network (c : NetworkConfig) : result up_error () :=
  _ ← validate_network_driver (net_driver c); map_err BadPolicyMode (policy_validate (net_policy c)).

Definition compose_subnet (i : nat) : string := "10.89." +:+ show_uint (100 + Z.of_nat i) +:+ ".0/24".

(** The networks of the project, those that are missing created; [reads] and [writes] are the
    answers of the network store. *)
Fixpoint create_networks (now : string) (reads writes : nat → bool) (i : nat) (names created : list string) (h : host)
    : host * list string * result up_error () :=
  match names with
  | [] => (h, created, Ok ())
  | name :: names =>
      if negb (reads i) then (h, created, Err NetReadFailed) else
      match h_nets h !! name with
      | Some c =>
          match validate_attachable_network c with
          | Err e => (h, created, Err e)
          | Ok _ => create_networks now reads writes (S i) names created h
          end
      | None =>
          match network_new name (compose_subnet i) now with
          | Err e => (h, created, Err (NetInvalid name e))
          | Ok c =>
              match validate_attachable_network c with
              | Err e => (h, created, Err e)
              | Ok _ =>
                  if negb (writes i) then (h, created, Err (NetWriteFailed None)) else
                  match NetworkStore.create_step c (h_nets h) with
                  | Err e => (h, created, Err (NetWriteFailed (Some e)))
                  | Ok (nets, _) => create_networks now reads writes (S i) names (created ++ [name]) (set_nets nets h)
                  end
              end
          end
      end
  end.

(** ** Starting one service *)

Record booted := {
  bo_pid : option Z; bo_exec_socket : option string; bo_anonymous : list string; bo_health : option HealthCheck;
  bo_stop_signal : option string }.

(** What the host answers while a service is started; a failed attachment comes after some of the
    volumes. *)
Record svc_env := {
  ve_healthy : list (option records); ve_completed : list (option records * (Z → bool));
  ve_volumes : bool; ve_box_id : string; ve_sockets : bool; ve_logs : bool; ve_net_read : bool; ve_net_write : bool;
  ve_boot : option booted; ve_meanwhile : records → records; ve_load : bool; ve_add : bool; ve_attach : option nat; ve_now : Z }.

Section up.
Context {U : Undo} `{HashOrder} (to_lowercase : string → string) (read : string → option string).
Context (anon_volume : string → string → VolumeConfig) (home volumes_dir clock : string) (p : ComposeProject).

(** [output::parse_memory], in MB *)
Definition parse_memory (text : string) : option Z :=
  let s := to_lowercase (trim text) in
  if is_empty s then None else
  let '(num, multiplier) :=
    match strip_suffix "g" s, strip_suffix "gb" s, strip_suffix "m" s, strip_suffix "mb" s with
    | Some n, _, _, _ => (n, 1024)
    | None, Some n, _, _ => (n, 1024)
    | None, None, Some n, _ => (n, 1)
    | None, None, None, Some n => (n, 1)
    | None, None, None, None => (s, 1)
    end in
  n ← parse_uint 32 num; Some (wrap 32 (n * multiplier)).

Definition health_check_of (spec : HealthCheckSpec) : HealthCheck :=
  {| hk_cmd := hs_cmd spec; hk_interval_secs := hs_interval_secs spec; hk_timeout_secs := hs_timeout_secs spec;
     hk_retries := hs_retries spec; hk_start_period_secs := hs_start_period_secs spec |}.

Definition box_health (svc_name : string) (b : booted) : option HealthCheck :=
  if healthcheck_disabled p svc_name then None
  else match healthcheck to_lowercase p svc_name with Some s => Some (health_check_of s) | None => bo_health b end.

Definition net_of (c : BoxConfig) : option string := match network c with Bridge n => Some n | _ => None end.

(** A field of the service's configuration, if there is one *)
Definition svc_field {A} (svc_name : string) (d : A) (f : ServiceConfig → A) : A :=
  match c_services (p_config p) !! svc_name with Some s => f s | None => d end.

(** The record of a started service *)
Definition service_record (svc_name : string) (e : svc_env) (c : BoxConfig) (resolved names : list string) (b : booted)
    (policy : string * Z) : BoxRecord :=
  let box_dir := home +:+ "/boxes/" +:+ ve_box_id e in
  let health := box_health svc_name b in
  {| b_id := ve_box_id e; b_short_id := make_short_id (ve_box_id e); b_name := p_name p +:+ "-" +:+ svc_name;
     b_image := image c; b_status := "running"; b_pid := bo_pid b; b_cpus := default 2 (svc_field svc_name None s_cpus);
     b_memory_mb := default 512 (m ← svc_field svc_name None s_mem_limit; parse_memory m); b_volumes := resolved;
     b_env := list_to_map (rev (extra_env c)); b_cmd := default [] (string_or_list_to_vec <$> svc_field svc_name None s_command);
     b_entrypoint := string_or_list_to_vec <$> svc_field svc_name None s_entrypoint; b_box_dir := box_dir;
     b_exec_socket_path := default (box_dir +:+ "/sockets/exec.sock") (bo_exec_socket b);
     b_console_log := box_dir +:+ "/logs/console.log"; b_created_at := ve_now e; b_started_at := Some (ve_now e);
     b_auto_remove := false; b_hostname := hostname c; b_user := None; b_workdir := svc_field svc_name None s_working_dir;
     b_restart_policy := policy.1; b_port_map := svc_field svc_name [] s_ports;
     b_labels := <[LABEL_SERVICE := svc_name]> (<[LABEL_PROJECT := p_name p]> (svc_field svc_name ∅ (λ s, labels_to_map (s_labels s))));
     b_stopped_by_user := false; b_restart_count := 0; b_max_restart_count := policy.2; b_exit_code := None;
     b_health_check := health; b_healthcheck_disabled := healthcheck_disabled p svc_name;
     b_health_status := match health with Some _ => "starting" | None => "none" end; b_health_retries := 0;
     b_health_last_check := None; b_network_mode := network c; b_network_name := net_of c;
     b_volume_names := names; b_tmpfs := svc_field svc_name [] (λ s, string_or_list_to_vec (s_tmpfs s));
     b_anonymous_volumes := bo_anonymous b; b_resource_limits := limits_default;
     b_log_config := {| driver := JsonFile; log_options := ∅ |}; b_add_host := add_hosts c;
     b_platform := None; b_init := false; b_read_only := false; b_cap_add := svc_field svc_name [] s_cap_add;
     b_cap_drop := svc_field svc_name [] s_cap_drop; b_security_opt := []; b_privileged := svc_field svc_name false s_privileged;
     b_devices := []; b_gpus := None; b_shm_size := None; b_stop_signal := bo_stop_signal b; b_stop_timeout := None;
     b_oom_kill_disable := false; b_oom_score_adj := None |}.

(** The waits before a service *)
Definition wait_dependencies (svc_name : string) (e : svc_env) : result up_error () :=
  _ ← match health_wait_deps p svc_name with [] => Ok () | deps => wait_for_healthy (p_name p) deps (ve_healthy e) end;
  match completed_wait_deps p svc_name with [] => Ok () | deps => wait_for_completed (p_name p) deps (ve_completed e) end.

(** The connection to the network, before the boot *)
Definition connect_service (svc_name : string) (e : svc_env) (net : option string) (h : host) : host * result up_error () :=
  match net with
  | None => (h, Ok ())
  | Some n =>
      if negb (ve_net_read e) then (h, Err NetReadFailed) else
      match h_nets h !! n with
      | None => (h, Err (NetworkMissing n))
      | Some c =>
          match validate_attachable_network c with
          | Err err => (h, Err err)
          | Ok _ =>
              match connect_with_aliases c (ve_box_id e) (p_name p +:+ "-" +:+ svc_name) [svc_name] with
              | Err err => (h, Err (ConnectFailed svc_name err))
              | Ok (c', _) =>
                  if negb (ve_net_write e) then (h, Err (NetWriteFailed None)) else
                  match NetworkStore.update_step c' (h_nets h) with
                  | Ok (nets, _) => (set_nets nets h, Ok ())
                  | Err err => (h, Err (NetWriteFailed (Some err)))
                  end
              end
          end
      end
  end.

(** After the boot: the record in the state file, the volumes attached. *)
Definition record_service (e : svc_env) (r : BoxRecord) (h : host) : host * result up_error () :=
  if negb (ve_load e) then (h, Err StateFailed) else
  let disk := ve_meanwhile e (h_disk h) in
  let rs := disk ++ [r] in
  if negb (ve_add e) then (set_state rs disk h, Err AddFailed) else
  let h := set_state rs rs h in
  let attached n := set_vols (alter_all (λ v, attach v (b_id r)) (take n (b_volume_names r)) (h_vols h)) h in
  match ve_attach e with
  | Some n => (attached n, Err AttachFailed)
  | None => (attached (length (b_volume_names r)), Ok ())
  end.

(** What the boot adds: the process, and the anonymous volumes of the image that are not there. *)
Definition booted_host (box_id : string) (b : booted) (h : host) : host :=
  let h := set_procs (match bo_pid b with Some pid => {[ pid ]} ∪ h_procs h | None => h_procs h end) h in
  set_vols (foldl (λ m n, if bool_decide (is_Some (m !! n)) then m else <[n := anon_volume box_id n]> m) (h_vols h) (bo_anonymous b)) h.

(** One turn of the loop of [execute_up].  An error comes with the box to roll back, if it was
    started. *)
Definition up_service (svc_name : string) (e : svc_env) (h : host) : host * result (up_error * option ServiceBox) ServiceBox :=
  let stop err h := (h, Err (err, None)) in
  match wait_dependencies svc_name e with
  | Err err => stop err h
  | Ok _ =>
  match build_box_config to_lowercase read p svc_name (Some (default_network_name p)) with
  | Err err => stop (BadService err) h
  | Ok c =>
  match resolve_service_volumes volumes_dir clock (ve_volumes e) (volumes c) (h_vols h) with
  | (vols, Err err) => stop err (set_vols vols h)
  | (vols, Ok (resolved, names)) =>
  let h := set_vols vols h in
  if negb (ve_sockets e) then stop MkdirFailed h else
  let h := set_dirs ({[ ve_box_id e ]} ∪ h_dirs h) h in
  if negb (ve_logs e) then stop MkdirFailed h else
  match connect_service svc_name e (net_of c) h with
  | (h, Err err) => stop err h
  | (h, Ok _) =>
  match ve_boot e with
  | None =>
      let h := cleanup_box_resources (ve_box_id e) names (net_of c) h in
      stop (StartFailed svc_name) (delete_box_dir (ve_box_id e) h)
  | Some b =>
  let h := booted_host (ve_box_id e) b h in
  match service_restart_policy svc_name (c_services (p_config p) !! svc_name) with
  | Err err => stop err h
  | Ok policy =>
      let r := service_record svc_name e c resolved names b policy in
      match record_service e r h with
      | (h, Err err) => (h, Err (err, Some (from_record r)))
      | (h, Ok _) => (h, Ok (from_record r))
      end
  end end end end end end.

(** The loop over the services, in dependency order. *)
Fixpoint up_services (envs : list svc_env) (order : list string) (started : list ServiceBox) (created : list string) (h : host)
    {struct order} : host * result up_error (list ServiceBox) :=
  match order, envs with
  | [], _ => (h, Ok started)
  | svc :: _, [] => rollback_compose_up started created (NoSuchService svc) h
  | svc :: order, e :: envs =>
      match up_service svc e h with
      | (h, Err (err, None)) => rollback_compose_up started created err h
      | (h, Err (err, Some current)) => rollback_compose_up (started ++ [current]) created err h
      | (h, Ok s) => up_services envs order (started ++ [s]) created h
      end
  end.

(** [execute_up], from the loaded state on *)
Definition up_project (reads writes : nat → bool) (envs : list svc_env) (h : host) : host * result up_error (list ServiceBox) :=
  match List.filter is_active (find_by_label (h_mem h) LABEL_PROJECT (p_name p)) with
  | _ :: _ as active => (h, Err (AlreadyActive (omap (λ r, b_labels r !! LABEL_SERVICE) active)))
  | [] =>
      match create_networks clock reads writes 0 (required_networks p) [] h with
      | (h, created, Err e) => rollback_compose_up [] created e h
      | (h, created, Ok _) => up_services envs (p_service_order p) [] created h
      end
  end.
End up.

(** [execute_up]: the file's policies and the project are checked first, then the state file is read. *)
Definition execute_up {U : Undo} `{HashOrder} (to_lowercase : string → string) (read : string → option string)
    (anon_volume : string → string → VolumeConfig) (home volumes_dir clock project base_dir : string) (config : ComposeConfig) (loads : bool) (reads writes : nat → bool) (envs : list svc_env)
    (h : host) : option (host * result up_error (list ServiceBox)) :=
  match validate_compose_restart_policies config with
  | Err e => Some (h, Err e)
  | Ok _ =>
      r ← with_base_dir project config base_dir;
      match r with
      | Err e => Some (h, Err (BadProject e))
      | Ok p =>
          if negb loads then Some (h, Err StateFailed)
          else Some (up_project to_lowercase read anon_volume home volumes_dir clock p reads writes envs (set_state (h_disk h) (h_disk h) h))
      end
  end.

(** ** Down *)

Section down.
Context {U : Undo}.

(** The networks whose name begins with the project's *)
Definition cleanup_project_networks (project : string) (nets : gmap string NetworkConfig) : gmap string NetworkConfig :=
  foldl drop_network nets (List.filter (starts_with (project +:+ "_")) (fst <$> map_to_list nets)).

(** Here a state file that cannot be written ends the command. *)
Fixpoint release_services (boxes : list ServiceBox) (h : host) : host * result up_error () :=
  match boxes with
  | [] => (h, Ok ())
  | s :: boxes =>
      let k := release_service s h in
      if state_shrinks (sb_id s) h && negb (ok_state (sb_id s)) then (k, Err StateFailed) else release_services boxes k
  end.

(** [execute_down]; [meanwhile] is what the others do to the state file while the services stop. *)
Definition execute_down (project : string) (volumes : bool) (loads : bool) (meanwhile : records → records) (h : host) : host * result up_error () :=
  if negb loads then (h, Err StateFailed) else
  let h := set_state (h_disk h) (h_disk h) h in
  match map from_record (find_by_label (h_mem h) LABEL_PROJECT project) with
  | [] => (h, Ok ())
  | boxes =>
      let h := set_state (h_mem h) (meanwhile (h_disk h)) h in
      match release_services (rev boxes) h with
      | (h, Err e) => (h, Err e)
      | (h, Ok _) =>
          let h := set_nets (cleanup_project_networks project (h_nets h)) h in
          let h := if volumes then cleanup_anonymous_volumes (concat (map sb_volumes boxes)) h else h in
          (h, Ok ())
      end
  end.
End down.

(** ** Logs *)

(** [execute_logs]: the last lines of each service, with its name when there are several. *)
Definition log_targets (project : string) (service : option string) (rs : records) : result up_error (list BoxRecord) :=
  let boxes := find_by_label rs LABEL_PROJECT project in
  match service with
  | None => Ok boxes
  | Some svc =>
      match boxes, List.filter (λ r, bool_decide (b_labels r !! LABEL_SERVICE = Some svc)) boxes with
      | [], _ => Ok []
      | _, [] => Err (NoSuchService svc)
      | _, targets => Ok targets
      end
  end.
Definition show_logs (tail_lines : nat) (several : bool) (svc_name content : string) : list string :=
  let ls := lines content in
  map (λ l, (if several then svc_name +:+ " | " else "") +:+ l) (drop (length ls - tail_lines) ls).

(** ** A failed start leaves nothing behind *)

(** The host [k] is [h] again: the same records, networks and processes, the volumes of [h] as they
    were, and no directory but those of [h] and [left]. *)
Record back (left : gset string) (h k : host) : Prop := {
  bk_mem : h_mem k = h_mem h; bk_disk : h_disk k = h_disk h; bk_nets : h_nets k = h_nets h;
  bk_procs : h_procs k = h_procs h; bk_dirs : h_dirs k = h_dirs h ∪ left; bk_vols : h_vols h ⊆ h_vols k }.

Lemma back_refl h : back ∅ h h.
Proof. split; try done. set_solver. Qed.

(** The names a new box brings are new: its id and its anonymous volumes are used by nothing, its
    process is not there. *)
Definition fresh_box (id : string) (b : option booted) (h : host) : Prop :=
  (id ∉ h_dirs h) ∧ Forall (λ r, b_id r ≠ id) (h_mem h) ∧
  map_Forall (λ _ c, net_endpoints c !! id = None) (h_nets h) ∧
  map_Forall (λ _ v, id ∉ vol_in_use_by v) (h_vols h) ∧
  match b with
  | Some b => match bo_pid b with Some pid => pid ∉ h_procs h | None => True end ∧ Forall (λ n, h_vols h !! n = None) (bo_anonymous b)
  | None => True
  end.
#[export] Instance fresh_box_dec id b h : Decision (fresh_box id b h).
Proof. unfold fresh_box. destruct b as [b|]; [destruct (bo_pid b)|]; apply _. Defined.

(** A host on which the box of the record [r] has been placed over [h]. *)
Record placed (h : host) (r : BoxRecord) (k : host) : Prop := {
  pl_state : h_mem h = h_disk h ∧ ((h_mem k, h_disk k) = (h_disk h, h_disk h) ∨ (h_mem k, h_disk k) = (h_disk h ++ [r], h_disk h) ∨
             (h_mem k, h_disk k) = (h_disk h ++ [r], h_disk h ++ [r]));
  pl_new : Forall (λ r', b_id r' ≠ b_id r) (h_mem h) ∧ (b_id r ∉ h_dirs h) ∧ (∀ pid, b_pid r = Some pid → pid ∉ h_procs h) ∧
           map_Forall (λ _ v, b_id r ∉ vol_in_use_by v) (h_vols h) ∧ Forall (λ n, h_vols h !! n = None) (b_anonymous_volumes r);
  pl_nets : match record_network_name r with
            | None => h_nets k = h_nets h
            | Some n => ∃ c ep, h_nets h !! n = Some c ∧ net_endpoints c !! b_id r = None ∧
                        h_nets k = <[n := with_endpoints c (<[b_id r := ep]> (net_endpoints c))]> (h_nets h)
            end;
  pl_procs : h_procs k = match b_pid r with Some pid => {[ pid ]} ∪ h_procs h | None => h_procs h end;
  pl_active : is_active r = true ∨ b_pid r = None;
  pl_dirs : h_dirs k = {[ b_id r ]} ∪ h_dirs h;
  pl_vols : ∀ n v, h_vols h !! n = Some v → h_vols k !! n = Some v ∨ n ∈ b_volume_names r ∧ h_vols k !! n = Some (attach v (b_id r)) }.

Lemma drop_id_fresh id rs : Forall (λ r, b_id r ≠ id) rs → drop_id id rs = rs.
Proof. induction 1 as [|r rs Hr Hrs IH]; [done|]. unfold drop_id in *. cbn. rewrite bool_decide_false by done. cbn. by rewrite IH. Qed.
Lemma drop_id_snoc r rs : Forall (λ r', b_id r' ≠ b_id r) rs → drop_id (b_id r) (rs ++ [r]) = rs.
Proof.
  intros Hrs. unfold drop_id. rewrite List.filter_app. cbn. rewrite bool_decide_true by done. cbn. rewrite app_nil_r. by apply drop_id_fresh.
Qed.

(** *** Undoing that works *)

Section placed.
Context {U : Undo} {W : UndoWorks}.

Lemma filter_always {A} (f : A → bool) l : (∀ x, f x = true) → List.filter f l = l.
Proof. intros Hf. induction l as [|x l IH]; [done|]. cbn. by rewrite Hf, IH. Qed.

Lemma state_remove_works id h :
  state_remove id h = let rs := drop_id id (h_mem h) in
    if (length rs <? length (h_mem h))%nat then set_state rs rs h else set_state rs (h_disk h) h.
Proof using W.
  unfold state_remove, state_remove_with, state_shrinks. rewrite works_state, andb_true_r. cbv zeta.
  by destruct (_ <? _)%nat.
Qed.
Lemma detach_box_volumes_works id names h :
  detach_box_volumes id names h = set_vols (alter_all (λ v, detach v id) names (h_vols h)) h.
Proof using W. unfold detach_box_volumes. by rewrite filter_always by (intros x; apply works_detach). Qed.
Lemma cleanup_box_resources_works id names net h :
  cleanup_box_resources id names net h =
  (let h := set_vols (alter_all (λ v, detach v id) names (h_vols h)) h in
   match net with Some n => set_nets (disconnect_net n id (h_nets h)) h | None => h end).
Proof using W.
  unfold cleanup_box_resources. rewrite detach_box_volumes_works. destruct net as [n|]; [|done]. by rewrite works_disconnect.
Qed.
Lemma cleanup_anonymous_works names h :
  cleanup_anonymous_volumes names h = set_vols (foldl (λ m n, delete n m) (h_vols h) names) h.
Proof using W. unfold cleanup_anonymous_volumes. by rewrite filter_always by apply works_anonymous. Qed.
Lemma delete_box_dir_works id h : delete_box_dir id h = set_dirs (h_dirs h ∖ {[ id ]}) h.
Proof using W. unfold delete_box_dir. by rewrite works_dir. Qed.

(** Releasing the box restores the state file, *)
Lemma state_remove_placed (h k : host) r : h_mem h = h_disk h → Forall (λ r', b_id r' ≠ b_id r) (h_mem h) →
  ((h_mem k, h_disk k) = (h_disk h, h_disk h) ∨ (h_mem k, h_disk k) = (h_disk h ++ [r], h_disk h) ∨
   (h_mem k, h_disk k) = (h_disk h ++ [r], h_disk h ++ [r])) →
  h_mem (state_remove (b_id r) k) = h_mem h ∧ h_disk (state_remove (b_id r) k) = h_disk h.
Proof.
  intros Hm Hf Hk. rewrite state_remove_works. cbv zeta.
  destruct Hk as [E|[E|E]]; injection E as E1 E2; rewrite E1, E2; rewrite ?drop_id_snoc, ?drop_id_fresh by (by rewrite <-Hm).
  - rewrite Nat.ltb_irrefl. cbn. by rewrite Hm.
  - rewrite length_app, (proj2 (Nat.ltb_lt _ _)) by (cbn; lia). cbn. by rewrite Hm.
  - rewrite length_app, (proj2 (Nat.ltb_lt _ _)) by (cbn; lia). cbn. by rewrite Hm.
Qed.

(** the network, *)
Lemma disconnect_placed n id c ep (nets : gmap string NetworkConfig) : nets !! n = Some c → net_endpoints c !! id = None →
  disconnect_net n id (<[n := with_endpoints c (<[id := ep]> (net_endpoints c))]> nets) = nets.
Proof.
  intros Hc Hid. unfold disconnect_net. rewrite lookup_insert_eq. unfold disconnect. cbn [net_endpoints with_endpoints].
  rewrite lookup_insert_eq. cbn [ok_or mbind result_bind]. rewrite insert_insert_eq. rewrite delete_insert_id by done.
  apply insert_id. rewrite Hc. f_equal. by destruct c.
Qed.

(** and the volumes. *)
Lemma lookup_delete_all {A} (names : list string) (m : gmap string A) k :
  foldl (λ m n, delete n m) m names !! k = if bool_decide (k ∈ names) then None else m !! k.
Proof.
  revert m. induction names as [|n names IH]; intros m; [done|]. cbn [foldl]. rewrite IH. destruct (decide (k = n)) as [->|Hne].
  - rewrite (bool_decide_true (n ∈ n :: names)) by constructor. rewrite lookup_delete_eq. by case_bool_decide.
  - rewrite lookup_delete_ne by done. by rewrite (bool_decide_ext (k ∈ n :: names) (k ∈ names)) by set_solver.
Qed.

(** What the cleanup of a placed box gives back. *)
Lemma placed_nets h r k : placed h r k →
  match record_network_name r with Some n => disconnect_net n (b_id r) (h_nets k) | None => h_nets k end = h_nets h.
Proof.
  intros Hp. pose proof (pl_nets _ _ _ Hp) as Hn. destruct (record_network_name r); [|done].
  destruct Hn as (c & ep & Hc & Hid & ->). by apply disconnect_placed.
Qed.
Lemma placed_procs h r k : placed h r k →
  match (if is_active r then b_pid r else None) with Some pid => h_procs k ∖ {[ pid ]} | None => h_procs k end = h_procs h ∧
  match b_pid r with Some pid => h_procs k ∖ {[ pid ]} | None => h_procs k end = h_procs h.
Proof.
  intros Hp. rewrite (pl_procs _ _ _ Hp). pose proof (pl_new _ _ _ Hp) as (_ & _ & Hpid & _).
  destruct (b_pid r) as [pid|] eqn:Eb; [|by destruct (is_active r)].
  assert (is_active r = true) as -> by (by destruct (pl_active _ _ _ Hp); [|congruence]).
  specialize (Hpid pid eq_refl). split; clear -Hpid; set_solver.
Qed.
Lemma placed_vols h r k vols : placed h r k → h_vols k ⊆ vols →
  h_vols h ⊆ foldl (λ m n, delete n m) (alter_all (λ v, detach v (b_id r)) (b_volume_names r) vols) (b_anonymous_volumes r).
Proof.
  intros Hp B6. pose proof (pl_new _ _ _ Hp) as (_ & _ & _ & Huse & Hanon).
  apply map_subseteq_spec. intros n v Hv. rewrite lookup_delete_all, bool_decide_false.
  2: { intros Hn. rewrite list.Forall_forall in Hanon. specialize (Hanon n Hn). congruence. }
  rewrite lookup_alter_all by (intros x; apply detach_idem). specialize (Huse n v Hv). cbn in Huse.
  destruct (pl_vols _ _ _ Hp n v Hv) as [Hk|[Hn Hk]]; apply (lookup_weaken _ _ _ _ Hk) in B6; rewrite B6.
  - case_bool_decide; cbn; [|done]. by rewrite detach_id.
  - rewrite bool_decide_true by done. cbn. by rewrite detach_attach.
Qed.

(** The fields of a released box's host. *)
Lemma cleanup_service_fields s h : let k := cleanup_service_box s (stop_service_process s h) in
  h_mem k = h_mem h ∧ h_disk k = h_disk h ∧
  h_nets k = match sb_network s with Some n => disconnect_net n (sb_id s) (h_nets h) | None => h_nets h end ∧
  h_procs k = match (if is_active_status (sb_status s) then sb_pid s else None) with Some pid => h_procs h ∖ {[ pid ]} | None => h_procs h end ∧
  h_dirs k = h_dirs h ∖ {[ sb_id s ]} ∧
  h_vols k = foldl (λ m n, delete n m) (alter_all (λ v, detach v (sb_id s)) (sb_volumes s) (h_vols h)) (sb_anonymous s).
Proof.
  unfold cleanup_service_box, stop_service_process.
  rewrite delete_box_dir_works, cleanup_anonymous_works, cleanup_box_resources_works, works_process.
  by destruct (is_active_status _), (sb_pid s), (sb_network s).
Qed.
Lemma state_remove_fields id h : h_nets (state_remove id h) = h_nets h ∧ h_procs (state_remove id h) = h_procs h ∧
  h_dirs (state_remove id h) = h_dirs h ∧ h_vols (state_remove id h) = h_vols h.
Proof. done. Qed.

Lemma release_placed left h r k k' : placed h r k → back left k k' → b_id r ∉ left → back left h (release_service (from_record r) k').
Proof.
  intros Hp [B1 B2 B3 B4 B5 B6] Hl. pose proof (pl_state _ _ _ Hp) as [Hm Hst]. pose proof (pl_new _ _ _ Hp) as (Hnew & Hdir & _).
  unfold release_service. set (k1 := cleanup_service_box _ _).
  destruct (cleanup_service_fields (from_record r) k') as (E1 & E2 & E3 & E4 & E5 & E6). fold k1 in E1, E2, E3, E4, E5, E6.
  rewrite <-B1, <-B2, <-E1, <-E2 in Hst. destruct (state_remove_placed h k1 r Hm Hnew Hst) as [S1 S2].
  destruct (state_remove_fields (b_id r) k1) as (S3 & S4 & S5 & S6). cbn [sb_id sb_network sb_volumes sb_anonymous sb_status sb_pid from_record] in *.
  split; [done|done|rewrite S3, E3, B3|rewrite S4, E4, B4|rewrite S5, E5, B5, (pl_dirs _ _ _ Hp)|rewrite S6, E6].
  - by apply placed_nets.
  - by apply placed_procs.
  - clear -Hdir Hl. set_solver.
  - by eapply placed_vols.
Qed.

(** The boxes started over [h0], the last one on top. *)
Inductive stack (h0 : host) : list ServiceBox → host → Prop :=
| stack_nil : stack h0 [] h0
| stack_snoc started h r k : stack h0 started h → placed h r k → stack h0 (started ++ [from_record r]) k.

Lemma stack_dirs h0 started h s : stack h0 started h → s ∈ started → sb_id s ∈ h_dirs h.
Proof.
  induction 1 as [|started h r k _ IH Hp]; [by intros ?%not_elem_of_nil|]. rewrite elem_of_app, list_elem_of_singleton.
  rewrite (pl_dirs _ _ _ Hp). intros [Hs| ->]; [|by apply elem_of_union_l, elem_of_singleton]. apply elem_of_union_r. auto.
Qed.

Lemma stack_rollback left h0 started h k : stack h0 started h → back left h k → (∀ s, s ∈ started → sb_id s ∉ left) →
  back left h0 (rollback_started_services started k).
Proof.
  intros Hs. revert k. induction Hs as [|started h r k' Hs IH Hp]; intros k Hb Hl; [done|].
  unfold rollback_started_services. rewrite rev_app_distr. cbn [rev app foldl]. apply IH.
  - eapply release_placed; [done|done|]. apply (Hl (from_record r)), elem_of_app. right. by constructor.
  - intros s Hin. apply Hl, elem_of_app. by left.
Qed.

End placed.

Section rollback.
Context {U : Undo} {W : UndoWorks} `{HO : HashOrder} (to_lowercase : string → string) (read : string → option string).
Context (anon_volume : string → string → VolumeConfig) (home volumes_dir clock : string) (p : ComposeProject).
Abbreviation up_svc := (up_service to_lowercase read anon_volume home volumes_dir clock p).

Lemma resolve_volume_grows dir now creates spec vols : vols ⊆ (resolve_named_volume dir now creates spec vols).1.
Proof.
  unfold resolve_named_volume. destruct (split ":" spec) as [|hp [|x rest]]; [done|done|]. destruct (_ || _); [done|].
  destruct (vols !! hp) eqn:E; [done|]. destruct creates; [|done]. by apply insert_subseteq.
Qed.
Lemma resolve_volumes_grow dir now creates specs vols : vols ⊆ (resolve_service_volumes dir now creates specs vols).1.
Proof.
  revert vols. induction specs as [|spec specs IH]; intros vols; [done|]. cbn [resolve_service_volumes].
  pose proof (resolve_volume_grows dir now creates spec vols) as Hg. destruct (resolve_named_volume dir now creates spec vols) as [v1 [[r n]|]]; [|done].
  specialize (IH v1). destruct (resolve_service_volumes dir now creates specs v1) as [v2 res]. cbn in *. by transitivity v1.
Qed.
Lemma anonymous_grow box names (vols : gmap string VolumeConfig) :
  vols ⊆ foldl (λ m n, if bool_decide (is_Some (m !! n)) then m else <[n := anon_volume box n]> m) vols names.
Proof.
  revert vols. induction names as [|n names IH]; intros vols; [done|]. cbn [foldl]. etrans; [|apply IH].
  case_bool_decide as Hn; [done|]. apply insert_subseteq. by apply eq_None_not_Some.
Qed.

Lemma connect_adds c id name aliases c' ep : connect_with_aliases c id name aliases = Ok (c', ep) →
  c' = with_endpoints c (<[id := ep]> (net_endpoints c)).
Proof.
  unfold connect_with_aliases. destruct (bool_decide _); [done|]. destruct (Ipam.new _); [|done]. cbn.
  destruct (Ipam.allocate _ _); [|done]. cbn. by intros [= <- <-].
Qed.

(** What the connection does. *)
Lemma connect_service_spec svc e net h k r : NetworkStore.keyed (h_nets h) → map_Forall (λ _ c, net_endpoints c !! ve_box_id e = None) (h_nets h) →
  connect_service p svc e net h = (k, r) →
  match r with
  | Err _ => k = h
  | Ok _ => ∃ nets, k = set_nets nets h ∧
      match net with
      | None => nets = h_nets h
      | Some n => ∃ c ep, h_nets h !! n = Some c ∧ net_endpoints c !! ve_box_id e = None ∧
                    nets = <[n := with_endpoints c (<[ve_box_id e := ep]> (net_endpoints c))]> (h_nets h)
      end
  end.
Proof.
  intros Hk Hf. unfold connect_service. destruct net as [n|]; [|intros [= <- <-]; exists (h_nets h); by destruct h].
  destruct (ve_net_read e); cbn [negb]; [|by intros [= <- <-]]. destruct (h_nets h !! n) as [c|] eqn:Hc; [|by intros [= <- <-]].
  destruct (validate_attachable_network c); [|by intros [= <- <-]].
  destruct (connect_with_aliases c _ _ _) as [[c' ep]|] eqn:E; [|by intros [= <- <-]].
  destruct (ve_net_write e); cbn [negb]; [|by intros [= <- <-]].
  apply connect_adds in E as ->.
  unfold NetworkStore.update_step. cbn [net_name with_endpoints]. rewrite (Hk _ _ Hc). destruct (bool_decide _); [|by intros [= <- <-]].
  intros [= <- <-]. eexists. split; [done|]. exists c, ep. by specialize (Hf n c Hc).
Qed.

Definition quiet (e : svc_env) : Prop := ∀ rs, ve_meanwhile e rs = rs.

Lemma attach_part names n (vols : gmap string VolumeConfig) id k v : vols !! k = Some v →
  alter_all (λ v, attach v id) (take n names) vols !! k = Some v ∨
  k ∈ names ∧ alter_all (λ v, attach v id) (take n names) vols !! k = Some (attach v id).
Proof.
  intros Hv. rewrite lookup_alter_all by (intros x; apply attach_idem). rewrite Hv. case_bool_decide as Hk; [|by left].
  right. split; [|done]. rewrite <-(take_drop n names). apply elem_of_app. by left.
Qed.

(** What a failed boot leaves once its box was cleaned up. *)
Lemma boot_failed_back e names net vols nets h : fresh_box (ve_box_id e) None h → h_vols h ⊆ vols →
  match net with
  | None => nets = h_nets h
  | Some n => ∃ c ep, h_nets h !! n = Some c ∧ net_endpoints c !! ve_box_id e = None ∧
                nets = <[n := with_endpoints c (<[ve_box_id e := ep]> (net_endpoints c))]> (h_nets h)
  end →
  let k := cleanup_box_resources (ve_box_id e) names net
             (set_nets nets (set_dirs ({[ ve_box_id e ]} ∪ h_dirs h) (set_vols vols h))) in
  back ∅ h (delete_box_dir (ve_box_id e) k).
Proof.
  intros (Hd & _ & _ & Hu & _) Hv Hn. cbn zeta. rewrite delete_box_dir_works, cleanup_box_resources_works. cbv zeta.
  assert (h_vols h ⊆ alter_all (λ v, detach v (ve_box_id e)) names vols) as Hvols.
  { apply map_subseteq_spec. intros n v Hnv. rewrite lookup_alter_all by (intros x; apply detach_idem).
    rewrite (lookup_weaken _ _ _ _ Hnv Hv). specialize (Hu n v Hnv). cbn in Hu. case_bool_decide; cbn; [|done]. by rewrite detach_id. }
  destruct net as [n|].
  - destruct Hn as (c & ep & Hc & Hid & ->). split; cbn; [done|done| |done| |done]; [by apply disconnect_placed|]. clear -Hd. set_solver.
  - subst nets. split; cbn; [done..| |done]. clear -Hd. set_solver.
Qed.

(** What a booted service is, whatever of its record was written. *)
Lemma record_service_spec e (h h2 : host) rec k r :
  quiet e → h_mem h = h_disk h → h_mem h2 = h_mem h → h_disk h2 = h_disk h →
  (∀ k', h_nets k' = h_nets h2 → h_procs k' = h_procs h2 → h_dirs k' = h_dirs h2 →
    ((h_mem k', h_disk k') = (h_disk h, h_disk h) ∨ (h_mem k', h_disk k') = (h_disk h ++ [rec], h_disk h) ∨
     (h_mem k', h_disk k') = (h_disk h ++ [rec], h_disk h ++ [rec])) →
    (h_vols k' = h_vols h2 ∨ ∃ n, h_vols k' = alter_all (λ v, attach v (b_id rec)) (take n (b_volume_names rec)) (h_vols h2)) → placed h rec k') →
  record_service e rec h2 = (k, r) → placed h rec k ∧ h_nets k = h_nets h2 ∧
    (is_ok r = true → h_mem k = h_disk h ++ [rec] ∧ h_disk k = h_disk h ++ [rec]).
Proof.
  intros Hq Hm H1 H2 Hp. unfold record_service. rewrite Hq, H2. destruct (ve_load e); cbn [negb].
  2: { intros [= <- <-]. split; [|done]. apply Hp; [done|done|done|left; congruence|by left]. }
  destruct (ve_add e); cbn [negb].
  2: { intros [= <- <-]. split; [|done]. apply Hp; [done|done|done|right; left; done|by left]. }
  destruct (ve_attach e) as [n|]; intros [= <- <-]; (split; [|done]); apply Hp; try done; [by right; right|right; by exists n|by right; right|right; by eexists].
Qed.

(** A box that booted over [h] is placed, whatever of its record and attachments was written. *)
Lemma boot_placed h rec b vols nets k : fresh_box (b_id rec) (Some b) h → h_mem h = h_disk h → b_pid rec = bo_pid b →
  b_anonymous_volumes rec = bo_anonymous b → is_active rec = true ∨ b_pid rec = None → h_vols h ⊆ vols →
  match record_network_name rec with
  | None => nets = h_nets h
  | Some n => ∃ c ep, h_nets h !! n = Some c ∧ net_endpoints c !! b_id rec = None ∧
                nets = <[n := with_endpoints c (<[b_id rec := ep]> (net_endpoints c))]> (h_nets h)
  end →
  h_nets k = nets → h_procs k = match bo_pid b with Some pid => {[ pid ]} ∪ h_procs h | None => h_procs h end →
  h_dirs k = {[ b_id rec ]} ∪ h_dirs h →
  ((h_mem k, h_disk k) = (h_disk h, h_disk h) ∨ (h_mem k, h_disk k) = (h_disk h ++ [rec], h_disk h) ∨
   (h_mem k, h_disk k) = (h_disk h ++ [rec], h_disk h ++ [rec])) →
  (let V := h_vols (booted_host anon_volume (b_id rec) b (set_vols vols h)) in
   h_vols k = V ∨ ∃ n, h_vols k = alter_all (λ v, attach v (b_id rec)) (take n (b_volume_names rec)) V) →
  placed h rec k.
Proof.
  intros (Hd & Hr & Hn & Hu & Hpid & Ha) Hm Eb Ea Hact Hv Hnets K1 K2 K3 K4 K5. split; [done| | | |done|exact K3|].
  - rewrite Eb, Ea. split_and!; try done. intros pid Hb. by rewrite Hb in Hpid.
  - rewrite K1. destruct (record_network_name rec); [|done]. destruct Hnets as (c & ep & ? & ? & ->). exists c, ep. done.
  - by rewrite K2, Eb.
  - intros n v Hnv. assert (h_vols (booted_host anon_volume (b_id rec) b (set_vols vols h)) !! n = Some v) as Hn2.
    { cbn. eapply lookup_weaken; [|apply anonymous_grow]. by eapply lookup_weaken. }
    destruct K5 as [->|[m ->]]; [by left|]. by apply attach_part.
Qed.

(** One turn: a service that starts is placed, one that fails is placed or leaves at most its
    directory. *)
Lemma up_service_spec svc e h k r : (∀ svc, is_ok (service_restart_policy svc (c_services (p_config p) !! svc)) = true) →
  quiet e → h_mem h = h_disk h → NetworkStore.keyed (h_nets h) → fresh_box (ve_box_id e) (ve_boot e) h →
  up_svc svc e h = (k, r) →
  match r with
  | Err (_, None) => ∃ left, left ⊆ {[ ve_box_id e ]} ∧ back left h k
  | Err (_, Some s) => ∃ rec, s = from_record rec ∧ placed h rec k
  | Ok s => ∃ rec, s = from_record rec ∧ placed h rec k ∧ sb_svc s = svc ∧
      h_mem k = h_disk h ++ [rec] ∧ h_disk k = h_disk h ++ [rec] ∧ NetworkStore.keyed (h_nets k)
  end.
Proof.
  intros Hpol Hq Hm Hk Hf. unfold up_service.
  destruct (wait_dependencies p svc e); [|intros [= <- <-]; exists ∅; split; [set_solver|apply back_refl]].
  destruct (build_box_config _ _ _ _ _) as [c|]; [|intros [= <- <-]; exists ∅; split; [set_solver|apply back_refl]].
  pose proof (resolve_volumes_grow volumes_dir clock (ve_volumes e) (volumes c) (h_vols h)) as Hv.
  destruct (resolve_service_volumes _ _ _ _ _) as [vols [[resolved names]|]]; cbn [fst] in Hv.
  2: { intros [= <- <-]. exists ∅. split; [set_solver|]. split; cbn; try done. set_solver. }
  destruct (ve_sockets e); cbn [negb]; [|intros [= <- <-]; exists ∅; split; [set_solver|]; split; cbn; [done..|set_solver|done]].
  assert (∀ kk, kk = set_dirs ({[ ve_box_id e ]} ∪ h_dirs h) (set_vols vols h) → back {[ ve_box_id e ]} h kk) as Hleft.
  { intros kk ->. split; cbn; [done..|set_solver|done]. }
  destruct (ve_logs e); cbn [negb]; [|intros [= <- <-]; exists {[ ve_box_id e ]}; split; [done|by apply Hleft]].
  destruct (connect_service _ _ _ _ _) as [h1 [[]|err]] eqn:Ec; (apply connect_service_spec in Ec; [|by cbn|by destruct Hf as (_ & _ & Hn & _)]).
  2: { intros [= <- <-]. exists {[ ve_box_id e ]}. split; [done|by apply Hleft]. }
  destruct Ec as (nets & -> & Hnets). cbn [h_nets set_dirs set_vols] in Hnets. destruct (ve_boot e) as [b|].
  2: { intros [= <- <-]. exists ∅. split; [set_solver|]. by apply boot_failed_back. }
  specialize (Hpol svc). destruct (service_restart_policy _ _) as [policy|]; [|done].
  destruct (record_service _ _ _) as [h2 r'] eqn:Er. set (rec := service_record _ _ _ _ _ _ _ _ _ _) in *.
  apply (record_service_spec e h) in Er as (Hpl & Hn2 & Hok); [|done|done|done|done|].
  2: { clear Er. intros k' K1 K2 K3 K4 K5. eapply (boot_placed h rec b vols nets); try done; [by left|].
       assert (record_network_name rec = net_of c) as -> by (unfold record_network_name, rec, net_of; cbn; unfold net_of; by destruct (network c)).
       done. }
  destruct r' as [[]|err]; intros [= <- <-]; [|by exists rec].
  exists rec. destruct (Hok eq_refl). split_and!; try done.
  - cbn. by rewrite lookup_insert_eq.
  - rewrite Hn2. cbn. destruct (net_of c); [|by rewrite Hnets]. destruct Hnets as (c' & ep & Hc & _ & ->).
    intros n c'' [[<- <-]|[_ ?]]%lookup_insert_Some; [|auto]. cbn. by apply Hk.
Qed.

(** The boxes a run brings are new when their turn comes. *)
Fixpoint fresh_run (envs : list svc_env) (order : list string) (h : host) {struct order} : Prop :=
  match order, envs with
  | svc :: order, e :: envs =>
      fresh_box (ve_box_id e) (ve_boot e) h ∧
      match up_svc svc e h with (h', Ok _) => fresh_run envs order h' | _ => True end
  | _, _ => True
  end.

#[export] Instance fresh_run_dec envs order h : Decision (fresh_run envs order h).
Proof.
  revert envs h. induction order as [|svc order IH]; intros envs h; [left; by destruct envs|]. destruct envs as [|e envs]; [by left|]. cbn [fresh_run].
  destruct (up_svc svc e h) as [h' [s|]]; apply _.
Defined.

Context (Hpol : ∀ svc, is_ok (service_restart_policy svc (c_services (p_config p) !! svc)) = true).

Lemma up_services_spec envs order started created h0 h k r : Forall quiet envs →
  h_mem h = h_disk h → NetworkStore.keyed (h_nets h) → fresh_run envs order h → stack h0 started h →
  up_services to_lowercase read anon_volume home volumes_dir clock p envs order started created h = (k, r) →
  match r with
  | Err _ => ∃ left k0, k = cleanup_created_networks created k0 ∧ (size left ≤ 1)%nat ∧ back left h0 k0
  | Ok all => ∃ recs, h_disk k = h_disk h ++ recs ∧ h_mem k = h_disk k ∧ all = started ++ map from_record recs ∧
      map (λ r, default "" (b_labels r !! LABEL_SERVICE)) recs = order ∧ stack h0 all k
  end.
Proof.
  intros Hq. revert envs Hq started h. induction order as [|svc order IH]; intros envs Hq started h Hm Hk Hf Hs; cbn [up_services].
  { intros [= <- <-]. exists []. cbn. by rewrite !app_nil_r. }
  destruct envs as [|e envs].
  { intros [= <- <-]. exists ∅, (rollback_started_services started h). split; [done|]. split; [by rewrite size_empty; lia|].
    eapply stack_rollback; [done|apply back_refl|]. intros s _. set_solver. }
  apply list.Forall_cons in Hq as [Hqe Hq]. cbn [fresh_run] in Hf. destruct Hf as [Hfe Hf].
  destruct (up_svc svc e h) as [h1 [s|[err [s|]]]] eqn:Es; pose proof (up_service_spec _ _ _ _ _ Hpol Hqe Hm Hk Hfe Es) as Hsp; cbn in Hsp.
  - destruct Hsp as (rec & -> & Hp & Hsvc & Hm1 & Hd1 & Hk1). intros Hr.
    eapply IH in Hr; [|done|congruence|done|done|by eapply stack_snoc].
    destruct r as [all|]; [|done]. destruct Hr as (recs & Hd & Hmm & -> & Ho & Hst). exists (rec :: recs).
    rewrite Hd, Hd1. cbn [map]. rewrite <-!app_assoc in *. split_and!; try done; [by rewrite Hmm, Hd, Hd1, <-app_assoc|]. by rewrite Ho, <-Hsvc.
  - destruct Hsp as (rec & -> & Hp). intros [= <- <-]. exists ∅, (rollback_started_services (started ++ [from_record rec]) h1).
    split; [done|]. split; [by rewrite size_empty; lia|]. eapply stack_rollback; [by eapply stack_snoc|apply back_refl|]. intros x _. set_solver.
  - destruct Hsp as (left & Hl & Hb). intros [= <- <-]. exists left, (rollback_started_services started h1). split; [done|]. split.
    { transitivity (size ({[ ve_box_id e ]} : gset string)); [by apply subseteq_size|]. by rewrite size_singleton. }
    eapply stack_rollback; [done|done|]. intros s Hin Hsl. apply Hl, elem_of_singleton in Hsl. destruct Hfe as (Hd & _).
    apply Hd. rewrite <-Hsl. by eapply stack_dirs.
Qed.

(** *** Networks *)

Lemma drop_network_delete nets n : drop_network nets n = delete n nets.
Proof.
  unfold drop_network, NetworkStore.remove_step. rewrite works_clear, works_drop, lookup_alter_eq.
  destruct (nets !! n) as [c|] eqn:E; cbn [fmap option_fmap option_map ok_or mbind result_bind].
  - rewrite bool_decide_true by done. cbn [negb]. apply map_eq. intros k.
    destruct (decide (k = n)) as [->|]; [by rewrite !lookup_delete_eq|]. by rewrite !lookup_delete_ne, lookup_alter_ne.
  - rewrite delete_id by done. apply map_eq. intros k.
    destruct (decide (k = n)) as [->|]; [by rewrite lookup_alter_eq, E|]. by rewrite lookup_alter_ne.
Qed.

Lemma create_networks_spec reads writes names i created h k created' r : NetworkStore.keyed (h_nets h) →
  create_networks clock reads writes i names created h = (k, created', r) →
  ∃ new nets, created' = created ++ new ∧ k = set_nets nets h ∧ NetworkStore.keyed nets ∧
    foldl drop_network nets (rev new) = h_nets h.
Proof.
  revert i created h. induction names as [|name names IH]; intros i created h Hk; cbn [create_networks].
  { intros [= <- <- <-]. exists [], (h_nets h). rewrite app_nil_r. split_and!; [done|by destruct h|done|done]. }
  assert (∀ x, (h, created, x) = (k, created', r) → ∃ new nets, created' = created ++ new ∧ k = set_nets nets h ∧ NetworkStore.keyed nets ∧
    foldl drop_network nets (rev new) = h_nets h) as Hstop.
  { intros x [= <- <- _]. exists [], (h_nets h). rewrite app_nil_r. split_and!; [done|by destruct h|done|done]. }
  destruct (reads i); cbn [negb]; [|exact (Hstop _)]. destruct (h_nets h !! name) as [c|] eqn:Hc.
  { destruct (validate_attachable_network c); [by apply IH|exact (Hstop _)]. }
  destruct (network_new name (compose_subnet i) clock) as [c|] eqn:Hn; [|exact (Hstop _)].
  destruct (validate_attachable_network c); [|exact (Hstop _)]. destruct (writes i); cbn [negb]; [|exact (Hstop _)].
  assert (net_name c = name) as Hname.
  { clear -Hn. unfold network_new in Hn. destruct (Ipam.new _) as [ip|]; [|discriminate]. cbn [mbind result_bind] in Hn. injection Hn as Hn. by rewrite <-Hn. }
  destruct (NetworkStore.create_step c (h_nets h)) as [[nets []]|] eqn:Es; [|exact (Hstop _)].
  pose proof (NetworkStore.create_step_keyed _ _ _ _ Hk Es) as Hk'. intros Hr. apply IH in Hr as (new & nets' & -> & -> & Hk2 & Hd); [|done].
  exists (name :: new), nets'. rewrite <-app_assoc. split_and!; [done|by destruct h|done|]. cbn [rev]. rewrite foldl_app, Hd. cbn [foldl h_nets set_nets].
  rewrite drop_network_delete. unfold NetworkStore.create_step in Es. rewrite Hname in Es. destruct (bool_decide _); [done|]. injection Es as <-.
  by apply delete_insert_id.
Qed.

Definition fresh_up (reads writes : nat → bool) (envs : list svc_env) (h : host) : Prop :=
  match create_networks clock reads writes 0 (required_networks p) [] h with
  | (h, _, Ok _) => fresh_run envs (p_service_order p) h
  | _ => True
  end.

#[export] Instance fresh_up_dec reads writes envs h : Decision (fresh_up reads writes envs h).
Proof. unfold fresh_up. destruct (create_networks _ _ _ _ _ _ _) as [[h' c] [u|]]; apply _. Defined.

Lemma up_project_spec reads writes envs h k r : Forall quiet envs → h_mem h = h_disk h → NetworkStore.keyed (h_nets h) →
  fresh_up reads writes envs h →
  up_project to_lowercase read anon_volume home volumes_dir clock p reads writes envs h = (k, r) →
  match r with
  | Err _ => ∃ left, (size left ≤ 1)%nat ∧ back left h k
  | Ok all => ∃ recs, h_disk k = h_disk h ++ recs ∧ all = map from_record recs ∧
      map (λ r, default "" (b_labels r !! LABEL_SERVICE)) recs = p_service_order p
  end.
Proof.
  intros Hq Hm Hk Hf. unfold up_project, fresh_up in *. destruct (List.filter _ _); [|intros [= <- <-]; exists ∅; split; [by rewrite size_empty; lia|apply back_refl]].
  destruct (create_networks _ _ _ _ _ _ _) as [[h1 created] r1] eqn:Ec. apply create_networks_spec in Ec as (new & nets & -> & -> & Hk1 & Hd); [|done].
  cbn [app] in *. destruct r1 as [[]|err].
  - intros Hr. eapply (up_services_spec _ _ [] _ (set_nets nets h)) in Hr; [|done|done|done|done|constructor].
    destruct r as [all|err]; [destruct Hr as (recs & Hd' & _ & -> & Ho & _); by exists recs|].
    destruct Hr as (left & k0 & -> & Hl & [B1 B2 B3 B4 B5 B6]). exists left. split; [done|]. split; cbn; try done. by rewrite B3.
  - intros [= <- <-]. exists ∅. split; [by rewrite size_empty; lia|]. split; cbn; [done|done|done|done|set_solver|done].
Qed.
End rollback.

Lemma policies_valid `{HashOrder} config : validate_compose_restart_policies config = Ok () →
  ∀ svc, is_ok (service_restart_policy svc (c_services config !! svc)) = true.
Proof.
  intros Hv svc. destruct (c_services config !! svc) as [s|] eqn:E; [|done].
  unfold validate_compose_restart_policies in Hv.
  assert ((svc, s) ∈ hash_iter (c_services config)) as Hin by (by apply elem_of_hash_iter).
  induction (hash_iter (c_services config)) as [|kv l IH]; [by apply not_elem_of_nil in Hin|].
  cbn in Hv. destruct (service_restart_policy kv.1 (Some kv.2)) as [x|] eqn:Es; [|done]. cbn in Hv.
  apply elem_of_cons in Hin as [<-|Hin]; [by cbn in Es; rewrite Es|auto].
Qed.

(** What [compose up] ends with: everything, or nothing. *)
Definition up_outcome `{HashOrder} (project : string) (config : ComposeConfig) (base_dir : string) (h k : host) (r : result up_error (list ServiceBox)) : Prop :=
  match r with
  | Ok all => ∃ recs p, with_base_dir project config base_dir = Some (Ok p) ∧ h_disk k = h_disk h ++ recs ∧ all = map from_record recs ∧
      map (λ r, default "" (b_labels r !! LABEL_SERVICE)) recs = p_service_order p
  | Err _ => h_disk k = h_disk h ∧ h_nets k = h_nets h ∧ h_procs k = h_procs h ∧ h_vols h ⊆ h_vols k ∧
      ∃ left : gset string, (size left ≤ 1)%nat ∧ h_dirs k = h_dirs h ∪ left
  end.


(** ** Down *)

Section down_facts.
Context {U : Undo} {W : UndoWorks}.

Lemma release_fields s h : h_mem (release_service s h) = drop_id (sb_id s) (h_mem h) ∧
  h_disk (release_service s h) = (if (length (drop_id (sb_id s) (h_mem h)) <? length (h_mem h))%nat then drop_id (sb_id s) (h_mem h) else h_disk h) ∧
  h_procs (release_service s h) = match (if is_active_status (sb_status s) then sb_pid s else None) with Some pid => h_procs h ∖ {[ pid ]} | None => h_procs h end ∧
  h_nets (release_service s h) = match sb_network s with Some n => disconnect_net n (sb_id s) (h_nets h) | None => h_nets h end.
Proof.
  unfold release_service. rewrite state_remove_works. cbv zeta. set (k := cleanup_service_box _ _).
  destruct (cleanup_service_fields s h) as (E1 & E2 & E4 & E3 & _). fold k in E1, E2, E3, E4.
  rewrite E1. destruct (Nat.ltb _ _); cbn [h_mem h_disk h_procs h_nets set_state]; by rewrite ?E2, ?E3, ?E4.
Qed.

Lemma release_all boxes h : let k := foldl (λ h s, release_service s h) h boxes in
  h_mem k = foldl (λ rs s, drop_id (sb_id s) rs) (h_mem h) boxes ∧
  h_procs k = h_procs h ∖ list_to_set (omap (λ s, if is_active_status (sb_status s) then sb_pid s else None) boxes) ∧
  (h_mem h = h_disk h → h_mem k = h_disk k).
Proof.
  revert h. induction boxes as [|s boxes IH]; intros h; cbn [foldl omap list_omap]; [cbn; split_and!; [done|set_solver|done]|].
  destruct (IH (release_service s h)) as (-> & -> & IHd). destruct (release_fields s h) as (E1 & E2 & E3 & _). rewrite E1, E3. split_and!.
  - done.
  - destruct (if is_active_status (sb_status s) then sb_pid s else None); [|done]. cbn. set_solver.
  - intros Hm. rewrite <-IHd; [by rewrite E1|]. rewrite E1, E2. destruct (Nat.ltb_spec (length (drop_id (sb_id s) (h_mem h))) (length (h_mem h))); [done|].
    rewrite <-Hm. clear -H. unfold drop_id in *. induction (h_mem h) as [|r rs IH]; [done|]. cbn in *.
    pose proof (List.filter_length_le (λ r, negb (bool_decide (b_id r = sb_id s))) rs). destruct (negb _); cbn in *; [|lia]. f_equal. apply IH. lia.
Qed.

Lemma release_services_works boxes h : release_services boxes h = (foldl (λ h s, release_service s h) h boxes, Ok ()).
Proof.
  revert h. induction boxes as [|s boxes IH]; intros h; [done|]. cbn [release_services foldl].
  rewrite works_state, andb_false_r. apply IH.
Qed.

Lemma drop_networks_delete names nets : foldl drop_network nets names = foldl (λ m n, delete n m) nets names.
Proof. revert nets. induction names as [|n names IH]; intros nets; [done|]. cbn. by rewrite drop_network_delete, IH. Qed.

(** The first box that is released brings the file to the copy in memory. *)
Lemma release_syncs s h r : r ∈ h_mem h → sb_id s = b_id r → h_mem (release_service s h) = h_disk (release_service s h).
Proof.
  intros Hr Hs. destruct (release_fields s h) as (-> & -> & _). rewrite (proj2 (Nat.ltb_lt _ _)); [done|]. rewrite Hs. clear Hs s.
  unfold drop_id. induction (h_mem h) as [|x rs IH]; [by apply not_elem_of_nil in Hr|]. cbn [List.filter length].
  pose proof (List.filter_length_le (λ y, negb (bool_decide (b_id y = b_id r))) rs). apply elem_of_cons in Hr as [<-|Hr].
  - rewrite bool_decide_true by done. cbn. lia.
  - specialize (IH Hr). destruct (negb _); cbn; lia.
Qed.

Lemma drop_all_ids boxes rs : foldl (λ rs s, drop_id (sb_id s) rs) rs boxes = List.filter (λ r, negb (bool_decide (b_id r ∈ map sb_id boxes))) rs.
Proof.
  revert rs. induction boxes as [|s boxes IH]; intros rs; cbn [foldl map].
  - induction rs as [|r rs IH]; [done|]. cbn. by rewrite <-IH.
  - rewrite IH. unfold drop_id. clear IH. induction rs as [|r rs IH]; [done|]. cbn [List.filter].
    destruct (decide (b_id r = sb_id s)) as [E|Hne].
    + rewrite (bool_decide_true (b_id r = sb_id s)), (bool_decide_true (b_id r ∈ sb_id s :: _)) by (done || rewrite E; constructor). done.
    + rewrite (bool_decide_false (b_id r = sb_id s)) by done. cbn [negb List.filter].
      rewrite (bool_decide_ext (b_id r ∈ sb_id s :: map sb_id boxes) (b_id r ∈ map sb_id boxes)) by (rewrite elem_of_cons; naive_solver).
      by rewrite IH.
Qed.

Lemma NoDup_map_eq {A B} (f : A → B) (l : list A) x y : NoDup (map f l) → x ∈ l → y ∈ l → f x = f y → x = y.
Proof.
  induction l as [|a l IH]; [by intros _ ?%not_elem_of_nil|]. cbn. intros [Ha Hnd]%NoDup_cons Hx Hy E.
  apply elem_of_cons in Hx as [->|Hx], Hy as [->|Hy]; [done| | |by apply IH].
  - destruct Ha. rewrite E. by apply list_elem_of_fmap_2.
  - destruct Ha. rewrite <-E. by apply list_elem_of_fmap_2.
Qed.

Lemma filter_project project rs : NoDup (map b_id rs) →
  List.filter (λ r, negb (bool_decide (b_id r ∈ map b_id (find_by_label rs LABEL_PROJECT project)))) rs
  = List.filter (λ r, negb (in_project project r)) rs.
Proof.
  intros Hnd. apply List.filter_ext_in. intros r Hr%list_elem_of_In. f_equal. unfold in_project. apply bool_decide_ext. split.
  - intros (r' & E & Hr')%list_elem_of_fmap. unfold find_by_label in Hr'. apply elem_of_filter_b in Hr' as [Hin Hl].
    apply bool_decide_eq_true in Hl. enough (r = r') as -> by done. by eapply (NoDup_map_eq b_id).
  - intros Hl. apply list_elem_of_fmap. exists r. split; [done|]. apply elem_of_filter_b. split; [done|]. by apply bool_decide_eq_true.
Qed.

(** [compose down] removes the project and nothing else from the records: whatever other
    processes wrote meanwhile, the state file ends with the records of the other boxes as they
    were when the command began, the processes of the project's active boxes are gone, and no
    network with the project's prefix is left. *)
Theorem down_exact project vols meanwhile h h' r : NoDup (map b_id (h_disk h)) → find_by_label (h_disk h) LABEL_PROJECT project ≠ [] →
  execute_down project vols true meanwhile h = (h', r) →
  r = Ok () ∧ h_disk h' = List.filter (λ r, negb (in_project project r)) (h_disk h) ∧
  (∀ x pid, x ∈ h_disk h → in_project project x = true → is_active x = true → b_pid x = Some pid → pid ∉ h_procs h') ∧
  (∀ n, is_Some (h_nets h' !! n) → starts_with (project +:+ "_") n = false).
Proof.
  intros Hnd Hne. unfold execute_down, cleanup_anonymous_volumes. cbn [negb h_mem set_state h_disk].
  set (l := find_by_label (h_disk h) LABEL_PROJECT project) in *. destruct (map from_record l) as [|b bs] eqn:Eb; [by destruct l|].
  set (boxes := b :: bs) in *. set (h1 := set_state (h_disk h) (meanwhile (h_disk h)) _).
  rewrite release_services_works. set (h2 := foldl (λ h s, release_service s h) h1 (rev boxes)).
  assert (h_mem h2 = List.filter (λ r, negb (in_project project r)) (h_disk h)) as Hmem.
  { unfold h2. rewrite (proj1 (release_all _ _)). rewrite drop_all_ids. cbn [h1 h_mem set_state]. rewrite <-(filter_project project) by done. fold l.
    apply List.filter_ext. intros x. f_equal. apply bool_decide_ext. rewrite map_rev, <-Eb, map_map. cbn [sb_id from_record].
    change (map (λ x, b_id x) l) with (map b_id l). by rewrite list_elem_of_In, <-in_rev, <-list_elem_of_In. }
  assert (h_mem h2 = h_disk h2) as Hsync.
  { unfold h2. assert (∃ s0 rest, rev boxes = s0 :: rest) as (s0 & rest & E).
    { destruct (rev boxes) as [|s0 rest] eqn:E; [|eauto]. apply (f_equal (@rev ServiceBox)) in E. by rewrite rev_involutive in E. }
    rewrite E. cbn [foldl]. apply release_all. assert (s0 ∈ boxes) as Hin by (rewrite list_elem_of_In, in_rev, E; by left).
    rewrite <-Eb in Hin. apply list_elem_of_fmap in Hin as (r0 & -> & Hr0). apply (release_syncs _ _ r0); [|done].
    cbn. unfold l, find_by_label in Hr0. by apply elem_of_filter_b in Hr0 as [? _]. }
  assert (∀ x pid, x ∈ h_disk h → in_project project x = true → is_active x = true → b_pid x = Some pid → pid ∉ h_procs h2) as Hprocs.
  { intros x pid Hx Hp Ha Hpid. unfold h2. destruct (release_all (rev boxes) h1) as (_ & -> & _). intros [_ Hn]%elem_of_difference. apply Hn.
    apply elem_of_list_to_set, list_elem_of_omap. exists (from_record x). split.
    - rewrite list_elem_of_In, <-in_rev, <-list_elem_of_In. rewrite <-Eb. apply list_elem_of_fmap_2. unfold l, find_by_label.
      apply elem_of_filter_b. done.
    - cbn. unfold is_active in Ha. by rewrite Ha. }
  intros E. injection E as <- <-. split_and!; [done| | |].
  - destruct vols; cbn [h_disk set_nets set_vols]; by rewrite <-Hsync.
  - destruct vols; exact Hprocs.
  - intros n [c Hc]. assert (cleanup_project_networks project (h_nets h2) !! n = Some c) as Hf by (by destruct vols).
    unfold cleanup_project_networks in Hf. rewrite drop_networks_delete, lookup_delete_all in Hf.
    case_bool_decide as Hin; [done|]. apply not_true_iff_false. intros Hst. apply Hin, elem_of_filter_b. split; [|done].
    apply list_elem_of_fmap. exists (n, c). split; [done|]. by apply elem_of_map_to_list.
Qed.
End down_facts.

(** ** Witnesses and defects *)

(** A host on which everything can be undone *)
#[local] Instance undo_all : Undo :=
  {| ok_process := λ _, true; ok_detach := λ _ _, true; ok_disconnect := λ _ _, true; ok_anonymous := λ _, true;
     ok_dir := λ _, true; ok_state := λ _, true; ok_clear := λ _, true; ok_drop := λ _, true |}.
#[local] Instance undo_all_works : UndoWorks.
Proof. by split. Qed.

Definition demo_config : ComposeConfig :=
  {| c_version := None;
     c_services := <["db" := demo_service "pg" DepEmpty]> (<["web" := demo_service "nginx" (DepList ["db"])]> ∅);
     c_volumes := ∅; c_networks := ∅ |}.
Definition demo_env (id : string) (boot : option booted) (healthy : list (option records)) : svc_env :=
  {| ve_healthy := healthy; ve_completed := []; ve_volumes := true; ve_box_id := id; ve_sockets := true; ve_logs := true;
     ve_net_read := true; ve_net_write := true; ve_boot := boot; ve_meanwhile := λ rs, rs; ve_load := true; ve_add := true;
     ve_attach := None; ve_now := 5 |}.
Definition demo_boot (pid : Z) : booted :=
  {| bo_pid := Some pid; bo_exec_socket := None; bo_anonymous := ["anon"]; bo_health := None; bo_stop_signal := None |}.
Definition demo_anon (box n : string) : VolumeConfig := volume_new n "" "".
Definition demo_host : host :=
  {| h_mem := []; h_disk := [demo_record "old" "old" "running" (Some 1) "no"]; h_nets := ∅; h_vols := ∅; h_dirs := {["old"]}; h_procs := {[1]} |}.
Definition demo_up (envs : list svc_env) : option (host * result up_error (list ServiceBox)) :=
  execute_up (H := list_order) id (λ _, None) demo_anon "/h" "/v" "now" "shop" "." demo_config true (λ _, true) (λ _, true) envs demo_host.
Definition failing_envs : list svc_env := [demo_env "b1" (Some (demo_boot 7)) []; demo_env "b2" None []].

Definition demo_project : ComposeProject :=
  match with_base_dir (H := list_order) "shop" demo_config "." with
  | Some (Ok p) => p
  | _ => {| p_name := ""; p_config := demo_config; p_service_order := []; p_service_boxes := ∅; p_networks := []; p_base_dir := "" |}
  end.
Lemma demo_project_ok : with_base_dir (H := list_order) "shop" demo_config "." = Some (Ok demo_project).
Proof. vm_compute. reflexivity. Qed.
Definition up_result : host * result up_error (list ServiceBox) := default (demo_host, Err StateFailed) (demo_up failing_envs).
Lemma up_result_ok : demo_up failing_envs = Some up_result.
Proof. vm_compute. reflexivity. Qed.
Lemma up_result_fails : up_result.2 = Err (StartFailed "web").
Proof. vm_compute. reflexivity. Qed.

Lemma some_ok_inj {E A} (x y : A) : Some (Ok (E := E) x) = Some (Ok y) → x = y.
Proof. by intros [= ->]. Qed.


(** The whole project comes up in dependency order. *)
Lemma demo_up_ok :
  match demo_up [demo_env "b1" (Some (demo_boot 7)) []; demo_env "b2" (Some {| bo_pid := Some 8; bo_exec_socket := None; bo_anonymous := []; bo_health := None; bo_stop_signal := None |}) []] with
  | Some (k, Ok started) => map sb_svc started = ["db"; "web"] ∧ map b_name (h_disk k) = ["old"; "shop-db"; "shop-web"] ∧ h_procs k = {[1; 7; 8]}
  | _ => False
  end.
Proof. vm_compute. done. Qed.

(** A record of a service of a project *)
Definition demo_rec (project box : string) (b : booted) : BoxRecord :=
  service_record id "/h" {| p_name := project; p_config := demo_config; p_service_order := []; p_service_boxes := ∅; p_networks := []; p_base_dir := "." |}
    "db" (demo_env box None []) box_default [] [] b ("no", 0).

(** What another command adds to the state file while [down] stops the services is lost: the
    file is replaced by the copy of the beginning. *)
Lemma down_loses_new_box :
  let h := {| h_mem := []; h_disk := [demo_rec "shop" "a" (demo_boot 7)]; h_nets := ∅; h_vols := ∅; h_dirs := ∅; h_procs := ∅ |} in
  h_disk (execute_down "shop" false true (λ rs, rs ++ [demo_record "new" "new" "running" (Some 9) "no"]) h).1 = [].
Proof. vm_compute. reflexivity. Qed.

Lemma down_exact_witness :
  let h := {| h_mem := []; h_disk := [demo_rec "shop" "a" (demo_boot 7); demo_record "old" "old" "running" (Some 1) "no"];
              h_nets := ∅; h_vols := ∅; h_dirs := ∅; h_procs := {[1; 7]} |} in
  h_disk (execute_down "shop" false true id h).1 = [demo_record "old" "old" "running" (Some 1) "no"].
Proof.
  intros h. destruct (down_exact "shop" false id h (execute_down "shop" false true id h).1 (execute_down "shop" false true id h).2) as (_ & E & _).
  - apply (bool_decide_unpack _). vm_compute. reflexivity.
  - vm_compute. discriminate.
  - apply surjective_pairing.
  - rewrite E. vm_compute. reflexivity.
Defined.

(** The prefix of a project is also that of projects whose name goes on after an underscore:
    their networks are disconnected and removed. *)
Lemma down_takes_other_networks c : cleanup_project_networks "shop" {[ "shop_eu_default" := c ]} = ∅.
Proof.
  unfold cleanup_project_networks. rewrite map_to_list_singleton. cbn [fmap list_fmap fst List.filter].
  change (starts_with _ _) with true. cbn [foldl]. rewrite drop_network_delete. by apply delete_singleton_eq.
Qed.

(** When nothing can be written any more, the failure of the second service leaves the first
    one's endpoint, volumes, record and directory behind; only its process is gone. *)
Lemma failed_undo_leaves_box :
  let U := {| ok_process := λ _, true; ok_detach := λ _ _, false; ok_disconnect := λ _ _, false; ok_anonymous := λ _, false;
              ok_dir := λ _, false; ok_state := λ _, false; ok_clear := λ _, false; ok_drop := λ _, false |} in
  match execute_up (U := U) (H := list_order) id (λ _, None) demo_anon "/h" "/v" "now" "shop" "." demo_config true (λ _, true)
          (λ _, true) failing_envs demo_host with
  | Some (k, Err (StartFailed "web")) => map b_name (h_disk k) = ["old"; "shop-db"] ∧ h_procs k = {[1]} ∧ h_dirs k = {["old"; "b1"; "b2"]} ∧
      is_Some (h_vols k !! "anon")
  | _ => False
  end.
Proof. vm_compute. split_and!; [done|done|done|by eexists]. Qed.

(** Memory of a service: the first start and the record, which restarts use, read it differently. *)
Lemma memory_read_twice :
  parse_compose_memory id "1073741824" = Ok 1024 ∧ parse_memory id "1073741824" = Some 1073741824 ∧
  parse_compose_memory id "1.5g" = Ok 1536 ∧ parse_memory id "1.5g" = None.
Proof. vm_compute. done. Qed.

(** A service of an earlier run that completed, and is still in the records, counts for the new
    one, which runs. *)
Lemma earlier_run_completes :
  let v := live_of (demo_rec "shop" "o" (demo_boot 7)) in
  let old := with_live (demo_rec "shop" "o" (demo_boot 7))
    {| v_status := "dead"; v_pid := None; v_exec_socket_path := ""; v_started_at := None; v_stopped_by_user := false; v_restart_count := 0;
       v_exit_code := Some 0; v_health_check := None; v_health_status := "none"; v_health_retries := 0; v_health_last_check := None;
       v_anonymous_volumes := []; v_stop_signal := None |} in
  wait_for_completed "shop" ["db"] [(Some [old; demo_rec "shop" "n" (demo_boot 8)], λ _, false)] = Ok ().
Proof. vm_compute. reflexivity. Qed.

(** A directory is left when the network cannot be written. *)
Lemma failed_connect_leaves_directory :
  match demo_up [{| ve_healthy := []; ve_completed := []; ve_volumes := true; ve_box_id := "b1"; ve_sockets := true; ve_logs := true;
     ve_net_read := true; ve_net_write := false; ve_boot := None; ve_meanwhile := λ rs, rs; ve_load := true; ve_add := true;
     ve_attach := None; ve_now := 5 |}] with
  | Some (k, Err _) => h_dirs k = {["old"; "b1"]}
  | _ => False
  end.
Proof. vm_compute. reflexivity. Qed.
