(* ===== verification/RunCmd.v ===== *)
(** * RunCmd: creating and running boxes

    The options [run] and [create] share ([cli/src/commands/common.rs]), [run] with its foreground
    wait and its rollback ([cli/src/commands/run.rs]), [create], [container-update], and the boot of
    a box from its record with the resources it needs ([cli/src/boot.rs]).  The host is the one of
    [ComposeCmd]; its answers are arguments. *)

From Stdlib Require Import ZArith Lia Ascii.
From stdpp Require Import base gmap strings list numbers fin_maps sets.
From S2P Require Import Build Prelude RustStr RustFloat IpAddr Network Store Options Security Compose BoxState Lifecycle Logs VmManager ComposeCmd Config.

Local Open Scope string_scope.
Local Open Scope list_scope.
Local Open Scope Z_scope.

(** ** Options *)

Record CommonBoxArgs := {
  ca_image : string; ca_name : option string; ca_cpus : Z; ca_memory : string; ca_volumes : list string; ca_env : list string;
  ca_publish : list string; ca_dns : list string; ca_entrypoint : option string; ca_hostname : option string; ca_user : option string;
  ca_workdir : option string; ca_restart : string; ca_labels : list string; ca_tmpfs : list string; ca_network : option string;
  ca_health_cmd : option string; ca_health_interval : Z; ca_health_timeout : Z; ca_health_retries : Z; ca_health_start_period : Z;
  ca_pids_limit : option Z; ca_cpuset_cpus : option string; ca_ulimits : list string; ca_cpu_shares : option Z; ca_cpu_quota : option Z;
  ca_cpu_period : option Z; ca_memory_reservation : option string; ca_memory_swap : option string; ca_env_file : list string;
  ca_add_host : list string; ca_platform : option string; ca_init : bool; ca_read_only : bool; ca_cap_add : list string;
  ca_cap_drop : list string; ca_security_opt : list string; ca_privileged : bool; ca_device : list string; ca_gpus : option string;
  ca_shm_size : option string; ca_stop_signal : option string; ca_stop_timeout : option Z; ca_no_healthcheck : bool;
  ca_oom_kill_disable : bool; ca_oom_score_adj : option Z; ca_persistent : bool }.

Record RunArgs := {
  ra_common : CommonBoxArgs; ra_detach : bool; ra_interactive : bool; ra_tty : bool; ra_rm : bool; ra_cmd : list string;
  ra_log_driver : string; ra_log_opts : list string; ra_tee : bool; ra_tee_workload_id : option string; ra_tee_simulate : bool;
  ra_sidecar : option string; ra_sidecar_vsock_port : Z }.

Inductive run_error :=
| DetachTty | NotATerminal | DeviceUnsupported | GpusUnsupported | UserEmpty | UserShape (user : string) | UserPart (label user : string)
| WorkdirEmpty | WorkdirNul | PortInvalid (e : port_err) | NoHostPort (entry : string) | HostnameInvalid (e : dns_err) | AddHostInvalid (e : dns_err)
| AppArmor (opt : string) | SELinux (opt : string) | SeccompUnsupported (path : string) | RestartInvalid (e : policy_err)
| MemoryInvalid (option : string) | DriverInvalid (e : string) | PairInvalid (what : string) (e : env_err) | EnvFile (e : env_err)
| RunVolume (e : up_error) | RunNetwork (e : up_error) | ImageUnreadable | RunMkdir | RunBoot | RunState | RunAttach | WaitFailed | DestroyFailed
| UpdateRefused (e : resize_err) | UpdateBox (e : resolve_err) | UpdateChannel.

(** [parse_env_vars] of the command line: the last value of a key counts. *)
Definition cli_env_map (l : list (string * string)) : gmap string string := list_to_map (rev l).
Definition cli_parse_env_vars (vars : list string) : result env_err (gmap string string) := cli_env_map <$> parse_env_vars vars.
Definition cli_parse_env_file (read : string → option string) (path : string) : result env_err (gmap string string) :=
  cli_env_map <$> parse_env_file read path.

(** [build_env_map]: [--env] first, then the files, which add what is not there. *)
Fixpoint add_env_files (read : string → option string) (files : list string) (env : gmap string string) : result run_error (gmap string string) :=
  match files with
  | [] => Ok env
  | f :: files => m ← map_err EnvFile (cli_parse_env_file read f); add_env_files read files (env ∪ m)
  end.
Definition build_env_map (host_env read : string → option string) (a : CommonBoxArgs) : result run_error (gmap string string) :=
  add_env_files read (ca_env_file a) (cli_env_map (parse_runtime_env_vars host_env (ca_env a))).

(** ** Health checks and stop signals *)

Definition health_check_command (test : list string) : option (list string) :=
  match test with
  | [] => None
  | marker :: rest =>
      if eq_ignore_ascii_case marker "NONE" then None
      else
        let cmd :=
          if eq_ignore_ascii_case marker "CMD" then rest
          else if eq_ignore_ascii_case marker "CMD-SHELL" then
            let shell_cmd := join " " rest in if is_empty shell_cmd then [] else ["sh"; "-c"; shell_cmd]
          else test in
        match cmd with [] => None | _ => Some cmd end
  end.
Definition health_check_from_oci (hc : OciHealthCheck) : option HealthCheck :=
  cmd ← health_check_command (Build.hc_test hc);
  Some {| hk_cmd := cmd; hk_interval_secs := default 30 (Build.hc_interval hc); hk_timeout_secs := default 30 (Build.hc_timeout hc);
          hk_retries := default 3 (Build.hc_retries hc); hk_start_period_secs := default 0 (Build.hc_start_period hc) |}.
Definition effective_health_check (a : CommonBoxArgs) (image_health_check : option OciHealthCheck) : option HealthCheck :=
  if ca_no_healthcheck a then None
  else match ca_health_cmd a with
       | Some cmd => Some {| hk_cmd := ["sh"; "-c"; cmd]; hk_interval_secs := ca_health_interval a;
                             hk_timeout_secs := ca_health_timeout a; hk_retries := ca_health_retries a;
                             hk_start_period_secs := ca_health_start_period a |}
       | None => image_health_check ≫= health_check_from_oci
       end.

Definition not_blank (s : option string) : option string := s ≫= (λ s, if is_empty (trim s) then None else Some s).
Definition effective_stop_signal (cli image : option string) : option string :=
  match not_blank cli with Some s => Some s | None => not_blank image end.

(** ** Ports *)

(** [resolve_auto_host_port]; [port] is the port the system gives, if it gives one. *)
Definition resolve_auto_host_port (port : option Z) (entry : string) : result run_error string :=
  match split_once ":" entry with
  | None => Ok entry
  | Some (h, guest) =>
      if bool_decide (h = "0") then port ← ok_or (NoHostPort entry) port; Ok (show_uint port +:+ ":" +:+ guest)
      else Ok entry
  end.
Fixpoint resolve_ports (bind : nat → option Z) (i : nat) (entries : list string) : result run_error (list string) :=
  match entries with
  | [] => Ok []
  | e :: entries => e ← resolve_auto_host_port (bind i) e; l ← resolve_ports bind (S i) entries; Ok (e :: l)
  end.
(** [common::normalize_port_maps]; [bind i] is the answer to the [i]-th request for a port. *)
Definition publish_port_maps (bind : nat → option Z) (i : nat) (entries : list string) : result run_error (list string) :=
  l ← map_err PortInvalid (normalize_port_maps entries); resolve_ports bind i l.

(** ** Users, directories, sizes *)

Definition normalize_user_part (part label original : string) : result run_error string :=
  if is_empty part then Err (UserPart label original)
  else if has_char nul part then Err (UserPart label original)
  else if bool_decide (part = "root") then Ok "0" else Ok part.
Definition normalize_user_option (user : option string) : result run_error (option string) :=
  match user with
  | None => Ok None
  | Some user =>
      let user := trim user in
      if is_empty user then Err UserEmpty else
      match split ":" user with
      | [u] => uid ← normalize_user_part u "user" user; Ok (Some uid)
      | [u; g] =>
          uid ← normalize_user_part u "user" user;
          gid ← normalize_user_part g "group" user;
          Ok (Some (uid +:+ ":" +:+ gid))
      | _ => Err (UserShape user)
      end
  end.
Definition validate_workdir_option (workdir : option string) : result run_error () :=
  match workdir with
  | None => Ok ()
  | Some w => if is_empty w then Err WorkdirEmpty else if has_char nul w then Err WorkdirNul else Ok ()
  end.

(** [parse_memory_bytes]: the product is taken modulo [2 ^ 64]. *)
Definition memory_unit (s : string) : option (string * Z) :=
  if ends_with "gb" s || ends_with "g" s then Some (trim_end_matches "g" (trim_end_matches "gb" s), 1024 * 1024 * 1024)
  else if ends_with "mb" s || ends_with "m" s then Some (trim_end_matches "m" (trim_end_matches "mb" s), 1024 * 1024)
  else if ends_with "kb" s || ends_with "k" s then Some (trim_end_matches "k" (trim_end_matches "kb" s), 1024)
  else if ends_with "b" s then Some (trim_end_matches "b" s, 1)
  else None.
Definition parse_memory_bytes (to_lowercase : string → string) (text : string) : option Z :=
  let s := to_lowercase (trim text) in
  if is_empty s then None else
  match parse_uint 64 s with
  | Some bytes => Some bytes
  | None => '(num, multiplier) ← memory_unit s; n ← parse_uint 64 num; Some (wrap 64 (n * multiplier))
  end.

(** [as i64] *)
Definition as_i64 (n : Z) : Z := if n <? 2 ^ 63 then n else n - 2 ^ 64.

(** An option with a size, if it is given *)
Definition size_option (to_lowercase : string → string) (name : string) (text : option string) : result run_error (option Z) :=
  match text with
  | None => Ok None
  | Some s => n ← ok_or (MemoryInvalid name) (parse_memory_bytes to_lowercase s); Ok (Some n)
  end.
Definition swap_option (to_lowercase : string → string) (text : option string) : result run_error (option Z) :=
  if bool_decide (text = Some "-1") then Ok (Some (-1))
  else n ← size_option to_lowercase "--memory-swap" text; Ok (option_map as_i64 n).
Definition build_resource_limits (to_lowercase : string → string) (a : CommonBoxArgs) : result run_error ResourceLimits :=
  memory_reservation ← size_option to_lowercase "--memory-reservation" (ca_memory_reservation a);
  memory_swap ← swap_option to_lowercase (ca_memory_swap a);
  Ok {| pids_limit := ca_pids_limit a; cpuset_cpus := ca_cpuset_cpus a; ulimits := ca_ulimits a; cpu_shares := ca_cpu_shares a;
        cpu_quota := ca_cpu_quota a; cpu_period := ca_cpu_period a; memory_reservation := memory_reservation; memory_swap := memory_swap |}.

(** ** Checks *)

Definition check_security_opt (opt : string) : result run_error () :=
  let opt := trim opt in
  if starts_with "apparmor=" opt then Err (AppArmor opt)
  else if starts_with "label=" opt then Err (SELinux opt) else Ok ().

(** The names of a box: checked when it is created and again when it boots from its record. *)
Definition check_names (hostname : option string) (add_host : list string) : result run_error () :=
  _ ← match hostname with Some h => map_err HostnameInvalid (validate_hostname h) | None => Ok () end;
  _ ← map_err AddHostInvalid (parse_add_host_entries add_host);
  Ok ().

Definition validate_runtime_options (bind : nat → option Z) (a : CommonBoxArgs) : result run_error () :=
  if negb (bool_decide (ca_device a = [])) then Err DeviceUnsupported
  else if bool_decide (is_Some (ca_gpus a)) then Err GpusUnsupported
  else
    _ ← normalize_user_option (ca_user a);
    _ ← validate_workdir_option (ca_workdir a);
    _ ← publish_port_maps bind 0 (ca_publish a);
    _ ← check_names (ca_hostname a) (ca_add_host a);
    _ ← for_each check_security_opt (ca_security_opt a);
    map_err SeccompUnsupported (validate_security (from_options (ca_security_opt a) (ca_cap_add a) (ca_cap_drop a) (ca_privileged a))).

Definition validate_run_mode (a : RunArgs) (stdin_is_terminal : bool) : result run_error () :=
  if ra_detach a && ra_tty a then Err DetachTty
  else if ra_tty a && negb stdin_is_terminal then Err NotATerminal else Ok ().

(** ** The configuration of a box *)

Definition run_network (net : option string) : NetworkMode := match net with Some n => Bridge n | None => Tsi end.

Definition build_tee_config (a : RunArgs) : TeeConfig :=
  if ra_tee a || ra_tee_simulate a then
    SevSnp (default (ca_image (ra_common a)) (ra_tee_workload_id a)) Milan (ra_tee_simulate a)
  else TeeNone.

Definition interactive_keepalive_entrypoint : list string :=
  ["/bin/sh"; "-c"; "trap 'exit 0' TERM INT; while :; do sleep 3600; done"].

(** The directories of [--tmpfs] and the one of [--shm-size] *)
Definition tmpfs_with_shm (tmpfs : list string) (shm_size : option Z) : list string :=
  tmpfs ++ match shm_size with Some n => ["/dev/shm:size=" +:+ show_uint n] | None => [] end.

(** [run::build_box_config] *)
Definition run_box_config (a : RunArgs) (memory : Z) (limits : ResourceLimits) (entry : option (list string)) (vols : list string)
    (env : list (string * string)) (ports : list string) (net : NetworkMode) (tmp : list string) (t : TeeConfig) : result run_error BoxConfig :=
  let c := ra_common a in
  let '(command, entry) := if ra_tty a then (["a3s-box-pty-keepalive"], Some interactive_keepalive_entrypoint) else (ra_cmd a, entry) in
  u ← normalize_user_option (ca_user c);
  Ok {| image := ca_image c; workspace := workspace box_default;
        resources := {| vcpus := ca_cpus c; memory_mb := memory; disk_mb := disk_mb resource_default; timeout := timeout resource_default |};
        log_level := log_level box_default; debug_grpc := debug_grpc box_default; tee := t; cmd := command; entrypoint_override := entry;
        user := u; workdir := ca_workdir c; hostname := ca_hostname c; volumes := vols; extra_env := env; cache := cache box_default;
        pool := pool box_default; port_map := ports; dns := ca_dns c; add_hosts := ca_add_host c; network := net; tmpfs := tmp;
        resource_limits := limits; cap_add := ca_cap_add c; cap_drop := ca_cap_drop c; security_opt := ca_security_opt c;
        sysctls := sysctls box_default; privileged := ca_privileged c; read_only := ca_read_only c;
        sidecar := (λ image, {| sidecar_image := image; vsock_port := ra_sidecar_vsock_port a; sidecar_env := [] |}) <$> ra_sidecar a;
        persistent := ca_persistent c || negb (ra_rm a) |}.

(** [boot::config_from_record] *)
Definition config_from_record `{HashOrder} (bind : nat → option Z) (r : BoxRecord) : result run_error BoxConfig :=
  u ← normalize_user_option (b_user r);
  _ ← validate_workdir_option (b_workdir r);
  ports ← publish_port_maps bind 0 (b_port_map r);
  _ ← check_names (b_hostname r) (b_add_host r);
  Ok {| image := b_image r; workspace := workspace box_default;
        resources := {| vcpus := b_cpus r; memory_mb := b_memory_mb r; disk_mb := disk_mb resource_default; timeout := timeout resource_default |};
        log_level := log_level box_default; debug_grpc := debug_grpc box_default; tee := tee box_default; cmd := b_cmd r;
        entrypoint_override := b_entrypoint r; user := u; workdir := b_workdir r; hostname := b_hostname r; volumes := b_volumes r;
        extra_env := hash_iter (b_env r); cache := cache box_default; pool := pool box_default; port_map := ports; dns := dns box_default;
        add_hosts := b_add_host r; network := b_network_mode r; tmpfs := tmpfs_with_shm (b_tmpfs r) (b_shm_size r);
        resource_limits := b_resource_limits r; cap_add := b_cap_add r; cap_drop := b_cap_drop r; security_opt := b_security_opt r;
        sysctls := sysctls box_default; privileged := b_privileged r; read_only := b_read_only r; sidecar := sidecar box_default;
        persistent := persistent box_default |}.

(** ** The options as they are read *)

(** What [run] and [create] compute from the options before they touch the host. *)
Record parsed := {
  pa_restart : string * Z; pa_memory : Z; pa_limits : ResourceLimits; pa_ports : list string; pa_env : gmap string string;
  pa_labels : gmap string string; pa_log : LogConfig }.

(** What the host answers while a box is created or run; a failed attachment comes after some of the
    volumes.  [re_image] is the configuration of the image: of the machine that booted, or of the
    local image store for [create]. *)
Record run_boot := { rb_pid : option Z; rb_exec_socket : option string; rb_anonymous : list string; rb_image : option OciImageConfig }.
Record run_env := {
  re_bind : nat → option Z; re_host_env : string → option string; re_read : string → option string; re_name : string;
  re_volumes : bool; re_box_id : string; re_net_read : bool; re_net_write : bool; re_boot : option run_boot;
  re_cached : option (option OciImageConfig); re_sockets : bool; re_logs : bool; re_load : bool; re_meanwhile : records → records;
  re_add : bool; re_attach : option nat; re_reload : bool; re_now : Z }.

Section commands.
Context {U : Undo} `{HashOrder} (to_lowercase to_uppercase : string → string) (anon_volume : string → string → VolumeConfig) (home volumes_dir clock : string).

(** The options of [run], in the order they are read *)
Definition run_options (e : run_env) (ra : RunArgs) : result run_error parsed :=
  let a := ra_common ra in
  _ ← validate_runtime_options (re_bind e) a;
  policy ← map_err RestartInvalid (parse_restart_policy (ca_restart a));
  memory ← ok_or (MemoryInvalid "--memory") (parse_memory to_lowercase (ca_memory a));
  limits ← build_resource_limits to_lowercase a;
  driver ← map_err DriverInvalid (parse_driver (ra_log_driver ra));
  opts ← map_err (PairInvalid "log option") (cli_parse_env_vars (ra_log_opts ra));
  env ← build_env_map (re_host_env e) (re_read e) a;
  ports ← publish_port_maps (re_bind e) (length (ca_publish a)) (ca_publish a);
  labels ← map_err (PairInvalid "label") (cli_parse_env_vars (ca_labels a));
  Ok {| pa_restart := policy; pa_memory := memory; pa_limits := limits; pa_ports := ports; pa_env := env; pa_labels := labels;
        pa_log := {| driver := driver; log_options := opts |} |}.

(** and those of [create] *)
Definition create_options (e : run_env) (a : CommonBoxArgs) : result run_error parsed :=
  _ ← validate_runtime_options (re_bind e) a;
  policy ← map_err RestartInvalid (parse_restart_policy (ca_restart a));
  memory ← ok_or (MemoryInvalid "--memory") (parse_memory to_lowercase (ca_memory a));
  limits ← build_resource_limits to_lowercase a;
  ports ← publish_port_maps (re_bind e) (length (ca_publish a)) (ca_publish a);
  env ← build_env_map (re_host_env e) (re_read e) a;
  labels ← map_err (PairInvalid "label") (cli_parse_env_vars (ca_labels a));
  Ok {| pa_restart := policy; pa_memory := memory; pa_limits := limits; pa_ports := ports; pa_env := env; pa_labels := labels;
        pa_log := log_default |}.

Definition entrypoint_words (a : CommonBoxArgs) : option (list string) := split_whitespace <$> ca_entrypoint a.

(** The record of a box; the arguments are what [run] and [create] give differently. *)
Definition box_record (e : run_env) (a : CommonBoxArgs) (p : parsed) (command resolved names : list string) (status : string)
    (b : run_boot) (rm : bool) (shm : option Z) (health : option HealthCheck) : BoxRecord :=
  let box_dir := home +:+ "/boxes/" +:+ re_box_id e in
  let running := bool_decide (status = "running") in
  {| b_id := re_box_id e; b_short_id := make_short_id (re_box_id e); b_name := default (re_name e) (ca_name a); b_image := ca_image a;
     b_status := status; b_pid := rb_pid b; b_cpus := ca_cpus a; b_memory_mb := pa_memory p; b_volumes := resolved; b_env := pa_env p;
     b_cmd := command; b_entrypoint := entrypoint_words a; b_box_dir := box_dir;
     b_exec_socket_path := default (box_dir +:+ "/sockets/exec.sock") (rb_exec_socket b); b_console_log := box_dir +:+ "/logs/console.log";
     b_created_at := re_now e; b_started_at := if running then Some (re_now e) else None; b_auto_remove := rm;
     b_hostname := ca_hostname a; b_user := ca_user a; b_workdir := ca_workdir a; b_restart_policy := (pa_restart p).1;
     b_port_map := pa_ports p; b_labels := pa_labels p; b_stopped_by_user := false; b_restart_count := 0;
     b_max_restart_count := (pa_restart p).2; b_exit_code := None; b_health_check := health; b_healthcheck_disabled := ca_no_healthcheck a;
     b_health_status := match health with Some _ => if running then "starting" else "none" | None => "none" end; b_health_retries := 0;
     b_health_last_check := None; b_network_mode := run_network (ca_network a); b_network_name := ca_network a;
     b_volume_names := names; b_tmpfs := ca_tmpfs a; b_anonymous_volumes := rb_anonymous b; b_resource_limits := pa_limits p;
     b_log_config := pa_log p; b_add_host := ca_add_host a; b_platform := ca_platform a; b_init := ca_init a; b_read_only := ca_read_only a;
     b_cap_add := ca_cap_add a; b_cap_drop := ca_cap_drop a; b_security_opt := ca_security_opt a; b_privileged := ca_privileged a;
     b_devices := ca_device a; b_gpus := ca_gpus a; b_shm_size := shm;
     b_stop_signal := effective_stop_signal (ca_stop_signal a) (rb_image b ≫= oc_stop_signal); b_stop_timeout := ca_stop_timeout a;
     b_oom_kill_disable := ca_oom_kill_disable a; b_oom_score_adj := ca_oom_score_adj a |}.

(** ** run: up to the running box *)

Record RunContext := { rc_record : BoxRecord; rc_config : BoxConfig; rc_stop_signal : Z; rc_stop_timeout_ms : Z }.

(** [run::connect_network] *)
Definition connect_network (e : run_env) (net : option string) (name : string) (h : host) : host * result run_error () :=
  match net with
  | None => (h, Ok ())
  | Some n =>
      if negb (re_net_read e) then (h, Err (RunNetwork NetReadFailed)) else
      match h_nets h !! n with
      | None => (h, Err (RunNetwork (NetworkMissing n)))
      | Some c =>
          match validate_attachable_network c with
          | Err err => (h, Err (RunNetwork err))
          | Ok _ =>
              match connect c (re_box_id e) name with
              | Err err => (h, Err (RunNetwork (ConnectFailed name err)))
              | Ok (c', _) =>
                  if negb (re_net_write e) then (h, Err (RunNetwork (NetWriteFailed None))) else
                  match NetworkStore.update_step c' (h_nets h) with
                  | Ok (nets, _) => (set_nets nets h, Ok ())
                  | Err err => (h, Err (RunNetwork (NetWriteFailed (Some err))))
                  end
              end
          end
      end
  end.

(** [cleanup::cleanup_removed_box], [cleanup::cleanup_partial_box_record] *)
Definition cleanup_removed_box (r : BoxRecord) (h : host) : host :=
  let h := cleanup_box_resources (b_id r) (b_volume_names r) (record_network_name r) h in
  let h := cleanup_anonymous_volumes (b_anonymous_volumes r) h in
  delete_box_dir (b_id r) h.
Definition cleanup_partial_box_record (r : BoxRecord) (h : host) : host := state_remove (b_id r) (cleanup_removed_box r h).

(** [VmManager::destroy_with_options] as the host sees it: the process of the box is stopped. *)
Definition destroy_vm (r : BoxRecord) (h : host) : host :=
  match b_pid r with Some pid => set_procs (h_procs h ∖ {[ pid ]}) h | None => h end.
Definition rollback_booted_setup (r : BoxRecord) (h : host) : host :=
  cleanup_partial_box_record r (if ok_process (b_id r) then destroy_vm r h else h).

Definition as_booted (b : run_boot) : booted :=
  {| bo_pid := rb_pid b; bo_exec_socket := rb_exec_socket b; bo_anonymous := rb_anonymous b; bo_health := None; bo_stop_signal := None |}.

(** The record in the state file, the volumes attached, the directory of the logs: the rest is rolled
    back when one of them fails.  The state file that cannot be read is the exception. *)
Definition register_box (e : run_env) (r : BoxRecord) (h : host) : host * result run_error () :=
  if negb (re_load e) then (h, Err RunState) else
  let disk := re_meanwhile e (h_disk h) in
  let rs := disk ++ [r] in
  if negb (re_add e) then (rollback_booted_setup r (set_state rs disk h), Err RunState) else
  let h := set_state rs rs h in
  let attached n := set_vols (alter_all (λ v, attach v (b_id r)) (take n (b_volume_names r)) (h_vols h)) h in
  match re_attach e with
  | Some n => (rollback_booted_setup r (attached n), Err RunAttach)
  | None =>
      let h := attached (length (b_volume_names r)) in
      if re_logs e then (h, Ok ()) else (rollback_booted_setup r h, Err RunMkdir)
  end.

Definition setup_and_boot (e : run_env) (ra : RunArgs) (h : host) : host * result run_error RunContext :=
  let a := ra_common ra in
  match run_options e ra with
  | Err err => (h, Err err)
  | Ok p =>
  match resolve_service_volumes volumes_dir clock (re_volumes e) (ca_volumes a) (h_vols h) with
  | (vols, Err err) => (set_vols vols h, Err (RunVolume err))
  | (vols, Ok (resolved, names)) =>
  let h := set_vols vols h in
  match (shm ← size_option to_lowercase "--shm-size" (ca_shm_size a);
         c ← run_box_config ra (pa_memory p) (pa_limits p) (entrypoint_words a) resolved (hash_iter (pa_env p)) (pa_ports p)
               (run_network (ca_network a)) (tmpfs_with_shm (ca_tmpfs a) shm) (build_tee_config ra);
         Ok (shm, c)) with
  | Err err => (h, Err err)
  | Ok (shm, c) =>
  match connect_network e (ca_network a) (default (re_name e) (ca_name a)) h with
  | (h, Err err) => (h, Err err)
  | (h, Ok _) =>
  match re_boot e with
  | None => (cleanup_box_resources (re_box_id e) names (ca_network a) h, Err RunBoot)
  | Some b =>
  let h := booted_host anon_volume (re_box_id e) (as_booted b) (set_dirs ({[ re_box_id e ]} ∪ h_dirs h) h) in
  let health := effective_health_check a (rb_image b ≫= oc_health_check) in
  let r := box_record e a p (ra_cmd ra) resolved names "running" b (ra_rm ra) shm health in
  match register_box e r h with
  | (h, Err err) => (h, Err err)
  | (h, Ok _) =>
      (h, Ok {| rc_record := r; rc_config := c;
                rc_stop_signal := default 15 (parse_signal_name to_uppercase <$> b_stop_signal r);
                rc_stop_timeout_ms := match ca_stop_timeout a with Some secs => wrap 64 (secs * 1000) | None => DEFAULT_SHUTDOWN_TIMEOUT_MS end |})
  end end end end end end.

(** ** run: in the foreground *)

Inductive ForegroundStopReason := ProcessExited | UserInterrupted | VmUnhealthy.
Definition reason_stopped_by_user (r : ForegroundStopReason) : bool := match r with UserInterrupted => true | _ => false end.
Definition foreground_exit_code (r : ForegroundStopReason) (vm_exit_code : option Z) : option Z :=
  match vm_exit_code with
  | Some c => Some c
  | None => match r with ProcessExited => None | UserInterrupted => Some 130 | VmUnhealthy => Some 1 end
  end.
Definition foreground_completion_message (r : ForegroundStopReason) (auto_remove : bool) (name : string) : string :=
  match r, auto_remove with
  | ProcessExited, true => "Box " +:+ name +:+ " exited and was removed."
  | ProcessExited, false => "Box " +:+ name +:+ " exited."
  | UserInterrupted, true => "Box " +:+ name +:+ " removed."
  | UserInterrupted, false => "Box " +:+ name +:+ " stopped."
  | VmUnhealthy, true => "Box " +:+ name +:+ " stopped after VM health check failed and was removed."
  | VmUnhealthy, false => "Box " +:+ name +:+ " stopped after VM health check failed."
  end.

(** What a turn of the wait sees: the interrupt, or the answers of [try_wait_exit] ([None] is an
    error) and of the health check. *)
Inductive fg_event := CtrlC | Tick (exited : option bool) (healthy : bool).
Fixpoint watch (events : list fg_event) : option (result run_error ForegroundStopReason) :=
  match events with
  | [] => None
  | CtrlC :: _ => Some (Ok UserInterrupted)
  | Tick None _ :: _ => Some (Err WaitFailed)
  | Tick (Some true) _ :: _ => Some (Ok ProcessExited)
  | Tick (Some false) false :: _ => Some (Ok VmUnhealthy)
  | Tick (Some false) true :: events => watch events
  end.

Definition mark_record_stopped (exit_code : option Z) (by_user : bool) (r : BoxRecord) : BoxRecord :=
  with_live r
    {| v_status := "stopped"; v_pid := None; v_exec_socket_path := b_exec_socket_path r; v_started_at := b_started_at r;
       v_stopped_by_user := by_user; v_restart_count := b_restart_count r; v_exit_code := exit_code; v_health_check := b_health_check r;
       v_health_status := b_health_status r; v_health_retries := b_health_retries r; v_health_last_check := b_health_last_check r;
       v_anonymous_volumes := b_anonymous_volumes r; v_stop_signal := b_stop_signal r |}.

(** What the host answers while a box is taken down. *)
Record fg_env := { fe_destroys : bool; fe_net_read : bool; fe_net_write : bool; fe_load : bool; fe_meanwhile : records → records; fe_save : bool }.

(** [run::disconnect_network] *)
Definition disconnect_network (f : fg_env) (box_id : string) (net : option string) (h : host) : host * result run_error () :=
  match net with
  | None => (h, Ok ())
  | Some n =>
      if negb (fe_net_read f) then (h, Err (RunNetwork NetReadFailed)) else
      match h_nets h !! n with
      | None => (h, Ok ())
      | Some _ => if fe_net_write f then (set_nets (disconnect_net n box_id (h_nets h)) h, Ok ()) else (h, Err (RunNetwork (NetWriteFailed None)))
      end
  end.

(** The end of [run_foreground], and [cleanup_box] of the interactive mode *)
Definition cleanup_box (f : fg_env) (r : BoxRecord) (net : option string) (auto_remove by_user : bool) (exit_code : option Z) (h : host)
    : host * result run_error () :=
  if negb (fe_destroys f) then (h, Err DestroyFailed) else
  let h := destroy_vm r h in
  let h := detach_box_volumes (b_id r) (b_volume_names r) h in
  match disconnect_network f (b_id r) net h with
  | (h, Err err) => (h, Err err)
  | (h, Ok _) =>
  if negb (fe_load f) then (h, Err RunState) else
  let disk := fe_meanwhile f (h_disk h) in
  let rs := update_by_id (b_id r) (mark_record_stopped exit_code by_user) disk in
  if auto_remove then
    let h := cleanup_anonymous_volumes (b_anonymous_volumes r) (set_state rs disk h) in
    if state_shrinks (b_id r) h && negb (fe_save f) then (state_remove_with false (b_id r) h, Err RunState) else
    (delete_box_dir (b_id r) (state_remove_with true (b_id r) h), Ok ())
  else if fe_save f then (set_state rs rs h, Ok ()) else (set_state rs disk h, Err RunState)
  end.

(** [run] in the foreground: the exit code of the command. *)
Definition run_foreground (f : fg_env) (ctx : RunContext) (ra : RunArgs) (events : list fg_event) (vm_exit_code : option Z) (h : host)
    : option (host * result run_error (option Z * string)) :=
  r ← watch events;
  match r with
  | Err err => Some (h, Err err)
  | Ok reason =>
      let code := foreground_exit_code reason vm_exit_code in
      let '(h, res) := cleanup_box f (rc_record ctx) (ca_network (ra_common ra)) (ra_rm ra) (reason_stopped_by_user reason) code h in
      Some (h, _ ← res; Ok (code, foreground_completion_message reason (ra_rm ra) (b_name (rc_record ctx))))
  end.

(** [run -t]: what the terminal runs, and the end of the session.  [session] is its exit code, or
    [None] when the terminal could not be opened. *)
Definition pty_cmd (ra : RunArgs) : list string :=
  match ra_cmd ra with [] => default ["/bin/sh"] (entrypoint_words (ra_common ra)) | cmd => cmd end.
Definition run_tty (f : fg_env) (ctx : RunContext) (ra : RunArgs) (session : option Z) (h : host) : host * result run_error Z :=
  match session with
  | None => (h, Err WaitFailed)
  | Some code =>
      let '(h, res) := cleanup_box f (rc_record ctx) (ca_network (ra_common ra)) (ra_rm ra) false (Some code) h in
      (h, _ ← res; Ok code)
  end.

(** ** create *)

Definition ensure_network_exists (e : run_env) (n : string) (h : host) : result run_error () :=
  if negb (re_net_read e) then Err (RunNetwork NetReadFailed) else
  c ← ok_or (RunNetwork (NetworkMissing n)) (h_nets h !! n);
  map_err RunNetwork (validate_attachable_network c).

(** What [create] does once the directories are there: the volumes, the record, the attachments; the
    record goes through [StateFile::add_record]. *)
Definition no_boot (img : option OciImageConfig) : run_boot := {| rb_pid := None; rb_exec_socket := None; rb_anonymous := []; rb_image := img |}.
Definition create_record (e : run_env) (a : CommonBoxArgs) (p : parsed) (command resolved names : list string) (shm : option Z)
    (img : option OciImageConfig) : BoxRecord :=
  box_record e a p command resolved names "created" (no_boot img) false shm (effective_health_check a (img ≫= oc_health_check)).
Definition register_created (e : run_env) (r : BoxRecord) (h : host) : host * result run_error () :=
  let cleanup h err := if re_reload e then (cleanup_partial_box_record r (set_state (h_disk h) (h_disk h) h), Err err) else (h, Err RunState) in
  if negb (re_add e) then cleanup h RunState else
  let h := set_state (h_mem h) (h_disk h ++ [r]) h in
  let attached n := set_vols (alter_all (λ v, attach v (b_id r)) (take n (b_volume_names r)) (h_vols h)) h in
  match re_attach e with
  | Some n => cleanup (attached n) RunAttach
  | None => (attached (length (b_volume_names r)), Ok ())
  end.

Definition create_box (e : run_env) (a : CommonBoxArgs) (command : list string) (h : host) : host * result run_error BoxRecord :=
  match (p ← create_options e a;
         _ ← match ca_network a with Some n => ensure_network_exists e n h | None => Ok () end;
         img ← ok_or ImageUnreadable (re_cached e);
         shm ← size_option to_lowercase "--shm-size" (ca_shm_size a);
         Ok (p, img, shm)) with
  | Err err => (h, Err err)
  | Ok (p, img, shm) =>
  if negb (re_sockets e) then (h, Err RunMkdir) else
  let h := set_dirs ({[ re_box_id e ]} ∪ h_dirs h) h in
  if negb (re_logs e) then (h, Err RunMkdir) else
  match resolve_service_volumes volumes_dir clock (re_volumes e) (ca_volumes a) (h_vols h) with
  | (vols, Err err) => (set_vols vols h, Err (RunVolume err))
  | (vols, Ok (resolved, names)) =>
  let r := create_record e a p command resolved names shm img in
  match register_created e r (set_vols vols h) with
  | (h, Err err) => (h, Err err)
  | (h, Ok _) => (h, Ok r)
  end end end.

(** ** Booting from a record *)

(** [ensure_network_connected] *)
Definition ensure_network_connected (e : run_env) (r : BoxRecord) (h : host) : host * result run_error () :=
  match record_network_name r with
  | None => (h, Ok ())
  | Some n =>
      if negb (re_net_read e) then (h, Err (RunNetwork NetReadFailed)) else
      match h_nets h !! n with
      | None => (h, Err (RunNetwork (NetworkMissing n)))
      | Some c =>
          match validate_attachable_network c with
          | Err err => (h, Err (RunNetwork err))
          | Ok _ =>
              if bool_decide (is_Some (net_endpoints c !! b_id r)) then (h, Ok ()) else
              match connect c (b_id r) (b_name r) with
              | Err err => (h, Err (RunNetwork (ConnectFailed (b_name r) err)))
              | Ok (c', _) =>
                  if negb (re_net_write e) then (h, Err (RunNetwork (NetWriteFailed None))) else
                  match NetworkStore.update_step c' (h_nets h) with
                  | Ok (nets, _) => (set_nets nets h, Ok ())
                  | Err err => (h, Err (RunNetwork (NetWriteFailed (Some err))))
                  end
              end
          end
      end
  end.

(** The rollback of [BootResourceGuard] *)
Definition guard_rollback (r : BoxRecord) (h : host) : host :=
  cleanup_box_resources (b_id r) (b_volume_names r) (record_network_name r) h.
Definition ensure_boot_resources (e : run_env) (r : BoxRecord) (h : host) : host * result run_error () :=
  match ensure_network_connected e r h with
  | (h, Err err) => (h, Err err)
  | (h, Ok _) =>
      let attached n := set_vols (alter_all (λ v, attach v (b_id r)) (take n (b_volume_names r)) (h_vols h)) h in
      match b_volume_names r, re_attach e with
      | [], _ => (h, Ok ())
      | _, Some n => (guard_rollback r (attached n), Err RunAttach)
      | names, None => (attached (length names), Ok ())
      end
  end.

(** [boot::boot_from_record] *)
Definition booted_health (r : BoxRecord) (img : option OciImageConfig) : option HealthCheck :=
  if b_healthcheck_disabled r then None
  else match b_health_check r with Some c => Some c | None => (img ≫= oc_health_check) ≫= health_check_from_oci end.
Definition boot_record (e : run_env) (r : BoxRecord) (h : host) : host * result run_error (BoxConfig * BootResult) :=
  match config_from_record (re_bind e) r with
  | Err err => (h, Err err)
  | Ok c =>
  match ensure_boot_resources e r h with
  | (h, Err err) => (h, Err err)
  | (h, Ok _) =>
  match re_boot e with
  | None => (guard_rollback r h, Err RunBoot)
  | Some b =>
      (booted_host anon_volume (b_id r) (as_booted b) (set_dirs ({[ b_id r ]} ∪ h_dirs h) h),
       Ok (c, {| br_pid := rb_pid b; br_exec_socket_path := rb_exec_socket b; br_health_check := booted_health r (rb_image b);
                 br_stop_signal := effective_stop_signal (b_stop_signal r) (rb_image b ≫= oc_stop_signal);
                 br_anonymous_volumes := rb_anonymous b |}))
  end end end.

(** ** container-update *)

Record UpdateArgs := {
  ua_cpus : option Z; ua_memory : option string; ua_memory_reservation : option string; ua_memory_swap : option string;
  ua_pids_limit : option Z; ua_cpu_shares : option Z; ua_cpu_quota : option Z; ua_cpu_period : option Z; ua_cpuset_cpus : option string;
  ua_restart : option string }.

(** The values given, as an update and as a new record; [None] when nothing is given. *)
Definition or_keep {A} (new old : option A) : option A := match new with Some x => Some x | None => old end.
Definition update_limits (u old : ResourceLimits) : ResourceLimits :=
  {| pids_limit := or_keep (pids_limit u) (pids_limit old); cpuset_cpus := or_keep (cpuset_cpus u) (cpuset_cpus old); ulimits := ulimits old;
     cpu_shares := or_keep (cpu_shares u) (cpu_shares old); cpu_quota := or_keep (cpu_quota u) (cpu_quota old);
     cpu_period := or_keep (cpu_period u) (cpu_period old); memory_reservation := or_keep (memory_reservation u) (memory_reservation old);
     memory_swap := or_keep (memory_swap u) (memory_swap old) |}.
Definition read_update (u : UpdateArgs) : result run_error (ResourceUpdate * option (string * Z)) :=
  memory ← match ua_memory u with None => Ok None | Some m => n ← ok_or (MemoryInvalid "--memory") (parse_memory to_lowercase m); Ok (Some n) end;
  reservation ← size_option to_lowercase "--memory-reservation" (ua_memory_reservation u);
  swap ← swap_option to_lowercase (ua_memory_swap u);
  restart ← match ua_restart u with None => Ok None | Some p => r ← map_err RestartInvalid (parse_restart_policy p); Ok (Some r) end;
  Ok ({| ru_vcpus := ua_cpus u; ru_memory_mb := memory;
         ru_limits := {| pids_limit := ua_pids_limit u; cpuset_cpus := ua_cpuset_cpus u; ulimits := []; cpu_shares := ua_cpu_shares u;
                         cpu_quota := ua_cpu_quota u; cpu_period := ua_cpu_period u; memory_reservation := reservation; memory_swap := swap |} |},
      restart).
Definition nothing_to_update (u : ResourceUpdate) (restart : option (string * Z)) : bool :=
  negb (has_tier1_changes u) && negb (has_tier2_changes u) && bool_decide (restart = None).
End commands.

(** A record with the updated fields *)
Definition updated_record (u : ResourceUpdate) (restart : option (string * Z)) (r : BoxRecord) : BoxRecord :=
  {| b_id := b_id r; b_short_id := b_short_id r; b_name := b_name r; b_image := b_image r; b_status := b_status r; b_pid := b_pid r;
     b_cpus := default (b_cpus r) (ru_vcpus u); b_memory_mb := default (b_memory_mb r) (ru_memory_mb u); b_volumes := b_volumes r;
     b_env := b_env r; b_cmd := b_cmd r; b_entrypoint := b_entrypoint r; b_box_dir := b_box_dir r;
     b_exec_socket_path := b_exec_socket_path r; b_console_log := b_console_log r; b_created_at := b_created_at r;
     b_started_at := b_started_at r; b_auto_remove := b_auto_remove r; b_hostname := b_hostname r; b_user := b_user r;
     b_workdir := b_workdir r; b_restart_policy := default (b_restart_policy r) (fst <$> restart); b_port_map := b_port_map r;
     b_labels := b_labels r; b_stopped_by_user := b_stopped_by_user r; b_restart_count := b_restart_count r;
     b_max_restart_count := default (b_max_restart_count r) (snd <$> restart); b_exit_code := b_exit_code r;
     b_health_check := b_health_check r; b_healthcheck_disabled := b_healthcheck_disabled r; b_health_status := b_health_status r;
     b_health_retries := b_health_retries r; b_health_last_check := b_health_last_check r; b_network_mode := b_network_mode r;
     b_network_name := b_network_name r; b_volume_names := b_volume_names r; b_tmpfs := b_tmpfs r;
     b_anonymous_volumes := b_anonymous_volumes r; b_resource_limits := update_limits (ru_limits u) (b_resource_limits r);
     b_log_config := b_log_config r; b_add_host := b_add_host r; b_platform := b_platform r; b_init := b_init r;
     b_read_only := b_read_only r; b_cap_add := b_cap_add r; b_cap_drop := b_cap_drop r; b_security_opt := b_security_opt r;
     b_privileged := b_privileged r; b_devices := b_devices r; b_gpus := b_gpus r; b_shm_size := b_shm_size r;
     b_stop_signal := b_stop_signal r; b_stop_timeout := b_stop_timeout r; b_oom_kill_disable := b_oom_kill_disable r;
     b_oom_score_adj := b_oom_score_adj r |}.

(** What the host answers: whether the exec socket is there, whether it connects; and the save. *)
Record update_env := { ue_socket : bool; ue_connects : bool; ue_save : bool }.

(** [container_update::execute]: the state file, the commands sent to the guest, and the answer. *)
Definition container_update (to_lowercase : string → string) (e : update_env) (query : string) (u : UpdateArgs) (disk : records)
    : records * list string * result run_error () :=
  match map_err UpdateBox (resolve disk query) with
  | Err err => (disk, [], Err err)
  | Ok r =>
  match read_update to_lowercase u with
  | Err err => (disk, [], Err err)
  | Ok (ru, restart) =>
  if nothing_to_update ru restart then (disk, [], Ok ()) else
  let running := bool_decide (b_status r = "running") in
  match (if running && has_tier1_changes ru then map_err UpdateRefused (validate_update ru) else Ok ()) with
  | Err err => (disk, [], Err err)
  | Ok _ =>
  let live := running && has_tier2_changes ru && ue_socket e in
  if live && negb (ue_connects e) then (disk, [], Err UpdateChannel) else
  let rs := update_by_id (b_id r) (updated_record ru restart) disk in
  (if ue_save e then rs else disk, if live then build_cgroup_commands ru else [], if ue_save e then Ok () else Err RunState)
  end end end.

(** ** Running is all or nothing *)

Definition quiet_run (e : run_env) : Prop := ∀ rs, re_meanwhile e rs = rs.

(** Rolling back a booted box is releasing it. *)
Lemma rollback_releases {U : Undo} r h : is_active r = true ∨ b_pid r = None →
  rollback_booted_setup r h = release_service (from_record r) h.
Proof.
  intros Ha. unfold rollback_booted_setup, cleanup_partial_box_record, release_service, cleanup_removed_box, cleanup_service_box,
    stop_service_process, destroy_vm, from_record. cbn [sb_id sb_status sb_pid sb_volumes sb_network sb_anonymous].
  destruct Ha as [Ha|Ha]; [unfold is_active in Ha; by rewrite Ha; destruct (b_pid r), (ok_process _)|].
  rewrite Ha. by destruct (is_active_status _), (ok_process _).
Qed.

Section atomic.
Context {U : Undo} {W : UndoWorks} `{HO : HashOrder} (to_lowercase to_uppercase : string → string) (anon_volume : string → string → VolumeConfig) (home volumes_dir clock : string).

Lemma connect_network_spec e net name h k r : NetworkStore.keyed (h_nets h) → map_Forall (λ _ c, net_endpoints c !! re_box_id e = None) (h_nets h) →
  connect_network e net name h = (k, r) →
  match r with
  | Err _ => k = h
  | Ok _ => ∃ nets, k = set_nets nets h ∧
      match net with
      | None => nets = h_nets h
      | Some n => ∃ c ep, h_nets h !! n = Some c ∧ net_endpoints c !! re_box_id e = None ∧
                    nets = <[n := with_endpoints c (<[re_box_id e := ep]> (net_endpoints c))]> (h_nets h)
      end
  end.
Proof.
  intros Hk Hf. unfold connect_network. destruct net as [n|]; [|intros [= <- <-]; exists (h_nets h); by destruct h].
  destruct (re_net_read e); cbn [negb]; [|by intros [= <- <-]]. destruct (h_nets h !! n) as [c|] eqn:Hc; [|by intros [= <- <-]].
  destruct (validate_attachable_network c); [|by intros [= <- <-]].
  destruct (connect c _ _) as [[c' ep]|] eqn:E; [|by intros [= <- <-]]. apply connect_adds in E as ->.
  destruct (re_net_write e); cbn [negb]; [|by intros [= <- <-]].
  unfold NetworkStore.update_step. cbn [net_name with_endpoints]. rewrite (Hk _ _ Hc). destruct (bool_decide _); [|by intros [= <- <-]].
  intros [= <- <-]. eexists. split; [done|]. exists c, ep. by specialize (Hf n c Hc).
Qed.

(** Once booted, a box is registered or released. *)
Lemma register_box_spec e (h h2 : host) rec k r : quiet_run e → re_load e = true → is_active rec = true → h_mem h = h_disk h → h_disk h2 = h_disk h →
  (∀ k', h_nets k' = h_nets h2 → h_procs k' = h_procs h2 → h_dirs k' = h_dirs h2 →
    ((h_mem k', h_disk k') = (h_disk h, h_disk h) ∨ (h_mem k', h_disk k') = (h_disk h ++ [rec], h_disk h) ∨
     (h_mem k', h_disk k') = (h_disk h ++ [rec], h_disk h ++ [rec])) →
    (h_vols k' = h_vols h2 ∨ ∃ n, h_vols k' = alter_all (λ v, attach v (b_id rec)) (take n (b_volume_names rec)) (h_vols h2)) → placed h rec k') →
  register_box e rec h2 = (k, r) →
  match r with Err _ => back ∅ h k | Ok _ => placed h rec k ∧ h_disk k = h_disk h ++ [rec] ∧ h_mem k = h_disk k end.
Proof.
  intros Hq Hl Ha Hm H2 Hp. unfold register_box. rewrite Hl, Hq, H2. cbn [negb].
  assert (∀ k', placed h rec k' → back ∅ h (rollback_booted_setup rec k')) as Hback.
  { intros k' Hk. rewrite rollback_releases by (by left). eapply release_placed; [done|apply back_refl|set_solver]. }
  destruct (re_add e); cbn [negb].
  2: { intros [= <- <-]. apply Hback, Hp; try done; [by right; left|by left]. }
  destruct (re_attach e) as [n|].
  { intros [= <- <-]. apply Hback, Hp; try done; [by right; right|right; by exists n]. }
  destruct (re_logs e); intros [= <- <-].
  - split_and!; try done. apply Hp; try done; [by right; right|right; by eexists].
  - apply Hback, Hp; try done; [by right; right|right; by eexists].
Qed.

Lemma boot_failed_clean e names net vols nets h : fresh_box (re_box_id e) None h → h_vols h ⊆ vols →
  match net with
  | None => nets = h_nets h
  | Some n => ∃ c ep, h_nets h !! n = Some c ∧ net_endpoints c !! re_box_id e = None ∧
                nets = <[n := with_endpoints c (<[re_box_id e := ep]> (net_endpoints c))]> (h_nets h)
  end →
  back ∅ h (cleanup_box_resources (re_box_id e) names net (set_nets nets (set_vols vols h))).
Proof.
  intros (Hd & _ & _ & Hu & _) Hv Hn. rewrite cleanup_box_resources_works. cbv zeta.
  assert (h_vols h ⊆ alter_all (λ v, detach v (re_box_id e)) names vols) as Hvols.
  { apply map_subseteq_spec. intros n v Hnv. rewrite lookup_alter_all by (intros x; apply detach_idem).
    rewrite (lookup_weaken _ _ _ _ Hnv Hv). specialize (Hu n v Hnv). cbn in Hu. case_bool_decide; cbn; [|done]. by rewrite detach_id. }
  destruct net as [n|].
  - destruct Hn as (c & ep & Hc & Hid & ->). split; cbn; [done|done| |done|set_solver|done]. by apply disconnect_placed.
  - subst nets. split; cbn; [done..|set_solver|done].
Qed.

Lemma network_of_mode net : match net with Some n => Some n | None => match run_network net with Bridge n => Some n | _ => None end end = net.
Proof. by destruct net. Qed.

Lemma setup_spec e ra h k r : quiet_run e → re_load e = true → h_mem h = h_disk h → NetworkStore.keyed (h_nets h) →
  fresh_box (re_box_id e) (as_booted <$> re_boot e) h →
  setup_and_boot to_lowercase to_uppercase anon_volume home volumes_dir clock e ra h = (k, r) →
  match r with
  | Err _ => back ∅ h k
  | Ok ctx => placed h (rc_record ctx) k ∧ h_disk k = h_disk h ++ [rc_record ctx] ∧ h_mem k = h_disk k ∧ b_id (rc_record ctx) = re_box_id e ∧
      record_network_name (rc_record ctx) = ca_network (ra_common ra) ∧ is_active (rc_record ctx) = true
  end.
Proof.
  intros Hq Hl Hm Hk Hf. unfold setup_and_boot. destruct (run_options _ _ _) as [p|]; [|intros [= <- <-]; apply back_refl].
  pose proof (resolve_volumes_grow volumes_dir clock (re_volumes e) (ca_volumes (ra_common ra)) (h_vols h)) as Hv.
  destruct (resolve_service_volumes _ _ _ _ _) as [vols [[resolved names]|]]; cbn [fst] in Hv.
  2: { intros [= <- <-]. split; cbn; try done. set_solver. }
  assert (back ∅ h (set_vols vols h)) as Hbv by (split; cbn; [done..|set_solver|done]).
  destruct (_ ≫= _) as [[shm c]|]; [|intros [= <- <-]; done].
  destruct (connect_network _ _ _ _) as [h1 [[]|err]] eqn:Ec; (apply connect_network_spec in Ec; [|by cbn|by destruct Hf as (_ & _ & Hn & _)]).
  2: { intros [= <- <-]. by subst h1. }
  destruct Ec as (nets & -> & Hnets). cbn [h_nets set_vols] in Hnets. destruct (re_boot e) as [b|].
  2: { intros [= <- <-]. by apply boot_failed_clean. }
  destruct (register_box _ _ _) as [h2 r'] eqn:Er. set (rec := box_record _ _ _ _ _ _ _ _ _ _ _ _) in *.
  assert (record_network_name rec = ca_network (ra_common ra)) as Hnet by apply network_of_mode.
  apply (register_box_spec e h) in Er; [|done..|].
  2: { clear Er. intros k' K1 K2 K3 K4 K5. eapply (boot_placed anon_volume h rec (as_booted b) vols nets); try done; [by left|by rewrite Hnet]. }
  destruct r' as [[]|err]; intros [= <- <-]; [|done]. destruct Er as (Hp & Hd & Hmem). cbn [rc_record]. done.
Qed.

(** Whoever watches a box in the foreground sees why it ended, or keeps watching. *)
Lemma watch_spec events r : watch events = Some r →
  ∃ pre ev post, events = pre ++ ev :: post ∧ Forall (λ ev, ev = Tick (Some false) true) pre ∧
    r = match ev with CtrlC => Ok UserInterrupted | Tick None _ => Err WaitFailed | Tick (Some true) _ => Ok ProcessExited
                    | Tick (Some false) _ => Ok VmUnhealthy end.
Proof.
  induction events as [|ev events IH]; [done|].
  destruct ev as [|[[]|] []]; intros Hw; cbn in Hw; try (injection Hw as <-; eexists [], _, _; split_and!; [done|constructor|done]).
  destruct (IH Hw) as (pre & ev & post & -> & Hpre & ->). exists (Tick (Some false) true :: pre), ev, post. split_and!; [done|by constructor|done].
Qed.

(** ** Taking a box down *)

Definition good_end (f : fg_env) : Prop :=
  fe_destroys f = true ∧ fe_net_read f = true ∧ fe_net_write f = true ∧ fe_load f = true ∧ fe_save f = true ∧ ∀ rs, fe_meanwhile f rs = rs.

Lemma update_by_id_snoc id g rs r : Forall (λ r', b_id r' ≠ id) rs → b_id r = id → update_by_id id g (rs ++ [r]) = rs ++ [g r].
Proof.
  intros Hrs Hr. induction Hrs as [|x rs Hx Hrs IH]; cbn.
  - by rewrite bool_decide_true.
  - rewrite bool_decide_false by done. by rewrite IH.
Qed.

(** A box that is taken down leaves its stopped record and its directory, or nothing. *)
Lemma cleanup_box_spec f h rec k rm by_user code : good_end f → placed h rec k → h_disk k = h_disk h ++ [rec] →
  ∃ k', cleanup_box f rec (record_network_name rec) rm by_user code k = (k', Ok ()) ∧
    h_nets k' = h_nets h ∧ h_procs k' = h_procs h ∧
    if rm then back ∅ h k'
    else h_disk k' = h_disk h ++ [mark_record_stopped code by_user rec] ∧ h_dirs k' = {[ b_id rec ]} ∪ h_dirs h ∧
         ∀ n v, h_vols h !! n = Some v → h_vols k' !! n = Some v.
Proof.
  intros (F1 & F2 & F3 & F4 & F5 & F6) Hp Hd. unfold cleanup_box. rewrite F1. cbn [negb].
  pose proof (pl_state _ _ _ Hp) as [Hm _]. pose proof (pl_new _ _ _ Hp) as (Hnew & Hdir & _ & Huse & Hanon). rewrite Hm in Hnew.
  rewrite detach_box_volumes_works. set (h1 := set_vols _ _).
  assert (disconnect_network f (b_id rec) (record_network_name rec) h1 = (set_nets (h_nets h) h1, Ok ())) as ->.
  { assert (h_nets h1 = h_nets k) as En by (unfold h1, destroy_vm; by destruct (b_pid rec)).
    pose proof (placed_nets _ _ _ Hp) as Hn. pose proof (pl_nets _ _ _ Hp) as Hn'. unfold disconnect_network. rewrite F2, F3, En.
    destruct (record_network_name rec) as [n|]; [|rewrite <-Hn, <-En; by destruct h1].
    destruct Hn' as (c & ep & Hc & Hid & ->). cbn [negb]. rewrite lookup_insert_eq. by rewrite disconnect_placed. }
  rewrite F4, F5, F6. cbn [negb].
  assert (h_procs h1 = h_procs h) as Eprocs by (rewrite <-(proj2 (placed_procs _ _ _ Hp)); unfold h1, destroy_vm; by destruct (b_pid rec)).
  assert (h_dirs h1 = {[ b_id rec ]} ∪ h_dirs h) as Edirs by (rewrite <-(pl_dirs _ _ _ Hp); unfold h1, destroy_vm; by destruct (b_pid rec)).
  assert (h_disk h1 = h_disk h ++ [rec]) as Edisk by (rewrite <-Hd; unfold h1, destroy_vm; by destruct (b_pid rec)).
  assert (h_vols h1 = alter_all (λ v, detach v (b_id rec)) (b_volume_names rec) (h_vols k)) as Evols by (unfold h1, destroy_vm; by destruct (b_pid rec)).
  change (h_disk (set_nets (h_nets h) h1)) with (h_disk h1). rewrite Edisk, update_by_id_snoc by done.
  destruct rm.
  - rewrite cleanup_anonymous_works, andb_false_r. eexists. split; [done|]. rewrite delete_box_dir_works.
    set (k1 := set_vols _ (set_state _ _ _)). change (b_id (mark_record_stopped _ _ _)) with (b_id rec).
    assert (h_mem (state_remove_with true (b_id rec) k1) = h_mem h ∧ h_disk (state_remove_with true (b_id rec) k1) = h_disk h) as [S1 S2].
    { pose proof (drop_id_snoc (mark_record_stopped code by_user rec) (h_disk h) Hnew) as Hdrop.
      unfold state_remove_with, state_shrinks. change (h_mem k1) with (h_disk h ++ [mark_record_stopped code by_user rec]).
      change (b_id (mark_record_stopped code by_user rec)) with (b_id rec) in Hdrop. rewrite Hdrop, length_app, (proj2 (Nat.ltb_lt _ _)) by (cbn; lia).
      cbn. by rewrite Hm. }
    split_and!; [done|done|]. split; cbn [set_dirs h_mem h_disk h_nets h_procs h_dirs h_vols].
    + done.
    + done.
    + done.
    + done.
    + change (h_dirs (state_remove_with true (b_id rec) k1)) with (h_dirs h1). rewrite Edirs. clear -Hdir. set_solver.
    + change (h_vols (state_remove_with true (b_id rec) k1)) with (foldl (λ m n, delete n m) (h_vols h1) (b_anonymous_volumes rec)). rewrite Evols. by eapply placed_vols.
  - eexists. split; [done|]. split_and!; [done|done|done|done|]. intros n v Hv. change (h_vols h1 !! n = Some v). rewrite Evols.
    rewrite lookup_alter_all by (intros x; apply detach_idem). specialize (Huse n v Hv). cbn in Huse.
    destruct (pl_vols _ _ _ Hp n v Hv) as [Hk|[Hn Hk]]; rewrite Hk.
    + case_bool_decide; cbn; [|done]. by rewrite detach_id.
    + rewrite bool_decide_true by done. cbn. by rewrite detach_attach.
Qed.
End atomic.


(** ** What a restart boots *)

(** The ports the system gives are ports. *)
Definition ports_given (bind : nat → option Z) : Prop := ∀ i p, bind i = Some p → 0 < p < 2 ^ 16.

(** An entry with both its ports *)
Definition settled (s : string) : Prop := ∃ p, s = runtime_entry p ∧ in_range 16 (host_port p) ∧ host_port p ≠ 0 ∧ in_range 16 (guest_port p) ∧ guest_port p ≠ 0.

Lemma split_runtime_entry p : 0 ≤ host_port p → split_once ":" (runtime_entry p) = Some (show_uint (host_port p), show_uint (guest_port p)).
Proof. intros Hh. unfold runtime_entry. apply split_once_Some. split; [done|]. by apply show_uint_no_char. Qed.

Lemma show_uint_zero n : in_range 16 n → n ≠ 0 → show_uint n ≠ "0".
Proof. intros Hr Hn E. pose proof (parse_show_uint 16 n Hr) as Hp. rewrite E in Hp. vm_compute in Hp. congruence. Qed.

Lemma resolve_settles port p s : in_range 16 (host_port p) → in_range 16 (guest_port p) → guest_port p ≠ 0 →
  (∀ q, port = Some q → 0 < q < 2 ^ 16) → resolve_auto_host_port port (runtime_entry p) = Ok s → settled s.
Proof.
  intros Hh Hg Hz Hp. unfold resolve_auto_host_port. rewrite split_runtime_entry by apply Hh. case_bool_decide as E.
  - destruct port as [q|]; [|done]. cbn. intros [= <-]. specialize (Hp q eq_refl).
    exists {| host_port := q; guest_port := guest_port p; protocol := Options.Tcp |}. cbn. unfold in_range in *. split_and!; try done; lia.
  - intros [= <-]. exists p. split_and!; try done; try apply Hh; try apply Hg. intros E0. rewrite E0 in E. by vm_compute in E.
Qed.

Lemma settled_fixed port s : settled s → (runtime_entry <$> parse_port_mapping s = Ok s) ∧ resolve_auto_host_port port s = Ok s.
Proof.
  intros (p & -> & Hh & Hz & Hg & Hgz). split.
  - rewrite <-(str_app_nil_r (runtime_entry p)) at 1. by rewrite parse_runtime_entry by (done || set_solver).
  - unfold resolve_auto_host_port. rewrite split_runtime_entry by apply Hh. by rewrite bool_decide_false by (by apply show_uint_zero).
Qed.

Lemma resolve_ports_settle bind i entries l : ports_given bind →
  Forall (λ s, ∃ p, s = runtime_entry p ∧ in_range 16 (host_port p) ∧ in_range 16 (guest_port p) ∧ guest_port p ≠ 0) entries →
  resolve_ports bind i entries = Ok l → Forall settled l.
Proof.
  intros Hb He. revert i l. induction He as [|s entries (p & -> & Hh & Hg & Hz) He IH]; intros i l; cbn [resolve_ports]; [intros [= <-]; constructor|].
  destruct (resolve_auto_host_port (bind i) (runtime_entry p)) as [s|] eqn:Es; [|done]. cbn [mbind result_bind].
  destruct (resolve_ports bind (S i) entries) as [l'|] eqn:El; [|done]. cbn [mbind result_bind]. intros [= <-]. constructor; [|by eapply IH].
  eapply resolve_settles; [..|exact Es]; try done. intros q. apply Hb.
Qed.
Lemma settled_publish bind i l : Forall settled l → publish_port_maps bind i l = Ok l.
Proof.
  intros Hl. unfold publish_port_maps. assert (normalize_port_maps l = Ok l) as ->.
  { apply mapM_Ok_Forall2. induction Hl as [|s l Hs Hl IH]; constructor; [|done]. by apply (settled_fixed None). }
  cbn [map_err mbind result_bind]. revert i. induction Hl as [|s l Hs Hl IH]; intros i; [done|]. cbn [resolve_ports].
  rewrite (proj2 (settled_fixed (bind i) s Hs)). cbn [mbind result_bind]. by rewrite IH.
Qed.
(** Published ports are stable: what a box got when it was created is what every restart asks for. *)
Lemma publish_settles bind i entries l : ports_given bind → publish_port_maps bind i entries = Ok l → Forall settled l.
Proof.
  intros Hb. unfold publish_port_maps. destruct (normalize_port_maps entries) as [l0|] eqn:E; [|done]. cbn [map_err mbind result_bind].
  apply resolve_ports_settle; [done|]. apply mapM_Ok_Forall2 in E.
  induction E as [|x y entries l0 Hxy Hl IH]; constructor; [|done].
  destruct (parse_port_mapping x) as [p|] eqn:Ep; [|done]. injection Hxy as <-. apply parse_port_mapping_range in Ep as (? & ? & ?). by exists p.
Qed.

(** The configuration without what a record does not hold *)
Definition restart_config (c : BoxConfig) : BoxConfig :=
  {| image := image c; workspace := workspace c; resources := resources c; log_level := log_level c; debug_grpc := debug_grpc c;
     tee := tee box_default; cmd := cmd c; entrypoint_override := entrypoint_override c; user := user c; workdir := workdir c;
     hostname := hostname c; volumes := volumes c; extra_env := extra_env c; cache := cache c; pool := pool c; port_map := port_map c;
     dns := dns box_default; add_hosts := add_hosts c; network := network c; tmpfs := tmpfs c; resource_limits := resource_limits c;
     cap_add := cap_add c; cap_drop := cap_drop c; security_opt := security_opt c; sysctls := sysctls c; privileged := privileged c;
     read_only := read_only c; sidecar := sidecar box_default; persistent := persistent box_default |}.

Section restart.
Context {U : Undo} `{HO : HashOrder} (to_lowercase to_uppercase : string → string) (anon_volume : string → string → VolumeConfig) (home volumes_dir clock : string).

(** What the options that were accepted guarantee of a record made from them. *)
Lemma options_checked bind a : validate_runtime_options bind a = Ok () →
  validate_workdir_option (ca_workdir a) = Ok () ∧ check_names (ca_hostname a) (ca_add_host a) = Ok () ∧ ∃ u, normalize_user_option (ca_user a) = Ok u.
Proof.
  unfold validate_runtime_options. destruct (negb _); [done|]. destruct (bool_decide _); [done|].
  destruct (normalize_user_option (ca_user a)) as [u|]; [|done]. destruct (validate_workdir_option (ca_workdir a)) as [[]|]; [|done].
  destruct (publish_port_maps _ _ _); [|done]. destruct (check_names _ _) as [[]|]; [|done]. eauto.
Qed.

(** The record of a box, run or created, boots with its options again. *)
Lemma record_config bind e a p command resolved names status b rm shm health u :
  validate_workdir_option (ca_workdir a) = Ok () → check_names (ca_hostname a) (ca_add_host a) = Ok () → normalize_user_option (ca_user a) = Ok u →
  Forall settled (pa_ports p) →
  config_from_record bind (box_record home e a p command resolved names status b rm shm health) =
    Ok (restart_config {| image := ca_image a; workspace := workspace box_default;
        resources := {| vcpus := ca_cpus a; memory_mb := pa_memory p; disk_mb := disk_mb resource_default; timeout := timeout resource_default |};
        log_level := log_level box_default; debug_grpc := debug_grpc box_default; tee := TeeNone; cmd := command;
        entrypoint_override := entrypoint_words a; user := u; workdir := ca_workdir a; hostname := ca_hostname a; volumes := resolved;
        extra_env := hash_iter (pa_env p); cache := cache box_default; pool := pool box_default; port_map := pa_ports p; dns := [];
        add_hosts := ca_add_host a; network := run_network (ca_network a); tmpfs := tmpfs_with_shm (ca_tmpfs a) shm;
        resource_limits := pa_limits p; cap_add := ca_cap_add a; cap_drop := ca_cap_drop a; security_opt := ca_security_opt a;
        sysctls := sysctls box_default; privileged := ca_privileged a; read_only := ca_read_only a; sidecar := None; persistent := false |}).
Proof.
  intros Hw Hn Hu Hp. unfold config_from_record. cbn [b_user b_workdir b_port_map b_hostname b_add_host box_record].
  rewrite Hu, Hw. cbn [mbind result_bind]. rewrite settled_publish by done. cbn [mbind result_bind]. rewrite Hn. done.
Qed.

Lemma run_options_ok e ra p : run_options to_lowercase e ra = Ok p →
  validate_runtime_options (re_bind e) (ra_common ra) = Ok () ∧
  publish_port_maps (re_bind e) (length (ca_publish (ra_common ra))) (ca_publish (ra_common ra)) = Ok (pa_ports p).
Proof.
  unfold run_options. intros Hp. destruct (validate_runtime_options _ _) as [[]|]; [|done]. cbn [mbind result_bind] in Hp. split; [done|].
  destruct (map_err _ (parse_restart_policy _)); [|done]. destruct (ok_or _ (parse_memory _ _)); [|done]. destruct (build_resource_limits _ _); [|done].
  destruct (map_err _ (parse_driver _)); [|done]. destruct (map_err _ (cli_parse_env_vars (ra_log_opts ra))); [|done]. destruct (build_env_map _ _ _); [|done].
  cbn [mbind result_bind] in Hp. destruct (publish_port_maps _ _ _) as [ports|]; [|done]. cbn [mbind result_bind] in Hp.
  destruct (map_err _ (cli_parse_env_vars (ca_labels _))); [|done]. cbn [mbind result_bind] in Hp. by injection Hp as <-.
Qed.
Lemma create_options_ok e a p : create_options to_lowercase e a = Ok p →
  validate_runtime_options (re_bind e) a = Ok () ∧ publish_port_maps (re_bind e) (length (ca_publish a)) (ca_publish a) = Ok (pa_ports p).
Proof.
  unfold create_options. intros Hp. destruct (validate_runtime_options _ _) as [[]|]; [|done]. cbn [mbind result_bind] in Hp. split; [done|].
  destruct (map_err _ (parse_restart_policy _)); [|done]. destruct (ok_or _ (parse_memory _ _)); [|done]. destruct (build_resource_limits _ _); [|done].
  cbn [mbind result_bind] in Hp. destruct (publish_port_maps _ _ _) as [ports|]; [|done]. cbn [mbind result_bind] in Hp.
  destruct (build_env_map _ _ _); [|done]. destruct (map_err _ (cli_parse_env_vars (ca_labels _))); [|done]. cbn [mbind result_bind] in Hp. by injection Hp as <-.
Qed.
(** The two commands read the same from the same options, but for the logs. *)
Lemma options_agree e ra p q : run_options to_lowercase e ra = Ok p → create_options to_lowercase e (ra_common ra) = Ok q →
  pa_memory p = pa_memory q ∧ pa_limits p = pa_limits q ∧ pa_ports p = pa_ports q ∧ pa_env p = pa_env q.
Proof.
  unfold run_options, create_options. intros Hp Hq. destruct (validate_runtime_options _ _) as [[]|]; [|done]. cbn [mbind result_bind] in Hp, Hq.
  destruct (map_err _ (parse_restart_policy _)); [|done]. destruct (ok_or _ (parse_memory _ _)); [|done]. destruct (build_resource_limits _ _); [|done].
  cbn [mbind result_bind] in Hp, Hq. destruct (publish_port_maps _ _ _); [|done]. destruct (build_env_map _ _ _); [|done]. cbn [mbind result_bind] in Hp, Hq.
  destruct (map_err _ (parse_driver _)); [|done]. destruct (map_err _ (cli_parse_env_vars (ra_log_opts ra))); [|done].
  destruct (map_err _ (cli_parse_env_vars (ca_labels _))); [|done]. cbn [mbind result_bind] in Hp, Hq. by injection Hp as <-; injection Hq as <-.
Qed.

Abbreviation setup := (setup_and_boot to_lowercase to_uppercase anon_volume home volumes_dir clock).
Abbreviation creates := (create_box to_lowercase home volumes_dir clock).

(** What a box that runs was made of *)
Lemma setup_inv e ra h k ctx : setup e ra h = (k, Ok ctx) → ∃ p resolved names shm b vols,
  run_options to_lowercase e ra = Ok p ∧ size_option to_lowercase "--shm-size" (ca_shm_size (ra_common ra)) = Ok shm ∧
  resolve_service_volumes volumes_dir clock (re_volumes e) (ca_volumes (ra_common ra)) (h_vols h) = (vols, Ok (resolved, names)) ∧
  run_box_config ra (pa_memory p) (pa_limits p) (entrypoint_words (ra_common ra)) resolved (hash_iter (pa_env p)) (pa_ports p)
    (run_network (ca_network (ra_common ra))) (tmpfs_with_shm (ca_tmpfs (ra_common ra)) shm) (build_tee_config ra) = Ok (rc_config ctx) ∧
  rc_record ctx = box_record home e (ra_common ra) p (ra_cmd ra) resolved names "running" b (ra_rm ra) shm
                    (effective_health_check (ra_common ra) (rb_image b ≫= oc_health_check)).
Proof.
  unfold setup_and_boot. intros Hr. destruct (run_options _ _ _) as [p|]; [|done].
  destruct (resolve_service_volumes _ _ _ _ _) as [vols [[resolved names]|]]; [|done].
  destruct (size_option _ _ _) as [shm|]; [|done]. cbn [mbind result_bind] in Hr. destruct (run_box_config _ _ _ _ _ _ _ _ _ _) as [c|] eqn:Ec; [|done].
  cbn [mbind result_bind] in Hr. destruct (connect_network _ _ _ _) as [h1 [[]|]]; [|done]. destruct (re_boot e) as [b|]; [|done].
  destruct (register_box _ _ _) as [h2 [[]|]]; [|done]. apply (f_equal snd) in Hr. cbn [snd] in Hr.
  exists p, resolved, names, shm, b, vols. split_and!; try done; (destruct ctx; injection Hr as <- <- _ _; done).
Qed.
Lemma create_inv e a command h k r : creates e a command h = (k, Ok r) → ∃ p resolved names shm img vols,
  create_options to_lowercase e a = Ok p ∧ size_option to_lowercase "--shm-size" (ca_shm_size a) = Ok shm ∧
  resolve_service_volumes volumes_dir clock (re_volumes e) (ca_volumes a) (h_vols h) = (vols, Ok (resolved, names)) ∧
  r = create_record home e a p command resolved names shm img.
Proof.
  unfold create_box. intros Hr. destruct (create_options _ _ _) as [p|]; [|done]. cbn [mbind result_bind] in Hr.
  destruct (match ca_network a with Some n => _ | None => _ end); [|done]. cbn [mbind result_bind] in Hr. destruct (re_cached e) as [img|]; [|done].
  cbn [ok_or mbind result_bind] in Hr. destruct (size_option _ _ _) as [shm|]; [|done]. cbn [mbind result_bind] in Hr.
  destruct (negb _); [done|]. destruct (negb _); [done|]. cbn [h_vols set_dirs] in Hr.
  destruct (resolve_service_volumes _ _ _ _ _) as [vols [[resolved names]|]]; [|done]. destruct (register_created _ _ _) as [h2 [[]|]]; [|done].
  apply (f_equal snd) in Hr. cbn [snd] in Hr. exists p, resolved, names, shm, img, vols. split_and!; try done. clear -Hr. by injection Hr.
Qed.
End restart.

(** C24: A restarted box is the box that was run.  The configuration read back from the record of a
    box that [run] started (without a terminal) is the configuration it was booted with, whatever
    its options: the image, the command, the user, the environment, the volumes, the limits and
    the confinement, and also the host ports that the system chose.  Only the name servers, the
    trusted execution environment, the sidecar and the persistence are not in the record.  And a box
    that [create] made from the same options starts with that same configuration. *)
Theorem restart_keeps_config {U : Undo} `{HO : HashOrder} to_lowercase to_uppercase anon_volume home volumes_dir clock e ra h k ctx bind :
  ports_given (re_bind e) → ra_tty ra = false →
  setup_and_boot to_lowercase to_uppercase anon_volume home volumes_dir clock e ra h = (k, Ok ctx) →
  config_from_record bind (rc_record ctx) = Ok (restart_config (rc_config ctx)) ∧
  ∀ h' k' r, h_vols h' = h_vols h → create_box to_lowercase home volumes_dir clock e (ra_common ra) (ra_cmd ra) h' = (k', Ok r) →
    config_from_record bind r = Ok (restart_config (rc_config ctx)).
Proof.
  intros Hb Ht Hs. apply setup_inv in Hs as (p & resolved & names & shm & b & vols & Hp & Hshm & Hv & Hc & ->).
  destruct (run_options_ok _ _ _ _ Hp) as [Hval Hports]. destruct (options_checked _ _ Hval) as (Hw & Hn & u & Hu).
  pose proof (publish_settles _ _ _ _ Hb Hports) as Hset.
  unfold run_box_config in Hc. rewrite Ht, Hu in Hc. cbn [mbind result_bind] in Hc. assert (∀ A (x y : A), Ok (E := run_error) x = Ok y → y = x) as Hinj by (by intros A x y [= ->]).
  apply Hinj in Hc as ->. split; [by erewrite record_config|].
  intros h' k' r Hvols Hcr. apply create_inv in Hcr as (q & resolved' & names' & shm' & img & vols' & Hq & Hshm' & Hv' & ->).
  rewrite Hvols, Hv in Hv'. injection Hv' as <- <- <-. rewrite Hshm in Hshm'. apply Hinj in Hshm' as ->.
  destruct (options_agree _ _ _ _ _ Hp Hq) as (E1 & E2 & E3 & E4). unfold create_record. erewrite record_config; [|done..|by rewrite <-E3].
  by rewrite <-E1, <-E2, <-E3, <-E4.
Qed.

(** ** create *)

(** Taking back a record that was created and never started. *)
Lemma uncreate {U : Undo} {W : UndoWorks} e h rec k vols : h_mem h = h_disk h → fresh_box (re_box_id e) None h → b_id rec = re_box_id e → b_pid rec = None →
  b_anonymous_volumes rec = [] → h_vols h ⊆ vols → h_nets k = h_nets h → h_procs k = h_procs h → h_dirs k = {[ re_box_id e ]} ∪ h_dirs h →
  ((h_mem k, h_disk k) = (h_disk h, h_disk h) ∨ (h_mem k, h_disk k) = (h_disk h ++ [rec], h_disk h ++ [rec])) →
  (h_vols k = vols ∨ ∃ n, h_vols k = alter_all (λ v, attach v (b_id rec)) (take n (b_volume_names rec)) vols) →
  back ∅ h (cleanup_partial_box_record rec k).
Proof.
  intros Hm (Hd & Hr & Hn & Hu & _) Hid Hpid Hanon Hv K1 K2 K3 K4 K5. rewrite <-Hid in *.
  assert (cleanup_partial_box_record rec k = release_service (from_record rec) k) as ->.
  { rewrite <-rollback_releases by (by right). unfold rollback_booted_setup, destroy_vm. rewrite Hpid. by destruct (ok_process _). }
  unfold release_service. set (k1 := cleanup_service_box _ _). destruct (cleanup_service_fields (from_record rec) k) as (E1 & E2 & E3 & E4 & E5 & E6).
  fold k1 in E1, E2, E3, E4, E5, E6. destruct (state_remove_fields (b_id rec) k1) as (S3 & S4 & S5 & S6).
  destruct (state_remove_placed h k1 rec Hm Hr) as [S1 S2]; [rewrite E1, E2; destruct K4 as [K4|K4]; [by left|by right; right]|].
  cbn [sb_id sb_network sb_volumes sb_anonymous sb_status sb_pid from_record] in *. rewrite Hpid, Hanon in *.
  split; [done|done|rewrite S3, E3, K1|rewrite S4, E4, K2; by destruct (is_active_status _)|rewrite S5, E5, K3; clear -Hd; set_solver|rewrite S6, E6; cbn [foldl]].
  - destruct (record_network_name rec) as [n|]; [|done]. unfold disconnect_net. destruct (h_nets h !! n) as [c|] eqn:Ec; [|done].
    specialize (Hn n c Ec). cbn in Hn. unfold disconnect. by rewrite Hn.
  - apply map_subseteq_spec. intros n v Hnv. rewrite lookup_alter_all by (intros x; apply detach_idem). specialize (Hu n v Hnv). cbn in Hu.
    pose proof (lookup_weaken _ _ _ _ Hnv Hv) as Hnv'.
    destruct K5 as [->|[m ->]]; [|destruct (attach_part (b_volume_names rec) m vols (b_id rec) n v Hnv') as [Hk|[Hin Hk]]; rewrite Hk].
    + rewrite Hnv'. case_bool_decide; cbn; [|done]. by rewrite detach_id.
    + case_bool_decide; cbn; [|done]. by rewrite detach_id.
    + rewrite bool_decide_true by done. cbn. by rewrite detach_attach.
Qed.

(** Creating is all or nothing when the rollback works, but for the directory when a volume cannot be
    made. *)
Theorem create_atomic {U : Undo} {W : UndoWorks} `{HO : HashOrder} to_lowercase home volumes_dir clock e a command h k r :
  re_reload e = true → h_mem h = h_disk h → fresh_box (re_box_id e) None h →
  create_box to_lowercase home volumes_dir clock e a command h = (k, r) →
  match r with
  | Err _ => back ∅ h k ∨ back {[ re_box_id e ]} h k
  | Ok rec => h_disk k = h_disk h ++ [rec] ∧ b_id rec = re_box_id e ∧ b_status rec = "created" ∧ b_pid rec = None ∧
      h_nets k = h_nets h ∧ h_procs k = h_procs h ∧ h_dirs k = {[ re_box_id e ]} ∪ h_dirs h
  end.
Proof.
  intros Hre Hm Hf. unfold create_box. destruct (_ ≫= _) as [[[p img] shm]|]; [|intros [= <- <-]; left; apply back_refl].
  destruct (re_sockets e); cbn [negb]; [|intros [= <- <-]; left; apply back_refl].
  destruct (re_logs e); cbn [negb]; [|intros [= <- <-]; right; split; cbn; [done..|set_solver|done]]. cbn [h_vols set_dirs].
  pose proof (resolve_volumes_grow volumes_dir clock (re_volumes e) (ca_volumes a) (h_vols h)) as Hv.
  destruct (resolve_service_volumes _ _ _ _ _) as [vols [[resolved names]|]]; cbn [fst] in Hv;
    [|intros [= <- <-]; right; split; cbn; [done..|set_solver|done]].
  set (rec := create_record _ _ _ _ _ _ _ _ _). unfold register_created. rewrite Hre.
  destruct (re_add e); cbn [negb].
  - destruct (re_attach e) as [n|]; intros [= <- <-]; [|done]. left. eapply (uncreate e h rec _ vols); try done; [by right|right; by exists n].
  - intros [= <- <-]. left. eapply (uncreate e h rec _ vols); try done; by left.
Qed.

(** ** Updating limits *)

(** An update that is refused changes nothing.  One that is not changes that record alone, in the
    fields that were given, and reaches a running box with exactly the commands of the
    change; processors and memory of a running box are refused. *)
Theorem update_exact to_lowercase e query u disk disk' cmds r :
  container_update to_lowercase e query u disk = (disk', cmds, r) →
  match r with
  | Err _ => disk' = disk
  | Ok _ => disk' = disk ∧ cmds = [] ∨
      ∃ rec ru restart, resolve disk query = Ok rec ∧ read_update to_lowercase u = Ok (ru, restart) ∧
        disk' = update_by_id (b_id rec) (updated_record ru restart) disk ∧
        (b_status rec = "running" → ru_vcpus ru = None ∧ ru_memory_mb ru = None) ∧
        cmds = (if bool_decide (b_status rec = "running") && has_tier2_changes ru && ue_socket e then build_cgroup_commands ru else [])
  end.
Proof.
  unfold container_update. destruct (resolve disk query) as [rec|]; cbn [map_err]; [|by intros [= <- <- <-]].
  destruct (read_update _ _) as [[ru restart]|]; [|by intros [= <- <- <-]].
  destruct (nothing_to_update _ _); [intros [= <- <- <-]; by left|].
  destruct (if _ : bool then _ else _) as [[]|] eqn:Et; [|by intros [= <- <- <-]].
  destruct (_ && negb _); [by intros [= <- <- <-]|]. destruct (ue_save e); intros [= <- <- <-]; [|done]. right. exists rec, ru, restart.
  split_and!; try done. intros Hrun. rewrite bool_decide_true in Et by done. cbn [andb] in Et. unfold has_tier1_changes, validate_update in Et.
  by destruct (ru_vcpus ru), (ru_memory_mb ru).
Qed.

(** ** Starting from a record *)

Lemma ensure_network_keeps e r h k res : ensure_network_connected e r h = (k, res) →
  h_mem k = h_mem h ∧ h_disk k = h_disk h ∧ h_vols k = h_vols h ∧ h_procs k = h_procs h ∧ h_dirs k = h_dirs h.
Proof.
  unfold ensure_network_connected. intros Hr. repeat (case_match; simplify_eq/=; try done).
Qed.

(** A box whose boot fails and is rolled back holds nothing: it is in none of its volumes and not in its network; what
    runs and what is stored is as before. *)
Theorem failed_boot_holds_nothing {U : Undo} {W : UndoWorks} `{HO : HashOrder} anon_volume e r h h1 c : config_from_record (re_bind e) r = Ok c →
  ensure_boot_resources e r h = (h1, Ok ()) → re_boot e = None →
  ∃ k, boot_record anon_volume e r h = (k, Err RunBoot) ∧ h_disk k = h_disk h ∧ h_procs k = h_procs h ∧ h_dirs k = h_dirs h ∧
    (∀ n v, n ∈ b_volume_names r → h_vols k !! n = Some v → b_id r ∉ vol_in_use_by v) ∧
    (∀ n cfg, record_network_name r = Some n → h_nets k !! n = Some cfg → net_endpoints cfg !! b_id r = None).
Proof.
  intros Hc He Hb. unfold boot_record. rewrite Hc, He, Hb. eexists. split; [done|].
  assert (h_disk h1 = h_disk h ∧ h_procs h1 = h_procs h ∧ h_dirs h1 = h_dirs h) as (E1 & E2 & E3).
  { unfold ensure_boot_resources in He. destruct (ensure_network_connected e r h) as [h2 [[]|]] eqn:En; [|done].
    apply ensure_network_keeps in En as (_ & ? & _ & ? & ?). destruct (b_volume_names r), (re_attach e); simplify_eq/=; done. }
  unfold guard_rollback. rewrite cleanup_box_resources_works. cbv zeta. set (h2 := set_vols _ h1).
  assert (∀ m : gmap string VolumeConfig, m = alter_all (λ v, detach v (b_id r)) (b_volume_names r) (h_vols h1) →
    ∀ n v, n ∈ b_volume_names r → m !! n = Some v → b_id r ∉ vol_in_use_by v) as Hvols.
  { intros m -> n v Hn. rewrite lookup_alter_all by (intros x; apply detach_idem). rewrite bool_decide_true by done.
    destruct (h_vols h1 !! n); [|done]. cbn. intros [= <-]. apply detach_not_in. }
  destruct (record_network_name r) as [net|]; (split_and!; [done|done|done|by eapply Hvols|]); [|done].
  intros n cfg [= <-]. cbn [set_nets h_nets]. unfold disconnect_net. destruct (h_nets h2 !! net) as [cfg0|] eqn:Hn; [|by rewrite Hn].
  unfold disconnect. destruct (net_endpoints cfg0 !! b_id r) eqn:Hep; cbn [ok_or mbind result_bind].
  - rewrite lookup_insert_eq. intros [= <-]. cbn. by rewrite lookup_delete_eq.
  - rewrite Hn. by intros [= <-].
Qed.

(** ** Examples *)

#[local] Instance undo_run : Undo := {| ok_process _ := true; ok_detach _ _ := true; ok_disconnect _ _ := true; ok_anonymous _ := true;
  ok_dir _ := true; ok_state _ := true; ok_clear _ := true; ok_drop _ := true |}.
#[local] Instance undo_run_works : UndoWorks.
Proof. by split. Qed.

Definition demo_args : CommonBoxArgs :=
  {| ca_image := "web"; ca_name := Some "w"; ca_cpus := 2; ca_memory := "1g"; ca_volumes := ["data:/data"]; ca_env := ["A=1"]; ca_publish := ["0:80"];
     ca_dns := ["1.1.1.1"]; ca_entrypoint := None; ca_hostname := Some "web"; ca_user := Some "root"; ca_workdir := Some "/srv"; ca_restart := "no";
     ca_labels := []; ca_tmpfs := []; ca_network := None; ca_health_cmd := None; ca_health_interval := 30; ca_health_timeout := 5;
     ca_health_retries := 3; ca_health_start_period := 0; ca_pids_limit := None; ca_cpuset_cpus := None; ca_ulimits := [];
     ca_cpu_shares := None; ca_cpu_quota := None; ca_cpu_period := None; ca_memory_reservation := None; ca_memory_swap := None;
     ca_env_file := []; ca_add_host := []; ca_platform := None; ca_init := false; ca_read_only := true; ca_cap_add := [];
     ca_cap_drop := ["NET_RAW"]; ca_security_opt := []; ca_privileged := false; ca_device := []; ca_gpus := None; ca_shm_size := Some "64m";
     ca_stop_signal := None; ca_stop_timeout := None; ca_no_healthcheck := false; ca_oom_kill_disable := false; ca_oom_score_adj := None;
     ca_persistent := false |}.
Definition demo_run (rm : bool) : RunArgs :=
  {| ra_common := demo_args; ra_detach := false; ra_interactive := false; ra_tty := false; ra_rm := rm; ra_cmd := ["serve"];
     ra_log_driver := "json-file"; ra_log_opts := []; ra_tee := true; ra_tee_workload_id := None; ra_tee_simulate := false;
     ra_sidecar := None; ra_sidecar_vsock_port := 4092 |}.
Definition demo_renv (boot : option run_boot) (load : bool) (attach : option nat) : run_env :=
  {| re_bind := λ i, if (i <? 100)%nat then Some (40000 + Z.of_nat i) else None; re_host_env := λ _, None; re_read := λ _, None; re_name := "calm"; re_volumes := true;
     re_box_id := "n1"; re_net_read := true; re_net_write := true; re_boot := boot; re_cached := Some None; re_sockets := true; re_logs := true;
     re_load := load; re_meanwhile := λ rs, rs; re_add := true; re_attach := attach; re_reload := true; re_now := 5 |}.
Definition demo_rboot : run_boot := {| rb_pid := Some 9; rb_exec_socket := None; rb_anonymous := ["anon"]; rb_image := None |}.
Definition demo_rhost : host := set_state (h_disk demo_host) (h_disk demo_host) demo_host.
Definition demo_setup (e : run_env) (rm : bool) : host * result run_error RunContext :=
  setup_and_boot (H := list_order) id id demo_anon "/h" "/v" "now" e (demo_run rm) demo_rhost.
Definition demo_fg : fg_env := {| fe_destroys := true; fe_net_read := true; fe_net_write := true; fe_load := true; fe_meanwhile := λ rs, rs; fe_save := true |}.

Lemma demo_setup_ok rm : is_ok (demo_setup (demo_renv (Some demo_rboot) true None) rm).2 = true.
Proof. destruct rm; vm_compute; reflexivity. Qed.
Lemma demo_fresh : fresh_box "n1" (Some (as_booted demo_rboot)) demo_rhost.
Proof. apply (bool_decide_unpack (fresh_box "n1" (Some (as_booted demo_rboot)) demo_rhost)). vm_compute. exact I. Qed.

Lemma demo_keyed : NetworkStore.keyed (h_nets demo_rhost).
Proof. intros n c Hc. change (h_nets demo_rhost) with (∅ : gmap string NetworkConfig) in Hc. by rewrite lookup_empty in Hc. Qed.
Lemma demo_good_end : good_end demo_fg.
Proof. by split_and!. Qed.


Lemma demo_ports_given : ports_given (re_bind (demo_renv (Some demo_rboot) true None)).
Proof. intros i p. unfold demo_renv. cbn [re_bind]. destruct (Nat.ltb_spec i 100); [|done]. intros [= <-]. lia. Qed.

Lemma restart_keeps_config_witness : ∃ ctx, (demo_setup (demo_renv (Some demo_rboot) true None) false).2 = Ok ctx ∧
  config_from_record (H := list_order) (λ _, None) (rc_record ctx) = Ok (restart_config (rc_config ctx)).
Proof.
  destruct (demo_setup (demo_renv (Some demo_rboot) true None) false) as [k r] eqn:E.
  assert (is_ok r = true) as Hok by (change (is_ok (k, r).2 = true); rewrite <-E; apply demo_setup_ok). destruct r as [ctx|]; [|done].
  exists ctx. split; [done|].
  exact (proj1 (restart_keeps_config (HO := list_order) id id demo_anon "/h" "/v" "now" (demo_renv (Some demo_rboot) true None) (demo_run false) demo_rhost k ctx
    (λ _, None) demo_ports_given eq_refl E)).
Defined.

(** The configuration of the example: the port that was chosen, and what a restart drops. *)
Lemma restart_forgets :
  match (demo_setup (demo_renv (Some demo_rboot) true None) false).2 with
  | Ok ctx =>
      port_map (rc_config ctx) = ["40001:80"] ∧ tee (rc_config ctx) = SevSnp "web" Milan false ∧ persistent (rc_config ctx) = true ∧
      match config_from_record (H := list_order) (λ _, None) (rc_record ctx) with
      | Ok c => port_map c = ["40001:80"] ∧ cap_drop c = ["NET_RAW"] ∧ tee c = TeeNone ∧ dns c = [] ∧ persistent c = false
      | Err _ => False
      end
  | Err _ => False
  end.
Proof. vm_compute. done. Qed.

(** When the state file cannot be read after the boot, the box keeps running without a record. *)
Lemma failed_load_leaves_box : let '(k, r) := demo_setup (demo_renv (Some demo_rboot) false None) true in
  is_ok r = false ∧ h_disk k = h_disk demo_rhost ∧ h_procs k = {[1; 9]} ∧ h_dirs k = {["old"; "n1"]}.
Proof. vm_compute. done. Qed.

(** A terminal that cannot be opened leaves the box running, with [--rm] too. *)
Lemma failed_terminal_leaves_box f ctx ra h : run_tty f ctx ra None h = (h, Err WaitFailed).
Proof. done. Qed.

(** The start of a created box that fails takes away the volumes the box held since it was
    created: another command may now remove them. *)
Lemma failed_start_detaches : let e := demo_renv None true None in
  match create_box id "/h" "/v" "now" e demo_args [] demo_rhost with
  | (h, Ok r) =>
      (vol_in_use_by <$> h_vols h !! "data") = Some ["n1"] ∧
      (vol_in_use_by <$> h_vols (boot_record (H := list_order) demo_anon e r h).1 !! "data") = Some []
  | _ => False
  end.
Proof. vm_compute. done. Qed.

(** A paused box is not running: its processors are changed in its record, without a word. *)
Lemma paused_update_accepted : let u := {| ua_cpus := Some 8; ua_memory := None; ua_memory_reservation := None; ua_memory_swap := None;
    ua_pids_limit := None; ua_cpu_shares := None; ua_cpu_quota := None; ua_cpu_period := None; ua_cpuset_cpus := None; ua_restart := None |} in
  let e := {| ue_socket := true; ue_connects := true; ue_save := true |} in
  (container_update id e "web" u [demo_record "b" "web" "paused" (Some 1) "no"]).2 = Ok () ∧
  is_ok (container_update id e "web" u [demo_record "b" "web" "running" (Some 1) "no"]).2 = false.
Proof. vm_compute. done. Qed.

(** Sizes: units may be repeated, and a size can be too large for its type. *)
Lemma sizes_wrap : parse_memory_bytes id "5gg" = Some (5 * 2 ^ 30) ∧ parse_memory_bytes id "17179869184g" = Some 0 ∧
  swap_option id (Some "9223372036854775808") = Ok (Some (- 2 ^ 63)).
Proof. vm_compute. done. Qed.
