(* ===== verification/CriPod.v ===== *)
(** * CriPod: pods of the CRI server

    [cri/src/config_mapper.rs] (the box configuration of a pod),
    [cri/src/runtime_service/network.rs] (addresses and bridge networks of a pod) and,
    from [cri/src/runtime_service/mod.rs] and [service_ops.rs], RunPodSandbox, the network part of the
    handlers that end a pod, the shutdown of the server, and the calls that open a
    streaming session.  The handlers of [Cri] do the rest; here they run beside the
    networks.  What boots, what the stores answer and the identifiers drawn are the
    fields of [pod_env]. *)

From Stdlib Require Import ZArith Lia Ascii.
From stdpp Require Import base gmap strings list numbers.
From S2P Require Import Prelude RustStr IpAddr Network Store Options Attestation DirCache Cri Streaming CriContainer GuestBoot Config.

Local Open Scope string_scope.
Local Open Scope list_scope.
Local Open Scope Z_scope.

(** ** The configuration of a pod ([config_mapper.rs]) *)

Record CriPortMapping := {
  pm_protocol : Z; pm_container_port : Z; pm_host_port : Z; pm_host_ip : string }.

Record PodSandboxMetadata := { md_name : string; md_uid : string; md_namespace : string; md_attempt : Z }.

(** The namespace options are those of the security context. *)
Record LinuxPodSandboxConfig := {
  lp_sysctls : gmap string string; lp_namespace_options : option NamespaceOption }.

Record PodSandboxConfig := {
  pc_metadata : option PodSandboxMetadata; pc_hostname : string; pc_log_directory : string;
  pc_dns_config : option SandboxDns; pc_port_mappings : list CriPortMapping;
  pc_labels : gmap string string; pc_annotations : gmap string string;
  pc_linux : option LinuxPodSandboxConfig }.

Definition ANN_AGENT_IMAGE : string := "a3s.box/agent-image".
Definition ANN_NETWORK : string := "a3s.box/network".
Definition DEFAULT_AGENT_IMAGE : string := "ghcr.io/a3s-box/code:v0.1.0".
Definition ANN_VCPUS : string := "a3s.box/vcpus".
Definition ANN_MEMORY_MB : string := "a3s.box/memory-mb".
Definition ANN_DISK_MB : string := "a3s.box/disk-mb".
Definition ANN_TEE : string := "a3s.box/tee".
Definition ANN_TEE_WORKLOAD_ID : string := "a3s.box/tee-workload-id".
Definition ANN_POD_IP : string := "a3s.box/pod-ip".
Definition ANN_ADDITIONAL_POD_IPS : string := "a3s.box/additional-pod-ips".

Inductive pod_error :=
  | ConfigRequired
  | MetadataRequired
  | NamespaceShared (e : create_error)
  | NoAgentImage
  | UnknownTee (tee : string)
  | UnknownProtocol (protocol : Z)
  | UnsupportedProtocol (protocol : Z)
  | ContainerPortInvalid (port : Z)
  | HostPortInvalid (port : Z)
  | HostIpUnsupported (ip : string)
  | NetworkNameInvalid
  | HostnameRefused (e : dns_err)
  | PodIpInvalid (value : string)
  | AdditionalWithoutPrimary
  | RootfsBaseFailed
  | NetworkStoreFailed
  | NetworkUnknown (name : string)
  | NetworkRefused (e : net_err)
  | PodIpMismatch (annotated allocated : string)
  | BootFailed.

Definition sysctl_char (c : ascii) : bool :=
  is_digit c || is_lower c || is_upper c || Ascii.eqb c "." || Ascii.eqb c "_" || Ascii.eqb c "-".

Definition is_safe_sysctl_name (name : string) : bool :=
  negb (is_empty name) && negb (has_char "/" name)
  && negb (existsb (λ seg, is_empty seg || String.eqb seg "..") (split "." name))
  && str_forallb sysctl_char name.

Definition parse_sysctls `{HashOrder} (c : PodSandboxConfig) : list (string * string) :=
  match pc_linux c with
  | None => []
  | Some l => sort_by pair_leb (List.filter (λ kv, is_safe_sysctl_name kv.1) (hash_iter (lp_sysctls l)))
  end.

Definition parse_hostname (c : PodSandboxConfig) : result pod_error (option string) :=
  let h := trim (pc_hostname c) in
  if is_empty h then Ok None
  else _ ← map_err HostnameRefused (validate_hostname h); Ok (Some h).

(** An annotation that is not blank, without the white space around it. *)
Definition trimmed (m : gmap string string) (key : string) : option string :=
  v ← m !! key; non_empty (trim v).

Definition resolve_agent_image (m : gmap string string) (default_agent_image : string)
    : result pod_error string :=
  match trimmed m ANN_AGENT_IMAGE with
  | Some image => Ok image
  | None => let d := trim default_agent_image in if is_empty d then Err NoAgentImage else Ok d
  end.

Definition u32_annotation (m : gmap string string) (key : string) (dflt : Z) : Z :=
  default dflt (v ← m !! key; parse_uint 32 v).

Definition parse_resources (m : gmap string string) : ResourceConfig :=
  {| vcpus := u32_annotation m ANN_VCPUS 2; memory_mb := u32_annotation m ANN_MEMORY_MB 1024;
     disk_mb := u32_annotation m ANN_DISK_MB 4096; timeout := timeout resource_default |}.

Definition parse_tee_config (m : gmap string string) : result pod_error TeeConfig :=
  let workload := default "default" (m !! ANN_TEE_WORKLOAD_ID) in
  match m !! ANN_TEE with
  | None => Ok TeeNone
  | Some t =>
      if String.eqb t "sev-snp" then Ok (SevSnp workload Milan false)
      else if String.eqb t "tdx" then Ok (Tdx workload false)
      else if String.eqb t "none" then Ok TeeNone
      else Err (UnknownTee t)
  end.

Definition parse_network_mode (m : gmap string string) : result pod_error NetworkMode :=
  match trim <$> m !! ANN_NETWORK with
  | None => Ok Tsi
  | Some n =>
      if is_empty n then Ok Tsi
      else if has_char "/" n || has_char "000" n then Err NetworkNameInvalid
      else Ok (Bridge n)
  end.

(** TCP is 0, UDP 1 and SCTP 2. *)
Definition port_entry (pm : CriPortMapping) : result pod_error string :=
  if negb ((0 <=? pm_protocol pm) && (pm_protocol pm <=? 2)) then Err (UnknownProtocol (pm_protocol pm))
  else if negb (pm_protocol pm =? 0) then Err (UnsupportedProtocol (pm_protocol pm))
  else if negb ((1 <=? pm_container_port pm) && (pm_container_port pm <=? 65535))
  then Err (ContainerPortInvalid (pm_container_port pm))
  else if negb ((0 <=? pm_host_port pm) && (pm_host_port pm <=? 65535))
  then Err (HostPortInvalid (pm_host_port pm))
  else
    let ip := trim (pm_host_ip pm) in
    if negb (is_empty ip) && negb (String.eqb ip "0.0.0.0") && negb (String.eqb ip "::")
    then Err (HostIpUnsupported ip)
    else
      let host := if pm_host_port pm =? 0 then pm_container_port pm else pm_host_port pm in
      Ok (show_uint host +:+ ":" +:+ show_uint (pm_container_port pm)).

Fixpoint parse_port_mappings (l : list CriPortMapping) : result pod_error (list string) :=
  match l with
  | [] => Ok []
  | pm :: l => e ← port_entry pm; es ← parse_port_mappings l; Ok (e :: es)
  end.

(** The fields of a configuration that a pod sets. *)
Definition pod_config (img : string) (r : ResourceConfig) (t : TeeConfig) (ports : list string)
    (net : NetworkMode) (h : option string) (sys : list (string * string)) : BoxConfig :=
  {| image := img; workspace := workspace box_default; resources := r; log_level := log_level box_default;
     debug_grpc := debug_grpc box_default; tee := t; cmd := cmd box_default;
     entrypoint_override := entrypoint_override box_default; user := user box_default;
     workdir := workdir box_default; hostname := h; volumes := volumes box_default; extra_env := extra_env box_default;
     cache := cache box_default; pool := pool box_default; port_map := ports; dns := dns box_default;
     add_hosts := add_hosts box_default; network := net; tmpfs := tmpfs box_default;
     resource_limits := resource_limits box_default; cap_add := cap_add box_default;
     cap_drop := cap_drop box_default; security_opt := security_opt box_default; sysctls := sys;
     privileged := privileged box_default; read_only := read_only box_default;
     sidecar := sidecar box_default; persistent := persistent box_default |}.

Definition pod_sandbox_config_to_box_config `{HashOrder} (c : PodSandboxConfig) (default_agent_image : string)
    : result pod_error BoxConfig :=
  let m := pc_annotations c in
  img ← resolve_agent_image m default_agent_image;
  t ← parse_tee_config m;
  ports ← parse_port_mappings (pc_port_mappings c);
  net ← parse_network_mode m;
  h ← parse_hostname c;
  Ok (pod_config img (parse_resources m) t ports net h (parse_sysctls c)).

(** [config.volumes.push] *)
Definition push_volume (v : string) (c : BoxConfig) : BoxConfig :=
  {| image := image c; workspace := workspace c; resources := resources c; log_level := log_level c;
     debug_grpc := debug_grpc c; tee := tee c; cmd := cmd c; entrypoint_override := entrypoint_override c;
     user := user c; workdir := workdir c; hostname := hostname c; volumes := volumes c ++ [v];
     extra_env := extra_env c; cache := cache c; pool := pool c; port_map := port_map c; dns := dns c;
     add_hosts := add_hosts c; network := network c; tmpfs := tmpfs c; resource_limits := resource_limits c;
     cap_add := cap_add c; cap_drop := cap_drop c; security_opt := security_opt c; sysctls := sysctls c;
     privileged := privileged c; read_only := read_only c; sidecar := sidecar c; persistent := persistent c |}.

(** ** Addresses ([network.rs]) *)

(** [Ipv6Addr]'s [Display]: an IPv4-mapped address as such; otherwise the first longest
    run of two or more zero groups becomes [::]. *)
Definition show_groups (l : list Z) : string := join ":" (map (λ g, show_hex_go 4 g "") l).

Fixpoint longest_zeros (i : nat) (cur best : nat * nat) (l : list Z) : nat * nat :=
  match l with
  | [] => best
  | g :: l =>
      if g =? 0 then
        let cur := ((if (cur.2 =? 0)%nat then i else cur.1), S cur.2) in
        longest_zeros (S i) cur (if (best.2 <? cur.2)%nat then cur else best) l
      else longest_zeros (S i) (O, O) best l
  end.

Definition show_ip (ip : ip_addr) : string :=
  match ip with
  | V4 ip => show_ipv4 ip
  | V6 gs =>
      match gs with
      | [0; 0; 0; 0; 0; 65535; hi; lo] => "::ffff:" +:+ show_ipv4 (hi * 2 ^ 16 + lo)
      | _ =>
          let '(start, len) := longest_zeros 0 (O, O) (O, O) gs in
          if (1 <? len)%nat then show_groups (take start gs) +:+ "::" +:+ show_groups (drop (start + len) gs)
          else show_groups gs
      end
  end.

Definition parse_sandbox_ip (value : string) : result pod_error string :=
  match parse_ip value with Some ip => Ok (show_ip ip) | None => Err (PodIpInvalid value) end.

Fixpoint parse_ips (l : list string) : result pod_error (list string) :=
  match l with [] => Ok [] | v :: l => ip ← parse_sandbox_ip v; ips ← parse_ips l; Ok (ip :: ips) end.

Definition sandbox_network_status_from_annotations (m : gmap string string)
    : result pod_error (string * list string) :=
  primary ← match trimmed m ANN_POD_IP with Some v => parse_sandbox_ip v | None => Ok "" end;
  additional ← match m !! ANN_ADDITIONAL_POD_IPS with
               | Some v => parse_ips (List.filter (λ ip, negb (is_empty ip)) (map trim (split "," v)))
               | None => Ok []
               end;
  if is_empty primary && match additional with [] => false | _ => true end
  then Err AdditionalWithoutPrimary
  else Ok (primary, additional).

Definition bridge_network_name (c : BoxConfig) : option string :=
  match network c with Bridge n => non_empty (trim n) | _ => None end.

Definition sandbox_network_name (sb : PodSandbox) : option string := trimmed (sb_annotations sb) ANN_NETWORK.

Abbreviation nets := (gmap string NetworkConfig).

(** Whether the network store can be read and written: when a pod is connected and
    when it is disconnected. *)
Record net_io := { ni_read : bool; ni_write : bool }.
Definition net_io_ok : net_io := {| ni_read := true; ni_write := true |}.

(** [get] and [update] are two operations of the store: the network is read, changed in
    memory and written back. *)
Definition read_network (o : net_io) (name : string) (m : nets) : result pod_error NetworkConfig :=
  if negb (ni_read o) then Err NetworkStoreFailed else ok_or (NetworkUnknown name) (m !! name).

Definition write_network (o : net_io) (c : NetworkConfig) (m : nets) : result pod_error nets :=
  if negb (ni_write o) then Err NetworkStoreFailed
  else match NetworkStore.update_step c m with Ok (m, _) => Ok m | Err _ => Err NetworkStoreFailed end.

Definition connect_sandbox_to_network_store (o : net_io) (name id pod_name : string) (m : nets)
    : result pod_error (nets * (string * string)) :=
  c ← read_network o name m;
  '(c, ep) ← map_err NetworkRefused (connect c id pod_name);
  m ← write_network o c m;
  Ok (m, (name, show_ipv4 (ep_ip_address ep))).

Definition connect_sandbox_network (o : net_io) (c : BoxConfig) (id pod_name : string) (m : nets)
    : result pod_error (nets * option (string * string)) :=
  match bridge_network_name c with
  | None => Ok (m, None)
  | Some name => '(m, a) ← connect_sandbox_to_network_store o name id pod_name m; Ok (m, Some a)
  end.

(** A failure is only logged. *)
Definition disconnect_sandbox_network_by_name (o : net_io) (name id : string) (m : nets) : nets :=
  match read_network o name m with
  | Err _ => m
  | Ok c =>
      match disconnect c id with
      | Ok (c, _) => match write_network o c m with Ok m => m | Err _ => m end
      | Err _ => m
      end
  end.

Definition disconnect_sandbox_network (o : net_io) (sb : PodSandbox) (m : nets) : nets :=
  match sandbox_network_name sb with
  | Some name => disconnect_sandbox_network_by_name o name (sb_id sb) m
  | None => m
  end.

(** ** Running a pod *)

Record pod_env := {
  pe_env : env;
  pe_default_agent_image : string; pe_handler_agent_images : gmap string string;
  pe_rootfs_base : string; pe_rootfs_base_ok : bool;  (* [create_dir_all] *)
  pe_sandbox_id : string;
  pe_net : net_io; pe_undo : net_io;
  pe_pool : option (option string);  (* the warm pool, and the machine it gives *)
  pe_boots : BoxConfig → string → bool }.

Definition agent_image_for (pe : pod_env) (runtime_handler : string) : string :=
  match pe_handler_agent_images pe !! runtime_handler with
  | Some image => if is_empty (trim image) then pe_default_agent_image pe else image
  | None => pe_default_agent_image pe
  end.

(** The machine a sandbox gets, by its identifier: from the pool when there is one, the
    identifier is free and nothing is mounted; [new_id] is what [VmManager::new] draws. *)
Definition acquire_vm_inner (pe : pod_env) (new_id : string) (bc : BoxConfig) (box_id : option string)
    : result pod_error string :=
  let pooled := match pe_pool pe, box_id, volumes bc with Some vm, None, [] => vm | _, _, _ => None end in
  match pooled with
  | Some vm => Ok vm
  | None => let id := default new_id box_id in if pe_boots pe bc id then Ok id else Err BootFailed
  end.

Definition acquire_vm_with_box_id (pe : pod_env) (new_id : string) (bc : BoxConfig) (box_id : string)
    : result pod_error string :=
  acquire_vm_inner pe new_id bc (Some box_id).

(** The service and the networks it shares with the command line. *)
Record Pods := { po_svc : Svc; po_nets : nets }.

Definition new_sandbox (now : Z) (id : string) (md : PodSandboxMetadata) (c : PodSandboxConfig)
    (runtime_handler ip : string) (additional : list string) : PodSandbox :=
  {| sb_id := id; sb_name := md_name md; sb_namespace := md_namespace md; sb_uid := md_uid md;
     sb_attempt := md_attempt md; sb_state := Ready; sb_created_at := now; sb_labels := pc_labels c;
     sb_annotations := pc_annotations c; sb_log_directory := pc_log_directory c;
     sb_runtime_handler := runtime_handler; sb_network_ip := ip; sb_additional_ips := additional;
     sb_dns := default {| sd_servers := []; sd_searches := []; sd_options := [] |} (pc_dns_config c);
     sb_container_ports := List.filter (λ p, 0 <? p) (map pm_container_port (pc_port_mappings c)) |}.

(** The checks of the request, and what they give. *)
Definition checked_pod `{HashOrder} (pe : pod_env) (config : option PodSandboxConfig) (runtime_handler : string)
    : result pod_error (PodSandboxConfig * PodSandboxMetadata * BoxConfig * string * list string) :=
  c ← ok_or ConfigRequired config;
  md ← ok_or MetadataRequired (pc_metadata c);
  _ ← map_err NamespaceShared (validate_namespace_options (l ← pc_linux c; lp_namespace_options l));
  bc ← pod_sandbox_config_to_box_config c (agent_image_for pe runtime_handler);
  '(ip, additional) ← sandbox_network_status_from_annotations (pc_annotations c);
  if negb (pe_rootfs_base_ok pe) then Err RootfsBaseFailed
  else Ok (c, md, push_volume (pe_rootfs_base pe +:+ ":" +:+ GUEST_BASE +:+ ":rw") bc, ip, additional).

(** The address of the pod, given what was annotated and what was allocated. *)
Definition merge_ip (ip : string) (allocation : option (string * string)) : result pod_error string :=
  match allocation with
  | None => Ok ip
  | Some (_, allocated) =>
      if is_empty ip then Ok allocated
      else if String.eqb ip allocated then Ok ip else Err (PodIpMismatch ip allocated)
  end.

Definition undo_connect (pe : pod_env) (allocation : option (string * string)) (m : nets) : nets :=
  match allocation with
  | Some (name, _) => disconnect_sandbox_network_by_name (pe_undo pe) name (pe_sandbox_id pe) m
  | None => m
  end.

Definition run_pod_sandbox `{HashOrder} (pe : pod_env) (config : option PodSandboxConfig)
    (runtime_handler : string) (p : Pods) : Pods * result pod_error string :=
  match checked_pod pe config runtime_handler with
  | Err x => (p, Err x)
  | Ok (c, md, bc, ip, additional) =>
      let id := pe_sandbox_id pe in
      match connect_sandbox_network (pe_net pe) bc id (md_name md) (po_nets p) with
      | Err x => (p, Err x)
      | Ok (m, allocation) =>
          match merge_ip ip allocation with
          | Err x => ({| po_svc := po_svc p; po_nets := undo_connect pe allocation m |}, Err x)
          | Ok ip =>
              match acquire_vm_with_box_id pe "" bc id with
              | Err x => ({| po_svc := po_svc p; po_nets := undo_connect pe allocation m |}, Err x)
              | Ok _ =>
                let ip := if is_empty ip && match pc_port_mappings c with [] => false | _ => true end
                          then "127.0.0.1" else ip in
                let sb := new_sandbox (env_now (pe_env pe)) id md c runtime_handler ip additional in
                let s := po_svc p in
                ({| po_svc := {| sv_store := add_sandbox (env_io (pe_env pe)) sb (sv_store s);
                                 sv_vms := {[id]} ∪ sv_vms s; sv_stops := sv_stops s;
                                 sv_events := sv_events s |};
                    po_nets := m |}, Ok id)
              end
          end
      end
  end.

(** ** Ending a pod *)

Section ending.
Context `{HashOrder} (pe : pod_env).
Let e := pe_env pe.

(** The handlers of [Cri] with the network of the pod. *)
Definition stop_pod (sid : string) (p : Pods) : Pods * result status () :=
  let '(s, r) := stop_pod_sandbox e sid (po_svc p) in
  ({| po_svc := s;
      po_nets := match sandbox_of (po_svc p) sid, r with
                 | Some sb, Ok _ => if bool_decide (sb_state sb = Ready)
                                    then disconnect_sandbox_network (pe_undo pe) sb (po_nets p) else po_nets p
                 | _, _ => po_nets p
                 end |}, r).

Definition remove_pod (sid : string) (p : Pods) : Pods * result status () :=
  let '(s, r) := remove_pod_sandbox e sid (po_svc p) in
  ({| po_svc := s;
      po_nets := match sandbox_of (po_svc p) sid, r with
                 | Some sb, Ok _ => disconnect_sandbox_network (pe_undo pe) sb (po_nets p)
                 | _, _ => po_nets p
                 end |}, r).

(** StopContainer falls back to destroying the machine: then the sandbox is
    disconnected as well. *)
Definition tears_down (id : string) (s : Svc) : option string :=
  match container_of s id with
  | Some c =>
      if bool_decide (ct_state c = Running) then
        let '(s, stopped) := stop_container_workload e c s in
        if stopped || has_other_running_containers c s then None
        else match (destroy_sandbox_vm e (ct_sandbox_id c) s).2 with
             | Ok _ => Some (ct_sandbox_id c)
             | Err _ => None
             end
      else None
  | None => None
  end.

Definition stop_container_in_pod (id : string) (p : Pods) : Pods * result status () :=
  let '(s, r) := stop_container e id (po_svc p) in
  ({| po_svc := s;
      po_nets := match tears_down id (po_svc p) ≫= sandbox_of (po_svc p) with
                 | Some sb => disconnect_sandbox_network (pe_undo pe) sb (po_nets p)
                 | None => po_nets p
                 end |}, r).

(** RemoveContainer stops a container that runs. *)
Definition remove_container_in_pod (id : string) (p : Pods) : Pods * result status () :=
  let '(s, r) := remove_container_request e id (po_svc p) in
  ({| po_svc := s;
      po_nets := match tears_down id (po_svc p) ≫= sandbox_of (po_svc p) with
                 | Some sb => disconnect_sandbox_network (pe_undo pe) sb (po_nets p)
                 | None => po_nets p
                 end |}, r).

(** Errors are only logged; the root file systems of the sandboxes go as well. *)
Definition shutdown_all_sandboxes (s : Svc) : Svc * list string :=
  let ids := elements (sv_vms s) in
  (foldl (λ s id, (destroy_sandbox_vm e id s).1) s ids,
   map (λ id, pe_rootfs_base pe +:+ "/" +:+ sanitize_path_component id) ids).
End ending.

(** ** White space is trimmed once *)

Lemma drop_ws_idem w2 w3 s : drop_ws w2 w3 (drop_ws w2 w3 s) = drop_ws w2 w3 s.
Proof.
  remember (String.length s) as n eqn:En. revert s En. induction n as [n IH] using lt_wf_ind. intros s ->.
  destruct s as [|a s]; [done|]. cbn [drop_ws]. destruct (ws1 a) eqn:E1; [apply (IH (String.length s)); cbn; lia|].
  destruct s as [|b s]; [cbn; by rewrite E1|].
  destruct (w2 a b) eqn:E2; [apply (IH (String.length s)); cbn; lia|].
  destruct s as [|c s]; [cbn; by rewrite E1, E2|].
  destruct (w3 a b c) eqn:E3; [apply (IH (String.length s)); cbn; lia|]. cbn. by rewrite E1, E2, E3.
Qed.

Lemma drop_ws_suffix w2 w3 s : ∃ t, s = t +:+ drop_ws w2 w3 s.
Proof.
  remember (String.length s) as n eqn:En. revert s En. induction n as [n IH] using lt_wf_ind. intros s ->.
  assert (Hs : ∀ u v, (String.length v < String.length s)%nat → s = u +:+ v →
               drop_ws w2 w3 s = drop_ws w2 w3 v → ∃ t, s = t +:+ drop_ws w2 w3 s).
  { intros u v Hl Hu ->. destruct (IH _ Hl v eq_refl) as [t Ht]. exists (u +:+ t).
    rewrite str_app_assoc, <-Ht. exact Hu. }
  destruct s as [|a s]; [by exists ""|]. destruct (ws1 a) eqn:E1.
  { apply (Hs (String a "") s); [cbn; lia | done | cbn; by rewrite E1]. }
  destruct s as [|b s]; [exists ""; cbn; by rewrite E1|]. destruct (w2 a b) eqn:E2.
  { apply (Hs (String a (String b "")) s); [cbn; lia | done | cbn; by rewrite E1, E2]. }
  destruct s as [|c s]; [exists ""; cbn; by rewrite E1, E2|]. destruct (w3 a b c) eqn:E3.
  { apply (Hs (String a (String b (String c ""))) s); [cbn; lia | done | cbn; by rewrite E1, E2, E3]. }
  exists "". cbn. by rewrite E1, E2, E3.
Qed.

(** What is left alone is so when its end is cut off. *)
Lemma drop_ws_prefix w2 w3 s t : drop_ws w2 w3 (s +:+ t) = s +:+ t → drop_ws w2 w3 s = s.
Proof.
  assert (Hlen : ∀ u, (String.length (drop_ws w2 w3 u) ≤ String.length u)%nat).
  { intros u. destruct (drop_ws_suffix w2 w3 u) as [v Hv]. rewrite Hv at 2. rewrite str_length_app. lia. }
  assert (Hno : ∀ u v, drop_ws w2 w3 u = v → (String.length u < String.length v)%nat → False).
  { intros u v <- Hl. pose proof (Hlen u). lia. }
  destruct s as [|a s]; [done|]. cbn [String.app]. intros Hd.
  destruct s as [|b s]; cbn [String.app drop_ws] in *.
  { destruct (ws1 a) eqn:E1; [|done]. destruct t as [|b t]; [done|].
    exfalso. apply (Hno (String b t) _ Hd). cbn; lia. }
  destruct (ws1 a) eqn:E1; [exfalso; apply (Hno (String b (s +:+ t)) _ Hd); cbn; lia|].
  destruct (w2 a b) eqn:E2; [exfalso; apply (Hno (s +:+ t) _ Hd); cbn; lia|].
  destruct s as [|c s]; [done|]. cbn [String.app] in Hd.
  destruct (w3 a b c) eqn:E3; [exfalso; apply (Hno (s +:+ t) _ Hd); cbn; lia | done].
Qed.

Lemma trim_idem s : trim (trim s) = trim s.
Proof.
  assert (trim_start (trim s) = trim s) as E.
  { unfold trim. set (u := trim_start s). unfold trim_start, trim_end.
    destruct (drop_ws_suffix (λ a b, ws2 b a) (λ a b c, ws3 c b a) (str_rev u)) as [t Ht].
    apply (drop_ws_prefix ws2 ws3 _ (str_rev t)). rewrite <-str_rev_app_distr, <-Ht, str_rev_involutive.
    apply drop_ws_idem. }
  unfold trim at 1. rewrite E. unfold trim, trim_end. by rewrite str_rev_involutive, drop_ws_idem.
Qed.

(** ** Networks of pods *)

Definition without (id : string) (c : NetworkConfig) : NetworkConfig :=
  with_endpoints c (delete id (net_endpoints c)).

Lemma write_network_ok o c m m' : write_network o c m = Ok m' → m' = <[net_name c := c]> m.
Proof.
  unfold write_network, NetworkStore.update_step. destruct (ni_write o); [|done]. cbn [negb].
  case_bool_decide; [|done]. by intros [= <-].
Qed.

Lemma read_network_ok o n m c : read_network o n m = Ok c → m !! n = Some c.
Proof. unfold read_network. destruct (ni_read o); [|done]. cbn. by destruct (m !! n) as [c'|]; intros [= <-]. Qed.

(** Disconnecting removes the endpoint from the one network. *)
Lemma disconnect_alter n id m : NetworkStore.keyed m →
  disconnect_sandbox_network_by_name net_io_ok n id m = alter (without id) n m.
Proof.
  intros Hk. unfold disconnect_sandbox_network_by_name, read_network. cbn [net_io_ok ni_read negb].
  destruct (m !! n) as [c|] eqn:Hc; cbn [ok_or]; [|symmetry; apply alter_id; congruence].
  assert (alter (without id) n m = <[n := without id c]> m) as ->.
  { apply map_eq. intros k. destruct (decide (n = k)) as [<-|].
    - by rewrite lookup_alter_eq, lookup_insert_eq, Hc.
    - by rewrite lookup_alter_ne, lookup_insert_ne. }
  unfold disconnect. destruct (net_endpoints c !! id) as [ep|] eqn:He; cbn.
  - unfold write_network, NetworkStore.update_step. cbn. rewrite (Hk n c Hc).
    by rewrite bool_decide_true by (rewrite Hc; eauto).
  - unfold without. rewrite delete_id, with_endpoints_id by done. symmetry. by apply insert_id.
Qed.

Lemma connect_endpoints c id name c' ep : connect c id name = Ok (c', ep) →
  net_endpoints c !! id = None ∧ c' = with_endpoints c (<[id := ep]> (net_endpoints c)).
Proof.
  unfold connect, connect_with_aliases. case_bool_decide as Hn; [done|]. intros E. inv_result.
  split; [by apply eq_None_not_Some | done].
Qed.

Lemma connect_store_ok o n id name m m' a : NetworkStore.keyed m →
  connect_sandbox_to_network_store o n id name m = Ok (m', a) →
  ∃ c c' ep, m !! n = Some c ∧ connect c id name = Ok (c', ep) ∧ m' = <[n := c']> m ∧
    a = (n, show_ipv4 (ep_ip_address ep)).
Proof.
  intros Hk. unfold connect_sandbox_to_network_store. intros E.
  apply bind_Ok in E as (c & Hc%read_network_ok & E). apply bind_Ok in E as ([c' ep] & Hcon & E).
  apply bind_Ok in E as (m1 & Hw%write_network_ok & [= <- <-]).
  destruct (connect c id name) as [[c1 ep1]|] eqn:Hcn; [|done]. injection Hcon as -> ->.
  exists c, c', ep. split_and!; [done..| |done]. subst m1.
  destruct (connect_endpoints _ _ _ _ _ Hcn) as [_ ->]. cbn. by rewrite (Hk n c Hc).
Qed.

Lemma connect_without n net net' id name ep (m : nets) : m !! n = Some net →
  connect net id name = Ok (net', ep) → alter (without id) n (<[n := net']> m) = m.
Proof.
  intros Hc Hcn. destruct (connect_endpoints _ _ _ _ _ Hcn) as [Hn ->]. apply map_eq. intros k.
  destruct (decide (n = k)) as [<-|].
  - rewrite lookup_alter_eq, lookup_insert_eq, Hc. cbn. unfold without. cbn.
    rewrite delete_insert_id by done. f_equal. by destruct net.
  - by rewrite lookup_alter_ne, lookup_insert_ne.
Qed.

(** A pod that was connected and is disconnected again leaves no trace. *)
Lemma undo_exact pe o bc name m m' a : NetworkStore.keyed m → pe_undo pe = net_io_ok →
  connect_sandbox_network o bc (pe_sandbox_id pe) name m = Ok (m', a) → undo_connect pe a m' = m.
Proof.
  intros Hk Hu. unfold connect_sandbox_network. destruct (bridge_network_name bc) as [n|].
  2: by intros [= <- <-].
  intros E. apply bind_Ok in E as ([m1 a1] & E & [= <- <-]).
  destruct (connect_store_ok _ _ _ _ _ _ _ Hk E) as (c & c' & ep & Hc & Hcn & -> & ->).
  cbn. rewrite Hu, disconnect_alter; [by eapply connect_without|].
  destruct (connect_endpoints _ _ _ _ _ Hcn) as [_ ->].
  intros k c1 [[<- <-]|[_ ?]]%lookup_insert_Some; [by apply (Hk _ c) | by apply Hk].
Qed.

Section run.
Context `{HashOrder}.

(** What a successful RunPodSandbox leaves: exactly one more sandbox, Ready, with one
    machine under its identifier, acquired for the checked configuration, and an endpoint
    in the network it names, whose address it reports. *)
Record pod_running (pe : pod_env) (config : option PodSandboxConfig) (handler : string) (p p' : Pods) : Prop := {
  pr_parts : ∃ c md bc ip additional sb,
    checked_pod pe config handler = Ok (c, md, bc, ip, additional) ∧
    acquire_vm_with_box_id pe "" bc (pe_sandbox_id pe) = Ok (pe_sandbox_id pe) ∧
    cs_sandboxes (sv_store (po_svc p')) = <[pe_sandbox_id pe := sb]> (cs_sandboxes (sv_store (po_svc p))) ∧
    sb = new_sandbox (env_now (pe_env pe)) (pe_sandbox_id pe) md c handler (sb_network_ip sb) additional ∧
    match bridge_network_name bc with
    | None => po_nets p' = po_nets p
    | Some n => ∃ net net' ep, po_nets p !! n = Some net ∧
        connect net (pe_sandbox_id pe) (md_name md) = Ok (net', ep) ∧
        po_nets p' = <[n := net']> (po_nets p) ∧ sb_network_ip sb = show_ipv4 (ep_ip_address ep)
    end;
  pr_containers : cs_containers (sv_store (po_svc p')) = cs_containers (sv_store (po_svc p));
  pr_vms : sv_vms (po_svc p') = {[pe_sandbox_id pe]} ∪ sv_vms (po_svc p);
  pr_rest : sv_stops (po_svc p') = sv_stops (po_svc p) ∧ sv_events (po_svc p') = sv_events (po_svc p) }.

Lemma show_ipv4_nonempty ip : is_empty (show_ipv4 ip) = false.
Proof. unfold show_ipv4. destruct (octets ip) as [[[a b] c] d]. by destruct (show_uint a). Qed.

(** The identifier of a pod is drawn before its machine is acquired, so the machine is booted. *)
Lemma acquire_cold pe new_id bc id :
  acquire_vm_with_box_id pe new_id bc id = if pe_boots pe bc id then Ok id else Err BootFailed.
Proof. unfold acquire_vm_with_box_id, acquire_vm_inner. by destruct (pe_pool pe). Qed.

Lemma run_spec pe config handler p p' r :
  NetworkStore.keyed (po_nets p) →
  run_pod_sandbox pe config handler p = (p', r) →
  match r with
  | Ok id => id = pe_sandbox_id pe ∧ pod_running pe config handler p p'
  | Err _ => po_svc p' = po_svc p ∧ (pe_undo pe = net_io_ok → po_nets p' = po_nets p)
  end.
Proof.
  intros Hk. unfold run_pod_sandbox.
  destruct (checked_pod pe config handler) as [[[[[c md] bc] ip] additional]|x] eqn:Hch; [|by intros [= <- <-]].
  cbv zeta. destruct (connect_sandbox_network _ _ _ _ _) as [[m a]|x] eqn:Hcon; [|by intros [= <- <-]].
  pose proof (λ Hu, undo_exact _ _ _ _ _ _ _ Hk Hu Hcon) as Hun.
  destruct (merge_ip ip a) as [ip'|x] eqn:Hip; [|by intros [= <- <-]].
  rewrite acquire_cold. destruct (pe_boots pe bc (pe_sandbox_id pe)) eqn:Hb; [|by intros [= <- <-]].
  intros [= <- <-]. split; [done|]. split; cbn [po_svc po_nets sv_store sv_vms sv_stops sv_events]; [|unfold add_sandbox, persist; by destruct (cio_write _)|done..].
  exists c, md, bc, ip, additional, (new_sandbox (env_now (pe_env pe)) (pe_sandbox_id pe) md c handler
    (if is_empty ip' && match pc_port_mappings c with [] => false | _ => true end then "127.0.0.1" else ip')
    additional). split_and!; [done|by rewrite acquire_cold, Hb| |done|].
  - unfold add_sandbox, persist. by destruct (cio_write _).
  - unfold connect_sandbox_network in Hcon. destruct (bridge_network_name bc) as [n|]; [|by injection Hcon as <- _].
    apply bind_Ok in Hcon as ([m1 a1] & E & [= <- <-]).
    destruct (connect_store_ok _ _ _ _ _ _ _ Hk E) as (net & net' & ep & Hc & Hcn & -> & ->).
    exists net, net', ep. split_and!; [done..|]. unfold merge_ip in Hip.
    change (sb_network_ip (new_sandbox ?a ?b ?c ?d ?e ?i ?f)) with i.
    pose proof (show_ipv4_nonempty (ep_ip_address ep)) as Hne.
    clear E Hun. revert Hip Hne. generalize (show_ipv4 (ep_ip_address ep)). intros shown Hip Hne.
    assert (ip' = shown) as ->; [|rewrite Hne; cbn [andb]; reflexivity].
    destruct (is_empty ip); [congruence|]. destruct (String.eqb ip shown) eqn:Ee; [|done].
    apply String.eqb_eq in Ee. congruence.
Qed.
End run.

(** ** What the handlers do to the sandboxes *)

Definition sandboxes (s : Svc) : SandboxStore.t := cs_sandboxes (sv_store s).

Section effects.
Context `{HashOrder} (e : env).

Lemma update_containers_sandboxes o f st :
  cs_sandboxes (update_containers o f st).1 = cs_sandboxes st.
Proof.
  unfold update_containers. destruct (f (cs_containers st)) as [m b]. cbn [fst].
  by destruct (persist_maps o b (set_containers st m)) as [-> _].
Qed.

Lemma exited_event_sandboxes id code reason s :
  sandboxes (mark_exited_event e id code reason s) = sandboxes s.
Proof.
  unfold mark_exited_event, mark_container_exited, sandboxes.
  pose proof (update_containers_sandboxes (env_io e) (ContainerStore.mark_exited id (env_now e) code) (sv_store s)).
  by destruct (update_containers _ _ _) as [st []].
Qed.

Lemma exited_if_running_sandboxes id now code oom reason s :
  sandboxes (mark_exited_if_running_event e id now code oom reason s) = sandboxes s.
Proof.
  unfold mark_exited_if_running_event, mark_container_exited_if_running, sandboxes.
  pose proof (update_containers_sandboxes (env_io e) (ContainerStore.mark_exited_if_running id now code oom) (sv_store s)).
  by destruct (update_containers _ _ _) as [st []].
Qed.

Lemma stop_workload_sandboxes c s : sandboxes (stop_container_workload e c s).1 = sandboxes s.
Proof.
  unfold stop_container_workload. destruct (decide _); [|done]. cbn [fst].
  destruct (env_exit e (ct_id c)) as [[[now code] oom]|]; [|done].
  unfold supervisor_exit. etransitivity; [apply exited_if_running_sandboxes | done].
Qed.

Lemma foldl_sandboxes {A} (f : Svc → A → Svc) l s :
  (∀ s x, sandboxes (f s x) = sandboxes s) → sandboxes (foldl f s l) = sandboxes s.
Proof. intros Hf. revert s. induction l as [|x l IH]; intros s; [done|]. cbn. by rewrite IH, Hf. Qed.

Lemma stop_all_sandboxes sid s : sandboxes (stop_all_containers e sid s) = sandboxes s.
Proof.
  unfold stop_all_containers. rewrite foldl_sandboxes by done. unfold mark_all_exited, stop_workloads.
  rewrite !foldl_sandboxes; [done | intros; apply stop_workload_sandboxes |].
  intros s' c. case_bool_decide; [done | apply exited_event_sandboxes].
Qed.

Lemma destroy_sandboxes sid s : sandboxes (destroy_sandbox_vm e sid s).1 = sandboxes s.
Proof. unfold destroy_sandbox_vm. by destruct (decide _). Qed.

Lemma after_removal id s s' r :
  (let '(st, removed) := remove_container (env_io e) id (sv_store s) in
   let s := with_store s st in
   match removed with
   | Some _ => (emit (forget_workload s id) (DeletedEvent id "ContainerDeleted"), Ok () : result status ())
   | None => (s, Ok ())
   end) = (s', r) → sandboxes s' = sandboxes s.
Proof.
  unfold remove_container, ContainerStore.remove.
  destruct (persist_maps (env_io e) (bool_decide (is_Some (cs_containers (sv_store s) !! id)))
    (set_containers (sv_store s) (delete id (cs_containers (sv_store s))))) as [E _].
  revert E. cbn [fst snd]. generalize (persist_if (env_io e) (bool_decide (is_Some (cs_containers (sv_store s) !! id)))
    (set_containers (sv_store s) (delete id (cs_containers (sv_store s))))).
  intros st E. destruct (cs_containers (sv_store s) !! id) as [c|]; intros [= <- <-]; exact E.
Qed.

(** The state of one sandbox changes, or of none. *)
Definition not_ready (sid : string) : SandboxStore.t → SandboxStore.t :=
  alter (λ sb, with_sb_state sb NotReady) sid.

Lemma set_state_sandboxes sid s : sandboxes (set_sandbox_state e sid NotReady s) = not_ready sid (sandboxes s).
Proof.
  destruct (set_sandbox_state_spec e sid NotReady s) as (_ & _ & Hs). apply map_eq. intros k.
  change (sandboxes (set_sandbox_state e sid NotReady s) !! k) with (sandbox_of (set_sandbox_state e sid NotReady s) k).
  rewrite Hs. unfold not_ready. destruct (decide (k = sid)) as [->|]; [by rewrite lookup_alter_eq|].
  by rewrite lookup_alter_ne.
Qed.

Lemma stop_pod_sandboxes sid s s' r : stop_pod_sandbox e sid s = (s', r) →
  sandboxes s' = match sandbox_of s sid, r with
                 | Some sb, Ok _ => if bool_decide (sb_state sb = Ready) then not_ready sid (sandboxes s) else sandboxes s
                 | _, _ => sandboxes s
                 end.
Proof.
  unfold stop_pod_sandbox. destruct (sandbox_of s sid) as [sb|]; [|by intros [= <- <-]].
  destruct (decide (sb_state sb = Ready)) as [Er|Er].
  - rewrite (bool_decide_false (sb_state sb ≠ Ready)), (bool_decide_true (sb_state sb = Ready)) by naive_solver.
    pose proof (destroy_sandboxes sid (stop_all_containers e sid s)) as Hd. rewrite stop_all_sandboxes in Hd.
    destruct (destroy_sandbox_vm _ _ _) as [s1 [b|x]]; cbn [fst] in Hd; intros [= <- <-]; [|done].
    by rewrite set_state_sandboxes, Hd.
  - rewrite (bool_decide_true (sb_state sb ≠ Ready)), (bool_decide_false (sb_state sb = Ready)) by done.
    by intros [= <- <-].
Qed.

Lemma remove_pod_sandboxes sid s s' r : remove_pod_sandbox e sid s = (s', r) →
  sandboxes s' = match r with Ok _ => delete sid (sandboxes s) | Err _ => sandboxes s end.
Proof.
  unfold remove_pod_sandbox. destruct (sandbox_of s sid) as [sb|] eqn:Hsb.
  2:{ intros [= <- <-]. symmetry. by apply delete_id. }
  destruct (bool_decide (sb_state sb = Ready)); [by intros [= <- <-]|].
  pose proof (destroy_sandboxes sid s) as Hd.
  destruct (destroy_sandbox_vm _ _ _) as [s1 [b|x]]; cbn [fst] in Hd; [|by intros [= <- <-]].
  destruct (remove_containers_by_sandbox (env_io e) sid (sv_store s1)) as [st removed] eqn:Er.
  intros [= <- <-]. unfold sandboxes at 1. cbn [with_store sv_store]. unfold remove_sandbox, SandboxStore.remove. cbn [fst].
  match goal with |- cs_sandboxes (persist_if ?o ?b ?x) = _ => destruct (persist_maps o b x) as [-> _] end.
  cbn [set_sandboxes cs_sandboxes]. f_equal. rewrite <-Hd.
  match goal with |- cs_sandboxes (sv_store ?x) = _ => change (sandboxes x = sandboxes s1) end.
  rewrite foldl_sandboxes by done. unfold sandboxes. cbn [with_store sv_store].
  unfold remove_containers_by_sandbox in Er. destruct (ContainerStore.remove_by_sandbox _ _) as [m out].
  injection Er as <- _. match goal with |- cs_sandboxes (persist_if ?o ?b ?x) = _ => by destruct (persist_maps o b x) as [-> _] end.
Qed.

End effects.

Section tear_down.
Context `{HashOrder} (pe : pod_env).

Lemma stop_container_sandboxes id s s' r : stop_container (pe_env pe) id s = (s', r) →
  sandboxes s' = match tears_down pe id s with Some sid => not_ready sid (sandboxes s) | None => sandboxes s end.
Proof.
  unfold stop_container, tears_down. destruct (container_of s id) as [c|]; [|by intros [= <- <-]].
  destruct (ct_state c); cbn [bool_decide decide_rel].
  - rewrite bool_decide_false by done. intros [= <- <-].
    change (sandboxes (mark_exited_event (pe_env pe) id 0 "StopContainer" s) = sandboxes s). apply exited_event_sandboxes.
  - rewrite bool_decide_true by done. pose proof (stop_workload_sandboxes (pe_env pe) c s) as Hs.
    destruct (stop_container_workload (pe_env pe) c s) as [s1 []]; cbn [fst orb] in Hs |- *; [by intros [= <- <-]|].
    destruct (has_other_running_containers c s1); [by intros [= <- <-]|]. unfold stop_container_vm.
    pose proof (destroy_sandboxes (pe_env pe) (ct_sandbox_id c) s1) as Hd.
    destruct (destroy_sandbox_vm _ _ _) as [s2 [b|x]]; cbn [fst snd] in *; intros [= <- <-]; [|congruence].
    etransitivity; [apply (exited_if_running_sandboxes (pe_env pe) id (env_now (pe_env pe)) 137 false "StopContainer")|].
    rewrite set_state_sandboxes. congruence.
  - rewrite bool_decide_false by done. by intros [= <- <-].
Qed.

Lemma remove_container_sandboxes id s s' r : remove_container_request (pe_env pe) id s = (s', r) →
  sandboxes s' = match tears_down pe id s with Some sid => not_ready sid (sandboxes s) | None => sandboxes s end.
Proof.
  unfold remove_container_request. destruct (container_of s id) as [c|] eqn:Hc.
  2:{ unfold tears_down. rewrite Hc. by intros [= <- <-]. }
  destruct (bool_decide (ct_state c = Running)) eqn:Hr.
  - destruct (stop_container (pe_env pe) id s) as [s1 r1] eqn:Es. apply stop_container_sandboxes in Es.
    rewrite <-Es. destruct r1; [apply after_removal | by intros [= <- <-]].
  - assert (tears_down pe id s = None) as -> by (unfold tears_down; by rewrite Hc, Hr). apply after_removal.
Qed.
End tear_down.

(** ** Addresses are held while a pod is ready *)

(** The endpoint of a box in a network. *)
Definition ep_of (m : nets) (n id : string) : option NetworkEndpoint := c ← m !! n; net_endpoints c !! id.

Definition network_ok (n : string) (c : NetworkConfig) : Prop :=
  net_name c = n ∧ ∃ ipam, Ipam.wf ipam ∧ Ipam.roomy ipam ∧ network_inv ipam c.

Record pods_ok (p : Pods) : Prop := {
  pk_id : ∀ k sb, sandbox_of (po_svc p) k = Some sb → sb_id sb = k;
  pk_net : ∀ n c, po_nets p !! n = Some c → network_ok n c;
  pk_held : ∀ k sb n, sandbox_of (po_svc p) k = Some sb → sb_state sb = Ready → sandbox_network_name sb = Some n →
    ∃ ep, ep_of (po_nets p) n k = Some ep ∧ sb_network_ip sb = show_ipv4 (ep_ip_address ep);
  pk_only : ∀ k sb n ep, sandbox_of (po_svc p) k = Some sb → ep_of (po_nets p) n k = Some ep →
    sb_state sb = Ready ∧ sandbox_network_name sb = Some n }.

Lemma nets_keyed m : (∀ n c, m !! n = Some c → network_ok n c) → NetworkStore.keyed m.
Proof. intros Hm n c Hc. by apply (Hm n c). Qed.

Lemma ep_of_insert m n c n' k :
  ep_of (<[n := c]> m) n' k = if decide (n' = n) then net_endpoints c !! k else ep_of m n' k.
Proof.
  unfold ep_of. destruct (decide (n' = n)) as [->|]; [by rewrite lookup_insert_eq|]. by rewrite lookup_insert_ne.
Qed.

Lemma ep_of_alter id n m n' k :
  ep_of (alter (without id) n m) n' k = if decide (n' = n ∧ k = id) then None else ep_of m n' k.
Proof.
  unfold ep_of. destruct (decide (n' = n)) as [->|].
  - rewrite lookup_alter_eq. destruct (m !! n) as [c|]; cbn [fmap option_fmap option_map mbind option_bind].
    2: by destruct (decide _). unfold without. cbn [with_endpoints net_endpoints].
    destruct (decide (k = id)) as [->|]; [by rewrite lookup_delete_eq, decide_True|].
    rewrite lookup_delete_ne, decide_False by naive_solver. done.
  - rewrite lookup_alter_ne, decide_False by naive_solver. done.
Qed.

Lemma disconnect_ep sb m n k : NetworkStore.keyed m →
  ep_of (disconnect_sandbox_network net_io_ok sb m) n k
    = if decide (sandbox_network_name sb = Some n ∧ k = sb_id sb) then None else ep_of m n k.
Proof.
  intros Hk. unfold disconnect_sandbox_network. destruct (sandbox_network_name sb) as [n0|].
  2: by rewrite decide_False by naive_solver.
  rewrite disconnect_alter, ep_of_alter by done.
  destruct (decide _) as [[-> ->]|Hn]; [by rewrite decide_True|]. by rewrite decide_False by naive_solver.
Qed.

Lemma without_ok id n c : network_ok n c → network_ok n (without id c).
Proof.
  intros [Hn (ipam & Hwf & Hr & Hi)]. split; [exact Hn|]. exists ipam. split_and!; [done..|].
  destruct (net_endpoints c !! id) as [ep|] eqn:E.
  - apply (disconnect_preserves ipam c id (without id c) ep Hi). unfold disconnect. by rewrite E.
  - unfold without. by rewrite delete_id, with_endpoints_id.
Qed.

Lemma disconnect_ok sb m : (∀ n c, m !! n = Some c → network_ok n c) →
  ∀ n c, disconnect_sandbox_network net_io_ok sb m !! n = Some c → network_ok n c.
Proof.
  intros Hm n c. unfold disconnect_sandbox_network. destruct (sandbox_network_name sb) as [n0|]; [|apply Hm].
  rewrite disconnect_alter by by apply nets_keyed. intros [[<- (c0 & Hc0 & ->)]|[_ Hc]]%lookup_alter_Some; [|by apply Hm].
  by apply without_ok, Hm.
Qed.

(** A pod that ends: its sandbox is no longer ready or gone, and disconnected. *)
Lemma end_ok p p' sid sb : pods_ok p → sandbox_of (po_svc p) sid = Some sb →
  (∀ k, k ≠ sid → sandbox_of (po_svc p') k = sandbox_of (po_svc p) k) →
  (∀ sb', sandbox_of (po_svc p') sid = Some sb' → sb' = with_sb_state sb NotReady) →
  po_nets p' = disconnect_sandbox_network net_io_ok sb (po_nets p) →
  pods_ok p' ∧ ∀ n, ep_of (po_nets p') n sid = None.
Proof.
  intros [Hid Hnet Hheld Honly] Hsb Hother Hself Hnets. pose proof (nets_keyed _ Hnet) as Hk.
  assert (Hnone : ∀ n, ep_of (po_nets p') n sid = None).
  { intros n. rewrite Hnets, disconnect_ep by done. rewrite (Hid _ _ Hsb).
    destruct (decide (sandbox_network_name sb = Some n ∧ sid = sid)) as [|Hn]; [done|].
    destruct (ep_of (po_nets p) n sid) as [ep|] eqn:E; [|done].
    exfalso. apply Hn. split; [|done]. by eapply Honly. }
  assert (Hrest : ∀ n k, k ≠ sid → ep_of (po_nets p') n k = ep_of (po_nets p) n k).
  { intros n k Hn. rewrite Hnets, disconnect_ep, (Hid _ _ Hsb), decide_False by naive_solver. done. }
  split; [|done]. split.
  - intros k sb' Hsb'. destruct (decide (k = sid)) as [->|]; [|rewrite Hother in Hsb' by done; by apply Hid].
    rewrite (Hself _ Hsb'). by apply (Hid sid sb).
  - rewrite Hnets. by apply disconnect_ok.
  - intros k sb' n Hsb' Hr Hn. destruct (decide (k = sid)) as [->|]; [by rewrite (Hself _ Hsb') in Hr|].
    rewrite Hother in Hsb' by done. rewrite Hrest by done. by apply Hheld.
  - intros k sb' n ep Hsb'. destruct (decide (k = sid)) as [->|]; [by rewrite Hnone|].
    rewrite Hother in Hsb' by done. rewrite Hrest by done. by apply Honly.
Qed.

(** Steps that leave the sandboxes and their endpoints alone. *)
Lemma same_ok p p' : pods_ok p → sandboxes (po_svc p') = sandboxes (po_svc p) →
  (∀ n c, po_nets p' !! n = Some c → network_ok n c) →
  (∀ k sb n, sandbox_of (po_svc p) k = Some sb → ep_of (po_nets p') n k = ep_of (po_nets p) n k) → pods_ok p'.
Proof.
  intros [Hid Hnet Hheld Honly] Hsbs Hnets Heps.
  assert (Hsb : ∀ k, sandbox_of (po_svc p') k = sandbox_of (po_svc p) k).
  { intros k. change (sandboxes (po_svc p') !! k = sandboxes (po_svc p) !! k). by rewrite Hsbs. }
  split; [|done| |].
  - intros k sb. rewrite Hsb. apply Hid.
  - intros k sb n. rewrite Hsb. intros Hk. rewrite (Heps k sb n) by done. by apply Hheld.
  - intros k sb n ep. rewrite Hsb. intros Hk. rewrite (Heps k sb n) by done. by apply Honly.
Qed.

Section pods.
Context `{HashOrder}.

Lemma name_agrees pe config handler c md bc ip additional :
  checked_pod pe config handler = Ok (c, md, bc, ip, additional) →
  bridge_network_name bc = trimmed (pc_annotations c) ANN_NETWORK.
Proof.
  unfold checked_pod. intros E. apply bind_Ok in E as (c0 & _ & E). apply bind_Ok in E as (md0 & _ & E).
  apply bind_Ok in E as (_ & _ & E). apply bind_Ok in E as (bc0 & Hbc & E).
  apply bind_Ok in E as ([ip0 add0] & _ & E). destruct (negb _); [done|]. injection E as <- <- <- <- <-.
  unfold pod_sandbox_config_to_box_config in Hbc. cbv zeta in Hbc.
  apply bind_Ok in Hbc as (i & _ & Hbc). apply bind_Ok in Hbc as (t & _ & Hbc).
  apply bind_Ok in Hbc as (ports & _ & Hbc). apply bind_Ok in Hbc as (net & Hnet & Hbc).
  apply bind_Ok in Hbc as (h & _ & Hbc). injection Hbc as <-.
  unfold bridge_network_name. cbn [push_volume pod_config network]. unfold trimmed.
  unfold parse_network_mode in Hnet. destruct (pc_annotations c0 !! ANN_NETWORK) as [v|];
    cbn [fmap option_fmap option_map mbind option_bind] in *; [|by injection Hnet as <-].
  unfold non_empty at 2. destruct (is_empty (trim v)) eqn:Ev; [by injection Hnet as <-|].
  destruct (has_char _ _ || has_char _ _); [done|]. injection Hnet as <-.
  unfold non_empty. by rewrite trim_idem, Ev.
Qed.

(** One call of the service, or of the command line on the networks, from its beginning to its end.
    The code takes no lock over reading a network and writing it back, so this covers the histories
    in which calls that use the same network do not overlap ([racing_pods_share_address] is one
    that does); the writes that take a pod off its network succeed; a restart is no step
    ([stopped_after_restart]). *)
Inductive pod_step (p : Pods) : Pods → Prop :=
  | StepRun pe config handler : pe_undo pe = net_io_ok →
      sandbox_of (po_svc p) (pe_sandbox_id pe) = None → (∀ n, ep_of (po_nets p) n (pe_sandbox_id pe) = None) →
      pod_step p (run_pod_sandbox pe config handler p).1
  | StepStop pe sid : pe_undo pe = net_io_ok → pod_step p (stop_pod pe sid p).1
  | StepRemove pe sid : pe_undo pe = net_io_ok → pod_step p (remove_pod pe sid p).1
  | StepStopContainer pe id : pe_undo pe = net_io_ok → pod_step p (stop_container_in_pod pe id p).1
  | StepRemoveContainer pe id : pe_undo pe = net_io_ok → pod_step p (remove_container_in_pod pe id p).1
  | StepStart e id : pod_step p {| po_svc := (start_container e id (po_svc p)).1; po_nets := po_nets p |}
  | StepCreate w io sid cfg : pod_step p {| po_svc := (create_container w io sid cfg (po_svc p)).1.2; po_nets := po_nets p |}
  | StepShutdown pe : pod_step p {| po_svc := (shutdown_all_sandboxes pe (po_svc p)).1; po_nets := po_nets p |}
  | StepBoxConnect n c id name aliases c' ep : sandbox_of (po_svc p) id = None → po_nets p !! n = Some c →
      connect_with_aliases c id name aliases = Ok (c', ep) →
      pod_step p {| po_svc := po_svc p; po_nets := <[n := c']> (po_nets p) |}
  | StepBoxDisconnect n c id c' ep : sandbox_of (po_svc p) id = None → po_nets p !! n = Some c →
      disconnect c id = Ok (c', ep) →
      pod_step p {| po_svc := po_svc p; po_nets := <[n := c']> (po_nets p) |}.

Lemma run_ok pe config handler p : pods_ok p → pe_undo pe = net_io_ok →
  sandbox_of (po_svc p) (pe_sandbox_id pe) = None → (∀ n, ep_of (po_nets p) n (pe_sandbox_id pe) = None) →
  pods_ok (run_pod_sandbox pe config handler p).1.
Proof.
  intros Hp Hu Hsb0 Hep0. pose proof Hp as [Hid Hnet Hheld Honly]. pose proof (nets_keyed _ Hnet) as Hk.
  destruct (run_pod_sandbox pe config handler p) as [p' r] eqn:Er. apply run_spec in Er; [|done]. cbn [fst].
  destruct r as [id|x]; [|destruct Er as [E1 E2]; specialize (E2 Hu); replace p' with p; [done|destruct p, p'; cbn in *; congruence]]. destruct Er as [-> [Hparts _ _ _]]. set (id := pe_sandbox_id pe) in *.
  destruct Hparts as (c & md & bc & ip & add & sb & Hch & _ & Hsbs & Esb & Hn).
  assert (Hsb : ∀ k, sandbox_of (po_svc p') k = if decide (k = id) then Some sb else sandbox_of (po_svc p) k).
  { intros k. unfold sandbox_of. rewrite Hsbs. destruct (decide (k = id)) as [->|]; [by rewrite lookup_insert_eq|].
    by rewrite lookup_insert_ne. }
  assert (Hname : sandbox_network_name sb = bridge_network_name bc) by (rewrite Esb; symmetry; eapply name_agrees; done).
  assert (sb_id sb = id ∧ sb_state sb = Ready) as [Eid Est] by by rewrite Esb.
  assert (Heps : ∀ n k, ep_of (po_nets p') n k = ep_of (po_nets p) n k ∨
            k = id ∧ bridge_network_name bc = Some n ∧
            ∃ ep, ep_of (po_nets p') n k = Some ep ∧ sb_network_ip sb = show_ipv4 (ep_ip_address ep)).
  { intros n k. destruct (bridge_network_name bc) as [n0|]; [|by left; rewrite Hn].
    destruct Hn as (net & net' & ep & Hnn & Hcn & -> & Hip). rewrite ep_of_insert.
    destruct (decide (n = n0)) as [->|]; [|by left]. destruct (connect_endpoints _ _ _ _ _ Hcn) as [_ ->].
    cbn [with_endpoints net_endpoints]. destruct (decide (k = id)) as [->|].
    - right. split_and!; [done..|]. exists ep. by rewrite lookup_insert_eq.
    - left. rewrite lookup_insert_ne by done. unfold ep_of. by rewrite Hnn. }
  assert (Hnew : ∀ n, bridge_network_name bc = Some n →
            ∃ ep, ep_of (po_nets p') n id = Some ep ∧ sb_network_ip sb = show_ipv4 (ep_ip_address ep)).
  { intros n E. rewrite E in Hn. destruct Hn as (net & net' & ep & Hnn & Hcn & -> & Hip). exists ep.
    rewrite ep_of_insert, decide_True by done. destruct (connect_endpoints _ _ _ _ _ Hcn) as [_ ->].
    cbn [with_endpoints net_endpoints]. by rewrite lookup_insert_eq. }
  split.
  - intros k sb'. rewrite Hsb. destruct (decide (k = id)) as [->|]; [by intros [= <-] | apply Hid].
  - destruct (bridge_network_name bc) as [n0|]; [|by rewrite Hn].
    destruct Hn as (net & net' & ep & Hnn & Hcn & -> & _). destruct (Hnet _ _ Hnn) as [E (ipam & Hwf & Hr & Hi)].
    intros n c1 [[<- <-]|[_ ?]]%lookup_insert_Some; [|by apply Hnet]. split.
    + destruct (connect_endpoints _ _ _ _ _ Hcn) as [_ ->]. done.
    + exists ipam. split_and!; [done..|]. by eapply connect_preserves.
  - intros k sb' n. rewrite Hsb. destruct (decide (k = id)) as [->|Hne].
    + intros [= <-] _. rewrite Hname. apply Hnew.
    + intros Hk' Hr Hnm. destruct (Heps n k) as [->|[-> _]]; [|done]. by apply Hheld.
  - intros k sb' n ep. rewrite Hsb. destruct (decide (k = id)) as [->|Hne].
    + intros [= <-] He. split; [done|]. rewrite Hname. destruct (Heps n id) as [E|[_ [E _]]]; [|done].
      by rewrite E, Hep0 in He.
    + intros Hk' He. destruct (Heps n k) as [E|[-> _]]; [|done]. rewrite E in He. by eapply Honly.
Qed.

(** The shape of the two handlers that may tear down a machine. *)
Lemma torn_ok pe id p s' : pods_ok p → pe_undo pe = net_io_ok →
  sandboxes s' = match tears_down pe id (po_svc p) with
                 | Some sid => not_ready sid (sandboxes (po_svc p)) | None => sandboxes (po_svc p) end →
  pods_ok {| po_svc := s';
             po_nets := match tears_down pe id (po_svc p) ≫= sandbox_of (po_svc p) with
                        | Some sb => disconnect_sandbox_network (pe_undo pe) sb (po_nets p)
                        | None => po_nets p
                        end |}.
Proof.
  intros Hp Hu Hs. pose proof (pk_net _ Hp) as Hnet. destruct (tears_down pe id (po_svc p)) as [sid|]; cbn [mbind option_bind].
  2: by apply (same_ok p).
  destruct (sandbox_of (po_svc p) sid) as [sb|] eqn:Hsb.
  - rewrite Hu. apply (end_ok p _ sid sb); try done; unfold sandbox_of in *; cbn [po_svc];
      change (cs_sandboxes (sv_store s')) with (sandboxes s'); rewrite Hs; unfold not_ready.
    + intros k Hk. by rewrite lookup_alter_ne.
    + unfold sandboxes. rewrite lookup_alter_eq, Hsb. by intros sb' [= <-].
  - apply (same_ok p); try done. cbn [po_svc]. rewrite Hs. by apply alter_id'.
Qed.

Lemma stop_pod_ok pe sid p : pods_ok p → pe_undo pe = net_io_ok → pods_ok (stop_pod pe sid p).1 ∧
  ((stop_pod pe sid p).2 = Ok () → ∀ n, ep_of (po_nets (stop_pod pe sid p).1) n sid = None).
Proof.
  intros Hp Hu. pose proof (pk_net _ Hp) as Hnet. unfold stop_pod.
  assert (Hns : ∀ sb, sandbox_of (po_svc p) sid = Some sb → sb_state sb ≠ Ready → ∀ n, ep_of (po_nets p) n sid = None).
  { intros sb Hsb Hst n. destruct (ep_of (po_nets p) n sid) as [ep|] eqn:E; [|done].
    destruct Hst. by destruct (pk_only _ Hp _ _ _ _ Hsb E). }
  destruct (stop_pod_sandbox (pe_env pe) sid (po_svc p)) as [s' r] eqn:Es.
  assert (sandbox_of (po_svc p) sid = None → r ≠ Ok ()) as Hmiss.
  { intros E. unfold stop_pod_sandbox in Es. rewrite E in Es. by injection Es as _ <-. }
  apply stop_pod_sandboxes in Es. cbn [fst snd po_nets].
  destruct (sandbox_of (po_svc p) sid) as [sb|] eqn:Hsb; [|split; [by apply (same_ok p) | intros ->; by destruct Hmiss]].
  destruct r as [[]|x]; [|split; [by apply (same_ok p) | done]].
  case_bool_decide as Hst; [|split; [by apply (same_ok p) | intros _; by eapply Hns]]. rewrite Hu.
  match goal with |- pods_ok ?q ∧ _ => destruct (end_ok p q sid sb) as [H1 H2] end; try done;
    unfold sandbox_of in *; cbn [po_svc]; change (cs_sandboxes (sv_store s')) with (sandboxes s'); rewrite Es;
    unfold not_ready.
  - intros k Hk. by rewrite lookup_alter_ne.
  - unfold sandboxes. rewrite lookup_alter_eq, Hsb. by intros sb' [= <-].
Qed.

Lemma remove_pod_ok pe sid p : pods_ok p → pe_undo pe = net_io_ok → pods_ok (remove_pod pe sid p).1.
Proof.
  intros Hp Hu. pose proof (pk_net _ Hp) as Hnet. unfold remove_pod.
  destruct (remove_pod_sandbox (pe_env pe) sid (po_svc p)) as [s' r] eqn:Es. apply remove_pod_sandboxes in Es. cbn [fst].
  destruct r as [[]|x]; [|destruct (sandbox_of (po_svc p) sid); by apply (same_ok p)].
  destruct (sandbox_of (po_svc p) sid) as [sb|] eqn:Hsb.
  - rewrite Hu. apply (end_ok p _ sid sb); try done; unfold sandbox_of in *; cbn [po_svc];
      change (cs_sandboxes (sv_store s')) with (sandboxes s'); rewrite Es.
    + intros k Hk. by rewrite lookup_delete_ne.
    + by rewrite lookup_delete_eq.
  - apply (same_ok p); try done. cbn [po_svc]. rewrite Es. by apply delete_id.
Qed.

Lemma start_sandboxes e id s : sandboxes (start_container e id s).1 = sandboxes s.
Proof.
  unfold start_container. destruct (container_of s id) as [c|]; [|done]. destruct (ct_state c); [|done..].
  destruct (negb (env_image_ok e id)); [done|]. destruct (to_exec_request c _); [|done].
  destruct (negb _); [done|]. destruct (negb _); [done|]. unfold mark_container_started_if_created.
  match goal with |- context [update_containers ?o ?f ?st] => pose proof (update_containers_sandboxes o f st) as E end.
  by destruct (update_containers _ _ _) as [st []].
Qed.

Lemma create_sandboxes w io sid cfg s : sandboxes (create_container w io sid cfg s).1.2 = sandboxes s.
Proof.
  unfold create_container. destruct (checked _ _) as [[[[[sb c] meta] mounts] image]|x]; [|done]. cbv zeta.
  destruct (negb _); [done|]. destruct (materialize_container_mounts _ _ _) as [bound [[]|x]]; [|done].
  unfold sandboxes. cbn [fst snd emit with_store sv_store]. unfold add_container, persist. by destruct (cio_write io).
Qed.

Lemma shutdown_sandboxes pe s : sandboxes (shutdown_all_sandboxes pe s).1 = sandboxes s.
Proof. apply foldl_sandboxes. intros. apply destroy_sandboxes. Qed.

Lemma pod_step_ok p p' : pods_ok p → pod_step p p' → pods_ok p'.
Proof.
  intros Hp Hs. pose proof (pk_net _ Hp) as Hnet. destruct Hs as [pe config handler Hu H1 H2|pe sid Hu|pe sid Hu|pe id Hu|pe id Hu
    |e id|w io sid cfg|pe|n c id name aliases c' ep Hid Hc Hcn|n c id c' ep Hid Hc Hcn].
  - by apply run_ok.
  - by apply stop_pod_ok.
  - by apply remove_pod_ok.
  - unfold stop_container_in_pod. destruct (stop_container _ _ _) as [s' r] eqn:E. apply stop_container_sandboxes in E.
    by apply torn_ok.
  - unfold remove_container_in_pod. destruct (remove_container_request _ _ _) as [s' r] eqn:E.
    apply remove_container_sandboxes in E. by apply torn_ok.
  - apply (same_ok p); try done. apply start_sandboxes.
  - apply (same_ok p); try done. apply create_sandboxes.
  - apply (same_ok p); try done. apply shutdown_sandboxes.
  - destruct (Hnet _ _ Hc) as [En (ipam & Hwf & Hr & Hi)].
    destruct (connect_inv ipam Hwf Hr _ _ _ _ _ _ Hi Hcn) as (_ & _ & _ & Ec & _). apply (same_ok p); try done.
    + cbn [po_nets]. intros n1 c1 [[<- <-]|[_ ?]]%lookup_insert_Some; [|by apply Hnet]. split; [by rewrite Ec|].
      exists ipam. split_and!; [done..|]. by eapply connect_preserves.
    + intros k sb n1 Hk. cbn [po_nets]. rewrite ep_of_insert. destruct (decide (n1 = n)) as [->|]; [|done].
      rewrite Ec. cbn [with_endpoints net_endpoints]. rewrite lookup_insert_ne by congruence. unfold ep_of. by rewrite Hc.
  - destruct (Hnet _ _ Hc) as [En (ipam & Hwf & Hr & Hi)]. pose proof Hcn as Hcn'. unfold disconnect in Hcn'.
    destruct (net_endpoints c !! id) as [ep'|] eqn:He; [|done]. injection Hcn' as <- _. apply (same_ok p); try done.
    + cbn [po_nets]. intros n1 c1 [[<- <-]|[_ ?]]%lookup_insert_Some; [|by apply Hnet].
      apply (without_ok id). by apply Hnet.
    + intros k sb n1 Hk. cbn [po_nets]. rewrite ep_of_insert. destruct (decide (n1 = n)) as [->|]; [|done].
      cbn [with_endpoints net_endpoints]. rewrite lookup_delete_ne by congruence. unfold ep_of. by rewrite Hc.
Qed.

Lemma pod_steps_ok p p' : pods_ok p → rtc pod_step p p' → pods_ok p'.
Proof. intros Hp Hs. induction Hs as [|p p1 p2 Hs _ IH]; [done|]. apply IH. by eapply pod_step_ok. Qed.

(** A server without sandboxes. *)
Lemma pods_ok_start p : sandboxes (po_svc p) = ∅ → (∀ n c, po_nets p !! n = Some c → network_ok n c) → pods_ok p.
Proof.
  intros Hs Hn. assert (∀ k, sandbox_of (po_svc p) k = None) as E.
  { intros k. change (sandboxes (po_svc p) !! k = None). by rewrite Hs, lookup_empty. }
  split; [|done|..]; intros k *; rewrite E; discriminate.
Qed.

(** A pod without containers is stopped and removed without a trace. *)
Lemma no_containers sid (s : Svc) : (∀ k c, container_of s k = Some c → ct_sandbox_id c ≠ sid) →
  containers_in sid s = [].
Proof.
  intros Hn. destruct (containers_in sid s) as [|c l] eqn:E; [done|]. exfalso.
  assert (c ∈ containers_in sid s) as (Hm & k & Hk)%elem_of_list_containers by (rewrite E; by left).
  apply (Hn k c Hk). unfold ContainerStore.matches in Hm. rewrite andb_true_r in Hm. by apply bool_decide_eq_true in Hm.
Qed.

Lemma stop_empty_pod e sid sb s : sandbox_of s sid = Some sb → sb_state sb = Ready → containers_in sid s = [] →
  env_destroy_ok e sid = true → stop_pod_sandbox e sid s =
    (set_sandbox_state e sid NotReady (destroy_sandbox_vm e sid s).1, Ok ()).
Proof.
  intros Hsb Hr Hc Hd. unfold stop_pod_sandbox. rewrite Hsb, Hr, bool_decide_false by naive_solver.
  assert (stop_all_containers e sid s = s) as ->.
  { unfold stop_all_containers. rewrite Hc. cbn. by rewrite Hc. }
  unfold destroy_sandbox_vm. destruct (decide (sid ∈ sv_vms s)); [by rewrite Hd | done].
Qed.

Lemma remove_empty_pod e sid sb s : sandbox_of s sid = Some sb → sb_state sb ≠ Ready → containers_in sid s = [] →
  sid ∉ sv_vms s → ∃ st, remove_pod_sandbox e sid s = (with_store s st, Ok ()) ∧
    cs_sandboxes st = delete sid (sandboxes s) ∧ cs_containers st = cs_containers (sv_store s).
Proof.
  intros Hsb Hr Hc Hv. unfold remove_pod_sandbox. rewrite Hsb, bool_decide_false by done.
  unfold destroy_sandbox_vm. rewrite decide_False by done. unfold remove_containers_by_sandbox, ContainerStore.remove_by_sandbox.
  unfold containers_in in Hc. rewrite Hc. cbn [map foldl snd negb persist_if with_store sv_store].
  eexists. split; [reflexivity|]. unfold remove_sandbox, SandboxStore.remove. cbn [fst].
  match goal with |- cs_sandboxes (persist_if ?o ?b ?x) = _ ∧ _ => destruct (persist_maps o b x) as [-> ->] end. done.
Qed.
(** Both handlers on a ready pod without containers. *)
Lemma stop_remove_empty pe sb q : let id := sb_id sb in
  sandbox_of (po_svc q) id = Some sb → sb_state sb = Ready → pe_undo pe = net_io_ok →
  env_destroy_ok (pe_env pe) id = true → (∀ k c, container_of (po_svc q) k = Some c → ct_sandbox_id c ≠ id) →
  ∃ p1 p2, stop_pod pe id q = (p1, Ok ()) ∧ remove_pod pe id p1 = (p2, Ok ()) ∧
    po_nets p2 = disconnect_sandbox_network net_io_ok sb (disconnect_sandbox_network net_io_ok sb (po_nets q)) ∧
    sandboxes (po_svc p2) = delete id (sandboxes (po_svc q)) ∧ sv_vms (po_svc p2) = sv_vms (po_svc q) ∖ {[id]} ∧
    cs_containers (sv_store (po_svc p2)) = cs_containers (sv_store (po_svc q)).
Proof.
  intros id Hsb Hready Hu Hd Hct. set (d := (destroy_sandbox_vm (pe_env pe) id (po_svc q)).1).
  set (s1 := set_sandbox_state (pe_env pe) id NotReady d).
  assert (Hv : sv_vms d = sv_vms (po_svc q) ∖ {[id]} ∧ cs_containers (sv_store d) = cs_containers (sv_store (po_svc q))).
  { unfold d, destroy_sandbox_vm. destruct (decide _); cbn; split; (done || set_solver). }
  destruct (set_sandbox_state_spec (pe_env pe) id NotReady d) as (Hc1 & Hv1 & _). fold s1 in Hc1, Hv1.
  destruct Hv as [Hvd Hcd]. rewrite Hcd in Hc1. rewrite Hvd in Hv1.
  assert (Hs1 : sandboxes s1 = not_ready id (sandboxes (po_svc q))).
  { unfold s1, d. by rewrite set_state_sandboxes, destroy_sandboxes. }
  assert (Hsb1 : sandbox_of s1 id = Some (with_sb_state sb NotReady)).
  { change (sandboxes s1 !! id = Some (with_sb_state sb NotReady)). rewrite Hs1. unfold not_ready.
    rewrite lookup_alter_eq. change (sandboxes (po_svc q) !! id) with (sandbox_of (po_svc q) id). by rewrite Hsb. }
  destruct (remove_empty_pod (pe_env pe) id _ s1 Hsb1) as (st & Hrm & Hst & Hstc);
    [done | apply no_containers; unfold container_of; by rewrite Hc1 | rewrite Hv1; set_solver|].
  exists {| po_svc := s1; po_nets := disconnect_sandbox_network net_io_ok sb (po_nets q) |}.
  exists {| po_svc := with_store s1 st;
            po_nets := disconnect_sandbox_network net_io_ok sb (disconnect_sandbox_network net_io_ok sb (po_nets q)) |}.
  split; [|split]; [| |cbn [po_svc po_nets]; split; [reflexivity|]].
  - unfold stop_pod. rewrite (stop_empty_pod _ _ sb) by (done || by apply no_containers).
    by rewrite Hsb, Hready, bool_decide_true, Hu.
  - unfold remove_pod. cbn [po_svc po_nets]. rewrite Hrm, Hsb1, Hu. reflexivity.
  - split; [|split; [exact Hv1 | exact (eq_trans Hstc Hc1)]].
    change (cs_sandboxes st = delete id (sandboxes (po_svc q))). rewrite Hst, Hs1.
    apply map_eq. intros k. destruct (decide (k = id)) as [->|]; [by rewrite !lookup_delete_eq|].
    unfold not_ready. by rewrite !lookup_delete_ne, lookup_alter_ne.
Qed.
End pods.

(** ** The files of sysctls *)

Lemma join_cons sep x l : l ≠ [] → join sep (x :: l) = x +:+ sep +:+ join sep l.
Proof. by destruct l. Qed.

Lemma replace_join c d s : replace (String c "") (String d "") s = join (String d "") (split c s).
Proof.
  unfold replace. induction s as [|a s IH]; [done|]. cbn [replace_go starts_with strip_prefix].
  unfold starts_with. cbn [strip_prefix split]. destruct (Ascii.eqb_spec c a) as [<-|Hn].
  - rewrite Ascii.eqb_refl. cbn [String.length pred strip_prefix]. rewrite IH, join_cons by apply split_nonempty. done.
  - destruct (Ascii.eqb_spec a c) as [->|_]; [done|]. rewrite IH.
    pose proof (split_nonempty c s) as Hne. destruct (split c s) as [|x l]; [done|].
    destruct l as [|y l]; [done|]. by rewrite !(join_cons _ _ (y :: l)) by done.
Qed.

Lemma split_without c d s : has_char d s = false → Forall (λ x, has_char d x = false) (split c s).
Proof.
  induction s as [|a s IH]; cbn [split has_char]; [by repeat constructor|].
  intros [Ha Hs]%orb_false_iff. specialize (IH Hs). destruct (Ascii.eqb a c); [by constructor|].
  destruct (split c s) as [|x l]; [constructor; [|done]; cbn; by rewrite Ha|].
  apply list.Forall_cons in IH as [Hx Hl]. constructor; [|done]. cbn [has_char]. by rewrite Ha, Hx.
Qed.

(** A component of a path that names an entry of its directory. *)
Definition plain_component (p : string) : Prop := p ≠ "" ∧ p ≠ "." ∧ p ≠ ".." ∧ has_char "/" p = false.

Lemma safe_sysctl_file name value : is_safe_sysctl_name name = true →
  ∃ parts, sysctl_write (name +:+ "=" +:+ value) = Some ("/proc/sys/" +:+ join "/" parts, value) ∧
    parts ≠ [] ∧ Forall plain_component parts.
Proof.
  unfold is_safe_sysctl_name. intros [[[_ Hslash%negb_true_iff]%andb_true_iff Hsegs%negb_true_iff]%andb_true_iff Hch]%andb_true_iff.
  exists (split "." name). split; [|split; [apply split_nonempty|]].
  - rewrite sysctl_write_ok, trim_visible, replace_join; [done| |].
    + eapply str_forallb_impl; [|exact Hch]. intros c. unfold sysctl_char, visible, is_digit, is_lower, is_upper.
      rewrite !orb_true_iff, !Ascii.eqb_eq. intros [[[[[?|?]|?]| ->]| ->]| ->]; lia || done.
    + eapply has_char_forallb; [|exact Hch]. done.
  - apply list.Forall_forall. intros p Hp. pose proof (split_pieces "." name) as Hdot.
    pose proof (split_without "." "/" name Hslash) as Hns.
    rewrite list.Forall_forall in Hdot, Hns. specialize (Hdot p Hp). specialize (Hns p Hp).
    split_and!; [|by intros ->|by intros ->|done]. intros ->.
    rewrite <-not_true_iff_false, existsb_exists in Hsegs. apply Hsegs. exists "".
    by rewrite <-list_elem_of_In.
Qed.

(** ** Properties *)

Section theorems.
Context `{HashOrder}.

(** C21: RunPodSandbox is all or nothing, on well-formed networks whose endpoints under pod
    identifiers are those of ready pods, with no other call meanwhile and a new identifier.  A request that is refused, finds no address
    or whose machine cannot be acquired leaves the service as it was, and the networks too, the
    endpoint it took included, when the network store can be read and written for the disconnect (a
    failure there is only logged).  One that succeeds adds exactly one sandbox, Ready and with the
    request's settings, one machine under its identifier, acquired for the checked configuration,
    and one endpoint in the network it names, whose address it reports.  If the machine can be
    destroyed and the network store read and written, stopping and removing that pod then restores
    the sandboxes, the containers, the machines and the networks. *)
Theorem run_pod_all_or_nothing pe config handler p p' r :
  pods_ok p →
  pe_sandbox_id pe ∉ sv_vms (po_svc p) → sandbox_of (po_svc p) (pe_sandbox_id pe) = None →
  (∀ n, ep_of (po_nets p) n (pe_sandbox_id pe) = None) →
  (∀ k c, container_of (po_svc p) k = Some c → ct_sandbox_id c ≠ pe_sandbox_id pe) →
  run_pod_sandbox pe config handler p = (p', r) →
  match r with
  | Err _ => po_svc p' = po_svc p ∧ (pe_undo pe = net_io_ok → po_nets p' = po_nets p)
  | Ok id => id = pe_sandbox_id pe ∧ pod_running pe config handler p p' ∧
      (pe_undo pe = net_io_ok → env_destroy_ok (pe_env pe) id = true →
       let '(p1, stopped) := stop_pod pe id p' in let '(p2, removed) := remove_pod pe id p1 in
       stopped = Ok () ∧ removed = Ok () ∧ po_nets p2 = po_nets p ∧
       sandboxes (po_svc p2) = sandboxes (po_svc p) ∧ sv_vms (po_svc p2) = sv_vms (po_svc p) ∧
       cs_containers (sv_store (po_svc p2)) = cs_containers (sv_store (po_svc p)))
  end.
Proof.
  intros Hp Hv Hsb0 Hep0 Hct Er. pose proof (nets_keyed _ (pk_net _ Hp)) as Hk.
  pose proof (λ Hu, run_ok pe config handler p Hp Hu Hsb0 Hep0) as Hp'. rewrite Er in Hp'. cbn [fst] in Hp'.
  apply run_spec in Er; [|done]. destruct r as [id|x]; [|done]. destruct Er as [-> Hrun].
  split; [done|]. split; [done|]. intros Hu Hd. specialize (Hp' Hu). set (id := pe_sandbox_id pe) in *.
  pose proof Hrun as [(c & md & bc & ip & add & sb & Hch & _ & Hsbs & Esb & Hn) Hcs Hvms _].
  assert (Hsb : sandbox_of (po_svc p') id = Some sb) by (unfold sandbox_of; by rewrite Hsbs, lookup_insert_eq).
  assert (Hready : sb_state sb = Ready) by by rewrite Esb.
  assert (Hid : sb_id sb = id) by by rewrite Esb.
  assert (Hname : sandbox_network_name sb = bridge_network_name bc) by (rewrite Esb; symmetry; eapply name_agrees; done).
  assert (Hback : disconnect_sandbox_network net_io_ok sb (po_nets p') = po_nets p).
  { pose proof (nets_keyed _ (pk_net _ Hp')) as Hk'. unfold disconnect_sandbox_network. rewrite Hname, Hid.
    destruct (bridge_network_name bc) as [n|]; [|done]. rewrite disconnect_alter by done.
    destruct Hn as (net & net' & ep & Hnn & Hcn & -> & _). by eapply connect_without. }
  assert (Hagain : disconnect_sandbox_network net_io_ok sb (po_nets p) = po_nets p).
  { unfold disconnect_sandbox_network. rewrite Hid. destruct (sandbox_network_name sb) as [n|]; [|done].
    rewrite disconnect_alter by done. apply alter_id. intros net Hnn. unfold without.
    rewrite delete_id; [apply with_endpoints_id|]. specialize (Hep0 n). unfold ep_of in Hep0. by rewrite Hnn in Hep0. }
  destruct (stop_remove_empty pe sb p') as (p1 & p2 & H1 & H2 & H3 & H4 & H5 & H6); rewrite ?Hid; try done.
  { intros k c1. unfold container_of. rewrite Hcs. apply Hct. }
  rewrite Hid in H1, H2, H4, H5. rewrite H1, H2, H3, H4, H5, H6, Hback, Hagain, Hvms. split_and!; [done..| |set_solver|done].
  unfold sandboxes. rewrite Hsbs. by apply delete_insert_id.
Qed.

(** C22: A pod holds its address exactly while it is ready.  Conditions: from a server without
    sandboxes and well-formed networks, the calls follow one another (each network is read and
    written back by one call at a time; the store itself does not lock), the server is not
    restarted, whatever is taken off a network can be read and written back, and the identifier of
    a new pod is used by nothing.  Then, however pods are run, stopped and removed, containers
    created, started, stopped and removed, and boxes of the command line connected to and
    disconnected from the same networks: a ready sandbox that names a network has an endpoint there
    with the address it reports, an endpoint under the identifier of a sandbox is that of a ready
    one in the network it names, and two ready pods of a network have different addresses. *)
Theorem pods_hold_addresses p0 p :
  sandboxes (po_svc p0) = ∅ → (∀ n c, po_nets p0 !! n = Some c → network_ok n c) → rtc pod_step p0 p →
  (∀ id sb n, sandbox_of (po_svc p) id = Some sb → sb_state sb = Ready → sandbox_network_name sb = Some n →
     ∃ ep, ep_of (po_nets p) n id = Some ep ∧ sb_network_ip sb = show_ipv4 (ep_ip_address ep)) ∧
  (∀ id sb n, sandbox_of (po_svc p) id = Some sb → is_Some (ep_of (po_nets p) n id) →
     sb_state sb = Ready ∧ sandbox_network_name sb = Some n) ∧
  (∀ id sb id' sb' n, sandbox_of (po_svc p) id = Some sb → sandbox_of (po_svc p) id' = Some sb' →
     sb_state sb = Ready → sb_state sb' = Ready → sandbox_network_name sb = Some n →
     sandbox_network_name sb' = Some n → sb_network_ip sb = sb_network_ip sb' → id = id').
Proof.
  intros Hs Hn Hsteps. pose proof (pod_steps_ok _ _ (pods_ok_start _ Hs Hn) Hsteps) as [_ Hnet Hheld Honly].
  split_and!; [done | intros id sb n Hsb [ep He]; by eapply Honly |].
  intros id sb id' sb' n Hsb Hsb' Hr Hr' Hnm Hnm' Hip.
  destruct (Hheld _ _ _ Hsb Hr Hnm) as (ep & He & E). destruct (Hheld _ _ _ Hsb' Hr' Hnm') as (ep' & He' & E').
  unfold ep_of in He, He'. destruct (po_nets p !! n) as [c|] eqn:Hc; [|done]. cbn in He, He'.
  destruct (Hnet _ _ Hc) as [_ (ipam & Hwf & Hroom & Hi)].
  apply (inv_inj _ _ Hi _ _ _ _ He He'). rewrite E, E' in Hip.
  pose proof (epok_ip _ _ _ (inv_endpoints _ _ Hi _ _ He)). pose proof (epok_ip _ _ _ (inv_endpoints _ _ Hi _ _ He')).
  pose proof (Ipam.broadcast_range ipam Hwf). pose proof (Ipam.wf_network ipam Hwf).
  apply show_ipv4_inj in Hip; unfold in_range in *; lia.
Qed.

(** The sysctls of a pod stay under [/proc/sys].  Of the sysctls a pod asks for exactly
    those with a safe name reach the box, with the value asked for; and the guest, which turns
    the dots of a name into slashes, writes each of them to a file below [/proc/sys] whose path
    has no empty component, no [.] and no [..]. *)
Theorem pod_sysctls_confined c image l bc :
  pod_sandbox_config_to_box_config c image = Ok bc → pc_linux c = Some l →
  (∀ name value, (name, value) ∈ sysctls bc ↔ lp_sysctls l !! name = Some value ∧ is_safe_sysctl_name name = true) ∧
  ∀ name value, (name, value) ∈ sysctls bc →
    ∃ parts, sysctl_write (name +:+ "=" +:+ value) = Some ("/proc/sys/" +:+ join "/" parts, value) ∧
      parts ≠ [] ∧ Forall plain_component parts.
Proof.
  intros Hbc Hl. assert (sysctls bc = parse_sysctls c) as ->.
  { unfold pod_sandbox_config_to_box_config in Hbc. cbv zeta in Hbc.
    do 5 (apply bind_Ok in Hbc as (? & _ & Hbc)). by injection Hbc as <-. }
  assert (∀ name value, (name, value) ∈ parse_sysctls c ↔
            lp_sysctls l !! name = Some value ∧ is_safe_sysctl_name name = true) as Hin.
  { intros name value. unfold parse_sysctls. rewrite Hl, sort_by_perm, elem_of_filter_b, elem_of_hash_iter. done. }
  split; [done|]. intros name value [_ Hs]%Hin. by apply safe_sysctl_file.
Qed.
End theorems.

(** ** What the code does not do *)

(** Reading a network and writing it back are two operations of the store: two pods that
    start at once are given the same address, and the network forgets the first. *)
Lemma racing_pods_share_address n c m : NetworkStore.keyed m → m !! n = Some c →
  ∀ id id' name name' c1 ep c2 ep', connect c id name = Ok (c1, ep) → connect c id' name' = Ok (c2, ep') → id ≠ id' →
  read_network net_io_ok n m = Ok c ∧
  ∃ m1 m2, write_network net_io_ok c1 m = Ok m1 ∧ write_network net_io_ok c2 m1 = Ok m2 ∧
    ep_ip_address ep = ep_ip_address ep' ∧ ep_of m2 n id' = Some ep' ∧ ep_of m2 n id = None.
Proof.
  intros Hk Hc id id' name name' c1 ep c2 ep' H1 H2 Hne. split; [unfold read_network; cbn; by rewrite Hc|].
  destruct (connect_endpoints _ _ _ _ _ H1) as [N1 E1]. destruct (connect_endpoints _ _ _ _ _ H2) as [N2 E2].
  exists (<[n := c1]> m), (<[n := c2]> (<[n := c1]> m)). unfold write_network, NetworkStore.update_step. cbn [net_io_ok ni_write negb].
  assert (net_name c1 = n ∧ net_name c2 = n) as [-> ->] by (rewrite E1, E2; by rewrite <-(Hk _ _ Hc)).
  rewrite !bool_decide_true by (rewrite ?lookup_insert_eq, ?Hc; eauto). split_and!; [done..| | |].
  - unfold connect, connect_with_aliases in H1, H2. rewrite bool_decide_false in H1, H2 by (rewrite ?N1, ?N2; by intros []).
    destruct (Ipam.new (net_subnet c)) as [ipam|]; [|done]. cbn [mbind result_bind] in H1, H2.
    destruct (Ipam.allocate _ _) as [ip|]; [|done]. cbn [mbind result_bind] in H1, H2.
    injection H1 as _ <-. by injection H2 as _ <-.
  - rewrite ep_of_insert, decide_True, E2 by done. cbn [with_endpoints net_endpoints]. apply lookup_insert_eq.
  - rewrite ep_of_insert, decide_True, E2 by done. cbn [with_endpoints net_endpoints]. by rewrite lookup_insert_ne.
Qed.

(** A sandbox that a restart marked not ready keeps its endpoint: stopping it again returns
    before the network is looked at. *)
Lemma stopped_after_restart `{HashOrder} pe sid sb p : sandbox_of (po_svc p) sid = Some sb → sb_state sb = NotReady →
  stop_pod pe sid p = (p, Ok ()).
Proof.
  intros Hsb Hst. unfold stop_pod, stop_pod_sandbox. rewrite Hsb, Hst. rewrite bool_decide_true by done.
  rewrite bool_decide_false by done. by destruct p.
Qed.

(** ** Concrete runs *)

Definition pod_net : NetworkConfig :=
  {| net_name := "n"; net_subnet := "10.0.0.0/24"; net_gateway := 167772161; net_driver := "bridge";
     net_labels := ∅; net_endpoints := ∅; net_created_at := ""; net_policy := Network.default_policy |}.
Definition pod_demo_env (id : string) : pod_env :=
  {| pe_env := toy_env; pe_default_agent_image := DEFAULT_AGENT_IMAGE; pe_handler_agent_images := ∅;
     pe_rootfs_base := "/images/cri-container-rootfs"; pe_rootfs_base_ok := true; pe_sandbox_id := id;
     pe_net := net_io_ok; pe_undo := net_io_ok; pe_pool := None; pe_boots := λ _ _, true |}.
Definition pod_demo_config : PodSandboxConfig :=
  {| pc_metadata := Some {| md_name := "web"; md_uid := "u"; md_namespace := "default"; md_attempt := 0 |};
     pc_hostname := ""; pc_log_directory := "/logs"; pc_dns_config := None;
     pc_port_mappings := [{| pm_protocol := 0; pm_container_port := 80; pm_host_port := 0; pm_host_ip := "" |}];
     pc_labels := ∅; pc_annotations := {["a3s.box/network" := " n "]};
     pc_linux := Some {| lp_sysctls := list_to_map [("net.core.somaxconn", "64"); ("../../proc/sysrq-trigger", "b")];
                         lp_namespace_options := None |} |}.
Definition no_pods : Pods :=
  {| po_svc := {| sv_store := new_cri; sv_vms := ∅; sv_stops := ∅; sv_events := [] |}; po_nets := {["n" := pod_net]} |}.

Lemma demo_networks : ∀ n c, po_nets no_pods !! n = Some c → network_ok n c.
Proof.
  cbn [no_pods po_nets]. intros n c [<- <-]%lookup_singleton_Some. split; [done|].
  assert (Ipam.new "10.0.0.0/24" = Ok (Ipam.mk 167772160 24 167772161)) as En by (vm_compute; reflexivity).
  exists (Ipam.mk 167772160 24 167772161). split_and!.
  - by apply (Ipam.new_wf "10.0.0.0/24").
  - apply Ipam.aligned_roomy; [by apply (Ipam.new_wf "10.0.0.0/24") | vm_compute; reflexivity].
  - split; try done. all: cbn; intros *; by rewrite lookup_empty.
Qed.

Example pod_address : exists sb,
  sandbox_of (po_svc (@run_pod_sandbox list_order (pod_demo_env "p1") (Some pod_demo_config) "" no_pods).1) "p1" = Some sb ∧
  sb_network_ip sb = "10.0.0.2".
Proof. eexists. split; vm_compute; reflexivity. Qed.

Example host_port_of_pod : port_entry {| pm_protocol := 0; pm_container_port := 80; pm_host_port := 0; pm_host_ip := "" |} = Ok "80:80".
Proof. vm_compute. reflexivity. Qed.

Example shown_ips : map (λ s, show_ip <$> parse_ip s) ["10.1.2.3"; "2001:DB8:0:0:1:0:0:1"; "::ffff:1.2.3.4"; "::"; "1::"]
  = [Some "10.1.2.3"; Some "2001:db8::1:0:0:1"; Some "::ffff:1.2.3.4"; Some "::"; Some "1::"].
Proof. vm_compute. reflexivity. Qed.

Lemma run_pod_all_or_nothing_witness : ∃ p', run_pod_sandbox (H := list_order) (pod_demo_env "p1") (Some pod_demo_config) "" no_pods
    = (p', Ok "p1") ∧ po_nets (remove_pod (H := list_order) (pod_demo_env "p1") "p1"
                          (stop_pod (H := list_order) (pod_demo_env "p1") "p1" p').1).1 = {["n" := pod_net]}.
Proof.
  destruct (@run_pod_sandbox list_order (pod_demo_env "p1") (Some pod_demo_config) "" no_pods) as [p' r] eqn:Er.
  assert (r = Ok "p1") as -> by (apply (f_equal snd) in Er; vm_compute in Er; by symmetry).
  exists p'. split; [reflexivity|].
  pose proof (@run_pod_all_or_nothing list_order (pod_demo_env "p1") (Some pod_demo_config) "" no_pods p' (Ok "p1")
    (pods_ok_start no_pods eq_refl demo_networks) (not_elem_of_empty _) eq_refl) as Ht.
  destruct Ht as (_ & _ & Ht).
  - intros n. unfold ep_of. destruct (decide (n = "n")) as [->|]; [done|]. cbn [po_nets no_pods].
    by rewrite lookup_singleton_ne.
  - intros k c Hc. exfalso. cbv [container_of no_pods po_svc sv_store new_cri cs_containers] in Hc. by rewrite lookup_empty in Hc.
  - exact Er.
  - specialize (Ht eq_refl eq_refl). destruct (stop_pod _ _ _) as [p1 stopped]. destruct (remove_pod _ _ _) as [p2 removed].
    cbn [fst]. by destruct Ht as (_ & _ & -> & _).
Defined.

Lemma pods_hold_addresses_witness :
  ∃ p sb ep, p = (@run_pod_sandbox list_order (pod_demo_env "p1") (Some pod_demo_config) "" no_pods).1 ∧
    sandbox_of (po_svc p) "p1" = Some sb ∧ ep_of (po_nets p) "n" "p1" = Some ep ∧
    sb_network_ip sb = show_ipv4 (ep_ip_address ep).
Proof.
  pose (p := (@run_pod_sandbox list_order (pod_demo_env "p1") (Some pod_demo_config) "" no_pods).1).
  assert (is_Some (sandbox_of (po_svc p) "p1")) as [sb Hsb] by (vm_compute; eexists; reflexivity).
  exists p, sb. enough (∃ ep, ep_of (po_nets p) "n" "p1" = Some ep ∧ sb_network_ip sb = show_ipv4 (ep_ip_address ep))
    as (ep & He & Hip) by by exists ep.
  refine (proj1 (@pods_hold_addresses list_order no_pods p eq_refl demo_networks _) "p1" sb "n" Hsb _ _).
  - apply rtc_once. apply (@StepRun list_order no_pods (pod_demo_env "p1") (Some pod_demo_config) ""); try done.
    intros n. unfold ep_of. destruct (decide (n = "n")) as [->|]; [done|]. cbn [po_nets no_pods].
    by rewrite lookup_singleton_ne.
  - assert (sb_state <$> sandbox_of (po_svc p) "p1" = Some Ready) as E by (vm_compute; reflexivity).
    rewrite Hsb in E. by injection E.
  - assert (sandbox_of (po_svc p) "p1" ≫= sandbox_network_name = Some "n") as E by (vm_compute; reflexivity).
    by rewrite Hsb in E.
Defined.

Lemma pod_sysctls_confined_witness : ∃ bc,
  @pod_sandbox_config_to_box_config list_order pod_demo_config "img" = Ok bc ∧
  sysctls bc = [("net.core.somaxconn", "64")] ∧ ("../../proc/sysrq-trigger", "b") ∉ sysctls bc.
Proof.
  eexists. split; [vm_compute; reflexivity|]. split; [vm_compute; reflexivity|].
  match goal with |- _ ∉ sysctls ?bc => intros Hin;
    refine (_ (proj1 (@pod_sysctls_confined list_order pod_demo_config "img" _ bc _ _) "../../proc/sysrq-trigger" "b")) end;
    [|vm_compute; reflexivity | reflexivity].
  intros [Hs _]. destruct (Hs Hin) as [_ Hf]. vm_compute in Hf. discriminate Hf.
Defined.
