(* ===== verification/CriQuery.v ===== *)
(** * CriQuery: what the CRI server answers

    From [cri/src/runtime_service/mod.rs]: status and lists of sandboxes and containers, the
    status of the runtime, statistics and metrics ([stats.rs]), the checks of [convert.rs] and the
    calls Exec, Attach, PortForward and UpdateContainerResources; and
    [cri/src/image_service.rs].  The files of [/proc], the directories of the images and the
    answers of the machines are arguments. *)

From Stdlib Require Import ZArith Lia Ascii.
From stdpp Require Import base gmap strings list numbers.
From S2P Require Import Prelude RustStr ImageStore Logs Security Cri Streaming CriContainer CriPod Config.

Local Open Scope string_scope.
Local Open Scope list_scope.
Local Open Scope Z_scope.

(** ** Checks ([convert.rs]) *)

Inductive rpc_error :=
  | RpcNotFound (id : string)
  | RpcNotRunning (id : string)
  | RpcNotReady (id : string)
  | RpcInvalid
  | RpcUnimplemented
  | RpcImageMissing
  | RpcMachineMissing (sid : string)
  | RpcMachineNotReady (sid : string)
  | RpcSocketMissing
  | RpcTtyMismatch
  | RpcNoStdin
  | RpcNoStream.

Definition ensure_container_running (c : Container) : result rpc_error () :=
  if bool_decide (ct_state c = Running) then Ok () else Err (RpcNotRunning (ct_id c)).

Definition ensure_sandbox_ready (sb : PodSandbox) : result rpc_error () :=
  if bool_decide (sb_state sb = Ready) then Ok () else Err (RpcNotReady (sb_id sb)).

(** What the outside answers: whether a path is a directory ([None]: no metadata), whether
    a sandbox's machine is ready, and its sockets. *)
Record query_env := {
  qe_dir : string → option bool;
  qe_ready : string → bool;
  qe_exec_socket : string → option string;
  qe_pty_socket : string → option string;
  qe_forward_socket : string → option string;
  qe_now : Z; qe_token : string; qe_addr : string;
  qe_pid : string → option Z;
  qe_proc : Z → option string * option string  (* [/proc/<pid>/status] and [stat] *) }.

Definition blank (s : string) : bool := is_empty (trim s).

Definition ensure_container_image_available (q : query_env) (c : Container) : result rpc_error () :=
  if blank (ct_image_ref c) then Ok ()
  else if blank (ct_resolved_image_digest c) || blank (ct_resolved_image_path c) then Err RpcImageMissing
  else if negb (default false (qe_dir q (ct_resolved_image_path c))) then Err RpcImageMissing
  else if blank (ct_rootfs_path c) || blank (ct_rootfs_guest_path c) then Err RpcImageMissing
  else if negb (default false (qe_dir q (ct_rootfs_path c))) then Err RpcImageMissing
  else Ok ().

Definition stop_container_timeout_ms (timeout_seconds : Z) : option Z :=
  if timeout_seconds <=? 0 then None else Some (sat_mul 64 timeout_seconds 1000).

(** ** Lists and status *)

Definition sandbox_state_to_cri (st : SandboxState) : Z := match st with Ready => 0 | _ => 1 end.
Definition container_state_to_cri (st : ContainerState) : Z :=
  match st with Created => 0 | Running => 1 | Exited => 2 end.

Record PodSandboxFilter := { pf_id : string; pf_state : Z; pf_labels : gmap string string }.
Record ContainerFilter := {
  cf_id : string; cf_state : option Z; cf_pod_sandbox_id : string; cf_labels : gmap string string }.

Definition nonempty_labels (m : gmap string string) : option (gmap string string) :=
  if bool_decide (m = ∅) then None else Some m.

Record SandboxSummary := {
  ss_id : string; ss_name : string; ss_uid : string; ss_namespace : string; ss_attempt : Z; ss_state : Z;
  ss_created_at : Z; ss_labels : gmap string string; ss_annotations : gmap string string; ss_handler : string }.

Definition sandbox_summary (sb : PodSandbox) : SandboxSummary :=
  {| ss_id := sb_id sb; ss_name := sb_name sb; ss_uid := sb_uid sb; ss_namespace := sb_namespace sb;
     ss_attempt := sb_attempt sb; ss_state := sandbox_state_to_cri (sb_state sb); ss_created_at := sb_created_at sb;
     ss_labels := sb_labels sb; ss_annotations := sb_annotations sb; ss_handler := sb_runtime_handler sb |}.

Record ContainerSummary := {
  cu_id : string; cu_sandbox_id : string; cu_name : string; cu_attempt : Z; cu_image : string; cu_image_ref : string;
  cu_state : Z; cu_created_at : Z; cu_labels : gmap string string; cu_annotations : gmap string string }.

Definition container_summary (c : Container) : ContainerSummary :=
  {| cu_id := ct_id c; cu_sandbox_id := ct_sandbox_id c; cu_name := ct_name c; cu_attempt := ct_attempt c;
     cu_image := ct_image_ref c; cu_image_ref := status_image_ref c; cu_state := container_state_to_cri (ct_state c);
     cu_created_at := ct_created_at c; cu_labels := ct_labels c; cu_annotations := ct_annotations c |}.

(** The test of [list_pod_sandbox] and [stream_pod_sandboxes] on each sandbox *)
Definition pod_matches (f : option PodSandboxFilter) (sb : PodSandbox) : bool :=
  match f with
  | None => true
  | Some f =>
      if negb (is_empty (pf_id f)) && negb (String.eqb (sb_id sb) (pf_id f)) then false
      else negb (negb (pf_state f =? 0) && negb (pf_state f =? sandbox_state_to_cri (sb_state sb)))
  end.

Definition container_matches (f : option ContainerFilter) (c : Container) : bool :=
  match f with
  | None => true
  | Some f =>
      if negb (is_empty (cf_id f)) && negb (String.eqb (ct_id c) (cf_id f)) then false
      else match cf_state f with Some st => st =? container_state_to_cri (ct_state c) | None => true end
  end.

Record PodSandboxStatus := {
  pst_summary : SandboxSummary; pst_ip : string; pst_additional_ips : list string;
  pst_info : list (string * string) }.

Record ContainerStatus := {
  cst_summary : ContainerSummary; cst_started_at : Z; cst_finished_at : Z; cst_exit_code : Z;
  cst_reason : string; cst_mounts : list Mount; cst_log_path : string; cst_info : list (string * string) }.

Definition container_mount_to_cri (m : ContainerMount) : Mount :=
  {| mt_container_path := cm_container_path m; mt_host_path := cm_host_path m; mt_readonly := cm_readonly m;
     mt_selinux_relabel := cm_selinux_relabel m; mt_propagation := cm_propagation m |}.

Definition show_bool (b : bool) : string := if b then "true" else "false".
Definition show_len {A} (l : list A) : string := show_uint (Z.of_nat (length l)).
Definition sandbox_state_label (st : SandboxState) : string :=
  match st with Ready => "ready" | NotReady => "not_ready" | Removed => "removed" end.
Definition container_state_label (st : ContainerState) : string :=
  match st with Created => "created" | Running => "running" | Exited => "exited" end.

Section queries.
Context `{HashOrder}.

(** [list_pod_sandbox] and [stream_pod_sandboxes] *)
Definition list_pod_sandbox (f : option PodSandboxFilter) (s : Svc) : list SandboxSummary :=
  map sandbox_summary (List.filter (pod_matches f)
    (SandboxStore.list_sandboxes (f ≫= λ f, nonempty_labels (pf_labels f)) (cs_sandboxes (sv_store s)))).

(** [list_containers] and [stream_containers] *)
Definition list_containers (f : option ContainerFilter) (s : Svc) : list ContainerSummary :=
  map container_summary (List.filter (container_matches f)
    (ContainerStore.list_containers (f ≫= λ f, non_empty (cf_pod_sandbox_id f))
       (f ≫= λ f, nonempty_labels (cf_labels f)) (cs_containers (sv_store s)))).

Definition pod_sandbox_status (sid : string) (verbose : bool) (s : Svc) : result rpc_error PodSandboxStatus :=
  sb ← ok_or (RpcNotFound sid) (sandbox_of s sid);
  Ok {| pst_summary := sandbox_summary sb; pst_ip := sb_network_ip sb; pst_additional_ips := sb_additional_ips sb;
        pst_info := if verbose then
          [("sandbox_state", sandbox_state_label (sb_state sb));
           ("vm_present", show_bool (bool_decide (sid ∈ sv_vms s)));
           ("container_count", show_len (containers_in sid s)); ("network_ip", sb_network_ip sb);
           ("additional_ip_count", show_len (sb_additional_ips sb))] else [] |}.

Definition container_status (id : string) (verbose : bool) (s : Svc) : result rpc_error ContainerStatus :=
  c ← ok_or (RpcNotFound id) (container_of s id);
  Ok {| cst_summary := container_summary c; cst_started_at := ct_started_at c; cst_finished_at := ct_finished_at c;
        cst_exit_code := ct_exit_code c;
        cst_reason := match ct_state c with Exited => container_exit_reason (ct_exit_code c) (ct_oom_killed c) | _ => "" end;
        cst_mounts := map container_mount_to_cri (ct_mounts c); cst_log_path := ct_log_path c;
        cst_info := if verbose then
          [("container_state", container_state_label (ct_state c)); ("sandbox_id", ct_sandbox_id c);
           ("image_ref", ct_image_ref c); ("resolved_image_digest", ct_resolved_image_digest c);
           ("resolved_image_path", ct_resolved_image_path c); ("rootfs_path", ct_rootfs_path c);
           ("rootfs_guest_path", ct_rootfs_guest_path c);
           ("vm_present", show_bool (bool_decide (ct_sandbox_id c ∈ sv_vms s)));
           ("command_count", show_len (ct_command c)); ("arg_count", show_len (ct_args c));
           ("env_count", show_len (ct_env c)); ("mount_count", show_len (ct_mounts c)); ("tty", show_bool (ct_tty c));
           ("stdin", show_bool (ct_stdin c)); ("stdin_once", show_bool (ct_stdin_once c))] else [] |}.

Definition containers_in_state (st : ContainerState) (l : list Container) : list Container :=
  List.filter (λ c, bool_decide (ct_state c = st)) l.

(** [status]: both conditions hold, and the counts when asked for *)
Definition runtime_status (verbose warm_pool : bool) (s : Svc) : list (string * bool) * list (string * string) :=
  let sbs := SandboxStore.list_sandboxes None (cs_sandboxes (sv_store s)) in
  let cs := ContainerStore.list_containers None None (cs_containers (sv_store s)) in
  let ready := List.filter (λ sb, bool_decide (sb_state sb = Ready)) sbs in
  ([("RuntimeReady", true); ("NetworkReady", true)],
   if verbose then
     [("sandbox_count", show_len sbs); ("sandbox_ready_count", show_len ready);
      ("sandbox_not_ready_count", show_uint (sat_sub (Z.of_nat (length sbs)) (Z.of_nat (length ready))));
      ("container_count", show_len cs); ("container_created_count", show_len (containers_in_state Created cs));
      ("container_running_count", show_len (containers_in_state Running cs));
      ("container_exited_count", show_len (containers_in_state Exited cs));
      ("vm_manager_count", show_uint (Z.of_nat (size (sv_vms s)))); ("warm_pool_enabled", show_bool warm_pool)]
   else []).

Definition update_pod_sandbox_resources (sid : string) (s : Svc) : result rpc_error () :=
  sb ← ok_or (RpcNotFound sid) (sandbox_of s sid); ensure_sandbox_ready sb.

(** ** Statistics ([stats.rs]) *)

Record VmUsage := { vu_cpu_core_nanos : Z; vu_memory_bytes : Z }.
Definition vm_usage_default : VmUsage := {| vu_cpu_core_nanos := 0; vu_memory_bytes := 0 |}.

Definition per_container (u : VmUsage) (running : nat) : VmUsage :=
  let n := Z.max (Z.of_nat running) 1 in
  {| vu_cpu_core_nanos := vu_cpu_core_nanos u / n; vu_memory_bytes := vu_memory_bytes u / n |}.

(** The first [VmRSS] line counts, readable or not. *)
Definition status_memory (text : string) : Z :=
  match omap (strip_prefix "VmRSS:") (lines text) with
  | rest :: _ => from_option (λ kb, sat_mul 64 kb 1024) 0 (w ← head (split_whitespace rest); parse_uint 64 w)
  | [] => 0
  end.

(** The fields after the last parenthesis: the 12th and the 13th are the times of the
    user and of the system, in ticks of 10 ms. *)
Definition stat_cpu (text : string) : Z :=
  match rsplit_once ")" text with
  | Some (_, rest) =>
      let after := split_whitespace rest in
      let ticks i := default 0 (v ← after !! i; parse_uint 64 v) in
      sat_mul 64 (sat_add 64 (ticks 11%nat) (ticks 12%nat)) (1000000000 / 100)
  | None => 0
  end.

Definition read_vm_usage (files : option string * option string) : VmUsage :=
  {| vu_cpu_core_nanos := from_option stat_cpu 0 files.2; vu_memory_bytes := from_option status_memory 0 files.1 |}.

Definition sandbox_vm_usage (q : query_env) (sid : string) (s : Svc) : VmUsage :=
  if bool_decide (sid ∈ sv_vms s) then
    match qe_pid q sid with Some pid => read_vm_usage (qe_proc q pid) | None => vm_usage_default end
  else vm_usage_default.

(** A file with its length, or a directory with its own and its entries *)
Inductive file_tree := Leaf (len : Z) | Dir (len : Z) (entries : list file_tree).

Record PathUsage := { pu_used_bytes : Z; pu_inodes_used : Z }.

Definition add_usage (a b : PathUsage) : PathUsage :=
  {| pu_used_bytes := sat_add 64 (pu_used_bytes a) (pu_used_bytes b);
     pu_inodes_used := sat_add 64 (pu_inodes_used a) (pu_inodes_used b) |}.

Fixpoint collect_path_usage (t : file_tree) : PathUsage :=
  match t with
  | Leaf len => {| pu_used_bytes := len; pu_inodes_used := 1 |}
  | Dir len l => foldl (λ u e, add_usage u (collect_path_usage e)) {| pu_used_bytes := len; pu_inodes_used := 1 |} l
  end.

(** A container's share of its machine *)
Record ContainerStats := { cts_id : string; cts_sandbox_id : string; cts_usage : VmUsage }.
Definition stats_of (u : VmUsage) (c : Container) : ContainerStats :=
  {| cts_id := ct_id c; cts_sandbox_id := ct_sandbox_id c; cts_usage := u |}.

Definition container_stats (q : query_env) (id : string) (s : Svc) : result rpc_error ContainerStats :=
  c ← ok_or (RpcNotFound id) (container_of s id);
  let running := length (containers_in_state Running (containers_in (ct_sandbox_id c) s)) in
  Ok (stats_of (per_container (sandbox_vm_usage q (ct_sandbox_id c) s) running) c).

(** The filter of statistics has no state; [usage_by_sandbox] is filled once per sandbox. *)
Definition list_container_stats (q : query_env) (f : option ContainerFilter) (s : Svc) : list ContainerStats :=
  let cs := List.filter (λ c, bool_decide (ct_state c = Running)
              && match f with Some f => is_empty (cf_id f) || String.eqb (ct_id c) (cf_id f) | None => true end)
      (ContainerStore.list_containers (f ≫= λ f, non_empty (cf_pod_sandbox_id f))
         (f ≫= λ f, nonempty_labels (cf_labels f)) (cs_containers (sv_store s))) in
  let usage_by_sandbox := foldl (λ m c,
        match m !! ct_sandbox_id c with
        | Some _ => m
        | None =>
            let running := length (List.filter (λ o, String.eqb (ct_sandbox_id o) (ct_sandbox_id c)) cs) in
            <[ct_sandbox_id c := per_container (sandbox_vm_usage q (ct_sandbox_id c) s) running]> m
        end) (∅ : gmap string VmUsage) cs in
  map (λ c, stats_of (default vm_usage_default (usage_by_sandbox !! ct_sandbox_id c)) c) cs.

Record PodSandboxStats := {
  pss_id : string; pss_usage : VmUsage; pss_process_count : Z; pss_containers : list ContainerStats }.

Definition pod_stats (sb : PodSandbox) (cs : list Container) (u : VmUsage) : PodSandboxStats :=
  let running := containers_in_state Running cs in
  {| pss_id := sb_id sb; pss_usage := u; pss_process_count := Z.of_nat (length running);
     pss_containers := map (stats_of (per_container u (length running))) running |}.

Definition pod_sandbox_stats (q : query_env) (sid : string) (s : Svc) : result rpc_error PodSandboxStats :=
  sb ← ok_or (RpcNotFound sid) (sandbox_of s sid);
  Ok (pod_stats sb (containers_in sid s) (sandbox_vm_usage q sid s)).

(** [list_pod_sandbox_stats] looks at the identifier and the labels only. *)
Definition list_pod_sandbox_stats (q : query_env) (f : option PodSandboxFilter) (s : Svc) : list PodSandboxStats :=
  map (λ sb, pod_stats sb (containers_in (sb_id sb) s) (sandbox_vm_usage q (sb_id sb) s))
    (List.filter (λ sb, match f with Some f => is_empty (pf_id f) || String.eqb (sb_id sb) (pf_id f) | None => true end)
       (SandboxStore.list_sandboxes (f ≫= λ f, nonempty_labels (pf_labels f)) (cs_sandboxes (sv_store s)))).

(** The five gauges of a sandbox *)
Definition pod_sandbox_metrics (sb : PodSandbox) (cs : list Container) (vm_present : bool) : list (string * Z) :=
  [("a3s_box_pod_sandbox_ready", if bool_decide (sb_state sb = Ready) then 1 else 0);
   ("a3s_box_pod_sandbox_vm_manager_present", if vm_present then 1 else 0);
   ("a3s_box_pod_sandbox_containers_total", Z.of_nat (length cs));
   ("a3s_box_pod_sandbox_containers_running", Z.of_nat (length (containers_in_state Running cs)));
   ("a3s_box_pod_sandbox_containers_exited", Z.of_nat (length (containers_in_state Exited cs)))].

Definition list_pod_sandbox_metrics (f : option PodSandboxFilter) (s : Svc) : list (string * list (string * Z)) :=
  map (λ sb, (sb_id sb, pod_sandbox_metrics sb (containers_in (sb_id sb) s) (bool_decide (sb_id sb ∈ sv_vms s))))
    (List.filter (λ sb, match f with Some f => is_empty (pf_id f) || String.eqb (sb_id sb) (pf_id f) | None => true end)
       (SandboxStore.list_sandboxes (f ≫= λ f, nonempty_labels (pf_labels f)) (cs_sandboxes (sv_store s)))).
End queries.

(** ** Calls that reach a machine *)

(** The tables beside the stores: containers with an output stream and with a standard
    input, and the sessions of the streaming server. *)
Record Tables := { tb_streams : gset string; tb_stdins : gset string; tb_sessions : sessions }.

Definition with_session (q : query_env) (ss : StreamingSession) (t : Tables) : Tables * string :=
  ({| tb_streams := tb_streams t; tb_stdins := tb_stdins t;
      tb_sessions := register_session (qe_now q) (qe_token q) ss (tb_sessions t) |},
   session_url (qe_addr q) (qe_token q) ss).

Definition session (k : SessionKind) (sid : string) (c : list string) (tty stdin once out err : bool) (ports : list Z)
    (attachable : bool) (forward : string) : StreamingSession :=
  {| ss_kind := k; ss_sandbox_id := sid; ss_cmd := c; ss_tty := tty; ss_stdin := stdin; ss_stdin_once := once;
     ss_stdout := out; ss_stderr := err; ss_ports := ports; ss_attachable := attachable;
     ss_port_forward_socket := forward |}.

(** [ensure_vm_ready] after the lookup of the machine *)
Definition machine_ready (q : query_env) (sid : string) (s : Svc) : result rpc_error () :=
  if negb (bool_decide (sid ∈ sv_vms s)) then Err (RpcMachineMissing sid)
  else if qe_ready q sid then Ok () else Err (RpcMachineNotReady sid).

(** A container that can be reached: it runs, its image is there, its machine is ready. *)
Definition container_reachable (q : query_env) (c : Container) (s : Svc) : result rpc_error () :=
  _ ← ensure_container_image_available q c; machine_ready q (ct_sandbox_id c) s.

Definition is_nil {A} (l : list A) : bool := match l with [] => true | _ => false end.

Definition exec_sync (q : query_env) (id : string) (command : list string) (timeout : Z) (s : Svc)
    : result rpc_error ExecRequest :=
  if is_nil command then Err RpcInvalid
  else
    c ← ok_or (RpcNotFound id) (container_of s id); _ ← ensure_container_running c;
    _ ← container_reachable q c s; Ok (exec_sync_request c command timeout).

Definition exec (q : query_env) (id : string) (command : list string) (tty stdin out err : bool) (s : Svc) (t : Tables)
    : Tables * result rpc_error string :=
  let checked :=
    if is_nil command then Err RpcInvalid
    else
      c ← ok_or (RpcNotFound id) (container_of s id); _ ← ensure_container_running c; _ ← container_reachable q c s;
      _ ← ok_or RpcSocketMissing (qe_exec_socket q (ct_sandbox_id c));
      _ ← ok_or RpcSocketMissing (qe_pty_socket q (ct_sandbox_id c)); Ok c in
  match checked with
  | Err e => (t, Err e)
  | Ok c =>
      let '(t, url) := with_session q (session SExec (ct_sandbox_id c) command tty stdin false out err [] false "") t in
      (t, Ok url)
  end.

Definition attach_container (q : query_env) (id : string) (tty stdin out err : bool) (s : Svc) (t : Tables)
    : Tables * result rpc_error string :=
  let checked :=
    if negb stdin && negb out && negb err then Err RpcInvalid
    else
      c ← ok_or (RpcNotFound id) (container_of s id); _ ← ensure_container_running c;
      if negb (Bool.eqb tty (ct_tty c)) then Err RpcTtyMismatch
      else if stdin && negb (ct_stdin c) then Err RpcNoStdin
      else
        _ ← container_reachable q c s;
        if negb (bool_decide (id ∈ tb_streams t)) then Err RpcNoStream else Ok c in
  match checked with
  | Err e => (t, Err e)
  | Ok c =>
      if stdin && negb (bool_decide (id ∈ tb_stdins t)) then (t, Err RpcNoStream)
      else
        let t := if stdin && ct_stdin_once c
                 then {| tb_streams := tb_streams t; tb_stdins := tb_stdins t ∖ {[id]}; tb_sessions := tb_sessions t |}
                 else t in
        let '(t, url) := with_session q
          (session SAttach (ct_sandbox_id c) [] tty stdin (ct_stdin_once c) out err [] true "") t in
        (t, Ok url)
  end.

Definition port_forward (q : query_env) (sid : string) (port : list Z) (s : Svc) (t : Tables)
    : Tables * result rpc_error string :=
  let checked :=
    if (1 <? length port)%nat then Err RpcUnimplemented
    else
      sb ← ok_or (RpcNotFound sid) (sandbox_of s sid); _ ← ensure_sandbox_ready sb;
      let ports := if is_nil port then sb_container_ports sb else port in
      if is_nil ports then Err RpcInvalid
      else if negb (length ports =? 1)%nat then Err RpcUnimplemented
      else
        _ ← machine_ready q sid s; socket ← ok_or RpcSocketMissing (qe_forward_socket q sid); Ok (ports, socket) in
  match checked with
  | Err e => (t, Err e)
  | Ok (ports, socket) =>
      let '(t, url) := with_session q (session SPortForward sid [] false false false false false ports false socket) t in
      (t, Ok url)
  end.

(** What the machine is asked to change; [None]: nothing. *)
Definition update_container_resources (q : query_env) (id : string)
    (linux : option (LinuxContainerResources * string)) (s : Svc) : result rpc_error (option ResourceUpdate) :=
  c ← ok_or (RpcNotFound id) (container_of s id);
  match linux with
  | None => Ok None
  | Some (l, cpuset) =>
      _ ← ensure_container_running c;
      if 0 <? lr_memory_limit_in_bytes l then Err RpcUnimplemented
      else
        let set (b : bool) (v : Z) := if b then None else Some v in
        let u := {| ru_vcpus := None; ru_memory_mb := None;
                    ru_limits := {| pids_limit := None; cpuset_cpus := non_empty cpuset; ulimits := [];
                                    cpu_shares := set (lr_cpu_shares l =? 0) (wrap 64 (lr_cpu_shares l));
                                    cpu_quota := set (lr_cpu_quota l =? 0) (lr_cpu_quota l);
                                    cpu_period := set (lr_cpu_period l =? 0) (wrap 64 (lr_cpu_period l));
                                    memory_reservation := None; memory_swap := None |} |} in
        if negb (has_tier2_changes u) then Ok None
        else _ ← machine_ready q (ct_sandbox_id c) s; Ok (Some u)
  end.

(** ** Images ([image_service.rs]) *)

(** A [:] separates a tag only in the last segment of the path. *)
Definition repo_name (reference : string) : string :=
  let '(prefix, segment) := match rsplit_once "/" reference with
                            | Some (p, seg) => (p +:+ "/", seg) | None => ("", reference) end in
  match split_once ":" segment with Some (name, _) => prefix +:+ name | None => reference end.

Definition parse_image_user (user : string) : option Z * string :=
  let principal := match split_once ":" user with Some (p, _) => p | None => user end in
  if is_empty principal then (None, "")
  else match parse_int 64 principal with Some uid => (Some uid, "") | None => (None, principal) end.

Record CriImage := {
  im_id : string; im_repo_tags : list string; im_repo_digests : list string; im_size : Z;
  im_uid : option Z; im_username : string; im_spec : string }.

Section image_service.
(** The user an image's configuration names ([OciImage::from_path]) *)
Context `{HashOrder} (user_of : string → option string).

Definition image_user (path : string) : option Z * string :=
  match user_of path ≫= non_empty with Some u => parse_image_user u | None => (None, "") end.

Definition repo_digest (digest : string) (i : StoredImage) : string :=
  if has_char "@" (si_reference i) then si_reference i else repo_name (si_reference i) +:+ "@" +:+ digest.

(** [None] for an empty group, where the code would panic *)
Definition coalesced_image (group : list StoredImage) : option CriImage :=
  match group with
  | [] => None
  | first :: _ =>
      let '(uid, username) := image_user (si_path first) in
      Some {| im_id := si_digest first;
              im_repo_tags := Prelude.dedup (sort_by String.leb
                (map si_reference (List.filter (λ i, negb (has_char "@" (si_reference i))) group)));
              im_repo_digests := Prelude.dedup (sort_by String.leb (map (repo_digest (si_digest first)) group));
              im_size := si_size first; im_uid := uid; im_username := username; im_spec := si_reference first |}
  end.

(** The [BTreeMap]: groups in the order of their digests *)
Definition group_by_digest (stored : list StoredImage) : gmap string (list StoredImage) :=
  foldl (λ m i, <[si_digest i := default [] (m !! si_digest i) ++ [i]]> m) ∅ stored.

Definition coalesce_images (stored : list StoredImage) : list CriImage :=
  omap (λ kv, coalesced_image kv.2) (sort_by (λ a b, String.leb a.1 b.1) (map_to_list (group_by_digest stored))).

Definition image_matches_filter (i : CriImage) (filter : string) : bool :=
  String.eqb (im_id i) filter || existsb (String.eqb filter) (im_repo_tags i)
  || existsb (String.eqb filter) (im_repo_digests i).

(** [list_images] and [stream_images] *)
Definition list_images (filter : option string) (st : ImageStore) : list CriImage :=
  let l := coalesce_images (images st) in
  match filter ≫= non_empty with Some f => List.filter (λ i, image_matches_filter i f) l | None => l end.

Definition image_status (now : Z) (saves : bool) (image : option string) (st : ImageStore)
    : ImageStore * result rpc_error (option CriImage) :=
  match image with
  | None => (st, Err RpcInvalid)
  | Some image =>
      let '(st, found) := resolve_image now saves image st in
      (st, Ok (i ← found; coalesced_image (List.filter (λ o, String.eqb (si_digest o) (si_digest i)) (images st))))
  end.

(** ** Pulling and removing *)

Record AuthConfig := { ac_username : string; ac_password : string; ac_auth : string }.

Section pull.
(** The base64 decoder, and a pull with a credential, or with that of the service *)
Context (b64decode : string → option string).
Context (pull : option (string * string) → string → ImageStore → ImageStore * bool).

Definition auth_config_to_registry_auth (a : AuthConfig) : option (string * string) :=
  if negb (is_empty (ac_username a)) then Some (ac_username a, ac_password a)
  else if is_empty (ac_auth a) then None
  else d ← b64decode (trim (ac_auth a)); if utf8 d then split_once ":" d else None.

Definition pull_image (now : Z) (saves : bool) (image : option string) (auth : option AuthConfig) (st : ImageStore)
    : ImageStore * result rpc_error string :=
  match image with
  | None => (st, Err RpcInvalid)
  | Some image =>
      match pull (auth ≫= auth_config_to_registry_auth) image st with
      | (st, false) => (st, Err RpcImageMissing)
      | (st, true) =>
          let '(st, found) := resolve_image now saves image st in
          (st, Ok (from_option si_digest image found))
      end
  end.
End pull.

Definition remove_image (can_remove : string → bool) (saves : bool) (image : option string) (st : ImageStore)
    : ImageStore * result rpc_error () :=
  match image with
  | None => (st, Err RpcInvalid)
  | Some image =>
      match remove can_remove saves image st with (st, Ok _) => (st, Ok ()) | (st, Err _) => (st, Err RpcImageMissing) end
  end.

Definition image_fs_info (st : ImageStore) : Z := total_size st.
End image_service.

(** ** Statistics add up *)

Lemma usage_nonneg q sid s : 0 ≤ vu_cpu_core_nanos (sandbox_vm_usage q sid s) ∧ 0 ≤ vu_memory_bytes (sandbox_vm_usage q sid s).
Proof.
  assert (∀ o : option string, 0 ≤ default 0 (w ← o; parse_uint 64 w)) as Hd.
  { intros [w|]; cbn; [|lia]. destruct (parse_uint 64 w) as [n|] eqn:E; cbn; [|lia]. by apply parse_uint_range in E as [? _]. }
  unfold sandbox_vm_usage. destruct (bool_decide _); [|cbn; lia]. destruct (qe_pid q sid) as [pid|]; [|cbn; lia].
  unfold read_vm_usage. destruct (qe_proc q pid) as [st stat]. cbn [fst snd vu_cpu_core_nanos vu_memory_bytes]. split.
  - destruct stat as [text|]; cbn [from_option]; [|lia]. unfold stat_cpu. destruct (rsplit_once ")" text) as [[a b]|]; [|lia].
    unfold sat_mul, sat_add, u_max. pose proof (Hd (split_whitespace b !! 11%nat)). pose proof (Hd (split_whitespace b !! 12%nat)).
    assert (0 ≤ 1000000000 / 100) by (vm_compute; discriminate). apply Z.min_glb; [lia|]. apply Z.mul_nonneg_nonneg; [lia | done].
  - destruct st as [text|]; cbn [from_option]; [|lia]. unfold status_memory.
    destruct (omap _ _) as [|rest l]; [lia|]. pose proof (Hd (head (split_whitespace rest))) as Hn. revert Hn.
    destruct (w ← head (split_whitespace rest); parse_uint 64 w) as [kb|]; cbn [from_option]; [|lia]. unfold sat_mul, u_max, id. lia.
Qed.

Lemma fill_once {B} (key : B → string) (g : string → VmUsage) (l : list B) (m : gmap string VmUsage) (k : string) :
  (∀ v, m !! k = Some v → v = g k) →
  foldl (λ m c, match m !! key c with Some _ => m | None => <[key c := g (key c)]> m end) m l !! k
    = if decide (k ∈ map key l) then Some (g k) else m !! k.
Proof.
  revert m. induction l as [|c l IH]; intros m Hm; cbn [foldl map].
  { by rewrite decide_False by apply not_elem_of_nil. }
  rewrite IH.
  - destruct (decide (k ∈ map key l)) as [Hin|Hin]; [by rewrite decide_True by (by right)|].
    destruct (decide (k = key c)) as [->|Hn].
    + rewrite decide_True by (by left). destruct (m !! key c) as [v|] eqn:E; [|apply lookup_insert_eq].
      by rewrite E, (Hm v).
    + rewrite decide_False by (rewrite elem_of_cons; tauto).
      destruct (m !! key c); [done|]. by rewrite lookup_insert_ne.
  - intros v. destruct (m !! key c) eqn:E; [apply Hm|].
    destruct (decide (key c = k)) as [<-|]; [rewrite lookup_insert_eq; congruence|]. rewrite lookup_insert_ne by done. apply Hm.
Qed.

Definition total (f : VmUsage → Z) (l : list ContainerStats) : Z := foldr (λ x a, f (cts_usage x) + a) 0 l.

Lemma total_same f u (l : list Container) : total f (map (stats_of u) l) = Z.of_nat (length l) * f u.
Proof. induction l as [|c l IH]; [done|]. cbn [map total foldr length]. fold (total f (map (stats_of u) l)). rewrite IH. cbn. lia. Qed.

(** The shares of [n] containers: nothing is counted twice and less than [n] units are lost. *)
Definition shares (u : VmUsage) (l : list ContainerStats) : Prop :=
  let n := Z.of_nat (length l) in
  total vu_cpu_core_nanos l ≤ vu_cpu_core_nanos u < total vu_cpu_core_nanos l + n ∧
  total vu_memory_bytes l ≤ vu_memory_bytes u < total vu_memory_bytes l + n.

Lemma shares_split u (l : list Container) : l ≠ [] → shares u (map (stats_of (per_container u (length l))) l).
Proof.
  intros Hl. unfold shares. rewrite !total_same. cbv zeta. rewrite length_map. unfold per_container. cbn [vu_cpu_core_nanos vu_memory_bytes].
  rewrite Z.max_l by (destruct l; [done | cbn [length]; lia]). set (n := Z.of_nat (length l)).
  assert (0 < n) by (unfold n; destruct l; [done | cbn [length]; lia]).
  pose proof (Z.div_mod (vu_cpu_core_nanos u) n ltac:(lia)). pose proof (Z.mod_pos_bound (vu_cpu_core_nanos u) n ltac:(lia)).
  pose proof (Z.div_mod (vu_memory_bytes u) n ltac:(lia)). pose proof (Z.mod_pos_bound (vu_memory_bytes u) n ltac:(lia)). lia.
Qed.

Lemma length_in_state `{HashOrder} st l : (length (containers_in_state st l) ≤ length l)%nat.
Proof. unfold containers_in_state. apply List.filter_length_le. Qed.

Section properties.
Context `{HashOrder}.

(** The statistics of a list, container by container *)
Lemma list_stats_spec q f s : ∃ cs,
  list_container_stats q f s = map (λ c, stats_of (per_container (sandbox_vm_usage q (ct_sandbox_id c) s)
    (length (List.filter (λ o, String.eqb (ct_sandbox_id o) (ct_sandbox_id c)) cs))) c) cs ∧
  ∀ c, c ∈ cs ↔ (∃ k, cs_containers (sv_store s) !! k = Some c) ∧ ct_state c = Running ∧
    ContainerStore.matches (f ≫= λ f, non_empty (cf_pod_sandbox_id f)) (f ≫= λ f, nonempty_labels (cf_labels f)) c = true ∧
    (match f with Some f => cf_id f = "" ∨ ct_id c = cf_id f | None => True end).
Proof.
  unfold list_container_stats. set (cs := List.filter _ _). exists cs. split.
  - apply map_ext_in. intros c Hc%list_elem_of_In. f_equal.
    rewrite (fill_once ct_sandbox_id (λ k, per_container (sandbox_vm_usage q k s)
      (length (List.filter (λ o, String.eqb (ct_sandbox_id o) k) cs)))) by (intros v; by rewrite lookup_empty).
    rewrite decide_True by (by apply (list_elem_of_fmap_2 ct_sandbox_id)). done.
  - intros c. unfold cs. rewrite elem_of_filter_b, elem_of_list_containers, andb_true_iff, bool_decide_eq_true.
    destruct f as [f|]; [|naive_solver]. rewrite orb_true_iff, String.eqb_eq.
    assert (is_empty (cf_id f) = true ↔ cf_id f = "") as -> by (by destruct (cf_id f)). naive_solver.
Qed.

(** Statistics add up.  ListContainerStats reports exactly the running containers its filter
    selects; whatever the filter, the shares reported for the containers of one pod sum to at
    most what its machine used, and fall short of it by less than one unit per container; so do
    the shares inside the statistics of the pod, whose own figure is that of the machine. *)
Theorem stats_add_up q f s :
  let l := list_container_stats q f s in
  (∀ x, x ∈ l → ∃ k c, cs_containers (sv_store s) !! k = Some c ∧ ct_state c = Running ∧
     cts_id x = ct_id c ∧ cts_sandbox_id x = ct_sandbox_id c) ∧
  (f = None → ∀ k c, cs_containers (sv_store s) !! k = Some c → ct_state c = Running → ct_id c ∈ map cts_id l) ∧
  (∀ sid, let m := List.filter (λ x, String.eqb (cts_sandbox_id x) sid) l in
     m ≠ [] → shares (sandbox_vm_usage q sid s) m) ∧
  ∀ sid st, pod_sandbox_stats q sid s = Ok st → pss_usage st = sandbox_vm_usage q sid s ∧
    (pss_containers st ≠ [] → shares (pss_usage st) (pss_containers st)) ∧
    pss_process_count st = Z.of_nat (length (pss_containers st)).
Proof.
  cbv zeta. destruct (list_stats_spec q f s) as (cs & -> & Hcs). split_and!.
  - intros x Hx. apply list_elem_of_fmap in Hx as (c & -> & Hc). apply Hcs in Hc as ([k Hk] & Hr & _). eauto 10.
  - intros -> k c Hk Hr. rewrite map_map. cbn [stats_of cts_id]. apply (list_elem_of_fmap_2 ct_id).
    apply Hcs. split_and!; eauto.
  - intros sid. set (u := per_container (sandbox_vm_usage q sid s) (length (List.filter (λ o, String.eqb (ct_sandbox_id o) sid) cs))).
    assert (∀ l, List.filter (λ x, String.eqb (cts_sandbox_id x) sid) (map (λ c, stats_of
        (per_container (sandbox_vm_usage q (ct_sandbox_id c) s)
           (length (List.filter (λ o, String.eqb (ct_sandbox_id o) (ct_sandbox_id c)) cs))) c) l)
      = map (stats_of u) (List.filter (λ o, String.eqb (ct_sandbox_id o) sid) l)) as ->.
    { induction l as [|c l IH]; [done|]. cbn [map List.filter]. cbn [stats_of cts_sandbox_id].
      destruct (String.eqb_spec (ct_sandbox_id c) sid) as [<-|]; [|exact IH]. cbn [map]. by rewrite IH. }
    intros Hne. apply shares_split. by intros E; rewrite E in Hne.
  - intros sid st. unfold pod_sandbox_stats. destruct (sandbox_of s sid) as [sb|]; [|done]. cbn. intros [= <-]. cbn.
    split; [done|]. rewrite length_map. split; [|done]. intros Hne. apply shares_split.
    by intros E; rewrite E in Hne.
Qed.
End properties.

(** ** Disk usage *)

Fixpoint tree_bytes (t : file_tree) : Z :=
  match t with Leaf len => len | Dir len l => len + foldr (λ e a, tree_bytes e + a) 0 l end.
Fixpoint tree_nodes (t : file_tree) : Z :=
  match t with Leaf _ => 1 | Dir _ l => 1 + foldr (λ e a, tree_nodes e + a) 0 l end.
Fixpoint lengths_ok (t : file_tree) : bool :=
  match t with
  | Leaf len => in_rangeb 64 len
  | Dir len l => in_rangeb 64 len && forallb lengths_ok l
  end.

Lemma tree_ind' (P : file_tree → Prop) :
  (∀ len, P (Leaf len)) → (∀ len l, Forall P l → P (Dir len l)) → ∀ t, P t.
Proof.
  intros HL HD. fix IH 1. intros [len|len l]; [apply HL|]. apply HD. induction l as [|e l IHl]; constructor; auto.
Qed.

Lemma cap_add a b : 0 ≤ a → 0 ≤ b → sat_add 64 (Z.min (u_max 64) a) (Z.min (u_max 64) b) = Z.min (u_max 64) (a + b).
Proof. unfold sat_add, u_max. lia. Qed.

Lemma tree_nonneg t : lengths_ok t = true → 0 ≤ tree_bytes t ∧ 0 ≤ tree_nodes t.
Proof.
  induction t as [len|len l IH] using tree_ind'; cbn [lengths_ok tree_bytes tree_nodes].
  - unfold in_rangeb. intros [? _]%andb_true_iff. lia.
  - unfold in_rangeb. intros [[Hlen _]%andb_true_iff Hl]%andb_true_iff. apply Z.leb_le in Hlen.
    enough (0 ≤ foldr (λ e a, tree_bytes e + a) 0 l ∧ 0 ≤ foldr (λ e a, tree_nodes e + a) 0 l) by lia.
    clear Hlen len. induction IH as [|e l He _ IHl]; cbn [foldr forallb] in *; [lia|].
    apply andb_true_iff in Hl as [H1 H2]. specialize (He H1). specialize (IHl H2). lia.
Qed.

(** The measured usage of a tree is its bytes and its entries, cut off at the widest count. *)
Lemma collect_exact t : lengths_ok t = true →
  collect_path_usage t = {| pu_used_bytes := Z.min (u_max 64) (tree_bytes t);
                            pu_inodes_used := Z.min (u_max 64) (tree_nodes t) |}.
Proof.
  induction t as [len|len l IH] using tree_ind'; cbn [lengths_ok collect_path_usage tree_bytes tree_nodes];
    unfold in_rangeb; intros Hok.
  - apply andb_true_iff in Hok as [Hl Hu]. f_equal; unfold u_max; lia.
  - apply andb_true_iff in Hok as [[Hlen Hu]%andb_true_iff Hl]. apply Z.leb_le in Hlen. apply Z.ltb_lt in Hu.
    assert (∀ b n, 0 ≤ b → 0 ≤ n → foldl (λ u e, add_usage u (collect_path_usage e))
        {| pu_used_bytes := Z.min (u_max 64) b; pu_inodes_used := Z.min (u_max 64) n |} l
      = {| pu_used_bytes := Z.min (u_max 64) (b + foldr (λ e a, tree_bytes e + a) 0 l);
           pu_inodes_used := Z.min (u_max 64) (n + foldr (λ e a, tree_nodes e + a) 0 l) |}) as Hf.
    { clear Hlen Hu. induction IH as [|e l He _ IHl]; intros b n Hb Hn; cbn [foldl foldr forallb] in *.
      { by rewrite !Z.add_0_r. }
      apply andb_true_iff in Hl as [H1 H2]. destruct (tree_nonneg e H1) as [Hb' Hn'].
      rewrite (He H1). unfold add_usage at 2. cbn [pu_used_bytes pu_inodes_used].
      rewrite !cap_add by done. rewrite (IHl H2) by lia. by rewrite !Z.add_assoc. }
    specialize (Hf len 1 Hlen ltac:(lia)). rewrite <-Hf. f_equal. f_equal; unfold u_max; lia.
Qed.

(** ** Sessions *)

(** What a call of the streaming server may change: the sessions, by one under the token,
    and the standard input of the container when it is given out once. *)
Record opened (q : query_env) (ss : StreamingSession) (t t' : Tables) (url : string) : Prop := {
  op_sessions : tb_sessions t' = register_session (qe_now q) (qe_token q) ss (tb_sessions t);
  op_streams : tb_streams t' = tb_streams t;
  op_url : url = session_url (qe_addr q) (qe_token q) ss }.

Lemma reachable_ok q c s : container_reachable q c s = Ok () →
  ensure_container_image_available q c = Ok () ∧ ct_sandbox_id c ∈ sv_vms s ∧ qe_ready q (ct_sandbox_id c) = true.
Proof.
  unfold container_reachable, machine_ready. intros E. apply bind_Ok in E as ([] & Hi & E). split; [done|].
  case_bool_decide as Hv; [|done]. cbn in E. by destruct (qe_ready q (ct_sandbox_id c)).
Qed.

Lemma running_ok c : ensure_container_running c = Ok () → ct_state c = Running.
Proof. unfold ensure_container_running. by case_bool_decide. Qed.

(** What every call on a container checked: it exists, runs, and can be reached. *)
Definition live (q : query_env) (s : Svc) (id : string) (c : Container) : Prop :=
  container_of s id = Some c ∧ ct_state c = Running ∧ ensure_container_image_available q c = Ok () ∧
  ct_sandbox_id c ∈ sv_vms s ∧ qe_ready q (ct_sandbox_id c) = true.

Lemma exec_ok q id command tty stdin out err s t t' r : exec q id command tty stdin out err s t = (t', r) →
  match r with
  | Err _ => t' = t
  | Ok url => ∃ c, live q s id c ∧ command ≠ [] ∧
      opened q (session SExec (ct_sandbox_id c) command tty stdin false out err [] false "") t t' url
  end.
Proof.
  unfold exec. destruct command as [|a command]; [by intros [= <- <-]|]. cbn [is_nil].
  destruct (container_of s id) as [c|] eqn:Hc; [|by intros [= <- <-]]. cbn [ok_or mbind result_bind].
  destruct (ensure_container_running c) as [[]|] eqn:Hr; [|by intros [= <- <-]]. cbn [mbind result_bind].
  destruct (container_reachable q c s) as [[]|] eqn:Hre; [|by intros [= <- <-]]. cbn [mbind result_bind].
  destruct (qe_exec_socket q _); [|by intros [= <- <-]]. cbn [ok_or mbind result_bind].
  destruct (qe_pty_socket q _); [|by intros [= <- <-]]. cbn [ok_or mbind result_bind]. intros [= <- <-].
  exists c. unfold live. apply running_ok in Hr. apply reachable_ok in Hre as (? & ? & ?). by split_and!.
Qed.

Lemma attach_ok q id tty stdin out err s t t' r : attach_container q id tty stdin out err s t = (t', r) →
  match r with
  | Err _ => t' = t
  | Ok url => ∃ c, live q s id c ∧ tty = ct_tty c ∧ (stdin = true → ct_stdin c = true ∧ id ∈ tb_stdins t) ∧
      id ∈ tb_streams t ∧
      tb_stdins t' = (if stdin && ct_stdin_once c then tb_stdins t ∖ {[id]} else tb_stdins t) ∧
      opened q (session SAttach (ct_sandbox_id c) [] tty stdin (ct_stdin_once c) out err [] true "") t t' url
  end.
Proof.
  unfold attach_container. destruct (negb stdin && negb out && negb err); [by intros [= <- <-]|].
  destruct (container_of s id) as [c|] eqn:Hc; [|by intros [= <- <-]]. cbn [ok_or mbind result_bind].
  destruct (ensure_container_running c) as [[]|] eqn:Hr; [|by intros [= <- <-]]. cbn [mbind result_bind].
  destruct (Bool.eqb tty (ct_tty c)) eqn:Ht; [|by intros [= <- <-]]. cbn [negb].
  destruct (stdin && negb (ct_stdin c)) eqn:Hst; [by intros [= <- <-]|].
  destruct (container_reachable q c s) as [[]|] eqn:Hre; [|by intros [= <- <-]]. cbn [mbind result_bind].
  case_bool_decide as Hstr; [|by intros [= <- <-]]. cbn [negb].
  destruct (stdin && negb (bool_decide (id ∈ tb_stdins t))) eqn:Hin; [by intros [= <- <-]|].
  cbn [with_session]. intros [= <- <-]. exists c. unfold live. apply running_ok in Hr. apply reachable_ok in Hre as (? & ? & ?).
  apply eqb_prop in Ht. split_and!; try done.
  - intros ->. split; [by destruct (ct_stdin c)|]. cbn in Hin. apply negb_false_iff in Hin. by apply bool_decide_eq_true in Hin.
  - by destruct (stdin && ct_stdin_once c).
  - by destruct (stdin && ct_stdin_once c).
Qed.

Lemma port_forward_ok q sid port s t t' r : port_forward q sid port s t = (t', r) →
  match r with
  | Err _ => t' = t
  | Ok url => ∃ sb p socket, sandbox_of s sid = Some sb ∧ sb_state sb = Ready ∧ sid ∈ sv_vms s ∧ qe_ready q sid = true ∧
      (port = [p] ∨ port = [] ∧ sb_container_ports sb = [p]) ∧ qe_forward_socket q sid = Some socket ∧
      tb_stdins t' = tb_stdins t ∧
      opened q (session SPortForward sid [] false false false false false [p] false socket) t t' url
  end.
Proof.
  unfold port_forward. destruct (1 <? length port)%nat; [by intros [= <- <-]|].
  destruct (sandbox_of s sid) as [sb|] eqn:Hsb; [|by intros [= <- <-]]. cbn [ok_or mbind result_bind].
  unfold ensure_sandbox_ready. case_bool_decide as Hr; [|by intros [= <- <-]]. cbn [mbind result_bind].
  set (ports := if is_nil port then _ else _). destruct (is_nil ports) eqn:Hn; [by intros [= <- <-]|].
  destruct (length ports =? 1)%nat eqn:Hlen; [|by intros [= <- <-]]. cbn [negb]. unfold machine_ready.
  case_bool_decide as Hv; [|by intros [= <- <-]]. cbn [negb]. destruct (qe_ready q sid) eqn:Hq; [|by intros [= <- <-]].
  cbn [mbind result_bind]. destruct (qe_forward_socket q sid) as [socket|] eqn:Hs; [|by intros [= <- <-]].
  cbn [ok_or mbind result_bind]. destruct ports as [|p [|]] eqn:Hp; [done| |done]. intros [= <- <-].
  exists sb, p, socket. split_and!; try done. destruct port; cbn in ports; [right | left]; by subst ports.
Qed.

Inductive session_call :=
  | CallExec (id : string) (command : list string) (tty stdin out err : bool)
  | CallAttach (id : string) (tty stdin out err : bool)
  | CallForward (sid : string) (port : list Z).

Definition run_call (q : query_env) (s : Svc) (c : session_call) (t : Tables) : Tables * result rpc_error string :=
  match c with
  | CallExec id command tty stdin out err => exec q id command tty stdin out err s t
  | CallAttach id tty stdin out err => attach_container q id tty stdin out err s t
  | CallForward sid port => port_forward q sid port s t
  end.

(** How often a sequence of calls hands out the standard input of a container. *)
Definition wants_stdin (id : string) (c : session_call) : bool :=
  match c with CallAttach id' _ true _ _ => String.eqb id' id | _ => false end.

Fixpoint stdin_grants (id : string) (cs : list (query_env * Svc * session_call)) (t : Tables) : nat :=
  match cs with
  | [] => O
  | (q, s, c) :: cs =>
      let '(t', r) := run_call q s c t in
      ((if wants_stdin id c && is_ok r then 1 else 0) + stdin_grants id cs t')%nat
  end.

Lemma call_stdins q s c t t' r : run_call q s c t = (t', r) → tb_stdins t' ⊆ tb_stdins t.
Proof.
  destruct c; cbn [run_call].
  - intros E. unfold exec in E. revert E. destruct (if is_nil command then _ else _); cbn; by intros [= <- _].
  - intros E%attach_ok. destruct r; [|by subst]. destruct E as (c & _ & _ & _ & _ & -> & _).
    destruct (stdin && ct_stdin_once c); set_solver.
  - intros E%port_forward_ok. destruct r; [|by subst]. by destruct E as (? & ? & ? & _ & _ & _ & _ & _ & _ & -> & _).
Qed.

Lemma no_more_grants id cs t : id ∉ tb_stdins t → stdin_grants id cs t = O.
Proof.
  revert t. induction cs as [|[[q s] c] cs IH]; intros t Hn; cbn [stdin_grants]; [done|].
  destruct (run_call q s c t) as [t' r] eqn:E. rewrite IH by (pose proof (call_stdins _ _ _ _ _ _ E); set_solver).
  destruct c as [| id' tty [] out err |]; cbn [wants_stdin]; try done.
  destruct (String.eqb_spec id' id) as [->|]; [|done]. destruct r as [url|]; [|done].
  cbn [run_call] in E. apply attach_ok in E as (c & _ & _ & Hin & _). destruct Hin as [_ Hin]; [done|]. by destruct Hn.
Qed.

(** Sessions are opened only where they may be.  A call that opens a streaming session and is
    refused changes nothing.  One that succeeds adds exactly one session, under its token and
    for the sandbox at hand, whose machine is live and ready; Exec and Attach need a running
    container with its image, Attach the terminal setting of the container and a standard input
    only where it was asked for, PortForward a ready sandbox and exactly one port.  And in any
    sequence of calls the standard input of a container created with [stdin_once] is handed
    out at most once. *)
Theorem sessions_guarded :
  (∀ q s c t t' r, run_call q s c t = (t', r) →
     match r with
     | Err _ => t' = t
     | Ok url => ∃ ss, opened q ss t t' url ∧ ss_sandbox_id ss ∈ sv_vms s ∧ qe_ready q (ss_sandbox_id ss) = true ∧
         match c with
         | CallExec id command _ _ _ _ => ss_kind ss = SExec ∧ ss_cmd ss = command ∧ command ≠ [] ∧
             ∃ ct, live q s id ct ∧ ct_sandbox_id ct = ss_sandbox_id ss
         | CallAttach id tty stdin _ _ => ss_kind ss = SAttach ∧
             ∃ ct, live q s id ct ∧ ct_sandbox_id ct = ss_sandbox_id ss ∧ tty = ct_tty ct ∧
               (stdin = true → ct_stdin ct = true)
         | CallForward sid port => ss_kind ss = SPortForward ∧ ss_sandbox_id ss = sid ∧
             ∃ sb p, sandbox_of s sid = Some sb ∧ sb_state sb = Ready ∧ ss_ports ss = [p] ∧
               (port = [p] ∨ port = [] ∧ sb_container_ports sb = [p])
         end
     end) ∧
  ∀ id cs t, (∀ q s c, (q, s, c) ∈ cs → ∀ ct, container_of s id = Some ct → ct_stdin_once ct = true) →
    (stdin_grants id cs t ≤ 1)%nat.
Proof.
  split.
  - intros q s c t t' r E. destruct c; cbn [run_call] in E.
    + apply exec_ok in E. destruct r; [|done]. destruct E as (ct & Hl & Hn & Ho). eexists. split; [exact Ho|].
      pose proof Hl as (_ & _ & _ & Hv & Hr). split_and!; try done. by exists ct.
    + apply attach_ok in E. destruct r; [|done]. destruct E as (ct & Hl & Ht & Hst & _ & _ & Ho). eexists. split; [exact Ho|].
      pose proof Hl as (_ & _ & _ & Hv & Hr). split_and!; try done. exists ct. split_and!; try done. intros. by apply Hst.
    + apply port_forward_ok in E. destruct r; [|done].
      destruct E as (sb & p & socket & Hsb & Hst & Hv & Hr & Hp & _ & _ & Ho). eexists. split; [exact Ho|].
      split_and!; try done. by exists sb, p.
  - intros id cs. induction cs as [|[[q s] c] cs IH]; intros t Honce; cbn [stdin_grants]; [lia|].
    destruct (run_call q s c t) as [t' r] eqn:E. destruct (wants_stdin id c && is_ok r) eqn:Hw.
    2:{ apply IH. intros q' s' c' Hin. apply (Honce q' s' c'). by right. }
    rewrite no_more_grants; [lia|]. destruct c as [| id' tty [] out err |]; cbn [wants_stdin] in Hw; try done.
    apply andb_true_iff in Hw as [->%String.eqb_eq Hr]. destruct r as [url|]; [|done]. cbn [run_call] in E.
    apply attach_ok in E as (ct & (Hc & _) & _ & _ & _ & -> & _).
    rewrite (Honce q s _ (list_elem_of_here _ _) ct Hc). cbn. set_solver.
Qed.

(** ** Images by digest *)

Lemma group_lookup stored m d :
  foldl (λ (m : gmap string (list StoredImage)) i, <[si_digest i := default [] (m !! si_digest i) ++ [i]]> m) m stored !! d
    = match List.filter (λ i, String.eqb (si_digest i) d) stored with
      | [] => m !! d
      | g => Some (default [] (m !! d) ++ g)
      end.
Proof.
  revert m. induction stored as [|i l IH]; intros m; [done|]. cbn [foldl List.filter]. rewrite IH.
  destruct (String.eqb_spec (si_digest i) d) as [<-|Hn].
  - rewrite lookup_insert_eq. cbn [default]. destruct (List.filter _ l); [done|]. cbn. by rewrite <-app_assoc.
  - rewrite lookup_insert_ne by done. done.
Qed.

Lemma group_by_digest_spec stored d g : group_by_digest stored !! d = Some g ↔
  g = List.filter (λ i, String.eqb (si_digest i) d) stored ∧ g ≠ [].
Proof.
  unfold group_by_digest. rewrite group_lookup, lookup_empty. cbn [default].
  destruct (List.filter _ stored) as [|i l]; [split; [done | by intros [-> []]]|]. cbn.
  split; [intros [= <-]; done | by intros [-> _]].
Qed.

Section coalesced.
Context (user_of : string → option string).

Lemma coalesced_some d stored : (∃ i, i ∈ stored ∧ si_digest i = d) →
  ∃ im, coalesced_image user_of (List.filter (λ i, String.eqb (si_digest i) d) stored) = Some im ∧ im_id im = d ∧
    (∀ t, t ∈ im_repo_tags im ↔ ∃ i, i ∈ stored ∧ si_digest i = d ∧ si_reference i = t ∧ has_char "@" t = false) ∧
    (∀ x, x ∈ im_repo_digests im ↔ ∃ i, i ∈ stored ∧ si_digest i = d ∧ x = repo_digest d i) ∧
    ∃ i, i ∈ stored ∧ si_digest i = d ∧ im_size im = si_size i ∧ im_spec im = si_reference i.
Proof.
  intros (i0 & Hi0 & Hd0). set (g := List.filter _ stored).
  assert (∀ i, i ∈ g ↔ i ∈ stored ∧ si_digest i = d) as Hg.
  { intros i. unfold g. by rewrite elem_of_filter_b, String.eqb_eq. }
  destruct g as [|i g']; [apply (conj Hi0), Hg, not_elem_of_nil in Hd0; done|].
  destruct (proj1 (Hg i) (list_elem_of_here _ _)) as [Hi Hdi].
  unfold coalesced_image. destruct (image_user user_of (si_path i)) as [uid username]. eexists. split; [reflexivity|].
  cbn [im_id im_repo_tags im_repo_digests im_size im_spec]. split; [done|]. split; [|split; [|by exists i]].
  - intros t. rewrite elem_of_dedup, sort_by_perm, list_elem_of_fmap. setoid_rewrite elem_of_filter_b.
    setoid_rewrite Hg. setoid_rewrite negb_true_iff. split.
    + intros (j & -> & [Hj Hdj] & Hat). by exists j.
    + intros (j & Hj & Hdj & <- & Hat). by exists j.
  - intros x. rewrite elem_of_dedup, sort_by_perm, list_elem_of_fmap. setoid_rewrite Hg. rewrite Hdi. split.
    + intros (j & -> & Hj & Hdj). by exists j.
    + intros (j & Hj & Hdj & ->). by exists j.
Qed.

Lemma in_coalesced stored im : im ∈ coalesce_images user_of stored ↔
  ∃ d, (∃ i, i ∈ stored ∧ si_digest i = d) ∧
    coalesced_image user_of (List.filter (λ i, String.eqb (si_digest i) d) stored) = Some im.
Proof.
  unfold coalesce_images. rewrite list_elem_of_omap. split.
  - intros ([d g] & Hin & Him). rewrite sort_by_perm in Hin. apply elem_of_map_to_list, group_by_digest_spec in Hin as [-> Hne].
    exists d. split; [|done]. destruct (List.filter _ stored) as [|i l] eqn:E; [done|].
    assert (i ∈ List.filter (λ i, String.eqb (si_digest i) d) stored) as [Hi Hd%String.eqb_eq]%elem_of_filter_b by (rewrite E; by left).
    by exists i.
  - intros (d & (i & Hi & Hd) & Him). exists (d, List.filter (λ i, String.eqb (si_digest i) d) stored). split; [|done].
    rewrite sort_by_perm. apply elem_of_map_to_list, group_by_digest_spec. split; [done|]. intros E.
    assert (i ∈ List.filter (λ i, String.eqb (si_digest i) d) stored) as Hin by (apply elem_of_filter_b; by rewrite String.eqb_eq).
    rewrite E in Hin. by apply not_elem_of_nil in Hin.
Qed.

Lemma coalesced_ids stored : map im_id (coalesce_images user_of stored)
  = map fst (sort_by (λ a b, String.leb a.1 b.1) (map_to_list (group_by_digest stored))).
Proof.
  unfold coalesce_images. set (l := sort_by _ _).
  assert (∀ d g, (d, g) ∈ l → ∃ im, coalesced_image user_of g = Some im ∧ im_id im = d) as Hl.
  { intros d g Hin. unfold l in Hin. rewrite sort_by_perm in Hin. apply elem_of_map_to_list, group_by_digest_spec in Hin as [-> Hne].
    destruct (coalesced_some d stored) as (im & E & Eid & _); [|by exists im].
    destruct (List.filter _ stored) as [|i l'] eqn:E; [done|].
    assert (i ∈ List.filter (λ i, String.eqb (si_digest i) d) stored) as [Hi Hd%String.eqb_eq]%elem_of_filter_b by (rewrite E; by left).
    by exists i. }
  clearbody l. induction l as [|[d g] l IH]; [done|]. cbn [omap list_omap map fst snd].
  destruct (Hl d g) as (im & -> & <-); [by left|]. cbn [map]. f_equal. apply IH. intros d' g' Hin. apply Hl. by right.
Qed.

(** The image list is the store by digest.  The images listed have distinct identifiers, which
    are exactly the digests of the stored images; the tags of an image are exactly the stored
    references with its digest that are not pinned to a digest, and its repo digests are one
    for each stored reference with its digest. *)
Theorem images_by_digest stored :
  let l := coalesce_images user_of stored in
  NoDup (map im_id l) ∧
  (∀ d, d ∈ map im_id l ↔ ∃ i, i ∈ stored ∧ si_digest i = d) ∧
  ∀ im, im ∈ l →
    (∀ t, t ∈ im_repo_tags im ↔ ∃ i, i ∈ stored ∧ si_digest i = im_id im ∧ si_reference i = t ∧ has_char "@" t = false) ∧
    (∀ x, x ∈ im_repo_digests im ↔ ∃ i, i ∈ stored ∧ si_digest i = im_id im ∧ x = repo_digest (im_id im) i) ∧
    ∃ i, i ∈ stored ∧ si_digest i = im_id im ∧ im_size im = si_size i ∧ im_spec im = si_reference i.
Proof.
  cbv zeta. split_and!.
  - rewrite coalesced_ids. rewrite sort_by_perm. apply NoDup_fst_map_to_list.
  - intros d. rewrite list_elem_of_fmap. split.
    + intros (im & -> & (d0 & Hex & Him)%in_coalesced). destruct (coalesced_some _ _ Hex) as (im' & E & <- & _).
      rewrite E in Him. by injection Him as ->.
    + intros Hex. destruct (coalesced_some _ _ Hex) as (im & E & <- & _). exists im. split; [done|].
      apply in_coalesced. by exists (im_id im).
  - intros im (d & Hex & Him)%in_coalesced. destruct (coalesced_some _ _ Hex) as (im' & E & <- & Hrest).
    rewrite E in Him. by injection Him as ->.
Qed.
End coalesced.

(** ** What the code does not do *)

(** A request for the ready sandboxes, whose state is the number 0, lists all of them. *)
Lemma ready_filter_ignored `{HashOrder} s :
  list_pod_sandbox (Some {| pf_id := ""; pf_state := 0; pf_labels := ∅ |}) s = list_pod_sandbox None s.
Proof. reflexivity. Qed.

(** The shares of three containers need not sum to the total. *)
Lemma split_loses_remainder :
  3 * vu_cpu_core_nanos (per_container {| vu_cpu_core_nanos := 10; vu_memory_bytes := 10 |} 3) = 9.
Proof. reflexivity. Qed.

Definition query_demo : query_env :=
  {| qe_dir := λ _, Some true; qe_ready := λ _, true; qe_exec_socket := λ _, Some "/exec.sock";
     qe_pty_socket := λ _, Some "/pty.sock"; qe_forward_socket := λ _, Some "/forward.sock"; qe_now := 5; qe_token := "tok";
     qe_addr := "127.0.0.1:1234"; qe_pid := λ _, Some 7;
     qe_proc := λ _, (Some ("Name: shim" +:+ String "010" "VmRSS:     10 kB"),
                      Some "7 (a (b) c) S 1 1 1 0 -1 4 1 0 0 0 3 1 0 0 20 0") |}.
Definition query_svc : Svc :=
  {| sv_store := {| cs_sandboxes := {["p" := toy_sandbox "p"]};
                    cs_containers := list_to_map [("a", toy_container "a" "p" Running); ("b", toy_container "b" "p" Running);
                                                  ("c", toy_container "c" "p" Exited)];
                    cs_disk := None |};
     sv_vms := {["p"]}; sv_stops := {["a"]}; sv_events := [] |}.

Example usage_read : sandbox_vm_usage query_demo "p" query_svc = {| vu_cpu_core_nanos := 40000000; vu_memory_bytes := 10240 |}.
Proof. vm_compute. reflexivity. Qed.

Definition only (id : string) : ContainerFilter := {| cf_id := id; cf_state := None; cf_pod_sandbox_id := ""; cf_labels := ∅ |}.

(** Asked for one of two running containers, the list reports the whole machine for it, and the
    call for a single container half of it. *)
Lemma one_container_gets_all :
  map (λ x, vu_memory_bytes (cts_usage x)) (@list_container_stats list_order query_demo (Some (only "a")) query_svc) = [10240] ∧
  (@container_stats list_order query_demo "a" query_svc ≫= λ x, Ok (vu_memory_bytes (cts_usage x))) = Ok 5120.
Proof. split; vm_compute; reflexivity. Qed.

(** A container that has exited is given a share as well. *)
Lemma exited_container_gets_share :
  (@container_stats list_order query_demo "c" query_svc ≫= λ x, Ok (vu_memory_bytes (cts_usage x))) = Ok 5120.
Proof. vm_compute. reflexivity. Qed.

(** An image that lost its reference is kept under its digest, which is then listed as a tag. *)
Definition dangling : StoredImage :=
  {| si_reference := "sha256:aaa"; si_digest := "sha256:aaa"; si_size := 1; si_pulled_at := 0; si_last_used := 0; si_path := "aaa" |}.
Lemma dangling_image_tagged : map (λ i, (im_repo_tags i, im_repo_digests i)) (coalesce_images (λ _, None) [dangling])
  = [(["sha256:aaa"], ["sha256@sha256:aaa"])].
Proof. vm_compute. reflexivity. Qed.

(** A negative period becomes one of about 585000 years. *)
Lemma negative_period_wraps : update_container_resources query_demo "a"
    (Some ({| lr_memory_limit_in_bytes := 0; lr_cpu_quota := 0; lr_cpu_period := -1; lr_cpu_shares := 0 |}, "")) query_svc
  ≫= (λ u, Ok (u ≫= λ u, cpu_period (ru_limits u))) = Ok (Some (2 ^ 64 - 1)).
Proof. vm_compute. reflexivity. Qed.

Example repo_names : map repo_name ["nginx:latest"; "host:5000/img"; "host:5000/a/img:v1"; "alpine"]
  = ["nginx"; "host:5000/img"; "host:5000/a/img"; "alpine"].
Proof. vm_compute. reflexivity. Qed.

Example image_users : map parse_image_user ["1002"; "1002:1002"; "nobody"; "nobody:nogroup"; ""]
  = [(Some 1002, ""); (Some 1002, ""); (None, "nobody"); (None, "nobody"); (None, "")].
Proof. vm_compute. reflexivity. Qed.

(** ** Concrete runs *)

Lemma stats_add_up_witness :
  shares (sandbox_vm_usage query_demo "p" query_svc)
    (List.filter (λ x, String.eqb (cts_sandbox_id x) "p") (@list_container_stats list_order query_demo None query_svc)) ∧
  "a" ∈ map cts_id (@list_container_stats list_order query_demo None query_svc).
Proof.
  destruct (@stats_add_up list_order query_demo None query_svc) as (_ & Hall & Hsum & _). split.
  - apply Hsum. vm_compute. discriminate.
  - apply (Hall eq_refl "a" (toy_container "a" "p" Running)); vm_compute; reflexivity.
Defined.

Lemma sessions_guarded_witness :
  stdin_grants "a" [(query_demo, query_svc, CallAttach "a" false true true false)] {| tb_streams := {["a"]}; tb_stdins := {["a"]}; tb_sessions := ∅ |} = O ∧
  ∃ t' url, run_call query_demo query_svc (CallExec "a" ["sh"] true true true false)
    {| tb_streams := {["a"]}; tb_stdins := {["a"]}; tb_sessions := ∅ |} = (t', Ok url) ∧
    ∃ ct, live query_demo query_svc "a" ct ∧ ct_sandbox_id ct = "p".
Proof.
  split; [vm_compute; reflexivity|].
  destruct (run_call query_demo query_svc (CallExec "a" ["sh"] true true true false)
    {| tb_streams := {["a"]}; tb_stdins := {["a"]}; tb_sessions := ∅ |}) as [t' r] eqn:E.
  assert (r = Ok "http://127.0.0.1:1234/exec/tok") as -> by (apply (f_equal snd) in E; vm_compute in E; by symmetry).
  exists t', "http://127.0.0.1:1234/exec/tok". split; [reflexivity|].
  destruct (proj1 sessions_guarded _ _ _ _ _ _ E) as (ss & _ & _ & _ & _ & _ & _ & ct & Hl & Hs).
  exists ct. split; [exact Hl|]. destruct Hl as [Hl _].
  assert (container_of query_svc "a" = Some (toy_container "a" "p" Running)) as E1 by (vm_compute; reflexivity).
  rewrite E1 in Hl. by injection Hl as <-.
Defined.

Lemma images_by_digest_witness : map im_id (coalesce_images (λ _, None) [dangling]) = ["sha256:aaa"] ∧
  NoDup (map im_id (coalesce_images (λ _, None) [dangling])).
Proof. split; [vm_compute; reflexivity|]. apply (images_by_digest (λ _, None) [dangling]). Defined.
