(* ===== verification/Pull.v ===== *)
(** * Pull: images from and to a registry

    [runtime/src/oci/registry.rs] (credentials of a client, the platform of an index, pulling an image
    into a directory with its blobs checked, pushing a layout), [runtime/src/oci/pull.rs] (the cache in
    front of it) and [runtime/src/oci/credentials.rs].  Files are texts under absolute paths; what the
    system calls answer is an argument, and so are SHA-256 and the JSON of the manifests. *)

From Stdlib Require Import ZArith Lia Ascii.
From stdpp Require Import base gmap strings list numbers fin_maps.
From S2P Require Import Prelude RustStr Store Build Image ImageStore Reference CriContainer Logs Signing.

Local Open Scope string_scope.
Local Open Scope list_scope.
Local Open Scope nat_scope.

Abbreviation files := (gmap string string).

(** ** Credentials *)

Section credentials.
Context (to_lowercase : string → string).

Definition normalize_registry (registry : string) : string :=
  let r := to_lowercase (trim registry) in
  if bool_decide (r = "docker.io") || bool_decide (r = "registry-1.docker.io") then "index.docker.io" else r.

(** [CredentialFile]: user and password of each registry *)
Abbreviation credential_file := (gmap string (string * string)).
Context {content : Type} (to_json : credential_file → content) (from_json : content → option credential_file).

Definition cred_load (io : io_env content) (f : file content) : result store_err credential_file :=
  load from_json ∅ io f.

Definition cred_store (io : io_env content) (registry username password : string) (f : file content)
    : file content * result store_err () :=
  match cred_load io f with
  | Err e => (f, Err e)
  | Ok m => save to_json io (<[normalize_registry registry := (username, password)]> m) f
  end.

Definition cred_get (io : io_env content) (registry : string) (f : file content) : result store_err (option (string * string)) :=
  (λ m : credential_file, m !! normalize_registry registry) <$> cred_load io f.

Definition cred_remove (io : io_env content) (registry : string) (f : file content) : file content * result store_err bool :=
  match cred_load io f with
  | Err e => (f, Err e)
  | Ok m =>
      match m !! normalize_registry registry with
      | None => (f, Ok false)
      | Some _ =>
          match save to_json io (delete (normalize_registry registry) m) f with
          | (f, Ok _) => (f, Ok true)
          | (f, Err e) => (f, Err e)
          end
      end
  end.

Definition list_registries `{HashOrder} (io : io_env content) (f : file content) : result store_err (list string) :=
  (λ m, sort_by String.leb (hash_keys m)) <$> cred_load io f.

(** ** Authentication *)

Record RegistryAuth := { ra_username : option string; ra_password : option string }.
Definition anonymous : RegistryAuth := {| ra_username := None; ra_password := None |}.
Definition basic (username password : string) : RegistryAuth :=
  {| ra_username := Some username; ra_password := Some password |}.

Definition from_env (env : string → option string) : RegistryAuth :=
  match env "REGISTRY_USERNAME", env "REGISTRY_PASSWORD" with
  | Some u, Some p => basic u p
  | _, _ => anonymous
  end.

Definition from_credential_store (env : string → option string) (io : io_env content) (f : file content) (registry : string) : RegistryAuth :=
  match cred_get io registry f with
  | Ok (Some (u, p)) => basic u p
  | _ => from_env env
  end.

Definition to_oci_auth (a : RegistryAuth) : OciAuth :=
  match ra_username a, ra_password a with Some u, Some p => Basic u p | _, _ => Anonymous end.
End credentials.

Definition registry_protocol_from_env (env : string → option string) : ClientProtocol :=
  match env "A3S_REGISTRY_PROTOCOL" with
  | Some v => if eq_ignore_ascii_case v "http" then Http else Https
  | None => Https
  end.

(** ** Platforms *)

(** [host]: the architecture the program was built for. *)
Definition resolve_target_arch (host : string) (platform : option string) : string :=
  let raw := match platform with
             | Some p => default p (match split "/" p !! 1 with Some a => Some a | None => head (split "/" p) end)
             | None => host
             end in
  if bool_decide (raw = "x86_64") then "amd64" else if bool_decide (raw = "aarch64") then "arm64" else raw.

Definition platform_resolver_for (arch : string) (manifests : list ImageIndexEntry) : option string :=
  ie_digest <$> List.find (λ e, bool_decide (ie_platform e = Some ("linux", arch))) manifests.

Definition linux_platform_resolver (host : string) : list ImageIndexEntry → option string :=
  platform_resolver_for (resolve_target_arch host None).

(** ** Paths and strings *)

(** [Path::with_extension("partial")]; a path that ends in [..] has no file name and stays. *)
Definition with_partial (name : string) : string :=
  if bool_decide (name = "..") || is_empty name then name
  else match rsplit_once "." name with
       | Some (stem, _) => if is_empty stem then name +:+ ".partial" else stem +:+ ".partial"
       | None => name +:+ ".partial"
       end.
Definition partial_path (dest : string) : string :=
  match rsplit_once "/" dest with Some (dir, name) => dir +:+ "/" +:+ with_partial name | None => with_partial dest end.

Definition blobs_path (target : string) : string := join_path (join_path target "blobs") "sha256".
Definition blob_dest (blobs_dir digest : string) : string := join_path blobs_dir (dir_name digest).

Definition reference_text (use_digest : bool) (r : ImageReference) : string :=
  let base := ir_registry r +:+ "/" +:+ ir_repository r in
  match (if use_digest then ir_digest r else None), ir_tag r with
  | Some d, _ => base +:+ "@" +:+ d
  | None, Some t => base +:+ ":" +:+ t
  | None, None => base +:+ ":latest"
  end.

(** ** Pulling into a directory *)

(** The text of [oci-layout] *)
Definition OCI_LAYOUT : string :=
  let q s := String "034" (s +:+ String "034" "") in
  "{" +:+ q "imageLayoutVersion" +:+ ":" +:+ q "1.0.0" +:+ "}".

(** [index_text] is the index the puller writes, with the manifest's digest and size. *)
Class PullJson := {
  manifest_text : OciImageManifest → string;
  read_oci_manifest : string → option OciImageManifest;
  index_text : string → Z → string;
  first_digest : string → option string }.

(** What the system calls answer: a path is created; what of a file is on disk after a [flush] whose
    failure is ignored ([None]: all of it); a path is removed; renamed to; and a whole write fails with
    what it leaves. *)
Record pull_io := {
  io_mkdir : bool; io_create : string → bool; io_flush : string → option string; io_remove : string → bool;
  io_rename : string → bool; io_write : string → option (option string) }.
Definition good_pull : pull_io :=
  {| io_mkdir := true; io_create := λ _, true; io_flush := λ _, None; io_remove := λ _, true;
     io_rename := λ _, true; io_write := λ _, None |}.

Inductive pull_error :=
  | BadOciReference (text : string) | PullMkdir | ManifestFailed
  | NoSignatureFound (repository tag : string) | SignatureFailed (repository tag : string) (why : SigError)
  | WriteFailed (what : string) | CreateFailed (what : string) | BlobFailed (what : string)
  | BlobMismatch (what expected computed : string) | BlobRename (what : string)
  | PullPanic.

(** The files, and the calls of the progress callback, latest first. *)
Record pull_state := { ps_files : files; ps_progress : list (nat * nat * string * Z) }.
Definition with_files (f : files) (s : pull_state) : pull_state := {| ps_files := f; ps_progress := ps_progress s |}.

(** Go on unless it failed. *)
Definition and_then {A B} (r : pull_state * result pull_error A) (k : pull_state → A → pull_state * result pull_error B)
    : pull_state * result pull_error B :=
  match r with (s, Ok a) => k s a | (s, Err e) => (s, Err e) end.

Record RegistryPuller := {
  pu_client : Client; pu_auth : RegistryAuth; pu_policy : SignaturePolicy; pu_progress : bool }.

Definition with_auth_and_platform (env : string → option string) (host : string) (auth : RegistryAuth)
    (platform : option string) : RegistryPuller :=
  let resolver := match platform with
                  | None => linux_platform_resolver host
                  | Some p => platform_resolver_for (resolve_target_arch host (Some p))
                  end in
  {| pu_client := {| cl_protocol := registry_protocol_from_env env; cl_resolver := Some resolver |};
     pu_auth := auth; pu_policy := default_signature_policy; pu_progress := false |}.

Section pull.
Context `{OciClient} `{SigLibs} `{PullJson} (sha256_hex : string → string).
Context (io : pull_io) (pu : RegistryPuller) (read : string → option string) (reg : Registry).

Definition remove_file (p : string) (f : files) : files := if io_remove io p then delete p f else f.

Definition stream_and_verify_blob (oci_ref : string) (d : OciDescriptor) (dest what : string) (s : pull_state)
    : pull_state * result pull_error () :=
  let tmp := partial_path dest in
  let f := ps_files s in
  if negb (io_create io tmp) then (s, Err (CreateFailed what)) else
  match pull_blob reg (pu_client pu) oci_ref d with
  | (part, false) => (with_files (remove_file tmp (<[tmp := part]> f)) s, Err (BlobFailed what))
  | (bytes, true) =>
      let f := <[tmp := default bytes (io_flush io tmp)]> f in
      let rename :=
        if io_rename io dest
        then (with_files (<[dest := default bytes (io_flush io tmp)]> (delete tmp f)) s, Ok ())
        else (with_files f s, Err (BlobRename what)) in
      match strip_prefix "sha256:" (od_digest d) with
      | Some expected =>
          if eq_ignore_ascii_case (sha256_hex bytes) expected then rename
          else (with_files (remove_file tmp f) s, Err (BlobMismatch what expected (sha256_hex bytes)))
      | None => rename
      end
  end.

Definition report (idx total : nat) (digest : string) (size : Z) (s : pull_state) : pull_state :=
  if pu_progress pu then {| ps_files := ps_files s; ps_progress := (idx, total, digest, size) :: ps_progress s |} else s.

Fixpoint pull_layers (oci_ref blobs_dir : string) (idx total : nat) (layers : list OciDescriptor) (s : pull_state)
    : pull_state * result pull_error () :=
  match layers with
  | [] => (s, Ok ())
  | l :: layers =>
      and_then (stream_and_verify_blob oci_ref l (blob_dest blobs_dir (od_digest l)) "layer"
                  (report (S idx) total (od_digest l) (od_size l) s))
        (λ s _, pull_layers oci_ref blobs_dir (S idx) total layers
                  (report (S idx) total (od_digest l) (- od_size l)%Z s))
  end.

Definition pull_image_content (oci_ref blobs_dir : string) (m : OciImageManifest) (s : pull_state)
    : pull_state * result pull_error () :=
  and_then (stream_and_verify_blob oci_ref (om_config m) (blob_dest blobs_dir (od_digest (om_config m))) "config blob" s)
    (λ s _, pull_layers oci_ref blobs_dir 0 (length (om_layers m)) (om_layers m) s).

Definition write_file (path text what : string) (s : pull_state) : pull_state * result pull_error () :=
  match io_write io path with
  | None => (with_files (<[path := text]> (ps_files s)) s, Ok ())
  | Some (Some part) => (with_files (<[path := part]> (ps_files s)) s, Err (WriteFailed what))
  | Some None => (s, Err (WriteFailed what))
  end.

Definition to_oci_reference (use_digest : bool) (r : ImageReference) : result pull_error string :=
  let text := reference_text use_digest r in
  if reference_ok text then Ok text else Err (BadOciReference text).

(** The directory is made before anything is asked; whether it was made is the last part: a
    failed [create_dir_all] may have made a part of it. *)
Definition registry_pull (reference : ImageReference) (target : string) (s : pull_state)
    : pull_state * result pull_error () * bool :=
  match to_oci_reference true reference with
  | Err e => (s, Err e, false)
  | Ok oci_ref =>
      let blobs_dir := blobs_path target in
      if negb (io_mkdir io) then (s, Err PullMkdir, true) else
      match pull_image_manifest reg (pu_client pu) oci_ref (to_oci_auth (pu_auth pu)) with
      | Err _ => (s, Err ManifestFailed, true)
      | Ok (m, manifest_digest) =>
          let repository := ir_repository reference in
          let tag := default "latest" (ir_tag reference) in
          match verify_image_signature read reg (pu_policy pu) (ir_registry reference) repository manifest_digest with
          | None => (s, Err PullPanic, true)
          | Some NoSignature => (s, Err (NoSignatureFound repository tag), true)
          | Some (Failed why) => (s, Err (SignatureFailed repository tag why), true)
          | Some (Verified | Skipped) =>
              let text := manifest_text m in
              (and_then (write_file (blob_dest blobs_dir manifest_digest) text "manifest" s) (λ s _,
               and_then (pull_image_content oci_ref blobs_dir m s) (λ s _,
               and_then (write_file (join_path target "oci-layout") OCI_LAYOUT "oci-layout" s) (λ s _,
               write_file (join_path target "index.json")
                 (index_text manifest_digest (Z.of_nat (String.length text))) "index.json" s))), true)
          end
      end
  end.

Definition pull_manifest_digest (reference : ImageReference) : result pull_error string :=
  oci_ref ← to_oci_reference true reference;
  ok_or ManifestFailed (pull_manifest reg (pu_client pu) oci_ref (to_oci_auth (pu_auth pu))).

(** ** Pushing *)

Inductive push_error := PushReference (text : string) | NoIndexFile | NoDigestInIndex | NoManifestFile | BadManifestFile
  | NoConfigFile | NoLayerFile (digest : string) | PushRefused.

Record PushResult := { pp_config_url : string; pp_manifest_url : string; pp_manifest_digest : string }.

Definition read_layers (blobs_dir : string) (f : files) (layers : list OciDescriptor) : result push_error (list ImageLayer) :=
  mapM (λ l, data ← ok_or (NoLayerFile (od_digest l)) (f !! blob_dest blobs_dir (od_digest l));
             Ok {| il_data := data; il_media_type := od_media_type l |}) layers.

(** What is read of a layout before it is pushed: the manifest with its digest, the config, the layers. *)
Definition push_read (image_dir : string) (f : files) : result push_error (string * OciImageManifest * ImageLayer * list ImageLayer) :=
  let blobs_dir := blobs_path image_dir in
  index ← ok_or NoIndexFile (f !! join_path image_dir "index.json");
  digest ← ok_or NoDigestInIndex (first_digest index);
  text ← ok_or NoManifestFile (f !! blob_dest blobs_dir digest);
  m ← ok_or BadManifestFile (read_oci_manifest text);
  config ← ok_or NoConfigFile (f !! blob_dest blobs_dir (od_digest (om_config m)));
  layers ← read_layers blobs_dir f (om_layers m);
  Ok (digest, m, {| il_data := config; il_media_type := od_media_type (om_config m) |}, layers).

Definition registry_push (client : Client) (auth : RegistryAuth) (reference : ImageReference) (image_dir : string) (f : files)
    : Registry * result push_error PushResult :=
  let text := reference_text false reference in
  if negb (reference_ok text) then (reg, Err (PushReference text)) else
  match push_read image_dir f with
  | Err e => (reg, Err e)
  | Ok (digest, m, config, layers) =>
      match push_image reg client text layers config (to_oci_auth auth) (Some m) with
      | (reg, Some r) => (reg, Ok {| pp_config_url := pr_config_url r; pp_manifest_url := pr_manifest_url r; pp_manifest_digest := digest |})
      | (reg, None) => (reg, Err PushRefused)
      end
  end.
End pull.

(** ** The cache in front of the registry *)

Definition parse_registry_mirrors (env : option string) : gmap string string :=
  match env with
  | None => ∅
  | Some raw =>
      let pairs := map (λ hm, (trim hm.1, trim hm.2)) (omap (split_once "=") (split "," raw)) in
      foldl (λ m hm, <[hm.1 := hm.2]> m) ∅ (List.filter (λ hm, negb (is_empty hm.1) && negb (is_empty hm.2)) pairs)
  end.

Definition with_registry (registry : string) (r : ImageReference) : ImageReference :=
  {| ir_registry := registry; ir_repository := ir_repository r; ir_tag := ir_tag r; ir_digest := ir_digest r |}.

Definition mirror_reference (mirrors : gmap string string) (r : ImageReference) : ImageReference :=
  match mirrors !! ir_registry r with
  | Some mirror => if is_empty mirror then r else with_registry mirror r
  | None => r
  end.

Definition is_digest_reference (reference : string) : bool := starts_with "sha256:" reference.

Definition digest_matches (stored query : string) : bool :=
  bool_decide (stored = query) ||
  match strip_prefix "sha256:" query with
  | None => false
  | Some hex => negb (is_empty hex) && starts_with query stored
  end.

Definition push_unique (values : list string) (value : string) : list string :=
  if negb (is_empty value) && negb (bool_decide (value ∈ values)) then values ++ [value] else values.

Definition reference_from_repository (repository : string) (tag digest : option string) : string :=
  repository +:+ push_opt ":" tag +:+ push_opt "@" digest.

Definition cache_reference_candidates (reference : string) (parsed : ImageReference) : list string :=
  let c := push_unique (push_unique [] (trim reference)) (full_reference parsed) in
  let c := if bool_decide (ir_registry parsed = "docker.io") then
             let repository := default (ir_repository parsed) (strip_prefix "library/" (ir_repository parsed)) in
             let c := push_unique c (reference_from_repository repository (ir_tag parsed) (ir_digest parsed)) in
             if bool_decide (ir_digest parsed = None ∧ ir_tag parsed = Some "latest") then push_unique c repository else c
           else c in
  match ir_digest parsed with Some d => push_unique c d | None => c end.

Inductive puller_error :=
  | PRef (e : ref_err) | PPull (e : pull_error) | PStore (e : store_error) | PImage (e : image_error)
  | NotCached (reference : string) | Ambiguous (query : string) (references : list string)
  | CannotForce (reference : string) | CleanFailed (path : string).

(** The store, all files, the directories below [<store>/tmp], the counter of pulls. *)
Record puller_world := { pw_store : ImageStore; pw_files : files; pw_tmp : gset string; pw_pulls : Z }.
Definition with_store (st : ImageStore) (w : puller_world) : puller_world :=
  {| pw_store := st; pw_files := pw_files w; pw_tmp := pw_tmp w; pw_pulls := pw_pulls w |}.

(** What is below a directory, what is elsewhere, and the same tree at another place. *)
Definition below (dir : string) (f : files) : files := filter (λ kv, starts_with (dir +:+ "/") kv.1 = true) f.
Definition outside (dir : string) (f : files) : files := filter (λ kv, starts_with (dir +:+ "/") kv.1 = false) f.
Definition moved (from to : string) (f : files) : files :=
  list_to_map (omap (λ kv, (λ rest, (to +:+ "/" +:+ rest, kv.2)) <$> strip_prefix (from +:+ "/") kv.1) (map_to_list f)).
Definition tree_bytes (f : files) : Z := foldr (λ kv n, Z.of_nat (String.length kv.2) + n)%Z 0%Z (map_to_list f).

(** The layout in a directory *)
Definition layout_at (dir : string) (f : files) : layout :=
  {| lo_marker := bool_decide (is_Some (f !! (dir +:+ "/oci-layout")));
     lo_index := f !! (dir +:+ "/index.json");
     lo_blobs := Some (list_to_map (omap (λ kv, (λ rest, (rest, kv.2)) <$> strip_prefix (dir +:+ "/blobs/") kv.1) (map_to_list f))) |}.

(** The rest of what the system answers to one call: the clean-up before a pull and after it, and the copy
    into the store, when it breaks off, with the size and the files it leaves. *)
Record cache_io := {
  ca_pull : pull_io; ca_now : Z; ca_saves : bool; ca_clean : bool; ca_cleanup : bool;
  ca_copy : option (option (Z * files)); ca_remove : string → bool }.
Definition good_cache (now : Z) : cache_io :=
  {| ca_pull := good_pull; ca_now := now; ca_saves := true; ca_clean := true; ca_cleanup := true;
     ca_copy := None; ca_remove := λ _, true |}.

Section puller.
Context `{HashOrder} `{OciClient} `{SigLibs} `{PullJson} `{Documents} (sha256_hex : string → string).
Context (store_dir : string) (mirrors : gmap string string) (metrics : bool) (pu : RegistryPuller).
Context (io : cache_io) (read : string → option string).

Definition tmp_path (name : string) : string := store_dir +:+ "/tmp/" +:+ name.
Definition store_path (name : string) : string := store_dir +:+ "/sha256/" +:+ name.

(** The files of the layouts that left the store are gone. *)
Definition sync_files (old new : gmap string Z) (f : files) : files :=
  filter (λ kv, forallb (λ d : string * Z, bool_decide (is_Some (new !! d.1)) || negb (starts_with (store_path d.1 +:+ "/") kv.1))
                  (map_to_list old) = true) f.
Definition replace_store (st : ImageStore) (w : puller_world) : puller_world :=
  {| pw_store := st; pw_files := sync_files (st_dirs (pw_store w)) (st_dirs st) (pw_files w); pw_tmp := pw_tmp w; pw_pulls := pw_pulls w |}.

Definition open_image (i : StoredImage) (w : puller_world) : result puller_error OciImage :=
  map_err PImage (from_path (layout_at (store_path (si_path i)) (pw_files w))).

Definition remove_tmp (name : string) (w : puller_world) : puller_world :=
  {| pw_store := pw_store w; pw_files := outside (tmp_path name) (pw_files w); pw_tmp := pw_tmp w ∖ {[ name ]};
     pw_pulls := pw_pulls w |}.
Definition cleanup_tmp (name : string) (w : puller_world) : puller_world := if ca_cleanup io then remove_tmp name w else w.

(** [store.put] from the temporary directory: the index and the sizes, and the files. *)
Definition put_tree (reference digest tmp : string) (w : puller_world) : puller_world * result puller_error StoredImage :=
  let source := below (tmp_path tmp) (pw_files w) in
  let target := dir_name digest in
  let copy := match ca_copy io with None => Whole (tree_bytes source) | Some p => Broken (fst <$> p) end in
  let '(st, r) := put (ca_now io) copy (ca_saves io) reference digest (pw_store w) in
  let copied := match st_dirs (pw_store w) !! target, ca_copy io with
                | Some _, _ => ∅
                | None, None => moved (tmp_path tmp) (store_path target) source
                | None, Some p => from_option snd ∅ p
                end in
  ({| pw_store := st; pw_files := copied ∪ pw_files w; pw_tmp := pw_tmp w; pw_pulls := pw_pulls w |}, map_err PStore r).

(** [asked] answers the first request, for the digest, and [fetched] the pull.  A known digest is put from
    its own directory, where there is nothing to copy. *)
Definition pull_and_store (asked fetched : Registry) (reference : ImageReference) (w : puller_world)
    : puller_world * result puller_error OciImage :=
  let full_ref := full_reference reference in
  let fetch := mirror_reference mirrors reference in
  match pull_manifest_digest pu asked fetch with
  | Err e => (w, Err (PPull e))
  | Ok digest =>
      match get_by_digest (ca_now io) (ca_saves io) digest (pw_store w) with
      | (st, Some stored) =>
          match put (ca_now io) (Broken None) (ca_saves io) full_ref digest st with
          | (st, Ok _) => (with_store st w, open_image stored (with_store st w))
          | (st, Err e) => (with_store st w, Err (PStore e))
          end
      | (st, None) =>
          let w := with_store st w in
          let name := dir_name digest in
          let old := bool_decide (name ∈ pw_tmp w) in
          if old && negb (ca_clean io) then (w, Err (CleanFailed (tmp_path name))) else
          let w := if old then remove_tmp name w else w in
          match registry_pull sha256_hex (ca_pull io) pu read fetched fetch (tmp_path name)
                  {| ps_files := pw_files w; ps_progress := [] |} with
          | (s, r, made) =>
              let w := {| pw_store := pw_store w; pw_files := ps_files s;
                          pw_tmp := if made then {[ name ]} ∪ pw_tmp w else pw_tmp w; pw_pulls := pw_pulls w |} in
              match r with
              | Err PullPanic => (w, Err (PPull PullPanic))
              | Err e => (cleanup_tmp name w, Err (PPull e))
              | Ok _ =>
                  let w := {| pw_store := pw_store w; pw_files := pw_files w; pw_tmp := pw_tmp w;
                              pw_pulls := if metrics then (pw_pulls w + 1)%Z else pw_pulls w |} in
                  match put_tree full_ref digest name w with
                  | (w, Err e) => (cleanup_tmp name w, Err e)
                  | (w, Ok stored) =>
                      let w := cleanup_tmp name w in
                      match evict (ca_remove io) (ca_saves io) (pw_store w) with
                      | (st, Err e) => (replace_store st w, Err (PStore e))
                      | (st, Ok _) => (replace_store st w, open_image stored (replace_store st w))
                      end
                  end
              end
          end
      end
  end.

(** The images that match a digest, the first of those with the same reference. *)
Definition digest_hits (digest : string) (images : list StoredImage) : list StoredImage :=
  foldl (λ hits i,
    if (digest_matches (si_digest i) digest || bool_decide (si_reference i = digest))
       && negb (existsb (λ h, bool_decide (si_reference h = si_reference i)) hits)
    then hits ++ [i] else hits) [] images.

Definition cached_digest_image (digest : string) (st : ImageStore)
    : ImageStore * result puller_error (option (string * StoredImage)) :=
  match digest_hits digest (images st) with
  | [] => (st, Ok None)
  | [i] =>
      let '(st, got) := get (ca_now io) (ca_saves io) (si_reference i) st in
      let i := default i got in
      (st, Ok (Some (si_reference i, i)))
  | hits => (st, Err (Ambiguous digest (sort_by String.leb (map si_reference hits))))
  end.

Fixpoint first_cached (candidates : list string) (st : ImageStore) : ImageStore * option (string * StoredImage) :=
  match candidates with
  | [] => (st, None)
  | c :: candidates =>
      match get (ca_now io) (ca_saves io) c st with
      | (st, Some i) => (st, Some (c, i))
      | (st, None) => first_cached candidates st
      end
  end.

Definition cached_image (reference : string) (parsed : ImageReference) (st : ImageStore)
    : ImageStore * result puller_error (option (string * StoredImage)) :=
  match first_cached (cache_reference_candidates reference parsed) st with
  | (st, Some hit) => (st, Ok (Some hit))
  | (st, None) =>
      match ir_digest parsed with
      | Some d => cached_digest_image d st
      | None => (st, Ok None)
      end
  end.

(** What the cache answers for a reference, and the reference to pull when it has nothing. *)
Definition lookup_cached (reference : string) (st : ImageStore)
    : ImageStore * result puller_error (option (string * StoredImage)) :=
  let reference := trim reference in
  if is_digest_reference reference then cached_digest_image reference st
  else match parse_reference reference with
       | Err e => (st, Err (PRef e))
       | Ok parsed => cached_image reference parsed st
       end.

Definition pull_resolved (asked fetched : Registry) (reference : string) (w : puller_world)
    : puller_world * result puller_error (OciImage * string) :=
  let reference := trim reference in
  let opened hit w := (w, i ← open_image hit.2 w; Ok (i, hit.1)) in
  if is_digest_reference reference then
    match cached_digest_image reference (pw_store w) with
    | (st, Err e) => (with_store st w, Err e)
    | (st, Ok None) => (with_store st w, Err (NotCached reference))
    | (st, Ok (Some hit)) => opened hit (with_store st w)
    end
  else match parse_reference reference with
       | Err e => (w, Err (PRef e))
       | Ok parsed =>
           match cached_image reference parsed (pw_store w) with
           | (st, Err e) => (with_store st w, Err e)
           | (st, Ok (Some hit)) => opened hit (with_store st w)
           | (st, Ok None) =>
               let '(w, r) := pull_and_store asked fetched parsed (with_store st w) in
               (w, i ← r; Ok (i, full_reference parsed))
           end
       end.

Definition forget (candidate : string) (w : puller_world) : puller_world :=
  match get (ca_now io) (ca_saves io) candidate (pw_store w) with
  | (st, Some i) => replace_store (remove (ca_remove io) (ca_saves io) candidate st).1 w
  | (st, None) => with_store st w
  end.

Definition force_pull (asked fetched : Registry) (reference : string) (w : puller_world)
    : puller_world * result puller_error OciImage :=
  let reference := trim reference in
  if is_digest_reference reference then (w, Err (CannotForce reference))
  else match parse_reference reference with
       | Err e => (w, Err (PRef e))
       | Ok parsed =>
           pull_and_store asked fetched parsed (foldl (λ w c, forget c w) w (cache_reference_candidates reference parsed))
       end.

Definition is_cached (reference : string) (st : ImageStore) : ImageStore * bool :=
  match lookup_cached reference st with
  | (st, Ok (Some _)) => (st, true)
  | (st, _) => (st, false)
  end.

Definition remove_cached (reference : string) (st : ImageStore) : ImageStore * result puller_error bool :=
  match lookup_cached reference st with
  | (st, Err e) => (st, Err e)
  | (st, Ok None) => (st, Ok false)
  | (st, Ok (Some (matched, _))) =>
      let '(st, r) := remove (ca_remove io) (ca_saves io) matched st in
      (st, _ ← map_err PStore r; Ok true)
  end.

Definition list_cached (st : ImageStore) : list string := map si_reference (images st).
End puller.

(** ** Where blobs are written *)

(** The name of a blob: no separator and no extension. *)
Definition plain (name : string) : bool := negb (is_empty name) && negb (has_char "/" name) && negb (has_char "." name).
Definition plain_digest (digest : string) : bool :=
  match strip_prefix "sha256:" digest with Some hex => plain hex | None => false end.

Lemma plain_spec name : plain name = true ↔ is_empty name = false ∧ has_char "/" name = false ∧ has_char "." name = false.
Proof. unfold plain. rewrite !andb_true_iff, !negb_true_iff. tauto. Qed.

Lemma plain_digest_spec digest : plain_digest digest = true ↔
  ∃ hex, digest = "sha256:" +:+ hex ∧ dir_name digest = hex ∧ plain hex = true.
Proof.
  unfold plain_digest, dir_name. split.
  - destruct (strip_prefix "sha256:" digest) as [hex|] eqn:E; [|done]. intros Hp. exists hex.
    apply strip_prefix_Some in E. auto.
  - intros (hex & -> & _ & Hp). by rewrite strip_prefix_app.
Qed.

(** Everything joined to one directory has one prefix. *)
Definition dir_prefix (dir : string) : string := if is_empty dir || ends_with "/" dir then dir else dir +:+ "/".

Lemma join_path_prefix base p : starts_with "/" p = false → join_path base p = dir_prefix base +:+ p.
Proof.
  intros Hp. unfold join_path, dir_prefix. rewrite Hp. destruct (is_empty base || ends_with "/" base); [done|].
  by rewrite str_app_assoc.
Qed.

Lemma ends_with_slash x y : ends_with "/" (x +:+ String y "") = true → y = "/"%char.
Proof.
  unfold ends_with. destruct (strip_suffix "/" _) as [t|] eqn:E; [|done]. intros _. apply strip_suffix_Some in E.
  apply (f_equal str_rev) in E. rewrite !str_rev_app_distr in E. by injection E.
Qed.

Lemma blobs_path_prefix target name : plain name = true →
  join_path (blobs_path target) name = dir_prefix target +:+ "blobs/sha256/" +:+ name.
Proof.
  intros Hn. unfold blobs_path. rewrite (join_path_prefix target "blobs") by done. set (pre := dir_prefix target).
  assert (∀ x y n, y ≠ "/"%char → starts_with "/" n = false → join_path (x +:+ String y "") n = x +:+ String y ("/" +:+ n)) as Hj.
  { intros x y n Hy Hs. unfold join_path. rewrite Hs.
    destruct (is_empty _) eqn:E1; [by destruct x|]. destruct (ends_with _ _) eqn:E2; [by apply ends_with_slash in E2|].
    cbn [orb]. by rewrite str_app_assoc. }
  replace (pre +:+ "blobs") with ((pre +:+ "blob") +:+ String "s" "") by by rewrite str_app_assoc.
  rewrite (Hj _ "s"%char "sha256") by done.
  replace ((pre +:+ "blob") +:+ String "s" ("/" +:+ "sha256")) with ((pre +:+ "blobs/sha25") +:+ String "6" "") by by rewrite !str_app_assoc.
  rewrite (Hj _ "6"%char name); [by rewrite str_app_assoc|done|].
  apply plain_spec in Hn as (_ & Hs & _). destruct (starts_with "/" name) eqn:E; [|done].
  by apply starts_with_spec in E as (t & ->).
Qed.

Lemma partial_path_plain pre name : plain name = true →
  partial_path (pre +:+ "blobs/sha256/" +:+ name) = pre +:+ "blobs/sha256/" +:+ name +:+ ".partial".
Proof.
  intros (He & Hs & Hd)%plain_spec. unfold partial_path.
  replace (pre +:+ "blobs/sha256/" +:+ name) with ((pre +:+ "blobs/sha256") +:+ String "/" name) by by rewrite !str_app_assoc.
  rewrite (proj2 (rsplit_once_Some _ _ _ _)) by done. rewrite !str_app_assoc. unfold with_partial.
  rewrite bool_decide_false by (by intros ->). rewrite He. cbn [orb].
  by rewrite (proj2 (rsplit_once_None _ _)).
Qed.

Lemma partial_not_plain name name' : plain name' = true → name' ≠ name +:+ ".partial".
Proof. intros (_ & _ & Hd)%plain_spec ->. by rewrite has_char_app, orb_true_r in Hd. Qed.

Section pull_facts.
Context `{OciClient} `{SigLibs} `{PullJson} (sha256_hex : string → string).
Context (io : pull_io) (pu : RegistryPuller) (read : string → option string) (reg : Registry) (pre : string).

Abbreviation stream := (stream_and_verify_blob sha256_hex io pu reg).
Definition blob_at (digest : string) : string := pre +:+ "blobs/sha256/" +:+ dir_name digest.

(** Only paths below the directory differ. *)
Definition stays_below (s s' : pull_state) : Prop := ∀ p, starts_with pre p = false → ps_files s' !! p = ps_files s !! p.

#[export] Instance stays_below_preorder : PreOrder stays_below.
Proof. split; [by intros s p|]. intros s1 s2 s3 H12 H23 p Hp. by rewrite H23, H12. Qed.

(** The file of a blob hashes to its digest. *)
Definition verified_blob (s : pull_state) (d : OciDescriptor) : Prop :=
  ∃ bytes, ps_files s !! blob_at (od_digest d) = Some bytes ∧
    eq_ignore_ascii_case (sha256_hex bytes) (dir_name (od_digest d)) = true.

Lemma stream_files oci_ref d dest what s s' r : stream oci_ref d dest what s = (s', r) →
  (∀ p, p ≠ dest → p ≠ partial_path dest → ps_files s' !! p = ps_files s !! p) ∧
  (r = Ok () → ∃ bytes, pull_blob reg (pu_client pu) oci_ref d = (bytes, true) ∧
    ps_files s' !! dest = Some (default bytes (io_flush io (partial_path dest))) ∧
    ∀ hex, od_digest d = "sha256:" +:+ hex → eq_ignore_ascii_case (sha256_hex bytes) hex = true).
Proof.
  unfold stream_and_verify_blob, remove_file. set (tmp := partial_path dest).
  destruct (io_create io tmp); cbn [negb]; [|by intros [= <- <-]].
  destruct (pull_blob reg (pu_client pu) oci_ref d) as [bytes []].
  2: { intros [= <- <-]. split; [|done]. intros p Hd Ht. cbn. destruct (io_remove io tmp); by rewrite ?lookup_delete_ne, lookup_insert_ne by done. }
  set (text := default bytes (io_flush io tmp)).
  assert (∀ s1 r1, (if io_rename io dest then (with_files (<[dest := text]> (delete tmp (<[tmp := text]> (ps_files s)))) s, Ok ())
     else (with_files (<[tmp := text]> (ps_files s)) s, Err (BlobRename what))) = (s1, r1) →
    (∀ p, p ≠ dest → p ≠ tmp → ps_files s1 !! p = ps_files s !! p) ∧ (r1 = Ok () → ps_files s1 !! dest = Some text)) as Hren.
  { intros s1 r1. destruct (io_rename io dest); intros [= <- <-]; cbn; (split; [intros p Hd Ht|]).
    - by rewrite lookup_insert_ne, lookup_delete_ne, lookup_insert_ne by done.
    - intros _. by rewrite lookup_insert_eq.
    - by rewrite lookup_insert_ne by done.
    - done. }
  destruct (strip_prefix "sha256:" (od_digest d)) as [hex|] eqn:Eh.
  - destruct (eq_ignore_ascii_case (sha256_hex bytes) hex) eqn:Ee.
    + intros [Hf Hok]%Hren. split; [done|]. intros Hr. exists bytes. split_and!; [done|by apply Hok|].
      intros hex' Hx. rewrite Hx, strip_prefix_app in Eh. by injection Eh as <-.
    + intros [= <- <-]. split; [|done]. intros p Hd Ht. cbn. destruct (io_remove io tmp); by rewrite ?lookup_delete_ne, lookup_insert_ne by done.
  - intros [Hf Hok]%Hren. split; [done|]. intros Hr. exists bytes. split_and!; [done|by apply Hok|].
    intros hex' Hx. by rewrite Hx, strip_prefix_app in Eh.
Qed.

Lemma below_pre x : starts_with pre (pre +:+ x) = true.
Proof. apply starts_with_spec. eauto. Qed.

Lemma report_files idx total digest size s : ps_files (report pu idx total digest size s) = ps_files s.
Proof. unfold report. by destruct (pu_progress pu). Qed.

(** One blob: below the directory; verified when it succeeds; blobs verified before stay so. *)
Lemma stream_plain oci_ref d what s s' r : plain_digest (od_digest d) = true →
  stream oci_ref d (blob_at (od_digest d)) what s = (s', r) →
  stays_below s s' ∧
  ((∀ p, io_flush io p = None) → r = Ok () → verified_blob s' d ∧
    ∀ d', plain_digest (od_digest d') = true → verified_blob s d' → verified_blob s' d').
Proof.
  intros (hex & Hd & Hdir & Hp)%plain_digest_spec Hs. apply stream_files in Hs as [Hf Hok].
  assert (partial_path (blob_at (od_digest d)) = pre +:+ "blobs/sha256/" +:+ hex +:+ ".partial") as Htmp.
  { unfold blob_at. rewrite Hdir. by apply partial_path_plain. }
  split.
  - intros p Hpre. apply Hf; [|rewrite Htmp]; intros ->; unfold blob_at in Hpre; by rewrite below_pre in Hpre.
  - intros Hfl Hr. destruct (Hok Hr) as (bytes & _ & Hfile & Hhash). rewrite Hfl in Hfile. cbn in Hfile.
    assert (verified_blob s' d) as Hv. { exists bytes. split; [done|]. rewrite Hdir. by apply Hhash. }
    split; [done|]. intros d' (hex' & Hd' & Hdir' & Hp')%plain_digest_spec (bytes' & Hb' & Hh').
    destruct (decide (hex' = hex)) as [->|Hne].
    + unfold verified_blob, blob_at in Hv |- *. by rewrite Hdir' , Hdir in *.
    + exists bytes'. split; [|done]. rewrite Hf; [done| |].
      * unfold blob_at. rewrite Hdir, Hdir'. intros E%str_app_inj_l%str_app_inj_l. done.
      * rewrite Htmp. unfold blob_at. rewrite Hdir'. intros E%str_app_inj_l%str_app_inj_l.
        by eapply partial_not_plain.
Qed.

Lemma verified_same_files s s' d : ps_files s' = ps_files s → verified_blob s d → verified_blob s' d.
Proof. unfold verified_blob. by intros ->. Qed.

Lemma confined_same_files s s' : ps_files s' = ps_files s → stays_below s s'.
Proof. by intros E p _; rewrite E. Qed.

Section content.
Context (blobs_dir : string).
Hypothesis Hdest : ∀ digest, plain_digest digest = true → blob_dest blobs_dir digest = blob_at digest.

Lemma pull_layers_plain oci_ref layers : Forall (λ l, plain_digest (od_digest l) = true) layers →
  ∀ idx total s s' r, pull_layers sha256_hex io pu reg oci_ref blobs_dir idx total layers s = (s', r) →
  stays_below s s' ∧
  ((∀ p, io_flush io p = None) → r = Ok () → Forall (verified_blob s') layers ∧
    ∀ d', plain_digest (od_digest d') = true → verified_blob s d' → verified_blob s' d').
Proof using Hdest.
  induction 1 as [|l layers Hl _ IH]; intros idx total s s' r; cbn [pull_layers].
  - intros [= <- <-]. split; [done|]. intros _ _. by split; [constructor|].
  - rewrite Hdest by done. set (s1 := report pu _ _ _ (od_size l) s).
    destruct (stream oci_ref l _ "layer" s1) as [s2 r2] eqn:Es. apply stream_plain in Es as [Hc2 Hv2]; [|done].
    assert (stays_below s s2) as Hc by (etrans; [apply (confined_same_files s s1), report_files|exact Hc2]).
    destruct r2 as [[]|e]; cbn [and_then]; [|by intros [= <- <-]]. set (s3 := report pu _ _ _ _ s2).
    intros Hr. apply IH in Hr as [Hc3 Hv3]. split.
    { etrans; [exact Hc|]. etrans; [apply (confined_same_files s2 s3), report_files|exact Hc3]. }
    intros Hfl Hok. destruct (Hv2 Hfl eq_refl) as [Hl2 Hk2], (Hv3 Hfl Hok) as [Hl3 Hk3].
    assert (∀ d, plain_digest (od_digest d) = true → verified_blob s2 d → verified_blob s' d) as Hk.
    { intros d Hd Hb. apply Hk3; [done|]. apply (verified_same_files s2); [apply report_files|done]. }
    split; [constructor; [by apply Hk|done]|]. intros d Hd Hb. apply Hk, Hk2; [done..|].
    apply (verified_same_files s); [apply report_files|done].
Qed.

(** The blobs of a manifest *)
Definition blobs_of (m : OciImageManifest) : list OciDescriptor := om_config m :: om_layers m.

Lemma pull_content_plain oci_ref m s s' r : Forall (λ d, plain_digest (od_digest d) = true) (blobs_of m) →
  pull_image_content sha256_hex io pu reg oci_ref blobs_dir m s = (s', r) →
  stays_below s s' ∧ ((∀ p, io_flush io p = None) → r = Ok () → Forall (verified_blob s') (blobs_of m)).
Proof using Hdest.
  intros [Hc Hl]%Forall_cons. unfold pull_image_content. rewrite Hdest by done.
  destruct (stream _ _ _ _ s) as [s1 r1] eqn:Es. apply stream_plain in Es as [Hc1 Hv1]; [|done].
  destruct r1 as [[]|e]; cbn [and_then]; [|by intros [= <- <-]]. intros [Hc2 Hv2]%pull_layers_plain; [|done].
  split; [by etrans|]. intros Hfl Hok. destruct (Hv1 Hfl eq_refl) as [Hcfg _], (Hv2 Hfl Hok) as [Hls Hk].
  constructor; [by apply Hk|done].
Qed.
End content.

Lemma write_file_files path text what s s' r : write_file io path text what s = (s', r) →
  (∀ p, p ≠ path → ps_files s' !! p = ps_files s !! p) ∧ (r = Ok () → ps_files s' !! path = Some text).
Proof.
  unfold write_file. destruct (io_write io path) as [[part|]|]; intros [= <- <-]; cbn; (split; [|try done]).
  - intros p Hp. by rewrite lookup_insert_ne.
  - done.
  - intros p Hp. by rewrite lookup_insert_ne.
  - intros _. by rewrite lookup_insert_eq.
Qed.

Lemma write_confined x text what s s' r : write_file io (pre +:+ x) text what s = (s', r) → stays_below s s'.
Proof. intros [Hf _]%write_file_files p Hp. apply Hf. intros ->. by rewrite below_pre in Hp. Qed.

Lemma write_keeps x text what s s' r d : write_file io (pre +:+ x) text what s = (s', r) →
  starts_with "blobs" x = false → verified_blob s d → verified_blob s' d.
Proof.
  intros [Hf _]%write_file_files Hx (bytes & Hb & Hh). exists bytes. split; [|done]. rewrite Hf; [done|].
  unfold blob_at. intros E%str_app_inj_l. subst x. done.
Qed.
End pull_facts.

(** ** A pull *)

Section pull_theorem.
Context `{OciClient} `{SigLibs} `{PullJson} (sha256_hex : string → string).
Context (io : pull_io) (pu : RegistryPuller) (read : string → option string) (reg : Registry).

(** Every digest of an answer is [sha256:] and a plain file name: the digests whose contents the pull
    checks ([foreign_digest_unchecked] is about the others). *)
Definition plain_manifest (m : OciImageManifest) (digest : string) : Prop :=
  plain_digest digest = true ∧ Forall (λ d, plain_digest (od_digest d) = true) (blobs_of m).

(** The registry's answer to the pull of a reference *)
Definition answer (reference : ImageReference) : result OciError (OciImageManifest * string) :=
  pull_image_manifest reg (pu_client pu) (reference_text true reference) (to_oci_auth (pu_auth pu)).
Definition accepted (reference : ImageReference) (digest : string) : Prop :=
  vr_is_ok <$> verify_image_signature read reg (pu_policy pu) (ir_registry reference) (ir_repository reference) digest = Some true.

Lemma blob_dest_at target digest : plain_digest digest = true →
  blob_dest (blobs_path target) digest = blob_at (dir_prefix target) digest.
Proof. intros (hex & -> & Hd & Hp)%plain_digest_spec. unfold blob_dest, blob_at. rewrite Hd. by apply blobs_path_prefix. Qed.

Lemma and_then_inv {A B} (x : pull_state * result pull_error A) (k : pull_state → A → pull_state * result pull_error B) s' r :
  and_then x k = (s', r) → (∃ s1 a, x = (s1, Ok a) ∧ k s1 a = (s', r)) ∨ (∃ e, x = (s', Err e) ∧ r = Err e).
Proof. destruct x as [s1 [a|e]]; cbn; [intros Hk; left; eauto|]. intros [= <- <-]. right. eauto. Qed.

(** Past the manifest and its signature *)
Lemma registry_pull_cases reference target s s' r made :
  registry_pull sha256_hex io pu read reg reference target s = (s', r, made) →
  (s' = s ∧ r ≠ Ok ()) ∨
  ∃ m digest, answer reference = Ok (m, digest) ∧ accepted reference digest ∧
    (and_then (write_file io (blob_dest (blobs_path target) digest) (manifest_text m) "manifest" s) (λ s _,
     and_then (pull_image_content sha256_hex io pu reg (reference_text true reference) (blobs_path target) m s) (λ s _,
     and_then (write_file io (join_path target "oci-layout") OCI_LAYOUT "oci-layout" s) (λ s _,
     write_file io (join_path target "index.json")
       (index_text digest (Z.of_nat (String.length (manifest_text m)))) "index.json" s)))) = (s', r).
Proof.
  unfold registry_pull, to_oci_reference. destruct (reference_ok _); [|intros [= <- <- _]; by left].
  destruct (io_mkdir io); cbn [negb]; [|intros [= <- <- _]; by left]. fold (answer reference).
  destruct (answer reference) as [[m digest]|e] eqn:Ea; [|intros [= <- <- _]; by left].
  unfold accepted. destruct (verify_image_signature _ _ _ _ _ _) as [[]|] eqn:Ev;
    try (intros [= <- <- _]; by left); intros [= Hrest _]; right; exists m, digest; by rewrite Ev.
Qed.

Lemma registry_pull_confined reference target s s' r made :
  (∀ m digest, answer reference = Ok (m, digest) → plain_manifest m digest) →
  registry_pull sha256_hex io pu read reg reference target s = (s', r, made) → stays_below (dir_prefix target) s s'.
Proof.
  intros Hplain Hpull. apply registry_pull_cases in Hpull as [[-> _]|(m & digest & Ha & _ & Hrest)]; [done|].
  destruct (Hplain _ _ Ha) as [Hpd Hpb]. rewrite blob_dest_at, !join_path_prefix in Hrest by done.
  apply and_then_inv in Hrest as [(s1 & [] & Hw1 & Hrest)|(e & Hw1 & ->)]; apply write_confined in Hw1 as Hc1; [|done].
  etrans; [exact Hc1|]. apply and_then_inv in Hrest as [(s2 & [] & Hw2 & Hrest)|(e & Hw2 & ->)];
    apply (pull_content_plain sha256_hex io pu reg _ _ (blob_dest_at target)) in Hw2 as [Hc2 _]; try done.
  etrans; [exact Hc2|].
  apply and_then_inv in Hrest as [(s3 & [] & Hw3 & Hrest)|(e & Hw3 & ->)]; apply write_confined in Hw3 as Hc3; [|done].
  etrans; [exact Hc3|]. by eapply write_confined.
Qed.

(** C26: A pull writes no file unless the signature policy accepts the manifest's digest.
    Conditions: every digest the registry answers, the manifest's, the config's and the layers', is
    [sha256:] followed by a plain file name (the code stores a blob of another digest unchecked, and
    where that digest says), and the last flush of each blob succeeds (its failure is ignored). Then
    every file written is below the directory of the pull; and when the pull succeeds, the config
    and every layer of the manifest are there, under their digest, with contents whose SHA-256 is
    that digest up to case, together with the layout marker and an index that names the accepted
    manifest. *)
Theorem pull_writes_verified reference target s s' r made
  (Hflush : ∀ p, io_flush io p = None)
  (Hplain : ∀ m digest, answer reference = Ok (m, digest) → plain_manifest m digest)
  (Hpull : registry_pull sha256_hex io pu read reg reference target s = (s', r, made)) :
  stays_below (dir_prefix target) s s' ∧
  (s' ≠ s → ∃ m digest, answer reference = Ok (m, digest) ∧ accepted reference digest) ∧
  (r = Ok () → ∃ m digest, answer reference = Ok (m, digest) ∧ accepted reference digest ∧
    (∀ d, d ∈ blobs_of m → ∃ bytes, ps_files s' !! blob_dest (blobs_path target) (od_digest d) = Some bytes ∧
       eq_ignore_ascii_case (sha256_hex bytes) (dir_name (od_digest d)) = true) ∧
    ps_files s' !! join_path target "oci-layout" = Some OCI_LAYOUT ∧
    ps_files s' !! join_path target "index.json" = Some (index_text digest (Z.of_nat (String.length (manifest_text m))))).
Proof.
  apply registry_pull_cases in Hpull as [[-> Hr]|(m & digest & Ha & Hacc & Hrest)]; [done|].
  destruct (Hplain _ _ Ha) as [Hpd Hpb]. rewrite blob_dest_at, !join_path_prefix in Hrest by done.
  set (pre := dir_prefix target) in *.
  assert (∀ digest, plain_digest digest = true → blob_dest (blobs_path target) digest = blob_at pre digest) as Hdest
    by (intros; by apply blob_dest_at).
  apply and_then_inv in Hrest as [(s1 & [] & Hw1 & Hrest)|(e & Hw1 & ->)]; apply write_confined in Hw1 as Hc1; [|by split_and!; eauto].
  apply and_then_inv in Hrest as [(s2 & [] & Hw2 & Hrest)|(e & Hw2 & ->)];
    apply (pull_content_plain sha256_hex io pu reg pre _ Hdest) in Hw2 as [Hc2 Hv2]; try done;
    [|split_and!; [by etrans|eauto|done]].
  apply and_then_inv in Hrest as [(s3 & [] & Hw3 & Hrest)|(e & Hw3 & ->)]; apply write_confined in Hw3 as Hc3;
    [|split_and!; [by do 2 (etrans; [done|])|eauto|done]].
  apply write_confined in Hrest as Hc4. split_and!; [by do 3 (etrans; [done|])|eauto|].
  intros ->. exists m, digest. split_and!; [done..| | |].
  - intros d Hd. specialize (Hv2 Hflush eq_refl). rewrite Forall_forall in Hv2, Hpb. specialize (Hv2 d Hd). specialize (Hpb d Hd).
    cbn in Hpb. rewrite Hdest by done. eapply write_keeps; [exact Hrest|done|]. eapply write_keeps; [exact Hw3|done|done].
  - rewrite join_path_prefix by done. fold pre. apply write_file_files in Hrest as [Hf _], Hw3 as [_ Hwr].
    rewrite Hf; [by apply Hwr|]. by intros E%str_app_inj_l.
  - rewrite join_path_prefix by done. fold pre. apply write_file_files in Hrest as [_ Hwr]. by apply Hwr.
Qed.
End pull_theorem.

(** ** A pull through the cache *)

Lemma ends_with_plain x name : plain name = true → ends_with "/" (x +:+ name) = false.
Proof.
  intros (He & Hs & _)%plain_spec. destruct (ends_with "/" _) eqn:E; [|done]. unfold ends_with in E.
  destruct (strip_suffix "/" _) as [t|] eqn:Et; [|done]. apply strip_suffix_Some, (f_equal str_rev) in Et.
  rewrite !str_rev_app_distr in Et. destruct (str_rev name) as [|a r] eqn:Er.
  - apply (f_equal str_rev) in Er. rewrite str_rev_involutive in Er. by subst.
  - injection Et as -> _. apply (f_equal str_rev) in Er. rewrite str_rev_involutive, str_rev_cons in Er.
    subst name. by rewrite has_char_app, orb_true_r in Hs.
Qed.

Lemma tmp_prefix store_dir name : plain name = true → dir_prefix (tmp_path store_dir name) = tmp_path store_dir name +:+ "/".
Proof.
  intros Hn. unfold dir_prefix, tmp_path. rewrite <-!str_app_assoc, ends_with_plain by done.
  destruct (is_empty _) eqn:E; [|done]. by destruct store_dir.
Qed.

Lemma outside_lookup dir f p : outside dir f !! p = if starts_with (dir +:+ "/") p then None else f !! p.
Proof.
  unfold outside. rewrite map_lookup_filter. destruct (f !! p) as [x|]; cbn; [|by destruct (starts_with _ p)].
  destruct (starts_with (dir +:+ "/") p) eqn:E; [by rewrite option_guard_False by (cbn; congruence)|by rewrite option_guard_True].
Qed.

Lemma below_outside dir f : below dir (outside dir f) = ∅.
Proof.
  apply map_eq. intros p. unfold below. rewrite map_lookup_filter, outside_lookup, lookup_empty.
  destruct (starts_with (dir +:+ "/") p) eqn:E; [done|]. destruct (f !! p); [|done]. cbn.
  by rewrite option_guard_False by (cbn; congruence).
Qed.

Section cache_facts.
Context `{HashOrder} `{OciClient} `{SigLibs} `{PullJson} `{Documents} (sha256_hex : string → string).
Context (store_dir : string) (mirrors : gmap string string) (metrics : bool) (pu : RegistryPuller).
Context (io : cache_io) (read : string → option string).

Lemma get_by_digest_None now saves digest st st' : get_by_digest now saves digest st = (st', None) → st' = st.
Proof. unfold get_by_digest. destruct (List.find _ _) as [[k i]|]; [done|]. by intros [= <-]. Qed.

Lemma put_tree_no_pull reference digest name w w' e :
  put_tree store_dir io reference digest name w = (w', Err e) → ∃ e', e = PStore e'.
Proof. unfold put_tree. destruct (put _ _ _ _ _ _) as [st [i|e']]; intros [= <- <-]; eauto. Qed.

(** A pull that the registry, the signature policy, a digest or a file operation stops leaves the
    image store and its index as they were, no temporary directory, none of the files it wrote and every
    other file untouched, when the clean-up can remove the directory; only a panic skips it. *)
Theorem failed_pull_leaves_nothing asked fetched reference w w' e digest
  (Hclean : ca_cleanup io = true)
  (Hdigest : pull_manifest_digest pu asked (mirror_reference mirrors reference) = Ok digest)
  (Hname : plain (dir_name digest) = true)
  (Hplain : ∀ m d, answer pu fetched (mirror_reference mirrors reference) = Ok (m, d) → plain_manifest m d)
  (Hpull : pull_and_store sha256_hex store_dir mirrors metrics pu io read asked fetched reference w = (w', Err (PPull e)))
  (Hpanic : e ≠ PullPanic) :
  pw_store w' = pw_store w ∧ pw_pulls w' = pw_pulls w ∧ pw_tmp w' = pw_tmp w ∖ {[ dir_name digest ]} ∧
  below (tmp_path store_dir (dir_name digest)) (pw_files w') = ∅ ∧
  ∀ p, starts_with (tmp_path store_dir (dir_name digest) +:+ "/") p = false → pw_files w' !! p = pw_files w !! p.
Proof.
  revert Hpull. unfold pull_and_store. rewrite Hdigest.
  destruct (get_by_digest _ _ _ _) as [st [stored|]] eqn:Eg.
  { destruct (put _ _ _ _ _ _) as [st' [i|e']]; [|done]. intros [= _ Ho]. revert Ho. unfold open_image. by destruct (from_path _). }
  apply get_by_digest_None in Eg as ->. set (name := dir_name digest) in *. cbn [pw_tmp with_store].
  destruct (bool_decide _ && _); [done|]. set (w1 := if bool_decide _ then _ else _).
  assert (pw_store w1 = pw_store w ∧ pw_pulls w1 = pw_pulls w ∧ pw_tmp w1 ∖ {[ name ]} = pw_tmp w ∖ {[ name ]} ∧
    ∀ p, starts_with (tmp_path store_dir name +:+ "/") p = false → pw_files w1 !! p = pw_files w !! p) as (Hst & Hpl & Htmp & Hfiles).
  { subst w1. destruct (bool_decide _); cbn; split_and!; [done..|set_solver| |done|done|done|done].
    intros p Hp. by rewrite outside_lookup, Hp. }
  destruct (registry_pull _ _ _ _ _ _ _ _) as [[s r] made] eqn:Er.
  apply registry_pull_confined in Er as Hc; [|exact Hplain]. rewrite tmp_prefix in Hc by done.
  destruct r as [[]|e'].
  - destruct (put_tree _ _ _ _ _ _) as [w2 [stored|e2]] eqn:Ep.
    + destruct (evict _ _ _) as [st2 [ev|e2]]; [|done]. intros [= _ Ho]. revert Ho. unfold open_image. by destruct (from_path _).
    + apply put_tree_no_pull in Ep as (e3 & ->). done.
  - intros Hres.
    assert (w' = remove_tmp store_dir name {| pw_store := pw_store w1; pw_files := ps_files s;
        pw_tmp := if made then {[ name ]} ∪ pw_tmp w1 else pw_tmp w1; pw_pulls := pw_pulls w1 |}) as ->.
    { unfold cleanup_tmp in Hres. rewrite Hclean in Hres. destruct e'; injection Hres as Hw He; congruence. }
    unfold remove_tmp. cbn. split_and!; [done|done| |apply below_outside|].
    + destruct made; set_solver.
    + intros p Hp. rewrite outside_lookup, Hp, Hc by done. cbn. by apply Hfiles.
Qed.
End cache_facts.

(** ** What is pushed is pulled *)

Section push_pull.
Context `{OciClient} `{SigLibs} `{PullJson} `{!PushLaw} (sha256_hex : string → string).

(** The blob of a descriptor can be pulled, with contents that hash to its digest. *)
Definition pullable (client : Client) (reg : Registry) (oci_ref : string) (d : OciDescriptor) (bytes : string) : Prop :=
  pull_blob reg client oci_ref d = (bytes, true) ∧ plain_digest (od_digest d) = true ∧
  eq_ignore_ascii_case (sha256_hex bytes) (dir_name (od_digest d)) = true.

Section good.
Context (pu : RegistryPuller) (reg : Registry) (oci_ref target : string) (contents : string → option string).
Abbreviation pre := (dir_prefix target).

Lemma stream_good d bytes what s : pullable (pu_client pu) reg oci_ref d bytes →
  ∃ s', stream_and_verify_blob sha256_hex good_pull pu reg oci_ref d (blob_at pre (od_digest d)) what s = (s', Ok ()) ∧
    ps_files s' !! blob_at pre (od_digest d) = Some bytes ∧
    ∀ d', plain_digest d' = true → d' ≠ od_digest d → ps_files s' !! blob_at pre d' = ps_files s !! blob_at pre d'.
Proof.
  intros (Hb & Hp & Hh). apply plain_digest_spec in Hp as (hex & Hd & Hdir & Hp).
  destruct (stream_and_verify_blob _ _ _ _ _ _ _ _ _) as [s' r] eqn:Es.
  assert (r = Ok ()) as ->.
  { revert Es. unfold stream_and_verify_blob. cbn [good_pull io_create negb]. rewrite Hb, Hd, strip_prefix_app.
    rewrite Hdir in Hh. rewrite Hh. by intros [= _ <-]. }
  apply stream_files in Es as [Hf Hok]. destruct (Hok eq_refl) as (bytes' & Hb' & Hfile & _).
  rewrite Hb in Hb'. injection Hb' as <-. exists s'. split_and!; [done|exact Hfile|].
  intros d' (hex' & Hd' & Hdir' & Hp')%plain_digest_spec Hne. apply Hf; unfold blob_at; rewrite ?Hdir, ?Hdir'.
  - intros E%str_app_inj_l%str_app_inj_l. congruence.
  - rewrite partial_path_plain by done. intros E%str_app_inj_l%str_app_inj_l. by eapply partial_not_plain.
Qed.

(** The blobs whose contents are already there. *)
Definition present (s : pull_state) (ds : list OciDescriptor) : Prop :=
  ∀ d, d ∈ ds → ps_files s !! blob_at pre (od_digest d) = contents (od_digest d).

Lemma stream_present d bytes what s ds : pullable (pu_client pu) reg oci_ref d bytes → contents (od_digest d) = Some bytes →
  Forall (λ d, plain_digest (od_digest d) = true) ds → present s ds →
  ∃ s', stream_and_verify_blob sha256_hex good_pull pu reg oci_ref d (blob_at pre (od_digest d)) what s = (s', Ok ()) ∧
    present s' (d :: ds).
Proof.
  intros Hd Hc Hds Hs. destruct (stream_good d bytes what s Hd) as (s' & He & Hf & Hk). exists s'. split; [done|].
  intros d' [->|Hin]%elem_of_cons; [congruence|]. destruct (decide (od_digest d' = od_digest d)) as [->|Hne]; [congruence|].
  rewrite Hk; [by apply Hs| |done]. rewrite Forall_forall in Hds. by apply Hds.
Qed.

Lemma pull_layers_good layers : Forall (λ d, ∃ bytes, pullable (pu_client pu) reg oci_ref d bytes ∧ contents (od_digest d) = Some bytes) layers →
  ∀ idx total s ds, Forall (λ d, plain_digest (od_digest d) = true) ds → present s ds →
  ∃ s', pull_layers sha256_hex good_pull pu reg oci_ref (blobs_path target) idx total layers s = (s', Ok ()) ∧ present s' (layers ++ ds).
Proof.
  induction 1 as [|d layers (bytes & Hp & Hc) _ IH]; intros idx total s ds Hds Hs; cbn [pull_layers]; [by exists s|].
  assert (plain_digest (od_digest d) = true) as Hpl by apply Hp. rewrite blob_dest_at by done.
  destruct (stream_present d bytes "layer" (report pu (S idx) total (od_digest d) (od_size d) s) ds Hp Hc Hds) as (s1 & -> & Hs1).
  { intros d' Hd'. rewrite report_files. by apply Hs. }
  cbn [and_then]. destruct (IH (S idx) total (report pu (S idx) total (od_digest d) (- od_size d) s1) (d :: ds)) as (s' & -> & Hs').
  - by constructor.
  - intros d' Hd'. rewrite report_files. by apply Hs1.
  - exists s'. split; [done|]. intros d' Hd'. apply Hs'. set_solver.
Qed.
End good.

(** An image pushed from a layout whose blobs hash to their digests is pulled back whole: with the
    same credentials and protocol a pull of the reference succeeds, and every blob of the manifest has the
    contents it had in the layout. *)
Theorem push_then_pull_exact client auth reg reg' res reference dir f digest m config layers pu read target s
  (Hread : push_read dir f = Ok (digest, m, config, layers))
  (Hhash : ∀ d, d ∈ blobs_of m → plain_digest (od_digest d) = true ∧
     ∃ bytes, f !! blob_dest (blobs_path dir) (od_digest d) = Some bytes ∧
       eq_ignore_ascii_case (sha256_hex bytes) (dir_name (od_digest d)) = true)
  (Htag : ir_digest reference = None)
  (Hpush : registry_push reg client auth reference dir f = (reg', Ok res))
  (Hpu : cl_protocol (pu_client pu) = cl_protocol client ∧ pu_auth pu = auth ∧ pu_policy pu = Skip)
  (Hanswer : ∀ m d, answer pu reg' reference = Ok (m, d) → plain_digest d = true) :
  ∃ s', registry_pull sha256_hex good_pull pu read reg' reference target s = (s', Ok (), true) ∧
    ∀ d, d ∈ blobs_of m →
      ps_files s' !! blob_dest (blobs_path target) (od_digest d) = f !! blob_dest (blobs_path dir) (od_digest d).
Proof.
  destruct Hpu as (Hproto & Hauth & Hpol). subst auth.
  revert Hpush. unfold registry_push. rewrite Hread. destruct (reference_ok _) eqn:Eref; [|done]. cbn [negb].
  destruct (push_image _ _ _ _ _ _ _) as [reg1 [resp|]] eqn:Ep; [|done]. intros [= -> _].
  apply push_then_pull in Ep as (m' & d' & Hpull & Hm). specialize (Hm m eq_refl) as ->.
  destruct (Hpull _ Hproto) as (Hman & Hlayers & Hconfig).
  assert (reference_text true reference = reference_text false reference) as Etext by (unfold reference_text; by rewrite Htag).
  rewrite <-Etext in *. pose proof (Hanswer m d' Hman) as Hd'.
  set (contents := λ dg, f !! blob_dest (blobs_path dir) dg).
  assert (∀ d bytes, d ∈ blobs_of m → f !! blob_dest (blobs_path dir) (od_digest d) = Some bytes →
    pull_blob reg' (pu_client pu) (reference_text true reference) d = (bytes, true) →
    pullable (pu_client pu) reg' (reference_text true reference) d bytes ∧ contents (od_digest d) = Some bytes) as Hpb.
  { intros d bytes Hin Hf Hb. split; [|done]. destruct (Hhash d Hin) as (Hp & bytes' & Hf' & Hh). rewrite Hf in Hf'.
    by injection Hf' as <-. }
  unfold push_read in Hread. do 4 (apply bind_Ok in Hread as (? & _ & Hread)).
  apply bind_Ok in Hread as (cfg & Hcfg%ok_or_Ok & Hread). apply bind_Ok in Hread as (ls & Hls & Hread).
  injection Hread as -> -> <- ->.
  apply mapM_Ok_Forall2 in Hls.
  assert (Forall (λ d, ∃ bytes, pullable (pu_client pu) reg' (reference_text true reference) d bytes ∧ contents (od_digest d) = Some bytes)
    (om_layers m)) as Hgood.
  { apply Forall_forall. intros d Hd. apply list_elem_of_lookup in Hd as (i & Hi).
    destruct (Forall2_lookup_l _ _ _ _ _ Hls Hi) as (l & Hl & (data & Hdata%ok_or_Ok & [= <-])%bind_Ok).
    destruct (Forall2_lookup_l _ _ _ _ _ Hlayers Hl) as (d2 & Hd2 & Hb). rewrite Hi in Hd2. injection Hd2 as <-.
    exists data. apply Hpb; [|done|done]. apply elem_of_cons. right. by eapply list_elem_of_lookup_2. }
  destruct (write_file good_pull (blob_dest (blobs_path target) d') (manifest_text m) "manifest" s) as [s1 r1] eqn:E1.
  assert (r1 = Ok ()) as -> by (revert E1; by intros [= _ <-]).
  assert (om_config m ∈ blobs_of m) as Hin by (apply elem_of_cons; by left).
  destruct (Hpb _ cfg Hin Hcfg Hconfig) as [Hcp Hcc].
  destruct (stream_present pu reg' (reference_text true reference) target contents (om_config m) cfg "config blob" s1 [] Hcp Hcc)
    as (s2 & E2 & Hp2); [constructor|by intros ? ?%not_elem_of_nil|].
  assert (plain_digest (od_digest (om_config m)) = true) as Hplc by apply Hcp.
  destruct (pull_layers_good pu reg' (reference_text true reference) target contents (om_layers m) Hgood 0
    (length (om_layers m)) s2 [om_config m]) as (s3 & E3 & Hp3); [by repeat constructor|done|].
  eexists. split.
  - unfold registry_pull, to_oci_reference. rewrite Eref. cbn [good_pull io_mkdir negb].
    rewrite Hman, Hpol. cbn [verify_image_signature]. rewrite E1. cbn [and_then].
    unfold pull_image_content. rewrite blob_dest_at, E2 by done. cbn [and_then]. rewrite E3. cbn [and_then write_file good_pull io_write]. done.
  - intros d Hd. assert (plain_digest (od_digest d) = true) as Hpd by (by apply Hhash).
    cbn [ps_files with_files]. rewrite (blob_dest_at target) by done. rewrite !(join_path_prefix target) by done.
    rewrite !lookup_insert_ne by (by intros E%str_app_inj_l). rewrite Hp3; [done|].
    apply elem_of_cons in Hd as [->|Hd]; set_solver.
Qed.
End push_pull.

(** ** Credentials are found again *)

Section credential_facts.
Context (to_lowercase : string → string) {content : Type}.
Context (to_json : gmap string (string * string) → content) (from_json : content → option (gmap string (string * string))).
Context (json_roundtrip : ∀ m, from_json (to_json m) = Some m).

Lemma stored_credentials_found io f f' registry username password other :
  cred_store to_lowercase to_json from_json io registry username password f = (f', Ok ()) →
  cred_get to_lowercase from_json good_env other f' =
  if bool_decide (normalize_registry to_lowercase other = normalize_registry to_lowercase registry)
  then Ok (Some (username, password))
  else match cred_get to_lowercase from_json io other f with Ok c => Ok c | Err _ => Ok None end.
Proof using json_roundtrip.
  unfold cred_store, cred_get, cred_load. destruct (load from_json ∅ io f) as [m|e]; [|done].
  intros Hs%save_Ok. destruct Hs as [Hm _]. unfold load at 1. rewrite Hm. cbn. rewrite json_roundtrip. cbn.
  case_bool_decide as E; [by rewrite E, lookup_insert_eq|by rewrite lookup_insert_ne].
Qed.

Lemma removed_credentials_gone io f f' registry removed :
  cred_remove to_lowercase to_json from_json io registry f = (f', Ok removed) →
  cred_get to_lowercase from_json good_env registry f' = Ok None ∨ removed = false ∧ f' = f.
Proof using json_roundtrip.
  unfold cred_remove, cred_get, cred_load. destruct (load from_json ∅ io f) as [m|e]; [|done].
  destruct (m !! _) as [c|]; [|intros [= <- <-]; by right].
  destruct (save to_json io _ f) as [f1 [[]|e]] eqn:Es; [|done]. intros [= <- <-]. left.
  apply save_Ok in Es as [Hm _]. unfold load. rewrite Hm. cbn. rewrite json_roundtrip. cbn. by rewrite lookup_delete_eq.
Qed.
End credential_facts.

(** ** Every name of a cached image finds it *)

Section cache_names.
Context `{HashOrder} `{OciClient} `{SigLibs} `{PullJson} `{Documents} (sha256_hex : string → string).
Context (store_dir : string) (mirrors : gmap string string) (metrics : bool) (pu : RegistryPuller).
Context (io : cache_io) (read : string → option string).

Lemma push_unique_keeps c values value : c ∈ values → c ∈ push_unique values value.
Proof. unfold push_unique. intros Hc. destruct (_ && _); set_solver. Qed.

Lemma push_unique_in values value : is_empty value = false → value ∈ push_unique values value.
Proof. unfold push_unique. intros ->. cbn. case_bool_decide; cbn; set_solver. Qed.

Lemma canonical_candidate reference parsed : full_reference parsed ∈ cache_reference_candidates reference parsed.
Proof.
  unfold cache_reference_candidates. assert (is_empty (full_reference parsed) = false) as He.
  { unfold full_reference. by destruct (ir_registry parsed). }
  assert (∀ c, full_reference parsed ∈ c → full_reference parsed ∈
    match ir_digest parsed with Some d => push_unique c d | None => c end) as Hlast.
  { intros c Hc. destruct (ir_digest parsed); [by apply push_unique_keeps|done]. }
  apply Hlast. repeat case_bool_decide; repeat first [by apply push_unique_in|apply push_unique_keeps].
Qed.

Lemma first_cached_hit candidates st c i : c ∈ candidates → st_index st !! c = Some i →
  ∃ st' c' i', first_cached io candidates st = (st', Some (c', i')).
Proof.
  intros Hc Hi. induction candidates as [|a candidates IH]; [by apply not_elem_of_nil in Hc|]. cbn [first_cached].
  unfold get at 1. destruct (st_index st !! a) as [j|] eqn:Ea; [eauto|]. apply IH.
  apply elem_of_cons in Hc as [->|?]; [congruence|done].
Qed.

(** What is stored under the canonical reference is found by every text that means it: the short name, the
    name with its tag, the name with its registry; and no registry is asked. *)
Lemma canonical_reference_found reference parsed i w :
  parse_reference (trim reference) = Ok parsed → is_digest_reference (trim reference) = false →
  st_index (pw_store w) !! full_reference parsed = Some i →
  (is_cached io reference (pw_store w)).2 = true ∧
  ∀ asked fetched asked' fetched',
    pull_resolved sha256_hex store_dir mirrors metrics pu io read asked fetched reference w =
    pull_resolved sha256_hex store_dir mirrors metrics pu io read asked' fetched' reference w.
Proof.
  intros Hp Hd Hi.
  destruct (first_cached_hit (cache_reference_candidates (trim reference) parsed) (pw_store w) _ i
    (canonical_candidate _ _) Hi) as (st' & c' & i' & Hf).
  assert (cached_image io (trim reference) parsed (pw_store w) = (st', Ok (Some (c', i')))) as Hc.
  { unfold cached_image. by rewrite Hf. }
  unfold is_cached, lookup_cached, pull_resolved. rewrite Hd, Hp, Hc. done.
Qed.

(** A digest the store already has is taken over without its signature being looked at: the result of the
    pull is the same under every policy. *)
Lemma known_digest_skips_policy asked fetched reference w digest st stored policy :
  pull_manifest_digest pu asked (mirror_reference mirrors reference) = Ok digest →
  get_by_digest (ca_now io) (ca_saves io) digest (pw_store w) = (st, Some stored) →
  let strict := {| pu_client := pu_client pu; pu_auth := pu_auth pu; pu_policy := policy; pu_progress := pu_progress pu |} in
  pull_and_store sha256_hex store_dir mirrors metrics strict io read asked fetched reference w =
  pull_and_store sha256_hex store_dir mirrors metrics pu io read asked fetched reference w.
Proof.
  intros Hd Hg strict. unfold pull_and_store. change (pull_manifest_digest strict) with (pull_manifest_digest pu).
  by rewrite Hd, Hg.
Qed.
End cache_names.

(** ** What the checks leave out *)

(** A blob with a digest of another form is stored unchecked, and where the digest says: an absolute path
    leaves the directory of the pull. *)
Lemma foreign_digest_unchecked `{OciClient} sha256_hex pu reg oci_ref media size target bytes what s :
  let d := {| od_media_type := media; od_digest := "/etc/ld.so.preload"; od_size := size; od_annotations := None |} in
  pull_blob reg (pu_client pu) oci_ref d = (bytes, true) →
  ∃ s', stream_and_verify_blob sha256_hex good_pull pu reg oci_ref d (blob_dest (blobs_path target) (od_digest d)) what s
          = (s', Ok ()) ∧ ps_files s' !! "/etc/ld.so.preload" = Some bytes.
Proof.
  intros d Hb. eexists. split.
  - unfold stream_and_verify_blob. cbn [good_pull io_create negb]. rewrite Hb. reflexivity.
  - cbn. by rewrite lookup_insert_eq.
Qed.

(** The failure of the last flush is ignored: the hash covers what was handed over, and what reached the
    disk is stored under the verified name. *)
Lemma lost_flush_stored `{OciClient} sha256_hex pu reg oci_ref d hex bytes part dest what s :
  od_digest d = "sha256:" +:+ hex → pull_blob reg (pu_client pu) oci_ref d = (bytes, true) →
  eq_ignore_ascii_case (sha256_hex bytes) hex = true →
  let io := {| io_mkdir := true; io_create := λ _, true; io_flush := λ _, Some part; io_remove := λ _, true;
               io_rename := λ _, true; io_write := λ _, None |} in
  ∃ s', stream_and_verify_blob sha256_hex io pu reg oci_ref d dest what s = (s', Ok ()) ∧ ps_files s' !! dest = Some part.
Proof.
  intros Hd Hb Hh io. eexists. split.
  - unfold stream_and_verify_blob. cbn [io io_create negb]. rewrite Hb, Hd, strip_prefix_app, Hh. reflexivity.
  - cbn. by rewrite lookup_insert_eq.
Qed.

(** ** A concrete registry *)

Definition toy_sha (s : string) : string := "h" +:+ s.
Definition toy_descriptor (digest : string) : OciDescriptor :=
  {| od_media_type := "blob"; od_digest := digest; od_size := 1; od_annotations := None |}.
Definition app_manifest : OciImageManifest :=
  {| om_config := toy_descriptor "sha256:hc"; om_layers := [toy_descriptor "sha256:hl"]; om_annotations := None |}.
Definition app_blobs : files := <["sha256:hc" := "c"]> {[ "sha256:hl" := "l" ]}.

Definition toy_json : PullJson :=
  {| manifest_text _ := "M"; read_oci_manifest t := if bool_decide (t = "M") then Some app_manifest else None;
     index_text digest _ := "I" +:+ digest; first_digest t := strip_prefix "I" t |}.

Definition app_reference : ImageReference :=
  {| ir_registry := "r.io"; ir_repository := "app"; ir_tag := Some "1"; ir_digest := None |}.
Definition toy_registry : @Registry toy_client := {[ "r.io/app:1" := (app_manifest, app_blobs) ]}.
Definition toy_puller : RegistryPuller :=
  {| pu_client := https_client; pu_auth := anonymous; pu_policy := Skip; pu_progress := false |}.
Definition no_files : pull_state := {| ps_files := ∅; ps_progress := [] |}.

Definition toy_pull : pull_state * result pull_error () * bool :=
  @registry_pull toy_client toy_sig_libs toy_json toy_sha good_pull toy_puller (λ _, None) toy_registry app_reference
    "/s/tmp/m" no_files.

Lemma app_plain m d : @answer toy_client toy_puller toy_registry app_reference = Ok (m, d) → plain_manifest m d.
Proof. intros [= <- <-]. split; [done|]. by repeat constructor. Qed.

Lemma pull_writes_verified_witness : ∃ bytes, ps_files toy_pull.1.1 !! "/s/tmp/m/blobs/sha256/hl" = Some bytes ∧
  eq_ignore_ascii_case (toy_sha bytes) "hl" = true.
Proof.
  destruct (@pull_writes_verified toy_client toy_sig_libs toy_json toy_sha good_pull toy_puller (λ _, None) toy_registry
    app_reference "/s/tmp/m" no_files toy_pull.1.1 toy_pull.1.2 toy_pull.2 ltac:(done) app_plain eq_refl)
    as (_ & _ & Hok).
  destruct (Hok ltac:(vm_compute; reflexivity)) as (m & d & [= <- <-] & _ & Hblobs & _).
  apply (Hblobs (toy_descriptor "sha256:hl")). cbn. set_solver.
Defined.

(** The registry answers a manifest for the digest, and then has no layer for it. *)
Definition broken_registry : @Registry toy_client := {[ "r.io/app:1" := (app_manifest, {[ "sha256:hc" := "c" ]}) ]}.
Definition toy_world : puller_world :=
  {| pw_store := {| st_index := ∅; st_dirs := ∅; st_saved := None; st_max := 100 |};
     pw_files := {[ "/s/images.json" := "[]" ]}; pw_tmp := ∅; pw_pulls := 0 |}.
Definition broken_pull : puller_world * result puller_error OciImage :=
  @pull_and_store list_order toy_client toy_sig_libs toy_json toy_documents toy_sha "/s" ∅ false toy_puller (good_cache 5)
    (λ _, None) toy_registry broken_registry app_reference toy_world.

Lemma failed_pull_leaves_nothing_witness : pw_store broken_pull.1 = pw_store toy_world ∧
  below "/s/tmp/m" (pw_files broken_pull.1) = ∅ ∧ pw_files broken_pull.1 !! "/s/images.json" = Some "[]".
Proof.
  destruct (@failed_pull_leaves_nothing list_order toy_client toy_sig_libs toy_json toy_documents toy_sha "/s" ∅ false
    toy_puller (good_cache 5) (λ _, None) toy_registry broken_registry app_reference toy_world broken_pull.1
    (BlobFailed "layer") "sha256:m") as (Hs & _ & _ & Hb & Hf).
  - done.
  - done.
  - done.
  - intros m d [= <- <-]. split; [done|]. by repeat constructor.
  - vm_compute. reflexivity.
  - done.
  - split_and!; [done|done|]. rewrite Hf; done.
Defined.

(** A layout on disk, pushed and pulled. *)
Definition app_layout : files :=
  <["/img/index.json" := "Isha256:m"]> (<["/img/blobs/sha256/m" := "M"]>
    (<["/img/blobs/sha256/hc" := "c"]> {[ "/img/blobs/sha256/hl" := "l" ]})).
Definition app_pushed : @Registry toy_client * result push_error PushResult :=
  @registry_push toy_client toy_json ∅ https_client anonymous app_reference "/img" app_layout.

Lemma push_then_pull_exact_witness : ∃ s',
  @registry_pull toy_client toy_sig_libs toy_json toy_sha good_pull toy_puller (λ _, None) app_pushed.1 app_reference
    "/s/tmp/m" no_files = (s', Ok (), true) ∧
  ps_files s' !! blob_dest (blobs_path "/s/tmp/m") "sha256:hl" = Some "l".
Proof.
  destruct (@push_then_pull_exact toy_client toy_sig_libs toy_json toy_push_law toy_sha https_client anonymous ∅ app_pushed.1
    {| pp_config_url := ""; pp_manifest_url := ""; pp_manifest_digest := "sha256:m" |} app_reference "/img" app_layout
    "sha256:m" app_manifest {| il_data := "c"; il_media_type := "blob" |} [{| il_data := "l"; il_media_type := "blob" |}]
    toy_puller (λ _, None) "/s/tmp/m" no_files) as (s' & Hp & Hb).
  - vm_compute. reflexivity.
  - intros d [->|[->|?%not_elem_of_nil]%elem_of_cons]%elem_of_cons; [| |done]; (split; [done|]); eexists; (split; [reflexivity|done]).
  - done.
  - apply injective_projections; [done|vm_compute; reflexivity].
  - done.
  - intros m d. by intros [= _ <-].
  - exists s'. split; [exact Hp|]. specialize (Hb (toy_descriptor "sha256:hl")). cbn [toy_descriptor od_digest] in Hb.
    rewrite Hb; [vm_compute; reflexivity|]. apply elem_of_cons. right. by apply list_elem_of_singleton.
Defined.

(** [force_pull] removes what is cached before it asks the registry: when the registry does not answer, the
    image that could be used is gone. *)
Definition cached_app : StoredImage :=
  {| si_reference := "r.io/app:1"; si_digest := "sha256:m"; si_size := 1; si_pulled_at := 0; si_last_used := 0; si_path := "m" |}.
Definition cached_world : puller_world :=
  {| pw_store := {| st_index := {[ "r.io/app:1" := cached_app ]}; st_dirs := {[ "m" := 1%Z ]}; st_saved := None; st_max := 100 |};
     pw_files := {[ "/s/sha256/m/index.json" := "Isha256:m" ]}; pw_tmp := ∅; pw_pulls := 0 |}.

Lemma failed_force_pull_loses_image :
  let '(w, r) := @force_pull list_order toy_client toy_sig_libs toy_json toy_documents toy_sha "/s" ∅ false toy_puller
    (good_cache 5) (λ _, None) ∅ ∅ "r.io/app:1" cached_world in
  r = Err (PPull ManifestFailed) ∧ st_index (pw_store w) = ∅ ∧ pw_files w = ∅.
Proof. vm_compute. done. Qed.

(** A query for a digest matches any stored digest it is a prefix of, and one that matches two images is
    refused. *)
Lemma short_digest_ambiguous :
  let image r d := {| si_reference := r; si_digest := d; si_size := 1; si_pulled_at := 0; si_last_used := 0; si_path := d |} in
  let st := {| st_index := <["a:1" := image "a:1" "sha256:ab1"]> {[ "b:1" := image "b:1" "sha256:ab2" ]};
               st_dirs := ∅; st_saved := None; st_max := 100 |} in
  (@cached_digest_image list_order (good_cache 5) "sha256:ab" st).2 = Err (Ambiguous "sha256:ab" ["a:1"; "b:1"]).
Proof. vm_compute. reflexivity. Qed.

(** For an image of several platforms the first request answers the digest of the index, under which the
    image is stored, and the pull that of the platform's manifest, which the layout names and the result
    reports: by that digest the image is not found. *)
Definition index_client : OciClient :=
  {| Registry := @Registry toy_client; reference_ok := @reference_ok toy_client;
     pull_manifest reg _ r _ := (λ _, "sha256:i") <$> reg !! r;
     pull_image_manifest := @pull_image_manifest toy_client; pull_blob := @pull_blob toy_client;
     push_image := @push_image toy_client |}.

Lemma reported_digest_not_cached :
  let w := (@pull_and_store list_order index_client toy_sig_libs toy_json toy_documents toy_sha "/s" ∅ false toy_puller
    (good_cache 5) (λ _, None) toy_registry toy_registry app_reference toy_world).1 in
  si_digest <$> st_index (pw_store w) !! "r.io/app:1" = Some "sha256:i" ∧
  pw_files w !! "/s/sha256/i/index.json" = Some "Isha256:m" ∧
  (@is_cached list_order (good_cache 6) "sha256:m" (pw_store w)).2 = false ∧
  (@is_cached list_order (good_cache 6) "sha256:i" (pw_store w)).2 = true.
Proof. vm_compute. done. Qed.
