(* ===== verification/AttestChannel.v ===== *)
(** * AttestChannel: secrets and sealed data over the attested channel

    The server of the guest ([guest/init/src/attest_server/]) and its clients on the host
    ([runtime/src/grpc/attestation.rs]).  A client opens a TLS connection, which is accepted by the
    verifier of Ratls.v, sends one frame and reads one.  The guest stores secrets, seals and unseals
    with keys derived from its report, and forwards messages to the agent.  A connection is the bytes
    that arrive; JSON, base64 and the texts of errors are the class [AttestDocs], sealing is
    Sealed.v's class of ciphers, and a panic of the server is the absence of an answer. *)

From Stdlib Require Import ZArith Lia Ascii.
From stdpp Require Import base gmap strings list numbers.
From S2P Require Import Prelude RustStr Pty Image Signing Attestation Ratls Sealed.

Local Open Scope string_scope.
Local Open Scope list_scope.
Local Open Scope Z_scope.

(** ** Frames *)

Definition DATA_FRAME : Z := 0x01.
Definition ERROR_FRAME : Z := 0x04.

(** The bytes of a frame; both sides write it the same way. *)
Definition tls_frame (frame_type : Z) (payload : list Z) : list Z :=
  [frame_type] ++ to_be_bytes (wrap 32 (Z.of_nat (length payload))) ++ payload.

(** [read_frame] of the guest, on a connection that ends after the bytes. *)
Definition guest_read_frame (bytes : list Z) : result io_error (option (Z * list Z)) :=
  match bytes with
  | ty :: b1 :: b2 :: b3 :: b4 :: rest =>
      let len := Z.to_nat (from_be_bytes b1 b2 b3 b4) in
      if (length rest <? len)%nat then Err UnexpectedEof else Ok (Some (ty, take len rest))
  | _ => Ok None
  end.

(** [read_tls_frame] of the host: a peer that closes without an answer gives an empty data frame. *)
Definition read_tls_frame (bytes : list Z) : result io_error (Z * list Z) :=
  match guest_read_frame bytes with
  | Ok (Some f) => Ok f
  | Ok None => Ok (DATA_FRAME, [])
  | Err e => Err e
  end.

(** ** Messages *)

Inductive AttestRoute := Status | Secrets | SealRoute | UnsealRoute | Process.
Record SecretEntry := { se_name : string; se_value : string; se_set_env : bool }.
Record ProcessRequest := { pq_session : string; pq_content : string; pq_type : string }.

Inductive guest_error :=
  | ExpectedData | BadRequestJson | BadSecrets | SecretsDirFailed | BadSealPayload | BadData64 | BadUnsealPayload | BadBlob64
  | ShortReport | GuestHkdf | NoNonce | NoKey | EncryptFailed | ShortBlob | IdentityMismatch | BadProcessPayload.

(** Members with a default are optional here; [cannot_write] is the text for a secret that cannot be
    written, with the reason. *)
Class AttestDocs := {
  Value : Type;
  null_value : Value;
  request_to : AttestRoute → Value → list Z;
  request_from : list Z → option (AttestRoute * Value);
  secrets_to : list SecretEntry → Value;
  secrets_from : Value → option (list (string * string * option bool));
  seal_to : string → string → string → Value;
  seal_from : Value → option (string * string * option string);
  unseal_to : string → string → string → Value;
  unseal_from : Value → option (string * string * option string);
  process_from : Value → option (string * string * option string);
  injected_to : nat → list string → list Z;
  injected_from : list Z → option (nat * list string);
  sealed_to : string → string → string → list Z;
  sealed_from : list Z → option (string * string * string);
  unsealed_to : string → list Z;
  unsealed_from : list Z → option string;
  processed_to : string → string → bool → option string → list Z;
  agent_request : ProcessRequest → string;
  agent_content : string → option (option string);
  lossy : list Z → string;
  b64_of : list Z → string;
  b64_to : string → option (list Z);
  error_text : guest_error → string }.

(** ** Secrets *)

Definition SECRETS_DIR : string := "/run/secrets".
Definition NUL : ascii := "000"%char.

(** [char::is_alphanumeric], of a character in its encoding. *)
Section secrets.
Context (is_alphanumeric : string → bool).

Definition secret_char (c : string) : bool := is_alphanumeric c || bool_decide (c ∈ ["_"; "-"; "."]).

Definition is_valid_secret_name (name : string) : bool :=
  negb (is_empty name) && (String.length name <=? 256)%nat && negb (has_char "/" name) && negb (has_char NUL name)
  && negb (starts_with "." name) && forallb secret_char (chars name).

(** The files of [/run/secrets] with their modes, and the environment of the init process. *)
Record guest := { g_files : gmap string (string * Z); g_env : gmap string string }.

(** A write that fails leaves a file or not, with the text of the error; a failed [chmod] is ignored. *)
Record secret_io := { si_mkdir : bool; si_write : string → option (option string * string); si_chmod : string → bool }.
Definition good_secrets : secret_io := {| si_mkdir := true; si_write := λ _, None; si_chmod := λ _, true |}.

(** The modes 0644 and 0400. *)
Definition MODE_NEW : Z := 420.
Definition MODE_SECRET : Z := 256.
Definition file_mode (g : guest) (name : string) : Z := from_option snd MODE_NEW (g_files g !! name).
Definition put_secret (g : guest) (name value : string) (mode : Z) : guest :=
  {| g_files := <[name := (value, mode)]> (g_files g); g_env := g_env g |}.

(** [std::env::set_var] panics on such names and values. *)
Definition set_var_panics (name value : string) : bool :=
  is_empty name || has_char "=" name || has_char NUL name || has_char NUL value.

(** The guest, what was injected and the errors; the last part tells that the loop goes on. *)
Definition inject_one (io : secret_io) (st : guest * nat * list string) (e : SecretEntry)
    : guest * nat * list string * bool :=
  let '(g, injected, errors) := st in
  if negb (is_valid_secret_name (se_name e)) then (g, injected, errors ++ ["Invalid secret name: " +:+ se_name e], true)
  else match si_write io (se_name e) with
       | Some (part, why) =>
           let g := match part with Some text => put_secret g (se_name e) text (file_mode g (se_name e)) | None => g end in
           (g, injected, errors ++ ["Failed to write " +:+ se_name e +:+ ": " +:+ why], true)
       | None =>
           let mode := if si_chmod io (se_name e) then MODE_SECRET else file_mode g (se_name e) in
           let g := put_secret g (se_name e) (se_value e) mode in
           if negb (se_set_env e) then (g, S injected, errors, true)
           else if set_var_panics (se_name e) (se_value e) then (g, injected, errors, false)
           else ({| g_files := g_files g; g_env := <[se_name e := se_value e]> (g_env g) |}, S injected, errors, true)
       end.

Fixpoint inject_all (io : secret_io) (st : guest * nat * list string) (l : list SecretEntry) : guest * option (nat * list string) :=
  match l with
  | [] => (st.1.1, Some (st.1.2, st.2))
  | e :: l =>
      match inject_one io st e with
      | (st, true) => inject_all io st l
      | (st, false) => (st.1.1, None)
      end
  end.
End secrets.

(** ** Sealing *)

(** A policy that is no name of one is the strictest. *)
Definition policy_named (name : string) : SealingPolicy :=
  if bool_decide (name = "MeasurementOnly") then MeasurementOnly
  else if bool_decide (name = "ChipOnly") then ChipOnly
  else MeasurementAndChip.
Definition policy_name (p : SealingPolicy) : string :=
  match p with MeasurementAndChip => "MeasurementAndChip" | MeasurementOnly => "MeasurementOnly" | ChipOnly => "ChipOnly" end.
Definition DEFAULT_SEAL_POLICY : string := "MeasurementAndChip".

Section guest_server.
Context `{SealCrypto} `{AttestDocs} (is_alphanumeric : string → bool).

Definition derive_guest_sealing_key (report : list Z) (context policy : string) : result guest_error (list Z) :=
  if (length report <? 0x1E0)%nat then Err ShortReport
  else
    let measurement := slice 0x90 0xC0 report in
    let chip_id := slice 0x1A0 0x1E0 report in
    let ikm :=
      if bool_decide (policy = "MeasurementAndChip") then measurement ++ chip_id
      else if bool_decide (policy = "MeasurementOnly") then measurement
      else if bool_decide (policy = "ChipOnly") then chip_id
      else measurement ++ chip_id in
    ok_or GuestHkdf (hkdf_sha256 HKDF_SALT ikm (as_bytes context)).

Definition handle_seal_request (rng : option (list Z)) (report : list Z) (payload : Value) : result guest_error (list Z) :=
  '(data, context, policy) ← ok_or BadSealPayload (seal_from payload);
  let policy := default DEFAULT_SEAL_POLICY policy in
  plaintext ← ok_or BadData64 (b64_to data);
  key ← derive_guest_sealing_key report context policy;
  nonce_bytes ← ok_or NoNonce rng;
  unbound_key ← ok_or NoKey (aes_key key);
  in_out ← ok_or EncryptFailed (gcm_seal unbound_key nonce_bytes (as_bytes context) plaintext);
  Ok (sealed_to (b64_of (nonce_bytes ++ in_out)) policy context).

Definition handle_unseal_request (report : list Z) (payload : Value) : result guest_error (list Z) :=
  '(blob64, context, policy) ← ok_or BadUnsealPayload (unseal_from payload);
  let policy := default DEFAULT_SEAL_POLICY policy in
  blob ← ok_or BadBlob64 (b64_to blob64);
  if (length blob <? NONCE_LEN + TAG_LEN)%nat then Err ShortBlob
  else
    key ← derive_guest_sealing_key report context policy;
    unbound_key ← ok_or NoKey (aes_key key);
    plaintext ← ok_or IdentityMismatch (gcm_open unbound_key (take NONCE_LEN blob) (as_bytes context) (drop NONCE_LEN blob));
    Ok (unsealed_to (b64_of plaintext)).

(** ** Messages to the agent *)

Definition crlf : string := String "013" (String "010" "").
Definition http_request (body : string) : string :=
  "POST /process HTTP/1.1" +:+ crlf +:+ "Host: localhost" +:+ crlf +:+ "Content-Type: application/json" +:+ crlf
  +:+ "Content-Length: " +:+ show_uint (Z.of_nat (String.length body)) +:+ crlf +:+ "Connection: close" +:+ crlf +:+ crlf.

(** [agent]: what comes back for the text that was sent, or the text of an error.  The reason a library gives
    for a body it cannot read is left out of the text. *)
Definition forward_to_agent (agent : string → result string (list Z)) (req : ProcessRequest) : result string string :=
  let payload := agent_request req in
  response ← agent (http_request payload +:+ payload);
  let text := lossy response in
  let body := match find_str (crlf +:+ crlf) text with Some pos => drop_bytes (pos + 4) text | None => text end in
  match agent_content body with
  | None => Err "Invalid agent response JSON"
  | Some None => Err "Agent response missing 'content' field"
  | Some (Some content) => Ok content
  end.

(** The type and the payload of the answering frame. *)
Definition handle_process_request (agent : string → result string (list Z)) (payload : Value) : Z * list Z :=
  match process_from payload with
  | None => (ERROR_FRAME, as_bytes (error_text BadProcessPayload))
  | Some (session, content, type) =>
      match forward_to_agent agent {| pq_session := session; pq_content := content; pq_type := default "process_message" type |} with
      | Ok answer => (DATA_FRAME, processed_to session answer true None)
      | Err e => (ERROR_FRAME, as_bytes (lossy (processed_to session "" false (Some e))))
      end
  end.

(** ** A connection *)

Definition status_text : string :=
  let q s := String "034" (s +:+ String "034" "") in "{" +:+ q "status" +:+ ":" +:+ q "ok" +:+ "," +:+ q "tee" +:+ ":true}".

Definition with_set_env (l : list (string * string * option bool)) : list SecretEntry :=
  map (λ '(name, value, set_env), {| se_name := name; se_value := value; se_set_env := default true set_env |}) l.

Definition handle_secret_injection (io : secret_io) (payload : Value) (g : guest) : guest * option (Z * list Z) :=
  match secrets_from payload with
  | None => (g, Some (ERROR_FRAME, as_bytes (error_text BadSecrets)))
  | Some l =>
      if negb (si_mkdir io) then (g, Some (ERROR_FRAME, as_bytes (error_text SecretsDirFailed)))
      else match inject_all is_alphanumeric io (g, O, []) (with_set_env l) with
           | (g, Some (injected, errors)) => (g, Some (DATA_FRAME, injected_to injected errors))
           | (g, None) => (g, None)
           end
  end.

Definition reply (r : result guest_error (list Z)) : Z * list Z :=
  match r with Ok body => (DATA_FRAME, body) | Err e => (ERROR_FRAME, as_bytes (error_text e)) end.

(** What happens around the server during one connection. *)
Record guest_world := { gw_report : list Z; gw_rng : option (list Z); gw_io : secret_io; gw_agent : string → result string (list Z) }.

(** The guest after a connection, and the frame it answers with, if any. *)
Definition handle_tls_connection (w : guest_world) (bytes : list Z) (g : guest) : guest * option (Z * list Z) :=
  match guest_read_frame bytes with
  | Ok (Some (ty, payload)) =>
      if negb (ty =? DATA_FRAME) then (g, Some (reply (Err ExpectedData)))
      else match request_from payload with
           | None => (g, Some (reply (Err BadRequestJson)))
           | Some (Secrets, value) => handle_secret_injection (gw_io w) value g
           | Some (SealRoute, value) => (g, Some (reply (handle_seal_request (gw_rng w) (gw_report w) value)))
           | Some (UnsealRoute, value) => (g, Some (reply (handle_unseal_request (gw_report w) value)))
           | Some (Process, value) => (g, Some (handle_process_request (gw_agent w) value))
           | Some (Status, value) => (g, Some (DATA_FRAME, as_bytes status_text))
           end
  | _ => (g, None)
  end.

Definition answer_bytes (f : option (Z * list Z)) : list Z := from_option (λ '(ty, payload), tls_frame ty payload) [] f.
End guest_server.

(** ** Clients on the host *)

Inductive host_error :=
  | HandshakeFailed (e : ratls_err) | FrameFailed (e : io_error) | GuestRefused (message : list Z) | BadAnswer | BadPlaintext64
  | NoCertificate | ReportExtraction (e : ratls_err) | Reverification (e : attest_err).

(** The other end of a connection: the certificate it shows, and the bytes it answers with. *)
Record peer := { pe_cert : list Z; pe_answers : list Z → list Z }.

Section clients.
Context `{RaTlsDeps} `{AttestDocs} (now : Z).

(** The handshake, which is the verifier's decision. *)
Definition connect_ratls (policy : AttestationPolicy) (allow_simulated : bool) (p : peer) : result host_error () :=
  map_err HandshakeFailed (verify_server_cert now policy allow_simulated (pe_cert p)).

(** One request and its answer; the first part is what was sent. *)
Definition exchange (policy : AttestationPolicy) (allow_simulated : bool) (p : peer) (route : AttestRoute) (value : Value)
    : option (list Z) * result host_error (Z * list Z) :=
  match connect_ratls policy allow_simulated p with
  | Err e => (None, Err e)
  | Ok _ =>
      let sent := tls_frame DATA_FRAME (request_to route value) in
      (Some sent, map_err FrameFailed (read_tls_frame (pe_answers p sent)))
  end.

(** The body of an answer that is not an error. *)
Definition answer_body (r : result host_error (Z * list Z)) : result host_error (list Z) :=
  '(ty, data) ← r; if ty =? ERROR_FRAME then Err (GuestRefused data) else Ok data.

Definition host_inject (policy : AttestationPolicy) (allow_simulated : bool) (p : peer) (secrets : list SecretEntry)
    : option (list Z) * result host_error (nat * list string) :=
  match secrets with
  | [] => (None, Ok (O, []))
  | _ =>
      let '(sent, r) := exchange policy allow_simulated p Secrets (secrets_to secrets) in
      (sent, data ← answer_body r; ok_or BadAnswer (injected_from data))
  end.

(** The blob in base64, the policy and the context. *)
Definition host_seal (policy : AttestationPolicy) (allow_simulated : bool) (p : peer) (data : list Z) (context seal_policy : string)
    : option (list Z) * result host_error (string * string * string) :=
  let '(sent, r) := exchange policy allow_simulated p SealRoute (seal_to (b64_of data) context seal_policy) in
  (sent, body ← answer_body r; ok_or BadAnswer (sealed_from body)).

Definition host_unseal (policy : AttestationPolicy) (allow_simulated : bool) (p : peer) (blob context seal_policy : string)
    : option (list Z) * result host_error (list Z) :=
  let '(sent, r) := exchange policy allow_simulated p UnsealRoute (unseal_to blob context seal_policy) in
  (sent, body ← answer_body r; data ← ok_or BadAnswer (unsealed_from body); ok_or BadPlaintext64 (b64_to data)).

(** [verify]: after the handshake the report of the certificate is verified once more, against its own
    report data and the default policy.  [shown]: the library gives the certificate of the peer. *)
Definition handshake_only : VerificationResult :=
  {| vr_verified := true; vr_platform := default_platform; vr_policy_result := {| passed := true; violations := [] |};
     vr_signature_valid := true; vr_cert_chain_valid := true; vr_nonce_valid := true; vr_report_age_valid := true; vr_failures := [] |}.

Definition host_verify (policy : AttestationPolicy) (allow_simulated : bool) (shown : bool) (p : peer)
    : option (list Z) * result host_error VerificationResult :=
  let '(sent, r) := exchange policy allow_simulated p Status null_value in
  (sent, _ ← r;
   if shown then
     report ← map_err ReportExtraction (extract_report_from_cert (pe_cert p));
     let nonce := if (0x90 <=? length (ar_report report))%nat then slice 0x50 0x90 (ar_report report) else [] in
     map_err Reverification (verify_attestation now report nonce default_policy allow_simulated)
   else Ok handshake_only).

Definition fetch_report (allow_simulated shown : bool) (p : peer) : option (list Z) * result host_error AttestationReport :=
  let '(sent, r) := exchange default_policy allow_simulated p Status null_value in
  (sent, _ ← r; if shown then map_err ReportExtraction (extract_report_from_cert (pe_cert p)) else Err NoCertificate).
End clients.

(** ** The certificate of the guest *)

Definition SNP_USER_DATA_SIZE : nat := 64.

(** [guest/init]'s copy of the simulated report *)
Definition guest_simulated_report (report_data : list Z) : list Z :=
  let report := replicate 1184 0 in
  let report := copy_at 0x00 (to_le_bytes 4 0xA3) report in
  let report := copy_at 0x04 (to_le_bytes 4 1) report in
  let report := copy_at 0x08 (to_le_bytes 8 0) report in
  let report := <[0x38%nat := 3]> report in
  let report := <[0x39%nat := 0]> report in
  let report := <[0x3E%nat := 8]> report in
  let report := <[0x3F%nat := 115]> report in
  let report := copy_at 0x50 report_data report in
  let report := foldl (λ r i, <[(0x90 + i)%nat := wrap 8 (wrap 8 (Z.of_nat i) * 0xA3)]> r) report (seq 0 48) in
  foldl (λ r i, <[i := 0xA3]> r) report (seq 0x1A0 64).

Definition is_simulate_mode (env : string → option string) : bool :=
  match env "A3S_TEE_SIMULATE" with
  | Some v => bool_decide (v = "1") || eq_ignore_ascii_case v "true"
  | None => false
  end.

(** [report_data]: the hash of the key, filled up with zeros. *)
Definition key_report_data (hash : list Z) : list Z :=
  let n := (length hash `min` SNP_USER_DATA_SIZE)%nat in take n hash ++ replicate (SNP_USER_DATA_SIZE - n) 0.

Section certificate.
Context {KeyPair : Type} (public_key_der : KeyPair → list Z) (self_signed : KeyPair → list (string * list Z) → option (list Z)).
Context (sha256_of : list Z → list Z) (chain_json : CertificateChain → list Z).

(** The certificate and the report; [hardware]: the answer of the SEV device, or the text of an error. *)
Definition generate_ratls_config (env : string → option string) (hardware : list Z → result string (list Z * CertificateChain))
    (key_pair : option KeyPair) : result string (list Z * list Z) :=
  key ← ok_or "Failed to generate key pair" key_pair;
  let report_data := key_report_data (sha256_of (public_key_der key)) in
  '(report, chain) ← (if is_simulate_mode env then Ok (guest_simulated_report report_data, as_bytes "{}")
                      else '(r, c) ← hardware report_data; Ok (r, chain_json c));
  cert ← ok_or "Failed to generate RA-TLS certificate" (self_signed key [(OID_SNP_REPORT, report); (OID_CERT_CHAIN, chain)]);
  Ok (cert, report).
End certificate.

(** ** The certificates of the SEV device *)

Definition hex_val (c : Z) : Z :=
  if (48 <=? c) && (c <=? 57) then c - 48
  else if (97 <=? c) && (c <=? 102) then c - 97 + 10
  else if (65 <=? c) && (c <=? 70) then c - 65 + 10
  else 0.

(** The bytes of a GUID in the order of the device: the first three fields reversed. *)
Definition guid_bytes (uuid : string) : list Z :=
  let hex := map hex_val (List.filter (λ b, negb (b =? 45)) (as_bytes uuid)) in
  let byte i := Z.lor (wrap 8 (Z.shiftl (nth i hex 0) 4)) (nth (i + 1) hex 0) in
  map byte [6; 4; 2; 0; 10; 8; 14; 12; 16; 18; 20; 22; 24; 26; 28; 30]%nat.

Definition VCEK_GUID : list Z := guid_bytes "63da758d-e664-4564-adc5-f4b93be8accd".
Definition ASK_GUID : list Z := guid_bytes "4ab7b379-bbac-4fe4-a02f-05aef327c782".
Definition ARK_GUID : list Z := guid_bytes "c0b406a4-a803-4952-9743-3fb6014cd0ae".

(** [None]: a slice past the end of the buffer panics. *)
Definition slice_of (a b : nat) (l : list Z) : option (list Z) := if (b <=? length l)%nat then Some (slice a b l) else None.

Fixpoint cert_entries (fuel pos len : nat) (buf : list Z) (chain : CertificateChain) : option CertificateChain :=
  match fuel with
  | O => Some chain
  | S fuel =>
      if (len <? pos + 24)%nat then Some chain
      else
        entry ← slice_of pos (pos + 24) buf;
        let guid := take 16 entry in
        if forallb (λ b, b =? 0) guid then Some chain
        else
          let offset := Z.to_nat (from_le_bytes (slice 16 20 entry)) in
          let cert_len := Z.to_nat (from_le_bytes (slice 20 24 entry)) in
          chain ← (if (offset + cert_len <=? len)%nat then
                     cert ← slice_of offset (offset + cert_len) buf;
                     Some (if bool_decide (guid = VCEK_GUID) then {| c_vcek := cert; c_ask := c_ask chain; c_ark := c_ark chain |}
                           else if bool_decide (guid = ASK_GUID) then {| c_vcek := c_vcek chain; c_ask := cert; c_ark := c_ark chain |}
                           else if bool_decide (guid = ARK_GUID) then {| c_vcek := c_vcek chain; c_ask := c_ask chain; c_ark := cert |}
                           else chain)
                   else Some chain);
          cert_entries fuel (pos + 24) len buf chain
  end.

(** Every entry takes 24 bytes: the length of the table is enough fuel. *)
Definition parse_cert_table (buf : list Z) (len : nat) : option CertificateChain := cert_entries (S len) 0 len buf empty_chain.

(** [get_snp_report]: the extended report, or else the plain one; [ext] and [plain] are what the two calls
    answer. *)
Definition get_snp_report (device : bool) (ext : option (list Z * list Z * nat)) (plain : option (list Z))
    : option (result () (list Z * CertificateChain)) :=
  if negb device then Some (Err ())
  else match ext with
       | Some (report, certs, certs_len) => (λ chain, Ok (report, chain)) <$> parse_cert_table certs certs_len
       | None => Some (match plain with Some report => Ok (report, empty_chain) | None => Err () end)
       end.

(** ** The two ends agree *)

Class AttestDocsLaws `{AttestDocs} : Prop := {
  request_roundtrip r v : request_from (request_to r v) = Some (r, v);
  secrets_roundtrip l : secrets_from (secrets_to l) = Some (map (λ e, (se_name e, se_value e, Some (se_set_env e))) l);
  seal_roundtrip a b c : seal_from (seal_to a b c) = Some (a, b, Some c);
  unseal_roundtrip a b c : unseal_from (unseal_to a b c) = Some (a, b, Some c);
  injected_roundtrip n l : injected_from (injected_to n l) = Some (n, l);
  sealed_roundtrip a b c : sealed_from (sealed_to a b c) = Some (a, b, c);
  unsealed_roundtrip a : unsealed_from (unsealed_to a) = Some a;
  b64_bytes_roundtrip l : b64_to (b64_of l) = Some l }.

(** A payload whose length fits the header *)
Definition fits (payload : list Z) : Prop := Z.of_nat (length payload) < 2 ^ 32.

Lemma guest_reads_frame ty payload : fits payload → guest_read_frame (tls_frame ty payload) = Ok (Some (ty, payload)).
Proof.
  intros Hf. unfold tls_frame. set (n := Z.of_nat (length payload)).
  assert (in_range 32 n) as Hr by (unfold in_range, n, fits in *; lia).
  rewrite (wrap_small 32 n Hr). pose proof (be_bytes_roundtrip n Hr) as Hb.
  unfold to_be_bytes in *. cbn [app guest_read_frame]. rewrite Hb. unfold n. rewrite Nat2Z.id, Nat.ltb_irrefl.
  by rewrite take_ge.
Qed.

Lemma host_reads_frame ty payload : fits payload → read_tls_frame (tls_frame ty payload) = Ok (ty, payload).
Proof. intros Hf. unfold read_tls_frame. by rewrite guest_reads_frame. Qed.

(** The guest's errors for those of the sealing library *)
Definition guest_seal_error (e : seal_err) : guest_error :=
  match e with
  | IdentityTooShort => ShortReport | HkdfFailed => GuestHkdf | NonceFailed => NoNonce | BadKey => NoKey
  | SealFailed => EncryptFailed | BlobTooShort => ShortBlob | _ => IdentityMismatch
  end.

Section agreement.
Context `{SealCryptoLaws} `{AttestDocsLaws}.

Lemma policy_named_name p : policy_named (policy_name p) = p.
Proof. by destruct p. Qed.

(** The guest derives the key of the host's library, for every name of a policy. *)
Lemma guest_key_is_host_key report context name :
  derive_guest_sealing_key report context name =
  map_err guest_seal_error (derive_sealing_key report context (policy_named name)).
Proof.
  unfold derive_guest_sealing_key, derive_sealing_key. destruct (length report <? 0x1E0)%nat; [done|].
  unfold policy_named, key_material, measurement_of, chip_id_of.
  repeat case_bool_decide; subst; try done; by destruct (hkdf_sha256 _ _ _).
Qed.

(** What the guest seals and unseals is what the library does with the guest's report. *)
Lemma guest_seal_spec rng report data context name :
  handle_seal_request rng report (seal_to (b64_of data) context name) =
  match seal rng report data context (policy_named name) with
  | Ok sd => Ok (sealed_to (b64_of (sd_blob sd)) name context)
  | Err e => Err (guest_seal_error e)
  end.
Proof.
  unfold handle_seal_request, seal. rewrite seal_roundtrip. cbn [ok_or mbind result_bind default].
  rewrite b64_bytes_roundtrip, guest_key_is_host_key. cbn [ok_or mbind result_bind].
  destruct (derive_sealing_key _ _ _) as [key|]; [|done]. cbn [map_err mbind result_bind].
  destruct rng as [nonce|]; [|done]. cbn [ok_or mbind result_bind]. destruct (aes_key key) as [k|]; [|done].
  cbn [ok_or mbind result_bind]. by destruct (gcm_seal _ _ _ _).
Qed.

Lemma guest_unseal_spec report blob context name :
  handle_unseal_request report (unseal_to (b64_of blob) context name) =
  match unseal report {| sd_policy := policy_named name; sd_context := context; sd_blob := blob |} with
  | Ok data => Ok (unsealed_to (b64_of data))
  | Err e => Err (guest_seal_error e)
  end.
Proof.
  unfold handle_unseal_request, unseal. rewrite unseal_roundtrip. cbn [ok_or mbind result_bind default sd_blob sd_context sd_policy].
  rewrite b64_bytes_roundtrip. cbn [ok_or mbind result_bind]. destruct (length blob <? _)%nat; [done|].
  rewrite guest_key_is_host_key. destruct (derive_sealing_key _ _ _) as [key|]; [|done]. cbn [map_err mbind result_bind].
  destruct (aes_key key) as [k|]; [|done]. cbn [ok_or mbind result_bind]. by destruct (gcm_open _ _ _ _).
Qed.
End agreement.

(** ** A guest at the other end *)

Section channel.
Context `{SealCryptoLaws} `{AttestDocsLaws} `{RaTlsDeps} (is_alphanumeric : string → bool).

Definition guest_peer (cert : list Z) (w : guest_world) (g : guest) : peer :=
  {| pe_cert := cert; pe_answers bytes := answer_bytes (handle_tls_connection is_alphanumeric w bytes g).2 |}.

Definition trusts (now : Z) (policy : AttestationPolicy) (allow : bool) (p : peer) : Prop :=
  verify_server_cert now policy allow (pe_cert p) = Ok ().

Lemma answer_body_data body : answer_body (Ok (DATA_FRAME, body)) = Ok body.
Proof. done. Qed.

(** An exchange with a guest that answers. *)
Lemma exchange_guest now policy allow cert w g route value ty body : trusts now policy allow (guest_peer cert w g) →
  fits (request_to route value) → fits body →
  (handle_tls_connection is_alphanumeric w (tls_frame DATA_FRAME (request_to route value)) g).2 = Some (ty, body) →
  (exchange now policy allow (guest_peer cert w g) route value).2 = Ok (ty, body).
Proof.
  intros Ht Hr Hb Ha. unfold exchange, connect_ratls. rewrite Ht. cbn [map_err snd].
  cbn [guest_peer pe_answers]. rewrite Ha. cbn [answer_bytes from_option]. by rewrite host_reads_frame.
Qed.

Lemma guest_handles w g route value : fits (request_to route value) →
  (handle_tls_connection is_alphanumeric w (tls_frame DATA_FRAME (request_to route value)) g) =
  match route with
  | Secrets => handle_secret_injection is_alphanumeric (gw_io w) value g
  | SealRoute => (g, Some (reply (handle_seal_request (gw_rng w) (gw_report w) value)))
  | UnsealRoute => (g, Some (reply (handle_unseal_request (gw_report w) value)))
  | Process => (g, Some (handle_process_request (gw_agent w) value))
  | Status => (g, Some (DATA_FRAME, as_bytes status_text))
  end.
Proof.
  intros Hf. unfold handle_tls_connection. rewrite guest_reads_frame by done. cbn [Z.eqb negb DATA_FRAME].
  rewrite request_roundtrip. by destruct route.
Qed.

(** C27: Data sealed through the channel is the data the host's sealing library would seal for the guest's
    platform, and comes back: when a client seals data in a guest, with a nonce of the right length and
    messages that fit their frames, the answer names the policy and the context that were asked for, the
    library opens the blob with the guest's report, and every guest of the same identity, under the policy,
    whose certificate the client trusts, unseals it to the data. *)
Theorem sealed_over_channel now policy allow cert w g data context name nonce sealed
  (Htrust : trusts now policy allow (guest_peer cert w g))
  (Hnonce : gw_rng w = Some nonce) (Hlen : length nonce = NONCE_LEN) (Hreport : (0x1E0 ≤ length (gw_report w))%nat)
  (Hseal : seal (Some nonce) (gw_report w) data context (policy_named name) = Ok sealed)
  (Hreq : fits (request_to SealRoute (seal_to (b64_of data) context name)))
  (Hans : fits (sealed_to (b64_of (sd_blob sealed)) name context)) :
  (host_seal now policy allow (guest_peer cert w g) data context name).2 = Ok (b64_of (sd_blob sealed), name, context) ∧
  unseal (gw_report w) sealed = Ok data ∧
  ∀ policy' allow' cert' w' g', trusts now policy' allow' (guest_peer cert' w' g') →
    (0x1E0 ≤ length (gw_report w'))%nat → same_identity (policy_named name) (gw_report w) (gw_report w') →
    fits (request_to UnsealRoute (unseal_to (b64_of (sd_blob sealed)) context name)) → fits (unsealed_to (b64_of data)) →
    (host_unseal now policy' allow' (guest_peer cert' w' g') (b64_of (sd_blob sealed)) context name).2 = Ok data.
Proof.
  assert (∀ r', (0x1E0 ≤ length r')%nat → same_identity (policy_named name) (gw_report w) r' → unseal r' sealed = Ok data) as Hopen.
  { intros r' Hr' Hid. by eapply unseal_of_seal. }
  split_and!.
  - unfold host_seal. set (value := seal_to _ _ _) in *.
    assert ((exchange now policy allow (guest_peer cert w g) SealRoute value).2 =
      Ok (DATA_FRAME, sealed_to (b64_of (sd_blob sealed)) name context)) as He.
    { apply exchange_guest; [done..|]. rewrite guest_handles by done. cbn [snd]. subst value.
      by rewrite Hnonce, guest_seal_spec, Hseal. }
    destruct (exchange _ _ _ _ _ _) as [sent r]. cbn [snd] in He |- *. subst r.
    rewrite answer_body_data. cbn [mbind result_bind]. by rewrite sealed_roundtrip.
  - apply Hopen; [done|]. by split.
  - intros policy' allow' cert' w' g' Ht Hr' Hid Hreq' Hans'. unfold host_unseal. set (value := unseal_to _ _ _) in *.
    assert ((exchange now policy' allow' (guest_peer cert' w' g') UnsealRoute value).2 =
      Ok (DATA_FRAME, unsealed_to (b64_of data))) as He.
    { apply exchange_guest; [done..|]. rewrite guest_handles by done. cbn [snd]. subst value. rewrite guest_unseal_spec.
      destruct (seal_inv _ _ _ _ _ _ Hseal) as (n & key & k & c & _ & _ & _ & _ & Esd).
      replace {| sd_policy := policy_named name; sd_context := context; sd_blob := sd_blob sealed |} with sealed by by subst sealed.
      by rewrite Hopen. }
    destruct (exchange _ _ _ _ _ _) as [sent r]. cbn [snd] in He |- *. subst r.
    rewrite answer_body_data. cbn [mbind result_bind]. rewrite unsealed_roundtrip.
    cbn [ok_or mbind result_bind]. by rewrite b64_bytes_roundtrip.
Qed.

(** Whatever a client sends, it sends after the certificate satisfied the policy it was given. *)
Lemma nothing_sent_unverified now policy allow p :
  (∀ secrets, is_Some (host_inject now policy allow p secrets).1 → trusts now policy allow p) ∧
  (∀ data context name, is_Some (host_seal now policy allow p data context name).1 → trusts now policy allow p) ∧
  (∀ blob context name, is_Some (host_unseal now policy allow p blob context name).1 → trusts now policy allow p).
Proof.
  assert (∀ route value sent r, exchange now policy allow p route value = (sent, r) → is_Some sent → trusts now policy allow p) as He.
  { intros route value sent r. unfold exchange, connect_ratls, trusts. destruct (verify_server_cert _ _ _ _) as [[]|e]; [done|].
    by intros [= <- _] [? [=]]. }
  split_and!.
  - intros [|s secrets]; [by intros [? [=]]|]. unfold host_inject. destruct (exchange _ _ _ _ _ _) eqn:E. by eapply He.
  - intros data context name. unfold host_seal. destruct (exchange _ _ _ _ _ _) eqn:E. by eapply He.
  - intros blob context name. unfold host_unseal. destruct (exchange _ _ _ _ _ _) eqn:E. by eapply He.
Qed.

(** The result of [verify] does not depend on the policy it was called with, once the handshake is over. *)
Lemma verify_reports_default_policy now policy policy' allow shown p :
  trusts now policy allow p → trusts now policy' allow p →
  host_verify now policy allow shown p = host_verify now policy' allow shown p.
Proof. unfold trusts, host_verify, exchange, connect_ratls. by intros -> ->. Qed.

(** An answer that never comes is an empty data frame: to [verify] and [fetch_report] it is a success. *)
Lemma silent_peer_verified now policy allow cert :
  trusts now policy allow {| pe_cert := cert; pe_answers _ := [] |} →
  (host_verify now policy allow false {| pe_cert := cert; pe_answers _ := [] |}).2 = Ok handshake_only.
Proof. unfold trusts, host_verify, exchange, connect_ratls. by intros ->. Qed.
End channel.

(** ** Secrets arrive *)

Lemma has_char_chars c s : has_char c s = existsb (has_char c) (chars s).
Proof.
  induction s as [|a r IH]; [done|]. cbn [has_char chars]. rewrite IH.
  destruct (chars r) as [|x cs]; cbn [existsb has_char]; [by rewrite !orb_false_r|].
  destruct (continues x); cbn [existsb has_char]; [by rewrite orb_assoc|by rewrite orb_false_r].
Qed.

Section delivery.
Context (is_alphanumeric : string → bool).
Hypothesis equals_not_alphanumeric : ∀ c, is_alphanumeric c = true → has_char "=" c = false.

Abbreviation valid := (is_valid_secret_name is_alphanumeric).

Lemma valid_name name : valid name = true →
  is_empty name = false ∧ has_char "/" name = false ∧ has_char NUL name = false ∧ has_char "=" name = false ∧
  name ≠ "." ∧ name ≠ "..".
Proof using equals_not_alphanumeric.
  unfold is_valid_secret_name. rewrite !andb_true_iff, !negb_true_iff. intros [[[[[He Hl] Hs] Hn] Hd] Hc].
  split_and!; [done..| | |].
  - rewrite has_char_chars. apply not_true_iff_false. rewrite existsb_exists. intros (c & Hin & Hx).
    rewrite forallb_forall in Hc. specialize (Hc c Hin). unfold secret_char in Hc. apply orb_true_iff in Hc as [Ha|Hb].
    + apply equals_not_alphanumeric in Ha. congruence.
    + apply bool_decide_eq_true in Hb. repeat (apply elem_of_cons in Hb as [->|Hb]; [done|]). by apply not_elem_of_nil in Hb.
  - by intros ->.
  - by intros ->.
Qed.

(** A guest differs from another only in files and variables of valid names. *)
Definition only_valid (g g' : guest) : Prop :=
  ∀ name, valid name = false → g_files g' !! name = g_files g !! name ∧ g_env g' !! name = g_env g !! name.

#[local] Instance only_valid_preorder : PreOrder only_valid.
Proof.
  split; [by intros g name|]. intros g1 g2 g3 H1 H2 name Hn. destruct (H1 name Hn), (H2 name Hn). split; congruence.
Qed.

Lemma inject_one_valid io st e st' b : inject_one is_alphanumeric io st e = (st', b) → only_valid st.1.1 st'.1.1.
Proof.
  destruct st as [[g n] errs]. unfold inject_one. destruct (valid (se_name e)) eqn:Hv; cbn [negb]; [|by intros [= <- <-]].
  assert (∀ k, valid k = false → k ≠ se_name e) as Hne by (intros k Hk ->; congruence).
  destruct (si_write io (se_name e)) as [[[text|] why]|]; [| |destruct (se_set_env e); cbn [negb]; [destruct (set_var_panics _ _)|]];
    intros [= <- <-] k Hk; specialize (Hne k Hk); cbn; rewrite ?lookup_insert_ne by done; done.
Qed.

Lemma inject_all_valid io l st g r : inject_all is_alphanumeric io st l = (g, r) → only_valid st.1.1 g.
Proof.
  revert st. induction l as [|e l IH]; intros st; cbn [inject_all]; [by intros [= <- <-]|].
  destruct (inject_one _ _ _ _) as [st' [|]] eqn:E; apply inject_one_valid in E; [|by intros [= <- <-]].
  intros Hr. etrans; [exact E|]. by eapply IH.
Qed.

(** Each entry is injected or reported. *)
Lemma inject_all_counts io l st g n errs : inject_all is_alphanumeric io st l = (g, Some (n, errs)) →
  (n + length errs = st.1.2 + length st.2 + length l)%nat.
Proof.
  revert st. induction l as [|e l IH]; intros [[g0 n0] errs0]; cbn [inject_all]; [intros [= <- <- <-]; cbn; lia|].
  destruct (inject_one _ _ _ _) as [[[g1 n1] errs1] [|]] eqn:E; [|done]. intros Hr%IH. cbn in Hr |- *. rewrite Hr.
  assert (n1 + length errs1 = S (n0 + length errs0))%nat as ->; [|lia].
  revert E. unfold inject_one. destruct (valid _); cbn [negb]; [|intros [= <- <- <-]; rewrite length_app; cbn; lia].
  destruct (si_write io _) as [[part why]|]; [intros [= <- <- <-]; rewrite length_app; cbn; lia|].
  destruct (se_set_env e); cbn [negb]; [destruct (set_var_panics _ _); [done|]|]; intros [= <- <- <-]; lia.
Qed.

(** The last entry of a name decides. *)
Definition last_named (name : string) (l : list SecretEntry) : option SecretEntry :=
  List.find (λ e, bool_decide (se_name e = name)) (reverse l).

Lemma last_named_cons name e l : last_named name (e :: l) =
  match last_named name l with Some e' => Some e' | None => if bool_decide (se_name e = name) then Some e else None end.
Proof.
  unfold last_named. rewrite reverse_cons. induction (reverse l) as [|x r IH]; cbn; [by case_bool_decide|].
  destruct (bool_decide (se_name x = name)); [done|]. exact IH.
Qed.

Definition injectable (l : list SecretEntry) : Prop :=
  Forall (λ e, valid (se_name e) = true ∧ has_char NUL (se_value e) = false) l.

Lemma inject_all_good l : injectable l → ∀ g n errs, ∃ g',
  inject_all is_alphanumeric good_secrets (g, n, errs) l = (g', Some ((n + length l)%nat, errs)) ∧
  (∀ name, g_files g' !! name = match last_named name l with Some e => Some (se_value e, MODE_SECRET) | None => g_files g !! name end) ∧
  (∀ name, match last_named name l with
           | Some e => se_set_env e = true → g_env g' !! name = Some (se_value e)
           | None => g_env g' !! name = g_env g !! name
           end).
Proof using equals_not_alphanumeric.
  induction 1 as [|e l [Hv Hn] Hl IH]; intros g n errs; cbn [inject_all].
  { exists g. by rewrite Nat.add_0_r. }
  unfold inject_one. rewrite Hv. cbn [negb good_secrets si_write si_chmod].
  destruct (valid_name _ Hv) as (He & _ & Hz & Heq & _). unfold set_var_panics. rewrite He, Heq, Hz, Hn. cbn [orb].
  assert (∃ g1 : guest, g_files g1 = <[se_name e := (se_value e, MODE_SECRET)]> (g_files g) ∧
    g_env g1 = (if se_set_env e then <[se_name e := se_value e]> (g_env g) else g_env g) ∧
    (if negb (se_set_env e) then (put_secret g (se_name e) (se_value e) MODE_SECRET, S n, errs, true)
     else ({| g_files := g_files (put_secret g (se_name e) (se_value e) MODE_SECRET);
              g_env := <[se_name e := se_value e]> (g_env (put_secret g (se_name e) (se_value e) MODE_SECRET)) |}, S n, errs, true))
    = (g1, S n, errs, true)) as (g2 & Hf & Henv & ->).
  { destruct (se_set_env e); cbn [negb]; eexists; (split_and!; [| |reflexivity]); reflexivity. }
  destruct (IH g2 (S n) errs) as (g' & Hr & Hf' & Henv'). exists g'. split_and!.
  - rewrite Hr. cbn [length]. by replace (n + S (length l))%nat with (S n + length l)%nat by lia.
  - intros name. rewrite Hf', last_named_cons. destruct (last_named name l); [done|]. rewrite Hf.
    case_bool_decide as E; [by rewrite E, lookup_insert_eq|by rewrite lookup_insert_ne].
  - intros name. specialize (Henv' name). rewrite last_named_cons. destruct (last_named name l); [done|]. rewrite Henv', Henv.
    case_bool_decide as E; [intros ->; by rewrite E, lookup_insert_eq|].
    destruct (se_set_env e); [by rewrite lookup_insert_ne|done].
Qed.
End delivery.

Section injected.
Context `{SealCrypto} `{AttestDocsLaws} `{RaTlsDeps} (is_alphanumeric : string → bool).
Hypothesis equals_not_alphanumeric : ∀ c, is_alphanumeric c = true → has_char "=" c = false.

(** Secrets arrive where they should and nowhere else.  Whatever is sent and whatever the file system
    answers, the guest writes only files of [/run/secrets] whose names have no separator and are not
    special, and variables of such names, and when it answers, every entry was injected or reported.  From
    a client that trusts the guest, secrets with valid names, when files can be written, all arrive: each
    name has the value of its last entry, readable by its owner only, and the variable if that entry asks
    for one, and the client learns the number. *)
Theorem secrets_delivered now policy allow cert w g secrets
  (Htrust : trusts now policy allow (guest_peer is_alphanumeric cert w g))
  (Hreq : fits (request_to Secrets (secrets_to secrets))) (Hans : fits (injected_to (length secrets) [])) :
  let '(g', r) := handle_tls_connection is_alphanumeric w (tls_frame DATA_FRAME (request_to Secrets (secrets_to secrets))) g in
  (∀ name, (has_char "/" name = true ∨ name = "." ∨ name = ".." ∨ name = "") →
     g_files g' !! name = g_files g !! name ∧ g_env g' !! name = g_env g !! name) ∧
  (∀ n errs, r = Some (DATA_FRAME, injected_to n errs) → (n + length errs = length secrets)%nat) ∧
  (secrets ≠ [] → gw_io w = good_secrets → injectable is_alphanumeric secrets →
   (host_inject now policy allow (guest_peer is_alphanumeric cert w g) secrets).2 = Ok (length secrets, []) ∧
   ∀ name e, last_named name secrets = Some e →
     g_files g' !! name = Some (se_value e, MODE_SECRET) ∧ (se_set_env e = true → g_env g' !! name = Some (se_value e))).
Proof.
  assert (with_set_env (map (λ e, (se_name e, se_value e, Some (se_set_env e))) secrets) = secrets) as Hlist.
  { clear. unfold with_set_env. induction secrets as [|[] l IH]; [done|]. cbn. f_equal. exact IH. }
  rewrite guest_handles by done. unfold handle_secret_injection. rewrite secrets_roundtrip, Hlist.
  destruct (si_mkdir (gw_io w)) eqn:Em; cbn [negb].
  2: { split_and!; [done|done|intros _ Hio; by rewrite Hio in Em]. }
  destruct (inject_all is_alphanumeric (gw_io w) (g, O, []) secrets) as [g' r] eqn:Ei.
  assert (∀ name, (has_char "/" name = true ∨ name = "." ∨ name = ".." ∨ name = "") →
     g_files g' !! name = g_files g !! name ∧ g_env g' !! name = g_env g !! name) as Honly.
  { intros name Hn. apply (inject_all_valid _ _ _ _ _ _ Ei). apply not_true_iff_false.
    intros (He & Hs & _ & _ & Hd & Hdd)%valid_name; [|done]. destruct Hn as [?|[->|[->| ->]]]; first [congruence|done]. }
  assert (secrets ≠ [] → gw_io w = good_secrets → injectable is_alphanumeric secrets →
    r = Some (length secrets, []) ∧ ∀ name e, last_named name secrets = Some e →
     g_files g' !! name = Some (se_value e, MODE_SECRET) ∧ (se_set_env e = true → g_env g' !! name = Some (se_value e))) as Hgood.
  { intros _ Hio Hin. destruct (inject_all_good _ equals_not_alphanumeric secrets Hin g O []) as (g1 & Hr & Hf & Hv).
    rewrite Hio, Hr in Ei. injection Ei as <- <-. split; [done|]. intros name e Hl. specialize (Hf name). specialize (Hv name).
    rewrite Hl in Hf, Hv. done. }
  assert (∀ n errs, r = Some (n, errs) → (n + length errs = length secrets)%nat) as Hcount.
  { intros n errs ->. by apply inject_all_counts in Ei. }
  destruct r as [[n errs]|].
  - split_and!; [done| |].
    { intros n' errs' [= E]. apply (f_equal injected_from) in E. rewrite !injected_roundtrip in E. injection E as <- <-. by apply Hcount. }
    intros Hne Hio Hin. destruct (Hgood Hne Hio Hin) as [[= -> ->] Hfiles]. split; [|done].
    unfold host_inject. destruct secrets as [|s rest]; [done|].
    assert ((exchange now policy allow (guest_peer is_alphanumeric cert w g) Secrets (secrets_to (s :: rest))).2 =
      Ok (DATA_FRAME, injected_to (length (s :: rest)) [])) as He.
    { apply exchange_guest; [done..|]. rewrite guest_handles by done. unfold handle_secret_injection.
      by rewrite secrets_roundtrip, Hlist, Em, Ei. }
    destruct (exchange _ _ _ _ _ _) as [sent r]. cbn [snd] in He |- *. subst r. rewrite answer_body_data.
    cbn [mbind result_bind]. by rewrite injected_roundtrip.
  - split_and!; [done|done|]. intros Hne Hio Hin. by destruct (Hgood Hne Hio Hin).
Qed.

(** A value with a NUL byte, to be set in the environment, makes the server panic after it wrote the file:
    the answer never comes and no later connection is served. *)
Lemma nul_value_panics w g name value :
  is_valid_secret_name is_alphanumeric name = true → has_char NUL value = true → gw_io w = good_secrets →
  fits (request_to Secrets (secrets_to [{| se_name := name; se_value := value; se_set_env := true |}])) →
  let '(g', r) := handle_tls_connection is_alphanumeric w
    (tls_frame DATA_FRAME (request_to Secrets (secrets_to [{| se_name := name; se_value := value; se_set_env := true |}]))) g in
  r = None ∧ g_files g' !! name = Some (value, MODE_SECRET).
Proof.
  intros Hv Hn Hio Hf. rewrite guest_handles by done. unfold handle_secret_injection. rewrite secrets_roundtrip, Hio.
  cbn [good_secrets si_mkdir negb with_set_env map default inject_all]. unfold inject_one. cbn [se_name se_value se_set_env].
  rewrite Hv. cbn [negb good_secrets si_write si_chmod]. unfold set_var_panics. rewrite Hn, !orb_true_r. cbn.
  by rewrite lookup_insert_eq.
Qed.
End injected.

(** ** The simulated guest *)

(** The guest's simulated report is the one the host's library knows. *)
Lemma guest_simulation_agrees data : length data = 64%nat → guest_simulated_report data = build_simulated_report data.
Proof. do 64 (destruct data as [|? data]; [discriminate|]). destruct data; [|done]. intros _. vm_compute. reflexivity. Qed.

Lemma key_report_data_spec hash : length hash = 32%nat → key_report_data hash = hash ++ replicate 32 0.
Proof. intros Hh. unfold key_report_data, SNP_USER_DATA_SIZE. rewrite Hh. cbn [Nat.min]. by rewrite take_ge by lia. Qed.

(** A certificate for a key, as the library that makes it and the one that reads it agree on: it holds the
    extensions it was made with, in order, and the key. *)
Class CertLaws `{RaTlsDeps} {KeyPair : Type} (public_key_der : KeyPair → list Z)
    (self_signed : KeyPair → list (string * list Z) → option (list Z)) : Prop := {
  self_signed_read key exts cert : self_signed key exts = Some cert → ∃ c es,
    cert_from_der cert = Some c ∧ cert_spki_der c = Some (public_key_der key) ∧ cert_extensions c = Some es ∧
    Forall2 (λ e oid_value, extn_id_string e = oid_value.1 ∧ extn_id_bytes e = oid_string_to_der oid_value.1 ∧
               extn_value e = oid_value.2) es exts;
  sha256_length l : length (sha256 l) = 32%nat }.

Section simulated_guest.
Context `{RaTlsDeps} {KeyPair : Type} (public_key_der : KeyPair → list Z)
  (self_signed : KeyPair → list (string * list Z) → option (list Z)) `{!CertLaws public_key_der self_signed}.

Lemma self_signed_report key report chain cert : self_signed key [(OID_SNP_REPORT, report); (OID_CERT_CHAIN, chain)] = Some cert →
  ∃ c, cert_from_der cert = Some c ∧ cert_spki_der c = Some (public_key_der key) ∧
    extract_report_from_cert cert = Ok {| ar_report := report; ar_cert_chain := default empty_chain (chain_from_json chain);
                                          ar_platform := default default_platform (parse_platform_info report) |}.
Proof.
  intros (c & es & Hc & Hk & He & Hes)%self_signed_read. exists c. split_and!; [done..|].
  destruct es as [|e1 [|e2 [|e3 es]]]; try (by apply Forall2_length in Hes).
  inversion Hes as [|? ? ? ? (H1a & H1b & H1c) Hes']; subst. inversion Hes' as [|? ? ? ? (H2a & H2b & H2c) _]; subst.
  unfold extract_report_from_cert. rewrite Hc. cbn [ok_or mbind result_bind]. rewrite He.
  change (default [] (Some ?l)) with l. cbn [foldl].
  assert (has_oid OID_SNP_REPORT e1 = true) as Ho1.
  { unfold has_oid. rewrite H1b. cbn [fst]. by rewrite (bool_decide_true (oid_string_to_der _ = _)), orb_true_r. }
  assert (has_oid OID_SNP_REPORT e2 = false) as Ho2.
  { unfold has_oid. rewrite H2a, H2b. cbn [fst]. by vm_compute. }
  assert (has_oid OID_CERT_CHAIN e2 = true) as Ho3.
  { unfold has_oid. rewrite H2b. cbn [fst]. by rewrite (bool_decide_true (oid_string_to_der _ = _)), orb_true_r. }
  unfold scan_extension. rewrite Ho1, Ho2, Ho3, H1c, H2c. done.
Qed.

(** A guest in simulation is accepted, under the default policy, by a client that allows simulation and by no
    other. *)
Lemma simulated_guest_accepted now allow env hardware key cert report chain_json :
  is_simulate_mode env = true →
  generate_ratls_config public_key_der self_signed sha256 chain_json env hardware (Some key) = Ok (cert, report) →
  (verify_server_cert now default_policy allow cert = Ok () ↔ allow = true).
Proof.
  intros Hsim. unfold generate_ratls_config. rewrite Hsim. cbn [ok_or mbind result_bind].
  intros (c & Hc%ok_or_Ok & [= -> <-])%bind_Ok. set (data := key_report_data _) in *.
  assert (length (sha256 (public_key_der key)) = 32%nat) as Hh by apply sha256_length.
  assert (data = sha256 (public_key_der key) ++ replicate 32 0) as Hdata by by apply key_report_data_spec.
  assert (length data = 64%nat) as Hlen by (rewrite Hdata, length_app, Hh; done).
  rewrite guest_simulation_agrees in Hc by done. destruct (self_signed_report _ _ _ _ Hc) as (crt & Hcd & Hk & Hrep).
  assert (key_bound cert (build_simulated_report data)) as Hbound.
  { exists crt, (public_key_der key). split_and!; [done..|].
    pose proof (simulated_data data Hlen) as Hs. unfold slice in Hs |- *. change (0x70 - 0x50)%nat with 32%nat.
    change (0x90 - 0x50)%nat with 64%nat in Hs. apply (f_equal (take 32)) in Hs. rewrite take_take in Hs.
    change (32 `min` 64)%nat with 32%nat in Hs. rewrite Hs, Hdata. by rewrite take_app_length'. }
  unfold verify_server_cert. rewrite Hrep. cbn [mbind result_bind ar_report].
  assert (0x90 ≤ length (build_simulated_report data))%nat as Hrl
    by (rewrite simulated_length by done; apply Nat.leb_le; reflexivity).
  apply verify_pubkey_binding_true in Hbound; [|done]. rewrite Hbound. cbn [mbind result_bind negb].
  rewrite (proj2 (Nat.ltb_ge _ _) Hrl). cbv zeta. rewrite simulated_data by done.
  destruct (simulated_report_verified now data (default empty_chain (chain_from_json (as_bytes "{}")))
    (default default_platform (parse_platform_info (build_simulated_report data))) Hlen) as [(res & Eyes & Hv & _) Eno].
  destruct allow; [rewrite Eyes|rewrite Eno]; cbn [map_err mbind result_bind]; [by rewrite Hv|done].
Qed.
End simulated_guest.

(** ** The certificate table *)

(** No entry of the table reaches past it, whatever the device wrote. *)
Lemma cert_table_total buf len : (len ≤ length buf)%nat → is_Some (parse_cert_table buf len).
Proof.
  intros Hlen. unfold parse_cert_table. generalize (S len) as fuel, 0%nat as pos, empty_chain as chain.
  assert (∀ a b, (b ≤ len)%nat → slice_of a b buf = Some (slice a b buf)) as Hs.
  { intros a b Hb. unfold slice_of. by rewrite (proj2 (Nat.leb_le b (length buf))) by lia. }
  induction fuel as [|fuel IH]; intros pos chain; [by eexists|]. cbn [cert_entries].
  destruct (Nat.ltb_spec len (pos + 24)); [by eexists|]. rewrite Hs by lia. cbn [mbind option_bind].
  destruct (forallb _ _); [by eexists|]. set (offset := Z.to_nat _). set (cert_len := Z.to_nat _).
  destruct (Nat.leb_spec (offset + cert_len) len) as [Hle|]; [|apply IH]. rewrite Hs by done. apply IH.
Qed.

(** A table with one entry *)
Definition u32_le (n : Z) : list Z := to_le_bytes 4 n.
Lemma one_entry_table :
  parse_cert_table (ASK_GUID ++ u32_le 48 ++ u32_le 3 ++ replicate 24 0 ++ [7; 8; 9]) 51 =
  Some {| c_vcek := []; c_ask := [7; 8; 9]; c_ark := [] |}.
Proof. vm_compute. reflexivity. Qed.

(** ** A concrete channel *)

Definition toy_docs : AttestDocs :=
  {| Value := positive; null_value := 1%positive;
     request_to r v := [match r with Status => 0 | Secrets => 1 | SealRoute => 2 | UnsealRoute => 3 | Process => 4 end; Zpos v];
     request_from l :=
       match l with
       | [n; Zpos v] => (λ r, (r, v)) <$> ([Status; Secrets; SealRoute; UnsealRoute; Process] !! Z.to_nat n)
       | _ => None
       end;
     secrets_to l := encode (map (λ e, (se_name e, se_value e, Some (se_set_env e))) l);
     secrets_from v := decode v;
     seal_to a b c := encode (a, b, Some c); seal_from v := decode v;
     unseal_to a b c := encode (a, b, Some c); unseal_from v := decode v; process_from v := decode v;
     injected_to n l := [Zpos (encode (n, l))]; injected_from l := match l with [Zpos v] => decode v | _ => None end;
     sealed_to a b c := [Zpos (encode (a, b, c))]; sealed_from l := match l with [Zpos v] => decode v | _ => None end;
     unsealed_to a := [Zpos (encode a)]; unsealed_from l := match l with [Zpos v] => decode v | _ => None end;
     processed_to _ _ _ _ := []; agent_request _ := "{}"; agent_content s := Some (Some s); lossy _ := "";
     b64_of l := show_bits (encode l); b64_to s := decode (read_bits s); error_text _ := "error" |}.

Definition toy_docs_laws : @AttestDocsLaws toy_docs.
Proof.
  split; cbn -[encode decode].
  - by intros [] v.
  - intros l. apply decode_encode.
  - intros a b c. apply decode_encode.
  - intros a b c. apply decode_encode.
  - intros n l. apply decode_encode.
  - intros a b c. apply decode_encode.
  - intros a. apply decode_encode.
  - intros l. apply decode_show.
Qed.

Definition toy_alnum (c : string) : bool := match c with String a "" => is_ascii_alphanumeric a | _ => false end.
Lemma toy_alnum_equals c : toy_alnum c = true → has_char "=" c = false.
Proof. destruct c as [|a [|]]; [done| |done]. cbn. by destruct a as [[] [] [] [] [] [] [] []]. Qed.

Definition toy_guest (chip : Z) : guest_world :=
  {| gw_report := toy_platform chip; gw_rng := Some (replicate 12 5); gw_io := good_secrets; gw_agent _ := Err "no agent" |}.
Definition empty_guest : guest := {| g_files := ∅; g_env := ∅ |}.
Definition toy_sealed : SealedData :=
  {| sd_policy := MeasurementOnly; sd_context := "keys"; sd_blob := replicate 12 5 ++ [7; 8] ++ replicate 16 0 |}.

(** Sealed on one chip and unsealed on another, with the same measurement. *)
Lemma sealed_over_channel_witness :
  let blob := b64_of (AttestDocs := toy_docs) (sd_blob toy_sealed) in
  (@host_unseal toy_x509 toy_deps toy_docs 0 toy_policy false
     (@guest_peer toy_crypto toy_docs toy_alnum [1; 1; 1; 1] (toy_guest 4) empty_guest) blob "keys" "MeasurementOnly").2 = Ok [7; 8].
Proof.
  destruct (@sealed_over_channel toy_crypto toy_crypto_laws toy_docs toy_docs_laws toy_x509 toy_deps toy_alnum 0 toy_policy false
    [1; 1; 1; 1] (toy_guest 3) empty_guest [7; 8] "keys" "MeasurementOnly" (replicate 12 5) toy_sealed) as (_ & _ & Hopen).
  - exact toy_server_accepted.
  - done.
  - done.
  - apply Nat.leb_le. reflexivity.
  - vm_compute. reflexivity.
  - done.
  - done.
  - apply Hopen; [exact toy_server_accepted|apply Nat.leb_le; reflexivity|split; [reflexivity|by intros []]|done|done].
Defined.

Definition toy_secrets : list SecretEntry :=
  [{| se_name := "token"; se_value := "t1"; se_set_env := true |}; {| se_name := "token"; se_value := "t2"; se_set_env := true |}].

Lemma secrets_delivered_witness :
  (@host_inject toy_x509 toy_deps toy_docs 0 toy_policy false
     (@guest_peer toy_crypto toy_docs toy_alnum [1; 1; 1; 1] (toy_guest 3) empty_guest) toy_secrets).2 = Ok (2%nat, []).
Proof.
  pose proof (@secrets_delivered toy_crypto toy_docs toy_docs_laws toy_x509 toy_deps toy_alnum toy_alnum_equals 0 toy_policy false
    [1; 1; 1; 1] (toy_guest 3) empty_guest toy_secrets toy_server_accepted ltac:(done) ltac:(done)) as Hd.
  destruct (handle_tls_connection _ _ _ _) as [g' r]. destruct Hd as (_ & _ & Hd).
  apply Hd; [done|done|]. repeat constructor.
Defined.
