(* ===== verification/NetworkCmd.v ===== *)
(** * NetworkCmd: the network commands

    [cli/src/commands/network.rs]: create, list, remove, connect, disconnect and prune.  The commands work
    on two files, the networks of Store.v and the boxes of BoxState.v, with every read and write of them
    failing when the caller says so.  A command returns both files and its outcome. *)

From Stdlib Require Import ZArith Lia Ascii String.
From stdpp Require Import base gmap strings list numbers relations.
From S2P Require Import Prelude RustStr Network Store BoxState Lifecycle ComposeCmd.

Local Open Scope string_scope.
Local Open Scope list_scope.

Inductive net_cmd_err :=
  | NoNames | StoreError (e : store_err) | StateError (e : state_err) | ResolveError (e : resolve_err)
  | NetworkError (e : net_err) | NotAttachable (e : up_error) | UnknownIsolation (mode : string) | InvalidLabel (label : string)
  | ActiveEndpoint (network box_name : string) | ActiveConfigured (network box_name : string) | HotPlug (box_name : string)
  | OtherNetwork (box_name existing : string) | NotConfigured (box_name network : string) | NetworkNotFound (network : string)
  | Several (errors : list (string * net_cmd_err)).

(** ** Records *)

Definition record_with_network (r : BoxRecord) (mode : NetworkMode) (name : option string) : BoxRecord :=
  {| b_id := b_id r; b_short_id := b_short_id r; b_name := b_name r; b_image := b_image r; b_status := b_status r;
     b_pid := b_pid r; b_cpus := b_cpus r; b_memory_mb := b_memory_mb r; b_volumes := b_volumes r; b_env := b_env r;
     b_cmd := b_cmd r; b_entrypoint := b_entrypoint r; b_box_dir := b_box_dir r; b_exec_socket_path := b_exec_socket_path r;
     b_console_log := b_console_log r; b_created_at := b_created_at r; b_started_at := b_started_at r;
     b_auto_remove := b_auto_remove r; b_hostname := b_hostname r; b_user := b_user r; b_workdir := b_workdir r;
     b_restart_policy := b_restart_policy r; b_port_map := b_port_map r; b_labels := b_labels r;
     b_stopped_by_user := b_stopped_by_user r; b_restart_count := b_restart_count r;
     b_max_restart_count := b_max_restart_count r; b_exit_code := b_exit_code r; b_health_check := b_health_check r;
     b_healthcheck_disabled := b_healthcheck_disabled r; b_health_status := b_health_status r;
     b_health_retries := b_health_retries r; b_health_last_check := b_health_last_check r; b_network_mode := mode;
     b_network_name := name; b_volume_names := b_volume_names r; b_tmpfs := b_tmpfs r;
     b_anonymous_volumes := b_anonymous_volumes r; b_resource_limits := b_resource_limits r; b_log_config := b_log_config r;
     b_add_host := b_add_host r; b_platform := b_platform r; b_init := b_init r; b_read_only := b_read_only r;
     b_cap_add := b_cap_add r; b_cap_drop := b_cap_drop r; b_security_opt := b_security_opt r; b_privileged := b_privileged r;
     b_devices := b_devices r; b_gpus := b_gpus r; b_shm_size := b_shm_size r; b_stop_signal := b_stop_signal r;
     b_stop_timeout := b_stop_timeout r; b_oom_kill_disable := b_oom_kill_disable r; b_oom_score_adj := b_oom_score_adj r |}.

Definition set_record_network (network : string) (r : BoxRecord) : BoxRecord := record_with_network r (Bridge network) (Some network).
Definition clear_record_network (r : BoxRecord) : BoxRecord := record_with_network r Tsi None.

Definition require_inactive_for_network_change (r : BoxRecord) : result net_cmd_err () :=
  if negb (is_active r) then Ok () else Err (HotPlug (b_name r)).

(** ** Networks *)

Definition is_predefined_network (name : string) : bool := bool_decide (name ∈ ["bridge"; "host"; "none"]).

Definition network_is_unused (config : NetworkConfig) (in_use_names : gset string) : bool :=
  bool_decide (net_endpoints config = ∅) && negb (bool_decide (net_name config ∈ in_use_names)).

Definition set_box_name (name : string) (ep : NetworkEndpoint) : NetworkEndpoint :=
  {| ep_box_id := ep_box_id ep; ep_box_name := name; ep_aliases := ep_aliases ep; ep_ip_address := ep_ip_address ep;
     ep_mac_address := ep_mac_address ep |}.

Definition ensure_endpoint (config : NetworkConfig) (box_id box_name : string) : result net_err (NetworkConfig * NetworkEndpoint) :=
  match net_endpoints config !! box_id with
  | Some ep =>
      let ep := set_box_name box_name ep in Ok (with_endpoints config (<[box_id := ep]> (net_endpoints config)), ep)
  | None => connect config box_id box_name
  end.

Definition with_driver (c : NetworkConfig) (driver : string) : NetworkConfig :=
  {| net_name := net_name c; net_subnet := net_subnet c; net_gateway := net_gateway c; net_driver := driver;
     net_labels := net_labels c; net_endpoints := net_endpoints c; net_created_at := net_created_at c; net_policy := net_policy c |}.
Definition with_isolation (c : NetworkConfig) (mode : IsolationMode) : NetworkConfig :=
  with_policy c {| isolation := mode; ingress := ingress (net_policy c); egress := egress (net_policy c) |}.
Definition with_labels (c : NetworkConfig) (labels : gmap string string) : NetworkConfig :=
  {| net_name := net_name c; net_subnet := net_subnet c; net_gateway := net_gateway c; net_driver := net_driver c;
     net_labels := labels; net_endpoints := net_endpoints c; net_created_at := net_created_at c; net_policy := net_policy c |}.

Definition isolation_of (mode : string) : option IsolationMode :=
  if bool_decide (mode = "none") then Some IsolationNone
  else if bool_decide (mode = "strict") then Some IsolationStrict
  else if bool_decide (mode = "custom") then Some IsolationCustom
  else None.

Fixpoint parse_labels (labels : list string) (m : gmap string string) : result net_cmd_err (gmap string string) :=
  match labels with
  | [] => Ok m
  | label :: labels =>
      '(key, value) ← ok_or (InvalidLabel label) (split_once "=" label);
      parse_labels labels (<[key := value]> m)
  end.

Record CreateArgs := { ca_name : string; ca_subnet : string; ca_driver : string; ca_isolation : string; ca_labels : list string }.

Definition new_network (now : string) (a : CreateArgs) : result net_cmd_err NetworkConfig :=
  _ ← map_err NotAttachable (validate_network_driver (ca_driver a));
  config ← map_err NetworkError (network_new (ca_name a) (ca_subnet a) now);
  let config := with_driver config (ca_driver a) in
  mode ← ok_or (UnknownIsolation (ca_isolation a)) (isolation_of (ca_isolation a));
  let config := with_isolation config mode in
  _ ← map_err NotAttachable (validate_attachable_network config);
  labels ← parse_labels (ca_labels a) (net_labels config);
  Ok (with_labels config labels).

(** ** Commands *)

Section commands.
Context {ncontent rcontent : Type}.
Context (nets_to : gmap string NetworkConfig → ncontent) (nets_from : ncontent → option (gmap string NetworkConfig)).
Context (recs_to : records → rcontent) (recs_from : rcontent → option records).

(** The two files. *)
Record files := { f_nets : Store.file ncontent; f_state : option rcontent }.

(** What a command sees of the machine: while it loads the boxes, and for each network by its name. *)
Record net_call := { nc_get : io_env ncontent; nc_update : io_env ncontent; nc_remove : io_env ncontent; nc_save : world }.
Record cmd_env := { ne_load : world; ne_list : io_env ncontent; ne_call : string → net_call }.

Abbreviation get io name f := (NetworkStore.get nets_from io f name).
Abbreviation update io c f := (NetworkStore.update nets_to nets_from io f c).
Abbreviation remove io name f := (NetworkStore.remove nets_to nets_from io f name).

Definition execute_create (now : string) (env : cmd_env) (a : CreateArgs) (s : files) : files * result net_cmd_err () :=
  match new_network now a with
  | Err e => (s, Err e)
  | Ok config =>
      let '(f, r) := NetworkStore.create nets_to nets_from (nc_update (ne_call env (ca_name a))) (f_nets s) config in
      ({| f_nets := f; f_state := f_state s |}, map_err StoreError r)
  end.

(** The names in the order they are printed. *)
Definition execute_ls (env : cmd_env) (s : files) : result net_cmd_err (list string) :=
  networks ← map_err StoreError (NetworkStore.list nets_from (ne_list env) (f_nets s));
  Ok (sort_by String.leb (map net_name networks)).

(** The checks of [force_disconnect_network_endpoints]; endpoints come in the order of the map. *)
Definition first_active_endpoint (rs : records) (config : NetworkConfig) : option string :=
  head (omap (λ ep, r ← find_by_id rs (ep_box_id ep); if is_active r then Some (b_name r) else None) (values (net_endpoints config))).
Definition configured_box_ids (rs : records) (network_name : string) : list string :=
  map b_id (List.filter (λ r, bool_decide (record_network_name r = Some network_name)) rs).
Definition first_active_configured (rs : records) (ids : list string) : option string :=
  head (omap (λ id, r ← find_by_id rs id; if is_active r then Some (b_name r) else None) ids).

(** The records in memory, both files, the outcome. *)
Definition force_disconnect_network_endpoints (io : net_call) (network_name : string) (config : NetworkConfig) (rs : records) (s : files)
    : records * files * result net_cmd_err () :=
  let ids := configured_box_ids rs network_name in
  match first_active_endpoint rs config, first_active_configured rs ids with
  | Some name, _ => (rs, s, Err (ActiveEndpoint network_name name))
  | None, Some name => (rs, s, Err (ActiveConfigured network_name name))
  | None, None =>
      let config := foldl (λ c id, match disconnect c id with Ok (c', _) => c' | Err _ => c end) config
                      (map_to_list (net_endpoints config)).*1 in
      let rs' := foldl (λ rs id, update_by_id id clear_record_network rs) rs ids in
      match update (nc_update io) config (f_nets s) with
      | (f, Err e) => (rs', {| f_nets := f; f_state := f_state s |}, Err (StoreError e))
      | (f, Ok _) =>
          let changed := existsb (λ id, bool_decide (is_Some (find_by_id rs id))) ids in
          if negb changed then (rs', {| f_nets := f; f_state := f_state s |}, Ok ())
          else let '(d, r) := save_state recs_to (nc_save io) rs' (f_state s) in
               (rs', {| f_nets := f; f_state := d |}, map_err StateError r)
      end
  end.

(** One name: the last part is an error that ends the command. *)
Definition network_rm_one (io : net_call) (force : bool) (name : string) (rs : records) (s : files)
    : records * files * result net_cmd_err (result net_cmd_err ()) :=
  let removed rs s :=
    let '(f, r) := remove (nc_remove io) name (f_nets s) in
    (rs, {| f_nets := f; f_state := f_state s |}, Ok (match r with Ok _ => Ok () | Err e => Err (StoreError e) end)) in
  if negb force then removed rs s
  else match get (nc_get io) name (f_nets s) with
       | Err e => (rs, s, Err (StoreError e))
       | Ok None => removed rs s
       | Ok (Some config) =>
           match force_disconnect_network_endpoints io name config rs s with
           | (rs, s, Ok _) => removed rs s
           | (rs, s, Err e) => (rs, s, Ok (Err e))
           end
       end.

Fixpoint rm_all (env : cmd_env) (force : bool) (names : list string) (errors : list (string * net_cmd_err)) (rs : records) (s : files)
    : files * result net_cmd_err () :=
  match names with
  | [] => (s, match errors with [] => Ok () | _ => Err (Several errors) end)
  | name :: names =>
      match network_rm_one (ne_call env name) force name rs s with
      | (rs, s, Ok (Ok _)) => rm_all env force names errors rs s
      | (rs, s, Ok (Err e)) => rm_all env force names (errors ++ [(name, e)]) rs s
      | (rs, s, Err e) => (s, Err e)
      end
  end.

(** Loading the boxes, which may write their file. *)
Definition with_loaded_state {A} (env : cmd_env) (s : files) (k : records → files → files * result net_cmd_err A) : files * result net_cmd_err A :=
  match load_state recs_to recs_from (ne_load env) (f_state s) with
  | (d, Err e) => ({| f_nets := f_nets s; f_state := d |}, Err (StateError e))
  | (d, Ok rs) => k rs {| f_nets := f_nets s; f_state := d |}
  end.

Definition execute_rm (env : cmd_env) (force : bool) (names : list string) (s : files) : files * result net_cmd_err () :=
  match names with
  | [] => (s, Err NoNames)
  | _ => with_loaded_state env s (rm_all env force names [])
  end.

Definition save_records (io : net_call) (rs : records) (s : files) : files * result net_cmd_err () :=
  let '(d, r) := save_state recs_to (nc_save io) rs (f_state s) in
  ({| f_nets := f_nets s; f_state := d |}, map_err StateError r).

(** What [execute_connect] finds out before it writes: the box, the network with its endpoint, the endpoint. *)
Definition connect_checked (io : net_call) (network container : string) (rs : records) (s : files)
    : result net_cmd_err (BoxRecord * NetworkConfig * NetworkEndpoint) :=
  record ← map_err ResolveError (resolve rs container);
  _ ← require_inactive_for_network_change record;
  _ ← (match record_network_name record with
       | Some existing => if bool_decide (existing = network) then Ok () else Err (OtherNetwork (b_name record) existing)
       | None => Ok ()
       end);
  found ← map_err StoreError (get (nc_get io) network (f_nets s));
  config ← ok_or (NetworkNotFound network) found;
  _ ← map_err NotAttachable (validate_attachable_network config);
  '(config, endpoint) ← map_err NetworkError (ensure_endpoint config (b_id record) (b_name record));
  Ok (record, config, endpoint).

Definition connect_loaded (io : net_call) (network container : string) (rs : records) (s : files)
    : files * result net_cmd_err NetworkEndpoint :=
  match connect_checked io network container rs s with
  | Err e => (s, Err e)
  | Ok (record, config, endpoint) =>
      match update (nc_update io) config (f_nets s) with
      | (f, Err e) => ({| f_nets := f; f_state := f_state s |}, Err (StoreError e))
      | (f, Ok _) =>
          let s := {| f_nets := f; f_state := f_state s |} in
          match resolve_update rs (b_id record) (set_record_network network) with
          | Err e => (s, Err (ResolveError e))
          | Ok rs => let '(s, r) := save_records io rs s in (s, _ ← r; Ok endpoint)
          end
      end
  end.

Definition execute_connect (env : cmd_env) (network container : string) (s : files) : files * result net_cmd_err NetworkEndpoint :=
  with_loaded_state env s (connect_loaded (ne_call env network) network container).

(** The box, whether it is configured for the network, and the network. *)
Definition disconnect_checked (io : net_call) (force : bool) (network container : string) (rs : records) (s : files)
    : result net_cmd_err (BoxRecord * bool * option NetworkConfig) :=
  record ← map_err ResolveError (resolve rs container);
  _ ← require_inactive_for_network_change record;
  let is_configured := bool_decide (record_network_name record = Some network) in
  if negb is_configured && negb force then Err (NotConfigured (b_name record) network)
  else found ← map_err StoreError (get (nc_get io) network (f_nets s)); Ok (record, is_configured, found).

(** The endpoint goes, when there is one. *)
Definition drop_endpoint (io : net_call) (force is_configured : bool) (network : string) (record : BoxRecord) (found : option NetworkConfig)
    (s : files) : files * result net_cmd_err () :=
  match found with
  | Some config =>
      match disconnect config (b_id record) with
      | Ok (config, _) =>
          let '(f, r) := update (nc_update io) config (f_nets s) in
          ({| f_nets := f; f_state := f_state s |}, map_err StoreError r)
      | Err e => (s, if force || is_configured then Ok () else Err (NetworkError e))
      end
  | None => (s, if negb force then Err (NetworkNotFound network) else Ok ())
  end.

Definition disconnect_loaded (io : net_call) (force : bool) (network container : string) (rs : records) (s : files)
    : files * result net_cmd_err () :=
  match disconnect_checked io force network container rs s with
  | Err e => (s, Err e)
  | Ok (record, is_configured, found) =>
      match drop_endpoint io force is_configured network record found s with
      | (s, Err e) => (s, Err e)
      | (s, Ok _) =>
          if negb is_configured then (s, Ok ())
          else match resolve_update rs (b_id record) clear_record_network with
               | Err e => (s, Err (ResolveError e))
               | Ok rs => save_records io rs s
               end
      end
  end.

Definition execute_disconnect (env : cmd_env) (force : bool) (network container : string) (s : files) : files * result net_cmd_err () :=
  with_loaded_state env s (disconnect_loaded (ne_call env network) force network container).

(** What was removed, and the errors; a list that cannot be read is empty. *)
Fixpoint prune_networks (io : string → io_env ncontent) (in_use : gset string) (networks : list NetworkConfig) (f : Store.file ncontent)
    : Store.file ncontent * (list string * list (string * store_err)) :=
  match networks with
  | [] => (f, ([], []))
  | net :: networks =>
      if is_predefined_network (net_name net) || negb (network_is_unused net in_use) then prune_networks io in_use networks f
      else match remove (io (net_name net)) (net_name net) f with
           | (f, Ok _) => let '(f, (removed, errors)) := prune_networks io in_use networks f in (f, (net_name net :: removed, errors))
           | (f, Err e) => let '(f, (removed, errors)) := prune_networks io in_use networks f in (f, (removed, (net_name net, e) :: errors))
           end
  end.

Definition prune_unused_networks (env : cmd_env) (rs : records) (f : Store.file ncontent)
    : Store.file ncontent * (list string * list (string * store_err)) :=
  let in_use := list_to_set (omap record_network_name rs) in
  let networks := match NetworkStore.list nets_from (ne_list env) f with Ok l => l | Err _ => [] end in
  prune_networks (λ name, nc_remove (ne_call env name)) in_use (sort_by (λ a b, String.leb (net_name a) (net_name b)) networks) f.

(** [answer]: what the user types when the command asks. *)
Definition execute_prune (env : cmd_env) (force : bool) (answer : string) (s : files) : files * result net_cmd_err (list string) :=
  if negb force && negb (eq_ignore_ascii_case (trim answer) "y") then (s, Ok [])
  else with_loaded_state env s (λ rs s,
    let '(f, (removed, errors)) := prune_unused_networks env rs (f_nets s) in
    ({| f_nets := f; f_state := f_state s |},
     match errors with [] => Ok removed | _ => Err (Several (map (λ '(n, e), (n, StoreError e)) errors)) end)).

(** ** Commands one after another *)

Inductive net_cmd :=
  | NCreate (now : string) (a : CreateArgs) | NRm (force : bool) (names : list string) | NConnect (network container : string)
  | NDisconnect (force : bool) (network container : string) | NPrune (force : bool) (answer : string).

Definition run_net_cmd (env : cmd_env) (c : net_cmd) (s : files) : files :=
  match c with
  | NCreate now a => (execute_create now env a s).1
  | NRm force names => (execute_rm env force names s).1
  | NConnect network container => (execute_connect env network container s).1
  | NDisconnect force network container => (execute_disconnect env force network container s).1
  | NPrune force answer => (execute_prune env force answer s).1
  end.
End commands.

(** ** Active boxes keep their networks *)

(** Every network is stored under its name and every endpoint under its box. *)
Definition filed (m : gmap string NetworkConfig) : Prop :=
  NetworkStore.keyed m ∧ ∀ n c id ep, m !! n = Some c → net_endpoints c !! id = Some ep → ep_box_id ep = id.

Definition detach_all (c : NetworkConfig) (ids : list string) : NetworkConfig :=
  foldl (λ c id, match disconnect c id with Ok (c', _) => c' | Err _ => c end) c ids.

Lemma detach_all_spec ids c :
  net_name (detach_all c ids) = net_name c ∧
  (∀ id ep, net_endpoints (detach_all c ids) !! id = Some ep ↔ net_endpoints c !! id = Some ep ∧ id ∉ ids).
Proof.
  revert c. induction ids as [|i ids IH]; intros c; [by split; [|set_solver]|]. cbn [detach_all foldl].
  fold (detach_all (match disconnect c i with Ok (c', _) => c' | Err _ => c end) ids).
  destruct (IH (match disconnect c i with Ok (c', _) => c' | Err _ => c end)) as [Hn He].
  unfold disconnect in *. destruct (net_endpoints c !! i) as [e|] eqn:Ei; cbn in Hn, He |- *; (split; [done|]); intros id ep; rewrite He.
  - rewrite lookup_delete_Some, not_elem_of_cons. naive_solver.
  - rewrite not_elem_of_cons. split; [|naive_solver]. intros [? ?]. split_and!; [done|congruence|done].
Qed.

Lemma detach_all_empty c : net_endpoints (detach_all c (map_to_list (net_endpoints c)).*1) = ∅.
Proof.
  apply map_empty. intros id. destruct (_ !! id) eqn:E; [|done]. apply detach_all_spec in E as [E Hno]. exfalso. apply Hno.
  apply list_elem_of_fmap. eexists (_, _). split; [|by apply elem_of_map_to_list]. done.
Qed.

Lemma ensure_endpoint_spec c id name c' ep : ensure_endpoint c id name = Ok (c', ep) →
  net_name c' = net_name c ∧ net_endpoints c' !! id = Some ep ∧ (∀ id', id' ≠ id → net_endpoints c' !! id' = net_endpoints c !! id') ∧
  (∀ e, net_endpoints c !! id = Some e → ep_box_id ep = ep_box_id e) ∧ (net_endpoints c !! id = None → ep_box_id ep = id).
Proof.
  unfold ensure_endpoint. destruct (net_endpoints c !! id) as [e|] eqn:E.
  - intros [= <- <-]. cbn. split_and!; [done|by rewrite lookup_insert_eq| |by intros ? [= <-]|done].
    intros id' Hne. by rewrite lookup_insert_ne.
  - unfold connect, connect_with_aliases. rewrite bool_decide_false by (rewrite E; by intros [? ?]).
    intros (ipam & _ & (ip & _ & [= <- <-])%bind_Ok)%bind_Ok. cbn.
    split_and!; [done|by rewrite lookup_insert_eq| |done|done]. intros id' Hne. by rewrite lookup_insert_ne.
Qed.

Lemma new_network_empty now a c : new_network now a = Ok c → net_name c = ca_name a ∧ net_endpoints c = ∅.
Proof.
  unfold new_network. intros (? & _ & (c0 & Hc & (mode & _ & (? & _ & (ls & _ & [= <-])%bind_Ok)%bind_Ok)%bind_Ok)%bind_Ok)%bind_Ok.
  unfold network_new in Hc. destruct (Ipam.new _); [|done]. by injection Hc as <-.
Qed.

(** A running box: the record its identifier finds is active. *)
Definition runs (rs : records) (id : string) : Prop := ∃ r, find_by_id rs id = Some r ∧ is_active r = true.

Lemma find_by_id_update i f rs id : (∀ r, b_id (f r) = b_id r) →
  find_by_id (update_by_id i f rs) id = match find_by_id rs id with Some r => Some (if bool_decide (id = i) then f r else r) | None => None end.
Proof.
  intros Hf. induction rs as [|r rs IH]; [done|]. cbn [update_by_id]. destruct (bool_decide (b_id r = i)) eqn:Ei.
  - apply bool_decide_eq_true in Ei as <-. unfold find_by_id. cbn [List.find]. rewrite Hf.
    destruct (bool_decide (b_id r = id)) eqn:Ed; [apply bool_decide_eq_true in Ed as <-; by rewrite bool_decide_true|].
    destruct (List.find _ rs) as [x|] eqn:Ex; [|done]. apply List.find_some in Ex as [_ Ex%bool_decide_eq_true].
    rewrite bool_decide_false; [done|]. apply bool_decide_eq_false in Ed. congruence.
  - unfold find_by_id in *. cbn [List.find]. destruct (bool_decide (b_id r = id)) eqn:Ed; [|exact IH].
    apply bool_decide_eq_true in Ed as <-. by rewrite Ei.
Qed.

Lemma runs_update i f rs id : (∀ r, b_id (f r) = b_id r) → (∀ r, is_active (f r) = is_active r) → runs rs id → runs (update_by_id i f rs) id.
Proof.
  intros Hf Ha (r & Hr & Hact). unfold runs. rewrite find_by_id_update, Hr by done. eexists. split; [done|].
  case_bool_decide; [by rewrite Ha|done].
Qed.

Lemma runs_clear ids rs id : runs rs id → runs (foldl (λ rs id, update_by_id id clear_record_network rs) rs ids) id.
Proof. revert rs. induction ids as [|i ids IH]; intros rs Hr; [done|]. apply IH. by apply runs_update. Qed.

Section active.
Context {ncontent rcontent : Type}.
Context (nets_to : gmap string NetworkConfig → ncontent) (nets_from : ncontent → option (gmap string NetworkConfig)).
Context (recs_to : records → rcontent) (recs_from : rcontent → option records).
Context (nets_roundtrip : ∀ m, nets_from (nets_to m) = Some m).

Abbreviation stored_nets := (stored nets_from ∅).

(** The box has an endpoint in the network. *)
Definition attached (f : Store.file ncontent) (n id : string) (ep : NetworkEndpoint) : Prop :=
  ∃ m c, stored_nets f = Some m ∧ filed m ∧ m !! n = Some c ∧ net_endpoints c !! id = Some ep.

(** A step that keeps the files in order and the endpoint. *)
Lemma modify_attached {R} io f f' (step : gmap string NetworkConfig → result store_err (gmap string NetworkConfig * R)) r n id ep :
  (∀ m m' x c, filed m → step m = Ok (m', x) → m !! n = Some c → net_endpoints c !! id = Some ep →
    filed m' ∧ ∃ c', m' !! n = Some c' ∧ net_endpoints c' !! id = Some ep) →
  Store.modify nets_to nets_from ∅ io f step = (f', r) → attached f n id ep → attached f' n id ep.
Proof using nets_roundtrip.
  intros Hstep Hm (m & c & Hs & Hf & Hc & He). destruct r as [x|e].
  - apply modify_Ok in Hm as (d & d' & Hd & Hst & Hd'); [|done]. rewrite Hs in Hd. injection Hd as <-.
    destruct (Hstep _ _ _ _ Hf Hst Hc He) as (Hf' & c' & Hc' & He'). by exists d', c'.
  - apply modify_Err in Hm. rewrite <-Hm in Hs. by exists m, c.
Qed.

Lemma remove_attached io name f f' r n id ep :
  NetworkStore.remove nets_to nets_from io f name = (f', r) → attached f n id ep → attached f' n id ep.
Proof using nets_roundtrip.
  apply modify_attached. intros m m' x c Hf Hst Hc He. unfold NetworkStore.remove_step in Hst.
  apply bind_Ok in Hst as (c0 & Hc0%ok_or_Ok & Hst). case_bool_decide as Hemp; [|done]. injection Hst as <- <-.
  assert (name ≠ n) as Hne. { intros ->. rewrite Hc in Hc0. injection Hc0 as <-. by rewrite Hemp, lookup_empty in He. }
  destruct Hf as [Hk Hids]. split; [split|].
  - intros k c1 [_ ?]%lookup_delete_Some. by apply Hk.
  - intros k c1 i e [_ ?]%lookup_delete_Some. by eapply Hids.
  - exists c. by rewrite lookup_delete_ne.
Qed.

Lemma update_attached io c1 f f' r n id ep :
  (∀ i e, net_endpoints c1 !! i = Some e → ep_box_id e = i) → (net_name c1 = n → net_endpoints c1 !! id = Some ep) →
  NetworkStore.update nets_to nets_from io f c1 = (f', r) → attached f n id ep → attached f' n id ep.
Proof using nets_roundtrip.
  intros Hids1 Hkeep. apply modify_attached. intros m m' x c [Hk Hids] Hst Hc He. unfold NetworkStore.update_step in Hst.
  case_bool_decide; [|done]. injection Hst as <- _. split; [split|].
  - intros k c2 [[<- <-]|[_ ?]]%lookup_insert_Some; [done|by apply Hk].
  - intros k c2 i e [[<- <-]|[_ ?]]%lookup_insert_Some; [apply Hids1|by eapply Hids].
  - destruct (decide (net_name c1 = n)) as [<-|Hne]; [exists c1; rewrite lookup_insert_eq; auto|exists c; by rewrite lookup_insert_ne].
Qed.

Lemma create_attached io c1 f f' r n id ep : net_endpoints c1 = ∅ →
  NetworkStore.create nets_to nets_from io f c1 = (f', r) → attached f n id ep → attached f' n id ep.
Proof using nets_roundtrip.
  intros Hemp. apply modify_attached. intros m m' x c [Hk Hids] Hst Hc He. unfold NetworkStore.create_step in Hst.
  case_bool_decide as Hfree; [done|]. injection Hst as <- _. split; [split|].
  - intros k c2 [[<- <-]|[_ ?]]%lookup_insert_Some; [done|by apply Hk].
  - intros k c2 i e [[<- <-]|[_ ?]]%lookup_insert_Some; [by rewrite Hemp, lookup_empty|by eapply Hids].
  - exists c. rewrite lookup_insert_ne; [done|]. intros E. apply Hfree. rewrite E, Hc. by eexists.
Qed.

Lemma get_stored io f n found : NetworkStore.get nets_from io f n = Ok found → ∃ m, stored_nets f = Some m ∧ found = m !! n.
Proof using. unfold NetworkStore.get. intros (m & Hm%load_stored & [= <-])%bind_Ok. by exists m. Qed.

Lemma active_endpoint_found rs c id ep : runs rs id → net_endpoints c !! id = Some ep → ep_box_id ep = id →
  is_Some (first_active_endpoint rs c).
Proof using.
  intros (r & Hr & Ha) He Hid. unfold first_active_endpoint.
  assert (b_name r ∈ omap (λ ep, r ← find_by_id rs (ep_box_id ep); if is_active r then Some (b_name r) else None) (values (net_endpoints c))) as Hin.
  { apply list_elem_of_omap. exists ep. split; [apply elem_of_values; by exists id|]. rewrite Hid, Hr. cbn. by rewrite Ha. }
  destruct (omap _ _); [by apply elem_of_nil in Hin|by eexists].
Qed.
Lemma force_disconnect_attached io network c rs s rs' s' r n id ep :
  NetworkStore.get nets_from (nc_get io) (f_nets s) network = Ok (Some c) →
  force_disconnect_network_endpoints nets_to nets_from recs_to io network c rs s = (rs', s', r) →
  runs rs id → attached (f_nets s) n id ep → runs rs' id ∧ attached (f_nets s') n id ep.
Proof using nets_roundtrip.
  intros (m & Hm & Hg)%get_stored Hr Hact Hatt. pose proof Hatt as (m0 & c0 & Hm0 & [Hk Hids] & Hc0 & He0).
  rewrite Hm in Hm0. injection Hm0 as <-. symmetry in Hg. revert Hr. unfold force_disconnect_network_endpoints. cbv zeta.
  destruct (first_active_endpoint rs c) eqn:Ea; [by intros [= <- <- _]|].
  destruct (first_active_configured rs _); [by intros [= <- <- _]|].
  assert (network ≠ n) as Hne.
  { intros ->. rewrite Hg in Hc0. injection Hc0 as ->. destruct (active_endpoint_found rs c0 id ep Hact He0) as [? E];
      [exact (Hids _ _ _ _ Hg He0)|congruence]. }
  fold (detach_all c (map_to_list (net_endpoints c)).*1). set (c1 := detach_all c _).
  destruct (detach_all_spec (map_to_list (net_endpoints c)).*1 c) as [Hn1 He1]. fold c1 in Hn1, He1.
  destruct (NetworkStore.update _ _ _ _ _) as [f r1] eqn:Eu.
  assert (attached f n id ep) as Hatt'.
  { eapply update_attached; [|by rewrite Hn1, (Hk _ _ Hg)|exact Eu|done]. intros i e [Hi _]%He1. exact (Hids _ _ _ _ Hg Hi). }
  pose proof (runs_clear (configured_box_ids rs network) rs id Hact) as Hact'.
  destruct r1 as [x|e]; [|intros [= <- <- _]; by split].
  destruct (existsb _ _); cbn [negb]; [|intros [= <- <- _]; by split].
  destruct (save_state _ _ _ _) as [d r2]. intros [= <- <- _]. by split.
Qed.

Lemma network_rm_one_attached io force name rs s rs' s' r n id ep :
  network_rm_one nets_to nets_from recs_to io force name rs s = (rs', s', r) →
  runs rs id → attached (f_nets s) n id ep → runs rs' id ∧ attached (f_nets s') n id ep.
Proof using nets_roundtrip.
  unfold network_rm_one. cbv zeta.
  assert (∀ rs s, (let '(f, r) := NetworkStore.remove nets_to nets_from (nc_remove io) (f_nets s) name in
      (rs, {| f_nets := f; f_state := f_state s |}, Ok (match r with Ok _ => Ok () | Err e => Err (StoreError e) end))) = (rs', s', r) →
    runs rs id → attached (f_nets s) n id ep → runs rs' id ∧ attached (f_nets s') n id ep) as Hrem.
  { intros rs0 s0. destruct (NetworkStore.remove _ _ _ _ _) as [f r0] eqn:Er. intros [= <- <- _] ? ?. split; [done|].
    by eapply remove_attached. }
  destruct force; cbn [negb]; [|apply Hrem].
  destruct (NetworkStore.get _ _ _ _) as [[c|]|e] eqn:Eg; [|apply Hrem|by intros [= <- <- _]].
  destruct (force_disconnect_network_endpoints _ _ _ _ _ _ _ _) as [[rs1 s1] [x|e]] eqn:Ef; intros E Hr Ha;
    destruct (force_disconnect_attached _ _ _ _ _ _ _ _ _ _ _ Eg Ef Hr Ha); [by eapply Hrem|by injection E as <- <- _].
Qed.

Lemma rm_all_attached env force names errors rs s n id ep : runs rs id → attached (f_nets s) n id ep →
  attached (f_nets (rm_all nets_to nets_from recs_to env force names errors rs s).1) n id ep.
Proof using nets_roundtrip.
  revert errors rs s. induction names as [|name names IH]; intros errors rs s Hr Ha; [done|]. cbn [rm_all].
  destruct (network_rm_one _ _ _ _ _ _ _ _) as [[rs1 s1] r] eqn:E. destruct (network_rm_one_attached _ _ _ _ _ _ _ _ _ _ _ E Hr Ha) as [Hr1 Ha1].
  destruct r as [[x|e]|e]; [by apply IH..|done].
Qed.

Lemma prune_loop_attached io in_use networks f n id ep : attached f n id ep →
  attached (prune_networks nets_to nets_from io in_use networks f).1 n id ep.
Proof using nets_roundtrip.
  revert f. induction networks as [|net networks IH]; intros f Ha; [done|]. cbn [prune_networks].
  destruct (_ || _); [by apply IH|]. destruct (NetworkStore.remove _ _ _ _ _) as [f1 [x|e]] eqn:Er;
    pose proof (IH f1 (remove_attached _ _ _ _ _ _ _ _ Er Ha)); by destruct (prune_networks _ _ _ _ _ f1) as [f2 [removed errors]].
Qed.

Lemma resolved_other rs query r id : NoDup (map b_id rs) → resolve rs query = Ok r → is_active r = false → runs rs id → b_id r ≠ id.
Proof using.
  intros Hnd Hr%resolve_elem Hi (x & Hx & Ha) <-. rewrite (proj2 (find_by_id_spec rs (b_id r) r Hnd)) in Hx by done.
  congruence.
Qed.
Lemma connect_checked_Ok io network container rs (s : files (ncontent := ncontent) (rcontent := rcontent)) record config endpoint :
  connect_checked nets_from io network container rs s = Ok (record, config, endpoint) →
  resolve rs container = Ok record ∧ is_active record = false ∧
  (record_network_name record = None ∨ record_network_name record = Some network) ∧
  ∃ m c, stored_nets (f_nets s) = Some m ∧ m !! network = Some c ∧ ensure_endpoint c (b_id record) (b_name record) = Ok (config, endpoint).
Proof using.
  unfold connect_checked. intros E. apply bind_Ok in E as (r & Hr%map_err_Ok & E). apply bind_Ok in E as (? & Hi & E).
  apply bind_Ok in E as (? & Hn & E). apply bind_Ok in E as (found & Hg%map_err_Ok & E). apply bind_Ok in E as (c & Hc%ok_or_Ok & E).
  apply bind_Ok in E as (? & _ & E). apply bind_Ok in E as ([c1 ep1] & He%map_err_Ok & [= -> -> ->]). subst found.
  apply get_stored in Hg as (m & Hm & Hg). split_and!; [done| | |by exists m, c].
  - unfold require_inactive_for_network_change in Hi. by destruct (is_active record).
  - destruct (record_network_name record); [|by left]. case_bool_decide; [subst; by right|done].
Qed.

Lemma disconnect_checked_Ok io force network container rs (s : files (ncontent := ncontent) (rcontent := rcontent)) record configured found :
  disconnect_checked nets_from io force network container rs s = Ok (record, configured, found) →
  resolve rs container = Ok record ∧ is_active record = false ∧ configured = bool_decide (record_network_name record = Some network) ∧
  (configured = true ∨ force = true) ∧ ∃ m, stored_nets (f_nets s) = Some m ∧ found = m !! network.
Proof using.
  unfold disconnect_checked. intros E. apply bind_Ok in E as (r & Hr%map_err_Ok & E). apply bind_Ok in E as (? & Hi & E).
  destruct (negb _ && negb force) eqn:Ef; [done|]. apply bind_Ok in E as (got & Hg%map_err_Ok & [= -> <- ->]).
  split_and!; [done| |done| |by eapply get_stored].
  - unfold require_inactive_for_network_change in Hi. by destruct (is_active record).
  - destruct (bool_decide _); [by left|right]. by destruct force.
Qed.

Lemma connect_attached io network container rs s n id ep : NoDup (map b_id rs) → runs rs id → attached (f_nets s) n id ep →
  attached (f_nets (connect_loaded nets_to nets_from recs_to io network container rs s).1) n id ep.
Proof using nets_roundtrip.
  intros Hids Hruns Hatt. unfold connect_loaded. destruct (connect_checked _ _ _ _ _ _) as [[[record config] endpoint]|e] eqn:E; [|done].
  apply connect_checked_Ok in E as (Hr & Hi & _ & m & c & Hm & Hg & He).
  pose proof (resolved_other _ _ _ _ Hids Hr Hi Hruns) as Hne.
  apply ensure_endpoint_spec in He as (Hn & Hep & Hoth & Hold & Hnew).
  destruct (NetworkStore.update _ _ _ _ _) as [f r] eqn:Eu.
  assert (attached f n id ep) as Hatt'.
  { pose proof Hatt as (m0 & c0 & Hm0 & [Hk Hf] & Hc0 & He0). rewrite Hm in Hm0. injection Hm0 as <-.
    eapply update_attached; [| |exact Eu|done].
    - intros i e Hie. destruct (decide (i = b_id record)) as [->|]; [|rewrite Hoth in Hie by done; exact (Hf _ _ _ _ Hg Hie)].
      rewrite Hep in Hie. injection Hie as <-. destruct (net_endpoints c !! b_id record) as [e0|] eqn:E0; [|by apply Hnew].
      rewrite (Hold _ eq_refl). exact (Hf _ _ _ _ Hg E0).
    - intros E. rewrite Hoth by done. rewrite Hn, (Hk _ _ Hg) in E. subst network. congruence. }
  destruct r as [x|e]; [|done]. destruct (resolve_update _ _ _) as [rs'|]; [|done].
  unfold save_records. by destruct (save_state _ _ _ _).
Qed.

Lemma disconnect_attached io force network container rs s n id ep : NoDup (map b_id rs) → runs rs id → attached (f_nets s) n id ep →
  attached (f_nets (disconnect_loaded nets_to nets_from recs_to io force network container rs s).1) n id ep.
Proof using nets_roundtrip.
  intros Hids Hruns Hatt. unfold disconnect_loaded. destruct (disconnect_checked _ _ _ _ _ _ _) as [[[record configured] found]|e] eqn:E; [|done].
  apply disconnect_checked_Ok in E as (Hr & Hi & _ & _ & m & Hm & ->). pose proof (resolved_other _ _ _ _ Hids Hr Hi Hruns) as Hne.
  destruct (drop_endpoint _ _ _ _ _ _ _ _ _) as [s1 r1] eqn:Es.
  assert (attached (f_nets s1) n id ep) as Hatt'.
  { revert Es. unfold drop_endpoint. destruct (m !! network) as [c|] eqn:Hg; [|by intros [= <- _]].
    destruct (disconnect c (b_id record)) as [[c1 e1]|e] eqn:Ed; [|by intros [= <- _]].
    destruct (NetworkStore.update _ _ _ _ _) as [f r2] eqn:Eu. intros [= <- _]. cbn [f_nets].
    pose proof Hatt as (m0 & c0 & Hm0 & [Hk Hf] & Hc0 & He0). rewrite Hm in Hm0. injection Hm0 as <-.
    unfold disconnect in Ed. apply bind_Ok in Ed as (e0 & He1%ok_or_Ok & [= <- _]).
    eapply update_attached; [| |exact Eu|done]; cbn.
    - intros i e [_ Hie]%lookup_delete_Some. exact (Hf _ _ _ _ Hg Hie).
    - rewrite (Hk _ _ Hg). intros ->. rewrite lookup_delete_ne by done. congruence. }
  destruct r1 as [x|]; [|done]. destruct (negb _); [done|]. destruct (resolve_update _ _ _); [|done].
  unfold save_records. by destruct (save_state _ _ _ _).
Qed.

(** Whatever network command runs, and whichever reads and writes of the two files fail, a running box
    keeps its place in its network: the network is still stored, with the same endpoint of the box.  Removal,
    also when it is forced, and pruning spare the network, and a running box is neither disconnected nor moved. *)
Theorem running_box_keeps_endpoint env cmd s rs n id ep
  (Hload : (load_state recs_to recs_from (ne_load env) (f_state s)).2 = Ok rs) (Hids : NoDup (map b_id rs))
  (Hruns : runs rs id) (Hatt : attached (f_nets s) n id ep) :
  attached (f_nets (run_net_cmd nets_to nets_from recs_to recs_from env cmd s)) n id ep.
Proof using nets_roundtrip.
  assert (∀ A (k : records → files → files * result net_cmd_err A),
    (∀ s', f_nets s' = f_nets s → attached (f_nets (k rs s').1) n id ep) → attached (f_nets (with_loaded_state recs_to recs_from env s k).1) n id ep) as Hwith.
  { intros A k Hk. unfold with_loaded_state. destruct (load_state _ _ _ _) as [d r]. cbn in Hload. subst r. by apply Hk. }
  destruct cmd as [now a|force names|network container|force network container|force answer]; cbn [run_net_cmd].
  - unfold execute_create. destruct (new_network now a) as [c|] eqn:Ec; [|done]. apply new_network_empty in Ec as [_ Hemp].
    destruct (NetworkStore.create _ _ _ _ _) as [f r] eqn:E. by eapply create_attached.
  - unfold execute_rm. destruct names as [|name names]; [done|]. apply Hwith. intros s' Hs. apply rm_all_attached; [done|by rewrite Hs].
  - apply Hwith. intros s' Hs. apply connect_attached; [done..|by rewrite Hs].
  - apply Hwith. intros s' Hs. apply disconnect_attached; [done..|by rewrite Hs].
  - unfold execute_prune. destruct (_ && _); [done|]. apply Hwith. intros s' Hs. unfold prune_unused_networks.
    pose proof (λ io in_use networks, prune_loop_attached io in_use networks (f_nets s') n id ep) as Hp. rewrite Hs in *.
    destruct (prune_networks _ _ _ _ _ _) as [f [removed errors]] eqn:E. cbn [fst f_nets]. apply (f_equal fst) in E. cbn [fst] in E.
    rewrite <-E. by apply Hp.
Qed.
End active.

(** ** Endpoints and records agree *)

(** Every endpoint belongs to a box that is configured for its network. *)
Definition consistent (m : gmap string NetworkConfig) (rs : records) : Prop :=
  ∀ n c id, m !! n = Some c → is_Some (net_endpoints c !! id) → ∃ r, r ∈ rs ∧ b_id r = id ∧ record_network_name r = Some n.

(** Boxes that the next load leaves as they are. *)
Record quiet (w : world) (rs : records) : Prop := {
  qu_ids : NoDup (map b_id rs);
  qu_shadow : no_shadow rs;
  qu_alive : ∀ r, r ∈ rs → gone w r = false }.

(** The boxes are the same, and active ones unchanged. *)
Definition kept_boxes (rs rs' : records) : Prop := map b_id rs' = map b_id rs ∧ ∀ r, r ∈ rs → is_active r = true → r ∈ rs'.
#[export] Instance kept_boxes_preorder : PreOrder kept_boxes.
Proof. split; [by split|]. intros x y z [E1 H1] [E2 H2]. split; [congruence|auto]. Qed.

(** An assignment of the network alone. *)
Definition network_only (f : BoxRecord → BoxRecord) : Prop :=
  ∀ r, b_id (f r) = b_id r ∧ b_name (f r) = b_name r ∧ b_status (f r) = b_status r ∧ b_pid (f r) = b_pid r.
Lemma set_network_only n : network_only (set_record_network n).
Proof. done. Qed.
Lemma clear_network_only : network_only clear_record_network.
Proof. done. Qed.
#[export] Hint Resolve set_network_only clear_network_only : a3s.

Lemma same_id rs r x : NoDup (map b_id rs) → x ∈ rs → r ∈ rs → b_id x = b_id r → x = r.
Proof.
  intros Hnd Hx Hr E. pose proof (proj2 (find_by_id_spec rs (b_id r) x Hnd) (conj Hx E)).
  pose proof (proj2 (find_by_id_spec rs (b_id r) r Hnd) (conj Hr eq_refl)). congruence.
Qed.

Lemma elem_of_update_other i f rs r : r ∈ rs → b_id r ≠ i → r ∈ update_by_id i f rs.
Proof.
  intros Hr Hne. induction rs as [|x rs IH]; [done|]. cbn. apply elem_of_cons in Hr as [->|Hr].
  - rewrite bool_decide_false by done. by left.
  - case_bool_decide; right; auto.
Qed.

Lemma elem_of_update_self f rs r : NoDup (map b_id rs) → r ∈ rs → f r ∈ update_by_id (b_id r) f rs.
Proof.
  intros Hnd Hr. induction rs as [|x rs IH]; [by apply not_elem_of_nil in Hr|]. cbn in Hnd |- *. apply list.NoDup_cons in Hnd as [Hx Hnd].
  apply elem_of_cons in Hr as [->|Hr]; [rewrite bool_decide_true by done; by left|].
  rewrite bool_decide_false; [right; auto|]. intros E. apply Hx. rewrite E. by apply (list_elem_of_fmap_2 b_id).
Qed.

Lemma quiet_update w i f rs : network_only f → quiet w rs → quiet w (update_by_id i f rs).
Proof.
  intros Hf [Hi Hs Ha]. assert (∀ r, r ∈ update_by_id i f rs → ∃ x, x ∈ rs ∧ b_id r = b_id x ∧ b_name r = b_name x ∧ gone w r = gone w x) as Hel.
  { intros r [?|(x & Hx & _ & ->)]%elem_of_update_by_id; [by exists r|]. exists x. destruct (Hf x) as (-> & -> & Hst & Hp).
    split_and!; try done. unfold gone, is_active, has_live_pid. by rewrite Hst, Hp. }
  split.
  - rewrite update_by_id_map; [done|]. intros r. apply Hf.
  - intros r x (r0 & Hr0 & -> & _ & _)%Hel (x0 & Hx0 & -> & -> & _)%Hel. by apply Hs.
  - intros r (x & Hx & _ & _ & ->)%Hel. by apply Ha.
Qed.

Lemma kept_update w i f rs : network_only f → quiet w rs → (∀ r, find_by_id rs i = Some r → is_active r = false) → kept_boxes rs (update_by_id i f rs).
Proof.
  intros Hf [Hi _ _] Hin. split; [rewrite update_by_id_map; [done|]; intros r; apply Hf|].
  intros r Hr Ha. apply elem_of_update_other; [done|]. intros <-.
  rewrite (Hin r) in Ha; [done|]. by apply find_by_id_spec.
Qed.

Section consistency.
Context {ncontent rcontent : Type}.
Context (nets_to : gmap string NetworkConfig → ncontent) (nets_from : ncontent → option (gmap string NetworkConfig)).
Context (recs_to : records → rcontent) (recs_from : rcontent → option records).
Context (nets_roundtrip : ∀ m, nets_from (nets_to m) = Some m) (recs_roundtrip : ∀ rs, recs_from (recs_to rs) = Some rs).

Abbreviation stored_nets := (stored nets_from ∅).
Abbreviation files := (files (ncontent := ncontent) (rcontent := rcontent)).

Record settled (w : world) (s : files) (m : gmap string NetworkConfig) (rs : records) : Prop := {
  se_nets : stored_nets (f_nets s) = Some m;
  se_state : f_state s = Some (recs_to rs);
  se_filed : filed m;
  se_quiet : quiet w rs;
  se_agree : consistent m rs }.

(** Every file operation succeeds. *)
Record works (w : world) (env : cmd_env (ncontent := ncontent)) : Prop := {
  wo_world : lock_works w = true ∧ read_works w = true ∧ write_works w = true;
  wo_load : ne_load env = w;
  wo_list : ne_list env = good_env;
  wo_call : ∀ n, ne_call env n = {| nc_get := good_env; nc_update := good_env; nc_remove := good_env; nc_save := w |} }.

Lemma good_modify {R} f m (step : gmap string NetworkConfig → result store_err (gmap string NetworkConfig * R)) : stored_nets f = Some m →
  match step m with
  | Ok (m', x) => ∃ f', Store.modify nets_to nets_from ∅ good_env f step = (f', Ok x) ∧ stored_nets f' = Some m'
  | Err e => Store.modify nets_to nets_from ∅ good_env f step = (f, Err e)
  end.
Proof using nets_roundtrip.
  intros Hm. destruct (step m) as [[m' x]|e] eqn:E; [|by eapply modify_step_Err].
  erewrite modify_good by done. eexists. split; [done|]. unfold stored, load. cbn. by rewrite nets_roundtrip.
Qed.

Lemma load_settled w s m rs : settled w s m rs → read_works w = true →
  load_state recs_to recs_from w (f_state s) = (f_state s, Ok rs).
Proof using recs_roundtrip.
  intros [_ Hd _ [_ _ Ha] _] Hr. unfold load_state. rewrite Hd, Hr, recs_roundtrip. cbn [default].
  by rewrite reconcile_nothing.
Qed.

Lemma get_settled w s m rs n : settled w s m rs → NetworkStore.get nets_from good_env (f_nets s) n = Ok (m !! n).
Proof using.
  intros [Hm _ _ _ _]. unfold NetworkStore.get. unfold stored in Hm. destruct (load nets_from ∅ good_env (f_nets s)); [|done].
  cbn in Hm |- *. by injection Hm as ->.
Qed.

(** Writing a network whose endpoints are accounted for. *)
Lemma settled_nets w s m rs f m' : settled w s m rs → stored_nets f = Some m' → filed m' → consistent m' rs →
  settled w {| f_nets := f; f_state := f_state s |} m' rs.
Proof using. intros [_ Hd _ Hq _] Hf Hk Hc. by split. Qed.

Lemma settled_save w (s : files) m' rs' io : lock_works w = true → write_works w = true → nc_save io = w →
  stored_nets (f_nets s) = Some m' → filed m' → quiet w rs' → consistent m' rs' →
  ∃ s', save_records recs_to io rs' s = (s', Ok ()) ∧ settled w s' m' rs'.
Proof using.
  intros Hl Hw Hio Hm Hk Hq Hc. unfold save_records, save_state, write_to_disk. rewrite Hio, Hl, Hw.
  eexists. split; [reflexivity|]. by split.
Qed.

Lemma filed_delete m n : filed m → filed (delete n m).
Proof using.
  intros [Hk Hi]. split; [intros k c [_ ?]%lookup_delete_Some; by apply Hk|intros k c i e [_ ?]%lookup_delete_Some; by eapply Hi].
Qed.
Lemma consistent_delete m rs n : consistent m rs → consistent (delete n m) rs.
Proof using. intros Hc k c id [_ ?]%lookup_delete_Some. by apply Hc. Qed.
Lemma filed_insert m c : filed m → (∀ i e, net_endpoints c !! i = Some e → ep_box_id e = i) → filed (<[net_name c := c]> m).
Proof using.
  intros [Hk Hi] Hc. split; [intros k c1 [[<- <-]|[_ ?]]%lookup_insert_Some; [done|by apply Hk]|].
  intros k c1 i e [[<- <-]|[_ ?]]%lookup_insert_Some; [apply Hc|by eapply Hi].
Qed.

(** The endpoint of a box that is configured for the network, or for none, agrees with the box's new network. *)
Lemma consistent_connect m rs r n c c' ep : consistent m rs → NoDup (map b_id rs) → r ∈ rs →
  record_network_name r = None ∨ record_network_name r = Some n → m !! n = Some c →
  ensure_endpoint c (b_id r) (b_name r) = Ok (c', ep) →
  consistent (<[n := c']> m) (update_by_id (b_id r) (set_record_network n) rs).
Proof using.
  intros Hc Hnd Hr Hnet Hn (_ & Hep & Hoth & _)%ensure_endpoint_spec k c1 id Hk Hid.
  destruct (decide (id = b_id r)) as [->|Hne].
  - exists (set_record_network n r). split_and!; [by apply elem_of_update_self|done|].
    apply lookup_insert_Some in Hk as [[<- <-]|[Hkn Hk]]; [done|]. destruct (Hc _ _ _ Hk Hid) as (x & Hx & Ex & Hxn).
    assert (x = r) as -> by by eapply same_id.
    destruct Hnet; congruence.
  - assert (∃ x, x ∈ rs ∧ b_id x = id ∧ record_network_name x = Some k) as (x & Hx & <- & Hxn).
    { apply lookup_insert_Some in Hk as [[<- <-]|[Hkn Hk]]; [rewrite Hoth in Hid by done; by eapply Hc|by eapply Hc]. }
    exists x. split_and!; [by apply elem_of_update_other|done|done].
Qed.

(** A box without endpoints may lose its network. *)
Lemma consistent_clear m rs ids : consistent m rs → (∀ n c id, m !! n = Some c → id ∈ ids → net_endpoints c !! id = None) →
  consistent m (foldl (λ rs id, update_by_id id clear_record_network rs) rs ids).
Proof using.
  revert rs. induction ids as [|i ids IH]; intros rs Hc Hno; [done|]. cbn [foldl]. apply IH; [|intros; eapply Hno; [done|by right]].
  intros n c id Hn Hid. destruct (Hc n c id Hn Hid) as (r & Hr & <- & Hrn). exists r. split_and!; [|done|done].
  apply elem_of_update_other; [done|]. intros E. rewrite E, (Hno n c i Hn) in Hid by (by left). by apply is_Some_None in Hid.
Qed.

Lemma quiet_clear w rs ids : quiet w rs → quiet w (foldl (λ rs id, update_by_id id clear_record_network rs) rs ids).
Proof using. revert rs. induction ids as [|i ids IH]; intros rs Hq; [done|]. apply IH, quiet_update; auto with a3s. Qed.

Lemma kept_clear w rs ids : quiet w rs → (∀ id r, id ∈ ids → find_by_id rs id = Some r → is_active r = false) →
  kept_boxes rs (foldl (λ rs id, update_by_id id clear_record_network rs) rs ids).
Proof using.
  revert rs. induction ids as [|i ids IH]; intros rs Hq Hin; [done|]. cbn [foldl]. etrans.
  - eapply kept_update; [apply clear_network_only|done|]. intros r Hr. eapply Hin; [by left|done].
  - apply IH; [apply quiet_update; auto with a3s|]. intros id r Hid. rewrite find_by_id_update by done.
    destruct (find_by_id rs id) as [x|] eqn:Ex; [|done]. intros [= <-]. assert (is_active x = false) by (eapply Hin; [by right|done]).
    by case_bool_decide.
Qed.

Lemma create_settled w env now a s m rs : works w env → settled w s m rs →
  ∃ m', settled w (execute_create nets_to nets_from now env a s).1 m' rs.
Proof using nets_roundtrip.
  intros Hw Hs. unfold execute_create. destruct (new_network now a) as [c|] eqn:Ec; [|by exists m].
  apply new_network_empty in Ec as [_ Hemp]. rewrite (wo_call _ _ Hw). cbn [nc_update].
  pose proof (good_modify (f_nets s) m (NetworkStore.create_step c) (se_nets _ _ _ _ Hs)) as Hg.
  unfold NetworkStore.create. unfold NetworkStore.create_step in Hg at 1. case_bool_decide.
  - rewrite Hg. exists m. by destruct s, Hs.
  - destruct Hg as (f' & -> & Hf). eexists. eapply settled_nets; [done|done|apply filed_insert; [apply Hs|by rewrite Hemp]|].
    intros k c1 id [[<- <-]|[_ Hk]]%lookup_insert_Some; [rewrite Hemp, lookup_empty; by intros [? ?]|by apply (se_agree _ _ _ _ Hs)].
Qed.

Lemma remove_settled w s m rs name : settled w s m rs → ∃ f r m',
  NetworkStore.remove nets_to nets_from good_env (f_nets s) name = (f, r) ∧ settled w {| f_nets := f; f_state := f_state s |} m' rs.
Proof using nets_roundtrip.
  intros Hs. pose proof (good_modify (f_nets s) m (NetworkStore.remove_step name) (se_nets _ _ _ _ Hs)) as Hg.
  unfold NetworkStore.remove. destruct (NetworkStore.remove_step name m) as [[m' x]|e] eqn:Est.
  - destruct Hg as (f' & -> & Hf). exists f', (Ok x), m'. split; [done|]. unfold NetworkStore.remove_step in Est.
    apply bind_Ok in Est as (c & _ & Est). case_bool_decide; [|done]. injection Est as <- <-.
    eapply settled_nets; [done|done|apply filed_delete, Hs|apply consistent_delete, Hs].
  - rewrite Hg. exists (f_nets s), (Err e), m. split; [done|]. by destruct s, Hs.
Qed.

Lemma prune_settled w io in_use networks s m rs : (∀ n, io n = good_env) → settled w s m rs →
  ∃ m', settled w {| f_nets := (prune_networks nets_to nets_from io in_use networks (f_nets s)).1; f_state := f_state s |} m' rs.
Proof using nets_roundtrip.
  intros Hio. revert s m. induction networks as [|net networks IH]; intros s m Hs; [exists m; by destruct s, Hs|]. cbn [prune_networks].
  destruct (_ || _); [by eapply IH|]. rewrite Hio. destruct (remove_settled _ _ _ _ (net_name net) Hs) as (f & r & m1 & -> & Hs1).
  destruct (IH _ _ Hs1) as (m2 & Hs2). cbn [f_nets f_state] in Hs2.
  destruct r; destruct (prune_networks _ _ _ _ _ f) as [f2 [removed errors]]; by exists m2.
Qed.

(** What pruning spares: predefined networks, networks with endpoints, networks a box is configured for. *)
Definition spared (in_use : gset string) (c : NetworkConfig) : bool :=
  is_predefined_network (net_name c) || negb (network_is_unused c in_use).

Lemma prune_loop_exact io in_use networks f m : (∀ n, io n = good_env) → stored_nets f = Some m → NetworkStore.keyed m →
  NoDup (map net_name networks) → (∀ c, c ∈ networks → m !! net_name c = Some c) → ∃ f' removed,
  prune_networks nets_to nets_from io in_use networks f = (f', (removed, [])) ∧
  removed = map net_name (List.filter (λ c, negb (spared in_use c)) networks) ∧
  ∃ m', stored_nets f' = Some m' ∧ (∀ n c, m' !! n = Some c ↔ m !! n = Some c ∧ n ∉ removed).
Proof using nets_roundtrip.
  clear recs_roundtrip recs_from recs_to rcontent. intros Hio. revert f m.
  induction networks as [|c networks IH]; intros f m Hf Hk Hnd Hin.
  { exists f, []. split_and!; [done..|]. exists m. set_solver. }
  cbn in Hnd. apply list.NoDup_cons in Hnd as [Hn Hnd]. cbn [prune_networks List.filter]. fold (spared in_use c).
  destruct (spared in_use c) eqn:Es; cbn [negb]; [apply IH; [done..|]; intros x Hx; apply Hin; by right|].
  pose proof (Hin c ltac:(by left)) as Hc. rewrite Hio. unfold NetworkStore.remove.
  pose proof (good_modify f m (NetworkStore.remove_step (net_name c)) Hf) as Hg. unfold NetworkStore.remove_step in Hg at 1.
  rewrite Hc in Hg. cbn [ok_or mbind result_bind] in Hg.
  unfold spared, network_is_unused in Es. apply orb_false_iff in Es as [_ [Es _]%negb_false_iff%andb_true_iff].
  rewrite bool_decide_true in Hg by by apply bool_decide_eq_true in Es. cbn [negb] in Hg. destruct Hg as (f1 & -> & Hf1).
  destruct (IH f1 (delete (net_name c) m) Hf1) as (f' & removed & -> & -> & m' & Hm' & Hex).
  - intros n x [_ ?]%lookup_delete_Some. by apply Hk.
  - done.
  - intros x Hx. rewrite lookup_delete_ne; [apply Hin; by right|]. intros E. apply Hn. rewrite E. by apply (list_elem_of_fmap_2 net_name).
  - eexists _, _. split_and!; [reflexivity|reflexivity|]. exists m'. split; [done|]. intros n x. rewrite Hex, lookup_delete_Some. cbn [map].
    rewrite not_elem_of_cons. naive_solver.
Qed.

(** Pruning leaves exactly the networks it should spare. *)
Lemma prune_unused_exact w env f m rs : works w env → stored_nets f = Some m → NetworkStore.keyed m → ∃ f' removed m',
  prune_unused_networks nets_to nets_from env rs f = (f', (removed, [])) ∧ stored_nets f' = Some m' ∧
  (∀ n c, m' !! n = Some c ↔ m !! n = Some c ∧
     (is_predefined_network n = true ∨ net_endpoints c ≠ ∅ ∨ ∃ r, r ∈ rs ∧ record_network_name r = Some n)).
Proof using nets_roundtrip.
  intros [_ _ Hlist Hcall] Hf Hk. unfold prune_unused_networks. rewrite Hlist.
  assert (NetworkStore.list nets_from good_env f = Ok (values m)) as ->.
  { unfold NetworkStore.list. unfold stored in Hf. destruct (load nets_from ∅ good_env f); [|done]. cbn in Hf |- *. by injection Hf as ->. }
  set (in_use := list_to_set _). set (l := sort_by _ _).
  assert (∀ c, c ∈ l ↔ m !! net_name c = Some c) as Hl.
  { intros c. subst l. rewrite sort_by_perm, elem_of_values. split; [intros (k & Hc); by rewrite (Hk _ _ Hc)|eauto]. }
  destruct (prune_loop_exact (λ name, nc_remove (ne_call env name)) in_use l f m) as (f' & removed & -> & -> & m' & Hm' & Hex);
    [intros n; by rewrite Hcall|done|done| |by intros c ?%Hl|].
  { subst l. unfold values. rewrite sort_by_perm. assert (map net_name (map_to_list m).*2 = (map_to_list m).*1) as ->; [|apply NoDup_fst_map_to_list].
    change (map net_name (map_to_list m).*2) with (net_name <$> (map_to_list m).*2). rewrite <-list_fmap_compose. apply list_fmap_ext.
    intros ? [k c] Hc. cbn. apply Hk, elem_of_map_to_list. by eapply list_elem_of_lookup_2. }
  eexists f', _, m'. split_and!; [reflexivity|done|]. intros n c. rewrite Hex.
  assert (m !! n = Some c → n ∉ map net_name (List.filter (λ c, negb (spared in_use c)) l) ↔ spared in_use c = true) as Hsp.
  { intros Hc. rewrite list_elem_of_fmap. setoid_rewrite elem_of_filter_b. setoid_rewrite negb_true_iff. setoid_rewrite Hl.
    split.
    - intros Hno. apply not_false_iff_true. intros Hs. apply Hno. exists c. by rewrite (Hk _ _ Hc).
    - intros Hs (x & -> & Hx & Hxs). congruence. }
  assert (m !! n = Some c → spared in_use c = true ↔
    is_predefined_network n = true ∨ net_endpoints c ≠ ∅ ∨ ∃ r, r ∈ rs ∧ record_network_name r = Some n) as Hs.
  { intros Hc. unfold spared, network_is_unused. rewrite (Hk _ _ Hc), orb_true_iff, negb_true_iff, andb_false_iff, negb_false_iff,
      bool_decide_eq_false, bool_decide_eq_true. subst in_use. by rewrite elem_of_list_to_set, list_elem_of_omap. }
  split; intros [Hc Hx]; (split; [done|]); [by apply Hs, Hsp|by apply Hsp, Hs].
Qed.

Lemma no_active_configured rs ids : first_active_configured rs ids = None → ∀ id r, id ∈ ids → find_by_id rs id = Some r → is_active r = false.
Proof using.
  unfold first_active_configured. intros Hn id r Hid Hr. destruct (is_active r) eqn:Ea; [|done].
  assert (b_name r ∈ omap (λ id, r ← find_by_id rs id; if is_active r then Some (b_name r) else None) ids) as Hin.
  { apply list_elem_of_omap. exists id. split; [done|]. rewrite Hr. cbn. by rewrite Ea. }
  destruct (omap _ _); [by apply not_elem_of_nil in Hin|done].
Qed.

Lemma elem_of_configured rs name id : id ∈ configured_box_ids rs name ↔ ∃ r, r ∈ rs ∧ b_id r = id ∧ record_network_name r = Some name.
Proof using.
  unfold configured_box_ids. rewrite list_elem_of_fmap. setoid_rewrite elem_of_filter_b. setoid_rewrite bool_decide_eq_true. naive_solver.
Qed.

(** The network without endpoints, and the boxes without the network. *)
Lemma consistent_forced m rs c1 name : consistent m rs → NoDup (map b_id rs) → net_endpoints c1 = ∅ →
  consistent (<[name := c1]> m) rs ∧
  consistent (<[name := c1]> m) (foldl (λ rs id, update_by_id id clear_record_network rs) rs (configured_box_ids rs name)).
Proof using.
  intros Hag Hnd Hemp. assert (consistent (<[name := c1]> m) rs) as Hcons.
  { intros k c2 id [[<- <-]|[_ Hk2]]%lookup_insert_Some; [rewrite Hemp, lookup_empty; by intros [? ?]|by apply Hag]. }
  split; [done|]. apply consistent_clear; [done|]. intros n2 c2 id Hn2 Hid. destruct (net_endpoints c2 !! id) eqn:E; [|done]. exfalso.
  apply elem_of_configured in Hid as (r & Hr & <- & Hrn).
  destruct (Hcons _ _ (b_id r) Hn2) as (x & Hx & Ex & Hxn); [by eexists|].
  assert (x = r) as -> by by eapply same_id. rewrite Hrn in Hxn. injection Hxn as <-. rewrite lookup_insert_eq in Hn2.
  injection Hn2 as <-. by rewrite Hemp, lookup_empty in E.
Qed.

(** Nothing to write means no box is configured for the network. *)
Lemma unchanged_configured rs name : NoDup (map b_id rs) →
  existsb (λ id, bool_decide (is_Some (find_by_id rs id))) (configured_box_ids rs name) = false → configured_box_ids rs name = [].
Proof using.
  intros Hnd Ex. destruct (configured_box_ids rs name) as [|i ids] eqn:Ei; [done|].
  assert (i ∈ configured_box_ids rs name) as (r & Hr & <- & _)%elem_of_configured by (rewrite Ei; by left).
  cbn in Ex. rewrite (proj2 (find_by_id_spec rs (b_id r) r Hnd) (conj Hr eq_refl)) in Ex. by rewrite bool_decide_true in Ex by by eexists.
Qed.

Lemma force_settled w io name c s m rs : lock_works w = true → write_works w = true → settled w s m rs → nc_update io = good_env →
  nc_save io = w → m !! name = Some c → ∃ rs' s' r m',
  force_disconnect_network_endpoints nets_to nets_from recs_to io name c rs s = (rs', s', r) ∧ settled w s' m' rs' ∧ kept_boxes rs rs'.
Proof using nets_roundtrip.
  intros Hl Hwr Hs Hu Hsv Hc. unfold force_disconnect_network_endpoints. cbv zeta.
  destruct (first_active_endpoint rs c); [by exists rs, s, (Err (ActiveEndpoint name s0)), m|].
  destruct (first_active_configured rs _) eqn:Ea; [by exists rs, s, (Err (ActiveConfigured name s0)), m|].
  fold (detach_all c (map_to_list (net_endpoints c)).*1). set (c1 := detach_all c _).
  destruct (detach_all_spec (map_to_list (net_endpoints c)).*1 c) as [Hn1 _]. fold c1 in Hn1.
  pose proof Hs as [Hm Hd [Hk Hi] Hq Hag]. assert (net_name c1 = name) as Hname by (rewrite Hn1; by apply Hk).
  pose proof (detach_all_empty c) as Hemp. fold c1 in Hemp.
  set (ids := configured_box_ids rs name) in *. set (rs' := foldl _ rs ids).
  pose proof (good_modify (f_nets s) m (NetworkStore.update_step c1) Hm) as Hg.
  unfold NetworkStore.update_step in Hg at 1. rewrite Hname, bool_decide_true in Hg by (rewrite Hc; by eexists).
  destruct Hg as (f' & Ef & Hf). unfold NetworkStore.update. rewrite Hu, Ef.
  assert (filed (<[name := c1]> m)) as Hfd. { rewrite <-Hname. apply filed_insert; [done|]. by rewrite Hemp. }
  destruct (consistent_forced m rs c1 name Hag (qu_ids _ _ Hq) Hemp) as [Hcons Hcons']. fold ids in Hcons'. fold rs' in Hcons'.
  assert (kept_boxes rs rs') as Hkept by (apply (kept_clear w); [done|by apply no_active_configured]).
  destruct (existsb _ ids) eqn:Ex; cbn [negb].
  - destruct (settled_save w {| f_nets := f'; f_state := f_state s |} (<[name := c1]> m) rs' io) as (s' & Es & Hs'); try done.
    { by apply quiet_clear. }
    unfold save_records in Es. cbn [f_state f_nets] in Es. destruct (save_state _ _ _ _) as [d r]. exists rs'. injection Es as <- Er.
    eexists _, _, _. split_and!; [reflexivity|exact Hs'|done].
  - assert (rs' = rs) as -> by (subst rs' ids; by rewrite (unchanged_configured rs name (qu_ids _ _ Hq) Ex)).
    eexists rs, _, _, _. split_and!; [reflexivity|by eapply settled_nets|done].
Qed.

Lemma rm_one_settled w env force name s m rs : works w env → settled w s m rs → ∃ rs' s' r m',
  network_rm_one nets_to nets_from recs_to (ne_call env name) force name rs s = (rs', s', Ok r) ∧ settled w s' m' rs' ∧ kept_boxes rs rs'.
Proof using nets_roundtrip.
  intros [(Hl & Hr & Hwr) _ _ Hcall] Hs. rewrite Hcall. unfold network_rm_one. cbn [nc_get nc_remove].
  assert (∀ s m rs0, settled w s m rs0 → kept_boxes rs rs0 → ∃ rs' s' r m', (let '(f, r) := NetworkStore.remove nets_to nets_from good_env (f_nets s) name in
    (rs0, {| f_nets := f; f_state := f_state s |}, Ok (match r with Ok _ => Ok () | Err e => Err (StoreError e) end))) = (rs', s', Ok r :> result net_cmd_err _) ∧
    settled w s' m' rs' ∧ kept_boxes rs rs') as Hrem.
  { intros s0 m0 rs0 H0 Hk0. destruct (remove_settled _ _ _ _ name H0) as (f & r & m' & -> & Hs'). eexists rs0, _, _, m'. by split_and!. }
  destruct force; cbn [negb]; [|by eapply Hrem]. rewrite (get_settled _ _ _ _ _ Hs). destruct (m !! name) as [c|] eqn:Hc; [|by eapply Hrem].
  destruct (force_settled w {| nc_get := good_env; nc_update := good_env; nc_remove := good_env; nc_save := w |} name c s m rs)
    as (rs' & s' & r & m' & -> & Hs' & Hk); [done..|]. destruct r as [x|e]; [by eapply Hrem|]. by exists rs', s', (Err e), m'.
Qed.

Lemma rm_all_settled w env force names errors s m rs : works w env → settled w s m rs →
  ∃ m' rs', settled w (rm_all nets_to nets_from recs_to env force names errors rs s).1 m' rs' ∧ kept_boxes rs rs'.
Proof using nets_roundtrip.
  intros Hw. revert errors s m rs. induction names as [|name names IH]; intros errors s m rs Hs; [by exists m, rs|]. cbn [rm_all].
  destruct (rm_one_settled w env force name s m rs Hw Hs) as (rs1 & s1 & r & m1 & -> & Hs1 & Hk1).
  destruct r as [x|e]; [destruct (IH errors s1 m1 rs1 Hs1) as (m2 & rs2 & ? & ?)|
    destruct (IH (errors ++ [(name, e)]) s1 m1 rs1 Hs1) as (m2 & rs2 & ? & ?)]; exists m2, rs2; (split; [done|by etrans]).
Qed.

Lemma update_settled w s m rs c n : settled w s m rs → is_Some (m !! n) → net_name c = n → ∃ f,
  NetworkStore.update nets_to nets_from good_env (f_nets s) c = (f, Ok ()) ∧ stored_nets f = Some (<[n := c]> m).
Proof using nets_roundtrip.
  intros Hs Hn <-. pose proof (good_modify (f_nets s) m (NetworkStore.update_step c) (se_nets _ _ _ _ Hs)) as Hg.
  unfold NetworkStore.update_step in Hg at 1. by rewrite bool_decide_true in Hg.
Qed.

Lemma connect_settled w env network container s m rs : works w env → settled w s m rs → ∃ m' rs',
  settled w (connect_loaded nets_to nets_from recs_to (ne_call env network) network container rs s).1 m' rs' ∧ kept_boxes rs rs'.
Proof using nets_roundtrip.
  intros [(Hl & Hr & Hwr) _ _ Hcall] Hs. unfold connect_loaded. rewrite Hcall.
  destruct (connect_checked _ _ _ _ _ _) as [[[record config] endpoint]|e] eqn:E; [|by exists m, rs].
  apply connect_checked_Ok in E as (Hres & Hi & Hnet & m0 & c & Hm0 & Hg & He). pose proof Hs as [Hm Hd [Hk Hf] Hq Hag].
  rewrite Hm in Hm0. injection Hm0 as <-. apply resolve_elem in Hres. cbn [nc_update].
  pose proof (consistent_connect m rs record network c config endpoint Hag (qu_ids _ _ Hq) Hres Hnet Hg He) as Hc'.
  apply ensure_endpoint_spec in He as (Hn & Hep & Hoth & Hold & Hnew). rewrite (Hk _ _ Hg) in Hn.
  destruct (update_settled w s m rs config network Hs) as (f & -> & Hf1); [by eexists|done|].
  rewrite resolve_update_own by (done || apply Hq).
  destruct (settled_save w {| f_nets := f; f_state := f_state s |} (<[network := config]> m)
    (update_by_id (b_id record) (set_record_network network) rs) {| nc_get := good_env; nc_update := good_env; nc_remove := good_env; nc_save := w |})
    as (s' & -> & Hs'); try done.
  - rewrite <-Hn. apply filed_insert; [done|]. intros i e Hie. destruct (decide (i = b_id record)) as [->|].
    + rewrite Hep in Hie. injection Hie as <-. destruct (net_endpoints c !! b_id record) as [e0|] eqn:E0; [|by apply Hnew].
      rewrite (Hold _ eq_refl). exact (Hf _ _ _ _ Hg E0).
    + rewrite Hoth in Hie by done. exact (Hf _ _ _ _ Hg Hie).
  - apply quiet_update; auto with a3s.
  - eexists _, _. split; [exact Hs'|]. eapply kept_update; [apply set_network_only|done|]. intros r Hfr.
    rewrite (proj2 (find_by_id_spec rs (b_id record) record (qu_ids _ _ Hq))) in Hfr by done. by injection Hfr as <-.
Qed.

(** Dropping the endpoint of a box leaves the box without endpoints, when it was configured for the network. *)
Lemma drop_endpoint_settled w io force configured network record s m rs : settled w s m rs → nc_update io = good_env → ∃ s' r m',
  drop_endpoint nets_to nets_from io force configured network record (m !! network) s = (s', r) ∧ settled w s' m' rs ∧
  (record ∈ rs → record_network_name record = Some network → ∀ n c, m' !! n = Some c → net_endpoints c !! b_id record = None).
Proof using nets_roundtrip.
  intros Hs Hu. pose proof Hs as [Hm Hd [Hk Hf] Hq Hag]. unfold drop_endpoint.
  assert (∀ n c, record ∈ rs → record_network_name record = Some network → m !! n = Some c → is_Some (net_endpoints c !! b_id record) → n = network) as Hown.
  { intros n c Hr Hrn Hn Hid. destruct (Hag n c _ Hn Hid) as (x & Hx & Ex & Hxn).
    assert (x = record) as -> by (eapply same_id; [apply Hq|done..]). congruence. }
  destruct (m !! network) as [c|] eqn:Hg.
  2: { eexists s, _, m. split_and!; [done|done|]. intros Hr Hrn n c Hn. apply eq_None_not_Some. intros Hid.
       rewrite (Hown n c Hr Hrn Hn Hid) in Hn. congruence. }
  unfold disconnect. destruct (net_endpoints c !! b_id record) as [e|] eqn:Ee; cbn [ok_or mbind result_bind].
  2: { eexists s, _, m. split_and!; [done|done|]. intros Hr Hrn n c1 Hn. apply eq_None_not_Some. intros Hid.
       rewrite (Hown n c1 Hr Hrn Hn Hid) in Hn. rewrite Hg in Hn. injection Hn as <-. rewrite Ee in Hid. by apply is_Some_None in Hid. }
  set (c1 := with_endpoints c (delete (b_id record) (net_endpoints c))). rewrite Hu.
  destruct (update_settled w s m rs c1 network Hs) as (f & -> & Hf1); [by eexists|exact (Hk _ _ Hg)|].
  eexists _, _, (<[network := c1]> m). split_and!; [reflexivity| |].
  - eapply settled_nets; [done|done| |].
    + assert (net_name c1 = network) as <- by exact (Hk _ _ Hg). apply filed_insert; [done|]. cbn. intros i e' [_ Hie]%lookup_delete_Some.
      exact (Hf _ _ _ _ Hg Hie).
    + intros n c2 id [[<- <-]|[_ Hn]]%lookup_insert_Some Hid; [|by eapply Hag]. apply (Hag _ c); [done|]. cbn in Hid.
      by apply lookup_delete_is_Some in Hid as [_ ?].
  - intros Hr Hrn n c2 [[<- <-]|[Hne Hn]]%lookup_insert_Some; [cbn; by rewrite lookup_delete_eq|].
    apply eq_None_not_Some. intros Hid. by destruct (Hown n c2 Hr Hrn Hn Hid).
Qed.

Lemma disconnect_settled w env force network container s m rs : works w env → settled w s m rs → ∃ m' rs',
  settled w (disconnect_loaded nets_to nets_from recs_to (ne_call env network) force network container rs s).1 m' rs' ∧ kept_boxes rs rs'.
Proof using nets_roundtrip.
  intros [(Hl & Hr & Hwr) _ _ Hcall] Hs. unfold disconnect_loaded. rewrite Hcall.
  destruct (disconnect_checked _ _ _ _ _ _ _) as [[[record configured] found]|e] eqn:E; [|by exists m, rs].
  apply disconnect_checked_Ok in E as (Hres & Hi & -> & _ & m0 & Hm0 & ->). pose proof Hs as [Hm _ _ Hq _].
  rewrite Hm in Hm0. injection Hm0 as <-. apply resolve_elem in Hres.
  destruct (drop_endpoint_settled w {| nc_get := good_env; nc_update := good_env; nc_remove := good_env; nc_save := w |} force
    (bool_decide (record_network_name record = Some network)) network record s m rs Hs eq_refl) as (s1 & r & m1 & -> & Hs1 & Hno).
  destruct r as [x|e]; [|by exists m1, rs]. case_bool_decide as Hrn; cbn [negb]; [|by exists m1, rs].
  rewrite resolve_update_own by (done || apply Hq). pose proof Hs1 as [Hm1 _ Hf1 Hq1 Hag1].
  destruct (settled_save w s1 m1 (update_by_id (b_id record) clear_record_network rs)
    {| nc_get := good_env; nc_update := good_env; nc_remove := good_env; nc_save := w |}) as (s' & -> & Hs'); try done.
  - apply quiet_update; auto with a3s.
  - apply (consistent_clear m1 rs [b_id record]); [done|]. intros n c id Hn ->%list_elem_of_singleton. by eapply Hno.
  - eexists _, _. split; [exact Hs'|]. eapply kept_update; [apply clear_network_only|done|]. intros r Hfr.
    rewrite (proj2 (find_by_id_spec rs (b_id record) record (qu_ids _ _ Hq))) in Hfr by done. by injection Hfr as <-.
Qed.

Lemma net_cmd_settled w env cmd s m rs : works w env → settled w s m rs → ∃ m' rs',
  settled w (run_net_cmd nets_to nets_from recs_to recs_from env cmd s) m' rs' ∧ kept_boxes rs rs'.
Proof using nets_roundtrip recs_roundtrip.
  intros Hw Hs. pose proof Hw as [(Hl & Hr & Hwr) Hload Hlist Hcall].
  assert (∀ A (k : records → files → files * result net_cmd_err A), with_loaded_state recs_to recs_from env s k = k rs s) as Hwith.
  { intros A k. unfold with_loaded_state. rewrite Hload, (load_settled _ _ _ _ Hs Hr). by destruct s. }
  destruct cmd as [now a|force names|network container|force network container|force answer]; cbn [run_net_cmd].
  - destruct (create_settled w env now a s m rs Hw Hs) as (m' & Hs'). by exists m', rs.
  - unfold execute_rm. destruct names; [by exists m, rs|]. rewrite Hwith. by eapply rm_all_settled.
  - unfold execute_connect. rewrite Hwith. by eapply connect_settled.
  - unfold execute_disconnect. rewrite Hwith. by eapply disconnect_settled.
  - unfold execute_prune. destruct (_ && _); [by exists m, rs|]. rewrite Hwith. unfold prune_unused_networks. cbv zeta.
    destruct (prune_settled w (λ name, nc_remove (ne_call env name)) (list_to_set (omap record_network_name rs))
      (sort_by (λ a b, String.leb (net_name a) (net_name b))
        (match NetworkStore.list nets_from (ne_list env) (f_nets s) with Ok l => l | Err _ => [] end)) s m rs) as (m' & Hs');
      [intros n; by rewrite Hcall|done|].
    destruct (prune_networks _ _ _ _ _ _) as [f [removed errors]]. by exists m', rs.
Qed.

(** C28: The network and the state file stay in agreement under any sequence of network commands, one
    after another.  Conditions: every file operation succeeds; the files agree at first (each network
    under its name, each endpoint under its box, which is recorded and configured for that network);
    the boxes have distinct ids, none has another's id as its name (a name is looked up before an
    id), and every box recorded as active has a live process throughout, so that no load reconciles
    it.  Then after the commands the files agree in the same sense, the same box ids are recorded in
    the same order, and the record of every active box is what it was. *)
Theorem networks_stay_consistent w env cmds s m rs (Hw : works w env) (Hs : settled w s m rs) :
  ∃ m' rs', settled w (foldl (λ s c, run_net_cmd nets_to nets_from recs_to recs_from env c s) s cmds) m' rs' ∧ kept_boxes rs rs'.
Proof using nets_roundtrip recs_roundtrip.
  revert s m rs Hs. induction cmds as [|cmd cmds IH]; intros s m rs Hs; [by exists m, rs|].
  destruct (net_cmd_settled w env cmd s m rs Hw Hs) as (m1 & rs1 & Hs1 & Hk1).
  destruct (IH _ _ _ Hs1) as (m2 & rs2 & Hs2 & Hk2). exists m2, rs2. split; [done|by etrans].
Qed.
End consistency.

(** ** Concrete runs *)

Definition toy_call (saves : bool) : net_call (ncontent := gmap string NetworkConfig) :=
  {| nc_get := good_env; nc_update := good_env; nc_remove := good_env;
     nc_save := {| alive := λ pid, (pid =? 1)%Z; exit_file := λ _, None; lock_works := true; read_works := true; write_works := saves |} |}.
Definition toy_cmd_env (saves : bool) : cmd_env (ncontent := gmap string NetworkConfig) :=
  {| ne_load := nc_save (toy_call true); ne_list := good_env; ne_call := λ _, toy_call saves |}.

Definition web_box : BoxRecord := set_record_network "n" (demo_record "b-1" "web" "running" (Some 1%Z) "no").
Definition idle_box : BoxRecord := demo_record "b-2" "idle" "created" None "no".
Definition toy_net : NetworkConfig :=
  match network_new "n" "10.1.0.0/24" "t" with
  | Ok c => match connect c "b-1" "web" with Ok (c, _) => c | Err _ => c end
  | Err _ => {| net_name := "n"; net_subnet := ""; net_gateway := 0; net_driver := ""; net_labels := ∅; net_endpoints := ∅;
                net_created_at := ""; net_policy := default_policy |}
  end.
Definition toy_net_files : files (ncontent := gmap string NetworkConfig) (rcontent := records) :=
  {| f_nets := {| main_file := Some {["n" := toy_net]}; tmp_file := None |}; f_state := Some [web_box; idle_box] |}.
Definition toy_run := run_net_cmd (ncontent := gmap string NetworkConfig) (rcontent := records) id Some id Some.

Lemma toy_endpoint : ∃ ep, net_endpoints toy_net = {["b-1" := ep]} ∧ ep_box_id ep = "b-1".
Proof. eexists. split; [vm_compute; reflexivity|reflexivity]. Qed.

Lemma toy_filed : filed {["n" := toy_net]}.
Proof.
  destruct toy_endpoint as (ep & He & Hid). split.
  - intros n c [<- <-]%lookup_singleton_Some. done.
  - intros n c id e [<- <-]%lookup_singleton_Some. rewrite He. by intros [<- <-]%lookup_singleton_Some.
Qed.

Lemma toy_settled : settled Some id (nc_save (toy_call true)) toy_net_files {["n" := toy_net]} [web_box; idle_box].
Proof.
  destruct toy_endpoint as (ep & He & Hid). split; [reflexivity|reflexivity|exact toy_filed| |].
  - split; [apply (bool_decide_unpack _); vm_compute; reflexivity| |].
    + intros r x Hr Hx. rewrite !elem_of_cons, elem_of_nil in Hr, Hx. destruct Hr as [->|[->|[]]], Hx as [->|[->|[]]]; vm_compute; congruence.
    + intros r Hr. rewrite !elem_of_cons, elem_of_nil in Hr. by destruct Hr as [->|[->|[]]].
  - intros n c i [<- <-]%lookup_singleton_Some. rewrite He. intros [e [<- _]%lookup_singleton_Some]. exists web_box.
    split_and!; [by left|done|done].
Qed.

Lemma toy_works : works (nc_save (toy_call true)) (toy_cmd_env true).
Proof. by split. Qed.

(** The running box keeps its network when it is removed by force; the saves of the command fail here. *)
Lemma running_box_keeps_endpoint_witness :
  ∃ ep, attached Some (f_nets (toy_run (toy_cmd_env false) (NRm true ["n"]) toy_net_files)) "n" "b-1" ep.
Proof.
  destruct toy_endpoint as (ep & He & Hid). exists ep.
  refine (running_box_keeps_endpoint (ncontent := gmap string NetworkConfig) (rcontent := records) id Some id Some (λ _, eq_refl)
    (toy_cmd_env false) (NRm true ["n"]) toy_net_files [web_box; idle_box] "n" "b-1" ep _ _ _ _).
  - reflexivity.
  - apply (bool_decide_unpack _). vm_compute. reflexivity.
  - by exists web_box.
  - exists {["n" := toy_net]}, toy_net. split_and!; [reflexivity|exact toy_filed|done|by rewrite He, lookup_singleton_eq].
Defined.

Definition toy_cmds : list net_cmd :=
  [NConnect "n" "idle"; NRm true ["n"]; NDisconnect false "n" "idle"; NPrune true ""].

Lemma networks_stay_consistent_witness : ∃ m' rs',
  settled Some id (nc_save (toy_call true)) (foldl (λ s c, toy_run (toy_cmd_env true) c s) toy_net_files toy_cmds) m' rs' ∧ kept_boxes [web_box; idle_box] rs'.
Proof.
  exact (networks_stay_consistent (ncontent := gmap string NetworkConfig) (rcontent := records) id Some id Some (λ _, eq_refl) (λ _, eq_refl)
    (nc_save (toy_call true)) (toy_cmd_env true) toy_cmds toy_net_files {["n" := toy_net]} [web_box; idle_box] toy_works toy_settled).
Defined.

(** The network is written before the boxes: when the second write fails the endpoint of a box that is not
    configured for the network is left behind. *)
Lemma half_connected :
  let s := toy_run (toy_cmd_env false) (NConnect "n" "idle") toy_net_files in
  (∃ c, main_file (f_nets s) = Some {["n" := c]} ∧ is_Some (net_endpoints c !! "b-2")) ∧ f_state s = Some [web_box; idle_box].
Proof.
  cbv zeta. split; [eexists; split; [vm_compute; reflexivity|vm_compute; by eexists]|vm_compute; reflexivity].
Qed.
