(* ===== verification/Prune.v ===== *)
(** * Prune: images that boxes use, and the commands that remove the rest

    [cli/src/image_usage.rs], [cli/src/commands/rmi.rs], [image_prune.rs] and [system_prune.rs].  Which
    stored images a box protects, how a query names stored images, and the commands that remove images,
    boxes and networks.  The store is ImageStore.v's, the files those of NetworkCmd.v; every removal may
    fail. *)

From Stdlib Require Import ZArith Lia Ascii String.
From stdpp Require Import base gmap sets strings list numbers.
From S2P Require Import Prelude RustStr Network Store BoxState Lifecycle ComposeCmd NetworkCmd Reference ImageStore.

Local Open Scope string_scope.
Local Open Scope list_scope.

(** ** Names of images *)

Inductive ImageReferenceScope := AllBoxes | ActiveBoxes.
Inductive ImagePruneMode := Dangling | Unused.
Inductive MatchMode := ExactMatch | AliasMatch | DigestMatch.

Definition is_lower_hex (a : ascii) : bool :=
  let b := Z.of_N (N_of_ascii a) in ((48 <=? b) && (b <=? 57) || (97 <=? b) && (b <=? 102))%Z.

Definition is_digest_reference (reference : string) : bool :=
  starts_with "sha256:" reference ||
  ((12 <=? String.length reference)%nat && (String.length reference <=? 64)%nat && str_forallb is_lower_hex reference).

Definition digest_matches (stored_digest query : string) : bool :=
  bool_decide (stored_digest = query) ||
  (let query_hex := default query (strip_prefix "sha256:" query) in
   let stored_hex := default stored_digest (strip_prefix "sha256:" stored_digest) in
   negb (is_empty query_hex) && starts_with query_hex stored_hex).

Definition reference_aliases (reference : string) : gset string :=
  let reference := trim reference in
  if is_empty reference then ∅
  else {[reference]} ∪
       (if is_digest_reference reference then ∅
        else match parse_reference reference with Ok parsed => {[full_reference parsed]} | Err _ => ∅ end).

Definition normalize_reference (reference : string) : string :=
  if is_digest_reference reference then reference
  else match parse_reference reference with Ok parsed => full_reference parsed | Err _ => reference end.

Definition is_dangling_reference (reference : string) : bool :=
  let reference := trim reference in
  is_empty reference || bool_decide (reference = "<none>") || bool_decide (reference = "<none>:<none>")
  || starts_with "sha256:" reference.

(** ** Which images boxes protect *)

Definition should_include_record (scope : ImageReferenceScope) (r : BoxRecord) : bool :=
  match scope with AllBoxes => true | ActiveBoxes => is_active r end.

Definition referenced_images (rs : records) (scope : ImageReferenceScope) : gset string :=
  foldl (λ references r, if should_include_record scope r then references ∪ reference_aliases (b_image r) else references) ∅ rs.

Definition is_protected_reference (reference : string) (protected_references : gset string) : bool :=
  negb (bool_decide (reference_aliases reference ## protected_references)).

Definition is_prunable_reference (reference : string) (protected_references : gset string) (mode : ImagePruneMode) : bool :=
  if is_protected_reference reference protected_references then false
  else match mode with Dangling => is_dangling_reference reference | Unused => true end.

(** ** Which images a query names *)

Definition matches (query : string) (mode : MatchMode) (image : StoredImage) : bool :=
  match mode with
  | ExactMatch => bool_decide (si_reference image = query)
  | AliasMatch => negb (bool_decide (reference_aliases (si_reference image) ## reference_aliases query))
  | DigestMatch => is_digest_reference query && digest_matches (si_digest image) query
  end.

Definition matching_images (images : list StoredImage) (query : string) (mode : MatchMode) : list StoredImage :=
  foldl (λ found image,
    if matches query mode image && negb (existsb (λ m, bool_decide (si_reference m = si_reference image)) found)
    then found ++ [image] else found) [] images.

(** An ambiguous query, with what it matches in order. *)
Record ambiguous := { am_query : string; am_references : list string }.
Definition ambiguous_reference_error (query : string) (found : list StoredImage) : ambiguous :=
  {| am_query := query; am_references := sort_by String.leb (map si_reference found) |}.

Definition resolve_stored_image (images : list StoredImage) (query : string) : result ambiguous (option StoredImage) :=
  let query := trim query in
  if is_empty query then Ok None
  else match matching_images images query ExactMatch with
       | [i] => Ok (Some i)
       | _ :: _ as found => Err (ambiguous_reference_error query found)
       | [] =>
           match matching_images images query AliasMatch with
           | [i] => Ok (Some i)
           | _ :: _ as found => Err (ambiguous_reference_error query found)
           | [] =>
               match matching_images images query DigestMatch with
               | [i] => Ok (Some i)
               | _ :: _ as found => Err (ambiguous_reference_error query found)
               | [] => Ok None
               end
           end
       end.

Definition all_matching_images (images : list StoredImage) (query : string) : list StoredImage :=
  let query := trim query in
  if is_empty query then []
  else default [] (head (List.filter (λ found, negb (bool_decide (found = [])))
         (map (matching_images images query) [ExactMatch; AliasMatch; DigestMatch]))).

Inductive required_image_error := Ambiguously (a : ambiguous) | NoImage (query : string).
Definition resolve_required_stored_image (images : list StoredImage) (query : string) : result required_image_error StoredImage :=
  found ← map_err Ambiguously (resolve_stored_image images query); ok_or (NoImage query) found.

(** ** Removing images *)

(** How one removal goes: which directories can be removed, and whether the index is saved. *)
Record removal := { rm_dirs : string → bool; rm_saves : bool }.
Definition good_removal : removal := {| rm_dirs := λ _, true; rm_saves := true |}.

Inductive rmi_error := RmiMissing (query : string) | RmiAmbiguous (query : string) (a : ambiguous) | RmiProtected (reference : string)
  | RmiStore (reference : string) (e : store_error).

Section commands.
Context `{HashOrder}.

Definition store_remove (io : string → removal) (reference : string) (s : ImageStore) : ImageStore * result store_error () :=
  ImageStore.remove (rm_dirs (io reference)) (rm_saves (io reference)) reference s.

(** One target of [rmi]: the store, the references removed, the errors. *)
Definition rmi_target (io : string → removal) (force : bool) (protected_images : gset string)
    (st : ImageStore * list string * list rmi_error) (target : StoredImage) : ImageStore * list string * list rmi_error :=
  let '(s, removed, errors) := st in
  if is_protected_reference (si_reference target) protected_images then (s, removed, errors ++ [RmiProtected (si_reference target)])
  else match store_remove io (si_reference target) s with
       | (s, Ok _) => (s, removed ++ [si_reference target], errors)
       | (s, Err e) => (s, removed, if force then errors else errors ++ [RmiStore (si_reference target) e])
       end.

Definition rmi_query (io : string → removal) (force : bool) (protected_images : gset string)
    (st : ImageStore * list string * list rmi_error) (query : string) : ImageStore * list string * list rmi_error :=
  let '(s, removed, errors) := st in
  let targets :=
    if force then Ok (all_matching_images (images s) query)
    else match resolve_stored_image (images s) query with
         | Ok (Some target) => Ok [target]
         | Ok None => Err (RmiMissing query)
         | Err a => Err (RmiAmbiguous query a)
         end in
  match targets with
  | Err e => (s, removed, errors ++ [e])
  | Ok targets => foldl (rmi_target io force protected_images) (s, removed, errors) targets
  end.

(** [None]: the state file cannot be loaded. *)
Definition protected_by (loaded : option records) (scope : ImageReferenceScope) : gset string :=
  from_option (λ rs, referenced_images rs scope) ∅ loaded.

(** The references of the images, and the errors that make it fail. *)
Definition execute_rmi (io : string → removal) (loaded : option records) (force : bool) (queries : list string) (s : ImageStore)
    : ImageStore * list string * list rmi_error :=
  foldl (rmi_query io force (protected_by loaded AllBoxes)) (s, [], []) queries.

(** One image of a prune: the store, how many went, the bytes they had, the errors. *)
Definition prune_image (io : string → removal) (st : ImageStore * nat * Z * list (string * store_error)) (img : StoredImage)
    : ImageStore * nat * Z * list (string * store_error) :=
  let '(s, count, freed, errors) := st in
  match store_remove io (si_reference img) s with
  | (s, Ok _) => (s, S count, wrap 64 (freed + si_size img), errors)
  | (s, Err e) => (s, count, freed, errors ++ [(si_reference img, e)])
  end.
Definition prune_images (io : string → removal) (to_remove : list StoredImage) (s : ImageStore)
    : ImageStore * nat * Z * list (string * store_error) := foldl (prune_image io) (s, O, 0%Z, []) to_remove.

Definition prune_mode (all : bool) : ImagePruneMode := if all then Unused else Dangling.

Definition prunable (loaded : option records) (scope : ImageReferenceScope) (all : bool) (s : ImageStore) : list StoredImage :=
  List.filter (λ img, is_prunable_reference (si_reference img) (protected_by loaded scope) (prune_mode all)) (images s).

Definition execute_image_prune (io : string → removal) (loaded : option records) (all force : bool) (s : ImageStore)
    : ImageStore * nat * Z * list (string * store_error) :=
  let to_remove := prunable loaded AllBoxes all s in
  if negb force then (s, O, 0%Z, []) else prune_images io to_remove s.
End commands.

(** ** Everything at once *)

Section system.
Context `{HashOrder} {ncontent rcontent : Type}.
Context (nets_to : gmap string NetworkConfig → ncontent) (nets_from : ncontent → option (gmap string NetworkConfig)).
Context (recs_to : records → rcontent) (recs_from : rcontent → option records).

(** The files, the image store if there is one that opens, and the directories of boxes. *)
Record prune_machine := { mc_files : files (ncontent := ncontent) (rcontent := rcontent); mc_store : option ImageStore; mc_dirs : gset string }.

(** The machine while boxes, images and networks are removed; each phase loads the boxes again. *)
Record prune_env := {
  pv_boxes : world; pv_remove : string → world; pv_dir : string → bool; pv_images : world; pv_image : string → removal;
  pv_nets : cmd_env (ncontent := ncontent) }.

Definition is_prunable_box (r : BoxRecord) : bool := bool_decide (b_status r ∈ ["stopped"; "dead"; "created"]).

(** The boxes in memory and on disk, the directories, how many went. *)
Definition prune_box (pv : prune_env) (st : records * option rcontent * gset string * nat) (r : BoxRecord)
    : records * option rcontent * gset string * nat :=
  let '(rs, d, dirs, n) := st in
  let dirs := if pv_dir pv (b_box_dir r) then dirs ∖ {[b_box_dir r]} else dirs in
  match BoxState.remove recs_to (pv_remove pv (b_id r)) (b_id r) rs d with
  | (rs, d, Ok _) => (rs, d, dirs, S n)
  | (rs, d, Err _) => (rs, d, dirs, n)
  end.

(** [None] in the outcome: the command was not confirmed.  The counts of boxes and images, the networks, the
    bytes. *)
Definition execute_system_prune (pv : prune_env) (all force : bool) (mc : prune_machine)
    : prune_machine * result state_err (option (nat * nat * list string * Z)) :=
  if negb force then (mc, Ok None)
  else match load_state recs_to recs_from (pv_boxes pv) (f_state (mc_files mc)) with
  | (d, Err e) => ({| mc_files := {| f_nets := f_nets (mc_files mc); f_state := d |}; mc_store := mc_store mc; mc_dirs := mc_dirs mc |}, Err e)
  | (d, Ok rs) =>
      let '(_, d, dirs, boxes_removed) := foldl (prune_box pv) (rs, d, mc_dirs mc, O) (List.filter is_prunable_box rs) in
      match load_state recs_to recs_from (pv_images pv) d with
      | (d, Err e) => ({| mc_files := {| f_nets := f_nets (mc_files mc); f_state := d |}; mc_store := mc_store mc; mc_dirs := dirs |}, Err e)
      | (d, Ok rs) =>
          let '(store, images_removed, freed) :=
            match mc_store mc with
            | Some s => let '(s, n, freed, _) := prune_images (pv_image pv) (prunable (Some rs) ActiveBoxes all s) s in (Some s, n, freed)
            | None => (None, O, 0%Z)
            end in
          match load_state recs_to recs_from (ne_load (pv_nets pv)) d with
          | (d, Err e) => ({| mc_files := {| f_nets := f_nets (mc_files mc); f_state := d |}; mc_store := store; mc_dirs := dirs |}, Err e)
          | (d, Ok rs) =>
              let '(f, (networks, _)) := prune_unused_networks nets_to nets_from (pv_nets pv) rs (f_nets (mc_files mc)) in
              ({| mc_files := {| f_nets := f; f_state := d |}; mc_store := store; mc_dirs := dirs |},
               Ok (Some (boxes_removed, images_removed, networks, freed)))
          end
      end
  end.
End system.

(** ** Images in use *)

(** The box names the stored image: in the same words, or in words that parse to the same reference. *)
Inductive names_image (given stored : string) : Prop :=
  | same_text : trim given = trim stored → is_empty (trim given) = false → names_image given stored
  | same_parsed r : parse_reference (trim given) = Ok r → parse_reference (trim stored) = Ok r →
      is_digest_reference (trim given) = false → is_digest_reference (trim stored) = false → names_image given stored.

Lemma names_alias given stored : names_image given stored → ∃ x, x ∈ reference_aliases given ∧ x ∈ reference_aliases stored.
Proof.
  assert (∀ s r, parse_reference (trim s) = Ok r → is_digest_reference (trim s) = false → full_reference r ∈ reference_aliases s) as Hfull.
  { intros s r Hp Hd. unfold reference_aliases. rewrite Hd, Hp. destruct (is_empty (trim s)) eqn:E; [|set_solver].
    destruct (trim s); [done|done]. }
  intros [Heq Hne|r Hg Hs Hdg Hds]; [|by exists (full_reference r); auto].
  exists (trim given). unfold reference_aliases. rewrite <-Heq, Hne. set_solver.
Qed.

Lemma elem_of_referenced rs scope x :
  x ∈ referenced_images rs scope ↔ ∃ r, r ∈ rs ∧ should_include_record scope r = true ∧ x ∈ reference_aliases (b_image r).
Proof.
  unfold referenced_images. assert (∀ acc, x ∈ foldl (λ references r, if should_include_record scope r
      then references ∪ reference_aliases (b_image r) else references) acc rs ↔
    x ∈ acc ∨ ∃ r, r ∈ rs ∧ should_include_record scope r = true ∧ x ∈ reference_aliases (b_image r)) as Hacc; [|rewrite Hacc; set_solver].
  induction rs as [|r rs IH]; intros acc; cbn [foldl]; [set_solver|]. rewrite IH. setoid_rewrite elem_of_cons.
  destruct (should_include_record scope r) eqn:E; [rewrite elem_of_union; naive_solver|]. split; [naive_solver|].
  intros [?|(r' & [->|?] & ? & ?)]; [by left|congruence|right; eauto].
Qed.

Lemma protected_true reference refs : is_protected_reference reference refs = true ↔ ∃ x, x ∈ reference_aliases reference ∧ x ∈ refs.
Proof.
  unfold is_protected_reference. rewrite negb_true_iff, bool_decide_eq_false. split; [|set_solver].
  intros Hd. destruct (set_choose_or_empty (reference_aliases reference ∩ refs)) as [[x Hx]|He]; [exists x; set_solver|].
  exfalso. apply Hd. set_solver.
Qed.

(** The stored image is named by a box. *)
Definition in_use (rs : records) (reference : string) : Prop := ∃ r, r ∈ rs ∧ names_image (b_image r) reference.

Lemma in_use_protected rs reference : in_use rs reference → is_protected_reference reference (referenced_images rs AllBoxes) = true.
Proof.
  intros (r & Hr & (x & Hx & Hx')%names_alias). apply protected_true. exists x. split; [done|]. apply elem_of_referenced. by exists r.
Qed.

(** ** What a removal leaves *)

Record refs_ok (s : ImageStore) : Prop := {
  ro_key : ∀ k i, st_index s !! k = Some i → si_reference i = k;
  ro_digest : ∀ k i, st_index s !! k = Some i → starts_with "sha256:" (si_digest i) = true ∧ si_path i = dir_name (si_digest i) }.

(** The images of [P] are as they were, with their layouts, and no image is new. *)
Record spares (P : string → Prop) (s s' : ImageStore) : Prop := {
  sp_sub : st_index s' ⊆ st_index s;
  sp_index : ∀ k i, P k → st_index s !! k = Some i → st_index s' !! k = Some i;
  sp_dirs : ∀ k i, st_index s' !! k = Some i → st_dirs s' !! si_path i = st_dirs s !! si_path i }.

#[export] Instance spares_preorder P : PreOrder (spares P).
Proof.
  split; [by split|]. intros s1 s2 s3 [A1 B1 C1] [A2 B2 C2]. split; [by etrans|auto|].
  intros k i Hk. rewrite (C2 k i Hk). apply (C1 k). by eapply lookup_weaken.
Qed.

Lemma refs_ok_sub s s' : refs_ok s → st_index s' ⊆ st_index s → refs_ok s'.
Proof. intros [Hk Hd] Hsub. split; intros k i Hi; [apply Hk|apply (Hd k)]; by eapply lookup_weaken. Qed.

Section kept_images.
Context `{HashOrder}.

Lemma remove_dirs_other can removed index dirs p : (∀ i, i ∈ removed → si_path i = p → ∃ k o, index !! k = Some o ∧ si_digest o = si_digest i) →
  (remove_dirs can removed index dirs).1 !! p = dirs !! p.
Proof.
  revert dirs. induction removed as [|i removed IH]; intros dirs Hp; [done|]. cbn [remove_dirs].
  assert (∀ dirs, (remove_dirs can removed index dirs).1 !! p = dirs !! p) as IH' by (intros d; apply IH; intros j Hj; apply Hp; by right).
  destruct (existsb _ _) eqn:Ex; [apply IH'|]. destruct (dirs !! si_path i); [|apply IH']. destruct (can _); [|done].
  rewrite IH'. destruct (decide (si_path i = p)) as [E|Hne]; [|by rewrite lookup_delete_ne].
  exfalso. destruct (Hp i ltac:(by left) E) as (k & o & Hk & Ho). rewrite <-not_true_iff_false in Ex. apply Ex, existsb_images.
  exists k, o. by rewrite bool_decide_eq_true.
Qed.

(** Removing one reference, whatever fails. *)
Lemma store_remove_spec io k i s s' r : refs_ok s → st_index s !! k = Some i → store_remove io k s = (s', r) →
  st_index s' = delete k (st_index s) ∧
  (∀ k' j, k' ≠ k → st_index s !! k' = Some j → st_dirs s' !! si_path j = st_dirs s !! si_path j).
Proof.
  intros [_ Hd] Hk. unfold store_remove, ImageStore.remove. rewrite Hk. cbn [remove_keys]. rewrite Hk.
  assert (∀ k' j, k' ≠ k → st_index s !! k' = Some j →
    (remove_dirs (rm_dirs (io k)) [i] (delete k (st_index s)) (st_dirs s)).1 !! si_path j = st_dirs s !! si_path j) as Hdirs.
  { intros k' j Hne Hj. apply remove_dirs_other. intros x ->%list_elem_of_singleton Hp. exists k', j. split; [by rewrite lookup_delete_ne|].
    destruct (Hd _ _ Hj) as [Hs1 Hp1], (Hd _ _ Hk) as [Hs2 Hp2]. apply dir_name_inj; congruence. }
  destruct (remove_dirs _ _ _ _) as [dirs [x|e]]; cbn [fst] in Hdirs; [|by intros [= <- _]].
  unfold save_index. destruct (rm_saves (io k)); intros [= <- _]; done.
Qed.

Lemma store_remove_spares (P : string → Prop) io k i s s' r : refs_ok s → st_index s !! k = Some i → ¬ P k →
  store_remove io k s = (s', r) → spares P s s' ∧ refs_ok s' ∧ st_index s' = delete k (st_index s).
Proof.
  intros Hs Hk Hn E. destruct (store_remove_spec _ _ _ _ _ _ Hs Hk E) as [Hi Hd].
  assert (st_index s' ⊆ st_index s) as Hsub by (rewrite Hi; apply delete_subseteq). split_and!; [|by eapply refs_ok_sub|done].
  split; [done| |].
  - intros k' j Hp Hj. rewrite Hi, lookup_delete_ne; [done|]. by intros ->.
  - intros k' j. rewrite Hi. intros [Hne Hj]%lookup_delete_Some. by eapply Hd.
Qed.

(** Distinct stored images. *)
Definition targets_of (s : ImageStore) (l : list StoredImage) : Prop :=
  NoDup (map si_reference l) ∧ ∀ t, t ∈ l → is_Some (st_index s !! si_reference t).

Lemma targets_next s s' t l : targets_of s (t :: l) → (∀ k, k ≠ si_reference t → st_index s' !! k = st_index s !! k) → targets_of s' l.
Proof.
  intros [Hnd Hin] Hs. cbn in Hnd. apply list.NoDup_cons in Hnd as [Hn Hnd]. split; [done|]. intros x Hx. rewrite Hs; [apply Hin; by right|].
  intros E. apply Hn. rewrite <-E. by apply (list_elem_of_fmap_2 si_reference).
Qed.

Lemma images_targets s : refs_ok s → targets_of s (images s).
Proof.
  intros [Hk _]. split.
  - assert (map si_reference (images s) = hash_keys (st_index s)) as ->; [|apply NoDup_hash_keys].
    unfold images, hash_keys. change (map si_reference (hash_iter (st_index s)).*2) with (si_reference <$> (hash_iter (st_index s)).*2).
    rewrite <-list_fmap_compose. apply list_fmap_ext. intros ? [k i] Hi. cbn. apply Hk, elem_of_hash_iter. by eapply list_elem_of_lookup_2.
  - intros t (k & Hi)%elem_of_images. rewrite (Hk _ _ Hi). by eexists.
Qed.

Lemma filter_targets s p l : targets_of s l → targets_of s (List.filter p l).
Proof.
  intros [Hnd Hin]. split; [by apply NoDup_map_filter|]. intros t [Ht _]%elem_of_filter_b. by apply Hin.
Qed.

Lemma matching_images_spec l query mode : NoDup (map si_reference (matching_images l query mode)) ∧
  (∀ i, i ∈ matching_images l query mode → i ∈ l ∧ matches query mode i = true).
Proof.
  unfold matching_images.
  assert (∀ acc, NoDup (map si_reference acc) → let r := foldl (λ found image,
      if matches query mode image && negb (existsb (λ m, bool_decide (si_reference m = si_reference image)) found)
      then found ++ [image] else found) acc l in
    NoDup (map si_reference r) ∧ ∀ i, i ∈ r → i ∈ acc ∨ (i ∈ l ∧ matches query mode i = true)) as Hacc.
  { induction l as [|x l IH]; intros acc Hnd; [split; auto|]. cbn [foldl].
    destruct (matches query mode x && _) eqn:E.
    - apply andb_true_iff in E as [Hm Hn%negb_true_iff]. destruct (IH (acc ++ [x])) as [H1 H2].
      { rewrite map_app. apply list.NoDup_app. split_and!; [done| |apply NoDup_singleton]. intros y Hy ->%list_elem_of_singleton.
        rewrite <-not_true_iff_false in Hn. apply Hn, existsb_exists. apply list_elem_of_fmap in Hy as (z & Ez & Hz).
        exists z. split; [by apply list_elem_of_In|by apply bool_decide_eq_true]. }
      split; [done|]. intros i [Hi|[? ?]]%H2; [|right; split; [by right|done]].
      apply elem_of_app in Hi as [?| ->%list_elem_of_singleton]; [by left|right; split; [by left|done]].
    - destruct (IH acc Hnd) as [H1 H2]. split; [done|]. intros i [?|[? ?]]%H2; [by left|right; split; [by right|done]]. }
  destruct (Hacc [] (NoDup_nil_2)) as [H1 H2]. split; [done|]. intros i [Hi|?]%H2; [by apply not_elem_of_nil in Hi|done].
Qed.

Lemma matching_targets s query mode : refs_ok s → targets_of s (matching_images (images s) query mode).
Proof.
  intros Hs. destruct (matching_images_spec (images s) query mode) as [Hnd Hin]. split; [done|].
  intros t [Ht _]%Hin. by apply (images_targets s Hs).
Qed.

(** A query without force names one image, the only one of the first kind of match that has any. *)
Lemma resolve_stored_Some l query i : resolve_stored_image l query = Ok (Some i) → ∃ mode, matching_images l (trim query) mode = [i].
Proof.
  unfold resolve_stored_image. destruct (is_empty _); [done|].
  destruct (matching_images l _ ExactMatch) as [|x [|]] eqn:E1; [|intros [= <-]; by exists ExactMatch|done].
  destruct (matching_images l _ AliasMatch) as [|x [|]] eqn:E2; [|intros [= <-]; by exists AliasMatch|done].
  destruct (matching_images l _ DigestMatch) as [|x [|]] eqn:E3; [done|intros [= <-]; by exists DigestMatch|done].
Qed.

Lemma all_matching_mode l query : all_matching_images l query = [] ∨ ∃ mode, all_matching_images l query = matching_images l (trim query) mode.
Proof.
  unfold all_matching_images. destruct (is_empty _); [by left|]. cbn [map List.filter].
  repeat case_bool_decide; cbn; eauto.
Qed.

Lemma rmi_targets_spares io force prot targets s removed errors : refs_ok s → targets_of s targets →
  let s' := (foldl (rmi_target io force prot) (s, removed, errors) targets).1.1 in
  spares (λ k, is_protected_reference k prot = true) s s' ∧ refs_ok s'.
Proof.
  revert s removed errors. induction targets as [|t targets IH]; intros s removed errors Hs Ht; [done|]. cbn [foldl rmi_target].
  destruct (is_protected_reference _ prot) eqn:Ep; [by apply IH; [|eapply targets_next]|].
  destruct (proj2 Ht t ltac:(by left)) as [i Hi].
  destruct (store_remove io (si_reference t) s) as [s1 r] eqn:Er.
  destruct (store_remove_spares (λ k, is_protected_reference k prot = true) _ _ _ _ _ _ Hs Hi ltac:(cbn beta; congruence) Er) as (Hsp & Hs1 & Hi1).
  assert (targets_of s1 targets) as Ht1.
  { eapply targets_next; [done|]. intros k Hk. rewrite Hi1. by rewrite lookup_delete_ne. }
  destruct r as [x|e]; [destruct (IH s1 (removed ++ [si_reference t]) errors Hs1 Ht1)|
    destruct (IH s1 removed (if force then errors else errors ++ [RmiStore (si_reference t) e]) Hs1 Ht1)]; (split; [by etrans|done]).
Qed.

Lemma rmi_spares io loaded force queries s : refs_ok s →
  spares (λ k, is_protected_reference k (protected_by loaded AllBoxes) = true) s (execute_rmi io loaded force queries s).1.1.
Proof.
  unfold execute_rmi. generalize (@nil string) as removed, (@nil rmi_error) as errors. revert s.
  induction queries as [|q queries IH]; intros s removed errors Hs; [done|]. cbn [foldl].
  destruct (rmi_query _ _ _ _ q) as [[s1 removed1] errors1] eqn:E.
  assert (spares (λ k, is_protected_reference k (protected_by loaded AllBoxes) = true) s s1 ∧ refs_ok s1) as [Hsp Hs1]; [|etrans; [exact Hsp|by apply IH]].
  unfold rmi_query in E. cbv zeta in E. destruct (if force then _ else _) as [targets|e] eqn:Et; [|by injection E as <- _ _].
  assert (targets_of s targets) as Ht.
  { destruct force.
    - injection Et as <-. destruct (all_matching_mode (images s) q) as [->|[mode ->]]; [|by apply matching_targets].
      split; [apply NoDup_nil_2|]. by intros t ?%not_elem_of_nil.
    - destruct (resolve_stored_image (images s) q) as [[i|]|a] eqn:Er; [|done|done]. injection Et as <-.
      apply resolve_stored_Some in Er as [mode <-]. by apply matching_targets. }
  pose proof (rmi_targets_spares io force (protected_by loaded AllBoxes) targets s removed errors Hs Ht) as Hr. by rewrite E in Hr.
Qed.

(** Exactly the images that are asked for go from the index, whatever fails. *)
Lemma prune_images_spec io l s : refs_ok s → targets_of s l → let s' := (prune_images io l s).1.1.1 in
  spares (λ k, k ∉ map si_reference l) s s' ∧ refs_ok s' ∧ (∀ k i, st_index s' !! k = Some i ↔ st_index s !! k = Some i ∧ k ∉ map si_reference l).
Proof.
  unfold prune_images. generalize O as count, 0%Z as freed, (@nil (string * store_error)) as errors. revert s.
  induction l as [|t l IH]; intros s count freed errors Hs Ht; [split_and!; [done|done|set_solver]|]. cbn [foldl prune_image].
  destruct (proj2 Ht t ltac:(by left)) as [i Hi]. destruct (store_remove io (si_reference t) s) as [s1 r] eqn:Er.
  destruct (store_remove_spares (λ k, k ∉ map si_reference (t :: l)) _ _ _ _ _ _ Hs Hi ltac:(set_solver) Er) as (Hsp & Hs1 & Hi1).
  assert (targets_of s1 l) as Ht1.
  { eapply targets_next; [done|]. intros k Hk. rewrite Hi1. by rewrite lookup_delete_ne. }
  assert (∀ count freed errors, let s' := (foldl (prune_image io) (s1, count, freed, errors) l).1.1.1 in
    spares (λ k, k ∉ map si_reference (t :: l)) s s' ∧ refs_ok s' ∧
    (∀ k i, st_index s' !! k = Some i ↔ st_index s !! k = Some i ∧ k ∉ map si_reference (t :: l))) as Hgo; [|by destruct r; apply Hgo].
  intros c f es. destruct (IH s1 c f es Hs1 Ht1) as ([A B C] & Hok & Hex). cbv zeta. split_and!; [|done|].
  - etrans; [exact Hsp|]. split; [done| |done]. intros k j Hk. apply B. set_solver.
  - intros k j. rewrite Hex, Hi1, lookup_delete_Some. cbn [map]. rewrite not_elem_of_cons. naive_solver.
Qed.
End kept_images.

Lemma spares_weaken (P Q : string → Prop) s s' : (∀ k, Q k → P k) → spares P s s' → spares Q s s'.
Proof. intros HQ [A B C]. split; auto. Qed.

Section in_use.
Context `{HashOrder}.

Lemma prunable_targets loaded scope all s : refs_ok s → targets_of s (prunable loaded scope all s).
Proof. intros Hs. by apply filter_targets, images_targets. Qed.

Lemma elem_of_prunable loaded scope all s k i : refs_ok s → st_index s !! k = Some i →
  k ∈ map si_reference (prunable loaded scope all s) ↔ is_prunable_reference k (protected_by loaded scope) (prune_mode all) = true.
Proof.
  intros Hs Hi. rewrite list_elem_of_fmap. split.
  - intros (x & -> & [_ Hp]%elem_of_filter_b). done.
  - intros Hp. exists i. rewrite (ro_key _ Hs _ _ Hi). split; [done|]. apply elem_of_filter_b.
    rewrite (ro_key _ Hs _ _ Hi). split; [apply elem_of_images; by exists k|done].
Qed.

Lemma prunable_false k refs all : is_prunable_reference k refs (prune_mode all) = false ↔
  is_protected_reference k refs = true ∨ (all = false ∧ is_dangling_reference k = false).
Proof. unfold is_prunable_reference. destruct (is_protected_reference k refs), all; cbn; naive_solver. Qed.

(** What a prune leaves, for the boxes of a scope. *)
Lemma images_pruned_exact io loaded scope all s : refs_ok s → let s' := (prune_images io (prunable loaded scope all s) s).1.1.1 in
  spares (λ k, is_protected_reference k (protected_by loaded scope) = true) s s' ∧ refs_ok s' ∧
  (∀ k i, st_index s' !! k = Some i ↔ st_index s !! k = Some i ∧
     (is_protected_reference k (protected_by loaded scope) = true ∨ (all = false ∧ is_dangling_reference k = false))).
Proof.
  intros Hs. destruct (prune_images_spec io _ s Hs (prunable_targets loaded scope all s Hs)) as ([A B C] & Hok & Hex).
  assert (∀ k i, st_index s !! k = Some i → k ∉ map si_reference (prunable loaded scope all s) ↔
    (is_protected_reference k (protected_by loaded scope) = true ∨ (all = false ∧ is_dangling_reference k = false))) as Hiff.
  { intros k i Hi. rewrite (elem_of_prunable _ _ _ _ _ _ Hs Hi), not_true_iff_false. apply prunable_false. }
  cbv zeta. split_and!; [|done|].
  - split; [done| |done]. intros k i Hp Hi. apply Hex. split; [done|]. apply (Hiff k i Hi). by left.
  - intros k i. rewrite Hex. split; intros [Hi Hx]; (split; [done|by apply (Hiff k i Hi)]).
Qed.

(** C29: No image command takes the image of a box away, when the boxes can be loaded (with a state file
    that cannot be read the commands go on as if there were no box).  The store's index lists each
    image under its own reference, with a [sha256:] digest and the directory of that digest as its
    path, as the store writes it.  Then whatever images [rmi] is asked to remove, with or without
    force, and whatever [image-prune] may remove, an image that some loaded box names (in the same
    words, or in words that parse to the same reference) stays in the index, with its layout as it
    was, also when removals fail half-way; and a forced [image-prune] leaves in the index exactly the
    images that are protected or, without [--all], not dangling. *)
Theorem images_in_use_survive io rs all force queries s (Hs : refs_ok s) :
  let s1 := (execute_rmi io (Some rs) force queries s).1.1 in
  let s2 := (execute_image_prune io (Some rs) all force s).1.1.1 in
  spares (in_use rs) s s1 ∧ spares (in_use rs) s s2 ∧
  (force = true → ∀ k i, st_index s2 !! k = Some i ↔ st_index s !! k = Some i ∧
     (is_protected_reference k (referenced_images rs AllBoxes) = true ∨ (all = false ∧ is_dangling_reference k = false))).
Proof.
  cbv zeta. destruct (images_pruned_exact io (Some rs) AllBoxes all s Hs) as (Hsp & _ & Hex). split_and!.
  - eapply spares_weaken; [|by apply (rmi_spares io (Some rs) force queries)]. intros k Hk. by apply in_use_protected.
  - unfold execute_image_prune. destruct force; cbn [negb]; [|done]. eapply spares_weaken; [|exact Hsp]. intros k Hk. by apply in_use_protected.
  - intros ->. exact Hex.
Qed.

(** When the boxes cannot be loaded, [image-prune] takes it that there are none: every image goes. *)
Lemma unreadable_state_unprotects io s : refs_ok s → st_index (execute_image_prune io None true true s).1.1.1 = ∅.
Proof.
  intros Hs. apply map_empty. intros k. destruct (_ !! k) as [i|] eqn:E; [|done]. exfalso.
  unfold execute_image_prune in E. cbn [negb] in E. apply (images_pruned_exact io None AllBoxes true s Hs) in E as [_ [Hp|[? _]]]; [|done].
  apply protected_true in Hp as (x & _ & Hx). by apply not_elem_of_empty in Hx.
Qed.
End in_use.

(** ** The whole machine *)

Definition remaining_boxes (rs : records) : records := List.filter (λ r, negb (is_prunable_box r)) rs.

Lemma filter_shorter {A} (p : A → bool) l : (length (List.filter p l) <? length l)%nat = false → List.filter p l = l.
Proof.
  intros Hl%Nat.ltb_ge. induction l as [|x l IH]; [done|]. cbn in Hl |- *. pose proof (List.filter_length_le p l).
  destruct (p x); cbn in Hl; [|lia]. f_equal. apply IH. lia.
Qed.

Lemma filter_dropped b l rs : List.filter (λ r, negb (bool_decide (b_id r ∈ map b_id l))) (drop_id (b_id b) rs) =
  List.filter (λ r, negb (bool_decide (b_id r ∈ map b_id (b :: l)))) rs.
Proof.
  unfold drop_id. rewrite filter_filter_b. apply List.filter_ext. intros x. rewrite <-negb_orb. f_equal. cbn [map].
  repeat case_bool_decide; set_solver.
Qed.

Lemma remaining_spec rs : NoDup (map b_id rs) →
  List.filter (λ r, negb (bool_decide (b_id r ∈ map b_id (List.filter is_prunable_box rs)))) rs = remaining_boxes rs.
Proof.
  intros Hnd. apply List.filter_ext_in. intros r Hr%list_elem_of_In. f_equal. destruct (is_prunable_box r) eqn:Ep.
  - apply bool_decide_eq_true. apply (list_elem_of_fmap_2 b_id), elem_of_filter_b. done.
  - apply bool_decide_eq_false. intros (x & Ex & [Hx Hp]%elem_of_filter_b)%list_elem_of_fmap.
    assert (x = r) as -> by (eapply same_id; [done..|]; congruence). congruence.
Qed.

Lemma quiet_filter w p rs : quiet w rs → quiet w (List.filter p rs).
Proof.
  intros [Hi Hs Ha]. split; [by apply NoDup_map_filter| |].
  - intros r x [Hr _]%elem_of_filter_b [Hx _]%elem_of_filter_b. by apply Hs.
  - intros r [Hr _]%elem_of_filter_b. by apply Ha.
Qed.

Section whole.
Context `{HashOrder} {ncontent rcontent : Type}.
Context (nets_to : gmap string NetworkConfig → ncontent) (nets_from : ncontent → option (gmap string NetworkConfig)).
Context (recs_to : records → rcontent) (recs_from : rcontent → option records).
Context (nets_roundtrip : ∀ m, nets_from (nets_to m) = Some m) (recs_roundtrip : ∀ rs, recs_from (recs_to rs) = Some rs).

(** The boxes of the list go, from memory and from the file. *)
Lemma prune_boxes_spec pv w l rs dirs n : (∀ id, pv_remove pv id = w) → lock_works w = true → write_works w = true →
  ∃ rs' dirs', foldl (prune_box recs_to pv (ncontent := ncontent)) (rs, Some (recs_to rs), dirs, n) l = (rs', Some (recs_to rs'), dirs', (n + length l)%nat) ∧
  rs' = List.filter (λ r, negb (bool_decide (b_id r ∈ map b_id l))) rs ∧ dirs' ⊆ dirs.
Proof using.
  intros Hpv Hl Hw. revert rs dirs n. induction l as [|b l IH]; intros rs dirs n.
  { exists rs, dirs. cbn. rewrite Nat.add_0_r. split_and!; [done| |done]. by rewrite filter_all. }
  cbn [foldl prune_box]. rewrite Hpv. unfold BoxState.remove. set (rs1 := drop_id (b_id b) rs).
  set (dirs1 := if pv_dir pv (b_box_dir b) then _ else _). assert (dirs1 ⊆ dirs) as Hd1 by (subst dirs1; destruct (pv_dir _ _); [by apply subseteq_difference_l|done]).
  assert (∃ rs' dirs', foldl (prune_box recs_to pv) (rs1, Some (recs_to rs1), dirs1, S n) l = (rs', Some (recs_to rs'), dirs', (n + length (b :: l))%nat) ∧
    rs' = List.filter (λ r, negb (bool_decide (b_id r ∈ map b_id (b :: l)))) rs ∧ dirs' ⊆ dirs) as Hgo.
  { destruct (IH rs1 dirs1 (S n)) as (rs' & dirs' & E & -> & Hd'). rewrite E, <-filter_dropped. eexists _, dirs'.
    split_and!; [|reflexivity|by etrans]. cbn [length]. by rewrite Nat.add_succ_comm. }
  destruct (length rs1 <? length rs)%nat eqn:El.
  - unfold save_state, write_to_disk. by rewrite Hl, Hw.
  - assert (rs1 = rs) as Ers by by apply filter_shorter. by rewrite Ers in Hgo |- *.
Qed.

(** Every removal succeeds. *)
Record prunes (w : world) (pv : prune_env (ncontent := ncontent)) : Prop := {
  pr_boxes : pv_boxes pv = w; pr_remove : ∀ id, pv_remove pv id = w; pr_images : pv_images pv = w; pr_nets : works w (pv_nets pv) }.

Lemma load_quiet w rs : read_works w = true → quiet w rs → load_state recs_to recs_from w (Some (recs_to rs)) = (Some (recs_to rs), Ok rs).
Proof using recs_roundtrip.
  intros Hr [_ _ Ha]. unfold load_state. rewrite Hr, recs_roundtrip. cbn [default]. by rewrite reconcile_nothing.
Qed.

(** What [system-prune] leaves.  With files that can be read and written, a forced run keeps exactly the boxes
    that are neither stopped, dead nor created, so every active one; of the networks exactly the predefined ones,
    those with endpoints and those a remaining_boxes box is configured for; of the images, those an active box names,
    with their layouts, and without [--all] those that are not dangling. *)
Theorem system_prune_exact w pv all files store dirs m rs (Hpv : prunes w pv) (Hs : refs_ok store)
  (Hset : settled nets_from recs_to w files m rs) :
  let '(mc, r) := execute_system_prune nets_to nets_from recs_to recs_from pv all true
                    {| mc_files := files; mc_store := Some store; mc_dirs := dirs |} in
  (∃ counts, r = Ok (Some counts)) ∧ f_state (mc_files mc) = Some (recs_to (remaining_boxes rs)) ∧
  (∀ b, b ∈ rs → is_active b = true → b ∈ remaining_boxes rs) ∧
  (∃ m', stored nets_from ∅ (f_nets (mc_files mc)) = Some m' ∧ ∀ n c, m' !! n = Some c ↔ m !! n = Some c ∧
     (is_predefined_network n = true ∨ net_endpoints c ≠ ∅ ∨ ∃ b, b ∈ remaining_boxes rs ∧ record_network_name b = Some n)) ∧
  (∃ store', mc_store mc = Some store' ∧ (∀ k i, st_index store' !! k = Some i ↔ st_index store !! k = Some i ∧
     (is_protected_reference k (referenced_images (remaining_boxes rs) ActiveBoxes) = true ∨ (all = false ∧ is_dangling_reference k = false))) ∧
   spares (λ k, ∃ b, b ∈ rs ∧ is_active b = true ∧ names_image (b_image b) k) store store').
Proof using nets_roundtrip recs_roundtrip.
  destruct Hpv as [Hb Hrm Him Hnets]. pose proof Hnets as [(Hl & Hr & Hw) Hload _ _]. destruct Hset as [Hm Hd [Hk _] Hq _].
  unfold execute_system_prune. cbn [negb mc_files mc_store mc_dirs]. rewrite Hd, Hb, (load_quiet w rs Hr Hq).
  destruct (prune_boxes_spec pv w (List.filter is_prunable_box rs) rs dirs 0 Hrm Hl Hw) as (rs' & dirs' & -> & -> & _).
  rewrite (remaining_spec rs (qu_ids _ _ Hq)). pose proof (quiet_filter w (λ r, negb (is_prunable_box r)) rs Hq) as Hq'.
  fold (remaining_boxes rs) in Hq'. rewrite Him, (load_quiet w _ Hr Hq'). cbn [mc_store].
  assert (∀ b, b ∈ rs → is_active b = true → b ∈ remaining_boxes rs) as Hact.
  { intros b Hbin Ha. apply elem_of_filter_b. split; [done|]. unfold is_prunable_box. rewrite bool_decide_false; [done|].
    unfold is_active, is_active_status in Ha. apply orb_true_iff in Ha. rewrite !bool_decide_eq_true in Ha. destruct Ha as [-> | ->]; set_solver. }
  destruct (images_pruned_exact (pv_image pv) (Some (remaining_boxes rs)) ActiveBoxes all store Hs) as (Hsp & _ & Hex).
  destruct (prune_images _ _ store) as [[[store' ni] freed] errs]. cbn [fst] in Hsp, Hex.
  rewrite Hload, (load_quiet w _ Hr Hq'). destruct (prune_unused_exact nets_to nets_from nets_roundtrip w (pv_nets pv) (f_nets files) m (remaining_boxes rs) Hnets Hm Hk)
    as (f' & removed & m' & -> & Hm' & Hnet). cbn [mc_files f_state f_nets mc_store].
  split_and!; [by eexists|done|done|by exists m'|]. exists store'. split_and!; [done|done|].
  eapply spares_weaken; [|exact Hsp]. intros k (b & Hbin & Ha & (x & Hx & Hx')%names_alias). apply protected_true. exists x. split; [done|].
  apply elem_of_referenced. exists b. auto.
Qed.
End whole.

(** ** Concrete runs *)

Definition stored_as (reference digest : string) : StoredImage :=
  {| si_reference := reference; si_digest := digest; si_size := 5; si_pulled_at := 0; si_last_used := 0; si_path := dir_name digest |}.
Definition some_store (l : list (string * string)) : ImageStore :=
  {| st_index := list_to_map (map (λ '(r, d), (r, stored_as r d)) l); st_dirs := list_to_map (map (λ '(_, d), (dir_name d, 5%Z)) l);
     st_saved := None; st_max := 100 |}.
Definition alpine : string := "docker.io/library/alpine:latest".
Definition toy_image_store : ImageStore := some_store [(alpine, "sha256:aa"); ("docker.io/library/old:1", "sha256:bb"); ("sha256:cc", "sha256:cc")].

Lemma some_store_ok l : NoDup l.*1 → (∀ r d, (r, d) ∈ l → starts_with "sha256:" d = true) → refs_ok (some_store l).
Proof.
  intros Hnd Hd. assert (∀ k i, st_index (some_store l) !! k = Some i → ∃ d, (k, d) ∈ l ∧ i = stored_as k d) as Hin.
  { intros k i Hi%elem_of_list_to_map_2. apply list_elem_of_fmap in Hi as ([r d] & [= -> ->] & Hrd). by exists d. }
  split; intros k i (d & Hkd & ->)%Hin; [done|]. split; [by eapply Hd|done].
Qed.

Lemma toy_image_store_ok : refs_ok toy_image_store.
Proof.
  apply some_store_ok; [apply (bool_decide_unpack _); vm_compute; reflexivity|].
  intros r d Hin. rewrite !elem_of_cons, elem_of_nil in Hin. by destruct Hin as [[= -> ->]|[[= -> ->]|[[= -> ->]|[]]]].
Qed.

(** The box says [alpine]; forced removal of everything leaves that image. *)
Lemma images_in_use_survive_witness :
  let s1 := (execute_rmi (H := list_order) (λ _, good_removal) (Some [web_box]) true [alpine; "old:1"; "sha256:cc"] toy_image_store).1.1 in
  let s2 := (execute_image_prune (H := list_order) (λ _, good_removal) (Some [web_box]) true true toy_image_store).1.1.1 in
  st_index s1 !! alpine = Some (stored_as alpine "sha256:aa") ∧ st_index s2 !! alpine = Some (stored_as alpine "sha256:aa").
Proof.
  destruct (@images_in_use_survive list_order (λ _, good_removal) [web_box] true true [alpine; "old:1"; "sha256:cc"] toy_image_store toy_image_store_ok)
    as ([_ H1 _] & [_ H2 _] & _).
  assert (in_use [web_box] alpine) as Hu.
  { exists web_box. split; [by left|]. eapply same_parsed; vm_compute; reflexivity. }
  split; [apply H1|apply H2]; first [exact Hu|vm_compute; reflexivity].
Defined.

Definition toy_prune_env : prune_env (ncontent := gmap string NetworkConfig) :=
  {| pv_boxes := nc_save (toy_call true); pv_remove := λ _, nc_save (toy_call true); pv_dir := λ _, true; pv_images := nc_save (toy_call true);
     pv_image := λ _, good_removal; pv_nets := toy_cmd_env true |}.
Definition toy_prune := execute_system_prune (H := list_order) (ncontent := gmap string NetworkConfig) (rcontent := records) id Some id Some toy_prune_env.

Lemma system_prune_exact_witness :
  f_state (mc_files (toy_prune true true {| mc_files := toy_net_files; mc_store := Some toy_image_store; mc_dirs := {["/b"]} |}).1) = Some [web_box].
Proof.
  pose proof (@system_prune_exact list_order (gmap string NetworkConfig) records id Some id Some (λ _, eq_refl) (λ _, eq_refl)
    (nc_save (toy_call true)) toy_prune_env true toy_net_files toy_image_store {["/b"]} {["n" := toy_net]} [web_box; idle_box]) as Ht.
  change (execute_system_prune id Some id Some toy_prune_env true true) with (toy_prune true true) in Ht.
  destruct (toy_prune true true _) as [mc r]. destruct Ht as (_ & Hst & _).
  - split; [done|done|done|exact toy_works].
  - exact toy_image_store_ok.
  - exact toy_settled.
  - exact Hst.
Defined.

(** A box that was created from the digest of an image protects no tag of that image: it is pruned under the box. *)
Lemma digest_box_unprotected r : b_image r = "sha256:aa" →
  st_index (execute_image_prune (H := list_order) (λ _, good_removal) (Some [r]) true true toy_image_store).1.1.1 !! alpine = None.
Proof.
  intros Hr. destruct (_ !! alpine) as [i|] eqn:E; [|done]. exfalso. unfold execute_image_prune in E. cbn [negb] in E.
  apply (@images_pruned_exact list_order (λ _, good_removal) (Some [r]) AllBoxes true toy_image_store toy_image_store_ok) in E as [_ [Hp|[? _]]]; [|done].
  unfold protected_by, referenced_images in Hp. cbn [from_option foldl should_include_record] in Hp. rewrite Hr in Hp. by vm_compute in Hp.
Qed.

(** A box that was connected to a network and never started is pruned without its endpoint: nobody owns the
    endpoint any more, and the network is never unused again. *)
Lemma pruned_box_pins_network :
  let connected := toy_run (toy_cmd_env true) (NConnect "n" "idle") toy_net_files in
  let mc := (toy_prune true true {| mc_files := connected; mc_store := None; mc_dirs := {["/b"]} |}).1 in
  (∃ c, main_file (f_nets (mc_files mc)) = Some {["n" := c]} ∧ is_Some (net_endpoints c !! "b-2")) ∧
  f_state (mc_files mc) = Some [web_box].
Proof. cbv zeta. split; [eexists; split; [vm_compute; reflexivity|vm_compute; by eexists]|vm_compute; reflexivity]. Qed.
